(* ===== verification/_CoqProject ===== *)
-Q . S2P
Prelude.v
Bytes.v
Crc16.v
Gf256.v
SwWire.v
Framing.v
Sbi.v
ArrivalTracker.v
SwConfig.v
LossEpisodes.v
Elim.v
SwDecoder.v
SwDecoderSound.v
SwDecoderProps.v
SwEncoder.v
SwEncoderSound.v
EndToEnd.v
AsyncEncoder.v
AsyncEncoderSound.v
SipHash.v
RcProto.v
RcProtoProps.v
RetxRing.v
NackTracker.v
NackTrackerProps.v
UepEncoder.v
UepDecoder.v
UepSound.v
UepEndToEnd.v
HevcBits.v
HevcPs.v
HevcCabac.v
HevcSlice.v
HevcSkipSlice.v
HevcCabacSound.v
HevcProps.v
Nal.v
HevcParams.v
SliceAssembler.v
FrameStream.v
FrameStreamProps.v
FrameStreamData.v
Profile.v
RcPolicy.v
RcAgent.v
RcAgentSound.v
RcAgentInv.v
RcAgentProps.v
RcAgentIdr.v
RcAgentLink.v
RcAgentEncoder.v
RcAgentGuard.v
RcAgentWitness.v
RungStore.v
LadderController.v
LadderSound.v
LadderProps.v
Rendezvous.v
VrxController.v
VrxProps.v
LinkUp.v
HopVerdict.v
HopController.v
HopRanker.v
ChannelPlan.v
HopLoop.v
HopLoopProps.v
HopCalm.v
HopLink.v
HopWitness.v
DroneTx.v
RetxAnswer.v
RetxLoop.v
RcfSlotter.v
AuRing.v
AuRingRead.v
AuRingProps.v
AuRingPeek.v
Aggregator.v
ProbeTrack.v
