(* ===== verification/Prelude.v ===== *)
(** * mabur: a verification library (root)

    mabur is a one-way digital video link over raw 802.11 radios: a drone encodes H.265, protects
    the frames with a sliding-window erasure code and injects them; one or more ground cards hear
    some of it, and the ground station repairs, reorders and displays.  A narrow control channel
    runs the other way: the ground commands the rate, the channel and key frames, and asks for
    what is still missing.  This library models the program's own logic, component by component,
    and proves what makes each correct.

    ** The parts and how they meet

    Sending (drone).  A frame gets its 8-byte header and is cut into fragments (Framing); each
    fragment is packed into fixed-size symbols by the layer's sliding-window encoder (SwEncoder,
    or AsyncEncoder when a worker thread builds the repairs); envelopes (SwWire) are grouped into
    radio bodies with one CRC per block (Sbi); UepEncoder drives two such layers.  Base-layer
    envelopes stay in a lock-free ring (RetxRing) for retransmission.  Nal classifies frames.

    Receiving (ground).  Aggregator takes what the cards hear, keeps each card's books and sends
    every body its way; ProbeTrack scores the probe stream.  UepDecoder routes a body to its layer, Sbi hands out the blocks that
    survived, SwDecoder admits them, repairs by incremental elimination over GF(256) (Elim,
    Gf256), and accounts for loss (LossEpisodes, ArrivalTracker).  FrameStream puts fragments
    back into frames and frames into order; SliceAssembler streams or salvages a row-sliced
    picture, filling lost slices with skipped ones (HevcBits, HevcPs, HevcSlice, HevcCabac,
    HevcSkipSlice).  HevcParams harvests parameter sets for the recorder.

    Control.  RcProto packs and parses the frames of the control channel, tagged by SipHash.
    NackTracker decides what to ask for again.  On the drone RcAgent (with RcPolicy and Profile)
    is the state machine that pairs, follows orders, paces key frames and falls back when the
    ground is silent.  On the ground VrxController beacons, holds the session (Rendezvous) and
    commands the operating point the measured-loss ladder (LadderController) chooses.
    RcfSlotter holds control frames back until the video is silent.  Repaired frames cross to the
    player through a ring in shared memory (AuRing), one writer and readers that map it read-only.

    ** Files and sources

    [Bytes] put/get helpers of sw_wire.cpp, rc_proto.cpp; [Crc16] crc16.cpp; [Gf256] gf256.cpp
    (scalar and NEON kernels); [SwWire] sw_wire.cpp; [Framing] frame_wire.cpp, frag.cpp; [Sbi]
    sbi.cpp; [ArrivalTracker] arrival_tracker.h; [SwConfig] the configuration of sw_encoder.h and
    the double arithmetic; [LossEpisodes], [Elim], [SwDecoder] sw_decoder.cpp, proved in
    [SwDecoderSound], [SwDecoderProps]; [SwEncoder] sw_encoder.cpp, proved in [SwEncoderSound];
    [EndToEnd] composes encoder, channel and decoder; [AsyncEncoder], [AsyncEncoderSound]
    fec_worker.cpp; [UepEncoder], [UepDecoder] uep_encoder.cpp and uep_decoder.cpp, proved in
    [UepSound], composed in [UepEndToEnd]; [SipHash] siphash.cpp; [RcProto], [RcProtoProps]
    rc_proto.cpp; [RetxRing] retx_ring.h; [NackTracker], [NackTrackerProps]
    nack_tracker.cpp; [HevcBits] hevc_bits.cpp; [HevcPs] hevc_ps.cpp; [HevcSlice]
    hevc_slice.cpp; [HevcCabac] hevc_cabac.cpp; [HevcSkipSlice] hevc_skip_slice.cpp, proved in
    [HevcCabacSound], [HevcProps]; [Nal] nal.cpp; [HevcParams]
    hevc_params.cpp; [SliceAssembler] slice_assembler.cpp; [FrameStream],
    [FrameStreamProps], [FrameStreamData] frame_stream.cpp; [Profile] profile.cpp, air_rate.h,
    channel_set.h; [RcPolicy], [RcAgent] drone/src/rc_agent.cpp, proved in [RcAgentSound]
    (frames of each part), [RcAgentInv] (invariant), [RcAgentProps], [RcAgentIdr],
    [RcAgentLink], [RcAgentEncoder], and run on a flight in [RcAgentWitness].
    [RcAgentGuard] the counter gates of rc_agent.h used by the RX and MAV
    threads.  On the ground: [RungStore] rung_store.cpp; [LadderController] ladder_controller.cpp,
    proved in [LadderSound] and [LadderProps]; [Rendezvous] rendezvous.cpp;
    [VrxController], [VrxProps] vrx_controller.cpp, which is proved against the interface
    [RateControl] the ladder implements; [LinkUp] connects it to the drone's agent byte for byte.
    [DroneTx] tx_queue.h, nack_bucket.h, air_clock.h and tick_gate.h; [RetxAnswer] the drone's answer
    to a request and the ground's pass over its tracker, in the two main.cpp; [RetxLoop] closes that
    loop.  Channel hopping: [HopVerdict] hop_verdict.cpp; [HopController]
    hop_controller.cpp; [HopRanker] hop_ranker.cpp; [ChannelPlan]
    channel_plan.cpp; [HopLoop] puts them and the control loop together as channel_core.cpp does,
    proved in [HopLoopProps] and [HopCalm], and [HopLink] connects a hop to the drone's agent.
    [RcfSlotter] rcf_slot.cpp; [AuRing] au_ring.cpp, whose reader is proved in [AuRingRead] against
    a record of what a writer promises, which [AuRingProps] proves of the writer; [AuRingPeek] its
    views of a frame still being written.  [Aggregator] aggregator.cpp; [ProbeTrack]
    probe_wire.cpp and probe_track.cpp.
    [RcAgentWitness], [LadderProps], [LinkUp] and [HopWitness] evaluate a flight, a climb, a
    pairing and a hop.

    ** Conventions of the models

    A class is a record of its members, an operation a function from state to state, in the order
    of the code's effects.  An outer [None] is what the C++ leaves undefined (an index past a
    buffer, a failed assert); proving [Some] is memory safety.  An inner [None] is the code's own
    refusal.  Unsigned integers are [Z] reduced by [wrap], signed casts are [sext]; [size_t] is
    64 bits.  Doubles are the Standard Library's executable [spec_float] at binary64.  A flag
    [have_x] beside a value is an option.  Callbacks are the events of the result.  Answers of an
    actuator, drawn nonces and schedules come from an environment argument, over which theorems
    quantify.  A member another thread stores to is changed by a step of its own; memory is
    sequentially consistent.

    ** Bounds and fuel

    Loops without a structural measure carry fuel that is proved to suffice: [kCreditFuel] 64
    turns of the repair credit (overheads are at most 4.0 in 64ths: [credit_loop] theorems of
    EndToEnd and UepEndToEnd); 32 leading zeros of an Exp-Golomb code (the reader fails beyond);
    33 doublings of the logarithms; 7 shifts of the arithmetic encoder's renormalisation and 7
    padding bits; one quadtree level per bit of the block size; [65536 - index] fragments of a
    unit; one turn of in-order emission per held slot ([try_emit_fuel]); one insertion per held
    row in the elimination; one attempt per moment of a reader's schedule; a schedule bounds how many steps a worker takes between two accesses
    of its producer.

    ** What the theorems show

    End to end: nothing is invented between the frames sent and the fragments received, whatever
    the radio loses, repeats, reorders or damages ([UepEndToEnd], [EndToEnd]); every call returns
    ([uep_calls_return]); a worker thread changes the order of repairs and nothing else.
    Decoder: soundness, single and immediate delivery, refusal of what is malformed, repair of a
    lone loss, saturation of the elimination, exact loss accounts; the loss gauge reports what a
    record of the whole history says it should.  Codecs: each is a round trip, and damage stays
    where it fell.  Rings and trackers: no torn read, the last envelopes are there, requests are exactly
    what is due.  Pictures: rewriting a header is exact, a fill slice reads back bin for bin, a
    complete unit comes out byte for byte, and of a damaged one what lies before the hole, or its
    leading NAL units and each slice's own bytes or a fill of its rows, never anything else.  Frames: the
    consumer's contract holds over any calls.  Agent: a type invariant over all calls, no replay,
    linked means heard, paced key frames, exact memory of what the encoder took.
    Counters: the two callers' gates refine a set that only grows.  Rate ladder: every sequence of
    calls is a run of an abstract rung machine; a watcher that sees only the calls and the moves
    knows the failures, the penalties and the probe's clean streak behind each climb.
    Pairing: the ground's state says what its log says, its tags never repeat, and a beacon, an
    answer and the first feedback frame link it with any drone of the same key.  Retransmission: a
    symbol asked for and still held comes back and is handed up.  Hopping: a window
    reads as interference exactly for the two patterns of foreign airtime, a fade never hops, the
    controller refines a protocol of orders with epochs and a cap, its targets are sound, the link
    stays on the set and every feedback frame on the air says what was decided last, and a hop
    moves both ends, however long the wait for the first video.  Slotter: what it sends is the newest frame of
    its kind, and when.  Cards: delivery counts, routes and books are exact; a damaged probe
    says what survived of it.  Frame ring: under any interleaving of byte accesses (a reader's loads fall
    at any later moments of the writer's, in one epoch of fewer than 2^31 calls, so the 32-bit lock
    never repeats) what a reader gets is a frame published, whole, and it keeps up or resyncs.

    ** Not modelled, and why

    Weak memory and fences (interleavings are sequentially consistent); damage to a body's stream
    id (a damaged id would send envelopes to the other layer, where only their CRC-checked header
    speaks for them); statistics accessors and log lines, which decide nothing; thread creation,
    affinity and wake-ups.  The video hardware (drone/venc), USB radios, display and menu
    (gs/player), the web ground station, the main loops, the recorder's container and the
    configuration files are input and output around the modelled core.  Third-party code is
    called through parameters.  Still open on the
    ground: channel scanning, the doorbell, link health estimation and calibration. *)
From stdpp Require Export base tactics option list list_numbers gmap.
From Stdlib Require Export ZArith Lia.
From Stdlib Require Export Btauto.

(** ** Scope and notation *)
Declare Scope mabur_scope.
Delimit Scope mabur_scope with mabur.
#[export] Set Default Goal Selector "!".
Open Scope Z_scope.

(** Bytes and wider unsigned integers are [Z]; [a ⊕ b] is the C++ [a ^ b]. *)
Infix "⊕" := Z.lxor (at level 45, left associativity) : mabur_scope.
Open Scope mabur_scope.

(** ** Machine-width integers: the casts of the source *)

(** [static_cast<uintW_t>(z)]: reduction modulo [2^w]. *)
Definition wrap (w z : Z) : Z := z mod 2 ^ w.
Abbreviation u8 := (wrap 8).
Abbreviation u16 := (wrap 16).
Abbreviation u32 := (wrap 32).
Abbreviation u64 := (wrap 64).

(** [static_cast<intW_t>(z)] of an unsigned value: two's complement. *)
Definition sext (w z : Z) : Z :=
  let r := wrap w z in if r <? 2 ^ (w - 1) then r else r - 2 ^ w.
Abbreviation i8 := (sext 8).
Abbreviation i16 := (sext 16).
Abbreviation i32 := (sext 32).

(** Membership in an unsigned width, as a decidable predicate. *)
Definition in_width (w z : Z) : Prop := 0 <= z < 2 ^ w.
Abbreviation is_byte := (in_width 8).
#[export] Instance in_width_dec w z : Decision (in_width w z).
Proof. unfold in_width. apply _. Defined.

(** A byte string: every element is a byte. *)
Abbreviation bytes_ok := (Forall (in_width 8)).

(** [++n] under a condition. *)
Definition b2z (b : bool) : Z := if b then 1 else 0.

(** ** Hint database of the width lemmas *)
Create HintDb width.
Create Rewrite HintDb width.

Lemma wrap_in_width w z : 0 <= w -> in_width w (wrap w z).
Proof. intros. unfold in_width, wrap. apply Z.mod_pos_bound. lia. Qed.

Lemma wrap_small w z : in_width w z -> wrap w z = z.
Proof. unfold in_width, wrap. intros. by apply Z.mod_small. Qed.

Lemma wrap_idem w z : wrap w (wrap w z) = wrap w z.
Proof. unfold wrap. apply Zmod_mod. Qed.

Lemma wrap_range w z : 0 <= w -> 0 <= wrap w z < 2 ^ w.
Proof. apply wrap_in_width. Qed.

Lemma in_width_le w w' z : w <= w' -> in_width w z -> in_width w' z.
Proof.
  unfold in_width. intros ? [? ?]. split; [lia |].
  eapply Z.lt_le_trans; [eassumption |]. apply Z.pow_le_mono_r; lia.
Qed.

(** The bits of a value of width [w] above [w] are zero, and conversely. *)
Lemma in_width_bits w z :
  0 <= w -> 0 <= z -> (forall i, w <= i -> Z.testbit z i = false) -> in_width w z.
Proof.
  intros Hw Hz Hb. split; [done |].
  destruct (Z.eq_dec z 0) as [-> | Hne]; [by apply Z.pow_pos_nonneg |].
  apply Z.log2_lt_pow2; [lia |].
  destruct (Z.lt_ge_cases (Z.log2 z) w) as [|Hge]; [done |].
  specialize (Hb _ Hge). rewrite Z.bit_log2 in Hb by lia. done.
Qed.

Lemma in_width_testbit w z i : 0 <= w <= i -> in_width w z -> Z.testbit z i = false.
Proof.
  intros [Hw Hi] [Hz Hlt]. destruct (Z.eq_dec z 0) as [-> |]; [apply Z.bits_0 |].
  apply Z.bits_above_log2; [done |].
  apply Z.lt_le_trans with w; [| done]. apply Z.log2_lt_pow2; lia.
Qed.

Lemma lxor_in_width w a b :
  0 <= w -> in_width w a -> in_width w b -> in_width w (a ⊕ b).
Proof.
  intros Hw Ha Hb. apply in_width_bits; [done | |].
  - apply Z.lxor_nonneg. destruct Ha, Hb. lia.
  - intros i Hi. rewrite Z.lxor_spec, !(in_width_testbit w) by (done || lia). done.
Qed.

Lemma lor_in_width w a b :
  0 <= w -> in_width w a -> in_width w b -> in_width w (Z.lor a b).
Proof.
  intros Hw Ha Hb. apply in_width_bits; [done | |].
  - apply Z.lor_nonneg. destruct Ha, Hb. lia.
  - intros i Hi. rewrite Z.lor_spec, !(in_width_testbit w) by (done || lia). done.
Qed.

Lemma land_in_width w a b : 0 <= w -> in_width w a -> 0 <= b -> in_width w (Z.land a b).
Proof.
  intros Hw Ha Hb. apply in_width_bits; [done | |].
  - apply Z.land_nonneg. auto.
  - intros i Hi. rewrite Z.land_spec, (in_width_testbit w) by (done || lia). done.
Qed.

Lemma land_ones_wrap w z : 0 <= w -> Z.land z (Z.ones w) = wrap w z.
Proof. intros. by apply Z.land_ones. Qed.

Lemma land_255 z : Z.land z 255 = u8 z.
Proof. apply (land_ones_wrap 8). lia. Qed.

#[export] Hint Resolve wrap_in_width lxor_in_width lor_in_width land_in_width : width.
#[export] Hint Extern 1 (_ <= _) => lia : width.
#[export] Hint Rewrite wrap_idem land_255 : width.

(** [Z] with [xor] is a commutative group of exponent two. *)
Lemma lxor_swap a b c d : (a ⊕ b) ⊕ (c ⊕ d) = (a ⊕ c) ⊕ (b ⊕ d).
Proof. apply Z.bits_inj'. intros n _. rewrite !Z.lxor_spec. btauto. Qed.

Lemma lxor_cancel a b : a ⊕ (a ⊕ b) = b.
Proof. by rewrite <- Z.lxor_assoc, Z.lxor_nilpotent, Z.lxor_0_l. Qed.

(** ** Tactics *)

(** Case analysis on the boolean comparisons the source's guards become. *)
Ltac case_Zb :=
  match goal with
  | |- context [?a <? ?b] => destruct (Z.ltb_spec a b)
  | |- context [?a <=? ?b] => destruct (Z.leb_spec a b)
  | |- context [?a =? ?b] => destruct (Z.eqb_spec a b)
  end.

(** Evaluate the closed powers of two, then decide linear arithmetic with [/] and
    [mod] by constants. *)
Ltac eval_pow2 :=
  repeat match goal with
  | |- context [2 ^ Zpos ?p] =>
      let r := eval vm_compute in (2 ^ Zpos p) in change (2 ^ Zpos p) with r
  | H : context [2 ^ Zpos ?p] |- _ =>
      let r := eval vm_compute in (2 ^ Zpos p) in change (2 ^ Zpos p) with r in H
  end.

Ltac mlia :=
  unfold in_width, wrap in *; eval_pow2; zify; Z.to_euclidean_division_equations; lia.

(** Close a width side condition. *)
Ltac width := solve [eauto with width | mlia].

(** Decide a closed decidable proposition by evaluation. *)
Ltac decided := apply (bool_decide_unpack _); vm_compute; exact I.

(** Split every conjunction of the context and the goal. *)
Ltac split_all := repeat match goal with H : _ /\ _ |- _ => destruct H | |- _ /\ _ => split end.

(** Prove a property of every byte by evaluating it on the 256 values. *)
Definition all_bytes : list Z := seqZ 0 256.

Lemma all_bytes_forall (P : Z -> bool) :
  forallb P all_bytes = true -> forall b, is_byte b -> P b = true.
Proof.
  intros H b Hb. apply (proj1 (forallb_forall P all_bytes) H).
  apply list_elem_of_In, elem_of_seqZ. unfold in_width in Hb. lia.
Qed.

Lemma all_bytes_forall2 (P : Z -> Z -> bool) :
  forallb (fun a => forallb (P a) all_bytes) all_bytes = true ->
  forall a b, is_byte a -> is_byte b -> P a b = true.
Proof.
  intros H a b Ha Hb.
  exact (all_bytes_forall _ (all_bytes_forall (fun a => forallb (P a) all_bytes) H a Ha) b Hb).
Qed.

(** Each element relates to every later one. *)
Lemma ord_pairs_snoc {A} (R : A -> A -> Prop) l x :
  ForallOrdPairs R l -> Forall (fun y => R y x) l -> ForallOrdPairs R (l ++ [x]).
Proof.
  induction 1 as [|y l Hy Hl IH]; cbn; intros Hx; [by repeat constructor |].
  apply Forall_cons in Hx as [Hyx Hx]. constructor; [| by apply IH]. apply Forall_app. by split; [| constructor].
Qed.
