(* ===== verification/Bytes.v ===== *)
(** * Bytes: little-endian fields and bounds-checked buffer reads

    The helpers every wire format of the repository repeats: [put16]/[put32]/[put64]
    and [get16]/[get32]/[get64] (rc_proto.cpp), [rd16]/[rd32] (sw_wire.cpp),
    [sbi_rd_u16] (sbi.cpp).  A read of [buf[off]] is a list lookup: it is [None]
    past the end, where the C++ reads out of bounds.  A parser is therefore a
    computation in the [option] monad whose [None] is an out-of-bounds read, and
    "the parser returns [Some _] on every buffer" is its memory safety. *)
From S2P Require Import Prelude.

(** ** Writers *)

Definition put16 (v : Z) : list Z :=
  [Z.land v 255; Z.land (Z.shiftr v 8) 255].

Definition put32 (v : Z) : list Z :=
  [Z.land v 255; Z.land (Z.shiftr v 8) 255;
   Z.land (Z.shiftr v 16) 255; Z.land (Z.shiftr v 24) 255].

Definition put64 (v : Z) : list Z :=
  put32 (Z.land v (2 ^ 32 - 1)) ++ put32 (Z.shiftr v 32).

(** ** Readers; [None] is an out-of-bounds read *)

Definition get8 (buf : list Z) (off : nat) : option Z := buf !! off.

Definition get16 (buf : list Z) (off : nat) : option Z :=
  a ← buf !! off; b ← buf !! S off; Some (Z.lor a (Z.shiftl b 8)).

Definition get32 (buf : list Z) (off : nat) : option Z :=
  a ← buf !! off; b ← buf !! S off;
  c ← buf !! S (S off); d ← buf !! S (S (S off));
  Some (Z.lor (Z.lor (Z.lor a (Z.shiftl b 8)) (Z.shiftl c 16)) (Z.shiftl d 24)).

Definition get64 (buf : list Z) (off : nat) : option Z :=
  lo ← get32 buf off; hi ← get32 buf (4 + off)%nat;
  Some (Z.lor lo (Z.shiftl hi 32)).

(** ** Reassembly of the bytes of a value *)

(** An [|] of disjoint fields is a sum. *)
Lemma lor_shiftl_add a b k :
  0 <= k -> in_width k a -> Z.lor a (Z.shiftl b k) = a + b * 2 ^ k.
Proof.
  intros Hk Ha. rewrite <- Z.shiftl_mul_pow2 by done. symmetry.
  apply Z.add_nocarry_lor.
  apply Z.bits_inj'. intros i Hi. rewrite Z.land_spec, Z.bits_0, Z.shiftl_spec by done.
  destruct (Z.lt_ge_cases i k).
  - rewrite (Z.testbit_neg_r _ (i - k)) by lia. by rewrite andb_false_r.
  - by rewrite (in_width_testbit k a i) by (done || lia).
Qed.

Lemma land_byte v : Z.land v 255 = v mod 256.
Proof. exact (land_255 v). Qed.

(** Turn masks and shifts into [mod] and [div], which [lia] decides. *)
Ltac to_arith :=
  unfold in_width in *;
  repeat rewrite ?land_byte, ?Z.shiftr_div_pow2 by lia;
  repeat match goal with
  | |- context [Z.lor ?a (Z.shiftl ?b ?k)] =>
      lazymatch a with
      | context [Z.lor] => fail
      | _ => rewrite (lor_shiftl_add a b k) by mlia
      end
  end.

Lemma le16_id v :
  in_width 16 v ->
  Z.lor (Z.land v 255) (Z.shiftl (Z.land (Z.shiftr v 8) 255) 8) = v.
Proof. intros Hv. to_arith. mlia. Qed.

Lemma le32_id v :
  in_width 32 v ->
  Z.lor (Z.lor (Z.lor (Z.land v 255) (Z.shiftl (Z.land (Z.shiftr v 8) 255) 8))
    (Z.shiftl (Z.land (Z.shiftr v 16) 255) 16))
    (Z.shiftl (Z.land (Z.shiftr v 24) 255) 24) = v.
Proof. intros Hv. to_arith. mlia. Qed.

Lemma le64_id v :
  in_width 64 v ->
  Z.lor (Z.land v (2 ^ 32 - 1)) (Z.shiftl (Z.shiftr v 32) 32) = v.
Proof.
  intros Hv. change (2 ^ 32 - 1) with (Z.ones 32). rewrite Z.land_ones by lia.
  to_arith. mlia.
Qed.

(** ** Reading back what was written, at any offset *)

Lemma lookup_app_at {A} (pre l : list A) (i : nat) :
  (pre ++ l) !! (length pre + i)%nat = l !! i.
Proof. rewrite lookup_app_r by lia. f_equal. lia. Qed.

Lemma get16_app pre l off :
  get16 (pre ++ l) (length pre + off) = get16 l off.
Proof.
  unfold get16. rewrite lookup_app_at.
  replace (S (length pre + off)) with (length pre + S off)%nat by lia.
  by rewrite lookup_app_at.
Qed.

Lemma get32_app pre l off :
  get32 (pre ++ l) (length pre + off) = get32 l off.
Proof.
  unfold get32. rewrite lookup_app_at.
  replace (S (length pre + off)) with (length pre + S off)%nat by lia.
  replace (S (length pre + S off)) with (length pre + S (S off))%nat by lia.
  replace (S (length pre + S (S off))) with (length pre + S (S (S off)))%nat by lia.
  by rewrite !lookup_app_at.
Qed.

Lemma get64_app pre l off :
  get64 (pre ++ l) (length pre + off) = get64 l off.
Proof.
  unfold get64. rewrite get32_app.
  replace (4 + (length pre + off))%nat with (length pre + (4 + off))%nat by lia.
  by rewrite get32_app.
Qed.

Lemma get16_put16 v l : in_width 16 v -> get16 (put16 v ++ l) 0 = Some v.
Proof. intros Hv. unfold get16, put16. simpl. by rewrite le16_id. Qed.

Lemma get32_put32 v l : in_width 32 v -> get32 (put32 v ++ l) 0 = Some v.
Proof. intros Hv. unfold get32, put32. simpl. by rewrite le32_id. Qed.

Lemma get64_put64 v l : in_width 64 v -> get64 (put64 v ++ l) 0 = Some v.
Proof.
  intros Hv. unfold get64, put64.
  assert (Hlo : in_width 32 (Z.land v (2 ^ 32 - 1))).
  { change (2 ^ 32 - 1) with (Z.ones 32). rewrite land_ones_wrap by lia. width. }
  assert (Hhi : in_width 32 (Z.shiftr v 32)) by (to_arith; mlia).
  rewrite <- app_assoc, get32_put32 by done. cbn [mbind option_bind].
  replace (4 + 0)%nat with (length (put32 (Z.land v (2 ^ 32 - 1))) + 0)%nat by done.
  rewrite get32_app, get32_put32 by done. cbn [mbind option_bind].
  f_equal. by apply le64_id.
Qed.

(** ** Writing back what was read *)

Lemma get16_width a b :
  is_byte a -> is_byte b -> in_width 16 (Z.lor a (Z.shiftl b 8)).
Proof. intros Ha Hb. to_arith. mlia. Qed.

Lemma get32_width a b c d :
  is_byte a -> is_byte b -> is_byte c -> is_byte d ->
  in_width 32 (Z.lor (Z.lor (Z.lor a (Z.shiftl b 8)) (Z.shiftl c 16)) (Z.shiftl d 24)).
Proof. intros Ha Hb Hc Hd. to_arith. mlia. Qed.

Lemma put16_read a b :
  is_byte a -> is_byte b -> put16 (Z.lor a (Z.shiftl b 8)) = [a; b].
Proof. intros Ha Hb. unfold put16. to_arith. repeat f_equal; mlia. Qed.

Lemma put32_read a b c d :
  is_byte a -> is_byte b -> is_byte c -> is_byte d ->
  put32 (Z.lor (Z.lor (Z.lor a (Z.shiftl b 8)) (Z.shiftl c 16)) (Z.shiftl d 24)) = [a; b; c; d].
Proof. intros Ha Hb Hc Hd. unfold put32. to_arith. repeat f_equal; mlia. Qed.

(** Expose the first [n] bytes of a buffer that is long enough. *)
Ltac explode_buf p n :=
  lazymatch n with
  | O => idtac
  | S ?n => destruct p as [|? p]; [cbn in *; lia |]; explode_buf p n
  end.

(** Invert [Forall] over an explicit prefix. *)
Ltac inv_bytes :=
  repeat match goal with
  | H : Forall _ (_ :: _) |- _ => apply Forall_cons in H as [? H]
  end.

(** ** Totality: a read inside the buffer never fails, and yields a value of the
    field's width *)

Lemma get8_in buf off : (off < length buf)%nat -> exists v, get8 buf off = Some v.
Proof. intros H. destruct (lookup_lt_is_Some_2 buf off H) as [v Hv]. by exists v. Qed.

Lemma get16_in buf off :
  (S off < length buf)%nat -> exists v, get16 buf off = Some v.
Proof.
  intros H. unfold get16.
  destruct (lookup_lt_is_Some_2 buf off) as [a ->]; [lia |].
  destruct (lookup_lt_is_Some_2 buf (S off)) as [b ->]; [lia |]. simpl. eauto.
Qed.

Lemma get32_in buf off :
  (S (S (S off)) < length buf)%nat -> exists v, get32 buf off = Some v.
Proof.
  intros H. unfold get32.
  destruct (lookup_lt_is_Some_2 buf off) as [a ->]; [lia |].
  destruct (lookup_lt_is_Some_2 buf (S off)) as [b ->]; [lia |].
  destruct (lookup_lt_is_Some_2 buf (S (S off))) as [c ->]; [lia |].
  destruct (lookup_lt_is_Some_2 buf (S (S (S off)))) as [d ->]; [lia |]. simpl. eauto.
Qed.

Lemma get64_in buf off :
  (7 + off < length buf)%nat -> exists v, get64 buf off = Some v.
Proof.
  intros H. unfold get64.
  destruct (get32_in buf off) as [a ->]; [lia |].
  destruct (get32_in buf (4 + off)) as [b Hb]; [lia |].
  simpl in *. rewrite Hb. eauto.
Qed.

(** Discharge every read of a parser whose length guard is in the context. *)
Ltac reads_in :=
  repeat match goal with
  | |- context [get8 ?b ?o] =>
      let v := fresh "v" in let E := fresh "E" in
      destruct (get8_in b o) as [v E]; [lia | rewrite E; simpl]
  | |- context [get16 ?b ?o] =>
      let v := fresh "v" in let E := fresh "E" in
      destruct (get16_in b o) as [v E]; [lia | rewrite E; simpl]
  | |- context [get32 ?b ?o] =>
      let v := fresh "v" in let E := fresh "E" in
      destruct (get32_in b o) as [v E]; [lia | rewrite E; simpl]
  | |- context [get64 ?b ?o] =>
      let v := fresh "v" in let E := fresh "E" in
      destruct (get64_in b o) as [v E]; [lia | rewrite E; simpl]
  end.

Lemma put16_bytes v : bytes_ok (put16 v).
Proof. repeat constructor; rewrite land_byte; mlia. Qed.

Lemma put32_bytes v : bytes_ok (put32 v).
Proof. repeat constructor; rewrite land_byte; mlia. Qed.

Lemma put64_bytes v : bytes_ok (put64 v).
Proof. apply Forall_app; split; apply put32_bytes. Qed.

#[export] Hint Resolve put16_bytes put32_bytes put64_bytes : width.

(** A block read [p[off .. off+n)]. *)
Definition get_slice (buf : list Z) (off n : nat) : option (list Z) :=
  if (off + n <=? length buf)%nat then Some (take n (drop off buf)) else None.

Lemma get_slice_in buf off n :
  (off + n <= length buf)%nat -> get_slice buf off n = Some (take n (drop off buf)).
Proof. intros H. unfold get_slice. by rewrite (proj2 (Nat.leb_le _ _) H). Qed.
