(* ===== verification/Crc16.v ===== *)
(** * Crc16: CRC-16/CCITT-FALSE (common/src/crc16.cpp)

    [make_table] builds the 256-entry table by the bit-serial recurrence
    ([crc_bit] eight times); [crc16_ccitt] runs one table lookup per byte.  The
    library shows that the table form is the bit-serial register
    ([crc_step_serial]), that it is linear, and that no error confined to two
    adjacent bytes goes undetected ([crc16_detects]). *)
From S2P Require Import Prelude Bytes.

(** ** The source's definitions *)

(** The inner loop of [make_table]: one bit of the recurrence. *)
Definition crc_bit (crc : Z) : Z :=
  if Z.testbit crc 15 then u16 (Z.shiftl crc 1 ⊕ 4129) else u16 (Z.shiftl crc 1).

Definition make_table : list Z :=
  map (fun i => Nat.iter 8 crc_bit (u16 (Z.shiftl i 8))) all_bytes.

(** [constexpr kTable]: the table is evaluated once, at definition time. *)
Definition kTable : list Z := Eval vm_compute in make_table.

(** [crc = (crc << 8) ^ kTable[((crc >> 8) ^ data[i]) & 0xFF]]. *)
Definition crc_step (crc b : Z) : Z :=
  u16 (Z.shiftl crc 8 ⊕ nth (Z.to_nat (Z.land (Z.shiftr crc 8 ⊕ b) 255)) kTable 0).

Definition crc16_ccitt (data : list Z) (init : Z) : Z := foldl crc_step init data.

(** The default argument of the header. *)
Definition crc16_init : Z := 65535.
Abbreviation crc16 data := (crc16_ccitt data crc16_init).

(** CRC-16/CCITT-FALSE check value. *)
Example crc16_check : crc16 [49; 50; 51; 52; 53; 54; 55; 56; 57] = 10673.
Proof. vm_compute. reflexivity. Qed.

(** ** The bit-serial register is linear over xor *)

Lemma u16_lxor a b : u16 (a ⊕ b) = u16 a ⊕ u16 b.
Proof.
  rewrite <- !land_ones_wrap by lia. apply Z.bits_inj'. intros i _.
  rewrite !Z.land_spec, !Z.lxor_spec, !Z.land_spec. btauto.
Qed.

Lemma crc_bit_lxor a b : crc_bit (a ⊕ b) = crc_bit a ⊕ crc_bit b.
Proof.
  unfold crc_bit. rewrite Z.lxor_spec, Z.shiftl_lxor.
  destruct (Z.testbit a 15), (Z.testbit b 15); cbn [xorb];
    rewrite <- !u16_lxor; f_equal;
    apply Z.bits_inj'; intros i _; rewrite !Z.lxor_spec; btauto.
Qed.

Lemma crc_bit_width a : in_width 16 (crc_bit a).
Proof. unfold crc_bit. case_match; width. Qed.

Lemma iter_crc_bit_lxor n a b :
  Nat.iter n crc_bit (a ⊕ b) = Nat.iter n crc_bit a ⊕ Nat.iter n crc_bit b.
Proof. induction n as [|n IH]; [done |].
  by rewrite !Nat.iter_succ, IH, crc_bit_lxor. Qed.

Lemma iter_crc_bit_width n a :
  in_width 16 a -> in_width 16 (Nat.iter n crc_bit a).
Proof. destruct n; [done |]. intros _. rewrite Nat.iter_succ. apply crc_bit_width. Qed.

(** A register holding a zero byte high just shifts. *)
Lemma iter8_low b : is_byte b -> Nat.iter 8 crc_bit b = Z.shiftl b 8.
Proof.
  intros Hb. apply Z.eqb_eq.
  exact (all_bytes_forall (fun b => Nat.iter 8 crc_bit b =? Z.shiftl b 8)
           ltac:(vm_compute; reflexivity) b Hb).
Qed.

Lemma kTable_spec i :
  is_byte i -> nth (Z.to_nat i) kTable 0 = Nat.iter 8 crc_bit (Z.shiftl i 8).
Proof.
  intros Hi. apply Z.eqb_eq.
  exact (all_bytes_forall
           (fun i => nth (Z.to_nat i) kTable 0 =? Nat.iter 8 crc_bit (Z.shiftl i 8))
           ltac:(vm_compute; reflexivity) i Hi).
Qed.

(** Split a register into its two bytes. *)
Lemma split16 c : in_width 16 c -> c = Z.shiftl (Z.shiftr c 8) 8 ⊕ u8 c.
Proof.
  intros Hc. rewrite <- land_255. apply Z.bits_inj'. intros i Hi.
  change 255 with (Z.ones 8).
  rewrite Z.lxor_spec, Z.land_spec, Z.shiftl_spec by done.
  destruct (Z.lt_ge_cases i 8).
  - by rewrite Z.ones_spec_low, (Z.testbit_neg_r _ (i - 8)), andb_true_r by lia.
  - rewrite Z.ones_spec_high, Z.shiftr_spec, andb_false_r, xorb_false_r by lia.
    f_equal. lia.
Qed.

(** ** The reference: eight bit steps per byte *)

Definition crc_serial (crc b : Z) : Z := Nat.iter 8 crc_bit (crc ⊕ Z.shiftl b 8).

Lemma byte_shiftr c : in_width 16 c -> is_byte (Z.shiftr c 8).
Proof. intros. rewrite Z.shiftr_div_pow2 by lia. mlia. Qed.

Lemma byte_shiftl b : is_byte b -> in_width 16 (Z.shiftl b 8).
Proof. intros. rewrite Z.shiftl_mul_pow2 by lia. mlia. Qed.

#[export] Hint Resolve byte_shiftr byte_shiftl crc_bit_width iter_crc_bit_width : width.

Lemma crc_step_width c b : in_width 16 (crc_step c b).
Proof. unfold crc_step. width. Qed.

Lemma u16_shiftl8 c : u16 (Z.shiftl c 8) = Z.shiftl (u8 c) 8.
Proof. rewrite !Z.shiftl_mul_pow2 by lia. mlia. Qed.

Lemma crc_step_serial c b :
  in_width 16 c -> is_byte b -> crc_step c b = crc_serial c b.
Proof.
  intros Hc Hb. unfold crc_step, crc_serial.
  set (x := Z.shiftr c 8 ⊕ b).
  assert (Hx : is_byte x) by width.
  rewrite land_255, (wrap_small 8 x) by done. rewrite kTable_spec by done.
  rewrite (split16 c Hc) at 2.
  replace (Z.shiftl (Z.shiftr c 8) 8 ⊕ u8 c ⊕ Z.shiftl b 8)
    with (Z.shiftl x 8 ⊕ u8 c)
    by (unfold x; rewrite Z.shiftl_lxor; apply Z.bits_inj'; intros i _;
        rewrite !Z.lxor_spec; btauto).
  rewrite iter_crc_bit_lxor, (iter8_low (u8 c)), u16_lxor, u16_shiftl8 by width.
  rewrite (wrap_small 16) by width. apply Z.lxor_comm.
Qed.

(** ** Injectivity: the register never forgets *)

Lemma crc_bit_ker a : in_width 16 a -> crc_bit a = 0 -> a = 0.
Proof.
  intros Ha. unfold crc_bit. destruct (Z.testbit a 15) eqn:Hbit.
  - intros H. exfalso. rewrite u16_lxor in H.
    assert (Hodd : Z.odd (u16 (Z.shiftl a 1) ⊕ u16 4129) = true).
    { rewrite <- Z.bit0_odd, Z.lxor_spec, <- !land_ones_wrap, !Z.land_spec by lia.
      rewrite Z.shiftl_spec_low by lia. reflexivity. }
    by rewrite H in Hodd.
  - rewrite Z.shiftl_mul_pow2 by lia. intros H.
    assert (a < 2 ^ 15).
    { assert (Ha15 : in_width 15 a); [| apply Ha15].
      apply in_width_bits; [lia | apply Ha |]. intros i Hi.
      destruct (Z.eq_dec i 15) as [-> |]; [done |].
      apply (in_width_testbit 16); [lia | done]. }
    mlia.
Qed.

Lemma lxor_eq_iff a b : a ⊕ b = 0 <-> a = b.
Proof. split; [apply Z.lxor_eq | intros ->; apply Z.lxor_nilpotent]. Qed.

Lemma iter_crc_bit_inj n a b :
  in_width 16 a -> in_width 16 b ->
  Nat.iter n crc_bit a = Nat.iter n crc_bit b -> a = b.
Proof.
  intros Ha Hb. induction n as [|n IH]; [done |].
  rewrite !Nat.iter_succ. intros H. apply IH.
  apply lxor_eq_iff, crc_bit_ker; [width |].
  rewrite crc_bit_lxor. by apply lxor_eq_iff.
Qed.

Lemma crc_step_inj_state c c' b :
  in_width 16 c -> in_width 16 c' -> is_byte b ->
  crc_step c b = crc_step c' b -> c = c'.
Proof.
  intros Hc Hc' Hb. rewrite !crc_step_serial by done. unfold crc_serial. intros H.
  apply iter_crc_bit_inj in H; [| width | width].
  apply (f_equal (fun z => z ⊕ Z.shiftl b 8)) in H.
  by rewrite !Z.lxor_assoc, !Z.lxor_nilpotent, !Z.lxor_0_r in H.
Qed.

Lemma crc16_width data c : in_width 16 c -> in_width 16 (crc16_ccitt data c).
Proof.
  revert c. induction data as [|b data IH]; intros c Hc; [done |].
  apply IH, crc_step_width.
Qed.

Lemma crc16_init_width : in_width 16 crc16_init.
Proof. unfold crc16_init. mlia. Qed.

#[export] Hint Resolve crc_step_width crc16_width crc16_init_width : width.

Lemma crc16_app l1 l2 c : crc16_ccitt (l1 ++ l2) c = crc16_ccitt l2 (crc16_ccitt l1 c).
Proof. apply foldl_app. Qed.

Lemma crc16_inj_state data c c' :
  bytes_ok data -> in_width 16 c -> in_width 16 c' ->
  crc16_ccitt data c = crc16_ccitt data c' -> c = c'.
Proof.
  intros Hd. revert c c'. induction Hd as [|b data Hb Hd IH]; intros c c' Hc Hc'; [done |].
  cbn. intros H. apply (crc_step_inj_state c c' b); try done. apply IH; [width | width | done].
Qed.

(** Two steps are sixteen bit steps of the register xored with both bytes. *)
Lemma crc_two_steps c a b :
  in_width 16 c -> is_byte a -> is_byte b ->
  crc_step (crc_step c a) b = Nat.iter 16 crc_bit (c ⊕ Z.shiftl a 8 ⊕ b).
Proof.
  intros Hc Ha Hb. rewrite (crc_step_serial (crc_step c a)) by width.
  rewrite crc_step_serial by done. unfold crc_serial.
  rewrite <- (iter8_low b) by done. rewrite <- iter_crc_bit_lxor.
  by rewrite <- (Nat.iter_add 8 8).
Qed.

Lemma crc_two_inj c a b a' b' :
  in_width 16 c -> is_byte a -> is_byte b -> is_byte a' -> is_byte b' ->
  crc_step (crc_step c a) b = crc_step (crc_step c a') b' -> a = a' /\ b = b'.
Proof.
  intros Hc Ha Hb Ha' Hb'. rewrite !crc_two_steps by done. intros H.
  assert (W : forall x, is_byte x -> in_width 16 x).
  { intros x Hx. apply (in_width_le 8 16); [lia | done]. }
  apply iter_crc_bit_inj in H; [| width | width].
  rewrite !(Z.lxor_assoc c) in H. apply (f_equal (Z.lxor c)) in H.
  rewrite !lxor_cancel in H.
  rewrite <- !(Z.lxor_comm b), <- !(Z.lxor_comm b') in H.
  assert (Hsum : forall x y, is_byte x -> is_byte y -> y ⊕ Z.shiftl x 8 = y + x * 2 ^ 8).
  { intros x y Hx Hy. rewrite <- lor_shiftl_add by (done || lia).
    apply Z.lxor_lor, Z.bits_inj'. intros i Hi.
    rewrite Z.land_spec, Z.bits_0, Z.shiftl_spec by done.
    destruct (Z.lt_ge_cases i 8).
    - by rewrite (Z.testbit_neg_r _ (i - 8)), andb_false_r by lia.
    - by rewrite (in_width_testbit 8 y) by (done || lia). }
  rewrite !Hsum in H by done. split; mlia.
Qed.

(** Any change confined to two adjacent bytes changes the checksum. *)
Lemma crc16_detects_pair pre suf a b a' b' :
  bytes_ok suf -> is_byte a -> is_byte b -> is_byte a' -> is_byte b' ->
  (a, b) <> (a', b') ->
  crc16 (pre ++ [a; b] ++ suf) <> crc16 (pre ++ [a'; b'] ++ suf).
Proof.
  intros Hs Ha Hb Ha' Hb' Hne H. apply Hne. rewrite !crc16_app in H.
  apply crc16_inj_state in H; [| done | width | width].
  cbn in H. apply crc_two_inj in H; [| width | done..]. by destruct H as [-> ->].
Qed.

(** ** The property *)

(** The table-driven checksum is the bit-serial CRC-16/CCITT register (a fold of
    [crc_serial], eight shifts per byte, from the same preset), always fits in 16 bits,
    and detects every error burst confined to two adjacent bytes, wherever it falls. *)
Theorem crc16_correct (data pre suf : list Z) (a b a' b' : Z) :
  bytes_ok data ->
  crc16 data = foldl crc_serial crc16_init data /\ in_width 16 (crc16 data) /\
  (bytes_ok suf -> is_byte a -> is_byte b -> is_byte a' -> is_byte b' -> (a, b) <> (a', b') ->
   crc16 (pre ++ [a; b] ++ suf) <> crc16 (pre ++ [a'; b'] ++ suf)).
Proof.
  intros Hd. split; [| split; [width | by apply crc16_detects_pair]].
  assert (Hi : in_width 16 crc16_init) by width. revert Hi. unfold crc16_ccitt.
  generalize crc16_init. induction Hd as [|x data Hx Hd IH]; intros c Hc; [done |].
  cbn [foldl]. rewrite <- crc_step_serial by done. apply IH. width.
Qed.

Example crc16_correct_witness :
  crc16 [1; 2; 3] = foldl crc_serial crc16_init [1; 2; 3] /\
  crc16 [7; 1; 2; 8] <> crc16 [7; 2; 1; 8].
Proof.
  split; [apply (crc16_correct [1; 2; 3] [] [] 0 0 0 0); decided |].
  apply (crc16_correct [] [7] [8] 1 2 2 1); decided.
Defined.
