(* ===== verification/Gf256.v ===== *)
(** * Gf256: arithmetic in GF(2^8) and the FEC kernels (common/src/gf256.cpp)

    The field is the one of the primitive polynomial 0x11D.  [Tables] builds the
    log/exp tables by the source's loops; [mul] and [inv] are its lookups.  The
    kernels [lincomb] (one row) and [lincomb_rows] (one repair symbol) exist in the
    source in a scalar form and in NEON forms that multiply through split-nibble
    tables in blocks of 16 and 64 lanes; both are modelled and shown equal. *)
From S2P Require Import Prelude.

(** ** Tables *)

Definition kGfPoly : Z := 285.

(** One turn of the power loop: [x <<= 1; if (x & 0x100) x ^= kGfPoly]. *)
Definition gf_dbl (x : Z) : Z :=
  let x := Z.shiftl x 1 in if Z.testbit x 8 then x ⊕ kGfPoly else x.

Record Tables := mkTables { t_exp : list Z; t_log : list Z }.

(** The constructor: 255 powers with their logs, then the wrapped-around copy. *)
Definition make_tables : Tables :=
  let '(_, e, l) :=
    foldl (fun '(x, e, l) i => (gf_dbl x, <[i := u8 x]> e, <[Z.to_nat x := u8 (Z.of_nat i)]> l))
      (1, replicate 512 0, replicate 256 0) (seq 0 255) in
  mkTables (foldl (fun e i => <[i := nth (i - 255) e 0]> e) e (seq 255 257)) l.

(** [static const Tables t]: evaluated once. *)
Definition tables : Tables := Eval vm_compute in make_tables.

Definition exp_at (i : Z) : Z := nth (Z.to_nat i) (t_exp tables) 0.
Definition log_at (a : Z) : Z := nth (Z.to_nat a) (t_log tables) 0.

(** ** Field operations *)

Definition gf_inv (a : Z) : Z := exp_at (255 - log_at a).

Definition gf_pow (a e : Z) : Z :=
  if e =? 0 then 1 else if a =? 0 then 0 else exp_at (Z.rem (log_at a * e) 255).

Definition mul (a b : Z) : Z :=
  if (a =? 0) || (b =? 0) then 0 else exp_at (log_at a + log_at b).

Definition inv (a : Z) : Z := if a =? 0 then 0 else gf_inv a.

(** ** Kernels, scalar form *)

(** [lincomb(acc, sym, coeff, len)]: [acc[i] ^= coeff * sym[i]] for [i < len].  Bytes of
    [acc] past [len] are untouched; both buffers hold at least [len] bytes. *)
Fixpoint lincomb_loop (lc : Z) (acc sym : list Z) (len : nat) : list Z :=
  match len, acc, sym with
  | S n, a :: acc', s :: sym' =>
      (if s =? 0 then a else a ⊕ exp_at (lc + log_at s)) :: lincomb_loop lc acc' sym' n
  | _, _, _ => acc
  end.

Definition lincomb (acc sym : list Z) (coeff : Z) (len : nat) : list Z :=
  if coeff =? 0 then acc else lincomb_loop (log_at coeff) acc sym len.

(** [lincomb_rows], scalar build: [memset] then one [lincomb] per row.  [rows] and
    [coeffs] are the first [n] entries of the C arrays. *)
Definition lincomb_rows (rows : list (list Z)) (coeffs : list Z) (len : nat) : list Z :=
  foldl (fun out '(r, c) => lincomb out r c len) (replicate len 0) (zip rows coeffs).

(** ** Kernels, NEON form *)

(** Split-nibble tables: [lo[c][x] = c*x], [hi[c][x] = c*(x << 4)]. *)
Definition nibble_lo (c : Z) : list Z := map (fun x => mul c x) (seqZ 0 16).
Definition nibble_hi (c : Z) : list Z := map (fun x => mul c (Z.shiftl x 4)) (seqZ 0 16).

(** One lane of [vqtbl1q_u8] / the paired [vtbl.8]: a table lookup that yields zero
    past the sixteen entries. *)
Definition vtbl (t : list Z) (i : Z) : Z := nth (Z.to_nat i) t 0.

(** One lane of [mul16]: [lo[s & 0xF] ^ hi[s >> 4]]. *)
Definition mul16_lane (c s : Z) : Z :=
  vtbl (nibble_lo c) (Z.land s 15) ⊕ vtbl (nibble_hi c) (Z.shiftr s 4).

Definition mul16 (c : Z) (s : list Z) : list Z := map (mul16_lane c) s.
Definition veorq (a b : list Z) : list Z := zip_with Z.lxor a b.

(** The block loop [for (; i + w <= len; i += w)] over both buffers: full blocks of [w]
    lanes through [f], the rest left to [tail].  The fuel is the buffer length. *)
Fixpoint blocks (fuel w : nat) (f : list Z -> list Z -> list Z)
    (tail : list Z -> list Z -> nat -> list Z) (acc sym : list Z) (len : nat) : list Z :=
  match fuel with
  | O => acc
  | S fuel =>
      if (w <=? len)%nat
      then f (take w acc) (take w sym) ++
           blocks fuel w f tail (drop w acc) (drop w sym) (len - w)
      else tail acc sym len
  end.

Definition lincomb_block (coeff : Z) (acc sym : list Z) : list Z :=
  veorq acc (mul16 coeff sym).

(** [lincomb], aarch64 build: 16-lane blocks, scalar tail. *)
Definition lincomb_aarch64 (acc sym : list Z) (coeff : Z) (len : nat) : list Z :=
  if coeff =? 0 then acc
  else blocks (S len) 16 (lincomb_block coeff) (lincomb_loop (log_at coeff)) acc sym len.

(** [lincomb], ARMv7 build: 64-lane blocks, then 16-lane blocks, then the scalar tail. *)
Definition lincomb_armv7 (acc sym : list Z) (coeff : Z) (len : nat) : list Z :=
  if coeff =? 0 then acc
  else blocks (S len) 64 (lincomb_block coeff)
         (fun acc sym len =>
            blocks (S len) 16 (lincomb_block coeff) (lincomb_loop (log_at coeff)) acc sym len)
         acc sym len.

(** [lincomb_rows], NEON build, one block of [w] lanes at offset [i]: the accumulator
    stays in registers across the rows; zero coefficients are skipped. *)
Definition rows_block (w i : nat) (rows : list (list Z)) (coeffs : list Z) : list Z :=
  foldl (fun a '(r, c) => if c =? 0 then a else veorq a (mul16 c (take w (drop i r))))
    (replicate w 0) (zip rows coeffs).

Fixpoint rows_blocks (fuel w i len : nat) (rows : list (list Z)) (coeffs : list Z)
    (tail : nat -> list Z) : list Z :=
  match fuel with
  | O => []
  | S fuel =>
      if (i + w <=? len)%nat
      then rows_block w i rows coeffs ++ rows_blocks fuel w (i + w) len rows coeffs tail
      else tail i
  end.

(** The whole kernel: 64-lane blocks, 16-lane blocks, then [memset] and [lincomb] of the
    last [len - i] bytes. *)
Definition lincomb_rows_neon (rows : list (list Z)) (coeffs : list Z) (len : nat) : list Z :=
  rows_blocks (S len) 64 0 len rows coeffs (fun i =>
    rows_blocks (S len) 16 i len rows coeffs (fun i =>
      if (i <? len)%nat
      then foldl (fun out '(r, c) => lincomb out (drop i r) c (len - i))
             (replicate (len - i) 0) (zip rows coeffs)
      else [])).

(** ** The tables are the discrete logarithm of a generator *)

Lemma exp_at_is_byte i : is_byte (exp_at i).
Proof.
  unfold exp_at. set (k := Z.to_nat i). clearbody k.
  destruct (Nat.lt_ge_cases k (length (t_exp tables))) as [Hk | Hk].
  - pose proof (proj1 (forallb_forall (fun x => (0 <=? x) && (x <? 256)) (t_exp tables))
      ltac:(vm_compute; reflexivity) _ (nth_In _ 0 Hk)) as Hb.
    cbn beta in Hb. unfold in_width. lia.
  - rewrite nth_overflow by done. mlia.
Qed.

Lemma mul_is_byte a b : is_byte (mul a b).
Proof. unfold mul. case_match; [mlia | apply exp_at_is_byte]. Qed.

Lemma log_at_range a : is_byte a -> a <> 0 -> 0 <= log_at a < 255.
Proof.
  intros Ha Hne.
  pose proof (all_bytes_forall (fun a => (a =? 0) || ((0 <=? log_at a) && (log_at a <? 255)))
                ltac:(vm_compute; reflexivity) a Ha) as H. cbn beta in H. lia.
Qed.

Lemma exp_log a : is_byte a -> a <> 0 -> exp_at (log_at a) = a.
Proof.
  intros Ha Hne.
  pose proof (all_bytes_forall (fun a => (a =? 0) || (exp_at (log_at a) =? a))
                ltac:(vm_compute; reflexivity) a Ha) as H. cbn beta in H. lia.
Qed.

Lemma exp_facts i :
  0 <= i < 510 ->
  exp_at i = exp_at (i mod 255) /\ log_at (exp_at i) = i mod 255 /\
  is_byte (exp_at i) /\ exp_at i <> 0.
Proof.
  intros Hi.
  set (P := fun i => (exp_at i =? exp_at (i mod 255)) && (log_at (exp_at i) =? i mod 255) &&
                     (0 <=? exp_at i) && (exp_at i <? 256) && negb (exp_at i =? 0)).
  assert (H : P i = true).
  { apply (proj1 (forallb_forall P (seqZ 0 510)) ltac:(vm_compute; reflexivity)).
    apply list_elem_of_In, elem_of_seqZ. lia. }
  subst P. cbn beta in H. unfold in_width. lia.
Qed.

(** ** Field laws *)

Lemma mul_0_l b : mul 0 b = 0.
Proof. done. Qed.

Lemma mul_comm a b : mul a b = mul b a.
Proof. unfold mul. by rewrite orb_comm, Z.add_comm. Qed.

Lemma mul_0_r a : mul a 0 = 0.
Proof. by rewrite mul_comm. Qed.

Lemma mul_nz a b :
  a <> 0 -> b <> 0 -> mul a b = exp_at (log_at a + log_at b).
Proof. intros. unfold mul. by rewrite (proj2 (Z.eqb_neq a 0)), (proj2 (Z.eqb_neq b 0)). Qed.

Lemma mul_1_l a : is_byte a -> mul 1 a = a.
Proof.
  intros Ha. destruct (Z.eq_dec a 0) as [-> |]; [done |].
  rewrite mul_nz by done. change (log_at 1) with 0. by rewrite Z.add_0_l, exp_log.
Qed.

Lemma mul_integral a b :
  is_byte a -> is_byte b -> mul a b = 0 -> a = 0 \/ b = 0.
Proof.
  intros Ha Hb. destruct (Z.eq_dec a 0), (Z.eq_dec b 0); try by auto.
  rewrite mul_nz by done. pose proof (log_at_range a Ha). pose proof (log_at_range b Hb).
  pose proof (exp_facts (log_at a + log_at b)). intuition lia.
Qed.

Lemma mul_assoc a b c :
  is_byte a -> is_byte b -> is_byte c -> mul a (mul b c) = mul (mul a b) c.
Proof.
  intros Ha Hb Hc.
  destruct (Z.eq_dec a 0) as [-> |]; [by rewrite !mul_0_l |].
  destruct (Z.eq_dec b 0) as [-> |]; [by rewrite !mul_0_l, !mul_0_r |].
  destruct (Z.eq_dec c 0) as [-> |]; [by rewrite !mul_0_r |].
  pose proof (log_at_range a Ha). pose proof (log_at_range b Hb). pose proof (log_at_range c Hc).
  rewrite (mul_nz b c), (mul_nz a b) by done.
  destruct (exp_facts (log_at b + log_at c)) as (_ & Hl & _ & Hz); [lia |].
  destruct (exp_facts (log_at a + log_at b)) as (_ & Hl' & _ & Hz'); [lia |].
  rewrite !mul_nz by done. rewrite Hl, Hl'.
  destruct (exp_facts (log_at a + (log_at b + log_at c) mod 255)) as (-> & _).
  { pose proof (Z.mod_pos_bound (log_at b + log_at c) 255). lia. }
  destruct (exp_facts ((log_at a + log_at b) mod 255 + log_at c)) as (-> & _).
  { pose proof (Z.mod_pos_bound (log_at a + log_at b) 255). lia. }
  by rewrite Zplus_mod_idemp_r, Zplus_mod_idemp_l, Z.add_assoc.
Qed.

Lemma inv_is_byte a : is_byte a -> is_byte (inv a).
Proof.
  intros Ha. pose proof (all_bytes_forall (fun a => (0 <=? inv a) && (inv a <? 256))
    ltac:(vm_compute; reflexivity) a Ha) as H. cbn beta in H. unfold in_width. lia.
Qed.

Lemma mul_inv_l a : is_byte a -> a <> 0 -> mul (inv a) a = 1.
Proof.
  intros Ha Hne.
  pose proof (all_bytes_forall (fun a => (a =? 0) || (mul (inv a) a =? 1))
                ltac:(vm_compute; reflexivity) a Ha) as H. cbn beta in H. lia.
Qed.

(** The reference multiplication: shift-and-add of polynomials modulo 0x11D. *)
Definition mul_ref (a b : Z) : Z :=
  foldr (fun i acc => if Z.testbit b (Z.of_nat i) then Nat.iter i gf_dbl a ⊕ acc else acc)
    0 (seq 0 8).

Lemma mul_is_ref a b : is_byte a -> is_byte b -> mul a b = mul_ref a b.
Proof.
  intros Ha Hb. apply Z.eqb_eq. revert a b Ha Hb.
  apply (all_bytes_forall2 (fun a b => mul a b =? mul_ref a b)).
  vm_compute. reflexivity.
Qed.

Lemma mul_ref_lxor_r a b c : mul_ref a (b ⊕ c) = mul_ref a b ⊕ mul_ref a c.
Proof.
  unfold mul_ref. induction (seq 0 8) as [|i l IH]; [done |]. cbn [foldr].
  rewrite Z.lxor_spec, IH.
  destruct (Z.testbit b (Z.of_nat i)), (Z.testbit c (Z.of_nat i)); cbn [xorb];
    apply Z.bits_inj'; intros n _; rewrite ?Z.lxor_spec; btauto.
Qed.

Lemma mul_lxor_r a b c :
  is_byte a -> is_byte b -> is_byte c -> mul a (b ⊕ c) = mul a b ⊕ mul a c.
Proof. intros. rewrite !mul_is_ref by width. apply mul_ref_lxor_r. Qed.

Lemma mul_lxor_l a b c :
  is_byte a -> is_byte b -> is_byte c -> mul (a ⊕ b) c = mul a c ⊕ mul b c.
Proof. intros. rewrite !(mul_comm _ c). by apply mul_lxor_r. Qed.

#[export] Hint Resolve mul_is_byte inv_is_byte : width.

(** ** The kernels compute linear combinations *)

(** [acc + c * sym], element by element. *)
Definition axpy (c : Z) (acc sym : list Z) : list Z := zip_with (fun a s => a ⊕ mul c s) acc sym.

Lemma axpy_length c acc sym :
  length acc = length sym -> length (axpy c acc sym) = length acc.
Proof. intros H. unfold axpy. rewrite length_zip_with. lia. Qed.

Lemma axpy_app c a1 a2 s1 s2 :
  length a1 = length s1 -> axpy c (a1 ++ a2) (s1 ++ s2) = axpy c a1 s1 ++ axpy c a2 s2.
Proof. intros H. unfold axpy. by apply zip_with_app. Qed.

Lemma axpy_bytes c acc sym : bytes_ok acc -> bytes_ok (axpy c acc sym).
Proof.
  intros H. revert sym. induction H as [|a acc Ha H IH]; intros [|s sym]; cbn; try constructor.
  - pose proof (mul_is_byte c s). width.
  - apply IH.
Qed.

Lemma axpy_nth c acc sym j :
  (j < length acc)%nat -> (j < length sym)%nat ->
  nth j (axpy c acc sym) 0 = nth j acc 0 ⊕ mul c (nth j sym 0).
Proof.
  revert sym j. induction acc as [|a acc IH]; intros [|s sym] [|j] ? ?; cbn in *; try lia.
  apply IH; lia.
Qed.

(** What a kernel over the first [len] bytes must do. *)
Definition kernel_spec (c : Z) (acc sym : list Z) (len : nat) : list Z :=
  axpy c (take len acc) (take len sym) ++ drop len acc.

Lemma lincomb_loop_spec c acc sym len :
  c <> 0 -> (len <= length acc)%nat -> (len <= length sym)%nat ->
  lincomb_loop (log_at c) acc sym len = kernel_spec c acc sym len.
Proof.
  intros Hc. unfold kernel_spec.
  revert acc sym. induction len as [|len IH]; intros acc sym Ha Hs.
  - by destruct acc, sym.
  - destruct acc as [|a acc], sym as [|s sym]; cbn in Ha, Hs; try lia.
    cbn [lincomb_loop take drop axpy zip_with app]. f_equal; [| apply IH; lia].
    destruct (Z.eqb_spec s 0) as [-> |]; [by rewrite mul_0_r, Z.lxor_0_r |].
    by rewrite mul_nz.
Qed.

Lemma axpy_0 acc sym : length acc = length sym -> axpy 0 acc sym = acc.
Proof.
  revert sym. induction acc as [|a acc IH]; intros [|s sym] H; cbn in *; try done.
  injection H as H. f_equal; [apply Z.lxor_0_r | by apply IH].
Qed.

Lemma kernel_spec_0 acc sym len :
  (len <= length acc)%nat -> (len <= length sym)%nat -> kernel_spec 0 acc sym len = acc.
Proof.
  intros. unfold kernel_spec. rewrite axpy_0 by (rewrite !length_take; lia).
  apply take_drop.
Qed.

Lemma lincomb_spec acc sym c len :
  (len <= length acc)%nat -> (len <= length sym)%nat ->
  lincomb acc sym c len = kernel_spec c acc sym len.
Proof.
  intros. unfold lincomb. destruct (Z.eqb_spec c 0) as [-> |].
  - by rewrite kernel_spec_0.
  - by apply lincomb_loop_spec.
Qed.

(** The kernel over whole buffers, the form every caller uses. *)
Lemma lincomb_full acc sym c len :
  length acc = len -> length sym = len -> lincomb acc sym c len = axpy c acc sym.
Proof.
  intros Ha Hs. rewrite lincomb_spec by lia. unfold kernel_spec.
  by rewrite !take_ge, drop_ge, app_nil_r by lia.
Qed.

(** *** Split-nibble multiplication *)

Lemma nibbles s : is_byte s -> s = Z.land s 15 ⊕ Z.shiftl (Z.shiftr s 4) 4.
Proof.
  intros Hs. apply Z.eqb_eq.
  exact (all_bytes_forall (fun s => s =? Z.land s 15 ⊕ Z.shiftl (Z.shiftr s 4) 4)
           ltac:(vm_compute; reflexivity) s Hs).
Qed.

Lemma nibble_ranges s :
  is_byte s -> 0 <= Z.land s 15 < 16 /\ 0 <= Z.shiftr s 4 < 16 /\
  is_byte (Z.shiftl (Z.shiftr s 4) 4).
Proof.
  intros Hs. change 15 with (Z.ones 4). rewrite Z.land_ones, Z.shiftl_mul_pow2,
    Z.shiftr_div_pow2 by lia. split; [|split]; mlia.
Qed.

Lemma vtbl_map_seqZ f i : 0 <= i < 16 -> vtbl (map f (seqZ 0 16)) i = f i.
Proof.
  intros Hi. unfold vtbl.
  let l := eval vm_compute in (seqZ 0 16) in change (seqZ 0 16) with l.
  rewrite <- (Z2Nat.id i) by lia. rewrite Nat2Z.id.
  assert (Hn : (Z.to_nat i < 16)%nat) by lia. revert Hn. generalize (Z.to_nat i).
  intros n Hn. do 16 (destruct n as [|n]; [done |]). lia.
Qed.

Lemma mul16_lane_spec c s : is_byte c -> is_byte s -> mul16_lane c s = mul c s.
Proof.
  intros Hc Hs. destruct (nibble_ranges s Hs) as (Hlo & Hhi & Hb).
  unfold mul16_lane, nibble_lo, nibble_hi.
  rewrite !vtbl_map_seqZ by done. rewrite <- mul_lxor_r; [| done | mlia | done].
  by rewrite <- nibbles.
Qed.

Lemma mul16_spec c s : is_byte c -> bytes_ok s -> mul16 c s = map (mul c) s.
Proof.
  intros Hc H. unfold mul16. induction H as [|x s Hx H IH]; [done |]. cbn.
  by rewrite mul16_lane_spec, IH.
Qed.

Lemma lincomb_block_spec c acc sym :
  is_byte c -> bytes_ok sym -> lincomb_block c acc sym = axpy c acc sym.
Proof.
  intros Hc H. unfold lincomb_block, veorq, axpy. rewrite mul16_spec by done.
  revert acc. induction H as [|s sym Hs H IH]; intros [|a acc]; [done.. |].
  cbn. f_equal. apply IH.
Qed.

(** *** Blocked kernels *)

Section Blocks.
  Context (w : nat) (c : Z) (f : list Z -> list Z -> list Z)
          (tail : list Z -> list Z -> nat -> list Z).
  Context (Hw : (0 < w)%nat).
  Context (Hf : forall a s, bytes_ok s -> f a s = axpy c a s).
  Context (Htail : forall a s n, bytes_ok s ->
             (n <= length a)%nat -> (n <= length s)%nat -> tail a s n = kernel_spec c a s n).

Lemma blocks_spec fuel acc sym len :
  bytes_ok sym -> (len < fuel)%nat -> (len <= length acc)%nat -> (len <= length sym)%nat ->
  blocks fuel w f tail acc sym len = kernel_spec c acc sym len.
Proof using Hw Hf Htail.
  revert acc sym len. induction fuel as [|fuel IH]; intros acc sym len Hb Hfu Ha Hs; [lia |].
  cbn [blocks]. destruct (Nat.leb_spec w len) as [Hle |]; [| by apply Htail].
  rewrite Hf by (by apply Forall_take).
  rewrite IH; [| by apply Forall_drop | lia | rewrite length_drop; lia..].
  unfold kernel_spec. rewrite app_assoc. f_equal.
  - rewrite <- axpy_app by (rewrite !length_take; lia).
    rewrite !take_take_drop. do 2 f_equal; lia.
  - rewrite drop_drop. f_equal. lia.
Qed.
End Blocks.

Lemma lincomb_aarch64_spec acc sym c len :
  is_byte c -> bytes_ok sym -> (len <= length acc)%nat -> (len <= length sym)%nat ->
  lincomb_aarch64 acc sym c len = lincomb acc sym c len.
Proof.
  intros Hc Hb Ha Hs. rewrite lincomb_spec by done. unfold lincomb_aarch64.
  destruct (Z.eqb_spec c 0) as [-> |]; [by rewrite kernel_spec_0 |].
  apply blocks_spec; [lia | | | done | lia | done | done].
  - intros. by apply lincomb_block_spec.
  - intros. by apply lincomb_loop_spec.
Qed.

Lemma lincomb_armv7_spec acc sym c len :
  is_byte c -> bytes_ok sym -> (len <= length acc)%nat -> (len <= length sym)%nat ->
  lincomb_armv7 acc sym c len = lincomb acc sym c len.
Proof.
  intros Hc Hb Ha Hs. rewrite lincomb_spec by done. unfold lincomb_armv7.
  destruct (Z.eqb_spec c 0) as [-> |]; [by rewrite kernel_spec_0 |].
  apply blocks_spec; [lia | | | done | lia | done | done].
  - intros. by apply lincomb_block_spec.
  - intros. apply blocks_spec; [lia | | | done | lia | done | done].
    + intros. by apply lincomb_block_spec.
    + intros. by apply lincomb_loop_spec.
Qed.

(** *** One repair symbol from its whole window *)

(** Byte [j] of the combination of [rows] by [coeffs]. *)
Definition rows_sum (rows : list (list Z)) (coeffs : list Z) (j : nat) : Z :=
  foldl (fun x '(r, c) => x ⊕ mul c (nth j r 0)) 0 (zip rows coeffs).

(** A fold of [axpy]s is, byte by byte, a fold of xors of products. *)
Lemma foldl_axpy_nth rcs acc j :
  (j < length acc)%nat -> Forall (fun rc => length (fst rc) = length acc) rcs ->
  nth j (foldl (fun out rc => axpy (snd rc) out (fst rc)) acc rcs) 0 =
  foldl (fun x rc => x ⊕ mul (snd rc) (nth j (fst rc) 0)) (nth j acc 0) rcs.
Proof.
  intros Hj H. revert acc Hj H. induction rcs as [|[r c] rcs IH]; intros acc Hj H; [done |].
  inversion H as [|? ? Hr Hrs]; subst. cbn in Hr |- *.
  assert (Hl : length (axpy c acc r) = length acc) by (apply axpy_length; lia).
  rewrite IH; [| lia | eapply Forall_impl; [exact Hrs | cbn; lia]].
  by rewrite axpy_nth by lia.
Qed.

Lemma foldl_axpy_length rcs acc :
  Forall (fun rc : list Z * Z => length (fst rc) = length acc) rcs ->
  length (foldl (fun out rc => axpy (snd rc) out (fst rc)) acc rcs) = length acc.
Proof.
  revert acc. induction rcs as [|[r c] rcs IH]; intros acc H; [done |].
  inversion H as [|? ? Hr Hrs]; subst. cbn in Hr |- *.
  assert (Hl : length (axpy c acc r) = length acc) by (apply axpy_length; lia).
  rewrite IH; [done |]. eapply Forall_impl; [exact Hrs | cbn; lia].
Qed.

Lemma list_eq_nth (l k : list Z) :
  length l = length k -> (forall j, (j < length l)%nat -> nth j l 0 = nth j k 0) -> l = k.
Proof. intros. by apply (nth_ext _ _ 0 0). Qed.

(** Every row the kernel reads holds at least [len] bytes. *)
Definition rows_ok (len : nat) (rows : list (list Z)) : Prop :=
  Forall (fun r => (len <= length r)%nat /\ bytes_ok r) rows.

Lemma foldl_ext_in {A B} (f g : A -> B -> A) l a :
  (forall a b, b ∈ l -> f a b = g a b) -> foldl f a l = foldl g a l.
Proof.
  revert a. induction l as [|b l IH]; intros a H; [done |]. cbn.
  rewrite H by constructor. apply IH. intros. apply H. by constructor.
Qed.

Lemma elem_of_zip {A B} (l : list A) (k : list B) x y : (x, y) ∈ zip l k -> x ∈ l /\ y ∈ k.
Proof.
  revert k. induction l as [|a l IH]; intros [|b k]; cbn;
    try (intros H; by apply not_elem_of_nil in H).
  rewrite elem_of_cons. intros [[= -> ->] | H]; [split; constructor |].
  apply IH in H as [??]. split; by constructor.
Qed.

(** The common shape of both kernels: fold [axpy] over the first [len] bytes, from
    offset [i], of every row. *)
Definition slice (i len : nat) (r : list Z) : list Z := take len (drop i r).

Definition rows_fold (i len : nat) (rows : list (list Z)) (coeffs : list Z) : list Z :=
  foldl (fun out rc => axpy (snd rc) out (fst rc)) (replicate len 0)
    (map (fun '(r, c) => (slice i len r, c)) (zip rows coeffs)).

Lemma slice_length i len n r : (i + len <= n)%nat -> (n <= length r)%nat -> length (slice i len r) = len.
Proof. intros. unfold slice. rewrite length_take, length_drop. lia. Qed.

Lemma nth_slice i len r j : (j < len)%nat -> nth j (slice i len r) 0 = nth (i + j) r 0.
Proof.
  intros Hj. unfold slice. rewrite !nth_lookup, lookup_take_lt, lookup_drop by done. done.
Qed.

Lemma rows_fold_slices i len n rows coeffs :
  rows_ok n rows -> (i + len <= n)%nat ->
  Forall (fun rc : list Z * Z => length (fst rc) = len)
    (map (fun '(r, c) => (slice i len r, c)) (zip rows coeffs)).
Proof.
  intros Hok Hle. apply Forall_forall. intros rc. rewrite list_elem_of_fmap.
  intros ([r c] & -> & H). apply elem_of_zip in H as [Hr _]. cbn.
  apply (slice_length i len n); [done |].
  exact (proj1 (proj1 (Forall_forall _ _) Hok r Hr)).
Qed.

Lemma rows_fold_nth i len n rows coeffs j :
  rows_ok n rows -> (i + len <= n)%nat -> (j < len)%nat ->
  nth j (rows_fold i len rows coeffs) 0 = rows_sum rows coeffs (i + j).
Proof.
  intros Hok Hle Hj. unfold rows_fold, rows_sum.
  rewrite foldl_axpy_nth.
  2: by rewrite length_replicate.
  2: { rewrite length_replicate. by eapply rows_fold_slices. }
  rewrite (nth_lookup (replicate len 0)), lookup_replicate_2 by done.
  cbn [default]. rewrite foldl_fmap. apply foldl_ext_in. intros x [r c] _. cbn.
  by rewrite nth_slice.
Qed.

Lemma rows_fold_length i len n rows coeffs :
  rows_ok n rows -> (i + len <= n)%nat -> length (rows_fold i len rows coeffs) = len.
Proof.
  intros Hok Hle. unfold rows_fold. rewrite foldl_axpy_length.
  - apply length_replicate.
  - rewrite length_replicate. by eapply rows_fold_slices.
Qed.

Lemma rows_fold_spec i len n rows coeffs :
  rows_ok n rows -> (i + len <= n)%nat ->
  rows_fold i len rows coeffs = map (rows_sum rows coeffs) (seq i len).
Proof.
  intros Hok Hle. apply list_eq_nth.
  - rewrite (rows_fold_length i len n), length_map, length_seq by done. done.
  - rewrite (rows_fold_length i len n) by done. intros j Hj.
    rewrite (rows_fold_nth i len n) by done.
    rewrite (nth_lookup (map _ _)), list_lookup_fmap, lookup_seq_lt by done. done.
Qed.

(** The scalar folds over rows [r] read from offset [i] are the common shape. *)
Lemma lincomb_fold_spec i len n rows coeffs acc :
  rows_ok n rows -> (i + len <= n)%nat -> length acc = len ->
  foldl (fun out '(r, c) => lincomb out (drop i r) c len) acc (zip rows coeffs) =
  foldl (fun out rc => axpy (snd rc) out (fst rc)) acc
    (map (fun '(r, c) => (slice i len r, c)) (zip rows coeffs)).
Proof.
  intros Hok Hle. revert acc coeffs.
  induction Hok as [|r rows [Hr _] Hok IH]; intros acc [|c coeffs] Hacc; [done.. |].
  cbn [zip zip_with foldl map fst snd].
  assert (Hs : length (slice i len r) = len) by (by apply (slice_length i len n)).
  rewrite lincomb_spec; [| lia | rewrite length_drop; lia].
  unfold kernel_spec. rewrite (take_ge acc), (drop_ge acc), app_nil_r by lia.
  apply IH. rewrite axpy_length; [done | congruence].
Qed.

Lemma lincomb_rows_spec rows coeffs len :
  rows_ok len rows ->
  lincomb_rows rows coeffs len = map (rows_sum rows coeffs) (seq 0 len).
Proof.
  intros Hok. rewrite <- (rows_fold_spec 0 len len) by done.
  unfold lincomb_rows, rows_fold.
  rewrite <- (lincomb_fold_spec 0 len len); [| done | done | apply length_replicate].
  apply foldl_ext_in. intros acc [r c] _. by rewrite drop_0.
Qed.

Lemma rows_block_spec w i n rows coeffs :
  bytes_ok coeffs -> rows_ok n rows -> (i + w <= n)%nat ->
  rows_block w i rows coeffs = map (rows_sum rows coeffs) (seq i w).
Proof.
  intros Hc Hok Hle. rewrite <- (rows_fold_spec i w n) by done.
  unfold rows_block, rows_fold.
  assert (H : length (replicate w 0) = w) by apply length_replicate.
  revert H. generalize (replicate w 0) as acc. revert coeffs Hc.
  induction Hok as [|r rows [Hr Hb] Hok IH]; intros coeffs Hc acc Hacc; [done |].
  destruct Hc as [|c coeffs Hc Hcs]; [done |].
  cbn [zip zip_with foldl map fst snd].
  assert (Hs : length (slice i w r) = w) by (by apply (slice_length i w n)).
  assert (Hax : veorq acc (mul16 c (take w (drop i r))) = axpy c acc (slice i w r)).
  { change (veorq acc _) with (lincomb_block c acc (take w (drop i r))).
    apply lincomb_block_spec; [done |]. by apply Forall_take, Forall_drop. }
  rewrite Hax. destruct (Z.eqb_spec c 0) as [-> |].
  - rewrite axpy_0 by lia. by apply IH.
  - apply IH; [done |]. rewrite axpy_length; lia.
Qed.

Lemma rows_blocks_spec fuel w i len rows coeffs tail :
  (0 < w)%nat -> bytes_ok coeffs -> rows_ok len rows -> (len - i < fuel)%nat -> (i <= len)%nat ->
  (forall i, (i <= len)%nat -> tail i = map (rows_sum rows coeffs) (seq i (len - i))) ->
  rows_blocks fuel w i len rows coeffs tail = map (rows_sum rows coeffs) (seq i (len - i)).
Proof.
  intros Hw Hc Hok. revert i. induction fuel as [|fuel IH]; intros i Hfu Hi Ht; [lia |].
  cbn [rows_blocks]. destruct (Nat.leb_spec (i + w) len) as [Hle |]; [| by apply Ht].
  rewrite (rows_block_spec w i len), IH by (done || lia).
  rewrite <- map_app, <- seq_app. do 2 f_equal. lia.
Qed.

Lemma lincomb_rows_neon_spec rows coeffs len :
  bytes_ok coeffs -> rows_ok len rows ->
  lincomb_rows_neon rows coeffs len = lincomb_rows rows coeffs len.
Proof.
  intros Hc Hok. rewrite lincomb_rows_spec by done. unfold lincomb_rows_neon.
  replace (seq 0 len) with (seq 0 (len - 0)) by (f_equal; lia).
  apply rows_blocks_spec; [lia | done | done | lia | lia |]. intros i Hi.
  apply rows_blocks_spec; [lia | done | done | lia | lia |]. intros k Hk.
  destruct (Nat.ltb_spec k len) as [Hlt |].
  - rewrite (lincomb_fold_spec k (len - k) len); [| done | lia | apply length_replicate].
    apply (rows_fold_spec k (len - k) len); [done | lia].
  - by replace (len - k)%nat with 0%nat by lia.
Qed.

(** ** The properties *)

(** C29.  The table-driven [mul] is multiplication of polynomials over GF(2) modulo the
    source's polynomial 0x11D: it agrees with shift-and-add on every pair of bytes, so
    with xor as addition the bytes form a field: the laws below, and [inv] inverts. *)
Theorem gf256_field (a b c : Z) :
  is_byte a -> is_byte b -> is_byte c ->
  mul a b = mul_ref a b /\ is_byte (mul a b) /\
  mul a b = mul b a /\ mul a (mul b c) = mul (mul a b) c /\
  mul a (b ⊕ c) = mul a b ⊕ mul a c /\ mul 1 a = a /\
  (a <> 0 -> mul (inv a) a = 1) /\ (mul a b = 0 -> a = 0 \/ b = 0).
Proof.
  intros Ha Hb Hc. split_all;
    auto using mul_is_ref, mul_is_byte, mul_comm, mul_assoc, mul_lxor_r, mul_1_l,
      mul_inv_l, mul_integral.
Qed.

Example gf256_field_witness :
  mul 87 131 = mul_ref 87 131 /\ mul (inv 19) 19 = 1.
Proof.
  destruct (gf256_field 87 131 19) as (H & _); [decided.. |].
  destruct (gf256_field 19 131 87) as (_ & _ & _ & _ & _ & _ & Hi & _); [decided.. |].
  split; [exact H | apply Hi; done].
Defined.

(** C30.  The NEON kernels are the scalar kernels: on byte buffers of any length the
    aarch64 and ARMv7 builds of [lincomb] and the blocked [lincomb_rows] return exactly
    what the scalar code returns, block loops, skipped zero rows and scalar tails
    included; and [lincomb_rows] is byte by byte the combination of its rows. *)
Theorem neon_kernels_agree (rows : list (list Z)) (coeffs acc sym : list Z) (c : Z) (len : nat) :
  is_byte c -> bytes_ok sym -> (len <= length acc)%nat -> (len <= length sym)%nat ->
  bytes_ok coeffs -> rows_ok len rows ->
  lincomb_aarch64 acc sym c len = lincomb acc sym c len /\
  lincomb_armv7 acc sym c len = lincomb acc sym c len /\
  lincomb_rows_neon rows coeffs len = lincomb_rows rows coeffs len /\
  lincomb_rows rows coeffs len = map (rows_sum rows coeffs) (seq 0 len).
Proof.
  intros. split_all; auto using lincomb_aarch64_spec, lincomb_armv7_spec,
    lincomb_rows_neon_spec, lincomb_rows_spec.
Qed.

Example neon_kernels_agree_witness :
  let rows := [replicate 83 7; replicate 83 200] in
  lincomb_armv7 (replicate 83 3) (replicate 83 9) 5 83 =
    lincomb (replicate 83 3) (replicate 83 9) 5 83 /\
  lincomb_rows_neon rows [0; 17] 83 = lincomb_rows rows [0; 17] 83.
Proof.
  destruct (neon_kernels_agree [replicate 83 7; replicate 83 200] [0; 17]
    (replicate 83 3) (replicate 83 9) 5 83) as (_ & Ha & Hr & _);
    [decided | decided | decided | decided | decided | unfold rows_ok; decided |].
  by split.
Defined.
