(* ===== verification/SwWire.v ===== *)
(** * SwWire: the sliding-window FEC envelope (common/src/sw_wire.cpp)

    The fixed 14-byte header that precedes every FEC symbol on the air, and the frozen
    contract that derives a repair's coefficients from its key ([repair_coeffs]). *)
From S2P Require Import Prelude Bytes.

(** ** Data *)

Definition kSwMagic : Z := 62785.  (* 0xF541 *)
Definition kSwHeaderLen : nat := 14.
Definition kFlagRepair : Z := 1.
Definition kMaxWindow : Z := 255.

Record SwHeader := mkSwHeader {
  repair : bool;
  symbol_size : Z;  (* u16 *)
  seq : Z;          (* u32: a source's own seq, a repair's window start *)
  window_len : Z;   (* u8 *)
  repair_key : Z;   (* u32 *)
}.

(** The fields have their C++ widths. *)
Definition header_typed (h : SwHeader) : Prop :=
  in_width 16 (symbol_size h) /\ in_width 32 (seq h) /\
  in_width 8 (window_len h) /\ in_width 32 (repair_key h).

(** The type-consistency rule of the wire: a repair covers at least one symbol, a source
    carries no window and no key. *)
Definition header_consistent (h : SwHeader) : Prop :=
  if repair h then window_len h <> 0 else window_len h = 0 /\ repair_key h = 0.

(** ** Operations *)

(** [pack_header(uint8_t* p, const SwHeader& h)]: the fourteen bytes. *)
Definition pack_header (h : SwHeader) : list Z :=
  [Z.land kSwMagic 255; Z.shiftr kSwMagic 8] ++
  [if repair h then kFlagRepair else 0] ++
  [Z.land (symbol_size h) 255; Z.shiftr (symbol_size h) 8] ++
  [Z.land (seq h) 255; Z.land (Z.shiftr (seq h) 8) 255;
   Z.land (Z.shiftr (seq h) 16) 255; Z.shiftr (seq h) 24] ++
  [window_len h] ++
  [Z.land (repair_key h) 255; Z.land (Z.shiftr (repair_key h) 8) 255;
   Z.land (Z.shiftr (repair_key h) 16) 255; Z.shiftr (repair_key h) 24].

(** [parse_header]: outer [None] is an out-of-bounds read, [Some None] a rejection. *)
Definition parse_header (p : list Z) : option (option SwHeader) :=
  if (length p <? kSwHeaderLen)%nat then Some None
  else
    magic ← get16 p 0;
    if negb (magic =? kSwMagic) then Some None
    else
      flags ← get8 p 2;
      if negb (Z.land flags (u8 (Z.lnot kFlagRepair)) =? 0) then Some None
      else
        ss ← get16 p 3; sq ← get32 p 5; wl ← get8 p 9; rk ← get32 p 10;
        let rep := negb (Z.land flags kFlagRepair =? 0) in
        if (if rep then wl =? 0 else negb (wl =? 0) || negb (rk =? 0)) then Some None
        else Some (Some (mkSwHeader rep ss sq wl rk)).

(** [splitmix64(uint64_t& s)]: the next state and the output. *)
Definition splitmix64 (s : Z) : Z * Z :=
  let s := u64 (s + 11400714819323198485) in
  let z := u64 ((s ⊕ Z.shiftr s 30) * 13787848793156543929) in
  let z := u64 ((z ⊕ Z.shiftr z 27) * 10723151780598845931) in
  (s, z ⊕ Z.shiftr z 31).

Fixpoint repair_coeffs_loop (n : nat) (s : Z) : list Z :=
  match n with
  | O => []
  | S n => let '(s, z) := splitmix64 s in u8 (Z.land z 255 mod 255 + 1) :: repair_coeffs_loop n s
  end.

(** [repair_coeffs(repair_key, window_len, out)]: one draw per window position. *)
Definition repair_coeffs (repair_key : Z) (window_len : nat) : list Z :=
  repair_coeffs_loop window_len (u64 repair_key).

(** ** Lemmas *)

Lemma pack_header_length h : length (pack_header h) = kSwHeaderLen.
Proof. done. Qed.

(** With typed fields, the source's unmasked top bytes are the masked ones. *)
Lemma top_byte k v :
  0 <= k -> in_width (k + 8) v -> Z.shiftr v k = Z.land (Z.shiftr v k) 255.
Proof.
  intros Hk [Hlo Hhi]. rewrite land_byte, Z.mod_small; [done |].
  rewrite Z.shiftr_div_pow2 by lia. split; [apply Z.div_pos; lia |].
  apply Z.div_lt_upper_bound; [lia |]. rewrite Z.pow_add_r in Hhi by lia. lia.
Qed.

Lemma pack_header_fields h :
  header_typed h ->
  pack_header h = put16 kSwMagic ++ [if repair h then kFlagRepair else 0] ++
    put16 (symbol_size h) ++ put32 (seq h) ++ [window_len h] ++ put32 (repair_key h).
Proof.
  intros (Hs & Hq & Hw & Hk). unfold pack_header, put16, put32.
  rewrite <- (top_byte 8 (symbol_size h)), <- (top_byte 24 (seq h)),
    <- (top_byte 24 (repair_key h)) by (done || lia). done.
Qed.

Lemma pack_header_bytes h : header_typed h -> bytes_ok (pack_header h).
Proof.
  intros Ht. rewrite pack_header_fields by done. destruct Ht as (Hs & Hq & Hw & Hk).
  repeat (apply Forall_app; split); auto with width;
    repeat constructor; auto with width; unfold kFlagRepair; try (destruct (repair h)); mlia.
Qed.

Lemma repair_coeffs_loop_spec n s :
  length (repair_coeffs_loop n s) = n /\
  Forall (fun c => 1 <= c <= 255) (repair_coeffs_loop n s).
Proof.
  revert s. induction n as [|n IH]; intros s; [by split |].
  cbn [repair_coeffs_loop]. destruct (splitmix64 s) as [s' z].
  destruct (IH s') as [Hl Hf]. split; [cbn; lia |]. constructor; [| done].
  rewrite wrap_small; mlia.
Qed.

Lemma repair_coeffs_length k n : length (repair_coeffs k n) = n.
Proof. apply repair_coeffs_loop_spec. Qed.

Lemma repair_coeffs_nz k n : Forall (fun c => 1 <= c <= 255) (repair_coeffs k n).
Proof. apply repair_coeffs_loop_spec. Qed.

Lemma repair_coeffs_bytes k n : bytes_ok (repair_coeffs k n).
Proof. eapply Forall_impl; [apply repair_coeffs_nz |]. intros c ?. mlia. Qed.


(** Golden value of tests/vectors/sw.json: the first repair of the first case, a window of
    one symbol that opens with the byte 0x0a, opens with 0x94. *)
Example repair_coeffs_golden : repair_coeffs 0 4 = [176; 245; 80; 237].
Proof. vm_compute. reflexivity. Qed.

(** A flags byte with no unknown bit is 0 or 1. *)
Lemma known_flags f :
  is_byte f -> Z.land f (u8 (Z.lnot kFlagRepair)) = 0 -> f = 0 \/ f = 1.
Proof.
  intros Hf H.
  pose proof (all_bytes_forall
    (fun f => negb (Z.land f (u8 (Z.lnot kFlagRepair)) =? 0) || (f =? 0) || (f =? 1))
    ltac:(vm_compute; reflexivity) f Hf) as Hb. cbn beta in Hb. rewrite H in Hb. lia.
Qed.

Lemma parse_pack_header h l :
  header_typed h -> header_consistent h -> parse_header (pack_header h ++ l) = Some (Some h).
Proof.
  intros Ht Hc. rewrite pack_header_fields by done.
  destruct h as [rep ss sq wl rk], Ht as (Hs & Hq & Hw & Hk).
  unfold parse_header. cbn [repair symbol_size seq window_len repair_key] in *.
  rewrite (proj2 (Nat.ltb_ge _ kSwHeaderLen)) by (cbn; unfold kSwHeaderLen; lia).
  unfold get16, get8, get32, put16, put32.
  cbn [app lookup list_lookup mbind option_bind].
  rewrite (le16_id ss), (le32_id sq), (le32_id rk) by done.
  change (_ =? kSwMagic) with true.
  unfold header_consistent in Hc. cbn in Hc. destruct rep; cbn [negb].
  - change (Z.land kFlagRepair (u8 (Z.lnot kFlagRepair))) with 0.
    change (Z.land kFlagRepair kFlagRepair) with 1. cbn [negb Z.eqb].
    by rewrite (proj2 (Z.eqb_neq wl 0)).
  - destruct Hc as [-> ->]. reflexivity.
Qed.

Lemma parse_header_total p : exists r, parse_header p = Some r.
Proof.
  unfold parse_header. destruct (Nat.ltb_spec (length p) kSwHeaderLen) as [|Hl]; [eauto |].
  unfold kSwHeaderLen in Hl. reads_in. repeat case_match; eauto.
Qed.

(** What the parser accepts is typed, consistent, and the canonical encoding of the
    header: re-packing it gives back the bytes read. *)
Lemma parse_header_sound p h :
  bytes_ok p -> parse_header p = Some (Some h) ->
  (kSwHeaderLen <= length p)%nat /\ header_typed h /\ header_consistent h /\
  take kSwHeaderLen p = pack_header h.
Proof.
  intros Hb. unfold parse_header.
  destruct (Nat.ltb_spec (length p) kSwHeaderLen) as [|Hl]; [done |].
  unfold kSwHeaderLen in Hl. explode_buf p 14%nat. inv_bytes.
  unfold get16, get32, get8. cbn [lookup list_lookup mbind option_bind].
  destruct (Z.eqb_spec (Z.lor z (Z.shiftl z0 8)) kSwMagic) as [Hmagic |]; [| done].
  cbn [negb]. destruct (Z.eqb_spec (Z.land z1 (u8 (Z.lnot kFlagRepair))) 0) as [Hfl |]; [| done].
  cbn [negb]. intros Hp.
  assert (Hh : header_consistent h /\ h = mkSwHeader (negb (Z.land z1 kFlagRepair =? 0))
    (Z.lor z2 (Z.shiftl z3 8))
    (Z.lor (Z.lor (Z.lor z4 (Z.shiftl z5 8)) (Z.shiftl z6 16)) (Z.shiftl z7 24)) z8
    (Z.lor (Z.lor (Z.lor z9 (Z.shiftl z10 8)) (Z.shiftl z11 16)) (Z.shiftl z12 24))).
  { unfold header_consistent. case_match eqn:Hc; [done |]. injection Hp as <-. cbn.
    split; [| done]. destruct (negb (Z.land z1 kFlagRepair =? 0)).
    - by apply Z.eqb_neq.
    - apply orb_false_iff in Hc as [Hx%negb_false_iff Hy%negb_false_iff].
      by apply Z.eqb_eq in Hx, Hy. }
  destruct Hh as [Hc ->]. clear Hp.
  assert (Ht : header_typed (mkSwHeader (negb (Z.land z1 kFlagRepair =? 0))
    (Z.lor z2 (Z.shiftl z3 8))
    (Z.lor (Z.lor (Z.lor z4 (Z.shiftl z5 8)) (Z.shiftl z6 16)) (Z.shiftl z7 24)) z8
    (Z.lor (Z.lor (Z.lor z9 (Z.shiftl z10 8)) (Z.shiftl z11 16)) (Z.shiftl z12 24)))).
  { unfold header_typed; cbn; auto using get16_width, get32_width. }
  split; [cbn; unfold kSwHeaderLen; lia |]. split; [done |]. split; [done |].
  rewrite pack_header_fields by done. cbn [repair symbol_size seq window_len repair_key].
  rewrite <- Hmagic, !put16_read, !put32_read by done.
  unfold kSwHeaderLen. cbn [take app]. repeat f_equal.
  destruct (known_flags z1) as [-> | ->]; done.
Qed.

(** ** The properties *)

(** The envelope header is a canonical codec.  On every byte buffer [parse_header]
    reads only inside it; and it returns the header [h] exactly when [h]'s fields fit
    their wire widths, [h] obeys the type-consistency rule (a repair has a window, a
    source has neither window nor key) and the buffer opens with [pack_header h] --
    unknown flag bits, a bad magic and a short buffer are all refused. *)
Theorem sw_header_codec (p : list Z) :
  bytes_ok p ->
  (exists r, parse_header p = Some r) /\
  (forall h, parse_header p = Some (Some h) <->
     header_typed h /\ header_consistent h /\ exists l, p = pack_header h ++ l).
Proof.
  intros Hb. split; [apply parse_header_total |]. intros h. split.
  - intros Hp. destruct (parse_header_sound p h Hb Hp) as (Hl & Ht & Hc & Hk).
    split_all; try done. exists (drop kSwHeaderLen p). by rewrite <- Hk, take_drop.
  - intros (Ht & Hc & l & ->). by apply parse_pack_header.
Qed.

Example sw_header_codec_witness :
  parse_header (pack_header (mkSwHeader true 332 4294967295 32 77) ++ [1; 2]) =
  Some (Some (mkSwHeader true 332 4294967295 32 77)).
Proof.
  refine (proj2 (proj2 (sw_header_codec _ _) _) _).
  - decided.
  - split_all; [split_all; decided | discriminate | by exists [1; 2]].
Defined.
