(* ===== verification/Framing.v ===== *)
(** * Framing: frame header and fragmentation (common/src/frame_wire.cpp, frag.cpp)

    A video frame is prefixed with the 8-byte [FrameHdr] and cut by the [Fragmenter]
    into chunks of at most [usable] bytes, each behind a 6-byte (seq, idx, count)
    header.  [parse_frag_hdr] is the reading side of that header, the first lines of
    [FrameStream::push_fragment] (gs/src/frame_stream.cpp). *)
From S2P Require Import Prelude Bytes.

(** ** FrameHdr *)

Definition kFrameHdrLen : nat := 8.
Definition kFlagIdr : Z := 1.
Definition kFlagDiscont : Z := 2.

Record FrameHdr := mkFrameHdr {
  frame_id : Z;    (* u16 *)
  flags : Z;       (* u8 *)
  slice_rows : Z;  (* u8 *)
  pts_us : Z;      (* u32 *)
}.

Definition frame_hdr_typed (h : FrameHdr) : Prop :=
  in_width 16 (frame_id h) /\ in_width 8 (flags h) /\
  in_width 8 (slice_rows h) /\ in_width 32 (pts_us h).

Definition pack_frame_hdr (h : FrameHdr) : list Z :=
  [Z.land (frame_id h) 255; Z.shiftr (frame_id h) 8; flags h; slice_rows h;
   Z.land (pts_us h) 255; Z.land (Z.shiftr (pts_us h) 8) 255;
   Z.land (Z.shiftr (pts_us h) 16) 255; Z.land (Z.shiftr (pts_us h) 24) 255].

Definition parse_frame_hdr (buf : list Z) : option (option FrameHdr) :=
  if (length buf <? kFrameHdrLen)%nat then Some None
  else
    id ← get16 buf 0; fl ← get8 buf 2; sr ← get8 buf 3; pts ← get32 buf 4;
    Some (Some (mkFrameHdr id fl sr pts)).

(** ** Fragmenter *)

Definition kHdrLen : nat := 6.

(** The state: the fragmentation sequence number (u16). *)
Record Fragmenter := mkFragmenter { seq_ : Z }.

Definition n_chunks (len usable : nat) : nat :=
  let span := if (0 <? len)%nat then len else 1%nat in ((span + usable - 1) / usable)%nat.

Definition frag_hdr (seq idx16 count16 : Z) : list Z :=
  put16 seq ++ put16 idx16 ++ put16 count16.

(** One call of [Fragmenter::fragment]: the advanced state and, in the order the sink is
    called, each fragment's header and chunk. *)
Definition fragment (f : Fragmenter) (pkt : list Z) (usable : nat)
    : Fragmenter * list (list Z * list Z) :=
  let len := length pkt in
  let n := n_chunks len usable in
  let count16 := u16 (Z.of_nat n) in
  (mkFragmenter (u16 (seq_ f + 1)),
   map (fun i =>
          let off := (i * usable)%nat in
          let chunk_len := if (off <? len)%nat then Nat.min usable (len - off) else 0%nat in
          (frag_hdr (seq_ f) (u16 (Z.of_nat i)) count16, take chunk_len (drop off pkt)))
     (seq 0 n)).

(** The vector form: header and chunk concatenated. *)
Definition fragment_vec (f : Fragmenter) (pkt : list Z) (usable : nat)
    : Fragmenter * list (list Z) :=
  let '(f', fs) := fragment f pkt usable in (f', map (fun '(h, c) => h ++ c) fs).

(** The reading side: (fseq, idx, count), refused when short or inconsistent. *)
Definition parse_frag_hdr (pkt : list Z) : option (option (Z * Z * Z)) :=
  if (length pkt <? 6)%nat then Some None
  else
    fseq ← get16 pkt 0; idx ← get16 pkt 2; count ← get16 pkt 4;
    if (count =? 0) || (count <=? idx) then Some None else Some (Some (fseq, idx, count)).

(** ** Lemmas *)

Lemma parse_pack_frame_hdr h l :
  frame_hdr_typed h -> parse_frame_hdr (pack_frame_hdr h ++ l) = Some (Some h).
Proof.
  destruct h as [id fl sr pts]. intros (Hi & Hf & Hs & Hp).
  unfold parse_frame_hdr, pack_frame_hdr, kFrameHdrLen in *. cbn in Hi, Hf, Hs, Hp.
  rewrite (proj2 (Nat.ltb_ge _ _)) by (cbn; lia).
  unfold get16, get8, get32. cbn [app lookup list_lookup mbind option_bind frame_id flags slice_rows pts_us].
  rewrite (le32_id pts) by done. do 3 f_equal. to_arith. mlia.
Qed.

Lemma parse_frame_hdr_total buf : exists r, parse_frame_hdr buf = Some r.
Proof.
  unfold parse_frame_hdr. destruct (Nat.ltb_spec (length buf) kFrameHdrLen) as [|Hl]; [eauto |].
  unfold kFrameHdrLen in Hl. reads_in. eauto.
Qed.

Lemma n_chunks_pos len usable : (0 < usable)%nat -> (0 < n_chunks len usable)%nat.
Proof.
  intros Hu. unfold n_chunks. apply Nat.div_str_pos.
  destruct (Nat.ltb_spec 0 len); lia.
Qed.

(** The chunk count is the least one whose chunks cover the unit. *)
Lemma n_chunks_cover len usable :
  (0 < usable)%nat ->
  (len <= n_chunks len usable * usable)%nat /\
  ((n_chunks len usable - 1) * usable < Nat.max len 1)%nat.
Proof.
  intros Hu. unfold n_chunks.
  set (span := if (0 <? len)%nat then len else 1%nat).
  assert (Hs : span = Nat.max len 1) by (subst span; destruct (Nat.ltb_spec 0 len); lia).
  rewrite <- Hs. pose proof (Nat.div_mod_eq (span + usable - 1) usable) as E.
  pose proof (Nat.mod_upper_bound (span + usable - 1) usable) as B.
  set (q := ((span + usable - 1) / usable)%nat) in *. nia.
Qed.

Lemma chunks_concat (pkt : list Z) (usable n : nat) :
  concat (map (fun i => take (if (i * usable <? length pkt)%nat
                              then Nat.min usable (length pkt - i * usable) else 0)
                             (drop (i * usable) pkt)) (seq 0 n)) = take (n * usable) pkt.
Proof.
  induction n as [|n IH]; [done |].
  rewrite seq_S, map_app, concat_app, IH. cbn [map concat Nat.add].
  rewrite app_nil_r. replace (S n * usable)%nat with (n * usable + usable)%nat by lia.
  rewrite <- take_take_drop. f_equal.
  destruct (Nat.ltb_spec (n * usable) (length pkt)).
  - destruct (Nat.le_ge_cases usable (length pkt - n * usable)).
    + by rewrite Nat.min_l.
    + rewrite Nat.min_r by done. by rewrite !take_ge by (rewrite length_drop; lia).
  - rewrite drop_ge by done. by rewrite !take_nil.
Qed.

Lemma parse_frag_hdr_total pkt : exists r, parse_frag_hdr pkt = Some r.
Proof.
  unfold parse_frag_hdr. destruct (Nat.ltb_spec (length pkt) 6) as [|Hl]; [eauto |].
  reads_in. case_match; eauto.
Qed.

Lemma parse_frag_hdr_spec fseq idx count l :
  in_width 16 fseq -> in_width 16 idx -> in_width 16 count -> idx < count ->
  parse_frag_hdr (frag_hdr fseq idx count ++ l) = Some (Some (fseq, idx, count)).
Proof.
  intros Hf Hi Hc Hlt. unfold parse_frag_hdr, frag_hdr.
  rewrite (proj2 (Nat.ltb_ge _ _)) by (cbn; lia).
  unfold get16, put16. cbn [app lookup list_lookup mbind option_bind].
  rewrite !le16_id by done. destruct Hi.
  rewrite (proj2 (Z.eqb_neq count 0)), (proj2 (Z.leb_gt count idx)) by lia. done.
Qed.

(** ** The properties *)

(** Fragmentation is lossless.  For any unit and any positive [usable] that needs
    fewer than 2^16 fragments: the chunks, in order, concatenate to the unit; every chunk
    fits in [usable] bytes and all but the last are exactly [usable] long (the last is
    not empty unless the unit is); fragment [i] reads back as (seq, i, count) with the
    one count of the call; and the sequence number advances by one modulo 2^16. *)
Theorem fragment_lossless (f : Fragmenter) (pkt : list Z) (usable : nat) :
  in_width 16 (seq_ f) -> (0 < usable)%nat ->
  Z.of_nat (n_chunks (length pkt) usable) < 2 ^ 16 ->
  let '(f', fs) := fragment f pkt usable in
  let n := n_chunks (length pkt) usable in
  seq_ f' = (seq_ f + 1) mod 2 ^ 16 /\ length fs = n /\ (0 < n)%nat /\
  concat (map snd fs) = pkt /\
  forall i h c, fs !! i = Some (h, c) ->
    parse_frag_hdr (h ++ c) = Some (Some (seq_ f, Z.of_nat i, Z.of_nat n)) /\
    (length c <= usable)%nat /\ ((S i < n)%nat -> length c = usable) /\
    (pkt <> [] -> (0 < length c)%nat).
Proof.
  intros Hs Hu Hn. unfold fragment. cbn zeta.
  set (n := n_chunks (length pkt) usable) in *.
  pose proof (n_chunks_cover (length pkt) usable Hu) as [Hcov Hleast]. fold n in Hcov, Hleast.
  split; [done |]. split; [by rewrite length_map, length_seq |].
  split; [by apply n_chunks_pos |]. split.
  { rewrite map_map. transitivity (take (n * usable) pkt); [apply chunks_concat |].
    apply take_ge. lia. }
  intros i h c Hi. apply list_lookup_fmap_Some in Hi as (k & Heq & Hk).
  apply lookup_seq in Hk as [-> Hk]. injection Heq as -> ->. cbn [Nat.add].
  assert (Hmul : (i < n - 1)%nat -> (i * usable + usable <= (n - 1) * usable)%nat) by nia.
  assert (Hmul' : (i * usable <= (n - 1) * usable)%nat) by nia.
  split_all.
  - rewrite !wrap_small by (unfold in_width; lia). apply parse_frag_hdr_spec; [done |..].
    all: unfold in_width; lia.
  - rewrite length_take. destruct (_ <? _)%nat; lia.
  - intros Hlast. rewrite length_take, length_drop.
    destruct (Nat.ltb_spec (i * usable) (length pkt)); lia.
  - intros Hne. assert (0 < length pkt)%nat by (destruct pkt; cbn; [done | lia]).
    rewrite length_take, length_drop.
    destruct (Nat.ltb_spec (i * usable) (length pkt)); lia.
Qed.

Example fragment_lossless_witness :
  concat (map snd (snd (fragment (mkFragmenter 65535) (seqZ 1 10) 4))) = seqZ 1 10.
Proof.
  pose proof (fragment_lossless (mkFragmenter 65535) (seqZ 1 10) 4) as H.
  apply H; [decided | lia | vm_compute; reflexivity].
Defined.

(** The frame header round-trips: what [pack_frame_hdr] writes in front of any frame
    [parse_frame_hdr] reads back field for field, and on any buffer whatever the parser
    stays inside it, refusing exactly the buffers shorter than eight bytes. *)
Theorem frame_hdr_roundtrip (h : FrameHdr) (frame buf : list Z) :
  frame_hdr_typed h ->
  parse_frame_hdr (pack_frame_hdr h ++ frame) = Some (Some h) /\
  (exists r, parse_frame_hdr buf = Some r /\ (r = None <-> (length buf < 8)%nat)).
Proof.
  intros Ht. split; [by apply parse_pack_frame_hdr |].
  unfold parse_frame_hdr, kFrameHdrLen.
  destruct (Nat.ltb_spec (length buf) 8) as [|Hl]; [by exists None |].
  reads_in. eexists. split; [done |]. split; [done | lia].
Qed.

Example frame_hdr_roundtrip_witness :
  parse_frame_hdr (pack_frame_hdr (mkFrameHdr 513 2 4 4278190081) ++ [9; 9]) =
  Some (Some (mkFrameHdr 513 2 4 4278190081)).
Proof.
  refine (proj1 (frame_hdr_roundtrip _ [9; 9] [] _)). split_all; decided.
Defined.
