(* ===== verification/Sbi.v ===== *)
(** * Sbi: sub-block integrity framing (common/src/sbi.cpp)

    [SbiPacker] groups fixed-size FEC envelopes into one radio body, each behind its own
    CRC-16; [sbi_unpack] splits a received body, clean or corrupt, back into the
    envelopes whose CRC survives.  A read past the body is [None]. *)
From S2P Require Import Prelude Bytes Crc16.

(** ** Constants *)

Definition SBI_MAGIC : Z := 62896.  (* 0xF5B0 *)
Definition SBI_HDR_LEN : nat := 13.
Definition SBI_VER : Z := 2.
Definition SBI_Q_MS_OFF : nat := 7.
Definition SBI_ENC_US_OFF : nat := 9.
Definition SBI_AIR_MS_OFF : nat := 11.
Definition kMspStreamId : Z := 4.
Definition kProbeStreamId : Z := 5.
Definition kSbiRetxMark : Z := 128.
Definition kSbiStreamIdMask : Z := 127.

(** ** The packer *)

Record SbiPacker := mkSbiPacker {
  block_payload_ : nat;
  blocks_per_body_ : Z;
  stream_id_ : Z;
  body_ : list Z;
  n_pending_ : Z;
}.

(** The constructor. *)
Definition new_packer (block_payload : nat) (blocks_per_body stream_id : Z) : SbiPacker :=
  mkSbiPacker block_payload blocks_per_body stream_id [] 0.

Definition block_stride (p : SbiPacker) : nat := (2 + block_payload_ p)%nat.

(** [begin_body]: the header with a zero block count and zero duration fields. *)
Definition begin_body (p : SbiPacker) : SbiPacker :=
  let bp := Z.of_nat (block_payload_ p) in
  mkSbiPacker (block_payload_ p) (blocks_per_body_ p) (stream_id_ p)
    ([Z.land SBI_MAGIC 255; Z.land (Z.shiftr SBI_MAGIC 8) 255; SBI_VER; stream_id_ p;
      Z.land bp 255; Z.land (Z.shiftr bp 8) 255; 0] ++ replicate 6 0)
    (n_pending_ p).

(** [take_body]: patch the count, hand the body out, start empty. *)
Definition take_body (p : SbiPacker) : SbiPacker * list Z :=
  (mkSbiPacker (block_payload_ p) (blocks_per_body_ p) (stream_id_ p) [] 0,
   <[6%nat := u8 (n_pending_ p)]> (body_ p)).

(** [add_one]: an envelope of another length is ignored; the result is the completed
    body, or the empty vector. *)
Definition add_one (p : SbiPacker) (env : list Z) : SbiPacker * list Z :=
  if negb (length env =? block_payload_ p)%nat then (p, [])
  else
    let p := if n_pending_ p =? 0 then begin_body p else p in
    let crc := crc16 env in
    let p := mkSbiPacker (block_payload_ p) (blocks_per_body_ p) (stream_id_ p)
               (body_ p ++ [Z.land crc 255; Z.land (Z.shiftr crc 8) 255] ++ env)
               (n_pending_ p + 1) in
    if blocks_per_body_ p <=? n_pending_ p then take_body p else (p, []).

Definition flush_one (p : SbiPacker) : SbiPacker * list Z :=
  if n_pending_ p =? 0 then (p, []) else take_body p.

(** The vector forms. *)
Definition add (p : SbiPacker) (env : list Z) : SbiPacker * list (list Z) :=
  let '(p, b) := add_one p env in (p, match b with [] => [] | _ => [b] end).

Definition flush (p : SbiPacker) : SbiPacker * list (list Z) :=
  let '(p, b) := flush_one p in (p, match b with [] => [] | _ => [b] end).

(** ** The receiver *)

Record SbiUnpackResult := mkSbiUnpackResult {
  survivors : list (list Z);
  n_blocks : Z;
  n_failed : Z;
  header_ok : bool;
  stream_id : Z;
  retx : bool;
  q_ms : Z;
  enc_us : Z;
  air_ms : Z;
}.

Definition empty_result : SbiUnpackResult := mkSbiUnpackResult [] 0 0 false 0 false 0 0 0.

(** The block loop: each block's CRC field, payload and verdict. *)
Fixpoint unpack_loop (n : nat) (body : list Z) (off bp : nat) : option (list (list Z) * Z) :=
  match n with
  | O => Some ([], 0)
  | S n =>
      crc ← get16 body off;
      payload ← get_slice body (off + 2) bp;
      '(sv, nf) ← unpack_loop n body (off + (2 + bp)) bp;
      Some (if crc16 payload =? crc then (payload :: sv, nf) else (sv, nf + 1))
  end.

Definition sbi_unpack (body : list Z) (block_payload : Z) : option SbiUnpackResult :=
  if block_payload <=? 0 then Some empty_result
  else if (length body <? SBI_HDR_LEN)%nat then Some empty_result
  else
    let bp := Z.to_nat block_payload in
    let stride := (2 + bp)%nat in
    magic ← get16 body 0; ver ← get8 body 2; sid ← get8 body 3; hdr_bp ← get16 body 4;
    let ok := (magic =? SBI_MAGIC) && (ver =? SBI_VER) && (hdr_bp =? block_payload) in
    q ← (if ok then get16 body SBI_Q_MS_OFF else Some 0);
    e ← (if ok then get16 body SBI_ENC_US_OFF else Some 0);
    a ← (if ok then get16 body SBI_AIR_MS_OFF else Some 0);
    let n := ((length body - SBI_HDR_LEN) / stride)%nat in
    '(sv, nf) ← unpack_loop n body SBI_HDR_LEN bp;
    Some (mkSbiUnpackResult sv (Z.of_nat n) nf ok (Z.land sid kSbiStreamIdMask)
            (negb (Z.land sid kSbiRetxMark =? 0)) q e a).

(** [sbi_peek_stream_id]: -1 on a short, bad-magic or bad-version header. *)
Definition sbi_peek_stream_id (body : list Z) : option Z :=
  if (length body <? SBI_HDR_LEN)%nat then Some (-1)
  else
    magic ← get16 body 0; ver ← get8 body 2;
    if negb (magic =? SBI_MAGIC) || negb (ver =? SBI_VER) then Some (-1)
    else sid ← get8 body 3; Some (Z.land sid kSbiStreamIdMask).

(** The post-hoc patchers of the three duration fields. *)
Definition set_u16_at (body : list Z) (off : nat) (v : Z) : list Z :=
  if (length body <? SBI_HDR_LEN)%nat then body
  else <[S off := Z.shiftr v 8]> (<[off := Z.land v 255]> body).

Definition sbi_set_q_ms (body : list Z) (ms : Z) : list Z := set_u16_at body SBI_Q_MS_OFF ms.
Definition sbi_set_enc_us (body : list Z) (us : Z) : list Z := set_u16_at body SBI_ENC_US_OFF us.
Definition sbi_set_air_ms (body : list Z) (ms : Z) : list Z := set_u16_at body SBI_AIR_MS_OFF ms.

(** ** Specification: a body is a header and a list of blocks *)

(** The header with all its fields, as the wire carries it. *)
Definition body_header (sid bp n q e a : Z) : list Z :=
  put16 SBI_MAGIC ++ [SBI_VER; sid] ++ put16 bp ++ [n] ++ put16 q ++ put16 e ++ put16 a.

(** A block as sent, and a block as received: any CRC field, any payload. *)
Definition block (env : list Z) : list Z := put16 (crc16 env) ++ env.
Definition raw_block (crc : Z) (payload : list Z) : list Z := put16 crc ++ payload.

(** The blocks a receiver keeps. *)
Definition kept (bs : list (Z * list Z)) : list (list Z) :=
  map snd (filter (fun cp => crc16 (snd cp) = fst cp) bs).

Lemma body_header_length sid bp n q e a : length (body_header sid bp n q e a) = SBI_HDR_LEN.
Proof. done. Qed.

Lemma take_drop_block {A} (pre x post : list A) :
  take (length x) (drop (length pre) (pre ++ x ++ post)) = x.
Proof. by rewrite drop_app_length, take_app_length. Qed.

Lemma kept_cons c p bs :
  kept ((c, p) :: bs) = if crc16 p =? c then p :: kept bs else kept bs.
Proof.
  unfold kept. rewrite filter_cons. cbn [fst snd]. case_decide as H.
  - by rewrite (proj2 (Z.eqb_eq _ _) H).
  - by rewrite (proj2 (Z.eqb_neq _ _) H).
Qed.

Lemma unpack_loop_spec bs pre post bp :
  Forall (fun cp => in_width 16 (fst cp) /\ length (snd cp) = bp) bs ->
  unpack_loop (length bs) (pre ++ concat (map (fun '(c, p) => raw_block c p) bs) ++ post)
    (length pre) bp =
  Some (kept bs, Z.of_nat (length bs) - Z.of_nat (length (kept bs))).
Proof.
  intros H. revert pre. induction H as [|[c p] bs [Hc Hp] H IH]; intros pre; [done |].
  cbn [length unpack_loop map concat]. cbn in Hc, Hp.
  assert (G : get16 (pre ++ (raw_block c p ++ concat (map (λ '(c, p), raw_block c p) bs)) ++ post)
    (length pre) = Some c).
  { rewrite <- (Nat.add_0_r (length pre)), get16_app. unfold raw_block.
    rewrite <- !app_assoc. by apply get16_put16. }
  rewrite G. cbn [mbind option_bind].
  set (rest := concat (map (λ '(c, p), raw_block c p) bs)).
  replace (pre ++ (raw_block c p ++ rest) ++ post)
    with ((pre ++ put16 c) ++ p ++ (rest ++ post))
    by (unfold raw_block; by rewrite <- !app_assoc).
  rewrite get_slice_in.
  2: { rewrite !length_app. cbn. lia. }
  cbn [mbind option_bind].
  replace (length pre + 2)%nat with (length (pre ++ put16 c)) by (rewrite length_app; done).
  replace (take bp _) with p by (rewrite <- Hp; symmetry; apply take_drop_block).
  replace (length pre + (2 + bp))%nat with (length ((pre ++ put16 c) ++ p))
    by (rewrite !length_app; cbn; lia).
  rewrite (app_assoc (pre ++ put16 c) p). rewrite IH. cbn [mbind option_bind].
  rewrite kept_cons. destruct (crc16 p =? c); cbn [length]; do 2 f_equal; lia.
Qed.

(** What [sbi_unpack] returns on a header followed by any blocks of the right size and
    fewer trailing bytes than one more block. *)
Definition unpack_spec (bp sid q e a : Z) (bs : list (Z * list Z)) : SbiUnpackResult :=
  mkSbiUnpackResult (kept bs) (Z.of_nat (length bs))
    (Z.of_nat (length bs) - Z.of_nat (length (kept bs))) true
    (Z.land sid kSbiStreamIdMask) (negb (Z.land sid kSbiRetxMark =? 0)) q e a.

Lemma concat_blocks_length bs bp :
  Forall (fun cp => in_width 16 (fst cp) /\ length (snd cp) = bp) bs ->
  length (concat (map (fun '(c, p) => raw_block c p) bs)) = (length bs * (2 + bp))%nat.
Proof.
  induction 1 as [|[c p] bs [_ Hp] H IH]; [done |]. cbn [map concat length].
  unfold raw_block at 1. rewrite !length_app, IH. cbn in *. lia.
Qed.

Lemma sbi_unpack_blocks bp sid n q e a bs post :
  (0 < bp)%nat -> in_width 16 (Z.of_nat bp) ->
  in_width 16 q -> in_width 16 e -> in_width 16 a ->
  Forall (fun cp => in_width 16 (fst cp) /\ length (snd cp) = bp) bs ->
  (length post < 2 + bp)%nat ->
  sbi_unpack (body_header sid (Z.of_nat bp) n q e a ++
              concat (map (fun '(c, p) => raw_block c p) bs) ++ post) (Z.of_nat bp) =
  Some (unpack_spec (Z.of_nat bp) sid q e a bs).
Proof.
  intros Hbp Hw Hq He Ha Hbs Hpost. unfold sbi_unpack.
  rewrite (proj2 (Z.leb_gt _ 0)) by lia.
  rewrite (proj2 (Nat.ltb_ge _ SBI_HDR_LEN)) by (rewrite length_app; cbn; unfold SBI_HDR_LEN; lia).
  rewrite Nat2Z.id.
  set (blocks := concat (map (fun '(c, p) => raw_block c p) bs)).
  assert (Hlen : ((length (body_header sid (Z.of_nat bp) n q e a ++ blocks ++ post) - SBI_HDR_LEN) /
    (2 + bp))%nat = length bs).
  { rewrite !length_app, body_header_length.
    replace (length blocks) with (length bs * (2 + bp))%nat
      by (symmetry; by apply concat_blocks_length).
    rewrite Nat.add_sub_swap, Nat.sub_diag, Nat.add_0_l by lia.
    rewrite Nat.div_add_l by lia. rewrite Nat.div_small by lia. lia. }
  rewrite Hlen. unfold SBI_HDR_LEN.
  pose proof (unpack_loop_spec bs (body_header sid (Z.of_nat bp) n q e a) post bp Hbs) as Hloop.
  rewrite body_header_length in Hloop. unfold SBI_HDR_LEN in Hloop. fold blocks in Hloop.
  rewrite Hloop. unfold body_header, get16, get8, put16.
  cbn [app lookup list_lookup mbind option_bind].
  unfold SBI_Q_MS_OFF, SBI_ENC_US_OFF, SBI_AIR_MS_OFF.
  cbn [app lookup list_lookup mbind option_bind].
  rewrite (le16_id SBI_MAGIC) by decided. rewrite (le16_id (Z.of_nat bp)), !Z.eqb_refl by done.
  cbn [andb]. cbn [app lookup list_lookup mbind option_bind].
  by rewrite (le16_id q), (le16_id e), (le16_id a) by done.
Qed.

(** The packer's state is the header and the blocks of the pending envelopes. *)
Definition packer_pending (p : SbiPacker) (envs : list (list Z)) : Prop :=
  n_pending_ p = Z.of_nat (length envs) /\
  body_ p = match envs with
            | [] => []
            | _ => body_header (stream_id_ p) (Z.of_nat (block_payload_ p)) 0 0 0 0 ++
                   concat (map block envs)
            end.

Lemma add_one_spec p envs env :
  packer_pending p envs -> length env = block_payload_ p ->
  let '(p', b) := add_one p env in
  if blocks_per_body_ p <=? Z.of_nat (length envs) + 1
  then packer_pending p' [] /\
       b = <[6%nat := u8 (Z.of_nat (length envs) + 1)]>
             (body_header (stream_id_ p) (Z.of_nat (block_payload_ p)) 0 0 0 0 ++
              concat (map block (envs ++ [env])))
  else packer_pending p' (envs ++ [env]) /\ b = [].
Proof.
  intros [Hn Hb] Hl. unfold add_one. rewrite Hl, Nat.eqb_refl. cbn [negb].
  set (p1 := if n_pending_ p =? 0 then begin_body p else p).
  assert (Hp1 : block_payload_ p1 = block_payload_ p /\ blocks_per_body_ p1 = blocks_per_body_ p /\
    stream_id_ p1 = stream_id_ p /\ n_pending_ p1 = Z.of_nat (length envs) /\
    body_ p1 = body_header (stream_id_ p) (Z.of_nat (block_payload_ p)) 0 0 0 0 ++
               concat (map block envs)).
  { subst p1. rewrite Hn. destruct envs as [|e0 envs].
    - cbn. by rewrite ?Hn.
    - rewrite (proj2 (Z.eqb_neq _ 0)) by (cbn [length]; lia). done. }
  destruct Hp1 as (E1 & E2 & E3 & E4 & E5). clearbody p1.
  unfold take_body. cbn [blocks_per_body_ n_pending_ block_payload_ stream_id_ body_].
  rewrite E2, E4.
  assert (Hbody : body_ p1 ++ [Z.land (crc16 env) 255; Z.land (Z.shiftr (crc16 env) 8) 255] ++ env =
    body_header (stream_id_ p) (Z.of_nat (block_payload_ p)) 0 0 0 0 ++
    concat (map block (envs ++ [env]))).
  { rewrite E5, map_app, concat_app, <- app_assoc. cbn. by rewrite app_nil_r. }
  destruct (Z.leb_spec (blocks_per_body_ p) (Z.of_nat (length envs) + 1)).
  - split; [done |]. by rewrite Hbody.
  - split; [| done]. unfold packer_pending. cbn [n_pending_ body_ block_payload_ stream_id_].
    rewrite E1, E3, Hbody, length_app. cbn [length]. split; [lia |]. by destruct envs.
Qed.

(** The header byte [take_body] patches is the block count. *)
Lemma patch_count sid bp n k rest :
  <[6%nat := k]> (body_header sid bp n 0 0 0 ++ rest) = body_header sid bp k 0 0 0 ++ rest.
Proof. done. Qed.

Lemma blocks_raw envs : map block envs = map (fun '(c, p) => raw_block c p) (map (fun e => (crc16 e, e)) envs).
Proof. rewrite map_map. done. Qed.

Lemma kept_clean envs : kept (map (fun e => (crc16 e, e)) envs) = envs.
Proof.
  induction envs as [|e envs IH]; [done |]. cbn [map]. by rewrite kept_cons, Z.eqb_refl, IH.
Qed.

Lemma clean_blocks_ok envs bp :
  Forall (fun e => length e = bp) envs ->
  Forall (fun cp => in_width 16 (fst cp) /\ length (snd cp) = bp)
    (map (fun e => (crc16 e, e)) envs).
Proof. intros H. apply Forall_map. eapply Forall_impl; [exact H |]. cbn. auto with width. Qed.

(** A body of [envs] unpacks to exactly [envs]. *)
Lemma unpack_packed sid bp n envs :
  (0 < bp)%nat -> in_width 16 (Z.of_nat bp) -> Forall (fun e => length e = bp) envs ->
  sbi_unpack (body_header sid (Z.of_nat bp) n 0 0 0 ++ concat (map block envs)) (Z.of_nat bp) =
  Some (mkSbiUnpackResult envs (Z.of_nat (length envs)) 0 true
          (Z.land sid kSbiStreamIdMask) (negb (Z.land sid kSbiRetxMark =? 0)) 0 0 0).
Proof.
  intros Hbp Hw He. rewrite blocks_raw, <- (app_nil_r (concat _)).
  rewrite sbi_unpack_blocks; [| done.. | by apply clean_blocks_ok | cbn; lia].
  unfold unpack_spec. rewrite kept_clean, length_map. do 2 f_equal. lia.
Qed.

(** A whole stream of envelopes: [add] for each, then [flush]. *)
Fixpoint add_all (p : SbiPacker) (envs : list (list Z)) : SbiPacker * list (list Z) :=
  match envs with
  | [] => (p, [])
  | e :: envs =>
      let '(p, bs) := add p e in
      let '(p, bs') := add_all p envs in (p, bs ++ bs')
  end.

Definition pack_stream (p : SbiPacker) (envs : list (list Z)) : list (list Z) :=
  let '(p, bs) := add_all p envs in bs ++ snd (flush p).

(** A body as packed: the header with its count, then the blocks of [g]. *)
Definition packed (bp sid : Z) (body : list Z) (g : list (list Z)) : Prop :=
  exists n, body = body_header sid bp n 0 0 0 ++ concat (map block g).

(** Groups as the packer forms them: full ones and a shorter, non-empty last. *)
Inductive grouping (bpb : nat) : list (list (list Z)) -> list (list Z) -> Prop :=
| grouping_nil : grouping bpb [] []
| grouping_last g : (0 < length g < bpb)%nat -> grouping bpb [g] g
| grouping_full g gs l : length g = bpb -> grouping bpb gs l -> grouping bpb (g :: gs) (g ++ l).

Lemma grouping_forall bpb (P : list Z -> Prop) gs l : grouping bpb gs l -> Forall P l -> Forall (Forall P) gs.
Proof.
  induction 1 as [| g Hg | g gs l _ _ IH]; intros HP; [constructor | by constructor |].
  apply Forall_app in HP as [? ?]. constructor; [done | by apply IH].
Qed.

Lemma grouping_concat bpb gs l : grouping bpb gs l -> concat gs = l.
Proof. induction 1 as [| g _ | g gs l _ _ IH]; [done | cbn; by rewrite app_nil_r | cbn; by rewrite IH]. Qed.

Lemma add_one_config p env :
  let p' := fst (add_one p env) in
  block_payload_ p' = block_payload_ p /\ blocks_per_body_ p' = blocks_per_body_ p /\
  stream_id_ p' = stream_id_ p.
Proof.
  unfold add_one, take_body, begin_body.
  destruct (negb _); [done |]. destruct (n_pending_ p =? 0); cbn; case_match; done.
Qed.

Lemma nonempty_body sid bp k rest : body_header sid bp k 0 0 0 ++ rest <> [].
Proof. done. Qed.

Lemma pack_stream_grouping (p : SbiPacker) (pend envs : list (list Z)) (bpb : nat) :
  packer_pending p pend -> blocks_per_body_ p = Z.of_nat bpb -> (length pend < bpb)%nat ->
  (0 < block_payload_ p)%nat -> in_width 16 (Z.of_nat (block_payload_ p)) ->
  Forall (fun e => length e = block_payload_ p) (pend ++ envs) ->
  exists groups,
    grouping bpb groups (pend ++ envs) /\
    Forall2 (packed (Z.of_nat (block_payload_ p)) (stream_id_ p)) (pack_stream p envs) groups.
Proof.
  revert p pend. induction envs as [|e envs IH]; intros p pend Hp Hbpb Hlt Hpos Hw Hall.
  - unfold pack_stream. cbn [add_all]. unfold flush, flush_one.
    destruct Hp as [Hn Hb]. rewrite Hn. rewrite app_nil_r in *.
    destruct pend as [|g0 pend]; [by exists []; split; constructor |].
    rewrite (proj2 (Z.eqb_neq _ 0)) by (cbn [length]; lia).
    cbn [take_body]. rewrite Hb, patch_count.
    exists [g0 :: pend]. split; [constructor; cbn [length] in *; lia |].
    constructor; [| constructor]. by eexists.
  - unfold pack_stream. cbn [add_all]. unfold add.
    assert (He : length e = block_payload_ p).
    { rewrite Forall_app, Forall_cons in Hall. by destruct Hall as [_ [? _]]. }
    pose proof (add_one_spec p pend e Hp He) as Hs.
    pose proof (add_one_config p e) as (C1 & C2 & C3).
    destruct (add_one p e) as [p' b]. cbn [fst] in C1, C2, C3. rewrite Hbpb in Hs.
    rewrite <- C1, <- C3 in *. rewrite <- C2 in Hbpb.
    assert (Hall' : Forall (fun e => length e = block_payload_ p') ((pend ++ [e]) ++ envs))
      by by rewrite <- app_assoc.
    destruct (Z.leb_spec (Z.of_nat bpb) (Z.of_nat (length pend) + 1)) as [Hfull|Hmore].
    + destruct Hs as [Hp' ->].
      destruct (IH p' [] Hp' Hbpb ltac:(cbn; lia) Hpos Hw) as (groups & Hg & Hf).
      { apply Forall_app in Hall' as [_ ?]. done. }
      exists ((pend ++ [e]) :: groups). split.
      * replace (pend ++ e :: envs) with ((pend ++ [e]) ++ envs) by by rewrite <- app_assoc.
        constructor; [rewrite length_app; cbn; lia | done].
      * unfold pack_stream in Hf. rewrite patch_count.
        destruct (add_all p' envs) as [p'' bs]. cbn [app].
        constructor; [| done]. by eexists.
    + destruct Hs as [Hp' ->].
      destruct (IH p' (pend ++ [e]) Hp' Hbpb) as (groups & Hg & Hf);
        [rewrite length_app; cbn; lia | done.. |].
      exists groups. rewrite <- app_assoc in Hg. split; [done |].
      unfold pack_stream in Hf. by destruct (add_all p' envs) as [p'' bs].
Qed.

(** ** Receiving corrupt bodies *)

(** Every body is accepted without a read outside it, and the accounting is exact. *)
Lemma unpack_loop_total n body off bp :
  (off + n * (2 + bp) <= length body)%nat ->
  exists sv nf, unpack_loop n body off bp = Some (sv, nf) /\
    Z.of_nat (length sv) + nf = Z.of_nat n /\ 0 <= nf /\ Forall (fun s => length s = bp) sv.
Proof.
  revert off. induction n as [|n IH]; intros off Hl; [by exists [], 0 |].
  cbn [unpack_loop]. destruct (get16_in body off) as [crc ->]; [lia |].
  cbn [mbind option_bind]. rewrite get_slice_in by lia. cbn [mbind option_bind].
  destruct (IH (off + (2 + bp))%nat) as (sv & nf & -> & Hc & Hnf & Hf); [lia |].
  cbn [mbind option_bind]. destruct (_ =? crc).
  - eexists _, _. split; [done |]. cbn [length]. split_all; [lia | lia |].
    constructor; [| done]. rewrite length_take, length_drop. lia.
  - eexists _, _. split; [done |]. split_all; [lia | lia | done].
Qed.

Lemma setter_length body off v : length (set_u16_at body off v) = length body.
Proof. unfold set_u16_at. case_match; [done |]. by rewrite !length_insert. Qed.

(** The three patchers write the header's field and nothing else. *)
Lemma set_q_ms_header sid bp n q e a rest v :
  in_width 16 v ->
  sbi_set_q_ms (body_header sid bp n q e a ++ rest) v = body_header sid bp n v e a ++ rest.
Proof.
  intros Hv. unfold sbi_set_q_ms, set_u16_at, body_header, put16, SBI_HDR_LEN, SBI_Q_MS_OFF.
  cbn. repeat f_equal. rewrite land_255, wrap_small; [done |]. to_arith. mlia.
Qed.

Lemma set_enc_us_header sid bp n q e a rest v :
  in_width 16 v ->
  sbi_set_enc_us (body_header sid bp n q e a ++ rest) v = body_header sid bp n q v a ++ rest.
Proof.
  intros Hv. unfold sbi_set_enc_us, set_u16_at, body_header, put16, SBI_HDR_LEN, SBI_ENC_US_OFF.
  cbn. repeat f_equal. rewrite land_255, wrap_small; [done |]. to_arith. mlia.
Qed.

Lemma set_air_ms_header sid bp n q e a rest v :
  in_width 16 v ->
  sbi_set_air_ms (body_header sid bp n q e a ++ rest) v = body_header sid bp n q e v ++ rest.
Proof.
  intros Hv. unfold sbi_set_air_ms, set_u16_at, body_header, put16, SBI_HDR_LEN, SBI_AIR_MS_OFF.
  cbn. repeat f_equal. rewrite land_255, wrap_small; [done |]. to_arith. mlia.
Qed.

(** Whatever wait is patched in, it unpacks to exactly [g]. *)
Lemma packed_unpack bp sid body g q :
  (0 < bp)%nat -> in_width 16 (Z.of_nat bp) -> Forall (fun e => length e = bp) g -> in_width 16 q ->
  packed (Z.of_nat bp) sid body g ->
  sbi_unpack (sbi_set_q_ms body q) (Z.of_nat bp) =
  Some (mkSbiUnpackResult g (Z.of_nat (length g)) 0 true
          (Z.land sid kSbiStreamIdMask) (negb (Z.land sid kSbiRetxMark =? 0)) q 0 0).
Proof.
  intros Hbp Hw He Hq [n ->]. rewrite set_q_ms_header by done. rewrite blocks_raw, <- (app_nil_r (concat _)).
  rewrite sbi_unpack_blocks; [| done.. | by apply clean_blocks_ok | cbn; lia].
  unfold unpack_spec. rewrite kept_clean, length_map. do 2 f_equal. lia.
Qed.

(** One block on the air: what was sent, what arrived, and whether it arrived intact.  A
    burst may hit two adjacent payload bytes, or the CRC field. *)
Inductive received : list Z -> Z * list Z -> bool -> Prop :=
| rx_intact env : received env (crc16 env, env) true
| rx_payload_hit pre suf a b a' b' :
    bytes_ok suf -> is_byte a -> is_byte b -> is_byte a' -> is_byte b' -> (a, b) <> (a', b') ->
    received (pre ++ [a; b] ++ suf) (crc16 (pre ++ [a; b] ++ suf), pre ++ [a'; b'] ++ suf) false
| rx_crc_hit env c : in_width 16 c -> c <> crc16 env -> received env (c, env) false.

Lemma received_kept env c p ok :
  received env (c, p) ok -> (crc16 p =? c) = ok /\ (ok = true -> p = env) /\
  length p = length env /\ in_width 16 c.
Proof.
  assert (W : forall l, in_width 16 (crc16 l)) by (intros; apply crc16_width; width).
  inversion 1 as [| pre suf x y x' y' Hs Hx Hy Hx' Hy' Hne | ? ? Hc Hne]; subst.
  - by rewrite Z.eqb_refl.
  - split; [| split; [done |]].
    + apply Z.eqb_neq. intros E. symmetry in E. revert E. by apply crc16_detects_pair.
    + split; [by rewrite !length_app | apply W].
  - split; [apply Z.eqb_neq; congruence | done].
Qed.

Lemma received_survivors (sent : list (list Z * bool)) (bs : list (Z * list Z)) :
  Forall2 (fun eb cp => received (fst eb) cp (snd eb)) sent bs ->
  kept bs = map fst (filter (fun eb => snd eb = true) sent).
Proof.
  induction 1 as [|[env ok] [c p] sent bs Hr H IH]; [done |].
  rewrite kept_cons, filter_cons. cbn [fst snd] in *.
  apply received_kept in Hr as (-> & Hp & _). destruct ok; [| done].
  rewrite decide_True by done. cbn [map fst]. rewrite IH. by rewrite Hp.
Qed.

(** ** The properties *)

(** Packing is lossless.  Feed any list of envelopes of the configured size to a
    fresh packer and flush: the bodies unpack, in order, to consecutive groups of the
    list, every group full except a shorter non-empty last; no block fails, the header is
    recognised, and its duration fields read as "unknown". *)
Theorem sbi_packing_lossless (bp bpb : nat) (sid : Z) (envs : list (list Z)) :
  (0 < bp)%nat -> in_width 16 (Z.of_nat bp) -> (0 < bpb)%nat ->
  Forall (fun e => length e = bp) envs ->
  exists groups,
    grouping bpb groups envs /\
    Forall2 (fun body g =>
        sbi_unpack body (Z.of_nat bp) =
        Some (mkSbiUnpackResult g (Z.of_nat (length g)) 0 true
                (Z.land sid kSbiStreamIdMask) (negb (Z.land sid kSbiRetxMark =? 0)) 0 0 0))
      (pack_stream (new_packer bp (Z.of_nat bpb) sid) envs) groups.
Proof.
  intros Hbp Hw Hbpb He.
  destruct (pack_stream_grouping (new_packer bp (Z.of_nat bpb) sid) [] envs bpb) as (groups & Hg & Hf); try done.
  exists groups. split; [done |]. cbn in Hf. pose proof (grouping_forall _ _ _ _ Hg He) as Hl. clear Hg.
  revert Hl. induction Hf as [| body g bs gs [n ->] _ IH]; [constructor |]. intros [Hg Hl]%Forall_cons.
  constructor; [by apply unpack_packed | by apply IH].
Qed.

Example sbi_packing_lossless_witness :
  exists groups,
    grouping 2 groups [[1; 2]; [3; 4]; [5; 6]] /\
    Forall2 (fun body g =>
        sbi_unpack body 2 =
        Some (mkSbiUnpackResult g (Z.of_nat (length g)) 0 true
                (Z.land 1 kSbiStreamIdMask) (negb (Z.land 1 kSbiRetxMark =? 0)) 0 0 0))
      (pack_stream (new_packer 2 2 1) [[1; 2]; [3; 4]; [5; 6]]) groups.
Proof.
  apply (sbi_packing_lossless 2 2 1 [[1; 2]; [3; 4]; [5; 6]]); [lia | decided | lia | decided].
Defined.

(** Any bytes are blocks and fewer bytes than one more block. *)
Lemma tail_blocks bp post : bytes_ok post -> exists tail rest,
  post = concat (map (fun '(c, p) => raw_block c p) tail) ++ rest /\ (length rest < 2 + bp)%nat /\
  Forall (fun cp => in_width 16 (fst cp) /\ length (snd cp) = bp) tail.
Proof.
  remember (length post) as n eqn:Hn. revert post Hn. induction n as [n IH] using lt_wf_ind. intros post -> Hb.
  destruct (Nat.lt_ge_cases (length post) (2 + bp)) as [Hs | Hl]. { exists [], post. split; [done |]. split; [exact Hs | constructor]. }
  destruct post as [|b0 [|b1 post]]; cbn [length] in Hl; try lia. inv_bytes.
  destruct (IH (length (drop bp post)) ltac:(rewrite length_drop; cbn [length]; lia) (drop bp post) eq_refl) as (tail & rest & E & Hr & Hf);
    [by apply Forall_drop |].
  exists ((Z.lor b0 (Z.shiftl b1 8), take bp post) :: tail), rest. split; [| split; [exact Hr |]].
  - cbn [map concat]. rewrite <- app_assoc, <- E. unfold raw_block. rewrite put16_read by done. cbn [app]. by rewrite take_drop.
  - constructor; [| exact Hf]. cbn [fst snd]. split; [by apply get16_width | rewrite length_take; lia].
Qed.

Lemma kept_app bs tail : kept (bs ++ tail) = kept bs ++ kept tail.
Proof. unfold kept. by rewrite filter_app, map_app. Qed.

(** C34.  Corruption is contained in its block.  Whatever the header's count, the envelopes of a body
    whose blocks arrived intact survive in order, and those hit in two adjacent payload bytes, or in
    their CRC field, are counted as failed.  Whatever stray bytes follow are scanned as further
    blocks behind them, kept only where the CRC holds, and a last part shorter than a block is
    ignored.  The duration fields patched in after encoding are read back without touching any block. *)
Theorem sbi_corruption_contained (bp : nat) (sid n q e a : Z) (sent : list (list Z * bool))
    (bs : list (Z * list Z)) (post : list Z) :
  (0 < bp)%nat -> in_width 16 (Z.of_nat bp) ->
  in_width 16 q -> in_width 16 e -> in_width 16 a ->
  Forall (fun eb => length (fst eb) = bp) sent ->
  Forall2 (fun eb cp => received (fst eb) cp (snd eb)) sent bs ->
  bytes_ok post ->
  let body := body_header sid (Z.of_nat bp) n 0 0 0 ++
              concat (map (fun '(c, p) => raw_block c p) bs) ++ post in
  let intact := map fst (filter (fun eb => snd eb = true) sent) in
  exists tail rest,
    post = concat (map (fun '(c, p) => raw_block c p) tail) ++ rest /\ (length rest < 2 + bp)%nat /\
    Forall (fun cp => in_width 16 (fst cp) /\ length (snd cp) = bp) tail /\
    let stray := map snd (filter (fun cp => crc16 (snd cp) = fst cp) tail) in
    sbi_unpack (sbi_set_air_ms (sbi_set_enc_us (sbi_set_q_ms body q) e) a) (Z.of_nat bp) =
    Some (mkSbiUnpackResult (intact ++ stray) (Z.of_nat (length sent + length tail))
            (Z.of_nat (length sent + length tail) - Z.of_nat (length intact + length stray)) true
            (Z.land sid kSbiStreamIdMask) (negb (Z.land sid kSbiRetxMark =? 0)) q e a).
Proof.
  intros Hbp Hw Hq He Ha Hsent Hrx Hb body intact. destruct (tail_blocks bp post Hb) as (tail & rest & -> & Hr & Ht).
  exists tail, rest. split; [done |]. split; [exact Hr |]. split; [exact Ht |]. intros stray. subst body.
  rewrite set_q_ms_header, set_enc_us_header, set_air_ms_header by done.
  rewrite (app_assoc (concat _) (concat _) rest), <- concat_app, <- map_app.
  rewrite sbi_unpack_blocks; [| done.. | | done].
  - unfold unpack_spec. rewrite kept_app, (received_survivors sent) by done.
    rewrite !length_app, <- (Forall2_length _ _ _ Hrx). reflexivity.
  - apply Forall_app. split; [| exact Ht]. clear -Hsent Hrx. induction Hrx as [|[env ok] [c p] sent bs Hr Hrx IH]; [done |].
    apply Forall_cons in Hsent as [Hl Hsent]. constructor; [| by apply IH].
    cbn in *. apply received_kept in Hr as (_ & _ & Hlen & Hc). split; [done | lia].
Qed.

(** An intact envelope, one hit, an intact one, then a stray block and a stray byte. *)
Example sbi_corruption_contained_witness :
  exists tail rest, [0; 0; 1; 1; 1; 77] = concat (map (fun '(c, p) => raw_block c p) tail) ++ rest /\ (length rest < 2 + 3)%nat /\
  let stray := map snd (filter (fun cp => crc16 (snd cp) = fst cp) tail) in
  sbi_unpack (sbi_set_air_ms (sbi_set_enc_us (sbi_set_q_ms
    (body_header 129 3 0 0 0 0 ++
     concat (map (fun '(c, p) => raw_block c p)
       [(crc16 [1; 2; 3], [1; 2; 3]); (crc16 [4; 5; 6], [4; 9; 9]); (crc16 [7; 8; 9], [7; 8; 9])])
     ++ [0; 0; 1; 1; 1; 77]) 5) 6) 7) 3 =
  Some (mkSbiUnpackResult ([[1; 2; 3]; [7; 8; 9]] ++ stray) (Z.of_nat (3 + length tail))
          (Z.of_nat (3 + length tail) - Z.of_nat (2 + length stray)) true 1 true 5 6 7).
Proof.
  destruct (sbi_corruption_contained 3 129 0 5 6 7
           [([1; 2; 3], true); ([4; 5; 6], false); ([7; 8; 9], true)]
           [(crc16 [1; 2; 3], [1; 2; 3]); (crc16 [4; 5; 6], [4; 9; 9]); (crc16 [7; 8; 9], [7; 8; 9])] [0; 0; 1; 1; 1; 77])
    as (tail & rest & H1 & H2 & _ & H3); try decided; try (cbn; lia).
  - repeat constructor. apply (rx_payload_hit [4] [] 5 6 9 9); decided.
  - exists tail, rest. split; [exact H1 |]. split; [exact H2 | exact H3].
Defined.

(** The receiver is total.  On any buffer and any configured block size, negative ones
    included, [sbi_unpack] and [sbi_peek_stream_id] read only inside the buffer; survivors
    and failures add up to the blocks scanned, every survivor has the configured length,
    and a header the unpacker accepts is one the router's peek agrees with. *)
Theorem sbi_unpack_total (body : list Z) (block_payload : Z) :
  exists r sid, sbi_unpack body block_payload = Some r /\ sbi_peek_stream_id body = Some sid /\
    Z.of_nat (length (survivors r)) + n_failed r = n_blocks r /\ 0 <= n_failed r /\
    Forall (fun s => Z.of_nat (length s) = block_payload) (survivors r) /\
    (header_ok r = true -> sid = stream_id r).
Proof.
  unfold sbi_unpack, sbi_peek_stream_id.
  destruct (Nat.ltb_spec (length body) SBI_HDR_LEN) as [Hs|Hl].
  { exists empty_result, (-1). by case_match. }
  unfold SBI_HDR_LEN in Hl.
  destruct (get16_in body 0) as [magic Hm]; [lia |].
  destruct (get8_in body 2) as [ver Hv]; [lia |].
  destruct (get8_in body 3) as [sid Hsid]; [lia |].
  destruct (get16_in body 4) as [hbp Hbp]; [lia |].
  destruct (get16_in body SBI_Q_MS_OFF) as [q Hq]; [unfold SBI_Q_MS_OFF; lia |].
  destruct (get16_in body SBI_ENC_US_OFF) as [e He]; [unfold SBI_ENC_US_OFF; lia |].
  destruct (get16_in body SBI_AIR_MS_OFF) as [a Ha]; [unfold SBI_AIR_MS_OFF; lia |].
  rewrite Hm, Hv, Hsid, Hbp, Hq, He, Ha. cbn [mbind option_bind].
  destruct (Z.leb_spec block_payload 0).
  { exists empty_result, (if negb (magic =? SBI_MAGIC) || negb (ver =? SBI_VER) then -1
                          else Z.land sid kSbiStreamIdMask).
    split; [done |]. by destruct (_ || _). }
  set (bp := Z.to_nat block_payload).
  destruct (unpack_loop_total ((length body - SBI_HDR_LEN) / (2 + bp)) body SBI_HDR_LEN bp)
    as (sv & nf & -> & Hc & Hnf & Hf).
  { unfold SBI_HDR_LEN. pose proof (Nat.Div0.mul_div_le (length body - 13) (2 + bp)). lia. }
  set (ok := (magic =? SBI_MAGIC) && (ver =? SBI_VER) && (hbp =? block_payload)).
  exists (mkSbiUnpackResult sv (Z.of_nat ((length body - SBI_HDR_LEN) / (2 + bp))) nf ok
            (Z.land sid kSbiStreamIdMask) (negb (Z.land sid kSbiRetxMark =? 0))
            (if ok then q else 0) (if ok then e else 0) (if ok then a else 0)),
    (if negb (magic =? SBI_MAGIC) || negb (ver =? SBI_VER) then -1
              else Z.land sid kSbiStreamIdMask).
  split; [destruct ok; reflexivity |].
  split; [by destruct (_ || _) |]. cbn [survivors n_failed n_blocks header_ok stream_id].
  split_all; [lia | done | | ].
  - eapply Forall_impl; [exact Hf |]. intros s Hs. cbn in Hs. lia.
  - unfold ok. destruct (magic =? SBI_MAGIC), (ver =? SBI_VER); done.
Qed.
