(* ===== verification/ArrivalTracker.v ===== *)
(** * ArrivalTracker: loss accounting at arrival time (common/include/mabur/arrival_tracker.h)

    A ring of per-sequence bits behind a settle line.  The specification is a log: every
    sequence number crossing the line is booked once, with what was heard of it.  The
    ring, which stores only the low bits of a sequence number, refines it: no bit is ever
    read for another sequence number than the one it was set for. *)
From S2P Require Import Prelude.

(** ** The source's definitions *)

Definition kHeard : Z := 1.
Definition kClean : Z := 2.
Definition kDefaultGuard : Z := 32.

(** Sequence numbers and counters are u64; they start near 2^32 and advance by at most
    2^20 a step, so they are unbounded integers here. *)
Record ArrivalTracker := mkTracker {
  guard_ : Z;
  bits_ : list Z;
  mask_ : Z;
  anchored_ : bool;
  newest_ : Z;
  settle_ : Z;
  expected_ : Z;
  arrived_ : Z;
  expected_stale_ : Z;
  arrived_stale_ : Z;
  late_ : Z;
  salvage_only_ : Z;
}.

(** The constructor; [mask_ = ring_bits - 1] is a u32 subtraction. *)
Definition new_tracker (guard ring_bits : Z) : ArrivalTracker :=
  mkTracker guard (replicate (Z.to_nat ring_bits) 0) (u32 (ring_bits - 1))
    false 0 0 0 0 0 0 0 0.

Definition anchor (t : ArrivalTracker) (v : Z) : ArrivalTracker :=
  mkTracker (guard_ t) (bits_ t) (mask_ t) true v v
    (expected_ t) (arrived_ t) (expected_stale_ t) (arrived_stale_ t) (late_ t) (salvage_only_ t).

Definition set_late (t : ArrivalTracker) (n : Z) : ArrivalTracker :=
  mkTracker (guard_ t) (bits_ t) (mask_ t) (anchored_ t) (newest_ t) (settle_ t)
    (expected_ t) (arrived_ t) (expected_stale_ t) (arrived_stale_ t) n (salvage_only_ t).

Definition set_newest (t : ArrivalTracker) (v : Z) : ArrivalTracker :=
  mkTracker (guard_ t) (bits_ t) (mask_ t) (anchored_ t) v (settle_ t)
    (expected_ t) (arrived_ t) (expected_stale_ t) (arrived_stale_ t) (late_ t) (salvage_only_ t).

Definition set_bits (t : ArrivalTracker) (bs : list Z) : ArrivalTracker :=
  mkTracker (guard_ t) bs (mask_ t) (anchored_ t) (newest_ t) (settle_ t)
    (expected_ t) (arrived_ t) (expected_stale_ t) (arrived_stale_ t) (late_ t) (salvage_only_ t).

Definition slot (t : ArrivalTracker) (v : Z) : nat := Z.to_nat (Z.land v (mask_ t)).

(** One iteration of the [settle_to] loop. *)
Definition settle_one (t : ArrivalTracker) (stale_end : Z) : ArrivalTracker :=
  let i := slot t (settle_ t) in
  let bit := nth i (bits_ t) 0 in
  let heard := negb (Z.land bit kHeard =? 0) in
  let clean := negb (Z.land bit kClean =? 0) in
  let stale := settle_ t <? stale_end in
  mkTracker (guard_ t) (<[i := 0]> (bits_ t)) (mask_ t) (anchored_ t) (newest_ t)
    (settle_ t + 1)
    (expected_ t + 1) (arrived_ t + b2z heard)
    (expected_stale_ t + b2z stale) (arrived_stale_ t + b2z (stale && heard))
    (late_ t) (salvage_only_ t + b2z (heard && negb clean)).

(** [settle_to]: the loop runs [target - settle_] times. *)
Definition settle_to (t : ArrivalTracker) (target stale_end : Z) : ArrivalTracker :=
  Nat.iter (Z.to_nat (target - settle_ t)) (fun t => settle_one t stale_end) t.

Definition on_source (t : ArrivalTracker) (v stale_end : Z) (clean : bool) : ArrivalTracker :=
  let t := if anchored_ t then t else anchor t v in
  if v <? settle_ t then set_late t (late_ t + 1)
  else
    let ring := mask_ t + 1 in
    let t := if settle_ t + ring <=? v then settle_to t (v - ring + 1) stale_end else t in
    let i := slot t v in
    let t := set_bits t (<[i := Z.lor (nth i (bits_ t) 0)
                                  (if clean then Z.lor kHeard kClean else kHeard)]> (bits_ t)) in
    if newest_ t <? v then set_newest t v else t.

Definition advance (t : ArrivalTracker) (newest stale_end : Z) : ArrivalTracker :=
  let t := if anchored_ t then t else anchor t newest in
  let t := if newest_ t <? newest then set_newest t newest else t in
  if newest_ t <? guard_ t then t
  else settle_to t (newest_ t - guard_ t + 1) stale_end.

Definition reset (t : ArrivalTracker) (anchor_v : Z) : ArrivalTracker :=
  anchor (set_bits t (map (fun _ => 0) (bits_ t))) anchor_v.

(** ** The specification: a log of booked sequence numbers *)

Record Log := mkLog {
  l_anchored : bool;
  l_newest : Z;
  l_settle : Z;
  l_heard : gmap Z bool;                       (* heard, not booked yet: ever clean? *)
  l_booked : list (Z * option bool * bool);    (* seq, what was heard, stale *)
  l_late : Z;
}.

Definition log_anchor (l : Log) (v : Z) : Log :=
  mkLog true v v (l_heard l) (l_booked l) (l_late l).

Definition log_book (l : Log) (stale_end : Z) : Log :=
  let s := l_settle l in
  mkLog (l_anchored l) (l_newest l) (s + 1) (delete s (l_heard l))
    (l_booked l ++ [(s, l_heard l !! s, s <? stale_end)]) (l_late l).

Definition log_settle_to (l : Log) (target stale_end : Z) : Log :=
  Nat.iter (Z.to_nat (target - l_settle l)) (fun l => log_book l stale_end) l.

Definition log_on_source (ring : Z) (l : Log) (v stale_end : Z) (clean : bool) : Log :=
  let l := if l_anchored l then l else log_anchor l v in
  if v <? l_settle l
  then mkLog (l_anchored l) (l_newest l) (l_settle l) (l_heard l) (l_booked l) (l_late l + 1)
  else
    let l := if l_settle l + ring <=? v then log_settle_to l (v - ring + 1) stale_end else l in
    mkLog (l_anchored l) (Z.max (l_newest l) v) (l_settle l)
      (<[v := clean || default false (l_heard l !! v)]> (l_heard l)) (l_booked l) (l_late l).

Definition log_advance (guard : Z) (l : Log) (newest stale_end : Z) : Log :=
  let l := if l_anchored l then l else log_anchor l newest in
  let l := mkLog (l_anchored l) (Z.max (l_newest l) newest) (l_settle l)
             (l_heard l) (l_booked l) (l_late l) in
  if l_newest l <? guard then l else log_settle_to l (l_newest l - guard + 1) stale_end.

Definition log_reset (l : Log) (v : Z) : Log :=
  mkLog true v v ∅ (l_booked l) (l_late l).

Definition log_init : Log := mkLog false 0 0 ∅ [] 0.

(** How the ring encodes what was heard of one sequence number. *)
Definition encode (o : option bool) : Z :=
  match o with None => 0 | Some false => kHeard | Some true => Z.lor kHeard kClean end.

Definition n_of {A} (p : A -> bool) (l : list A) : Z := Z.of_nat (length (List.filter p l)).
Definition e_heard (e : Z * option bool * bool) : bool :=
  match e with (_, o, _) => bool_decide (is_Some o) end.
Definition e_stale (e : Z * option bool * bool) : bool := snd e.
Definition e_salvage (e : Z * option bool * bool) : bool :=
  match e with (_, o, _) => bool_decide (o = Some false) end.

(** The refinement relation, for a ring of [2^k] slots. *)
Record refines (k : Z) (t : ArrivalTracker) (l : Log) : Prop := {
  rf_k : 0 <= k;
  rf_mask : mask_ t = 2 ^ k - 1;
  rf_len : length (bits_ t) = Z.to_nat (2 ^ k);
  rf_anchored : anchored_ t = l_anchored l;
  rf_newest : newest_ t = l_newest l;
  rf_settle : settle_ t = l_settle l;
  rf_fresh : anchored_ t = false ->
    l_heard l = ∅ /\ forall i, (i < length (bits_ t))%nat -> nth i (bits_ t) 0 = 0;
  rf_bits : forall s, settle_ t <= s < settle_ t + 2 ^ k ->
    nth (slot t s) (bits_ t) 0 = encode (l_heard l !! s);
  rf_dom : forall s, ~ (settle_ t <= s < settle_ t + 2 ^ k) -> l_heard l !! s = None;
  rf_expected : expected_ t = Z.of_nat (length (l_booked l));
  rf_arrived : arrived_ t = n_of e_heard (l_booked l);
  rf_expected_stale : expected_stale_ t = n_of e_stale (l_booked l);
  rf_arrived_stale : arrived_stale_ t = n_of (fun e => e_stale e && e_heard e) (l_booked l);
  rf_late : late_ t = l_late l;
  rf_salvage : salvage_only_ t = n_of e_salvage (l_booked l);
}.

Lemma n_of_snoc {A} (p : A -> bool) l x : n_of p (l ++ [x]) = n_of p l + b2z (p x).
Proof.
  unfold n_of. rewrite List.filter_app, length_app. cbn. destruct (p x); cbn; lia.
Qed.

Lemma n_of_le {A} (p q : A -> bool) l :
  (forall x, p x = true -> q x = true) -> n_of p l <= n_of q l.
Proof.
  intros H. unfold n_of. induction l as [|x l IH]; [done |]. cbn.
  destruct (p x) eqn:E; [rewrite (H x E); cbn; lia |]. destruct (q x); cbn; lia.
Qed.

Lemma n_of_length {A} (p : A -> bool) l : 0 <= n_of p l <= Z.of_nat (length l).
Proof. unfold n_of. pose proof (List.filter_length_le p l). lia. Qed.

(** ** The ring *)

Lemma slot_mod k t v : 0 <= k -> mask_ t = 2 ^ k - 1 -> slot t v = Z.to_nat (v mod 2 ^ k).
Proof.
  intros Hk Hm. unfold slot. rewrite Hm. f_equal.
  replace (2 ^ k - 1) with (Z.ones k) by (rewrite Z.ones_equiv; lia). by apply Z.land_ones.
Qed.

Lemma slot_ext t' t v : mask_ t' = mask_ t -> slot t' v = slot t v.
Proof. unfold slot. by intros ->. Qed.

(** Two sequence numbers less than a ring apart share no slot. *)
Lemma slot_inj k a b :
  0 <= k -> Z.to_nat (a mod 2 ^ k) = Z.to_nat (b mod 2 ^ k) -> Z.abs (a - b) < 2 ^ k -> a = b.
Proof.
  intros Hk H Hab. assert (0 < 2 ^ k) by (apply Z.pow_pos_nonneg; lia).
  pose proof (Z.mod_pos_bound a (2 ^ k)). pose proof (Z.mod_pos_bound b (2 ^ k)).
  assert (E : a mod 2 ^ k = b mod 2 ^ k) by lia.
  pose proof (Z.div_mod a (2 ^ k) ltac:(lia)). pose proof (Z.div_mod b (2 ^ k) ltac:(lia)).
  set (qa := a / 2 ^ k) in *. set (qb := b / 2 ^ k) in *.
  assert (a - b = 2 ^ k * (qa - qb)) by lia. assert (qa = qb) by nia. lia.
Qed.

Lemma slot_lt k t v :
  0 <= k -> mask_ t = 2 ^ k - 1 -> length (bits_ t) = Z.to_nat (2 ^ k) ->
  (slot t v < length (bits_ t))%nat.
Proof.
  intros Hk Hm Hl. rewrite (slot_mod k) by done. rewrite Hl.
  assert (0 < 2 ^ k) by (apply Z.pow_pos_nonneg; lia).
  pose proof (Z.mod_pos_bound v (2 ^ k)). lia.
Qed.

Lemma nth_zeros n i : nth i (replicate n 0) 0 = 0.
Proof. revert i. induction n as [|n IH]; intros [|i]; cbn; auto. Qed.

Lemma nth_insert_eq (l : list Z) i x : (i < length l)%nat -> nth i (<[i := x]> l) 0 = x.
Proof. intros. apply nth_lookup_Some. by apply list_lookup_insert_eq. Qed.

Lemma nth_insert_ne (l : list Z) i j x : i <> j -> nth j (<[i := x]> l) 0 = nth j l 0.
Proof. intros. by rewrite !nth_lookup, list_lookup_insert_ne. Qed.

(** ** Each operation refines its specification *)

Lemma encode_heard o : negb (Z.land (encode o) kHeard =? 0) = bool_decide (is_Some o).
Proof. destruct o as [[]|]; reflexivity. Qed.

Lemma encode_salvage o :
  negb (Z.land (encode o) kHeard =? 0) && negb (negb (Z.land (encode o) kClean =? 0)) =
  bool_decide (o = Some false).
Proof. destruct o as [[]|]; reflexivity. Qed.

Lemma encode_or o (clean : bool) :
  Z.lor (encode o) (if clean then Z.lor kHeard kClean else kHeard) =
  encode (Some (clean || default false o)).
Proof. destruct o as [[]|], clean; reflexivity. Qed.

Lemma ring_pos k : 0 <= k -> 0 < 2 ^ k.
Proof. intros. apply Z.pow_pos_nonneg; lia. Qed.

Lemma settle_one_refines k t l se :
  anchored_ t = true -> refines k t l -> refines k (settle_one t se) (log_book l se).
Proof.
  intros Ha [Hk Hm Hl Hanch Hnew Hset _ Hb Hd He Har Hes Has Hla Hsa].
  pose proof (ring_pos k Hk) as Hr.
  assert (Hlt : (slot t (settle_ t) < length (bits_ t))%nat) by (by apply (slot_lt k)).
  pose proof (Hb (settle_ t) ltac:(lia)) as Hbit.
  unfold settle_one, log_book. rewrite Hbit, encode_salvage, encode_heard, <- Hset.
  constructor; cbn [guard_ bits_ mask_ anchored_ newest_ settle_ expected_ arrived_
    expected_stale_ arrived_stale_ late_ salvage_only_ l_anchored l_newest l_settle l_heard
    l_booked l_late]; try done.
  - by rewrite length_insert.
  - congruence.
  - intros s Hs. rewrite (slot_ext _ t s) by done.
    destruct (decide (slot t (settle_ t) = slot t s)) as [Heq|Hne].
    + rewrite Heq, nth_insert_eq by (by rewrite <- Heq).
      rewrite !(slot_mod k) in Heq by done.
      assert (Hs' : s = settle_ t + 2 ^ k).
      { destruct (Z.eq_dec s (settle_ t + 2 ^ k)) as [|Hn]; [done |].
        apply (slot_inj k) in Heq; lia. }
      rewrite lookup_delete_ne by lia. by rewrite Hd by lia.
    + rewrite nth_insert_ne by done.
      assert (s <> settle_ t) by (intros ->; done).
      rewrite lookup_delete_ne by done. apply Hb.
      split; [lia |]. destruct (Z.eq_dec s (settle_ t + 2 ^ k)) as [->|]; [| lia].
      exfalso. apply Hne. rewrite !(slot_mod k) by done.
      rewrite <- (Z.mul_1_l (2 ^ k)) at 2. by rewrite Z.mod_add by lia.
  - intros s Hs. destruct (decide (s = settle_ t)) as [->|Hne].
    + by rewrite lookup_delete_eq.
    + rewrite lookup_delete_ne by done. apply Hd. lia.
  - rewrite length_app, He. cbn. lia.
  - rewrite n_of_snoc, Har. done.
  - rewrite n_of_snoc, Hes. done.
  - rewrite n_of_snoc, Has. done.
  - rewrite n_of_snoc, Hsa. done.
Qed.

Lemma settle_to_refines k t l target se :
  anchored_ t = true -> refines k t l ->
  refines k (settle_to t target se) (log_settle_to l target se) /\
  anchored_ (settle_to t target se) = true.
Proof.
  intros Ha Hr. unfold settle_to, log_settle_to. rewrite (rf_settle _ _ _ Hr).
  generalize (Z.to_nat (target - l_settle l)). intros n. induction n as [|n [IH IHa]]; [done |].
  rewrite !Nat.iter_succ. split; [by apply settle_one_refines | done].
Qed.

Lemma settle_to_settle t target se :
  settle_ (settle_to t target se) = Z.max (settle_ t) target /\
  mask_ (settle_to t target se) = mask_ t /\ newest_ (settle_to t target se) = newest_ t.
Proof.
  unfold settle_to.
  assert (H : forall n, settle_ (Nat.iter n (fun t => settle_one t se) t) = settle_ t + Z.of_nat n /\
    mask_ (Nat.iter n (fun t => settle_one t se) t) = mask_ t /\
    newest_ (Nat.iter n (fun t => settle_one t se) t) = newest_ t).
  { induction n as [|n (IH & IH2 & IH3)]; [cbn; lia |]. rewrite !Nat.iter_succ.
    cbn [settle_one settle_ mask_ newest_]. split_all; [lia | done | done]. }
  destruct (H (Z.to_nat (target - settle_ t))) as (-> & -> & ->). lia.
Qed.

Lemma anchor_refines k t l v :
  anchored_ t = false -> refines k t l -> refines k (anchor t v) (log_anchor l v).
Proof.
  intros Ha [Hk Hm Hl Hanch Hnew Hset Hf Hb Hd He Har Hes Has Hla Hsa].
  destruct (Hf Ha) as [Hh Hz]. constructor; try done; cbn; intros s Hs.
  - rewrite Hh, lookup_empty, (slot_ext _ t s) by done. apply Hz. by apply (slot_lt k).
  - by rewrite Hh.
Qed.

Lemma heard_refines k t l v (clean : bool) :
  anchored_ t = true -> settle_ t <= v < settle_ t + 2 ^ k -> refines k t l ->
  refines k
    (set_bits t (<[slot t v := Z.lor (nth (slot t v) (bits_ t) 0)
       (if clean then Z.lor kHeard kClean else kHeard)]> (bits_ t)))
    (mkLog (l_anchored l) (l_newest l) (l_settle l)
       (<[v := clean || default false (l_heard l !! v)]> (l_heard l)) (l_booked l) (l_late l)).
Proof.
  intros Ha Hv [Hk Hm Hl Hanch Hnew Hset Hf Hb Hd He Har Hes Has Hla Hsa].
  assert (Hlt : (slot t v < length (bits_ t))%nat) by (by apply (slot_lt k)).
  rewrite (Hb v) by done. rewrite encode_or.
  constructor; try done; cbn [set_bits bits_ settle_ mask_ anchored_ l_heard l_settle].
  - by rewrite length_insert.
  - congruence.
  - intros s Hs. rewrite (slot_ext _ t s) by done.
    destruct (decide (slot t v = slot t s)) as [Heq|Hne].
    + rewrite <- Heq, nth_insert_eq by done. rewrite !(slot_mod k) in Heq by done.
      apply (slot_inj k) in Heq as <-; [| done | lia]. by rewrite lookup_insert_eq.
    + rewrite nth_insert_ne by done. rewrite lookup_insert_ne by (intros ->; done). by apply Hb.
  - intros s Hs. rewrite lookup_insert_ne by lia. by apply Hd.
Qed.

Lemma set_newest_refines k t l v :
  refines k t l ->
  refines k (set_newest t v)
    (mkLog (l_anchored l) v (l_settle l) (l_heard l) (l_booked l) (l_late l)).
Proof. intros []. by constructor. Qed.

(** [if (v > newest_) newest_ = v] is a maximum. *)
Lemma max_newest_refines k t l v :
  refines k t l ->
  refines k (if newest_ t <? v then set_newest t v else t)
    (mkLog (l_anchored l) (Z.max (l_newest l) v) (l_settle l) (l_heard l) (l_booked l) (l_late l)).
Proof.
  intros H. rewrite (rf_newest _ _ _ H). destruct (Z.ltb_spec (l_newest l) v).
  - rewrite Z.max_r by lia. by apply set_newest_refines.
  - rewrite Z.max_l by lia. by destruct l.
Qed.

Lemma ensure_anchor_refines k t l v :
  refines k t l ->
  refines k (if anchored_ t then t else anchor t v) (if l_anchored l then l else log_anchor l v) /\
  anchored_ (if anchored_ t then t else anchor t v) = true.
Proof.
  intros H. rewrite <- (rf_anchored _ _ _ H). destruct (anchored_ t) eqn:E; [done |].
  split; [by apply anchor_refines | done].
Qed.

Lemma on_source_refines k t l v se clean :
  refines k t l -> refines k (on_source t v se clean) (log_on_source (2 ^ k) l v se clean).
Proof.
  intros H. apply (ensure_anchor_refines k t l v) in H as [H Ha].
  unfold on_source, log_on_source. revert H Ha.
  generalize (if anchored_ t then t else anchor t v) (if l_anchored l then l else log_anchor l v).
  clear t l. intros t l H Ha. rewrite <- (rf_settle _ _ _ H).
  destruct (Z.ltb_spec v (settle_ t)) as [|Hge].
  { destruct H. constructor; try done. cbn. lia. }
  replace (mask_ t + 1) with (2 ^ k) by (rewrite (rf_mask _ _ _ H); lia).
  set (t1 := if _ <=? _ then settle_to t _ _ else t).
  set (l1 := if _ <=? _ then log_settle_to l _ _ else l).
  assert (H1 : refines k t1 l1 /\ anchored_ t1 = true /\ settle_ t1 <= v < settle_ t1 + 2 ^ k).
  { pose proof (ring_pos k (rf_k _ _ _ H)). subst t1 l1.
    destruct (Z.leb_spec (settle_ t + 2 ^ k) v).
    - destruct (settle_to_refines k t l (v - 2 ^ k + 1) se Ha H) as [Hs Hsa].
      destruct (settle_to_settle t (v - 2 ^ k + 1) se) as (-> & _ & _). split_all; [done.. | lia | lia].
    - split_all; [done.. | lia]. }
  destruct H1 as (H1 & Ha1 & Hv).
  apply (heard_refines k _ _ v clean) in H1; [| done..].
  by apply (max_newest_refines k _ _ v) in H1.
Qed.

Lemma advance_refines k t l v se :
  refines k t l -> refines k (advance t v se) (log_advance (guard_ t) l v se).
Proof.
  intros H. apply (ensure_anchor_refines k t l v) in H as [H Ha].
  unfold advance, log_advance.
  assert (Hg : guard_ (if newest_ (if anchored_ t then t else anchor t v) <? v
                       then set_newest (if anchored_ t then t else anchor t v) v
                       else if anchored_ t then t else anchor t v) = guard_ t)
    by (destruct (anchored_ t), (_ <? _); done).
  revert H Ha Hg.
  generalize (if anchored_ t then t else anchor t v) (if l_anchored l then l else log_anchor l v).
  intros t1 l1 H Ha Hg. rewrite Hg.
  apply (max_newest_refines k _ _ v) in H.
  assert (Ha' : anchored_ (if newest_ t1 <? v then set_newest t1 v else t1) = true)
    by (by destruct (_ <? _)).
  rewrite (rf_newest _ _ _ H). cbn [l_newest].
  destruct (Z.ltb_spec (Z.max (l_newest l1) v) (guard_ t)); [done |].
  by apply settle_to_refines.
Qed.

Lemma reset_refines k t l v : refines k t l -> refines k (reset t v) (log_reset l v).
Proof.
  intros [Hk Hm Hl Hanch Hnew Hset Hf Hb Hd He Har Hes Has Hla Hsa].
  assert (Hz : forall i, nth i (map (fun _ => 0) (bits_ t)) 0 = 0).
  { intros i. exact (map_nth (fun _ => 0) (bits_ t) 0 i). }
  constructor; cbn; try done. by rewrite length_map.
Qed.

(** ** Traces *)

Inductive op :=
| OnSource (v stale_end : Z) (clean : bool)
| Advance (newest stale_end : Z)
| Reset_ (v : Z).

Definition step (t : ArrivalTracker) (o : op) : ArrivalTracker :=
  match o with
  | OnSource v se c => on_source t v se c
  | Advance v se => advance t v se
  | Reset_ v => reset t v
  end.

Definition log_step (ring guard : Z) (l : Log) (o : op) : Log :=
  match o with
  | OnSource v se c => log_on_source ring l v se c
  | Advance v se => log_advance guard l v se
  | Reset_ v => log_reset l v
  end.

Definition run (t : ArrivalTracker) (ops : list op) : ArrivalTracker := foldl step t ops.
Definition log_run (ring guard : Z) (ops : list op) : Log :=
  foldl (log_step ring guard) log_init ops.

Lemma iter_preserves {A B} (f : A -> A) (p : A -> B) n x :
  (forall x, p (f x) = p x) -> p (Nat.iter n f x) = p x.
Proof. intros H. induction n as [|n IH]; [done |]. by rewrite Nat.iter_succ, H. Qed.

Lemma settle_to_guard t target se : guard_ (settle_to t target se) = guard_ t.
Proof. unfold settle_to. by apply (iter_preserves _ guard_). Qed.

Lemma step_guard t o : guard_ (step t o) = guard_ t.
Proof.
  destruct o as [v se c | v se | v]; cbn; unfold on_source, advance;
    destruct (anchored_ t); repeat (case_match || case_Zb || (cbn; rewrite ?settle_to_guard)); done.
Qed.

Lemma step_refines k t l o :
  refines k t l -> refines k (step t o) (log_step (2 ^ k) (guard_ t) l o).
Proof.
  destruct o; cbn.
  - apply on_source_refines.
  - apply advance_refines.
  - apply reset_refines.
Qed.

Lemma new_tracker_refines k guard :
  0 <= k <= 31 -> refines k (new_tracker guard (2 ^ k)) log_init.
Proof.
  intros Hk. pose proof (ring_pos k ltac:(lia)) as Hp.
  assert (2 ^ k <= 2 ^ 31) by (apply Z.pow_le_mono_r; lia).
  constructor; try done; cbn.
  - lia.
  - apply wrap_small. unfold in_width. lia.
  - apply length_replicate.
  - intros _. split; [done |]. intros i _. apply nth_zeros.
  - intros s _. apply nth_zeros.
Qed.

Lemma run_refines k t l ops :
  refines k t l -> refines k (run t ops) (foldl (log_step (2 ^ k) (guard_ t)) l ops).
Proof.
  revert t l. induction ops as [|o ops IH]; intros t l H; [done |]. cbn.
  rewrite <- (step_guard t o). apply IH. rewrite step_guard. by apply step_refines.
Qed.

(** ** The log's own correctness *)

Definition e_seq (e : Z * option bool * bool) : Z := fst (fst e).

Definition no_reset (ops : list op) : bool :=
  forallb (fun o => match o with Reset_ _ => false | _ => true end) ops.

(** [s] was heard while its booking was still open. *)
Definition heard_in_time (ring guard : Z) (ops : list op) (s : Z) : Prop :=
  exists pre post se c, ops = pre ++ OnSource s se c :: post /\
    (l_anchored (log_run ring guard pre) = true -> l_settle (log_run ring guard pre) <= s).

(** The invariant of one session, from its anchor [a]. *)
Record session_ok (H : Z -> Prop) (l : Log) : Prop := {
  so_booked : exists a, a <= l_settle l /\ map e_seq (l_booked l) = seqZ a (l_settle l - a);
  so_pending : forall s, is_Some (l_heard l !! s) -> l_settle l <= s;
  so_heard : forall s, H s <->
    is_Some (l_heard l !! s) \/ exists c st, In (s, Some c, st) (l_booked l);
}.

Lemma book_ok H l se : session_ok H l -> session_ok H (log_book l se).
Proof.
  intros [(a & Ha & Hb) Hp Hh]. constructor; unfold log_book; cbn.
  - exists a. split; [lia |]. rewrite map_app, Hb. cbn.
    replace (l_settle l + 1 - a) with (l_settle l - a + 1) by lia.
    rewrite seqZ_app by lia. f_equal. unfold seqZ. change (seq 0 (Z.to_nat 1)) with [0%nat]. cbn. f_equal. lia.
  - intros s Hs. destruct (decide (s = l_settle l)) as [->|Hne].
    + rewrite lookup_delete_eq in Hs. by destruct Hs.
    + rewrite lookup_delete_ne in Hs by done. apply Hp in Hs. lia.
  - intros s. rewrite Hh. destruct (decide (s = l_settle l)) as [->|Hne].
    + rewrite lookup_delete_eq. split.
      * intros [[c Hc] | (c & st & Hin)]; right.
        -- exists c, (l_settle l <? se). rewrite Hc. apply in_or_app. right. by left.
        -- exists c, st. apply in_or_app. by left.
      * intros [[? ?] | (c & st & Hin)]; [done |].
        apply in_app_or in Hin as [Hin | [Hin | []]]; [right; eauto |].
        injection Hin as Hc _. left. by rewrite Hc.
    + rewrite lookup_delete_ne by done. split.
      * intros [Hs | (c & st & Hin)]; [by left | right].
        exists c, st. apply in_or_app. by left.
      * intros [Hs | (c & st & Hin)]; [by left |].
        apply in_app_or in Hin as [Hin | [Hin | []]]; [right; eauto |].
        injection Hin as Hc _. by subst.
Qed.

Lemma settle_to_ok H l target se :
  session_ok H l -> session_ok H (log_settle_to l target se).
Proof.
  intros Hok. unfold log_settle_to. generalize (Z.to_nat (target - l_settle l)). intros n.
  induction n as [|n IH]; [done |]. rewrite Nat.iter_succ. by apply book_ok.
Qed.

Lemma log_settle_to_settle l target se :
  l_settle (log_settle_to l target se) = Z.max (l_settle l) target /\
  l_newest (log_settle_to l target se) = l_newest l /\
  l_anchored (log_settle_to l target se) = l_anchored l.
Proof.
  unfold log_settle_to.
  assert (E : forall n, l_settle (Nat.iter n (fun l => log_book l se) l) = l_settle l + Z.of_nat n /\
    l_newest (Nat.iter n (fun l => log_book l se) l) = l_newest l /\
    l_anchored (Nat.iter n (fun l => log_book l se) l) = l_anchored l).
  { induction n as [|n (IH & IH2 & IH3)]; [cbn; split_all; [lia | done | done] |]. rewrite !Nat.iter_succ. cbn.
    split_all; [lia | done | done]. }
  destruct (E (Z.to_nat (target - l_settle l))) as (-> & -> & ->). split_all; [lia | done | done].
Qed.

Lemma session_ok_ext H H' l : (forall s, H s <-> H' s) -> session_ok H l -> session_ok H' l.
Proof. intros E [Hb Hp Hh]. constructor; [done.. |]. intros s. by rewrite <- E. Qed.

(** Before the first anchor nothing is pending and nothing is booked. *)
Definition session_inv (H : Z -> Prop) (l : Log) : Prop :=
  session_ok H l /\ (l_anchored l = false -> l_heard l = ∅ /\ l_booked l = []).

Lemma ensure_anchor_ok H l v :
  session_inv H l ->
  let l' := if l_anchored l then l else log_anchor l v in
  session_ok H l' /\ l_anchored l' = true /\
  (l_anchored l = true -> l' = l) /\ (l_anchored l = false -> l_settle l' = v).
Proof.
  intros [[Hb Hp Hh] Hf]. destruct (l_anchored l) eqn:E; [done |].
  destruct (Hf eq_refl) as [Hh0 Hb0]. split; [| done]. constructor; cbn.
  - exists v. split; [lia |]. by rewrite Hb0, Z.sub_diag.
  - rewrite Hh0. intros s [? ?]. by rewrite lookup_empty in *.
  - done.
Qed.

Lemma newest_ok H l v n :
  session_ok H l ->
  session_ok H (mkLog (l_anchored l) v (l_settle l) (l_heard l) (l_booked l) n).
Proof. intros []. by constructor. Qed.

Lemma log_on_source_ok ring H l v se c :
  0 < ring -> session_inv H l ->
  session_inv (fun s => H s \/ (s = v /\ (l_anchored l = true -> l_settle l <= v)))
    (log_on_source ring l v se c).
Proof.
  intros Hring Hinv. destruct (ensure_anchor_ok H l v Hinv) as (Hok & Ha & Hsame & Hnew).
  unfold log_on_source. cbn zeta in *.
  assert (Hlate : (l_anchored l = true -> l_settle l <= v) <->
    l_settle (if l_anchored l then l else log_anchor l v) <= v).
  { destruct (l_anchored l); [by split; auto | cbn; split; [lia | done]]. }
  revert Hok Ha Hlate. generalize (if l_anchored l then l else log_anchor l v).
  intros l1 Hok Ha Hlate. destruct (Z.ltb_spec v (l_settle l1)) as [Hlt|Hge].
  - split; [| cbn; congruence]. apply (newest_ok _ l1 (l_newest l1)).
    eapply session_ok_ext; [| exact Hok]. intros s. rewrite Hlate.
    split; [by left |]. intros [? | [_ ?]]; [done | lia].
  - set (l2 := if _ <=? _ then log_settle_to l1 _ _ else l1).
    assert (H2 : session_ok H l2 /\ l_anchored l2 = true /\ l_settle l2 <= v).
    { subst l2. destruct (_ <=? _); [| split_all; done].
      destruct (log_settle_to_settle l1 (v - ring + 1) se) as (-> & _ & ->).
      split_all; [by apply settle_to_ok | done | lia]. }
    destruct H2 as ([Hb Hp Hh] & Ha2 & Hv). split; [| cbn; congruence].
    constructor; cbn; [done | |].
    + intros s Hs. destruct (decide (s = v)) as [->|Hne]; [done |].
      rewrite lookup_insert_ne in Hs by done. by apply Hp.
    + intros s. rewrite Hlate, Hh. destruct (decide (s = v)) as [->|Hne].
      * rewrite lookup_insert_eq. split; [intros _; left; eauto | intros _; right; done].
      * rewrite lookup_insert_ne by done. split; [intros [?|[? _]]; done | by left].
Qed.

Lemma log_advance_ok guard H l v se :
  session_inv H l -> session_inv H (log_advance guard l v se).
Proof.
  intros Hinv. destruct (ensure_anchor_ok H l v Hinv) as (Hok & Ha & _).
  unfold log_advance. cbn zeta in *. revert Hok Ha.
  generalize (if l_anchored l then l else log_anchor l v). intros l1 Hok Ha.
  apply (newest_ok _ _ (Z.max (l_newest l1) v) (l_late l1)) in Hok. cbn [l_newest].
  destruct (_ <? guard).
  - split; [done | cbn; congruence].
  - split; [by apply settle_to_ok |].
    match goal with |- context [log_settle_to ?l2 ?t se] =>
      destruct (log_settle_to_settle l2 t se) as (_ & _ & ->) end.
    cbn. congruence.
Qed.

Lemma session_run ring guard ops :
  0 < ring -> no_reset ops = true ->
  session_inv (heard_in_time ring guard ops) (log_run ring guard ops).
Proof.
  intros Hring. induction ops as [|o ops IH] using rev_ind; intros Hnr.
  - split; [| done]. constructor; cbn.
    + by exists 0.
    + intros s [? ?]. by rewrite lookup_empty in *.
    + intros s. split.
      * intros (pre & post & se & c & E & _). by destruct pre.
      * intros [[? ?] | (? & ? & [])]. by rewrite lookup_empty in *.
  - unfold no_reset in Hnr. rewrite forallb_app in Hnr. apply andb_prop in Hnr as [Hnr Ho].
    specialize (IH Hnr).
    assert (Hsnoc : forall s, heard_in_time ring guard (ops ++ [o]) s <->
      heard_in_time ring guard ops s \/
      exists se c, o = OnSource s se c /\
        (l_anchored (log_run ring guard ops) = true -> l_settle (log_run ring guard ops) <= s)).
    { intros s. split.
      - intros (pre & post & se & c & E & Hs).
        destruct post as [|x post _] using rev_ind.
        + apply app_inj_tail in E as [-> ->]. right; eauto.
        + rewrite app_comm_cons, app_assoc in E. apply app_inj_tail in E as [-> _].
          left. by exists pre, post, se, c.
      - intros [(pre & post & se & c & -> & Hs) | (se & c & -> & Hs)].
        + exists pre, (post ++ [o]), se, c. by rewrite <- app_assoc.
        + by exists ops, [], se, c. }
    unfold log_run in *. rewrite foldl_snoc.
    set (l := foldl (log_step ring guard) log_init ops) in *. destruct o as [v se c|v se|v].
    + destruct (log_on_source_ok ring _ l v se c Hring IH) as [Hok Hf]. split; [| done].
      eapply session_ok_ext; [| exact Hok]. intros s. rewrite Hsnoc.
      split; intros [?|?]; try by left.
      * right. destruct H as [-> ?]. eauto.
      * right. destruct H as (? & ? & [= ->] & ?). done.
    + destruct (log_advance_ok guard _ l v se IH) as [Hok Hf]. split; [| done].
      eapply session_ok_ext; [| exact Hok]. intros s. rewrite Hsnoc.
      split; [by left |]. intros [?|(? & ? & ? & ?)]; done.
    + done.
Qed.

(** ** The properties *)

(** C32.  The ring refines the log.  Whatever sequence of arrivals, advances and resets is
    fed to a tracker with a power-of-two ring, its counters are the counts of a log that
    books each sequence number with what was really heard of it: the 2^k-slot ring never
    confuses two sequence numbers.  Hence arrived <= expected, and the stale and
    salvage counters are sub-counts. *)
Theorem ring_refines_log (k guard : Z) (ops : list op) :
  0 <= k <= 31 ->
  let t := run (new_tracker guard (2 ^ k)) ops in
  let l := log_run (2 ^ k) guard ops in
  expected_ t = Z.of_nat (length (l_booked l)) /\
  arrived_ t = n_of e_heard (l_booked l) /\
  expected_stale_ t = n_of e_stale (l_booked l) /\
  arrived_stale_ t = n_of (fun e => e_stale e && e_heard e) (l_booked l) /\
  salvage_only_ t = n_of e_salvage (l_booked l) /\
  late_ t = l_late l /\ settle_ t = l_settle l /\ newest_ t = l_newest l /\
  0 <= salvage_only_ t <= arrived_ t /\ arrived_ t <= expected_ t /\
  0 <= arrived_stale_ t <= expected_stale_ t /\ expected_stale_ t <= expected_ t.
Proof.
  intros Hk t l.
  destruct (run_refines k _ _ ops (new_tracker_refines k guard Hk))
    as [_ _ _ _ Hn Hs _ _ _ He Ha Hes Has Hl Hsa].
  change (foldl _ log_init ops) with l in *. fold t in He, Ha, Hes, Has, Hl, Hsa, Hn, Hs.
  rewrite He, Ha, Hes, Has, Hsa. split_all; try done; try apply n_of_length.
  - apply n_of_le. intros [[s o] st]. cbn. intros ->%bool_decide_eq_true. done.
  - apply n_of_le. intros e. by intros [? _]%andb_prop.
Qed.

Example ring_refines_log_witness :
  arrived_ (run (new_tracker 2 (2 ^ 2)) [OnSource 100 0 true; OnSource 109 0 false; Advance 110 0]) =
  n_of e_heard (l_booked (log_run (2 ^ 2) 2
    [OnSource 100 0 true; OnSource 109 0 false; Advance 110 0])).
Proof.
  exact (proj1 (proj2 (ring_refines_log 2 2
    [OnSource 100 0 true; OnSource 109 0 false; Advance 110 0] ltac:(lia)))).
Defined.

(** Booking is exact.  In a session without a reset, the log books a gap-free run of
    sequence numbers, each exactly once and in order; a sequence number was heard before
    the settle line passed it exactly when it is either still pending or booked as heard
    (so nothing heard in time is ever counted lost, and nothing lost is counted heard);
    and an advance to [n] settles everything up to [n - guard] and nothing more. *)
Theorem booking_exact (ring guard : Z) (ops : list op) (n se : Z) :
  0 < ring -> no_reset ops = true ->
  let l := log_run ring guard ops in
  (exists a, map e_seq (l_booked l) = seqZ a (l_settle l - a)) /\
  (forall s, heard_in_time ring guard ops s <->
     is_Some (l_heard l !! s) \/ exists c st, In (s, Some c, st) (l_booked l)) /\
  (forall s, is_Some (l_heard l !! s) -> l_settle l <= s) /\
  (l_anchored l = true -> guard <= Z.max (l_newest l) n ->
   l_settle (log_advance guard l n se) =
   Z.max (l_settle l) (Z.max (l_newest l) n - guard + 1)).
Proof.
  intros Hr Hops l. destruct (session_run ring guard ops Hr Hops) as [[(a & _ & Ha) Hp Hh] _].
  split; [by exists a |]. split; [exact Hh |]. split; [exact Hp |].
  intros Hanch Hg. unfold log_advance. rewrite Hanch. cbn [l_newest].
  rewrite (proj2 (Z.ltb_ge _ _)) by done. cbn [l_newest l_settle].
  by destruct (log_settle_to_settle
    (mkLog (l_anchored l) (Z.max (l_newest l) n) (l_settle l) (l_heard l) (l_booked l) (l_late l))
    (Z.max (l_newest l) n - guard + 1) se) as (-> & _).
Qed.

Example booking_exact_witness :
  l_settle (log_advance 2 (log_run 4 2 [OnSource 100 0 true; OnSource 103 0 false]) 110 0) = 109.
Proof.
  apply (booking_exact 4 2 [OnSource 100 0 true; OnSource 103 0 false] 110 0);
    [lia | reflexivity | reflexivity | vm_compute; discriminate].
Defined.
