(* ===== verification/SwConfig.v ===== *)
(** * SwConfig: the FEC configuration (common/include/mabur/sw_encoder.h)

    Shared by the sliding-window encoder and decoder.  A C++ [double] is the Standard
    Library's executable IEEE-754 value [spec_float], at binary64's precision and
    exponent range. *)
From Stdlib Require Export SpecFloat.
From S2P Require Import Prelude.

(** ** binary64 *)

Definition double : Set := spec_float.
Definition d_add : double -> double -> double := SFadd 53 1024.
Definition d_sub : double -> double -> double := SFsub 53 1024.
Definition d_leb : double -> double -> bool := SFleb.
Definition d_ltb : double -> double -> bool := SFltb.
Definition d_of_Z (z : Z) : double := binary_normalize 53 1024 z 0 false.

Definition d_mul : double -> double -> double := SFmul 53 1024.
Definition d_div : double -> double -> double := SFdiv 53 1024.

(** A literal [n / d] written in decimal, [d] a power of ten: correctly rounded. *)
Definition d_lit (n d : Z) : double := d_div (d_of_Z n) (d_of_Z d).

Definition d_one : double := d_of_Z 1.
Definition d_hundred : double := d_of_Z 100.

Definition d_is_nan (x : double) : bool := match x with S754_nan => true | _ => false end.

(** [std::min], [std::max] and [std::clamp], as written: an unordered pair gives the first. *)
Definition d_min (a b : double) : double := if d_ltb b a then b else a.
Definition d_max (a b : double) : double := if d_ltb a b then b else a.
Definition d_clamp (x lo hi : double) : double :=
  if d_ltb x lo then lo else if d_ltb hi x then hi else x.

(** [static_cast] of a non-negative double to an integer: truncation. *)
Definition d_trunc (x : double) : Z :=
  match x with
  | S754_finite false m ex => if 0 <=? ex then Z.pos m * 2 ^ ex else Z.pos m / 2 ^ (- ex)
  | _ => 0
  end.

(** [std::round] of a finite double as an integer: halves away from zero. *)
Definition d_round (x : double) : Z :=
  match x with
  | S754_finite s m ex =>
      let mag := if 0 <=? ex then Z.pos m * 2 ^ ex
                 else (2 * Z.pos m + 2 ^ (- ex)) / 2 ^ (1 - ex) in
      if s then - mag else mag
  | _ => 0
  end.

Record SwConfig := mkSwConfig {
  symbol_size : Z;
  window : Z;
  overhead : double;  (* repair symbols per source symbol *)
}.

Definition max_packet_size (c : SwConfig) : Z := symbol_size c - 2.
