(* ===== verification/LossEpisodes.v ===== *)
(** * LossEpisodes: the decoder's loss-episode gauge (SwDecoder::note_repair, note_missing,
    settle_episodes, take_episodes)

    Evicted sequence numbers that the channel never delivered directly are grouped into
    episodes; an episode closes once eviction has passed its last member by a repair
    window, and counts the distinct repairs that covered it.  [repairs_seen_] is pruned as
    eviction moves on; the library shows that pruning loses no repair an episode needs. *)
From S2P Require Import Prelude.

(** ** The source's definitions *)

(** How a symbol became known. *)
Inductive Origin := kSource | kRepair | kRetx.
#[export] Instance Origin_eq_dec : EqDecision Origin.
Proof. solve_decision. Defined.

Definition origin_eqb (a b : Origin) : bool :=
  match a, b with
  | kSource, kSource | kRepair, kRepair | kRetx, kRetx => true
  | _, _ => false
  end.

Record LossEpisode := mkLossEpisode {
  first_seq : Z;
  span : Z;
  missing : Z;
  recovered : Z;
  ep_retx : Z;
  abandoned : Z;
  ep_stale : Z;
  repairs : Z;
  ep_window : Z;
}.

Record RepairSpan := mkRepairSpan { ws : Z; we : Z; key : Z }.

Definition kMaxQueuedEpisodes : nat := Z.to_nat 1024.
#[global] Arguments kMaxQueuedEpisodes : simpl never.

Record Episodes := mkEpisodes {
  repairs_seen_ : list RepairSpan;   (* oldest first *)
  ep_ : LossEpisode;
  ep_last_ : Z;
  ep_open_ : bool;
  episodes_ : list LossEpisode;
}.

Definition no_episode : LossEpisode := mkLossEpisode 0 0 0 0 0 0 0 0 0.
Definition no_episodes : Episodes := mkEpisodes [] no_episode 0 false [].

(** [note_repair]: false on a copy of a repair already seen. *)
Definition note_repair (E : Episodes) (ws_ we_ key_ : Z) : Episodes * bool :=
  if existsb (fun r => (ws r =? ws_) && (key r =? key_)) (rev (repairs_seen_ E)) then (E, false)
  else (mkEpisodes (repairs_seen_ E ++ [mkRepairSpan ws_ we_ key_]) (ep_ E) (ep_last_ E)
          (ep_open_ E) (episodes_ E), true).

(** The repairs that intersect [first, last]. *)
Definition covers (first last : Z) (r : RepairSpan) : bool := (ws r <=? last) && (first <? we r).
Definition n_covering (first last : Z) (l : list RepairSpan) : Z :=
  Z.of_nat (length (List.filter (covers first last) l)).

(** The closing half of [settle_episodes]. *)
Definition close_episode (E : Episodes) (w : Z) : Episodes :=
  let e := ep_ E in
  let e := mkLossEpisode (first_seq e) (u32 (ep_last_ E - first_seq e + 1)) (missing e)
             (recovered e) (ep_retx e) (abandoned e) (ep_stale e)
             (n_covering (first_seq e) (ep_last_ E) (repairs_seen_ E)) (u32 w) in
  let q := if (kMaxQueuedEpisodes <=? length (episodes_ E))%nat then tl (episodes_ E)
           else episodes_ E in
  mkEpisodes (repairs_seen_ E) e (ep_last_ E) false (q ++ [e]).

(** [while (!empty && front().we <= keep_from) pop_front()]. *)
Fixpoint prune (keep_from : Z) (l : list RepairSpan) : list RepairSpan :=
  match l with
  | [] => []
  | r :: l' => if we r <=? keep_from then prune keep_from l' else l
  end.

(** [settle_episodes]; [w] is [episode_window()]. *)
Definition settle_episodes (E : Episodes) (w evict_end : Z) : Episodes :=
  let E := if ep_open_ E && (ep_last_ E + w + 1 <? evict_end) then close_episode E w else E in
  let keep_from := if ep_open_ E then first_seq (ep_ E) else evict_end in
  mkEpisodes (prune keep_from (repairs_seen_ E)) (ep_ E) (ep_last_ E) (ep_open_ E) (episodes_ E).

(** The booking half of [note_missing]: open an episode if none is, add [v] to it. *)
Definition book (E : Episodes) (v : Z) (known_via : Origin) (stale : bool) : Episodes :=
  let e := if ep_open_ E then ep_ E else mkLossEpisode v 0 0 0 0 0 0 0 0 in
  mkEpisodes (repairs_seen_ E)
    (mkLossEpisode (first_seq e) (span e) (missing e + 1)
       (recovered e + b2z (origin_eqb known_via kRepair))
       (ep_retx e + b2z (origin_eqb known_via kRetx))
       (abandoned e + b2z (origin_eqb known_via kSource))
       (ep_stale e + b2z stale) (repairs e) (ep_window e))
    v true (episodes_ E).

Definition note_missing (E : Episodes) (w v : Z) (known_via : Origin) (stale : bool) : Episodes :=
  book (if ep_open_ E && (ep_last_ E + w <? v) then settle_episodes E w v else E) v known_via stale.

Definition take_episodes (E : Episodes) : Episodes * list LossEpisode :=
  (mkEpisodes (repairs_seen_ E) (ep_ E) (ep_last_ E) (ep_open_ E) [], episodes_ E).

(** ** Histories *)

(** What the decoder tells the gauge, each with the window in force. *)
Inductive event :=
| Repair (ws we key : Z)
| Missing (w v : Z) (o : Origin) (stale : bool)
| Settle (w evict_end : Z).

Definition step (E : Episodes) (e : event) : Episodes :=
  match e with
  | Repair a b k => fst (note_repair E a b k)
  | Missing w v o st => note_missing E w v o st
  | Settle w ee => settle_episodes E w ee
  end.

(** Eviction only moves forward: the decoder books each sequence number once, in order,
    and admits no repair that starts below the eviction line. *)
Fixpoint forward (floor : Z) (evs : list event) : Prop :=
  match evs with
  | [] => True
  | Repair a b _ :: evs => floor <= a < b /\ forward floor evs
  | Missing w v _ _ :: evs => floor <= v /\ 0 <= w /\ forward (v + 1) evs
  | Settle w ee :: evs => floor <= ee /\ 0 <= w /\ forward ee evs
  end.

(** A gauge that never forgets a repair. *)
Definition settle_spec (E : Episodes) (w evict_end : Z) : Episodes :=
  if ep_open_ E && (ep_last_ E + w + 1 <? evict_end) then close_episode E w else E.

Definition step_spec (E : Episodes) (e : event) : Episodes :=
  match e with
  | Repair a b k => fst (note_repair E a b k)
  | Missing w v o st =>
      book (if ep_open_ E && (ep_last_ E + w <? v) then settle_spec E w v else E) v o st
  | Settle w ee => settle_spec E w ee
  end.

Definition is_missing (e : event) : bool := match e with Missing _ _ _ _ => true | _ => false end.

(** An episode's bookkeeping; [last] is its last member. *)
Definition episode_ok (e : LossEpisode) (last : Z) : Prop :=
  missing e = recovered e + ep_retx e + abandoned e /\
  0 <= recovered e /\ 0 <= ep_retx e /\ 0 <= abandoned e /\ 0 <= ep_stale e <= missing e /\
  first_seq e <= last /\ 1 <= missing e <= last - first_seq e + 1.

Definition closed_ok (e : LossEpisode) : Prop :=
  exists last, episode_ok e last /\ span e = u32 (last - first_seq e + 1).

Definition sum_missing (l : list LossEpisode) : Z := foldr (fun e acc => missing e + acc) 0 l.

(** The invariant: [all] is every episode ever closed, [n] the number of missing sequence
    numbers booked, [floor] the eviction line. *)
Record gauge_inv (E : Episodes) (all : list LossEpisode) (n floor : Z) : Prop := {
  gi_open : ep_open_ E = true -> episode_ok (ep_ E) (ep_last_ E) /\ ep_last_ E < floor;
  gi_queue : episodes_ E = drop (length all - kMaxQueuedEpisodes) all;
  gi_all : Forall closed_ok all;
  gi_sum : sum_missing all + (if ep_open_ E then missing (ep_ E) else 0) = n;
}.

(** The refinement relation: the same gauge, the specification remembering more repairs,
    all of which end where no open or future episode can reach. *)
Record same_gauge (E S : Episodes) (floor : Z) : Prop := {
  sg_ep : ep_ E = ep_ S;
  sg_last : ep_last_ E = ep_last_ S;
  sg_open : ep_open_ E = ep_open_ S;
  sg_episodes : episodes_ E = episodes_ S;
  sg_repairs : exists popped, repairs_seen_ S = popped ++ repairs_seen_ E /\
    Forall (fun r => ws r < we r /\ we r <= if ep_open_ E then first_seq (ep_ E) else floor) popped;
  sg_spans : Forall (fun r => ws r < we r) (repairs_seen_ E);
}.

Lemma prune_split k l : exists popped, l = popped ++ prune k l /\ Forall (fun r => we r <= k) popped.
Proof.
  induction l as [|r l (p & Hp & Hf)]; [by exists [] |]. cbn.
  destruct (Z.leb_spec (we r) k).
  - exists (r :: p). cbn. split; [by f_equal | by constructor].
  - by exists [].
Qed.

(** Repairs that end at or before the first member never count. *)
Lemma n_covering_app first last l1 l2 :
  n_covering first last (l1 ++ l2) = n_covering first last l1 + n_covering first last l2.
Proof. unfold n_covering. rewrite List.filter_app, length_app. lia. Qed.

Lemma n_covering_old first last l : Forall (fun r => we r <= first) l -> n_covering first last l = 0.
Proof.
  unfold n_covering. induction 1 as [|r l Hr H IH]; [done |]. cbn.
  unfold covers at 1. rewrite (proj2 (Z.ltb_ge _ _)) by done. by rewrite andb_false_r.
Qed.

Lemma sum_missing_snoc l e : sum_missing (l ++ [e]) = sum_missing l + missing e.
Proof. unfold sum_missing. induction l as [|x l IH]; cbn; lia. Qed.

Lemma drop_S_tl {A} n (l : list A) : drop (S n) l = tl (drop n l).
Proof. revert l. induction n as [|n IH]; intros [|x l]; cbn; try done; apply (IH l). Qed.

Lemma queue_snoc {A} (all : list A) (e : A) (q : list A) (m : nat) :
  (0 < m)%nat -> q = drop (length all - m) all ->
  (if (m <=? length q)%nat then tl q else q) ++ [e] = drop (length (all ++ [e]) - m) (all ++ [e]).
Proof.
  intros Hm ->. rewrite length_app, length_drop. cbn [length].
  rewrite drop_app_le by lia. f_equal.
  destruct (Nat.leb_spec m (length all - (length all - m))).
  - rewrite <- drop_S_tl. f_equal. lia.
  - f_equal. lia.
Qed.

(** ** The operations keep the invariant *)

Lemma close_inv E w all n floor :
  ep_open_ E = true -> gauge_inv E all n floor ->
  exists e, gauge_inv (close_episode E w) (all ++ [e]) n floor.
Proof.
  intros Ho [Hopen Hq Hall Hsum]. rewrite Ho in Hsum. destruct (Hopen Ho) as [Hok Hlast].
  eexists. unfold close_episode. constructor; cbn.
  - done.
  - apply queue_snoc; [by apply Nat.ltb_lt | done].
  - apply Forall_app. split; [done |]. constructor; [| done]. by exists (ep_last_ E).
  - rewrite sum_missing_snoc. cbn. lia.
Qed.

Lemma settle_inv E w ee all n floor :
  gauge_inv E all n floor -> floor <= ee ->
  exists all', gauge_inv (settle_episodes E w ee) all' n ee.
Proof.
  intros H Hee. unfold settle_episodes.
  set (E' := if ep_open_ E && _ then close_episode E w else E).
  assert (H' : exists all', gauge_inv E' all' n floor).
  { subst E'. destruct (ep_open_ E) eqn:Ho; cbn [andb]; [case_match |]; [| eauto..].
    destruct (close_inv E w all n floor Ho H) as (e & Hc). eauto. }
  destruct H' as (all' & [Hopen Hq Hall Hsum]).
  exists all'. constructor; cbn; try done.
  intros Ho. destruct (Hopen Ho). split; [done | lia].
Qed.

Lemma missing_inv E w v o st all n floor :
  gauge_inv E all n floor -> floor <= v ->
  exists all', gauge_inv (note_missing E w v o st) all' (n + 1) (v + 1).
Proof.
  intros H Hv. unfold note_missing, book.
  set (E' := if ep_open_ E && _ then settle_episodes E w v else E).
  assert (H' : exists all' f, gauge_inv E' all' n f /\ f <= v).
  { subst E'. destruct (_ && _); [| by exists all, floor].
    destruct (settle_inv E w v all n floor H Hv) as (all' & ?). eauto using Z.le_refl. }
  destruct H' as (all' & f & [Hopen Hq Hall Hsum] & Hf).
  exists all'. constructor; cbn [repairs_seen_ ep_open_ ep_ first_seq ep_last_ episodes_ missing]; try done.
  - intros _. split; [| lia]. unfold episode_ok. destruct (ep_open_ E') eqn:Ho; cbn.
    + destruct (Hopen eq_refl) as [(H1 & H2 & H3 & H4 & H5 & H6 & H7) Hl].
      destruct o, st; cbn; lia.
    + destruct o, st; cbn; lia.
  - destruct (ep_open_ E'); cbn; lia.
Qed.

Lemma repair_inv E a b k all n floor :
  gauge_inv E all n floor -> gauge_inv (fst (note_repair E a b k)) all n floor.
Proof. intros []. unfold note_repair. destruct (existsb _ _); by constructor. Qed.

Lemma run_inv evs E all n floor :
  gauge_inv E all n floor -> forward floor evs ->
  exists all' floor',
    gauge_inv (foldl step E evs) all' (n + Z.of_nat (length (List.filter is_missing evs))) floor'.
Proof.
  revert E all n floor. induction evs as [|e evs IH]; intros E all n floor H Hf.
  - cbn. rewrite Z.add_0_r. eauto.
  - destruct e as [a b k | w v o st | w ee]; cbn [foldl step forward List.filter is_missing] in *.
    + apply (IH _ all n floor); [by apply repair_inv | by destruct Hf].
    + destruct Hf as (Hv & _ & Hf).
      destruct (missing_inv E w v o st _ _ _ H Hv) as (all' & H').
      destruct (IH _ _ _ _ H' Hf) as (a & f & Hr). exists a, f. cbn [length].
      replace (n + Z.of_nat (S (length (List.filter is_missing evs))))
        with (n + 1 + Z.of_nat (length (List.filter is_missing evs))) by lia. done.
    + destruct Hf as (He & _ & Hf).
      destruct (settle_inv E w ee _ _ _ H He) as (all' & H'). by eapply IH.
Qed.

Lemma no_episodes_inv floor : gauge_inv no_episodes [] 0 floor.
Proof. by constructor. Qed.

(** ** Pruning is invisible *)

Lemma close_same E S w floor :
  ep_open_ E = true -> ep_last_ E < floor -> first_seq (ep_ E) <= ep_last_ E ->
  same_gauge E S floor -> same_gauge (close_episode E w) (close_episode S w) floor.
Proof.
  intros Ho Hlast Hfl [He Hl Hop Heps (popped & Hr & Hp) Hs]. rewrite Ho in Hp.
  assert (Hc : n_covering (first_seq (ep_ S)) (ep_last_ S) (repairs_seen_ S) =
               n_covering (first_seq (ep_ E)) (ep_last_ E) (repairs_seen_ E)).
  { rewrite Hr, <- He, <- Hl, n_covering_app, n_covering_old; [lia |].
    eapply Forall_impl; [exact Hp |]. cbn. tauto. }
  unfold close_episode. rewrite Hc, <- Hl, <- He, <- Heps.
  constructor; cbn; try done. exists popped. split; [done |].
  eapply Forall_impl; [exact Hp |]. cbn. lia.
Qed.

(** What of the invariant the simulation needs. *)
Definition open_ok (E : Episodes) (floor : Z) : Prop :=
  ep_open_ E = true -> first_seq (ep_ E) <= ep_last_ E < floor.

Lemma gauge_inv_open E all n floor : gauge_inv E all n floor -> open_ok E floor.
Proof.
  intros [Hopen _ _ _] Ho. destruct (Hopen Ho) as [(_ & _ & _ & _ & _ & ? & _) ?]. lia.
Qed.

Lemma settle_same E S w ee floor :
  open_ok E floor -> floor <= ee -> same_gauge E S floor ->
  same_gauge (settle_episodes E w ee) (settle_spec S w ee) ee.
Proof.
  intros Hok Hee H. unfold settle_episodes, settle_spec.
  rewrite <- (sg_open _ _ _ H), <- (sg_last _ _ _ H).
  set (E' := if ep_open_ E && _ then close_episode E w else E).
  set (S' := if ep_open_ E && _ then close_episode S w else S).
  assert (H' : same_gauge E' S' floor).
  { subst E' S'. destruct (ep_open_ E) eqn:Ho; cbn [andb]; [| done]. case_match; [| done].
    destruct (Hok Ho). by apply close_same. }
  destruct H' as [He Hl Hop Heps (popped & Hr & Hp) Hs].
  destruct (prune_split (if ep_open_ E' then first_seq (ep_ E') else ee) (repairs_seen_ E'))
    as (p2 & Hp2 & Hf2).
  constructor; cbn; try done.
  - exists (popped ++ p2). split; [by rewrite <- app_assoc, <- Hp2 |].
    apply Forall_app. split.
    + eapply Forall_impl; [exact Hp |]. cbn. destruct (ep_open_ E'); intros; lia.
    + rewrite Hp2 in Hs. apply Forall_app in Hs as [Hs _]. by apply Forall_and.
  - rewrite Hp2 in Hs. by apply Forall_app in Hs as [_ Hs].
Qed.

Lemma book_same E S v o st floor :
  floor <= v -> same_gauge E S floor -> same_gauge (book E v o st) (book S v o st) (v + 1).
Proof.
  intros Hv [He Hl Hop Heps (popped & Hr & Hp) Hs]. unfold book. rewrite <- Hop, <- He, <- Heps.
  constructor; cbn; try done. exists popped. split; [done |].
  eapply Forall_impl; [exact Hp |]. cbn. destruct (ep_open_ E); cbn; intros; lia.
Qed.

Lemma existsb_rev {A} (p : A -> bool) l : existsb p (rev l) = existsb p l.
Proof.
  induction l as [|x l IH]; [done |]. cbn. rewrite existsb_app, IH. cbn.
  destruct (p x), (existsb p l); done.
Qed.

Lemma repair_same E S a b k floor :
  open_ok E floor -> floor <= a < b -> same_gauge E S floor ->
  same_gauge (fst (note_repair E a b k)) (fst (note_repair S a b k)) floor.
Proof.
  intros Hok Ha [He Hl Hop Heps (popped & Hr & Hp) Hs]. unfold note_repair.
  rewrite !existsb_rev, Hr, existsb_app.
  assert (Hno : existsb (fun r => (ws r =? a) && (key r =? k)) popped = false).
  { clear Hr. induction Hp as [|r popped [Hr1 Hr2] Hp IH]; [done |]. cbn. rewrite IH, orb_false_r.
    rewrite (proj2 (Z.eqb_neq (ws r) a)); [done |].
    unfold open_ok in Hok. destruct (ep_open_ E); [specialize (Hok eq_refl) |]; lia. }
  rewrite Hno. cbn [orb]. destruct (existsb _ (repairs_seen_ E)); cbn.
  - constructor; try done. by exists popped.
  - constructor; cbn; try done.
    + exists popped. split; [by rewrite <- app_assoc | done].
    + apply Forall_app. split; [done |]. constructor; [cbn; lia | done].
Qed.

Lemma run_same evs E S all n floor :
  gauge_inv E all n floor -> same_gauge E S floor -> forward floor evs ->
  exists floor', same_gauge (foldl step E evs) (foldl step_spec S evs) floor'.
Proof.
  revert E S all n floor. induction evs as [|e evs IH]; intros E S all n floor Hi H Hf; [by exists floor |].
  pose proof (gauge_inv_open _ _ _ _ Hi) as Hok.
  destruct e as [a b k | w v o st | w ee]; cbn [foldl step step_spec forward] in *.
  - destruct Hf as [Ha Hf].
    eapply IH; [by apply (repair_inv E a b k) | by apply repair_same | done].
  - destruct Hf as (Hv & _ & Hf). destruct (missing_inv E w v o st _ _ _ Hi Hv) as (all' & Hi').
    eapply IH; [exact Hi' | | exact Hf]. unfold note_missing.
    rewrite <- (sg_open _ _ _ H), <- (sg_last _ _ _ H). destruct (_ && _).
    + apply (book_same _ _ _ _ _ v); [lia |]. by apply (settle_same _ _ _ _ floor).
    + by apply (book_same _ _ _ _ _ floor).
  - destruct Hf as (He & _ & Hf). destruct (settle_inv E w ee _ _ _ Hi He) as (all' & Hi').
    eapply IH; [exact Hi' | | exact Hf]. by apply (settle_same _ _ _ _ floor).
Qed.

(** ** What the gauge promises

    Said with the history alone: the repairs heard, the members of the open group, and for each
    group closed its members, the repairs heard until then and the window in force. *)

Record Member := mkMember { m_seq : Z; m_via : Origin; m_stale : bool }.

Record Heard := mkHeard {
  heard : list (Z * Z * Z);                                  (* start, end, key; copies included *)
  group : list Member;
  groups : list (list Member * list (Z * Z * Z) * Z);
}.

(** A group ends when eviction has passed its last member by the window. *)
Definition end_group (s : Heard) (w t : Z) : Heard :=
  match last (group s) with
  | Some m => if m_seq m + w + 1 <? t then mkHeard (heard s) [] (groups s ++ [(group s, heard s, w)]) else s
  | None => s
  end.

Definition hear (s : Heard) (e : event) : Heard :=
  match e with
  | Repair a b k => mkHeard (heard s ++ [(a, b, k)]) (group s) (groups s)
  | Missing w v o st =>
      let s := end_group s w v in mkHeard (heard s) (group s ++ [mkMember v o st]) (groups s)
  | Settle w ee => end_group s w ee
  end.

(** A repair's first arrival; its copies have its start and its key. *)
Fixpoint firsts (seen : list (Z * Z)) (l : list (Z * Z * Z)) : list (Z * Z * Z) :=
  match l with
  | [] => []
  | (a, b, k) :: l =>
      if bool_decide ((a, k) ∈ seen) then firsts seen l else (a, b, k) :: firsts ((a, k) :: seen) l
  end.

Definition first_of (ms : list Member) : Z := match head ms with Some m => m_seq m | None => 0 end.
Definition last_of (ms : list Member) : Z := match last ms with Some m => m_seq m | None => 0 end.
Definition via (o : Origin) (ms : list Member) : Z := Z.of_nat (length (filter (fun m => m_via m = o) ms)).
Definition stale_of (ms : list Member) : Z := Z.of_nat (length (filter (fun m => m_stale m = true) ms)).

(** The distinct repairs whose span meets the group's extent. *)
Definition distinct_repairs (first last : Z) (l : list (Z * Z * Z)) : Z :=
  Z.of_nat (length (filter (fun r => r.1.1 <= last /\ first < r.1.2) (firsts [] l))).

(** What the gauge reports of a closed group, and what it holds of the open one. *)
Definition report (g : list Member * list (Z * Z * Z) * Z) : LossEpisode :=
  let '(ms, hs, w) := g in
  mkLossEpisode (first_of ms) (u32 (last_of ms - first_of ms + 1)) (Z.of_nat (length ms)) (via kRepair ms) (via kRetx ms)
    (via kSource ms) (stale_of ms) (distinct_repairs (first_of ms) (last_of ms) hs) (u32 w).

Definition open_report (ms : list Member) : LossEpisode :=
  mkLossEpisode (first_of ms) 0 (Z.of_nat (length ms)) (via kRepair ms) (via kRetx ms) (via kSource ms) (stale_of ms) 0 0.

Definition nothing_heard : Heard := mkHeard [] [] [].

(** ** The gauge that remembers every repair keeps the promise *)

Definition span_of (r : Z * Z * Z) : RepairSpan := mkRepairSpan r.1.1 r.1.2 r.2.

Record kept_promise (S : Episodes) (s : Heard) : Prop := {
  kp_repairs : repairs_seen_ S = map span_of (firsts [] (heard s));
  kp_open : ep_open_ S = bool_decide (group s <> []);
  kp_group : group s <> [] -> ep_ S = open_report (group s) /\ ep_last_ S = last_of (group s);
  kp_queue : episodes_ S = drop (length (groups s) - kMaxQueuedEpisodes) (map report (groups s));
}.

Lemma firsts_snoc seen l a b k :
  firsts seen (l ++ [(a, b, k)]) =
  firsts seen l ++ if bool_decide ((a, k) ∈ seen ++ map (fun r => (r.1.1, r.2)) (firsts seen l)) then [] else [(a, b, k)].
Proof.
  revert seen. induction l as [|[[a' b'] k'] l IH]; intros seen; cbn [app firsts].
  - rewrite app_nil_r. by case_bool_decide.
  - case_bool_decide; [apply IH |]. cbn [app map fst snd]. rewrite IH. f_equal. f_equal.
    apply (f_equal (fun c : bool => if c then [] else [(a, b, k)])).
    apply bool_decide_ext. rewrite !elem_of_app, !elem_of_cons. tauto.
Qed.

Lemma existsb_seen a k l :
  existsb (fun r => (ws r =? a) && (key r =? k)) (map span_of l) = bool_decide ((a, k) ∈ map (fun r => (r.1.1, r.2)) l).
Proof.
  induction l as [|[[a' b'] k'] l IH]; [reflexivity |]. cbn [map existsb]. rewrite IH. cbn [span_of ws key fst snd].
  destruct (Z.eqb_spec a' a) as [-> | Ha], (Z.eqb_spec k' k) as [-> | Hk]; cbn [andb orb map fst snd].
  1: by rewrite bool_decide_true by apply elem_of_cons, or_introl, eq_refl.
  all: apply bool_decide_ext; rewrite elem_of_cons; (split; [by right | intros [E | ?]; [congruence | assumption]]).
Qed.

Lemma covering_distinct first last l : n_covering first last (map span_of (firsts [] l)) = distinct_repairs first last l.
Proof.
  unfold n_covering, distinct_repairs. f_equal. induction (firsts [] l) as [|[[a b] k] rs IH]; [reflexivity |].
  cbn [map List.filter]. rewrite filter_cons. unfold covers at 1. cbn [span_of ws we fst snd].
  destruct (Z.leb_spec a last), (Z.ltb_spec first b); cbn [andb]; case_decide; cbn [length]; first [by rewrite IH | exact IH | lia].
Qed.

Lemma repair_promise S s a b k : kept_promise S s -> kept_promise (fst (note_repair S a b k)) (hear s (Repair a b k)).
Proof.
  intros [H1 H2 H3 H4]. unfold note_repair. rewrite existsb_rev, H1, existsb_seen. pose proof (firsts_snoc [] (heard s) a b k) as F. cbn [app] in F.
  case_bool_decide; (constructor; cbn [fst hear heard group groups repairs_seen_ ep_ ep_last_ ep_open_ episodes_]; [| done..]); rewrite F.
  - by rewrite app_nil_r, H1.
  - by rewrite map_app.
Qed.

Lemma settle_promise S s w t : kept_promise S s -> kept_promise (settle_spec S w t) (end_group s w t).
Proof.
  intros [H1 H2 H3 H4]. unfold settle_spec, end_group. rewrite H2. destruct (last (group s)) as [m|] eqn:Hl.
  2: { apply last_None in Hl. rewrite bool_decide_false by (by rewrite Hl; intros []). by constructor. }
  assert (Hne : group s <> []) by (by intros E; rewrite E in Hl). rewrite bool_decide_true by done. cbn [andb].
  destruct (H3 Hne) as [He Hlast]. assert (Hm : last_of (group s) = m_seq m) by (unfold last_of; by rewrite Hl). rewrite Hlast, Hm.
  destruct (_ <? _); [| by constructor]. unfold close_episode. rewrite He, Hlast, H1, covering_distinct, H4.
  constructor; cbn [heard group groups repairs_seen_ ep_ ep_last_ ep_open_ episodes_]; [done | done | done |].
  rewrite map_app. cbn [map].
  replace (length (groups s ++ [(group s, heard s, w)])) with (length (map report (groups s) ++ [report (group s, heard s, w)]))
    by (rewrite !length_app, length_map; done).
  apply queue_snoc; [by apply Nat.ltb_lt |]. by rewrite length_map.
Qed.

Lemma via_snoc o ms m : via o (ms ++ [m]) = via o ms + b2z (origin_eqb (m_via m) o).
Proof.
  unfold via. rewrite filter_app, length_app, filter_cons, filter_nil.
  destruct (decide (m_via m = o)) as [E | E].
  - rewrite E. destruct o; cbn; lia.
  - assert (Hf : origin_eqb (m_via m) o = false) by (by destruct (m_via m), o). rewrite Hf. cbn. lia.
Qed.

Lemma stale_snoc ms m : stale_of (ms ++ [m]) = stale_of ms + b2z (m_stale m).
Proof.
  unfold stale_of. rewrite filter_app, length_app, filter_cons, filter_nil. destruct (decide (m_stale m = true)) as [E | E].
  - rewrite E. cbn. lia.
  - apply not_true_is_false in E. rewrite E. cbn. lia.
Qed.

Lemma book_promise S s v o st : kept_promise S s ->
  kept_promise (book S v o st) (mkHeard (heard s) (group s ++ [mkMember v o st]) (groups s)).
Proof.
  intros [H1 H2 H3 H4]. unfold book. constructor; cbn [heard group groups repairs_seen_ ep_ ep_last_ ep_open_ episodes_]; [done | | | done].
  - symmetry. apply bool_decide_true. by destruct (group s).
  - intros _. unfold last_of. rewrite last_snoc. split; [| done]. unfold open_report. rewrite !via_snoc, stale_snoc, length_app. cbn [m_via m_stale length].
    rewrite H2. destruct (group s) as [|m ms] eqn:Hg.
    + rewrite bool_decide_false by (by intros []). reflexivity.
    + rewrite bool_decide_true by done. destruct (H3 ltac:(done)) as [-> _].
      cbn [open_report first_seq span missing recovered ep_retx abandoned ep_stale repairs ep_window]. f_equal. lia.
Qed.

Lemma run_promise evs S s : kept_promise S s -> kept_promise (foldl step_spec S evs) (foldl hear s evs).
Proof.
  revert S s. induction evs as [|e evs IH]; intros S s H; [done |]. cbn [foldl]. apply IH.
  destruct e as [a b k | w v o st | w ee]; cbn [step_spec].
  - by apply repair_promise.
  - cbn [hear]. apply book_promise.
    assert (E : (if ep_open_ S && (ep_last_ S + w <? v) then settle_spec S w v else S) = settle_spec S w v).
    { unfold settle_spec. destruct (ep_open_ S); cbn [andb]; [| done].
      destruct (Z.ltb_spec (ep_last_ S + w) v), (Z.ltb_spec (ep_last_ S + w + 1) v); try done. lia. }
    rewrite E. by apply settle_promise.
  - by apply settle_promise.
Qed.

(** ** The property *)

(** C33.  The gauge is exact and pruning is invisible.  On any history in which eviction moves
    forward, the missing sequence numbers fall into groups, a group ending when eviction passes its
    last member by more than the window plus one.  The queue is the reports of the last 1024 groups
    ended, in order: first member, extent, the members recovered, retransmitted, abandoned and stale,
    the window, and the number of distinct repairs heard by then, pruned or not, whose span meets
    the extent (a copy of a repair, by start and key, counts once).  The open episode is the open
    group's.  Every report's members split into recovered, retransmitted and abandoned, and while
    nothing has overflowed the queue, the members of all episodes add up to the sequence numbers
    booked. *)
Theorem episodes_exact (floor : Z) (evs : list event) :
  forward floor evs ->
  let E := foldl step no_episodes evs in
  let H := foldl hear nothing_heard evs in
  episodes_ E = drop (length (groups H) - 1024) (map report (groups H)) /\
  ep_open_ E = bool_decide (group H <> []) /\ (group H <> [] -> ep_ E = open_report (group H)) /\
  Forall closed_ok (episodes_ E) /\ (length (episodes_ E) <= 1024)%nat /\
  ((length (episodes_ E) < 1024)%nat ->
   sum_missing (episodes_ E) + (if ep_open_ E then missing (ep_ E) else 0) =
   Z.of_nat (length (List.filter is_missing evs))).
Proof.
  intros Hf E H. change 1024%nat with kMaxQueuedEpisodes.
  assert (Hs0 : same_gauge no_episodes no_episodes floor).
  { constructor; try done. by exists []. }
  assert (Hp0 : kept_promise no_episodes nothing_heard) by (constructor; [done | done | by intros [] | done]).
  destruct (run_same evs _ _ _ _ _ (no_episodes_inv floor) Hs0 Hf) as (f & [He _ Ho Hq _ _]).
  destruct (run_promise evs _ _ Hp0) as [_ P2 P3 P4]. rewrite <- Hq in P4. rewrite <- Ho in P2. rewrite <- He in P3.
  destruct (run_inv evs _ _ _ _ (no_episodes_inv floor) Hf) as (all & f' & [_ Hqueue Hall Hsum]).
  fold E in P2, P3, P4, Hqueue, Hsum. fold H in P2, P3, P4. split; [exact P4 |]. split; [exact P2 |].
  split; [intros Hg; exact (proj1 (P3 Hg)) |].
  rewrite Hqueue. split; [by apply Forall_drop |]. rewrite length_drop.
  split; [lia |]. intros Hlt. rewrite <- Z.add_0_l. rewrite <- Hsum. do 2 f_equal.
  replace (length all - kMaxQueuedEpisodes)%nat with 0%nat by lia.
  done.
Qed.

Definition sample_history : list event :=
  [Repair 8 12 1; Repair 8 12 1; Missing 4 10 kSource false; Missing 4 11 kRepair true; Repair 13 17 2;
   Missing 4 30 kSource false; Settle 4 40].

Example episodes_exact_witness :
  map (fun e => (first_seq e, span e, missing e, repairs e))
    (episodes_ (foldl step no_episodes sample_history)) = [(10, 2, 2, 1); (30, 1, 1, 0)].
Proof.
  rewrite (proj1 (episodes_exact 0 sample_history ltac:(cbn; lia))). vm_compute. reflexivity.
Defined.
