(* ===== verification/Elim.v ===== *)
(** * Elim: the decoder's incremental Gaussian elimination (SwDecoder::insert_row)

    A repair row is a sparse linear equation over GF(256): coefficients keyed by virtual
    sequence number and the right-hand side, a symbol.  [insert_row] reduces a row by the
    rows already held, each keyed by its smallest sequence number (the pivot) with leading
    coefficient one, and keeps it or reports a solved symbol. *)
From S2P Require Import Prelude Gf256.
From stdpp Require Import sorting.
Local Open Scope Z_scope.
Local Open Scope mabur_scope.

(** ** Ordered maps: [std::map] as a [gmap] with its ascending enumeration *)

Definition key_le {A} (x y : Z * A) : Prop := fst x <= fst y.
#[export] Instance key_le_dec {A} : RelDecision (@key_le A).
Proof. intros x y. unfold key_le. apply _. Defined.

Definition ascending {A} (m : gmap Z A) : list (Z * A) := merge_sort key_le (map_to_list m).
Definition begin_ {A} (m : gmap Z A) : option (Z * A) := head (ascending m).

#[export] Instance key_le_trans {A} : Transitive (@key_le A).
Proof. intros x y z. unfold key_le. lia. Qed.
#[export] Instance key_le_total {A} : Total (@key_le A).
Proof. intros x y. unfold key_le. lia. Qed.

Lemma ascending_perm {A} (m : gmap Z A) : ascending m ≡ₚ map_to_list m.
Proof. apply merge_sort_Permutation. Qed.

Lemma elem_of_ascending {A} (m : gmap Z A) k x : (k, x) ∈ ascending m <-> m !! k = Some x.
Proof. rewrite ascending_perm. apply elem_of_map_to_list. Qed.

Lemma ascending_nodup {A} (m : gmap Z A) : NoDup (ascending m).*1.
Proof. rewrite ascending_perm. apply NoDup_fst_map_to_list. Qed.

Lemma begin_None {A} (m : gmap Z A) : begin_ m = None <-> m = ∅.
Proof.
  unfold begin_. split.
  - destruct (ascending m) eqn:E; [| done]. intros _.
    apply map_to_list_empty_iff, Permutation_nil_r. by rewrite <- E, ascending_perm.
  - intros ->. done.
Qed.

Lemma begin_Some {A} (m : gmap Z A) k x :
  begin_ m = Some (k, x) -> m !! k = Some x /\ forall j, is_Some (m !! j) -> k <= j.
Proof.
  unfold begin_. destruct (ascending m) as [|y l] eqn:E; [done |]. cbn. intros [= ->].
  split; [apply elem_of_ascending; rewrite E; constructor |].
  intros j [y Hj]. apply elem_of_ascending in Hj. rewrite E in Hj.
  assert (HS : StronglySorted key_le ((k, x) :: l)).
  { rewrite <- E. apply (StronglySorted_merge_sort _). }
  apply elem_of_cons in Hj as [[= <- <-] | Hj]; [done |].
  apply StronglySorted_inv in HS as [_ HF].
  rewrite Forall_forall in HF. by apply (HF (j, y)).
Qed.

(** ** The source's definitions *)

(** A symbol is a byte list; [ss] is [cfg_.symbol_size]. *)
Record Row := mkRow {
  coeffs : gmap Z Z;
  payload : list Z;
  first_seen_ms : Z;
}.

(** The elimination loop over [e.coeffs]. *)
Definition elim_coeff (f : Z) (m : gmap Z Z) (sc : Z * Z) : gmap Z Z :=
  let '(s, c) := sc in
  let nv := default 0 (m !! s) ⊕ mul f c in
  if nv =? 0 then delete s m else <[s := nv]> m.

Definition elim_coeffs (m e : gmap Z Z) (f : Z) : gmap Z Z :=
  foldl (elim_coeff f) m (ascending e).

(** [insert_row]: the rows after the call and the symbol it solved, if any.  Each turn of
    the loop eliminates one pivot; the result is [None] only when the fuel runs out. *)
Fixpoint insert_row_loop (fuel ss : nat) (rows : gmap Z Row) (r : Row)
    : option (gmap Z Row * list (Z * list Z)) :=
  match fuel with
  | O => None
  | S fuel =>
      match begin_ (coeffs r) with
      | None => Some (rows, [])
      | Some (pivot, lead) =>
          match rows !! pivot with
          | None =>
              let r := if lead =? 1 then r
                       else let ilead := inv lead in
                            mkRow ((fun c => mul c ilead) <$> coeffs r)
                              (lincomb (replicate ss 0) (payload r) ilead ss) (first_seen_ms r) in
              if (size (coeffs r) =? 1)%nat then Some (rows, [(pivot, payload r)])
              else Some (<[pivot := r]> rows, [])
          | Some e =>
              insert_row_loop fuel ss rows
                (mkRow (elim_coeffs (coeffs r) (coeffs e) lead)
                   (lincomb (payload r) (payload e) lead ss) (first_seen_ms r))
          end
      end
  end.

(** A row meets each held row at most once. *)
Definition insert_row (ss : nat) (rows : gmap Z Row) (r : Row)
    : option (gmap Z Row * list (Z * list Z)) :=
  insert_row_loop (S (size rows)) ss rows r.

(** ** Linear forms *)

(** The value of the left-hand side at one byte position: [g s] is the byte of symbol [s]. *)
Definition lin (m : gmap Z Z) (g : Z -> Z) : Z :=
  map_fold (fun s c acc => mul c (g s) ⊕ acc) 0 m.

Lemma lxor_left_comm a b c : a ⊕ (b ⊕ c) = b ⊕ (a ⊕ c).
Proof. by rewrite <- !Z.lxor_assoc, (Z.lxor_comm a b). Qed.

Lemma lin_empty g : lin ∅ g = 0.
Proof. done. Qed.

Lemma lin_insert m g s c :
  m !! s = None -> lin (<[s := c]> m) g = mul c (g s) ⊕ lin m g.
Proof.
  intros H. unfold lin. rewrite map_fold_insert_L; [done | | done].
  intros. apply lxor_left_comm.
Qed.

Lemma lin_delete m g s c :
  m !! s = Some c -> lin m g = mul c (g s) ⊕ lin (delete s m) g.
Proof.
  intros H. apply (map_fold_delete_L (fun s c acc => mul c (g s) ⊕ acc)); [| done].
  intros. apply lxor_left_comm.
Qed.

Lemma lin_byte m g : is_byte (lin m g).
Proof.
  unfold lin. apply (map_fold_weak_ind (fun z _ => is_byte z)); [mlia |]. intros. width.
Qed.
#[export] Hint Resolve lin_byte : width.

(** Coefficients are non-zero bytes. *)
Definition nz_coeffs (m : gmap Z Z) : Prop := map_Forall (fun _ c => is_byte c /\ c <> 0) m.

Lemma lin_scale m g k :
  nz_coeffs m -> is_byte k -> (forall s, is_byte (g s)) ->
  lin ((fun c => mul c k) <$> m) g = mul k (lin m g).
Proof.
  intros Hm Hk Hg. induction m as [|s c m Hs IH] using map_ind.
  - rewrite fmap_empty, !lin_empty. by rewrite mul_0_r.
  - apply map_Forall_insert in Hm as [[Hc _] Hm]; [| done].
    rewrite fmap_insert, !lin_insert by (rewrite ?lookup_fmap, ?Hs; done).
    rewrite IH, mul_lxor_r by (done || width).
    by rewrite (mul_comm c k), mul_assoc by done.
Qed.

(** One step of the elimination adds [f * c * g s], whatever the entry was. *)
Lemma lin_elim_coeff m g f s c :
  map_Forall (fun _ c => is_byte c) m -> is_byte f -> is_byte c -> (forall s, is_byte (g s)) ->
  lin (elim_coeff f m (s, c)) g = lin m g ⊕ mul f (mul c (g s)).
Proof.
  intros Hm Hf Hc Hg. unfold elim_coeff.
  assert (Ha : is_byte (default 0 (m !! s))).
  { destruct (m !! s) as [a|] eqn:E; cbn; [by apply (Hm s) | mlia]. }
  assert (Hold : lin m g = mul (default 0 (m !! s)) (g s) ⊕ lin (delete s m) g).
  { destruct (m !! s) as [a|] eqn:E; cbn; [by apply lin_delete |].
    by rewrite ?mul_0_l, ?Z.lxor_0_l, delete_id. }
  assert (Hnv : mul (default 0 (m !! s) ⊕ mul f c) (g s) ⊕ lin (delete s m) g =
                lin m g ⊕ mul f (mul c (g s))).
  { rewrite Hold, mul_lxor_l, mul_assoc by (done || width).
    rewrite !Z.lxor_assoc. f_equal. apply Z.lxor_comm. }
  rewrite <- Hnv. destruct (Z.eqb_spec (default 0 (m !! s) ⊕ mul f c) 0) as [E | E].
  - rewrite E, mul_0_l. by rewrite Z.lxor_0_l.
  - rewrite <- insert_delete_eq, lin_insert; [done | apply lookup_delete_eq].
Qed.

Lemma elim_coeff_bytes m f s c :
  map_Forall (fun _ c => is_byte c) m -> map_Forall (fun _ c => is_byte c) (elim_coeff f m (s, c)).
Proof.
  intros Hm. unfold elim_coeff. case_Zb; [by apply map_Forall_delete |].
  apply map_Forall_insert_2; [| done]. apply lxor_in_width; [lia | | width].
  destruct (m !! s) as [a|] eqn:E; cbn; [by apply (Hm s) | mlia].
Qed.

Lemma lin_elim m e g f :
  map_Forall (fun _ c => is_byte c) m -> map_Forall (fun _ c => is_byte c) e ->
  is_byte f -> (forall s, is_byte (g s)) ->
  lin (elim_coeffs m e f) g = lin m g ⊕ mul f (lin e g).
Proof.
  intros Hm He Hf Hg. unfold elim_coeffs.
  assert (Hl : lin e g = foldr (fun sc acc => mul (snd sc) (g (fst sc)) ⊕ acc) 0 (ascending e)).
  { unfold lin. rewrite map_fold_foldr.
    transitivity (foldr (fun sc acc => mul (snd sc) (g (fst sc)) ⊕ acc) 0 (map_to_list e)).
    { apply foldr_ext; [by intros [] | done | done]. }
    assert (P : Proper ((≡ₚ) ==> (=))
      (foldr (fun (sc : Z * Z) acc => mul (snd sc) (g (fst sc)) ⊕ acc) 0))
      by (apply foldr_permutation_proper; [apply _ | by intros ? ? ? -> | intros; apply lxor_left_comm]).
    by rewrite (ascending_perm e). }
  rewrite Hl.
  assert (Hb : Forall (fun sc => is_byte (snd sc)) (ascending e)).
  { apply Forall_forall. intros [s c] H%elem_of_ascending. by apply (He s). }
  clear Hl. revert m Hm Hb. induction (ascending e) as [|[s c] l IH]; intros m Hm Hb;
    cbn [foldl foldr fst snd].
  - by rewrite mul_0_r, Z.lxor_0_r.
  - apply Forall_cons in Hb as [Hc Hb]. cbn in Hc.
    rewrite IH by (done || by apply elim_coeff_bytes). rewrite lin_elim_coeff by done.
    rewrite mul_lxor_r, Z.lxor_assoc; [done | done | width |].
    clear -l. induction l as [|[s c] l IH]; cbn; [mlia | width].
Qed.

(** ** What elimination does to the keys *)

Lemma elim_coeff_other m f s c k : k <> s -> elim_coeff f m (s, c) !! k = m !! k.
Proof.
  intros Hk. unfold elim_coeff. case_match; [by rewrite lookup_delete_ne | by rewrite lookup_insert_ne].
Qed.

Lemma elim_coeff_same m f s c :
  elim_coeff f m (s, c) !! s =
  let nv := default 0 (m !! s) ⊕ mul f c in if nv =? 0 then None else Some nv.
Proof.
  unfold elim_coeff. cbn zeta. case_match; [by rewrite lookup_delete_eq | by rewrite lookup_insert_eq].
Qed.

(** The entries of the result: those of [m], with the entries of [e] scaled and added. *)
Lemma elim_lookup m e f k :
  elim_coeffs m e f !! k =
  match e !! k with
  | None => m !! k
  | Some c => let nv := default 0 (m !! k) ⊕ mul f c in if nv =? 0 then None else Some nv
  end.
Proof.
  unfold elim_coeffs.
  assert (G : forall l : list (Z * Z), NoDup l.*1 -> forall m,
    foldl (elim_coeff f) m l !! k =
    match list_find (fun sc => fst sc = k) l with
    | None => m !! k
    | Some (_, (_, c)) => let nv := default 0 (m !! k) ⊕ mul f c in if nv =? 0 then None else Some nv
    end).
  { intros l. induction l as [|[s c] l IH]; intros Hnd m'; [done |].
    apply NoDup_cons in Hnd as [Hs Hnd]. cbn [foldl list_find fst].
    rewrite IH by done. case_decide as Hk.
    - subst s. assert (Hn : list_find (fun sc : Z * Z => fst sc = k) l = None).
      { apply list_find_None, Forall_forall. intros [k' c'] Hin <-. apply Hs.
        apply list_elem_of_fmap. by exists (k', c'). }
      rewrite Hn. apply elim_coeff_same.
    - rewrite elim_coeff_other by done. by destruct (list_find _ l) as [[? [? ?]]|]. }
  rewrite G by apply ascending_nodup.
  destruct (list_find _ _) as [[i [s c]]|] eqn:Hf.
  - apply list_find_Some in Hf as (Hi & <- & _). cbn.
    apply list_elem_of_lookup_2, elem_of_ascending in Hi. by rewrite Hi.
  - apply list_find_None in Hf. destruct (e !! k) as [c|] eqn:He; [| done].
    apply elem_of_ascending in He. rewrite Forall_forall in Hf. by destruct (Hf _ He).
Qed.

Lemma elim_nz m e f : nz_coeffs m -> nz_coeffs e -> nz_coeffs (elim_coeffs m e f).
Proof.
  intros Hm He k c. rewrite elim_lookup. destruct (e !! k) as [c'|] eqn:Ee.
  - cbn zeta. destruct (Z.eqb_spec (default 0 (m !! k) ⊕ mul f c') 0); [done |]. intros [= <-].
    split; [| done]. apply lxor_in_width; [lia | | width].
    destruct (m !! k) as [a|] eqn:E; cbn; [by apply (Hm k) | mlia].
  - intros Hk. by apply (Hm k).
Qed.

Lemma elim_keys m e f k :
  is_Some (elim_coeffs m e f !! k) -> is_Some (m !! k) \/ is_Some (e !! k).
Proof. rewrite elim_lookup. destruct (e !! k); [right; eauto | by left]. Qed.

(** The eliminated pivot disappears. *)
Lemma elim_pivot m e f p :
  m !! p = Some f -> e !! p = Some 1 -> is_byte f -> elim_coeffs m e f !! p = None.
Proof.
  intros Hm He Hf. rewrite elim_lookup, He, Hm. cbn.
  rewrite (mul_comm f 1), mul_1_l by done. by rewrite Z.lxor_nilpotent.
Qed.

Lemma nz_map_bytes m : nz_coeffs m -> map_Forall (fun _ c => is_byte c) m.
Proof. intros H k c Hk. by apply (H k). Qed.

(** ** Rows that state true equations *)

Section Truth.

(** The symbols as they were really sent, by sequence number. *)
Context (ss : nat) (src : Z -> list Z).
Context (src_len : forall s, length (src s) = ss) (src_bytes : forall s, bytes_ok (src s)).

Definition byte_at (j : nat) (s : Z) : Z := nth j (src s) 0.

Lemma byte_at_byte j s : is_byte (byte_at j s).
Proof.
  unfold byte_at. destruct (Nat.lt_ge_cases j (length (src s))) as [Hj|Hj].
  - pose proof (src_bytes s) as Hb. rewrite Forall_forall in Hb. apply Hb.
    apply list_elem_of_lookup. exists j. destruct (src s !! j) eqn:E.
    + by rewrite nth_lookup, E.
    + apply lookup_ge_None in E. lia.
  - rewrite nth_overflow by done. mlia.
Qed.

(** The row's right-hand side is the combination its coefficients name. *)
Definition row_true (r : Row) : Prop :=
  length (payload r) = ss /\
  forall j, (j < ss)%nat -> nth j (payload r) 0 = lin (coeffs r) (byte_at j).

(** A row as the decoder holds it under key [p]: true, led by a 1 at its smallest key,
    not yet down to one unknown. *)
Definition row_held (p : Z) (r : Row) : Prop :=
  row_true r /\ nz_coeffs (coeffs r) /\ coeffs r !! p = Some 1 /\
  (forall k, is_Some (coeffs r !! k) -> p <= k) /\ (1 < size (coeffs r))%nat.

Definition rows_held (rows : gmap Z Row) : Prop := map_Forall row_held rows.

Lemma row_true_elim r e f :
  row_true r -> row_true e -> nz_coeffs (coeffs r) -> nz_coeffs (coeffs e) -> is_byte f ->
  row_true (mkRow (elim_coeffs (coeffs r) (coeffs e) f)
              (lincomb (payload r) (payload e) f ss) (first_seen_ms r)).
Proof.
  intros [Hrl Hr] [Hel He] Hnr Hne Hf. unfold row_true. cbn [payload coeffs].
  rewrite lincomb_full by done. split; [rewrite axpy_length; congruence |].
  intros j Hj. rewrite axpy_nth, Hr, He by lia.
  symmetry. apply lin_elim; auto using nz_map_bytes, byte_at_byte.
Qed.

Lemma row_true_scale r k :
  row_true r -> nz_coeffs (coeffs r) -> is_byte k ->
  row_true (mkRow ((fun c => mul c k) <$> coeffs r)
              (lincomb (replicate ss 0) (payload r) k ss) (first_seen_ms r)).
Proof.
  intros [Hl Hr] Hn Hk. unfold row_true. cbn [payload coeffs].
  rewrite lincomb_full by (rewrite ?length_replicate; done).
  split; [rewrite axpy_length; rewrite length_replicate; lia |].
  intros j Hj. rewrite axpy_nth, Hr, lin_scale
    by (rewrite ?length_replicate; lia || auto using byte_at_byte).
  assert (E : nth j (replicate ss 0) 0 = 0) by (rewrite nth_lookup, lookup_replicate_2; done).
  by rewrite E, Z.lxor_0_l.
Qed.

(** A row down to one unknown with coefficient one is that symbol. *)
Lemma row_true_single r p :
  row_true r -> coeffs r !! p = Some 1 -> size (coeffs r) = 1%nat -> payload r = src p.
Proof.
  intros [Hl Hr] Hp Hs. apply list_eq_nth; [by rewrite src_len |].
  intros j Hj. rewrite Hr by lia.
  rewrite (lin_delete _ _ p 1) by done.
  assert (E : delete p (coeffs r) = ∅).
  { apply map_size_empty_iff. rewrite map_size_delete, Hp. cbn. lia. }
  rewrite E, lin_empty, Z.lxor_0_r, mul_1_l by apply byte_at_byte. done.
Qed.

(** ** [insert_row] terminates and keeps every row true *)

(** The rows a row whose smallest key is at least [p] can still meet. *)
Definition rows_from (p : Z) (rows : gmap Z Row) : gmap Z Row :=
  filter (fun kr => p <= fst kr) rows.

Lemma rows_from_size p rows : (size (rows_from p rows) <= size rows)%nat.
Proof. apply map_subseteq_size, map_filter_subseteq. Qed.

Lemma rows_from_shrink p p' rows :
  is_Some (rows !! p) -> p < p' -> (size (rows_from p' rows) < size (rows_from p rows))%nat.
Proof.
  intros [e He] Hp. apply map_subset_size. split.
  - apply map_filter_subseteq_ext. intros k x _. cbn. lia.
  - intros H. apply (lookup_weaken _ _ p e) in H.
    + apply map_lookup_filter_Some in H as [_ H]. cbn in H. lia.
    + apply map_lookup_filter_Some. split; [done | cbn; lia].
Qed.

(** The three outcomes of an insertion. *)
Inductive inserted (P : Z -> Prop) (rows : gmap Z Row) : gmap Z Row -> list (Z * list Z) -> Prop :=
| ins_dependent : inserted P rows rows []
| ins_solved p : rows !! p = None -> P p -> inserted P rows rows [(p, src p)]
| ins_kept p e : rows !! p = None -> row_held p e ->
    (forall k, is_Some (coeffs e !! k) -> P k) -> inserted P rows (<[p := e]> rows) [].

Lemma insert_row_loop_ok (P : Z -> Prop) fuel rows r lb :
  rows_held rows -> (forall p e k, rows !! p = Some e -> is_Some (coeffs e !! k) -> P k) ->
  row_true r -> nz_coeffs (coeffs r) -> (forall k, is_Some (coeffs r !! k) -> P k /\ lb <= k) ->
  (size (rows_from lb rows) < fuel)%nat ->
  exists rows' solved, insert_row_loop fuel ss rows r = Some (rows', solved) /\
    inserted P rows rows' solved.
Proof.
  intros Hrows HP. revert r lb. induction fuel as [|fuel IH]; intros r lb Hr Hn Hk Hf; [lia |].
  cbn [insert_row_loop]. destruct (begin_ (coeffs r)) as [[p lead]|] eqn:Hb.
  2: { eexists _, _. split; [done | constructor]. }
  apply begin_Some in Hb as [Hp Hmin]. destruct (Hn p lead Hp) as [Hlb Hl0].
  destruct (rows !! p) as [e|] eqn:He.
  - destruct (Hrows p e He) as (Het & Hen & Hep & Hemin & _).
    apply (IH _ (p + 1)).
    + by apply row_true_elim.
    + by apply elim_nz.
    + intros k Hkk. cbn in Hkk.
      assert (k <> p).
      { intros ->. rewrite (elim_pivot _ _ _ p) in Hkk by done. by destruct Hkk. }
      apply elim_keys in Hkk as [Hkk|Hkk].
      * split; [by apply Hk | pose proof (Hmin k Hkk); lia].
      * split; [by eapply HP | pose proof (Hemin k Hkk); lia].
    + assert (Hlp : lb <= p) by (apply Hk; eauto).
      apply Nat.lt_le_trans with (size (rows_from p rows)).
      * apply rows_from_shrink; [eauto | lia].
      * apply Nat.lt_succ_r. eapply Nat.le_lt_trans; [| exact Hf].
        apply map_subseteq_size, map_filter_subseteq_ext. intros k x _. cbn. lia.
  - set (r' := if lead =? 1 then r else _).
    assert (H' : row_true r' /\ nz_coeffs (coeffs r') /\ coeffs r' !! p = Some 1 /\
      forall k, is_Some (coeffs r' !! k) -> is_Some (coeffs r !! k)).
    { subst r'. destruct (Z.eqb_spec lead 1) as [-> |Hl1]; [done |].
      assert (Hi : is_byte (inv lead)) by width.
      assert (Hinv : mul lead (inv lead) = 1) by (rewrite mul_comm; by apply mul_inv_l).
      split; [by apply row_true_scale |]. cbn [coeffs]. split.
      - intros k c. rewrite lookup_fmap. destruct (coeffs r !! k) as [c0|] eqn:Hc; [| done].
        cbn. intros [= <-]. destruct (Hn k c0 Hc) as [Hc0 Hc1]. split; [width |].
        intros H0. apply mul_integral in H0 as [|H0]; [done | | done | done].
        rewrite H0, mul_0_r in Hinv. lia.
      - split; [rewrite lookup_fmap, Hp; cbn; congruence |].
        intros k. rewrite lookup_fmap. by destruct (coeffs r !! k). }
    destruct H' as (Ht & Hn' & Hp' & Hk'). clearbody r'. destruct (Nat.eqb_spec (size (coeffs r')) 1).
    + eexists _, _. split; [done |]. rewrite (row_true_single r' p) by done.
      constructor; [done |]. apply Hk. eauto.
    + eexists _, _. split; [done |]. constructor; [done | |].
      * split; [done |]. split; [done |]. split; [done |]. split; [intros k Hkk; auto |].
        assert (size (coeffs r') <> 0%nat); [| lia].
        intros H0. apply map_size_empty_inv in H0. by rewrite H0, lookup_empty in Hp'.
      * intros k Hkk. apply Hk. auto.
Qed.

Lemma insert_row_ok (P : Z -> Prop) rows r :
  rows_held rows -> (forall p e k, rows !! p = Some e -> is_Some (coeffs e !! k) -> P k) ->
  row_true r -> nz_coeffs (coeffs r) -> (forall k, is_Some (coeffs r !! k) -> P k) ->
  exists rows' solved, insert_row ss rows r = Some (rows', solved) /\
    inserted P rows rows' solved.
Proof.
  intros Hrows HP Hr Hn Hk. destruct (begin_ (coeffs r)) as [[p lead]|] eqn:Hb.
  - apply begin_Some in Hb as [_ Hmin]. apply (insert_row_loop_ok P _ rows r p); try done.
    + auto.
    + apply Nat.lt_succ_r, rows_from_size.
  - unfold insert_row. cbn [insert_row_loop]. rewrite Hb.
    eexists _, _. split; [done | constructor].
Qed.

End Truth.
