(* ===== verification/SwDecoder.v ===== *)
(** * SwDecoder: the sliding-window FEC decoder (common/src/sw_decoder.cpp)

    Sources are delivered at once; repairs are reduced by what is known and join the
    elimination of Elim.v; a solved symbol is delivered and substituted back, which may
    solve more.  Wire sequence numbers (u32) are unwrapped to u64 virtual ones. *)
From S2P Require Import Prelude Bytes Gf256 SwWire SwConfig ArrivalTracker LossEpisodes Elim.
Local Open Scope Z_scope.
Local Open Scope mabur_scope.

(** ** State *)

Definition kResetSpan : Z := 2 ^ 20.
Definition kAnchor : Z := 2 ^ 32.

Inductive SwBoundary := kNone | kPre | kPost.
Inductive SourceState := kUnknown | kDirect | kRecovered | kRetxState | kBelowFloor.

(** The u64 counters of the class, by name. *)
Inductive Counter :=
| syms_delivered | syms_recovered | syms_abandoned | syms_recovered_arrived | syms_retx
| syms_retx_arrived | symbols_in | symbols_dropped_bad_cfg | symbols_dropped_stale
| packets_out | resets | repairs_skipped | syms_abandoned_stale.
#[export] Instance Counter_eq_dec : EqDecision Counter.
Proof. solve_decision. Defined.

(** The transition watermark. *)
Record Watermark := mkWatermark { wm_open_ : bool; wm_valid_ : bool; wm_ : Z }.

Record SwDecoder := mkSwDecoder {
  cfg_ : SwConfig;
  horizon_ : Z;
  arr_guard_ : Z;
  have_seq_ : bool;
  newest_v_ : Z;
  base_ : Z;
  known_ : gmap Z (list Z);
  rows_ : gmap Z Row;
  recovered_await_src_ : gset Z;
  retx_await_src_ : gset Z;
  last_out_seqs_ : list Z;
  cnt_ : Counter -> Z;
  repair_window_hwm_ : Z;
  wmk_ : Watermark;
  eps_ : Episodes;
  arr_ : ArrivalTracker;
}.

(** The constructor. *)
Definition new_decoder (cfg : SwConfig) (seq_horizon arrival_guard : Z) : SwDecoder :=
  let g := if arrival_guard =? 0 then kDefaultGuard else arrival_guard in
  mkSwDecoder cfg (if seq_horizon =? 0 then u64 (4 * u64 (window cfg)) else seq_horizon) g
    false 0 0 ∅ ∅ ∅ ∅ [] (fun _ => 0) 0 (mkWatermark false false 0) no_episodes
    (new_tracker g 1024).

(** *** Assignments to one member *)

Definition bump (d : SwDecoder) (k : Counter) (n : Z) : SwDecoder :=
  mkSwDecoder (cfg_ d) (horizon_ d) (arr_guard_ d) (have_seq_ d) (newest_v_ d) (base_ d)
    (known_ d) (rows_ d) (recovered_await_src_ d) (retx_await_src_ d) (last_out_seqs_ d)
    (fun c => if decide (c = k) then cnt_ d c + n else cnt_ d c)
    (repair_window_hwm_ d) (wmk_ d) (eps_ d) (arr_ d).

Definition set_space (d : SwDecoder) (have : bool) (newest base : Z) : SwDecoder :=
  mkSwDecoder (cfg_ d) (horizon_ d) (arr_guard_ d) have newest base
    (known_ d) (rows_ d) (recovered_await_src_ d) (retx_await_src_ d) (last_out_seqs_ d)
    (cnt_ d) (repair_window_hwm_ d) (wmk_ d) (eps_ d) (arr_ d).

Definition set_symbols (d : SwDecoder) (known : gmap Z (list Z)) (rows : gmap Z Row)
    (recov retx : gset Z) : SwDecoder :=
  mkSwDecoder (cfg_ d) (horizon_ d) (arr_guard_ d) (have_seq_ d) (newest_v_ d) (base_ d)
    known rows recov retx (last_out_seqs_ d)
    (cnt_ d) (repair_window_hwm_ d) (wmk_ d) (eps_ d) (arr_ d).

Definition set_rows (d : SwDecoder) (rows : gmap Z Row) : SwDecoder :=
  set_symbols d (known_ d) rows (recovered_await_src_ d) (retx_await_src_ d).

Definition set_out_seqs (d : SwDecoder) (l : list Z) : SwDecoder :=
  mkSwDecoder (cfg_ d) (horizon_ d) (arr_guard_ d) (have_seq_ d) (newest_v_ d) (base_ d)
    (known_ d) (rows_ d) (recovered_await_src_ d) (retx_await_src_ d) l
    (cnt_ d) (repair_window_hwm_ d) (wmk_ d) (eps_ d) (arr_ d).

Definition set_gauges (d : SwDecoder) (hwm : Z) (wm : Watermark) (eps : Episodes)
    (arr : ArrivalTracker) : SwDecoder :=
  mkSwDecoder (cfg_ d) (horizon_ d) (arr_guard_ d) (have_seq_ d) (newest_v_ d) (base_ d)
    (known_ d) (rows_ d) (recovered_await_src_ d) (retx_await_src_ d) (last_out_seqs_ d)
    (cnt_ d) hwm wm eps arr.

Definition set_hwm (d : SwDecoder) (n : Z) := set_gauges d n (wmk_ d) (eps_ d) (arr_ d).
Definition set_wm (d : SwDecoder) (w : Watermark) :=
  set_gauges d (repair_window_hwm_ d) w (eps_ d) (arr_ d).
Definition set_eps (d : SwDecoder) (e : Episodes) :=
  set_gauges d (repair_window_hwm_ d) (wmk_ d) e (arr_ d).
Definition set_arr (d : SwDecoder) (a : ArrivalTracker) :=
  set_gauges d (repair_window_hwm_ d) (wmk_ d) (eps_ d) a.

(** ** The sequence space *)

Definition unwrap (d : SwDecoder) (s : Z) : Z :=
  u64 (newest_v_ d + i32 (s - u32 (newest_v_ d))).

Definition live_floor (d : SwDecoder) : Z := u64 (newest_v_ d - horizon_ d).

Definition arr_stale_end (d : SwDecoder) : Z :=
  let w := wmk_ d in
  if wm_open_ w then 2 ^ 64 - 1 else if wm_valid_ w then u64 (wm_ w + 1) else 0.

Definition reset_state (d : SwDecoder) (v : Z) : SwDecoder :=
  let d := set_space (set_symbols d ∅ ∅ ∅ ∅) (have_seq_ d) v v in
  let d := bump (set_arr d (ArrivalTracker.reset (arr_ d) v)) resets 1 in
  let e := eps_ d in
  set_eps (set_wm d (mkWatermark false false (wm_ (wmk_ d))))
    (mkEpisodes [] (ep_ e) (ep_last_ e) false (episodes_ e)).

Definition mark_transition (d : SwDecoder) : SwDecoder :=
  if negb (have_seq_ d) then set_wm d (mkWatermark false false (wm_ (wmk_ d)))
  else set_wm d (mkWatermark true true (newest_v_ d)).

Definition close_boundary (d : SwDecoder) : SwDecoder :=
  set_wm d (mkWatermark false (wm_valid_ (wmk_ d)) (wm_ (wmk_ d))).

Definition is_known (d : SwDecoder) (v : Z) : bool := bool_decide (is_Some (known_ d !! v)).

Definition missing_sources (d : SwDecoder) (lookback : Z) : list Z :=
  if negb (have_seq_ d) then []
  else
    let floor := live_floor d in
    let from := if lookback <? newest_v_ d then newest_v_ d - lookback else 0 in
    let from := if from <? floor then floor else from in
    let from := if from <? base_ d then base_ d else from in
    map (fun v => u32 v)
      (List.filter (fun v => negb (is_known d v)) (seqZ from (newest_v_ d - from))).

Definition source_state (d : SwDecoder) (wire_seq : Z) : SourceState :=
  if negb (have_seq_ d) then kUnknown
  else
    let v := unwrap d wire_seq in
    if (v <? live_floor d) || (v <? base_ d) then kBelowFloor
    else if negb (is_known d v) then kUnknown
    else if bool_decide (v ∈ retx_await_src_ d) then kRetxState
    else if bool_decide (v ∈ recovered_await_src_ d) then kRecovered else kDirect.

Definition newest_seq (d : SwDecoder) : Z := if have_seq_ d then newest_v_ d else 0.

Definition episode_window (d : SwDecoder) : Z :=
  if 0 <? repair_window_hwm_ d then repair_window_hwm_ d else u64 (window (cfg_ d)).

(** The first loop of [advance]: book what the channel never delivered directly. *)
Definition note_evicted (d : SwDecoder) (stale_end : Z) (E : Episodes) (s : Z) : Episodes :=
  let known := is_known d s in
  let rec := known && bool_decide (s ∈ recovered_await_src_ d) in
  let rtx := known && bool_decide (s ∈ retx_await_src_ d) in
  if known && negb rec && negb rtx then E
  else note_missing E (episode_window d) s
         (if rtx then kRetx else if rec then kRepair else kSource) (s <? stale_end).

Definition n_known_in (d : SwDecoder) (lo hi : Z) : Z :=
  Z.of_nat (size (filter (fun kv => lo <= fst kv < hi) (known_ d))).

Definition advance (d : SwDecoder) (newest_candidate : Z) : SwDecoder :=
  if newest_candidate <=? newest_v_ d then d
  else
    let d := set_space d (have_seq_ d) newest_candidate (base_ d) in
    let nb := u64 (newest_v_ d - horizon_ d) in
    if nb <=? base_ d then d
    else
      let stale_end :=
        if wm_open_ (wmk_ d) then nb
        else if wm_valid_ (wmk_ d) then Z.min nb (u64 (wm_ (wmk_ d) + 1)) else base_ d in
      let E := foldl (note_evicted d stale_end) (eps_ d) (seqZ (base_ d) (nb - base_ d)) in
      let E := settle_episodes E (episode_window d) nb in
      let known_in_range := n_known_in d (base_ d) nb in
      let known_stale := n_known_in d (base_ d) (Z.min nb stale_end) in
      let d' := bump (set_eps d E) syms_abandoned ((nb - base_ d) - known_in_range) in
      let d' := if base_ d <? stale_end
                then bump d' syms_abandoned_stale ((stale_end - base_ d) - known_stale) else d' in
      let d' := set_symbols d' (filter (fun kv => nb <= fst kv) (known_ d))
                  (filter (fun kv => nb <= fst kv) (rows_ d))
                  (filter (fun s => nb <= s) (recovered_await_src_ d))
                  (filter (fun s => nb <= s) (retx_await_src_ d)) in
      set_space d' (have_seq_ d') (newest_v_ d') nb.

(** ** Symbols *)

(** [unpack_symbol]: the length-prefixed packets of a symbol of [ss] bytes.  [None] is a
    read past the symbol, or the fuel running out. *)
Fixpoint unpack_symbol_loop (fuel ss : nat) (sym : list Z) (pos : nat) : option (list (list Z)) :=
  match fuel with
  | O => None
  | S fuel =>
      if (pos + 2 <=? ss)%nat then
        ln ← get16 sym pos;
        if ln =? 0 then Some []
        else
          let end_ := (pos + 2 + Z.to_nat ln)%nat in
          if (ss <? end_)%nat then Some []
          else
            p ← get_slice sym (pos + 2) (Z.to_nat ln);
            rest ← unpack_symbol_loop fuel ss sym end_;
            Some (p :: rest)
      else Some []
  end.

(** Every turn but the last consumes at least three bytes. *)
Definition unpack_symbol (ss : nat) (sym : list Z) : option (list (list Z)) :=
  unpack_symbol_loop (S ss) ss sym 0.

Definition ss_of (d : SwDecoder) : nat := Z.to_nat (symbol_size (cfg_ d)).

(** The last loop of [ingest]: reduce every row that references [s] and re-insert it.  The
    queue's head is its back. *)
Fixpoint reinsert (ss : nat) (s : Z) (sym : list Z) (affected : list Row) (rows : gmap Z Row)
    (queue : list (Z * list Z)) : option (gmap Z Row * list (Z * list Z)) :=
  match affected with
  | [] => Some (rows, queue)
  | r :: affected =>
      let c := default 0 (coeffs r !! s) in
      '(rows, solved) ← insert_row ss rows
        (mkRow (delete s (coeffs r)) (lincomb (payload r) sym c ss) (first_seen_ms r));
      reinsert ss s sym affected rows (rev solved ++ queue)
  end.

Definition references (s : Z) (r : Row) : bool := bool_decide (is_Some (coeffs r !! s)).

(** The bookkeeping of one delivery: packets, sequence numbers, counters, await sets. *)
Definition deliver (d : SwDecoder) (s : Z) (pkts out : list (list Z)) (o : Origin) : SwDecoder :=
  let n := (length out - length (last_out_seqs_ d))%nat in
  let d := bump d packets_out (Z.of_nat (length pkts)) in
  let d := set_out_seqs d (last_out_seqs_ d ++ replicate n (u32 s)) in
  match o with
  | kSource => bump d syms_delivered 1
  | kRetx => set_symbols (bump d syms_retx 1) (known_ d) (rows_ d) (recovered_await_src_ d)
               ({[s]} ∪ retx_await_src_ d)
  | kRepair => set_symbols (bump d syms_recovered 1) (known_ d) (rows_ d)
                 ({[s]} ∪ recovered_await_src_ d) (retx_await_src_ d)
  end.

Fixpoint ingest_loop (fuel : nat) (d : SwDecoder) (queue : list (Z * list Z)) (first : bool)
    (origin : Origin) (out : list (list Z)) : option (SwDecoder * list (list Z)) :=
  match fuel with
  | O => None
  | S fuel =>
      match queue with
      | [] => Some (d, out)
      | (s, payload) :: queue =>
          let o := if first then origin
                   else if origin_eqb origin kRetx then kRetx else kRepair in
          if (s <? live_floor d) || is_known d s
          then ingest_loop fuel d queue false origin out
          else
            pkts ← unpack_symbol (ss_of d) payload;
            let out := out ++ pkts in
            let d := deliver d s pkts out o in
            let affected := map snd (List.filter (fun pr => references s (snd pr)) (ascending (rows_ d))) in
            let rest := filter (fun pr => references s (snd pr) = false) (rows_ d) in
            '(rows, queue) ← reinsert (ss_of d) s payload affected rest queue;
            let d := set_symbols d (<[s := payload]> (known_ d)) rows
                       (recovered_await_src_ d) (retx_await_src_ d) in
            ingest_loop fuel d queue false origin out
      end
  end.

(** Every turn removes a symbol from the queue or a row from the map. *)
Definition ingest (d : SwDecoder) (v : Z) (sym : list Z) (origin : Origin) (out : list (list Z))
    : option (SwDecoder * list (list Z)) :=
  ingest_loop (2 + size (rows_ d)) d [(v, sym)] true origin out.

(** ** [add_symbol] *)

(** The watermark a source's hint leaves: a kPre source raises it, the first kPost closes
    the boundary just below itself. *)
Definition source_boundary (w : Watermark) (b : SwBoundary) (v : Z) : Watermark :=
  match b with
  | kNone => w
  | kPre => if wm_valid_ w && (wm_ w <? v) then mkWatermark (wm_open_ w) (wm_valid_ w) v else w
  | kPost =>
      if wm_open_ w
      then mkWatermark false (wm_valid_ w)
             (if wm_valid_ w && (0 <? v) && (wm_ w <? v - 1) then v - 1 else wm_ w)
      else w
  end.

(** The opening of the source path: anchor, unwrap or reset, move the watermark, account the
    arrival.  The result is the state and the source's virtual sequence number. *)
Definition source_prologue (d : SwDecoder) (h : SwHeader) (b : SwBoundary) (clean retx : bool)
    : SwDecoder * Z :=
  let d := if have_seq_ d then d
           else set_space d true (u64 (kAnchor + seq h)) (u64 (kAnchor + seq h)) in
  let v := unwrap d (seq h) in
  let far := (u64 (newest_v_ d + kResetSpan) <? v) || (u64 (v + kResetSpan) <? newest_v_ d) in
  let d := if far then reset_state d (u64 (kAnchor + seq h)) else d in
  let v := if far then newest_v_ d else v in
  let b := if retx then kNone else b in
  let d := set_wm d (source_boundary (wmk_ d) b v) in
  let d := if retx then d
           else
             let d := set_arr d (on_source (arr_ d) v (arr_stale_end d) clean) in
             set_arr d (ArrivalTracker.advance (arr_ d) v (arr_stale_end d)) in
  (d, v).

(** A source body: account, deduplicate, deliver. *)
Definition add_source (d : SwDecoder) (h : SwHeader) (payload : list Z) (b : SwBoundary)
    (clean retx : bool) : option (SwDecoder * list (list Z)) :=
  let '(d, v) := source_prologue d h b clean retx in
  if (v <? live_floor d) || is_known d v then
    if retx then Some (bump d symbols_dropped_stale 1, [])
    else if bool_decide (v ∈ recovered_await_src_ d)
    then Some (bump (set_symbols d (known_ d) (rows_ d) (recovered_await_src_ d ∖ {[v]})
                       (retx_await_src_ d)) syms_recovered_arrived 1, [])
    else if bool_decide (v ∈ retx_await_src_ d)
    then Some (bump (set_symbols d (known_ d) (rows_ d) (recovered_await_src_ d)
                       (retx_await_src_ d ∖ {[v]})) syms_retx_arrived 1, [])
    else Some (bump d symbols_dropped_stale 1, [])
  else ingest (advance d v) v (take (ss_of d) payload) (if retx then kRetx else kSource) [].

(** One window position of a repair: known symbols are subtracted, the others join the row
    ([emplace] keeps an existing entry). *)
Definition row_step (ss : nat) (known : gmap Z (list Z)) (mp : gmap Z Z * list Z) (sc : Z * Z)
    : gmap Z Z * list Z :=
  let '(m, p) := mp in
  let '(s, c) := sc in
  match known !! s with
  | Some y => (m, lincomb p y c ss)
  | None => (match m !! s with Some _ => m | None => <[s := c]> m end, p)
  end.

Definition window_seqs (ws : Z) (wl : nat) : list Z :=
  map (fun i => u64 (ws + Z.of_nat i)) (List.seq 0 wl).

Definition build_row (d : SwDecoder) (ws : Z) (wl : nat) (key : Z) (payload : list Z) (now : Z) : Row :=
  let '(m, p) := foldl (row_step (ss_of d) (known_ d)) (∅, payload)
                   (zip (window_seqs ws wl) (repair_coeffs key wl)) in
  mkRow m p now.

Fixpoint ingest_all (d : SwDecoder) (solved : list (Z * list Z)) (out : list (list Z))
    : option (SwDecoder * list (list Z)) :=
  match solved with
  | [] => Some (d, out)
  | (s, y) :: solved => '(d, out) ← ingest d s y kRepair out; ingest_all d solved out
  end.

(** The end of the repair path: build the row and insert it. *)
Definition admit_repair (d : SwDecoder) (ws : Z) (wl : nat) (key : Z) (payload : list Z) (now : Z)
    : option (SwDecoder * list (list Z)) :=
  '(rows, solved) ← insert_row (ss_of d) (rows_ d) (build_row d ws wl key payload now);
  ingest_all (set_rows d rows) solved [].

(** A repair raises the watermark to the last sequence number it covers. *)
Definition repair_boundary (w : Watermark) (b : SwBoundary) (last : Z) : Watermark :=
  match b with
  | kPre => if wm_valid_ w && (wm_ w <? last) then mkWatermark (wm_open_ w) (wm_valid_ w) last else w
  | _ => w
  end.

(** A repair body. *)
Definition add_repair (d : SwDecoder) (h : SwHeader) (payload : list Z) (now : Z) (b : SwBoundary)
    : option (SwDecoder * list (list Z)) :=
  if negb (have_seq_ d) then Some (bump d symbols_dropped_stale 1, [])
  else
    let ws := unwrap d (seq h) in
    let wl := window_len h in
    let d := if repair_window_hwm_ d <? wl then set_hwm d wl else d in
    let wend := u64 (ws + wl) in
    if (u64 (newest_v_ d + kResetSpan) <? wend) || (u64 (wend + kResetSpan) <? newest_v_ d)
    then Some (bump d symbols_dropped_stale 1, [])
    else
      let last := u64 (wend - 1) in
      let d := set_wm d (repair_boundary (wmk_ d) b last) in
      let d := advance d last in
      let d := set_arr d (ArrivalTracker.advance (arr_ d) last (arr_stale_end d)) in
      if ws <? live_floor d then Some (bump d symbols_dropped_stale 1, [])
      else
        let '(E, fresh) := note_repair (eps_ d) ws wend (repair_key h) in
        let d := set_eps d E in
        let n := Z.to_nat wl in
        if fresh && existsb (fun s => negb (is_known d s)) (window_seqs ws n)
        then admit_repair d ws n (repair_key h) (take (ss_of d) payload) now
        else Some (bump d repairs_skipped 1, []).

(** [add_symbol]; [None] is an out-of-bounds read or a loop that did not end. *)
Definition add_symbol (d : SwDecoder) (env : list Z) (now : Z) (b : SwBoundary)
    (clean retx : bool) : option (SwDecoder * list (list Z)) :=
  let d := set_out_seqs d [] in
  h ← parse_header env;
  match h with
  | None => Some (d, [])
  | Some h =>
      if negb (SwWire.symbol_size h =? symbol_size (cfg_ d)) ||
         negb (Z.of_nat (length env) =? Z.of_nat kSwHeaderLen + symbol_size (cfg_ d))
      then Some (bump d symbols_dropped_bad_cfg 1, [])
      else
        let d := bump d symbols_in 1 in
        let payload := drop kSwHeaderLen env in
        if repair h then add_repair d h payload now b
        else add_source d h payload b clean retx
  end.

(** The wall-clock backstop. *)
Definition expired (deadline now : Z) (r : Row) : bool :=
  (first_seen_ms r <? now) && (deadline <? now - first_seen_ms r).

Definition expire_rows_older_than (d : SwDecoder) (deadline now : Z) : SwDecoder * Z :=
  (set_rows d (filter (fun pr => expired deadline now (snd pr) = false) (rows_ d)),
   Z.of_nat (size (filter (fun pr => expired deadline now (snd pr) = true) (rows_ d)))).

Definition take_episodes (d : SwDecoder) : SwDecoder * list LossEpisode :=
  let '(E, out) := LossEpisodes.take_episodes (eps_ d) in (set_eps d E, out).
