(* ===== verification/SwDecoderSound.v ===== *)
(** * SwDecoderSound: what the decoder hands up was sent

    The invariant: every known symbol is the one the sender sealed under that wire
    sequence number, and every held row is a true equation over unknown symbols.  Each
    operation of SwDecoder.v terminates, stays inside its buffers and keeps it. *)
From S2P Require Import Prelude Bytes Gf256 SwWire SwConfig ArrivalTracker LossEpisodes Elim SwDecoder.
Local Open Scope Z_scope.
Local Open Scope mabur_scope.
#[local] Set Warnings "-clear-no-such-hyp".

(** ** The symbols as sent *)

Section Sound.

(** [src s] is the symbol the sender sealed under wire sequence number [s]. *)
Context (ss : nat) (src : Z -> list Z).
Context (src_len : forall s, length (src s) = ss) (src_bytes : forall s, bytes_ok (src s)).

(** The same, by virtual sequence number. *)
Definition srcv (v : Z) : list Z := src (u32 v).

Lemma srcv_len v : length (srcv v) = ss.
Proof. apply src_len. Qed.
Lemma srcv_bytes v : bytes_ok (srcv v).
Proof. apply src_bytes. Qed.

Definition pkts_of (y : list Z) : list (list Z) := default [] (unpack_symbol ss y).

(** The invariant. *)
Record dec_inv (d : SwDecoder) : Prop := {
  di_cfg : symbol_size (cfg_ d) = Z.of_nat ss;
  di_known : map_Forall (fun v y => y = srcv v) (known_ d);
  di_rows : rows_held ss srcv (rows_ d);
  di_unknown : forall p r k, rows_ d !! p = Some r -> is_Some (coeffs r !! k) -> known_ d !! k = None;
  di_await : forall v, v ∈ recovered_await_src_ d \/ v ∈ retx_await_src_ d -> is_Some (known_ d !! v);
  di_disjoint : recovered_await_src_ d ## retx_await_src_ d;
}.

Lemma di_ss d : dec_inv d -> ss_of d = ss.
Proof. intros Hi. unfold ss_of. by rewrite (di_cfg d Hi), Nat2Z.id. Qed.

(** ** [unpack_symbol] ends and stays inside the symbol *)

Lemma unpack_symbol_total fuel sym pos :
  length sym = ss -> (ss - pos < fuel)%nat -> exists p, unpack_symbol_loop fuel ss sym pos = Some p.
Proof.
  intros Hl. revert pos. induction fuel as [|fuel IH]; intros pos Hf; [lia |].
  cbn [unpack_symbol_loop]. destruct (Nat.leb_spec (pos + 2) ss); [| eauto].
  destruct (get16_in sym pos) as [ln ->]; [lia |]. cbn [mbind option_bind].
  destruct (ln =? 0); [eauto |].
  destruct (Nat.ltb_spec ss (pos + 2 + Z.to_nat ln)); [eauto |].
  rewrite get_slice_in by lia. cbn [mbind option_bind].
  destruct (IH (pos + 2 + Z.to_nat ln)%nat) as [p ->]; [lia |]. eauto.
Qed.

Lemma unpack_total sym : length sym = ss -> unpack_symbol ss sym = Some (pkts_of sym).
Proof.
  intros Hl. unfold pkts_of, unpack_symbol.
  destruct (unpack_symbol_total (S ss) sym 0 Hl) as [p Hp]; [lia |]. by rewrite Hp.
Qed.

(** ** Substituting a known symbol *)

Lemma row_true_subst r s c :
  row_true ss srcv r -> nz_coeffs (coeffs r) -> coeffs r !! s = Some c ->
  row_true ss srcv (mkRow (delete s (coeffs r)) (lincomb (payload r) (srcv s) c ss) (first_seen_ms r)).
Proof.
  intros [Hl Hr] Hn Hs. unfold row_true. cbn [payload coeffs].
  rewrite lincomb_full by (done || apply srcv_len).
  split; [rewrite axpy_length; rewrite ?srcv_len; congruence |].
  intros j Hj. rewrite axpy_nth, Hr by (rewrite ?srcv_len; lia).
  rewrite (lin_delete _ _ s c) by done. unfold byte_at.
  rewrite (Z.lxor_comm (mul _ _) (lin _ _)), Z.lxor_assoc, Z.lxor_nilpotent. apply Z.lxor_0_r.
Qed.

Definition queue_true (q : list (Z * list Z)) : Prop := Forall (fun sy => snd sy = srcv (fst sy)) q.

(** What an insertion gives: true rows, a true symbol, no more of both than before. *)
Lemma inserted_ok (P : Z -> Prop) rows rows' solved :
  rows_held ss srcv rows -> (forall p e k, rows !! p = Some e -> is_Some (coeffs e !! k) -> P k) ->
  inserted ss srcv P rows rows' solved ->
  rows_held ss srcv rows' /\
  (forall p e k, rows' !! p = Some e -> is_Some (coeffs e !! k) -> P k) /\
  queue_true solved /\ (size rows' + length solved <= size rows + 1)%nat.
Proof.
  intros Hr HP Hi. destruct Hi as [| p Hp HPp | p e Hp He HPe].
  - split_all; [done | done | constructor | cbn; lia].
  - split_all; [done | done | by constructor | done].
  - split_all.
    + apply map_Forall_insert_2; done.
    + intros q e' k Hq Hk. apply lookup_insert_Some in Hq as [[<- <-] | [_ Hq]]; eauto.
    + constructor.
    + rewrite map_size_insert_None by done. cbn. lia.
Qed.

(** Rows pulled because they reference [s]. *)
Definition pulled (P : Z -> Prop) (s : Z) (r : Row) : Prop :=
  row_true ss srcv r /\ nz_coeffs (coeffs r) /\ is_Some (coeffs r !! s) /\
  forall k, is_Some (coeffs r !! k) -> k <> s -> P k.

Lemma reinsert_ok (P : Z -> Prop) s affected rows queue :
  Forall (pulled P s) affected -> rows_held ss srcv rows ->
  (forall p e k, rows !! p = Some e -> is_Some (coeffs e !! k) -> P k) -> queue_true queue ->
  exists rows' queue', reinsert ss s (srcv s) affected rows queue = Some (rows', queue') /\
    rows_held ss srcv rows' /\
    (forall p e k, rows' !! p = Some e -> is_Some (coeffs e !! k) -> P k) /\ queue_true queue' /\
    (size rows' + length queue' <= size rows + length queue + length affected)%nat.
Proof.
  intros Ha. revert rows queue.
  induction Ha as [|r affected (Ht & Hn & [c Hc] & Hk) Ha IH]; intros rows queue Hr HP Hq.
  { eexists _, _. split; [done |]. split_all; try done. cbn. lia. }
  cbn [reinsert]. rewrite Hc. cbn [default from_option id].
  destruct (insert_row_ok ss srcv srcv_len srcv_bytes P rows
    (mkRow (delete s (coeffs r)) (lincomb (payload r) (srcv s) c ss) (first_seen_ms r)))
    as (rows1 & solved & -> & Hins); [done | done | by apply row_true_subst | | |].
  - by apply map_Forall_delete.
  - intros k Hkk. cbn in Hkk. assert (k <> s) by (intros ->; by rewrite lookup_delete_eq in Hkk; destruct Hkk).
    rewrite lookup_delete_ne in Hkk by done. by apply Hk.
  - cbn [mbind option_bind].
    destruct (inserted_ok P rows rows1 solved Hr HP Hins) as (Hr1 & HP1 & Hs1 & Hsz).
    destruct (IH rows1 (rev solved ++ queue)) as (rows' & queue' & -> & ? & ? & ? & Hle); try done.
    + apply Forall_app. split; [by apply Forall_rev | done].
    + exists rows', queue'. split; [done |]. split_all; try done.
      rewrite length_app, length_rev in Hle. cbn [length]. lia.
Qed.

Lemma bfilter_perm {A} (p : A -> bool) l1 l2 :
  l1 ≡ₚ l2 -> List.filter p l1 ≡ₚ List.filter p l2.
Proof.
  induction 1 as [| x l1 l2 H IH | x y l | l1 l2 l3 H1 IH1 H2 IH2]; cbn.
  - done.
  - destruct (p x); by rewrite IH.
  - destruct (p x), (p y); try done. apply perm_swap.
  - by etransitivity.
Qed.

(** The rows pulled and the rows left are a partition. *)
Lemma partition_size (s : Z) (rows : gmap Z Row) :
  (size (filter (fun pr => references s (snd pr) = false) rows) +
   length (map snd (List.filter (fun pr => references s (snd pr)) (ascending rows))) = size rows)%nat.
Proof.
  rewrite length_map, (bfilter_perm _ _ _ (ascending_perm rows)).
  induction rows as [|k r rows Hk IH] using map_ind; [done |].
  rewrite map_filter_insert, (bfilter_perm _ _ _ (map_to_list_insert rows k r Hk)).
  cbn [List.filter snd]. rewrite map_size_insert_None by done.
  destruct (references s r) eqn:E.
  - rewrite decide_False by done. rewrite delete_id by done. cbn [length]. lia.
  - rewrite decide_True by done.
    rewrite map_size_insert_None; [lia |]. apply map_lookup_filter_None. by left.
Qed.

(** ** Deliveries *)

(** The members a delivery never touches. *)
Definition same_frame (d d' : SwDecoder) : Prop :=
  cfg_ d' = cfg_ d /\ horizon_ d' = horizon_ d /\ have_seq_ d' = have_seq_ d /\
  newest_v_ d' = newest_v_ d /\ base_ d' = base_ d /\ wmk_ d' = wmk_ d /\
  eps_ d' = eps_ d /\ arr_ d' = arr_ d /\ repair_window_hwm_ d' = repair_window_hwm_ d.

Definition n_known_by_any (d : SwDecoder) : Z :=
  cnt_ d syms_delivered + cnt_ d syms_recovered + cnt_ d syms_retx.

(** [vs] are delivered, in that order, between [d] and [d']. *)
Record delivered (d d' : SwDecoder) (vs : list Z) (out out' : list (list Z)) : Prop := {
  dl_frame : same_frame d d';
  dl_known : forall v, is_Some (known_ d' !! v) <-> is_Some (known_ d !! v) \/ v ∈ vs;
  dl_new : Forall (fun v => known_ d !! v = None /\ live_floor d <= v) vs;
  dl_nodup : NoDup vs;
  dl_out : out' = out ++ concat (map (fun v => pkts_of (srcv v)) vs);
  dl_seqs : length (last_out_seqs_ d) = length out ->
    last_out_seqs_ d' = last_out_seqs_ d ++
      concat (map (fun v => replicate (length (pkts_of (srcv v))) (u32 v)) vs);
  dl_count : n_known_by_any d' = n_known_by_any d + Z.of_nat (length vs);
  dl_other : forall c, c = syms_abandoned \/ c = syms_abandoned_stale \/ c = resets ->
    cnt_ d' c = cnt_ d c;
}.

Lemma same_frame_refl d : same_frame d d.
Proof. by repeat split. Qed.

Lemma same_frame_trans d1 d2 d3 : same_frame d1 d2 -> same_frame d2 d3 -> same_frame d1 d3.
Proof. unfold same_frame. intros. split_all; congruence. Qed.

Lemma same_frame_floor d d' : same_frame d d' -> live_floor d' = live_floor d.
Proof. unfold same_frame, live_floor. intros. split_all. congruence. Qed.

Lemma delivered_nil d out : delivered d d [] out out.
Proof.
  constructor; try done.
  - intros v. split; [by left | intros [?|H]; [done | by apply not_elem_of_nil in H]].
  - constructor.
  - cbn. by rewrite app_nil_r.
  - intros _. cbn. by rewrite app_nil_r.
  - cbn. lia.
Qed.

Lemma concat_length_map (vs : list Z) :
  length (concat (map (fun v => replicate (length (pkts_of (srcv v))) (u32 v)) vs)) =
  length (concat (map (fun v => pkts_of (srcv v)) vs)).
Proof.
  induction vs as [|v vs IH]; [done |]. cbn [map concat].
  by rewrite !length_app, length_replicate, IH.
Qed.

Lemma delivered_trans d1 d2 d3 vs1 vs2 o1 o2 o3 :
  delivered d1 d2 vs1 o1 o2 -> delivered d2 d3 vs2 o2 o3 -> delivered d1 d3 (vs1 ++ vs2) o1 o3.
Proof.
  intros [F1 K1 N1 D1 O1 S1 C1 X1] [F2 K2 N2 D2 O2 S2 C2 X2].
  assert (Hnew : forall v, v ∈ vs2 -> known_ d1 !! v = None /\ (v ∉ vs1) /\ live_floor d1 <= v).
  { intros v Hv. rewrite Forall_forall in N2. destruct (N2 v Hv) as [Hk Hf].
    rewrite (same_frame_floor _ _ F1) in Hf.
    assert (Hn : not (is_Some (known_ d2 !! v))) by (rewrite Hk; by intros [? ?]).
    rewrite K1 in Hn. split; [| tauto]. destruct (known_ d1 !! v) eqn:E; [| done].
    exfalso. apply Hn. left. eauto. }
  constructor.
  - by eapply same_frame_trans.
  - intros v. rewrite K2, K1, elem_of_app. tauto.
  - apply Forall_app. split; [done |]. apply Forall_forall. intros v Hv.
    destruct (Hnew v Hv) as (? & ? & ?). done.
  - apply NoDup_app. split; [done |]. split; [| done].
    intros v H1 H2. by destruct (Hnew v H2) as (_ & ? & _).
  - rewrite O2, O1, map_app, concat_app. by rewrite app_assoc.
  - intros Hl. rewrite S2, S1, map_app, concat_app, app_assoc; [done | done |].
    rewrite S1 by done. rewrite O1, !length_app, Hl, concat_length_map. lia.
  - rewrite C2, C1, length_app. lia.
  - intros c Hc. rewrite X2, X1; done.
Qed.

(** The rows [ingest] pulls satisfy what re-insertion needs. *)
Lemma pulled_rows d s :
  dec_inv d -> 
  Forall (pulled (fun k => known_ d !! k = None /\ k <> s) s)
    (map snd (List.filter (fun pr => references s (snd pr)) (ascending (rows_ d)))).
Proof.
  intros [_ _ Hr Hu _ _]. apply Forall_forall. intros r Hin.
  apply list_elem_of_In, in_map_iff in Hin as ([p r'] & <- & Hin).
  apply filter_In in Hin as [Hin Href]. apply list_elem_of_In, elem_of_ascending in Hin.
  cbn in *. unfold references in Href. apply bool_decide_eq_true in Href.
  destruct (Hr p r' Hin) as (Ht & Hn & _). split; [done |]. split; [done |]. split; [done |].
  intros k Hk Hne. split; [by eapply Hu | done].
Qed.

(** One symbol of the queue, delivered. *)
Definition after_delivery (d : SwDecoder) (s : Z) (out : list (list Z)) (o : Origin)
    (rows : gmap Z Row) : SwDecoder :=
  let d1 := deliver d s (pkts_of (srcv s)) (out ++ pkts_of (srcv s)) o in
  set_symbols d1 (<[s := srcv s]> (known_ d1)) rows (recovered_await_src_ d1) (retx_await_src_ d1).

Lemma after_delivery_ok d s out o rows :
  dec_inv d -> known_ d !! s = None -> live_floor d <= s -> rows_held ss srcv rows ->
  (forall p e k, rows !! p = Some e -> is_Some (coeffs e !! k) -> known_ d !! k = None /\ k <> s) ->
  dec_inv (after_delivery d s out o rows) /\
  delivered d (after_delivery d s out o rows) [s] out (out ++ pkts_of (srcv s)).
Proof.
  intros [Hss Hk Hr Hu Ha Hd] Hs Hf Hrows HP.
  assert (Hnr : (s ∉ recovered_await_src_ d) /\ (s ∉ retx_await_src_ d)).
  { split; intros Hin.
    - destruct (Ha s) as [? ?]; [by left | congruence].
    - destruct (Ha s) as [? ?]; [by right | congruence]. }
  assert (E : known_ (after_delivery d s out o rows) = <[s := srcv s]> (known_ d) /\
    rows_ (after_delivery d s out o rows) = rows /\
    (recovered_await_src_ (after_delivery d s out o rows) =
       if origin_eqb o kRepair then {[s]} ∪ recovered_await_src_ d else recovered_await_src_ d) /\
    (retx_await_src_ (after_delivery d s out o rows) =
       if origin_eqb o kRetx then {[s]} ∪ retx_await_src_ d else retx_await_src_ d)).
  { by destruct o. }
  destruct E as (E1 & E2 & E3 & E4). split.
  - constructor.
    + by destruct o.
    + rewrite E1. by apply map_Forall_insert_2.
    + by rewrite E2.
    + rewrite E1, E2. intros p e k Hp Hkk. destruct (HP p e k Hp Hkk).
      by rewrite lookup_insert_ne.
    + rewrite E1, E3, E4. intros v Hv. destruct (decide (v = s)) as [-> |Hne].
      * rewrite lookup_insert_eq. eauto.
      * rewrite lookup_insert_ne by done. apply Ha. clear -Hv Hne. destruct o; cbn in Hv; set_solver.
    + rewrite E3, E4. clear -Hd Hnr. destruct o; cbn; set_solver.
  - constructor.
    + by destruct o.
    + intros v. rewrite E1, list_elem_of_singleton. destruct (decide (v = s)) as [-> |Hne].
      * rewrite lookup_insert_eq. split; [by right | eauto].
      * rewrite lookup_insert_ne by done. tauto.
    + by constructor.
    + by apply NoDup_singleton.
    + cbn. by rewrite app_nil_r.
    + intros Hl. cbn [map concat]. rewrite app_nil_r.
      assert (El : last_out_seqs_ (after_delivery d s out o rows) = last_out_seqs_ d ++
        replicate (length (out ++ pkts_of (srcv s)) - length (last_out_seqs_ d)) (u32 s))
        by (by destruct o).
      rewrite El, length_app, Hl. do 2 f_equal. lia.
    + unfold n_known_by_any. destruct o; cbn; repeat case_decide; try done; lia.
    + intros c Hc. destruct o; cbn; destruct Hc as [-> | [-> | ->]]; done.
Qed.

(** ** [ingest] ends and delivers only true symbols, each once *)

(** One turn of the loop on a symbol that is still wanted. *)
Lemma ingest_step fuel d s queue first origin out :
  dec_inv d -> queue_true queue -> known_ d !! s = None -> live_floor d <= s ->
  exists d1 queue1,
    ingest_loop (S fuel) d ((s, srcv s) :: queue) first origin out =
      ingest_loop fuel d1 queue1 false origin (out ++ pkts_of (srcv s)) /\
    dec_inv d1 /\ delivered d d1 [s] out (out ++ pkts_of (srcv s)) /\ queue_true queue1 /\
    (size (rows_ d1) + length queue1 <= size (rows_ d) + length queue)%nat.
Proof.
  intros Hi Hq Hk Hfl. cbn [ingest_loop].
  assert (Hskip : (s <? live_floor d) || is_known d s = false).
  { apply orb_false_iff. split; [by apply Z.ltb_ge |].
    unfold is_known. apply bool_decide_eq_false. rewrite Hk. by intros [? ?]. }
  pose proof (di_ss d Hi) as Hss. rewrite Hskip, Hss.
  rewrite unpack_total by apply srcv_len. cbn [mbind option_bind].
  set (o := if first then origin else if origin_eqb origin kRetx then kRetx else kRepair).
  set (rest := filter (fun pr => references s (snd pr) = false) (rows_ d)).
  assert (E : forall rows, rows_ (deliver d s (pkts_of (srcv s)) (out ++ pkts_of (srcv s)) o) = rows_ d /\
    ss_of (deliver d s (pkts_of (srcv s)) (out ++ pkts_of (srcv s)) o) = ss /\
    rows_ (after_delivery d s out o rows) = rows) by (by destruct o).
  destruct (E ∅) as (E1 & E2 & _). rewrite E1, E2. fold rest.
  assert (Hrest : forall p r, rest !! p = Some r -> rows_ d !! p = Some r /\ references s r = false).
  { intros p r H. by apply map_lookup_filter_Some in H. }
  destruct (reinsert_ok (fun k => known_ d !! k = None /\ k <> s) s
    (map snd (List.filter (fun pr => references s (snd pr)) (ascending (rows_ d)))) rest queue)
    as (rows' & queue' & -> & Hrows' & HP' & Hq' & Hsz); [by apply pulled_rows | | | done |].
  - intros p r Hp. apply Hrest in Hp as [Hp _]. by apply (di_rows d Hi).
  - intros p e k Hp Hkk. apply Hrest in Hp as [Hp Href]. split; [by apply (di_unknown d Hi p e) |].
    intros ->. unfold references in Href. by apply bool_decide_eq_false in Href.
  - destruct (after_delivery_ok d s out o rows' Hi Hk Hfl Hrows' HP') as [Hi' Hd'].
    exists (after_delivery d s out o rows'), queue'. split; [done |]. split; [done |].
    split; [done |]. split; [done |]. destruct (E rows') as (_ & _ & ->).
    pose proof (partition_size s (rows_ d)) as Hpart. fold rest in Hpart. lia.
Qed.

Lemma ingest_loop_ok fuel d queue first origin out :
  dec_inv d -> queue_true queue -> (size (rows_ d) + length queue < fuel)%nat ->
  exists d' vs out', ingest_loop fuel d queue first origin out = Some (d', out') /\
    dec_inv d' /\ delivered d d' vs out out'.
Proof.
  revert d queue first out. induction fuel as [|fuel IH]; intros d queue first out Hi Hq Hf; [lia |].
  destruct queue as [|[s y] queue].
  { exists d, [], out. split; [done |]. split; [done | apply delivered_nil]. }
  apply Forall_cons in Hq as [Hy Hq]. cbn in Hy. subst y. cbn [length] in *.
  destruct ((s <? live_floor d) || is_known d s) eqn:Hskip.
  { cbn [ingest_loop]. rewrite Hskip. apply IH; [done | done | lia]. }
  apply orb_false_iff in Hskip as [Hfl%Z.ltb_ge Hk].
  unfold is_known in Hk. apply bool_decide_eq_false, eq_None_not_Some in Hk.
  destruct (ingest_step fuel d s queue first origin out Hi Hq Hk Hfl)
    as (d1 & q1 & -> & Hi1 & Hd1 & Hq1 & Hsz).
  destruct (IH d1 q1 false (out ++ pkts_of (srcv s))) as (d' & vs & out' & Heq & Hi2 & Hd2);
    [done | done | lia |].
  exists d', (s :: vs), out'. split; [exact Heq |]. split; [done |].
  by apply (delivered_trans d d1 d' [s] vs out _ out' Hd1 Hd2).
Qed.

(** The symbol handed to [ingest] is delivered first, unless it is stale or already known. *)
Lemma ingest_ok d v origin out :
  dec_inv d ->
  exists d' vs out', ingest d v (srcv v) origin out = Some (d', out') /\
    dec_inv d' /\ delivered d d' vs out out' /\
    (known_ d !! v = None -> live_floor d <= v -> head vs = Some v).
Proof.
  intros Hi. destruct (decide (known_ d !! v = None /\ live_floor d <= v)) as [[Hk Hfl]|Hno].
  - destruct (ingest_step (S (size (rows_ d))) d v [] true origin out)
      as (d1 & q1 & Hst & Hi1 & Hd1 & Hq1 & Hsz); [done | constructor | done | done |].
    destruct (ingest_loop_ok (S (size (rows_ d))) d1 q1 false origin (out ++ pkts_of (srcv v)))
      as (d2 & vs2 & o2 & Heq2 & Hi2 & Hd2); [done | done | cbn [length] in Hsz; lia |].
    exists d2, (v :: vs2), o2. unfold ingest. cbn [Nat.add]. rewrite Hst. split; [done |].
    split; [done |]. split; [| done]. by apply (delivered_trans d d1 d2 [v] vs2 out _ o2 Hd1 Hd2).
  - destruct (ingest_loop_ok (2 + size (rows_ d)) d [(v, srcv v)] true origin out)
      as (d' & vs & out' & Heq & Hi' & Hd'); [done | by constructor | cbn; lia |].
    exists d', vs, out'. split_all; try done. intros. by destruct Hno.
Qed.

Lemma ingest_all_ok d solved out :
  dec_inv d -> queue_true solved ->
  exists d' vs out', ingest_all d solved out = Some (d', out') /\
    dec_inv d' /\ delivered d d' vs out out' /\
    (forall s, s ∈ solved.*1 -> live_floor d <= s -> is_Some (known_ d' !! s)).
Proof.
  intros Hi Hq. revert d out Hi. induction Hq as [|[s y] solved Hy Hq IH]; intros d out Hi.
  { exists d, [], out. split; [done |]. split; [done |]. split; [apply delivered_nil |].
    intros s Hs. by apply not_elem_of_nil in Hs. }
  cbn in Hy. subst y. cbn [ingest_all].
  destruct (ingest_ok d s kRepair out Hi) as (d1 & vs1 & o1 & -> & Hi1 & Hd1 & Hs1).
  cbn [mbind option_bind]. destruct (IH d1 o1 Hi1) as (d2 & vs2 & o2 & -> & Hi2 & Hd2 & Hs2).
  exists d2, (vs1 ++ vs2), o2. split; [done |]. split; [done |].
  split; [by eapply delivered_trans |].
  intros t Ht Hf. apply elem_of_cons in Ht as [-> | Ht].
  - apply (dl_known _ _ _ _ _ Hd2). left. destruct (known_ d !! s) eqn:E.
    + apply (dl_known _ _ _ _ _ Hd1). left. eauto.
    + apply (dl_known _ _ _ _ _ Hd1). right.
      by apply head_Some_elem_of, Hs1.
  - apply Hs2; [done |]. by rewrite (same_frame_floor _ _ (dl_frame _ _ _ _ _ Hd1)).
Qed.

(** ** The rest of the state does not matter to the invariant *)

Definition same_symbols (d d' : SwDecoder) : Prop :=
  cfg_ d' = cfg_ d /\ known_ d' = known_ d /\ rows_ d' = rows_ d /\
  recovered_await_src_ d' = recovered_await_src_ d /\ retx_await_src_ d' = retx_await_src_ d.

Lemma dec_inv_same d d' : same_symbols d d' -> dec_inv d -> dec_inv d'.
Proof.
  intros (H1 & H2 & H3 & H4 & H5) [Hss Hk Hr Hu Ha Hd].
  constructor; rewrite ?H1, ?H2, ?H3, ?H4, ?H5; done.
Qed.

Lemma dec_inv_reset d v : dec_inv d -> dec_inv (reset_state d v).
Proof.
  intros [Hss _ _ _ _ _]. constructor; cbn; try done.
  intros w [H|H]; by apply elem_of_empty in H.
Qed.

(** [advance] evicts: what it keeps is unchanged, what it drops lies below the new floor. *)
Lemma advance_spec d c :
  newest_v_ (advance d c) = Z.max (newest_v_ d) c /\ cfg_ (advance d c) = cfg_ d /\
  horizon_ (advance d c) = horizon_ d /\ last_out_seqs_ (advance d c) = last_out_seqs_ d /\
  n_known_by_any (advance d c) = n_known_by_any d /\
  cnt_ (advance d c) resets = cnt_ d resets /\ have_seq_ (advance d c) = have_seq_ d /\
  wmk_ (advance d c) = wmk_ d /\ arr_ (advance d c) = arr_ d.
Proof.
  unfold advance. destruct (Z.leb_spec c (newest_v_ d)).
  { rewrite Z.max_l by done. done. }
  rewrite Z.max_r by lia. cbn zeta. destruct (_ <=? base_ _); [done |].
  destruct (base_ _ <? _); done.
Qed.

(** What [advance] leaves of the symbol state, in one equation per member. *)
Lemma advance_symbols d c :
  same_symbols d (advance d c) \/
  exists nb, nb = live_floor (advance d c) /\ base_ (advance d c) = nb /\
    known_ (advance d c) = filter (fun kv => nb <= fst kv) (known_ d) /\
    rows_ (advance d c) = filter (fun kv => nb <= fst kv) (rows_ d) /\
    recovered_await_src_ (advance d c) = filter (fun s => nb <= s) (recovered_await_src_ d) /\
    retx_await_src_ (advance d c) = filter (fun s => nb <= s) (retx_await_src_ d).
Proof.
  unfold advance. destruct (c <=? newest_v_ d); [by left |]. cbn zeta.
  destruct (_ <=? base_ _); [by left |]. right. eexists. split; [reflexivity |].
  destruct (base_ _ <? _); done.
Qed.

Lemma advance_inv d c : dec_inv d -> dec_inv (advance d c).
Proof.
  intros Hi. destruct (advance_symbols d c) as [Hs | (nb & _ & _ & Hk & Hr & Hrec & Hret)].
  { by eapply dec_inv_same. }
  destruct Hi as [Hss Hkn Hrows Hu Ha Hd]. destruct (advance_spec d c) as (_ & Hcfg & _).
  constructor.
  - by rewrite Hcfg.
  - rewrite Hk. intros v y Hv. apply map_lookup_filter_Some in Hv as [Hv _]. by apply Hkn.
  - rewrite Hr. intros p r Hp. apply map_lookup_filter_Some in Hp as [Hp _]. by apply Hrows.
  - rewrite Hk, Hr. intros p r k Hp Hkk. apply map_lookup_filter_Some in Hp as [Hp _].
    apply map_lookup_filter_None. left. by apply (Hu p r).
  - rewrite Hk, Hrec, Hret. intros v Hv. rewrite !elem_of_filter in Hv.
    destruct (Ha v) as [y Hy]; [tauto |].
    exists y. apply map_lookup_filter_Some. split; [done | cbn; tauto].
  - rewrite Hrec, Hret. clear -Hd. set_solver.
Qed.

Lemma advance_known d c v :
  live_floor (advance d c) <= v -> known_ (advance d c) !! v = known_ d !! v.
Proof.
  intros Hv. destruct (advance_symbols d c) as [(_ & -> & _) | (nb & -> & _ & -> & _)]; [done |].
  destruct (known_ d !! v) as [y|] eqn:E.
  - by apply map_lookup_filter_Some.
  - apply map_lookup_filter_None. by left.
Qed.

(** ** Building a repair's row *)

(** The full combination over a window, as a list of scaled symbols. *)
Definition lin_list (l : list (Z * Z)) (g : Z -> Z) : Z :=
  foldr (fun sc acc => mul (snd sc) (g (fst sc)) ⊕ acc) 0 l.

Lemma lin_list_cons s c l g : lin_list ((s, c) :: l) g = mul c (g s) ⊕ lin_list l g.
Proof. done. Qed.

Lemma row_steps_ok d l m p :
  dec_inv d -> NoDup l.*1 -> Forall (fun sc => is_byte (snd sc) /\ snd sc <> 0) l ->
  nz_coeffs m -> (forall s, s ∈ l.*1 -> m !! s = None) ->
  (forall k, is_Some (m !! k) -> known_ d !! k = None) -> length p = ss ->
  let mp := foldl (row_step ss (known_ d)) (m, p) l in
  nz_coeffs (fst mp) /\ length (snd mp) = ss /\
  (forall k, is_Some (fst mp !! k) -> known_ d !! k = None) /\
  (forall k, is_Some (fst mp !! k) <-> is_Some (m !! k) \/ (k ∈ l.*1 /\ known_ d !! k = None)) /\
  forall j, (j < ss)%nat ->
    nth j (snd mp) 0 ⊕ lin (fst mp) (byte_at srcv j) =
    nth j p 0 ⊕ lin m (byte_at srcv j) ⊕ lin_list l (byte_at srcv j).
Proof.
  intros Hi. revert m p. induction l as [|[s c] l IH]; intros m p Hnd Hc Hm Hfresh Hunk Hp.
  { cbn. split; [done |]. split; [done |]. split; [done |]. split.
    - intros k. split; [by left | intros [?|[H _]]; [done | by apply not_elem_of_nil in H]].
    - intros j Hj. by rewrite Z.lxor_0_r. }
  apply NoDup_cons in Hnd as [Hs Hnd]. apply Forall_cons in Hc as [[Hcb Hc0] Hc]. cbn in Hcb, Hc0.
  cbn [foldl row_step]. change ((s, c) :: l).*1 with (s :: l.*1) in *.
  destruct (known_ d !! s) as [y|] eqn:Ey.
  - assert (Hy : y = srcv s) by (by apply (di_known d Hi)). subst y.
    rewrite lincomb_full by (done || apply srcv_len).
    destruct (IH m (axpy c p (srcv s))) as (H1 & H2 & H3 & H4 & H5); try done.
    + intros k Hk. apply Hfresh. by right.
    + rewrite axpy_length by (rewrite srcv_len; done). done.
    + split; [done |]. split; [done |]. split; [done |]. split.
      * intros k. rewrite H4, elem_of_cons. split; [tauto |].
        intros [?|[[->|?] ?]]; [by left | congruence | by right].
      * intros j Hj. rewrite H5 by done. rewrite axpy_nth by (rewrite ?srcv_len; lia).
        rewrite lin_list_cons. change (byte_at srcv j s) with (nth j (srcv s) 0). apply Z.bits_inj'.
        intros n _. rewrite !Z.lxor_spec. btauto.
  - rewrite (Hfresh s) by (by left).
    destruct (IH (<[s := c]> m) p) as (H1 & H2 & H3 & H4 & H5); try done.
    + by apply map_Forall_insert_2.
    + intros k Hk. rewrite lookup_insert_ne by (intros ->; done). apply Hfresh. by right.
    + intros k Hk. destruct (decide (k = s)) as [->|Hne]; [done |].
      rewrite lookup_insert_ne in Hk by done. by apply Hunk.
    + split; [done |]. split; [done |]. split; [done |]. split.
      * intros k. rewrite H4, elem_of_cons. destruct (decide (k = s)) as [->|Hne].
        -- rewrite lookup_insert_eq. split; [intros _; right; auto | intros _; left; eauto].
        -- rewrite lookup_insert_ne by done. tauto.
      * intros j Hj. rewrite H5 by done.
        rewrite lin_insert by (apply Hfresh; by left).
        rewrite lin_list_cons. apply Z.bits_inj'. intros n _. rewrite !Z.lxor_spec. btauto.
Qed.

(** ** Genuine envelopes *)

(** A repair symbol as the sender builds it: the combination of the window's symbols. *)
Definition repair_symbol (start : Z) (wl : nat) (key : Z) : list Z :=
  lincomb_rows (map (fun i => src (u32 (start + Z.of_nat i))) (List.seq 0 wl))
    (repair_coeffs key wl) ss.

(** An envelope the sender may have emitted.  Others (a foreign header, another symbol
    size) are refused whatever they carry. *)
Definition genuine (env : list Z) : Prop :=
  bytes_ok env /\
  forall h, parse_header env = Some (Some h) ->
    SwWire.symbol_size h = Z.of_nat ss -> length env = (kSwHeaderLen + ss)%nat ->
    drop kSwHeaderLen env =
    if repair h then repair_symbol (seq h) (Z.to_nat (window_len h)) (repair_key h)
    else src (seq h).

Lemma genuine_packed h y :
  header_typed h -> header_consistent h -> bytes_ok y ->
  y = (if repair h then repair_symbol (seq h) (Z.to_nat (window_len h)) (repair_key h)
       else src (seq h)) ->
  genuine (pack_header h ++ y).
Proof.
  intros Ht Hc Hb Hy. split.
  - apply Forall_app. split; [by apply pack_header_bytes | done].
  - intros h'. rewrite parse_pack_header by done. by intros [= <-].
Qed.

Lemma lincomb_rows_bytes rows cs len : bytes_ok (lincomb_rows rows cs len).
Proof.
  unfold lincomb_rows.
  assert (H : bytes_ok (replicate len 0)) by (apply Forall_replicate; mlia).
  revert H. generalize (replicate len 0). induction (zip rows cs) as [|[r c] l IH]; intros a Ha; [done |].
  cbn [foldl]. apply IH. unfold lincomb. destruct (c =? 0); [done |].
  clear IH l. revert a r Ha. induction len as [|len IH]; intros [|x a] [|y r] Ha; cbn; try done.
  apply Forall_cons in Ha as [Hx Ha]. constructor; [| by apply IH].
  destruct (y =? 0); [done |]. pose proof (exp_at_is_byte (log_at c + log_at y)). width.
Qed.

Lemma foldl_xor_foldr (l : list (list Z * Z)) j x :
  foldl (fun x '(r, c) => x ⊕ mul c (nth j r 0)) x l =
  x ⊕ foldr (fun rc acc => mul (snd rc) (nth j (fst rc) 0) ⊕ acc) 0 l.
Proof.
  revert x. induction l as [|[r c] l IH]; intros x; cbn [foldl foldr fst snd].
  - by rewrite Z.lxor_0_r.
  - by rewrite IH, Z.lxor_assoc.
Qed.

(** The repair symbol in terms of virtual sequence numbers. *)
Lemma repair_symbol_lin start v wl key j :
  u32 v = start -> (j < ss)%nat ->
  length (repair_symbol start wl key) = ss /\
  nth j (repair_symbol start wl key) 0 =
  lin_list (zip (window_seqs v wl) (repair_coeffs key wl)) (byte_at srcv j).
Proof.
  intros Hv Hj. unfold repair_symbol.
  rewrite lincomb_rows_spec.
  2: { apply Forall_map, Forall_forall. intros i _. rewrite src_len. split; [lia | apply src_bytes]. }
  rewrite length_map, length_seq. split; [done |].
  rewrite (nth_indep _ 0 (rows_sum (map (fun i => src (u32 (start + Z.of_nat i))) (List.seq 0 wl))
    (repair_coeffs key wl) 0)) by (by rewrite length_map, length_seq).
  rewrite map_nth, seq_nth by done. cbn [Nat.add]. unfold rows_sum.
  rewrite foldl_xor_foldr, Z.lxor_0_l. unfold window_seqs, lin_list.
  generalize (List.seq 0 wl) (repair_coeffs key wl). intros l.
  induction l as [|i l IH]; intros [|c cs]; try done. cbn [map zip zip_with foldr fst snd].
  rewrite IH. do 2 f_equal. unfold byte_at, srcv. do 2 f_equal. subst start. mlia.
Qed.

Lemma window_seqs_nodup v wl : (wl <= 255)%nat -> NoDup (window_seqs v wl).
Proof.
  intros Hw. unfold window_seqs. apply NoDup_fmap_2_strong; [| apply NoDup_seq].
  intros i j Hi%elem_of_seq Hj%elem_of_seq H. mlia.
Qed.

Lemma window_seqs_elem v wl s :
  s ∈ window_seqs v wl <-> exists i, (i < wl)%nat /\ s = u64 (v + Z.of_nat i).
Proof.
  unfold window_seqs. rewrite list_elem_of_fmap. setoid_rewrite elem_of_seq.
  split; intros (i & H1 & H2); exists i; split_all; try done; lia.
Qed.

Lemma zip_fst {A B} (l : list A) (k : list B) : length l = length k -> (zip l k).*1 = l.
Proof. intros. apply fst_zip. lia. Qed.

(** The row built from a genuine repair is true, covers unknown symbols only, and all the
    unknown symbols of its window. *)
Lemma build_row_ok d ws wl key start now :
  dec_inv d -> u32 ws = start -> (wl <= 255)%nat ->
  let r := build_row d ws wl key (repair_symbol start wl key) now in
  row_true ss srcv r /\ nz_coeffs (coeffs r) /\
  forall k, is_Some (coeffs r !! k) <-> k ∈ window_seqs ws wl /\ known_ d !! k = None.
Proof.
  intros Hi Hws Hwl. unfold build_row. rewrite (di_ss d Hi).
  assert (Hlen : length (window_seqs ws wl) = length (repair_coeffs key wl)).
  { unfold window_seqs. by rewrite length_map, length_seq, repair_coeffs_length. }
  assert (Hpl : length (repair_symbol start wl key) = ss).
  { unfold repair_symbol. rewrite lincomb_rows_spec.
    - by rewrite length_map, length_seq.
    - apply Forall_map, Forall_forall. intros i _. rewrite src_len. split; [lia | apply src_bytes]. }
  destruct (row_steps_ok d (zip (window_seqs ws wl) (repair_coeffs key wl)) ∅
    (repair_symbol start wl key) Hi) as (H1 & H2 & H3 & H4 & H5); try done.
  - rewrite zip_fst by done. by apply window_seqs_nodup.
  - apply Forall_forall. intros [s c] Hin. apply elem_of_zip in Hin as [_ Hc].
    pose proof (repair_coeffs_nz key wl) as Hnz. rewrite Forall_forall in Hnz.
    specialize (Hnz c Hc). cbn. unfold in_width. lia.
  - intros k [? Hk]. by rewrite lookup_empty in Hk.
  - destruct (foldl _ _ _) as [m p]. cbn [fst snd] in *. cbn [coeffs payload].
    split; [split; [done |] | split].
    + intros j Hj. specialize (H5 j Hj). rewrite lin_empty, Z.lxor_0_r in H5.
      destruct (repair_symbol_lin start ws wl key j Hws Hj) as [_ E].
      rewrite E, Z.lxor_nilpotent in H5. by apply Z.lxor_eq in H5.
    + done.
    + intros k. rewrite H4, zip_fst by done. split; [| by right].
      intros [[? Hk]|?]; [by rewrite lookup_empty in Hk | done].
Qed.

(** The admission of a genuine repair. *)
Lemma admit_repair_ok d ws wl key start now :
  dec_inv d -> u32 ws = start -> (wl <= 255)%nat ->
  exists d' vs out, admit_repair d ws wl key (repair_symbol start wl key) now = Some (d', out) /\
    dec_inv d' /\ delivered d d' vs [] out.
Proof.
  intros Hi Hws Hwl. unfold admit_repair.
  destruct (build_row_ok d ws wl key start now Hi Hws Hwl) as (Ht & Hn & Hk).
  rewrite (di_ss d Hi).
  destruct (insert_row_ok ss srcv srcv_len srcv_bytes (fun k => known_ d !! k = None) (rows_ d)
    (build_row d ws wl key (repair_symbol start wl key) now)) as (rows & solved & -> & Hins);
    [apply (di_rows d Hi) | apply (di_unknown d Hi) | done | done | intros k; rewrite Hk; tauto |].
  cbn [mbind option_bind].
  destruct (inserted_ok _ _ _ _ (di_rows d Hi) (di_unknown d Hi) Hins) as (Hr & HP & Hq & _).
  assert (Hi' : dec_inv (set_rows d rows)).
  { destruct Hi. by constructor. }
  destruct (ingest_all_ok (set_rows d rows) solved [] Hi' Hq) as (d' & vs & out & -> & Hi2 & Hd & _).
  exists d', vs, out. split; [done |]. split; [done |].
  destruct Hd as [F K N D O S C X]. by constructor.
Qed.

(** ** The whole of [add_symbol] *)

Lemma unwrap_u32 d s : in_width 32 s -> u32 (unwrap d s) = s.
Proof.
  intros Hs. unfold unwrap. set (n := newest_v_ d).
  assert (E : u32 (u64 (n + sext 32 (s - u32 n))) = u32 (n + sext 32 (s - u32 n))) by mlia.
  rewrite E. unfold sext. cbn zeta. case_Zb; mlia.
Qed.

(** What happens to the state before anything is delivered. *)
Record evolves (d d2 : SwDecoder) : Prop := {
  ev_count : n_known_by_any d2 = n_known_by_any d;
  ev_seqs : last_out_seqs_ d2 = last_out_seqs_ d;
  ev_known : (cnt_ d2 resets = cnt_ d resets /\
              forall v, live_floor d2 <= v -> known_ d2 !! v = known_ d !! v) \/
             cnt_ d2 resets = cnt_ d resets + 1;
}.

(** The same before any eviction. *)
Record steady (d d1 : SwDecoder) : Prop := {
  st_count : n_known_by_any d1 = n_known_by_any d;
  st_seqs : last_out_seqs_ d1 = last_out_seqs_ d;
  st_known : (cnt_ d1 resets = cnt_ d resets /\ known_ d1 = known_ d) \/
             cnt_ d1 resets = cnt_ d resets + 1;
}.

Lemma steady_evolves d d1 : steady d d1 -> evolves d d1.
Proof.
  intros [Hc Hs Hk]. constructor; [done.. |]. destruct Hk as [[? Hk]|?]; [left | by right].
  split; [done |]. intros. by rewrite Hk.
Qed.

Lemma evolves_advance d d1 c : steady d d1 -> evolves d (advance d1 c).
Proof.
  intros [Hc Hs Hk]. destruct (advance_spec d1 c) as (_ & _ & _ & E1 & E2 & E3 & _).
  constructor; [congruence.. |]. rewrite E3.
  destruct Hk as [[? Hk]|?]; [left | by right]. split; [done |].
  intros v Hv. rewrite advance_known by done. by rewrite Hk.
Qed.

(** One accepted step: every packet handed up is a packet of a sent symbol, with its
    sequence number; no symbol is handed up twice. *)
Definition sound_step (d d' : SwDecoder) (out : list (list Z)) : Prop :=
  dec_inv d' /\ exists vs,
    out = concat (map (fun v => pkts_of (srcv v)) vs) /\
    last_out_seqs_ d' = concat (map (fun v => replicate (length (pkts_of (srcv v))) (u32 v)) vs) /\
    NoDup vs /\ Forall (fun v => is_Some (known_ d' !! v)) vs /\
    (cnt_ d' resets = cnt_ d resets -> Forall (fun v => known_ d !! v = None) vs) /\
    n_known_by_any d' = n_known_by_any d + Z.of_nat (length vs).

Lemma sound_delivered d d2 d' vs out :
  evolves d d2 -> last_out_seqs_ d = [] -> dec_inv d' -> delivered d2 d' vs [] out ->
  sound_step d d' out.
Proof.
  intros [Hc Hs Hk] Hnil Hi [F K N D O S C X]. split; [done |]. exists vs.
  rewrite Hs, Hnil in S. rewrite O, C, Hc, S by done.
  split; [done |]. split; [done |]. split; [done |]. split; [| split; [| done]].
  - apply Forall_forall. intros v Hv. apply K. by right.
  - rewrite (X resets) by auto. intros Hr. apply Forall_forall. intros v Hv.
    rewrite Forall_forall in N. destruct (N v Hv) as [Hn Hf].
    destruct Hk as [[_ Hk]|Hk]; [by rewrite <- Hk | lia].
Qed.

Lemma sound_dropped d d' :
  evolves d d' -> last_out_seqs_ d = [] -> dec_inv d' -> sound_step d d' [].
Proof.
  intros He Hnil Hi. apply (sound_delivered d d' d' []); [done.. |]. apply delivered_nil.
Qed.

Lemma source_prologue_ok d h b clean retx :
  dec_inv d -> in_width 32 (seq h) ->
  let '(d1, v) := source_prologue d h b clean retx in
  dec_inv d1 /\ steady d d1 /\ u32 v = seq h.
Proof.
  intros Hi Hw. unfold source_prologue.
  set (d0 := if have_seq_ d then d else _).
  assert (H0 : same_symbols d d0 /\ cnt_ d0 = cnt_ d /\ last_out_seqs_ d0 = last_out_seqs_ d)
    by (subst d0; by destruct (have_seq_ d)).
  destruct H0 as (Hs0 & Hc0 & Hl0). pose proof (dec_inv_same _ _ Hs0 Hi) as Hi0.
  assert (Hk0 : known_ d0 = known_ d) by apply Hs0.
  set (far := _ || _). cbn zeta.
  set (d1 := if far then reset_state d0 _ else d0).
  set (v := if far then newest_v_ d1 else _).
  assert (H1 : dec_inv d1 /\ steady d d1 /\ u32 v = seq h).
  { subst d1 v. clearbody d0. destruct far.
    - split; [by apply dec_inv_reset |]. split; [| cbn; unfold kAnchor; mlia].
      constructor; cbn; unfold n_known_by_any; cbn; rewrite ?Hc0; [| done | by right].
      repeat case_decide; done.
    - split; [done |]. split; [| by apply unwrap_u32].
      constructor; unfold n_known_by_any; rewrite ?Hc0; [done.. | by left]. }
  clearbody d1 v. destruct H1 as (H1 & [Hc1 Hl1 Hk1] & H3). destruct retx.
  - split; [by eapply dec_inv_same, H1 |]. by split.
  - split; [by eapply dec_inv_same, H1 |]. by split.
Qed.

Lemma add_source_ok d h payload b clean retx :
  dec_inv d -> last_out_seqs_ d = [] -> in_width 32 (seq h) -> payload = src (seq h) ->
  exists d' out, add_source d h payload b clean retx = Some (d', out) /\ sound_step d d' out.
Proof.
  intros Hi Hnil Hw ->. pose proof (source_prologue_ok d h b clean retx Hi Hw) as Hp.
  unfold add_source. destruct (source_prologue d h b clean retx) as [d1 v].
  destruct Hp as (Hi1 & Hst & Hv). pose proof (steady_evolves _ _ Hst) as Hev.
  destruct (_ || _).
  - assert (Hdrop : forall d', evolves d d' -> dec_inv d' ->
      exists d2 out, Some (d', []) = Some (d2, out) /\ sound_step d d2 out).
    { intros d' He Hi'. eexists _, _. split; [done |]. by apply sound_dropped. }
    destruct Hev as [Ec Es Ek].
    assert (Hev' : forall c rec ret, c <> syms_delivered -> c <> syms_recovered -> c <> syms_retx ->
      c <> resets -> evolves d (bump (set_symbols d1 (known_ d1) (rows_ d1) rec ret) c 1)).
    { intros c rec ret N1 N2 N3 N4. constructor.
      - rewrite <- Ec. unfold n_known_by_any. cbn. by rewrite !decide_False by done.
      - by rewrite <- Es.
      - cbn. by rewrite decide_False by done. }
    assert (Hi' : forall c rec ret, rec ⊆ recovered_await_src_ d1 -> ret ⊆ retx_await_src_ d1 ->
      dec_inv (bump (set_symbols d1 (known_ d1) (rows_ d1) rec ret) c 1)).
    { intros c rec ret S1 S2. destruct Hi1 as [Hss Hkn Hrows Hu Ha Hd]. constructor; cbn; try done.
      - intros w Hw'. apply Ha. clear -S1 S2 Hw'. set_solver.
      - clear -S1 S2 Hd. set_solver. }
    destruct retx; [| destruct (bool_decide _); [| destruct (bool_decide _)]].
    + apply Hdrop; [by apply (Hev' _ (recovered_await_src_ d1) (retx_await_src_ d1)) | by apply Hi'].
    + apply Hdrop; [by apply Hev' | apply Hi'; clear; set_solver].
    + apply Hdrop; [by apply Hev' | apply Hi'; clear; set_solver].
    + apply Hdrop; [by apply (Hev' _ (recovered_await_src_ d1) (retx_await_src_ d1)) | by apply Hi'].
  - rewrite take_ge by (rewrite src_len, (di_ss d1 Hi1); done).
    rewrite <- Hv. change (src (u32 v)) with (srcv v).
    destruct (ingest_ok (advance d1 v) v (if retx then kRetx else kSource) [])
      as (d' & vs & out & -> & Hi' & Hd & _); [by apply advance_inv |].
    exists d', out. split; [done |].
    eapply sound_delivered; [by apply evolves_advance | done | done | exact Hd].
Qed.

Lemma add_repair_ok d h payload now b :
  dec_inv d -> last_out_seqs_ d = [] -> in_width 32 (seq h) -> in_width 8 (window_len h) ->
  payload = repair_symbol (seq h) (Z.to_nat (window_len h)) (repair_key h) ->
  exists d' out, add_repair d h payload now b = Some (d', out) /\ sound_step d d' out.
Proof.
  intros Hi Hnil Hw Hwl Hpay. unfold add_repair.
  assert (Hdrop : forall d' c, dec_inv d' -> evolves d d' -> c <> syms_delivered ->
    c <> syms_recovered -> c <> syms_retx -> c <> resets ->
    exists d2 out, Some (bump d' c 1, []) = Some (d2, out) /\ sound_step d d2 out).
  { intros d' c Hi' [Ec Es Ek] N1 N2 N3 N4. eexists _, _. split; [done |].
    apply sound_dropped; [| done | by eapply dec_inv_same, Hi'].
    constructor; [| by rewrite <- Es | cbn; by rewrite decide_False by done].
    rewrite <- Ec. unfold n_known_by_any. cbn. by rewrite !decide_False by done. }
  destruct (negb (have_seq_ d)).
  { apply Hdrop; try done. apply steady_evolves. constructor; [done | done | by left]. }
  cbn zeta. set (d0 := if repair_window_hwm_ d <? window_len h then _ else d).
  assert (H0 : same_symbols d d0 /\ steady d d0).
  { subst d0. destruct (_ <? _); (split; [done |]); constructor; try done; by left. }
  destruct H0 as [Hs0 Hst0]. pose proof (dec_inv_same _ _ Hs0 Hi) as Hi0.
  pose proof (unwrap_u32 d (seq h) Hw) as Hws. set (ws := unwrap d (seq h)) in *.
  clearbody d0. destruct (_ || _).
  { apply Hdrop; try done. by apply steady_evolves. }
  set (last := u64 (u64 (ws + window_len h) - 1)).
  set (d1 := set_wm d0 (repair_boundary (wmk_ d0) b last)).
  assert (Hst1 : steady d d1) by (destruct Hst0; by constructor).
  assert (Hi1 : dec_inv d1) by (by eapply dec_inv_same, Hi0).
  clearbody d1. pose proof (evolves_advance d d1 last Hst1) as Hev.
  pose proof (advance_inv d1 last Hi1) as Hi2.
  set (d2 := set_arr (advance d1 last) _).
  assert (Hev2 : evolves d d2) by (destruct Hev; by constructor).
  assert (Hi2' : dec_inv d2) by (by eapply dec_inv_same, Hi2).
  clearbody d2. destruct (ws <? live_floor d2); [by apply Hdrop |].
  destruct (note_repair (eps_ d2) ws _ _) as [E fresh].
  set (d3 := set_eps d2 E).
  assert (Hev3 : evolves d d3) by (destruct Hev2; by constructor).
  assert (Hi3 : dec_inv d3) by (by eapply dec_inv_same, Hi2').
  clearbody d3. destruct (_ && _); [| by apply Hdrop].
  rewrite Hpay, take_ge.
  - destruct (admit_repair_ok d3 ws (Z.to_nat (window_len h)) (repair_key h) (seq h) now)
      as (d' & vs & out & -> & Hi' & Hd); [done | done | unfold in_width in Hwl; lia |].
    exists d', out. split; [done |]. by eapply sound_delivered.
  - rewrite (di_ss d3 Hi3). unfold repair_symbol. rewrite lincomb_rows_spec.
    + by rewrite length_map, length_seq.
    + apply Forall_map, Forall_forall. intros i _. rewrite src_len. split; [lia | apply src_bytes].
Qed.

Lemma add_symbol_ok d env now b clean retx :
  dec_inv d -> genuine env ->
  exists d' out, add_symbol d env now b clean retx = Some (d', out) /\ sound_step d d' out.
Proof.
  intros Hi [Hb Hg]. unfold add_symbol. destruct (parse_header_total env) as [r Hr].
  rewrite Hr. cbn [mbind option_bind].
  set (d0 := set_out_seqs d []).
  assert (Hi0 : dec_inv d0) by (by eapply dec_inv_same, Hi).
  assert (Hlift : forall d' out, sound_step d0 d' out -> sound_step d d' out) by done.
  assert (Hdrop : forall c, c <> syms_delivered -> c <> syms_recovered -> c <> syms_retx ->
    c <> resets -> evolves d0 (bump d0 c 1) /\ dec_inv (bump d0 c 1)).
  { intros c N1 N2 N3 N4. split; [| by eapply dec_inv_same, Hi0].
    constructor; [| done | left; split; [cbn; by rewrite decide_False | done]].
    unfold n_known_by_any. cbn. by rewrite !decide_False by done. }
  destruct r as [h|].
  2: { eexists _, _. split; [done |]. apply Hlift, sound_dropped; [| done | done].
    apply steady_evolves. constructor; [done | done | by left]. }
  destruct (negb _ || negb _) eqn:Hcfg.
  { eexists _, _. split; [done |]. apply Hlift. destruct (Hdrop symbols_dropped_bad_cfg) as [? ?]; try done.
    by apply sound_dropped. }
  apply orb_false_iff in Hcfg as [Hss%negb_false_iff%Z.eqb_eq Hlen%negb_false_iff%Z.eqb_eq].
  pose proof (di_cfg d Hi) as Hssd. change (cfg_ d0) with (cfg_ d) in *.
  specialize (Hg h Hr ltac:(lia) ltac:(lia)).
  destruct (parse_header_sound env h Hb Hr) as (_ & (_ & Hseq & Hwl & _) & _).
  destruct (Hdrop symbols_in) as [[Ec Es Ek] Hi1]; try done.
  assert (Hlift1 : forall d' out, sound_step (bump d0 symbols_in 1) d' out -> sound_step d d' out).
  { intros d' out [H1 (vs & A & B & C & D & E & F)]. split; [done |]. exists vs.
    split_all; done. }
  destruct (repair h).
  - destruct (add_repair_ok (bump d0 symbols_in 1) h (drop kSwHeaderLen env) now b)
      as (d' & out & -> & Hs); try done. exists d', out. auto.
  - destruct (add_source_ok (bump d0 symbols_in 1) h (drop kSwHeaderLen env) b clean retx)
      as (d' & out & -> & Hs); try done. exists d', out. auto.
Qed.

(** ** Progress: what is delivered at once *)

(** The sequence space of a running session: the anchor keeps u64 arithmetic away from
    both ends. *)
Definition session_ok (d : SwDecoder) : Prop :=
  have_seq_ d = true /\ 2 ^ 32 <= newest_v_ d < 2 ^ 62 /\ 0 <= horizon_ d < 2 ^ 32.

Lemma unwrap_near d s : session_ok d -> in_width 32 s -> newest_v_ d - 2 ^ 31 <= unwrap d s < newest_v_ d + 2 ^ 31.
Proof.
  intros (_ & Hn & _) Hs. unfold unwrap, sext. cbn zeta.
  set (n := newest_v_ d) in *. case_Zb; mlia.
Qed.

Lemma live_floor_id d : session_ok d -> live_floor d = newest_v_ d - horizon_ d.
Proof. intros (_ & Hn & Hh). unfold live_floor. apply wrap_small. unfold in_width. lia. Qed.

Lemma advance_floor d c :
  session_ok d -> c < 2 ^ 63 -> live_floor (advance d c) = Z.max (newest_v_ d) c - horizon_ d.
Proof.
  intros (_ & Hn & Hh) Hc. destruct (advance_spec d c) as (En & _ & Eh & _).
  unfold live_floor. rewrite En, Eh. apply wrap_small. unfold in_width. lia.
Qed.

(** A source within the horizon is handed up in the call that brings it. *)
Lemma add_source_immediate d h b clean retx v :
  dec_inv d -> session_ok d -> in_width 32 (seq h) ->
  v = unwrap d (seq h) -> newest_v_ d - kResetSpan <= v <= newest_v_ d + kResetSpan ->
  newest_v_ d - horizon_ d <= v -> known_ d !! v = None ->
  exists d' out, add_source d h (src (seq h)) b clean retx = Some (d', out) /\
    pkts_of (src (seq h)) `prefix_of` out /\ known_ d' !! v = Some (src (seq h)).
Proof.
  intros Hi Hs Hw -> Hnear Hfl Hk. pose proof Hs as (Hhave & Hn & Hh).
  pose proof (source_prologue_ok d h b clean retx Hi Hw) as Hp.
  unfold add_source.
  assert (E : exists d1, source_prologue d h b clean retx = (d1, unwrap d (seq h)) /\
    known_ d1 = known_ d /\ session_ok d1 /\ newest_v_ d1 = newest_v_ d /\ horizon_ d1 = horizon_ d).
  { unfold source_prologue. rewrite Hhave. cbn zeta.
    assert (Hfar : (u64 (newest_v_ d + kResetSpan) <? unwrap d (seq h)) ||
      (u64 (unwrap d (seq h) + kResetSpan) <? newest_v_ d) = false).
    { unfold kResetSpan in *. apply orb_false_iff.
      split; apply Z.ltb_ge; rewrite wrap_small by (unfold in_width; lia); lia. }
    rewrite Hfar. destruct retx; eexists; (split; [reflexivity |]); done. }
  destruct E as (d1 & E & Ek & Hs1 & En & Eh). rewrite E in *. destruct Hp as (Hi1 & _ & Hv).
  set (v := unwrap d (seq h)) in *.
  assert (Hskip : (v <? live_floor d1) || is_known d1 v = false).
  { apply orb_false_iff. rewrite live_floor_id, En, Eh by done. split; [by apply Z.ltb_ge |].
    unfold is_known. apply bool_decide_eq_false. rewrite Ek, Hk. by intros [? ?]. }
  rewrite Hskip, take_ge by (rewrite src_len, (di_ss d1 Hi1); done).
  rewrite <- Hv. change (src (u32 v)) with (srcv v).
  assert (Hafl : live_floor (advance d1 v) = Z.max (newest_v_ d1) v - horizon_ d1)
    by (apply advance_floor; [done | unfold kResetSpan in Hnear; lia]).
  destruct (ingest_ok (advance d1 v) v (if retx then kRetx else kSource) [])
    as (d' & vs & out & -> & Hi' & Hd & Hhead); [by apply advance_inv |].
  assert (Hin : head vs = Some v).
  { apply Hhead; [| rewrite Hafl, En, Eh; lia].
    rewrite advance_known by (rewrite Hafl, En, Eh; lia). by rewrite Ek. }
  exists d', out. split; [done |]. destruct vs as [|w vs]; [done |]. injection Hin as ->. split.
  - rewrite (dl_out _ _ _ _ _ Hd). cbn [map concat app]. by apply prefix_app_r.
  - assert (Hkn : is_Some (known_ d' !! v)) by (apply (dl_known _ _ _ _ _ Hd); right; constructor).
    destruct Hkn as [y Hy]. by rewrite Hy, (di_known d' Hi' v y).
Qed.

(** A row with one unknown whose sequence number leads no other row is solved. *)
Lemma insert_row_single rows r p c :
  coeffs r !! p = Some c -> (forall k, is_Some (coeffs r !! k) -> k = p) -> rows !! p = None ->
  exists y, insert_row ss rows r = Some (rows, [(p, y)]).
Proof.
  intros Hp Hall Hr. unfold insert_row. cbn [insert_row_loop].
  assert (Hm : coeffs r = {[p := c]}).
  { apply map_eq. intros k. destruct (decide (k = p)) as [->|Hne].
    - by rewrite lookup_singleton_eq.
    - rewrite lookup_singleton_ne by done. apply eq_None_not_Some. intros Hk. by apply Hne, Hall. }
  destruct (begin_ (coeffs r)) as [[q lead]|] eqn:Hb.
  - apply begin_Some in Hb as [Hq _]. assert (q = p) as -> by (apply Hall; eauto).
    rewrite Hr. destruct (lead =? 1); cbn [coeffs payload].
    + rewrite Hm, map_size_singleton. cbn. eauto.
    + rewrite Hm, map_fmap_singleton, map_size_singleton. cbn. eauto.
  - apply begin_None in Hb. by rewrite Hb, lookup_empty in Hp.
Qed.

(** The gauge only ever drops old repairs during eviction. *)
Lemma prune_suffix k l : prune k l `suffix_of` l.
Proof. destruct (prune_split k l) as (p & Hp & _). by exists p. Qed.

Lemma settle_suffix E w e : repairs_seen_ (settle_episodes E w e) `suffix_of` repairs_seen_ E.
Proof. unfold settle_episodes. destruct (_ && _); apply prune_suffix. Qed.

Lemma note_evicted_suffix d se l E :
  repairs_seen_ (foldl (note_evicted d se) E l) `suffix_of` repairs_seen_ E.
Proof.
  revert E. induction l as [|s l IH]; intros E; [done |]. cbn [foldl].
  etransitivity; [apply IH |]. unfold note_evicted. destruct (_ && _); [done |].
  unfold note_missing. cbn. destruct (_ && _); [apply settle_suffix | done].
Qed.

Lemma advance_suffix d c : repairs_seen_ (eps_ (advance d c)) `suffix_of` repairs_seen_ (eps_ d).
Proof.
  unfold advance. destruct (c <=? newest_v_ d); [done |]. cbn zeta. destruct (_ <=? base_ _); [done |].
  destruct (base_ _ <? _); cbn [eps_ set_space set_symbols bump set_eps set_gauges];
    (etransitivity; [apply settle_suffix | apply note_evicted_suffix]).
Qed.

Lemma note_repair_fresh E a b k :
  Forall (fun r => not (ws r = a /\ key r = k)) (repairs_seen_ E) -> snd (note_repair E a b k) = true.
Proof.
  intros H. unfold note_repair. rewrite existsb_rev.
  assert (Hno : existsb (fun r => (ws r =? a) && (key r =? k)) (repairs_seen_ E) = false).
  { induction H as [|r l Hr H IH]; [done |]. cbn. rewrite IH, orb_false_r.
    destruct (Z.eqb_spec (ws r) a), (Z.eqb_spec (key r) k); cbn; tauto. }
  by rewrite Hno.
Qed.

(** A fresh repair that finds one symbol of its window missing restores it, provided no
    held row leads with that symbol. *)
Lemma add_repair_recovers d h now b s :
  dec_inv d -> session_ok d -> in_width 32 (seq h) -> in_width 8 (window_len h) ->
  let ws_ := unwrap d (seq h) in
  let last := ws_ + window_len h - 1 in
  last + 1 <= newest_v_ d + kResetSpan -> newest_v_ d <= last + 1 + kResetSpan ->
  Z.max (newest_v_ d) last - horizon_ d <= ws_ ->
  ws_ <= s <= last -> known_ d !! s = None ->
  (forall k, ws_ <= k <= last -> k <> s -> is_Some (known_ d !! k)) ->
  rows_ d !! s = None ->
  Forall (fun r => not (ws r = ws_ /\ key r = repair_key h)) (repairs_seen_ (eps_ d)) ->
  exists d' out,
    add_repair d h (repair_symbol (seq h) (Z.to_nat (window_len h)) (repair_key h)) now b =
      Some (d', out) /\
    pkts_of (srcv s) `prefix_of` out /\ known_ d' !! s = Some (srcv s).
Proof.
  intros Hi Hs Hw Hwl ws_ last Hhi Hlo Hfl Hsw Hks Hothers Hrow Hfresh.
  pose proof (unwrap_near d (seq h) Hs Hw) as Hnear. fold ws_ in Hnear.
  pose proof (unwrap_u32 d (seq h) Hw) as Hws. fold ws_ in Hws.
  destruct Hs as (Hhave & Hn & Hh). unfold add_repair. rewrite Hhave. cbn zeta. cbn [negb].
  fold ws_. unfold kResetSpan in *. unfold in_width in Hwl.
  assert (W : forall z, 0 <= z < 2 ^ 64 -> u64 z = z) by (intros; by apply wrap_small).
  set (d0 := if repair_window_hwm_ d <? window_len h then _ else d).
  assert (H0 : same_symbols d d0 /\ newest_v_ d0 = newest_v_ d /\ horizon_ d0 = horizon_ d /\
    have_seq_ d0 = have_seq_ d /\ eps_ d0 = eps_ d) by (subst d0; by destruct (_ <? _)).
  destruct H0 as (Hs0 & En0 & Eh0 & Ehave0 & Ee0). clearbody d0.
  rewrite (W (ws_ + window_len h)) by lia. rewrite En0.
  rewrite (W (newest_v_ d + 2 ^ 20)), (W (ws_ + window_len h + 2 ^ 20)) by lia.
  rewrite !(proj2 (Z.ltb_ge _ _)) by lia. cbn [orb].
  rewrite (W (ws_ + window_len h - 1)) by lia. fold last.
  set (d1 := set_wm d0 (repair_boundary (wmk_ d0) b last)).
  assert (Hi1 : dec_inv d1) by (eapply dec_inv_same, dec_inv_same, Hi; done).
  assert (Hs1 : session_ok d1) by (unfold session_ok; cbn; by rewrite En0, Eh0, Ehave0).
  assert (Hk1 : known_ d1 = known_ d) by apply Hs0. assert (Hr1 : rows_ d1 = rows_ d) by apply Hs0.
  assert (He1 : eps_ d1 = eps_ d) by done. assert (En1 : newest_v_ d1 = newest_v_ d) by done.
  assert (Eh1 : horizon_ d1 = horizon_ d) by done. clearbody d1. clear d0 Hs0 En0 Eh0 Ehave0 Ee0.
  pose proof (advance_floor d1 last Hs1 ltac:(lia)) as Hafl. rewrite En1, Eh1 in Hafl.
  pose proof (advance_inv d1 last Hi1) as Hi2.
  assert (Hk2 : forall k, ws_ <= k -> known_ (advance d1 last) !! k = known_ d !! k).
  { intros k Hk. rewrite advance_known by lia. by rewrite Hk1. }
  assert (Hr2 : rows_ (advance d1 last) !! s = None).
  { destruct (advance_symbols d1 last) as [(_ & _ & -> & _) | (nb & _ & _ & _ & -> & _)]; rewrite Hr1; [done |].
    apply map_lookup_filter_None. by left. }
  pose proof (advance_suffix d1 last) as Hsuf. rewrite He1 in Hsuf.
  set (d2 := set_arr (advance d1 last) _).
  change (live_floor d2) with (live_floor (advance d1 last)). rewrite Hafl.
  rewrite (proj2 (Z.ltb_ge _ _)) by lia.
  assert (Hfresh2 : snd (note_repair (eps_ d2) ws_ (ws_ + window_len h) (repair_key h)) = true).
  { apply note_repair_fresh. change (eps_ d2) with (eps_ (advance d1 last)).
    destruct Hsuf as [k Hk]. rewrite Hk in Hfresh. by apply Forall_app in Hfresh as [_ ?]. }
  destruct (note_repair (eps_ d2) ws_ _ _) as [E fresh]. cbn in Hfresh2. subst fresh.
  set (d3 := set_eps d2 E). cbn [andb].
  assert (Hi3 : dec_inv d3) by (by eapply dec_inv_same, Hi2).
  change (rows_ (advance d1 last)) with (rows_ d3) in Hr2.
  change (known_ (advance d1 last)) with (known_ d3) in Hk2.
  change (live_floor (advance d1 last)) with (live_floor d3) in Hafl. clearbody d3.
  set (n := Z.to_nat (window_len h)).
  assert (Hin : forall k, k ∈ window_seqs ws_ n <-> ws_ <= k <= last).
  { intros k. rewrite window_seqs_elem. split.
    - intros (i & Hil & ->). rewrite W by lia. lia.
    - intros Hk. exists (Z.to_nat (k - ws_)). split; [lia |]. rewrite W by lia. lia. }
  assert (Hex : existsb (fun k => negb (is_known d3 k)) (window_seqs ws_ n) = true).
  { apply existsb_exists. exists s. split; [by apply list_elem_of_In, Hin |].
    apply negb_true_iff. unfold is_known. apply bool_decide_eq_false.
    rewrite Hk2, Hks by lia. by intros [? ?]. }
  rewrite Hex. unfold admit_repair.
  assert (Hnn : (n <= 255)%nat) by lia.
  assert (Hlen : length (repair_symbol (seq h) n (repair_key h)) = ss).
  { unfold repair_symbol. rewrite lincomb_rows_spec.
    - by rewrite length_map, length_seq.
    - apply Forall_map, Forall_forall. intros i _. rewrite src_len. split; [lia | apply src_bytes]. }
  rewrite take_ge by (rewrite Hlen, (di_ss d3 Hi3); done).
  destruct (build_row_ok d3 ws_ n (repair_key h) (seq h) now Hi3 Hws Hnn) as (Ht & Hnz & Hkeys).
  set (r := build_row d3 ws_ n _ _ now) in *. rewrite (di_ss d3 Hi3).
  assert (Hsome : is_Some (coeffs r !! s)) by (apply Hkeys; rewrite Hin, Hk2 by lia; done).
  destruct Hsome as [c Hc].
  destruct (insert_row_single (rows_ d3) r s c Hc) as [y Hy]; [| done |].
  { intros k Hk. apply Hkeys in Hk as [Hk Hku]. apply Hin in Hk.
    destruct (decide (k = s)) as [|Hne]; [done |].
    destruct (Hothers k Hk Hne) as [z Hz]. rewrite Hk2, Hz in Hku by lia. done. }
  destruct (insert_row_ok ss srcv srcv_len srcv_bytes (fun k => known_ d3 !! k = None) (rows_ d3) r)
    as (rows & solved & Heq & Hins);
    [apply (di_rows d3 Hi3) | apply (di_unknown d3 Hi3) | done | done | intros k Hk; apply Hkeys in Hk; tauto |].
  rewrite Hy in Heq. injection Heq as <- <-.
  destruct (inserted_ok _ _ _ _ (di_rows d3 Hi3) (di_unknown d3 Hi3) Hins) as (_ & _ & Hq & _).
  apply Forall_cons in Hq as [Hq _]. cbn in Hq. subst y. rewrite Hy. cbn [mbind option_bind ingest_all].
  assert (Hi4 : dec_inv (set_rows d3 (rows_ d3))) by (by eapply dec_inv_same, Hi3).
  destruct (ingest_ok (set_rows d3 (rows_ d3)) s kRepair [] Hi4) as (d' & vs & out & -> & Hi' & Hd & Hhead).
  cbn [mbind option_bind]. exists d', out. split; [done |].
  assert (Hv : head vs = Some s).
  { apply Hhead; cbn [known_ set_rows set_symbols].
    - by rewrite Hk2 by lia.
    - change (live_floor (set_rows d3 (rows_ d3))) with (live_floor d3). lia. }
  destruct vs as [|w vs]; [done |]. injection Hv as ->. split.
  - rewrite (dl_out _ _ _ _ _ Hd). cbn [map concat app]. by apply prefix_app_r.
  - assert (Hkn : is_Some (known_ d' !! s)) by (apply (dl_known _ _ _ _ _ Hd); right; constructor).
    destruct Hkn as [z Hz]. by rewrite Hz, (di_known d' Hi' s z).
Qed.

End Sound.
