(* ===== verification/SwDecoderProps.v ===== *)
(** * SwDecoderProps: the decoder's properties

    Soundness over whole histories, single delivery, immediate delivery of sources,
    recovery of a lone loss, saturation of the elimination, exact abandonment counts. *)
From S2P Require Import Prelude Bytes Gf256 SwWire SwConfig ArrivalTracker LossEpisodes Elim SwDecoder.
From S2P Require Import SwDecoderSound.
Local Open Scope Z_scope.
Local Open Scope mabur_scope.

(** ** Histories *)

(** Everything a decoder's owner can do to it. *)
Inductive input :=
| Symbol (env : list Z) (now : Z) (b : SwBoundary) (clean retx : bool)
| MarkTransition
| CloseBoundary
| ExpireRows (deadline now : Z)
| TakeEpisodes.

(** One input; the accumulator pairs every packet handed up with its wire sequence number. *)
Definition feed (d : SwDecoder) (i : input) : option (SwDecoder * list (list Z * Z)) :=
  match i with
  | Symbol env now b clean retx =>
      '(d', out) ← add_symbol d env now b clean retx; Some (d', zip out (last_out_seqs_ d'))
  | MarkTransition => Some (mark_transition d, [])
  | CloseBoundary => Some (close_boundary d, [])
  | ExpireRows deadline now => Some (fst (expire_rows_older_than d deadline now), [])
  | TakeEpisodes => Some (fst (take_episodes d), [])
  end.

Fixpoint run (d : SwDecoder) (ins : list input) : option (SwDecoder * list (list Z * Z)) :=
  match ins with
  | [] => Some (d, [])
  | i :: ins =>
      '(d, o1) ← feed d i; '(d, o2) ← run d ins; Some (d, o1 ++ o2)
  end.

Definition genuine_input (ss : nat) (src : Z -> list Z) (i : input) : Prop :=
  match i with Symbol env _ _ _ _ => genuine ss src env | _ => True end.

(** A sender: one symbol of [ss] bytes per wire sequence number. *)
Definition sender (ss : nat) (src : Z -> list Z) : Prop :=
  forall s, length (src s) = ss /\ bytes_ok (src s).

Lemma zip_packets ss src vs p s :
  (p, s) ∈ zip (concat (map (fun v => pkts_of ss (srcv src v)) vs))
      (concat (map (fun v => replicate (length (pkts_of ss (srcv src v))) (u32 v)) vs)) ->
  in_width 32 s /\ p ∈ pkts_of ss (src s).
Proof.
  induction vs as [|v vs IH]; cbn [map concat]; [intros H; by apply not_elem_of_nil in H |].
  rewrite zip_with_app by (by rewrite length_replicate). rewrite elem_of_app.
  intros [H|H]; [| by apply IH]. apply elem_of_zip in H as [Hp Hs].
  apply elem_of_replicate in Hs as [-> _]. split; [width | done].
Qed.

Lemma expire_inv ss src d deadline now :
  dec_inv ss src d -> dec_inv ss src (fst (expire_rows_older_than d deadline now)).
Proof.
  intros [Hss Hk Hr Hu Ha Hd]. constructor; cbn; try done.
  - intros p r Hp. apply map_lookup_filter_Some in Hp as [Hp _]. by apply Hr.
  - intros p r k Hp. apply map_lookup_filter_Some in Hp as [Hp _]. by apply (Hu p).
Qed.

Lemma feed_ok ss src d i :
  sender ss src -> dec_inv ss src d -> genuine_input ss src i ->
  exists d' outs, feed d i = Some (d', outs) /\ dec_inv ss src d' /\
    Forall (fun ps => in_width 32 (snd ps) /\ fst ps ∈ pkts_of ss (src (snd ps))) outs.
Proof.
  intros Hsrc Hi Hg. destruct i as [env now b clean retx | | | deadline now |]; cbn [feed].
  - destruct (add_symbol_ok ss src (fun s => proj1 (Hsrc s)) (fun s => proj2 (Hsrc s))
      d env now b clean retx Hi Hg) as (d' & out & -> & Hi' & vs & -> & Hl & _).
    cbn [mbind option_bind]. eexists _, _. split; [done |]. split; [done |].
    rewrite Hl. apply Forall_forall. intros [p s] Hin. by apply zip_packets in Hin.
  - eexists _, _. split; [done |]. split; [| constructor].
    unfold mark_transition. destruct (negb _); by eapply dec_inv_same, Hi.
  - eexists _, _. split; [done |]. split; [| constructor]. by eapply dec_inv_same, Hi.
  - eexists _, _. split; [done |]. split; [by apply expire_inv | constructor].
  - eexists _, _. split; [done |]. split; [by eapply dec_inv_same, Hi | constructor].
Qed.

Lemma new_decoder_inv ss src cfg hz g :
  symbol_size cfg = Z.of_nat ss -> dec_inv ss src (new_decoder cfg hz g).
Proof.
  intros Hss. constructor; cbn; try done.
  intros v [H|H]; by apply elem_of_empty in H.
Qed.

Lemma run_ok ss src d ins :
  sender ss src -> dec_inv ss src d -> Forall (genuine_input ss src) ins ->
  exists d' outs, run d ins = Some (d', outs) /\ dec_inv ss src d' /\
    Forall (fun ps => in_width 32 (snd ps) /\ fst ps ∈ pkts_of ss (src (snd ps))) outs.
Proof.
  intros Hsrc Hi Hg. revert d Hi. induction Hg as [|i ins Hgi Hg IH]; intros d Hi.
  { exists d, []. split; [done |]. split; [done | constructor]. }
  cbn [run]. destruct (feed_ok ss src d i Hsrc Hi Hgi) as (d1 & o1 & -> & Hi1 & Ho1).
  cbn [mbind option_bind]. destruct (IH d1 Hi1) as (d2 & o2 & -> & Hi2 & Ho2).
  cbn [mbind option_bind]. eexists _, _. split; [done |]. split; [done |]. by apply Forall_app.
Qed.

(** ** Saturation *)

(** No set of [n] unknown symbols is ever left with [n] held equations about it alone: the
    last pivot's row would be down to one unknown, and would have been solved. *)
Lemma saturated ss src d (U : gset Z) :
  dec_inv ss src d -> U <> ∅ ->
  (size (filter (fun pr => dom (coeffs (snd pr)) ⊆ U) (rows_ d)) < size U)%nat.
Proof.
  intros Hi HU. set (R := filter _ (rows_ d)).
  assert (HR : forall p r, R !! p = Some r -> p ∈ U /\ exists k, k ∈ U /\ p < k).
  { intros p r Hp. apply map_lookup_filter_Some in Hp as [Hp Hsub]. cbn in Hsub.
    destruct (di_rows _ _ _ Hi p r Hp) as (_ & _ & H1 & Hmin & Hsz).
    split; [apply Hsub, elem_of_dom; eauto |].
    assert (Hex : exists k, is_Some (coeffs r !! k) /\ k <> p).
    { assert (Hdel : size (delete p (coeffs r)) <> 0%nat) by (rewrite map_size_delete, H1; cbn; lia).
      apply map_size_ne_0_lookup in Hdel as (k & c & Hk).
      apply lookup_delete_Some in Hk as [Hne Hk]. exists k. split; [eauto | done]. }
    destruct Hex as (k & Hk & Hne). exists k. split; [by apply Hsub, elem_of_dom |].
    pose proof (Hmin k Hk). lia. }
  destruct (decide (dom R = ∅)) as [He|Hne].
  { rewrite <- size_dom, He, size_empty. assert (size U <> 0)%nat; [| lia].
    intros E. by apply HU, leibniz_equiv, size_empty_iff. }
  assert (Hsub : dom R ⊂ U).
  { split.
    - intros p Hp. apply elem_of_dom in Hp as [r Hp]. by apply (HR p r).
    - intros Hall. destruct (minimal_exists_elem_of (flip Z.le) U) as (m & Hm & Hmin).
      { by intros E; apply HU, leibniz_equiv. }
      apply Hall in Hm. apply elem_of_dom in Hm as [r Hm].
      destruct (HR m r Hm) as (_ & k & Hk & Hlt). specialize (Hmin k Hk). cbn in Hmin. lia. }
  rewrite <- size_dom. by apply subset_size.
Qed.

(** ** Abandonment *)

Lemma n_known_in_seqZ d lo hi :
  lo <= hi ->
  n_known_in d lo hi = Z.of_nat (length (List.filter (is_known d) (seqZ lo (hi - lo)))).
Proof.
  intros Hle. unfold n_known_in. f_equal. rewrite <- length_map_to_list, <- (length_fmap fst).
  apply Permutation_length, NoDup_Permutation.
  - apply NoDup_fst_map_to_list.
  - apply NoDup_ListNoDup, List.NoDup_filter, NoDup_ListNoDup, NoDup_seqZ.
  - intros v. rewrite list_elem_of_fmap, list_elem_of_In, filter_In, <- list_elem_of_In, elem_of_seqZ.
    unfold is_known. rewrite bool_decide_eq_true. split.
    + intros ([k y] & -> & Hk). apply elem_of_map_to_list, map_lookup_filter_Some in Hk as [Hk Hr].
      cbn in *. split; [lia | eauto].
    + intros [Hr [y Hy]]. exists (v, y). split; [done |].
      apply elem_of_map_to_list, map_lookup_filter_Some. split; [done | cbn; lia].
Qed.

Lemma filter_negb_length {A} (p : A -> bool) l :
  Z.of_nat (length l) - Z.of_nat (length (List.filter p l)) =
  Z.of_nat (length (List.filter (fun x => negb (p x)) l)).
Proof. induction l as [|x l IH]; [done |]. cbn. destruct (p x); cbn [negb length]; lia. Qed.

(** The unknown sequence numbers of a range. *)
Definition unknown_in (d : SwDecoder) (lo hi : Z) : list Z :=
  List.filter (fun v => negb (is_known d v)) (seqZ lo (hi - lo)).

Lemma abandoned_count d lo hi :
  lo <= hi -> (hi - lo) - n_known_in d lo hi = Z.of_nat (length (unknown_in d lo hi)).
Proof.
  intros Hle. rewrite n_known_in_seqZ by done. unfold unknown_in.
  rewrite <- filter_negb_length, length_seqZ. lia.
Qed.

Lemma n_known_in_ext d d' lo hi : known_ d' = known_ d -> n_known_in d' lo hi = n_known_in d lo hi.
Proof. unfold n_known_in. by intros ->. Qed.

(** Where the stale span ends. *)
Definition stale_bound (d : SwDecoder) (nb : Z) : Z :=
  if wm_open_ (wmk_ d) then nb
  else if wm_valid_ (wmk_ d) then Z.min nb (wm_ (wmk_ d) + 1) else base_ d.

(** ** A sender to evaluate on *)

Definition demo_src (s : Z) : list Z := [3; 0; u8 s; 7; 9; 0; 0; 0].
Definition demo_cfg : SwConfig := mkSwConfig 8 4 (S754_zero false).
Definition demo_source (s : Z) : list Z := pack_header (mkSwHeader false 8 s 0 0) ++ demo_src s.
Definition demo_repair (s wl key : Z) : list Z :=
  pack_header (mkSwHeader true 8 s wl key) ++ repair_symbol 8 demo_src s (Z.to_nat wl) key.

Lemma demo_sender : sender 8 demo_src.
Proof.
  intros s. split; [done |]. unfold demo_src.
  assert (H : is_byte (u8 s)) by width.
  repeat (apply Forall_cons; split); [decided | decided | done | decided.. | by apply Forall_nil].
Qed.

Lemma demo_source_genuine s : in_width 32 s -> genuine 8 demo_src (demo_source s).
Proof.
  intros Hs. apply genuine_packed; [| done | apply demo_sender | done].
  split_all; cbn; try done; decided.
Qed.

Lemma demo_repair_genuine s wl k :
  in_width 32 s -> in_width 8 wl -> wl <> 0 -> in_width 32 k ->
  genuine 8 demo_src (demo_repair s wl k).
Proof.
  intros Hs Hw Hne Hk. apply genuine_packed; [| done | apply lincomb_rows_bytes | done].
  split_all; cbn; try done; decided.
Qed.

(** ** The properties *)

(** C1.  The decoder never hands up a packet that was not sent.  Whatever genuine
    envelopes reach it -- lost, reordered, duplicated, retransmitted, across resets and
    boundary marks -- every call returns (no loop runs away, no read leaves a buffer),
    every packet handed up is one of the packets of the symbol sent under the sequence
    number reported with it, and every symbol held as known is the one sent. *)
Theorem sw_decoder_sound (ss : nat) (src : Z -> list Z) (cfg : SwConfig) (hz g : Z) (ins : list input) :
  sender ss src -> symbol_size cfg = Z.of_nat ss -> Forall (genuine_input ss src) ins ->
  exists d outs, run (new_decoder cfg hz g) ins = Some (d, outs) /\
    (forall p s, (p, s) ∈ outs -> in_width 32 s /\ unpack_symbol ss (src s) <> None /\
       p ∈ default [] (unpack_symbol ss (src s))) /\
    (forall v y, known_ d !! v = Some y -> y = src (u32 v)).
Proof.
  intros Hsrc Hss Hg.
  destruct (run_ok ss src (new_decoder cfg hz g) ins Hsrc (new_decoder_inv _ _ _ _ _ Hss) Hg)
    as (d & outs & Hr & Hi & Ho).
  exists d, outs. split; [done |]. split; [| apply (di_known _ _ _ Hi)].
  intros p s Hin. rewrite Forall_forall in Ho. destruct (Ho _ Hin) as [Hw Hp].
  split; [done |]. split; [| done].
  rewrite (unpack_total ss (src s)) by apply Hsrc. done.
Qed.

Definition demo_inputs : list input :=
  [Symbol (demo_source 5) 0 kNone true false; Symbol (demo_source 7) 1 kNone true false;
   Symbol (demo_repair 5 3 12) 2 kNone true false; MarkTransition;
   Symbol (demo_source 6) 3 kPost false true].

Example sw_decoder_sound_witness :
  exists d outs, run (new_decoder demo_cfg 0 0) demo_inputs = Some (d, outs) /\
    ((forall p s, (p, s) ∈ outs -> in_width 32 s /\ unpack_symbol 8 (demo_src s) <> None /\
       p ∈ default [] (unpack_symbol 8 (demo_src s))) /\
     (forall v y, known_ d !! v = Some y -> y = demo_src (u32 v))).
Proof.
  refine (sw_decoder_sound 8 demo_src demo_cfg 0 0 demo_inputs demo_sender eq_refl _).
  unfold demo_inputs. repeat (apply Forall_cons; split); [| | | done | | by apply Forall_nil].
  - apply demo_source_genuine. decided.
  - apply demo_source_genuine. decided.
  - apply demo_repair_genuine; decided.
  - apply demo_source_genuine. decided.
Defined.

(** An envelope on the wire: the magic, a flags byte of 0 (source) or 1 (repair), the symbol size, a
    sequence number, a window that only a repair has, a key that only a repair has, and a symbol. *)
Definition well_formed (ss : nat) (env : list Z) : Prop :=
  exists f q0 q1 q2 q3 w k0 k1 k2 k3 sym,
    env = [65; 245; f; Z.of_nat ss mod 256; Z.of_nat ss / 256; q0; q1; q2; q3; w; k0; k1; k2; k3] ++ sym /\
    length sym = ss /\ (f = 1 /\ w <> 0 \/ f = 0 /\ w = 0 /\ [k0; k1; k2; k3] = [0; 0; 0; 0]).

(** What a refused envelope leaves: every member but the list of the last call's sequence numbers,
    which is empty, and the counter of refusals, which may have grown by one. *)
Definition refused (d d' : SwDecoder) : Prop :=
  cfg_ d' = cfg_ d /\ horizon_ d' = horizon_ d /\ arr_guard_ d' = arr_guard_ d /\ have_seq_ d' = have_seq_ d /\
  newest_v_ d' = newest_v_ d /\ base_ d' = base_ d /\ known_ d' = known_ d /\ rows_ d' = rows_ d /\
  recovered_await_src_ d' = recovered_await_src_ d /\ retx_await_src_ d' = retx_await_src_ d /\ last_out_seqs_ d' = [] /\
  repair_window_hwm_ d' = repair_window_hwm_ d /\ wmk_ d' = wmk_ d /\ eps_ d' = eps_ d /\ arr_ d' = arr_ d /\
  (forall c, c <> symbols_dropped_bad_cfg -> cnt_ d' c = cnt_ d c) /\
  0 <= cnt_ d' symbols_dropped_bad_cfg - cnt_ d symbols_dropped_bad_cfg <= 1.

Lemma accepted_well_formed ss env h : bytes_ok env -> parse_header env = Some (Some h) -> SwWire.symbol_size h = Z.of_nat ss ->
  length env = (kSwHeaderLen + ss)%nat -> well_formed ss env.
Proof.
  intros Hb Hp Hs Hl. destruct (parse_header_sound env h Hb Hp) as (_ & Ht & Hc & Hk).
  destruct h as [rep sz sq wl rk]. cbn [SwWire.symbol_size] in Hs. subst sz. unfold header_consistent in Hc. cbn in Hc.
  exists (if rep then 1 else 0), (Z.land sq 255), (Z.land (Z.shiftr sq 8) 255), (Z.land (Z.shiftr sq 16) 255), (Z.shiftr sq 24), wl,
    (Z.land rk 255), (Z.land (Z.shiftr rk 8) 255), (Z.land (Z.shiftr rk 16) 255), (Z.shiftr rk 24), (drop kSwHeaderLen env).
  split; [| split; [rewrite length_drop; lia | destruct rep; [by left | right; by destruct Hc as [-> ->]]]].
  rewrite <- (take_drop kSwHeaderLen env) at 1. rewrite Hk. f_equal. unfold pack_header.
  cbn [app repair SwWire.symbol_size seq window_len repair_key].
  assert (E1 : Z.land (Z.of_nat ss) 255 = Z.of_nat ss mod 256) by (change 255 with (Z.ones 8); by rewrite Z.land_ones by lia).
  assert (E2 : Z.shiftr (Z.of_nat ss) 8 = Z.of_nat ss / 256) by (by rewrite Z.shiftr_div_pow2 by lia).
  by rewrite E1, E2.
Qed.

Lemma malformed_refused ss src d env now b clean retx : dec_inv ss src d -> bytes_ok env -> ~ well_formed ss env ->
  exists d', add_symbol d env now b clean retx = Some (d', []) /\ refused d d'.
Proof.
  intros Hi Hb Hm. unfold add_symbol. destruct (parse_header_total env) as [r Hr]. rewrite Hr. cbn [mbind option_bind].
  destruct r as [h|].
  2: { eexists. split; [reflexivity |]. unfold refused. cbn. split_all; try done; lia. }
  change (cfg_ (set_out_seqs d [])) with (cfg_ d). rewrite (di_cfg _ _ _ Hi).
  destruct (Z.eqb_spec (SwWire.symbol_size h) (Z.of_nat ss)) as [Hs |].
  1: destruct (Z.eqb_spec (Z.of_nat (length env)) (Z.of_nat kSwHeaderLen + Z.of_nat ss)) as [Hl |].
  { destruct Hm. apply (accepted_well_formed ss env h Hb Hr Hs). lia. }
  all: cbn [negb orb]; eexists; (split; [reflexivity |]); unfold refused; cbn; split_all; try done; try lia;
    first [by intros c Hc; rewrite decide_False | rewrite decide_True by done; lia].
Qed.

(** C5.  Each symbol is handed up once and correctly.  One genuine envelope yields, in
    order, exactly the packets of some symbols not known before (unless the envelope made
    the decoder re-anchor), each once, with their sequence numbers, and all of them are
    known afterwards; the three "became known" counters grow by their number.  And any bytes
    that are not a well-formed envelope of the configured size hand up nothing and change
    nothing but the counter of refused envelopes. *)
Theorem decoder_delivers_once (ss : nat) (src : Z -> list Z) (d : SwDecoder) (env : list Z)
    (now : Z) (b : SwBoundary) (clean retx : bool) :
  sender ss src -> dec_inv ss src d -> bytes_ok env ->
  (genuine ss src env ->
   exists d' out, add_symbol d env now b clean retx = Some (d', out) /\ dec_inv ss src d' /\
   exists vs,
     out = concat (map (fun v => pkts_of ss (srcv src v)) vs) /\
     last_out_seqs_ d' = concat (map (fun v => replicate (length (pkts_of ss (srcv src v))) (u32 v)) vs) /\
     NoDup vs /\ Forall (fun v => is_Some (known_ d' !! v)) vs /\
     (cnt_ d' resets = cnt_ d resets -> Forall (fun v => known_ d !! v = None) vs) /\
     n_known_by_any d' = n_known_by_any d + Z.of_nat (length vs)) /\
  (~ well_formed ss env ->
   exists d', add_symbol d env now b clean retx = Some (d', []) /\ refused d d').
Proof.
  intros Hsrc Hi Hb. split; [| exact (malformed_refused ss src d env now b clean retx Hi Hb)].
  exact (add_symbol_ok ss src (fun s => proj1 (Hsrc s)) (fun s => proj2 (Hsrc s)) d env now b clean retx Hi).
Qed.

Example decoder_delivers_once_witness :
  (exists d' out, add_symbol (new_decoder demo_cfg 0 0) (demo_source 5) 0 kNone true false =
     Some (d', out) /\ dec_inv 8 demo_src d') /\
  (exists d', add_symbol (new_decoder demo_cfg 0 0) [65; 245; 2; 8; 0] 0 kNone true false = Some (d', []) /\
     refused (new_decoder demo_cfg 0 0) d').
Proof.
  pose proof (new_decoder_inv 8 demo_src demo_cfg 0 0 eq_refl) as Hi. split.
  - pose proof (demo_source_genuine 5 ltac:(decided)) as Hg.
    destruct (decoder_delivers_once 8 demo_src (new_decoder demo_cfg 0 0) (demo_source 5) 0 kNone true false demo_sender Hi (proj1 Hg))
      as [H _]. destruct (H Hg) as (d' & out & H1 & H2 & _). exists d', out. split; [exact H1 | exact H2].
  - assert (Hb : bytes_ok [65; 245; 2; 8; 0]) by (repeat constructor; decided).
    destruct (decoder_delivers_once 8 demo_src (new_decoder demo_cfg 0 0) [65; 245; 2; 8; 0] 0 kNone true false demo_sender Hi Hb)
      as [_ H]. apply H. intros (f & q0 & q1 & q2 & q3 & w & k0 & k1 & k2 & k3 & sym & E & _). discriminate E.
Defined.

(** Sources are never held back.  In a running session, a source symbol whose
    sequence number is within the reset span of the newest, not below the horizon and not
    known yet is handed up, first, in the very call that brings its envelope, direct copy
    or retransmission alike, and is known from then on. *)
Theorem source_delivered_at_once (ss : nat) (src : Z -> list Z) (d : SwDecoder) (s now : Z)
    (b : SwBoundary) (clean retx : bool) :
  sender ss src -> dec_inv ss src d -> session_ok d -> in_width 32 s -> in_width 16 (Z.of_nat ss) ->
  let v := unwrap d s in
  newest_v_ d - kResetSpan <= v <= newest_v_ d + kResetSpan ->
  newest_v_ d - horizon_ d <= v -> known_ d !! v = None ->
  exists d' out,
    add_symbol d (pack_header (mkSwHeader false (Z.of_nat ss) s 0 0) ++ src s) now b clean retx =
      Some (d', out) /\
    pkts_of ss (src s) `prefix_of` out /\ known_ d' !! v = Some (src s).
Proof.
  intros Hsrc Hi Hs Hw Hss v Hnear Hfl Hk. unfold add_symbol.
  rewrite parse_pack_header; [| split_all; cbn; try done; decided | done].
  cbn [mbind option_bind SwWire.symbol_size].
  change (cfg_ (set_out_seqs d [])) with (cfg_ d). rewrite (di_cfg _ _ _ Hi), Z.eqb_refl.
  rewrite length_app, pack_header_length, (proj1 (Hsrc s)), Nat2Z.inj_add, Z.eqb_refl.
  cbn [negb orb repair]. rewrite drop_app_length'; [| by rewrite pack_header_length].
  apply (add_source_immediate ss src (fun s => proj1 (Hsrc s)) (fun s => proj2 (Hsrc s))); try done.
  by eapply dec_inv_same, Hi.
Qed.

(** A decoder that has seen source 5, and then sources 5 and 7. *)
Definition demo_d1 : SwDecoder :=
  default (new_decoder demo_cfg 0 0)
    (fst <$> add_symbol (new_decoder demo_cfg 0 0) (demo_source 5) 0 kNone true false).
Definition demo_d2 : SwDecoder :=
  default demo_d1 (fst <$> add_symbol demo_d1 (demo_source 7) 1 kNone true false).

Lemma demo_step d env now :
  dec_inv 8 demo_src d -> genuine 8 demo_src env ->
  dec_inv 8 demo_src (default d (fst <$> add_symbol d env now kNone true false)).
Proof.
  intros Hi Hg. destruct (add_symbol_ok 8 demo_src (fun s => proj1 (demo_sender s))
    (fun s => proj2 (demo_sender s)) d env now kNone true false Hi Hg) as (d' & out & -> & Hd & _).
  exact Hd.
Qed.

Lemma demo_d1_inv : dec_inv 8 demo_src demo_d1.
Proof.
  apply demo_step; [by apply new_decoder_inv | apply demo_source_genuine; decided].
Qed.
Lemma demo_d2_inv : dec_inv 8 demo_src demo_d2.
Proof. apply demo_step; [apply demo_d1_inv | apply demo_source_genuine; decided]. Qed.

Example source_delivered_at_once_witness :
  exists d' out,
    add_symbol demo_d1 (pack_header (mkSwHeader false 8 7 0 0) ++ demo_src 7) 1 kNone true false =
      Some (d', out) /\
    pkts_of 8 (demo_src 7) `prefix_of` out /\ known_ d' !! unwrap demo_d1 7 = Some (demo_src 7).
Proof.
  apply (source_delivered_at_once 8 demo_src demo_d1 7 1 kNone true false demo_sender demo_d1_inv);
    first [decided | vm_compute; reflexivity
          | unfold session_ok; split_all; vm_compute; congruence].
Defined.

(** C6.  A lone loss is repaired at once.  In a running session, a repair seen for the
    first time, whose window lies above the horizon and misses exactly one symbol [s],
    restores [s] in the very call that brings it -- provided no held equation is keyed by
    [s] (see [lone_loss_delayed] for why the proviso is needed). *)
Theorem lone_loss_repaired (ss : nat) (src : Z -> list Z) (d : SwDecoder) (start wl k now s : Z)
    (b : SwBoundary) (clean retx : bool) :
  sender ss src -> dec_inv ss src d -> session_ok d -> in_width 16 (Z.of_nat ss) ->
  in_width 32 start -> in_width 8 wl -> in_width 32 k ->
  let ws_ := unwrap d start in
  let last := ws_ + wl - 1 in
  last + 1 <= newest_v_ d + kResetSpan -> newest_v_ d <= last + 1 + kResetSpan ->
  Z.max (newest_v_ d) last - horizon_ d <= ws_ ->
  ws_ <= s <= last -> known_ d !! s = None ->
  (forall j, ws_ <= j <= last -> j <> s -> is_Some (known_ d !! j)) ->
  rows_ d !! s = None ->
  Forall (fun r => not (ws r = ws_ /\ key r = k)) (repairs_seen_ (eps_ d)) ->
  exists d' out,
    add_symbol d (pack_header (mkSwHeader true (Z.of_nat ss) start wl k) ++
                  repair_symbol ss src start (Z.to_nat wl) k) now b clean retx = Some (d', out) /\
    pkts_of ss (src (u32 s)) `prefix_of` out /\ known_ d' !! s = Some (src (u32 s)).
Proof.
  intros Hsrc Hi Hs Hss Hw Hwl Hkey ws_ last Hhi Hlo Hfl Hsw Hks Hoth Hrow Hfresh.
  unfold add_symbol.
  rewrite parse_pack_header; [| split_all; cbn; try done; decided | cbn; lia].
  cbn [mbind option_bind SwWire.symbol_size].
  change (cfg_ (set_out_seqs d [])) with (cfg_ d). rewrite (di_cfg _ _ _ Hi), Z.eqb_refl.
  assert (Hlen : length (repair_symbol ss src start (Z.to_nat wl) k) = ss).
  { unfold repair_symbol. rewrite lincomb_rows_spec.
    - by rewrite length_map, length_seq.
    - apply Forall_map, Forall_forall. intros i _. split; [rewrite (proj1 (Hsrc _)); lia | apply Hsrc]. }
  rewrite length_app, pack_header_length, Hlen, Nat2Z.inj_add, Z.eqb_refl.
  cbn [negb orb repair]. rewrite drop_app_length'; [| by rewrite pack_header_length].
  apply (add_repair_recovers ss src (fun s => proj1 (Hsrc s)) (fun s => proj2 (Hsrc s))
           (bump (set_out_seqs d []) symbols_in 1) (mkSwHeader true (Z.of_nat ss) start wl k)); try done.
  by eapply dec_inv_same, Hi.
Qed.

Example lone_loss_repaired_witness :
  exists d' out,
    add_symbol demo_d2 (demo_repair 5 3 12) 2 kNone true false = Some (d', out) /\
    pkts_of 8 (demo_src (u32 4294967302)) `prefix_of` out /\
    known_ d' !! 4294967302 = Some (demo_src (u32 4294967302)).
Proof.
  assert (E : unwrap demo_d2 5 = 4294967301) by (vm_compute; reflexivity).
  assert (En : newest_v_ demo_d2 = 4294967303) by (vm_compute; reflexivity).
  assert (Eh : horizon_ demo_d2 = 16) by (vm_compute; reflexivity).
  assert (Eh2 : have_seq_ demo_d2 = true) by (vm_compute; reflexivity).
  assert (Er : repairs_seen_ (eps_ demo_d2) = []) by (vm_compute; reflexivity).
  apply (lone_loss_repaired 8 demo_src demo_d2 5 3 12 2 4294967302 kNone true false demo_sender
    demo_d2_inv); rewrite ?E, ?En, ?Eh; unfold kResetSpan, in_width; try lia.
  - unfold session_ok. rewrite Eh2, En, Eh. lia.
  - vm_compute. reflexivity.
  - intros j Hj Hne. assert (Hc : j = 4294967301 \/ j = 4294967303) by lia.
    destruct Hc as [-> | ->]; apply (bool_decide_unpack _); vm_compute; exact I.
  - vm_compute. reflexivity.
  - rewrite Er. constructor.
Defined.

(** Elimination is saturated.  After any history of genuine envelopes, no non-empty
    set of [n] symbols carries [n] (or more) held equations about it alone: as soon as the
    equations over a set of missing symbols are as many as the symbols, some of them have
    been solved and substituted. *)
Theorem elimination_saturated (ss : nat) (src : Z -> list Z) (cfg : SwConfig) (hz g : Z)
    (ins : list input) (U : gset Z) :
  sender ss src -> symbol_size cfg = Z.of_nat ss -> Forall (genuine_input ss src) ins -> U <> ∅ ->
  exists d outs, run (new_decoder cfg hz g) ins = Some (d, outs) /\
    (size (filter (fun pr => dom (coeffs (snd pr)) ⊆ U) (rows_ d)) < size U)%nat /\
    (forall p r, rows_ d !! p = Some r ->
       row_true ss (srcv src) r /\ forall k, is_Some (coeffs r !! k) -> known_ d !! k = None).
Proof.
  intros Hsrc Hss Hg HU.
  destruct (run_ok ss src (new_decoder cfg hz g) ins Hsrc (new_decoder_inv _ _ _ _ _ Hss) Hg)
    as (d & outs & Hr & Hi & _).
  exists d, outs. split; [done |]. split; [by apply (saturated ss src) |].
  intros p r Hp. split; [by apply (di_rows _ _ _ Hi p r Hp) |].
  intros k Hk. by apply (di_unknown _ _ _ Hi p r).
Qed.

Definition demo_set : gset Z := {[6]}.

Example elimination_saturated_witness :
  exists d outs, run (new_decoder demo_cfg 0 0) demo_inputs = Some (d, outs) /\
    (size (filter (fun pr => dom (coeffs (snd pr)) ⊆ demo_set) (rows_ d)) < size demo_set)%nat.
Proof.
  destruct (elimination_saturated 8 demo_src demo_cfg 0 0 demo_inputs demo_set demo_sender eq_refl)
    as (d & outs & H1 & H2 & _).
  - unfold demo_inputs. repeat (apply Forall_cons; split); [| | | done | | by apply Forall_nil].
    + apply demo_source_genuine. decided.
    + apply demo_source_genuine. decided.
    + apply demo_repair_genuine; decided.
    + apply demo_source_genuine. decided.
  - intros H. assert (Hin : 6 ∈ (∅ : gset Z)) by (rewrite <- H; by apply elem_of_singleton_2).
    by apply elem_of_empty in Hin.
  - exists d, outs. split; [exact H1 | exact H2].
Defined.

(** C7.  Abandonment is exact.  When the newest sequence number moves to [c] and the floor
    with it, the abandoned count grows by exactly the number of never-known sequence
    numbers the floor passed, its stale twin by those of them below the transition
    boundary, everything below the floor is forgotten and nothing else is, and no
    subtraction underflows. *)
Theorem abandonment_exact (d : SwDecoder) (c : Z) :
  session_ok d -> newest_v_ d < c -> c < 2 ^ 62 -> 0 <= wm_ (wmk_ d) < 2 ^ 62 ->
  let nb := c - horizon_ d in
  base_ d < nb ->
  let d' := advance d c in
  cnt_ d' syms_abandoned = cnt_ d syms_abandoned + Z.of_nat (length (unknown_in d (base_ d) nb)) /\
  cnt_ d' syms_abandoned_stale = cnt_ d syms_abandoned_stale +
    Z.of_nat (length (unknown_in d (base_ d) (stale_bound d nb))) /\
  base_ d' = nb /\ newest_v_ d' = c /\
  (forall v, known_ d' !! v = if bool_decide (nb <= v) then known_ d !! v else None) /\
  (forall p, rows_ d' !! p = if bool_decide (nb <= p) then rows_ d !! p else None).
Proof.
  intros (Hhave & Hn & Hh) Hc Hc2 Hwm nb Hb d'. subst d'. unfold advance.
  rewrite (proj2 (Z.leb_gt _ _)) by done. cbn zeta.
  set (d0 := set_space d (have_seq_ d) c (base_ d)).
  assert (Enb : u64 (newest_v_ d0 - horizon_ d0) = nb) by (apply wrap_small; unfold in_width; cbn; lia).
  rewrite Enb. change (base_ d0) with (base_ d). change (wmk_ d0) with (wmk_ d).
  rewrite (proj2 (Z.leb_gt _ _)) by lia.
  assert (Ew : u64 (wm_ (wmk_ d) + 1) = wm_ (wmk_ d) + 1) by (apply wrap_small; unfold in_width; lia).
  rewrite Ew. fold (stale_bound d nb). set (se := stale_bound d nb).
  assert (Hse : se <= nb).
  { subst se. unfold stale_bound. destruct (wm_open_ _); [lia |]. destruct (wm_valid_ _); lia. }
  rewrite (n_known_in_ext d d0), (n_known_in_ext d d0 _ (Z.min nb se)), Z.min_r by done.
  assert (Hfilt : forall (A : Type) (m : gmap Z A) v,
    filter (fun kv => nb <= fst kv) m !! v = if bool_decide (nb <= v) then m !! v else None).
  { intros A m v. rewrite map_lookup_filter. destruct (m !! v) as [x|]; cbn; [| by case_match].
    case_bool_decide; [by rewrite option_guard_True | by rewrite option_guard_False]. }
  pose proof (abandoned_count d (base_ d) nb ltac:(lia)) as Hab.
  destruct (Z.ltb_spec (base_ d) se) as [Hlt|Hge].
  - pose proof (abandoned_count d (base_ d) se ltac:(lia)) as Hst.
    split; [cbn; repeat case_decide; done || lia |].
    split; [cbn; repeat case_decide; done || lia |].
    split; [done |]. split; [done |]. split; intros v; apply Hfilt.
  - assert (Hnil : unknown_in d (base_ d) se = []).
    { unfold unknown_in. by rewrite seqZ_nil by lia. }
    rewrite Hnil. split; [cbn; repeat case_decide; done || lia |].
    split; [cbn; repeat case_decide; done || lia |].
    split; [done |]. split; [done |]. split; intros v; apply Hfilt.
Qed.

Example abandonment_exact_witness :
  cnt_ (advance demo_d2 (2 ^ 32 + 40)) syms_abandoned =
  cnt_ demo_d2 syms_abandoned + Z.of_nat (length (unknown_in demo_d2 (base_ demo_d2) (2 ^ 32 + 40 - 16))).
Proof.
  apply (abandonment_exact demo_d2 (2 ^ 32 + 40)); unfold session_ok; split_all; vm_compute; congruence.
Defined.

(** A repair that leaves one unknown is not solved while a held equation is keyed by that
    unknown: after source 5, a repair over 6, 7, 8 and one over 5, 6, symbol 6 equals a
    combination of what has been received, and is not handed up. *)
Example lone_loss_delayed :
  (d ← (fst <$> run (new_decoder demo_cfg 0 0)
     [Symbol (demo_source 5) 0 kNone true false; Symbol (demo_repair 6 3 12) 0 kNone true false]);
   '(d', out) ← add_symbol d (demo_repair 5 2 3) 0 kNone true false;
   Some (out, is_known d' 4294967302, map fst (ascending (rows_ d)), map fst (ascending (rows_ d')))) =
  Some ([], false, [4294967302], [4294967302; 4294967303]).
Proof. vm_compute. reflexivity. Qed.
