(* ===== verification/SwEncoder.v ===== *)
(** * SwEncoder: the systematic sliding-window FEC encoder (common/src/sw_encoder.cpp)

    Packets are packed, length-prefixed, into fixed-size symbols; a sealed symbol ships at
    once as a source envelope and enters a ring; a credit system emits repairs, GF(256)
    combinations of the last sealed symbols.  This file is the encoder proper, in its
    synchronous mode; AsyncEncoder.v adds the worker thread. *)
From S2P Require Import Prelude Bytes Gf256 SwWire SwConfig.
Local Open Scope Z_scope.
Local Open Scope mabur_scope.

Definition kSlackRows : nat := 512.
#[global] Arguments kSlackRows : simpl never.

(** ** State *)

(** The ring is its rows, [stride_] bytes each; [sym_] is the symbol area of [env_buf_],
    whose bytes past [cur_len_] may be left over from earlier symbols. *)
Record SwEncoder := mkSwEncoder {
  cfg_ : SwConfig;
  stride_ : nat;
  cap_ : nat;
  count_ : nat;
  next_slot_ : nat;
  ring_ : list (list Z);
  sym_ : list Z;
  cur_len_ : nat;
  next_seq_ : Z;
  repair_key_ : Z;
  credit_ : double;
  tail_repair_pending_ : bool;
  sources_out_ : Z;
  repairs_out_ : Z;
  oversize_drops_ : Z;
}.

Definition clamp_window (w : Z) : Z :=
  let w := if w <? 2 then 2 else w in if kMaxWindow <? w then kMaxWindow else w.

(** The constructor. *)
Definition new_encoder (cfg : SwConfig) (initial_seq : Z) : SwEncoder :=
  let cfg := mkSwConfig (symbol_size cfg) (clamp_window (window cfg)) (overhead cfg) in
  let stride := Z.to_nat (Z.land (symbol_size cfg + 15) (Z.lnot 15)) in
  let cap := (Z.to_nat (window cfg) + kSlackRows)%nat in
  mkSwEncoder cfg stride cap 0 0 (replicate cap (replicate stride 0)) (replicate stride 0) 0
    initial_seq 0 (S754_zero false) false 0 0 0.

Definition ss_of (e : SwEncoder) : nat := Z.to_nat (symbol_size (cfg_ e)).
Definition win_of (e : SwEncoder) : nat := Z.to_nat (window (cfg_ e)).

(** *** Assignments *)

Definition set_cur (e : SwEncoder) (sym : list Z) (len : nat) : SwEncoder :=
  mkSwEncoder (cfg_ e) (stride_ e) (cap_ e) (count_ e) (next_slot_ e) (ring_ e) sym len
    (next_seq_ e) (repair_key_ e) (credit_ e) (tail_repair_pending_ e)
    (sources_out_ e) (repairs_out_ e) (oversize_drops_ e).

Definition set_credit (e : SwEncoder) (c : double) : SwEncoder :=
  mkSwEncoder (cfg_ e) (stride_ e) (cap_ e) (count_ e) (next_slot_ e) (ring_ e) (sym_ e)
    (cur_len_ e) (next_seq_ e) (repair_key_ e) c (tail_repair_pending_ e)
    (sources_out_ e) (repairs_out_ e) (oversize_drops_ e).

Definition set_repair (e : SwEncoder) (key : Z) (repairs : Z) : SwEncoder :=
  mkSwEncoder (cfg_ e) (stride_ e) (cap_ e) (count_ e) (next_slot_ e) (ring_ e) (sym_ e)
    (cur_len_ e) (next_seq_ e) key (credit_ e) false
    (sources_out_ e) repairs (oversize_drops_ e).

Definition count_oversize (e : SwEncoder) : SwEncoder :=
  mkSwEncoder (cfg_ e) (stride_ e) (cap_ e) (count_ e) (next_slot_ e) (ring_ e) (sym_ e)
    (cur_len_ e) (next_seq_ e) (repair_key_ e) (credit_ e) (tail_repair_pending_ e)
    (sources_out_ e) (repairs_out_ e) (oversize_drops_ e + 1).

Definition set_overhead (e : SwEncoder) (o : double) : SwEncoder :=
  mkSwEncoder (mkSwConfig (symbol_size (cfg_ e)) (window (cfg_ e)) o) (stride_ e) (cap_ e)
    (count_ e) (next_slot_ e) (ring_ e) (sym_ e)
    (cur_len_ e) (next_seq_ e) (repair_key_ e) (credit_ e) (tail_repair_pending_ e)
    (sources_out_ e) (repairs_out_ e) (oversize_drops_ e).

(** ** Symbols *)

(** [memcpy(dst + off, data)]. *)
Definition write_at (l : list Z) (off : nat) (data : list Z) : list Z :=
  take off l ++ data ++ drop (off + length data) l.

(** Append [a] followed by [b] as one packet. *)
Definition append_to_current (e : SwEncoder) (a b : list Z) : SwEncoder :=
  let ln := u16 (Z.of_nat (length a + length b)) in
  set_cur e
    (write_at (sym_ e) (cur_len_ e) ([Z.land ln 255; Z.land (Z.shiftr ln 8) 255] ++ a ++ b))
    (cur_len_ e + (2 + length a + length b)).

(** ** Repairs *)

(** FecRepairJob, less the encoder it belongs to. *)
Record Job := mkJob { j_key : Z; j_seq : Z; j_window : nat; j_slot : nat }.

Definition job_rows (e : SwEncoder) (j : Job) : list (list Z) :=
  map (fun i => nth ((j_slot j + i) mod cap_ e) (ring_ e) []) (List.seq 0 (j_window j)).

(** The envelope of a repair over the rows it read. *)
Definition repair_env (e : SwEncoder) (j : Job) (rows : list (list Z)) : list Z :=
  pack_header (mkSwHeader true (u16 (symbol_size (cfg_ e))) (j_seq j)
                 (u8 (Z.of_nat (j_window j))) (j_key j)) ++
  take (ss_of e) (lincomb_rows rows (repair_coeffs (j_key j) (j_window j)) (stride_ e)).

Definition build_repair (e : SwEncoder) (j : Job) : list Z := repair_env e j (job_rows e j).

(** The allocation half of [emit_or_enqueue_repair]: key, window and slot are fixed now. *)
Definition new_job (e : SwEncoder) : Job :=
  let wl := count_ e in
  mkJob (repair_key_ e) (u32 (next_seq_ e - Z.of_nat wl)) wl
    ((next_slot_ e + cap_ e - wl) mod cap_ e).

Definition alloc_repair (e : SwEncoder) : SwEncoder :=
  set_repair e (u32 (repair_key_ e + 1)) (repairs_out_ e + 1).

(** [emit_or_enqueue_repair], synchronous. *)
Definition emit_repair (e : SwEncoder) : SwEncoder * list Z :=
  let e' := alloc_repair e in (e', build_repair e' (new_job e)).

(** [while (credit_ >= 1.0) { emit; credit_ -= 1.0; }]; [None] when the fuel runs out. *)
Fixpoint credit_loop (fuel : nat) (e : SwEncoder) : option (SwEncoder * list (list Z)) :=
  if d_leb d_one (credit_ e) then
    match fuel with
    | O => None
    | S fuel =>
        let '(e, env) := emit_repair e in
        '(e, envs) ← credit_loop fuel (set_credit e (d_sub (credit_ e) d_one));
        Some (e, env :: envs)
    end
  else Some (e, []).

(** Repairs per seal the model follows: far above any overhead the configuration admits. *)
Definition kCreditFuel : nat := 64.
#[global] Arguments kCreditFuel : simpl never.

(** ** Sealing *)

(** The symbol as sealed: zero-padded from [cur_len_] to the symbol size. *)
Definition sealed_symbol (e : SwEncoder) : list Z :=
  take (cur_len_ e) (sym_ e) ++ replicate (ss_of e - cur_len_ e) 0 ++ drop (ss_of e) (sym_ e).

Definition source_env (e : SwEncoder) : list Z :=
  pack_header (mkSwHeader false (u16 (symbol_size (cfg_ e))) (next_seq_ e) 0 0) ++
  take (ss_of e) (sealed_symbol e).

(** The state after the envelope went out: the ring row is written and the slot, window
    count, sequence number and credit advance. *)
Definition store_row (e : SwEncoder) : SwEncoder :=
  let sym := sealed_symbol e in
  mkSwEncoder (cfg_ e) (stride_ e) (cap_ e)
    (if (count_ e <? win_of e)%nat then S (count_ e) else count_ e)
    ((next_slot_ e + 1) mod cap_ e)
    (<[next_slot_ e := write_at (nth (next_slot_ e) (ring_ e) []) 0 (take (ss_of e) sym)]> (ring_ e))
    sym 0 (u32 (next_seq_ e + 1)) (repair_key_ e)
    (d_add (credit_ e) (overhead (cfg_ e))) true
    (sources_out_ e + 1) (repairs_out_ e) (oversize_drops_ e).

Definition seal_current (e : SwEncoder) : option (SwEncoder * list (list Z)) :=
  if (cur_len_ e =? 0)%nat then Some (e, [])
  else
    '(e', envs) ← credit_loop kCreditFuel (store_row e);
    Some (e', source_env e :: envs).

(** ** The public operations *)

(** [static_cast<int>(len)] is a 32-bit truncation. *)
Definition oversize (e : SwEncoder) (len : nat) : bool :=
  max_packet_size (cfg_ e) <? i32 (Z.of_nat len).

Definition add_packet (e : SwEncoder) (a b : list Z) : option (SwEncoder * list (list Z)) :=
  let len := (length a + length b)%nat in
  if oversize e len then Some (count_oversize e, [])
  else
    '(e, envs) ← (if (ss_of e - cur_len_ e <? 2 + len)%nat then seal_current e else Some (e, []));
    Some (append_to_current e a b, envs).

Definition flush (e : SwEncoder) : option (SwEncoder * list (list Z)) :=
  '(e, envs) ← seal_current e;
  if tail_repair_pending_ e && (0 <? count_ e)%nat
  then let '(e, env) := emit_repair e in Some (e, envs ++ [env])
  else Some (e, envs).

Definition has_pending (e : SwEncoder) : bool := negb (cur_len_ e =? 0)%nat.

(** ** The golden vector of tests/vectors/sw.json: the first repair *)

Definition golden_packets : list (list Z) :=
  [[7;38;69;100;131;162;193;224;255;30];
   [24;55;86;117;148;179;210;241;16;47;78;109;140;171;202;233;8;39;70;101;132;163;194;225;0;31;62;
    93;124;155;186;217;248;23;54;85;116;147;178;209;240;15;46;77;108;139;170;201;232;7]].

Example golden_first_envelopes :
  (e ← Some (new_encoder (mkSwConfig 64 8 d_one) 0);
   '(e, o1) ← add_packet e (nth 0 golden_packets []) [];
   '(e, o2) ← add_packet e (nth 1 golden_packets []) [];
   '(e, o3) ← flush e;
   Some (o1, o2, map (take 24) o3)) =
  Some ([], [],
    [[65;245;0;64;0;0;0;0;0;0;0;0;0;0;10;0;7;38;69;100;131;162;193;224];
     [65;245;1;64;0;0;0;0;0;1;0;0;0;0;148;0;55;4;81;98;251;200;157;174]]).
Proof. vm_compute. reflexivity. Qed.
