(* ===== verification/SwEncoderSound.v ===== *)
(** * SwEncoderSound: every envelope the encoder emits is genuine

    The invariant ties the encoder's ring to the history of sealed symbols: row [i mod
    cap_] holds symbol [i] as long as it is among the last [cap_].  Hence a source carries
    its symbol, a repair is the combination its header announces, and every sealed symbol
    unpacks to the packets packed into it. *)
From S2P Require Import Prelude Bytes Gf256 SwWire Elim SwDecoder SwDecoderSound.
From S2P Require Import SwConfig SwEncoder.
Local Open Scope Z_scope.
Local Open Scope mabur_scope.

(** ** Packing and unpacking a symbol *)

Definition packed (ps : list (list Z)) : list Z :=
  concat (map (fun p => put16 (Z.of_nat (length p)) ++ p) ps).

(** Packets as the encoder accepts them: not empty, and short enough for the prefix. *)
Definition packet_ok (p : list Z) : Prop := bytes_ok p /\ (0 < length p)%nat /\ Z.of_nat (length p) < 2 ^ 16.

Lemma packed_snoc ps p : packed (ps ++ [p]) = packed ps ++ put16 (Z.of_nat (length p)) ++ p.
Proof. unfold packed. rewrite map_app, concat_app. cbn. by rewrite app_nil_r. Qed.

Lemma get16_zeros pre k : (2 <= k)%nat -> get16 (pre ++ replicate k 0) (length pre) = Some 0.
Proof.
  intros Hk. rewrite <- (Nat.add_0_r (length pre)) at 1. rewrite get16_app.
  destruct k as [|[|k]]; [lia | lia | done].
Qed.

Lemma unpack_loop_packed fuel ss ps pre :
  Forall packet_ok ps -> (length pre + length (packed ps) <= ss)%nat ->
  (ss - length pre < fuel)%nat ->
  SwDecoder.unpack_symbol_loop fuel ss
    (pre ++ packed ps ++ replicate (ss - (length pre + length (packed ps))) 0) (length pre) = Some ps.
Proof.
  intros Hps. revert fuel pre. induction Hps as [|p ps (Hb & H0 & H16) Hps IH]; intros fuel pre Hl Hf.
  - destruct fuel as [|fuel]; [lia |]. cbn [SwDecoder.unpack_symbol_loop].
    destruct (Nat.leb_spec (length pre + 2) ss); [| done].
    cbn [packed map concat app length]. rewrite get16_zeros by lia. done.
  - destruct fuel as [|fuel]; [lia |]. cbn [SwDecoder.unpack_symbol_loop].
    change (packed (p :: ps)) with ((put16 (Z.of_nat (length p)) ++ p) ++ packed ps) in *.
    rewrite !length_app in *. change (length (put16 (Z.of_nat (length p)))) with 2%nat in *.
    rewrite (proj2 (Nat.leb_le _ _)) by lia.
    assert (Hg : forall l, get16 (pre ++ (put16 (Z.of_nat (length p)) ++ l)) (length pre) =
      Some (Z.of_nat (length p))).
    { intros l. rewrite <- (Nat.add_0_r (length pre)) at 1. rewrite get16_app.
      apply get16_put16. unfold in_width. lia. }
    rewrite <- !(app_assoc (put16 _)), Hg. cbn [mbind option_bind].
    rewrite (proj2 (Z.eqb_neq _ 0)) by lia. rewrite Nat2Z.id.
    rewrite (proj2 (Nat.ltb_ge _ _)) by lia.
    replace (pre ++ put16 (Z.of_nat (length p)) ++ (p ++ packed ps) ++
             replicate (ss - (length pre + (2 + length p + length (packed ps)))) 0)
      with ((pre ++ put16 (Z.of_nat (length p)) ++ p) ++ packed ps ++
            replicate (ss - (length (pre ++ put16 (Z.of_nat (length p)) ++ p) + length (packed ps))) 0)
      by (rewrite <- !app_assoc, !length_app; change (length (put16 _)) with 2%nat;
          do 5 f_equal; lia).
    rewrite get_slice_in.
    + cbn [mbind option_bind].
      replace (length pre + 2 + length p)%nat with (length (pre ++ put16 (Z.of_nat (length p)) ++ p))
        by (rewrite !length_app; change (length (put16 _)) with 2%nat; lia).
      rewrite IH.
      * cbn [mbind option_bind]. do 2 f_equal.
        replace (length pre + 2)%nat with (length (pre ++ put16 (Z.of_nat (length p))))
          by (rewrite length_app; done).
        rewrite (app_assoc pre), <- (app_assoc (pre ++ _)), drop_app_length.
        apply take_app_length.
      * rewrite !length_app. change (length (put16 _)) with 2%nat. lia.
      * rewrite !length_app. change (length (put16 _)) with 2%nat. lia.
    + rewrite !length_app. change (length (put16 _)) with 2%nat. lia.
Qed.

Lemma unpack_packed_symbol ss ps :
  Forall packet_ok ps -> (length (packed ps) <= ss)%nat ->
  SwDecoder.unpack_symbol ss (packed ps ++ replicate (ss - length (packed ps)) 0) = Some ps.
Proof. intros Hps Hl. apply (unpack_loop_packed (S ss) ss ps []); [done | cbn; lia | cbn; lia]. Qed.

(** ** The invariant *)

(** The symbol sent under a wire sequence number, in a history that began at [init]. *)
Definition src_of (ss : nat) (init : Z) (syms : list (list Z)) (s : Z) : list Z :=
  nth (Z.to_nat (u32 (s - init))) syms (replicate ss 0).

(** The parts of the state no operation changes once the encoder is built. *)
Record enc_geometry (e : SwEncoder) : Prop := {
  eg_ss : 2 <= symbol_size (cfg_ e) < 2 ^ 16;
  eg_win : 2 <= window (cfg_ e) <= 255;
  eg_cap : cap_ e = (win_of e + kSlackRows)%nat;
  eg_stride : (ss_of e <= stride_ e)%nat;
}.

(** The ring: the last [cap_] symbols of the history, each in the slot of its index. *)
Record ring_inv (e : SwEncoder) (init : Z) (syms : list (list Z)) : Prop := {
  ri_len : length (ring_ e) = cap_ e;
  ri_rows : Forall (fun r => length r = stride_ e /\ bytes_ok r) (ring_ e);
  ri_slot : next_slot_ e = (length syms mod cap_ e)%nat;
  ri_count : count_ e = Nat.min (length syms) (win_of e);
  ri_seq : next_seq_ e = u32 (init + Z.of_nat (length syms));
  ri_key : in_width 32 (repair_key_ e);
  ri_sym : forall i, (i < length syms)%nat -> (length syms - i <= cap_ e)%nat ->
    take (ss_of e) (nth (i mod cap_ e) (ring_ e) []) = nth i syms [];
  ri_ss : Forall (fun y => length y = ss_of e /\ bytes_ok y) syms;
}.

(** The symbol under construction holds the pending packets. *)
Record cur_inv (e : SwEncoder) (pend : list (list Z)) : Prop := {
  ci_len : length (sym_ e) = stride_ e;
  ci_bytes : bytes_ok (sym_ e);
  ci_cur : cur_len_ e = length (packed pend);
  ci_fit : (cur_len_ e <= ss_of e)%nat;
  ci_packed : take (cur_len_ e) (sym_ e) = packed pend;
  ci_ok : Forall packet_ok pend;
}.

Record enc_inv (e : SwEncoder) (init : Z) (syms : list (list Z)) (pend : list (list Z)) : Prop := {
  ei_geo : enc_geometry e;
  ei_ring : ring_inv e init syms;
  ei_cur : cur_inv e pend;
}.

(** An envelope the encoder may emit: genuine for this history and every longer one that
    does not wrap the sequence space. *)
Definition env_ok (ss : nat) (init : Z) (syms : list (list Z)) (env : list Z) : Prop :=
  forall more, Z.of_nat (length (syms ++ more)) <= 2 ^ 32 ->
    Forall (fun y => length y = ss /\ bytes_ok y) more ->
    genuine ss (src_of ss init (syms ++ more)) env.

Lemma u32_sub_add init i : 0 <= i < 2 ^ 32 -> u32 (u32 (init + i) - init) = i.
Proof. intros Hi. mlia. Qed.

Lemma src_of_at ss init syms more i :
  (i < length syms)%nat -> Z.of_nat (length (syms ++ more)) <= 2 ^ 32 ->
  src_of ss init (syms ++ more) (u32 (init + Z.of_nat i)) = nth i syms [].
Proof.
  intros Hi Hl. rewrite length_app in Hl. unfold src_of. rewrite u32_sub_add by lia.
  rewrite Nat2Z.id, app_nth1 by done. by apply nth_indep.
Qed.

Lemma nth_take_lt (l : list Z) n j : (j < n)%nat -> nth j (take n l) 0 = nth j l 0.
Proof. intros. by rewrite !nth_lookup, lookup_take_lt. Qed.

Lemma take_map_seq {A} (f : nat -> A) n m : (n <= m)%nat -> take n (map f (List.seq 0 m)) = map f (List.seq 0 n).
Proof.
  intros H. replace m with (n + (m - n))%nat by lia. rewrite seq_app, map_app.
  rewrite take_app_length'; [done |]. by rewrite length_map, length_seq.
Qed.

(** The first bytes of a combination of rows are the combination of their first bytes. *)
Lemma lincomb_rows_take rows cs ss stride :
  (ss <= stride)%nat -> Forall (fun r => length r = stride /\ bytes_ok r) rows ->
  take ss (lincomb_rows rows cs stride) = lincomb_rows (map (take ss) rows) cs ss.
Proof.
  intros Hle Hr. rewrite !lincomb_rows_spec.
  - rewrite take_map_seq by done. apply map_ext_in. intros j Hj%in_seq.
    unfold rows_sum.
    assert (G : forall x cs, foldl (fun x '(r, c) => x ⊕ mul c (nth j r 0)) x (zip rows cs) =
      foldl (fun x '(r, c) => x ⊕ mul c (nth j r 0)) x (zip (map (take ss) rows) cs)); [| apply G].
    clear Hr. induction rows as [|r rows IH]; intros x [|c cs']; try done.
    cbn [map zip zip_with foldl]. rewrite nth_take_lt by lia. apply IH.
  - apply Forall_map. eapply Forall_impl; [exact Hr |]. intros r [Hl Hb].
    rewrite length_take. split; [lia | by apply Forall_take].
  - eapply Forall_impl; [exact Hr |]. intros r [Hl Hb]. split; [lia | done].
Qed.

Lemma nth_in_Forall {A} (P : A -> Prop) (l : list A) i d : Forall P l -> (i < length l)%nat -> P (nth i l d).
Proof. intros H Hi. rewrite Forall_forall in H. apply H. apply list_elem_of_In. by apply nth_In. Qed.

Lemma mod_sub_add a b c : (c <= a)%nat -> (c <= b)%nat -> (0 < b)%nat ->
  forall i, (((a mod b + b - c) mod b + i) mod b = (a - c + i) mod b)%nat.
Proof.
  intros Hca Hcb Hb i. rewrite Nat.Div0.add_mod_idemp_l.
  pose proof (Nat.div_mod_eq a b) as E. set (q := (a / b)%nat) in *. set (r := (a mod b)%nat) in *.
  assert (r < b)%nat by (apply Nat.mod_upper_bound; lia).
  destruct (Nat.le_gt_cases c r) as [Hcr|Hcr].
  - replace (r + b - c + i)%nat with (r - c + i + 1 * b)%nat by lia.
    replace (a - c + i)%nat with (r - c + i + q * b)%nat by nia.
    by rewrite !Nat.Div0.mod_add.
  - assert (0 < q)%nat by nia.
    replace (a - c + i)%nat with (r + b - c + i + (q - 1) * b)%nat by nia.
    by rewrite Nat.Div0.mod_add.
Qed.

(** ** Repairs are genuine *)

(** A job created when [n] symbols had been sealed. *)
Record job_ok (e : SwEncoder) (init : Z) (n : nat) (j : Job) : Prop := {
  jo_key : in_width 32 (j_key j);
  jo_seq : j_seq j = u32 (init + Z.of_nat n - Z.of_nat (j_window j));
  jo_window : (0 < j_window j <= win_of e)%nat /\ (j_window j <= n)%nat;
  jo_slot : j_slot j = ((n - j_window j) mod cap_ e)%nat;
}.

(** Its rows are still in the ring: fewer than [cap_] symbols sealed since its oldest. *)
Definition rows_live (e : SwEncoder) (syms : list (list Z)) (n : nat) (j : Job) : Prop :=
  (n <= length syms)%nat /\ (length syms - (n - j_window j) <= cap_ e)%nat.

Lemma cap_pos e : enc_geometry e -> (0 < cap_ e)%nat.
Proof. intros []. rewrite eg_cap0. unfold win_of. lia. Qed.

Lemma job_row_symbol e init syms n j i :
  enc_geometry e -> ring_inv e init syms -> job_ok e init n j -> rows_live e syms n j ->
  (i < j_window j)%nat ->
  let row := nth ((j_slot j + i) mod cap_ e) (ring_ e) [] in
  (length row = stride_ e /\ bytes_ok row) /\ take (ss_of e) row = nth (n - j_window j + i) syms [].
Proof.
  intros Hg Hr Hj [Hn Hl] Hi row. pose proof (cap_pos e Hg) as Hc.
  destruct (jo_window _ _ _ _ Hj) as [_ Hw].
  assert (E : ((j_slot j + i) mod cap_ e = (n - j_window j + i) mod cap_ e)%nat)
    by (by rewrite (jo_slot _ _ _ _ Hj), Nat.Div0.add_mod_idemp_l).
  subst row. rewrite E. split.
  - apply (nth_in_Forall (fun r => length r = stride_ e /\ bytes_ok r) (ring_ e)).
    + apply (ri_rows _ _ _ Hr).
    + rewrite (ri_len _ _ _ Hr). apply Nat.mod_upper_bound. lia.
  - apply (ri_sym _ _ _ Hr); lia.
Qed.

Lemma build_repair_genuine e init syms n j :
  enc_geometry e -> ring_inv e init syms -> job_ok e init n j -> rows_live e syms n j ->
  env_ok (ss_of e) init syms (build_repair e j).
Proof.
  intros Hg Hr Hj Hl more Hlen Hmore. unfold build_repair, repair_env.
  pose proof (eg_ss e Hg) as Hss. pose proof (eg_win e Hg) as Hwin.
  destruct (jo_window _ _ _ _ Hj) as [Hw Hwn]. destruct Hl as [Hn Hlive].
  assert (Hwl : u8 (Z.of_nat (j_window j)) = Z.of_nat (j_window j)).
  { apply wrap_small. unfold in_width. unfold win_of in Hw. lia. }
  rewrite Hwl, (wrap_small 16) by (unfold in_width; lia).
  assert (Hrows : Forall (fun r => length r = stride_ e /\ bytes_ok r) (job_rows e j)).
  { unfold job_rows. apply Forall_map, Forall_forall. intros i Hi%elem_of_seq.
    apply (job_row_symbol e init syms n j i); try done. lia. }
  rewrite (lincomb_rows_take _ _ (ss_of e)) by (done || apply (eg_stride e Hg)).
  apply genuine_packed; cbn [repair window_len repair_key SwWire.seq].
  - split; [cbn; unfold in_width; lia |]. split; [cbn; rewrite (jo_seq _ _ _ _ Hj); width |].
    split; [cbn; unfold in_width; unfold win_of in Hw; lia | apply (jo_key _ _ _ _ Hj)].
  - cbn. lia.
  - apply lincomb_rows_bytes.
  - unfold repair_symbol. rewrite Nat2Z.id. f_equal. unfold job_rows. rewrite map_map.
    apply map_ext_in. intros i Hi%in_seq.
    destruct (job_row_symbol e init syms n j i) as [_ ->]; try done; [lia |].
    rewrite (jo_seq _ _ _ _ Hj).
    replace (u32 (u32 (init + Z.of_nat n - Z.of_nat (j_window j)) + Z.of_nat i))
      with (u32 (init + Z.of_nat (n - j_window j + i))) by mlia.
    rewrite src_of_at by (done || lia). done.
Qed.

Lemma new_job_ok e init syms :
  enc_geometry e -> ring_inv e init syms -> (0 < length syms)%nat ->
  job_ok e init (length syms) (new_job e) /\ rows_live e syms (length syms) (new_job e).
Proof.
  intros Hg Hr Hn. pose proof (cap_pos e Hg) as Hc. pose proof (eg_win e Hg) as Hwin.
  assert (Hcnt : count_ e = Nat.min (length syms) (win_of e)) by apply (ri_count _ _ _ Hr).
  assert (Hwc : (win_of e <= cap_ e)%nat) by (rewrite (eg_cap e Hg); lia).
  split.
  - constructor; cbn.
    + apply (ri_key _ _ _ Hr).
    + rewrite (ri_seq _ _ _ Hr). mlia.
    + rewrite Hcnt. unfold win_of. lia.
    + rewrite (ri_slot _ _ _ Hr).
      pose proof (mod_sub_add (length syms) (cap_ e) (count_ e) ltac:(lia) ltac:(lia) Hc 0) as E.
      rewrite !Nat.add_0_r, Nat.Div0.mod_mod in E. exact E.
  - split; [done |]. cbn. lia.
Qed.

Lemma emit_ok e init syms pend :
  enc_inv e init syms pend -> (0 < length syms)%nat ->
  let '(e', env) := emit_repair e in
  enc_inv e' init syms pend /\ env_ok (ss_of e) init syms env /\ cfg_ e' = cfg_ e.
Proof.
  intros [Hg Hr Hc] Hn. unfold emit_repair.
  assert (Hg' : enc_geometry (alloc_repair e)) by (destruct Hg; by constructor).
  assert (Hr' : ring_inv (alloc_repair e) init syms).
  { destruct Hr. constructor; try done. cbn. width. }
  split; [| split; [| done]].
  - constructor; [done | done |]. destruct Hc. by constructor.
  - destruct (new_job_ok e init syms Hg Hr Hn) as [Hj Hl].
    apply (build_repair_genuine (alloc_repair e) init syms (length syms)); try done.
    destruct Hj. by constructor.
Qed.

Lemma credit_loop_ok fuel e init syms pend e' envs :
  enc_inv e init syms pend -> (0 < length syms)%nat -> credit_loop fuel e = Some (e', envs) ->
  enc_inv e' init syms pend /\ Forall (env_ok (ss_of e) init syms) envs /\ cfg_ e' = cfg_ e.
Proof.
  revert e envs. induction fuel as [|fuel IH]; intros e envs Hi Hn; cbn [credit_loop];
    (destruct (d_leb d_one (credit_ e)); [| intros [= <- <-]; by split_all]); [done |].
  pose proof (emit_ok e init syms pend Hi Hn) as He. destruct (emit_repair e) as [e1 env] eqn:E.
  destruct He as (Hi1 & Henv & Hc1).
  assert (Hi2 : enc_inv (set_credit e1 (d_sub (credit_ e1) d_one)) init syms pend).
  { destruct Hi1 as [[] [] []]. constructor; by constructor. }
  destruct (credit_loop fuel _) as [[e2 envs2]|] eqn:El; [| done].
  cbn [mbind option_bind]. intros [= <- <-].
  destruct (IH _ _ Hi2 Hn El) as (H1 & H2 & H3). split; [done |].
  assert (Hss : ss_of (set_credit e1 (d_sub (credit_ e1) d_one)) = ss_of e)
    by (unfold ss_of; cbn; by rewrite Hc1).
  rewrite Hss in H2. split; [by constructor | by rewrite H3].
Qed.

(** ** Sealing *)

(** The symbol that sealing the pending packets produces. *)
Definition symbol_of (ss : nat) (pend : list (list Z)) : list Z :=
  packed pend ++ replicate (ss - length (packed pend)) 0.

Lemma put16_ok v : bytes_ok (put16 v).
Proof. apply put16_bytes. Qed.

Lemma packed_bytes pend : Forall packet_ok pend -> bytes_ok (packed pend).
Proof.
  induction 1 as [|p ps (Hb & _) Hps IH]; [constructor |].
  change (packed (p :: ps)) with ((put16 (Z.of_nat (length p)) ++ p) ++ packed ps).
  apply Forall_app. split; [| done]. apply Forall_app. split; [apply put16_ok | done].
Qed.

Lemma symbol_of_ok ss pend :
  Forall packet_ok pend -> (length (packed pend) <= ss)%nat ->
  length (symbol_of ss pend) = ss /\ bytes_ok (symbol_of ss pend).
Proof.
  intros Hp Hl. unfold symbol_of. rewrite length_app, length_replicate. split; [lia |].
  apply Forall_app. split; [by apply packed_bytes | apply Forall_replicate; mlia].
Qed.

Lemma sealed_take e pend :
  cur_inv e pend -> (ss_of e <= stride_ e)%nat ->
  take (ss_of e) (sealed_symbol e) = symbol_of (ss_of e) pend /\
  length (sealed_symbol e) = stride_ e /\ bytes_ok (sealed_symbol e).
Proof.
  intros [Hl Hb Hc Hf Hp Hok] Hs. unfold sealed_symbol. rewrite Hp. unfold symbol_of. rewrite <- Hc.
  split.
  - rewrite app_assoc, take_app_length'; [done |]. rewrite length_app, length_replicate. lia.
  - split.
    + rewrite !length_app, length_replicate, length_drop, <- Hc. lia.
    + apply Forall_app. split; [by apply packed_bytes |].
      apply Forall_app. split; [apply Forall_replicate; mlia | by apply Forall_drop].
Qed.

Lemma env_ok_mono ss init syms m env :
  Forall (fun y => length y = ss /\ bytes_ok y) m -> env_ok ss init syms env -> env_ok ss init (syms ++ m) env.
Proof.
  intros Hm H more Hl Hmore. rewrite <- app_assoc in *. apply H; [done |]. by apply Forall_app.
Qed.

Lemma source_env_ok e init syms pend :
  enc_inv e init syms pend ->
  env_ok (ss_of e) init (syms ++ [symbol_of (ss_of e) pend]) (source_env e).
Proof.
  intros [Hg Hr Hc] more Hl Hmore. unfold source_env. pose proof (eg_ss e Hg) as Hss.
  destruct (sealed_take e pend Hc (eg_stride e Hg)) as [-> _].
  rewrite (wrap_small 16) by (unfold in_width; lia).
  destruct (symbol_of_ok (ss_of e) pend) as [Hyl Hyb]; [apply Hc | destruct Hc; lia |].
  apply genuine_packed; cbn [repair SwWire.seq].
  - split; [cbn; unfold in_width; lia |]. rewrite (ri_seq _ _ _ Hr).
    split; [cbn; width |]. split; cbn; decided.
  - done.
  - done.
  - rewrite (ri_seq _ _ _ Hr), src_of_at by (rewrite ?length_app in *; cbn in *; lia).
    rewrite app_nth2, Nat.sub_diag by lia. done.
Qed.

Lemma store_row_ok e init syms pend :
  enc_inv e init syms pend -> enc_inv (store_row e) init (syms ++ [symbol_of (ss_of e) pend]) [].
Proof.
  intros [Hg Hr Hc]. pose proof (cap_pos e Hg) as Hcap.
  destruct (sealed_take e pend Hc (eg_stride e Hg)) as (Hy & Hsl & Hsb).
  destruct (symbol_of_ok (ss_of e) pend) as [Hyl Hyb]; [apply Hc | destruct Hc; lia |].
  destruct Hr as [Hlen Hrows Hslot Hcnt Hseq Hkey Hsym Hsso].
  assert (Hslt : (next_slot_ e < length (ring_ e))%nat)
    by (rewrite Hlen, Hslot; apply Nat.mod_upper_bound; lia).
  assert (Hold : length (nth (next_slot_ e) (ring_ e) []) = stride_ e /\
    bytes_ok (nth (next_slot_ e) (ring_ e) []))
    by (apply (nth_in_Forall (fun r => length r = stride_ e /\ bytes_ok r)); done).
  pose proof (eg_stride e Hg) as Hst.
  set (row := write_at (nth (next_slot_ e) (ring_ e) []) 0 (take (ss_of e) (sealed_symbol e))).
  assert (Hrow : length row = stride_ e /\ bytes_ok row /\ take (ss_of e) row = symbol_of (ss_of e) pend).
  { subst row. unfold write_at. rewrite Hy, take_0. cbn [app Nat.add]. rewrite Hyl. split; [| split].
    - rewrite length_app, length_drop, Hyl. lia.
    - apply Forall_app. split; [done |]. apply Forall_drop, Hold.
    - rewrite take_app_length'; done. }
  destruct Hrow as (Hrl & Hrb & Hrt).
  constructor.
  - destruct Hg. by constructor.
  - constructor; cbn [store_row ring_ cap_ stride_ next_slot_ count_ next_seq_ repair_key_].
    + by rewrite length_insert.
    + by apply Forall_insert.
    + rewrite Hslot, length_app, Nat.Div0.add_mod_idemp_l. done.
    + rewrite length_app, Hcnt. cbn [length]. change (win_of (store_row e)) with (win_of e).
      destruct (Nat.ltb_spec (Nat.min (length syms) (win_of e)) (win_of e)); lia.
    + rewrite Hseq, length_app. cbn [length]. mlia.
    + done.
    + change (ss_of (store_row e)) with (ss_of e). fold row. rewrite length_app. cbn [length].
      intros i Hi Hil. destruct (decide (i = length syms)) as [->|Hne].
      * rewrite <- Hslot. rewrite nth_lookup, list_lookup_insert_eq by done. cbn.
        by rewrite Hrt, app_nth2, Nat.sub_diag by lia.
      * assert (Hneq : (length syms mod cap_ e <> i mod cap_ e)%nat).
        { intros E. pose proof (Nat.div_mod_eq (length syms) (cap_ e)) as E1.
          pose proof (Nat.div_mod_eq i (cap_ e)) as E2.
          rewrite E in E1. set (q1 := (length syms / cap_ e)%nat) in *. set (q2 := (i / cap_ e)%nat) in *.
          destruct (Nat.le_gt_cases q1 q2) as [Hq|Hq].
          - pose proof (Nat.mul_le_mono_l _ _ (cap_ e) Hq). lia.
          - pose proof (Nat.mul_le_mono_l (q2 + 1) q1 (cap_ e) ltac:(lia)). lia. }
        rewrite nth_lookup, list_lookup_insert_ne by (rewrite Hslot; done).
        rewrite <- nth_lookup, Hsym, app_nth1 by lia. done.
    + change (ss_of (store_row e)) with (ss_of e). apply Forall_app. split; [done |]. by constructor.
  - constructor; cbn [store_row sym_ cur_len_ stride_]; try done. cbn. lia.
Qed.

Lemma seal_ok e init syms pend e' envs :
  enc_inv e init syms pend -> seal_current e = Some (e', envs) -> cfg_ e' = cfg_ e /\
  ((pend = [] /\ e' = e /\ envs = []) \/
   (pend <> [] /\ enc_inv e' init (syms ++ [symbol_of (ss_of e) pend]) [] /\
    Forall (env_ok (ss_of e) init (syms ++ [symbol_of (ss_of e) pend])) envs)).
Proof.
  intros Hi. unfold seal_current. destruct (ei_cur _ _ _ _ Hi) as [_ _ Hcur _ _ Hok].
  destruct pend as [|p pend].
  - rewrite Hcur. cbn. intros [= <- <-]. split; [done | by left].
  - rewrite Hcur.
    assert (Hpos : (length (packed (p :: pend)) =? 0)%nat = false).
    { apply Nat.eqb_neq. change (packed (p :: pend)) with ((put16 (Z.of_nat (length p)) ++ p) ++ packed pend).
      rewrite !length_app. cbn. lia. }
    rewrite Hpos. destruct (credit_loop kCreditFuel (store_row e)) as [[e1 envs1]|] eqn:El; [| done].
    cbn [mbind option_bind]. intros [= <- <-].
    assert (Hne : (0 < length (syms ++ [symbol_of (ss_of e) (p :: pend)]))%nat)
      by (rewrite length_app; cbn; lia).
    destruct (credit_loop_ok _ _ _ _ _ _ _ (store_row_ok e init syms _ Hi) Hne El) as (H1 & H2 & H3).
    split; [done |]. right. split; [done |]. split; [done |]. constructor; [| done].
    by apply source_env_ok.
Qed.

(** ** Packets *)

Lemma write_at_take l off data :
  (off + length data <= length l)%nat ->
  length (write_at l off data) = length l /\
  take (off + length data) (write_at l off data) = take off l ++ data.
Proof.
  intros H. unfold write_at. split.
  - rewrite !length_app, length_take, length_drop. lia.
  - rewrite app_assoc, take_app_length'; [done |]. rewrite length_app, length_take. lia.
Qed.

Lemma append_ok e pend a b :
  cur_inv e pend -> (ss_of e <= stride_ e)%nat -> (cur_len_ e + (2 + length a + length b) <= ss_of e)%nat ->
  packet_ok (a ++ b) -> cur_inv (append_to_current e a b) (pend ++ [a ++ b]).
Proof.
  intros [Hl Hb Hc Hf Hp Hok] Hst Hfit Hpk. unfold append_to_current. cbn zeta.
  set (ln := u16 (Z.of_nat (length a + length b))).
  set (data := [Z.land ln 255; Z.land (Z.shiftr ln 8) 255] ++ a ++ b).
  assert (Hpre : data = put16 (Z.of_nat (length (a ++ b))) ++ a ++ b).
  { subst data ln. destruct Hpk as (_ & _ & H16). rewrite length_app in *.
    by rewrite (wrap_small 16) by (unfold in_width; lia). }
  assert (Hdl : length data = (2 + length a + length b)%nat)
    by (rewrite Hpre, !length_app; cbn; lia).
  destruct (write_at_take (sym_ e) (cur_len_ e) data) as [Hwl Hwt]; [lia |].
  rewrite Hdl in Hwt.
  constructor; cbn [set_cur sym_ cur_len_ stride_].
  - by rewrite Hwl.
  - unfold write_at. apply Forall_app. split; [by apply Forall_take |].
    apply Forall_app. split; [| by apply Forall_drop]. rewrite Hpre.
    apply Forall_app. split; [apply put16_ok | apply Hpk].
  - rewrite packed_snoc, !length_app, Hc. change (length (put16 _)) with 2%nat. lia.
  - change (ss_of (set_cur e _ _)) with (ss_of e). lia.
  - rewrite Hwt, Hp, packed_snoc. by rewrite Hpre.
  - apply Forall_app. split; [done | by constructor].
Qed.

Lemma oversize_false e len :
  enc_geometry e -> Z.of_nat len < 2 ^ 31 -> oversize e len = false ->
  Z.of_nat len <= symbol_size (cfg_ e) - 2.
Proof.
  intros Hg Hl. unfold oversize, max_packet_size, sext. cbn zeta.
  rewrite wrap_small by (unfold in_width; lia).
  rewrite (proj2 (Z.ltb_lt (Z.of_nat len) (2 ^ (32 - 1)))) by done.
  intros H%Z.ltb_ge. lia.
Qed.

(** The owner's calls, and what it must respect: non-empty packets of sane length. *)
Inductive eop :=
| AddPacket (a b : list Z)
| Flush
| SetOverhead (o : double).

Definition eop_ok (o : eop) : Prop :=
  match o with
  | AddPacket a b => bytes_ok (a ++ b) /\ (0 < length (a ++ b))%nat /\ Z.of_nat (length (a ++ b)) < 2 ^ 31
  | _ => True
  end.

Definition estep (e : SwEncoder) (o : eop) : option (SwEncoder * list (list Z)) :=
  match o with
  | AddPacket a b => add_packet e a b
  | Flush => flush e
  | SetOverhead x => Some (set_overhead e x, [])
  end.

Fixpoint erun (e : SwEncoder) (ops : list eop) : option (SwEncoder * list (list Z)) :=
  match ops with
  | [] => Some (e, [])
  | o :: ops => '(e, o1) ← estep e o; '(e, o2) ← erun e ops; Some (e, o1 ++ o2)
  end.

(** The packets a configuration accepts from a list of calls. *)
Definition accepted (ss : Z) (o : eop) : list (list Z) :=
  match o with
  | AddPacket a b => if Z.of_nat (length (a ++ b)) <=? ss - 2 then [a ++ b] else []
  | _ => []
  end.


Record enc_trace (e : SwEncoder) (init : Z) (groups : list (list (list Z))) (pend : list (list Z))
    (pkts : list (list Z)) : Prop := {
  et_inv : enc_inv e init (map (symbol_of (ss_of e)) groups) pend;
  et_pkts : pkts = concat groups ++ pend;
  et_groups : Forall (fun g => Forall packet_ok g /\ (length (packed g) <= ss_of e)%nat) groups;
  et_nonempty : Forall (fun g => g <> []) groups;
  et_sources : sources_out_ e = Z.of_nat (length groups);
}.

Lemma credit_loop_sources fuel e e' envs : credit_loop fuel e = Some (e', envs) -> sources_out_ e' = sources_out_ e.
Proof.
  revert e envs. induction fuel as [|fuel IH]; intros e envs; cbn [credit_loop];
    (destruct (d_leb d_one (credit_ e)); [| by intros [= <- <-]]); [done |].
  cbn [emit_repair]. destruct (credit_loop fuel _) as [[e1 l]|] eqn:E; [| done].
  cbn [mbind option_bind]. intros [= <- <-]. by rewrite (IH _ _ E).
Qed.

Lemma seal_sources e e' envs : seal_current e = Some (e', envs) ->
  sources_out_ e' = if (cur_len_ e =? 0)%nat then sources_out_ e else sources_out_ e + 1.
Proof.
  unfold seal_current. destruct (cur_len_ e =? 0)%nat; [by intros [= <- _] |].
  destruct (credit_loop _ _) as [[e1 l]|] eqn:E; [| done]. cbn [mbind option_bind]. intros [= <- _].
  by rewrite (credit_loop_sources _ _ _ _ E).
Qed.

Lemma cur_zero e pend : cur_inv e pend -> (cur_len_ e =? 0)%nat = match pend with [] => true | _ => false end.
Proof.
  intros [_ _ -> _ _ _]. destruct pend as [|p pend]; [done |]. apply Nat.eqb_neq.
  change (packed (p :: pend)) with ((put16 (Z.of_nat (length p)) ++ p) ++ packed pend).
  rewrite !length_app. cbn. lia.
Qed.

Lemma seal_trace e init groups pend pkts e' envs :
  enc_trace e init groups pend pkts -> seal_current e = Some (e', envs) ->
  cfg_ e' = cfg_ e /\ exists groups', enc_trace e' init groups' [] pkts /\ groups `prefix_of` groups' /\
    Forall (env_ok (ss_of e) init (map (symbol_of (ss_of e)) groups')) envs.
Proof.
  intros [Hi Hp Hg Hn Hso] Hs. destruct (seal_ok e init _ pend e' envs Hi Hs) as [Hcfg Hc]. split; [done |].
  pose proof (seal_sources e e' envs Hs) as Hsrc. rewrite (cur_zero e pend (ei_cur _ _ _ _ Hi)) in Hsrc.
  assert (Ess : ss_of e' = ss_of e) by (unfold ss_of; by rewrite Hcfg).
  destruct Hc as [(-> & -> & ->) | (Hne & Hi' & Henvs)].
  - exists groups. split; [by constructor |]. split; [done | constructor].
  - exists (groups ++ [pend]). rewrite map_app. cbn [map]. split; [| split; [by apply prefix_app_r | done]].
    constructor.
    + by rewrite Ess, map_app.
    + rewrite Hp, concat_app. cbn. by rewrite !app_nil_r.
    + rewrite Ess. apply Forall_app. split; [done |]. constructor; [| constructor].
      destruct (ei_cur _ _ _ _ Hi). split; [done | lia].
    + apply Forall_app. split; [done |]. by constructor.
    + rewrite length_app. destruct pend; [done | cbn [length]; lia].
Qed.

(** ** Histories of calls *)

Lemma flush_trace e init groups pend pkts e' envs :
  enc_trace e init groups pend pkts -> flush e = Some (e', envs) ->
  cfg_ e' = cfg_ e /\ exists groups', enc_trace e' init groups' [] pkts /\ groups `prefix_of` groups' /\
    Forall (env_ok (ss_of e) init (map (symbol_of (ss_of e)) groups')) envs.
Proof.
  intros Ht. unfold flush. destruct (seal_current e) as [[e1 envs1]|] eqn:Es; [| done].
  cbn [mbind option_bind]. destruct (seal_trace _ _ _ _ _ _ _ Ht Es) as (Hcfg & g1 & Ht1 & Hpre & Henv).
  assert (Ess : ss_of e1 = ss_of e) by (unfold ss_of; by rewrite Hcfg).
  destruct (tail_repair_pending_ e1 && (0 <? count_ e1)%nat) eqn:Et.
  - apply andb_prop in Et as [_ Hcnt%Nat.ltb_lt]. destruct Ht1 as [Hi1 Hp1 Hg1 Hn1 Hso1].
    assert (Hn : (0 < length (map (symbol_of (ss_of e1)) g1))%nat).
    { rewrite (ri_count _ _ _ (ei_ring _ _ _ _ Hi1)) in Hcnt. lia. }
    pose proof (emit_ok e1 init _ [] Hi1 Hn) as He. unfold emit_repair in *.
    destruct He as (Hi2 & Henv2 & Hc2). intros [= <- <-]. split; [done |]. exists g1.
    split; [constructor; [exact Hi2 | done..] |]. split; [done |].
    apply Forall_app. split; [done |]. rewrite <- Ess. by constructor.
  - intros [= <- <-]. split; [done |]. by exists g1.
Qed.

Lemma add_trace e init groups pend pkts a b e' envs :
  enc_trace e init groups pend pkts -> eop_ok (AddPacket a b) -> add_packet e a b = Some (e', envs) ->
  cfg_ e' = cfg_ e /\ exists groups' pend',
    enc_trace e' init groups' pend' (pkts ++ accepted (symbol_size (cfg_ e)) (AddPacket a b)) /\
    groups `prefix_of` groups' /\ Forall (env_ok (ss_of e) init (map (symbol_of (ss_of e)) groups')) envs.
Proof.
  intros Ht (Hb & H0 & H31). pose proof (ei_geo _ _ _ _ (et_inv _ _ _ _ _ Ht)) as Hg.
  unfold add_packet. rewrite <- length_app. unfold accepted.
  assert (Hover : oversize e (length (a ++ b)) = negb (Z.of_nat (length (a ++ b)) <=? symbol_size (cfg_ e) - 2)).
  { unfold oversize, max_packet_size, sext. cbn zeta. rewrite wrap_small by (unfold in_width; lia).
    rewrite (proj2 (Z.ltb_lt (Z.of_nat (length (a ++ b))) (2 ^ (32 - 1)))) by done.
    by rewrite Z.ltb_antisym. }
  rewrite Hover. destruct (Z.leb_spec (Z.of_nat (length (a ++ b))) (symbol_size (cfg_ e) - 2)) as [Hle|Hgt]; cbn [negb].
  2: { intros [= <- <-]. split; [done |]. exists groups, pend. rewrite app_nil_r.
       split; [| split; [done | constructor]]. destruct Ht as [[[] [] []] Hp Hgr Hne Hso].
       constructor; [constructor; by constructor | done..]. }
  assert (Hseal : forall e1 envs1,
    (if (ss_of e - cur_len_ e <? 2 + length (a ++ b))%nat then seal_current e else Some (e, [])) = Some (e1, envs1) ->
    cfg_ e1 = cfg_ e /\ (2 + length (a ++ b) <= ss_of e - cur_len_ e1)%nat /\
    exists g1 p1, enc_trace e1 init g1 p1 pkts /\ groups `prefix_of` g1 /\
      Forall (env_ok (ss_of e) init (map (symbol_of (ss_of e)) g1)) envs1).
  { intros e1 envs1. pose proof (eg_ss e Hg) as Hss.
    destruct (Nat.ltb_spec (ss_of e - cur_len_ e) (2 + length (a ++ b))).
    - intros Hs. destruct (seal_trace _ _ _ _ _ _ _ Ht Hs) as (Hcfg & g1 & Ht1 & Hpre & Henv).
      split; [done |]. split; [| by exists g1, []].
      rewrite (ci_cur _ _ (ei_cur _ _ _ _ (et_inv _ _ _ _ _ Ht1))). cbn. unfold ss_of. lia.
    - intros [= <- <-]. split; [done |]. split; [lia |]. exists groups, pend. by split_all. }
  destruct (if (_ <? _)%nat then seal_current e else Some (e, [])) as [[e1 envs1]|]; [| done].
  destruct (Hseal e1 envs1 eq_refl) as (Hcfg & Hfit & g1 & p1 & Ht1 & Hpre & Henv).
  cbn [mbind option_bind]. intros [= <- <-]. split; [done |].
  assert (Ess : ss_of e1 = ss_of e) by (unfold ss_of; by rewrite Hcfg).
  destruct Ht1 as [[Hg1 Hr1 Hc1] Hp1 Hgr1 Hne1 Hso1]. exists g1, (p1 ++ [a ++ b]).
  split; [| split; done]. constructor.
  - constructor.
    + destruct Hg1. by constructor.
    + destruct Hr1. by constructor.
    + apply append_ok; [done | apply (eg_stride e1 Hg1) | |].
      * rewrite length_app in *. destruct Hc1. lia.
      * pose proof (eg_ss e Hg). split; [done |]. split; [done | lia].
  - by rewrite Hp1, app_assoc.
  - done.
  - done.
  - done.
Qed.

Lemma estep_trace e init groups pend pkts o e' envs :
  enc_trace e init groups pend pkts -> eop_ok o -> estep e o = Some (e', envs) ->
  symbol_size (cfg_ e') = symbol_size (cfg_ e) /\ exists groups' pend',
    enc_trace e' init groups' pend' (pkts ++ accepted (symbol_size (cfg_ e)) o) /\
    groups `prefix_of` groups' /\ Forall (env_ok (ss_of e) init (map (symbol_of (ss_of e)) groups')) envs.
Proof.
  intros Ht Hok. destruct o as [a b | | x]; cbn [estep].
  - intros Hs. destruct (add_trace _ _ _ _ _ _ _ _ _ Ht Hok Hs) as (-> & H). by split.
  - intros Hs. destruct (flush_trace _ _ _ _ _ _ _ Ht Hs) as (-> & g & H1 & H2 & H3). split; [done |].
    exists g, []. cbn [accepted]. by rewrite app_nil_r.
  - intros [= <- <-]. split; [done |]. exists groups, pend. cbn [accepted]. rewrite app_nil_r.
    split; [| split; [done | constructor]].
    destruct Ht as [[[] [] []] Hp Hgr Hne Hso].
    constructor; [constructor; by constructor | done..].
Qed.

Lemma env_ok_prefix ss init g1 g2 envs :
  g1 `prefix_of` g2 -> Forall (fun g => Forall packet_ok g /\ (length (packed g) <= ss)%nat) g2 ->
  Forall (env_ok ss init (map (symbol_of ss) g1)) envs -> Forall (env_ok ss init (map (symbol_of ss) g2)) envs.
Proof.
  intros [m ->] Hg H. rewrite map_app. eapply Forall_impl; [exact H |]. intros env. apply env_ok_mono.
  apply Forall_app in Hg as [_ Hm]. apply Forall_map. eapply Forall_impl; [exact Hm |].
  intros g [Hp Hl]. by apply symbol_of_ok.
Qed.

Lemma erun_trace e init groups pend pkts ops e' envs :
  enc_trace e init groups pend pkts -> Forall eop_ok ops -> erun e ops = Some (e', envs) ->
  symbol_size (cfg_ e') = symbol_size (cfg_ e) /\ exists groups' pend',
    enc_trace e' init groups' pend' (pkts ++ concat (map (accepted (symbol_size (cfg_ e))) ops)) /\
    groups `prefix_of` groups' /\ Forall (env_ok (ss_of e) init (map (symbol_of (ss_of e)) groups')) envs.
Proof.
  intros Ht Hok. revert e groups pend pkts envs Ht.
  induction Hok as [|o ops Ho Hok IH]; intros e groups pend pkts envs Ht; cbn [erun].
  - intros [= <- <-]. split; [done |]. exists groups, pend. cbn. rewrite app_nil_r.
    split; [done |]. split; [done | constructor].
  - destruct (estep e o) as [[e1 o1]|] eqn:Es; [| done]. cbn [mbind option_bind].
    destruct (erun e1 ops) as [[e2 o2]|] eqn:Er; [| done]. cbn [mbind option_bind]. intros [= <- <-].
    destruct (estep_trace _ _ _ _ _ _ _ _ Ht Ho Es) as (Hs1 & g1 & p1 & Ht1 & Hp1 & He1).
    destruct (IH e1 g1 p1 _ o2 Ht1 Er) as (Hs2 & g2 & p2 & Ht2 & Hp2 & He2).
    rewrite Hs1 in *. assert (Ess : ss_of e1 = ss_of e) by (unfold ss_of; by rewrite Hs1).
    assert (Ess2 : ss_of e2 = ss_of e) by (unfold ss_of; by rewrite Hs2).
    split; [done |]. exists g2, p2. cbn [map concat]. rewrite app_assoc. split; [done |].
    split; [by etransitivity |]. rewrite Ess in He2. apply Forall_app. split; [| done].
    eapply env_ok_prefix; [exact Hp2 | | exact He1]. rewrite <- Ess2. apply (et_groups _ _ _ _ _ Ht2).
Qed.

Lemma stride_ge v : 0 <= v -> v <= Z.land (v + 15) (Z.lnot 15).
Proof.
  intros Hv. rewrite <- Z.ldiff_land. change 15 with (Z.ones 4) at 2.
  rewrite Z.ldiff_ones_r, Z.shiftr_div_pow2, Z.shiftl_mul_pow2 by lia. mlia.
Qed.

Lemma new_encoder_trace cfg init :
  2 <= symbol_size cfg < 2 ^ 16 -> in_width 32 init ->
  enc_trace (new_encoder cfg init) init [] [] [].
Proof.
  intros Hss Hi.
  assert (Hw : 2 <= clamp_window (window cfg) <= 255).
  { unfold clamp_window, kMaxWindow. repeat case_Zb; lia. }
  assert (Hst : (Z.to_nat (symbol_size cfg) <= Z.to_nat (Z.land (symbol_size cfg + 15) (Z.lnot 15)))%nat)
    by (pose proof (stride_ge (symbol_size cfg)); lia).
  assert (Hz : forall n, bytes_ok (replicate n 0)) by (intros; apply Forall_replicate; mlia).
  constructor; [constructor | done..].
  - by constructor.
  - constructor; cbn; try done; try lia.
    + apply length_replicate.
    + apply Forall_replicate. split; [apply length_replicate | done].
    + symmetry. apply Nat.Div0.mod_0_l.
    + rewrite Z.add_0_r. symmetry. by apply wrap_small.
  - constructor; cbn; try done; try lia. apply length_replicate.
Qed.

Lemma src_of_sender ss init groups :
  Forall (fun g => Forall packet_ok g /\ (length (packed g) <= ss)%nat) groups ->
  forall s, let y := src_of ss init (map (symbol_of ss) groups) s in
    (length y = ss /\ bytes_ok y) /\
    forall p, p ∈ pkts_of ss y -> p ∈ concat groups.
Proof.
  intros Hg s y. subst y. unfold src_of. set (i := Z.to_nat _).
  destruct (Nat.lt_ge_cases i (length groups)) as [Hi|Hi].
  - assert (E : nth i (map (symbol_of ss) groups) (replicate ss 0) = symbol_of ss (nth i groups [])).
    { rewrite (nth_indep _ _ (symbol_of ss [])) by (by rewrite length_map). apply map_nth. }
    rewrite E. destruct (nth_in_Forall _ groups i [] Hg Hi) as [Hp Hl].
    split; [by apply symbol_of_ok |]. intros p. unfold pkts_of, symbol_of.
    rewrite unpack_packed_symbol by done. cbn. intros Hin.
    apply list_elem_of_In, in_concat. exists (nth i groups []). split; [by apply nth_In |].
    by apply list_elem_of_In.
  - rewrite nth_overflow by (by rewrite length_map). split.
    + split; [apply length_replicate | apply Forall_replicate; mlia].
    + intros p. pose proof (unpack_packed_symbol ss [] (List.Forall_nil _) ltac:(cbn; lia)) as E.
      cbn [packed map concat app length] in E. rewrite Nat.sub_0_r in E.
      unfold pkts_of. rewrite E. intros H. by apply not_elem_of_nil in H.
Qed.
