(* ===== verification/EndToEnd.v ===== *)
(** * EndToEnd: the FEC pipeline, encoder to decoder

    The encoder's envelopes, in whatever subset and order the channel leaves them, fed to
    a decoder: nothing comes out that did not go in; and what a sealed symbol holds is
    exactly what was packed into it. *)
From S2P Require Import Prelude Bytes Gf256 SwWire Elim SwDecoder SwDecoderSound SwDecoderProps.
From S2P Require Import SwConfig SwEncoder SwEncoderSound.
Local Open Scope Z_scope.
Local Open Scope mabur_scope.

(** ** The properties *)

(** Every envelope is genuine.  Over any history of packets, flushes and overhead
    changes (non-empty packets; at most 2^32 symbols), the accepted packets are exactly
    the packets of the sealed symbols, in order, followed by those still pending; every
    sealed symbol has the configured size and unpacks to the packets packed into it; and
    every source or repair envelope is what its header says: the symbol of that sequence
    number, or the announced combination of the announced window. *)
Theorem encoder_envelopes_genuine (cfg : SwConfig) (init : Z) (ops : list eop) (e : SwEncoder)
    (envs : list (list Z)) :
  2 <= symbol_size cfg < 2 ^ 16 -> in_width 32 init -> Forall eop_ok ops ->
  erun (new_encoder cfg init) ops = Some (e, envs) ->
  let ss := Z.to_nat (symbol_size cfg) in
  exists groups pend,
    concat (map (accepted (symbol_size cfg)) ops) = concat groups ++ pend /\
    (forall g, g ∈ groups -> length (symbol_of ss g) = ss /\
       unpack_symbol ss (symbol_of ss g) = Some g) /\
    (Z.of_nat (length groups) <= 2 ^ 32 ->
     Forall (genuine ss (src_of ss init (map (symbol_of ss) groups))) envs).
Proof.
  intros Hss Hi Hok Hr ss.
  destruct (erun_trace _ init [] [] [] ops e envs (new_encoder_trace cfg init Hss Hi) Hok Hr)
    as (Hs & groups & pend & Ht & _ & Henv).
  assert (Ess : ss_of (new_encoder cfg init) = ss) by done. rewrite Ess in Henv.
  assert (Ess2 : ss_of e = ss) by (unfold ss_of; by rewrite Hs).
  exists groups, pend. split; [apply (et_pkts _ _ _ _ _ Ht) |].
  pose proof (et_groups _ _ _ _ _ Ht) as Hg. rewrite Ess2 in Hg. split.
  - intros g Hin. rewrite Forall_forall in Hg. destruct (Hg g Hin) as [Hp Hl].
    split; [by apply symbol_of_ok | by apply unpack_packed_symbol].
  - intros Hn. eapply Forall_impl; [exact Henv |]. intros env Hx.
    specialize (Hx []). rewrite app_nil_r, length_map in Hx. by apply Hx.
Qed.

Definition demo_ops : list eop :=
  [AddPacket [1; 2] [3]; AddPacket [4] []; Flush; AddPacket [5; 6; 7] [8]; Flush].
Definition demo_enc_cfg : SwConfig := mkSwConfig 8 4 d_one.

Lemma demo_ops_ok : Forall eop_ok demo_ops.
Proof.
  repeat (apply Forall_cons; split); try apply Forall_nil; try exact I;
    (split; [decided | cbn; lia]).
Qed.

Example encoder_envelopes_genuine_witness :
  exists e envs, erun (new_encoder demo_enc_cfg 4294967295) demo_ops = Some (e, envs) /\
  exists groups pend,
    concat (map (accepted 8) demo_ops) = concat groups ++ pend /\
    (forall g, g ∈ groups -> length (symbol_of 8 g) = 8%nat /\ unpack_symbol 8 (symbol_of 8 g) = Some g) /\
    (Z.of_nat (length groups) <= 2 ^ 32 ->
     Forall (genuine 8 (src_of 8 4294967295 (map (symbol_of 8) groups))) envs).
Proof.
  destruct (erun (new_encoder demo_enc_cfg 4294967295) demo_ops) as [[e envs]|] eqn:E;
    [| vm_compute in E; discriminate E].
  exists e, envs. split; [reflexivity |].
  refine (encoder_envelopes_genuine demo_enc_cfg 4294967295 demo_ops e envs _ _ demo_ops_ok E).
  - split; vm_compute; congruence.
  - decided.
Defined.

Lemma groups_le (groups : list (list (list Z))) pend :
  Forall (fun g => g <> []) groups -> (length groups <= length (concat groups ++ pend))%nat.
Proof.
  intros H. rewrite length_app. induction H as [|g groups Hg H IH]; [cbn; lia |].
  cbn [length concat]. rewrite length_app. destruct g; [done | cbn; lia].
Qed.

Lemma accepted_le ss ops : (length (concat (map (accepted ss) ops)) <= length ops)%nat.
Proof.
  induction ops as [|o ops IH]; [done |]. cbn [map concat length]. rewrite length_app.
  assert (length (accepted ss o) <= 1)%nat by (destruct o; cbn; try case_match; cbn; lia). lia.
Qed.

(** C2.  End to end, nothing is invented.  Whatever the channel does to the encoder's
    envelopes -- drop, duplicate, reorder, retransmit, mark, delay, interleave with
    expiry and boundary marks -- the decoder returns from every call, and every packet it
    ever hands up is one of the packets given to the encoder. *)
Theorem fec_end_to_end (cfg : SwConfig) (init : Z) (ops : list eop) (e : SwEncoder)
    (envs : list (list Z)) (dcfg : SwConfig) (hz g : Z) (ins : list input) :
  2 <= symbol_size cfg < 2 ^ 16 -> symbol_size dcfg = symbol_size cfg -> in_width 32 init ->
  Forall eop_ok ops -> Z.of_nat (length ops) <= 2 ^ 32 ->
  erun (new_encoder cfg init) ops = Some (e, envs) ->
  Forall (fun i => match i with Symbol env _ _ _ _ => env ∈ envs | _ => True end) ins ->
  exists d outs, run (new_decoder dcfg hz g) ins = Some (d, outs) /\
    forall p s, (p, s) ∈ outs -> p ∈ concat (map (accepted (symbol_size cfg)) ops).
Proof.
  intros Hss Hds Hi Hok Hn Hr Hins. set (ss := Z.to_nat (symbol_size cfg)).
  destruct (erun_trace _ init [] [] [] ops e envs (new_encoder_trace cfg init Hss Hi) Hok Hr)
    as (Hs & groups & pend & [Hinv Hp Hg Hne _] & _ & Henv).
  assert (Ess : ss_of (new_encoder cfg init) = ss) by done. rewrite Ess in Henv.
  assert (Ess2 : ss_of e = ss) by (unfold ss_of; by rewrite Hs).
  rewrite Ess2 in *. cbn [app] in Hp. change (symbol_size (cfg_ (new_encoder cfg init))) with (symbol_size cfg) in Hp.
  set (src := src_of ss init (map (symbol_of ss) groups)).
  assert (Hgl : Z.of_nat (length groups) <= 2 ^ 32).
  { pose proof (groups_le groups pend Hne). rewrite <- Hp in H.
    pose proof (accepted_le (symbol_size cfg) ops). lia. }
  destruct (run_ok ss src (new_decoder dcfg hz g) ins) as (d & outs & Hrun & _ & Ho).
  - intros s. apply (src_of_sender ss init groups Hg s).
  - apply new_decoder_inv. rewrite Hds. unfold ss. lia.
  - eapply Forall_impl; [exact Hins |]. intros i Hin. destruct i; try done. cbn.
    rewrite Forall_forall in Henv. specialize (Henv _ Hin []). rewrite app_nil_r, length_map in Henv.
    by apply Henv.
  - exists d, outs. split; [done |]. intros p s Hin. rewrite Forall_forall in Ho.
    destruct (Ho _ Hin) as [_ Hpk]. cbn in Hpk.
    rewrite Hp. apply elem_of_app. left. by apply (src_of_sender ss init groups Hg s).
Qed.

Definition demo_envs : list (list Z) :=
  match erun (new_encoder demo_enc_cfg 7) demo_ops with Some (_, l) => l | None => [] end.

(** The second source and the repair that follows it, in the wrong order, and twice. *)
Definition demo_ins : list input :=
  map (fun env => Symbol env 0 kNone true false)
    [nth 2 demo_envs []; nth 3 demo_envs []; nth 2 demo_envs []].

Example fec_end_to_end_witness :
  exists d outs, run (new_decoder demo_enc_cfg 0 0) demo_ins = Some (d, outs) /\
    forall p s, (p, s) ∈ outs -> p ∈ concat (map (accepted 8) demo_ops).
Proof.
  destruct (erun (new_encoder demo_enc_cfg 7) demo_ops) as [[e envs]|] eqn:E;
    [| vm_compute in E; discriminate E].
  assert (Ed : demo_envs = envs) by (unfold demo_envs; rewrite E; reflexivity).
  assert (Hl : length demo_envs = 4%nat) by (vm_compute; reflexivity).
  refine (fec_end_to_end demo_enc_cfg 7 demo_ops e envs demo_enc_cfg 0 0 demo_ins _ eq_refl _
            demo_ops_ok _ E _).
  - split; vm_compute; congruence.
  - decided.
  - vm_compute. congruence.
  - rewrite <- Ed. unfold demo_ins.
    repeat (apply Forall_cons; split); try (apply list_elem_of_In, nth_In; rewrite Hl; lia).
    apply Forall_nil. exact I.
Defined.

(** ** The credit loop ends

    [credit_loop] depends on the state only through the credit; on multiples of 1/64 the
    binary64 additions and subtractions are exact, so the whole table can be computed. *)
Definition sixty_fourths (k : nat) : double := SFdiv 53 1024 (d_of_Z (Z.of_nat k)) (d_of_Z 64).

(** Repairs due at a credit, and the credit left. *)
Fixpoint drain (fuel : nat) (c : double) : option (nat * double) :=
  if d_leb d_one c then
    match fuel with O => None | S fuel => '(n, c) ← drain fuel (d_sub c d_one); Some (S n, c) end
  else Some (O, c).

Definition double_eqb (a b : double) : bool :=
  match a, b with
  | S754_zero s, S754_zero t => Bool.eqb s t
  | S754_finite s m e, S754_finite t n f => Bool.eqb s t && (m =? n)%positive && (e =? f)
  | _, _ => false
  end.

Lemma double_eqb_eq a b : double_eqb a b = true -> a = b.
Proof.
  destruct a as [s | s | | s m e], b as [t | t | | t n f]; try done; cbn.
  - by intros ->%Bool.eqb_prop.
  - intros [[->%Bool.eqb_prop ->%Pos.eqb_eq]%andb_prop ->%Z.eqb_eq]%andb_prop. done.
Qed.

Definition drain_exact (j k : nat) : bool :=
  match drain kCreditFuel (d_add (sixty_fourths j) (sixty_fourths k)) with
  | Some (n, c) => (n =? (j + k) / 64)%nat && double_eqb c (sixty_fourths ((j + k) mod 64))
  | None => false
  end.

Lemma drain_table :
  forallb (fun j => forallb (drain_exact j) (List.seq 0 257)) (List.seq 0 64) = true.
Proof. vm_compute. reflexivity. Qed.

Lemma drain_ends j k : (j < 64)%nat -> (k <= 256)%nat ->
  drain kCreditFuel (d_add (sixty_fourths j) (sixty_fourths k)) =
  Some ((j + k) / 64, sixty_fourths ((j + k) mod 64))%nat.
Proof.
  intros Hj Hk. pose proof drain_table as H. rewrite forallb_forall in H.
  specialize (H j). rewrite in_seq in H. specialize (H ltac:(lia)).
  rewrite forallb_forall in H. specialize (H k). rewrite in_seq in H. specialize (H ltac:(lia)).
  unfold drain_exact in H. destruct (drain _ _) as [[n c]|]; [| done].
  apply andb_prop in H as [->%Nat.eqb_eq ->%double_eqb_eq]. done.
Qed.

Lemma credit_loop_drain fuel e n c :
  drain fuel (credit_ e) = Some (n, c) ->
  exists e' envs, credit_loop fuel e = Some (e', envs) /\ length envs = n /\ credit_ e' = c /\
    repairs_out_ e' = repairs_out_ e + Z.of_nat n /\ sources_out_ e' = sources_out_ e.
Proof.
  revert e n. induction fuel as [|fuel IH]; intros e n; cbn [drain credit_loop];
    (destruct (d_leb d_one (credit_ e)); [| intros [= <- <-]; exists e, []; split_all; [done.. | lia | done]]);
    [done |].
  cbn [emit_repair]. destruct (drain fuel _) as [[m c']|] eqn:E; [| done]. cbn [mbind option_bind].
  intros [= <- <-].
  destruct (IH (set_credit (alloc_repair e) (d_sub (credit_ e) d_one)) m E) as (e' & envs & H1 & H2 & H3 & H4 & H5).
  change (credit_ (alloc_repair e)) with (credit_ e). rewrite H1. cbn [mbind option_bind].
  eexists _, _. split; [done |]. cbn in H4, H5 |- *. split_all; [lia | done | lia | done].
Qed.

(** The encoder's books: [tails] of the repairs were a flush's, the others are what the
    credit of [k]/64 per source amounts to. *)
Record books (k : nat) (e : SwEncoder) (tails : Z) (j : nat) : Prop := {
  bk_overhead : overhead (cfg_ e) = sixty_fourths k;
  bk_credit : credit_ e = sixty_fourths j;
  bk_small : (j < 64)%nat;
  bk_exact : 64 * (repairs_out_ e - tails) + Z.of_nat j = Z.of_nat k * sources_out_ e;
}.

Definition envelopes (e : SwEncoder) : Z := sources_out_ e + repairs_out_ e.

Lemma credit_loop_cfg fuel e e' envs : credit_loop fuel e = Some (e', envs) -> cfg_ e' = cfg_ e.
Proof.
  revert e envs. induction fuel as [|fuel IH]; intros e envs; cbn [credit_loop];
    (destruct (d_leb d_one (credit_ e)); [| by intros [= <- <-]]); [done |].
  cbn [emit_repair]. destruct (credit_loop fuel _) as [[e1 l]|] eqn:E; [| done].
  cbn [mbind option_bind]. intros [= <- <-]. by rewrite (IH _ _ E).
Qed.

Lemma seal_books k e tails j :
  (k <= 256)%nat -> books k e tails j ->
  exists e' envs j', seal_current e = Some (e', envs) /\ books k e' tails j' /\
    envelopes e' = envelopes e + Z.of_nat (length envs).
Proof.
  intros Hk [Ho Hc Hj Hx]. unfold seal_current.
  destruct (cur_len_ e =? 0)%nat; [exists e, [], j; split_all; [done | by constructor | cbn; lia] |].
  assert (E : drain kCreditFuel (credit_ (store_row e)) = Some ((j + k) / 64, sixty_fourths ((j + k) mod 64))%nat).
  { cbn. rewrite Ho, Hc. by apply drain_ends. }
  destruct (credit_loop_drain _ _ _ _ E) as (e' & envs & H1 & H2 & H3 & H4 & H5).
  rewrite H1. cbn [mbind option_bind]. eexists _, _, ((j + k) mod 64)%nat. split; [done |].
  pose proof (Nat.div_mod_eq (j + k) 64). pose proof (Nat.mod_upper_bound (j + k) 64 ltac:(lia)).
  change (repairs_out_ (store_row e)) with (repairs_out_ e) in H4.
  change (sources_out_ (store_row e)) with (sources_out_ e + 1) in H5.
  split; [| unfold envelopes; cbn [length]; lia].
  constructor; [by rewrite (credit_loop_cfg _ _ _ _ H1) | done | done |].
  rewrite H4, H5. lia.
Qed.

Lemma flush_books k e tails j :
  (k <= 256)%nat -> books k e tails j ->
  exists e' envs tails' j', flush e = Some (e', envs) /\ books k e' tails' j' /\
    tails <= tails' <= tails + 1 /\ envelopes e' = envelopes e + Z.of_nat (length envs).
Proof.
  intros Hk Hb. destruct (seal_books k e tails j Hk Hb) as (e1 & envs & j' & Hs & Hb' & He).
  unfold flush. rewrite Hs. cbn [mbind option_bind].
  destruct (tail_repair_pending_ e1 && (0 <? count_ e1)%nat).
  - cbn [emit_repair]. eexists _, _, (tails + 1), j'. split; [done |].
    destruct Hb'. split; [constructor; try done; cbn; lia |]. split; [lia |].
    unfold envelopes in *. rewrite length_app. cbn. lia.
  - exists e1, envs, tails, j'. split_all; [done | done | lia | lia | done].
Qed.

Lemma add_books k e tails j a b :
  (k <= 256)%nat -> books k e tails j ->
  exists e' envs j', add_packet e a b = Some (e', envs) /\ books k e' tails j' /\
    envelopes e' = envelopes e + Z.of_nat (length envs).
Proof.
  intros Hk Hb. unfold add_packet. destruct (oversize _ _).
  - exists (count_oversize e), [], j. destruct Hb. split_all; [done | by constructor | cbn; unfold envelopes; cbn; lia].
  - assert (H : exists e1 envs j', (if (ss_of e - cur_len_ e <? 2 + (length a + length b))%nat
      then seal_current e else Some (e, [])) = Some (e1, envs) /\ books k e1 tails j' /\
      envelopes e1 = envelopes e + Z.of_nat (length envs)).
    { destruct (_ <? _)%nat; [by apply (seal_books k e tails j) |]. exists e, [], j. split_all; [done | done | cbn; lia]. }
    destruct H as (e1 & envs & j' & -> & Hb' & He). cbn [mbind option_bind].
    eexists _, _, j'. split; [done |]. destruct Hb'. split; [by constructor | done].
Qed.

Definition is_flush (o : eop) : bool := match o with Flush => true | _ => false end.
Definition flushes (ops : list eop) : Z := Z.of_nat (length (List.filter is_flush ops)).
Definition keeps_overhead (o : eop) : Prop := match o with SetOverhead _ => False | _ => True end.

Lemma erun_books k e tails j ops :
  (k <= 256)%nat -> Forall keeps_overhead ops -> books k e tails j ->
  exists e' envs tails' j', erun e ops = Some (e', envs) /\ books k e' tails' j' /\
    tails <= tails' <= tails + flushes ops /\ envelopes e' = envelopes e + Z.of_nat (length envs).
Proof.
  intros Hk Hops. revert e tails j. induction Hops as [|o ops Ho Hops IH]; intros e tails j Hb.
  - exists e, [], tails, j. split_all; [done | done | lia | unfold flushes; cbn; lia | cbn; lia].
  - assert (H : exists e1 o1 t1 j1, estep e o = Some (e1, o1) /\ books k e1 t1 j1 /\
      tails <= t1 <= tails + (if is_flush o then 1 else 0) /\ envelopes e1 = envelopes e + Z.of_nat (length o1)).
    { destruct o as [a b | | x]; [| | done]; cbn [estep is_flush].
      - destruct (add_books k e tails j a b Hk Hb) as (e1 & o1 & j1 & H1 & H2 & H3).
        exists e1, o1, tails, j1. split_all; [done | done | lia | lia | done].
      - apply (flush_books k e tails j Hk Hb). }
    destruct H as (e1 & o1 & t1 & j1 & H1 & H2 & H3 & H4).
    destruct (IH e1 t1 j1 H2) as (e2 & o2 & t2 & j2 & G1 & G2 & G3 & G4).
    cbn [erun]. rewrite H1. cbn [mbind option_bind]. rewrite G1. cbn [mbind option_bind].
    exists e2, (o1 ++ o2), t2, j2. split; [done |]. split; [done |]. rewrite length_app.
    split; [| lia]. unfold flushes in *. cbn [List.filter]. destruct (is_flush o); cbn [length]; lia.
Qed.

(** The protection rate.  At any overhead that is a multiple of 1/64 up to 4.0 the
    encoder returns from every call -- the credit loop ends --, every envelope is counted
    once as a source or a repair, and the repairs are exactly the credit earned by the
    sources, floor(overhead * sources), plus at most one tail repair per flush. *)
Theorem repair_rate_exact (cfg : SwConfig) (init : Z) (k : nat) (ops : list eop) :
  (k <= 256)%nat -> overhead cfg = sixty_fourths k -> Forall keeps_overhead ops ->
  exists e envs, erun (new_encoder cfg init) ops = Some (e, envs) /\
    Z.of_nat (length envs) = sources_out_ e + repairs_out_ e /\
    Z.of_nat k * sources_out_ e / 64 <= repairs_out_ e <= Z.of_nat k * sources_out_ e / 64 + flushes ops.
Proof.
  intros Hk Ho Hops.
  assert (Hb : books k (new_encoder cfg init) 0 0).
  { constructor; [done | vm_compute; reflexivity | lia | cbn; lia]. }
  destruct (erun_books k _ 0 0 ops Hk Hops Hb) as (e & envs & t & j & H1 & [_ _ Hj Hx] & H3 & H4).
  exists e, envs. split; [done |]. unfold envelopes in H4. cbn in H4. split; [lia |].
  rewrite <- Hx. rewrite Z.mul_comm, Z.div_add_l, Z.div_small by lia. lia.
Qed.

Definition half_cfg : SwConfig := mkSwConfig 8 4 (sixty_fourths 32).

Example repair_rate_exact_witness :
  exists e envs, erun (new_encoder half_cfg 5) demo_ops = Some (e, envs) /\
    Z.of_nat (length envs) = sources_out_ e + repairs_out_ e /\
    32 * sources_out_ e / 64 <= repairs_out_ e <= 32 * sources_out_ e / 64 + 2.
Proof.
  refine (repair_rate_exact half_cfg 5 32 demo_ops _ eq_refl _).
  - lia.
  - repeat (apply Forall_cons; split); try apply Forall_nil; exact I.
Defined.
