(* ===== verification/AsyncEncoder.v ===== *)
(** * AsyncEncoder: SwEncoder with the FEC worker thread (sw_encoder.cpp, fec_worker.cpp)

    With a worker, repairs are not built where the credit falls due: a job with the ring
    coordinates is queued, the worker thread reads the rows and parks the envelope, and a
    later call of the producer delivers it.  The two threads interleave: the model gives
    every access of the producer to shared state a preceding [yield], at which a
    schedule lets the worker take any number of steps (a worker step reads one ring row)
    and says how many jobs of other encoders share the queue. *)
From S2P Require Import Prelude Bytes Gf256 SwWire SwConfig SwEncoder SwEncoderSound.
Local Open Scope Z_scope.
Local Open Scope mabur_scope.

Definition kMaxBacklogJobs : nat := 256.
#[global] Arguments kMaxBacklogJobs : simpl never.

(** One yield of the producer: worker steps, and jobs of the other encoders queued. *)
Record Tick := mkTick { steps : nat; others : nat }.

(** The worker between its atomic actions: [Parked] once the envelope is on the done list
    and before the outstanding count drops. *)
Inductive Worker :=
| Idle
| Building (j : Job) (rows : list (list Z))
| Parked.

Record Async := mkAsync {
  enc : SwEncoder;
  queue_ : list Job;
  worker_ : Worker;
  done_ : list (list Z);
  outstanding_ : Z;
  seals_since_join_ : Z;
  gauge_jobs_ : Z;
  gauge_inline_full_ : Z;
  gauge_join_waits_ : Z;
  gauge_enq_depth_max_ : Z;
  gauge_backlog_drops_ : Z;
  slots_ : nat;
  sched_ : list Tick;
}.

Definition new_async (cfg : SwConfig) (init : Z) (queue_slots : nat) (sched : list Tick) : Async :=
  mkAsync (new_encoder cfg init) [] Idle [] 0 0 0 0 0 0 0 queue_slots sched.

(** *** Assignments *)

Definition set_enc (a : Async) (e : SwEncoder) : Async :=
  mkAsync e (queue_ a) (worker_ a) (done_ a) (outstanding_ a) (seals_since_join_ a) (gauge_jobs_ a)
    (gauge_inline_full_ a) (gauge_join_waits_ a) (gauge_enq_depth_max_ a) (gauge_backlog_drops_ a)
    (slots_ a) (sched_ a).

(** The state the two threads share. *)
Definition set_shared (a : Async) (q : list Job) (w : Worker) (d : list (list Z)) (n jobs : Z) : Async :=
  mkAsync (enc a) q w d n (seals_since_join_ a) jobs
    (gauge_inline_full_ a) (gauge_join_waits_ a) (gauge_enq_depth_max_ a) (gauge_backlog_drops_ a)
    (slots_ a) (sched_ a).

Definition set_seals (a : Async) (n : Z) : Async :=
  mkAsync (enc a) (queue_ a) (worker_ a) (done_ a) (outstanding_ a) n (gauge_jobs_ a)
    (gauge_inline_full_ a) (gauge_join_waits_ a) (gauge_enq_depth_max_ a) (gauge_backlog_drops_ a)
    (slots_ a) (sched_ a).

Definition add_gauges (a : Async) (inline waits depth drops : Z) : Async :=
  mkAsync (enc a) (queue_ a) (worker_ a) (done_ a) (outstanding_ a) (seals_since_join_ a) (gauge_jobs_ a)
    (gauge_inline_full_ a + inline) (gauge_join_waits_ a + waits)
    (Z.max (gauge_enq_depth_max_ a) depth) (gauge_backlog_drops_ a + drops) (slots_ a) (sched_ a).

Definition set_sched (a : Async) (l : list Tick) : Async :=
  mkAsync (enc a) (queue_ a) (worker_ a) (done_ a) (outstanding_ a) (seals_since_join_ a) (gauge_jobs_ a)
    (gauge_inline_full_ a) (gauge_join_waits_ a) (gauge_enq_depth_max_ a) (gauge_backlog_drops_ a)
    (slots_ a) l.

(** ** The worker thread *)

(** One step of [FecWorker::loop] on behalf of this encoder: take a job, read a row, build
    and park the envelope, or drop the outstanding count. *)
Definition worker_step (a : Async) : Async :=
  match worker_ a with
  | Idle =>
      match queue_ a with
      | [] => a
      | j :: q => set_shared a q (Building j []) (done_ a) (outstanding_ a) (gauge_jobs_ a)
      end
  | Building j rows =>
      if (length rows <? j_window j)%nat
      then let row := nth ((j_slot j + length rows) mod cap_ (enc a)) (ring_ (enc a)) [] in
           set_shared a (queue_ a) (Building j (rows ++ [row])) (done_ a) (outstanding_ a) (gauge_jobs_ a)
      else set_shared a (queue_ a) Parked (done_ a ++ [repair_env (enc a) j rows]) (outstanding_ a)
             (gauge_jobs_ a + 1)
  | Parked => set_shared a (queue_ a) Idle (done_ a) (outstanding_ a - 1) (gauge_jobs_ a)
  end.

(** The producer is about to touch shared state: the worker may run first. *)
Definition yield (a : Async) : Async * nat :=
  match sched_ a with
  | [] => (a, 0%nat)
  | t :: l => (Nat.iter (steps t) worker_step (set_sched a l), others t)
  end.

Definition depth (a : Async) (others : nat) : nat := (length (queue_ a) + others)%nat.

(** Worker steps until nothing is outstanding, at most. *)
Definition job_work (j : Job) : nat := (3 + j_window j)%nat.
Definition work (a : Async) : nat :=
  (match worker_ a with
   | Idle => 0
   | Building j rows => 2 + j_window j - length rows
   | Parked => 1
   end + list_sum (map job_work (queue_ a)))%nat.

(** [while (outstanding != 0) spin]: the worker runs meanwhile. *)
Fixpoint spin (fuel : nat) (a : Async) : option Async :=
  if outstanding_ a =? 0 then Some a
  else match fuel with O => None | S fuel => spin fuel (worker_step a) end.

(** ** The producer *)

Definition drain_done (a : Async) : Async * list (list Z) :=
  let '(a, _) := yield a in
  (set_shared a (queue_ a) (worker_ a) [] (outstanding_ a) (gauge_jobs_ a), done_ a).

Definition join (a : Async) : option Async :=
  let '(a, _) := yield a in
  a ← (if outstanding_ a =? 0 then Some a else spin (work a) (add_gauges a 0 1 0 0));
  Some (set_seals a 0).

(** The backlog cap: the credit is forfeited, its key consumed. *)
Definition drop_repair (a : Async) : Async :=
  let e := enc a in
  add_gauges (set_enc a (set_repair e (u32 (repair_key_ e + 1)) (repairs_out_ e))) 0 0 0 1.

(** [execute_repair_job] on the producer, the queue being full. *)
Definition build_inline (a : Async) (j : Job) : Async :=
  let a := add_gauges a 1 0 0 0 in
  set_shared a (queue_ a) (worker_ a) (done_ a ++ [build_repair (enc a) j])
    (outstanding_ a - 1) (gauge_jobs_ a + 1).

Definition emit_or_enqueue (a : Async) : Async :=
  let '(a, o) := yield a in
  if (kMaxBacklogJobs <=? depth a o)%nat then drop_repair a
  else
    let j := new_job (enc a) in
    let '(a, _) := yield (set_enc a (alloc_repair (enc a))) in
    let a := if outstanding_ a =? 0 then set_seals a 0 else a in
    let '(a, o) := yield (set_shared a (queue_ a) (worker_ a) (done_ a) (outstanding_ a + 1) (gauge_jobs_ a)) in
    if (slots_ a <=? depth a o)%nat then build_inline a j
    else
      let '(a, o) := yield (set_shared a (queue_ a ++ [j]) (worker_ a) (done_ a) (outstanding_ a) (gauge_jobs_ a)) in
      add_gauges a 0 0 (Z.of_nat (depth a o)) 0.

Fixpoint async_credit_loop (fuel : nat) (a : Async) : option Async :=
  if d_leb d_one (credit_ (enc a)) then
    match fuel with
    | O => None
    | S fuel =>
        let a := emit_or_enqueue a in
        async_credit_loop fuel (set_enc a (set_credit (enc a) (d_sub (credit_ (enc a)) d_one)))
    end
  else Some a.

(** The row about to be written may still be wanted: count, and join at the slack bound. *)
Definition backstop (a : Async) : option Async :=
  let '(a, _) := yield a in
  if outstanding_ a =? 0 then Some a
  else
    let a := set_seals a (seals_since_join_ a + 1) in
    if Z.of_nat kSlackRows - 2 <=? seals_since_join_ a then join a else Some a.

Definition async_seal (a : Async) : option (Async * list (list Z)) :=
  if (cur_len_ (enc a) =? 0)%nat then Some (a, [])
  else
    let env := source_env (enc a) in
    a ← backstop a;
    let '(a, _) := yield a in
    a ← async_credit_loop kCreditFuel (set_enc a (store_row (enc a)));
    Some (a, [env]).

Definition async_pack (a : Async) (x y : list Z) : option (Async * list (list Z)) :=
  let len := (length x + length y)%nat in
  if oversize (enc a) len then Some (set_enc a (count_oversize (enc a)), [])
  else
    '(a, o) ← (if (ss_of (enc a) - cur_len_ (enc a) <? 2 + len)%nat then async_seal a else Some (a, []));
    Some (set_enc a (append_to_current (enc a) x y), o).

Definition async_add_packet (a : Async) (x y : list Z) : option (Async * list (list Z)) :=
  let '(a, o1) := drain_done a in
  '(a, o2) ← async_pack a x y;
  Some (a, o1 ++ o2).

Definition async_flush (a : Async) : option (Async * list (list Z)) :=
  '(a, o1) ← async_seal a;
  let a := if tail_repair_pending_ (enc a) && (0 <? count_ (enc a))%nat then emit_or_enqueue a else a in
  let '(a, o2) := drain_done a in
  Some (a, o1 ++ o2).

Definition collect (a : Async) : Async * list (list Z) := drain_done a.
Definition finish (a : Async) : option (Async * list (list Z)) :=
  a ← join a; Some (drain_done a).
Definition repairs_outstanding (a : Async) : bool := negb (outstanding_ a =? 0).

(** ** Histories *)

Inductive aop := Op (o : eop) | Collect.

Definition astep (a : Async) (o : aop) : option (Async * list (list Z)) :=
  match o with
  | Op (AddPacket x y) => async_add_packet a x y
  | Op Flush => async_flush a
  | Op (SetOverhead x) => Some (set_enc a (set_overhead (enc a) x), [])
  | Collect => Some (collect a)
  end.

Fixpoint arun (a : Async) (ops : list aop) : option (Async * list (list Z)) :=
  match ops with
  | [] => Some (a, [])
  | o :: ops => '(a, o1) ← astep a o; '(a, o2) ← arun a ops; Some (a, o1 ++ o2)
  end.

(** What the synchronous encoder is asked meanwhile. *)
Definition sync_step (e : SwEncoder) (o : aop) : option (SwEncoder * list (list Z)) :=
  match o with Op o => estep e o | Collect => Some (e, []) end.

Fixpoint sync_run (e : SwEncoder) (ops : list aop) : option (SwEncoder * list (list Z)) :=
  match ops with
  | [] => Some (e, [])
  | o :: ops => '(e, o1) ← sync_step e o; '(e, o2) ← sync_run e ops; Some (e, o1 ++ o2)
  end.
