(* ===== verification/AsyncEncoderSound.v ===== *)
(** * AsyncEncoderSound: the worker's envelopes are the synchronous encoder's

    The ring keeps [kSlackRows] rows beyond the window and the backstop joins before that
    many seals have passed with a job outstanding, so no row is overwritten while a job
    that reads it is outstanding.  Every envelope is then the one the synchronous encoder
    builds, whatever the schedule; only the order of emission differs. *)
From S2P Require Import Prelude Bytes Gf256 SwWire SwConfig SwEncoder SwEncoderSound AsyncEncoder.
Local Open Scope Z_scope.
Local Open Scope mabur_scope.

(** ** What a queued job reads *)

(** The encoder fields a job's envelope and life depend on. *)
Definition ring_view (e : SwEncoder) : Z * nat * nat * nat * nat * list (list Z) :=
  (symbol_size (cfg_ e), win_of e, stride_ e, cap_ e, next_slot_ e, ring_ e).

Record ring_geo (e : SwEncoder) : Prop := {
  rg_cap : cap_ e = (win_of e + kSlackRows)%nat;
  rg_slot : (next_slot_ e < cap_ e)%nat;
  rg_len : length (ring_ e) = cap_ e;
}.

(** [age] rows were written since [j] was created, and its envelope would be [x]. *)
Record job_live (e : SwEncoder) (age : nat) (j : Job) (x : list Z) : Prop := {
  jl_window : (j_window j <= win_of e)%nat;
  jl_slot : next_slot_ e = ((j_slot j + j_window j + age) mod cap_ e)%nat;
  jl_env : build_repair e j = x;
}.

Lemma job_live_view e e' age j x : ring_view e' = ring_view e -> job_live e age j x -> job_live e' age j x.
Proof.
  intros E [Hw Hs He]. unfold ring_view in E. injection E as E1 E2 E3 E4 E5 E6.
  constructor; [congruence | congruence |]. rewrite <- He.
  unfold build_repair, repair_env, job_rows, ss_of. by rewrite E1, E3, E4, E6.
Qed.

Lemma ring_geo_view e e' : ring_view e' = ring_view e -> ring_geo e -> ring_geo e'.
Proof.
  intros E [Hc Hs Hl]. unfold ring_view in E. injection E as E1 E2 E3 E4 E5 E6.
  constructor; congruence.
Qed.

(** Slots less than [cap] apart differ. *)
Lemma mod_apart x k c : (0 < k < c)%nat -> (x mod c <> (x + k) mod c)%nat.
Proof.
  intros Hk E. pose proof (Nat.div_mod_eq x c). pose proof (Nat.div_mod_eq (x + k) c).
  set (p := (x / c)%nat) in *. set (q := ((x + k) / c)%nat) in *.
  destruct (Nat.lt_trichotomy p q) as [? | [Epq | ?]]; [nia | rewrite Epq in *; lia | nia].
Qed.

Lemma job_rows_store e age j x :
  ring_geo e -> job_live e age j x -> (S age < kSlackRows)%nat -> job_rows (store_row e) j = job_rows e j.
Proof.
  intros [Hc Hn Hl] [Hw Hs _] Ha. unfold job_rows. cbn [store_row cap_ ring_].
  apply map_ext_in. intros i Hi%in_seq. rewrite !nth_lookup. f_equal.
  apply list_lookup_insert_ne. rewrite Hs.
  replace (j_slot j + j_window j + age)%nat with (j_slot j + i + (j_window j - i + age))%nat by lia.
  apply not_eq_sym, mod_apart. lia.
Qed.

Lemma job_live_store e age j x :
  ring_geo e -> job_live e age j x -> (S age < kSlackRows)%nat -> job_live (store_row e) (S age) j x.
Proof.
  intros Hg Hj Ha. pose proof (job_rows_store e age j x Hg Hj Ha) as Hr. destruct Hj as [Hw Hs He].
  constructor; [done | |].
  - cbn [store_row next_slot_ cap_]. rewrite Hs, Nat.Div0.add_mod_idemp_l. f_equal. lia.
  - unfold build_repair. rewrite Hr. exact He.
Qed.

Lemma ring_geo_store e : ring_geo e -> ring_geo (store_row e).
Proof.
  intros [Hc Hs Hl]. constructor; [done | |].
  - cbn. apply Nat.mod_upper_bound. lia.
  - cbn. by rewrite length_insert.
Qed.

Lemma new_job_live e :
  ring_geo e -> (count_ e <= win_of e)%nat -> job_live e 0 (new_job e) (build_repair e (new_job e)).
Proof.
  intros [Hc Hs Hl] Hw. constructor; [done | | done]. cbn [new_job j_slot j_window].
  rewrite Nat.add_0_r, Nat.Div0.add_mod_idemp_l.
  replace (next_slot_ e + cap_ e - count_ e + count_ e)%nat with (next_slot_ e + 1 * cap_ e)%nat by lia.
  rewrite Nat.Div0.mod_add. symmetry. by apply Nat.mod_small.
Qed.

(** ** The invariant *)

(** A job whose age leaves [sl] seals of slack. *)
Definition pending_job (a : Async) (sl : Z) (j : Job) (x : list Z) : Prop :=
  exists age, Z.of_nat age + sl <= seals_since_join_ a /\ job_live (enc a) age j x.

Definition worker_pending (a : Async) (sl : Z) (xw : list (list Z)) : Prop :=
  match worker_ a with
  | Idle | Parked => xw = []
  | Building j rows => exists x, xw = [x] /\ pending_job a sl j x /\
      rows = take (length rows) (job_rows (enc a) j) /\ (length rows <= j_window j)%nat
  end.

Definition busy (w : Worker) : Z := match w with Idle => 0 | _ => 1 end.

(** [Y]: the envelopes built or being built and not delivered; [k] is 1 while the producer
    has counted a job it has not queued yet. *)
Record inv (a : Async) (k sl : Z) (Y : list (list Z)) : Prop := {
  in_geo : ring_geo (enc a);
  in_count : (count_ (enc a) <= win_of (enc a))%nat;
  in_out : outstanding_ a = busy (worker_ a) + Z.of_nat (length (queue_ a)) + k;
  in_seals : 0 <= seals_since_join_ a;
  in_jobs : exists xw xq, worker_pending a sl xw /\ Forall2 (pending_job a sl) (queue_ a) xq /\
    done_ a ++ xw ++ xq ≡ₚ Y;
}.

Lemma length_job_rows e j : length (job_rows e j) = j_window j.
Proof. unfold job_rows. by rewrite length_map, length_seq. Qed.

Lemma pending_job_step a a' sl j x :
  enc a' = enc a -> seals_since_join_ a' = seals_since_join_ a -> pending_job a sl j x -> pending_job a' sl j x.
Proof. intros E1 E2 (age & H1 & H2). exists age. rewrite E1, E2. by split. Qed.

Lemma pending_jobs_step a a' sl q xq :
  enc a' = enc a -> seals_since_join_ a' = seals_since_join_ a ->
  Forall2 (pending_job a sl) q xq -> Forall2 (pending_job a' sl) q xq.
Proof. intros E1 E2 H. eapply Forall2_impl; [exact H |]. intros j x. by apply pending_job_step. Qed.

Lemma worker_step_inv a k sl Y : inv a k sl Y -> inv (worker_step a) k sl Y.
Proof.
  intros [Hg Hc Ho Hs (xw & xq & Hw & Hq & HY)]. unfold worker_step.
  unfold worker_pending in Hw. destruct (worker_ a) as [| j rows |] eqn:Ew.
  - subst xw. destruct (queue_ a) as [|j q] eqn:Eq.
    + constructor; [done | done | by rewrite Ew, Eq | done |].
      exists [], xq. unfold worker_pending. rewrite Ew, Eq. by split_all.
    + apply Forall2_cons_inv_l in Hq as (x & xq' & Hj & Hq & ->).
      constructor; try done; [cbn in Ho |- *; lia |].
      exists [x], xq'. split; [| split; [| done]].
      * exists x. split; [done |]. split; [by apply (pending_job_step a) |]. split; [done | cbn; lia].
      * by apply (pending_jobs_step a).
  - destruct Hw as (x & -> & Hj & Hr & Hl). destruct (Nat.ltb_spec (length rows) (j_window j)).
    + constructor; try done. exists [x], xq. split; [| split; [by apply (pending_jobs_step a) | done]].
      exists x. split; [done |]. split; [by apply (pending_job_step a) |].
      rewrite length_app. cbn [length enc set_shared]. split; [| lia].
      rewrite Nat.add_1_r. erewrite take_S_r; [by rewrite <- Hr |].
      unfold job_rows. rewrite list_lookup_fmap, lookup_seq_lt by done. done.
    + assert (Hfull : rows = job_rows (enc a) j).
      { rewrite Hr. apply take_ge. rewrite length_job_rows. lia. }
      constructor; try done. exists [], xq. split; [done |]. split; [by apply (pending_jobs_step a) |].
      destruct Hj as (age & _ & [_ _ Hx]). cbn [done_ set_shared]. rewrite <- HY, <- app_assoc.
      rewrite Hfull. change (repair_env (enc a) j (job_rows (enc a) j)) with (build_repair (enc a) j).
      by rewrite Hx.
  - subst xw. constructor; try done; [cbn in Ho |- *; lia |].
    exists [], xq. split; [done |]. split; [by apply (pending_jobs_step a) | done].
Qed.

Lemma inv_ext a a' k sl Y :
  enc a' = enc a -> queue_ a' = queue_ a -> worker_ a' = worker_ a -> done_ a' = done_ a ->
  outstanding_ a' = outstanding_ a -> seals_since_join_ a' = seals_since_join_ a ->
  inv a k sl Y -> inv a' k sl Y.
Proof.
  intros E1 E2 E3 E4 E5 E6 [Hg Hc Ho Hs (xw & xq & Hw & Hq & HY)]. constructor.
  - by rewrite E1.
  - by rewrite E1.
  - by rewrite E5, E3, E2.
  - by rewrite E6.
  - exists xw, xq. rewrite E2, E4. split; [| split; [by apply (pending_jobs_step a) | done]].
    unfold worker_pending in *. rewrite E3, E1. destruct (worker_ a); try done.
    destruct Hw as (x & H1 & H2 & H3). exists x. split; [done |]. split; [by apply (pending_job_step a) | done].
Qed.

Lemma worker_step_frame a :
  enc (worker_step a) = enc a /\ seals_since_join_ (worker_step a) = seals_since_join_ a /\
  gauge_backlog_drops_ (worker_step a) = gauge_backlog_drops_ a /\ slots_ (worker_step a) = slots_ a.
Proof. unfold worker_step. destruct (worker_ a); [destruct (queue_ a) | destruct (_ <? _)%nat |]; done. Qed.

(** What a yield and a spin leave alone. *)
Definition frame (a a' : Async) : Prop :=
  enc a' = enc a /\ gauge_backlog_drops_ a' = gauge_backlog_drops_ a /\
  seals_since_join_ a' = seals_since_join_ a.

#[local] Instance frame_preorder : PreOrder frame.
Proof.
  split; [by intros a |]. intros a b c (H1 & H2 & H3) (G1 & G2 & G3). unfold frame. split_all; congruence.
Qed.

Lemma yield_inv a k sl Y : inv a k sl Y -> inv (fst (yield a)) k sl Y /\ frame a (fst (yield a)).
Proof.
  intros H. unfold yield. destruct (sched_ a) as [|t l]; [done |]. cbn [fst].
  assert (H0 : inv (set_sched a l) k sl Y) by (by apply (inv_ext a)).
  assert (F0 : frame a (set_sched a l)) by done. revert H0 F0.
  generalize (set_sched a l). intros b Hb Fb. induction (steps t) as [|n IH]; [done |].
  cbn [Nat.iter]. destruct IH as [IH1 IH2]. split; [by apply worker_step_inv |].
  etransitivity; [exact IH2 |]. destruct (worker_step_frame (Nat.iter n worker_step b)) as (E1 & E2 & E3 & _).
  done.
Qed.

(** ** Waiting for the worker *)

Lemma inv_idle a sl Y : inv a 0 sl Y -> outstanding_ a = 0 -> worker_ a = Idle /\ queue_ a = [].
Proof.
  intros H E. rewrite (in_out _ _ _ _ H) in E. destruct (worker_ a), (queue_ a); cbn in E; try lia. done.
Qed.

(** With nothing outstanding the slack and the counter are free. *)
Lemma inv_fresh a sl sl' n Y :
  inv a 0 sl Y -> outstanding_ a = 0 -> 0 <= n -> inv (set_seals a n) 0 sl' Y.
Proof.
  intros H E Hn. destruct (inv_idle _ _ _ H E) as [Ew Eq]. destruct H as [Hg Hc Ho Hs (xw & xq & Hw & Hq & HY)].
  constructor; try done. exists xw, xq. unfold worker_pending in *. cbn [set_seals worker_ queue_].
  rewrite Ew in *. rewrite Eq in *. apply Forall2_nil_inv_l in Hq as ->. split; [done |]. split; [constructor | done].
Qed.

Lemma work_step a sl Y :
  inv a 0 sl Y -> outstanding_ a <> 0 -> (S (work (worker_step a)) <= work a)%nat.
Proof.
  intros [_ _ Ho _ (xw & xq & Hw & _)] Hne. unfold worker_step, work. unfold worker_pending in Hw.
  destruct (worker_ a) as [| j rows |] eqn:Ew.
  - destruct (queue_ a) as [|j q] eqn:Eq; [rewrite Ho in Hne; cbn in Hne; lia |].
    cbn [set_shared worker_ queue_ map list_sum foldr job_work length]. unfold job_work. lia.
  - destruct Hw as (x & _ & _ & _ & Hl). destruct (Nat.ltb_spec (length rows) (j_window j));
      cbn [set_shared worker_ queue_]; rewrite ?length_app; cbn [length]; lia.
  - cbn [set_shared worker_ queue_]. lia.
Qed.

Lemma spin_ends fuel a sl Y :
  inv a 0 sl Y -> (work a <= fuel)%nat ->
  exists a', spin fuel a = Some a' /\ inv a' 0 sl Y /\ frame a a' /\ outstanding_ a' = 0.
Proof.
  revert a. induction fuel as [|fuel IH]; intros a Ha Hf; cbn [spin];
    (destruct (Z.eqb_spec (outstanding_ a) 0) as [E|E]; [by exists a |]).
  - pose proof (work_step _ _ _ Ha E). lia.
  - pose proof (work_step _ _ _ Ha E). destruct (IH (worker_step a)) as (a' & H1 & H2 & H3 & H4).
    + by apply worker_step_inv.
    + lia.
    + exists a'. split; [done |]. split; [done |]. split; [| done].
      destruct (worker_step_frame a) as (E1 & E2 & E3 & _). etransitivity; [| exact H3]. done.
Qed.

Lemma join_ends a sl sl' Y :
  inv a 0 sl Y -> exists a', join a = Some a' /\ inv a' 0 sl' Y /\ outstanding_ a' = 0 /\
    seals_since_join_ a' = 0 /\ enc a' = enc a /\ gauge_backlog_drops_ a' = gauge_backlog_drops_ a.
Proof.
  intros Ha. unfold join. destruct (yield a) as [b o] eqn:Ey.
  destruct (yield_inv a 0 sl Y Ha) as [Hb Fb]. rewrite Ey in Hb, Fb. cbn [fst] in *.
  assert (H : exists c, (if outstanding_ b =? 0 then Some b else spin (work b) (add_gauges b 0 1 0 0)) = Some c /\
    inv c 0 sl Y /\ outstanding_ c = 0 /\ enc c = enc b /\ gauge_backlog_drops_ c = gauge_backlog_drops_ b).
  { destruct (Z.eqb_spec (outstanding_ b) 0); [by exists b |].
    destruct (spin_ends (work b) (add_gauges b 0 1 0 0) sl Y) as (c & H1 & H2 & (H3 & H4 & _) & H5).
    - by apply (inv_ext b).
    - done.
    - exists c. split_all; try done. rewrite H4. cbn. lia. }
  destruct H as (c & -> & Hc & Hz & E1 & E2). cbn [mbind option_bind]. eexists. split; [done |].
  destruct Fb as (F1 & F2 & _).
  split; [by apply (inv_fresh c sl) |]. cbn. split_all; congruence.
Qed.

(** ** The two encoders side by side *)

Definition set_ro (e : SwEncoder) (r : Z) : SwEncoder :=
  mkSwEncoder (cfg_ e) (stride_ e) (cap_ e) (count_ e) (next_slot_ e) (ring_ e) (sym_ e)
    (cur_len_ e) (next_seq_ e) (repair_key_ e) (credit_ e) (tail_repair_pending_ e)
    (sources_out_ e) r (oversize_drops_ e).

Definition drops (a : Async) : Z := gauge_backlog_drops_ a.

(** The asynchronous encoder's producer state is the synchronous one's, but for the count
    of repairs, and [Y] are its undelivered envelopes. *)
Record sim (a : Async) (e : SwEncoder) (sl : Z) (Y : list (list Z)) : Prop := {
  si_enc : exists r, enc a = set_ro e r;
  si_inv : inv a 0 sl Y;
  si_bound : seals_since_join_ a < Z.of_nat kSlackRows - 2;
}.

(** One call on each: the synchronous envelopes [oS] are, up to order, delivered as [oA],
    still undelivered, or dropped by the backlog cap. *)
Definition simulates (a : Async) (Y : list (list Z)) (a' : Async) (e' : SwEncoder)
    (oA oS : list (list Z)) : Prop :=
  exists Y' D, sim a' e' 0 Y' /\ Y ++ oS ≡ₚ oA ++ Y' ++ D /\ drops a' = drops a + Z.of_nat (length D).

Lemma yield_sim a e sl Y : sim a e sl Y -> sim (fst (yield a)) e sl Y /\ drops (fst (yield a)) = drops a.
Proof.
  intros [[r Hr] Hi Hb]. destruct (yield_inv a 0 sl Y Hi) as [H (F1 & F2 & F3)].
  split; [| done]. constructor; [| done | by rewrite F3]. exists r. congruence.
Qed.

(** A producer assignment that leaves the ring alone. *)
Lemma set_enc_inv a k sl Y e :
  ring_view e = ring_view (enc a) -> count_ e = count_ (enc a) -> inv a k sl Y -> inv (set_enc a e) k sl Y.
Proof.
  intros Hv Hc0 [Hg Hc Ho Hs (xw & xq & Hw & Hq & HY)].
  assert (Hp : forall j x, pending_job a sl j x -> pending_job (set_enc a e) sl j x).
  { intros j x (age & H1 & H2). exists age. split; [done |]. by apply (job_live_view (enc a)). }
  assert (Hwin : win_of e = win_of (enc a)) by (unfold ring_view in Hv; congruence).
  constructor; try done.
  - by apply (ring_geo_view (enc a)).
  - cbn [set_enc enc]. lia.
  - exists xw, xq. split; [| split; [by eapply Forall2_impl; [exact Hq | apply Hp] | done]].
    unfold worker_pending in *. cbn [set_enc worker_]. destruct (worker_ a); try done.
    destruct Hw as (x & H1 & H2 & H3 & H4). exists x. split; [done |]. split; [by apply Hp |].
    split; [| done]. cbn [set_enc enc]. unfold ring_view in Hv. injection Hv as V1 V2 V3 V4 V5 V6.
    unfold job_rows in *. by rewrite V4, V6.
Qed.

Lemma set_enc_sim a e e' r sl Y :
  sim a e sl Y -> ring_view e' = ring_view e -> count_ e' = count_ e ->
  sim (set_enc a (set_ro e' r)) e' sl Y.
Proof.
  intros [[r0 Hr] Hi Hb] Hv Hc. constructor; [by exists r | | done]. apply set_enc_inv; [| | done].
  - rewrite Hr. exact Hv.
  - rewrite Hr. exact Hc.
Qed.

Lemma drain_sim a e sl Y :
  sim a e sl Y -> let '(a', o) := drain_done a in
  exists Y', sim a' e sl Y' /\ Y ≡ₚ o ++ Y' /\ drops a' = drops a /\ outstanding_ a' = outstanding_ (fst (yield a)).
Proof.
  intros H. unfold drain_done. destruct (yield_sim a e sl Y H) as [Hb Hd].
  destruct (yield a) as [b n]. cbn [fst] in *. destruct Hb as [[r Hr] [Hg Hc Ho Hs (xw & xq & Hw & Hq & HY)] Hb].
  exists (xw ++ xq). split; [| split; [by rewrite <- HY | done]].
  constructor; [by exists r | | done]. constructor; try done.
  exists xw, xq. split; [exact Hw |]. split; [| done]. by apply (pending_jobs_step b).
Qed.

(** ** Emission *)

(** The job just counted is queued: its envelope joins the undelivered ones. *)
Lemma queue_inv a j x Y :
  inv a 1 0 Y -> pending_job a 0 j x ->
  inv (set_shared a (queue_ a ++ [j]) (worker_ a) (done_ a) (outstanding_ a) (gauge_jobs_ a)) 0 0 (Y ++ [x]).
Proof.
  intros [Hg Hc Ho Hs (xw & xq & Hw & Hq & HY)] Hj. constructor; try done.
  - cbn [set_shared outstanding_ worker_ queue_]. rewrite length_app. cbn [length]. lia.
  - exists xw, (xq ++ [x]). split; [exact Hw |]. split.
    + apply Forall2_app; [by apply (pending_jobs_step a) |]. constructor; [| constructor].
      by apply (pending_job_step a).
    + cbn [set_shared done_]. rewrite <- HY. by rewrite !app_assoc.
Qed.

(** Or built on the spot. *)
Lemma inline_inv a j Y :
  inv a 1 0 Y -> inv (build_inline a j) 0 0 (Y ++ [build_repair (enc a) j]).
Proof.
  intros [Hg Hc Ho Hs (xw & xq & Hw & Hq & HY)]. constructor; try done.
  - cbn. lia.
  - exists xw, xq. split; [exact Hw |]. split; [by apply (pending_jobs_step a) |].
    cbn [build_inline set_shared done_ add_gauges enc]. rewrite <- HY, <- !app_assoc.
    apply Permutation_app_head. rewrite (app_assoc xw xq). apply Permutation_app_comm.
Qed.

Lemma count_inv a Y :
  inv a 0 0 Y -> inv (set_shared a (queue_ a) (worker_ a) (done_ a) (outstanding_ a + 1) (gauge_jobs_ a)) 1 0 Y.
Proof.
  intros [Hg Hc Ho Hs (xw & xq & Hw & Hq & HY)]. constructor; try done; [cbn; lia |].
  exists xw, xq. split; [exact Hw |]. split; [by apply (pending_jobs_step a) | done].
Qed.

(** The second half of [emit_or_enqueue]: the job is counted, then queued or built. *)
Lemma enqueue_sim a e j x Y :
  sim a e 0 Y -> job_live e 0 j x ->
  let '(b, o) := yield (set_shared a (queue_ a) (worker_ a) (done_ a) (outstanding_ a + 1) (gauge_jobs_ a)) in
  let a' := if (slots_ b <=? depth b o)%nat then build_inline b j
            else let '(c, o) := yield (set_shared b (queue_ b ++ [j]) (worker_ b) (done_ b) (outstanding_ b)
                                         (gauge_jobs_ b)) in
                 add_gauges c 0 0 (Z.of_nat (depth c o)) 0 in
  sim a' e 0 (Y ++ [x]) /\ drops a' = drops a.
Proof.
  intros [[r Hr] Hi Hbd] Hj. pose proof (count_inv a Y Hi) as H1.
  destruct (yield_inv _ _ _ _ H1) as [H2 (F1 & F2 & F3)]. destruct (yield _) as [b o]. cbn [fst] in *.
  change (enc (set_shared a _ _ _ _ _)) with (enc a) in F1.
  assert (Hjb : job_live (enc b) 0 j x) by (rewrite F1, Hr; by apply (job_live_view e)).
  cbn zeta. destruct (_ <=? _)%nat.
  - split; [constructor |].
    + exists r. cbn. congruence.
    + rewrite <- (jl_env _ _ _ _ Hjb). by apply inline_inv.
    + cbn. rewrite F3. done.
    + unfold drops. cbn. rewrite F2. cbn. lia.
  - assert (H3 : pending_job b 0 j x).
    { exists 0%nat. split; [| done]. pose proof (in_seals _ _ _ _ H2). lia. }
    pose proof (queue_inv b j x Y H2 H3) as H4.
    destruct (yield_inv _ _ _ _ H4) as [H5 (G1 & G2 & G3)]. destruct (yield _) as [c oc]. cbn [fst] in *.
    split; [constructor |].
    + exists r. cbn. rewrite G1. cbn. congruence.
    + revert H5. by apply inv_ext.
    + cbn. rewrite G3. cbn. rewrite F3. done.
    + unfold drops. cbn. rewrite G2. cbn. rewrite F2. cbn. lia.
Qed.

Lemma emit_sim a e Y :
  sim a e 0 Y -> let '(e', env) := emit_repair e in simulates a Y (emit_or_enqueue a) e' [] [env].
Proof.
  intros H. cbn [emit_repair]. unfold emit_or_enqueue, simulates.
  destruct (yield_sim a e 0 Y H) as [Hb Hd]. destruct (yield a) as [b o]. cbn [fst] in *.
  destruct (si_enc _ _ _ _ Hb) as [r Hr]. destruct (_ <=? _)%nat.
  { exists Y, [build_repair (alloc_repair e) (new_job e)]. split; [| split; [done |]].
    - unfold drop_repair. rewrite Hr. destruct (set_enc_sim b e (alloc_repair e) r 0 Y Hb) as [H1 H2 H3]; [done | done |].
      constructor; [exact H1 | | exact H3]. revert H2. by apply inv_ext.
    - unfold drops, drop_repair in *. cbn. lia. }
  assert (Hc : sim (set_enc b (alloc_repair (enc b))) (alloc_repair e) 0 Y).
  { rewrite Hr. by apply (set_enc_sim b e (alloc_repair e) (r + 1)). }
  assert (Hj : job_live (alloc_repair e) 0 (new_job e) (build_repair (alloc_repair e) (new_job e))).
  { destruct (si_inv _ _ _ _ Hb) as [Hg Hcnt _ _ _]. rewrite Hr in Hg, Hcnt.
    apply (job_live_view e); [done |]. apply (new_job_live e); [| exact Hcnt].
    by apply (ring_geo_view (set_ro e r)). }
  assert (Ej : new_job (enc b) = new_job e) by (by rewrite Hr). rewrite Ej.
  destruct (yield_sim _ _ _ _ Hc) as [Hc' Hdc]. change (drops (set_enc b _)) with (drops b) in Hdc.
  destruct (yield (set_enc b _)) as [c oc]. cbn [fst] in *.
  set (c' := if outstanding_ c =? 0 then set_seals c 0 else c).
  assert (Hcs : sim c' (alloc_repair e) 0 Y /\ drops c' = drops c).
  { subst c'. destruct (Z.eqb_spec (outstanding_ c) 0); [| done]. destruct Hc' as [[rc Hrc] Hic _].
    split; [| done]. constructor; [by exists rc | by apply (inv_fresh c 0) |]. cbn. unfold kSlackRows. lia. }
  destruct Hcs as [Hcs Hdcs]. clearbody c'.
  pose proof (enqueue_sim c' _ _ _ Y Hcs Hj) as He. destruct (yield _) as [d od]. cbn zeta in He.
  destruct He as [He1 He2]. eexists _, []. split; [exact He1 |].
  split; [by rewrite !app_nil_r |]. rewrite He2. cbn. lia.
Qed.

(** ** Composition *)

Lemma simulates_trans a Y a1 e1 o1 s1 a2 e2 o2 s2 :
  simulates a Y a1 e1 o1 s1 -> (forall Y1, sim a1 e1 0 Y1 -> simulates a1 Y1 a2 e2 o2 s2) ->
  simulates a Y a2 e2 (o1 ++ o2) (s1 ++ s2).
Proof.
  intros (Y1 & D1 & H1 & P1 & E1) H2. destruct (H2 Y1 H1) as (Y2 & D2 & H3 & P2 & E2).
  exists Y2, (D1 ++ D2). split; [done |]. split; [| rewrite length_app; lia].
  rewrite app_assoc, P1, <- !app_assoc. apply Permutation_app_head.
  rewrite (Permutation_app_comm D1 s2), app_assoc, P2, <- !app_assoc.
  do 2 apply Permutation_app_head. apply Permutation_app_comm.
Qed.

(** The same for a continuation that may fail: it does not, for it does not see [Y]. *)
Lemma simulates_bind {A} (f : option A) (st : A -> Async) (out : A -> list (list Z))
    a Y a1 e1 o1 s1 e2 s2 :
  simulates a Y a1 e1 o1 s1 ->
  (forall Y1, sim a1 e1 0 Y1 -> exists x, f = Some x /\ simulates a1 Y1 (st x) e2 (out x) s2) ->
  exists x, f = Some x /\ simulates a Y (st x) e2 (o1 ++ out x) (s1 ++ s2).
Proof.
  intros H1 H2. destruct H1 as (Y1 & D1 & Hs & P1 & E1).
  destruct (H2 Y1 Hs) as (x & Hf & _). exists x. split; [done |].
  apply (simulates_trans a Y a1 e1 o1 s1); [by exists Y1, D1 |].
  intros Y2 Hs2. destruct (H2 Y2 Hs2) as (x' & Hf' & Hx'). congruence.
Qed.

Lemma simulates_refl a e Y : sim a e 0 Y -> simulates a Y a e [] [].
Proof. intros H. exists Y, []. split; [done |]. rewrite !app_nil_r. cbn. split; [done | lia]. Qed.

Lemma simulates_sim a Y a' e' : sim a' e' 0 Y -> drops a' = drops a -> simulates a Y a' e' [] [].
Proof. intros H E. exists Y, []. split; [done |]. rewrite !app_nil_r, E. cbn. split; [done | lia]. Qed.

(** An assignment on both sides. *)
Lemma simulates_set a e Y e' r :
  sim a e 0 Y -> ring_view e' = ring_view e -> count_ e' = count_ e ->
  simulates a Y (set_enc a (set_ro e' r)) e' [] [].
Proof. intros. apply simulates_sim; [by eapply set_enc_sim | done]. Qed.

Lemma drain_simulates a e Y :
  sim a e 0 Y -> simulates a Y (fst (drain_done a)) e (snd (drain_done a)) [].
Proof.
  intros H. pose proof (drain_sim a e 0 Y H) as Hd. destruct (drain_done a) as [a' o].
  destruct Hd as (Y' & H1 & H2 & H3 & _). exists Y', []. split; [done |]. cbn [fst snd].
  rewrite !app_nil_r, H3. split; [done | cbn; lia].
Qed.

(** ** Sealing *)

Lemma credit_loop_sim fuel a e Y e' oS :
  sim a e 0 Y -> credit_loop fuel e = Some (e', oS) ->
  exists a', async_credit_loop fuel a = Some a' /\ simulates a Y a' e' [] oS.
Proof.
  revert a e Y oS. induction fuel as [|fuel IH]; intros a e Y oS H; cbn [credit_loop async_credit_loop];
    destruct (si_enc _ _ _ _ H) as [r Hr]; rewrite Hr; cbn [credit_ set_ro];
    (destruct (d_leb d_one (credit_ e)); [| intros [= <- <-]; exists a; split; [done | by apply simulates_refl]]);
    [done |].
  pose proof (emit_sim a e Y H) as He. destruct (emit_repair e) as [e1 env] eqn:Ee.
  destruct (credit_loop fuel (set_credit e1 (d_sub (credit_ e1) d_one))) as [[e2 o2]|] eqn:El; [| done].
  cbn [mbind option_bind]. intros [= <- <-].
  assert (Hset : simulates a Y (set_enc (emit_or_enqueue a)
                     (set_credit (enc (emit_or_enqueue a)) (d_sub (credit_ (enc (emit_or_enqueue a))) d_one)))
                   (set_credit e1 (d_sub (credit_ e1) d_one)) [] [env]).
  { apply (simulates_trans a Y _ e1 [] [env] _ _ [] [] He). intros Y1 H1.
    destruct (si_enc _ _ _ _ H1) as [r1 Hr1]. rewrite Hr1. exact (simulates_set _ e1 Y1 (set_credit e1 (d_sub (credit_ e1) d_one)) r1 H1 eq_refl eq_refl). }
  apply (simulates_bind _ id (fun _ => []) _ _ _ _ [] [env] e2 o2 Hset). intros Y1 H1.
  exact (IH _ _ Y1 o2 H1 El).
Qed.

(** After the backstop every job outstanding has slack for one more row. *)
Lemma backstop_sim a e Y :
  sim a e 0 Y -> exists a', backstop a = Some a' /\ sim a' e 1 Y /\ drops a' = drops a.
Proof.
  intros H. unfold backstop. destruct (yield_sim a e 0 Y H) as [[[r Hr] Hi Hbd] Hd].
  destruct (yield a) as [b o]. cbn [fst] in *.
  destruct (Z.eqb_spec (outstanding_ b) 0) as [E|E].
  { exists b. split; [done |]. split; [| done]. constructor; [by exists r | | done].
    pose proof (inv_fresh b 0 1 (seals_since_join_ b) Y Hi E (in_seals _ _ _ _ Hi)) as H1.
    revert H1. by apply inv_ext. }
  set (c := set_seals b (seals_since_join_ b + 1)).
  assert (Hc1 : inv c 0 1 Y).
  { destruct Hi as [Hg Hc Ho Hs (xw & xq & Hw & Hq & HY)].
    assert (Hp : forall j x, pending_job b 0 j x -> pending_job c 1 j x).
    { intros j x (age & H1 & H2). exists age. split; [cbn; lia | done]. }
    constructor; try done; [cbn; lia |].
    exists xw, xq. split; [| split; [by eapply Forall2_impl; [exact Hq | apply Hp] | done]].
    unfold worker_pending in *. cbn [c set_seals worker_]. destruct (worker_ b); try done.
    destruct Hw as (x & H1 & H2 & H3). exists x. split; [done |]. split; [by apply Hp | done]. }
  destruct (Z.leb_spec (Z.of_nat kSlackRows - 2) (seals_since_join_ c)) as [Hge|Hlt].
  - destruct (join_ends c 1 1 Y Hc1) as (a' & Hj & H1 & _ & H2 & H3 & H4).
    exists a'. split; [done |]. split; [| by rewrite <- Hd].
    constructor; [exists r; by rewrite H3 | done |]. rewrite H2. unfold kSlackRows. lia.
  - exists c. split; [done |]. split; [| done]. by constructor; [exists r |..].
Qed.

Lemma store_sim a e Y : sim a e 1 Y -> sim (set_enc a (store_row (enc a))) (store_row e) 0 Y.
Proof.
  intros [[r Hr] [Hg Hc Ho Hs (xw & xq & Hw & Hq & HY)] Hbd].
  assert (Hage : forall j x, pending_job a 1 j x -> exists age, (S age < kSlackRows)%nat /\
    Z.of_nat (S age) <= seals_since_join_ a /\ job_live (enc a) age j x).
  { intros j x (age & H1 & H2). exists age. split_all; [lia | lia | done]. }
  assert (Hp : forall j x, pending_job a 1 j x -> pending_job (set_enc a (store_row (enc a))) 0 j x).
  { intros j x Hj. destruct (Hage j x Hj) as (age & H1 & H2 & H3). exists (S age).
    split; [cbn [set_enc seals_since_join_]; lia |]. by apply job_live_store. }
  constructor; [by exists r; cbn [set_enc enc]; rewrite Hr | | done].
  constructor; try done.
  - by apply ring_geo_store.
  - cbn [set_enc enc store_row count_ cfg_]. change (win_of (store_row (enc a))) with (win_of (enc a)).
    destruct (Nat.ltb_spec (count_ (enc a)) (win_of (enc a))); lia.
  - exists xw, xq. split; [| split; [by eapply Forall2_impl; [exact Hq | apply Hp] | done]].
    unfold worker_pending in *. cbn [set_enc worker_]. destruct (worker_ a); try done.
    destruct Hw as (x & H1 & H2 & H3 & H4). exists x. split; [done |]. split; [by apply Hp |].
    split; [| done]. destruct (Hage _ _ H2) as (age & G1 & G2 & G3). cbn [set_enc enc].
    by rewrite (job_rows_store (enc a) age j x).
Qed.

Lemma seal_sim a e Y e' oS :
  sim a e 0 Y -> seal_current e = Some (e', oS) ->
  exists x, async_seal a = Some x /\ simulates a Y (fst x) e' (snd x) oS.
Proof.
  intros H. unfold seal_current, async_seal. destruct (si_enc _ _ _ _ H) as [r Hr].
  rewrite Hr. cbn [cur_len_ set_ro].
  destruct (cur_len_ e =? 0)%nat; [intros [= <- <-]; exists (a, []); split; [done | by apply simulates_refl] |].
  destruct (backstop_sim a e Y H) as (b & -> & Hb & Ed). cbn [mbind option_bind].
  destruct (yield_sim b e 1 Y Hb) as [Hc Edc]. destruct (yield b) as [c n]. cbn [fst] in *.
  pose proof (store_sim c e Y Hc) as Hs.
  destruct (credit_loop kCreditFuel (store_row e)) as [[e1 o1]|] eqn:El; [| done].
  cbn [mbind option_bind]. intros [= <- <-].
  destruct (credit_loop_sim _ _ _ _ _ _ Hs El) as (a' & Ha' & Y' & D & H1 & H2 & H3).
  rewrite Ha'. cbn [mbind option_bind]. exists (a', [source_env e]). split; [done |].
  exists Y', D. split; [done |]. cbn [fst snd]. split.
  - cbn [app]. rewrite <- Permutation_middle. by rewrite H2.
  - rewrite H3. unfold drops in *. cbn. lia.
Qed.

(** ** The public operations *)

Lemma append_view e x y : ring_view (append_to_current e x y) = ring_view e.
Proof. done. Qed.

Lemma pack_sim a e Y x y e' oS :
  sim a e 0 Y -> add_packet e x y = Some (e', oS) ->
  exists z, async_pack a x y = Some z /\ simulates a Y (fst z) e' (snd z) oS.
Proof.
  intros H. unfold async_pack, add_packet. destruct (si_enc _ _ _ _ H) as [r Hr]. rewrite Hr.
  change (oversize (set_ro e r)) with (oversize e). change (ss_of (set_ro e r)) with (ss_of e).
  change (cur_len_ (set_ro e r)) with (cur_len_ e).
  destruct (oversize e _).
  { intros [= <- <-]. eexists. split; [done |]. exact (simulates_set a e Y (count_oversize e) r H eq_refl eq_refl). }
  set (full := (ss_of e - cur_len_ e <? _)%nat).
  destruct (if full then seal_current e else Some (e, [])) as [[e1 o1]|] eqn:Es; [| done].
  cbn [mbind option_bind]. intros [= <- <-].
  assert (Hs : exists z, (if full then async_seal a else Some (a, [])) = Some z /\
    simulates a Y (fst z) e1 (snd z) o1).
  { destruct full; [by apply seal_sim with (e := e) |]. injection Es as <- <-. exists (a, []).
    split; [done | by apply simulates_refl]. }
  destruct Hs as ([b o] & -> & Hs). cbn [mbind option_bind fst snd] in *. eexists. split; [done |]. cbn [fst snd].
  rewrite <- (app_nil_r o), <- (app_nil_r o1).
  apply (simulates_trans a Y b e1 o o1); [done |]. intros Y1 H1.
  destruct (si_enc _ _ _ _ H1) as [r1 Hr1]. rewrite Hr1.
  exact (simulates_set b e1 Y1 (append_to_current e1 x y) r1 H1 eq_refl eq_refl).
Qed.

Lemma add_sim a e Y x y e' oS :
  sim a e 0 Y -> add_packet e x y = Some (e', oS) ->
  exists z, async_add_packet a x y = Some z /\ simulates a Y (fst z) e' (snd z) oS.
Proof.
  intros H Hadd. unfold async_add_packet. pose proof (drain_simulates a e Y H) as Hd.
  destruct (drain_done a) as [b o1]. cbn [fst snd] in Hd.
  destruct (simulates_bind (async_pack b x y) fst snd a Y b e o1 [] e' oS Hd) as ([c o2] & -> & Hs).
  - intros Y1 H1. by apply pack_sim with (e := e).
  - cbn [mbind option_bind]. eexists. split; [done | exact Hs].
Qed.

Lemma tail_sim a e Y :
  sim a e 0 Y ->
  let due := tail_repair_pending_ e && (0 <? count_ e)%nat in
  simulates a Y (if due then emit_or_enqueue a else a) (if due then alloc_repair e else e) []
    (if due then [build_repair (alloc_repair e) (new_job e)] else []).
Proof. intros H due. destruct due; [exact (emit_sim a e Y H) | by apply simulates_refl]. Qed.

Lemma flush_sim a e Y e' oS :
  sim a e 0 Y -> flush e = Some (e', oS) ->
  exists z, async_flush a = Some z /\ simulates a Y (fst z) e' (snd z) oS.
Proof.
  intros H. unfold flush, async_flush.
  destruct (seal_current e) as [[e1 o1]|] eqn:Es; [| done]. cbn [mbind option_bind]. intros Hf.
  destruct (seal_sim a e Y e1 o1 H Es) as ([b o] & -> & Hb). cbn [mbind option_bind fst snd] in *.
  set (due := tail_repair_pending_ e1 && (0 <? count_ e1)%nat) in Hf.
  assert (Hdue : tail_repair_pending_ (enc b) && (0 <? count_ (enc b))%nat = due).
  { destruct Hb as (Y1 & D1 & H1 & _). destruct (si_enc _ _ _ _ H1) as [r1 Hr1]. by rewrite Hr1. }
  rewrite Hdue. set (c := if due then emit_or_enqueue b else b).
  destruct (drain_done c) as [d o2] eqn:Ed. eexists. split; [done |]. cbn [fst snd].
  assert (Hout : (e', oS) = (if due then alloc_repair e1 else e1,
    o1 ++ ((if due then [build_repair (alloc_repair e1) (new_job e1)] else []) ++ []))).
  { rewrite app_nil_r. destruct due; cbn [emit_repair] in Hf; injection Hf as <- <-; [done |].
    by rewrite app_nil_r. }
  injection Hout as -> ->. apply (simulates_trans a Y b e1 o o1); [done |]. intros Y1 H1.
  apply (simulates_trans b Y1 c (if due then alloc_repair e1 else e1) [] _ d _ o2 []);
    [by apply (tail_sim b e1 Y1) |].
  intros Y2 H2. pose proof (drain_simulates c _ Y2 H2) as Hd. rewrite Ed in Hd. exact Hd.
Qed.

Lemma astep_sim a e Y o e' oS :
  sim a e 0 Y -> sync_step e o = Some (e', oS) ->
  exists z, astep a o = Some z /\ simulates a Y (fst z) e' (snd z) oS.
Proof.
  intros H. destruct o as [[x y | | x] |]; cbn [astep sync_step estep].
  - by apply add_sim.
  - by apply flush_sim.
  - intros [= <- <-]. eexists. split; [done |]. destruct (si_enc _ _ _ _ H) as [r Hr]. rewrite Hr.
    exact (simulates_set a e Y (set_overhead e x) r H eq_refl eq_refl).
  - intros [= <- <-]. eexists. split; [done |]. by apply drain_simulates.
Qed.

Lemma arun_sim a e Y ops e' oS :
  sim a e 0 Y -> sync_run e ops = Some (e', oS) ->
  exists z, arun a ops = Some z /\ simulates a Y (fst z) e' (snd z) oS.
Proof.
  revert a e Y oS. induction ops as [|o ops IH]; intros a e Y oS H; cbn [sync_run arun].
  - intros [= <- <-]. exists (a, []). split; [done | by apply simulates_refl].
  - destruct (sync_step e o) as [[e1 o1]|] eqn:Es; [| done]. cbn [mbind option_bind].
    destruct (sync_run e1 ops) as [[e2 o2]|] eqn:Er; [| done]. cbn [mbind option_bind]. intros [= <- <-].
    destruct (astep_sim a e Y o e1 o1 H Es) as ([b oA] & -> & Hb). cbn [mbind option_bind fst snd] in *.
    destruct (simulates_bind (arun b ops) fst snd a Y b e1 oA o1 e2 o2 Hb) as ([c oB] & -> & Hc).
    + intros Y1 H1. by apply IH with (e := e1).
    + cbn [mbind option_bind]. eexists. split; [done | exact Hc].
Qed.

Lemma new_async_sim cfg init slots sched :
  sim (new_async cfg init slots sched) (new_encoder cfg init) 0 [].
Proof.
  constructor; [exists 0; done | | cbn; unfold kSlackRows; lia].
  constructor; try done.
  - assert (Hw : 2 <= clamp_window (window cfg)).
    { unfold clamp_window, kMaxWindow. repeat case_Zb; lia. }
    constructor; cbn; [done | unfold win_of; cbn; lia | by rewrite length_replicate].
  - cbn. lia.
  - exists [], []. by split_all.
Qed.

Lemma idle_iter n a : worker_ a = Idle -> queue_ a = [] -> Nat.iter n worker_step a = a.
Proof.
  intros Ew Eq. induction n as [|n IH]; [done |]. change (worker_step (Nat.iter n worker_step a) = a).
  rewrite IH. unfold worker_step. by rewrite Ew, Eq.
Qed.

Lemma yield_idle a : worker_ a = Idle -> queue_ a = [] -> outstanding_ (fst (yield a)) = outstanding_ a.
Proof. intros Ew Eq. unfold yield. destruct (sched_ a); [done |]. cbn [fst]. by rewrite idle_iter. Qed.

Lemma inv_done a sl Y : inv a 0 sl Y -> outstanding_ a = 0 -> done_ a ≡ₚ Y.
Proof.
  intros H E. destruct (inv_idle _ _ _ H E) as [Ew Eq]. destruct H as [_ _ _ _ (xw & xq & Hw & Hq & HY)].
  unfold worker_pending in Hw. rewrite Ew in Hw. rewrite Eq in Hq. apply Forall2_nil_inv_l in Hq as ->.
  subst xw. by rewrite !app_nil_r in HY.
Qed.

(** [finish]: everything undelivered comes out. *)
Lemma finish_sim a e Y :
  sim a e 0 Y -> exists a' o, finish a = Some (a', o) /\ o ≡ₚ Y /\ drops a' = drops a /\ outstanding_ a' = 0.
Proof.
  intros [[r Hr] Hi Hb]. unfold finish. destruct (join_ends a 0 0 Y Hi) as (b & -> & H1 & H2 & H3 & H4 & H5).
  cbn [mbind option_bind].
  assert (Hs : sim b e 0 Y).
  { constructor; [exists r; by rewrite H4 | done |]. rewrite H3. unfold kSlackRows. lia. }
  pose proof (drain_sim b e 0 Y Hs) as Hd. destruct (drain_done b) as [c o] eqn:Ed.
  destruct Hd as (Y' & G1 & G2 & G3 & G4). exists c, o. split; [done |].
  destruct (inv_idle _ _ _ H1 H2) as [Ew Eq]. rewrite (yield_idle b Ew Eq), H2 in G4.
  pose proof (inv_done c 0 Y' (si_inv _ _ _ _ G1) G4) as Hdn.
  assert (Hnil : done_ c = []).
  { unfold drain_done in Ed. destruct (yield b). by injection Ed as <- <-. }
  rewrite Hnil in Hdn. apply Permutation_nil in Hdn as ->. rewrite app_nil_r in G2.
  split; [by symmetry |]. split; [| done]. by rewrite G3.
Qed.

(** ** The property *)

(** C28.  The worker is transparent.  For every schedule of the worker thread and every
    load of its queue by other encoders, an encoder with a worker returns from every call
    the synchronous one returns from (the join included); after a final [finish] nothing
    is outstanding, and the envelopes delivered are exactly -- up to order -- those the
    synchronous encoder emits on the same calls, byte for byte, less one per credit
    forfeited at the backlog cap. *)
Theorem async_same_envelopes (cfg : SwConfig) (init : Z) (slots : nat) (sched : list Tick)
    (ops : list aop) (e : SwEncoder) (oS : list (list Z)) :
  sync_run (new_encoder cfg init) ops = Some (e, oS) ->
  exists a oA a' tail dropped,
    arun (new_async cfg init slots sched) ops = Some (a, oA) /\
    finish a = Some (a', tail) /\ outstanding_ a' = 0 /\
    oS ≡ₚ oA ++ tail ++ dropped /\ Z.of_nat (length dropped) = gauge_backlog_drops_ a'.
Proof.
  intros Hs. destruct (arun_sim _ _ [] ops e oS (new_async_sim cfg init slots sched) Hs)
    as ([a oA] & Ha & Y & D & H1 & H2 & H3). cbn [fst snd] in *.
  destruct (finish_sim a e Y H1) as (a' & tail & Hf & Hp & Hd & Hz).
  exists a, oA, a', tail, D. split; [done |]. split; [done |]. split; [done |]. split.
  - cbn [app] in H2. by rewrite Hp.
  - unfold drops in *. rewrite Hd, H3. done.
Qed.

(** Two packets per symbol, a repair per source, a queue of two slots and a worker that
    stalls, runs, and shares the queue with 300 foreign jobs once. *)
Definition async_cfg : SwConfig := mkSwConfig 8 4 d_one.
Definition async_ops : list aop :=
  [Op (AddPacket [1; 2] [3]); Op (AddPacket [4] []); Op Flush; Op (AddPacket [5; 6; 7] [8]); Collect;
   Op (AddPacket [9] []); Op Flush].
Definition async_sched : list Tick :=
  [mkTick 0 0; mkTick 0 0; mkTick 1 0; mkTick 0 0; mkTick 0 0; mkTick 2 300; mkTick 1 0; mkTick 0 1].

Example async_same_envelopes_witness :
  exists e oS, sync_run (new_encoder async_cfg 7) async_ops = Some (e, oS) /\
  exists a oA a' tail dropped,
    arun (new_async async_cfg 7 2 async_sched) async_ops = Some (a, oA) /\
    finish a = Some (a', tail) /\ outstanding_ a' = 0 /\
    oS ≡ₚ oA ++ tail ++ dropped /\ Z.of_nat (length dropped) = gauge_backlog_drops_ a'.
Proof.
  destruct (sync_run (new_encoder async_cfg 7) async_ops) as [[e oS]|] eqn:E;
    [| vm_compute in E; discriminate E].
  exists e, oS. split; [reflexivity |].
  exact (async_same_envelopes async_cfg 7 2 async_sched async_ops e oS E).
Defined.
