(* ===== verification/SipHash.v ===== *)
(** * SipHash: SipHash-2-4, the keyed MAC of the control plane (common/src/siphash.cpp) *)
From S2P Require Import Prelude Bytes.
Local Open Scope Z_scope.
Local Open Scope mabur_scope.

Definition add64 (a b : Z) : Z := u64 (a + b).
Definition rotl (x b : Z) : Z := Z.lor (u64 (Z.shiftl x b)) (Z.shiftr x (64 - b)).

(** [for (int i = 7; i >= 0; --i) v = (v << 8) | p[i]]. *)
Definition u8to64_le (p : list Z) : Z := foldr (fun b v => Z.lor (u64 (Z.shiftl v 8)) b) 0 (take 8 p).

Record SipState := mkSip { v0 : Z; v1 : Z; v2 : Z; v3 : Z }.

Definition sipround (s : SipState) : SipState :=
  let '(mkSip v0 v1 v2 v3) := s in
  let v0 := add64 v0 v1 in let v1 := rotl v1 13 in let v1 := v1 ⊕ v0 in let v0 := rotl v0 32 in
  let v2 := add64 v2 v3 in let v3 := rotl v3 16 in let v3 := v3 ⊕ v2 in
  let v0 := add64 v0 v3 in let v3 := rotl v3 21 in let v3 := v3 ⊕ v0 in
  let v2 := add64 v2 v1 in let v1 := rotl v1 17 in let v1 := v1 ⊕ v2 in let v2 := rotl v2 32 in
  mkSip v0 v1 v2 v3.

(** Absorb one 64-bit word: two rounds. *)
Definition sip_word (s : SipState) (m : Z) : SipState :=
  let '(mkSip v0 v1 v2 v3) := s in
  let '(mkSip v0 v1 v2 v3) := sipround (sipround (mkSip v0 v1 v2 (v3 ⊕ m))) in
  mkSip (v0 ⊕ m) v1 v2 v3.

(** The words of the message up to its last multiple of eight bytes. *)
Fixpoint sip_words (n : nat) (s : SipState) (inp : list Z) : SipState :=
  match n with O => s | S n => sip_words n (sip_word s (u8to64_le inp)) (drop 8 inp) end.

Definition sip_init (key : list Z) : SipState :=
  let k0 := u8to64_le key in let k1 := u8to64_le (drop 8 key) in
  mkSip (8317987319222330741 ⊕ k0) (7237128888997146477 ⊕ k1)
        (7816392313619706465 ⊕ k0) (8387220255154660723 ⊕ k1).

(** The last word: the length byte on top, the left-over bytes below. *)
Definition sip_last (inp : list Z) : Z :=
  let len := length inp in
  foldl (fun b '(i, x) => Z.lor b (u64 (Z.shiftl x (8 * i))))
    (u64 (Z.shiftl (u64 (Z.of_nat len)) 56))
    (zip (seqZ 0 8) (drop (8 * (len / 8)) inp)).

Definition siphash24 (key inp : list Z) : Z :=
  let s := sip_words (length inp / 8) (sip_init key) inp in
  let '(mkSip v0 v1 v2 v3) := sip_word s (sip_last inp) in
  let s := mkSip v0 v1 (v2 ⊕ 255) v3 in
  let '(mkSip v0 v1 v2 v3) := sipround (sipround (sipround (sipround s))) in
  v0 ⊕ v1 ⊕ v2 ⊕ v3.

(** The reference vectors of tests/test_siphash.cpp: key 00..0f, messages 00..n-1. *)
Example siphash24_reference :
  map (fun n => siphash24 (seqZ 0 16) (seqZ 0 n)) [0; 1; 15] =
  [8246050544436514353; 8428550223375919101; 11613035633349379557].
Proof. vm_compute. reflexivity. Qed.

(** ** The hash is a 64-bit value *)

Definition state_ok (s : SipState) : Prop :=
  in_width 64 (v0 s) /\ in_width 64 (v1 s) /\ in_width 64 (v2 s) /\ in_width 64 (v3 s).

Lemma rotl_width x b : 0 <= b <= 64 -> in_width 64 x -> in_width 64 (rotl x b).
Proof.
  intros Hb Hx. apply lor_in_width; [lia | width |]. destruct Hx as [H0 H1].
  split; [by apply Z.shiftr_nonneg |]. rewrite Z.shiftr_div_pow2 by lia.
  apply Z.div_lt_upper_bound; [lia |]. pose proof (Z.pow_pos_nonneg 2 (64 - b)). nia.
Qed.

#[export] Hint Extern 2 (in_width 64 (rotl _ _)) => apply rotl_width; [lia |] : width.
#[export] Hint Extern 2 (in_width 64 (add64 _ _)) => apply wrap_in_width : width.

Lemma sipround_ok s : state_ok s -> state_ok (sipround s).
Proof.
  destruct s as [a b c d]. intros (Ha & Hb & Hc & Hd). cbn in Ha, Hb, Hc, Hd.
  unfold sipround, state_ok. cbn zeta. cbn [v0 v1 v2 v3]. split_all; auto 12 with width.
Qed.

Lemma sip_word_ok s m : state_ok s -> in_width 64 m -> state_ok (sip_word s m).
Proof.
  intros Hs Hm. unfold sip_word. destruct s as [a b c d].
  assert (H : state_ok (sipround (sipround (mkSip a b c (d ⊕ m))))).
  { do 2 apply sipround_ok. destruct Hs as (? & ? & ? & ?). cbn [v0 v1 v2 v3] in *. unfold state_ok; split_all; cbn [v0 v1 v2 v3]; auto with width. }
  destruct (sipround _) as [e f g h]. destruct H as (? & ? & ? & ?). cbn [v0 v1 v2 v3] in *.
  unfold state_ok; split_all; cbn [v0 v1 v2 v3]; auto with width.
Qed.

Lemma u8to64_width p : bytes_ok p -> in_width 64 (u8to64_le p).
Proof.
  intros Hp. unfold u8to64_le. induction (Forall_take _ 8 _ Hp) as [|b l Hb Hl IH]; [decided |].
  cbn [foldr]. apply lor_in_width; [lia | width |]. by apply (in_width_le 8).
Qed.

Lemma sip_words_ok n s inp : state_ok s -> bytes_ok inp -> state_ok (sip_words n s inp).
Proof.
  revert s inp. induction n as [|n IH]; intros s inp Hs Hi; [done |]. cbn [sip_words].
  apply IH; [| by apply Forall_drop]. by apply sip_word_ok, u8to64_width.
Qed.

Lemma siphash24_width key inp : bytes_ok key -> bytes_ok inp -> in_width 64 (siphash24 key inp).
Proof.
  intros Hk Hi. unfold siphash24.
  assert (H0 : state_ok (sip_init key)).
  { pose proof (u8to64_width key Hk). pose proof (u8to64_width (drop 8 key) (Forall_drop _ 8 _ Hk)).
    unfold sip_init, state_ok. cbn [v0 v1 v2 v3].
    split_all; (apply lxor_in_width; [lia | decided | done]). }
  assert (Hl : in_width 64 (sip_last inp)).
  { unfold sip_last. cbn zeta. set (z := zip _ _). set (b := u64 _).
    assert (Hb : in_width 64 b) by (subst b; width). clearbody b z. revert b Hb.
    induction z as [|[i x] z IH]; intros b Hb; [done |]. cbn [foldl]. apply IH. auto with width. }
  assert (H1 := sip_word_ok _ _ (sip_words_ok (length inp / 8) _ inp H0 Hi) Hl).
  destruct (sip_word _ _) as [a b c d]. destruct H1 as (? & ? & ? & ?). cbn [v0 v1 v2 v3] in *.
  assert (G2 : state_ok (sipround (sipround (sipround (sipround (mkSip a b (c ⊕ 255) d)))))).
  { do 4 apply sipround_ok. unfold state_ok; split_all; cbn [v0 v1 v2 v3]; try done. apply lxor_in_width; [lia | done | decided]. }
  destruct (sipround _) as [e f g h]. destruct G2 as (? & ? & ? & ?). cbn [v0 v1 v2 v3] in *. auto with width.
Qed.
