(* ===== verification/RcProto.v ===== *)
(** * RcProto: the RC control-plane frames (common/include/mabur/rc_proto.h, src/rc_proto.cpp)

    RCF (feedback), DISC and DISC_ACK (rendezvous), TELEM (telemetry), NACK (selective
    repeat) and MAV (MAVLink tunnel): little-endian fields, a SipHash tag on the frames
    that control the drone, and a CRC-16 at the end.  A parser is a computation whose
    outer [None] is a read past the buffer and whose inner [None] is a refusal. *)
From S2P Require Import Prelude Bytes Crc16 SipHash SwConfig.
Local Open Scope Z_scope.
Local Open Scope mabur_scope.

(** ** Constants *)

Definition RC_MAGIC : Z := 21059.  (* 0x5243 *)
Definition RC_VERSION : Z := 18.
Definition kNoProbeProfile : Z := 255.
Definition T_RCF : Z := 1.
Definition T_DISC : Z := 2.
Definition T_DISC_ACK : Z := 3.
Definition T_TELEM : Z := 4.
Definition T_NACK : Z := 7.
Definition T_MAV : Z := 8.
Definition F_DISCOVERY : Z := 4.
Definition kTagLen : nat := 8.
Definition RCF_HEAD_LEN : nat := 17.
Definition DISC_LEN : nat := 17.
Definition DISC_ACK_LEN : nat := 20.
Definition TELEM_LEN : nat := 54.
Definition kNackFixedLen : nat := 11.
Definition kNackEntryLen : nat := 8.
Definition kMaxNackEntries : Z := 4.
Definition kMavFixedLen : nat := 10.
Definition kMavMaxPayload : Z := 600.

(** ** Messages *)

(** Bits of the recorder wish, the discovery ack and the drone's capabilities. *)
Definition kRecOn : Z := 1.
Definition kRecKnown : Z := 2.
Definition kAckKeyMismatch : Z := 1.
Definition CAP_FRAME_WIRE : Z := 1.
Definition CAP_TELEMETRY : Z := 2.
Definition CAP_CALIBRATE : Z := 4.
Definition CAP_MAVLINK : Z := 8.

Record TagCtx := mkTagCtx { vrx_nonce : Z; vtx_nonce : Z; seq32 : Z }.
Definition no_ctx : TagCtx := mkTagCtx 0 0 0.

Record Rcf := mkRcf {
  rcf_seq : Z; profile : Z; fec_overhead_base : double; fec_overhead_enh : double;
  probe_profile : Z; hop_ch : Z; hop_epoch : Z; rec : Z; idr_epoch : Z; snr_off : Z;
}.

Record Disc := mkDisc {
  d_vrx_nonce : Z; op_channel : Z; op_width : Z; table_ver : Z; init_profile : Z;
  cap_bits : Z; disc_seq : Z;
}.

Record DiscAck := mkDiscAck {
  a_vrx_nonce : Z; a_vtx_nonce : Z; chip_caps : Z; agreed_channel : Z; agreed_width : Z;
  a_flags : Z; ack_seq : Z;
}.

(** The two-element antenna arrays are pairs of fields. *)
Record Telem := mkTelem {
  tlm_seq : Z; state : Z; t_flags : Z; rcf_age_ms : Z; rcf_seq_echo : Z; pts_at_build : Z;
  rcf_rx : Z; cmd_kbps : Z; txq_drops : Z; txq_wait_max_ms : Z; usb_fail : Z;
  up_rssi0 : Z; up_rssi1 : Z; up_snr0 : Z; up_snr1 : Z; soc_temp_c : Z; cpu_busy_x100 : Z;
  rx_own : Z; rx_foreign : Z; rx_crcfail : Z; rec_status : Z;
  nack_rx : Z; retx_syms : Z; retx_refused : Z;
}.

Record NackEntry := mkNackEntry { first_seq : Z; bitmap : Z }.

(** [e]: the array of [kMaxNackEntries] entries, [n] of them in use. *)
Record Nack := mkNack { n_counter : Z; sid : Z; n_flags : Z; n : Z; e : list NackEntry }.
Definition default_entry : NackEntry := mkNackEntry 0 1.

Record Mav := mkMav { m_counter : Z; payload : list Z }.

(** ** The overhead byte *)

Definition d_0_05 : double := SFdiv 53 1024 (d_of_Z 1) (d_of_Z 20).

Definition overhead_to_x100 (ov : double) : Z :=
  u8 (d_round (SFmul 53 1024 (d_clamp ov d_0_05 (d_of_Z 2)) d_hundred)).

(** [buf[i] / 100.0]. *)
Definition overhead_of_x100 (b : Z) : double := SFdiv 53 1024 (d_of_Z b) d_hundred.

(** ** Tag and CRC *)

Definition tag_input (body : list Z) (ctx : TagCtx) : list Z :=
  body ++ put32 (vrx_nonce ctx) ++ put32 (vtx_nonce ctx) ++ put32 (seq32 ctx).

Definition put_tag (body key : list Z) (ctx : TagCtx) : list Z :=
  body ++ put64 (siphash24 key (tag_input body ctx)).

Definition put_crc (body : list Z) : list Z := body ++ put16 (crc16 body).

(** [get16(buf, n) == crc16_ccitt(buf, n)]. *)
Definition crc_ok (buf : list Z) (n : nat) : option bool :=
  c ← get16 buf n; body ← get_slice buf 0 n; Some (c =? crc16 body).

(** [get16(buf, 0) == RC_MAGIC && buf[2] == RC_VERSION && buf[3] == type]. *)
Definition head_ok (buf : list Z) (type : Z) : option bool :=
  m ← get16 buf 0; v ← get8 buf 2; t ← get8 buf 3;
  Some ((m =? RC_MAGIC) && (v =? RC_VERSION) && (t =? type)).

Definition head (type flags : Z) : list Z := put16 RC_MAGIC ++ [RC_VERSION; type; flags].

(** ** RCF *)

Definition rcf_body (r : Rcf) : list Z :=
  head T_RCF 0 ++ put16 (rcf_seq r) ++
  [profile r; overhead_to_x100 (fec_overhead_base r); overhead_to_x100 (fec_overhead_enh r);
   probe_profile r; hop_ch r; hop_epoch r; rec r; idr_epoch r] ++ put16 (u16 (snr_off r)).

Definition pack_rcf (r : Rcf) (key : list Z) (ctx : TagCtx) : list Z :=
  put_crc (put_tag (rcf_body r) key ctx).

Definition parse_rcf (buf : list Z) : option (option Rcf) :=
  if (length buf <? RCF_HEAD_LEN + kTagLen + 2)%nat then Some None
  else
    h ← head_ok buf T_RCF;
    if negb h then Some None
    else
      c ← crc_ok buf (RCF_HEAD_LEN + kTagLen);
      if negb c then Some None
      else
        seq ← get16 buf 5; p ← get8 buf 7; ob ← get8 buf 8; oe ← get8 buf 9; pp ← get8 buf 10;
        hc ← get8 buf 11; he ← get8 buf 12; rc ← get8 buf 13; ie ← get8 buf 14; so ← get16 buf 15;
        Some (Some (mkRcf seq p (overhead_of_x100 ob) (overhead_of_x100 oe) pp hc he rc ie (i16 so))).

(** ** DISC and DISC_ACK *)

Definition disc_body (d : Disc) : list Z :=
  head T_DISC F_DISCOVERY ++ put32 (d_vrx_nonce d) ++
  [op_channel d; op_width d; table_ver d; init_profile d] ++ put16 (cap_bits d) ++ put16 (disc_seq d).

Definition pack_disc (d : Disc) (key : list Z) : list Z := put_crc (put_tag (disc_body d) key no_ctx).

Definition parse_disc (buf : list Z) : option (option Disc) :=
  if (length buf <? DISC_LEN + kTagLen + 2)%nat then Some None
  else
    h ← head_ok buf T_DISC;
    if negb h then Some None
    else
      c ← crc_ok buf (DISC_LEN + kTagLen);
      if negb c then Some None
      else
        vn ← get32 buf 5; ch ← get8 buf 9; w ← get8 buf 10; tv ← get8 buf 11; ip ← get8 buf 12;
        cb ← get16 buf 13; s ← get16 buf 15;
        Some (Some (mkDisc vn ch w tv ip cb s)).

Definition disc_ack_body (a : DiscAck) : list Z :=
  head T_DISC_ACK F_DISCOVERY ++ put32 (a_vrx_nonce a) ++ put32 (a_vtx_nonce a) ++
  put16 (chip_caps a) ++ [agreed_channel a; agreed_width a; a_flags a] ++ put16 (ack_seq a).

Definition pack_disc_ack (a : DiscAck) : list Z := put_crc (disc_ack_body a).

Definition parse_disc_ack (buf : list Z) : option (option DiscAck) :=
  if (length buf <? DISC_ACK_LEN + 2)%nat then Some None
  else
    h ← head_ok buf T_DISC_ACK;
    if negb h then Some None
    else
      c ← crc_ok buf DISC_ACK_LEN;
      if negb c then Some None
      else
        vr ← get32 buf 5; vt ← get32 buf 9; cc ← get16 buf 13; ch ← get8 buf 15; w ← get8 buf 16;
        f ← get8 buf 17; s ← get16 buf 18;
        Some (Some (mkDiscAck vr vt cc ch w f s)).

(** ** TELEM *)

Definition telem_body (t : Telem) : list Z :=
  head T_TELEM (t_flags t) ++ put16 (tlm_seq t) ++ [state t] ++ put16 (rcf_age_ms t) ++
  put16 (rcf_seq_echo t) ++ put64 (pts_at_build t) ++ put32 (rcf_rx t) ++ put16 (cmd_kbps t) ++
  put32 (txq_drops t) ++ put16 (txq_wait_max_ms t) ++ put16 (usb_fail t) ++
  [up_rssi0 t; up_rssi1 t; u8 (up_snr0 t); u8 (up_snr1 t); u8 (soc_temp_c t)] ++
  put16 (cpu_busy_x100 t) ++ put16 (rx_own t) ++ put16 (rx_foreign t) ++ put16 (rx_crcfail t) ++
  [rec_status t] ++ put16 (nack_rx t) ++ put16 (retx_syms t) ++ put16 (retx_refused t).

Definition pack_telem (t : Telem) : list Z := put_crc (telem_body t).

Definition parse_telem (buf : list Z) : option (option Telem) :=
  if (length buf <? TELEM_LEN + 2)%nat then Some None
  else
    h ← head_ok buf T_TELEM;
    if negb h then Some None
    else
      c ← crc_ok buf TELEM_LEN;
      if negb c then Some None
      else
        f ← get8 buf 4; s ← get16 buf 5; st ← get8 buf 7; age ← get16 buf 8; echo ← get16 buf 10;
        pts ← get64 buf 12; rx ← get32 buf 20; kb ← get16 buf 24; dr ← get32 buf 26;
        wm ← get16 buf 30; uf ← get16 buf 32; r0 ← get8 buf 34; r1 ← get8 buf 35;
        s0 ← get8 buf 36; s1 ← get8 buf 37; tc ← get8 buf 38; cpu ← get16 buf 39;
        own ← get16 buf 41; fo ← get16 buf 43; cf ← get16 buf 45; rs ← get8 buf 47;
        nr ← get16 buf 48; rt ← get16 buf 50; rr ← get16 buf 52;
        Some (Some (mkTelem s st f age echo pts rx kb dr wm uf r0 r1 (i8 s0) (i8 s1) (i8 tc) cpu
                      own fo cf rs nr rt rr)).

(** ** Peeks *)

Definition frame_type (buf : list Z) : option Z :=
  if (length buf <? 4)%nat then Some (-1)
  else
    m ← get16 buf 0; v ← get8 buf 2; t ← get8 buf 3;
    Some (if negb (m =? RC_MAGIC) || negb (v =? RC_VERSION) then -1 else t).

Definition is_foreign_rc_version (buf : list Z) : option bool :=
  if (length buf <? 4)%nat then Some false
  else m ← get16 buf 0; v ← get8 buf 2; Some ((m =? RC_MAGIC) && negb (v =? RC_VERSION)).

(** ** NACK *)

Definition entry_bytes (x : NackEntry) : list Z := put32 (first_seq x) ++ put32 (Z.lor (bitmap x) 1).

Definition nack_body (k : Nack) : list Z :=
  let cnt := u8 (Z.min (n k) kMaxNackEntries) in
  head T_NACK (n_flags k) ++ put32 (n_counter k) ++ [sid k; cnt] ++
  concat (map entry_bytes (take (Z.to_nat cnt) (e k))).

Definition pack_nack (k : Nack) (key : list Z) (ctx : TagCtx) : list Z :=
  put_crc (put_tag (nack_body k) key ctx).

Fixpoint parse_entries (cnt : nat) (buf : list Z) (o : nat) : option (list NackEntry) :=
  match cnt with
  | O => Some []
  | S cnt =>
      f ← get32 buf o; b ← get32 buf (o + 4); l ← parse_entries cnt buf (o + kNackEntryLen);
      Some (mkNackEntry f b :: l)
  end.

Definition parse_nack (buf : list Z) : option (option Nack) :=
  if (length buf <? kNackFixedLen)%nat then Some None
  else
    h ← head_ok buf T_NACK;
    if negb h then Some None
    else
      cnt ← get8 buf (kNackFixedLen - 1);
      if (cnt =? 0) || (kMaxNackEntries <? cnt) then Some None
      else
        let plen := (kNackFixedLen + Z.to_nat cnt * kNackEntryLen + kTagLen)%nat in
        if (length buf <? plen + 2)%nat then Some None
        else
          c ← crc_ok buf plen;
          if negb c then Some None
          else
            f ← get8 buf 4; ctr ← get32 buf 5; s ← get8 buf 9;
            l ← parse_entries (Z.to_nat cnt) buf kNackFixedLen;
            Some (Some (mkNack ctr s f cnt (l ++ replicate (Z.to_nat kMaxNackEntries - Z.to_nat cnt) default_entry))).

(** ** MAV *)

Definition mav_body (m : Mav) : list Z :=
  put16 RC_MAGIC ++ [RC_VERSION; T_MAV] ++ put32 (m_counter m) ++
  put16 (u16 (Z.of_nat (length (payload m)))) ++ payload m.

Definition pack_mav (m : Mav) (tagged : bool) (key : list Z) (ctx : TagCtx) : list Z :=
  put_crc (if tagged then put_tag (mav_body m) key ctx else mav_body m).

Definition parse_mav (buf : list Z) (tagged : bool) : option (option Mav) :=
  if (length buf <? kMavFixedLen)%nat then Some None
  else
    h ← head_ok buf T_MAV;
    if negb h then Some None
    else
      pl ← get16 buf 8;
      if kMavMaxPayload <? pl then Some None
      else
        let plen := (kMavFixedLen + Z.to_nat pl + (if tagged then kTagLen else 0))%nat in
        if (length buf <? plen + 2)%nat then Some None
        else
          c ← crc_ok buf plen;
          if negb c then Some None
          else
            ctr ← get32 buf 4; p ← get_slice buf kMavFixedLen (Z.to_nat pl);
            Some (Some (mkMav ctr p)).

(** ** Tag verification *)

(** The tag's structural offset, by frame type; an inner [None] is a refusal. *)
Definition tag_offset (buf : list Z) : option (option nat) :=
  t ← frame_type buf;
  if t =? T_DISC then Some (Some DISC_LEN)
  else if t =? T_RCF then Some (Some RCF_HEAD_LEN)
  else if t =? T_NACK then
    if (length buf <? kNackFixedLen)%nat then Some None
    else
      cnt ← get8 buf (kNackFixedLen - 1);
      if (cnt =? 0) || (kMaxNackEntries <? cnt) then Some None
      else Some (Some (kNackFixedLen + Z.to_nat cnt * kNackEntryLen)%nat)
  else if t =? T_MAV then
    if (length buf <? kMavFixedLen)%nat then Some None
    else
      pl ← get16 buf 8;
      if kMavMaxPayload <? pl then Some None else Some (Some (kMavFixedLen + Z.to_nat pl)%nat)
  else Some None.

Definition verify_control (buf key : list Z) (ctx : TagCtx) : option bool :=
  o ← tag_offset buf;
  match o with
  | None => Some false
  | Some tag_at =>
      if (length buf <? tag_at + kTagLen + 2)%nat then Some false
      else
        m ← get_slice buf 0 tag_at;
        got ← get64 buf tag_at;
        Some ((siphash24 key (tag_input m ctx) ⊕ got) =? 0)
  end.
