(* ===== verification/RcProtoProps.v ===== *)
(** * RcProtoProps: the control plane's round trips, totality, exclusivity and tags *)
From S2P Require Import Prelude Bytes Crc16 SipHash SwConfig RcProto.
Local Open Scope Z_scope.
Local Open Scope mabur_scope.

(** ** Golden wires of tests/test_rc.cpp *)

Definition kDefaultLinkKey : list Z := [109;97;98;117;114;45;100;101;102;97;117;108;116;45;48;48].
Definition d_half : double := SFdiv 53 1024 (d_of_Z 1) (d_of_Z 2).

Example rcf_golden :
  pack_rcf (mkRcf 7 36 d_half d_half 255 0 0 0 0 0) kDefaultLinkKey no_ctx =
  [67;82;18;1;0;7;0;36;50;50;255;0;0;0;0;0;0;216;146;45;144;43;112;103;126;41;163].
Proof. vm_compute. reflexivity. Qed.

(** ** Reading what was written *)

Lemma crc_ok_packed body tail : crc_ok (put_crc body ++ tail) (length body) = Some true.
Proof.
  unfold crc_ok, put_crc. rewrite <- app_assoc. rewrite <- (Nat.add_0_r (length body)) at 1.
  rewrite get16_app, get16_put16 by (apply crc16_width, crc16_init_width). cbn [mbind option_bind].
  rewrite get_slice_in by (rewrite length_app; lia). cbn [mbind option_bind].
  rewrite drop_0, take_app_length. by rewrite Z.eqb_refl.
Qed.

Lemma head_ok_packed t l : head_ok (put16 RC_MAGIC ++ RC_VERSION :: t :: l) t = Some true.
Proof. change (Some (true && true && (t =? t)) = Some true). by rewrite Z.eqb_refl. Qed.

Lemma frame_type_packed t l : frame_type (put16 RC_MAGIC ++ RC_VERSION :: t :: l) = Some t.
Proof. done. Qed.

Lemma length_put_tag body key ctx : length (put_tag body key ctx) = (length body + kTagLen)%nat.
Proof. unfold put_tag. by rewrite length_app. Qed.

Lemma length_put_crc body : length (put_crc body) = (length body + 2)%nat.
Proof. unfold put_crc. by rewrite length_app. Qed.

Lemma tag_input_bytes body ctx : bytes_ok body -> bytes_ok (tag_input body ctx).
Proof.
  intros H. unfold tag_input. repeat (apply Forall_app; split); auto with width.
Qed.

(** The tag of a tagged frame verifies, whatever follows the frame. *)
Lemma verify_packed body key ctx tail :
  bytes_ok body -> bytes_ok key ->
  tag_offset (put_crc (put_tag body key ctx) ++ tail) = Some (Some (length body)) ->
  verify_control (put_crc (put_tag body key ctx) ++ tail) key ctx = Some true.
Proof.
  intros Hb Hk. set (buf := put_crc _ ++ tail).
  set (X := put16 (crc16 (put_tag body key ctx)) ++ tail).
  assert (E : buf = body ++ put64 (siphash24 key (tag_input body ctx)) ++ X).
  { subst buf X. unfold put_crc at 1. unfold put_tag at 1. by rewrite <- !app_assoc. }
  intros Ho. unfold verify_control. rewrite Ho. cbn [mbind option_bind].
  assert (Hlen : (length body + kTagLen + 2 <= length buf)%nat).
  { rewrite E, !length_app. subst X. rewrite length_app. unfold kTagLen. cbn. lia. }
  clearbody buf X.
  rewrite (proj2 (Nat.ltb_ge _ _)) by lia. rewrite get_slice_in by lia. cbn [mbind option_bind].
  rewrite E, drop_0, take_app_length.
  rewrite <- (Nat.add_0_r (length body)), get64_app, get64_put64.
  - cbn [mbind option_bind]. by rewrite Z.lxor_nilpotent.
  - by apply siphash24_width, tag_input_bytes.
Qed.

(** ** Typed messages *)

Ltac typed := unfold in_width in *; cbn in *; lia.

Definition rcf_typed (r : Rcf) : Prop :=
  in_width 16 (rcf_seq r) /\ is_byte (profile r) /\ is_byte (probe_profile r) /\ is_byte (hop_ch r) /\
  is_byte (hop_epoch r) /\ is_byte (rec r) /\ is_byte (idr_epoch r) /\ - 2 ^ 15 <= snr_off r < 2 ^ 15.

Definition disc_typed (d : Disc) : Prop :=
  in_width 32 (d_vrx_nonce d) /\ is_byte (op_channel d) /\ is_byte (op_width d) /\
  is_byte (table_ver d) /\ is_byte (init_profile d) /\ in_width 16 (cap_bits d) /\ in_width 16 (disc_seq d).

Definition disc_ack_typed (a : DiscAck) : Prop :=
  in_width 32 (a_vrx_nonce a) /\ in_width 32 (a_vtx_nonce a) /\ in_width 16 (chip_caps a) /\
  is_byte (agreed_channel a) /\ is_byte (agreed_width a) /\ is_byte (a_flags a) /\ in_width 16 (ack_seq a).

Definition int8 (z : Z) : Prop := -128 <= z < 128.

Definition telem_typed (t : Telem) : Prop :=
  Forall is_byte [t_flags t; state t; up_rssi0 t; up_rssi1 t; rec_status t] /\
  Forall (in_width 16) [tlm_seq t; rcf_age_ms t; rcf_seq_echo t; cmd_kbps t; txq_wait_max_ms t;
    usb_fail t; cpu_busy_x100 t; rx_own t; rx_foreign t; rx_crcfail t; nack_rx t; retx_syms t; retx_refused t] /\
  Forall (in_width 32) [rcf_rx t; txq_drops t] /\ in_width 64 (pts_at_build t) /\
  Forall int8 [up_snr0 t; up_snr1 t; soc_temp_c t].

Lemma i8_u8 z : int8 z -> i8 (u8 z) = z.
Proof. unfold int8, sext, wrap. intros H. cbn zeta. case_Zb; mlia. Qed.

Lemma i16_u16 z : - 2 ^ 15 <= z < 2 ^ 15 -> i16 (u16 z) = z.
Proof. unfold sext, wrap. intros H. cbn zeta. case_Zb; mlia. Qed.

(** Evaluate the reads of a parser at constant offsets of an explicit byte list. *)
Ltac read_fields :=
  unfold get16, get32, get8; cbn [app lookup list_lookup mbind option_bind Nat.add];
  rewrite ?le32_id by assumption; rewrite ?le16_id by assumption.

Lemma overhead_wire_byte ov : is_byte (overhead_to_x100 ov).
Proof. unfold overhead_to_x100. width. Qed.

(** The RCF a receiver reads: the overheads at the wire's 1/100 resolution. *)
Definition rcf_on_wire (r : Rcf) : Rcf :=
  mkRcf (rcf_seq r) (profile r) (overhead_of_x100 (overhead_to_x100 (fec_overhead_base r)))
    (overhead_of_x100 (overhead_to_x100 (fec_overhead_enh r))) (probe_profile r) (hop_ch r) (hop_epoch r)
    (rec r) (idr_epoch r) (snr_off r).

(** A frame is its body and a rest; the guards of its parser pass. *)
Lemma tagged_frame body key ctx tail :
  exists rest, put_crc (put_tag body key ctx) ++ tail = body ++ rest.
Proof. eexists. unfold put_crc, put_tag at 1. by rewrite <- !app_assoc. Qed.

Lemma plain_frame body tail : exists rest, put_crc body ++ tail = body ++ rest.
Proof. eexists. unfold put_crc. by rewrite <- !app_assoc. Qed.

Lemma tagged_length body key ctx tail :
  (length (put_crc (put_tag body key ctx) ++ tail) <? length body + kTagLen + 2)%nat = false.
Proof. apply Nat.ltb_ge. rewrite length_app, length_put_crc, length_put_tag. lia. Qed.

Lemma plain_length body tail : (length (put_crc body ++ tail) <? length body + 2)%nat = false.
Proof. apply Nat.ltb_ge. rewrite length_app, length_put_crc. lia. Qed.

Lemma parse_pack_rcf r key ctx tail :
  rcf_typed r -> parse_rcf (pack_rcf r key ctx ++ tail) = Some (Some (rcf_on_wire r)).
Proof.
  intros (H1 & H2 & H3 & H4 & H5 & H6 & H7 & H8). unfold parse_rcf, pack_rcf.
  pose proof (tagged_length (rcf_body r) key ctx tail) as HL.
  pose proof (crc_ok_packed (put_tag (rcf_body r) key ctx) tail) as HC. rewrite length_put_tag in HC.
  change (length (rcf_body r)) with RCF_HEAD_LEN in *.
  destruct (tagged_frame (rcf_body r) key ctx tail) as [rest E]. rewrite E in *. clear E.
  rewrite HL, HC.
  assert (HH : head_ok (rcf_body r ++ rest) T_RCF = Some true) by apply head_ok_packed.
  rewrite HH. cbn [mbind option_bind negb]. unfold rcf_body, head, put16.
  assert (Hs : in_width 16 (u16 (snr_off r))) by width.
  read_fields. unfold rcf_on_wire. by rewrite i16_u16.
Qed.

Lemma parse_pack_disc d key tail :
  disc_typed d -> parse_disc (pack_disc d key ++ tail) = Some (Some d).
Proof.
  destruct d as [vn ch w tv ip cb sq]. intros (H1 & H2 & H3 & H4 & H5 & H6 & H7). cbn in H1, H6, H7. unfold parse_disc, pack_disc.
  set (b := disc_body _). pose proof (tagged_length b key no_ctx tail) as HL.
  pose proof (crc_ok_packed (put_tag b key no_ctx) tail) as HC. rewrite length_put_tag in HC.
  change (length b) with DISC_LEN in *.
  destruct (tagged_frame b key no_ctx tail) as [rest E]. rewrite E in *. clear E.
  rewrite HL, HC.
  assert (HH : head_ok (b ++ rest) T_DISC = Some true) by apply head_ok_packed.
  rewrite HH. cbn [mbind option_bind negb]. subst b. unfold disc_body, head, put16, put32.
  cbn [d_vrx_nonce op_channel op_width table_ver init_profile cap_bits disc_seq]. by read_fields.
Qed.

Lemma parse_pack_disc_ack a tail :
  disc_ack_typed a -> parse_disc_ack (pack_disc_ack a ++ tail) = Some (Some a).
Proof.
  destruct a as [vr vt cc ch w f sq]. intros (H1 & H2 & H3 & H4 & H5 & H6 & H7). cbn in H1, H2, H3, H7. unfold parse_disc_ack, pack_disc_ack.
  set (b := disc_ack_body _). pose proof (plain_length b tail) as HL. pose proof (crc_ok_packed b tail) as HC.
  change (length b) with DISC_ACK_LEN in *.
  destruct (plain_frame b tail) as [rest E]. rewrite E in *. clear E. rewrite HL, HC.
  assert (HH : head_ok (b ++ rest) T_DISC_ACK = Some true) by apply head_ok_packed.
  rewrite HH. cbn [mbind option_bind negb]. subst b. unfold disc_ack_body, head, put16, put32.
  cbn [a_vrx_nonce a_vtx_nonce chip_caps agreed_channel agreed_width a_flags ack_seq]. by read_fields.
Qed.

Lemma get64_put64_at v l :
  in_width 64 v ->
  (lo ← get32 (put64 v ++ l) 0; hi ← get32 (put64 v ++ l) 4; Some (Z.lor lo (Z.shiftl hi 32))) = Some v.
Proof. exact (get64_put64 v l). Qed.

Lemma parse_pack_telem t tail :
  telem_typed t -> parse_telem (pack_telem t ++ tail) = Some (Some t).
Proof.
  intros (HB & HW & HD & HQ & HS). unfold parse_telem, pack_telem.
  pose proof (plain_length (telem_body t) tail) as HL. pose proof (crc_ok_packed (telem_body t) tail) as HC.
  change (length (telem_body t)) with TELEM_LEN in *.
  destruct (plain_frame (telem_body t) tail) as [rest E]. rewrite E in *. clear E. rewrite HL, HC.
  assert (HH : head_ok (telem_body t ++ rest) T_TELEM = Some true) by apply head_ok_packed.
  rewrite HH. cbn [mbind option_bind negb].
  assert (HP : get64 (telem_body t ++ rest) 12 = Some (pts_at_build t)).
  { unfold telem_body. set (pre := head T_TELEM (t_flags t) ++ put16 (tlm_seq t) ++ [state t] ++
      put16 (rcf_age_ms t) ++ put16 (rcf_seq_echo t)).
    match goal with |- get64 ?b _ = _ => assert (E : exists l, b = pre ++ put64 (pts_at_build t) ++ l) end.
    { eexists. subst pre. rewrite <- !app_assoc. reflexivity. }
    destruct E as [l ->]. exact (eq_trans (get64_app pre _ 0) (get64_put64 _ _ HQ)). }
  rewrite HP. clear HP HH HL HC.
  repeat match goal with H : Forall _ (_ :: _) |- _ => apply Forall_cons in H as [? H] end.
  destruct t. cbn in *. unfold telem_body, head, put16, put32, put64.
  cbn [RcProto.state]. read_fields. rewrite !i8_u8 by assumption. reflexivity.
Qed.

(** ** NACK and MAV *)

Definition entry_typed (x : NackEntry) : Prop := in_width 32 (first_seq x) /\ in_width 32 (bitmap x).

Definition nack_typed (k : Nack) : Prop :=
  in_width 32 (n_counter k) /\ is_byte (sid k) /\ is_byte (n_flags k) /\ 1 <= n k <= kMaxNackEntries /\
  length (e k) = Z.to_nat kMaxNackEntries /\ Forall entry_typed (e k).

(** The requested seq itself is always marked on the wire. *)
Definition entry_on_wire (x : NackEntry) : NackEntry := mkNackEntry (first_seq x) (Z.lor (bitmap x) 1).

Definition nack_on_wire (k : Nack) : Nack :=
  mkNack (n_counter k) (sid k) (n_flags k) (n k)
    (map entry_on_wire (take (Z.to_nat (n k)) (e k)) ++
     replicate (Z.to_nat kMaxNackEntries - Z.to_nat (n k)) default_entry).

Lemma length_entries l : length (concat (map entry_bytes l)) = (length l * kNackEntryLen)%nat.
Proof.
  induction l as [|x l IH]; [done |]. cbn [map concat length]. rewrite length_app, IH.
  change (length (entry_bytes x)) with kNackEntryLen. lia.
Qed.

Lemma parse_entries_packed l pre rest :
  Forall entry_typed l ->
  parse_entries (length l) (pre ++ concat (map entry_bytes l) ++ rest) (length pre) = Some (map entry_on_wire l).
Proof.
  intros Hl. revert pre. induction Hl as [|x l [Hf Hb] Hl IH]; intros pre; [done |].
  cbn [map concat parse_entries length].
  assert (Hw : in_width 32 (Z.lor (bitmap x) 1)) by (apply lor_in_width; [lia | done | decided]).
  rewrite <- (app_assoc (entry_bytes x)). specialize (IH (pre ++ entry_bytes x)).
  rewrite <- app_assoc, length_app in IH. change (length (entry_bytes x)) with kNackEntryLen in IH. rewrite IH.
  set (X := concat _ ++ rest).
  assert (E1 : get32 (pre ++ entry_bytes x ++ X) (length pre) = Some (first_seq x)).
  { rewrite <- (Nat.add_0_r (length pre)), get32_app. unfold entry_bytes. rewrite <- app_assoc.
    by apply get32_put32. }
  assert (E2 : get32 (pre ++ entry_bytes x ++ X) (length pre + 4) = Some (Z.lor (bitmap x) 1)).
  { rewrite get32_app. unfold entry_bytes. rewrite <- app_assoc.
    exact (eq_trans (get32_app (put32 (first_seq x)) _ 0) (get32_put32 _ _ Hw)). }
  by rewrite E1, E2.
Qed.

Lemma nack_cnt k : nack_typed k -> u8 (Z.min (n k) kMaxNackEntries) = n k.
Proof.
  intros (_ & _ & _ & Hn & _). unfold kMaxNackEntries in *. rewrite Z.min_l by lia. apply wrap_small. typed.
Qed.

Lemma length_nack_body k : nack_typed k -> length (nack_body k) = (kNackFixedLen + Z.to_nat (n k) * kNackEntryLen)%nat.
Proof.
  intros Hk. pose proof (nack_cnt k Hk) as E. destruct Hk as (_ & _ & _ & Hn & Hl & _). unfold nack_body. cbn zeta.
  rewrite E. rewrite !length_app, length_entries, length_take.
  unfold kMaxNackEntries in *. rewrite Nat.min_l by lia. unfold kNackFixedLen.
  change (length (head T_NACK (n_flags k))) with 5%nat. change (length (put32 _)) with 4%nat. cbn [length]. lia.
Qed.

Lemma parse_pack_nack k key ctx tail :
  nack_typed k -> parse_nack (pack_nack k key ctx ++ tail) = Some (Some (nack_on_wire k)).
Proof.
  intros Hk. pose proof (length_nack_body k Hk) as Hlb. pose proof (nack_cnt k Hk) as Ec.
  unfold parse_nack, pack_nack.
  pose proof (tagged_length (nack_body k) key ctx tail) as HL.
  pose proof (crc_ok_packed (put_tag (nack_body k) key ctx) tail) as HC. rewrite length_put_tag in HC.
  destruct (tagged_frame (nack_body k) key ctx tail) as [rest E]. rewrite E in *. clear E.
  rewrite Hlb in HL, HC. destruct Hk as (H1 & H2 & H3 & H4 & H5 & H6).
  assert (Eb : nack_body k ++ rest = (head T_NACK (n_flags k) ++ put32 (n_counter k) ++ [sid k; n k]) ++
    concat (map entry_bytes (take (Z.to_nat (n k)) (e k))) ++ rest).
  { unfold nack_body. cbn zeta. by rewrite Ec, <- !app_assoc. }
  assert (HL0 : (length (nack_body k ++ rest) <? kNackFixedLen)%nat = false).
  { apply Nat.ltb_ge in HL. apply Nat.ltb_ge. lia. }
  rewrite HL0. assert (HH : head_ok (nack_body k ++ rest) T_NACK = Some true) by apply head_ok_packed.
  rewrite HH. cbn [mbind option_bind negb].
  assert (Hc : get8 (nack_body k ++ rest) (kNackFixedLen - 1) = Some (n k)) by (rewrite Eb; done).
  rewrite Hc. cbn [mbind option_bind]. unfold kMaxNackEntries in H4 |- *.
  rewrite (proj2 (Z.eqb_neq (n k) 0)), (proj2 (Z.ltb_ge 4 (n k))) by lia. cbn [orb].
  rewrite HL, HC. cbn [mbind option_bind negb].
  assert (Hp : parse_entries (Z.to_nat (n k)) (nack_body k ++ rest) kNackFixedLen =
    Some (map entry_on_wire (take (Z.to_nat (n k)) (e k)))).
  { rewrite Eb. pose proof (parse_entries_packed (take (Z.to_nat (n k)) (e k))
      (head T_NACK (n_flags k) ++ put32 (n_counter k) ++ [sid k; n k]) rest (Forall_take _ _ _ H6)) as Hpe.
    rewrite length_take, H5 in Hpe. unfold kMaxNackEntries in Hpe.
    rewrite Nat.min_l in Hpe by lia. exact Hpe. }
  rewrite Hp, Eb. unfold head, put16, put32. read_fields. reflexivity.
Qed.

Definition mav_typed (m : Mav) : Prop :=
  in_width 32 (m_counter m) /\ Z.of_nat (length (payload m)) <= kMavMaxPayload.

Lemma length_mav_body m : length (mav_body m) = (kMavFixedLen + length (payload m))%nat.
Proof. unfold mav_body. rewrite !length_app. done. Qed.

Lemma parse_pack_mav m tagged key ctx tail :
  mav_typed m -> parse_mav (pack_mav m tagged key ctx ++ tail) tagged = Some (Some m).
Proof.
  intros [H1 H2]. unfold parse_mav, pack_mav. unfold kMavMaxPayload in *.
  set (n := Z.of_nat (length (payload m))) in *. assert (Hn : in_width 16 n) by (subst n; typed).
  set (extra := (if tagged then kTagLen else 0)%nat).
  set (b := if tagged then put_tag (mav_body m) key ctx else mav_body m).
  assert (Hb : length b = (kMavFixedLen + length (payload m) + extra)%nat).
  { subst b extra. destruct tagged; rewrite ?length_put_tag, length_mav_body; lia. }
  assert (Hbody : exists rest, put_crc b ++ tail = mav_body m ++ rest).
  { subst b. destruct tagged; [apply tagged_frame | apply plain_frame]. }
  pose proof (crc_ok_packed b tail) as HC. pose proof (plain_length b tail) as HL.
  destruct Hbody as [rest E]. rewrite E in *. rewrite Hb in HC, HL.
  assert (HL0 : (length (mav_body m ++ rest) <? kMavFixedLen)%nat = false).
  { apply Nat.ltb_ge. rewrite length_app, length_mav_body. lia. }
  rewrite HL0. assert (HH : head_ok (mav_body m ++ rest) T_MAV = Some true) by apply head_ok_packed.
  rewrite HH. cbn [mbind option_bind negb].
  assert (Hg : get16 (mav_body m ++ rest) 8 = Some n).
  { unfold mav_body. fold n. rewrite (wrap_small 16 n Hn), <- !app_assoc.
    exact (eq_trans (get16_app (put16 RC_MAGIC ++ [RC_VERSION; T_MAV] ++ put32 (m_counter m)) _ 0)
             (get16_put16 n _ Hn)). }
  rewrite Hg. cbn [mbind option_bind]. rewrite (proj2 (Z.ltb_ge 600 n)) by lia.
  assert (Hz : Z.to_nat n = length (payload m)) by (subst n; lia). rewrite Hz, HL, HC. cbn [mbind option_bind negb].
  assert (Hs : get_slice (mav_body m ++ rest) kMavFixedLen (length (payload m)) = Some (payload m)).
  { rewrite get_slice_in by (rewrite length_app, length_mav_body; lia). unfold mav_body.
    set (pre := put16 RC_MAGIC ++ [RC_VERSION; T_MAV] ++ put32 (m_counter m) ++ put16 (u16 (Z.of_nat (length (payload m))))).
    replace (_ ++ rest) with (pre ++ payload m ++ rest) by (subst pre; by rewrite <- !app_assoc).
    change kMavFixedLen with (length pre). by rewrite drop_app_length, take_app_length. }
  rewrite Hs. unfold mav_body, put16, put32. read_fields. by destruct m.
Qed.

(** ** The overhead byte *)

Lemma overhead_bytes_exact :
  forallb (fun b => overhead_to_x100 (overhead_of_x100 b) =? b) (seqZ 5 196) = true.
Proof. vm_compute. reflexivity. Qed.

(** ** The properties *)

(** C35.  What the control plane sends is what it receives.  Any typed RCF, DISC, DISC_ACK
    and TELEM, packed with any key and tag context and followed by any bytes (the radio's
    FCS), parses back to itself, the RCF's overheads at the wire's resolution; and each of
    the wire's overheads 0.05 to 2.00 survives the trip through the double and back. *)
Theorem fixed_frames_roundtrip (r : Rcf) (d : Disc) (a : DiscAck) (t : Telem) (key : list Z)
    (ctx : TagCtx) (tail : list Z) (b : Z) :
  rcf_typed r -> disc_typed d -> disc_ack_typed a -> telem_typed t -> 5 <= b <= 200 ->
  parse_rcf (pack_rcf r key ctx ++ tail) = Some (Some (rcf_on_wire r)) /\
  parse_disc (pack_disc d key ++ tail) = Some (Some d) /\
  parse_disc_ack (pack_disc_ack a ++ tail) = Some (Some a) /\
  parse_telem (pack_telem t ++ tail) = Some (Some t) /\
  overhead_to_x100 (overhead_of_x100 b) = b.
Proof.
  intros Hr Hd Ha Ht Hb. split; [by apply parse_pack_rcf |]. split; [by apply parse_pack_disc |].
  split; [by apply parse_pack_disc_ack |]. split; [by apply parse_pack_telem |].
  apply Z.eqb_eq. apply (proj1 (forallb_forall _ _) overhead_bytes_exact b).
  apply list_elem_of_In, elem_of_seqZ. lia.
Qed.

Definition demo_rcf : Rcf := mkRcf 7 36 d_half (overhead_of_x100 25) 255 149 3 3 9 (-37).
Definition demo_disc : Disc := mkDisc 3405643777 149 20 1 0 15 9.
Definition demo_ack : DiscAck := mkDiscAck 3405643777 3203334146 3 149 40 1 65535.
Definition demo_telem : Telem :=
  mkTelem 258 2 9 45 4660 4822678189205111 100000 9000 7 1234 2 51 52 (-21) 22 (-128) 72 13 14 15 22 0 65535 1.

Example fixed_frames_roundtrip_witness :
  parse_rcf (pack_rcf demo_rcf kDefaultLinkKey no_ctx ++ [1; 2; 3; 4]) = Some (Some demo_rcf) /\
  parse_disc (pack_disc demo_disc kDefaultLinkKey ++ [1; 2; 3; 4]) = Some (Some demo_disc) /\
  parse_disc_ack (pack_disc_ack demo_ack ++ [1; 2; 3; 4]) = Some (Some demo_ack) /\
  parse_telem (pack_telem demo_telem ++ [1; 2; 3; 4]) = Some (Some demo_telem) /\
  overhead_to_x100 (overhead_of_x100 25) = 25.
Proof.
  assert (E : rcf_on_wire demo_rcf = demo_rcf) by (vm_compute; reflexivity). rewrite <- E.
  refine (fixed_frames_roundtrip demo_rcf demo_disc demo_ack demo_telem kDefaultLinkKey no_ctx [1; 2; 3; 4] 25
            _ _ _ _ _).
  - unfold rcf_typed. repeat split; vm_compute; congruence.
  - unfold disc_typed. repeat split; vm_compute; congruence.
  - unfold disc_ack_typed. repeat split; vm_compute; congruence.
  - unfold telem_typed. repeat split; repeat (apply Forall_cons; split); try apply Forall_nil; try exact I;
      try (split; vm_compute; congruence); vm_compute; congruence.
  - lia.
Defined.

(** The variable-length control frames round-trip: a NACK of one to four runs comes
    back with every run's own seq marked as requested and the unused entries at their
    defaults, and a MAV comes back with its whole payload, tagged or not, whatever bytes
    follow the frame. *)
Theorem variable_frames_roundtrip (k : Nack) (m : Mav) (tagged : bool) (key : list Z) (ctx : TagCtx)
    (tail : list Z) :
  nack_typed k -> mav_typed m ->
  parse_nack (pack_nack k key ctx ++ tail) = Some (Some (nack_on_wire k)) /\
  parse_mav (pack_mav m tagged key ctx ++ tail) tagged = Some (Some m).
Proof. intros Hk Hm. split; [by apply parse_pack_nack | by apply parse_pack_mav]. Qed.

Definition demo_nack : Nack :=
  mkNack 16909060 0 1 2
    [mkNackEntry 1000 5; mkNackEntry 4000000000 2147483648; default_entry; default_entry].
Definition demo_mav : Mav := mkMav 7 [253; 0; 1; 255].

Lemma demo_nack_typed : nack_typed demo_nack.
Proof. unfold nack_typed. repeat split; repeat constructor; vm_compute; congruence. Qed.

Example variable_frames_roundtrip_witness :
  parse_nack (pack_nack demo_nack kDefaultLinkKey no_ctx ++ [9]) =
    Some (Some (mkNack 16909060 0 1 2
      [mkNackEntry 1000 5; mkNackEntry 4000000000 2147483649; default_entry; default_entry])) /\
  parse_mav (pack_mav demo_mav true kDefaultLinkKey no_ctx ++ [9]) true = Some (Some demo_mav).
Proof.
  change (mkNack 16909060 0 1 2 _) with (nack_on_wire demo_nack).
  refine (variable_frames_roundtrip demo_nack demo_mav true kDefaultLinkKey no_ctx [9] demo_nack_typed _).
  split; vm_compute; [split |]; congruence.
Defined.

(** ** Tags *)

Ltac body_bytes :=
  repeat (apply Forall_app; split); auto with width;
  repeat (apply Forall_cons; split); try apply Forall_nil; auto using overhead_wire_byte; try decided.

Lemma rcf_body_bytes r : rcf_typed r -> bytes_ok (rcf_body r).
Proof. intros (? & ? & ? & ? & ? & ? & ? & ?). unfold rcf_body, head. body_bytes. Qed.

Lemma disc_body_bytes d : disc_typed d -> bytes_ok (disc_body d).
Proof. intros (? & ? & ? & ? & ? & ? & ?). unfold disc_body, head. body_bytes. Qed.

Lemma nack_body_bytes k : nack_typed k -> bytes_ok (nack_body k).
Proof.
  intros (? & ? & ? & ? & ? & ?). unfold nack_body, head. cbn zeta. body_bytes.
  induction (take _ _) as [|x l IH]; [constructor |]. cbn [map concat].
  apply Forall_app. split; [apply Forall_app; split; auto with width | exact IH].
Qed.

Lemma mav_body_bytes m : bytes_ok (payload m) -> bytes_ok (mav_body m).
Proof. intros H. unfold mav_body. body_bytes. Qed.

Lemma verify_pack_nack (k : Nack) (key : list Z) (ctx : TagCtx) (tail : list Z) :
  nack_typed k -> bytes_ok key -> verify_control (pack_nack k key ctx ++ tail) key ctx = Some true.
Proof.
  intros Hk Hkey. apply verify_packed; [by apply nack_body_bytes | done |]. rewrite (length_nack_body k Hk).
  pose proof (tagged_length (nack_body k) key ctx tail) as HL%Nat.ltb_ge. rewrite (length_nack_body k Hk) in HL.
  destruct (tagged_frame (nack_body k) key ctx tail) as [rest E]. rewrite E in *. clear E.
  assert (Ht : frame_type (nack_body k ++ rest) = Some T_NACK) by done.
  unfold tag_offset. rewrite Ht. cbn [mbind option_bind].
  change (T_NACK =? T_DISC) with false. change (T_NACK =? T_RCF) with false. change (T_NACK =? T_NACK) with true.
  cbn iota. rewrite (proj2 (Nat.ltb_ge _ _)) by lia.
  assert (Hc : get8 (nack_body k ++ rest) (kNackFixedLen - 1) = Some (n k))
    by (unfold nack_body; cbn zeta; rewrite (nack_cnt k Hk), <- !app_assoc; done).
  rewrite Hc. cbn [mbind option_bind]. destruct Hk as (_ & _ & _ & Hn & _). unfold kMaxNackEntries in *.
  by rewrite (proj2 (Z.eqb_neq (n k) 0)), (proj2 (Z.ltb_ge 4 (n k))) by lia.
Qed.

(** A frame packed with a key and a tag context verifies under them, for every kind
    of tagged frame and whatever the radio appends; and a buffer that verifies carries, at
    the structural offset of its type, exactly the SipHash tag of the bytes before it
    followed by the hidden nonces and sequence. *)
Theorem control_tags_exact (r : Rcf) (d : Disc) (k : Nack) (m : Mav) (key : list Z) (ctx : TagCtx)
    (tail buf : list Z) :
  rcf_typed r -> disc_typed d -> nack_typed k -> mav_typed m -> bytes_ok (payload m) -> bytes_ok key ->
  verify_control (pack_rcf r key ctx ++ tail) key ctx = Some true /\
  verify_control (pack_disc d key ++ tail) key no_ctx = Some true /\
  verify_control (pack_nack k key ctx ++ tail) key ctx = Some true /\
  verify_control (pack_mav m true key ctx ++ tail) key ctx = Some true /\
  (verify_control buf key ctx = Some true ->
   exists n, tag_offset buf = Some (Some n) /\ (n + kTagLen + 2 <= length buf)%nat /\
     get64 buf n = Some (siphash24 key (tag_input (take n buf) ctx))).
Proof.
  intros Hr Hd Hk Hm Hp Hkey. split_all.
  - apply verify_packed; [by apply rcf_body_bytes | done |].
    destruct (tagged_frame (rcf_body r) key ctx tail) as [rest ->]. done.
  - apply verify_packed; [by apply disc_body_bytes | done |].
    destruct (tagged_frame (disc_body d) key no_ctx tail) as [rest ->]. done.
  - by apply verify_pack_nack.
  - apply verify_packed; [by apply mav_body_bytes | done |]. rewrite length_mav_body.
    pose proof (tagged_length (mav_body m) key ctx tail) as HL%Nat.ltb_ge. rewrite length_mav_body in HL.
    destruct (tagged_frame (mav_body m) key ctx tail) as [rest E]. rewrite E in *. clear E.
    assert (Ht : frame_type (mav_body m ++ rest) = Some T_MAV) by done.
    unfold tag_offset. rewrite Ht. cbn [mbind option_bind].
    change (T_MAV =? T_DISC) with false. change (T_MAV =? T_RCF) with false. change (T_MAV =? T_NACK) with false.
    change (T_MAV =? T_MAV) with true. cbn iota. rewrite (proj2 (Nat.ltb_ge _ _)) by lia.
    destruct Hm as [_ Hn]. unfold kMavMaxPayload in *.
    assert (Hg : get16 (mav_body m ++ rest) 8 = Some (Z.of_nat (length (payload m)))).
    { unfold mav_body. rewrite (wrap_small 16) by typed. rewrite <- !app_assoc.
      refine (eq_trans (get16_app (put16 RC_MAGIC ++ [RC_VERSION; T_MAV] ++ put32 (m_counter m)) _ 0)
               (get16_put16 _ _ _)). typed. }
    rewrite Hg. cbn [mbind option_bind]. rewrite (proj2 (Z.ltb_ge _ _)) by lia. by rewrite Nat2Z.id.
  - unfold verify_control. destruct (tag_offset buf) as [[n|]|]; cbn [mbind option_bind]; [| done..].
    destruct (Nat.ltb_spec (length buf) (n + kTagLen + 2)) as [|Hl]; [done |].
    rewrite get_slice_in by lia. cbn [mbind option_bind]. rewrite drop_0.
    destruct (get64 buf n) as [got|] eqn:Eg; [| done]. cbn [mbind option_bind]. intros [= Hx].
    exists n. split; [done |]. split; [done |]. apply Z.eqb_eq, Z.lxor_eq in Hx. by rewrite Hx.
Qed.

Example control_tags_exact_witness :
  verify_control (pack_rcf demo_rcf kDefaultLinkKey (mkTagCtx 11 22 7) ++ [1; 2; 3; 4]) kDefaultLinkKey
    (mkTagCtx 11 22 7) = Some true /\
  verify_control (pack_nack demo_nack kDefaultLinkKey (mkTagCtx 11 22 7) ++ [1; 2; 3; 4]) kDefaultLinkKey
    (mkTagCtx 11 22 7) = Some true /\
  exists n, tag_offset (pack_disc demo_disc kDefaultLinkKey) = Some (Some n).
Proof.
  assert (Hr : rcf_typed demo_rcf) by (unfold rcf_typed; repeat split; vm_compute; congruence).
  assert (Hd : disc_typed demo_disc) by (unfold disc_typed; repeat split; vm_compute; congruence).
  assert (Hm : mav_typed demo_mav) by (split; vm_compute; [split |]; congruence).
  assert (Hp : bytes_ok (payload demo_mav)) by decided.
  assert (Hk : bytes_ok kDefaultLinkKey) by decided.
  destruct (control_tags_exact demo_rcf demo_disc demo_nack demo_mav kDefaultLinkKey (mkTagCtx 11 22 7) [1; 2; 3; 4]
    (pack_disc demo_disc kDefaultLinkKey) Hr Hd demo_nack_typed Hm Hp Hk) as (H1 & _ & H3 & _ & _).
  split; [exact H1 |]. split; [exact H3 |].
  destruct (control_tags_exact demo_rcf demo_disc demo_nack demo_mav kDefaultLinkKey no_ctx []
    (pack_disc demo_disc kDefaultLinkKey) Hr Hd demo_nack_typed Hm Hp Hk) as (_ & H2 & _ & _ & H5).
  rewrite app_nil_r in H2. destruct (H5 H2) as (n & Hn & _). exists n. exact Hn.
Defined.

(** ** Totality and exclusivity *)

Lemma head_ok_in buf t : (4 <= length buf)%nat -> exists b, head_ok buf t = Some b.
Proof. intros H. unfold head_ok. reads_in. eauto. Qed.

Lemma crc_ok_in buf n : (n + 2 <= length buf)%nat -> exists b, crc_ok buf n = Some b.
Proof.
  intros H. unfold crc_ok. destruct (get16_in buf n) as [c ->]; [lia |]. cbn [mbind option_bind].
  rewrite get_slice_in by lia. cbn [mbind option_bind]. eauto.
Qed.

Lemma parse_entries_in cnt buf o :
  (o + cnt * kNackEntryLen <= length buf)%nat -> exists l, parse_entries cnt buf o = Some l.
Proof.
  revert o. induction cnt as [|cnt IH]; intros o H; cbn [parse_entries]; [eauto |]. unfold kNackEntryLen in *.
  destruct (get32_in buf o) as [f ->]; [lia |]. destruct (get32_in buf (o + 4)) as [b ->]; [lia |].
  destruct (IH (o + 8)%nat) as [l ->]; [lia |]. cbn. eauto.
Qed.

(** Run a parser's guards, then its reads. *)
Ltac guards :=
  repeat match goal with
  | |- context [(length ?b <? ?n)%nat] => destruct (Nat.ltb_spec (length b) n); [by eauto |]
  | |- context [head_ok ?b ?t] =>
      let h := fresh "h" in destruct (head_ok_in b t) as [h ->]; [lia |]; destruct h; [| by eauto]
  | |- context [crc_ok ?b ?n] =>
      let h := fresh "h" in destruct (crc_ok_in b n) as [h ->]; [lia |]; destruct h; [| by eauto]
  end; cbn [mbind option_bind negb].

Lemma parse_rcf_total buf : exists x, parse_rcf buf = Some x.
Proof. unfold parse_rcf, RCF_HEAD_LEN, kTagLen. guards. reads_in. eauto. Qed.

Lemma parse_disc_total buf : exists x, parse_disc buf = Some x.
Proof. unfold parse_disc, DISC_LEN, kTagLen. guards. reads_in. eauto. Qed.

Lemma parse_disc_ack_total buf : exists x, parse_disc_ack buf = Some x.
Proof. unfold parse_disc_ack, DISC_ACK_LEN. guards. reads_in. eauto. Qed.

Lemma parse_telem_total buf : exists x, parse_telem buf = Some x.
Proof. unfold parse_telem, TELEM_LEN. guards. reads_in. eauto. Qed.

Lemma parse_nack_total buf : exists x, parse_nack buf = Some x.
Proof.
  unfold parse_nack, kNackFixedLen, kNackEntryLen, kTagLen. guards.
  destruct (get8_in buf (11 - 1)) as [c Hc]; [lia |]. rewrite Hc. cbn [mbind option_bind].
  destruct (_ || _); [eauto |]. guards.
  destruct (get8_in buf 4) as [f ->]; [lia |]. destruct (get32_in buf 5) as [ctr ->]; [lia |].
  destruct (get8_in buf 9) as [s ->]; [lia |].
  destruct (parse_entries_in (Z.to_nat c) buf 11) as [l ->]; [unfold kNackEntryLen; lia |].
  cbn. eauto.
Qed.

Lemma parse_mav_total buf tagged : exists x, parse_mav buf tagged = Some x.
Proof.
  unfold parse_mav, kMavFixedLen. guards.
  destruct (get16_in buf 8) as [pl ->]; [lia |]. cbn [mbind option_bind].
  destruct (_ <? pl); [eauto |]. guards.
  destruct (get32_in buf 4) as [ctr ->]; [lia |]. cbn [mbind option_bind].
  rewrite get_slice_in by lia. cbn. eauto.
Qed.

Lemma frame_type_total buf : exists t, frame_type buf = Some t.
Proof. unfold frame_type. guards. reads_in. eauto. Qed.

Lemma tag_offset_total buf : exists x, tag_offset buf = Some x.
Proof.
  unfold tag_offset, kNackFixedLen, kMavFixedLen. destruct (frame_type_total buf) as [t ->]. cbn [mbind option_bind].
  destruct (t =? T_DISC); [eauto |]. destruct (t =? T_RCF); [eauto |].
  destruct (t =? T_NACK); [guards | destruct (t =? T_MAV); [guards | eauto]].
  - destruct (get8_in buf (11 - 1)) as [c ->]; [lia |]. cbn [mbind option_bind]. destruct (_ || _); eauto.
  - destruct (get16_in buf 8) as [c ->]; [lia |]. cbn [mbind option_bind]. destruct (_ <? _); eauto.
Qed.

Lemma verify_control_total buf key ctx : exists b, verify_control buf key ctx = Some b.
Proof.
  unfold verify_control, kTagLen. destruct (tag_offset_total buf) as [[n|] ->]; cbn [mbind option_bind]; [| eauto].
  guards. rewrite get_slice_in by lia. destruct (get64_in buf n) as [g ->]; [lia |]. cbn. eauto.
Qed.

(** The type byte decides: a frame is accepted by the parser of its type only. *)
Lemma head_ok_type buf t : head_ok buf t = Some true -> frame_type buf = Some t /\ is_foreign_rc_version buf = Some false.
Proof.
  unfold head_ok, frame_type, is_foreign_rc_version.
  destruct (get16 buf 0) as [m|]; [| done]. destruct (get8 buf 2) as [v|]; [| done].
  destruct (get8 buf 3) as [t'|] eqn:E; [| done]. cbn [mbind option_bind]. intros [= [[Hm Hv]%andb_prop Ht]%andb_prop].
  apply lookup_lt_Some in E. rewrite (proj2 (Nat.ltb_ge _ _)) by lia.
  rewrite Hm, Hv. cbn. apply Z.eqb_eq in Ht as ->. done.
Qed.

Definition accepted {A} (o : option (option A)) : Prop := exists x, o = Some (Some x).

Lemma accepted_head {A} (buf : list Z) n t (rest : option (option A)) :
  accepted (if (length buf <? n)%nat then Some None
            else h ← head_ok buf t; if negb h then Some None else rest) ->
  frame_type buf = Some t /\ is_foreign_rc_version buf = Some false.
Proof.
  intros [x H]. destruct (_ <? _)%nat; [done |].
  destruct (head_ok buf t) as [[]|] eqn:E; [| done..]. by apply head_ok_type.
Qed.

(** Every parser, the peeks and the tag check return on every buffer, reading only
    inside it; and whatever a parser accepts is of this version and of that parser's type,
    so no frame is ever taken for another. *)
Theorem rc_parsers_total_exclusive (buf key : list Z) (ctx : TagCtx) (tagged : bool) :
  (exists a b c d e f g h i,
     parse_rcf buf = Some a /\ parse_disc buf = Some b /\ parse_disc_ack buf = Some c /\
     parse_telem buf = Some d /\ parse_nack buf = Some e /\ parse_mav buf tagged = Some f /\
     frame_type buf = Some g /\ is_foreign_rc_version buf = Some h /\ verify_control buf key ctx = Some i) /\
  (let of_type (t : Z) := frame_type buf = Some t /\ is_foreign_rc_version buf = Some false in
   (accepted (parse_rcf buf) -> of_type T_RCF) /\ (accepted (parse_disc buf) -> of_type T_DISC) /\
   (accepted (parse_disc_ack buf) -> of_type T_DISC_ACK) /\ (accepted (parse_telem buf) -> of_type T_TELEM) /\
   (accepted (parse_nack buf) -> of_type T_NACK) /\ (accepted (parse_mav buf tagged) -> of_type T_MAV)).
Proof.
  split.
  - destruct (parse_rcf_total buf) as [? ->], (parse_disc_total buf) as [? ->], (parse_disc_ack_total buf) as [? ->],
      (parse_telem_total buf) as [? ->], (parse_nack_total buf) as [? ->], (parse_mav_total buf tagged) as [? ->],
      (frame_type_total buf) as [? ->], (verify_control_total buf key ctx) as [? ->].
    assert (H : exists h, is_foreign_rc_version buf = Some h) by (unfold is_foreign_rc_version; guards; reads_in; eauto).
    destruct H as [? ->]. repeat eexists.
  - cbn zeta. unfold parse_rcf, parse_disc, parse_disc_ack, parse_telem, parse_nack, parse_mav.
    repeat (apply conj); apply accepted_head.
Qed.

(** ** Corruption *)

Lemma crc_ok_burst pre suf a b a' b' tail :
  bytes_ok suf -> is_byte a -> is_byte b -> is_byte a' -> is_byte b' -> (a, b) <> (a', b') ->
  crc_ok ((pre ++ [a'; b'] ++ suf) ++ put16 (crc16 (pre ++ [a; b] ++ suf)) ++ tail)
    (length (pre ++ [a; b] ++ suf)) = Some false.
Proof.
  intros Hs Ha Hb Ha' Hb' Hne. unfold crc_ok.
  assert (El : length (pre ++ [a; b] ++ suf) = length (pre ++ [a'; b'] ++ suf)) by (by rewrite !length_app).
  rewrite El. rewrite <- (Nat.add_0_r (length (pre ++ [a'; b'] ++ suf))) at 1.
  rewrite get16_app, get16_put16 by (apply crc16_width, crc16_init_width). cbn [mbind option_bind].
  rewrite get_slice_in by (rewrite !length_app; lia). cbn [mbind option_bind].
  rewrite drop_0, take_app_length. f_equal. apply Z.eqb_neq. by apply crc16_detects_pair.
Qed.

(** A parser that checks the CRC of its first [n] bytes refuses a buffer that fails it. *)
Lemma burst_refused {A} (buf : list Z) t n (rest : option (option A)) :
  (4 <= n)%nat -> crc_ok buf n = Some false -> (n + 2 <= length buf)%nat ->
  (if (length buf <? n + 2)%nat then Some None
   else h ← head_ok buf t; if negb h then Some None
        else c ← crc_ok buf n; if negb c then Some None else rest) = Some None.
Proof.
  intros Hn Hc Hl. rewrite (proj2 (Nat.ltb_ge _ _)) by lia.
  destruct (head_ok_in buf t) as [h ->]; [lia |]. cbn [mbind option_bind]. destruct h; [| done].
  cbn [negb]. by rewrite Hc.
Qed.

(** An error burst confined to two adjacent bytes anywhere under the CRC of an RCF,
    DISC, DISC_ACK or TELEM frame -- tag included -- makes its parser refuse the frame. *)
Theorem fixed_frames_refuse_bursts (r : Rcf) (d : Disc) (a : DiscAck) (t : Telem) (key : list Z) (ctx : TagCtx)
    (pre suf tail : list Z) (x y x' y' : Z) :
  bytes_ok suf -> is_byte x -> is_byte y -> is_byte x' -> is_byte y' -> (x, y) <> (x', y') ->
  let frame := pre ++ [x; y] ++ suf in
  let received := (pre ++ [x'; y'] ++ suf) ++ put16 (crc16 frame) ++ tail in
  (put_tag (rcf_body r) key ctx = frame -> parse_rcf received = Some None) /\
  (put_tag (disc_body d) key no_ctx = frame -> parse_disc received = Some None) /\
  (disc_ack_body a = frame -> parse_disc_ack received = Some None) /\
  (telem_body t = frame -> parse_telem received = Some None).
Proof.
  intros Hs Hx Hy Hx' Hy' Hne frame received.
  assert (H : forall n, length frame = n -> crc_ok received n = Some false /\ (n + 2 <= length received)%nat).
  { intros n <-. split; [by apply crc_ok_burst |]. subst frame received. rewrite !length_app. cbn. lia. }
  split_all; intros E.
  - destruct (H (RCF_HEAD_LEN + kTagLen)%nat) as [H1 H2]; [by rewrite <- E, length_put_tag |].
    apply (burst_refused received T_RCF (RCF_HEAD_LEN + kTagLen)); [unfold RCF_HEAD_LEN; lia | done | done].
  - destruct (H (DISC_LEN + kTagLen)%nat) as [H1 H2]; [by rewrite <- E, length_put_tag |].
    apply (burst_refused received T_DISC (DISC_LEN + kTagLen)); [unfold DISC_LEN; lia | done | done].
  - destruct (H DISC_ACK_LEN) as [H1 H2]; [by rewrite <- E |].
    apply (burst_refused received T_DISC_ACK DISC_ACK_LEN); [unfold DISC_ACK_LEN; lia | done | done].
  - destruct (H TELEM_LEN) as [H1 H2]; [by rewrite <- E |].
    apply (burst_refused received T_TELEM TELEM_LEN); [unfold TELEM_LEN; lia | done | done].
Qed.

(** The sequence number of a DISC_ACK flipped on the air. *)
Example fixed_frames_refuse_bursts_witness :
  parse_disc_ack (take 18 (disc_ack_body demo_ack) ++ [0; 255] ++ put16 (crc16 (disc_ack_body demo_ack)) ++ [7]) = Some None.
Proof.
  assert (Hne : (255, 255) <> (0, 255)) by (intros [=]).
  destruct (fixed_frames_refuse_bursts demo_rcf demo_disc demo_ack demo_telem kDefaultLinkKey no_ctx
    (take 18 (disc_ack_body demo_ack)) [] [7] 255 255 0 255 (List.Forall_nil _)
    ltac:(decided) ltac:(decided) ltac:(decided) ltac:(decided) Hne) as (_ & _ & H & _).
  assert (E : disc_ack_body demo_ack = take 18 (disc_ack_body demo_ack) ++ [255; 255] ++ []) by (vm_compute; reflexivity).
  specialize (H E). rewrite <- E in H. rewrite app_nil_r, <- app_assoc in H. exact H.
Defined.
