(* ===== verification/RetxRing.v ===== *)
(** * RetxRing: the lock-free ring of sent envelopes (common/include/mabur/retx_ring.h)

    The drone's hot thread [put]s every base source envelope; its RX thread [get]s one
    when a NACK asks for it.  There is no lock: a slot carries a state word, and a reader
    re-checks state and sequence after copying.  Both threads are modelled as step
    relations over the shared slots, one atomic access per step and the copies byte by
    byte, under sequentially consistent interleaving: what the fences of the source buy is
    assumed, the protocol itself is proved. *)
From S2P Require Import Prelude SwConfig.
Local Open Scope Z_scope.
Local Open Scope mabur_scope.

(** ** Sizing *)

Fixpoint pow2_loop (fuel : nat) (p n : Z) : option Z :=
  if p <? n then match fuel with O => None | S fuel => pow2_loop fuel (Z.shiftl p 1) n end else Some p.

(** [while (p < n) p <<= 1]; 63 doublings reach every size_t the loop ends on. *)
Definition pow2_at_least (n : Z) : option Z := pow2_loop 63 1 n.

Definition slots_for (bitrate_max_kbps ring_ms symbol_size : Z) (base_share : double) : option Z :=
  let bytes := d_mul (d_mul (d_div (d_mul (d_of_Z bitrate_max_kbps) (d_of_Z 1000)) (d_of_Z 8)) base_share)
                 (d_div (d_of_Z ring_ms) (d_of_Z 1000)) in
  pow2_at_least (d_trunc (d_div bytes (d_of_Z symbol_size)) + 1).

(** ** The shared ring *)

Record Ring := mkRing {
  slots_ : Z;
  env_len_ : nat;
  state_ : list Z;
  seq_ : list Z;
  data_ : list (list Z);
}.

Definition new_ring (slots : Z) (env_len : nat) : option Ring :=
  n ← pow2_at_least slots;
  Some (mkRing n env_len (replicate (Z.to_nat n) 0) (replicate (Z.to_nat n) 0)
          (replicate (Z.to_nat n) (replicate env_len 0))).

Definition slot_of (r : Ring) (seq : Z) : nat := Z.to_nat (Z.land seq (slots_ r - 1)).
Definition state_at (r : Ring) (i : nat) : Z := nth i (state_ r) 0.
Definition seq_at (r : Ring) (i : nat) : Z := nth i (seq_ r) 0.
Definition data_at (r : Ring) (i : nat) : list Z := nth i (data_ r) [].

Definition store_state (r : Ring) (i : nat) (v : Z) : Ring :=
  mkRing (slots_ r) (env_len_ r) (<[i := v]> (state_ r)) (seq_ r) (data_ r).
Definition store_seq (r : Ring) (i : nat) (v : Z) : Ring :=
  mkRing (slots_ r) (env_len_ r) (state_ r) (<[i := v]> (seq_ r)) (data_ r).
(** One byte of the [memcpy] into a slot. *)
Definition store_byte (r : Ring) (i j : nat) (b : Z) : Ring :=
  mkRing (slots_ r) (env_len_ r) (state_ r) (seq_ r) (<[i := <[j := b]> (data_at r i)]> (data_ r)).

(** ** The two threads *)

(** Where the writer stands in [put(seq, env)], and how many bytes it has copied. *)
Inductive WPc :=
| WIdle
| WCopy (seq : Z) (env : list Z) (j : nat)
| WState (seq : Z) (env : list Z).

(** Where the reader stands in [get(seq, out)]. *)
Inductive RPc :=
| RState (seq : Z)
| RSeq (seq : Z)
| RCopy (seq : Z) (out : list Z)
| RState2 (seq : Z) (out : list Z)
| RSeq2 (seq : Z) (out : list Z)
| RDone (seq : Z) (hit : bool) (out : list Z).

(** [hist]: the puts begun so far, newest first (ghost). *)
Record Sys := mkSys { ring : Ring; wpc : WPc; rpc : RPc; hist : list (Z * list Z) }.

(** [put]: the writer may start any envelope of the ring's length. *)
Inductive wstep : Sys -> Sys -> Prop :=
| w_refused r rp h (env : list Z) :
    length env ≠ env_len_ r -> wstep (mkSys r WIdle rp h) (mkSys r WIdle rp h)
| w_begin r rp h seq env :
    length env = env_len_ r -> seq ∉ h.*1 ->
    wstep (mkSys r WIdle rp h)
          (mkSys (store_state r (slot_of r seq) 1) (WCopy seq env 0) rp ((seq, env) :: h))
| w_copy r rp h seq env j b :
    env !! j = Some b ->
    wstep (mkSys r (WCopy seq env j) rp h)
          (mkSys (store_byte r (slot_of r seq) j b) (WCopy seq env (S j)) rp h)
| w_seq r rp h seq env :
    wstep (mkSys r (WCopy seq env (length env)) rp h)
          (mkSys (store_seq r (slot_of r seq) seq) (WState seq env) rp h)
| w_state r rp h seq env :
    wstep (mkSys r (WState seq env) rp h) (mkSys (store_state r (slot_of r seq) 2) WIdle rp h).

(** [get]: one atomic load or one copied byte per step; a finished reader may ask again. *)
Inductive rstep : Sys -> Sys -> Prop :=
| r_state_miss r w h seq :
    state_at r (slot_of r seq) ≠ 2 -> rstep (mkSys r w (RState seq) h) (mkSys r w (RDone seq false []) h)
| r_state_ok r w h seq :
    state_at r (slot_of r seq) = 2 -> rstep (mkSys r w (RState seq) h) (mkSys r w (RSeq seq) h)
| r_seq_miss r w h seq :
    seq_at r (slot_of r seq) ≠ seq -> rstep (mkSys r w (RSeq seq) h) (mkSys r w (RDone seq false []) h)
| r_seq_ok r w h seq :
    seq_at r (slot_of r seq) = seq -> rstep (mkSys r w (RSeq seq) h) (mkSys r w (RCopy seq []) h)
| r_copy r w h seq out b :
    data_at r (slot_of r seq) !! length out = Some b -> (length out < env_len_ r)%nat ->
    rstep (mkSys r w (RCopy seq out) h) (mkSys r w (RCopy seq (out ++ [b])) h)
| r_copied r w h seq out :
    length out = env_len_ r -> rstep (mkSys r w (RCopy seq out) h) (mkSys r w (RState2 seq out) h)
| r_state2_miss r w h seq out :
    state_at r (slot_of r seq) ≠ 2 -> rstep (mkSys r w (RState2 seq out) h) (mkSys r w (RDone seq false out) h)
| r_state2_ok r w h seq out :
    state_at r (slot_of r seq) = 2 -> rstep (mkSys r w (RState2 seq out) h) (mkSys r w (RSeq2 seq out) h)
| r_seq2 r w h seq out :
    rstep (mkSys r w (RSeq2 seq out) h)
          (mkSys r w (RDone seq (bool_decide (seq_at r (slot_of r seq) = seq)) out) h)
| r_again r w h seq hit out seq' :
    rstep (mkSys r w (RDone seq hit out) h) (mkSys r w (RState seq') h).

Definition sys_step (s s' : Sys) : Prop := wstep s s' \/ rstep s s'.

(** ** The whole calls, run alone *)

Fixpoint copy_in (r : Ring) (i j : nat) (bytes : list Z) : Ring :=
  match bytes with [] => r | b :: bytes => copy_in (store_byte r i j b) i (S j) bytes end.

Definition put (r : Ring) (seq : Z) (env : list Z) : Ring :=
  if decide (length env = env_len_ r) then
    let i := slot_of r seq in
    store_state (store_seq (copy_in (store_state r i 1) i 0 env) i seq) i 2
  else r.

Definition get (r : Ring) (seq : Z) : option (list Z) :=
  let i := slot_of r seq in
  if (state_at r i =? 2) && (seq_at r i =? seq) then Some (data_at r i) else None.

(** ** Proofs: no torn read, and the last envelopes are there *)
Local Open Scope Z_scope.
Local Open Scope mabur_scope.

(** ** Sizes are powers of two *)

Definition is_pow2 (z : Z) : Prop := exists k, 0 <= k /\ z = 2 ^ k.

Lemma pow2_loop_spec fuel p n m :
  is_pow2 p -> pow2_loop fuel p n = Some m -> is_pow2 m /\ n <= m /\ (p < n -> m < 2 * n) /\ (n <= p -> m = p).
Proof.
  revert p. induction fuel as [|fuel IH]; intros p Hp; cbn [pow2_loop]; destruct (Z.ltb_spec p n); try done;
    try (intros [= <-]; split; [done |]; split; [lia |]; split; [lia | done]).
  intros H1. destruct (IH (Z.shiftl p 1)) as (H2 & H3 & H4 & H5); [| done |].
  - destruct Hp as (k & Hk & ->). exists (k + 1). split; [lia |].
    rewrite Z.shiftl_mul_pow2 by lia. rewrite Z.pow_add_r by lia. done.
  - rewrite Z.shiftl_mul_pow2 in * by lia. split; [done |]. split; [done |]. split; [| lia].
    intros _. destruct (Z.lt_ge_cases (p * 2 ^ 1) n); [auto |]. rewrite H5 by lia. lia.
Qed.

Lemma pow2_loop_ends fuel p n : 0 < p -> n <= p * 2 ^ Z.of_nat fuel -> exists m, pow2_loop fuel p n = Some m.
Proof.
  revert p. induction fuel as [|fuel IH]; intros p Hp Hn; cbn [pow2_loop]; destruct (Z.ltb_spec p n); [| eauto.. | eauto].
  - cbn in Hn. lia.
  - apply IH; rewrite Z.shiftl_mul_pow2 by lia; [lia |].
    rewrite Nat2Z.inj_succ, Z.pow_succ_r in Hn by lia. lia.
Qed.

(** ** The invariant of the interleaving *)

Record ring_wf (r : Ring) : Prop := {
  wf_slots : is_pow2 (slots_ r);
  wf_state : length (state_ r) = Z.to_nat (slots_ r);
  wf_seq : length (seq_ r) = Z.to_nat (slots_ r);
  wf_data : length (data_ r) = Z.to_nat (slots_ r);
  wf_rows : Forall (fun row => length row = env_len_ r) (data_ r);
}.

Lemma ring_slot_lt r s : ring_wf r -> (slot_of r s < Z.to_nat (slots_ r))%nat.
Proof.
  intros [(k & Hk & E) _ _ _ _]. unfold slot_of. rewrite E.
  replace (2 ^ k - 1) with (Z.ones k) by (rewrite Z.ones_equiv; lia). rewrite Z.land_ones by lia.
  pose proof (Z.mod_pos_bound s (2 ^ k) (Z.pow_pos_nonneg 2 k ltac:(lia) Hk)). lia.
Qed.

(** The sequences whose store has happened: all but the one being copied. *)
Definition stored (w : WPc) (h : list (Z * list Z)) : list Z :=
  match w with WCopy _ _ _ => (tail h).*1 | _ => h.*1 end.

Definition copying (r : Ring) (w : WPc) (i : nat) : Prop :=
  match w with WCopy s _ _ => slot_of r s = i | _ => False end.

(** A slot whose sequence was stored by a put. *)
Definition published (r : Ring) (w : WPc) (h : list (Z * list Z)) (i : nat) : Prop :=
  seq_at r i ∈ stored w h /\ slot_of r (seq_at r i) = i.

Definition writer_ok (r : Ring) (w : WPc) (h : list (Z * list Z)) : Prop :=
  match w with
  | WIdle => True
  | WCopy s env j =>
      (exists h', h = (s, env) :: h' /\ s ∉ h'.*1) /\ length env = env_len_ r /\
      state_at r (slot_of r s) = 1 /\ (j <= length env)%nat /\
      take j (data_at r (slot_of r s)) = take j env
  | WState s env =>
      (s, env) ∈ h /\ state_at r (slot_of r s) = 1 /\ seq_at r (slot_of r s) = s
  end.

Definition reader_ok (r : Ring) (w : WPc) (h : list (Z * list Z)) (p : RPc) : Prop :=
  match p with
  | RState _ => True
  | RSeq s => published r w h (slot_of r s)
  | RCopy s out | RState2 s out =>
      s ∈ stored w h /\ (length out <= env_len_ r)%nat /\
      (match p with RState2 _ _ => length out = env_len_ r | _ => True end) /\
      (seq_at r (slot_of r s) = s ->
       copying r w (slot_of r s) \/ out = take (length out) (data_at r (slot_of r s)))
  | RSeq2 s out => s ∈ stored w h /\ (seq_at r (slot_of r s) = s -> (s, out) ∈ h)
  | RDone s hit out => hit = true -> (s, out) ∈ h
  end.

Record sys_inv (s : Sys) : Prop := {
  iv_wf : ring_wf (ring s);
  iv_writer : writer_ok (ring s) (wpc s) (hist s);
  iv_pub : forall i, state_at (ring s) i = 2 -> published (ring s) (wpc s) (hist s) i;
  iv_rows : forall i, (i < Z.to_nat (slots_ (ring s)))%nat -> published (ring s) (wpc s) (hist s) i ->
    ~ copying (ring s) (wpc s) i -> (seq_at (ring s) i, data_at (ring s) i) ∈ hist s;
  iv_reader : reader_ok (ring s) (wpc s) (hist s) (rpc s);
}.

(** ** Reading the ring after a store *)

Lemma state_store_state r i v j : (i < length (state_ r))%nat ->
  state_at (store_state r i v) j = if decide (i = j) then v else state_at r j.
Proof.
  intros H. unfold state_at. cbn [store_state state_]. rewrite !nth_lookup. destruct (decide (i = j)) as [->|Hne].
  - by rewrite list_lookup_insert_eq.
  - by rewrite list_lookup_insert_ne.
Qed.

Lemma seq_store_seq r i v j : (i < length (seq_ r))%nat ->
  seq_at (store_seq r i v) j = if decide (i = j) then v else seq_at r j.
Proof.
  intros H. unfold seq_at. cbn [store_seq seq_]. rewrite !nth_lookup. destruct (decide (i = j)) as [->|Hne].
  - by rewrite list_lookup_insert_eq.
  - by rewrite list_lookup_insert_ne.
Qed.

Lemma data_store_byte r i k b j : (i < length (data_ r))%nat ->
  data_at (store_byte r i k b) j = if decide (i = j) then <[k := b]> (data_at r i) else data_at r j.
Proof.
  intros H. change (data_at (store_byte r i k b) j) with (nth j (<[i := <[k := b]> (data_at r i)]> (data_ r)) []).
  generalize (<[k := b]> (data_at r i)). intros row. unfold data_at. rewrite !nth_lookup. destruct (decide (i = j)) as [->|Hne].
  - by rewrite list_lookup_insert_eq.
  - by rewrite list_lookup_insert_ne.
Qed.

Lemma store_state_wf r i v : ring_wf r -> ring_wf (store_state r i v).
Proof. intros []. constructor; try done. cbn. by rewrite length_insert. Qed.

Lemma store_seq_wf r i v : ring_wf r -> ring_wf (store_seq r i v).
Proof. intros []. constructor; try done. cbn. by rewrite length_insert. Qed.

Lemma data_at_length r i : ring_wf r -> (i < Z.to_nat (slots_ r))%nat -> length (data_at r i) = env_len_ r.
Proof.
  intros [_ _ _ Hl Hr] Hi. unfold data_at. rewrite Forall_forall in Hr. apply Hr.
  apply list_elem_of_In, nth_In. lia.
Qed.

Lemma store_byte_wf r i j b : ring_wf r -> ring_wf (store_byte r i j b).
Proof.
  intros H. pose proof H as []. destruct (decide (i < Z.to_nat (slots_ r))%nat) as [Hi|Hi].
  - constructor; try done; cbn; [by rewrite length_insert |].
    apply Forall_insert; [done |]. rewrite length_insert. by apply data_at_length.
  - constructor; try done; cbn; rewrite list_insert_ge by lia; done.
Qed.

(** ** Every step keeps it *)

Lemma reader_ok_ext r r' w w' h h' p :
  slots_ r' = slots_ r -> env_len_ r' = env_len_ r ->
  (forall s, s ∈ stored w h -> s ∈ stored w' h') -> (forall x, x ∈ h -> x ∈ h') ->
  (forall i, seq_at r' i = seq_at r i) ->
  (forall i, (i < Z.to_nat (slots_ r))%nat ->
     (copying r w i -> copying r' w' i) /\ (data_at r' i = data_at r i \/ copying r' w' i)) ->
  ring_wf r -> reader_ok r w h p -> reader_ok r' w' h' p.
Proof.
  intros Es El Hst Hh Hseq Hcp Hwf.
  assert (Hsl : forall s, slot_of r' s = slot_of r s) by (intros; unfold slot_of; by rewrite Es).
  destruct p as [s | s | s out | s out | s out | s hit out]; cbn [reader_ok]; unfold published;
    rewrite ?Hsl, ?Hseq, ?Hsl, ?El; auto.
  - intros [H1 H2]. split; auto.
  - intros (H1 & H2 & H3 & H4). repeat (split; [by auto |]). intros E.
    destruct (Hcp _ (ring_slot_lt r s Hwf)) as [G1 [G2|G2]]; [| by left].
    rewrite G2. destruct (H4 E); [left; by apply G1 | by right].
  - intros (H1 & H2 & H3 & H4). repeat (split; [by auto |]). intros E.
    destruct (Hcp _ (ring_slot_lt r s Hwf)) as [G1 [G2|G2]]; [| by left].
    rewrite G2. destruct (H4 E); [left; by apply G1 | by right].
  - intros [H1 H2]. split; auto.
Qed.

(** The sequence store publishes the slot; a reader that was copying it loses. *)
Lemma reader_ok_store r s env h' p :
  ring_wf r -> s ∉ h'.*1 -> reader_ok r (WCopy s env (length env)) ((s, env) :: h') p ->
  reader_ok (store_seq r (slot_of r s) s) (WState s env) ((s, env) :: h') p.
Proof.
  intros Hwf Hf. set (r' := store_seq r (slot_of r s) s). pose proof (ring_slot_lt r s Hwf) as Hi.
  pose proof (wf_seq r Hwf) as Hlq.
  assert (Hseq : forall i, seq_at r' i = if decide (slot_of r s = i) then s else seq_at r i)
    by (intros; apply seq_store_seq; lia).
  assert (Hmono : forall x, x ∈ h'.*1 -> x ∈ s :: h'.*1) by (intros; by apply list_elem_of_further).
  assert (Hne : forall x, x ∈ h'.*1 -> x ≠ s) by (intros x Hx ->; done).
  assert (Hkeep : forall x, x ∈ h'.*1 -> seq_at r' (slot_of r x) = x ->
    seq_at r (slot_of r x) = x /\ slot_of r s ≠ slot_of r x).
  { intros x Hx. rewrite Hseq. destruct (decide _) as [E|E]; [| by split]. intros ->. by destruct (Hne x Hx). }
  destruct p as [x | x | x out | x out | x out | x hit out]; cbn [reader_ok stored tail fmap list_fmap map fst];
    change (slot_of r' x) with (slot_of r x); auto.
  - intros [H1 H2]. unfold published. rewrite Hseq. change (slot_of r') with (slot_of r).
    destruct (decide _) as [E|E]; [split; [by left | done] |]. split; [by apply Hmono | done].
  - intros (H1 & H2 & H3 & H4). split_all; auto. intros E. destruct (Hkeep x H1 E) as [E1 E2].
    right. destruct (H4 E1) as [H|H]; [done | exact H].
  - intros (H1 & H2 & H3 & H4). split_all; auto. intros E. destruct (Hkeep x H1 E) as [E1 E2].
    right. destruct (H4 E1) as [H|H]; [done | exact H].
  - intros [H1 H2]. split; [by apply Hmono |]. intros E. by apply H2, (Hkeep x H1 E).
Qed.

Lemma wstep_inv s s' : wstep s s' -> sys_inv s -> sys_inv s'.
Proof.
  intros Hst [Hwf Hw Hp Hr Hrd]. destruct Hst as [r rp h env Hl | r rp h s env Hl Hf | r rp h s env j b Hb | r rp h s env | r rp h s env];
    cbn [ring wpc rpc hist] in *.
  - by constructor.
  - assert (Hi := ring_slot_lt r s Hwf). pose proof (wf_state r Hwf) as Hls.
    constructor; cbn [ring wpc rpc hist].
    + by apply store_state_wf.
    + split; [by exists h |]. split; [done |]. change (slot_of (store_state r _ 1) s) with (slot_of r s).
      rewrite state_store_state by lia. rewrite decide_True by done. split; [done |]. split; [lia | done].
    + intros i. rewrite state_store_state by lia. destruct (decide _); [done |]. apply Hp.
    + intros i Hlt Hs Hc. apply list_elem_of_further. apply Hr; [done | exact Hs | tauto].
    + revert Hrd. apply reader_ok_ext; try done.
      * intros x Hx. by apply list_elem_of_further.
      * intros i _. split; [done | by left].
  - destruct Hw as ((h' & -> & Hf) & Hl & Hs1 & Hj & Ht). pose proof (ring_slot_lt r s Hwf) as Hi.
    pose proof (wf_data r Hwf) as Hld. pose proof (lookup_lt_Some _ _ _ Hb) as Hjl.
    constructor; cbn [ring wpc rpc hist].
    + by apply store_byte_wf.
    + split; [by exists h' |]. split; [done |]. split; [done |]. split; [lia |].
      change (slot_of (store_byte r _ j b) s) with (slot_of r s).
      rewrite data_store_byte by lia. rewrite decide_True by done.
      assert (Hlen : (j < length (data_at r (slot_of r s)))%nat) by (rewrite data_at_length by done; lia).
      erewrite (take_S_r env) by done. erewrite take_S_r by (apply list_lookup_insert_eq; done).
      by rewrite take_insert_ge, Ht by lia.
    + done.
    + intros i Hlt Hst Hc. change (seq_at (store_byte r (slot_of r s) j b) i) with (seq_at r i) in *.
      rewrite data_store_byte by lia. rewrite decide_False by (exact Hc). by apply Hr.
    + revert Hrd. apply reader_ok_ext; try done. intros i Hlt. split; [done |].
      rewrite data_store_byte by lia. destruct (decide (slot_of r s = i)) as [E|E]; [by right | by left].
  - destruct Hw as ((h' & -> & Hf) & Hl & Hs1 & _ & Ht). pose proof (ring_slot_lt r s Hwf) as Hi.
    pose proof (wf_seq r Hwf) as Hlq.
    assert (Hd : data_at r (slot_of r s) = env).
    { rewrite !take_ge in Ht; [done | done | rewrite data_at_length by done; lia]. }
    set (r' := store_seq r (slot_of r s) s).
    assert (Hseq : forall i, seq_at r' i = if decide (slot_of r s = i) then s else seq_at r i)
      by (intros; apply seq_store_seq; lia).
    constructor; cbn [ring wpc rpc hist].
    + by apply store_seq_wf.
    + cbn [writer_ok]. change (slot_of r' s) with (slot_of r s). rewrite Hseq, decide_True by done. split; [by left | done].
    + intros i Hst. change (state_at r' i) with (state_at r i) in Hst. destruct (Hp i Hst) as [G1 G2].
      unfold published. rewrite Hseq. destruct (decide _) as [<-|]; [by rewrite Hs1 in Hst |].
      split; [by apply list_elem_of_further | done].
    + intros i Hlt. unfold published. rewrite Hseq. change (data_at r' i) with (data_at r i).
      change (slot_of r') with (slot_of r). destruct (decide (slot_of r s = i)) as [<-|Hne].
      * intros _ _. rewrite Hd. by left.
      * intros [[Hs|Hs]%elem_of_cons Hsl] _; [destruct Hne; change (seq_at r i = s) in Hs; rewrite <- Hs; exact Hsl |].
        apply Hr; [done | by split | exact Hne].
    + by apply reader_ok_store.
  - destruct Hw as (Hin & Hs1 & Hsq). pose proof (ring_slot_lt r s Hwf) as Hi. pose proof (wf_state r Hwf) as Hls.
    constructor; cbn [ring wpc rpc hist].
    + by apply store_state_wf.
    + done.
    + intros i. rewrite state_store_state by lia. destruct (decide _) as [<-|]; [| apply Hp].
      intros _. split; change (seq_at (store_state r (slot_of r s) 2) (slot_of r s)) with (seq_at r (slot_of r s));
        rewrite Hsq; [| done]. by apply (list_elem_of_fmap_2 fst) in Hin.
    + intros i Hlt Hst _. apply Hr; [done | exact Hst | tauto].
    + revert Hrd. apply reader_ok_ext; try done. intros i _. split; [done | by left].
Qed.

Lemma rstep_inv s s' : rstep s s' -> sys_inv s -> sys_inv s'.
Proof.
  intros Hst [Hwf Hw Hp Hr Hrd].
  assert (Hnc : forall i w h r, writer_ok r w h -> state_at r i = 2 -> ~ copying r w i).
  { intros i w h r Hwr H2 Hc. destruct w as [| x e j | x e]; [done | | done]. cbn in Hc. subst i.
    destruct Hwr as (_ & _ & H1 & _). congruence. }
  destruct Hst; cbn [ring wpc rpc hist] in *; constructor; cbn [ring wpc rpc hist]; try done; cbn [reader_ok] in *.
  - by apply Hp.
  - destruct Hrd as [H1 H2]. rewrite H in H1. split_all; [done | cbn; lia | done |]. intros _. by right.
  - destruct Hrd as (H1 & H2 & H3 & H4). split_all; [done | rewrite length_app; cbn; lia | done |].
    intros E. destruct (H4 E) as [G|G]; [by left | right].
    rewrite length_app, Nat.add_1_r. by rewrite (take_S_r _ _ _ H), <- G.
  - destruct Hrd as (H1 & H2 & H3 & H4). split_all; auto.
  - destruct Hrd as (H1 & H2 & H3 & H4). split; [done |]. intros E.
    destruct (H4 E) as [G|G]; [by destruct (Hnc _ _ _ _ Hw H) |].
    rewrite take_ge in G by (rewrite data_at_length by (done || by apply ring_slot_lt); lia).
    rewrite G. rewrite <- E at 1. apply Hr; [by apply ring_slot_lt | by apply Hp | by apply (Hnc _ w h)].
  - destruct Hrd as [H1 H2]. intros Hb%bool_decide_eq_true. by apply H2.
Qed.

Lemma data_replicate n len i : (i < n)%nat -> nth i (replicate n (replicate len 0)) [] = replicate len 0.
Proof. intros. rewrite nth_lookup, lookup_replicate_2; done. Qed.

Lemma new_ring_wf slots env_len r : new_ring slots env_len = Some r -> ring_wf r /\ slots <= slots_ r.
Proof.
  unfold new_ring. destruct (pow2_at_least slots) as [n|] eqn:E; [| done]. cbn [mbind option_bind]. intros [= <-].
  destruct (pow2_loop_spec _ 1 _ _ ltac:(by exists 0) E) as (H1 & H2 & _). split; [| done].
  constructor; cbn; rewrite ?length_replicate; try done.
  apply Forall_replicate. by rewrite length_replicate.
Qed.

Lemma new_sys_inv slots env_len r seq :
  new_ring slots env_len = Some r -> sys_inv (mkSys r WIdle (RState seq) []).
Proof.
  intros H. pose proof (new_ring_wf _ _ _ H) as [Hwf _]. unfold new_ring in H.
  destruct (pow2_at_least slots); [| done]. injection H as <-.
  assert (Hz : forall n i, nth i (replicate n 0) 0 = 0).
  { intros n i. destruct (Nat.lt_ge_cases i n); [by rewrite nth_lookup, lookup_replicate_2 |].
    by rewrite nth_overflow by (by rewrite length_replicate). }
  constructor; cbn [ring wpc rpc hist]; try done.
  - intros i Hi. unfold state_at in Hi. cbn in Hi. rewrite Hz in Hi. done.
  - intros i _ [Hs _] _. by apply not_elem_of_nil in Hs.
Qed.

Lemma sys_steps_inv s s' : rtc sys_step s s' -> sys_inv s -> sys_inv s'.
Proof.
  induction 1 as [|s1 s2 s3 Hst _ IH]; [done |]. intros H. apply IH.
  destruct Hst; [by eapply wstep_inv | by eapply rstep_inv].
Qed.

(** ** The calls run alone *)

Lemma land_mod k s : 0 <= k -> Z.land s (2 ^ k - 1) = s mod 2 ^ k.
Proof. intros. replace (2 ^ k - 1) with (Z.ones k) by (rewrite Z.ones_equiv; lia). by apply Z.land_ones. Qed.

Lemma copy_in_frame r i j bytes :
  slots_ (copy_in r i j bytes) = slots_ r /\ env_len_ (copy_in r i j bytes) = env_len_ r /\
  state_ (copy_in r i j bytes) = state_ r /\ seq_ (copy_in r i j bytes) = seq_ r.
Proof. revert r j. induction bytes as [|b bytes IH]; intros r j; [done |]. apply (IH (store_byte r i j b)). Qed.

Lemma copy_in_data r i j bytes k :
  ring_wf r -> (i < Z.to_nat (slots_ r))%nat -> (j + length bytes = env_len_ r)%nat ->
  ring_wf (copy_in r i j bytes) /\
  data_at (copy_in r i j bytes) k = if decide (i = k) then take j (data_at r i) ++ bytes else data_at r k.
Proof.
  revert r j. induction bytes as [|b bytes IH]; intros r j Hwf Hi Hl; cbn [copy_in length] in *.
  - split; [done |]. destruct (decide (i = k)) as [<-|]; [| done].
    rewrite app_nil_r, take_ge; [done |]. rewrite data_at_length by done. lia.
  - destruct (IH (store_byte r i j b) (S j)) as [H1 H2].
    + by apply store_byte_wf.
    + exact Hi.
    + cbn. lia.
    + split; [done |]. rewrite H2. pose proof (wf_data r Hwf). rewrite !data_store_byte by lia.
      destruct (decide (i = k)) as [<-|]; [| done]. rewrite decide_True by done.
      assert (Hj : (j < length (data_at r i))%nat) by (rewrite data_at_length by done; lia).
      rewrite (take_S_r _ j b) by (by apply list_lookup_insert_eq).
      by rewrite take_insert_ge, <- app_assoc by lia.
Qed.

Lemma put_spec r s env :
  ring_wf r -> length env = env_len_ r ->
  ring_wf (put r s env) /\ slots_ (put r s env) = slots_ r /\ env_len_ (put r s env) = env_len_ r /\
  forall i, (state_at (put r s env) i, seq_at (put r s env) i, data_at (put r s env) i) =
    if decide (slot_of r s = i) then (2, s, env) else (state_at r i, seq_at r i, data_at r i).
Proof.
  intros Hwf Hl. unfold put. rewrite decide_True by done. cbn zeta.
  pose proof (ring_slot_lt r s Hwf) as Hi. pose proof Hwf as [_ H1 H2 H3 _].
  set (i := slot_of r s) in *. set (r1 := store_state r i 1).
  assert (Hwf1 : ring_wf r1) by (by apply store_state_wf).
  destruct (copy_in_frame r1 i 0 env) as (F1 & F2 & F3 & F4).
  destruct (copy_in_data r1 i 0 env i Hwf1 Hi Hl) as [Hwf2 _]. set (r2 := copy_in r1 i 0 env) in *.
  split; [by apply store_state_wf, store_seq_wf |]. split; [exact F1 |]. split; [exact F2 |]. intros k.
  destruct (copy_in_data r1 i 0 env k Hwf1 Hi Hl) as [_ Hd]. fold r2 in Hd.
  rewrite state_store_state by (cbn [store_seq state_]; rewrite F3; cbn; rewrite length_insert; lia).
  change (seq_at (store_state (store_seq r2 i s) i 2) k) with (seq_at (store_seq r2 i s) k).
  rewrite seq_store_seq by (rewrite F4; cbn; lia).
  change (data_at (store_state (store_seq r2 i s) i 2) k) with (data_at r2 k). rewrite Hd.
  change (state_at (store_seq r2 i s) k) with (nth k (state_ r2) 0). rewrite F3.
  unfold seq_at at 1. rewrite F4. destruct (decide (i = k)) as [->|Hne]; [done |].
  change (nth k (state_ r1) 0) with (state_at (store_state r i 1) k).
  rewrite state_store_state by lia. rewrite decide_False by done. done.
Qed.

Lemma get_put r s env q :
  ring_wf r -> length env = env_len_ r ->
  get (put r s env) q =
    if decide (slot_of r s = slot_of r q) then (if decide (s = q) then Some env else None) else get r q.
Proof.
  intros Hwf Hl. destruct (put_spec r s env Hwf Hl) as (_ & Es & _ & Hp). unfold get. cbn zeta.
  assert (Eq : slot_of (put r s env) q = slot_of r q) by (unfold slot_of; by rewrite Es). rewrite Eq.
  specialize (Hp (slot_of r q)). destruct (decide (slot_of r s = slot_of r q)) as [E|E].
  - injection Hp as -> -> ->. cbn [Z.eqb Pos.eqb andb]. destruct (Z.eqb_spec s q), (decide (s = q)); done.
  - by injection Hp as -> -> ->.
Qed.

(** Consecutive envelopes from a wire sequence number on. *)
Fixpoint put_all (r : Ring) (seq : Z) (envs : list (list Z)) : Ring :=
  match envs with [] => r | e :: envs => put_all (put r seq e) (u32 (seq + 1)) envs end.

Lemma slot_u32 r s : ring_wf r -> slots_ r <= 2 ^ 32 -> 0 <= s ->
  slot_of r (u32 s) = Z.to_nat (s mod slots_ r) /\ 0 < slots_ r.
Proof.
  intros [(k & Hk & E) _ _ _ _] Hs H0. unfold slot_of. rewrite E in *. rewrite land_mod by done.
  assert (Hk32 : k <= 32) by (apply (Z.pow_le_mono_r_iff 2); lia). split; [| lia]. f_equal. unfold wrap.
  apply Z.mod_mod_divide. exists (2 ^ (32 - k)). rewrite <- Z.pow_add_r by lia. f_equal. lia.
Qed.

(** Two sequences less than the ring's size apart have different slots. *)
Lemma slots_differ r s a b :
  ring_wf r -> slots_ r <= 2 ^ 32 -> 0 <= s -> 0 <= a < b -> b - a < slots_ r ->
  slot_of r (u32 (s + a)) ≠ slot_of r (u32 (s + b)).
Proof.
  intros Hwf Hs H0 Hab Hd. destruct (slot_u32 r (s + a) Hwf Hs ltac:(lia)) as [-> Hp].
  destruct (slot_u32 r (s + b) Hwf Hs ltac:(lia)) as [-> _]. intros E.
  pose proof (Z.mod_pos_bound (s + a) (slots_ r) Hp). pose proof (Z.mod_pos_bound (s + b) (slots_ r) Hp).
  apply Z2Nat.inj in E; [| lia | lia].
  pose proof (Z.div_mod (s + a) (slots_ r) ltac:(lia)). pose proof (Z.div_mod (s + b) (slots_ r) ltac:(lia)).
  set (p := (s + a) / slots_ r) in *. set (q := (s + b) / slots_ r) in *.
  assert (Hq : b - a = slots_ r * (q - p)) by lia. destruct (Z.le_gt_cases (q - p) 0); nia.
Qed.

(** A miss stays a miss until its sequence is put again. *)
Lemma miss_stable r s envs q :
  ring_wf r -> Forall (fun e => length e = env_len_ r) envs -> get r q = None ->
  (forall j, (j < length envs)%nat -> u32 (s + Z.of_nat j) ≠ q) -> in_width 32 s ->
  get (put_all r s envs) q = None.
Proof.
  intros Hwf He. revert r s Hwf He. induction envs as [|e envs IH]; intros r s Hwf He Hg Hne Hs; [done |].
  apply Forall_cons in He as [Hl He]. destruct (put_spec r s e Hwf Hl) as (H1 & _ & H3 & _). cbn [put_all].
  apply IH; [done | by rewrite H3 | | | width].
  - rewrite get_put by done. pose proof (Hne 0%nat ltac:(cbn; lia)) as H0.
    rewrite Z.add_0_r, wrap_small in H0 by done. destruct (decide _); [by rewrite decide_False | done].
  - intros j Hj. pose proof (Hne (S j) ltac:(cbn; lia)) as H0. intros E. apply H0. rewrite <- E. mlia.
Qed.

Lemma hit_stable r s envs q :
  ring_wf r -> Forall (fun e => length e = env_len_ r) envs -> in_width 32 s ->
  (forall j, (j < length envs)%nat -> slot_of r (u32 (s + Z.of_nat j)) ≠ slot_of r q) ->
  get (put_all r s envs) q = get r q.
Proof.
  intros Hwf He. revert r s Hwf He. induction envs as [|e envs IH]; intros r s Hwf He Hs Hne; [done |].
  apply Forall_cons in He as [Hl He]. destruct (put_spec r s e Hwf Hl) as (H1 & H2 & H3 & _). cbn [put_all].
  assert (Hsl : forall x, slot_of (put r s e) x = slot_of r x) by (intros; unfold slot_of; by rewrite H2).
  rewrite IH; [| done | by rewrite H3 | width |].
  - rewrite get_put by done. rewrite decide_False; [done |].
    pose proof (Hne 0%nat ltac:(cbn; lia)) as H0. by rewrite Z.add_0_r, wrap_small in H0.
  - intros j Hj. rewrite !Hsl. pose proof (Hne (S j) ltac:(cbn; lia)) as H0. intros E. apply H0. rewrite <- E.
    f_equal. mlia.
Qed.

Lemma overwritten r s envs q j :
  ring_wf r -> Forall (fun e => length e = env_len_ r) envs -> in_width 32 s ->
  (forall i, (i < length envs)%nat -> u32 (s + Z.of_nat i) ≠ q) ->
  (j < length envs)%nat -> slot_of r (u32 (s + Z.of_nat j)) = slot_of r q ->
  get (put_all r s envs) q = None.
Proof.
  intros Hwf He. revert r s j Hwf He. induction envs as [|e envs IH]; intros r s j Hwf He Hs Hne Hj Hsl;
    [cbn in Hj; lia |].
  apply Forall_cons in He as [Hl He]. destruct (put_spec r s e Hwf Hl) as (H1 & H2 & H3 & _). cbn [put_all].
  assert (Hsx : forall x, slot_of (put r s e) x = slot_of r x) by (intros; unfold slot_of; by rewrite H2).
  assert (Hu : forall i, u32 (u32 (s + 1) + Z.of_nat i) = u32 (s + Z.of_nat (S i))) by (intros; mlia).
  assert (Hne' : forall i, (i < length envs)%nat -> u32 (u32 (s + 1) + Z.of_nat i) ≠ q).
  { intros i Hi. rewrite Hu. apply Hne. cbn. lia. }
  destruct j as [|j].
  - rewrite Z.add_0_r, wrap_small in Hsl by done. pose proof (Hne 0%nat ltac:(cbn; lia)) as H0.
    rewrite Z.add_0_r, wrap_small in H0 by done.
    apply miss_stable; [done | by rewrite H3 | | done | width].
    rewrite get_put by done. by rewrite decide_True, decide_False.
  - apply (IH _ _ j); [done | by rewrite H3 | width | done | cbn in Hj; lia |]. by rewrite Hu, !Hsx.
Qed.

Lemma get_put_all r s envs k :
  ring_wf r -> slots_ r <= 2 ^ 32 -> Forall (fun e => length e = env_len_ r) envs -> in_width 32 s ->
  Z.of_nat (length envs) <= 2 ^ 32 -> (k < length envs)%nat ->
  get (put_all r s envs) (u32 (s + Z.of_nat k)) =
    if Z.of_nat (length envs - k) <=? slots_ r then Some (nth k envs []) else None.
Proof.
  intros Hwf Hsl He. revert r s k Hwf Hsl He.
  induction envs as [|e envs IH]; intros r s k Hwf Hsl He Hs Hn Hk; [cbn in Hk; lia |].
  apply Forall_cons in He as [Hl He]. destruct (put_spec r s e Hwf Hl) as (H1 & H2 & H3 & _).
  cbn [put_all length] in *.
  assert (Hsx : forall x, slot_of (put r s e) x = slot_of r x) by (intros; unfold slot_of; by rewrite H2).
  assert (Hu : forall j, u32 (u32 (s + 1) + Z.of_nat j) = u32 (s + Z.of_nat (S j))) by (intros; mlia).
  destruct k as [|k].
  - replace (u32 (s + Z.of_nat 0)) with s by (rewrite Z.add_0_r; symmetry; by apply wrap_small).
    destruct (Z.leb_spec (Z.of_nat (S (length envs) - 0)) (slots_ r)).
    + rewrite hit_stable; [| done | by rewrite H3 | width |].
      * rewrite get_put by done. by rewrite !decide_True.
      * intros j Hj. rewrite Hu, !Hsx. pose proof (slots_differ r s 0 (Z.of_nat (S j)) Hwf Hsl) as Hd.
        rewrite Z.add_0_r, (wrap_small 32 s Hs) in Hd. intros E. apply Hd; [apply Hs | lia | lia | by symmetry].
    + destruct (slot_u32 r s Hwf Hsl ltac:(apply Hs)) as [Eslot Hpos]. rewrite (wrap_small 32 s Hs) in Eslot.
      apply (overwritten _ _ _ _ (Z.to_nat (slots_ r) - 1)); [done | by rewrite H3 | width | | lia |].
      * intros i Hi. rewrite Hu. intros Heq. clear -Heq Hi Hn Hs. mlia.
      * rewrite Hu, !Hsx. rewrite Eslot. destruct (slot_u32 r (s + Z.of_nat (S (Z.to_nat (slots_ r) - 1))) Hwf Hsl) as [-> _].
        -- destruct Hs. lia.
        -- f_equal. replace (s + Z.of_nat (S (Z.to_nat (slots_ r) - 1))) with (s + 1 * slots_ r) by lia.
           apply Z.mod_add. lia.
  - rewrite <- Hu, (IH (put r s e)); [| done | by rewrite H2 | by rewrite H3 | width | lia | lia].
    by rewrite H2.
Qed.

(** Alone, a thread's steps compute the call. *)
Lemma put_alone r rp h s env :
  ring_wf r -> length env = env_len_ r -> s ∉ h.*1 ->
  rtc wstep (mkSys r WIdle rp h) (mkSys (put r s env) WIdle rp ((s, env) :: h)).
Proof.
  intros Hwf Hl Hf. eapply rtc_l; [by apply w_begin |]. unfold put. rewrite decide_True by done. cbn zeta.
  set (i := slot_of r s). set (r1 := store_state r i 1).
  assert (Hc : forall n j q, slots_ q = slots_ r -> (n + j = length env)%nat ->
    rtc wstep (mkSys q (WCopy s env j) rp ((s, env) :: h))
      (mkSys (store_state (store_seq (copy_in q i j (drop j env)) i s) i 2) WIdle rp ((s, env) :: h))); [| by apply (Hc (length env) 0%nat)].
  induction n as [|n IH]; intros j q Hq Hn.
  - rewrite drop_ge by lia. cbn [copy_in]. replace j with (length env) by lia.
    assert (Ei : i = slot_of q s) by (unfold i, slot_of; by rewrite Hq). rewrite Ei.
    eapply rtc_l; [apply w_seq |]. eapply rtc_l; [| apply rtc_refl].
    exact (w_state (store_seq q (slot_of q s) s) rp ((s, env) :: h) s env).
  - destruct (lookup_lt_is_Some_2 env j) as [b Hb]; [lia |]. rewrite (drop_S _ _ _ Hb). cbn [copy_in].
    assert (Ei : i = slot_of q s) by (unfold i, slot_of; by rewrite Hq).
    eapply rtc_l; [by apply w_copy |]. rewrite <- Ei. apply (IH (S j)); [done | lia].
Qed.

Lemma get_alone r w h s :
  ring_wf r -> exists out, rtc rstep (mkSys r w (RState s) h) (mkSys r w (RDone s (bool_decide (is_Some (get r s))) out) h) /\
    (forall env, get r s = Some env -> out = env).
Proof.
  intros Hwf. unfold get. cbn zeta. set (i := slot_of r s).
  destruct (Z.eqb_spec (state_at r i) 2) as [E1|E1]; cbn [andb].
  2: { exists []. split; [| done]. eapply rtc_l; [by apply r_state_miss | apply rtc_refl]. }
  destruct (Z.eqb_spec (seq_at r i) s) as [E2|E2].
  2: { exists []. split; [| done]. eapply rtc_l; [by apply r_state_ok |].
       eapply rtc_l; [by apply r_seq_miss | apply rtc_refl]. }
  exists (data_at r i). split; [| by intros ? [= ->]].
  eapply rtc_l; [by apply r_state_ok |]. eapply rtc_l; [by apply r_seq_ok |].
  pose proof (data_at_length r i Hwf (ring_slot_lt r s Hwf)) as Hl.
  assert (Hc : forall n m, (n + m = env_len_ r)%nat ->
    rtc rstep (mkSys r w (RCopy s (take m (data_at r i))) h) (mkSys r w (RCopy s (data_at r i)) h)).
  { induction n as [|n IH]; intros m Hm; [rewrite take_ge by lia; apply rtc_refl |].
    destruct (lookup_lt_is_Some_2 (data_at r i) m) as [b Hb]; [lia |].
    assert (Hm' : length (take m (data_at r i)) = m) by (rewrite length_take; lia).
    eapply rtc_l; [apply (r_copy _ _ _ _ _ b); rewrite Hm'; [exact Hb | lia] |].
    rewrite <- (take_S_r _ _ _ Hb). apply IH. lia. }
  etransitivity; [apply (Hc (env_len_ r) 0%nat); lia |].
  eapply rtc_l; [by apply r_copied |]. eapply rtc_l; [by apply r_state2_ok |].
  rewrite bool_decide_true by eauto. rewrite <- (bool_decide_true (seq_at r i = s) E2).
  eapply rtc_l; [apply r_seq2 | apply rtc_refl].
Qed.

(** ** The properties *)

(** C31.  No torn read.  In every interleaving of the hot thread's puts (each sequence put
    at most once) with a reader's gets, over a fresh ring of any size, a get that reports a
    hit has copied out exactly the envelope that was put under that sequence. *)
Theorem retx_no_torn_read (slots : Z) (env_len : nat) (r : Ring) (seq0 : Z) (s : Sys) (q : Z) (out : list Z) :
  new_ring slots env_len = Some r ->
  rtc sys_step (mkSys r WIdle (RState seq0) []) s ->
  rpc s = RDone q true out -> (q, out) ∈ hist s.
Proof.
  intros Hr Hst Hp. pose proof (sys_steps_inv _ _ Hst (new_sys_inv _ _ _ seq0 Hr)) as Hi.
  pose proof (iv_reader _ Hi) as H. rewrite Hp in H. by apply H.
Qed.

(** The ring is as large as asked, up to the next power of two, and holds the last
    [slots_] envelopes: after any run of puts of consecutive sequences, a get of one of
    the last [slots_] returns its envelope and a get of an older one misses; and both
    calls are what the threads' steps compute when they run alone. *)
Theorem retx_holds_last (slots : Z) (env_len : nat) (r : Ring) (init : Z) (envs : list (list Z)) (k : nat) :
  new_ring slots env_len = Some r -> 0 <= slots <= 2 ^ 32 -> in_width 32 init ->
  Forall (fun e => length e = env_len) envs -> Z.of_nat (length envs) <= 2 ^ 32 -> (k < length envs)%nat ->
  let q := u32 (init + Z.of_nat k) in
  let r' := put_all r init envs in
  slots <= slots_ r < 2 * Z.max 1 slots /\
  get r' q = (if Z.of_nat (length envs - k) <=? slots_ r then Some (nth k envs []) else None) /\
  exists out, rtc rstep (mkSys r' WIdle (RState q) [])
      (mkSys r' WIdle (RDone q (bool_decide (is_Some (get r' q))) out) []) /\
    (forall env, get r' q = Some env -> out = env).
Proof.
  intros Hr Hs Hi He Hn Hk q r'. pose proof (new_ring_wf _ _ _ Hr) as [Hwf Hle].
  assert (Hsz : slots_ r < 2 * Z.max 1 slots /\ slots_ r <= 2 ^ 32 /\ env_len_ r = env_len).
  { unfold new_ring in Hr. destruct (pow2_at_least slots) as [n|] eqn:E; [| done]. injection Hr as <-.
    destruct (pow2_loop_spec _ 1 _ _ ltac:(by exists 0) E) as ((m & Hm & En) & _ & H3 & H4). cbn [slots_ env_len_].
    split_all; [| | done].
    - destruct (Z.lt_ge_cases 1 slots); [specialize (H3 ltac:(done)); lia | rewrite H4 by lia; lia].
    - destruct (Z.lt_ge_cases 1 slots); [specialize (H3 ltac:(done)) | rewrite H4 by lia; lia].
      assert (m < 33) by (apply (Z.pow_lt_mono_r_iff 2); lia).
      rewrite En. apply Z.pow_le_mono_r; lia. }
  destruct Hsz as (H1 & H2 & H3). split; [lia |].
  assert (He' : Forall (fun e => length e = env_len_ r) envs) by (by rewrite H3).
  split; [by apply get_put_all |]. apply get_alone. subst r'. clear -Hwf He'. revert r init Hwf He'.
  induction envs as [|e envs IH]; intros r init Hwf He; [done |]. apply Forall_cons in He as [Hl He].
  destruct (put_spec r init e Hwf Hl) as (G1 & _ & G3 & _). apply IH; [done | by rewrite G3].
Qed.

(** Two slots, two bytes: a put, then a get. *)
Example retx_no_torn_read_witness :
  exists r s, new_ring 2 2 = Some r /\ rpc s = RDone 1 true [7; 8] /\ (1, [7; 8]) ∈ hist s.
Proof.
  destruct (new_ring 2 2) as [r|] eqn:Er; [| vm_compute in Er; discriminate Er].
  pose proof (new_ring_wf _ _ _ Er) as [Hwf _].
  assert (Hl : env_len_ r = 2%nat) by (vm_compute in Er; injection Er as <-; reflexivity).
  pose proof (put_alone r (RState 1) [] 1 [7; 8] Hwf (eq_sym Hl) ltac:(apply not_elem_of_nil)) as H1.
  destruct (put_spec r 1 [7; 8] Hwf (eq_sym Hl)) as (Hwf' & _).
  destruct (get_alone (put r 1 [7; 8]) WIdle [(1, [7; 8])] 1 Hwf') as (out & H2 & H3).
  assert (Eg : get (put r 1 [7; 8]) 1 = Some [7; 8]) by (vm_compute in Er; injection Er as <-; vm_compute; reflexivity).
  rewrite Eg in H2. specialize (H3 _ Eg). subst out. rewrite bool_decide_true in H2 by eauto.
  exists r, (mkSys (put r 1 [7; 8]) WIdle (RDone 1 true [7; 8]) [(1, [7; 8])]).
  split; [reflexivity |]. split; [reflexivity |].
  refine (retx_no_torn_read 2 2 r 1 (mkSys (put r 1 [7; 8]) WIdle (RDone 1 true [7; 8]) [(1, [7; 8])]) 1 [7; 8] Er _ eq_refl).
  etransitivity.
  - eapply (rtc_congruence (fun x => x)); [| exact H1]. intros x y Hxy. by left.
  - eapply (rtc_congruence (fun x => x)); [| exact H2]. intros x y Hxy. by right.
Defined.

Example retx_holds_last_witness :
  exists r, new_ring 2 1 = Some r /\
    get (put_all r 4294967295 [[1]; [2]; [3]]) 4294967295 = None /\
    get (put_all r 4294967295 [[1]; [2]; [3]]) 1 = Some [3].
Proof.
  destruct (new_ring 2 1) as [r|] eqn:Er; [| vm_compute in Er; discriminate Er]. exists r. split; [reflexivity |].
  assert (He : Forall (fun e : list Z => length e = 1%nat) [[1]; [2]; [3]]) by (repeat constructor).
  assert (Hi : in_width 32 4294967295) by decided.
  assert (Hn : slots_ r = 2) by (vm_compute in Er; injection Er as <-; reflexivity).
  pose proof (retx_holds_last 2 1 r 4294967295 [[1]; [2]; [3]] 0 Er ltac:(lia) Hi He ltac:(cbn; lia) ltac:(cbn; lia))
    as (_ & H0 & _).
  pose proof (retx_holds_last 2 1 r 4294967295 [[1]; [2]; [3]] 2 Er ltac:(lia) Hi He ltac:(cbn; lia) ltac:(cbn; lia))
    as (_ & H2 & _).
  rewrite Hn in H0, H2. split; [exact H0 | exact H2].
Defined.
