(* ===== verification/NackTracker.v ===== *)
(** * NackTracker: which lost symbols the ground station asks for again

    The tracker keeps an entry per missing base-layer sequence number, asks for it once it
    has been missing for the settle time, repeats the request a bounded number of times,
    and gives up at the deadline.  [poll] is the whole step: resolve, admit, collect what is
    due, apply the stop rule, and pack the request into at most four runs of 32. *)
From S2P Require Import Prelude Bytes Elim SwConfig SwDecoder RcProto.
Local Open Scope Z_scope.
Local Open Scope mabur_scope.

(** ** Data *)

Record NackCfg := mkNackCfg {
  enable : bool; lookback : Z; repeat_ms : Z; max_tries : Z; min_lead_ms : Z;
  settle_min_ms : Z; settle_max_ms : Z; settle_seed_ms : Z;
  settle_window_ms : Z; settle_min_samples : Z;
}.
Definition default_cfg : NackCfg := mkNackCfg false 256 16 2 12 4 24 12 10000 50.

Record NackTailView := mkTail { count : Z; max_idx : Z; seq_at_max : Z; last_progress_ms : Z }.

(** What the tracker reads of the decoder and of the ladder during one poll. *)
Record NackInputs := mkInputs {
  missing : list Z;
  in_state : Z -> SourceState;
  in_tail : option NackTailView;
  util : double;
  down_util : double;
  gap_timeout_ms : Z;
}.

(** The u64 counters of [NackStats], by name. *)
Inductive Stat :=
| requests | repeats | syms_requested | tail_requests | filled | late_fill | wasted
| dropped_deadline | suppressed | lead_skipped.
#[export] Instance Stat_eq_dec : EqDecision Stat.
Proof. solve_decision. Defined.

Definition kMaxFillSamples : nat := 4096.
Record NackWindow := mkWindow { fill_ms : list Z; late_ms_max : Z; w_filled : Z }.
Definition no_window : NackWindow := mkWindow [] 0 0.

Record Entry := mkEntry {
  first_missing_ms : Z; first_sent_ms : Z; last_sent_ms : Z; tries : Z;
  from_tail : bool; dead : bool; deadline_counted : bool;
}.
Definition no_entry : Entry := mkEntry 0 0 0 0 false false false.

Record NackTracker := mkTracker {
  cfg_ : NackCfg;
  entries_ : gmap Z Entry;
  late_ : list (Z * Z);
  settle_ms_ : Z;
  counter_ : Z;
  stats_ : Stat -> Z;
  win_ : NackWindow;
}.

Definition new_tracker (cfg : NackCfg) : NackTracker :=
  mkTracker cfg ∅ [] (settle_seed_ms cfg) 0 (fun _ => 0) no_window.

(** *** Assignments to one member *)

Definition set_entries (t : NackTracker) (m : gmap Z Entry) : NackTracker :=
  mkTracker (cfg_ t) m (late_ t) (settle_ms_ t) (counter_ t) (stats_ t) (win_ t).
Definition set_win (t : NackTracker) (w : NackWindow) : NackTracker :=
  mkTracker (cfg_ t) (entries_ t) (late_ t) (settle_ms_ t) (counter_ t) (stats_ t) w.
Definition set_settle (t : NackTracker) (l : list (Z * Z)) (s : Z) : NackTracker :=
  mkTracker (cfg_ t) (entries_ t) l s (counter_ t) (stats_ t) (win_ t).
Definition set_counter (t : NackTracker) (c : Z) : NackTracker :=
  mkTracker (cfg_ t) (entries_ t) (late_ t) (settle_ms_ t) c (stats_ t) (win_ t).
Definition count_ (t : NackTracker) (k : Stat) : NackTracker :=
  mkTracker (cfg_ t) (entries_ t) (late_ t) (settle_ms_ t) (counter_ t)
    (fun x => if decide (x = k) then u64 (stats_ t x + 1) else stats_ t x) (win_ t).
Definition kill (e : Entry) : Entry :=
  mkEntry (first_missing_ms e) (first_sent_ms e) (last_sent_ms e) (tries e) (from_tail e)
    true (deadline_counted e).
Definition counted_dead (e : Entry) : Entry :=
  mkEntry (first_missing_ms e) (first_sent_ms e) (last_sent_ms e) (tries e) (from_tail e) true true.

(** [NackCfg] is all [int]s: [static_cast<uint64_t>] of one. *)
Definition ms64 (z : Z) : Z := u64 z.

(** ** Small operations *)

Definition clear (t : NackTracker) : NackTracker := set_entries t ∅.
Definition restart_counter (t : NackTracker) : NackTracker := set_counter t 0.

Definition live (cfg : NackCfg) (e : Entry) : bool := negb (dead e) && (tries e <? max_tries cfg).
Definition outstanding (t : NackTracker) : Z :=
  foldl (fun n (se : Z * Entry) => if live (cfg_ t) se.2 then n + 1 else n) 0 (ascending (entries_ t)).

Definition take_window (t : NackTracker) : NackWindow * NackTracker := (win_ t, set_win t no_window).

Definition set_enable (t : NackTracker) (on : bool) : NackTracker :=
  let c := cfg_ t in
  let t := mkTracker (mkNackCfg on (lookback c) (repeat_ms c) (max_tries c) (min_lead_ms c)
             (settle_min_ms c) (settle_max_ms c) (settle_seed_ms c) (settle_window_ms c)
             (settle_min_samples c)) (entries_ t) (late_ t) (settle_ms_ t) (counter_ t)
             (stats_ t) (win_ t) in
  if on then t else clear t.

(** *** Natural lateness *)

Fixpoint expire_late (cfg : NackCfg) (now : Z) (l : list (Z * Z)) : list (Z * Z) :=
  match l with
  | (t, ms) :: l' => if ms64 (settle_window_ms cfg) <? u64 (now - t) then expire_late cfg now l' else l
  | [] => []
  end.

Definition clampZ (x lo hi : Z) : Z := if x <? lo then lo else if hi <? x then hi else x.

Definition note_late (t : NackTracker) (now late : Z) : NackTracker :=
  let l := expire_late (cfg_ t) now (late_ t ++ [(now, late)]) in
  let w := win_ t in
  let t := set_win t (if late_ms_max w <? late then mkWindow (fill_ms w) late (w_filled w) else w) in
  if Z.of_nat (length l) <? ms64 (settle_min_samples (cfg_ t)) then set_settle t l (settle_ms_ t)
  else
    let mx := foldl (fun m (x : Z * Z) => Z.max m x.2) 0 l in
    set_settle t l (clampZ (i32 mx + 2) (settle_min_ms (cfg_ t)) (settle_max_ms (cfg_ t))).

(** ** resolve *)

Definition book_fill (t : NackTracker) (ms : Z) : NackTracker :=
  let t := count_ t filled in
  let w := win_ t in
  set_win t (mkWindow (if (length (fill_ms w) <? kMaxFillSamples)%nat then fill_ms w ++ [ms] else fill_ms w)
               (late_ms_max w) (u64 (w_filled w + 1))).

(** One turn of the loop; the iterator's entry is erased unless its state is unknown. *)
Definition resolve_one (now : Z) (i : NackInputs) (t : NackTracker) (se : Z * Entry) : NackTracker :=
  let '(s, e) := se in
  let erase (t : NackTracker) := set_entries t (delete s (entries_ t)) in
  match in_state i s with
  | kUnknown =>
      if gap_timeout_ms i <? u64 (now - first_missing_ms e) then
        if (0 <? tries e) && negb (deadline_counted e) then
          set_entries (count_ t dropped_deadline) (<[s := counted_dead e]> (entries_ t))
        else set_entries t (<[s := kill e]> (entries_ t))
      else t
  | kRetxState => erase (if 0 <? tries e then book_fill t (u32 (now - first_sent_ms e)) else t)
  | kDirect => erase (if 0 <? tries e then count_ t late_fill
                      else note_late t now (u32 (now - first_missing_ms e)))
  | kRecovered => erase (if 0 <? tries e then count_ t wasted else t)
  | kBelowFloor => erase (if (0 <? tries e) && negb (deadline_counted e) then count_ t dropped_deadline else t)
  end.

Definition resolve (t : NackTracker) (now : Z) (i : NackInputs) : NackTracker :=
  foldl (resolve_one now i) t (ascending (entries_ t)).

(** ** admit *)

Definition admit_missing (now : Z) (m : gmap Z Entry) (s : Z) : gmap Z Entry :=
  match m !! s with
  | None => <[s := mkEntry now 0 0 0 false false false]> m
  | Some _ => m
  end.

Definition admit_tail (i : NackInputs) (t0 : Z) (m : gmap Z Entry) (s : Z) : gmap Z Entry :=
  match m !! s, in_state i s with
  | None, kUnknown => <[s := mkEntry t0 0 0 0 true false false]> m
  | _, _ => m
  end.

(** The sequence numbers of the newest frame's missing tail. *)
Definition tail_seqs (tv : NackTailView) : list Z :=
  let n_tail := u32 (count tv - max_idx tv - 1) in
  map (fun k => u32 (seq_at_max tv + k)) (seqZ 1 n_tail).

Definition nack_admit (t : NackTracker) (now : Z) (i : NackInputs) : NackTracker :=
  let m := foldl (admit_missing now) (entries_ t) (missing i) in
  match in_tail i with
  | Some tv =>
      if (u64 (last_progress_ms tv + ms64 (settle_ms_ t)) <=? now) && (max_idx tv + 1 <? count tv) then
        set_entries t (foldl (admit_tail i (last_progress_ms tv)) m (tail_seqs tv))
      else set_entries t m
  | None => set_entries t m
  end.

(** ** poll *)

(** The wait before the next request of an entry is over. *)
Definition waited (t : NackTracker) (now : Z) (e : Entry) : bool :=
  let since := if tries e =? 0 then first_missing_ms e else last_sent_ms e in
  let wait := if tries e =? 0 then ms64 (settle_ms_ t) else ms64 (repeat_ms (cfg_ t)) in
  negb (now <? u64 (since + wait)).

(** The answer to a request sent now could land before the deadline. *)
Definition in_time (t : NackTracker) (now : Z) (i : NackInputs) (e : Entry) : bool :=
  negb (u64 (first_missing_ms e + gap_timeout_ms i) <? u64 (now + ms64 (min_lead_ms (cfg_ t)))).

(** One turn of the collecting loop: the tracker and the due list so far. *)
Definition due_one (now : Z) (i : NackInputs) (td : NackTracker * list Z) (se : Z * Entry)
    : NackTracker * list Z :=
  let '(t, due) := td in
  let '(s, e) := se in
  if dead e || (max_tries (cfg_ t) <=? tries e) then td
  else if negb (waited t now e) then td
  else if negb (in_time t now i e) then
    (count_ (set_entries t (<[s := kill e]> (entries_ t))) lead_skipped, due)
  else (t, due ++ [s]).

Definition collect (t : NackTracker) (now : Z) (i : NackInputs) : NackTracker * list Z :=
  foldl (due_one now i) (t, []) (ascending (entries_ t)).

(** [entries_[s]]: creates a default entry when there is none. *)
Definition entry_at (t : NackTracker) (s : Z) : Entry := default no_entry (entries_ t !! s).

Definition kill_due (t : NackTracker) (s : Z) : NackTracker :=
  set_entries t (<[s := kill (entry_at t s)]> (entries_ t)).

(** The booking of one requested sequence number. *)
Definition sent (now : Z) (e : Entry) : Entry :=
  mkEntry (first_missing_ms e) (if tries e =? 0 then now else first_sent_ms e) now (tries e + 1)
    (from_tail e) (dead e) (deadline_counted e).

Definition request_one (now : Z) (t : NackTracker) (s : Z) : NackTracker :=
  let e := sent now (entry_at t s) in
  let t := count_ (set_entries t (<[s := e]> (entries_ t))) syms_requested in
  if from_tail e && (tries e =? 1) then count_ t tail_requests else t.

(** The inner loop: the bitmap of a run, whether it repeats a request, the rest of [due]. *)
Fixpoint fill_run (now first : Z) (due : list Z) (bm : Z) (rep : bool) (t : NackTracker)
    : Z * bool * list Z * NackTracker :=
  match due with
  | s :: due' =>
      if u32 (s - first) <? 32 then
        fill_run now first due' (Z.lor bm (Z.shiftl 1 (u32 (s - first))))
          (rep || negb (tries (entry_at t s) =? 0)) (request_one now t s)
      else (bm, rep, due, t)
  | [] => (bm, rep, [], t)
  end.

(** The outer loop; [room] is the number of runs the request still has place for. *)
Fixpoint fill_runs (room : nat) (now : Z) (due : list Z) (rep : bool) (t : NackTracker)
    : list NackEntry * bool * NackTracker :=
  match room, due with
  | S room, s :: _ =>
      let '(bm, rep, due, t) := fill_run now s due 0 rep t in
      let '(runs, rep, t) := fill_runs room now due rep t in
      (mkNackEntry s bm :: runs, rep, t)
  | _, _ => ([], rep, t)
  end.

Definition kNackFlagRepeat : Z := 1.

Definition build_request (t : NackTracker) (now : Z) (due : list Z) : NackTracker * Nack :=
  let t := set_counter t (u32 (counter_ t + 1)) in
  let '(runs, any_repeat, t) := fill_runs (Z.to_nat kMaxNackEntries) now due false t in
  let t := if any_repeat then count_ t repeats else t in
  (count_ t requests,
   mkNack (counter_ t) 0 (if any_repeat then kNackFlagRepeat else 0) (Z.of_nat (length runs))
     (runs ++ replicate (Z.to_nat kMaxNackEntries - length runs) default_entry)).

Definition poll (t : NackTracker) (now : Z) (i : NackInputs) : NackTracker * option Nack :=
  if negb (enable (cfg_ t)) then (t, None)
  else
    let t := nack_admit (resolve t now i) now i in
    let '(t, due) := collect t now i in
    match due with
    | [] => (t, None)
    | _ =>
        if d_leb (down_util i) (util i) then (foldl kill_due (count_ t suppressed) due, None)
        else let '(t, n) := build_request t now due in (t, Some n)
    end.

(** ** The drone's reading of a request (drone/src/main.cpp, [nack_hook]) *)

Definition requested_run (x : NackEntry) : list Z :=
  map (fun b => u32 (first_seq x + b)) (filter (fun b => Z.testbit (bitmap x) b = true) (seqZ 0 32)).

Definition requested (k : Nack) : list Z :=
  concat (map requested_run (take (Z.to_nat (n k)) (e k))).
