(* ===== verification/NackTrackerProps.v ===== *)
(** * NackTrackerProps: the requests are exactly the due symbols, and boundedly many *)
From S2P Require Import Prelude Bytes Elim SwConfig SwDecoder RcProto RcProtoProps NackTracker.
From stdpp Require Import sorting.
Local Open Scope Z_scope.
Local Open Scope mabur_scope.

(** ** Ascending lists *)

Lemma ascending_lt {A} (m : gmap Z A) : StronglySorted Z.lt (ascending m).*1.
Proof.
  pose proof (ascending_nodup m) as Hn.
  assert (HS : StronglySorted key_le (ascending m)) by apply (StronglySorted_merge_sort _).
  revert Hn HS. generalize (ascending m). intros l. induction l as [|[k x] l IH]; intros Hn HS; [constructor |].
  cbn [fmap list_fmap fst] in *. apply NoDup_cons in Hn as [Hk Hn]. apply StronglySorted_inv in HS as [HS HF].
  constructor; [by apply IH |]. rewrite Forall_forall in HF. apply Forall_forall. intros j Hj.
  apply list_elem_of_fmap in Hj as ([j' y] & -> & Hy). specialize (HF _ Hy). unfold key_le in HF. cbn [fst] in *.
  assert (k <> j'); [| lia]. intros ->. apply Hk, list_elem_of_fmap. by exists (j', y).
Qed.

Lemma ascending_keys {A} (m : gmap Z A) s : s ∈ (ascending m).*1 <-> is_Some (m !! s).
Proof.
  rewrite list_elem_of_fmap. split.
  - intros ([k x] & -> & H). apply elem_of_ascending in H. by exists x.
  - intros [x H]. exists (s, x). split; [done |]. by apply elem_of_ascending.
Qed.

Lemma sorted_lt_le l : StronglySorted Z.lt l -> StronglySorted Z.le l.
Proof. induction 1 as [|x l _ IH HF]; constructor; [done |]. eapply Forall_impl; [exact HF |]. cbn. lia. Qed.

Lemma sorted_lt_nodup l : StronglySorted Z.lt l -> NoDup l.
Proof.
  induction 1 as [|x l _ IH HF]; constructor; [| done]. intros H.
  rewrite Forall_forall in HF. specialize (HF _ H). lia.
Qed.

(** An ascending list is determined by its elements. *)
Lemma sorted_lt_ext l l' :
  StronglySorted Z.lt l -> StronglySorted Z.lt l' -> (forall s, s ∈ l <-> s ∈ l') -> l = l'.
Proof.
  intros H H' He. apply (StronglySorted_unique Z.le); [by apply sorted_lt_le.. |].
  apply NoDup_Permutation; [by apply sorted_lt_nodup.. | done].
Qed.

Lemma sorted_filter (P : Z -> Prop) `{!forall x, Decision (P x)} l :
  StronglySorted Z.lt l -> StronglySorted Z.lt (filter P l).
Proof.
  induction 1 as [|x l _ IH HF]; [constructor |]. rewrite filter_cons. case_decide; [| done].
  constructor; [done |]. rewrite Forall_forall in HF. apply Forall_forall.
  intros y Hy. apply list_elem_of_filter in Hy as [_ Hy]. by apply HF.
Qed.

Lemma sorted_app_l (l r : list Z) : StronglySorted Z.lt (l ++ r) -> StronglySorted Z.lt l.
Proof. apply StronglySorted_app_1_l. Qed.

Lemma seqZ_sorted a n : StronglySorted Z.lt (seqZ a n).
Proof.
  destruct (Z.le_gt_cases 0 n) as [Hn |]; [| rewrite seqZ_nil by lia; constructor].
  revert a. pattern n. apply natlike_ind; [constructor | | done]. intros k Hk IH a.
  rewrite seqZ_cons by lia. constructor.
  - replace (Z.pred (Z.succ k)) with k by lia. apply IH.
  - apply Forall_forall. intros x Hx. apply elem_of_seqZ in Hx. lia.
Qed.

(** ** Collecting *)

(** What the loop asks of an entry; [late]: it would be due, but past its lead. *)
Definition ready (t : NackTracker) (now : Z) (e : Entry) : bool :=
  negb (dead e || (max_tries (cfg_ t) <=? tries e)) && waited t now e.
Definition due_ok (t : NackTracker) (now : Z) (i : NackInputs) (e : Entry) : bool :=
  ready t now e && in_time t now i e.
Definition too_late (t : NackTracker) (now : Z) (i : NackInputs) (e : Entry) : bool :=
  ready t now e && negb (in_time t now i e).

Definition due_keys (t : NackTracker) (now : Z) (i : NackInputs) : list Z :=
  (filter (fun se : Z * Entry => due_ok t now i se.2 = true) (ascending (entries_ t))).*1.

(** The members [collect] and the request do not touch. *)
Definition same_link (t t' : NackTracker) : Prop :=
  cfg_ t' = cfg_ t /\ settle_ms_ t' = settle_ms_ t.

(** The entry of [s] after the loop went over the keys [l]. *)
Definition marked (t : NackTracker) (now : Z) (i : NackInputs) (l : list Z) (s : Z) (e : Entry) : Entry :=
  if decide (s ∈ l) then if too_late t now i e then kill e else e else e.

Lemma marked_head t now i l s e :
  marked t now i (s :: l) s e = if too_late t now i e then kill e else e.
Proof. unfold marked. rewrite decide_True by constructor. done. Qed.

Lemma marked_other t now i l s k e : k <> s -> marked t now i (s :: l) k e = marked t now i l k e.
Proof.
  intros Hne. unfold marked. destruct (decide (k ∈ l)); [rewrite decide_True by (by constructor); done |].
  rewrite decide_False; [done |]. intros Hk. apply elem_of_cons in Hk as []; done.
Qed.

Lemma marked_out t now i l s e : s ∉ l -> marked t now i l s e = e.
Proof. intros. unfold marked. by rewrite decide_False. Qed.

(** A turn that leaves [s] alone. *)
Lemma marked_skip t now i l s (e : Entry) (m : gmap Z Entry) k :
  s ∉ l -> m !! s = Some e -> too_late t now i e = false ->
  marked t now i l k <$> m !! k = marked t now i (s :: l) k <$> m !! k.
Proof.
  intros Hs He Et. destruct (decide (k = s)) as [-> |].
  - rewrite He. cbn. f_equal. by rewrite marked_head, Et, marked_out.
  - destruct (m !! k); [| done]. cbn. f_equal. by rewrite marked_other.
Qed.

Lemma due_one_cases t due now i s e :
  due_one now i (t, due) (s, e) =
    if due_ok t now i e then (t, due ++ [s])
    else if too_late t now i e then
      (count_ (set_entries t (<[s := kill e]> (entries_ t))) lead_skipped, due)
    else (t, due).
Proof.
  unfold due_one, due_ok, too_late, ready.
  destruct (dead e || _), (waited t now e), (in_time t now i e); done.
Qed.

Lemma due_not_late t now i e : due_ok t now i e = true -> too_late t now i e = false.
Proof. unfold due_ok, too_late. destruct (ready t now e), (in_time t now i e); done. Qed.

Lemma collect_list l t due now i :
  NoDup l.*1 -> (forall s e, (s, e) ∈ l -> entries_ t !! s = Some e) ->
  let '(t', due') := foldl (due_one now i) (t, due) l in
  due' = due ++ (filter (fun se : Z * Entry => due_ok t now i se.2 = true) l).*1 /\
  same_link t t' /\ counter_ t' = counter_ t /\
  (forall k, k <> lead_skipped -> stats_ t' k = stats_ t k) /\
  (forall s, entries_ t' !! s = marked t now i l.*1 s <$> entries_ t !! s).
Proof.
  revert t due. induction l as [|[s e] l IH]; intros t due Hn Hl; cbn [foldl].
  { cbn. rewrite app_nil_r. split; [done |]. split; [done |]. split; [done |]. split; [done |].
    intros s. destruct (entries_ t !! s); cbn; [| done]. by rewrite marked_out by inversion 1. }
  cbn [fmap list_fmap fst] in *. apply NoDup_cons in Hn as [Hs Hn].
  assert (He : entries_ t !! s = Some e) by (apply Hl; constructor).
  assert (Hl' : forall k x, (k, x) ∈ l -> entries_ t !! k = Some x) by (intros; apply Hl; by constructor).
  rewrite due_one_cases, filter_cons. cbn [snd].
  destruct (due_ok t now i e) eqn:Ed.
  - specialize (IH t (due ++ [s]) Hn Hl'). destruct (foldl _ _ l) as [t' due'].
    destruct IH as (-> & H1 & H2 & H3 & H4). rewrite decide_True by done. cbn [fmap list_fmap fst].
    rewrite <- app_assoc. split; [done |]. split; [done |]. split; [done |]. split; [done |].
    intros k. rewrite H4. by apply marked_skip with e; [| | apply due_not_late].
  - rewrite decide_False by done. destruct (too_late t now i e) eqn:Et.
    + set (t1 := count_ _ _). specialize (IH t1 due Hn). destruct (foldl _ _ l) as [t' due'].
      destruct IH as (-> & [H1 H1'] & H2 & H3 & H4).
      { intros k x Hk. unfold t1. cbn. rewrite lookup_insert_ne; [by apply Hl' |].
        intros <-. apply Hs, list_elem_of_fmap. by exists (s, x). }
      split; [done |]. split; [done |]. split; [done |].
      split; [intros k Hk; rewrite H3 by done; unfold t1; cbn; by rewrite decide_False |].
      intros k. rewrite H4. unfold t1. cbn [entries_ count_ set_entries].
      destruct (decide (k = s)) as [-> | Hne].
      * rewrite lookup_insert_eq, He. cbn. by rewrite marked_head, marked_out, Et.
      * rewrite lookup_insert_ne by done. destruct (entries_ t !! k); [| done]. cbn.
        by rewrite marked_other.
    + specialize (IH t due Hn Hl'). destruct (foldl _ _ l) as [t' due'].
      destruct IH as (-> & H1 & H2 & H3 & H4). split; [done |]. split; [done |]. split; [done |].
      split; [done |]. intros k. rewrite H4. by apply marked_skip with e.
Qed.

Lemma collect_spec t now i :
  let '(t', due) := collect t now i in
  due = due_keys t now i /\ same_link t t' /\ counter_ t' = counter_ t /\
  (forall k, k <> lead_skipped -> stats_ t' k = stats_ t k) /\
  (forall s, entries_ t' !! s = (fun e => if too_late t now i e then kill e else e) <$> entries_ t !! s).
Proof.
  pose proof (collect_list (ascending (entries_ t)) t [] now i (ascending_nodup _)) as H.
  unfold collect. destruct (foldl _ _ _) as [t' due].
  destruct H as (-> & H1 & H2 & H3 & H4); [by intros s e ?%elem_of_ascending |].
  split; [done |]. split; [done |]. split; [done |]. split; [done |].
  intros s. rewrite H4. destruct (entries_ t !! s) as [e|] eqn:E; [| done]. cbn. f_equal.
  unfold marked. rewrite decide_True; [done |]. apply ascending_keys. by exists e.
Qed.

Lemma elem_of_due_keys t now i s :
  s ∈ due_keys t now i <-> exists e, entries_ t !! s = Some e /\ due_ok t now i e = true.
Proof.
  unfold due_keys. rewrite list_elem_of_fmap. split.
  - intros ([k e] & -> & H). apply list_elem_of_filter in H as [H1 H2%elem_of_ascending]. by exists e.
  - intros (e & H1 & H2). exists (s, e). split; [done |]. apply list_elem_of_filter.
    split; [done |]. by apply elem_of_ascending.
Qed.

Lemma due_keys_sorted t now i : StronglySorted Z.lt (due_keys t now i).
Proof.
  unfold due_keys. pose proof (ascending_lt (entries_ t)) as H. revert H.
  generalize (ascending (entries_ t)). intros l. induction l as [|[s e] l IH]; intros H; [constructor |].
  cbn [fmap list_fmap fst] in H. apply StronglySorted_inv in H as [H HF]. rewrite filter_cons. cbn [snd].
  case_decide; [| by apply IH]. cbn [fmap list_fmap fst]. constructor; [by apply IH |].
  rewrite Forall_forall in HF. apply Forall_forall. intros x Hx.
  apply list_elem_of_fmap in Hx as (y & -> & Hy). apply list_elem_of_filter in Hy as [_ Hy].
  apply HF, list_elem_of_fmap. by exists y.
Qed.

(** ** Packing a request *)

Definition repeated (t : NackTracker) (s : Z) : bool := negb (tries (entry_at t s) =? 0).
Definition run_bits (first bm : Z) (l : list Z) : Z :=
  foldl (fun b s => Z.lor b (Z.shiftl 1 (s - first))) bm l.

Lemma entry_at_request now t s k : k <> s -> entry_at (request_one now t s) k = entry_at t k.
Proof.
  intros Hne. unfold entry_at, request_one. cbn zeta.
  destruct (_ && _); cbn [entries_ count_ set_entries]; by rewrite lookup_insert_ne.
Qed.

Lemma existsb_request now t s l :
  s ∉ l -> existsb (repeated (request_one now t s)) l = existsb (repeated t) l.
Proof.
  induction l as [|k l IH]; intros Hs; [done |]. apply not_elem_of_cons in Hs as [Hk Hs].
  cbn [existsb]. rewrite IH by done. unfold repeated at 1 3. by rewrite entry_at_request.
Qed.

Lemma fill_run_spec now first due bm rep t :
  StronglySorted Z.lt due -> Forall (in_width 32) due -> in_width 32 first ->
  Forall (fun s => first <= s) due ->
  exists taken rest, due = taken ++ rest /\
    fill_run now first due bm rep t =
      (run_bits first bm taken, rep || existsb (repeated t) taken, rest, foldl (request_one now) t taken) /\
    Forall (fun s => first <= s < first + 32) taken /\
    (rest = [] \/ exists r l, rest = r :: l /\ first + 32 <= r).
Proof.
  intros Hs Hw Hf Hge. revert bm rep t. induction due as [|s due IH]; intros bm rep t.
  { exists [], []. cbn. rewrite orb_false_r. auto. }
  pose proof (sorted_lt_nodup _ Hs) as Hn. apply NoDup_cons in Hn as [Hin _].
  apply StronglySorted_inv in Hs as [Hs HF].
  apply Forall_cons in Hw as [Hws Hw]. apply Forall_cons in Hge as [Hges Hge].
  assert (E : u32 (s - first) = s - first) by (apply wrap_small; unfold in_width in *; lia).
  cbn [fill_run]. rewrite E. destruct (Z.ltb_spec (s - first) 32).
  - destruct (IH Hs Hw Hge (Z.lor bm (Z.shiftl 1 (s - first)))
      (rep || negb (tries (entry_at t s) =? 0)) (request_one now t s)) as (taken & rest & -> & -> & H1 & H2).
    exists (s :: taken), rest. split; [done |]. split.
    { cbn [foldl existsb run_bits]. rewrite existsb_request; [by rewrite orb_assoc |].
      intros H'. apply Hin, elem_of_app. by left. }
    split; [constructor; [lia | done] | done].
  - exists [], (s :: due). cbn [app foldl existsb run_bits]. rewrite orb_false_r. split; [done |].
    split; [done |]. split; [constructor |]. right. exists s, due. split; [done | lia].
Qed.

(** *** The bitmap of a run reads back as the run *)

Lemma run_bits_test first bm l b :
  0 <= b -> Forall (fun s => first <= s) l ->
  Z.testbit (run_bits first bm l) b = true <-> Z.testbit bm b = true \/ first + b ∈ l.
Proof.
  intros Hb Hl. revert bm. induction Hl as [|s l Hs Hl IH]; intros bm; cbn [run_bits foldl].
  { split; [by left |]. intros [H | H]; [done | by inversion H]. }
  fold (run_bits first (Z.lor bm (Z.shiftl 1 (s - first))) l). rewrite IH, Z.lor_spec, orb_true_iff.
  rewrite Z.shiftl_1_l, Z.pow2_bits_eqb by lia. rewrite Z.eqb_eq, elem_of_cons.
  split; intros H; intuition lia.
Qed.

Lemma run_bits_width first bm l :
  in_width 32 bm -> Forall (fun s => first <= s < first + 32) l -> in_width 32 (run_bits first bm l).
Proof.
  intros Hb Hl. revert bm Hb. induction Hl as [|s l Hs Hl IH]; intros bm Hb; [done |].
  cbn [run_bits foldl]. apply IH. apply lor_in_width; [lia | done |].
  rewrite Z.shiftl_1_l. split; [apply Z.pow_nonneg; lia |]. apply Z.pow_lt_mono_r; lia.
Qed.

(** The element at the run's start sets bit 0, as the wire format forces. *)
Lemma lor_bit0 b : Z.testbit b 0 = true -> Z.lor b 1 = b.
Proof.
  intros H. apply Z.bits_inj'. intros j Hj. rewrite Z.lor_spec.
  destruct (Z.eq_dec j 0) as [-> |]; [by rewrite H |].
  change 1 with (2 ^ 0). rewrite Z.pow2_bits_false by lia. by rewrite orb_false_r.
Qed.

Lemma requested_run_taken first l :
  StronglySorted Z.lt l -> Forall (in_width 32) l -> Forall (fun s => first <= s < first + 32) l ->
  requested_run (mkNackEntry first (run_bits first 0 l)) = l.
Proof.
  intros Hs Hw Hl. unfold requested_run. cbn [bitmap RcProto.first_seq].
  assert (Hge : Forall (fun s => first <= s) l) by (eapply Forall_impl; [exact Hl |]; cbn; lia).
  assert (Hb : forall b, b ∈ filter (fun b => Z.testbit (run_bits first 0 l) b = true) (seqZ 0 32) <->
    0 <= b /\ first + b ∈ l).
  { intros b. rewrite list_elem_of_filter, elem_of_seqZ. split.
    - intros [H ?]. rewrite run_bits_test in H by (done || lia). rewrite Z.bits_0 in H.
      destruct H as [| H]; [done |]. split; [lia | done].
    - intros [H0 H]. rewrite run_bits_test by (done || lia). split; [by right |].
      rewrite Forall_forall in Hl. specialize (Hl _ H). cbn in Hl. lia. }
  set (bs := filter _ _) in *.
  assert (Hm : map (fun b => u32 (first + b)) bs = map (fun b => first + b) bs).
  { apply map_ext_in. intros b Hin. apply list_elem_of_In, Hb in Hin as [_ Hin].
    rewrite Forall_forall in Hw. by apply wrap_small, Hw. }
  rewrite Hm. apply sorted_lt_ext; [| done |].
  - assert (HS : StronglySorted Z.lt bs) by (unfold bs; apply sorted_filter, seqZ_sorted).
    clear -HS. induction HS as [|b bs _ IH HF]; [constructor |]. cbn [map]. constructor; [done |].
    rewrite Forall_forall in HF. apply Forall_forall. intros x Hx. apply list_elem_of_In, in_map_iff in Hx as (y & <- & Hy).
    apply list_elem_of_In in Hy. specialize (HF _ Hy). lia.
  - intros s. rewrite list_elem_of_In, in_map_iff. split.
    + intros (b & <- & Hin). apply list_elem_of_In, Hb in Hin. tauto.
    + intros Hin. exists (s - first). split; [lia |]. apply list_elem_of_In, Hb.
      replace (first + (s - first)) with s by lia. split; [| done].
      rewrite Forall_forall in Hge. specialize (Hge _ Hin). cbn in Hge. lia.
Qed.

Lemma existsb_requests now t l l' :
  (forall s, s ∈ l -> s ∉ l') ->
  existsb (repeated (foldl (request_one now) t l)) l' = existsb (repeated t) l'.
Proof.
  revert t. induction l as [|s l IH]; intros t Hd; [done |]. cbn [foldl].
  rewrite IH by (intros k Hk; apply Hd; by constructor). apply existsb_request, Hd. constructor.
Qed.

(** A run as the request carries it: on the wire unchanged. *)
Definition run_ok (x : NackEntry) : Prop := entry_typed x /\ entry_on_wire x = x.

Lemma fill_runs_spec room now due rep t :
  StronglySorted Z.lt due -> Forall (in_width 32) due ->
  exists taken rest runs, due = taken ++ rest /\
    fill_runs room now due rep t =
      (runs, rep || existsb (repeated t) taken, foldl (request_one now) t taken) /\
    concat (map requested_run runs) = taken /\ Forall run_ok runs /\
    (length runs <= room)%nat /\ (rest = [] \/ length runs = room) /\
    (due <> [] -> room <> O -> runs <> [] /\ taken <> []).
Proof.
  revert due rep t. induction room as [|room IH]; intros due rep t Hs Hw.
  { exists [], due, []. cbn. rewrite orb_false_r. split_all; try done; by right. }
  destruct due as [|s due].
  { exists [], [], []. cbn. rewrite orb_false_r. split_all; try done; first [by left | cbn; lia]. }
  assert (Hge : Forall (fun k => s <= k) (s :: due)).
  { apply StronglySorted_inv in Hs as [_ HF]. constructor; [lia |]. eapply Forall_impl; [exact HF |]. cbn. lia. }
  destruct (fill_run_spec now s (s :: due) 0 rep t Hs Hw (Forall_inv Hw) Hge)
    as (tk & rest & Ed & Er & H1 & H2).
  assert (Hin : s ∈ tk).
  { destruct tk as [|k tk]; [| cbn in Ed; injection Ed as <- _; constructor].
    destruct H2 as [-> | (r & l & -> & Hr)]; [done |]. cbn in Ed. injection Ed as <- _. lia. }
  cbn [fill_runs]. rewrite Er. rewrite Ed in Hs, Hw. apply Forall_app in Hw as [Hw1 Hw2].
  destruct (IH rest (rep || existsb (repeated t) tk) (foldl (request_one now) t tk))
    as (tk' & rest' & runs & -> & Er' & H3 & H4 & H5 & H6 & H7).
  { by apply StronglySorted_app_1_r in Hs. } { done. }
  rewrite Er'. exists (tk ++ tk'), rest', (mkNackEntry s (run_bits s 0 tk) :: runs).
  assert (Hd : forall k, k ∈ tk -> k ∉ tk').
  { intros k Hk Hk'. apply sorted_lt_nodup, NoDup_app in Hs as (_ & Hs & _). apply (Hs k Hk), elem_of_app. by left. }
  assert (Hws : in_width 32 s) by (rewrite Forall_forall in Hw1; by apply Hw1).
  split; [by rewrite <- app_assoc |].
  split. { rewrite existsb_app, existsb_requests by done. by rewrite foldl_app, orb_assoc. }
  split. { cbn [map concat]. rewrite H3. f_equal. apply requested_run_taken; [by eapply sorted_app_l | done | done]. }
  split. { constructor; [| done]. assert (Hb : in_width 32 (run_bits s 0 tk)) by (apply run_bits_width; [decided | done]).
    split; [by split |]. unfold entry_on_wire. cbn. f_equal. apply lor_bit0.
    apply run_bits_test; [lia | by eapply Forall_impl; [exact H1 |]; cbn; lia |]. right. by rewrite Z.add_0_r. }
  cbn [length]. split; [lia |]. split; [destruct H6 as [-> | ->]; [by left | by right] |].
  intros _ _. split; [done |]. destruct tk; [by inversion Hin | done].
Qed.

(** *** Booking *)

Lemma count_stat t k x : stats_ (count_ t k) x = if decide (x = k) then u64 (stats_ t x + 1) else stats_ t x.
Proof. done. Qed.

Lemma request_all now t l :
  NoDup l -> (forall s, s ∈ l -> is_Some (entries_ t !! s)) ->
  let t' := foldl (request_one now) t l in
  same_link t t' /\ counter_ t' = counter_ t /\ stats_ t' requests = stats_ t requests /\
  u64 (stats_ t' syms_requested) = u64 (stats_ t syms_requested + Z.of_nat (length l)) /\
  (forall s, entries_ t' !! s = (fun e => if decide (s ∈ l) then sent now e else e) <$> entries_ t !! s).
Proof.
  intros Hn. revert t. induction l as [|s l IH]; intros t Hl; cbn [foldl length].
  { split; [done |]. split; [done |]. split; [done |]. split; [by rewrite Z.add_0_r |].
    intros s. destruct (entries_ t !! s); cbn; [| done]. by rewrite decide_False by inversion 1. }
  apply NoDup_cons in Hn as [Hs Hn].
  destruct (Hl s) as [e He]; [constructor |].
  assert (H1 : cfg_ (request_one now t s) = cfg_ t /\ settle_ms_ (request_one now t s) = settle_ms_ t /\
    counter_ (request_one now t s) = counter_ t /\ stats_ (request_one now t s) requests = stats_ t requests /\
    stats_ (request_one now t s) syms_requested = u64 (stats_ t syms_requested + 1) /\
    entries_ (request_one now t s) = <[s := sent now e]> (entries_ t)).
  { unfold request_one, entry_at. rewrite He. cbn [default from_option id]. by destruct (_ && _). }
  destruct H1 as (E1 & E2 & E3 & E4 & E5 & E6).
  destruct (IH Hn (request_one now t s)) as ([H1 H2] & H3 & H4 & H5 & H6).
  { intros k Hk. rewrite E6. destruct (decide (k = s)) as [-> |]; [by rewrite lookup_insert_eq |].
    rewrite lookup_insert_ne by done. apply Hl. by constructor. }
  split. { split; congruence. } split; [congruence |]. split; [congruence |].
  split. { rewrite H5, E5. unfold wrap. rewrite Zplus_mod_idemp_l. f_equal. lia. }
  intros k. rewrite H6, E6. destruct (decide (k = s)) as [-> |].
  - rewrite lookup_insert_eq, He. cbn. rewrite decide_False by done. by rewrite decide_True by constructor.
  - rewrite lookup_insert_ne by done. destruct (entries_ t !! k); [| done]. cbn. f_equal.
    destruct (decide (k ∈ l)); [rewrite decide_True by (by constructor); done |].
    rewrite decide_False; [done |]. intros Hk. apply elem_of_cons in Hk as []; done.
Qed.

(** ** Resolving and admitting *)

(** The members no step but the request itself writes; the settle estimate stays in its clamp. *)
Record quiet (t t' : NackTracker) : Prop := {
  q_cfg : cfg_ t' = cfg_ t;
  q_counter : counter_ t' = counter_ t;
  q_settle : settle_ms_ t' = settle_ms_ t \/ settle_min_ms (cfg_ t) <= settle_ms_ t' <= settle_max_ms (cfg_ t);
  q_requests : stats_ t' requests = stats_ t requests;
  q_syms : stats_ t' syms_requested = stats_ t syms_requested;
}.

Lemma quiet_refl t : quiet t t.
Proof. split; auto. Qed.

Lemma quiet_trans t1 t2 t3 : quiet t1 t2 -> quiet t2 t3 -> quiet t1 t3.
Proof.
  intros [A1 A2 A3 A4 A5] [B1 B2 B3 B4 B5]. split; [congruence.. | | congruence | congruence].
  rewrite A1 in B3. destruct B3 as [-> | ?]; [done | by right].
Qed.

Definition cfg_ok (c : NackCfg) : Prop :=
  0 <= repeat_ms c < 2 ^ 31 /\ 0 <= max_tries c < 2 ^ 31 /\ 0 <= min_lead_ms c < 2 ^ 31 /\
  0 <= settle_min_ms c /\ settle_min_ms c <= settle_max_ms c /\ settle_max_ms c < 2 ^ 31 /\
  0 <= settle_seed_ms c < 2 ^ 31.

Lemma clampZ_range x lo hi : lo <= hi -> lo <= clampZ x lo hi <= hi.
Proof. unfold clampZ. intros. repeat case_Zb; lia. Qed.

Lemma note_late_quiet t now late :
  settle_min_ms (cfg_ t) <= settle_max_ms (cfg_ t) ->
  quiet t (note_late t now late) /\ entries_ (note_late t now late) = entries_ t.
Proof.
  intros H. unfold note_late. cbn zeta. case_Zb; (split; [| done]); split; try done; [by left |].
  right. by apply clampZ_range.
Qed.

(** What becomes of an entry: erased, or (state unknown) kept, dead past the deadline. *)
Definition resolved (now : Z) (i : NackInputs) (s : Z) (e : Entry) : option Entry :=
  match in_state i s with
  | kUnknown =>
      Some (if gap_timeout_ms i <? u64 (now - first_missing_ms e) then
              if (0 <? tries e) && negb (deadline_counted e) then counted_dead e else kill e
            else e)
  | _ => None
  end.

Ltac quiet_tac := split; [done | done | by left | done | done].

Lemma erased t (t1 : NackTracker) s :
  quiet t t1 /\ entries_ t1 = entries_ t ->
  quiet t (set_entries t1 (delete s (entries_ t1))) /\
  entries_ (set_entries t1 (delete s (entries_ t1))) = delete s (entries_ t).
Proof. intros [[] He]. split; [by split |]. cbn. by rewrite He. Qed.

Lemma resolve_one_spec now i t s e :
  cfg_ok (cfg_ t) -> entries_ t !! s = Some e ->
  quiet t (resolve_one now i t (s, e)) /\
  entries_ (resolve_one now i t (s, e)) = partial_alter (fun _ => resolved now i s e) s (entries_ t).
Proof.
  intros Hc He. assert (Hq := quiet_refl t). unfold resolve_one, resolved.
  destruct (in_state i s) eqn:Es.
  - case_Zb; [destruct (_ && _) |]; (split; [quiet_tac |]); cbn; [done | done |].
    symmetry. exact (insert_id (entries_ t) s e He).
  - apply erased. case_Zb; [by split; [quiet_tac |] |]. apply note_late_quiet. unfold cfg_ok in Hc. tauto.
  - apply erased. case_Zb; (split; [quiet_tac | done]).
  - apply erased. case_Zb; (split; [quiet_tac | done]).
  - apply erased. destruct (_ && _); (split; [quiet_tac | done]).
Qed.

Lemma resolve_list l now i t :
  cfg_ok (cfg_ t) -> NoDup l.*1 -> (forall s e, (s, e) ∈ l -> entries_ t !! s = Some e) ->
  let t' := foldl (resolve_one now i) t l in
  quiet t t' /\
  forall s, entries_ t' !! s = (e ← entries_ t !! s; if decide (s ∈ l.*1) then resolved now i s e else Some e).
Proof.
  revert t. induction l as [|[s e] l IH]; intros t Hc Hn Hl; cbn [foldl].
  { split; [apply quiet_refl |]. intros s. destruct (entries_ t !! s); [| done]. cbn.
    by rewrite decide_False by inversion 1. }
  cbn [fmap list_fmap fst] in *. apply NoDup_cons in Hn as [Hs Hn].
  assert (He : entries_ t !! s = Some e) by (apply Hl; constructor).
  destruct (resolve_one_spec now i t s e Hc He) as [Hq E].
  destruct (IH (resolve_one now i t (s, e))) as [Hq' H'].
  { by rewrite (q_cfg _ _ Hq). } { done. }
  { intros k x Hk. rewrite E, lookup_partial_alter_ne; [apply Hl; by constructor |].
    intros <-. apply Hs, list_elem_of_fmap. by exists (s, x). }
  split; [by eapply quiet_trans |]. intros k. rewrite H', E. destruct (decide (k = s)) as [-> |].
  - rewrite lookup_partial_alter_eq, He. cbn [mbind option_bind]. rewrite decide_True by constructor.
    destruct (resolved now i s e); [| done]. cbn. by rewrite decide_False.
  - rewrite lookup_partial_alter_ne by done. destruct (entries_ t !! k); [| done]. cbn.
    destruct (decide (k ∈ l.*1)); [rewrite decide_True by (by constructor); done |].
    rewrite decide_False; [done |]. intros Hk. apply elem_of_cons in Hk as []; done.
Qed.

Lemma resolve_spec t now i :
  cfg_ok (cfg_ t) ->
  quiet t (resolve t now i) /\
  forall s, entries_ (resolve t now i) !! s = (e ← entries_ t !! s; resolved now i s e).
Proof.
  intros Hc. destruct (resolve_list (ascending (entries_ t)) now i t Hc) as [Hq H];
    [apply ascending_nodup | by intros s e ?%elem_of_ascending |].
  split; [done |]. intros s. unfold resolve. rewrite H.
  destruct (entries_ t !! s) as [e|] eqn:E; [| done]. cbn. rewrite decide_True; [done |].
  apply ascending_keys. by exists e.
Qed.

Definition fresh (t0 : Z) (b : bool) : Entry := mkEntry t0 0 0 0 b false false.

(** The two triggers: reported missing now, or in the tail of the newest frame. *)
Definition admitted_at (now : Z) (i : NackInputs) (s t0 : Z) : Prop :=
  (t0 = now /\ s ∈ missing i) \/
  (exists tv, in_tail i = Some tv /\ t0 = last_progress_ms tv /\ s ∈ tail_seqs tv).

(** A map grows by fresh entries at the keys of [l] only. *)
Definition grows (m m' : gmap Z Entry) (P : Z -> Z -> Prop) : Prop :=
  forall s, match m !! s with
  | Some e => m' !! s = Some e
  | None => m' !! s = None \/ exists t0 b, m' !! s = Some (fresh t0 b) /\ P s t0
  end.

Lemma grows_trans m1 m2 m3 P : grows m1 m2 P -> grows m2 m3 P -> grows m1 m3 P.
Proof.
  intros H1 H2 s. specialize (H1 s). specialize (H2 s).
  destruct (m1 !! s); [by rewrite H1 in H2 |].
  destruct H1 as [H1 | (t0 & b & H1 & HP)]; rewrite H1 in H2; [done |]. right. eauto.
Qed.

Lemma grows_refl m P : grows m m P.
Proof. intros s. destruct (m !! s); [done | by left]. Qed.

Lemma grows_fold (f : gmap Z Entry -> Z -> gmap Z Entry) (P : Z -> Z -> Prop) l m :
  (forall m s, s ∈ l -> grows m (f m s) P) -> grows m (foldl f m l) P.
Proof.
  revert m. induction l as [|s l IH]; intros m H; [apply grows_refl |]. cbn [foldl].
  eapply grows_trans; [apply H; constructor |]. apply IH. intros. apply H. by constructor.
Qed.

Lemma grows_insert m s t0 b (P : Z -> Z -> Prop) :
  m !! s = None -> P s t0 -> grows m (<[s := fresh t0 b]> m) P.
Proof.
  intros Hm HP k. destruct (decide (k = s)) as [-> |].
  - rewrite Hm. right. exists t0, b. by rewrite lookup_insert_eq.
  - rewrite lookup_insert_ne by done. destruct (m !! k); [done | by left].
Qed.

Lemma admit_spec t now i :
  quiet t (nack_admit t now i) /\ grows (entries_ t) (entries_ (nack_admit t now i)) (admitted_at now i).
Proof.
  assert (H1 : grows (entries_ t) (foldl (admit_missing now) (entries_ t) (missing i)) (admitted_at now i)).
  { apply grows_fold. intros m s Hs. unfold admit_missing. destruct (m !! s) eqn:E; [apply grows_refl |].
    apply grows_insert; [done |]. by left. }
  unfold nack_admit. cbn zeta. destruct (in_tail i) as [tv|] eqn:Et; [| by split; [quiet_tac |]].
  destruct (_ && _); (split; [quiet_tac |]); cbn [entries_ set_entries]; [| done].
  eapply grows_trans; [exact H1 |]. apply grows_fold. intros m s Hs. unfold admit_tail.
  destruct (m !! s) eqn:E; [apply grows_refl |]. destruct (in_state i s); try apply grows_refl.
  apply grows_insert; [done |]. right. by exists tv.
Qed.

(** ** The invariant *)

Definition ms_ok (z : Z) : Prop := 0 <= z < 2 ^ 62.
Record entry_ok (c : NackCfg) (s : Z) (e : Entry) : Prop := {
  eo_key : in_width 32 s;
  eo_missing : ms_ok (first_missing_ms e);
  eo_sent : ms_ok (last_sent_ms e);
  eo_tries : 0 <= tries e <= max_tries c;
}.
Record tracker_ok (t : NackTracker) : Prop := {
  to_cfg : cfg_ok (cfg_ t);
  to_settle : 0 <= settle_ms_ t < 2 ^ 31;
  to_counter : in_width 32 (counter_ t);
  to_entries : forall s e, entries_ t !! s = Some e -> entry_ok (cfg_ t) s e;
}.

(** One poll's inputs are in the range of their types; a clock is short of 2^62 ms. *)
Definition poll_ok (now : Z) (i : NackInputs) : Prop :=
  ms_ok now /\ ms_ok (gap_timeout_ms i) /\ Forall (in_width 32) (missing i) /\
  (forall tv, in_tail i = Some tv -> ms_ok (last_progress_ms tv)).

Lemma quiet_ok t t' : tracker_ok t -> quiet t t' ->
  (forall s e, entries_ t' !! s = Some e -> entry_ok (cfg_ t) s e) -> tracker_ok t'.
Proof.
  intros [H1 H2 H3 _] [Q1 Q2 Q3 _ _] He. split; rewrite ?Q1, ?Q2; try done.
  destruct Q3 as [-> | Q3]; [done |]. unfold cfg_ok in H1. lia.
Qed.

Lemma entry_ok_kill c s e : entry_ok c s e -> entry_ok c s (kill e).
Proof. intros []. by split. Qed.

Lemma resolved_ok now i c s e e' : entry_ok c s e -> resolved now i s e = Some e' -> entry_ok c s e'.
Proof.
  intros H. unfold resolved. destruct (in_state i s); try done. intros [= <-].
  destruct H. case_Zb; [destruct (_ && _) |]; by split.
Qed.

Lemma u32_seq_width tv s : s ∈ tail_seqs tv -> in_width 32 s.
Proof.
  unfold tail_seqs. intros H. apply list_elem_of_In, in_map_iff in H as (k & <- & _).
  apply wrap_in_width. lia.
Qed.

Lemma admitted_ok now i c s t0 b :
  poll_ok now i -> cfg_ok c -> admitted_at now i s t0 -> entry_ok c s (fresh t0 b).
Proof.
  intros (Hn & _ & Hm & Ht) Hc [[-> Hs] | (tv & E & -> & Hs)].
  - rewrite Forall_forall in Hm. split; [by apply Hm | done | unfold ms_ok; cbn; lia |].
    unfold cfg_ok in Hc. cbn. lia.
  - split; [by eapply u32_seq_width | by apply Ht | unfold ms_ok; cbn; lia |].
    unfold cfg_ok in Hc. cbn. lia.
Qed.

(** The tracker a poll collects from. *)
Definition polled (t : NackTracker) (now : Z) (i : NackInputs) : NackTracker :=
  nack_admit (resolve t now i) now i.

Lemma polled_quiet t now i : cfg_ok (cfg_ t) -> quiet t (polled t now i).
Proof.
  intros Hc. destruct (resolve_spec t now i Hc) as [Q _].
  destruct (admit_spec (resolve t now i) now i) as [Q' _]. by eapply quiet_trans.
Qed.

Lemma polled_lookup t now i s :
  cfg_ok (cfg_ t) ->
  match (e ← entries_ t !! s; resolved now i s e) with
  | Some e => entries_ (polled t now i) !! s = Some e
  | None => entries_ (polled t now i) !! s = None \/
            exists t0 b, entries_ (polled t now i) !! s = Some (fresh t0 b) /\ admitted_at now i s t0
  end.
Proof.
  intros Hc. destruct (resolve_spec t now i Hc) as [_ H].
  destruct (admit_spec (resolve t now i) now i) as [_ H']. specialize (H' s). by rewrite H in H'.
Qed.

Lemma polled_ok t now i : tracker_ok t -> poll_ok now i -> tracker_ok (polled t now i).
Proof.
  intros Ht Hp. pose proof (to_cfg _ Ht) as Hc.
  apply quiet_ok with t; [done | by apply polled_quiet |].
  intros s e He. pose proof (polled_lookup t now i s Hc) as H. rewrite He in H.
  destruct (entries_ t !! s) as [x|] eqn:Ex; cbn [mbind option_bind] in H.
  - destruct (resolved now i s x) as [y|] eqn:Er.
    + simplify_eq. eapply resolved_ok; [by apply (to_entries _ Ht) | done].
    + destruct H as [| (t0 & b & [= ->] & HP)]; [done |]. by eapply admitted_ok.
  - destruct H as [| (t0 & b & [= ->] & HP)]; [done |]. by eapply admitted_ok.
Qed.

(** ** The request *)

(** When the code means to ask for a symbol: it is alive, has tries left, has waited (the
    settle time before the first request, the repeat time between two), and the answer can
    land before the deadline. *)
Definition due (t : NackTracker) (now gap : Z) (e : Entry) : Prop :=
  dead e = false /\ tries e < max_tries (cfg_ t) /\
  (if tries e =? 0 then first_missing_ms e + settle_ms_ t <= now
   else last_sent_ms e + repeat_ms (cfg_ t) <= now) /\
  now + min_lead_ms (cfg_ t) <= first_missing_ms e + gap.

Lemma due_ok_spec t now i s e :
  tracker_ok t -> poll_ok now i -> entry_ok (cfg_ t) s e ->
  due_ok t now i e = true <-> due t now (gap_timeout_ms i) e.
Proof.
  intros [Hc Hse _ _] (Hn & Hg & _) [_ Hm Hl _]. unfold cfg_ok, ms_ok in *.
  unfold due_ok, ready, waited, in_time, due, ms64.
  rewrite (wrap_small 64 (settle_ms_ t)) by (unfold in_width; lia).
  rewrite (wrap_small 64 (repeat_ms _)) by (unfold in_width; lia).
  rewrite (wrap_small 64 (min_lead_ms _)) by (unfold in_width; lia).
  rewrite (wrap_small 64 (first_missing_ms e + _)) by (unfold in_width; lia).
  rewrite (wrap_small 64 (now + _)) by (unfold in_width; lia).
  rewrite !andb_true_iff, !negb_true_iff, orb_false_iff, Z.leb_gt, !Z.ltb_ge.
  destruct (tries e =? 0); rewrite wrap_small by (unfold in_width; lia); tauto.
Qed.

Lemma due_keys_spec t now i s :
  tracker_ok t -> poll_ok now i ->
  s ∈ due_keys t now i <-> exists e, entries_ t !! s = Some e /\ due t now (gap_timeout_ms i) e.
Proof.
  intros Ht Hp. rewrite elem_of_due_keys. split; intros (e & He & Hd); exists e; (split; [done |]).
  - by apply (due_ok_spec t now i s) in Hd; [| | | apply (to_entries _ Ht)].
  - by apply (due_ok_spec t now i s); [| | apply (to_entries _ Ht) |].
Qed.

Lemma due_keys_width t now i : tracker_ok t -> Forall (in_width 32) (due_keys t now i).
Proof.
  intros Ht. apply Forall_forall. intros s Hs. apply elem_of_due_keys in Hs as (e & He & _).
  by apply (to_entries _ Ht) in He as [].
Qed.

(** The request record over some runs. *)
Definition nack_of (c f : Z) (runs : list NackEntry) : Nack :=
  mkNack c 0 f (Z.of_nat (length runs))
    (runs ++ replicate (Z.to_nat kMaxNackEntries - length runs) default_entry).

Lemma nack_of_ok c f runs :
  in_width 32 c -> is_byte f -> runs <> [] -> (length runs <= Z.to_nat kMaxNackEntries)%nat ->
  Forall run_ok runs ->
  nack_typed (nack_of c f runs) /\ nack_on_wire (nack_of c f runs) = nack_of c f runs /\
  requested (nack_of c f runs) = concat (map requested_run runs).
Proof.
  intros Hc Hf Hne Hl Ho.
  assert (Htake : take (Z.to_nat (n (nack_of c f runs))) (e (nack_of c f runs)) = runs).
  { cbn [n e nack_of]. by rewrite Nat2Z.id, take_app_length. }
  split; [| split].
  - unfold nack_typed. cbn [n_counter sid n_flags n e nack_of]. split; [done |]. split; [decided |].
    split; [done |]. split; [destruct runs; [done |]; cbn [length] in *; lia |].
    split; [rewrite length_app, length_replicate; lia |].
    apply Forall_app. split; [eapply Forall_impl; [exact Ho | by intros x []] |].
    apply Forall_replicate. split; decided.
  - unfold nack_on_wire. rewrite Htake. cbn [n_counter sid n_flags n nack_of]. rewrite Nat2Z.id.
    unfold nack_of. f_equal. f_equal. clear -Ho. induction Ho as [|x l [_ E] _ IH]; [done |]. cbn. by rewrite E, IH.
  - unfold requested. by rewrite Htake.
Qed.

Lemma count_if t (b : bool) k :
  same_link t (if b then count_ t k else t) /\
  counter_ (if b then count_ t k else t) = counter_ t /\
  entries_ (if b then count_ t k else t) = entries_ t /\
  (forall x, x <> k -> stats_ (if b then count_ t k else t) x = stats_ t x).
Proof. destruct b; split_all; try done. intros x Hx. cbn. by rewrite decide_False. Qed.

(** The request built from a due list. *)
Lemma build_request_spec t now l :
  l <> [] -> StronglySorted Z.lt l -> Forall (in_width 32) l ->
  (forall s, s ∈ l -> is_Some (entries_ t !! s)) ->
  let '(t', k) := build_request t now l in
  exists rest, l = requested k ++ rest /\ requested k <> [] /\
    (rest = [] \/ n k = kMaxNackEntries) /\ nack_typed k /\ nack_on_wire k = k /\
    n_counter k = u32 (counter_ t + 1) /\ counter_ t' = n_counter k /\ same_link t t' /\
    n_flags k = (if existsb (repeated t) (requested k) then kNackFlagRepeat else 0) /\
    stats_ t' requests = u64 (stats_ t requests + 1) /\
    u64 (stats_ t' syms_requested) = u64 (stats_ t syms_requested + Z.of_nat (length (requested k))) /\
    (forall s, entries_ t' !! s = (fun e => if decide (s ∈ requested k) then sent now e else e) <$> entries_ t !! s).
Proof.
  intros Hne Hs Hw Hin. unfold build_request. cbn zeta. set (tc := set_counter t _).
  destruct (fill_runs_spec (Z.to_nat kMaxNackEntries) now l false tc Hs Hw)
    as (tk & rest & runs & -> & -> & Hr & Ho & Hl & Hf & H0).
  destruct H0 as [Hru Htk]; [done | by compute |]. cbn [orb].
  apply sorted_app_l, sorted_lt_nodup in Hs.
  destruct (request_all now tc tk Hs) as ([L1 L2] & R1 & R2 & R3 & R4).
  { intros s Hsk. apply Hin, elem_of_app. by left. }
  set (t2 := foldl _ tc tk) in *.
  set (rep := existsb (repeated tc) tk).
  destruct (count_if t2 rep repeats) as ([F0 F0'] & F1 & F4 & F2).
  set (t3 := if rep then count_ t2 repeats else t2) in *. clearbody t3 t2.
  assert (Hcw : in_width 32 (counter_ t3)) by (rewrite F1, R1; apply wrap_in_width; lia).
  destruct (nack_of_ok (counter_ t3) (if rep then kNackFlagRepeat else 0) runs) as (N1 & N2 & N3);
    [done | by destruct rep; decided | done | done | done |].
  unfold nack_of in *. set (k := mkNack _ _ _ _ _) in *. rewrite N3, Hr.
  assert (Hk : n_counter k = u32 (counter_ t + 1)) by (cbn; by rewrite F1, R1).
  assert (Hrest : rest = [] \/ n k = kMaxNackEntries) by (destruct Hf as [-> | E]; [by left | right; cbn; by rewrite E]).
  assert (Hfl : n_flags k = if rep then kNackFlagRepeat else 0) by done. clearbody k.
  exists rest. split; [done |]. split; [done |]. split; [done |]. split; [done |]. split; [done |].
  split; [done |]. split; [cbn; by rewrite F1, R1, Hk |].
  split; [split; cbn; [by rewrite F0, L1 | by rewrite F0', L2] |]. split; [done |].
  split; [cbn; rewrite F2 by done; by rewrite R2 |].
  split; [rewrite count_stat, decide_False, F2 by done; exact R3 |].
  intros s. cbn [entries_ count_]. rewrite F4. apply R4.
Qed.

Lemma kill_all t l :
  NoDup l -> (forall s, s ∈ l -> is_Some (entries_ t !! s)) ->
  let t' := foldl kill_due t l in
  same_link t t' /\ counter_ t' = counter_ t /\ stats_ t' = stats_ t /\
  (forall s, entries_ t' !! s = (fun e => if decide (s ∈ l) then kill e else e) <$> entries_ t !! s).
Proof.
  intros Hn. revert t. induction Hn as [|s l Hs Hn IH]; intros t Hl; cbn [foldl].
  { split; [done |]. split; [done |]. split; [done |]. intros s.
    destruct (entries_ t !! s); cbn; [| done]. by rewrite decide_False by inversion 1. }
  destruct (Hl s) as [e He]; [constructor |].
  destruct (IH (kill_due t s)) as (H1 & H2 & H3 & H4).
  { intros k Hk. cbn. destruct (decide (k = s)) as [-> |]; [by rewrite lookup_insert_eq |].
    rewrite lookup_insert_ne by done. apply Hl. by constructor. }
  split; [done |]. split; [done |]. split; [done |]. intros k. rewrite H4. cbn [entries_ kill_due set_entries].
  unfold entry_at. rewrite He. cbn [default from_option id]. destruct (decide (k = s)) as [-> |].
  - rewrite lookup_insert_eq, He. cbn. rewrite decide_False by done. by rewrite decide_True by constructor.
  - rewrite lookup_insert_ne by done. destruct (entries_ t !! k); [| done]. cbn. f_equal.
    destruct (decide (k ∈ l)); [rewrite decide_True by (by constructor); done |].
    rewrite decide_False; [done |]. intros Hk. apply elem_of_cons in Hk as []; done.
Qed.

(** Everything [poll] does, on each of its branches. *)
Definition silent (t t' : NackTracker) : Prop :=
  counter_ t' = counter_ t /\ stats_ t' requests = stats_ t requests /\
  stats_ t' syms_requested = stats_ t syms_requested.

Definition poll_done (t : NackTracker) (now : Z) (i : NackInputs) (t' : NackTracker) (r : option Nack) : Prop :=
  let p := polled t now i in
  let aged e := if too_late p now i e then kill e else e in
  match r with
  | Some k =>
      exists rest, due_keys p now i = requested k ++ rest /\ requested k <> [] /\
        (rest = [] \/ n k = kMaxNackEntries) /\ nack_typed k /\ nack_on_wire k = k /\
        n_counter k = u32 (counter_ t + 1) /\ counter_ t' = n_counter k /\
        n_flags k = (if existsb (repeated p) (requested k) then kNackFlagRepeat else 0) /\
        stats_ t' requests = u64 (stats_ t requests + 1) /\
        u64 (stats_ t' syms_requested) = u64 (stats_ t syms_requested + Z.of_nat (length (requested k))) /\
        (forall s, entries_ t' !! s =
           (fun e => if decide (s ∈ requested k) then sent now e else aged e) <$> entries_ p !! s) /\
        d_leb (down_util i) (util i) = false
  | None =>
      silent t t' /\
      ((due_keys p now i = [] /\ forall s, entries_ t' !! s = aged <$> entries_ p !! s) \/
       (due_keys p now i <> [] /\ d_leb (down_util i) (util i) = true /\
        forall s, entries_ t' !! s =
          (fun e => if decide (s ∈ due_keys p now i) then kill e else aged e) <$> entries_ p !! s))
  end.

Lemma existsb_entries t t' l :
  (forall s, s ∈ l -> entries_ t !! s = entries_ t' !! s) ->
  existsb (repeated t) l = existsb (repeated t') l.
Proof.
  induction l as [|s l IH]; intros Hl; [done |]. cbn [existsb]. rewrite IH by (intros; apply Hl; by constructor).
  f_equal. unfold repeated, entry_at. by rewrite (Hl s) by constructor.
Qed.

Lemma collected_due p now i td s :
  collect p now i = td -> s ∈ due_keys p now i -> entries_ td.1 !! s = entries_ p !! s.
Proof.
  intros <- Hs. pose proof (collect_spec p now i) as H. destruct (collect p now i) as [t' d].
  destruct H as (_ & _ & _ & _ & H). cbn [fst]. rewrite H.
  apply elem_of_due_keys in Hs as (e & -> & Hd). cbn. by rewrite due_not_late.
Qed.

Lemma poll_spec t now i :
  tracker_ok t -> poll_ok now i -> enable (cfg_ t) = true ->
  let '(t', r) := poll t now i in
  cfg_ t' = cfg_ t /\ settle_ms_ t' = settle_ms_ (polled t now i) /\ poll_done t now i t' r.
Proof.
  intros Ht Hp He. unfold poll. rewrite He. cbn [negb]. cbn zeta.
  pose proof (polled_quiet t now i (to_cfg _ Ht)) as Q. pose proof (polled_ok t now i Ht Hp) as Hpo.
  unfold poll_done. cbn zeta. fold (polled t now i). set (p := polled t now i) in *. clearbody p.
  pose proof (fun td s => collected_due p now i td s) as Hcd.
  pose proof (collect_spec p now i) as Hc. destruct (collect p now i) as [tc d] eqn:Ec.
  destruct Hc as (-> & [C1 C1'] & C2 & C3 & C4).
  pose proof (due_keys_sorted p now i) as Hs. pose proof (due_keys_width p now i Hpo) as Hw.
  assert (Hin : forall s, s ∈ due_keys p now i -> is_Some (entries_ tc !! s)).
  { intros s Hk. specialize (Hcd _ s eq_refl Hk). cbn in Hcd. rewrite Hcd.
    apply elem_of_due_keys in Hk as (e & -> & _). done. }
  assert (Hsil : silent t tc).
  { split; [by rewrite C2, (q_counter _ _ Q) |]. split.
    - rewrite C3 by done. apply (q_requests _ _ Q). - rewrite C3 by done. apply (q_syms _ _ Q). }
  destruct (due_keys p now i) as [|s0 dl] eqn:Ed.
  { split; [by rewrite C1, (q_cfg _ _ Q) |]. split; [done |]. split; [done |]. left. split; [done | apply C4]. }
  rewrite <- Ed in *. assert (Hne : due_keys p now i <> []) by (by rewrite Ed). clear Ed.
  destruct (d_leb (down_util i) (util i)).
  - destruct (kill_all (count_ tc suppressed) _ (sorted_lt_nodup _ Hs) Hin) as ([K1 K1'] & K2 & K3 & K4).
    split; [by rewrite K1, C1', C1 || (cbn in K1; rewrite K1, C1; apply (q_cfg _ _ Q)) |].
    split; [rewrite K1'; exact C1' |]. split.
    { destruct Hsil as (S1 & S2 & S3). unfold silent. rewrite K2, K3. done. }
    right. split; [done |]. split; [done |]. intros s. rewrite K4. cbn [entries_ count_].
    rewrite C4. destruct (entries_ p !! s) as [x|] eqn:Ex; [| done]. cbn. f_equal.
    case_decide as Hk; [| done]. apply elem_of_due_keys in Hk as (y & Hy & Hd). simplify_eq.
    by rewrite due_not_late.
  - pose proof (build_request_spec tc now _ Hne Hs Hw Hin) as B.
    destruct (build_request tc now _) as [t' k].
    destruct B as (rest & B1 & B2 & B3 & B4 & B5 & B6 & B7 & [B8 B8'] & B9 & B10 & B11 & B12).
    destruct Hsil as (S1 & S2 & S3).
    split; [by rewrite B8, C1, (q_cfg _ _ Q) |]. split; [by rewrite B8', C1' |].
    exists rest. rewrite S1 in B6. rewrite S2 in B10. rewrite S3 in B11.
    split; [done |]. split; [done |]. split; [done |]. split; [done |]. split; [done |].
    split; [done |]. split; [done |]. split.
    { rewrite B9, (existsb_entries tc p); [done |].
      intros s Hk. apply (Hcd (tc, due_keys p now i)); [done |]. rewrite B1. apply elem_of_app. by left. }
    split; [done |]. split; [done |]. split; [| done].
    intros s. rewrite B12, C4. destruct (entries_ p !! s) as [x|] eqn:Ex; [| done]. cbn. f_equal.
    case_decide as Hk; [| done]. assert (Hk' : s ∈ due_keys p now i) by (rewrite B1; apply elem_of_app; by left).
    apply elem_of_due_keys in Hk' as (y & Hy & Hd). simplify_eq. by rewrite due_not_late.
Qed.

Lemma poll_disabled t now i : enable (cfg_ t) = false -> poll t now i = (t, None).
Proof. intros H. unfold poll. by rewrite H. Qed.

Lemma sent_ok c s e now : ms_ok now -> entry_ok c s e -> tries e < max_tries c -> entry_ok c s (sent now e).
Proof. intros ? [] ?. split; cbn; [done | done | done | lia]. Qed.

Lemma aged_ok c s (b : bool) e : entry_ok c s e -> entry_ok c s (if b then kill e else e).
Proof. intros. destruct b; [by apply entry_ok_kill | done]. Qed.

Lemma poll_inv t now i : tracker_ok t -> poll_ok now i -> tracker_ok (poll t now i).1.
Proof.
  intros Ht Hp. destruct (enable (cfg_ t)) eqn:He; [| by rewrite poll_disabled].
  pose proof (poll_spec t now i Ht Hp He) as H. destruct (poll t now i) as [t' r]. cbn [fst].
  destruct H as (H1 & H2 & H3). pose proof (polled_ok t now i Ht Hp) as Hpo.
  pose proof (q_cfg _ _ (polled_quiet t now i (to_cfg _ Ht))) as Hc.
  split; [rewrite H1; apply Ht | rewrite H2; apply Hpo | |].
  - unfold poll_done in H3. destruct r as [k|].
    + destruct H3 as (? & _ & _ & _ & _ & _ & E & -> & _). rewrite E. apply wrap_in_width. lia.
    + destruct H3 as [[-> _] _]. apply Ht.
  - rewrite H1, <- Hc. intros s e. unfold poll_done in H3. cbn zeta in H3. set (p := polled t now i) in *. destruct r as [k|].
    + destruct H3 as (rest & Hd & _ & _ & _ & _ & _ & _ & _ & _ & _ & E & _). rewrite E.
      destruct (entries_ p !! s) as [x|] eqn:Ex; [| intros H'; discriminate H']. cbn. intros [= <-].
      pose proof (to_entries _ Hpo _ _ Ex) as Hx. case_decide as Hk; [| by apply aged_ok].
      apply sent_ok; [apply Hp | done |].
      assert (Hk' : s ∈ due_keys p now i) by (rewrite Hd; apply elem_of_app; by left).
      apply due_keys_spec in Hk' as (y & Hy & _ & Hlt & _); [| done | done]. by simplify_eq.
    + destruct H3 as [_ [[_ E] | (_ & _ & E)]]; rewrite E; (destruct (entries_ p !! s) as [x|] eqn:Ex; [| intros H'; discriminate H']);
        cbn; intros [= <-]; pose proof (to_entries _ Hpo _ _ Ex) as Hx; [by apply aged_ok |].
      case_decide; [by apply entry_ok_kill | by apply aged_ok].
Qed.

(** ** Sessions *)

Inductive NOp := OpPoll (now : Z) (i : NackInputs) | OpClear | OpEnable (on : bool) | OpWindow.
Definition nstep (t : NackTracker) (o : NOp) : NackTracker * list (Z * NackInputs * Nack) :=
  match o with
  | OpPoll now i => let '(t, r) := poll t now i in (t, match r with Some k => [(now, i, k)] | None => [] end)
  | OpClear => (clear t, [])
  | OpEnable on => (set_enable t on, [])
  | OpWindow => (snd (take_window t), [])
  end.
Fixpoint nrun (t : NackTracker) (ops : list NOp) : NackTracker * list (Z * NackInputs * Nack) :=
  match ops with
  | [] => (t, [])
  | o :: ops => let '(t, l) := nstep t o in let '(t, l') := nrun t ops in (t, l ++ l')
  end.
Definition nop_ok (o : NOp) : Prop := match o with OpPoll now i => poll_ok now i | _ => True end.

Lemma new_tracker_ok cfg : cfg_ok cfg -> tracker_ok (new_tracker cfg).
Proof.
  intros Hc. split; [done | cbn; unfold cfg_ok in Hc; tauto | decided |].
  cbn. intros s e He. by rewrite lookup_empty in He.
Qed.

Lemma nstep_inv t o : tracker_ok t -> nop_ok o -> tracker_ok (nstep t o).1.
Proof.
  intros Ht Ho. destruct o as [now i | | on |]; cbn [nstep].
  - pose proof (poll_inv t now i Ht Ho) as H. by destruct (poll t now i).
  - by destruct Ht.
  - destruct Ht as [H1 H2 H3 H4]. unfold set_enable. destruct on; (split; [exact H1 | exact H2 | exact H3 |]); cbn.
    + intros s e He. by destruct (H4 s e He).
    + intros s e He. by rewrite lookup_empty in He.
  - by destruct Ht.
Qed.

(** The number of a request, and what the request asks for. *)
Definition session (t0 t : NackTracker) (l : list (Z * NackInputs * Nack)) : Prop :=
  map (fun x => n_counter x.2) l = map (fun j => u32 (counter_ t0 + j)) (seqZ 1 (Z.of_nat (length l))) /\
  counter_ t = u32 (counter_ t0 + Z.of_nat (length l)) /\
  u64 (stats_ t requests) = u64 (stats_ t0 requests + Z.of_nat (length l)) /\
  u64 (stats_ t syms_requested) =
    u64 (stats_ t0 syms_requested + Z.of_nat (length (concat (map (fun x => requested x.2) l)))) /\
  Forall (fun x => nack_typed x.2 /\ nack_on_wire x.2 = x.2 /\ requested x.2 <> []) l.

Lemma wrap_add_l w a b : wrap w (wrap w a + b) = wrap w (a + b).
Proof. unfold wrap. apply Zplus_mod_idemp_l. Qed.

Lemma session_trans t1 t2 t3 l l' : session t1 t2 l -> session t2 t3 l' -> session t1 t3 (l ++ l').
Proof.
  intros (A1 & A2 & A3 & A4 & A5) (B1 & B2 & B3 & B4 & B5). unfold session. split_all.
  - rewrite !map_app, length_app, Nat2Z.inj_add, seqZ_app, map_app by lia. rewrite A1, B1. f_equal.
    rewrite A2. replace (1 + Z.of_nat (length l)) with (Z.of_nat (length l) + 1) by lia.
    rewrite <- (fmap_add_seqZ (Z.of_nat (length l)) 1). rewrite map_map. apply map_ext. intros j.
    rewrite wrap_add_l. f_equal. lia.
  - rewrite B2, A2, wrap_add_l, length_app. f_equal. lia.
  - rewrite B3, <- wrap_add_l, A3, wrap_add_l, length_app. f_equal. lia.
  - rewrite B4, <- wrap_add_l, A4, wrap_add_l, map_app, concat_app, length_app. f_equal. lia.
  - by apply Forall_app.
Qed.

Lemma session_quiet t t' :
  in_width 32 (counter_ t) -> counter_ t' = counter_ t -> stats_ t' requests = stats_ t requests ->
  stats_ t' syms_requested = stats_ t syms_requested -> session t t' [].
Proof.
  intros Hw E1 E2 E3. unfold session. rewrite E1, E2, E3. cbn [map length concat Z.of_nat]. rewrite !Z.add_0_r.
  split_all; try done. by rewrite wrap_small.
Qed.

Lemma nstep_session t o : tracker_ok t -> nop_ok o -> session t (nstep t o).1 (nstep t o).2.
Proof.
  intros Ht Ho. pose proof (to_counter _ Ht) as Hw.
  destruct o as [now i | | on |]; cbn [nstep]; [| by apply session_quiet | by destruct on; apply session_quiet | by apply session_quiet].
  destruct (enable (cfg_ t)) eqn:He; [| rewrite poll_disabled by done; by apply session_quiet].
  pose proof (poll_spec t now i Ht Ho He) as H. destruct (poll t now i) as [t' [k|]]; cbn [fst snd].
  - destruct H as (_ & _ & rest & _ & H1 & _ & H2 & H3 & H4 & H5 & _ & H6 & H7 & _ & _).
    unfold session. cbn [map length Z.of_nat concat snd Pos.of_succ_nat seqZ]. rewrite app_nil_r.
    split_all; try done.
    + cbn. by rewrite H4.
    + by rewrite H5, H4.
    + rewrite H6. unfold wrap. apply Zmod_mod.
    + constructor; [done | constructor].
  - destruct H as (_ & _ & (H1 & H2 & H3) & _). by apply session_quiet.
Qed.

Lemma nrun_session ops t :
  tracker_ok t -> Forall nop_ok ops -> session t (nrun t ops).1 (nrun t ops).2 /\ tracker_ok (nrun t ops).1.
Proof.
  revert t. induction ops as [|o ops IH]; intros t Ht Ho; cbn [nrun].
  { split; [| done]. by apply session_quiet; [apply Ht | ..]. }
  apply Forall_cons in Ho as [Ho Hos]. pose proof (nstep_session t o Ht Ho) as Hs.
  pose proof (nstep_inv t o Ht Ho) as Hi. destruct (nstep t o) as [t1 l1]. cbn [fst snd] in *.
  destruct (IH t1 Hi Hos) as [Hs' Hi']. destruct (nrun t1 ops) as [t2 l2]. cbn [fst snd] in *.
  split; [by eapply session_trans | done].
Qed.

(** *** One symbol over a session of polls *)

Definition asked (s : Z) (l : list (Z * NackInputs * Nack)) : list (Z * Z) :=
  map (fun x => (x.1.1, gap_timeout_ms x.1.2)) (filter (fun x => s ∈ requested x.2) l).
Definition settle_floor (c : NackCfg) : Z := Z.min (settle_seed_ms c) (settle_min_ms c).
Definition apart (r a b : Z) : Prop := a + r <= b.

(** The requests so far for [s], against its entry; [P t0]: the symbol may be admitted at [t0]. *)
Definition sym_inv (t : NackTracker) (s : Z) (P : Z -> Prop) (at_ : list (Z * Z)) : Prop :=
  settle_floor (cfg_ t) <= settle_ms_ t /\
  match entries_ t !! s with
  | None => at_ = []
  | Some e =>
      P (first_missing_ms e) /\ tries e = Z.of_nat (length at_) /\
      StronglySorted (apart (repeat_ms (cfg_ t))) at_.*1 /\
      Forall (fun x => x.1 <= last_sent_ms e /\ first_missing_ms e + settle_floor (cfg_ t) <= x.1 /\
                       x.1 + min_lead_ms (cfg_ t) <= first_missing_ms e + x.2) at_
  end.

Lemma asked_app s l l' : asked s (l ++ l') = asked s l ++ asked s l'.
Proof. unfold asked. by rewrite filter_app, map_app. Qed.

Lemma sorted_snoc (R : Z -> Z -> Prop) l x :
  StronglySorted R l -> Forall (fun y => R y x) l -> StronglySorted R (l ++ [x]).
Proof.
  induction 1 as [|y l _ IH HF]; intros Hx; [repeat constructor |].
  apply Forall_cons in Hx as [Hy Hx]. cbn [app]. constructor; [by apply IH |].
  apply Forall_app. split; [done | by constructor].
Qed.

(** While the state stays unknown, resolving keeps the entry's times and tries. *)
Lemma sym_inv_polled t s P at_ now i :
  tracker_ok t -> in_state i s = kUnknown -> (forall t0, admitted_at now i s t0 -> P t0) ->
  sym_inv t s P at_ -> sym_inv (polled t now i) s P at_.
Proof.
  intros Ht Hu HP [Hs He]. pose proof (to_cfg _ Ht) as Hc. pose proof (polled_quiet t now i Hc) as [Q1 _ Q3 _ _].
  split.
  { rewrite Q1. destruct Q3 as [-> | [? _]]; [done |]. unfold settle_floor. lia. }
  pose proof (polled_lookup t now i s Hc) as H. rewrite Q1.
  destruct (entries_ t !! s) as [e|]; cbn [mbind option_bind] in H.
  - unfold resolved in H. rewrite Hu in H. rewrite H. by repeat case_match.
  - subst at_. destruct H as [-> | (t0 & b & -> & Ha)]; [done |]. split; [by apply HP |].
    split; [done |]. split; constructor.
Qed.

(** A request books exactly one more try, apart from the last and in time. *)
Lemma sym_inv_sent t s P at_ now i e :
  tracker_ok t -> poll_ok now i -> sym_inv t s P at_ -> entries_ t !! s = Some e ->
  due t now (gap_timeout_ms i) e ->
  forall t', cfg_ t' = cfg_ t -> settle_ms_ t' = settle_ms_ t -> entries_ t' !! s = Some (sent now e) ->
  sym_inv t' s P (at_ ++ [(now, gap_timeout_ms i)]).
Proof.
  intros Ht Hp [Hs He] E (_ & _ & Hw & Hl) t' E1 E2 E3. rewrite E in He.
  destruct He as (HP & Htr & Hap & HF). unfold sym_inv. rewrite E1, E2, E3. split; [done |].
  assert (Hlast : at_ <> [] -> last_sent_ms e + repeat_ms (cfg_ t) <= now).
  { intros Hne. destruct at_; [done |]. cbn [length] in Htr. by rewrite (proj2 (Z.eqb_neq _ _)) in Hw by lia. }
  assert (Hr : 0 <= repeat_ms (cfg_ t)) by (pose proof (to_cfg _ Ht) as Hc; unfold cfg_ok in Hc; lia).
  cbn [sent first_missing_ms last_sent_ms tries]. split; [done |]. split; [rewrite length_app; cbn; lia |].
  assert (Hne : forall x, x ∈ at_ -> at_ <> []) by (intros x Hx ->; by apply not_elem_of_nil in Hx).
  rewrite Forall_forall in HF. split.
  - rewrite fmap_app. apply sorted_snoc; [done |]. apply Forall_forall. intros y Hy.
    apply list_elem_of_fmap in Hy as (x & -> & Hx). specialize (Hlast (Hne _ Hx)).
    destruct (HF _ Hx) as [? _]. unfold apart. cbn [fst]. lia.
  - apply Forall_app. split.
    + apply Forall_forall. intros x Hx. specialize (Hlast (Hne _ Hx)). destruct (HF _ Hx) as (? & ? & ?).
      split; [lia | done].
    + constructor; [| constructor]. cbn [fst snd]. split; [lia |]. split; [| lia].
      destruct at_ as [|x at_]; [change (tries e = 0) in Htr; rewrite Htr, Z.eqb_refl in Hw; lia |].
      assert (Hx : x ∈ x :: at_) by constructor. specialize (Hlast (Hne _ Hx)).
      destruct (HF _ Hx) as (? & ? & _). lia.
Qed.

Lemma sym_inv_same t t' s P at_ (f : Entry -> Entry) :
  sym_inv t s P at_ -> cfg_ t' = cfg_ t -> settle_ms_ t' = settle_ms_ t ->
  entries_ t' !! s = f <$> entries_ t !! s -> (forall e, f e = e \/ f e = kill e) -> sym_inv t' s P at_.
Proof.
  intros [Hs He] E1 E2 E3 Hf. unfold sym_inv. rewrite E1, E2, E3. split; [done |].
  destruct (entries_ t !! s) as [e|]; [| done]. cbn. by destruct (Hf e) as [-> | ->].
Qed.

Lemma poll_sym t s P at_ now i :
  tracker_ok t -> poll_ok now i -> in_state i s = kUnknown -> (forall t0, admitted_at now i s t0 -> P t0) ->
  sym_inv t s P at_ ->
  sym_inv (nstep t (OpPoll now i)).1 s P (at_ ++ asked s (nstep t (OpPoll now i)).2).
Proof.
  intros Ht Hp Hu HP Hi. cbn [nstep].
  destruct (enable (cfg_ t)) eqn:He; [| rewrite poll_disabled by done; cbn; by rewrite app_nil_r].
  pose proof (poll_spec t now i Ht Hp He) as H. destruct (poll t now i) as [t' r]. cbn [fst snd].
  destruct H as (H1 & H2 & H3). pose proof (polled_ok t now i Ht Hp) as Hpo.
  pose proof (sym_inv_polled t s P at_ now i Ht Hu HP Hi) as Hs.
  rewrite <- (q_cfg _ _ (polled_quiet t now i (to_cfg _ Ht))) in H1.
  unfold poll_done in H3. cbn zeta in H3. set (p := polled t now i) in *. destruct r as [k|].
  - destruct H3 as (rest & Hd & _ & _ & _ & _ & _ & _ & _ & _ & _ & E & _). specialize (E s).
    unfold asked. rewrite filter_cons. cbn [snd filter list_filter]. case_decide as Hk.
    + assert (Hk' : s ∈ due_keys p now i) by (rewrite Hd; apply elem_of_app; by left).
      apply due_keys_spec in Hk' as (e & Ee & Hdue); [| done | done]. rewrite Ee in E. cbn in E.
      by apply (sym_inv_sent p s P at_ now i e).
    + cbn [map]. rewrite app_nil_r. eapply sym_inv_same; [exact Hs | done | done | exact E |].
      intros x. cbn beta. destruct (too_late p now i x); [by right | by left].
  - cbn [map asked filter list_filter]. unfold asked. cbn [filter list_filter map]. rewrite app_nil_r.
    destruct H3 as [_ [[_ E] | (_ & _ & E)]]; (eapply sym_inv_same; [exact Hs | done | done | exact (E s) |]); intros x; cbn beta.
    + destruct (too_late p now i x); [by right | by left].
    + case_decide; [by right |]. destruct (too_late p now i x); [by right | by left].
Qed.

Lemma poll_cfg t now i : tracker_ok t -> poll_ok now i -> cfg_ (nstep t (OpPoll now i)).1 = cfg_ t.
Proof.
  intros Ht Hp. cbn [nstep]. destruct (enable (cfg_ t)) eqn:He; [| by rewrite poll_disabled].
  pose proof (poll_spec t now i Ht Hp He) as H. destruct (poll t now i). by destruct H.
Qed.

Lemma polls_sym polls t s P at_ :
  tracker_ok t -> Forall (fun p => poll_ok p.1 p.2 /\ in_state p.2 s = kUnknown /\
                           forall t0, admitted_at p.1 p.2 s t0 -> P t0) polls ->
  sym_inv t s P at_ ->
  let r := nrun t (map (fun p => OpPoll p.1 p.2) polls) in
  sym_inv r.1 s P (at_ ++ asked s r.2) /\ cfg_ r.1 = cfg_ t /\ tracker_ok r.1.
Proof.
  intros Ht Hf. revert t at_ Ht. induction Hf as [|[now i] polls (Hp & Hu & HP) Hf IH]; intros t at_ Ht Hi; cbn [map nrun].
  { cbn. by rewrite app_nil_r. }
  pose proof (poll_cfg t now i Ht Hp) as Hc. pose proof (poll_sym t s P at_ now i Ht Hp Hu HP Hi) as Hi'. pose proof (nstep_inv t (OpPoll now i) Ht Hp) as Ht'.
  destruct (nstep t (OpPoll (now, i).1 (now, i).2)) as [t1 l1] eqn:E1. cbn [fst snd] in *. rewrite E1 in *. cbn [fst snd] in *.
  destruct (IH t1 _ Ht' Hi') as (H1 & H2 & H3). destruct (nrun t1 _) as [t2 l2]. cbn [fst snd] in *.
  rewrite asked_app, app_assoc, H2, Hc. done.
Qed.

(** ** Properties *)

(** A request asks for exactly what is due.  In any reachable state of an enabled
    tracker, a poll that sends lists the due sequence numbers -- alive, tries left, settle or
    repeat time over, the answer able to land before the deadline -- in ascending order, all
    of them or as many as four runs hold; the drone parses from the frame, whatever bytes the
    radio appends, the same request; each listed entry books one more try at this time and no
    other entry's times or tries change; the repeat flag tells whether one was asked for
    before.  A poll that is silent had nothing due, or the link was loaded, and then every
    due entry is dead: no burst follows. *)
Theorem nack_request_exact t now i key ctx air :
  tracker_ok t -> poll_ok now i -> enable (cfg_ t) = true ->
  let p := polled t now i in
  let is_due s := exists e, entries_ p !! s = Some e /\ due p now (gap_timeout_ms i) e in
  match poll t now i with
  | (t', Some k) =>
      (exists rest, StronglySorted Z.lt (requested k ++ rest) /\
         (forall s, s ∈ requested k ++ rest <-> is_due s) /\ (rest = [] \/ n k = kMaxNackEntries)) /\
      requested k <> [] /\ d_leb (down_util i) (util i) = false /\
      parse_nack (pack_nack k key ctx ++ air) = Some (Some k) /\
      (n_flags k = kNackFlagRepeat <-> exists s e, s ∈ requested k /\ entries_ p !! s = Some e /\ tries e <> 0) /\
      (forall s e, entries_ p !! s = Some e ->
         entries_ t' !! s = Some (if decide (s ∈ requested k) then sent now e
                                  else if too_late p now i e then kill e else e))
  | (t', None) =>
      (forall s, ~ is_due s) \/
      (d_leb (down_util i) (util i) = true /\
       forall s, is_due s -> exists e, entries_ t' !! s = Some e /\ dead e = true)
  end.
Proof.
  intros Ht Hp He. pose proof (poll_spec t now i Ht Hp He) as H. pose proof (polled_ok t now i Ht Hp) as Hpo.
  cbn zeta. destruct (poll t now i) as [t' r]. destruct H as (_ & _ & H). unfold poll_done in H. cbn zeta in H.
  set (p := polled t now i) in *. pose proof (fun s => due_keys_spec p now i s Hpo Hp) as Hds. destruct r as [k|].
  - destruct H as (rest & H1 & H2 & H3 & H4 & H5 & _ & _ & H6 & _ & _ & H7 & H8).
    split. { exists rest. rewrite <- H1. split; [apply due_keys_sorted |]. by split. }
    split; [done |]. split; [done |]. split; [by rewrite parse_pack_nack, H5 |]. split.
    + rewrite H6. destruct (existsb (repeated p) (requested k)) eqn:Ex.
      * apply existsb_exists in Ex as (s & Hin & Hr). apply list_elem_of_In in Hin. split; [| done]. intros _.
        assert (Hk : s ∈ due_keys p now i) by (rewrite H1; apply elem_of_app; by left).
        apply Hds in Hk as (e & Ee & _). exists s, e. split; [done |]. split; [done |].
        unfold repeated, entry_at in Hr. rewrite Ee in Hr. by apply negb_true_iff, Z.eqb_neq in Hr.
      * split; [done |]. intros (s & e & Hin & Ee & Hne). exfalso. apply not_true_iff_false in Ex. apply Ex.
        apply existsb_exists. exists s. split; [by apply list_elem_of_In |]. unfold repeated, entry_at.
        rewrite Ee. by apply negb_true_iff, Z.eqb_neq.
    + intros s e Ee. by rewrite H7, Ee.
  - destruct H as [_ [[H1 _] | (_ & H2 & H3)]].
    + left. intros s Hs. apply Hds in Hs. rewrite H1 in Hs. by apply not_elem_of_nil in Hs.
    + right. split; [done |]. intros s Hs. apply Hds in Hs as Hk. destruct Hs as (e & Ee & _).
      exists (kill e). rewrite H3, Ee. cbn. by rewrite decide_True.
Qed.

(** Boundedly many requests.  Over any history of polls, clears and switches, requests
    are numbered consecutively from 1 (so the drone, which accepts only greater numbers,
    accepts each), every one is non-empty, well formed and survives the wire, and the
    counters count them and the symbols they name.  And a symbol the decoder never learns is
    asked for at most [max_tries] times, at least [repeat_ms] apart, never before the settle
    time after it was first missed, and never so late that the answer would miss the
    deadline. *)
Theorem nack_bounded cfg ops polls s :
  cfg_ok cfg -> Forall nop_ok ops ->
  Forall (fun p => poll_ok p.1 p.2 /\ in_state p.2 s = kUnknown) polls ->
  session (new_tracker cfg) (nrun (new_tracker cfg) ops).1 (nrun (new_tracker cfg) ops).2 /\
  let at_ := asked s (nrun (new_tracker cfg) (map (fun p => OpPoll p.1 p.2) polls)).2 in
  Z.of_nat (length at_) <= max_tries cfg /\ StronglySorted (apart (repeat_ms cfg)) at_.*1 /\
  (at_ = [] \/ exists t0, (exists p, p ∈ polls /\ admitted_at p.1 p.2 s t0) /\
     Forall (fun x => t0 + settle_floor cfg <= x.1 /\ x.1 + min_lead_ms cfg <= t0 + x.2) at_).
Proof.
  intros Hc Ho Hf. pose proof (new_tracker_ok cfg Hc) as Ht. split; [by apply nrun_session |]. cbn zeta.
  set (P t0 := exists p, p ∈ polls /\ admitted_at p.1 p.2 s t0).
  destruct (polls_sym polls (new_tracker cfg) s P [] Ht) as ([_ H] & Hcf & Hr).
  { rewrite Forall_forall in Hf. apply Forall_forall. intros p Hin. destruct (Hf _ Hin).
    split; [done |]. split; [done |]. intros t0 Ha. by exists p. }
  { split; [cbn; unfold settle_floor; lia |]. cbn. by rewrite lookup_empty. }
  cbn [app] in H. set (at_ := asked s _) in *. destruct (nrun _ _) as [t' l]. cbn [fst] in *.
  rewrite Hcf in H. cbn [cfg_ new_tracker] in *. destruct (entries_ t' !! s) as [e|] eqn:E.
  - destruct H as (HP & Htr & Hap & HF). pose proof (eo_tries _ _ _ (to_entries _ Hr _ _ E)) as Hm.
    rewrite Hcf in Hm. split; [cbn in Hm; lia |]. split; [done |]. right. exists (first_missing_ms e).
    split; [done |]. eapply Forall_impl; [exact HF |]. cbn. tauto.
  - rewrite H. split; [cbn; unfold cfg_ok in Hc; lia |]. split; [constructor | by left].
Qed.

(** ** Witnesses *)

Definition demo_cfg : NackCfg := mkNackCfg true 256 16 2 12 4 24 12 10000 50.
Definition demo_in : NackInputs :=
  mkInputs [7; 8; 9; 40; 100; 200; 300; 400] (fun _ => kUnknown)
    (Some (mkTail 5 2 500 1001)) (d_of_Z 0) (d_of_Z 1) 50.

Lemma demo_cfg_ok : cfg_ok demo_cfg.
Proof. unfold cfg_ok. cbn. lia. Qed.

Lemma demo_poll_ok now : ms_ok now -> poll_ok now demo_in.
Proof.
  intros H. split; [done |]. split; [decided |]. split; [decided |]. intros tv [= <-]. decided.
Qed.

Definition demo_polls : list (Z * NackInputs) := [(1000, demo_in); (1012, demo_in); (1028, demo_in); (1060, demo_in)].

(** The first poll admits, the second asks for four runs' worth, the third for the rest and
    for what is due again. *)
Theorem nack_request_exact_witness :
  let t := (nstep (new_tracker demo_cfg) (OpPoll 1000 demo_in)).1 in
  tracker_ok t /\ poll_ok 1012 demo_in /\ enable (cfg_ t) = true /\
  exists k, (poll t 1012 demo_in).2 = Some k /\ requested k = [7; 8; 9; 40; 100; 200] /\
    parse_nack (pack_nack k kDefaultLinkKey no_ctx ++ [1; 2; 3]) = Some (Some k).
Proof.
  cbn zeta. set (t := (nstep _ _).1).
  assert (Ht : tracker_ok t) by (apply nstep_inv; [apply new_tracker_ok, demo_cfg_ok | apply demo_poll_ok; decided]).
  assert (Hp : poll_ok 1012 demo_in) by (apply demo_poll_ok; decided).
  assert (He : enable (cfg_ t) = true) by (vm_compute; reflexivity).
  split; [done |]. split; [done |]. split; [done |].
  pose proof (nack_request_exact t 1012 demo_in kDefaultLinkKey no_ctx [1; 2; 3] Ht Hp He) as H. cbn zeta in H.
  assert (E : option_map requested (poll t 1012 demo_in).2 = Some [7; 8; 9; 40; 100; 200])
    by (vm_compute; reflexivity).
  destruct (poll t 1012 demo_in) as [t' [k|]]; [| discriminate E].
  injection E as E. destruct H as (_ & _ & _ & H & _). exists k. split; [reflexivity | split; [exact E | exact H]].
Defined.

Theorem nack_bounded_witness :
  cfg_ok demo_cfg /\
  let at_ := asked 9 (nrun (new_tracker demo_cfg) (map (fun p => OpPoll p.1 p.2) demo_polls)).2 in
  at_ = [(1012, 50); (1028, 50)] /\ Z.of_nat (length at_) <= 2.
Proof.
  assert (Hf : Forall (fun p => poll_ok p.1 p.2 /\ in_state p.2 9 = kUnknown) demo_polls).
  { repeat (constructor; [split; [apply demo_poll_ok; decided | done] |]). constructor. }
  assert (Ho : Forall nop_ok (map (fun p => OpPoll p.1 p.2) demo_polls)).
  { apply Forall_map. eapply Forall_impl; [exact Hf |]. by intros x []. }
  destruct (nack_bounded demo_cfg _ demo_polls 9 demo_cfg_ok Ho Hf) as [_ [H _]].
  split; [apply demo_cfg_ok |]. cbn zeta. split; [vm_compute; reflexivity | exact H].
Defined.
