(* ===== verification/UepEncoder.v ===== *)
(** * UepEncoder: frames to radio bodies (common/src/uep_encoder.cpp)

    One pipeline per temporal layer: a frame is fragmented, its fragments go through the
    layer's sliding-window encoder, and the envelopes are grouped into radio bodies.  The
    encoder of a layer runs with or without a worker thread; the pipeline is written against
    the interface both offer. *)
From S2P Require Import Prelude Bytes SwWire Framing Sbi SwConfig SwEncoder SwEncoderSound AsyncEncoder AsyncEncoderSound.
Local Open Scope Z_scope.
Local Open Scope mabur_scope.

(** ** The layer encoder's interface (SwEncoder's public methods) *)

Class FecEncoder (E : Type) := {
  fe_add : E -> list Z -> list Z -> option (E * list (list Z));
  fe_flush : E -> option (E * list (list Z));
  fe_finish : E -> option (E * list (list Z));
  fe_collect : E -> E * list (list Z);
  fe_outstanding : E -> E * bool;
  fe_set_overhead : E -> double -> E;
}.

(** No worker: nothing is ever outstanding. *)
#[export] Instance sync_encoder : FecEncoder SwEncoder := {
  fe_add := add_packet;
  fe_flush := SwEncoder.flush;
  fe_finish e := Some (e, []);
  fe_collect e := (e, []);
  fe_outstanding e := (e, false);
  fe_set_overhead := set_overhead;
}.

(** With a worker; it may run before the outstanding count is read. *)
#[export] Instance async_encoder : FecEncoder Async := {
  fe_add := async_add_packet;
  fe_flush := async_flush;
  fe_finish := finish;
  fe_collect := collect;
  fe_outstanding a := let a := fst (yield a) in (a, repairs_outstanding a);
  fe_set_overhead a x := set_enc a (set_overhead (enc a) x);
}.

(** What the interface promises: an implementation runs alongside the synchronous encoder
    and hands out only envelopes that one has emitted so far ([pool]). *)
Class FecEncoderSpec (E : Type) `{FecEncoder E} := {
  fe_sim : E -> SwEncoder -> list (list Z) -> Prop;
  fe_sim_op x e pool o e' out : fe_sim x e pool -> estep e o = Some (e', out) ->
    exists x' out', match o with
      | AddPacket a b => fe_add x a b
      | Flush => fe_flush x
      | SetOverhead v => Some (fe_set_overhead x v, [])
      end = Some (x', out') /\ fe_sim x' e' (pool ++ out) /\ Forall (.∈ pool ++ out) out';
  fe_sim_finish x e pool : fe_sim x e pool ->
    exists x' out', fe_finish x = Some (x', out') /\ fe_sim x' e pool /\ Forall (.∈ pool) out';
  fe_sim_collect x e pool : fe_sim x e pool ->
    fe_sim (fe_collect x).1 e pool /\ Forall (.∈ pool) (fe_collect x).2;
  fe_sim_outstanding x e pool : fe_sim x e pool -> fe_sim (fe_outstanding x).1 e pool;
}.

(** ** Data *)

Record UepLayerCfg := mkUepLayerCfg { fec : SwConfig; blocks_per_body : Z }.

Record UepBody := mkUepBody {
  b_stream_id : Z; body : list Z; enqueued_ms : Z; pushed_us : Z; au_first : bool;
}.
Definition new_body (sid : Z) (b : list Z) : UepBody := mkUepBody sid b 0 0 false.

(** What leaves the pipeline: bodies, and the source envelopes shown to the tap. *)
Definition Out : Type := list UepBody * list (Z * Z * list Z).
Definition no_out : Out := ([], []).
Definition join_out (a b : Out) : Out := (a.1 ++ b.1, a.2 ++ b.2).

Definition kNumStreams : Z := 2.

Section Pipeline.
Context {E : Type} `{FecEncoder E}.

Record Layer := mkLayer {
  l_fec : SwConfig; frag : Fragmenter; sw : E; packer : SbiPacker; l_sid : Z; usable : Z;
  shed : bool; dropped_count : Z; last_activity_ms : Z; has_activity : bool; tap : bool;
}.

(** The constructor; [sw] is the encoder built over [cfg] from the layer's random first seq. *)
Definition new_layer (cfg : UepLayerCfg) (sid : Z) (sw : E) : Layer :=
  let env := Z.of_nat kSwHeaderLen + symbol_size (fec cfg) in
  mkLayer (fec cfg) (mkFragmenter 0) sw (new_packer (Z.to_nat env) (blocks_per_body cfg) sid) sid
    (max_packet_size (fec cfg) - Z.of_nat kHdrLen) false 0 0 false false.

Definition set_sw (l : Layer) (x : E) : Layer :=
  mkLayer (l_fec l) (frag l) x (packer l) (l_sid l) (usable l) (shed l) (dropped_count l)
    (last_activity_ms l) (has_activity l) (tap l).
Definition set_packer (l : Layer) (p : SbiPacker) : Layer :=
  mkLayer (l_fec l) (frag l) (sw l) p (l_sid l) (usable l) (shed l) (dropped_count l)
    (last_activity_ms l) (has_activity l) (tap l).
Definition set_frag (l : Layer) (f : Fragmenter) : Layer :=
  mkLayer (l_fec l) f (sw l) (packer l) (l_sid l) (usable l) (shed l) (dropped_count l)
    (last_activity_ms l) (has_activity l) (tap l).
Definition set_shed_count (l : Layer) (s : bool) (n : Z) : Layer :=
  mkLayer (l_fec l) (frag l) (sw l) (packer l) (l_sid l) (usable l) s n
    (last_activity_ms l) (has_activity l) (tap l).
Definition set_activity (l : Layer) (now : Z) : Layer :=
  mkLayer (l_fec l) (frag l) (sw l) (packer l) (l_sid l) (usable l) (shed l) (dropped_count l)
    now true (tap l).
Definition set_tap (l : Layer) (on : bool) : Layer :=
  mkLayer (l_fec l) (frag l) (sw l) (packer l) (l_sid l) (usable l) (shed l) (dropped_count l)
    (last_activity_ms l) (has_activity l) on.

(** ** Envelopes to bodies *)

Definition some_body (l : Layer) (b : list Z) : Out :=
  (match b with [] => [] | _ => [new_body (l_sid l) b] end, []).

(** A source envelope is shown to the tap. *)
Definition tapped (l : Layer) (env : list Z) : Out :=
  ([], if tap l then
         match parse_header env with
         | Some (Some h) => if repair h then [] else [(l_sid l, seq h, env)]
         | _ => []
         end
       else []).

Definition env_sink (l : Layer) (env : list Z) : Layer * Out :=
  let '(p, b) := add_one (packer l) env in
  (set_packer l p, join_out (tapped l env) (some_body l b)).

Fixpoint env_sink_all (l : Layer) (envs : list (list Z)) : Layer * Out :=
  match envs with
  | [] => (l, no_out)
  | env :: envs =>
      let '(l, o) := env_sink l env in
      let '(l, o') := env_sink_all l envs in
      (l, join_out o o')
  end.

Definition emit_flush (l : Layer) : Layer * Out :=
  let '(p, b) := flush_one (packer l) in (set_packer l p, some_body l b).

(** The encoder's envelopes of one call, straight to the packer. *)
Definition encode (l : Layer) (r : option (E * list (list Z))) : option (Layer * Out) :=
  '(x, envs) ← r; Some (env_sink_all (set_sw l x) envs).

(** ** One layer *)

Fixpoint feed_packets (l : Layer) (pkts : list (list Z * list Z)) : option (Layer * Out) :=
  match pkts with
  | [] => Some (l, no_out)
  | (hdr, chunk) :: pkts =>
      '(l, o) ← encode l (fe_add (sw l) hdr chunk);
      '(l, o') ← feed_packets l pkts;
      Some (l, join_out o o')
  end.

Definition layer_frame (l : Layer) (data : list Z) (now : Z) : option (Layer * Out) :=
  let '(f, pkts) := fragment (frag l) data (Z.to_nat (usable l)) in
  '(l, o1) ← feed_packets (set_frag l f) pkts;
  '(l, o2) ← encode l (fe_flush (sw l));
  let '(l, o3) := emit_flush l in
  Some (set_activity l now, join_out o1 (join_out o2 o3)).

Definition drain_layer (l : Layer) (join : bool) : option (Layer * Out) :=
  '(l, o1) ← encode l (fe_flush (sw l));
  '(l, o2) ← (if join then encode l (fe_finish (sw l)) else Some (l, no_out));
  let '(l, o3) := emit_flush l in
  Some (l, join_out o1 (join_out o2 o3)).

(** ** The two layers *)

Record UepEncoder := mkUepEncoder { layer0 : Layer; layer1 : Layer; flush_ms_ : Z }.

Definition new_uep (c0 c1 : UepLayerCfg) (x0 x1 : E) (flush_ms : Z) : UepEncoder :=
  mkUepEncoder (new_layer c0 0 x0) (new_layer c1 1 x1) flush_ms.

Definition clamp_sid (s : Z) : Z := if s <? 0 then 0 else if kNumStreams - 1 <? s then kNumStreams - 1 else s.
Definition layer_at (u : UepEncoder) (sid : Z) : Layer := if sid =? 0 then layer0 u else layer1 u.
Definition set_layer (u : UepEncoder) (sid : Z) (l : Layer) : UepEncoder :=
  if sid =? 0 then mkUepEncoder l (layer1 u) (flush_ms_ u) else mkUepEncoder (layer0 u) l (flush_ms_ u).

Definition add_frame (u : UepEncoder) (stream_id : Z) (data : list Z) (now : Z)
    : option (UepEncoder * Out) :=
  let sid := clamp_sid stream_id in
  let l := layer_at u sid in
  if shed l then Some (set_layer u sid (set_shed_count l true (u64 (dropped_count l + 1))), no_out)
  else '(l, o) ← layer_frame l data now; Some (set_layer u sid l, o).

(** Idleness is read before the drain. *)
Definition collect_layer (l : Layer) : Layer * Out :=
  let '(x, busy) := fe_outstanding (sw l) in
  let '(x, envs) := fe_collect x in
  let '(l, o1) := env_sink_all (set_sw l x) envs in
  if busy then (l, o1) else let '(l, o2) := emit_flush l in (l, join_out o1 o2).

Definition uep_collect (u : UepEncoder) : UepEncoder * Out :=
  let '(l0, o0) := collect_layer (layer0 u) in
  let '(l1, o1) := collect_layer (layer1 u) in
  (mkUepEncoder l0 l1 (flush_ms_ u), join_out o0 o1).

Definition poll_layer (flush_ms now : Z) (l : Layer) : option (Layer * Out) :=
  if negb (has_activity l) then Some (l, no_out)
  else if u64 (now - last_activity_ms l) <? u64 flush_ms then Some (l, no_out)
  else drain_layer l false.

Definition both (f : Layer -> option (Layer * Out)) (u : UepEncoder) : option (UepEncoder * Out) :=
  '(l0, o0) ← f (layer0 u);
  '(l1, o1) ← f (layer1 u);
  Some (mkUepEncoder l0 l1 (flush_ms_ u), join_out o0 o1).

Definition poll (u : UepEncoder) (now : Z) : option (UepEncoder * Out) := both (poll_layer (flush_ms_ u) now) u.
Definition flush_all (u : UepEncoder) : option (UepEncoder * Out) := both (fun l => drain_layer l true) u.

Definition layer_overhead (l : Layer) (ov : double) : Layer := set_sw l (fe_set_overhead (sw l) ov).
Definition uep_set_overhead (u : UepEncoder) (ov : double) : UepEncoder :=
  mkUepEncoder (layer_overhead (layer0 u) ov) (layer_overhead (layer1 u) ov) (flush_ms_ u).
Definition set_layer_overhead (u : UepEncoder) (stream_id : Z) (ov : double) : UepEncoder :=
  let sid := clamp_sid stream_id in set_layer u sid (layer_overhead (layer_at u sid) ov).
Definition set_source_tap (u : UepEncoder) (on : bool) : UepEncoder :=
  mkUepEncoder (set_tap (layer0 u) on) (set_tap (layer1 u) on) (flush_ms_ u).

(** [layers_[stream_id]] unclamped: any other index is out of the array. *)
Definition set_shed (u : UepEncoder) (stream_id : Z) (s : bool) : option UepEncoder :=
  if (0 <=? stream_id) && (stream_id <? kNumStreams)
  then let l := layer_at u stream_id in Some (set_layer u stream_id (set_shed_count l s (dropped_count l)))
  else None.
Definition dropped (u : UepEncoder) (stream_id : Z) : option Z :=
  if (0 <=? stream_id) && (stream_id <? kNumStreams) then Some (dropped_count (layer_at u stream_id)) else None.

Definition drop_if_shed (u : UepEncoder) (stream_id : Z) : UepEncoder * bool :=
  let sid := clamp_sid stream_id in
  let l := layer_at u sid in
  if negb (shed l) then (u, false) else (set_layer u sid (set_shed_count l true (u64 (dropped_count l + 1))), true).
End Pipeline.
#[global] Arguments Layer : clear implicits.
#[global] Arguments UepEncoder : clear implicits.
