(* ===== verification/UepDecoder.v ===== *)
(** * UepDecoder: radio bodies to fragments (common/src/uep_decoder.cpp)

    A received body is routed by its stream id to a layer, unpacked into the envelopes whose
    CRC survived, and fed to the layer's sliding-window decoder; the packets that come out
    are the fragments.  Each layer also tracks the transition boundary that attributes
    arrivals to the old or the new operating point. *)
From S2P Require Import Prelude Bytes SwWire Framing Sbi SwConfig LossEpisodes ArrivalTracker SwDecoder UepEncoder.
Local Open Scope Z_scope.
Local Open Scope mabur_scope.

Definition kMcsUnknown : Z := 255.
Definition kBoundaryExpiryMs : Z := 1000.

Record DecodedFrag := mkDecodedFrag {
  df_stream_id : Z; df_frag : list Z; df_body_mono_us : Z; df_q_ms : Z; df_enc_us : Z; df_air_ms : Z;
  df_sw_seq : Z; df_retx : bool;
}.

Record Layer := mkLayer {
  env_size : Z;
  sw : SwDecoder;
  bodies : Z; subblocks_failed : Z; bodies_corrupt : Z; subblocks_salvaged : Z;
  cur_mcs : Z; bnd_armed : bool; bnd_open : bool; bnd_arm_ms : Z;
  bnd_close_ms : double;
}.

(** -1.0: no boundary ever closed. *)
Definition d_minus_one : double := d_of_Z (-1).

Definition new_layer (cfg : UepLayerCfg) (seq_horizon arrival_guard : Z) : Layer :=
  mkLayer (Z.of_nat kSwHeaderLen + SwConfig.symbol_size (fec cfg))
    (new_decoder (fec cfg) seq_horizon arrival_guard) 0 0 0 0 kMcsUnknown false false 0 d_minus_one.

Definition set_sw (l : Layer) (d : SwDecoder) : Layer :=
  mkLayer (env_size l) d (bodies l) (subblocks_failed l) (bodies_corrupt l) (subblocks_salvaged l)
    (cur_mcs l) (bnd_armed l) (bnd_open l) (bnd_arm_ms l) (bnd_close_ms l).
Definition set_bnd (l : Layer) (mcs : Z) (armed open_ : bool) (arm_ms : Z) (close_ms : double) : Layer :=
  mkLayer (env_size l) (sw l) (bodies l) (subblocks_failed l) (bodies_corrupt l) (subblocks_salvaged l)
    mcs armed open_ arm_ms close_ms.
Definition set_counts (l : Layer) (b f c s : Z) : Layer :=
  mkLayer (env_size l) (sw l) b f c s (cur_mcs l) (bnd_armed l) (bnd_open l) (bnd_arm_ms l) (bnd_close_ms l).

Record UepDecoder := mkUepDecoder { layer0 : Layer; layer1 : Layer; bodies_misrouted_ : Z }.

Definition new_uep_decoder (c0 c1 : UepLayerCfg) (seq_horizon arrival_guard : Z) : UepDecoder :=
  mkUepDecoder (new_layer c0 seq_horizon arrival_guard) (new_layer c1 seq_horizon arrival_guard) 0.

Definition sid_ok (sid : Z) : bool := negb ((sid <? 0) || (1 <? sid)).
Definition layer_at (u : UepDecoder) (sid : Z) : Layer := if sid =? 0 then layer0 u else layer1 u.
Definition set_layer (u : UepDecoder) (sid : Z) (l : Layer) : UepDecoder :=
  if sid =? 0 then mkUepDecoder l (layer1 u) (bodies_misrouted_ u)
  else mkUepDecoder (layer0 u) l (bodies_misrouted_ u).

(** ** Boundaries *)

(** The rate changes and the old one is known. *)
Definition opens (prev new_mcs : Z) : bool :=
  negb (prev =? kMcsUnknown) && negb (new_mcs =? kMcsUnknown) && negb (new_mcs =? prev).

Definition mark_layer (l : Layer) (new_mcs now : Z) : Layer :=
  let o := opens (cur_mcs l) new_mcs in
  let d := SwDecoder.mark_transition (sw l) in
  set_sw (set_bnd l new_mcs true o now (bnd_close_ms l)) (if o then d else close_boundary d).

Definition mark_transition (u : UepDecoder) (sid new_mcs now : Z) : UepDecoder :=
  if negb (sid_ok sid) then u else set_layer u sid (mark_layer (layer_at u sid) new_mcs now).

Definition reset_layer (l : Layer) : Layer :=
  set_sw (set_bnd l kMcsUnknown false false (bnd_arm_ms l) (bnd_close_ms l)) (close_boundary (sw l)).
Definition reset_continuity (u : UepDecoder) : UepDecoder :=
  mkUepDecoder (reset_layer (layer0 u)) (reset_layer (layer1 u)) (bodies_misrouted_ u).

(** The hint of one body: the boundary may expire instead. *)
Definition boundary_hint (l : Layer) (now rx_mcs : Z) : Layer * SwBoundary :=
  if negb (bnd_armed l) then (l, kNone)
  else if (bnd_arm_ms l <? now) && (kBoundaryExpiryMs <? now - bnd_arm_ms l) then
    (set_sw (set_bnd l (cur_mcs l) false false (bnd_arm_ms l) (bnd_close_ms l)) (close_boundary (sw l)), kNone)
  else if negb (rx_mcs =? kMcsUnknown) && negb (cur_mcs l =? kMcsUnknown) then
    (l, if rx_mcs =? cur_mcs l then kPost else kPre)
  else (l, kNone).

(** The first body heard at the new rate closes the boundary and times it. *)
Definition close_on_post (l : Layer) (hint : SwBoundary) (now : Z) : Layer :=
  match hint with
  | kPost =>
      if bnd_open l then
        set_bnd l (cur_mcs l) (bnd_armed l) false (bnd_arm_ms l)
          (if bnd_arm_ms l <=? now then d_of_Z (now - bnd_arm_ms l) else bnd_close_ms l)
      else l
  | _ => l
  end.

(** ** A body *)

(** The fragments of one envelope: packets too short for a fragment header are skipped. *)
Definition frags_of (sid mono : Z) (clean : bool) (r : SbiUnpackResult) (ps : list (list Z * Z))
    : list DecodedFrag :=
  map (fun ps : list Z * Z => mkDecodedFrag sid ps.1 mono
         (if clean then q_ms r else 0) (if clean then enc_us r else 0) (if clean then air_ms r else 0)
         ps.2 (retx r))
    (filter (fun ps : list Z * Z => (kHdrLen <= length ps.1)%nat) ps).

(** [k < seqs.size() ? seqs[k] : 0] *)
Fixpoint with_seqs (pkts : list (list Z)) (seqs : list Z) : list (list Z * Z) :=
  match pkts, seqs with
  | [], _ => []
  | p :: pkts, [] => (p, 0) :: with_seqs pkts []
  | p :: pkts, s :: seqs => (p, s) :: with_seqs pkts seqs
  end.

Fixpoint feed_survivors (d : SwDecoder) (sid now mono : Z) (hint : SwBoundary) (clean : bool)
    (r : SbiUnpackResult) (envs : list (list Z)) : option (SwDecoder * list DecodedFrag) :=
  match envs with
  | [] => Some (d, [])
  | env :: envs =>
      '(d, pkts) ← add_symbol d env now hint clean (retx r);
      let out := frags_of sid mono clean r (with_seqs pkts (last_out_seqs_ d)) in
      '(d, out') ← feed_survivors d sid now mono hint clean r envs;
      Some (d, out ++ out')
  end.

(** [body[3] & kSbiRetxMark] *)
Definition retx_marked (body : list Z) : bool :=
  negb (Z.land (default 0 (body !! 3%nat)) kSbiRetxMark =? 0).

Definition layer_body (l : Layer) (sid : Z) (body : list Z) (now rx_mcs mono : Z) (clean : bool)
    : option (Layer * list DecodedFrag) :=
  let l := set_counts l (u64 (bodies l + 1)) (subblocks_failed l) (bodies_corrupt l) (subblocks_salvaged l) in
  let '(l, hint) := boundary_hint l now rx_mcs in
  let hint := if retx_marked body then kNone else hint in
  let l := close_on_post l hint now in
  r ← sbi_unpack body (env_size l);
  let l := set_counts l (bodies l) (u64 (subblocks_failed l + n_failed r))
             (if clean then bodies_corrupt l else u64 (bodies_corrupt l + 1))
             (if clean then subblocks_salvaged l
              else u64 (subblocks_salvaged l + Z.of_nat (length (survivors r)))) in
  '(d, out) ← feed_survivors (sw l) sid now mono hint clean r (survivors r);
  Some (set_sw l d, out).

Definition add_body (u : UepDecoder) (body : list Z) (now rx_mcs mono : Z) (clean : bool)
    : option (UepDecoder * list DecodedFrag) :=
  sid ← sbi_peek_stream_id body;
  if negb (sid_ok sid) then
    Some (mkUepDecoder (layer0 u) (layer1 u) (u64 (bodies_misrouted_ u + 1)), [])
  else
    '(l, out) ← layer_body (layer_at u sid) sid body now rx_mcs mono clean;
    Some (set_layer u sid l, out).

(** ** Views *)

Definition uep_newest_seq (u : UepDecoder) (sid : Z) : Z :=
  if sid_ok sid then newest_seq (sw (layer_at u sid)) else 0.
Definition uep_missing_sources (u : UepDecoder) (sid lookback : Z) : list Z :=
  if sid_ok sid then missing_sources (sw (layer_at u sid)) lookback else [].
Definition uep_source_state (u : UepDecoder) (sid wire_seq : Z) : SourceState :=
  if sid_ok sid then source_state (sw (layer_at u sid)) wire_seq else kUnknown.
Definition uep_take_episodes (u : UepDecoder) (sid : Z) : UepDecoder * list LossEpisode :=
  if sid_ok sid then
    let l := layer_at u sid in
    let '(d, out) := SwDecoder.take_episodes (sw l) in (set_layer u sid (set_sw l d), out)
  else (u, []).
