(* ===== verification/UepSound.v ===== *)
(** * UepSound: the pipeline hands out only what its encoders sealed

    Any implementation of the layer-encoder interface that meets its promise runs wherever
    the synchronous pipeline runs; each body it emits is a packing of envelopes the layer's
    reference encoder emitted, and each packet that encoder was given is a fragment of a
    frame given to the pipeline. *)
From S2P Require Import Prelude Bytes SwWire Framing Sbi SwConfig SwEncoder SwEncoderSound.
From S2P Require Import AsyncEncoder AsyncEncoderSound UepEncoder.
Local Open Scope Z_scope.
Local Open Scope mabur_scope.

(** ** The two implementations keep the interface's promise *)

Lemma self_in (l : list (list Z)) : Forall (.∈ l) l.
Proof. by apply Forall_forall. Qed.

Lemma in_app_r (p l : list (list Z)) : Forall (.∈ p ++ l) l.
Proof. apply Forall_forall. intros x Hx. apply elem_of_app. by right. Qed.

#[export] Instance sync_spec : FecEncoderSpec SwEncoder.
Proof.
  refine {| fe_sim := fun x e (_ : list (list Z)) => x = e |}.
  - intros x e pool o e' out -> Hs. exists e', out.
    destruct o; cbn in *; (split; [done |]); (split; [done |]); apply in_app_r.
  - intros x e pool ->. exists e, []. split; [done |]. by split.
  - intros x e pool ->. by split.
  - done.
Defined.

Lemma sim_pool a Y pool a' (e' : SwEncoder) oA oS :
  Forall (.∈ pool) Y -> simulates a Y a' e' oA oS ->
  (exists Y', sim a' e' 0 Y' /\ Forall (.∈ pool ++ oS) Y') /\ Forall (.∈ pool ++ oS) oA.
Proof.
  intros HY (Y' & D & H1 & H2 & _).
  assert (H : Forall (.∈ pool ++ oS) (oA ++ Y' ++ D)).
  { rewrite <- H2. apply Forall_app. split; [| apply in_app_r].
    eapply Forall_impl; [exact HY |]. intros x Hx. apply elem_of_app. by left. }
  rewrite !Forall_app in H. destruct H as (H3 & H4 & _). split; [| done]. by exists Y'.
Qed.

#[export] Instance async_spec : FecEncoderSpec Async.
Proof.
  refine {| fe_sim := fun a e pool => exists Y, sim a e 0 Y /\ Forall (.∈ pool) Y |}.
  - intros a e pool o e' out (Y & H & HY) Hs.
    destruct (astep_sim a e Y (Op o) e' out H Hs) as ([a' oA] & Ha & Hsim). cbn [fst snd] in Hsim.
    exists a', oA. destruct (sim_pool _ _ _ _ _ _ _ HY Hsim) as [H1 H2].
    split; [by destruct o |]. by split.
  - intros a e pool (Y & H & HY). destruct H as [Hr Hi Hb].
    cbn [fe_finish async_encoder]. unfold finish. destruct (join_ends a 0 0 Y Hi) as (b & Hj & H1 & H2 & H3 & H4 & H5).
    rewrite Hj. cbn [mbind option_bind].
    assert (Hsb : sim b e 0 Y).
    { destruct Hr as [r Hr]. constructor; [exists r; by rewrite H4 | done |]. rewrite H3. unfold kSlackRows. lia. }
    pose proof (drain_sim b e 0 Y Hsb) as Hd. destruct (drain_done b) as [c o]. destruct Hd as (Y' & G1 & G2 & _).
    exists c, o. rewrite G2, Forall_app in HY. destruct HY. split; [done |]. split; [by exists Y' | done].
  - intros a e pool (Y & H & HY). cbn [fe_collect async_encoder]. unfold collect.
    pose proof (drain_sim a e 0 Y H) as Hd. destruct (drain_done a) as [c o]. destruct Hd as (Y' & G1 & G2 & _).
    rewrite G2, Forall_app in HY. destruct HY. split; [by exists Y' | done].
  - intros a e pool (Y & H & HY). cbn [fe_outstanding async_encoder fst]. exists Y. split; [| done].
    by apply yield_sim.
Defined.

(** ** One layer against its reference *)

(** A body that packs envelopes of [pool], and nothing else. *)
Definition carried (sid : Z) (bp : nat) (pool : list (list Z)) (b : UepBody) : Prop :=
  b_stream_id b = sid /\ exists n g, body b = body_header sid (Z.of_nat bp) n 0 0 0 ++ concat (map block g) /\
    Forall (fun env => env ∈ pool /\ length env = bp) g.
Definition tap_ok (sid : Z) (pool : list (list Z)) (x : Z * Z * list Z) : Prop :=
  x.1.1 = sid /\ x.2 ∈ pool.
Definition out_ok (sid : Z) (bp : nat) (pool : list (list Z)) (o : Out) : Prop :=
  Forall (carried sid bp pool) o.1 /\ Forall (tap_ok sid pool) o.2.

Lemma out_ok_nil sid bp pool : out_ok sid bp pool no_out.
Proof. by split. Qed.

Lemma out_ok_join sid bp pool a b : out_ok sid bp pool a -> out_ok sid bp pool b -> out_ok sid bp pool (join_out a b).
Proof. intros [] []. by split; apply Forall_app. Qed.

Lemma out_ok_mono sid bp pool pool' o :
  Forall (.∈ pool') pool -> out_ok sid bp pool o -> out_ok sid bp pool' o.
Proof.
  intros Hm [H1 H2]. rewrite Forall_forall in Hm. split.
  - eapply Forall_impl; [exact H1 |]. intros b (Hb & n & g & Hg & Hf). split; [done |]. exists n, g.
    split; [done |]. eapply Forall_impl; [exact Hf |]. intros env []. split; [by apply Hm | done].
  - eapply Forall_impl; [exact H2 |]. intros x []. split; [done | by apply Hm].
Qed.

Lemma env_sink_all_packer {E} (l : Layer E) envs : exists p, (env_sink_all l envs).1 = set_packer l p.
Proof.
  revert l. induction envs as [|env envs IH]; intros l; cbn [env_sink_all].
  { exists (packer l). by destruct l. }
  unfold env_sink. destruct (add_one (packer l) env) as [p b]. destruct (IH (set_packer l p)) as [p' Hp].
  destruct (env_sink_all _ envs) as [l2 o2]. cbn [fst] in *. exists p'. by rewrite Hp.
Qed.

Lemma emit_flush_packer {X} (l : Layer X) : exists p, (emit_flush l).1 = set_packer l p.
Proof. unfold emit_flush. destruct (flush_one (packer l)) as [p b]. by exists p. Qed.

Lemma join_out_assoc a b c : join_out a (join_out b c) = join_out (join_out a b) c.
Proof. destruct a, b, c. unfold join_out. cbn. by rewrite !app_assoc. Qed.

(** The members the pipeline's control flow reads. *)
Definition view {E} (l : Layer E) : Fragmenter * Z * bool * Z * bool :=
  (frag l, usable l, shed l, last_activity_ms l, has_activity l).

Section Layer.
Context {E : Type} `{FecEncoderSpec E}.
Context (cfg : UepLayerCfg) (init sid : Z).
Let bp : nat := Z.to_nat (Z.of_nat kSwHeaderLen + symbol_size (fec cfg)).

(** [l] runs like the synchronous layer [ls], whose encoder has run [ops] and emitted
    [pool]; [pend] are the envelopes of the body being packed. *)
Record layer_sim (l : Layer E) (ls : Layer SwEncoder) (ops : list eop) (pool pend : list (list Z)) : Prop := {
  ls_sim : fe_sim (sw l) (sw ls) pool;
  ls_run : erun (new_encoder (fec cfg) init) ops = Some (sw ls, pool);
  ls_view : view l = view ls;
  ls_usable : usable l = max_packet_size (fec cfg) - Z.of_nat kHdrLen;
  ls_sid : l_sid l = sid;
  ls_packer : stream_id_ (packer l) = sid /\ block_payload_ (packer l) = bp;
  ls_pending : packer_pending (packer l) pend;
  ls_pend : Forall (fun env => env ∈ pool /\ length env = bp) pend;
}.

Lemma env_sink_ok l ls ops pool pend env :
  layer_sim l ls ops pool pend -> env ∈ pool ->
  let '(l', o) := env_sink l env in
  sw l' = sw l /\ (exists pend', layer_sim l' ls ops pool pend') /\ out_ok sid bp pool o.
Proof.
  intros [L1 L2 L3 L4 L5 [L6 L7] L8 L9] Hin. unfold env_sink.
  assert (Ht : Forall (tap_ok sid pool) (tapped l env).2).
  { unfold tapped. destruct (tap l); [| constructor]. destruct (parse_header env) as [[h|]|]; try constructor.
    cbn. destruct (repair h); constructor; [by split | constructor]. }
  pose proof (add_one_config (packer l) env) as Hcfg. cbn zeta in Hcfg.
  destruct (decide (length env = block_payload_ (packer l))) as [El | El].
  2: { unfold add_one in *. rewrite (proj2 (Nat.eqb_neq _ _)) by done. cbn [negb fst] in *.
    split; [done |]. split; [| by split; [constructor | cbn; rewrite app_nil_r]].
    exists pend. by split. }
  pose proof (add_one_spec (packer l) pend env L8 El) as Ha. destruct (add_one (packer l) env) as [p b].
  cbn [fst] in Hcfg. destruct Hcfg as (C1 & C2 & C3).
  assert (Hnew : Forall (fun env => env ∈ pool /\ length env = bp) (pend ++ [env])).
  { apply Forall_app. split; [done |]. constructor; [| constructor]. split; [done | congruence]. }
  split; [done |]. destruct (_ <=? _).
  - destruct Ha as [Hp ->]. split.
    + exists []. split; try done. cbn. split; congruence.
    + rewrite patch_count, L6, L7. split; [| by cbn; rewrite app_nil_r].
      cbn [some_body join_out fst tapped]. constructor; [| constructor]. split; [done |].
      eexists _, (pend ++ [env]). by split.
  - destruct Ha as [Hp ->]. split.
    + exists (pend ++ [env]). split; try done. cbn. split; congruence.
    + split; [constructor | by cbn; rewrite app_nil_r].
Qed.

Lemma env_sink_all_ok envs l ls ops pool pend :
  layer_sim l ls ops pool pend -> Forall (.∈ pool) envs ->
  let '(l', o) := env_sink_all l envs in
  (exists pend', layer_sim l' ls ops pool pend') /\ out_ok sid bp pool o.
Proof.
  intros Hl Hf. revert l pend Hl. induction Hf as [|env envs Hin Hf IH]; intros l pend Hl; cbn [env_sink_all].
  { split; [by exists pend | apply out_ok_nil]. }
  pose proof (env_sink_ok l ls ops pool pend env Hl Hin) as H1. destruct (env_sink l env) as [l1 o1].
  destruct H1 as (_ & (p1 & H1) & Ho1). specialize (IH l1 p1 H1). destruct (env_sink_all l1 envs) as [l2 o2].
  destruct IH as [IH Ho2]. split; [done |]. by apply out_ok_join.
Qed.

Lemma emit_flush_ok l ls ops pool pend :
  layer_sim l ls ops pool pend ->
  let '(l', o) := emit_flush l in (exists pend', layer_sim l' ls ops pool pend') /\ out_ok sid bp pool o.
Proof.
  intros Hl. pose proof Hl as [L1 L2 L3 L4 L5 [L6 L7] L8 L9]. unfold emit_flush, flush_one.
  destruct L8 as [Hn Hb]. rewrite Hn. destruct pend as [|e0 pend].
  { cbn [length Z.of_nat]. rewrite Z.eqb_refl. split; [exists []; by split | by split; constructor]. }
  rewrite (proj2 (Z.eqb_neq _ 0)) by (cbn [length]; lia). cbn [take_body]. split.
  - exists []. by split.
  - rewrite Hb, patch_count, L6, L7. split; [| constructor]. cbn [some_body fst]. constructor; [| constructor].
    split; [done |]. by eexists _, (e0 :: pend).
Qed.

(** The envelopes of one encoder call. *)
Lemma layer_sim_encode l ls ops pool pend x e' op out :
  layer_sim l ls ops pool pend -> estep (sw ls) op = Some (e', out) -> fe_sim x e' (pool ++ out) ->
  layer_sim (set_sw l x) (set_sw ls e') (ops ++ [op]) (pool ++ out) pend.
Proof.
  intros [L1 L2 L3 L4 L5 L6 L8 L9] Hs Hx. split; try done.
  - cbn [sw set_sw]. clear -L2 Hs. revert L2. generalize (new_encoder (fec cfg) init) as e0. intros e0.
    revert e0 pool. induction ops as [|o ops IH]; intros e0 pool; cbn [erun app].
    + intros [= -> <-]. rewrite Hs. cbn. by rewrite app_nil_r.
    + destruct (estep e0 o) as [[e1 o1]|]; [| done]. cbn [mbind option_bind].
      destruct (erun e1 ops) as [[e2 o2]|] eqn:Er; [| done]. cbn [mbind option_bind]. intros [= -> <-].
      rewrite (IH e1 o2 Er). cbn [mbind option_bind]. by rewrite app_assoc.
  - eapply Forall_impl; [exact L9 |]. intros env []. split; [apply elem_of_app; by left | done].
Qed.

(** A call on both sides: the reference's operations and envelopes grow, the bodies and
    taps that left are made of those, and the packets given to the encoder satisfy [F]. *)
Definition op_from (F : list Z -> Prop) (o : eop) : Prop :=
  match o with AddPacket a b => F (a ++ b) | _ => True end.
Definition moved (F : list Z -> Prop) (ops : list eop) (pool : list (list Z))
    (lo : Layer E * Out) (ls' : Layer SwEncoder) : Prop :=
  exists ops' pool' pend', layer_sim lo.1 ls' (ops ++ ops') (pool ++ pool') pend' /\
    out_ok sid bp (pool ++ pool') lo.2 /\ Forall (op_from F) ops' /\ Forall eop_ok ops'.
Definition moves (F : list Z -> Prop) (ops : list eop) (pool : list (list Z))
    (r : option (Layer E * Out)) (ls' : Layer SwEncoder) : Prop :=
  exists lo, r = Some lo /\ moved F ops pool lo ls'.

Lemma moved_still F l ls ops pool pend o :
  layer_sim l ls ops pool pend -> out_ok sid bp pool o -> moved F ops pool (l, o) ls.
Proof. intros Hl Ho. exists [], [], pend. rewrite !app_nil_r. split; [done |]. split; [done |]. split; constructor. Qed.

Lemma moved_bind F ops pool l1 o1 ls1 (k : Layer E -> option (Layer E * Out)) ls2 :
  moved F ops pool (l1, o1) ls1 ->
  (forall ops' pool' pend', layer_sim l1 ls1 ops' pool' pend' -> moves F ops' pool' (k l1) ls2) ->
  exists l2 o2, k l1 = Some (l2, o2) /\ moved F ops pool (l2, join_out o1 o2) ls2.
Proof.
  intros (ops' & pool' & pend' & H1 & H2 & H3 & H4) Hk.
  destruct (Hk _ _ _ H1) as ([l2 o2] & E2 & ops2 & pool2 & pend2 & G1 & G2 & G3 & G4).
  exists l2, o2. split; [done |]. exists (ops' ++ ops2), (pool' ++ pool2), pend2.
  rewrite !app_assoc. split; [done |]. split.
  - apply out_ok_join; [| done]. eapply out_ok_mono, H2. apply Forall_forall. intros x Hx.
    apply elem_of_app. by left.
  - split; by apply Forall_app.
Qed.

(** The reference's packer is not compared. *)
Lemma layer_sim_packer l ls ops pool pend p :
  layer_sim l ls ops pool pend -> layer_sim l (set_packer ls p) ops pool pend.
Proof. intros []. by split. Qed.

(** One encoder call on both sides. *)
Lemma encode_moves F l ls ops pool pend o ls' os x' out' :
  layer_sim l ls ops pool pend -> op_from F o -> eop_ok o -> encode ls (estep (sw ls) o) = Some (ls', os) ->
  (forall e' out, estep (sw ls) o = Some (e', out) ->
     fe_sim x' e' (pool ++ out) /\ Forall (.∈ pool ++ out) out') ->
  moved F ops pool (env_sink_all (set_sw l x') out') ls'.
Proof.
  intros Hl Hf Hok. unfold encode. destruct (estep (sw ls) o) as [[e' out]|] eqn:Es; [| done].
  cbn [mbind option_bind]. intros [= E1] Hx. destruct (Hx _ _ eq_refl) as [Hsim Hin].
  pose proof (layer_sim_encode l ls ops pool pend x' e' o out Hl Es Hsim) as H1.
  destruct (env_sink_all_packer (set_sw ls e') out) as [p' E2]. rewrite E1 in E2. cbn [fst] in E2. subst ls'.
  pose proof (env_sink_all_ok out' _ _ _ _ _ H1 Hin) as H2.
  destruct (env_sink_all (set_sw l x') out') as [l2 o2]. destruct H2 as [[p2 H2] Ho2].
  exists [o], out, p2. split; [by apply layer_sim_packer |]. split; [done |].
  split; by constructor.
Qed.

Lemma op_moves F l ls ops pool pend o ls' os :
  layer_sim l ls ops pool pend -> op_from F o -> eop_ok o -> encode ls (estep (sw ls) o) = Some (ls', os) ->
  moves F ops pool (encode l (match o with
    | AddPacket a b => fe_add (sw l) a b
    | Flush => fe_flush (sw l)
    | SetOverhead v => Some (fe_set_overhead (sw l) v, [])
    end)) ls'.
Proof.
  intros Hl Hf Hok He. pose proof He as He'. unfold encode in He.
  destruct (estep (sw ls) o) as [[e' out]|] eqn:Es; [| done].
  destruct (fe_sim_op (sw l) (sw ls) pool o e' out (ls_sim _ _ _ _ _ Hl) Es) as (x' & out' & -> & H1 & H2).
  unfold encode. cbn [mbind option_bind]. eexists. split; [done |].
  eapply encode_moves; [done | done | done | by rewrite Es |]. intros e2 out2 E2. rewrite Es in E2. by injection E2 as <- <-.
Qed.

Lemma moves_then F ops pool r1 ls1 (k : Layer E -> option (Layer E * Out)) ls2 :
  moves F ops pool r1 ls1 ->
  (forall l1 ops' pool' pend', layer_sim l1 ls1 ops' pool' pend' -> moves F ops' pool' (k l1) ls2) ->
  moves F ops pool ('(l1, o1) ← r1; '(l2, o2) ← k l1; Some (l2, join_out o1 o2)) ls2.
Proof.
  intros ([l1 o1] & -> & Hm) Hk. cbn [mbind option_bind].
  destruct (moved_bind F ops pool l1 o1 ls1 k ls2 Hm (fun o p q => Hk l1 o p q)) as (l2 & o2 & E2 & H2).
  rewrite E2. cbn [mbind option_bind]. by eexists.
Qed.

(** *** The operations of a layer *)

Definition packet_ok (F : list Z -> Prop) (hc : list Z * list Z) : Prop :=
  F (hc.1 ++ hc.2) /\ eop_ok (AddPacket hc.1 hc.2).

Lemma feed_moves F pkts l ls ops pool pend ls' os :
  layer_sim l ls ops pool pend -> Forall (packet_ok F) pkts -> feed_packets ls pkts = Some (ls', os) ->
  moves F ops pool (feed_packets l pkts) ls'.
Proof.
  intros Hl Hp. revert l ls ops pool pend ls' os Hl.
  induction Hp as [|[a b] pkts [Hf Hok] Hp IH]; intros l ls ops pool pend ls' os Hl; cbn [feed_packets].
  { intros [= <- _]. eexists. split; [done |]. eapply moved_still; [done | apply out_ok_nil]. }
  destruct (encode ls (add_packet (sw ls) a b)) as [[ls1 o1]|] eqn:E1; cbn [fe_add sync_encoder] in *;
    rewrite E1; [| done]. cbn [mbind option_bind].
  destruct (feed_packets ls1 pkts) as [[ls2 o2]|] eqn:E2; [| done]. cbn [mbind option_bind]. intros [= <- _].
  apply (moves_then F ops pool _ ls1 (fun l => feed_packets l pkts)).
  - by apply (op_moves F l ls ops pool pend (AddPacket a b) ls1 o1).
  - intros l1 ops' pool' pend' H1. by eapply IH.
Qed.

Lemma flush_moves F l ls ops pool pend ls' os :
  layer_sim l ls ops pool pend -> encode ls (fe_flush (sw ls)) = Some (ls', os) ->
  moves F ops pool (encode l (fe_flush (sw l))) ls'.
Proof. intros Hl He. by apply (op_moves F l ls ops pool pend Flush ls' os). Qed.

Lemma emit_moves F l ls ops pool pend p :
  layer_sim l ls ops pool pend -> moves F ops pool (Some (emit_flush l)) (set_packer ls p).
Proof.
  intros Hl. pose proof (emit_flush_ok l ls ops pool pend Hl) as H1. destruct (emit_flush l) as [l' o].
  destruct H1 as [[p' H1] Ho]. eexists. split; [done |]. eapply moved_still; [by apply layer_sim_packer | done].
Qed.

(** [finish] on the reference changes nothing. *)
Lemma finish_moves F l ls ops pool pend :
  layer_sim l ls ops pool pend -> moves F ops pool (encode l (fe_finish (sw l))) ls.
Proof.
  intros Hl. destruct (fe_sim_finish _ _ _ (ls_sim _ _ _ _ _ Hl)) as (x & out & -> & H1 & H2).
  unfold encode. cbn [mbind option_bind]. eexists. split; [done |].
  assert (H3 : layer_sim (set_sw l x) ls ops pool pend) by (destruct Hl; by split).
  pose proof (env_sink_all_ok out _ _ _ _ _ H3 H2) as H4. destruct (env_sink_all (set_sw l x) out) as [l' o].
  destruct H4 as [[p H4] Ho]. by eapply moved_still.
Qed.

Lemma drain_moves F l ls ops pool pend join ls' os :
  layer_sim l ls ops pool pend -> drain_layer ls join = Some (ls', os) ->
  moves F ops pool (drain_layer l join) ls'.
Proof.
  intros Hl. unfold drain_layer.
  destruct (encode ls (fe_flush (sw ls))) as [[ls1 o1]|] eqn:E1; [| done]. cbn [mbind option_bind].
  assert (E2 : (if join then encode ls1 (fe_finish (sw ls1)) else Some (ls1, no_out)) = Some (ls1, no_out)).
  { destruct join; [| done]. cbn. by destruct ls1. }
  rewrite E2. cbn [mbind option_bind]. destruct (emit_flush_packer ls1) as [p Ep].
  destruct (emit_flush ls1) as [ls2 o3] eqn:E3. cbn [fst] in Ep. intros [= <- _]. subst ls2.
  destruct (moves_then F ops pool (encode l (fe_flush (sw l))) ls1
    (fun l => '(l2, o2) ← (if join then encode l (fe_finish (sw l)) else Some (l, no_out));
              '(l3, o3) ← Some (emit_flush l2); Some (l3, join_out o2 o3)) (set_packer ls1 p))
    as (lo & Elo & Hm).
  - by eapply flush_moves.
  - intros l1 ops' pool' pend' H1. apply (moves_then F ops' pool' _ ls1 (fun l2 => Some (emit_flush l2))).
    + destruct join; [by eapply finish_moves |]. eexists. split; [done |]. eapply moved_still; [done | apply out_ok_nil].
    + intros l2 o2 p2 q2 H2. by eapply emit_moves.
  - exists lo. split; [| done]. rewrite <- Elo. destruct (encode l _) as [[l1 oo1]|]; [| done]. cbn [mbind option_bind].
    destruct (if join then encode l1 (fe_finish (sw l1)) else Some (l1, no_out)) as [[l2 oo2]|]; [| done].
    cbn [mbind option_bind]. by destruct (emit_flush l2).
Qed.

Lemma layer_sim_activity l ls ops pool pend now :
  layer_sim l ls ops pool pend -> layer_sim (set_activity l now) (set_activity ls now) ops pool pend.
Proof.
  intros [L1 L2 L3 L4 L5 L6 L7 L8]. split; try done. unfold view in *. cbn. injection L3. by intros _ _ -> -> ->.
Qed.

Lemma layer_sim_frag l ls ops pool pend f :
  layer_sim l ls ops pool pend -> layer_sim (set_frag l f) (set_frag ls f) ops pool pend.
Proof.
  intros [L1 L2 L3 L4 L5 L6 L7 L8]. split; try done. unfold view in *. cbn. injection L3. by intros -> -> -> -> _.
Qed.

Lemma layer_sim_shed l ls ops pool pend s n n' :
  layer_sim l ls ops pool pend -> layer_sim (set_shed_count l s n) (set_shed_count ls s n') ops pool pend.
Proof.
  intros [L1 L2 L3 L4 L5 L6 L7 L8]. split; try done. unfold view in *. cbn. injection L3. by intros -> -> _ -> ->.
Qed.

Lemma layer_sim_tap l ls ops pool pend b b' :
  layer_sim l ls ops pool pend -> layer_sim (set_tap l b) (set_tap ls b') ops pool pend.
Proof. intros []. by split. Qed.

Lemma frame_moves F l ls ops pool pend data now ls' os :
  layer_sim l ls ops pool pend ->
  Forall (packet_ok F) (fragment (frag l) data (Z.to_nat (usable l))).2 ->
  layer_frame ls data now = Some (ls', os) -> moves F ops pool (layer_frame l data now) ls'.
Proof.
  intros Hl. unfold layer_frame. pose proof (ls_view _ _ _ _ _ Hl) as Hv. unfold view in Hv.
  injection Hv as Hfr Hus _ _ _. rewrite <- Hfr, <- Hus.
  destruct (fragment (frag l) data _) as [f pkts]. cbn [snd]. intros Hp.
  destruct (feed_packets (set_frag ls f) pkts) as [[ls1 o1]|] eqn:E1; [| done]. cbn [mbind option_bind].
  destruct (encode ls1 (fe_flush (sw ls1))) as [[ls2 o2]|] eqn:E2; [| done]. cbn [mbind option_bind].
  destruct (emit_flush_packer ls2) as [p Ep]. destruct (emit_flush ls2) as [ls3 o3]. cbn [fst] in Ep.
  intros [= <- _]. subst ls3.
  destruct (moves_then F ops pool (feed_packets (set_frag l f) pkts) ls1
    (fun l => '(l2, o2) ← encode l (fe_flush (sw l)); '(l3, o3) ← Some (let '(l3, o3) := emit_flush l2 in (set_activity l3 now, o3));
              Some (l3, join_out o2 o3)) (set_activity (set_packer ls2 p) now)) as (lo & Elo & Hm).
  - eapply feed_moves; [by apply layer_sim_frag | done | done].
  - intros l1 ops' pool' pend' H1.
    apply (moves_then F ops' pool' _ ls2 (fun l2 => Some (let '(l3, o3) := emit_flush l2 in (set_activity l3 now, o3)))).
    + by eapply flush_moves.
    + intros l2 o p2 q2 H2. destruct (emit_moves F l2 ls2 o p2 q2 p H2) as (x & Ex & oo & pp & qq & G1 & G2).
      injection Ex as Ex. destruct (emit_flush l2) as [l4 o4]. subst x. eexists. split; [done |].
      exists oo, pp, qq. split; [by apply layer_sim_activity | done].
  - exists lo. split; [| done]. rewrite <- Elo. destruct (feed_packets (set_frag l f) pkts) as [[l1 oo1]|]; [| done].
    cbn [mbind option_bind]. destruct (encode l1 (fe_flush (sw l1))) as [[l2 oo2]|]; [| done]. cbn [mbind option_bind]. by destruct (emit_flush l2).
Qed.

Lemma poll_moves F l ls ops pool pend fl now ls' os :
  layer_sim l ls ops pool pend -> poll_layer fl now ls = Some (ls', os) ->
  moves F ops pool (poll_layer fl now l) ls'.
Proof.
  intros Hl. unfold poll_layer. pose proof (ls_view _ _ _ _ _ Hl) as Hv. unfold view in Hv.
  injection Hv as _ _ _ -> ->.
  assert (Hstill : Some (ls, no_out) = Some (ls', os) -> moves F ops pool (Some (l, no_out)) ls').
  { intros [= <- _]. eexists. split; [done |]. eapply moved_still; [done | apply out_ok_nil]. }
  destruct (negb _); [done |]. destruct (_ <? _); [done |]. by eapply drain_moves.
Qed.

Lemma collect_moves F l ls ops pool pend :
  layer_sim l ls ops pool pend -> moves F ops pool (Some (collect_layer l)) (collect_layer ls).1.
Proof.
  intros Hl. unfold collect_layer.
  assert (H1 : fe_sim (fe_outstanding (sw l)).1 (sw ls) pool) by (apply fe_sim_outstanding, Hl).
  destruct (fe_outstanding (sw l)) as [x busy]. cbn [fst] in H1.
  destruct (fe_sim_collect _ _ _ H1) as [H2 H3]. destruct (fe_collect x) as [y out]. cbn [fst snd] in *.
  cbn [fe_outstanding fe_collect sync_encoder]. cbn [env_sink_all].
  destruct (emit_flush_packer (set_sw ls (sw ls))) as [p Ep].
  destruct (emit_flush (set_sw ls (sw ls))) as [ls2 os2]. cbn [fst] in *. subst ls2.
  assert (Els : set_sw ls (sw ls) = ls) by (by destruct ls). rewrite Els.
  assert (H4 : layer_sim (set_sw l y) ls ops pool pend) by (destruct Hl; by split).
  pose proof (env_sink_all_ok out _ _ _ _ _ H4 H3) as H5. destruct (env_sink_all (set_sw l y) out) as [l1 o1].
  destruct H5 as [[p1 H5] Ho1]. destruct busy.
  - eexists. split; [done |]. eapply moved_still; [by apply layer_sim_packer | done].
  - pose proof (emit_flush_ok _ _ _ _ _ H5) as H6. destruct (emit_flush l1) as [l2 o2].
    destruct H6 as [[p2 H6] Ho2]. eexists. split; [done |].
    eapply moved_still; [by apply layer_sim_packer | by apply out_ok_join].
Qed.

Lemma overhead_moves F l ls ops pool pend ov :
  layer_sim l ls ops pool pend -> moves F ops pool (Some (layer_overhead l ov, no_out)) (layer_overhead ls ov).
Proof.
  intros Hl. destruct (fe_sim_op (sw l) (sw ls) pool (SetOverhead ov) _ _ (ls_sim _ _ _ _ _ Hl) eq_refl)
    as (x & out & [= <- <-] & H1 & _).
  pose proof (layer_sim_encode l ls ops pool pend _ _ (SetOverhead ov) [] Hl eq_refl H1) as H2.
  eexists. split; [done |]. exists [SetOverhead ov], [], pend.
  split; [done |]. split; [apply out_ok_nil |]. by repeat constructor.
Qed.
End Layer.

(** ** The two layers *)

Inductive uop :=
| UFrame (sid : Z) (data : list Z) (now : Z)
| UCollect
| UPoll (now : Z)
| UFlushAll
| UOverhead (ov : double)
| ULayerOverhead (sid : Z) (ov : double)
| UShed (sid : Z) (s : bool)
| UDropIfShed (sid : Z)
| UTap (on : bool).

Definition ustep {E} `{FecEncoder E} (u : UepEncoder E) (o : uop) : option (UepEncoder E * Out) :=
  match o with
  | UFrame sid data now => add_frame u sid data now
  | UCollect => Some (uep_collect u)
  | UPoll now => poll u now
  | UFlushAll => flush_all u
  | UOverhead ov => Some (uep_set_overhead u ov, no_out)
  | ULayerOverhead sid ov => Some (set_layer_overhead u sid ov, no_out)
  | UShed sid s => u ← set_shed u sid s; Some (u, no_out)
  | UDropIfShed sid => Some (fst (drop_if_shed u sid), no_out)
  | UTap on => Some (set_source_tap u on, no_out)
  end.

Fixpoint urun {E} `{FecEncoder E} (u : UepEncoder E) (ops : list uop) : option (UepEncoder E * Out) :=
  match ops with
  | [] => Some (u, no_out)
  | o :: ops => '(u, o1) ← ustep u o; '(u, o2) ← urun u ops; Some (u, join_out o1 o2)
  end.

(** A packet that is a fragment, header and chunk, of [data]. *)
Definition fragment_of (usable : nat) (data p : list Z) : Prop :=
  exists f, p ∈ (fragment_vec (mkFragmenter f) data usable).2.

(** What a layer's encoder may have been given: fragments of the frames routed to it. *)
Definition from_frames (cfg : UepLayerCfg) (sid : Z) (ops : list uop) (p : list Z) : Prop :=
  exists s data now, UFrame s data now ∈ ops /\ clamp_sid s = sid /\
    fragment_of (Z.to_nat (max_packet_size (fec cfg) - Z.of_nat kHdrLen)) data p.

Definition layer_cfg_ok (c : UepLayerCfg) : Prop :=
  2 + Z.of_nat kHdrLen < symbol_size (fec c) < 2 ^ 16.
Definition uop_ok (o : uop) : Prop := match o with UFrame _ data _ => bytes_ok data | _ => True end.

Lemma fragment_packet_ok F f data usable :
  bytes_ok data -> Z.of_nat usable < 2 ^ 16 -> (forall p, fragment_of usable data p -> F p) ->
  Forall (packet_ok F) (fragment f data usable).2.
Proof.
  intros Hb Hu HF. apply Forall_forall. intros [h c] Hin. split.
  - apply HF. exists (seq_ f). cbn [fst snd]. unfold fragment_vec. destruct f as [sq]. cbn [seq_].
    destruct (fragment (mkFragmenter sq) data usable) as [f' fs]. cbn [snd] in *.
    apply list_elem_of_In, in_map_iff. exists (h, c). split; [done | by apply list_elem_of_In].
  - unfold fragment in Hin. cbn [snd] in Hin. apply list_elem_of_In, in_map_iff in Hin as (i & [= <- <-] & _).
    set (n := if (_ <? _)%nat then _ else _). assert (Hn : (n <= usable)%nat) by (unfold n; destruct (_ <? _)%nat; lia).
    cbn [eop_ok fst snd]. set (c16 := u16 (Z.of_nat (n_chunks (length data) usable))).
    set (ch := take n (drop (i * usable) data)).
    assert (Hl : length (frag_hdr (seq_ f) (u16 (Z.of_nat i)) c16) = 6%nat) by done.
    assert (Hc : (length ch <= usable)%nat) by (unfold ch; rewrite length_take; lia).
    rewrite length_app, Hl. split; [| lia]. apply Forall_app. split.
    + unfold frag_hdr. rewrite !Forall_app. auto with width.
    + unfold ch. by apply Forall_take, Forall_drop.
Qed.

Section Pipeline.
Context {E : Type} `{FecEncoderSpec E}.
Context (c0 c1 : UepLayerCfg) (i0 i1 : Z).

(** What a layer's reference encoder has been asked and has emitted. *)
Definition hist : Type := list eop * list (list Z).
Definition hist_app (a b : hist) : hist := (a.1 ++ b.1, a.2 ++ b.2).
Definition env_len (c : UepLayerCfg) : nat := Z.to_nat (Z.of_nat kSwHeaderLen + symbol_size (fec c)).

Definition uout_ok (h0 h1 : hist) (o : Out) : Prop :=
  Forall (fun b => carried 0 (env_len c0) h0.2 b \/ carried 1 (env_len c1) h1.2 b) o.1 /\
  Forall (fun x => tap_ok 0 h0.2 x \/ tap_ok 1 h1.2 x) o.2.

Definition usim (u : UepEncoder E) (us : UepEncoder SwEncoder) (h0 h1 : hist) : Prop :=
  (exists p, layer_sim c0 i0 0 (layer0 u) (layer0 us) h0.1 h0.2 p) /\
  (exists p, layer_sim c1 i1 1 (layer1 u) (layer1 us) h1.1 h1.2 p) /\ flush_ms_ u = flush_ms_ us.

Definition asked_ok (F : list Z -> Prop) (h : hist) : Prop := Forall (op_from F) h.1 /\ Forall eop_ok h.1.

Definition umoved (F0 F1 : list Z -> Prop) (h0 h1 : hist) (uo : UepEncoder E * Out) (us' : UepEncoder SwEncoder) : Prop :=
  exists k0 k1, usim uo.1 us' (hist_app h0 k0) (hist_app h1 k1) /\
    uout_ok (hist_app h0 k0) (hist_app h1 k1) uo.2 /\ asked_ok F0 k0 /\ asked_ok F1 k1.

Lemma hist_app_nil h : hist_app h ([], []) = h.
Proof. destruct h. unfold hist_app. cbn. by rewrite !app_nil_r. Qed.

Lemma hist_app_assoc a b c : hist_app (hist_app a b) c = hist_app a (hist_app b c).
Proof. unfold hist_app. cbn. by rewrite !app_assoc. Qed.

Lemma in_hist_app (a b : hist) : Forall (.∈ (hist_app a b).2) a.2.
Proof. apply Forall_forall. intros x Hx. cbn. apply elem_of_app. by left. Qed.

Lemma uout_ok_left h0 h1 o : out_ok 0 (env_len c0) h0.2 o -> uout_ok h0 h1 o.
Proof. intros [H1 H2]. split; (eapply Forall_impl; [eassumption |]); intros; by left. Qed.
Lemma uout_ok_right h0 h1 o : out_ok 1 (env_len c1) h1.2 o -> uout_ok h0 h1 o.
Proof. intros [H1 H2]. split; (eapply Forall_impl; [eassumption |]); intros; by right. Qed.

Lemma uout_ok_join h0 h1 a b : uout_ok h0 h1 a -> uout_ok h0 h1 b -> uout_ok h0 h1 (join_out a b).
Proof. intros [] []. by split; apply Forall_app. Qed.

Lemma uout_ok_mono h0 h1 k0 k1 o : uout_ok h0 h1 o -> uout_ok (hist_app h0 k0) (hist_app h1 k1) o.
Proof.
  intros [H1 H2].
  assert (M : forall sid bp (h k : hist) b, carried sid bp h.2 b -> carried sid bp (hist_app h k).2 b).
  { intros sid bp h k b Hb. pose proof (out_ok_mono sid bp h.2 _ ([b], []) (in_hist_app h k)) as M.
    destruct M as [M _]; [split; [by constructor | constructor] |]. by apply Forall_inv in M. }
  split; (eapply Forall_impl; [eassumption |]).
  - intros b [Hb | Hb]; [left | right]; by apply M.
  - intros x [[Hs Hx] | [Hs Hx]]; [left | right]; (split; [done |]); cbn; apply elem_of_app; by left.
Qed.

(** A call on the first layer, then one on the second. *)
Lemma both_moved F0 F1 u us h0 h1 p0 p1 r0 r1 ls0 ls1 :
  layer_sim c0 i0 0 (layer0 u) (layer0 us) h0.1 h0.2 p0 ->
  layer_sim c1 i1 1 (layer1 u) (layer1 us) h1.1 h1.2 p1 -> flush_ms_ u = flush_ms_ us ->
  moves c0 i0 0 F0 h0.1 h0.2 r0 ls0 -> moves c1 i1 1 F1 h1.1 h1.2 r1 ls1 ->
  exists l0 o0 l1 o1, r0 = Some (l0, o0) /\ r1 = Some (l1, o1) /\
    umoved F0 F1 h0 h1 (mkUepEncoder l0 l1 (flush_ms_ u), join_out o0 o1) (mkUepEncoder ls0 ls1 (flush_ms_ us)).
Proof.
  intros S0 S1 Sf ([l0 o0] & -> & ops0 & pool0 & q0 & A1 & A2 & A3) ([l1 o1] & -> & ops1 & pool1 & q1 & B1 & B2 & B3).
  exists l0, o0, l1, o1. split; [done |]. split; [done |]. exists (ops0, pool0), (ops1, pool1).
  split; [split; [by exists q0 | split; [by exists q1 | done]] |].
  split; [| by split]. apply uout_ok_join; [by apply uout_ok_left | by apply uout_ok_right].
Qed.

Lemma still_moves c i sid F l ls ops pool pend :
  layer_sim c i sid l ls ops pool pend -> moves c i sid F ops pool (Some (l, no_out)) ls.
Proof. intros Hl. eexists. split; [done |]. eapply moved_still; [done | apply out_ok_nil]. Qed.

(** One call on the layer [sid]. *)
Lemma one_moved F0 F1 u us h0 h1 sid r ls' :
  usim u us h0 h1 ->
  (forall c i s F ops pool pend, (sid =? 0) = (s =? 0) -> (s = 0 /\ F = F0 /\ c = c0 \/ s = 1 /\ F = F1 /\ c = c1) ->
     layer_sim c i s (layer_at u sid) (layer_at us sid) ops pool pend ->
     moves c i s F ops pool r ls') ->
  exists l o, r = Some (l, o) /\ umoved F0 F1 h0 h1 (set_layer u sid l, o) (set_layer us sid ls').
Proof.
  intros ([p0 S0] & [p1 S1] & Sf) Hm. unfold layer_at, set_layer in *. destruct (sid =? 0) eqn:Es.
  - destruct (both_moved F0 F1 u us h0 h1 p0 p1 r (Some (layer1 u, no_out)) ls' (layer1 us) S0 S1 Sf)
      as (l0 & o0 & l1 & o1 & -> & [= <- <-] & Hu).
    + eapply Hm; [| | exact S0]; [done | by left].
    + by eapply still_moves.
    + exists l0, o0. split; [done |]. unfold join_out in Hu. cbn in Hu. rewrite !app_nil_r in Hu.
      by destruct o0.
  - destruct (both_moved F0 F1 u us h0 h1 p0 p1 (Some (layer0 u, no_out)) r (layer0 us) ls' S0 S1 Sf)
      as (l0 & o0 & l1 & o1 & [= <- <-] & -> & Hu).
    + by eapply still_moves.
    + eapply Hm; [| | exact S1]; [done | by right].
    + exists l1, o1. split; [done |]. by destruct o1.
Qed.

Lemma umoved_still F0 F1 u us h0 h1 : usim u us h0 h1 -> umoved F0 F1 h0 h1 (u, no_out) us.
Proof.
  intros Hu. exists ([], []), ([], []). rewrite !hist_app_nil. split; [done |].
  split; [by split; constructor |]. split; split; constructor.
Qed.

(** The same call on each layer in turn. *)
Lemma both_step F0 F1 u us h0 h1 f fs us' os :
  usim u us h0 h1 ->
  (forall c i s F l ls ops pool pend ls' os, layer_sim c i s l ls ops pool pend -> fs ls = Some (ls', os) ->
     moves c i s F ops pool (f l) ls') ->
  both fs us = Some (us', os) -> exists uo, both f u = Some uo /\ umoved F0 F1 h0 h1 uo us'.
Proof.
  intros ([p0 S0] & [p1 S1] & Sf) Hf. unfold both.
  destruct (fs (layer0 us)) as [[ls0 os0]|] eqn:E0; [| done]. cbn [mbind option_bind].
  destruct (fs (layer1 us)) as [[ls1 os1]|] eqn:E1; [| done]. cbn [mbind option_bind]. intros [= <- _].
  destruct (both_moved F0 F1 u us h0 h1 p0 p1 (f (layer0 u)) (f (layer1 u)) ls0 ls1 S0 S1 Sf)
    as (l0 & o0 & l1 & o1 & -> & -> & Hm); [by eapply Hf.. |]. cbn [mbind option_bind]. by eexists.
Qed.

Context (ops : list uop).
Let F0 : list Z -> Prop := from_frames c0 0 ops.
Let F1 : list Z -> Prop := from_frames c1 1 ops.
Context (Hc0 : layer_cfg_ok c0) (Hc1 : layer_cfg_ok c1).

Lemma ustep_moved u us h0 h1 o us' os :
  usim u us h0 h1 -> uop_ok o -> o ∈ ops -> ustep us o = Some (us', os) ->
  exists uo, ustep u o = Some uo /\ umoved F0 F1 h0 h1 uo us'.
Proof.
  intros Hu Hok Hin. pose proof Hu as ([p0 S0] & [p1 S1] & Sf).
  destruct o as [sid data now | | now | | ov | sid ov | sid s | sid | on]; cbn [ustep].
  - unfold add_frame. cbn zeta. set (cs := clamp_sid sid).
    assert (Hsh : shed (layer_at u cs) = shed (layer_at us cs)).
    { unfold layer_at. destruct (cs =? 0); [destruct S0 as [_ _ V] | destruct S1 as [_ _ V]]; unfold view in V; congruence. }
    rewrite Hsh. destruct (shed (layer_at us cs)).
    + intros [= <- _]. destruct (one_moved F0 F1 u us h0 h1 cs
        (Some (set_shed_count (layer_at u cs) true (u64 (dropped_count (layer_at u cs) + 1)), no_out))
        (set_shed_count (layer_at us cs) true (u64 (dropped_count (layer_at us cs) + 1))) Hu)
        as (l & oo & [= <- <-] & Hm); [| by eexists].
      intros c i s F oo pool pend _ _ Hl. eapply still_moves. by apply layer_sim_shed.
    + destruct (layer_frame (layer_at us cs) data now) as [[ls' os']|] eqn:El; [| done].
      cbn [mbind option_bind]. intros [= <- _].
      destruct (one_moved F0 F1 u us h0 h1 cs (layer_frame (layer_at u cs) data now) ls' Hu)
        as (l & oo & -> & Hm); [| by eexists].
      intros c i s F oo pool pend Hcs Hs Hl. eapply frame_moves; [done | | done].
      assert (Hcl : clamp_sid sid = s /\ layer_cfg_ok c /\ F = from_frames c s ops).
      { assert (clamp_sid sid = 0 \/ clamp_sid sid = 1) by (unfold clamp_sid, kNumStreams; repeat case_Zb; lia).
        destruct Hs as [(-> & -> & ->) | (-> & -> & ->)]; (split; [| by split]);
          [by apply Z.eqb_eq | by apply Z.eqb_neq in Hcs; fold cs in H |- *; lia]. }
      destruct Hcl as (Hcl & Hco & ->). rewrite (ls_usable _ _ _ _ _ _ _ _ Hl).
      apply fragment_packet_ok; [done | |].
      * unfold layer_cfg_ok, max_packet_size in *. lia.
      * intros p Hp. by exists sid, data, now.
  - intros [= Ec]. unfold uep_collect in *.
    destruct (both_moved F0 F1 u us h0 h1 p0 p1 (Some (collect_layer (layer0 u))) (Some (collect_layer (layer1 u)))
      (collect_layer (layer0 us)).1 (collect_layer (layer1 us)).1 S0 S1 Sf)
      as (l0 & o0 & l1 & o1 & [= ->] & [= ->] & Hm); [by eapply collect_moves.. |].
    destruct (collect_layer (layer0 us)), (collect_layer (layer1 us)). injection Ec as <- _. by eexists.
  - apply both_step; [done |]. intros c i s F l ls oo pool pend ls' os' Hl.
    pose proof Sf as Sf'. rewrite Sf'. by apply poll_moves with pend.
  - apply both_step; [done |]. intros c i s F l ls oo pool pend ls' os' Hl. by apply drain_moves with pend.
  - intros [= <- _].
    destruct (both_moved F0 F1 u us h0 h1 p0 p1 (Some (layer_overhead (layer0 u) ov, no_out))
      (Some (layer_overhead (layer1 u) ov, no_out)) (layer_overhead (layer0 us) ov) (layer_overhead (layer1 us) ov) S0 S1 Sf)
      as (l0 & o0 & l1 & o1 & [= <- <-] & [= <- <-] & Hm); [by eapply overhead_moves.. |]. by eexists.
  - intros [= <- _].
    destruct (one_moved F0 F1 u us h0 h1 (clamp_sid sid) (Some (layer_overhead (layer_at u (clamp_sid sid)) ov, no_out))
      (layer_overhead (layer_at us (clamp_sid sid)) ov) Hu) as (l & oo & [= <- <-] & Hm); [| by eexists].
    intros. by eapply overhead_moves.
  - unfold set_shed. destruct (_ && _); [| done]. cbn [mbind option_bind]. intros [= <- _].
    destruct (one_moved F0 F1 u us h0 h1 sid (Some (set_shed_count (layer_at u sid) s (dropped_count (layer_at u sid)), no_out))
      (set_shed_count (layer_at us sid) s (dropped_count (layer_at us sid))) Hu) as (l & oo & [= <- <-] & Hm); [| by eexists].
    intros. eapply still_moves. by apply layer_sim_shed.
  - intros [= <- _]. unfold drop_if_shed. cbn zeta. set (cs := clamp_sid sid).
    assert (Hsh : shed (layer_at u cs) = shed (layer_at us cs)).
    { unfold layer_at. destruct (cs =? 0); [destruct S0 as [_ _ V] | destruct S1 as [_ _ V]]; unfold view in V; congruence. }
    rewrite Hsh. destruct (negb _); cbn [fst].
    + eexists. split; [done |]. by apply umoved_still.
    + destruct (one_moved F0 F1 u us h0 h1 cs
        (Some (set_shed_count (layer_at u cs) true (u64 (dropped_count (layer_at u cs) + 1)), no_out))
        (set_shed_count (layer_at us cs) true (u64 (dropped_count (layer_at us cs) + 1))) Hu)
        as (l & oo & [= <- <-] & Hm); [| by eexists].
      intros. eapply still_moves. by apply layer_sim_shed.
  - intros [= <- _]. eexists. split; [done |]. apply umoved_still. split; [exists p0 | split; [exists p1 | done]]; by apply layer_sim_tap.
Qed.

Lemma urun_moved o u us h0 h1 us' os :
  usim u us h0 h1 -> Forall uop_ok o -> (forall x, x ∈ o -> x ∈ ops) -> urun us o = Some (us', os) ->
  exists uo, urun u o = Some uo /\ umoved F0 F1 h0 h1 uo us'.
Proof.
  revert u us h0 h1 us' os. induction o as [|x o IH]; intros u us h0 h1 us' os Hu Hok Hin; cbn [urun].
  { intros [= <- _]. eexists. split; [done |]. by apply umoved_still. }
  apply Forall_cons in Hok as [Hx Hok].
  destruct (ustep us x) as [[us1 os1]|] eqn:E1; [| done]. cbn [mbind option_bind].
  destruct (urun us1 o) as [[us2 os2]|] eqn:E2; [| done]. cbn [mbind option_bind]. intros [= <- _].
  destruct (ustep_moved u us h0 h1 x us1 os1 Hu Hx) as ([u1 o1] & -> & k0 & k1 & G1 & G2 & G3 & G4); [apply Hin; constructor | done |].
  cbn [mbind option_bind]. destruct (IH u1 us1 _ _ us2 os2 G1 Hok) as ([u2 o2] & -> & j0 & j1 & J1 & J2 & J3 & J4); [| done |].
  { intros y Hy. apply Hin. by constructor. }
  eexists. split; [done |]. exists (hist_app k0 j0), (hist_app k1 j1).
  rewrite <- !hist_app_assoc. split; [done |]. split; [apply uout_ok_join; [by apply uout_ok_mono | done] |].
  destruct G3, G4, J3, J4. split; split; by apply Forall_app.
Qed.
End Pipeline.
