(* ===== verification/UepEndToEnd.v ===== *)
(** * UepEndToEnd: frames in, fragments out

    The two-layer pipeline, the radio and the two-layer decoder together: what the encoder
    emits is damaged, dropped, repeated, reordered and retransmitted, and the decoder hands
    up nothing but fragments of the frames that went in. *)
From S2P Require Import Prelude Bytes SwWire Framing Sbi SwConfig SwDecoder SwDecoderSound SwDecoderProps.
From S2P Require Import SwEncoder SwEncoderSound AsyncEncoder AsyncEncoderSound EndToEnd.
From S2P Require Import UepEncoder UepSound UepDecoder.
Local Open Scope Z_scope.
Local Open Scope mabur_scope.

(** ** The channel *)

(** The block size of a stream's bodies. *)
Definition bp_of (c0 c1 : UepLayerCfg) (sid : Z) : nat := env_len (if sid =? 0 then c0 else c1).

(** A body on the air, by its stream id byte and its envelopes: one the pipeline emitted, or
    a marked one that answers a request with envelopes the tap saw. *)
Inductive on_air (c0 c1 : UepLayerCfg) (o : Out) : Z -> Z -> list (list Z) -> Prop :=
| air_live b n g :
    b ∈ o.1 -> Forall (fun env => length env = bp_of c0 c1 (b_stream_id b)) g ->
    body b = body_header (b_stream_id b) (Z.of_nat (bp_of c0 c1 (b_stream_id b))) n 0 0 0 ++ concat (map block g) ->
    on_air c0 c1 o (b_stream_id b) (b_stream_id b) g
| air_retx sid g :
    sid_ok sid = true -> Forall (fun env => length env = bp_of c0 c1 sid /\ exists s, (sid, s, env) ∈ o.2) g ->
    on_air c0 c1 o sid (sid + kSbiRetxMark) g.

(** What a receiver hears: such a body with blocks hit, its count and its duration fields
    rewritten and stray bytes behind it; or a body of some other stream. *)
Inductive heard (c0 c1 : UepLayerCfg) (o : Out) : list Z -> Prop :=
| heard_air sid mark sent bs n q e a post :
    on_air c0 c1 o sid mark (map fst sent) ->
    Forall2 (fun eb cp => received (fst eb) cp (snd eb)) sent bs ->
    in_width 16 q -> in_width 16 e -> in_width 16 a -> (length post < 2 + bp_of c0 c1 sid)%nat ->
    heard c0 c1 o (body_header mark (Z.of_nat (bp_of c0 c1 sid)) n q e a ++
                   concat (map (fun '(c, p) => raw_block c p) bs) ++ post)
| heard_other rx sid : sbi_peek_stream_id rx = Some sid -> sid_ok sid = false -> heard c0 c1 o rx.

(** ** The receiver's calls *)

Inductive dinput :=
| RxBody (rx : list Z) (now rx_mcs mono : Z) (clean : bool)
| RxMark (sid new_mcs now : Z)
| RxReset
| RxEpisodes (sid : Z).

Definition dstep (u : UepDecoder) (i : dinput) : option (UepDecoder * list DecodedFrag) :=
  match i with
  | RxBody rx now rx_mcs mono clean => add_body u rx now rx_mcs mono clean
  | RxMark sid new_mcs now => Some (UepDecoder.mark_transition u sid new_mcs now, [])
  | RxReset => Some (reset_continuity u, [])
  | RxEpisodes sid => Some (fst (uep_take_episodes u sid), [])
  end.

Fixpoint drun (u : UepDecoder) (ins : list dinput) : option (UepDecoder * list DecodedFrag) :=
  match ins with
  | [] => Some (u, [])
  | i :: ins => '(u, o1) ← dstep u i; '(u, o2) ← drun u ins; Some (u, o1 ++ o2)
  end.

Definition heard_input (c0 c1 : UepLayerCfg) (o : Out) (i : dinput) : Prop :=
  match i with RxBody rx _ _ _ _ => heard c0 c1 o rx | _ => True end.

(** ** One layer of the receiver *)

Lemma with_seqs_packets (pkts : list (list Z)) seqs p s :
  length seqs = length pkts -> (p, s) ∈ with_seqs pkts seqs -> (p, s) ∈ zip pkts seqs.
Proof.
  revert seqs. induction pkts as [|p0 pkts IH]; intros [|s0 seqs]; cbn; try done.
  intros [= Hl]. rewrite !elem_of_cons. intros [->|H]; [by left | right; auto].
Qed.

Section Layer.
Context (ss : nat) (src : Z -> list Z) (Hsrc : sender ss src).

(** A fragment handed up is a packet of the sender's symbols. *)
Definition frag_ok (sid : Z) (f : DecodedFrag) : Prop :=
  df_stream_id f = sid /\ df_frag f ∈ pkts_of ss (src (df_sw_seq f)) /\ (kHdrLen <= length (df_frag f))%nat.

Lemma lengths_match vs :
  length (concat (map (fun v => replicate (length (pkts_of ss (srcv src v))) (u32 v)) vs)) =
  length (concat (map (fun v => pkts_of ss (srcv src v)) vs)).
Proof.
  induction vs as [|v vs IH]; [done |]. cbn [map concat]. by rewrite !length_app, length_replicate, IH.
Qed.

Lemma feed_survivors_ok envs d sid now mono hint clean r :
  dec_inv ss src d -> Forall (genuine ss src) envs ->
  exists d' out, feed_survivors d sid now mono hint clean r envs = Some (d', out) /\
    dec_inv ss src d' /\ Forall (frag_ok sid) out.
Proof.
  intros Hi Hg. revert d Hi. induction Hg as [|env envs He Hg IH]; intros d Hi; cbn [feed_survivors].
  { exists d, []. split; [done |]. split; [done | constructor]. }
  destruct (add_symbol_ok ss src (fun s => proj1 (Hsrc s)) (fun s => proj2 (Hsrc s))
      d env now hint clean (Sbi.retx r) Hi He) as (d1 & out & Ha & Hi1 & vs & Ho & Hl & _).
  rewrite Ha. cbn [mbind option_bind].
  destruct (IH d1 Hi1) as (d2 & out2 & -> & Hi2 & Ho2). cbn [mbind option_bind].
  eexists _, _. split; [done |]. split; [done |]. apply Forall_app. split; [| done].
  apply Forall_forall. intros f Hf. unfold frags_of in Hf. apply list_elem_of_fmap in Hf as ([p s] & -> & Hf).
  apply list_elem_of_filter in Hf as [Hlen Hf]. rewrite Hl, Ho in Hf.
  apply with_seqs_packets, zip_packets in Hf as [_ Hf]; [by split | apply lengths_match].
Qed.

Record layer_inv (l : Layer) : Prop := {
  li_size : env_size l = Z.of_nat kSwHeaderLen + Z.of_nat ss;
  li_dec : dec_inv ss src (sw l);
}.

Lemma boundary_hint_ok l now rx_mcs : layer_inv l -> layer_inv (boundary_hint l now rx_mcs).1.
Proof.
  intros [H1 H2]. unfold boundary_hint. repeat case_match; try done; (split; [done |]).
  by eapply dec_inv_same, H2.
Qed.

Lemma close_on_post_ok l hint now : layer_inv l -> layer_inv (close_on_post l hint now).
Proof. intros [H1 H2]. unfold close_on_post. repeat case_match; by split. Qed.

Lemma mark_layer_ok l new_mcs now : layer_inv l -> layer_inv (mark_layer l new_mcs now).
Proof.
  intros [H1 H2]. split; [done |]. cbn. unfold SwDecoder.mark_transition.
  repeat case_match; by eapply dec_inv_same, H2.
Qed.

Lemma reset_layer_ok l : layer_inv l -> layer_inv (reset_layer l).
Proof. intros [H1 H2]. split; [done |]. by eapply dec_inv_same, H2. Qed.

Lemma take_episodes_ok l : layer_inv l -> layer_inv (UepDecoder.set_sw l (SwDecoder.take_episodes (sw l)).1).
Proof. intros [H1 H2]. split; [done |]. by eapply dec_inv_same, H2. Qed.

(** A body whose surviving envelopes are genuine. *)
Lemma layer_body_ok l sid rx now rx_mcs mono clean :
  layer_inv l ->
  (forall r, sbi_unpack rx (Z.of_nat kSwHeaderLen + Z.of_nat ss) = Some r -> Forall (genuine ss src) (survivors r)) ->
  is_Some (sbi_unpack rx (Z.of_nat kSwHeaderLen + Z.of_nat ss)) ->
  exists l' out, layer_body l sid rx now rx_mcs mono clean = Some (l', out) /\
    layer_inv l' /\ Forall (frag_ok sid) out.
Proof.
  intros Hl Hg [r Hr]. unfold layer_body. cbn zeta.
  set (l0 := set_counts l _ _ _ _). assert (H0 : layer_inv l0) by (destruct Hl; by split).
  pose proof (boundary_hint_ok l0 now rx_mcs H0) as H1. destruct (boundary_hint l0 now rx_mcs) as [l1 hint].
  cbn [fst] in H1. set (h' := if retx_marked rx then kNone else hint).
  pose proof (close_on_post_ok l1 h' now H1) as H2. set (l2 := close_on_post l1 h' now) in *.
  rewrite (li_size _ H2), Hr. cbn [mbind option_bind].
  destruct (feed_survivors_ok (survivors r) (sw l2) sid now mono h' clean r (li_dec _ H2) (Hg r Hr))
    as (d & out & Hf & Hd & Ho).
  cbn [sw set_counts]. rewrite Hf. cbn [mbind option_bind]. eexists _, _. split; [done |].
  split; [| done]. destruct H2. by split.
Qed.
End Layer.

(** ** Both layers *)

Lemma header_bp sid bp n q e a rest :
  in_width 16 (Z.of_nat bp) -> get16 (body_header sid (Z.of_nat bp) n q e a ++ rest) 4 = Some (Z.of_nat bp).
Proof. intros Hw. unfold body_header, put16, get16. cbn [app lookup list_lookup mbind option_bind]. by rewrite le16_id. Qed.

Lemma unpack_unique sid sid' bp n n' g g' :
  (0 < bp)%nat -> in_width 16 (Z.of_nat bp) ->
  Forall (fun env => length env = bp) g -> Forall (fun env => length env = bp) g' ->
  body_header sid (Z.of_nat bp) n 0 0 0 ++ concat (map block g) =
  body_header sid' (Z.of_nat bp) n' 0 0 0 ++ concat (map block g') -> g = g'.
Proof.
  intros H0 Hw Hg Hg' E. pose proof (unpack_packed sid bp n g H0 Hw Hg) as H1.
  pose proof (unpack_packed sid' bp n' g' H0 Hw Hg') as H2. rewrite E, H2 in H1. by injection H1.
Qed.

Lemma sid_cases sid : sid_ok sid = true -> sid = 0 \/ sid = 1.
Proof.
  unfold sid_ok. intros [H1 H2]%negb_true_iff%orb_false_iff. apply Z.ltb_ge in H1, H2. lia.
Qed.

Section Both.
Context (c0 c1 : UepLayerCfg) (src0 src1 : Z -> list Z).
Let ss0 : nat := Z.to_nat (symbol_size (fec c0)).
Let ss1 : nat := Z.to_nat (symbol_size (fec c1)).
Context (Hs0 : sender ss0 src0) (Hs1 : sender ss1 src1).
Context (Hc0 : Z.of_nat (env_len c0) < 2 ^ 16) (Hc1 : Z.of_nat (env_len c1) < 2 ^ 16).
Context (Hp0 : 0 < symbol_size (fec c0)) (Hp1 : 0 < symbol_size (fec c1)).

Definition dec_sim (u : UepDecoder) : Prop :=
  layer_inv ss0 src0 (UepDecoder.layer0 u) /\ layer_inv ss1 src1 (UepDecoder.layer1 u).

Definition genuine_on (sid : Z) : list Z -> Prop := if sid =? 0 then genuine ss0 src0 else genuine ss1 src1.
Definition frag_on (f : DecodedFrag) : Prop :=
  frag_ok ss0 src0 0 f \/ frag_ok ss1 src1 1 f.

Lemma bp_pos sid : (0 < bp_of c0 c1 sid)%nat /\ in_width 16 (Z.of_nat (bp_of c0 c1 sid)).
Proof. unfold bp_of, env_len in *. destruct (sid =? 0); unfold in_width; lia. Qed.

Lemma on_air_genuine o h0 h1 sid mark g :
  uout_ok c0 c1 h0 h1 o -> Forall (genuine ss0 src0) h0.2 -> Forall (genuine ss1 src1) h1.2 ->
  on_air c0 c1 o sid mark g ->
  sid_ok sid = true /\ (mark = sid \/ mark = sid + kSbiRetxMark) /\
  Forall (fun env => genuine_on sid env /\ length env = bp_of c0 c1 sid) g.
Proof.
  intros [Hb Ht] G0 G1 Ha. destruct Ha as [b n g Hin Hl E | sid g Hsid Hg].
  - rewrite Forall_forall in Hb. destruct (bp_pos (b_stream_id b)) as [P1 P2].
    assert (K : forall s h, carried s (bp_of c0 c1 s) h b -> (s = 0 \/ s = 1) -> Forall (genuine_on s) h ->
      sid_ok (b_stream_id b) = true /\ (b_stream_id b = b_stream_id b \/ b_stream_id b = b_stream_id b + kSbiRetxMark) /\
      Forall (fun env => genuine_on (b_stream_id b) env /\ length env = bp_of c0 c1 (b_stream_id b)) g).
    { intros s h (Hs & n' & g' & E' & Hg') Hsid Hh. rewrite Hs in *. split; [by destruct Hsid as [-> | ->] |].
      split; [by left |]. rewrite E in E'.
      assert (Hl' : Forall (fun env => length env = bp_of c0 c1 s) g')
        by (eapply Forall_impl; [exact Hg' |]; by intros env []).
      apply unpack_unique in E' as ->; [| done..].
      apply Forall_forall. intros env He. rewrite Forall_forall in Hg', Hh. destruct (Hg' _ He). by split; [apply Hh |]. }
    destruct (Hb _ Hin) as [H | H].
    + apply (K 0 h0.2); [done | by left | done].
    + apply (K 1 h1.2); [done | by right | done].
  - split; [done |]. split; [by right |]. apply Forall_forall. intros env He.
    rewrite Forall_forall in Hg, G0, G1. rewrite Forall_forall in Ht. destruct (Hg _ He) as [Hl [s Hs]]. split; [| done].
    destruct (Ht _ Hs) as [[E Hin] | [E Hin]]; cbn in E, Hin; subst sid; [by apply G0 | by apply G1].
Qed.

Lemma sid_bits sid mark : sid_ok sid = true -> mark = sid \/ mark = sid + kSbiRetxMark ->
  Z.land mark kSbiStreamIdMask = sid.
Proof. intros H. apply sid_cases in H as [-> | ->]; intros [-> | ->]; by vm_compute. Qed.

Lemma peek_header sid bp n q e a rest : sbi_peek_stream_id (body_header sid bp n q e a ++ rest) =
  Some (Z.land sid kSbiStreamIdMask).
Proof.
  unfold sbi_peek_stream_id. rewrite (proj2 (Nat.ltb_ge _ SBI_HDR_LEN)) by (rewrite length_app; cbn; unfold SBI_HDR_LEN; lia).
  unfold body_header, get16, get8, put16. cbn [app lookup list_lookup mbind option_bind].
  rewrite (le16_id SBI_MAGIC) by decided. by rewrite !Z.eqb_refl.
Qed.
Lemma heard_unpack o h0 h1 sid mark sent bs n q e a post :
  uout_ok c0 c1 h0 h1 o -> Forall (genuine ss0 src0) h0.2 -> Forall (genuine ss1 src1) h1.2 ->
  on_air c0 c1 o sid mark (map fst sent) ->
  Forall2 (fun eb cp => received (fst eb) cp (snd eb)) sent bs ->
  in_width 16 q -> in_width 16 e -> in_width 16 a -> (length post < 2 + bp_of c0 c1 sid)%nat ->
  exists r, sbi_unpack (body_header mark (Z.of_nat (bp_of c0 c1 sid)) n q e a ++
      concat (map (fun '(c, p) => raw_block c p) bs) ++ post) (Z.of_nat (bp_of c0 c1 sid)) = Some r /\
    Forall (genuine_on sid) (survivors r) /\ sid_ok sid = true /\ Z.land mark kSbiStreamIdMask = sid.
Proof.
  intros Ho G0 G1 Ha Hrx Hq He Haa Hpost.
  destruct (on_air_genuine o h0 h1 sid mark _ Ho G0 G1 Ha) as (Hsid & Hmark & Hg).
  rewrite Forall_map in Hg. destruct (bp_pos sid) as [P1 P2]. rewrite sbi_unpack_blocks; [| done.. | | done].
  - eexists. split; [done |]. cbn [survivors unpack_spec]. rewrite (received_survivors sent) by done.
    split; [| split; [done | by eapply sid_bits]]. apply Forall_map, Forall_forall. intros [env ok] [_ Hin]%list_elem_of_filter.
    rewrite Forall_forall in Hg. by apply (Hg _ Hin).
  - clear Hpost Ha. induction Hrx as [|[env ok] [c p] sent bs Hr Hrx IH]; [done |].
    apply Forall_cons in Hg as [[_ Hl] Hg]. constructor; [| by apply IH].
    cbn in *. apply received_kept in Hr as (_ & _ & Hlen & Hc). split; [done | congruence].
Qed.

Lemma add_body_ok o h0 h1 u rx now rx_mcs mono clean :
  uout_ok c0 c1 h0 h1 o -> Forall (genuine ss0 src0) h0.2 -> Forall (genuine ss1 src1) h1.2 ->
  dec_sim u -> heard c0 c1 o rx ->
  exists u' out, add_body u rx now rx_mcs mono clean = Some (u', out) /\ dec_sim u' /\ Forall frag_on out.
Proof.
  intros Ho G0 G1 [D0 D1] Hh. unfold add_body. destruct Hh as [sid mark sent bs n q e a post Ha Hrx Hq He Haa Hpost | rx sid Hp Hs].
  - destruct (heard_unpack o h0 h1 sid mark sent bs n q e a post) as (r & Hr & Hgr & Hsid & Hm); [done.. |].
    rewrite peek_header, Hm. cbn [mbind option_bind]. rewrite Hsid. cbn [negb].
    unfold genuine_on, bp_of, layer_at, set_layer in *. apply sid_cases in Hsid as [-> | ->]; cbn [Z.eqb] in *.
    + assert (E : Z.of_nat (env_len c0) = Z.of_nat kSwHeaderLen + Z.of_nat ss0) by (unfold env_len, ss0; lia).
      rewrite E in *. destruct (layer_body_ok ss0 src0 Hs0 (UepDecoder.layer0 u) 0
        _ now rx_mcs mono clean D0 ltac:(by rewrite Hr; intros ? [= <-]) ltac:(by rewrite Hr)) as (l & out & -> & Hl & Hout).
      cbn [mbind option_bind]. eexists _, _. split; [done |]. split; [by split |].
      eapply Forall_impl; [exact Hout |]. intros f Hf. by left.
    + assert (E : Z.of_nat (env_len c1) = Z.of_nat kSwHeaderLen + Z.of_nat ss1) by (unfold env_len, ss1; lia).
      rewrite E in *. destruct (layer_body_ok ss1 src1 Hs1 (UepDecoder.layer1 u) 1
        _ now rx_mcs mono clean D1 ltac:(by rewrite Hr; intros ? [= <-]) ltac:(by rewrite Hr)) as (l & out & -> & Hl & Hout).
      cbn [mbind option_bind]. eexists _, _. split; [done |]. split; [by split |].
      eapply Forall_impl; [exact Hout |]. intros f Hf. by right.
  - rewrite Hp. cbn [mbind option_bind]. rewrite Hs. eexists _, _. split; [done |]. split; [by split | constructor].
Qed.

Lemma dstep_ok o h0 h1 u i :
  uout_ok c0 c1 h0 h1 o -> Forall (genuine ss0 src0) h0.2 -> Forall (genuine ss1 src1) h1.2 ->
  dec_sim u -> heard_input c0 c1 o i ->
  exists u' out, dstep u i = Some (u', out) /\ dec_sim u' /\ Forall frag_on out.
Proof.
  intros Ho G0 G1 Hd Hi. destruct i as [rx now rx_mcs mono clean | sid new_mcs now | | sid]; cbn [dstep].
  - by eapply add_body_ok.
  - eexists _, _. split; [done |]. split; [| constructor]. destruct Hd as [D0 D1]. unfold UepDecoder.mark_transition.
    destruct (negb _); [done |]. unfold layer_at, set_layer. destruct (sid =? 0); (split; [| done]) || (split; [done |]); by apply mark_layer_ok.
  - eexists _, _. split; [done |]. split; [| constructor]. destruct Hd. split; by apply reset_layer_ok.
  - eexists _, _. split; [done |]. split; [| constructor]. destruct Hd as [D0 D1]. unfold uep_take_episodes.
    destruct (sid_ok sid); [| done]. cbn zeta. cbn [fst].
    unfold layer_at, set_layer. destruct (sid =? 0); (split; [| done]) || (split; [done |]); by apply take_episodes_ok.
Qed.

Lemma drun_ok o h0 h1 u ins :
  uout_ok c0 c1 h0 h1 o -> Forall (genuine ss0 src0) h0.2 -> Forall (genuine ss1 src1) h1.2 ->
  dec_sim u -> Forall (heard_input c0 c1 o) ins ->
  exists u' out, drun u ins = Some (u', out) /\ dec_sim u' /\ Forall frag_on out.
Proof.
  intros Ho G0 G1 Hd Hi. revert u Hd. induction Hi as [|i ins Hi _ IH]; intros u Hd; cbn [drun].
  { eexists _, _. split; [done |]. split; [done | constructor]. }
  destruct (dstep_ok o h0 h1 u i Ho G0 G1 Hd Hi) as (u1 & o1 & -> & Hd1 & H1). cbn [mbind option_bind].
  destruct (IH u1 Hd1) as (u2 & o2 & -> & Hd2 & H2). cbn [mbind option_bind].
  eexists _, _. split; [done |]. split; [done |]. by apply Forall_app.
Qed.

Lemma new_dec_sim d0 d1 hz g :
  symbol_size (fec d0) = symbol_size (fec c0) -> symbol_size (fec d1) = symbol_size (fec c1) ->
  dec_sim (new_uep_decoder d0 d1 hz g).
Proof.
  intros E0 E1. split; (split; [cbn; lia | apply new_decoder_inv; lia]).
Qed.
End Both.

(** ** What an encoder's history makes of its envelopes *)

Lemma accepted_from (F : list Z -> Prop) ss ops p :
  Forall (op_from F) ops -> p ∈ concat (map (accepted ss) ops) -> F p.
Proof.
  induction 1 as [|o ops Ho H IH]; cbn [map concat]; [intros Hp; by apply not_elem_of_nil in Hp |].
  rewrite elem_of_app. intros [Hp | Hp]; [| by apply IH].
  destruct o as [a b | | x]; cbn in Hp; [| by apply not_elem_of_nil in Hp..].
  destruct (_ <=? _); [| by apply not_elem_of_nil in Hp]. apply list_elem_of_singleton in Hp as ->. exact Ho.
Qed.

Lemma pool_genuine cfg init ops e pool (F : list Z -> Prop) :
  2 <= symbol_size cfg < 2 ^ 16 -> in_width 32 init -> Forall eop_ok ops -> Forall (op_from F) ops ->
  erun (new_encoder cfg init) ops = Some (e, pool) -> sources_out_ e <= 2 ^ 32 ->
  exists src, sender (Z.to_nat (symbol_size cfg)) src /\
    Forall (genuine (Z.to_nat (symbol_size cfg)) src) pool /\
    forall s p, p ∈ pkts_of (Z.to_nat (symbol_size cfg)) (src s) -> F p.
Proof.
  intros Hss Hi Hok HF Hr Hn. set (ss := Z.to_nat (symbol_size cfg)).
  destruct (erun_trace _ init [] [] [] ops e pool (new_encoder_trace cfg init Hss Hi) Hok Hr)
    as (Hs & groups & pend & [Hinv Hp Hg Hne Hso] & _ & Henv).
  assert (Ess : ss_of (new_encoder cfg init) = ss) by done. rewrite Ess in Henv.
  assert (Ess2 : ss_of e = ss) by (unfold ss_of; by rewrite Hs).
  rewrite Ess2 in *. cbn [app] in Hp. change (symbol_size (cfg_ (new_encoder cfg init))) with (symbol_size cfg) in Hp.
  exists (src_of ss init (map (symbol_of ss) groups)).
  pose proof (src_of_sender ss init groups Hg) as Hsend. split; [| split].
  - intros s. apply Hsend.
  - eapply Forall_impl; [exact Henv |]. intros env Hx. specialize (Hx []).
    rewrite app_nil_r, length_map in Hx. apply Hx; [lia | constructor].
  - intros s p Hin. eapply accepted_from; [exact HF |]. rewrite Hp. apply elem_of_app. left. by apply (Hsend s).
Qed.

(** ** Every call returns

    At overheads of whole 64ths up to 4.0 the credit loop ends, whatever the sequence of
    overheads. *)

Definition overhead_ok (x : double) : Prop := exists k, (k <= 256)%nat /\ x = sixty_fourths k.

Record tame (e : SwEncoder) : Prop := {
  tm_overhead : overhead_ok (overhead (cfg_ e));
  tm_credit : exists j, (j < 64)%nat /\ credit_ e = sixty_fourths j;
}.

Lemma seal_tame e : tame e -> exists e' envs, seal_current e = Some (e', envs) /\ tame e'.
Proof.
  intros [(k & Hk & Ho) (j & Hj & Hc)]. unfold seal_current.
  destruct (cur_len_ e =? 0)%nat; [exists e, []; split; [done |]; split; [by exists k | by exists j] |].
  assert (E : drain kCreditFuel (credit_ (store_row e)) = Some ((j + k) / 64, sixty_fourths ((j + k) mod 64))%nat).
  { cbn. rewrite Ho, Hc. by apply drain_ends. }
  destruct (credit_loop_drain _ _ _ _ E) as (e' & envs & H1 & _ & H3 & _).
  rewrite H1. cbn [mbind option_bind]. eexists _, _. split; [done |]. split.
  - rewrite (credit_loop_cfg _ _ _ _ H1). by exists k.
  - exists ((j + k) mod 64)%nat. split; [apply Nat.mod_upper_bound; lia | done].
Qed.

Definition eop_overhead_ok (o : eop) : Prop := match o with SetOverhead x => overhead_ok x | _ => True end.

Lemma estep_tame e o : tame e -> eop_overhead_ok o -> exists e' out, estep e o = Some (e', out) /\ tame e'.
Proof.
  intros Ht Ho. destruct o as [a b | | x]; cbn [estep].
  - unfold add_packet. destruct (oversize _ _).
    { eexists _, _. split; [done |]. destruct Ht. by split. }
    assert (H : exists e1 envs, (if (ss_of e - cur_len_ e <? 2 + (length a + length b))%nat
      then seal_current e else Some (e, [])) = Some (e1, envs) /\ tame e1).
    { destruct (_ <? _)%nat; [by apply seal_tame |]. by exists e, []. }
    destruct H as (e1 & envs & -> & [T1 T2]). cbn [mbind option_bind]. eexists _, _. split; [done |]. by split.
  - unfold SwEncoder.flush. destruct (seal_tame e Ht) as (e1 & envs & -> & [T1 T2]). cbn [mbind option_bind].
    destruct (_ && _); [cbn [emit_repair] |]; (eexists _, _; split; [done |]; by split).
  - eexists _, _. split; [done |]. destruct Ht as [T1 T2]. by split.
Qed.

Definition tame_layer (l : UepEncoder.Layer SwEncoder) : Prop := tame (UepEncoder.sw l).

Lemma env_sink_all_tame l envs : tame_layer l -> tame_layer (env_sink_all l envs).1.
Proof. intros Hl. destruct (env_sink_all_packer l envs) as [p ->]. exact Hl. Qed.

Lemma emit_flush_tame l : tame_layer l -> tame_layer (emit_flush l).1.
Proof. intros Hl. destruct (emit_flush_packer l) as [p ->]. exact Hl. Qed.

Lemma encode_tame l o :
  tame_layer l -> eop_overhead_ok o -> exists l' out, encode l (estep (UepEncoder.sw l) o) = Some (l', out) /\ tame_layer l'.
Proof.
  intros Hl Ho. destruct (estep_tame _ o Hl Ho) as (e & envs & -> & He). unfold encode. cbn [mbind option_bind].
  pose proof (env_sink_all_tame (UepEncoder.set_sw l e) envs He) as H1.
  destruct (env_sink_all (UepEncoder.set_sw l e) envs) as [l' out]. by exists l', out.
Qed.

Lemma feed_packets_tame l pkts : tame_layer l -> exists l' out, feed_packets l pkts = Some (l', out) /\ tame_layer l'.
Proof.
  revert l. induction pkts as [|[a b] pkts IH]; intros l Hl; cbn [feed_packets]; [by eexists _, _ |].
  destruct (encode_tame l (AddPacket a b) Hl I) as (l1 & o1 & E1 & H1). cbn [estep] in E1.
  cbn [fe_add sync_encoder]. rewrite E1. cbn [mbind option_bind].
  destruct (IH l1 H1) as (l2 & o2 & -> & H2). cbn [mbind option_bind]. by eexists _, _.
Qed.

Lemma drain_tame l join : tame_layer l -> exists l' out, drain_layer l join = Some (l', out) /\ tame_layer l'.
Proof.
  intros Hl. unfold drain_layer. destruct (encode_tame l Flush Hl I) as (l1 & o1 & E1 & H1). cbn [estep] in E1.
  cbn [fe_flush fe_finish sync_encoder]. rewrite E1. cbn [mbind option_bind].
  assert (E2 : (if join then encode l1 (Some (UepEncoder.sw l1, [])) else Some (l1, no_out)) = Some (l1, no_out)).
  { destruct join; [| done]. cbn. by destruct l1. }
  rewrite E2. cbn [mbind option_bind]. pose proof (emit_flush_tame l1 H1) as H2.
  destruct (emit_flush l1) as [l2 o2]. by eexists _, _.
Qed.

Lemma layer_frame_tame l data now : tame_layer l -> exists l' out, layer_frame l data now = Some (l', out) /\ tame_layer l'.
Proof.
  intros Hl. unfold layer_frame. destruct (fragment _ _ _) as [f pkts].
  destruct (feed_packets_tame (set_frag l f) pkts Hl) as (l1 & o1 & -> & H1). cbn [mbind option_bind].
  destruct (encode_tame l1 Flush H1 I) as (l2 & o2 & E2 & H2). cbn [estep] in E2. cbn [fe_flush sync_encoder].
  rewrite E2. cbn [mbind option_bind]. pose proof (emit_flush_tame l2 H2) as H3.
  destruct (emit_flush l2) as [l3 o3]. by eexists _, _.
Qed.

Definition uop_returns (o : uop) : Prop :=
  match o with
  | UOverhead x | ULayerOverhead _ x => overhead_ok x
  | UShed sid _ => 0 <= sid < kNumStreams
  | _ => True
  end.

Definition tame_pair (u : UepEncoder SwEncoder) : Prop :=
  tame_layer (UepEncoder.layer0 u) /\ tame_layer (UepEncoder.layer1 u).

Lemma both_tame f u :
  (forall l, tame_layer l -> exists l' out, f l = Some (l', out) /\ tame_layer l') ->
  tame_pair u -> exists u' out, both f u = Some (u', out) /\ tame_pair u'.
Proof.
  intros Hf [H0 H1]. unfold both. destruct (Hf _ H0) as (l0 & o0 & -> & G0). cbn [mbind option_bind].
  destruct (Hf _ H1) as (l1 & o1 & -> & G1). cbn [mbind option_bind]. by eexists _, _.
Qed.

Lemma tame_at u sid : tame_pair u -> tame_layer (UepEncoder.layer_at u sid).
Proof. intros []. unfold UepEncoder.layer_at. by destruct (sid =? 0). Qed.
Lemma tame_set u sid l : tame_pair u -> tame_layer l -> tame_pair (UepEncoder.set_layer u sid l).
Proof. intros []. unfold UepEncoder.set_layer. by destruct (sid =? 0). Qed.
Lemma tame_overhead l x : tame_layer l -> overhead_ok x -> tame_layer (layer_overhead l x).
Proof. intros [T1 T2] Hx. by split. Qed.

Lemma ustep_tame u o : tame_pair u -> uop_returns o -> exists u' out, ustep u o = Some (u', out) /\ tame_pair u'.
Proof.
  intros Hu Ho. destruct o as [sid data now | | now | | ov | sid ov | sid s | sid | on]; cbn [ustep uop_returns] in *.
  - unfold add_frame. cbn zeta. pose proof (tame_at u (clamp_sid sid) Hu) as Hl.
    destruct (UepEncoder.shed _).
    + eexists _, _. split; [done |]. by apply tame_set.
    + destruct (layer_frame_tame _ data now Hl) as (l & out & -> & Hl'). cbn [mbind option_bind].
      eexists _, _. split; [done |]. by apply tame_set.
  - eexists _, _. split; [by rewrite <- surjective_pairing |]. destruct Hu as [H0 H1].
    assert (C : forall l, tame_layer l -> tame_layer (collect_layer l).1).
    { intros l Hl. unfold collect_layer. cbn [fe_outstanding fe_collect sync_encoder env_sink_all].
      pose proof (emit_flush_tame (UepEncoder.set_sw l (UepEncoder.sw l)) Hl) as H.
      by destruct (emit_flush _). }
    unfold uep_collect. pose proof (C _ H0) as G0. pose proof (C _ H1) as G1.
    destruct (collect_layer (UepEncoder.layer0 u)), (collect_layer (UepEncoder.layer1 u)). by split.
  - apply both_tame; [| done]. intros l Hl. unfold poll_layer.
    destruct (negb _); [by eexists _, _ |]. destruct (_ <? _); [by eexists _, _ | by apply drain_tame].
  - apply both_tame; [| done]. intros l Hl. by apply drain_tame.
  - eexists _, _. split; [done |]. destruct Hu. split; by apply tame_overhead.
  - eexists _, _. split; [done |]. apply tame_set; [done |]. apply tame_overhead; [by apply tame_at | done].
  - unfold set_shed. rewrite (proj2 (Z.leb_le 0 sid)), (proj2 (Z.ltb_lt sid kNumStreams)) by lia. cbn [andb mbind option_bind].
    eexists _, _. split; [done |]. apply tame_set; [done | by apply tame_at].
  - eexists _, _. split; [done |]. unfold drop_if_shed. cbn zeta. destruct (negb _); [done |].
    cbn [fst]. apply tame_set; [done | by apply tame_at].
  - eexists _, _. split; [done |]. destruct Hu. by split.
Qed.

Lemma urun_tame u ops : tame_pair u -> Forall uop_returns ops -> exists u' out, urun u ops = Some (u', out) /\ tame_pair u'.
Proof.
  intros Hu Ho. revert u Hu. induction Ho as [|o ops Ho _ IH]; intros u Hu; cbn [urun]; [by eexists _, _ |].
  destruct (ustep_tame u o Hu Ho) as (u1 & o1 & -> & H1). cbn [mbind option_bind].
  destruct (IH u1 H1) as (u2 & o2 & -> & H2). cbn [mbind option_bind]. by eexists _, _.
Qed.

Lemma new_tame cfg init : overhead_ok (overhead cfg) -> tame (new_encoder cfg init).
Proof.
  intros H. split; [done |]. exists 0%nat. split; [lia |]. vm_compute. reflexivity.
Qed.

(** ** The properties *)

(** A configuration the pipeline is built for: a symbol holds a fragment header and a byte,
    and the envelope's size fits the body header. *)
Definition layer_ok (c : UepLayerCfg) : Prop := layer_cfg_ok c /\ Z.of_nat (env_len c) < 2 ^ 16.

Section Start.
Context {E : Type} `{FecEncoderSpec E}.

Lemma new_layer_sim c i sid (x : E) :
  fe_sim x (new_encoder (fec c) i) [] ->
  layer_sim c i sid (UepEncoder.new_layer c sid x) (UepEncoder.new_layer c sid (new_encoder (fec c) i)) [] [] [].
Proof. intros Hx. by split. Qed.

Lemma new_uep_sim c0 c1 i0 i1 (x0 x1 : E) flush_ms :
  fe_sim x0 (new_encoder (fec c0) i0) [] -> fe_sim x1 (new_encoder (fec c1) i1) [] ->
  usim c0 c1 i0 i1 (new_uep c0 c1 x0 x1 flush_ms)
    (new_uep c0 c1 (new_encoder (fec c0) i0) (new_encoder (fec c1) i1) flush_ms) ([], []) ([], []).
Proof. intros A0 A1. split; [| split; [| done]]; exists []; by apply new_layer_sim. Qed.
End Start.

(** C3.  Frames in, fragments out, end to end.  Two layers run over any implementation of the
    encoder interface, through any sequence of frames, polls, drains, flushes, overhead and
    shedding changes; the radio repeats, drops, reorders, delays and damages the bodies,
    answers retransmission requests from the tap, and mixes in bodies of other streams; the
    receiver interleaves transition marks, resets and episode reads.  The pipeline runs
    wherever the worker-less one runs, the receiver returns from every call, and every
    fragment it hands up is a fragment of a frame that was given to that stream. *)
Theorem uep_end_to_end {E : Type} `{FecEncoderSpec E} (c0 c1 : UepLayerCfg) (i0 i1 : Z) (x0 x1 : E)
    (flush_ms : Z) (ops : list uop) (us : UepEncoder SwEncoder) (os : Out) (d0 d1 : UepLayerCfg) (hz g : Z) :
  layer_ok c0 -> layer_ok c1 -> in_width 32 i0 -> in_width 32 i1 -> Forall uop_ok ops ->
  fe_sim x0 (new_encoder (fec c0) i0) [] -> fe_sim x1 (new_encoder (fec c1) i1) [] ->
  urun (new_uep c0 c1 (new_encoder (fec c0) i0) (new_encoder (fec c1) i1) flush_ms) ops = Some (us, os) ->
  sources_out_ (UepEncoder.sw (UepEncoder.layer0 us)) <= 2 ^ 32 ->
  sources_out_ (UepEncoder.sw (UepEncoder.layer1 us)) <= 2 ^ 32 ->
  symbol_size (fec d0) = symbol_size (fec c0) -> symbol_size (fec d1) = symbol_size (fec c1) ->
  exists u o, urun (new_uep c0 c1 x0 x1 flush_ms) ops = Some (u, o) /\
    forall ins, Forall (heard_input c0 c1 o) ins ->
    exists d out, drun (new_uep_decoder d0 d1 hz g) ins = Some (d, out) /\
      forall f, f ∈ out -> exists sid data now, UFrame sid data now ∈ ops /\ clamp_sid sid = df_stream_id f /\
        fragment_of (Z.to_nat (max_packet_size (fec (if df_stream_id f =? 0 then c0 else c1)) - Z.of_nat kHdrLen))
          data (df_frag f).
Proof.
  intros [L0 W0] [L1 W1] I0 I1 Hok S0 S1 Hr N0 N1 E0 E1.
  destruct (urun_moved c0 c1 i0 i1 ops L0 L1 ops _ _ _ _ us os (new_uep_sim c0 c1 i0 i1 x0 x1 flush_ms S0 S1) Hok
    ltac:(done) Hr) as ([u o] & Eu & k0 & k1 & Hus & Ho & [A0 B0] & [A1 B1]).
  exists u, o. split; [done |]. intros ins Hins.
  destruct Hus as ([p0 U0] & [p1 U1] & _).
  assert (P0 : 2 <= symbol_size (fec c0) < 2 ^ 16) by (unfold layer_cfg_ok, kHdrLen in L0; lia).
  assert (P1 : 2 <= symbol_size (fec c1) < 2 ^ 16) by (unfold layer_cfg_ok, kHdrLen in L1; lia).
  destruct (pool_genuine _ i0 _ _ _ _ P0 I0 B0 A0 (ls_run _ _ _ _ _ _ _ _ U0) N0) as (src0 & Q0 & G0 & F0).
  destruct (pool_genuine _ i1 _ _ _ _ P1 I1 B1 A1 (ls_run _ _ _ _ _ _ _ _ U1) N1) as (src1 & Q1 & G1 & F1).
  destruct (drun_ok c0 c1 src0 src1 Q0 Q1 W0 W1 ltac:(lia) ltac:(lia) o _ _ _ ins Ho G0 G1
    (new_dec_sim c0 c1 src0 src1 ltac:(lia) ltac:(lia) d0 d1 hz g E0 E1) Hins) as (d & out & Hd & _ & Hout).
  exists d, out. split; [done |]. intros f Hf. rewrite Forall_forall in Hout.
  destruct (Hout f Hf) as [(Hs & Hp & _) | (Hs & Hp & _)]; rewrite Hs.
  - destruct (F0 _ _ Hp) as (sid & data & now & K1 & K2 & K3). by exists sid, data, now.
  - destruct (F1 _ _ Hp) as (sid & data & now & K1 & K2 & K3). by exists sid, data, now.
Qed.

(** C4.  Every call of the pipeline returns.  With or without workers, over any sequence of
    frames, collections, polls, flushes and shedding, at overheads that are whole 64ths up
    to 4.0 and may change between calls: the credit loops end, the joins with the workers
    end, no layer index is out of range. *)
Theorem uep_calls_return {E : Type} `{FecEncoderSpec E} (c0 c1 : UepLayerCfg) (i0 i1 : Z) (x0 x1 : E)
    (flush_ms : Z) (ops : list uop) :
  layer_cfg_ok c0 -> layer_cfg_ok c1 -> Forall uop_ok ops ->
  overhead_ok (overhead (fec c0)) -> overhead_ok (overhead (fec c1)) -> Forall uop_returns ops ->
  fe_sim x0 (new_encoder (fec c0) i0) [] -> fe_sim x1 (new_encoder (fec c1) i1) [] ->
  is_Some (urun (new_uep c0 c1 x0 x1 flush_ms) ops).
Proof.
  intros L0 L1 Hok O0 O1 Hret S0 S1.
  destruct (urun_tame (new_uep c0 c1 (new_encoder (fec c0) i0) (new_encoder (fec c1) i1) flush_ms) ops) as (us & os & Hr & _);
    [split; by apply new_tame | done |].
  destruct (urun_moved c0 c1 i0 i1 ops L0 L1 ops _ _ _ _ us os (new_uep_sim c0 c1 i0 i1 x0 x1 flush_ms S0 S1) Hok
    ltac:(done) Hr) as (uo & -> & _). by exists uo.
Qed.

(** Two layers with workers that stall, run and share their queues. *)
Definition demo_c0 : UepLayerCfg := mkUepLayerCfg (mkSwConfig 16 4 d_one) 2.
Definition demo_c1 : UepLayerCfg := mkUepLayerCfg (mkSwConfig 12 4 (sixty_fourths 32)) 2.
Definition demo_frame : list Z := [1; 2; 3; 4; 5; 6; 7; 8; 9; 10].
Definition demo_uops : list uop :=
  [UTap true; UFrame 0 demo_frame 5; UFrame 9 [7; 8; 9] 6; UCollect; UOverhead (sixty_fourths 64);
   UFrame 0 [11; 12] 8; UShed 1 true; UFrame 1 [13] 9; UPoll 200; UFlushAll].
Definition demo_ticks : list Tick := [mkTick 0 0; mkTick 3 0; mkTick 0 300; mkTick 40 0; mkTick 9 1].
Definition demo_sync : UepEncoder SwEncoder :=
  new_uep demo_c0 demo_c1 (new_encoder (fec demo_c0) 7) (new_encoder (fec demo_c1) 4294967295) 100.
Definition demo_async : UepEncoder Async :=
  new_uep demo_c0 demo_c1 (new_async (fec demo_c0) 7 2 demo_ticks) (new_async (fec demo_c1) 4294967295 2 []) 100.

(** Every body heard once: all three frames come out, the shed one does not. *)
Example demo_frames_arrive :
  ('(_, o) ← urun demo_async demo_uops;
   '(_, out) ← drun (new_uep_decoder demo_c0 demo_c1 0 0) (map (fun b => RxBody (body b) 0 255 0 true) o.1);
   Some (map (fun f => (df_stream_id f, df_frag f)) out)) =
  Some [(0, [0; 0; 0; 0; 2; 0; 1; 2; 3; 4; 5; 6; 7; 8]); (0, [0; 0; 1; 0; 2; 0; 9; 10]);
        (1, [0; 0; 0; 0; 1; 0; 7; 8; 9]); (0, [1; 0; 0; 0; 1; 0; 11; 12])].
Proof. vm_compute. reflexivity. Qed.

Lemma demo_layers_ok : layer_ok demo_c0 /\ layer_ok demo_c1.
Proof. repeat split; vm_compute; congruence. Qed.

Lemma demo_uops_ok : Forall uop_ok demo_uops /\ Forall uop_returns demo_uops.
Proof.
  split; repeat (apply Forall_cons; split); try apply Forall_nil; try exact I; try decided.
  exists 64%nat. split; [lia | reflexivity].
Qed.

Lemma async_starts cfg init slots sched : fe_sim (new_async cfg init slots sched) (new_encoder cfg init) [].
Proof. exists []. split; [apply new_async_sim | constructor]. Qed.

Lemma demo_sources :
  option_map (fun uo : UepEncoder SwEncoder * Out =>
    (sources_out_ (UepEncoder.sw (UepEncoder.layer0 uo.1)), sources_out_ (UepEncoder.sw (UepEncoder.layer1 uo.1))))
    (urun demo_sync demo_uops) = Some (3, 1).
Proof. vm_compute. reflexivity. Qed.

Example uep_end_to_end_witness :
  exists u o, urun demo_async demo_uops = Some (u, o) /\
    forall ins, Forall (heard_input demo_c0 demo_c1 o) ins ->
    exists d out, drun (new_uep_decoder demo_c0 demo_c1 0 0) ins = Some (d, out) /\
      forall f, f ∈ out -> exists sid data now, UFrame sid data now ∈ demo_uops /\ clamp_sid sid = df_stream_id f /\
        fragment_of (Z.to_nat (max_packet_size (fec (if df_stream_id f =? 0 then demo_c0 else demo_c1)) - Z.of_nat kHdrLen))
          data (df_frag f).
Proof.
  pose proof demo_sources as Hn.
  destruct (urun demo_sync demo_uops) as [[us os]|] eqn:E; [| discriminate Hn].
  injection Hn as N0 N1. destruct demo_layers_ok as [L0 L1].
  refine (uep_end_to_end demo_c0 demo_c1 7 4294967295 (new_async (fec demo_c0) 7 2 demo_ticks)
    (new_async (fec demo_c1) 4294967295 2 []) 100 demo_uops us os demo_c0 demo_c1 0 0
    L0 L1 _ _ (proj1 demo_uops_ok) (async_starts _ _ _ _) (async_starts _ _ _ _) E _ _ eq_refl eq_refl).
  - decided.
  - decided.
  - rewrite N0. lia.
  - rewrite N1. lia.
Defined.

Example uep_calls_return_witness : is_Some (urun demo_async demo_uops).
Proof.
  destruct demo_layers_ok as [[L0 _] [L1 _]]. destruct demo_uops_ok as [O1 O2].
  refine (uep_calls_return demo_c0 demo_c1 7 4294967295 (new_async (fec demo_c0) 7 2 demo_ticks)
    (new_async (fec demo_c1) 4294967295 2 []) 100 demo_uops L0 L1 O1 _ _ O2
    (async_starts _ _ _ _) (async_starts _ _ _ _)).
  - exists 64%nat. split; [lia | reflexivity].
  - exists 32%nat. split; [lia | reflexivity].
Defined.
