(* ===== verification/HevcBits.v ===== *)
(** * HevcBits: NAL escaping, and the bit reader and writer (common/src/hevc_bits.cpp)

    A NAL payload is escaped so that it holds no start code; its RBSP is read and written
    bit by bit, most significant first.  The reader never leaves the buffer: it latches
    [bad_].  [copy] reads its source unchecked, so it is in the option monad. *)
From S2P Require Import Prelude Bytes.
Local Open Scope Z_scope.
Local Open Scope mabur_scope.

(** ** Emulation prevention *)

Fixpoint unescape_loop (zeros : Z) (p : list Z) : list Z :=
  match p with
  | [] => []
  | b :: p =>
      if (2 <=? zeros) && (b =? 3) then unescape_loop 0 p
      else b :: unescape_loop (if b =? 0 then zeros + 1 else 0) p
  end.
Definition unescape (p : list Z) : list Z := unescape_loop 0 p.

Fixpoint escape_loop (zeros : Z) (p : list Z) : list Z :=
  match p with
  | [] => []
  | b :: p =>
      let esc := (2 <=? zeros) && (b <=? 3) in
      let zeros := if esc then 0 else zeros in
      (if esc then [3] else []) ++ b :: escape_loop (if b =? 0 then zeros + 1 else 0) p
  end.
Definition escape (p : list Z) : list Z := escape_loop 0 p.

(** [while ((1ull << c) < x) ++c]; [c] stays at most 32 for a 32-bit [x]. *)
Fixpoint ceil_log2_loop (fuel : nat) (c x : Z) : Z :=
  match fuel with
  | O => c
  | S fuel => if Z.shiftl 1 c <? x then ceil_log2_loop fuel (c + 1) x else c
  end.
Definition ceil_log2 (x : Z) : Z := ceil_log2_loop 33 0 x.

(** ** BitReader *)

Record BitReader := mkBitReader { d_ : list Z; pos_ : nat; bad_ : bool }.

Definition new_reader (d : list Z) : BitReader := mkBitReader d 0 false.
Definition set_bad (r : BitReader) : BitReader := mkBitReader (d_ r) (pos_ r) true.
Definition step_bit (r : BitReader) : BitReader := mkBitReader (d_ r) (S (pos_ r)) (bad_ r).

(** [(b >> (7 - (pos & 7))) & 1] *)
Definition bit_at (b : Z) (pos : nat) : Z := Z.land (Z.shiftr b (7 - Z.of_nat (pos mod 8))) 1.

Fixpoint u_loop (n : nat) (v : Z) (r : BitReader) : Z * BitReader :=
  match n with
  | O => (v, r)
  | S n =>
      match d_ r !! (pos_ r / 8)%nat with
      | None => (0, set_bad r)
      | Some b => u_loop n (Z.lor (u32 (Z.shiftl v 1)) (bit_at b (pos_ r))) (step_bit r)
      end
  end.
Definition br_u (bits : Z) (r : BitReader) : Z * BitReader := u_loop (Z.to_nat bits) 0 r.

(** The leading zeros of an Exp-Golomb code; [None] past 31 of them or past the end. *)
Fixpoint ue_zeros (fuel : nat) (lz : Z) (r : BitReader) : option Z * BitReader :=
  match fuel with
  | O => (None, set_bad r)
  | S fuel =>
      let '(b, r) := br_u 1 r in
      if b =? 0 then if bad_ r || (31 <? lz + 1) then (None, set_bad r) else ue_zeros fuel (lz + 1) r
      else (Some lz, r)
  end.
Definition kUeFuel : nat := 32.
Definition br_ue (r : BitReader) : Z * BitReader :=
  match ue_zeros kUeFuel 0 r with
  | (None, r) => (0, r)
  | (Some lz, r) => let '(v, r) := br_u lz r in (u32 (Z.shiftl 1 lz - 1 + v), r)
  end.
Definition br_se (r : BitReader) : Z * BitReader :=
  let '(k, r) := br_ue r in
  (if negb (Z.land k 1 =? 0) then i32 (u32 (k + 1) / 2) else - i32 (k / 2), r).

(** *** Parsers: a read may also be refused with a status *)

Definition Parse (St A : Type) : Type := BitReader -> St + A * BitReader.
#[export] Instance parse_ret St : MRet (Parse St) := fun A a r => inr (a, r).
#[export] Instance parse_bind St : MBind (Parse St) := fun A B k m r =>
  match m r with inl e => inl e | inr (a, r) => k a r end.

Section Reads.
Context {St : Type}.
Definition u (bits : Z) : Parse St Z := fun r => inr (br_u bits r).
Definition ue : Parse St Z := fun r => inr (br_ue r).
Definition se : Parse St Z := fun r => inr (br_se r).
Definition flag : Parse St bool := fun r => let '(v, r) := br_u 1 r in inr (negb (v =? 0), r).
Definition pos : Parse St nat := fun r => inr (pos_ r, r).
Definition bad : Parse St bool := fun r => inr (bad_ r, r).
Definition refuse {A} (e : St) : Parse St A := fun _ => inl e.
Definition refuse_if (b : bool) (e : St) : Parse St unit := if b then refuse e else mret tt.
Definition when (b : bool) (m : Parse St unit) : Parse St unit := if b then m else mret tt.

(** [for (i = 0; i < n; ++i)] with an accumulator. *)
Fixpoint repeat_acc {A} (n : nat) (f : A -> Parse St A) (a : A) : Parse St A :=
  match n with
  | O => mret a
  | S n => a ← f a; repeat_acc n f a
  end.
End Reads.

(** ** BitWriter *)

Record BitWriter := mkBitWriter { buf_ : list Z; bits_ : nat }.

Definition new_writer : BitWriter := mkBitWriter [] 0.

Definition put (w : BitWriter) (bit : bool) : BitWriter :=
  let buf := if (bits_ w mod 8 =? 0)%nat then buf_ w ++ [0] else buf_ w in
  mkBitWriter
    (if bit then alter (fun b => Z.lor b (Z.shiftr 128 (Z.of_nat (bits_ w mod 8)))) (length buf - 1)%nat buf else buf)
    (S (bits_ w)).

(** [for (i = n - 1; i >= 0; --i) put((v >> i) & 1)] *)
Fixpoint put_bits (w : BitWriter) (v : Z) (n : nat) : BitWriter :=
  match n with
  | O => w
  | S n => put_bits (put w (Z.testbit v (Z.of_nat n))) v n
  end.
Definition wr_u (w : BitWriter) (v bits : Z) : BitWriter := put_bits w v (Z.to_nat bits).

Fixpoint put_zeros (w : BitWriter) (n : nat) : BitWriter :=
  match n with O => w | S n => put_zeros (put w false) n end.

(** [while ((x >> len) > 1) ++len] *)
Fixpoint floor_log2_loop (fuel : nat) (len x : Z) : Z :=
  match fuel with
  | O => len
  | S fuel => if 1 <? Z.shiftr x len then floor_log2_loop fuel (len + 1) x else len
  end.
Definition wr_ue (w : BitWriter) (v : Z) : BitWriter :=
  let x := v + 1 in
  let len := Z.to_nat (floor_log2_loop 33 0 x) in
  put_bits (put_zeros w len) x (S len).

Fixpoint copy_bits (w : BitWriter) (src : list Z) (from n : nat) : option BitWriter :=
  match n with
  | O => Some w
  | S n => b ← src !! (from / 8)%nat; copy_bits (put w (negb (bit_at b from =? 0))) src (S from) n
  end.
Definition wr_copy (w : BitWriter) (src : list Z) (from_bit to_bit : nat) : option BitWriter :=
  copy_bits w src from_bit (to_bit - from_bit).

(** [while (bits_ & 7) put(0)]: at most seven times. *)
Fixpoint align_loop (fuel : nat) (w : BitWriter) : BitWriter :=
  match fuel with
  | O => w
  | S fuel => if (bits_ w mod 8 =? 0)%nat then w else align_loop fuel (put w false)
  end.
Definition align_zero (w : BitWriter) : BitWriter := align_loop 7 w.

(** ** Proofs: what the bit reader reads and the bit writer writes

    A buffer is read as an infinite sequence of bits, zero past its end; the writer's buffer
    is the sequence of the bits written.  The codes round-trip, and an escaped payload
    holds no start code. *)
Local Open Scope Z_scope.
Local Open Scope mabur_scope.

(** ** A buffer as a sequence of bits *)

Definition bitn (d : list Z) (n : nat) : bool := Z.testbit (nth (n / 8) d 0) (7 - Z.of_nat (n mod 8)).
Definition bits_at (d : list Z) (from n : nat) : list bool := map (bitn d) (List.seq from n).
Definition bits_val (bs : list bool) : Z := foldl (fun v b => 2 * v + b2z b) 0 bs.

Lemma bits_at_length d from n : length (bits_at d from n) = n.
Proof. unfold bits_at. by rewrite length_map, length_seq. Qed.

Lemma bits_at_app d from n m : bits_at d from (n + m) = bits_at d from n ++ bits_at d (from + n) m.
Proof. unfold bits_at. by rewrite List.seq_app, map_app. Qed.

Lemma bits_at_S d from n : bits_at d from (S n) = bitn d from :: bits_at d (S from) n.
Proof. done. Qed.

Lemma bit_at_bitn d p b : d !! (p / 8)%nat = Some b -> bit_at b p = b2z (bitn d p).
Proof.
  intros H. unfold bit_at, bitn. rewrite (nth_lookup_Some _ _ _ _ H).
  set (k := 7 - Z.of_nat (p mod 8)). assert (Hk : 0 <= k).
  { unfold k. pose proof (Nat.mod_upper_bound p 8). lia. }
  change 1 with (Z.ones 1). rewrite Z.land_ones by lia. rewrite Z.shiftr_div_pow2 by done.
  rewrite <- Z.bit0_mod. unfold b2z. rewrite <- Z.shiftr_div_pow2, Z.shiftr_spec, Z.add_0_l by lia. by destruct (Z.testbit b k).
Qed.

Lemma bits_val_snoc bs b : bits_val (bs ++ [b]) = 2 * bits_val bs + b2z b.
Proof. unfold bits_val. by rewrite foldl_app. Qed.

Lemma bits_val_app bs1 bs2 : bits_val (bs1 ++ bs2) = bits_val bs1 * 2 ^ Z.of_nat (length bs2) + bits_val bs2.
Proof.
  induction bs2 as [|b bs2 IH] using rev_ind.
  - rewrite app_nil_r. cbn. lia.
  - rewrite app_assoc, !bits_val_snoc, IH, length_app, Nat2Z.inj_add. cbn [length].
    rewrite Z.pow_add_r by lia. change (2 ^ Z.of_nat 1) with 2. lia.
Qed.

Lemma bits_val_range bs : 0 <= bits_val bs < 2 ^ Z.of_nat (length bs).
Proof.
  induction bs as [|b bs IH] using rev_ind; [cbn; lia |].
  rewrite bits_val_snoc, length_app, Nat2Z.inj_add. cbn [length]. rewrite Z.pow_add_r by lia.
  change (2 ^ Z.of_nat 1) with 2. destruct b; unfold b2z; lia.
Qed.

Lemma b2z_bit0 v : b2z (Z.testbit v 0) = v mod 2.
Proof. rewrite Z.bit0_odd, Zmod_odd. by destruct (Z.odd v). Qed.

Lemma bits_val_testbit v n :
  0 <= v < 2 ^ Z.of_nat n -> bits_val (map (fun i => Z.testbit v (Z.of_nat i)) (rev (List.seq 0 n))) = v.
Proof.
  revert v. induction n as [|n IH]; intros v Hv.
  { cbn in *. lia. }
  assert (E : rev (List.seq 0 (S n)) = map S (rev (List.seq 0 n)) ++ [O]).
  { rewrite map_rev, List.seq_shift. reflexivity. }
  rewrite E, map_app, map_map. cbn [map]. rewrite bits_val_snoc, b2z_bit0.
  replace (map (fun x => Z.testbit v (Z.of_nat (S x))) (rev (List.seq 0 n)))
    with (map (fun i => Z.testbit (v / 2) (Z.of_nat i)) (rev (List.seq 0 n))).
  - rewrite IH; [pose proof (Z.div_mod v 2); lia |].
    rewrite Nat2Z.inj_succ, Z.pow_succ_r in Hv by lia. split; [apply Z.div_pos; lia |].
    apply Z.div_lt_upper_bound; lia.
  - apply map_ext. intros i. change 2 with (2 ^ 1).
    rewrite <- Z.shiftr_div_pow2, Z.shiftr_spec by lia. f_equal. lia.
Qed.

(** ** The reader *)

Lemma in_range (d : list Z) p : (p < 8 * length d)%nat -> exists b, d !! (p / 8)%nat = Some b.
Proof. intros H. apply lookup_lt_is_Some_2, Nat.Div0.div_lt_upper_bound. lia. Qed.

Lemma out_of_range (d : list Z) p : (8 * length d <= p)%nat -> d !! (p / 8)%nat = None.
Proof. intros H. apply lookup_ge_None_2. apply Nat.div_le_lower_bound; lia. Qed.

Lemma lor_bit v b : Z.lor (u32 (Z.shiftl v 1)) (b2z b) = u32 (2 * v + b2z b).
Proof.
  rewrite Z.shiftl_mul_pow2 by lia. change (2 ^ 1) with 2. unfold wrap.
  assert (E : (v * 2) mod 2 ^ 32 = 2 * (v mod 2 ^ 31)) by (eval_pow2; Z.to_euclidean_division_equations; lia).
  rewrite E. rewrite Z.lor_comm. replace (2 * (v mod 2 ^ 31)) with (Z.shiftl (v mod 2 ^ 31) 1) by (rewrite Z.shiftl_mul_pow2; lia).
  rewrite (lor_shiftl_add (b2z b) _ 1) by (lia || by destruct b).
  destruct b; unfold b2z; eval_pow2; Z.to_euclidean_division_equations; lia.
Qed.

Lemma u_loop_spec n v r :
  (pos_ r + n <= 8 * length (d_ r))%nat ->
  u_loop n (u32 v) r = (u32 (foldl (fun v b => 2 * v + b2z b) v (bits_at (d_ r) (pos_ r) n)),
                  mkBitReader (d_ r) (pos_ r + n) (bad_ r)).
Proof.
  revert v r. induction n as [|n IH]; intros v r Hr; cbn [u_loop].
  { rewrite Nat.add_0_r. by destruct r. }
  destruct (in_range (d_ r) (pos_ r)) as [b Hb]; [lia |]. rewrite Hb.
  rewrite (bit_at_bitn _ _ _ Hb), lor_bit. rewrite bits_at_S. cbn [foldl].
  assert (E : u32 (2 * u32 v + b2z (bitn (d_ r) (pos_ r))) = u32 (2 * v + b2z (bitn (d_ r) (pos_ r)))).
  { unfold wrap. eval_pow2. Z.to_euclidean_division_equations. lia. }
  rewrite E, (IH _ (step_bit r)) by (cbn; lia). cbn. by rewrite Nat.add_succ_r.
Qed.

Lemma br_u_spec bits r n :
  n = Z.to_nat bits -> (pos_ r + n <= 8 * length (d_ r))%nat ->
  br_u bits r = (u32 (bits_val (bits_at (d_ r) (pos_ r) n)), mkBitReader (d_ r) (pos_ r + n) (bad_ r)).
Proof. intros -> Hr. unfold br_u. change 0 with (u32 0) at 1. by rewrite u_loop_spec. Qed.

Lemma u_loop_frame n v r : let r' := (u_loop n v r).2 in
  d_ r' = d_ r /\ (pos_ r <= pos_ r')%nat /\
  (bad_ r' = false -> bad_ r = false /\ pos_ r' = (pos_ r + n)%nat /\ (n = O \/ (pos_ r' <= 8 * length (d_ r))%nat)).
Proof.
  revert v r. induction n as [|n IH]; intros v r; cbn [u_loop].
  { split; [done |]. split; [done |]. intros H. split; [done |]. split; [cbn; lia | by left]. }
  destruct (d_ r !! (pos_ r / 8)%nat) as [b|] eqn:E; [| by cbn].
  destruct (IH (Z.lor (u32 (Z.shiftl v 1)) (bit_at b (pos_ r))) (step_bit r)) as (H1 & H2 & H3).
  split; [done |]. split; [cbn in *; lia |]. intros Hb.
  apply lookup_lt_Some in E. assert (pos_ r < 8 * length (d_ r))%nat.
  { pose proof (Nat.div_mod_eq (pos_ r) 8). pose proof (Nat.mod_upper_bound (pos_ r) 8). lia. }
  destruct (H3 Hb) as (G1 & G2 & G3). cbn [pos_ step_bit d_ bad_] in *. split; [done |]. split; [lia |]. right.
  destruct G3 as [-> | G3]; lia.
Qed.

(** ** The writer *)

(** The buffer holds exactly the bits [bs], then zeros. *)
Record wr_ok (w : BitWriter) (bs : list bool) : Prop := {
  wo_bits : bits_ w = length bs;
  wo_len : length (buf_ w) = ((length bs + 7) / 8)%nat;
  wo_bytes : bytes_ok (buf_ w);
  wo_bit : forall n, bitn (buf_ w) n = nth n bs false;
}.

Lemma new_writer_ok : wr_ok new_writer [].
Proof. split; try done. intros n. unfold bitn. rewrite !nth_overflow by (cbn; lia). apply Z.testbit_0_l. Qed.

Lemma testbit_128 k j : (k < 8)%nat -> (j < 8)%nat ->
  Z.testbit (Z.shiftr 128 (Z.of_nat k)) (7 - Z.of_nat j) = (j =? k)%nat.
Proof.
  intros Hk Hj. rewrite Z.shiftr_spec by lia. change 128 with (2 ^ 7). rewrite Z.pow2_bits_eqb by lia.
  destruct (Nat.eqb_spec j k) as [-> |]; [apply Z.eqb_eq; lia | apply Z.eqb_neq; lia].
Qed.

Lemma nth_snoc {A} (l : list A) x d n : nth n (l ++ [x]) d = if (n =? length l)%nat then x else nth n l d.
Proof.
  destruct (Nat.eqb_spec n (length l)) as [-> |].
  - rewrite app_nth2, Nat.sub_diag by lia. done.
  - destruct (Nat.lt_ge_cases n (length l)); [by rewrite app_nth1 by done |].
    rewrite !nth_overflow; [done | lia | rewrite length_app; cbn; lia].
Qed.

Lemma nth_alter (f : Z -> Z) (l : list Z) i n : (i < length l)%nat ->
  nth n (alter f i l) 0 = if (n =? i)%nat then f (nth n l 0) else nth n l 0.
Proof.
  intros Hi. destruct (Nat.eqb_spec n i) as [-> |].
  - destruct (lookup_lt_is_Some_2 l i Hi) as [x Hx]. rewrite (nth_lookup_Some _ _ _ _ Hx).
    erewrite nth_lookup_Some; [done |]. by rewrite list_lookup_alter_eq, Hx.
  - rewrite !nth_lookup. by rewrite list_lookup_alter_ne by done.
Qed.

Lemma put_ok w bs b : wr_ok w bs -> wr_ok (put w b) (bs ++ [b]).
Proof.
  intros [H1 H2 H3 H4]. unfold put. rewrite H1. set (n := length bs) in *.
  set (buf := if (n mod 8 =? 0)%nat then buf_ w ++ [0] else buf_ w).
  pose proof (Nat.mod_upper_bound n 8 ltac:(lia)) as Hmod. pose proof (Nat.div_mod_eq n 8) as Hdm.
  assert (Hlen : length buf = (n / 8 + 1)%nat).
  { unfold buf. destruct (Nat.eqb_spec (n mod 8) 0) as [E | E].
    - rewrite length_app, H2. cbn [length]. f_equal. symmetry.
      apply (Nat.div_unique (n + 7) 8 _ 7); lia.
    - rewrite H2. symmetry. apply (Nat.div_unique (n + 7) 8 _ (n mod 8 - 1)); lia. }
  assert (Hb : bytes_ok buf).
  { unfold buf. destruct (_ =? _)%nat; [| done]. apply Forall_app. split; [done |]. decided. }
  assert (Hbit : forall m, bitn buf m = nth m bs false).
  { intros m. rewrite <- H4. unfold buf, bitn. destruct (_ =? _)%nat; [| done].
    rewrite nth_snoc. destruct (Nat.eqb_spec (m / 8) (length (buf_ w))) as [E | E]; [| done].
    rewrite (nth_overflow (buf_ w)) by lia. by rewrite !Z.testbit_0_l. }
  split; cbn [bits_ buf_].
  - rewrite length_app. cbn [length]. lia.
  - rewrite length_app. cbn [length]. fold n. replace (n + 1 + 7)%nat with (n + 1 * 8)%nat by lia.
    rewrite Nat.div_add by lia. destruct b; [by rewrite length_alter | done].
  - destruct b; [| done]. apply Forall_alter; [done |]. intros x Hx Hw. apply lor_in_width; [lia | done |].
    unfold in_width. rewrite Z.shiftr_div_pow2 by lia. split; [apply Z.div_pos; lia |].
    apply Z.div_lt_upper_bound; [lia |]. pose proof (Z.pow_pos_nonneg 2 (Z.of_nat (n mod 8))). lia.
  - intros m. rewrite nth_snoc. fold n. destruct b.
    + unfold bitn. rewrite nth_alter by lia. rewrite Hlen. replace (n / 8 + 1 - 1)%nat with (n / 8)%nat by lia.
      pose proof (Nat.mod_upper_bound m 8 ltac:(lia)) as Hm. pose proof (Nat.div_mod_eq m 8).
      specialize (Hbit m). unfold bitn in Hbit.
      destruct (Nat.eqb_spec (m / 8) (n / 8)) as [E | E].
      * rewrite Z.lor_spec, Hbit, testbit_128 by done.
        destruct (Nat.eqb_spec (m mod 8) (n mod 8)), (Nat.eqb_spec m n); try lia;
          by rewrite ?orb_true_r, ?orb_false_r.
      * rewrite Hbit. destruct (Nat.eqb_spec m n) as [-> |]; done.
    + rewrite Hbit. destruct (Nat.eqb_spec m n) as [-> |]; [| done]. apply nth_overflow. lia.
Qed.

Definition msb_bits (v : Z) (n : nat) : list bool := map (fun i => Z.testbit v (Z.of_nat i)) (rev (List.seq 0 n)).

Lemma msb_bits_length v n : length (msb_bits v n) = n.
Proof. unfold msb_bits. by rewrite length_map, length_rev, length_seq. Qed.

Lemma msb_bits_S v n : msb_bits v (S n) = Z.testbit v (Z.of_nat n) :: msb_bits v n.
Proof. unfold msb_bits. rewrite List.seq_S, rev_app_distr. done. Qed.

Lemma put_bits_ok n v w bs : wr_ok w bs -> wr_ok (put_bits w v n) (bs ++ msb_bits v n).
Proof.
  revert w bs. induction n as [|n IH]; intros w bs Hw; cbn [put_bits]; [by rewrite app_nil_r |].
  rewrite msb_bits_S, cons_middle, app_assoc. by apply IH, put_ok.
Qed.

Lemma put_zeros_ok n w bs : wr_ok w bs -> wr_ok (put_zeros w n) (bs ++ replicate n false).
Proof.
  revert w bs. induction n as [|n IH]; intros w bs Hw; cbn [put_zeros replicate]; [by rewrite app_nil_r |].
  rewrite cons_middle, app_assoc. by apply IH, put_ok.
Qed.

Lemma copy_bits_ok n src from w bs : wr_ok w bs -> (from + n <= 8 * length src)%nat ->
  exists w', copy_bits w src from n = Some w' /\ wr_ok w' (bs ++ bits_at src from n).
Proof.
  revert w bs from. induction n as [|n IH]; intros w bs from Hw Hn; cbn [copy_bits].
  { exists w. split; [done |]. by rewrite app_nil_r. }
  destruct (in_range src from) as [b Hb]; [lia |]. rewrite Hb. cbn [mbind option_bind].
  rewrite (bit_at_bitn _ _ _ Hb). replace (negb (b2z (bitn src from) =? 0)) with (bitn src from) by (by destruct (bitn src from)).
  destruct (IH (put w (bitn src from)) (bs ++ [bitn src from]) (S from)) as (w' & E & H'); [by apply put_ok | lia |].
  exists w'. split; [done |]. rewrite bits_at_S. by rewrite <- app_assoc in H'.
Qed.

Lemma wr_copy_ok src from upto w bs : wr_ok w bs -> (from <= upto <= 8 * length src)%nat ->
  exists w', wr_copy w src from upto = Some w' /\ wr_ok w' (bs ++ bits_at src from (upto - from)).
Proof. intros Hw H. apply copy_bits_ok; [done | lia]. Qed.

Lemma align_loop_ok fuel w bs : wr_ok w bs -> ((8 - length bs mod 8) mod 8 <= fuel)%nat ->
  exists k, (k < 8)%nat /\ ((length bs + k) mod 8 = 0)%nat /\ wr_ok (align_loop fuel w) (bs ++ replicate k false).
Proof.
  revert w bs. induction fuel as [|fuel IH]; intros w bs Hw Hf; cbn [align_loop].
  - exists O. rewrite app_nil_r, Nat.add_0_r. split; [lia |]. split; [| done].
    pose proof (Nat.mod_upper_bound (length bs) 8 ltac:(lia)).
    destruct (Nat.eq_dec (length bs mod 8) 0) as [| E]; [done |]. rewrite Nat.mod_small in Hf by lia. lia.
  - rewrite (wo_bits _ _ Hw). destruct (Nat.eqb_spec (length bs mod 8) 0) as [E | E].
    + exists O. rewrite app_nil_r, Nat.add_0_r. split; [lia |]. by split.
    + pose proof (Nat.mod_upper_bound (length bs) 8 ltac:(lia)) as Hm. pose proof (Nat.div_mod_eq (length bs) 8) as Hd.
      assert (HS : ((length bs + 1) mod 8 = if length bs mod 8 =? 7 then 0 else length bs mod 8 + 1)%nat).
      { destruct (Nat.eqb_spec (length bs mod 8) 7) as [E7 | E7]; symmetry.
        - apply (Nat.mod_unique _ 8 (length bs / 8 + 1)); lia.
        - apply (Nat.mod_unique _ 8 (length bs / 8)); lia. }
      destruct (IH (put w false) (bs ++ [false])) as (k & K1 & K2 & K3); [by apply put_ok | |].
      { rewrite length_app. cbn [length]. rewrite HS. rewrite Nat.mod_small in Hf by lia.
        destruct (Nat.eqb_spec (length bs mod 8) 7); [cbn; lia |]. rewrite Nat.mod_small by lia. lia. }
      exists (S k). rewrite length_app in K2. cbn [length] in K2. rewrite <- app_assoc in K3. cbn [app] in K3.
      replace (length bs + S k)%nat with (length bs + 1 + k)%nat by lia. split; [| by split].
      destruct (Nat.eq_dec k 7) as [-> |]; [| lia].
      exfalso. pose proof (Nat.div_mod_eq (length bs + 1 + 7) 8).
      assert ((length bs + 1 + 7) mod 8 = length bs mod 8)%nat by (symmetry; apply (Nat.mod_unique _ 8 (length bs / 8 + 1)); lia).
      lia.
Qed.

Lemma align_zero_ok w bs : wr_ok w bs ->
  exists k, (k < 8)%nat /\ ((length bs + k) mod 8 = 0)%nat /\ wr_ok (align_zero w) (bs ++ replicate k false).
Proof.
  intros Hw. apply align_loop_ok; [done |].
  pose proof (Nat.mod_upper_bound (8 - length bs mod 8) 8 ltac:(lia)). lia.
Qed.

(** ** Codes read back *)

Lemma bits_at_nth d from n bs : (forall i, (i < n)%nat -> bitn d (from + i) = nth i bs false) -> length bs = n -> bits_at d from n = bs.
Proof.
  intros H Hl. apply (nth_ext _ _ false false); [by rewrite bits_at_length |].
  rewrite bits_at_length. intros i Hi. unfold bits_at.
  rewrite (nth_indep _ _ (bitn d 0)) by (by rewrite length_map, length_seq). rewrite (map_nth (bitn d)), seq_nth by done. by apply H.
Qed.

(** What a writer wrote is what its buffer reads. *)
Lemma wr_ok_read w bs pre mid post : wr_ok w bs -> bs = pre ++ mid ++ post ->
  bits_at (buf_ w) (length pre) (length mid) = mid.
Proof.
  intros Hw ->. apply bits_at_nth; [| done]. intros i Hi. rewrite (wo_bit _ _ Hw).
  rewrite app_nth2 by lia. rewrite app_nth1 by lia. f_equal. lia.
Qed.

Lemma wr_ok_size w bs : wr_ok w bs -> (length bs <= 8 * length (buf_ w))%nat.
Proof.
  intros [_ H _ _]. rewrite H. pose proof (Nat.div_mod_eq (length bs + 7) 8).
  pose proof (Nat.mod_upper_bound (length bs + 7) 8 ltac:(lia)). lia.
Qed.

Lemma br_u_msb r v bits n :
  n = Z.to_nat bits -> 0 <= v < 2 ^ Z.of_nat n -> v < 2 ^ 32 -> (pos_ r + n <= 8 * length (d_ r))%nat ->
  bits_at (d_ r) (pos_ r) n = msb_bits v n ->
  br_u bits r = (v, mkBitReader (d_ r) (pos_ r + n) (bad_ r)).
Proof.
  intros Hn Hv H32 Hr Hb. rewrite (br_u_spec bits r n Hn Hr), Hb. unfold msb_bits.
  rewrite bits_val_testbit by done. rewrite wrap_small by (unfold in_width; lia). done.
Qed.

Lemma floor_log2_loop_spec fuel len x : 0 < x -> 0 <= len <= Z.log2 x -> Z.log2 x <= len + Z.of_nat fuel ->
  floor_log2_loop fuel len x = Z.log2 x.
Proof.
  revert len. induction fuel as [|fuel IH]; intros len Hx Hl Hf; cbn [floor_log2_loop]; [lia |].
  destruct (Z.ltb_spec 1 (Z.shiftr x len)) as [H | H].
  - destruct (Z.eq_dec len (Z.log2 x)) as [-> | Hne].
    + exfalso. rewrite Z.shiftr_div_pow2 in H by lia. pose proof (Z.log2_spec x Hx) as [_ Hu].
      rewrite Z.pow_succ_r in Hu by lia.
      assert (x / 2 ^ Z.log2 x < 2) by (apply Z.div_lt_upper_bound; lia). lia.
    + apply IH; lia.
  - destruct (Z.eq_dec len (Z.log2 x)) as [| Hne]; [done |]. exfalso.
    rewrite Z.shiftr_div_pow2 in H by lia. pose proof (Z.log2_spec x Hx) as [Hlo _].
    assert (2 ^ (len + 1) <= x) by (transitivity (2 ^ Z.log2 x); [apply Z.pow_le_mono_r; lia | exact Hlo]).
    assert (2 <= x / 2 ^ len); [| lia]. apply Z.div_le_lower_bound; [apply Z.pow_pos_nonneg; lia |].
    rewrite Z.pow_add_r in * by lia. lia.
Qed.

(** The bits of an Exp-Golomb code. *)
Definition ue_bits (v : Z) : list bool :=
  let n := Z.to_nat (Z.log2 (v + 1)) in replicate n false ++ msb_bits (v + 1) (S n).

Lemma wr_ue_ok w bs v : 0 <= v < 2 ^ 32 -> wr_ok w bs -> wr_ok (wr_ue w v) (bs ++ ue_bits v).
Proof.
  intros Hv Hw. unfold wr_ue, ue_bits. cbn zeta.
  assert (Z.log2 (v + 1) <= 32).
  { transitivity (Z.log2 (2 ^ 32)); [apply Z.log2_le_mono; lia | by rewrite Z.log2_pow2 by lia]. }
  pose proof (Z.log2_nonneg (v + 1)).
  rewrite floor_log2_loop_spec by lia. rewrite app_assoc. by apply put_bits_ok, put_zeros_ok.
Qed.

Lemma ue_zeros_spec k fuel lz r :
  (pos_ r + k + 1 <= 8 * length (d_ r))%nat -> bad_ r = false ->
  bits_at (d_ r) (pos_ r) (S k) = replicate k false ++ [true] -> 0 <= lz -> lz + Z.of_nat k <= 31 -> (k < fuel)%nat ->
  ue_zeros fuel lz r = (Some (lz + Z.of_nat k), mkBitReader (d_ r) (pos_ r + S k) false).
Proof.
  revert fuel lz r. induction k as [|k IH]; intros [|fuel] lz r Hr Hbad Hb Hlz H31 Hf; try lia; cbn [ue_zeros].
  - rewrite (br_u_spec 1 r 1) by (done || lia). cbn [replicate app] in Hb. rewrite Hb.
    change (u32 (bits_val [true])) with 1. cbn [Z.eqb]. rewrite Hbad. by rewrite Z.add_0_r.
  - rewrite (br_u_spec 1 r 1) by (done || lia). rewrite bits_at_S in Hb. cbn [replicate app] in Hb.
    injection Hb as Hb0 Hb. cbn [bits_at List.seq map]. unfold bits_at. cbn [List.seq map]. rewrite Hb0.
    change (u32 (bits_val [false])) with 0. cbn [Z.eqb]. cbn [bad_]. rewrite Hbad. cbn [orb].
    rewrite (proj2 (Z.ltb_ge 31 (lz + 1))) by lia.
    rewrite (IH fuel (lz + 1)); cbn [d_ pos_ bad_]; try done; try lia.
    + f_equal; [f_equal; lia | f_equal; lia].
    + by rewrite Nat.add_1_r.
Qed.

Lemma br_ue_spec r v :
  0 <= v < 2 ^ 32 - 1 -> bad_ r = false -> (pos_ r + length (ue_bits v) <= 8 * length (d_ r))%nat ->
  bits_at (d_ r) (pos_ r) (length (ue_bits v)) = ue_bits v ->
  br_ue r = (v, mkBitReader (d_ r) (pos_ r + length (ue_bits v)) false).
Proof.
  intros Hv Hbad Hr Hb. unfold ue_bits in *. cbn zeta in *. set (n := Z.to_nat (Z.log2 (v + 1))) in *.
  assert (Hn31 : Z.log2 (v + 1) < 32) by (apply Z.log2_lt_pow2; lia).
  pose proof (Z.log2_nonneg (v + 1)) as Hn0. pose proof (Z.log2_spec (v + 1) ltac:(lia)) as [Hlo Hhi].
  assert (Htop : Z.testbit (v + 1) (Z.of_nat n) = true).
  { unfold n. rewrite Z2Nat.id by done. apply Z.bit_log2. lia. }
  rewrite msb_bits_S, Htop in *. rewrite length_app, length_replicate in *. cbn [length] in *.
  rewrite msb_bits_length in *. replace (n + S n)%nat with (S n + n)%nat in Hb by lia.
  rewrite bits_at_app in Hb. replace (replicate n false ++ true :: msb_bits (v + 1) n)
    with ((replicate n false ++ [true]) ++ msb_bits (v + 1) n) in Hb by (by rewrite <- app_assoc).
  apply app_inj_1 in Hb as [Hb1 Hb2]; [| rewrite bits_at_length, length_app, length_replicate; cbn; lia].
  unfold br_ue. rewrite (ue_zeros_spec n kUeFuel 0 r); try done; try lia.
  2: { unfold kUeFuel. lia. }
  rewrite Z.add_0_l. rewrite (br_u_msb _ (v + 1 - 2 ^ Z.of_nat n) (Z.of_nat n) n); cbn [d_ pos_ bad_].
  - rewrite Z.shiftl_mul_pow2 by lia. f_equal; [| f_equal; lia]. rewrite wrap_small; [lia | unfold in_width; lia].
  - lia.
  - rewrite <- (Z2Nat.id (Z.log2 (v + 1))) in Hlo, Hhi by done. fold n in Hlo, Hhi.
    rewrite Z.pow_succ_r in Hhi by lia. lia.
  - pose proof (Z.pow_pos_nonneg 2 (Z.of_nat n)). lia.
  - lia.
  - rewrite Hb2. unfold msb_bits. apply map_ext_in. intros i Hi. apply in_rev, in_seq in Hi.
    symmetry. rewrite <- (Z.mod_pow2_bits_low (v + 1) (Z.of_nat n)) by lia.
    rewrite <- (Z.mod_pow2_bits_low (v + 1 - _) (Z.of_nat n)) by lia. f_equal.
    rewrite <- (Z_mod_plus_full (v + 1 - 2 ^ Z.of_nat n) 1). f_equal. lia.
Qed.

(** ** Escaping *)

Lemma unescape_escape z p : unescape_loop z (escape_loop z p) = p.
Proof.
  revert z. induction p as [|b p IH]; intros z; [done |]. cbn [escape_loop].
  destruct ((2 <=? z) && (b <=? 3)) eqn:E; cbn [app unescape_loop].
  - apply andb_prop in E as [E _]. rewrite E. cbn [Z.eqb Pos.eqb andb].
    replace (2 <=? 0) with false by done. cbn [andb]. by rewrite IH.
  - replace ((2 <=? z) && (b =? 3)) with false; [by rewrite IH |]. symmetry.
    apply andb_false_iff in E as [-> | E]; [done |]. apply Z.leb_gt in E.
    rewrite (proj2 (Z.eqb_neq b 3)) by lia. by rewrite andb_false_r.
Qed.

Lemma escape_head z p x : 2 <= z -> bytes_ok p -> escape_loop z p !! 0%nat = Some x -> 3 <= x.
Proof.
  intros Hz Hp. destruct p as [|b p]; [done |]. cbn [escape_loop]. rewrite (proj2 (Z.leb_le 2 z)) by done. cbn [andb].
  destruct (Z.leb_spec b 3); cbn; intros [= <-]; lia.
Qed.

(** After a zero pair comes a byte of at least three, the zeros before the payload included. *)
Lemma escape_no_code z p i x :
  0 <= z -> bytes_ok p -> let e := escape_loop z p in
  (forall a, (1 <= z -> e !! 0%nat = Some 0 -> e !! 1%nat = Some a -> 3 <= a)) /\
  (e !! i = Some 0 -> e !! S i = Some 0 -> e !! S (S i) = Some x -> 3 <= x).
Proof.
  intros Hz Hp. cbn zeta. revert z i Hz. induction Hp as [|b p Hb Hp IH]; intros z i Hz; [done |].
  cbn [escape_loop]. set (esc := (2 <=? z) && (b <=? 3)).
  set (z1 := if b =? 0 then (if esc then 0 else z) + 1 else 0).
  assert (Hz1 : 0 <= z1) by (unfold z1; destruct (b =? 0), esc; lia).
  assert (Hafter : forall y, b = 0 -> 1 <= z -> esc = false -> escape_loop z1 p !! 0%nat = Some y -> 3 <= y).
  { intros y -> H1 He. apply escape_head; [| done]. unfold z1. cbn. rewrite He. lia. }
  split.
  - intros a H1. destruct esc eqn:E; cbn [app]; [done |]. cbn. intros [= ->] Ha. by apply Hafter in Ha.
  - destruct (IH z1 (pred i) Hz1) as [IH1 IH2].
    assert (Hcons : forall j, (b :: escape_loop z1 p) !! j = Some 0 -> (b :: escape_loop z1 p) !! S j = Some 0 ->
      (b :: escape_loop z1 p) !! S (S j) = Some x -> 3 <= x).
    { intros [|j]; cbn.
      - intros [= ->]. intros H2 H3. apply (IH1 x); [| done | done]. unfold z1. cbn. destruct esc; lia.
      - apply (IH z1 j Hz1). }
    destruct esc eqn:E; cbn [app]; [| apply Hcons].
    destruct i as [|i]; cbn; [done |]. apply Hcons.
Qed.
