(* ===== verification/HevcPs.v ===== *)
(** * HevcPs: NAL units and parameter sets (common/src/hevc_params.cpp, hevc_ps.cpp)

    Start-code scanning, the SPS and PPS fields slice salvage needs, and the tracker of the
    latest parameter sets.  A parser returns the parsed set or the status it refuses with. *)
From S2P Require Import Prelude Bytes HevcBits.
Local Open Scope Z_scope.
Local Open Scope mabur_scope.

(** ** NAL units *)

Record NalView := mkNalView { nv_bytes : list Z; nv_type : Z }.

(** The byte at [j]; every read below is guarded by the scan's bound. *)
Definition at_ (au : list Z) (j : nat) : Z := nth j au 0.

(** The earliest start code at or after [j]: its position and length. *)
Fixpoint find_start_code_loop (fuel : nat) (au : list Z) (j : nat) : option (nat * nat) :=
  match fuel with
  | O => None
  | S fuel =>
      if (length au <? j + 3)%nat then None
      else if negb (at_ au j =? 0) || negb (at_ au (j + 1) =? 0) then find_start_code_loop fuel au (S j)
      else if at_ au (j + 2) =? 1 then Some (j, 3%nat)
      else if (at_ au (j + 2) =? 0) && (j + 4 <=? length au)%nat && (at_ au (j + 3) =? 1) then Some (j, 4%nat)
      else find_start_code_loop fuel au (S j)
  end.
Definition find_start_code (au : list Z) (from : nat) : option (nat * nat) :=
  find_start_code_loop (length au - from) au from.

Definition nal_type_of (b : Z) : Z := Z.land (Z.shiftr b 1) 63.

(** The view of [nal_begin, nal_end); an empty gap yields none. *)
Definition nal_view (au : list Z) (nal_begin nal_end : nat) : list NalView :=
  if (nal_begin <? nal_end)%nat
  then [mkNalView (take (nal_end - nal_begin) (drop nal_begin au)) (nal_type_of (at_ au nal_begin))]
  else [].

Fixpoint split_loop (fuel : nat) (au : list Z) (nal_begin : nat) : list NalView :=
  match fuel with
  | O => []
  | S fuel =>
      match find_start_code au nal_begin with
      | None => nal_view au nal_begin (length au)
      | Some (next_pos, next_len) => nal_view au nal_begin next_pos ++ split_loop fuel au (next_pos + next_len)
      end
  end.
Definition split_nals (au : list Z) : list NalView :=
  match find_start_code au 0 with
  | None => []
  | Some (pos, code_len) => split_loop (S (length au)) au (pos + code_len)
  end.

Definition au_is_irap (au : list Z) : bool :=
  existsb (fun v => (16 <=? nv_type v) && (nv_type v <=? 23)) (split_nals au).
Definition au_is_entry_point (au : list Z) : bool :=
  existsb (fun v => (16 <=? nv_type v) && (nv_type v <=? 23) || (nv_type v =? 33)) (split_nals au).

(** A 4-byte big-endian length before each NAL. *)
Definition put32_be (v : Z) : list Z :=
  [Z.land (Z.shiftr v 24) 255; Z.land (Z.shiftr v 16) 255; Z.land (Z.shiftr v 8) 255; Z.land v 255].
Definition annexb_to_length_prefixed (au : list Z) : list Z :=
  concat (map (fun v => put32_be (u32 (Z.of_nat (length (nv_bytes v)))) ++ nv_bytes v) (split_nals au)).

(** ** Parameter sets *)

Inductive PsStatus := psNone | psOk | psMalformed | psUnsupported.
#[export] Instance PsStatus_eq_dec : EqDecision PsStatus.
Proof. solve_decision. Defined.

Record Sps := mkSps {
  sps_id : Z; chroma_format_idc : Z; width : Z; height : Z; log2_max_poc_lsb : Z;
  log2_min_cb : Z; log2_ctb : Z; sao : bool; tmvp : bool; num_st_rps : Z;
  st_num_delta_pocs : list Z; st_num_used : list Z;
  long_term : bool; num_lt_sps : Z; lt_used_sps : list Z;
}.
Definition default_sps : Sps := mkSps 0 1 0 0 4 3 4 false false 0 [] [] false 0 [].

(** The shift counts are at most 6 in a parsed set. *)
Definition ctbs (size log2 : Z) : Z := Z.shiftr (u32 (size + Z.shiftl 1 log2 - 1)) log2.
Definition pic_w_ctbs (s : Sps) : Z := ctbs (width s) (log2_ctb s).
Definition pic_h_ctbs (s : Sps) : Z := ctbs (height s) (log2_ctb s).
Definition addr_bits (s : Sps) : Z := ceil_log2 (u32 (pic_w_ctbs s * pic_h_ctbs s)).

Record Pps := mkPps {
  pps_id : Z; pps_sps_id : Z; dependent_slices : bool; output_flag : bool; extra_bits : Z;
  cabac_init_present : bool; num_ref_idx_l0_default : Z; num_ref_idx_l1_default : Z; init_qp : Z;
  chroma_qp_offsets_present : bool; deblocking_override_enabled : bool; pps_deblocking_disabled : bool;
  loop_filter_across_slices : bool; lists_modification : bool;
}.
Definition default_pps : Pps := mkPps 0 0 false false 0 false 1 1 26 false false false false false.

(** Reads in a row whose values are not kept. *)
Definition skip_u {St} (bits : Z) : Parse St unit := u bits ;; mret tt.
Definition skip_ue {St} : Parse St unit := ue ;; mret tt.
Definition skip_se {St} : Parse St unit := se ;; mret tt.

(** profile_tier_level(1, max_sub); the result is [!r.bad()]. *)
Definition skip_ptl {St} (max_sub : Z) : Parse St bool :=
  skip_u 32 ;; skip_u 32 ;; skip_u 32 ;;
  pl ← repeat_acc (Z.to_nat max_sub) (fun pl => p ← flag; l ← flag; mret (pl ++ [(p, l)])) [];
  (if 0 <? max_sub then repeat_acc (Z.to_nat (8 - max_sub)) (fun _ => skip_u 2) tt else mret tt) ;;
  foldr (fun (x : bool * bool) (k : Parse St unit) =>
    when x.1 (skip_u 32 ;; skip_u 32 ;; skip_u 24) ;; when x.2 (skip_u 8) ;; k) (mret tt) pl ;;
  b ← bad; mret (negb b).

(** st_ref_pic_set(idx): NumDeltaPocs of the set and its used_by_curr entries. *)
Definition parse_st_rps (idx num_sets : Z) (num_delta_pocs : list Z) : Parse unit (Z * Z) :=
  inter ← (if idx =? 0 then mret false else flag);
  r ← (if inter : bool then
         delta_idx_m1 ← (if idx =? num_sets then ue else mret 0);
         refuse_if ((idx <? u32 (delta_idx_m1 + 1)) ||
                    (Z.of_nat (length num_delta_pocs) <=? idx - u32 (delta_idx_m1 + 1))) tt ;;
         let ref := idx - u32 (delta_idx_m1 + 1) in
         skip_u 1 ;; skip_ue ;;
         repeat_acc (S (Z.to_nat (nth (Z.to_nat ref) num_delta_pocs 0)))
           (fun nu : Z * Z =>
              b ← flag;
              use_delta ← (if b : bool then mret true else flag);
              mret (nu.1 + b2z (b || use_delta), nu.2 + b2z b)) (0, 0)
       else
         neg ← ue; pos ← ue;
         refuse_if ((16 <? neg) || (16 <? pos)) tt ;;
         used ← repeat_acc (Z.to_nat (neg + pos)) (fun used => skip_ue ;; b ← flag; mret (used + b2z b)) 0;
         mret (neg + pos, used));
  b ← bad;
  refuse_if b tt ;; mret r.

(** A helper's refusal, as the caller's status. *)
Definition or_else {St A} (e : St) (m : Parse unit A) : Parse St A :=
  fun r => match m r with inl _ => inl e | inr x => inr x end.

(** [1u << n]; a count past 31 is undefined in C++ and reads here as zero. *)
Definition shl1 (n : Z) : Z := u32 (Z.shiftl 1 n).

Definition sps_body : Parse PsStatus Sps :=
  skip_u 4 ;; max_sub ← u 3; skip_u 1 ;;
  ok ← skip_ptl max_sub;
  refuse_if (negb ok) psMalformed ;;
  id ← ue; chroma ← ue;
  refuse_if (3 <? chroma) psMalformed ;;
  separate ← (if chroma =? 3 then flag else mret false);
  refuse_if separate psUnsupported ;;
  w ← ue; h ← ue;
  window ← flag; when window (skip_ue ;; skip_ue ;; skip_ue ;; skip_ue) ;;
  skip_ue ;; skip_ue ;;
  poc ← ue;
  sub_info ← flag;
  repeat_acc (Z.to_nat (if sub_info : bool then max_sub + 1 else 1)) (fun _ => skip_ue ;; skip_ue ;; skip_ue) tt ;;
  min_cb ← ue; diff ← ue;
  let min_cb := u32 (min_cb + 3) in
  let ctb := u32 (min_cb + diff) in
  skip_ue ;; skip_ue ;; skip_ue ;; skip_ue ;;
  scaling ← flag; scaling_data ← (if scaling : bool then flag else mret false);
  refuse_if scaling_data psUnsupported ;;
  skip_u 1 ;;
  sao ← flag;
  pcm ← flag; when pcm (skip_u 4 ;; skip_u 4 ;; skip_ue ;; skip_ue ;; skip_u 1) ;;
  n_rps ← ue;
  refuse_if (64 <? n_rps) psMalformed ;;
  rps ← repeat_acc (Z.to_nat n_rps)
    (fun rps : list Z * list Z =>
       '(ndp, used) ← or_else psMalformed (parse_st_rps (Z.of_nat (length rps.1)) n_rps rps.1);
       mret (rps.1 ++ [ndp], rps.2 ++ [used])) ([], []);
  let poc := u32 (poc + 4) in
  lt ← flag;
  ltr ← (if lt : bool then
           n_lt ← ue;
           refuse_if (32 <? n_lt) psMalformed ;;
           used ← repeat_acc (Z.to_nat n_lt) (fun l => skip_u (i32 poc) ;; b ← u 1; mret (l ++ [b])) [];
           mret (n_lt, used)
         else mret (0, []));
  tmvp ← flag;
  bad ← bad;
  refuse_if (bad || (w =? 0) || (h =? 0) || (ctb <? 4) || (6 <? ctb) ||
             negb (Z.land w (u32 (shl1 min_cb - 1)) =? 0) || negb (Z.land h (u32 (shl1 min_cb - 1)) =? 0)) psMalformed ;;
  mret (mkSps id chroma w h poc min_cb ctb sao tmvp n_rps rps.1 rps.2 lt ltr.1 ltr.2).

Definition run_parser {St A} (m : Parse St A) (rbsp : list Z) : St + A :=
  match m (new_reader rbsp) with inl e => inl e | inr (a, _) => inr a end.

Definition parse_sps (nal : list Z) : PsStatus + Sps :=
  if (length nal <? 3)%nat then inl psMalformed else run_parser sps_body (unescape (drop 2 nal)).

Definition pps_body : Parse PsStatus Pps :=
  id ← ue; sps ← ue;
  dep ← flag; out ← flag; extra ← u 3;
  skip_u 1 ;;
  cabac ← flag;
  l0 ← ue; l1 ← ue;
  qp ← se;
  skip_u 1 ;; skip_u 1 ;;
  cu_qp ← flag; when cu_qp skip_ue ;;
  skip_se ;; skip_se ;;
  chroma ← flag;
  wp ← flag; wbp ← flag; tq ← flag; tiles ← flag; wpp ← flag;
  refuse_if (wp || wbp || tq || tiles || wpp) psUnsupported ;;
  lf ← flag;
  dbc ← flag;
  db ← (if dbc : bool then
          ov ← flag; dis ← flag; when (negb dis) (skip_se ;; skip_se) ;; mret (ov, dis)
        else mret (false, false));
  scaling ← flag; refuse_if scaling psUnsupported ;;
  lists ← flag;
  skip_ue ;;
  ext ← flag; refuse_if ext psUnsupported ;;
  pext ← flag; refuse_if pext psUnsupported ;;
  bad ← bad; refuse_if bad psMalformed ;;
  mret (mkPps id sps dep out extra cabac (u32 (l0 + 1)) (u32 (l1 + 1)) (i32 (26 + qp)) chroma db.1 db.2 lf lists).

Definition parse_pps (nal : list Z) : PsStatus + Pps :=
  if (length nal <? 3)%nat then inl psMalformed else run_parser pps_body (unescape (drop 2 nal)).

(** ** ParamTracker *)

Record ParamTracker := mkParamTracker { pt_sps : Sps; pt_pps : Pps; sps_st_ : PsStatus; pps_st_ : PsStatus }.
Definition new_params : ParamTracker := mkParamTracker default_sps default_pps psNone psNone.

Definition feed_nal (t : ParamTracker) (v : NalView) : ParamTracker :=
  if nv_type v =? 33 then
    match parse_sps (nv_bytes v) with
    | inr s => mkParamTracker s (pt_pps t) psOk (pps_st_ t)
    | inl st => mkParamTracker (pt_sps t) (pt_pps t) st (pps_st_ t)
    end
  else if nv_type v =? 34 then
    match parse_pps (nv_bytes v) with
    | inr p => mkParamTracker (pt_sps t) p (sps_st_ t) psOk
    | inl st => mkParamTracker (pt_sps t) (pt_pps t) (sps_st_ t) st
    end
  else t.
Definition feed_params_au (t : ParamTracker) (au : list Z) : ParamTracker := foldl feed_nal t (split_nals au).

Definition usable (t : ParamTracker) : bool :=
  bool_decide (sps_st_ t = psOk) && bool_decide (pps_st_ t = psOk) && (pps_sps_id (pt_pps t) =? sps_id (pt_sps t)).
Definition unsupported (t : ParamTracker) : bool :=
  bool_decide (sps_st_ t = psUnsupported) || bool_decide (pps_st_ t = psUnsupported).
Definition reset_params (t : ParamTracker) : ParamTracker := mkParamTracker (pt_sps t) (pt_pps t) psNone psNone.
