(* ===== verification/HevcCabac.v ===== *)
(** * HevcCabac: the arithmetic encoder (common/src/hevc_cabac.cpp)

    The encoder side of H.265 9.3: regular bins with adaptive contexts, and the terminating
    bin, whose flush ends with the stop bit. *)
From S2P Require Import Prelude Bytes HevcBits.
Local Open Scope Z_scope.
Local Open Scope mabur_scope.

Definition kRangeTabLps : list (list Z) :=
  [[128; 176; 208; 240]; [128; 167; 197; 227]; [128; 158; 187; 216]; [123; 150; 178; 205];
   [116; 142; 169; 195]; [111; 135; 160; 185]; [105; 128; 152; 175]; [100; 122; 144; 166];
   [95; 116; 137; 158]; [90; 110; 130; 150]; [85; 104; 123; 142]; [81; 99; 117; 135];
   [77; 94; 111; 128]; [73; 89; 105; 122]; [69; 85; 100; 116]; [66; 80; 95; 110];
   [62; 76; 90; 104]; [59; 72; 86; 99]; [56; 69; 81; 94]; [53; 65; 77; 89];
   [51; 62; 73; 85]; [48; 59; 69; 80]; [46; 56; 66; 76]; [43; 53; 63; 72];
   [41; 50; 59; 69]; [39; 48; 56; 65]; [37; 45; 54; 62]; [35; 43; 51; 59];
   [33; 41; 48; 56]; [32; 39; 46; 53]; [30; 37; 43; 50]; [29; 35; 41; 48];
   [27; 33; 39; 45]; [26; 31; 37; 43]; [24; 30; 35; 41]; [23; 28; 33; 39];
   [22; 27; 32; 37]; [21; 26; 30; 35]; [20; 24; 29; 33]; [19; 23; 27; 31];
   [18; 22; 26; 30]; [17; 21; 25; 28]; [16; 20; 23; 27]; [15; 19; 22; 25];
   [14; 18; 21; 24]; [14; 17; 20; 23]; [13; 16; 19; 22]; [12; 15; 18; 21];
   [12; 14; 17; 20]; [11; 14; 16; 19]; [11; 13; 15; 18]; [10; 12; 15; 17];
   [10; 12; 14; 16]; [9; 11; 13; 15]; [9; 11; 12; 14]; [8; 10; 12; 14];
   [8; 9; 11; 13]; [7; 9; 11; 12]; [7; 9; 10; 12]; [7; 8; 10; 11];
   [6; 8; 9; 11]; [6; 7; 9; 10]; [6; 7; 8; 9]; [2; 2; 2; 2]].
Definition kTransIdxLps : list Z :=
  [0; 0; 1; 2; 2; 4; 4; 5; 6; 7; 8; 9; 9; 11; 11; 12;
   13; 13; 15; 15; 16; 16; 18; 18; 19; 19; 21; 21; 22; 22; 23; 24;
   24; 25; 26; 26; 27; 27; 28; 29; 29; 30; 30; 30; 31; 32; 32; 33;
   33; 33; 34; 34; 35; 35; 35; 36; 36; 36; 37; 37; 37; 38; 38; 63].

Record CabacCtx := mkCabacCtx { state : Z; mps : Z }.

Definition clamp (v lo hi : Z) : Z := if v <? lo then lo else if hi <? v then hi else v.

Definition init_cabac_ctx (init_value slice_qp_y : Z) : CabacCtx :=
  let slope := Z.shiftr init_value 4 in
  let offset := Z.land init_value 15 in
  let m := slope * 5 - 45 in
  let n := Z.shiftl offset 3 - 16 in
  let qp := clamp slice_qp_y 0 51 in
  let pre := clamp (Z.shiftr (m * qp) 4 + n) 1 126 in
  let mps := if pre <=? 63 then 0 else 1 in
  mkCabacCtx (u8 (if mps =? 0 then 63 - pre else pre - 64)) mps.

Record CabacEncoder := mkCabacEncoder { w_ : BitWriter; low_ : Z; range_ : Z; outstanding_ : Z; first_ : bool }.
Definition new_cabac (w : BitWriter) : CabacEncoder := mkCabacEncoder w 0 510 0 true.

Fixpoint put_times (w : BitWriter) (b : bool) (n : nat) : BitWriter :=
  match n with O => w | S n => put_times (put w b) b n end.

Definition put_bit (c : CabacEncoder) (b : bool) : CabacEncoder :=
  let w := if first_ c then w_ c else put (w_ c) b in
  mkCabacEncoder (put_times w (negb b) (Z.to_nat (outstanding_ c))) (low_ c) (range_ c) 0 false.

Definition set_low (c : CabacEncoder) (low range outstanding : Z) : CabacEncoder :=
  mkCabacEncoder (w_ c) low range outstanding (first_ c).

(** One turn of the renormalisation loop. *)
Definition renorm_step (c : CabacEncoder) : CabacEncoder :=
  let c :=
    if low_ c <? 256 then put_bit c false
    else if 512 <=? low_ c then put_bit (set_low c (low_ c - 512) (range_ c) (outstanding_ c)) true
    else set_low c (low_ c - 256) (range_ c) (u32 (outstanding_ c + 1)) in
  set_low c (u32 (Z.shiftl (low_ c) 1)) (u32 (Z.shiftl (range_ c) 1)) (outstanding_ c).

(** [while (range_ < 256)]: the range is at least 2, so seven turns are enough. *)
Fixpoint renorm_loop (fuel : nat) (c : CabacEncoder) : CabacEncoder :=
  match fuel with
  | O => c
  | S fuel => if range_ c <? 256 then renorm_loop fuel (renorm_step c) else c
  end.
Definition renorm (c : CabacEncoder) : CabacEncoder := renorm_loop 7 c.

Definition range_lps (c : CabacEncoder) (x : CabacCtx) : Z :=
  nth (Z.to_nat (Z.land (Z.shiftr (range_ c) 6) 3)) (nth (Z.to_nat (state x)) kRangeTabLps []) 0.

Definition encode (c : CabacEncoder) (x : CabacCtx) (bin : Z) : CabacEncoder * CabacCtx :=
  let lps := range_lps c x in
  let range := u32 (range_ c - lps) in
  if negb (bin =? mps x) then
    (renorm (set_low c (u32 (low_ c + range)) lps (outstanding_ c)),
     mkCabacCtx (nth (Z.to_nat (state x)) kTransIdxLps 0) (if state x =? 0 then u8 (1 - mps x) else mps x))
  else
    (renorm (set_low c (low_ c) range (outstanding_ c)),
     if state x <? 62 then mkCabacCtx (state x + 1) (mps x) else x).

Definition terminate (c : CabacEncoder) (bin : Z) : CabacEncoder :=
  let range := u32 (range_ c - 2) in
  if bin =? 0 then renorm (set_low c (low_ c) range (outstanding_ c))
  else
    let c := renorm (set_low c (u32 (low_ c + range)) 2 (outstanding_ c)) in
    let c := put_bit c (negb (Z.land (Z.shiftr (low_ c) 9) 1 =? 0)) in
    mkCabacEncoder (wr_u (w_ c) (Z.lor (Z.land (Z.shiftr (low_ c) 7) 3) 1) 2)
      (low_ c) (range_ c) (outstanding_ c) (first_ c).
