(* ===== verification/HevcSlice.v ===== *)
(** * HevcSlice: slice headers, parsed and rewritten (common/src/hevc_slice.cpp)

    The parser keeps the values a fill slice needs and the bit positions of the fields the
    writer changes; the writer copies everything between them. *)
From S2P Require Import Prelude Bytes HevcBits HevcPs.
Local Open Scope Z_scope.
Local Open Scope mabur_scope.

Record SliceHeader := mkSliceHeader {
  nal_hdr0 : Z; nal_hdr1 : Z; nal_type : Z; rbsp : list Z;
  first : bool; address : Z; slice_type : Z; slice_qp_y : Z; cabac_init_flag : bool;
  max_num_merge_cand : Z; sao_luma : bool; sao_chroma : bool; deblocking_disabled : bool;
  lf_across_present : bool; lf_across : bool;
  pos_after_pps_id : nat; pos_after_address : nat; pos_sao : nat; pos_lf_across : nat;
  pos_end : nat; data_byte : nat;
}.

Inductive SliceParse := spMalformed | spUnsupported | spDependent.

(** The entries of the slice's own reference picture sets in use: num_pic_total_curr. *)
Definition slice_rps (sps : Sps) : Parse SliceParse Z :=
  skip_u (i32 (log2_max_poc_lsb sps)) ;;
  in_sps ← flag;
  used ← (if negb in_sps then
            '(_, used) ← or_else spMalformed
               (parse_st_rps (num_st_rps sps) (num_st_rps sps) (st_num_delta_pocs sps));
            mret used
          else
            idx ← (if 1 <? num_st_rps sps then u (ceil_log2 (num_st_rps sps)) else mret 0);
            refuse_if (num_st_rps sps <=? idx) spMalformed ;;
            mret (nth (Z.to_nat idx) (st_num_used sps) 0));
  if long_term sps then
    n_sps ← (if 0 <? num_lt_sps sps then ue else mret 0);
    n_pics ← ue;
    refuse_if ((num_lt_sps sps <? n_sps) || (32 <? u32 (n_sps + n_pics))) spMalformed ;;
    r ← repeat_acc (Z.to_nat (u32 (n_sps + n_pics)))
      (fun iu : Z * Z =>
         used ← (if iu.1 <? n_sps then
                   li ← (if 1 <? num_lt_sps sps then u (ceil_log2 (num_lt_sps sps)) else mret 0);
                   refuse_if (num_lt_sps sps <=? li) spMalformed ;;
                   mret (nth (Z.to_nat li) (lt_used_sps sps) 0)
                 else skip_u (i32 (log2_max_poc_lsb sps)) ;; u 1);
         msb ← flag; when msb skip_ue ;;
         mret (iu.1 + 1, u32 (iu.2 + used))) (0, used);
    mret r.2
  else mret used.

(** What a P or B slice adds: cabac_init_flag and MaxNumMergeCand. *)
Definition inter_fields (sps : Sps) (pps : Pps) (slice_type num_pic_total_curr : Z) (slice_tmvp : bool)
    : Parse SliceParse (bool * Z) :=
  override ← flag;
  nl ← (if override : bool then
          l0 ← ue;
          l1 ← (if slice_type =? 0 then l1 ← ue; mret (u32 (l1 + 1)) else mret (num_ref_idx_l1_default pps));
          mret (u32 (l0 + 1), l1)
        else mret (num_ref_idx_l0_default pps, num_ref_idx_l1_default pps));
  refuse_if ((15 <? nl.1) || (15 <? nl.2)) spMalformed ;;
  when (lists_modification pps && (1 <? num_pic_total_curr))
    (let bits := ceil_log2 num_pic_total_curr in
     m0 ← flag;
     when m0 (repeat_acc (Z.to_nat nl.1) (fun _ => skip_u bits) tt) ;;
     m1 ← (if slice_type =? 0 then flag else mret false);
     when m1 (repeat_acc (Z.to_nat nl.2) (fun _ => skip_u bits) tt)) ;;
  when (slice_type =? 0) (skip_u 1) ;;
  cabac ← (if cabac_init_present pps then flag else mret false);
  when slice_tmvp
    (col_l0 ← (if slice_type =? 0 then flag else mret true);
     when ((col_l0 && (1 <? nl.1)) || (negb col_l0 && (1 <? nl.2))) skip_ue) ;;
  five_minus ← ue;
  refuse_if (4 <? five_minus) spMalformed ;;
  mret (cabac, 5 - five_minus).

(** [while (r.pos() & 7) if (r.u(1) != 0) return kMalformed]: at most seven times. *)
Fixpoint skip_padding (fuel : nat) : Parse SliceParse unit :=
  match fuel with
  | O => mret tt
  | S fuel =>
      p ← pos;
      if (p mod 8 =? 0)%nat then mret tt
      else b ← u 1; refuse_if (negb (b =? 0)) spMalformed ;; skip_padding fuel
  end.

Definition slice_body (nal0 nal1 : Z) (data : list Z) (sps : Sps) (pps : Pps) : Parse SliceParse SliceHeader :=
  let type := nal_type_of nal0 in
  first ← flag;
  when ((16 <=? type) && (type <=? 23)) (skip_u 1) ;;
  id ← ue;
  refuse_if (negb (id =? pps_id pps)) spUnsupported ;;
  pos_pps ← pos;
  da ← (if first : bool then mret (false, 0)
        else
          dep ← (if dependent_slices pps then flag else mret false);
          a ← u (addr_bits sps);
          mret (dep, a));
  pos_addr ← pos;
  refuse_if da.1 spDependent ;;
  skip_u (extra_bits pps) ;;
  stype ← ue;
  refuse_if (2 <? stype) spMalformed ;;
  when (output_flag pps) (skip_u 1) ;;
  let idr := (type =? 19) || (type =? 20) in
  nt ← (if idr then mret (0, false)
        else
          n ← slice_rps sps;
          t ← (if tmvp sps then flag else mret false);
          mret (n, t));
  p_sao ← (if sao sps then pos else mret 0%nat);
  luma ← (if sao sps then flag else mret false);
  chroma ← (if sao sps && negb (chroma_format_idc sps =? 0) then flag else mret false);
  cm ← (if stype =? 2 then mret (false, 5) else inter_fields sps pps stype nt.1 nt.2);
  qp ← se;
  when (chroma_qp_offsets_present pps) (skip_se ;; skip_se) ;;
  override ← (if deblocking_override_enabled pps then flag else mret false);
  dis ← (if override : bool then
           dis ← flag; when (negb dis) (skip_se ;; skip_se) ;; mret dis
         else mret (pps_deblocking_disabled pps));
  let present := loop_filter_across_slices pps && (luma || chroma || negb dis) in
  p_lf ← (if present then pos else mret 0%nat);
  lf ← (if present then flag else mret false);
  p_end ← pos;
  one ← u 1;
  refuse_if (negb (one =? 1)) spMalformed ;;
  skip_padding 7 ;;
  b ← bad;
  refuse_if b spMalformed ;;
  p_data ← pos;
  mret (mkSliceHeader nal0 nal1 type data first da.2 stype (i32 (init_qp pps + qp)) cm.1 cm.2 luma chroma dis
          present lf pos_pps pos_addr p_sao p_lf p_end (p_data / 8)).

Definition parse_slice_header (nal : list Z) (sps : Sps) (pps : Pps) : SliceParse + SliceHeader :=
  if (length nal <? 4)%nat then inl spMalformed
  else if 21 <? nal_type_of (at_ nal 0) then inl spMalformed
  else
    let data := unescape (drop 2 nal) in
    run_parser (slice_body (at_ nal 0) (at_ nal 1) data sps pps) data.

(** ** The writer *)

Record HeaderEdit := mkHeaderEdit { e_first : bool; e_address : Z; e_clear_sao : bool }.

(** Up to the end of slice_segment_address. *)
Definition write_address (w : BitWriter) (t : SliceHeader) (e : HeaderEdit) (sps : Sps) (pps : Pps) : option BitWriter :=
  w ← wr_copy (put w (e_first e)) (rbsp t) 1 (pos_after_pps_id t);
  Some (if e_first e then w
        else wr_u (if dependent_slices pps then put w false else w) (e_address e) (addr_bits sps)).

(** Through the SAO flags; the position to go on from. *)
Definition write_sao (w : BitWriter) (t : SliceHeader) (e : HeaderEdit) (sps : Sps) : option (BitWriter * nat) :=
  if sao sps then
    let sao_bits := if negb (chroma_format_idc sps =? 0) then 2%nat else 1%nat in
    w ← wr_copy w (rbsp t) (pos_after_address t) (pos_sao t);
    w ← (if e_clear_sao e then Some (put_zeros w sao_bits)
         else wr_copy w (rbsp t) (pos_sao t) (pos_sao t + sao_bits));
    Some (w, (pos_sao t + sao_bits)%nat)
  else Some (w, pos_after_address t).

Definition write_tail (w : BitWriter) (from : nat) (t : SliceHeader) (e : HeaderEdit) (pps : Pps) : option BitWriter :=
  let sao_on := negb (e_clear_sao e) && (sao_luma t || sao_chroma t) in
  let lf_present := loop_filter_across_slices pps && (sao_on || negb (deblocking_disabled t)) in
  w ← (if lf_across_present t then
         w ← wr_copy w (rbsp t) from (pos_lf_across t);
         wr_copy (if lf_present then put w (lf_across t) else w) (rbsp t) (pos_lf_across t + 1) (pos_end t)
       else wr_copy w (rbsp t) from (pos_end t));
  Some (align_zero (put w true)).

Definition write_slice_header (w : BitWriter) (t : SliceHeader) (e : HeaderEdit) (sps : Sps) (pps : Pps) : option BitWriter :=
  w ← write_address w t e sps pps;
  '(w, from) ← write_sao w t e sps;
  write_tail w from t e pps.

(** ** Proofs: a slice header rewritten

    What the parser's positions and values say of the payload's bits; the header written back
    unedited is the header read, and an edited one differs in the edited fields alone. *)
Local Open Scope Z_scope.
Local Open Scope mabur_scope.

(** ** Parsers only move forward *)

Definition adv (r r' : BitReader) : Prop :=
  d_ r' = d_ r /\ (pos_ r <= pos_ r')%nat /\
  (bad_ r' = false -> bad_ r = false /\ (pos_ r' = pos_ r \/ (pos_ r' <= 8 * length (d_ r))%nat)).

Lemma adv_refl r : adv r r.
Proof. split; [done |]. split; [done |]. intros; split; [done | by left]. Qed.

Lemma adv_trans r1 r2 r3 : adv r1 r2 -> adv r2 r3 -> adv r1 r3.
Proof.
  intros (A1 & A2 & A3) (B1 & B2 & B3). split; [by rewrite B1 |]. split; [lia |]. intros Hb.
  destruct (B3 Hb) as [Hb2 P2]. destruct (A3 Hb2) as [Hb1 P1]. split; [done |]. rewrite A1 in P2. lia.
Qed.

Lemma adv_bad r : adv r (set_bad r).
Proof. split; [done |]. split; [done |]. done. Qed.

Lemma br_u_adv bits r : adv r (br_u bits r).2.
Proof.
  unfold br_u. destruct (u_loop_frame (Z.to_nat bits) 0 r) as (H1 & H2 & H3). split; [done |]. split; [done |].
  intros Hb. destruct (H3 Hb) as (G1 & G2 & [G3 | G3]); (split; [done |]); [left; lia | by right].
Qed.

Lemma ue_zeros_adv fuel lz r : adv r (ue_zeros fuel lz r).2.
Proof.
  revert lz r. induction fuel as [|fuel IH]; intros lz r; cbn [ue_zeros]; [apply adv_bad |].
  pose proof (br_u_adv 1 r) as H1. destruct (br_u 1 r) as [b r1]. cbn [snd] in H1. destruct (b =? 0); [| done].
  destruct (_ || _); [eapply adv_trans; [exact H1 | apply adv_bad] | eapply adv_trans; [exact H1 | apply IH]].
Qed.

Lemma br_ue_adv r : adv r (br_ue r).2.
Proof.
  unfold br_ue. pose proof (ue_zeros_adv kUeFuel 0 r) as H1. destruct (ue_zeros kUeFuel 0 r) as [[lz|] r1]; [| done].
  pose proof (br_u_adv lz r1) as H2. destruct (br_u lz r1) as [v r2]. eapply adv_trans; [exact H1 | exact H2].
Qed.

Definition fwd {St A} (m : Parse St A) : Prop := forall r a r', m r = inr (a, r') -> adv r r'.

Section Fwd.
Context {St : Type}.

Lemma fwd_ret {A} (a : A) : fwd (St := St) (mret a).
Proof. intros r a' r' [= <- <-]. apply adv_refl. Qed.
Lemma bind_inv {A B} (m : Parse St A) (k : A -> Parse St B) r x :
  (m ≫= k) r = inr x -> exists a r1, m r = inr (a, r1) /\ k a r1 = inr x.
Proof. unfold mbind, parse_bind. destruct (m r) as [|[a r1]]; [done |]. intros H. by exists a, r1. Qed.
Lemma fwd_bind {A B} (m : Parse St A) (k : A -> Parse St B) : fwd m -> (forall a, fwd (k a)) -> fwd (m ≫= k).
Proof. intros Hm Hk r b r' H. apply bind_inv in H as (a & r1 & H1 & H2). eapply adv_trans; [by eapply Hm | by eapply Hk]. Qed.
Lemma fwd_u bits : fwd (St := St) (u bits).
Proof. intros r a r' [= H]. pose proof (br_u_adv bits r) as A. rewrite H in A. exact A. Qed.
Lemma fwd_ue : fwd (St := St) ue.
Proof. intros r a r' [= H]. pose proof (br_ue_adv r) as A. rewrite H in A. exact A. Qed.
Lemma fwd_se : fwd (St := St) se.
Proof.
  intros r a r' [= H]. unfold br_se in H. pose proof (br_ue_adv r) as A. destruct (br_ue r) as [k r1].
  injection H as _ <-. exact A.
Qed.
Lemma fwd_flag : fwd (St := St) flag.
Proof.
  intros r a r'. unfold flag. pose proof (br_u_adv 1 r) as A. destruct (br_u 1 r) as [v r1]. intros [= _ <-]. exact A.
Qed.
Lemma fwd_pos : fwd (St := St) pos.
Proof. intros r a r' [= _ <-]. apply adv_refl. Qed.
Lemma fwd_bad : fwd (St := St) bad.
Proof. intros r a r' [= _ <-]. apply adv_refl. Qed.
Lemma fwd_refuse_if b e : fwd (St := St) (refuse_if b e).
Proof. destruct b; [done |]. apply fwd_ret. Qed.
Lemma fwd_when b (m : Parse St unit) : fwd m -> fwd (when b m).
Proof. destruct b; [done |]. intros _. apply fwd_ret. Qed.
Lemma fwd_repeat {A} n (f : A -> Parse St A) a : (forall a, fwd (f a)) -> fwd (repeat_acc n f a).
Proof. intros Hf. revert a. induction n as [|n IH]; intros a; [apply fwd_ret |]. by apply fwd_bind. Qed.
Lemma fwd_or_else {A} (e : St) (m : Parse unit A) : fwd m -> fwd (or_else e m).
Proof. intros Hm r a r'. unfold or_else. destruct (m r) as [|[a1 r1]] eqn:E; [done |]. intros [= <- <-]. by eapply Hm. Qed.
End Fwd.

Create HintDb fwd.
#[export] Hint Resolve fwd_ret fwd_u fwd_ue fwd_se fwd_flag fwd_pos fwd_bad fwd_refuse_if : fwd.

(** Follow the parser's text. *)
Ltac fwd :=
  repeat match goal with
  | |- fwd (_ ≫= _) => apply fwd_bind; [| intros]
  | |- fwd (match ?x with (_, _) => _ end) => destruct x
  | |- fwd (if ?b then _ else _) => destruct b
  | |- fwd (when _ _) => apply fwd_when
  | |- fwd (repeat_acc _ _ _) => apply fwd_repeat; intros
  | |- fwd (or_else _ _) => apply fwd_or_else
  | |- fwd _ => solve [auto with fwd]
  end.

Lemma fwd_skip_u {St} b : fwd (St := St) (skip_u b).
Proof. unfold skip_u. fwd. Qed.
Lemma fwd_skip_ue {St} : fwd (St := St) skip_ue.
Proof. unfold skip_ue. fwd. Qed.
Lemma fwd_skip_se {St} : fwd (St := St) skip_se.
Proof. unfold skip_se. fwd. Qed.
#[export] Hint Resolve fwd_skip_u fwd_skip_ue fwd_skip_se : fwd.

Lemma fwd_st_rps i n l : fwd (parse_st_rps i n l).
Proof. unfold parse_st_rps. fwd. Qed.
#[export] Hint Resolve fwd_st_rps : fwd.
Lemma fwd_slice_rps sps : fwd (slice_rps sps).
Proof. unfold slice_rps. fwd. Qed.
Lemma fwd_inter sps pps t n b : fwd (inter_fields sps pps t n b).
Proof. unfold inter_fields. cbn zeta. fwd. Qed.
Lemma fwd_padding fuel : fwd (skip_padding fuel).
Proof. induction fuel as [|fuel IH]; cbn [skip_padding]; fwd. Qed.
#[export] Hint Resolve fwd_slice_rps fwd_inter fwd_padding : fwd.

(** ** What a good read says *)

Lemma flag_read {St} r b r' : flag (St := St) r = inr (b, r') -> bad_ r' = false ->
  b = bitn (d_ r) (pos_ r) /\ pos_ r' = S (pos_ r).
Proof.
  unfold flag. destruct (br_u 1 r) as [v r1] eqn:E. intros [= <- <-] Hb.
  destruct (u_loop_frame (Z.to_nat 1) 0 r) as (_ & _ & H3). unfold br_u in E. rewrite E in H3. cbn [snd] in H3.
  destruct (H3 Hb) as (_ & G2 & [G3 | G3]); [done |]. rewrite G2 in G3.
  pose proof (br_u_spec 1 r 1 eq_refl G3) as S1. unfold br_u in S1. rewrite E in S1. injection S1 as -> _.
  rewrite G2. change (Z.to_nat 1) with 1%nat. rewrite Nat.add_1_r. split; [| done].
  cbn [bits_at List.seq map]. unfold bits_at. cbn. by destruct (bitn (d_ r) (pos_ r)).
Qed.

Lemma u_read {St} bits r v r' : u (St := St) bits r = inr (v, r') -> bad_ r' = false ->
  let n := Z.to_nat bits in
  pos_ r' = (pos_ r + n)%nat /\ v = u32 (bits_val (bits_at (d_ r) (pos_ r) n)).
Proof.
  intros Hu Hb n. unfold u in Hu. injection Hu as E. destruct (u_loop_frame n 0 r) as (_ & _ & H3). unfold br_u in E. fold n in E. rewrite E in H3. cbn [snd] in H3.
  destruct (H3 Hb) as (_ & G2 & [G3 | G3]).
  - rewrite G3 in *. cbn in E. injection E as <- <-. split; [lia | done].
  - rewrite G2 in G3. pose proof (br_u_spec bits r n eq_refl G3) as S1. unfold br_u in S1. fold n in S1. rewrite E in S1.
    injection S1 as -> _. by split.
Qed.

Lemma padding_read fuel r r' : skip_padding fuel r = inr (tt, r') -> bad_ r' = false ->
  ((8 - pos_ r mod 8) mod 8 <= fuel)%nat ->
  (pos_ r' mod 8 = 0)%nat /\ (pos_ r <= pos_ r' < pos_ r + 8)%nat /\
  bits_at (d_ r) (pos_ r) (pos_ r' - pos_ r) = replicate (pos_ r' - pos_ r) false.
Proof.
  revert r. induction fuel as [|fuel IH]; intros r; cbn [skip_padding].
  - intros [= <-] _ Hf. pose proof (Nat.mod_upper_bound (pos_ r) 8 ltac:(lia)).
    assert ((pos_ r mod 8 = 0)%nat).
    { destruct (Nat.eq_dec (pos_ r mod 8) 0); [done |]. rewrite Nat.mod_small in Hf by lia. lia. }
    rewrite Nat.sub_diag. split; [done |]. split; [lia | done].
  - intros H Hb Hf. apply bind_inv in H as (p & r1 & [= <- <-] & H).
    destruct (Nat.eqb_spec (pos_ r mod 8) 0) as [E | E].
    { injection H as <-. rewrite Nat.sub_diag. split; [done |]. split; [lia | done]. }
    apply bind_inv in H as (b & r2 & H1 & H). apply bind_inv in H as ([] & r3 & H2 & H).
    unfold refuse_if in H2. destruct (negb (b =? 0)) eqn:Eb; [done |]. injection H2 as <-.
    apply negb_false_iff, Z.eqb_eq in Eb. subst b.
    pose proof (fwd_padding fuel _ _ _ H) as (_ & _ & A3). destruct (A3 Hb) as [Hb2 _].
    pose proof (fwd_u 1 _ _ _ H1) as (D1 & _).
    destruct (u_read 1 _ _ _ H1 Hb2) as [P1 V1]. change (Z.to_nat 1) with 1%nat in P1, V1.
    pose proof (Nat.mod_upper_bound (pos_ r) 8 ltac:(lia)) as Hm. pose proof (Nat.div_mod_eq (pos_ r) 8) as Hd.
    assert (HS : ((pos_ r + 1) mod 8 = if pos_ r mod 8 =? 7 then 0 else pos_ r mod 8 + 1)%nat).
    { destruct (Nat.eqb_spec (pos_ r mod 8) 7) as [E7 | E7]; symmetry.
      - apply (Nat.mod_unique _ 8 (pos_ r / 8 + 1)); lia.
      - apply (Nat.mod_unique _ 8 (pos_ r / 8)); lia. }
    destruct (IH r2 H Hb) as (I1 & I2 & I3).
    { rewrite P1, HS. rewrite Nat.mod_small in Hf by lia. destruct (Nat.eqb_spec (pos_ r mod 8) 7); [cbn; lia |].
      rewrite Nat.mod_small by lia. lia. }
    rewrite P1, D1 in *.
    assert (Hlt : (pos_ r' < pos_ r + 8)%nat).
    { destruct (Nat.lt_ge_cases (pos_ r') (pos_ r + 8)); [done |]. exfalso. assert (E8 : pos_ r' = (pos_ r + 8)%nat) by lia.
      rewrite E8 in I1. replace (pos_ r + 8)%nat with (pos_ r + 1 * 8)%nat in I1 by lia. rewrite Nat.Div0.mod_add in I1. done. }
    split; [done |]. split; [lia |]. replace (pos_ r' - pos_ r)%nat with (S (pos_ r' - (pos_ r + 1))) by lia.
    rewrite bits_at_S. cbn [replicate]. rewrite <- I3, Nat.add_1_r. f_equal.
    unfold bits_at in V1. cbn in V1. by destruct (bitn (d_ r) (pos_ r)).
Qed.

Lemma msb_bits_val bs : msb_bits (bits_val bs) (length bs) = bs.
Proof.
  induction bs as [|b bs IH] using rev_ind; [done |].
  rewrite length_app. cbn [length]. rewrite Nat.add_1_r, bits_val_snoc. unfold msb_bits in *.
  assert (E : rev (List.seq 0 (S (length bs))) = map S (rev (List.seq 0 (length bs))) ++ [O]).
  { rewrite map_rev, List.seq_shift. reflexivity. }
  rewrite E, map_app, map_map. f_equal.
  - rewrite <- IH at 2. apply map_ext. intros i. rewrite Nat2Z.inj_succ.
    destruct b; unfold b2z; [apply Z.testbit_odd_succ; lia |]. rewrite Z.add_0_r. apply Z.testbit_even_succ. lia.
  - cbn [map]. f_equal. rewrite Z.bit0_odd, Z.add_comm, Z.odd_add_mul_2. by destruct b.
Qed.

Lemma ceil_log2_range x : x <= 2 ^ 32 -> 0 <= ceil_log2 x <= 32.
Proof.
  intros Hx. unfold ceil_log2. assert (G : forall fuel c, 0 <= c <= 32 -> Z.of_nat fuel + c = 33 -> 0 <= ceil_log2_loop fuel c x <= 32).
  { induction fuel as [|fuel IH]; intros c Hc Hf; cbn [ceil_log2_loop]; [lia |].
    destruct (Z.ltb_spec (Z.shiftl 1 c) x) as [L | L]; [| lia]. apply IH; [| lia].
    destruct (Z.eq_dec c 32) as [-> |]; [| lia]. change (Z.shiftl 1 32) with (2 ^ 32) in L. lia. }
  by apply G.
Qed.

Lemma addr_bits_range sps : 0 <= addr_bits sps <= 32.
Proof. unfold addr_bits. apply ceil_log2_range. pose proof (wrap_range 32 (pic_w_ctbs sps * pic_h_ctbs sps) ltac:(lia)). lia. Qed.

(** ** Where a parsed header's fields are *)

Definition sao_bits (sps : Sps) : nat := if sao sps then if chroma_format_idc sps =? 0 then 1 else 2 else 0.
(** Where the fields behind SAO start. *)
Definition after_sao (sps : Sps) (h : SliceHeader) : nat :=
  if sao sps then (pos_sao h + sao_bits sps)%nat else pos_after_address h.

Record hdr_at (sps : Sps) (pps : Pps) (data : list Z) (h : SliceHeader) : Prop := {
  ha_rbsp : rbsp h = data;
  ha_first : first h = bitn data 0;
  ha_pps : (1 <= pos_after_pps_id h)%nat;
  ha_addr : if first h then address h = 0 /\ pos_after_address h = pos_after_pps_id h else
    (pos_after_pps_id h <= pos_after_address h)%nat /\
    bits_at data (pos_after_pps_id h) (pos_after_address h - pos_after_pps_id h) =
      (if dependent_slices pps then [false] else []) ++ msb_bits (address h) (Z.to_nat (addr_bits sps));
  ha_sao : sao sps = true -> (pos_after_address h <= pos_sao h)%nat /\
    sao_luma h = bitn data (pos_sao h) /\
    sao_chroma h = (if chroma_format_idc sps =? 0 then false else bitn data (S (pos_sao h)));
  ha_no_sao : sao sps = false -> sao_luma h = false /\ sao_chroma h = false;
  ha_lf : lf_across_present h = loop_filter_across_slices pps && (sao_luma h || sao_chroma h || negb (deblocking_disabled h));
  ha_lf_pos : lf_across_present h = true ->
    (after_sao sps h <= pos_lf_across h)%nat /\ pos_end h = S (pos_lf_across h) /\ bitn data (pos_lf_across h) = lf_across h;
  ha_end : (after_sao sps h <= pos_end h)%nat;
  ha_bytes : (S (pos_end h) <= 8 * data_byte h < pos_end h + 9)%nat /\ (8 * data_byte h <= 8 * length data)%nat;
  ha_stop : bits_at data (pos_end h) (8 * data_byte h - pos_end h) = true :: replicate (8 * data_byte h - S (pos_end h)) false;
}.

Ltac bstep H a r E := apply bind_inv in H as (a & r & E & H).
(** The step moves forward, and is good when the rest is. *)
Ltac get_adv E F :=
  match type of E with ?m ?r = inr (_, ?r2) => assert (F : adv r r2) by (refine ((_ : fwd m) _ _ _ E); fwd) end.
Ltac chain F B D P Bnext :=
  let X := fresh in destruct F as (D & P & X); destruct (X Bnext) as [B _]; clear X.

(** The tail of the header: the flag, the end, the stop bit and the padding. *)
Lemma tail_at data (present : bool) r21 p4 r22 lf r23 p5 r24 one r25 r26 r27 b r28 r29 p6 r30 :
  d_ r21 = data ->
  (if present then pos (St := SliceParse) else mret 0%nat) r21 = inr (p4, r22) ->
  (if present then flag (St := SliceParse) else mret false) r22 = inr (lf, r23) ->
  (pos (St := SliceParse)) r23 = inr (p5, r24) -> u (St := SliceParse) 1 r24 = inr (one, r25) ->
  refuse_if (negb (one =? 1)) spMalformed r25 = inr (tt, r26) -> skip_padding 7 r26 = inr (tt, r27) ->
  bad (St := SliceParse) r27 = inr (b, r28) -> refuse_if b spMalformed r28 = inr (tt, r29) ->
  (pos (St := SliceParse)) r29 = inr (p6, r30) ->
  bad_ r21 = false /\ (if present then p4 = pos_ r21 /\ p5 = S p4 /\ lf = bitn data p4 else p5 = pos_ r21 /\ lf = false) /\
  (S p5 <= 8 * (p6 / 8) < p5 + 9)%nat /\ (8 * (p6 / 8) <= 8 * length data)%nat /\
  bits_at data p5 (8 * (p6 / 8) - p5) = true :: replicate (8 * (p6 / 8) - S p5) false.
Proof.
  intros Hd E22 E23 [= <- <-] E25 E26 E27 [= <- <-] E29 [= <- <-].
  unfold refuse_if in E26, E29. destruct (bad_ r27) eqn:B27; [done |]. injection E29 as <-.
  destruct (negb (one =? 1)) eqn:E1; [done |]. injection E26 as <-. apply negb_false_iff, Z.eqb_eq in E1. subst one.
  get_adv E27 F27. get_adv E25 F25. get_adv E23 F23. get_adv E22 F22.
  destruct F27 as (D27 & P27 & X27). destruct (X27 B27) as [B25 Q27].
  destruct F25 as (D25 & P25 & X25). destruct (X25 B25) as [B23 Q25]. chain F23 B22 D23 P23 B23. chain F22 B21 D22 P22 B22.
  destruct (u_read 1 _ _ _ E25 B25) as [P1 V1]. change (Z.to_nat 1) with 1%nat in P1, V1.
  destruct (padding_read 7 _ _ E27 B27) as (M1 & M2 & M3).
  { pose proof (Nat.mod_upper_bound (8 - pos_ r25 mod 8) 8 ltac:(lia)). lia. }
  rewrite D25, D23, D22, Hd in Q27, M3.
  assert (E8 : (8 * (pos_ r27 / 8))%nat = pos_ r27) by (pose proof (Nat.div_mod_eq (pos_ r27) 8); lia). rewrite E8.
  rewrite D23, D22, Hd in Q25.
  split; [done |]. split; [| split; [| split]].
  - destruct present.
    + injection E22 as <- <-. destruct (flag_read _ _ _ E23 B23) as [-> G]. by rewrite Hd.
    + injection E22 as <- <-. by injection E23 as <- <-.
  - lia.
  - destruct Q27 as [Q27 | Q27]; lia.
  - replace (pos_ r27 - pos_ r23)%nat with (S (pos_ r27 - pos_ r25)) by lia. rewrite bits_at_S.
    replace (pos_ r27 - S (pos_ r23))%nat with (pos_ r27 - pos_ r25)%nat by lia. rewrite <- M3.
    rewrite P1 at 2. rewrite Nat.add_1_r. f_equal. rewrite D23, D22, Hd in V1. unfold bits_at in V1. cbn in V1. by destruct (bitn data (pos_ r23)).
Qed.

(** The address. *)
Lemma address_at sps pps (f : bool) r5 (da : bool * Z) r6 :
  (if f then mret (false, 0)
   else dep ← (if dependent_slices pps then flag else mret false);
        a ← u (addr_bits sps); mret (M := Parse SliceParse) (dep, a)) r5 = inr (da, r6) ->
  bad_ r6 = false -> da.1 = false ->
  if f then da.2 = 0 /\ pos_ r6 = pos_ r5 else
    (pos_ r5 <= pos_ r6)%nat /\ bits_at (d_ r5) (pos_ r5) (pos_ r6 - pos_ r5) =
      (if dependent_slices pps then [false] else []) ++ msb_bits da.2 (Z.to_nat (addr_bits sps)).
Proof.
  destruct f; [by intros [= <- <-] |]. intros H Hb Hd.
  bstep H dep r1 E1. bstep H a r2 E2. injection H as <- <-. cbn [fst snd] in *. subst dep.
  get_adv E2 F2. destruct F2 as (D2 & P2 & X2). destruct (X2 Hb) as [B1 _].
  destruct (u_read _ _ _ _ E2 Hb) as [P3 V3]. pose proof (addr_bits_range sps) as Har.
  set (n := Z.to_nat (addr_bits sps)) in *.
  assert (Hmsb : msb_bits a n = bits_at (d_ r1) (pos_ r1) n).
  { rewrite V3. pose proof (bits_val_range (bits_at (d_ r1) (pos_ r1) n)) as R. rewrite bits_at_length in R.
    assert (2 ^ Z.of_nat n <= 2 ^ 32) by (apply Z.pow_le_mono_r; lia).
    rewrite wrap_small by (unfold in_width; lia).
    pose proof (msb_bits_val (bits_at (d_ r1) (pos_ r1) n)) as M. by rewrite bits_at_length in M. }
  rewrite Hmsb. destruct (dependent_slices pps).
  - destruct (flag_read _ _ _ E1 B1) as [G1 G2]. get_adv E1 F1. destruct F1 as (D1 & P1 & _).
    split; [lia |]. replace (pos_ r2 - pos_ r5)%nat with (S n) by lia. rewrite bits_at_S, <- G1, D1, G2. done.
  - injection E1 as <-. split; [lia |]. by replace (pos_ r2 - pos_ r5)%nat with n by lia.
Qed.

Lemma slice_body_at n0 n1 data sps pps h r' :
  slice_body n0 n1 data sps pps (new_reader data) = inr (h, r') -> hdr_at sps pps data h.
Proof.
  intros H. unfold slice_body in H. cbn zeta in H.
  bstep H f r1 E1. bstep H x2 r2 E2. bstep H idv r3 E3. bstep H x4 r4 E4. bstep H p1 r5 E5.
  bstep H da r6 E6. bstep H p2 r7 E7. bstep H x8 r8 E8. bstep H x9 r9 E9. bstep H st r10 E10.
  bstep H x11 r11 E11. bstep H x12 r12 E12. bstep H nt r13 E13. bstep H p3 r14 E14. bstep H lu r15 E15.
  bstep H ch r16 E16. bstep H cm r17 E17. bstep H qp r18 E18. bstep H x19 r19 E19. bstep H ov r20 E20.
  bstep H dis r21 E21. bstep H p4 r22 E22. bstep H lf r23 E23. bstep H p5 r24 E24. bstep H one r25 E25.
  bstep H x26 r26 E26. bstep H x27 r27 E27. bstep H b r28 E28. bstep H x29 r29 E29. bstep H p6 r30 E30.
  injection H as <- <-. destruct x26, x27, x29.
  get_adv E1 F1. get_adv E2 F2. get_adv E3 F3. get_adv E4 F4. get_adv E5 F5. get_adv E6 F6. get_adv E7 F7. get_adv E8 F8.
  get_adv E9 F9. get_adv E10 F10. get_adv E11 F11. get_adv E12 F12. get_adv E13 F13. get_adv E14 F14. get_adv E15 F15.
  get_adv E16 F16. get_adv E17 F17. get_adv E18 F18. get_adv E19 F19. get_adv E20 F20. get_adv E21 F21.
  pose proof (fun D => tail_at data _ r21 p4 r22 lf r23 p5 r24 one r25 r26 r27 b r28 r29 p6 r30 D E22 E23 E24 E25 E26 E27 E28 E29 E30) as T.
  assert (D21 : d_ r21 = data).
  { repeat match goal with F : adv _ _ |- _ => destruct F as (? & _ & _) end. cbn in *. congruence. }
  destruct (T D21) as (B21 & T1 & T2 & T3 & T4). clear T.
  chain F21 B20 D21' P21 B21. chain F20 B19 D20 P20 B20. chain F19 B18 D19 P19 B19. chain F18 B17 D18 P18 B18.
  chain F17 B16 D17 P17 B17. chain F16 B15 D16 P16 B16. chain F15 B14 D15 P15 B15. chain F14 B13 D14 P14 B14.
  chain F13 B12 D13 P13 B13. chain F12 B11 D12 P12 B12. chain F11 B10 D11 P11 B11. chain F10 B9 D10 P10 B10.
  chain F9 B8 D9 P9 B9. chain F8 B7 D8 P8 B8. chain F7 B6 D7 P7 B7. chain F6 B5 D6 P6 B6. chain F5 B4 D5 P5 B5.
  chain F4 B3 D4 P4 B4. chain F3 B2 D3 P3 B3. chain F2 B1 D2 P2 B2. chain F1 B0 D1 P1 B1.
  cbn [d_ new_reader] in D1.
  injection E5 as <- <-. injection E7 as <- <-.
  destruct (flag_read _ _ _ E1 B1) as [G1 G2]. cbn [new_reader d_ pos_] in G1, G2.
  assert (Hdep : da.1 = false) by (unfold refuse_if in E8; by destruct da.1).
  pose proof (address_at sps pps f _ da _ E6 B6 Hdep) as G6.
  assert (D4' : d_ r4 = data) by congruence. rewrite D4' in G6.
  assert (E8' : r8 = r6) by (unfold refuse_if in E8; destruct da.1; [done | by injection E8]).
  subst r8.
  assert (Hsao : sao sps = true -> p3 = pos_ r13 /\ lu = bitn data p3 /\
    ch = (if chroma_format_idc sps =? 0 then false else bitn data (S p3)) /\ pos_ r16 = (p3 + sao_bits sps)%nat).
  { intros Hs. unfold sao_bits. rewrite Hs in *. cbn [andb] in E16. injection E14 as <- <-.
    destruct (flag_read _ _ _ E15 B15) as [-> Q15]. assert (D13' : d_ r13 = data) by congruence.
    split; [done |]. split; [by rewrite D13' |].
    destruct (chroma_format_idc sps =? 0); cbn [negb] in E16.
    - injection E16 as <- <-. split; [done |]. lia.
    - destruct (flag_read _ _ _ E16 B16) as [-> Q16]. rewrite Q15. assert (D15' : d_ r15 = data) by congruence.
      rewrite D15'. split; [done |]. lia. }
  assert (Hafter : (after_sao sps (mkSliceHeader n0 n1 (nal_type_of n0) data f da.2 st (i32 (init_qp pps + qp)) cm.1 cm.2 lu ch dis
    (loop_filter_across_slices pps && (lu || ch || negb dis)) lf (pos_ r4) (pos_ r6) p3 p4 p5 (p6 / 8)) <= pos_ r21)%nat).
  { unfold after_sao. cbn [pos_sao pos_after_address]. destruct (sao sps) eqn:Es; [| lia].
    destruct (Hsao eq_refl) as (_ & _ & _ & Q). lia. }
  split; cbn [rbsp first address pos_after_pps_id pos_after_address pos_sao sao_luma sao_chroma lf_across_present
    lf_across pos_lf_across pos_end data_byte deblocking_disabled]; try done.
  - lia.
  - intros Hs. destruct (Hsao Hs) as (-> & -> & -> & _). split; [lia | done].
  - intros Hs. rewrite Hs in *. injection E15 as <- <-. by injection E16 as <- <-.
  - intros Hp. rewrite Hp in T1. destruct T1 as (-> & -> & ->). split; [done | done].
  - etransitivity; [exact Hafter |]. destruct (loop_filter_across_slices pps && _); [destruct T1 as (-> & -> & _) | destruct T1 as (-> & _)]; lia.
Qed.

(** ** The header as written *)

(** The bits of the header with [e] applied, up to the stop bit. *)
Definition address_bits (sps : Sps) (pps : Pps) (e : HeaderEdit) : list bool :=
  if e_first e then []
  else (if dependent_slices pps then [false] else []) ++ msb_bits (e_address e) (Z.to_nat (addr_bits sps)).
Definition sao_part (sps : Sps) (h : SliceHeader) (e : HeaderEdit) : list bool :=
  if sao sps then
    bits_at (rbsp h) (pos_after_address h) (pos_sao h - pos_after_address h) ++
    (if e_clear_sao e then replicate (sao_bits sps) false else bits_at (rbsp h) (pos_sao h) (sao_bits sps))
  else [].
Definition lf_kept (pps : Pps) (h : SliceHeader) (e : HeaderEdit) : bool :=
  loop_filter_across_slices pps &&
  (negb (e_clear_sao e) && (sao_luma h || sao_chroma h) || negb (deblocking_disabled h)).
Definition tail_part (sps : Sps) (pps : Pps) (h : SliceHeader) (e : HeaderEdit) : list bool :=
  if lf_across_present h then
    bits_at (rbsp h) (after_sao sps h) (pos_lf_across h - after_sao sps h) ++
    (if lf_kept pps h e then [lf_across h] else [])
  else bits_at (rbsp h) (after_sao sps h) (pos_end h - after_sao sps h).
Definition header_bits (sps : Sps) (pps : Pps) (h : SliceHeader) (e : HeaderEdit) : list bool :=
  [e_first e] ++ bits_at (rbsp h) 1 (pos_after_pps_id h - 1) ++ address_bits sps pps e ++
  sao_part sps h e ++ tail_part sps pps h e.

Lemma put_zeros_replicate w n bs : wr_ok w bs -> wr_ok (put_zeros w n) (bs ++ replicate n false).
Proof. apply put_zeros_ok. Qed.

Lemma write_header_ok sps pps data h e w bs :
  hdr_at sps pps data h -> wr_ok w bs ->
  exists w' k, write_slice_header w h e sps pps = Some w' /\ (k < 8)%nat /\
    wr_ok w' (bs ++ header_bits sps pps h e ++ [true] ++ replicate k false) /\
    ((length bs + length (header_bits sps pps h e) + 1 + k) mod 8 = 0)%nat.
Proof.
  intros Hh Hw. destruct Hh as [Hd _ Hp Ha Hs Hns Hlf Hlp He [Hb1 Hb2] _].
  assert (Hap : (pos_after_pps_id h <= pos_after_address h)%nat) by (destruct (first h); [destruct Ha as [_ ->]; done | by destruct Ha]).
  assert (Has : (pos_after_address h <= after_sao sps h)%nat).
  { unfold after_sao. destruct (sao sps); [destruct (Hs eq_refl) as [? _]; lia | done]. }
  unfold write_slice_header, write_address.
  destruct (wr_copy_ok (rbsp h) 1 (pos_after_pps_id h) (put w (e_first e)) (bs ++ [e_first e])) as (w1 & -> & W1);
    [by apply put_ok | rewrite Hd; lia |]. cbn [mbind option_bind].
  set (w2 := if e_first e then w1 else _).
  assert (W2 : wr_ok w2 ((bs ++ [e_first e]) ++ bits_at (rbsp h) 1 (pos_after_pps_id h - 1) ++ address_bits sps pps e)).
  { unfold w2, address_bits. rewrite app_assoc. destruct (e_first e); [by rewrite app_nil_r |].
    rewrite app_assoc. apply put_bits_ok. destruct (dependent_slices pps); [by apply put_ok | by rewrite app_nil_r]. }
  assert (S3 : exists w3, write_sao w2 h e sps = Some (w3, after_sao sps h) /\
    wr_ok w3 (((bs ++ [e_first e]) ++ bits_at (rbsp h) 1 (pos_after_pps_id h - 1) ++ address_bits sps pps e) ++ sao_part sps h e)).
  { unfold write_sao, sao_part, after_sao, sao_bits in *. destruct (sao sps).
    - destruct (Hs eq_refl) as (Q & _ & _).
      assert (En : (if negb (chroma_format_idc sps =? 0) then 2%nat else 1%nat) = if chroma_format_idc sps =? 0 then 1%nat else 2%nat)
        by (by destruct (chroma_format_idc sps =? 0)). rewrite En. set (n := if chroma_format_idc sps =? 0 then 1%nat else 2%nat) in *.
      destruct (wr_copy_ok (rbsp h) (pos_after_address h) (pos_sao h) w2 _ W2) as (w3 & -> & W3); [rewrite Hd; lia |].
      cbn [mbind option_bind]. destruct (e_clear_sao e).
      + cbn [mbind option_bind]. eexists. split; [done |]. rewrite app_assoc. by apply put_zeros_ok.
      + destruct (wr_copy_ok (rbsp h) (pos_sao h) (pos_sao h + n) w3 _ W3) as (w4 & -> & W4); [rewrite Hd; lia |].
        cbn [mbind option_bind]. eexists. split; [done |]. rewrite app_assoc. by replace (pos_sao h + n - pos_sao h)%nat with n in W4 by lia.
    - eexists. split; [done |]. by rewrite app_nil_r. }
  destruct S3 as (w3 & -> & W3). cbn [mbind option_bind]. unfold write_tail. fold (lf_kept pps h e).
  assert (S4 : exists w4, (if lf_across_present h then
       w ← wr_copy w3 (rbsp h) (after_sao sps h) (pos_lf_across h);
       wr_copy (if lf_kept pps h e then put w (lf_across h) else w) (rbsp h) (pos_lf_across h + 1) (pos_end h)
     else wr_copy w3 (rbsp h) (after_sao sps h) (pos_end h)) = Some w4 /\
    wr_ok w4 ((((bs ++ [e_first e]) ++ bits_at (rbsp h) 1 (pos_after_pps_id h - 1) ++ address_bits sps pps e) ++ sao_part sps h e)
      ++ tail_part sps pps h e)).
  { unfold tail_part. destruct (lf_across_present h).
    - destruct (Hlp eq_refl) as (Q1 & Q2 & _).
      destruct (wr_copy_ok (rbsp h) (after_sao sps h) (pos_lf_across h) w3 _ W3) as (w4 & -> & W4); [rewrite Hd; lia |].
      cbn [mbind option_bind]. rewrite Q2, Nat.add_1_r. unfold wr_copy. rewrite Nat.sub_diag. cbn [copy_bits].
      eexists. split; [done |]. rewrite app_assoc. destruct (lf_kept pps h e); [by apply put_ok | by rewrite app_nil_r].
    - destruct (wr_copy_ok (rbsp h) (after_sao sps h) (pos_end h) w3 _ W3) as (w4 & E & W4); [rewrite Hd; lia |]. by exists w4. }
  destruct S4 as (w4 & -> & W4). cbn [mbind option_bind].
  assert (Eq : (((bs ++ [e_first e]) ++ bits_at (rbsp h) 1 (pos_after_pps_id h - 1) ++ address_bits sps pps e) ++ sao_part sps h e)
      ++ tail_part sps pps h e = bs ++ header_bits sps pps h e).
  { unfold header_bits. by rewrite <- !app_assoc. }
  rewrite Eq in W4. apply (put_ok _ _ true) in W4. destruct (align_zero_ok _ _ W4) as (k & K1 & K2 & K3).
  rewrite !length_app in K2. cbn [length] in K2. eexists _, k. split; [done |]. split; [done |]. split; [| done].
  by rewrite <- !app_assoc in K3.
Qed.

Lemma bits_pre d a n : bits_at d 0 a ++ bits_at d a n = bits_at d 0 (a + n).
Proof. by rewrite bits_at_app. Qed.
Lemma bits_to d a b : (a <= b)%nat -> bits_at d 0 a ++ bits_at d a (b - a) = bits_at d 0 b.
Proof. intros H. rewrite bits_pre. f_equal. lia. Qed.

(** Unedited, the header is the one read. *)
Lemma header_bits_same sps pps data h : hdr_at sps pps data h ->
  header_bits sps pps h (mkHeaderEdit (first h) (address h) false) = bits_at data 0 (pos_end h).
Proof.
  intros [Hd Hf Hp Ha Hs Hns Hlf Hlp He _ _]. unfold header_bits, address_bits, sao_part, tail_part, lf_kept. cbn [e_first e_address e_clear_sao negb andb].
  rewrite <- Hlf. rewrite Hd, Hf in *.
  change [bitn data 0] with (bits_at data 0 1). rewrite app_assoc, bits_to by done.
  rewrite app_assoc.
  assert (E2 : bits_at data 0 (pos_after_pps_id h) ++ (if bitn data 0 then [] else
      (if dependent_slices pps then [false] else []) ++ msb_bits (address h) (Z.to_nat (addr_bits sps))) = bits_at data 0 (pos_after_address h)).
  { destruct (bitn data 0); [destruct Ha as [_ ->]; by rewrite app_nil_r |]. destruct Ha as [Q <-]. by apply bits_to. }
  rewrite E2, app_assoc.
  assert (E3 : bits_at data 0 (pos_after_address h) ++ (if sao sps then
      bits_at data (pos_after_address h) (pos_sao h - pos_after_address h) ++ bits_at data (pos_sao h) (sao_bits sps) else []) =
      bits_at data 0 (after_sao sps h)).
  { unfold after_sao. destruct (sao sps); [| by rewrite app_nil_r]. destruct (Hs eq_refl) as (Q & _ & _).
    by rewrite app_assoc, bits_to, bits_pre. }
  rewrite E3. destruct (lf_across_present h) eqn:El.
  - destruct (Hlp eq_refl) as (Q1 & Q2 & Q3). rewrite <- Q3, Q2, app_assoc, bits_to by done.
    change [bitn data (pos_lf_across h)] with (bits_at data (pos_lf_across h) 1). rewrite bits_pre. f_equal. lia.
  - by apply bits_to.
Qed.

Lemma bitn_cons z l n : bitn (z :: l) (8 + n) = bitn l n.
Proof. unfold bitn. replace (8 + n)%nat with (n + 1 * 8)%nat by lia. rewrite Nat.div_add, Nat.Div0.mod_add by lia. by rewrite Nat.add_1_r. Qed.

Lemma bytes_by_bits (a b : list Z) : bytes_ok a -> bytes_ok b -> length a = length b ->
  (forall n, (n < 8 * length a)%nat -> bitn a n = bitn b n) -> a = b.
Proof.
  revert b. induction a as [|x a IH]; intros [|y b] Ha Hb Hl E; try done. cbn [length] in *.
  apply Forall_cons in Ha as [Hx Ha]. apply Forall_cons in Hb as [Hy Hb].
  f_equal; [| apply IH; auto; intros n Hn; rewrite <- (bitn_cons x a n), <- (bitn_cons y b n); apply E; lia].
  apply Z.bits_inj'. intros n Hn. destruct (Z.lt_ge_cases n 8); [| by rewrite !(in_width_testbit 8) by (done || lia)].
  specialize (E (7 - Z.to_nat n)%nat ltac:(lia)).
  assert (n = 0 \/ n = 1 \/ n = 2 \/ n = 3 \/ n = 4 \/ n = 5 \/ n = 6 \/ n = 7) as [-> | [-> | [-> | [-> | [-> | [-> | [-> | ->]]]]]]] by lia; exact E.
Qed.

(** ** The address is a machine word *)

Lemma br_u_nonneg bits r : 0 <= (br_u bits r).1.
Proof.
  unfold br_u. assert (H : forall n v r, 0 <= v -> 0 <= (u_loop n v r).1); [| by apply H].
  clear r. induction n as [|n IH]; intros v r Hv; cbn [u_loop]; [done |].
  destruct (d_ r !! _) as [b|]; [| done]. apply IH. apply Z.lor_nonneg. split; [apply wrap_range; lia |].
  unfold bit_at. apply Z.land_nonneg. by right.
Qed.

Lemma address_nonneg nal sps pps h : parse_slice_header nal sps pps = inr h -> 0 <= address h.
Proof.
  unfold parse_slice_header. destruct (length nal <? 4)%nat; [done |]. destruct (21 <? _); [done |].
  unfold run_parser. destruct (slice_body _ _ _ _ _ _) as [e | [h' r']] eqn:H; [done |]. intros [= <-].
  unfold slice_body in H. cbn zeta in H.
  bstep H f r1 E1. bstep H x2 r2 E2. bstep H idv r3 E3. bstep H x4 r4 E4. bstep H p1 r5 E5. bstep H da r6 E6.
  assert (Hda : 0 <= da.2).
  { destruct f; [by injection E6 as <- <- |]. bstep E6 dep r7 E7. bstep E6 a r8 E8. injection E6 as <- <-. cbn.
    unfold u in E8. injection E8 as E8. pose proof (br_u_nonneg (addr_bits sps) r7) as Hn. by rewrite E8 in Hn. }
  clear E6. repeat (let a := fresh in let r := fresh in let E := fresh in bstep H a r E; clear E).
  by injection H as <- <-.
Qed.
