(* ===== verification/HevcSkipSlice.v ===== *)
(** * HevcSkipSlice: fill slices (common/src/hevc_skip_slice.cpp)

    A fill covers a range of CTUs with skipped coding units: the coding-quadtree walk with
    its context increments, and the NAL unit built from a template's header. *)
From S2P Require Import Prelude Bytes HevcBits HevcPs HevcSlice HevcCabac.
Local Open Scope Z_scope.
Local Open Scope mabur_scope.

Inductive FillBin := kSplit | kSkip | kMergeIdx | kEndOfSlice.
Record FillStep := mkFillStep { kind : FillBin; ctx_inc : Z; value : Z }.

(** ** Grid: the coding units the fill has coded so far, per smallest block *)

Record Grid := mkGrid {
  g_w : Z; g_h : Z; log2_min_ : Z; log2_ctb_ : Z; wctb_ : Z; first_ctb_ : Z; cols_ : Z;
  depth_ : list Z; skip_ : list Z; coded_ : list Z;
}.

Definition new_grid (sps : Sps) (first_ctb : Z) : Grid :=
  let cols := Z.shiftr (width sps) (log2_min_cb sps) in
  let rows := Z.shiftr (height sps) (log2_min_cb sps) in
  let zero := replicate (Z.to_nat (cols * rows)) 0 in
  mkGrid (width sps) (height sps) (log2_min_cb sps) (log2_ctb sps) (pic_w_ctbs sps) first_ctb cols zero zero zero.

Definition idx (g : Grid) (x y : Z) : nat :=
  Z.to_nat (Z.shiftr y (log2_min_ g) * cols_ g + Z.shiftr x (log2_min_ g)).

(** The picture's sides are whole smallest blocks, so [idx] of a point of the picture is a cell. *)
Definition available (g : Grid) (x y : Z) : bool :=
  if (x <? 0) || (y <? 0) || (g_w g <=? x) || (g_h g <=? y) then false
  else
    let ctb := u32 (Z.shiftr y (log2_ctb_ g) * wctb_ g + Z.shiftr x (log2_ctb_ g)) in
    (first_ctb_ g <=? ctb) && negb (nth (idx g x y) (coded_ g) 0 =? 0).
Definition depth_at (g : Grid) (x y : Z) : Z := nth (idx g x y) (depth_ g) 0.
Definition skip_at (g : Grid) (x y : Z) : Z := nth (idx g x y) (skip_ g) 0.

(** [for (z = from; z < upto; z += step)] *)
Fixpoint steps (fuel : nat) (from upto step : Z) : list Z :=
  match fuel with
  | O => []
  | S fuel => if from <? upto then from :: steps fuel (from + step) upto step else []
  end.

Definition mark_cell (g : Grid) (depth x y : Z) : Grid :=
  mkGrid (g_w g) (g_h g) (log2_min_ g) (log2_ctb_ g) (wctb_ g) (first_ctb_ g) (cols_ g)
    (<[idx g x y := u8 depth]> (depth_ g)) (<[idx g x y := 1]> (skip_ g)) (<[idx g x y := 1]> (coded_ g)).

Definition mark (g : Grid) (x0 y0 size depth : Z) : Grid :=
  let step := Z.shiftl 1 (log2_min_ g) in
  foldl (fun g y =>
      foldl (fun g x => mark_cell g depth x y) g (steps (Z.to_nat size) x0 (Z.min (x0 + size) (g_w g)) step))
    g (steps (Z.to_nat size) y0 (Z.min (y0 + size) (g_h g)) step).

(** ** The walk *)

(** ctxInc of the flags at (x0, y0): how many of the left and upper neighbours satisfy [p]. *)
Definition ctx_of (g : Grid) (p : Z -> Z -> bool) (x0 y0 : Z) : Z :=
  b2z (available g (x0 - 1) y0 && p (x0 - 1) y0) + b2z (available g x0 (y0 - 1) && p x0 (y0 - 1)).

Definition walk_leaf (g : Grid) (max_merge x0 y0 size depth : Z) : Grid * list FillStep :=
  let inc := ctx_of g (fun x y => negb (skip_at g x y =? 0)) x0 y0 in
  (mark g x0 y0 size depth,
   mkFillStep kSkip inc 1 :: (if 1 <? max_merge then [mkFillStep kMergeIdx 0 0] else [])).

(** One level per unit of [log2]. *)
Fixpoint walk (fuel : nat) (g : Grid) (max_merge x0 y0 log2 depth : Z) : Grid * list FillStep :=
  match fuel with
  | O => (g, [])
  | S fuel =>
      let size := Z.shiftl 1 log2 in
      if (x0 + size <=? g_w g) && (y0 + size <=? g_h g) && (log2_min_ g <? log2) then
        let inc := ctx_of g (fun x y => depth <? depth_at g x y) x0 y0 in
        let '(g, out) := walk_leaf g max_merge x0 y0 size depth in
        (g, mkFillStep kSplit inc 0 :: out)
      else if log2_min_ g <? log2 then
        let half := Z.shiftr size 1 in
        let '(g, o1) := walk fuel g max_merge x0 y0 (log2 - 1) (depth + 1) in
        let '(g, o2) := if x0 + half <? g_w g then walk fuel g max_merge (x0 + half) y0 (log2 - 1) (depth + 1) else (g, []) in
        let '(g, o3) := if y0 + half <? g_h g then walk fuel g max_merge x0 (y0 + half) (log2 - 1) (depth + 1) else (g, []) in
        let '(g, o4) := if (x0 + half <? g_w g) && (y0 + half <? g_h g)
                        then walk fuel g max_merge (x0 + half) (y0 + half) (log2 - 1) (depth + 1) else (g, []) in
        (g, o1 ++ o2 ++ o3 ++ o4)
      else walk_leaf g max_merge x0 y0 size depth
  end.

Definition fill_ctb (sps : Sps) (max_merge end_ctb ctb : Z) (go : Grid * list FillStep) : Grid * list FillStep :=
  let wctb := pic_w_ctbs sps in
  let x0 := Z.shiftl (ctb mod wctb) (log2_ctb sps) in
  let y0 := Z.shiftl (ctb / wctb) (log2_ctb sps) in
  let '(g, out) := walk (S (Z.to_nat (log2_ctb sps))) go.1 max_merge x0 y0 (log2_ctb sps) 0 in
  (g, go.2 ++ out ++ [mkFillStep kEndOfSlice 0 (if ctb + 1 =? end_ctb then 1 else 0)]).

Definition skip_fill_steps (sps : Sps) (max_num_merge_cand first_ctb end_ctb : Z) : list FillStep :=
  (foldl (fun go ctb => fill_ctb sps max_num_merge_cand end_ctb ctb go) (new_grid sps first_ctb, [])
     (seqZ first_ctb (end_ctb - first_ctb))).2.

(** ** The NAL unit *)

Record Contexts := mkContexts { cx_split : list CabacCtx; cx_skip : list CabacCtx; cx_merge : CabacCtx }.

Definition kSplitInit : list Z := [107; 139; 126].
Definition kSkipInit : list Z := [197; 185; 201].

Definition init_type (t : SliceHeader) : Z :=
  if slice_type t =? 1 then (if cabac_init_flag t then 2 else 1) else (if cabac_init_flag t then 1 else 2).

Definition init_contexts (t : SliceHeader) : Contexts :=
  mkContexts (map (fun v => init_cabac_ctx v (slice_qp_y t)) kSplitInit)
    (map (fun v => init_cabac_ctx v (slice_qp_y t)) kSkipInit)
    (init_cabac_ctx (if init_type t =? 1 then 122 else 137) (slice_qp_y t)).

Definition ctx_nth (l : list CabacCtx) (i : Z) : CabacCtx := nth (Z.to_nat i) l (mkCabacCtx 0 0).

Definition code_step (s : FillStep) (cx : CabacEncoder * Contexts) : CabacEncoder * Contexts :=
  let '(c, x) := cx in
  match kind s with
  | kSplit =>
      let '(c, y) := encode c (ctx_nth (cx_split x) (ctx_inc s)) (value s) in
      (c, mkContexts (<[Z.to_nat (ctx_inc s) := y]> (cx_split x)) (cx_skip x) (cx_merge x))
  | kSkip =>
      let '(c, y) := encode c (ctx_nth (cx_skip x) (ctx_inc s)) (value s) in
      (c, mkContexts (cx_split x) (<[Z.to_nat (ctx_inc s) := y]> (cx_skip x)) (cx_merge x))
  | kMergeIdx =>
      let '(c, y) := encode c (cx_merge x) (value s) in (c, mkContexts (cx_split x) (cx_skip x) y)
  | kEndOfSlice => (terminate c (value s), x)
  end.

Definition code_steps (w : BitWriter) (t : SliceHeader) (l : list FillStep) : BitWriter :=
  w_ (foldl (fun cx s => code_step s cx) (new_cabac w, init_contexts t) l).1.

(** The outer [None] is a header copy past the template's payload. *)
Definition make_skip_slice (sps : Sps) (pps : Pps) (tmpl : SliceHeader) (first_ctb end_ctb : Z)
    : option (option (list Z)) :=
  if slice_type tmpl =? 2 then Some None
  else if (end_ctb <=? first_ctb) || (u32 (pic_w_ctbs sps * pic_h_ctbs sps) <? end_ctb) then Some None
  else
    w ← write_slice_header new_writer tmpl (mkHeaderEdit (first_ctb =? 0) first_ctb true) sps pps;
    let w := code_steps w tmpl (skip_fill_steps sps (max_num_merge_cand tmpl) first_ctb end_ctb) in
    Some (Some ([0; 0; 0; 1; nal_hdr0 tmpl; nal_hdr1 tmpl] ++ escape (buf_ (align_zero w)))).
