(* ===== verification/HevcCabacSound.v ===== *)
(** * HevcCabacSound: the arithmetic code reads back

    The arithmetic decoder of H.265 9.3.4.3 is the specification.  The encoder's state stands
    for an interval of bit strings; every bin narrows it, and the string finally written lies
    in all of them. *)
From S2P Require Import Prelude Bytes HevcBits HevcPs HevcSlice HevcCabac HevcSkipSlice.
Local Open Scope Z_scope.
Local Open Scope mabur_scope.

(** ** The decoder *)

Record Dec := mkDec { d_range : Z; d_off : Z; d_in : list bool }.

Fixpoint dec_renorm (fuel : nat) (d : Dec) : option Dec :=
  match fuel with
  | O => Some d
  | S fuel =>
      if d_range d <? 256 then
        match d_in d with
        | [] => None
        | b :: l => dec_renorm fuel (mkDec (2 * d_range d) (2 * d_off d + b2z b) l)
        end
      else Some d
  end.

Definition dec_start (l : list bool) : option Dec :=
  if (length l <? 9)%nat then None else Some (mkDec 510 (bits_val (take 9 l)) (drop 9 l)).

Definition dec_lps (d : Dec) (x : CabacCtx) : Z :=
  nth (Z.to_nat (Z.land (Z.shiftr (d_range d) 6) 3)) (nth (Z.to_nat (state x)) kRangeTabLps []) 0.

Definition dec_bin (d : Dec) (x : CabacCtx) : option (Z * Dec * CabacCtx) :=
  let lps := dec_lps d x in
  let range := d_range d - lps in
  if range <=? d_off d then
    d' ← dec_renorm 7 (mkDec lps (d_off d - range) (d_in d));
    Some (1 - mps x, d',
          mkCabacCtx (nth (Z.to_nat (state x)) kTransIdxLps 0) (if state x =? 0 then 1 - mps x else mps x))
  else
    d' ← dec_renorm 7 (mkDec range (d_off d) (d_in d));
    Some (mps x, d', if state x <? 62 then mkCabacCtx (state x + 1) (mps x) else x).

Definition dec_terminate (d : Dec) : option (Z * Dec) :=
  let range := d_range d - 2 in
  if range <=? d_off d then Some (1, d)
  else d' ← dec_renorm 7 (mkDec range (d_off d) (d_in d)); Some (0, d').

(** The bin of a step, with the step's context. *)
Definition dec_step (s : FillStep) (d : Dec) (x : Contexts) : option (Z * Dec * Contexts) :=
  match kind s with
  | kSplit =>
      '(v, d, y) ← dec_bin d (ctx_nth (cx_split x) (ctx_inc s));
      Some (v, d, mkContexts (<[Z.to_nat (ctx_inc s) := y]> (cx_split x)) (cx_skip x) (cx_merge x))
  | kSkip =>
      '(v, d, y) ← dec_bin d (ctx_nth (cx_skip x) (ctx_inc s));
      Some (v, d, mkContexts (cx_split x) (<[Z.to_nat (ctx_inc s) := y]> (cx_skip x)) (cx_merge x))
  | kMergeIdx =>
      '(v, d, y) ← dec_bin d (cx_merge x); Some (v, d, mkContexts (cx_split x) (cx_skip x) y)
  | kEndOfSlice => '(v, d) ← dec_terminate d; Some (v, d, x)
  end.

(** The bins of a list of steps, and what is left of the input. *)
Fixpoint dec_steps (l : list FillStep) (d : Dec) (x : Contexts) : option (list Z * list bool) :=
  match l with
  | [] => Some ([], d_in d)
  | s :: l => '(v, d, x) ← dec_step s d x; '(vs, rest) ← dec_steps l d x; Some (v :: vs, rest)
  end.

(** ** Contexts and the tables *)

Definition ctx_ok (x : CabacCtx) : Prop := 0 <= state x < 64 /\ (mps x = 0 \/ mps x = 1).
Definition contexts_ok (x : Contexts) : Prop :=
  length (cx_split x) = 3%nat /\ length (cx_skip x) = 3%nat /\
  Forall ctx_ok (cx_split x) /\ Forall ctx_ok (cx_skip x) /\ ctx_ok (cx_merge x).

Lemma lps_table : forallb (fun st => forallb (fun r =>
    let lps := nth (Z.to_nat (Z.land (Z.shiftr r 6) 3)) (nth (Z.to_nat st) kRangeTabLps []) 0 in
    (2 <=? lps) && (lps <? 256) && (2 <=? r - lps)) (seqZ 256 256)) (seqZ 0 64) = true.
Proof. vm_compute. reflexivity. Qed.

Lemma trans_table : forallb (fun i => let v := nth (Z.to_nat i) kTransIdxLps 0 in (0 <=? v) && (v <? 64)) (seqZ 0 64) = true.
Proof. vm_compute. reflexivity. Qed.

Lemma forallb_seqZ (p : Z -> bool) lo n z : forallb p (seqZ lo n) = true -> lo <= z < lo + n -> p z = true.
Proof. intros H Hz. rewrite forallb_forall in H. apply H. by apply list_elem_of_In, elem_of_seqZ. Qed.

Lemma lps_range r x : ctx_ok x -> 256 <= r < 512 ->
  let lps := nth (Z.to_nat (Z.land (Z.shiftr r 6) 3)) (nth (Z.to_nat (state x)) kRangeTabLps []) 0 in
  2 <= lps < 256 /\ 2 <= r - lps.
Proof.
  intros [Hs _] Hr. pose proof (forallb_seqZ _ _ _ (state x) lps_table ltac:(lia)) as H.
  apply (forallb_seqZ _ _ _ r) in H; [| lia]. cbn zeta in *.
  apply andb_prop in H as [H H3]. apply andb_prop in H as [H1 H2]. lia.
Qed.

Lemma trans_range x : ctx_ok x -> 0 <= nth (Z.to_nat (state x)) kTransIdxLps 0 < 64.
Proof.
  intros [Hs _]. pose proof (forallb_seqZ _ _ _ (state x) trans_table ltac:(lia)) as H. cbn zeta in H.
  apply andb_prop in H as [H1 H2]. lia.
Qed.

(** ** The encoder's interval *)

(** [c] has written [out] behind [pre]; with the bit dropped at the start and the pending
    ones it stands for the interval [lo, lo + range) of strings of [10 + k] bits. *)
Record enc_at (c : CabacEncoder) (pre out : list bool) (k : nat) (lo : Z) : Prop := {
  ea_wr : wr_ok (w_ c) (pre ++ out);
  ea_first : first_ c = true -> out = [];
  ea_k : Z.of_nat k = Z.of_nat (length (if first_ c then [] else false :: out)) + outstanding_ c;
  ea_out : 0 <= outstanding_ c;
  ea_lo : lo = bits_val out * 2 ^ (outstanding_ c + 10) + (2 ^ outstanding_ c - 1) * 512 + low_ c;
  ea_low : 0 <= low_ c;
  ea_fit : low_ c + range_ c <= 1024;
  ea_range : 2 <= range_ c;
  ea_top : lo + range_ c <= 510 * 2 ^ Z.of_nat k;
}.

Lemma bits_val_replicate b n : bits_val (replicate n b) = if b : bool then 2 ^ Z.of_nat n - 1 else 0.
Proof.
  induction n as [|n IH]; [by destruct b |]. rewrite replicate_S_end, bits_val_snoc, IH.
  rewrite Nat2Z.inj_succ, Z.pow_succ_r by lia. destruct b; unfold b2z; lia.
Qed.

Lemma put_times_ok w bs b n : wr_ok w bs -> wr_ok (put_times w b n) (bs ++ replicate n b).
Proof.
  revert w bs. induction n as [|n IH]; intros w bs Hw; cbn [put_times replicate]; [by rewrite app_nil_r |].
  rewrite cons_middle, app_assoc. by apply IH, put_ok.
Qed.

(** The bits a pending bit resolves to. *)
Definition resolved (c : CabacEncoder) (b : bool) : list bool :=
  (if first_ c then [] else [b]) ++ replicate (Z.to_nat (outstanding_ c)) (negb b).

Lemma put_bit_wr c b pre out : wr_ok (w_ c) (pre ++ out) -> wr_ok (w_ (put_bit c b)) (pre ++ out ++ resolved c b).
Proof.
  intros Hw. unfold put_bit, resolved. cbn [w_]. rewrite !app_assoc. apply put_times_ok.
  destruct (first_ c); [by rewrite app_nil_r | by apply put_ok].
Qed.

(** Resolving keeps the value, when the dropped first bit is a zero. *)
Lemma resolved_val c b out :
  (first_ c = true -> b = false /\ out = []) -> 0 <= outstanding_ c ->
  bits_val (out ++ resolved c b) = bits_val out * 2 ^ (outstanding_ c + 1) +
    (if b then 2 ^ outstanding_ c else 2 ^ outstanding_ c - 1).
Proof.
  intros Hf Ho. unfold resolved. destruct (first_ c).
  - destruct Hf as [-> ->]; [done |]. cbn [app]. rewrite bits_val_replicate. cbn [negb].
    change (bits_val []) with 0. rewrite Z2Nat.id by done. lia.
  - rewrite app_assoc, bits_val_app, bits_val_snoc, length_replicate, bits_val_replicate, Z2Nat.id by done.
    rewrite Z.pow_add_r by lia. destruct b; unfold b2z; cbn [negb]; lia.
Qed.

Lemma resolved_length c b : 0 <= outstanding_ c ->
  Z.of_nat (length (resolved c b)) = (if first_ c then 0 else 1) + outstanding_ c.
Proof. intros H. unfold resolved. rewrite length_app, length_replicate. destruct (first_ c); cbn [length]; lia. Qed.

Lemma enc_first_low c pre out k lo : enc_at c pre out k lo -> first_ c = true -> low_ c < 512.
Proof.
  intros H Hf. destruct H as [_ H1 H2 H3 H4 H5 H6 H7 H8]. rewrite Hf in H2. rewrite (H1 Hf) in H4.
  change (bits_val []) with 0 in H4. cbn [length] in H2. assert (E : Z.of_nat k = outstanding_ c) by lia.
  rewrite E in H8. pose proof (Z.pow_pos_nonneg 2 (outstanding_ c) ltac:(lia) H3). nia.
Qed.

Lemma renorm_step_at c pre out k lo :
  enc_at c pre out k lo -> range_ c < 256 -> Z.of_nat k < 2 ^ 31 ->
  exists out', enc_at (renorm_step c) pre out' (S k) (2 * lo) /\ range_ (renorm_step c) = 2 * range_ c.
Proof.
  intros H Hr Hk. pose proof (enc_first_low c pre out k lo H) as Hfl.
  destruct H as [H0 H1 H2 H3 H4 H5 H6 H7 H8]. unfold renorm_step.
  pose proof (Z.pow_pos_nonneg 2 (outstanding_ c) ltac:(lia) H3) as Hp.
  assert (Htop : forall r, r = 2 * range_ c -> 2 * lo + r <= 510 * 2 ^ Z.of_nat (S k)).
  { intros r ->. rewrite Nat2Z.inj_succ, Z.pow_succ_r by lia. lia. }
  assert (D : forall z, 0 <= z < 1024 -> u32 (Z.shiftl z 1) = 2 * z).
  { intros z Hz. rewrite Z.shiftl_mul_pow2 by lia. rewrite wrap_small; [lia | mlia]. }
  assert (F10 : 2 ^ (outstanding_ c + 10) = 2 ^ outstanding_ c * 1024) by (rewrite Z.pow_add_r by lia; lia).
  assert (F1 : 2 ^ (outstanding_ c + 1) = 2 ^ outstanding_ c * 2) by (rewrite Z.pow_add_r by lia; lia).
  (* a bit leaves *)
  assert (B : forall b c', (b = true -> 512 <= low_ c) -> (b = false -> low_ c < 256) ->
    c' = set_low c (low_ c - (if b then 512 else 0)) (range_ c) (outstanding_ c) ->
    let p := put_bit c' b in
    enc_at (set_low p (u32 (Z.shiftl (low_ p) 1)) (u32 (Z.shiftl (range_ p) 1)) (outstanding_ p)) pre
      (out ++ resolved c b) (S k) (2 * lo)).
  { intros b c' Hb1 Hb0 ->. cbn zeta. cbn [low_ range_ outstanding_ put_bit set_low].
    assert (Hlow : 0 <= low_ c - (if b then 512 else 0) /\ low_ c - (if b then 512 else 0) + range_ c <= 512).
    { destruct b; [specialize (Hb1 eq_refl) | specialize (Hb0 eq_refl)]; lia. }
    assert (Hres : first_ c = true -> b = false /\ out = []).
    { intros Hf. split; [| by apply H1]. destruct b; [| done]. specialize (Hb1 eq_refl). specialize (Hfl Hf). lia. }
    rewrite !D by lia. split; cbn [w_ first_ outstanding_ low_ range_ set_low put_bit].
    - apply (put_bit_wr (set_low c (low_ c - (if b then 512 else 0)) (range_ c) (outstanding_ c)) b pre out H0).
    - done.
    - cbn [length]. rewrite length_app. rewrite !Nat2Z.inj_succ, Nat2Z.inj_add.
      rewrite resolved_length by done. destruct (first_ c); cbn [length] in H2; [rewrite (H1 eq_refl); cbn |]; lia.
    - done.
    - rewrite resolved_val by done. rewrite H4, F10, F1. change (2 ^ (0 + 10)) with 1024. change (2 ^ 0) with 1.
      destruct b; lia.
    - lia.
    - lia.
    - lia.
    - by apply Htop. }
  destruct (Z.ltb_spec (low_ c) 256) as [L | L].
  - exists (out ++ resolved c false). split; [apply (B false c); [done | done |] | cbn; rewrite D; lia].
    destruct c. cbn. by rewrite Z.sub_0_r.
  - destruct (Z.leb_spec 512 (low_ c)) as [L2 | L2].
    + exists (out ++ resolved c true). split; [apply (B true _); [done | lia | done] | cbn; rewrite D; lia].
    + exists out. cbn [low_ range_ outstanding_ set_low]. rewrite !D by lia.
      rewrite (wrap_small 32 (outstanding_ c + 1)).
      2: { unfold in_width. destruct (first_ c); cbn [length] in H2; eval_pow2; lia. }
      split; [| done]. split; cbn [w_ first_ outstanding_ low_ range_ set_low]; try done; try lia.
      * assert (F11 : 2 ^ (outstanding_ c + 1 + 10) = 2 ^ outstanding_ c * 2048) by (rewrite !Z.pow_add_r by lia; lia).
        rewrite H4, F10, F11, F1. lia.
      * by apply Htop.
Qed.

Fixpoint shifts (fuel : nat) (r : Z) : nat :=
  match fuel with O => O | S fuel => if r <? 256 then S (shifts fuel (2 * r)) else O end.

Lemma renorm_at fuel c pre out k lo :
  enc_at c pre out k lo -> range_ c < 512 -> 256 <= range_ c * 2 ^ Z.of_nat fuel -> Z.of_nat (k + fuel) < 2 ^ 31 ->
  let j := shifts fuel (range_ c) in
  exists out', enc_at (renorm_loop fuel c) pre out' (k + j) (lo * 2 ^ Z.of_nat j) /\
    range_ (renorm_loop fuel c) = range_ c * 2 ^ Z.of_nat j /\ 256 <= range_ (renorm_loop fuel c) < 512.
Proof.
  revert c out k lo. induction fuel as [|fuel IH]; intros c out k lo H Hr Hf Hk; cbn [renorm_loop shifts].
  { exists out. rewrite Nat.add_0_r, Z.mul_1_r. change (2 ^ Z.of_nat 0) with 1 in *. split; [done |]. lia. }
  destruct (Z.ltb_spec (range_ c) 256) as [L | L].
  - destruct (renorm_step_at c pre out k lo H L) as (out1 & H1 & R1); [lia |].
    rewrite Nat2Z.inj_succ, Z.pow_succ_r in Hf by lia.
    destruct (IH (renorm_step c) out1 (S k) (2 * lo) H1) as (out2 & H2 & R2 & B2); rewrite ?R1; [lia.. |].
    rewrite R1 in H2, R2. exists out2. rewrite Nat2Z.inj_succ, Z.pow_succ_r by lia.
    replace (k + S (shifts fuel (2 * range_ c)))%nat with (S k + shifts fuel (2 * range_ c))%nat by lia.
    split; [by rewrite Z.mul_assoc, (Z.mul_comm lo 2) |]. split; [rewrite R2; lia | done].
  - exists out. rewrite Nat.add_0_r, !Z.mul_1_r. split; [done |]. lia.
Qed.

Lemma dec_renorm_at fuel r off l :
  (shifts fuel r <= length l)%nat ->
  let j := shifts fuel r in
  dec_renorm fuel (mkDec r off l) =
  Some (mkDec (r * 2 ^ Z.of_nat j) (off * 2 ^ Z.of_nat j + bits_val (take j l)) (drop j l)).
Proof.
  revert r off l. induction fuel as [|fuel IH]; intros r off l Hl; cbn [dec_renorm shifts].
  { cbn. by rewrite !Z.mul_1_r, Z.add_0_r. }
  cbn [d_range d_in d_off]. cbn [shifts] in Hl. destruct (r <? 256).
  2: { cbn. by rewrite !Z.mul_1_r, Z.add_0_r. }
  destruct l as [|b l]; [cbn in Hl; lia |]. rewrite IH by (cbn in Hl; lia). cbn [take drop].
  change (b :: take (shifts fuel (2 * r)) l) with ([b] ++ take (shifts fuel (2 * r)) l).
  rewrite bits_val_app, length_take_le by (cbn in Hl; lia). change (bits_val [b]) with (b2z b).
  rewrite Nat2Z.inj_succ, Z.pow_succ_r by lia. f_equal. f_equal; lia.
Qed.

(** ** One bin on both sides *)

Lemma narrow_at c pre out k lo d r :
  enc_at c pre out k lo -> 0 <= d -> 2 <= r -> d + r <= range_ c ->
  enc_at (set_low c (low_ c + d) r (outstanding_ c)) pre out k (lo + d).
Proof. intros [H0 H1 H2 H3 H4 H5 H6 H7 H8] Hd Hr Hf. split; cbn [w_ first_ outstanding_ low_ range_ set_low]; try done; lia. Qed.

(** Part [d], [r] of the interval, renormalised; the decoder follows on every string whose
    longer prefix lies in the new interval. *)
Lemma narrowed c pre out k lo d r :
  enc_at c pre out k lo -> 0 <= d -> 2 <= r < 512 -> d + r <= range_ c -> range_ c < 512 -> Z.of_nat (k + 7) < 2 ^ 31 ->
  let c' := renorm (set_low c (u32 (low_ c + d)) r (outstanding_ c)) in
  let j := shifts 7 r in
  exists out', enc_at c' pre out' (k + j) ((lo + d) * 2 ^ Z.of_nat j) /\ range_ c' = r * 2 ^ Z.of_nat j /\
    256 <= range_ c' < 512 /\ (j <= 7)%nat /\
    forall s, (9 + (k + j) <= length s)%nat ->
      (lo + d) * 2 ^ Z.of_nat j <= bits_val (take (9 + (k + j)) s) < (lo + d) * 2 ^ Z.of_nat j + range_ c' ->
      lo + d <= bits_val (take (9 + k) s) < lo + d + r /\
      dec_renorm 7 (mkDec r (bits_val (take (9 + k) s) - lo - d) (drop (9 + k) s)) =
        Some (mkDec (range_ c') (bits_val (take (9 + (k + j)) s) - (lo + d) * 2 ^ Z.of_nat j) (drop (9 + (k + j)) s)).
Proof.
  intros H Hd Hr Hfit H512 Hk c' j. subst c'.
  assert (E : u32 (low_ c + d) = low_ c + d).
  { apply wrap_small. destruct H as [_ _ _ _ _ ? ? _ _]. mlia. }
  rewrite E. pose proof (narrow_at c pre out k lo d r H Hd ltac:(lia) Hfit) as H1.
  destruct (renorm_at 7 _ pre out k (lo + d) H1) as (out' & H2 & R2 & B2); [cbn; lia | cbn [range_ set_low]; cbn; lia | done |].
  cbn [range_ set_low] in H2, R2. fold j in H2, R2. exists out'. unfold renorm.
  split; [done |]. split; [done |]. split; [done |].
  assert (Hj : (j <= 7)%nat).
  { assert (G : forall f z, (shifts f z <= f)%nat); [| apply G]. intros f. induction f as [|f IH]; intros z; cbn; [lia |].
    destruct (z <? 256); [specialize (IH (2 * z)); lia | lia]. }
  split; [done |]. intros s Hs HS. rewrite R2 in HS |- *.
  assert (Esplit : take (9 + (k + j)) s = take (9 + k) s ++ take j (drop (9 + k) s)).
  { by rewrite take_take_drop, Nat.add_assoc. }
  rewrite Esplit, bits_val_app, length_take_le in HS |- * by (rewrite length_drop; lia).
  pose proof (bits_val_range (take j (drop (9 + k) s))) as Hv. rewrite length_take_le in Hv by (rewrite length_drop; lia).
  set (P := 2 ^ Z.of_nat j) in *. set (S1 := bits_val (take (9 + k) s)) in *. set (v := bits_val (take j (drop (9 + k) s))) in *.
  assert (0 < P) by (apply Z.pow_pos_nonneg; lia). split; [nia |].
  pose proof (dec_renorm_at 7 r (S1 - lo - d) (drop (9 + k) s)) as D. cbn zeta in D. fold j in D. rewrite D by (rewrite length_drop; lia).
  fold P v. f_equal. f_equal; [lia |]. by rewrite drop_drop, Nat.add_assoc.
Qed.

Lemma range_lps_dec c d x : d_range d = range_ c -> range_lps c x = dec_lps d x.
Proof. intros E. unfold range_lps, dec_lps. by rewrite E. Qed.

Lemma encode_reads c x bin pre out k lo :
  enc_at c pre out k lo -> 256 <= range_ c < 512 -> ctx_ok x -> bin = 0 \/ bin = 1 -> Z.of_nat (k + 7) < 2 ^ 31 ->
  exists out' j lo', let c' := (encode c x bin).1 in
    enc_at c' pre out' (k + j) lo' /\ 256 <= range_ c' < 512 /\ (j <= 7)%nat /\ ctx_ok (encode c x bin).2 /\
    forall s, (9 + (k + j) <= length s)%nat -> lo' <= bits_val (take (9 + (k + j)) s) < lo' + range_ c' ->
      lo <= bits_val (take (9 + k) s) < lo + range_ c /\
      dec_bin (mkDec (range_ c) (bits_val (take (9 + k) s) - lo) (drop (9 + k) s)) x =
        Some (bin, mkDec (range_ c') (bits_val (take (9 + (k + j)) s) - lo') (drop (9 + (k + j)) s), (encode c x bin).2).
Proof.
  intros H Hr Hx Hbin Hk. pose proof (lps_range (range_ c) x Hx Hr) as L. cbn zeta in L.
  unfold encode. rewrite (range_lps_dec c (mkDec (range_ c) 0 []) x eq_refl). unfold dec_bin, dec_lps. cbn [d_range d_off d_in].
  set (lps := nth (Z.to_nat (Z.land (Z.shiftr (range_ c) 6) 3)) (nth (Z.to_nat (state x)) kRangeTabLps []) 0) in *.
  rewrite (wrap_small 32 (range_ c - lps)) by mlia.
  destruct Hx as [Hs Hm]. pose proof (trans_range x (conj Hs Hm)) as Ht.
  destruct (Z.eqb_spec bin (mps x)) as [E | E]; cbn [negb fst snd].
  - destruct (narrowed c pre out k lo 0 (range_ c - lps) H) as (out' & H1 & R1 & B1 & J1 & D1); [lia.. |].
    assert (E32 : u32 (low_ c + 0) = low_ c).
    { rewrite Z.add_0_r. apply wrap_small. destruct H as [_ _ _ _ _ ? ? _ _]. mlia. }
    rewrite E32 in H1, R1, B1, D1. rewrite (Z.add_0_r lo) in H1, D1. eexists out', _, _. split; [exact H1 |]. split; [done |]. split; [done |]. split.
    { destruct (Z.ltb_spec (state x) 62); split; cbn; lia || done. }
    intros s Hl HS. destruct (D1 s Hl HS) as [G1 G2]. split; [lia |].
    rewrite (proj2 (Z.leb_gt _ _)) by lia. rewrite Z.sub_0_r in G2. rewrite G2. cbn [mbind option_bind]. by rewrite E.
  - destruct (narrowed c pre out k lo (range_ c - lps) lps H) as (out' & H1 & R1 & B1 & J1 & D1); [lia.. |].
    eexists out', _, _. split; [exact H1 |]. split; [done |]. split; [done |].
    assert (Em : u8 (1 - mps x) = 1 - mps x) by (destruct Hm as [-> | ->]; done). rewrite Em. split.
    { split; cbn [state mps]; [exact Ht |]. destruct (state x =? 0); [| exact Hm]. destruct Hm as [-> | ->]; auto. }
    intros s Hl HS. destruct (D1 s Hl HS) as [G1 G2]. split; [lia |].
    rewrite (proj2 (Z.leb_le _ _)) by lia.
    rewrite G2. cbn [mbind option_bind]. do 3 f_equal. lia.
Qed.

Lemma terminate0_reads c pre out k lo :
  enc_at c pre out k lo -> 256 <= range_ c < 512 -> Z.of_nat (k + 7) < 2 ^ 31 ->
  exists out' j lo', let c' := terminate c 0 in
    enc_at c' pre out' (k + j) lo' /\ 256 <= range_ c' < 512 /\ (j <= 7)%nat /\
    forall s, (9 + (k + j) <= length s)%nat -> lo' <= bits_val (take (9 + (k + j)) s) < lo' + range_ c' ->
      lo <= bits_val (take (9 + k) s) < lo + range_ c /\
      dec_terminate (mkDec (range_ c) (bits_val (take (9 + k) s) - lo) (drop (9 + k) s)) =
        Some (0, mkDec (range_ c') (bits_val (take (9 + (k + j)) s) - lo') (drop (9 + (k + j)) s)).
Proof.
  intros H Hr Hk. unfold terminate, dec_terminate. cbn [Z.eqb d_range d_off d_in].
  rewrite (wrap_small 32 (range_ c - 2)) by mlia.
  destruct (narrowed c pre out k lo 0 (range_ c - 2) H) as (out' & H1 & R1 & B1 & J1 & D1); [lia.. |].
  assert (E32 : u32 (low_ c + 0) = low_ c).
  { rewrite Z.add_0_r. apply wrap_small. destruct H as [_ _ _ _ _ ? ? _ _]. mlia. }
  rewrite E32 in H1, R1, B1, D1. rewrite (Z.add_0_r lo) in H1, D1. eexists out', _, _. split; [exact H1 |]. split; [done |]. split; [done |].
  intros s Hl HS. destruct (D1 s Hl HS) as [G1 G2]. split; [lia |].
  rewrite (proj2 (Z.leb_gt _ _)) by lia. rewrite Z.sub_0_r in G2. by rewrite G2.
Qed.

Lemma lor1_range q : 0 <= q < 4 -> 0 <= Z.lor q 1 < 4 /\ q <= Z.lor q 1 <= q + 1.
Proof. intros Hq. assert (q = 0 \/ q = 1 \/ q = 2 \/ q = 3) as [-> | [-> | [-> | ->]]] by lia; decided. Qed.

(** The flush: its last bit is the stop bit, and the string it completes is in the interval. *)
Lemma terminate1_reads c pre out k lo :
  enc_at c pre out k lo -> 256 <= range_ c < 512 -> Z.of_nat (k + 7) < 2 ^ 31 ->
  exists s, wr_ok (w_ (terminate c 1)) (pre ++ s) /\ length s = (9 + k)%nat /\ last s = Some true /\
    lo <= bits_val s < lo + range_ c /\ range_ c - 2 <= bits_val s - lo.
Proof.
  intros H Hr Hk. unfold terminate. cbn [Z.eqb]. rewrite (wrap_small 32 (range_ c - 2)) by mlia.
  destruct (narrowed c pre out k lo (range_ c - 2) 2 H) as (out2 & H2 & R2 & B2 & _ & _); [lia.. |].
  set (c2 := renorm _) in *. change (shifts 7 2) with 7%nat in *. change (2 ^ Z.of_nat 7) with 128 in *.
  pose proof (enc_first_low c2 _ _ _ _ H2) as Hfl. destruct H2 as [A0 A1 A2 A3 A4 A5 A6 A7 A8].
  set (low := low_ c2) in *. set (q := Z.land (Z.shiftr low 7) 3).
  set (b := negb (Z.land (Z.shiftr low 9) 1 =? 0)).
  assert (Hq : q = low / 128 mod 4) by (unfold q; change 3 with (Z.ones 2); rewrite Z.land_ones, Z.shiftr_div_pow2 by lia; done).
  assert (Hb : b2z b = low / 512).
  { unfold b. change 1 with (Z.ones 1) at 1. rewrite Z.land_ones, Z.shiftr_div_pow2 by lia. change (2 ^ 9) with 512. change (2 ^ 1) with 2.
    assert (0 <= low / 512 < 2) by (Z.to_euclidean_division_equations; lia). rewrite Z.mod_small by lia.
    destruct (Z.eqb_spec (low / 512) 0); cbn; lia. }
  change (low_ (put_bit c2 b)) with low. fold q.
  exists (out2 ++ resolved c2 b ++ msb_bits (Z.lor q 1) 2).
  assert (Hlast : msb_bits (Z.lor q 1) 2 = [Z.testbit q 1; true]).
  { rewrite !msb_bits_S. cbn. rewrite !Z.lor_spec. by rewrite orb_false_r, orb_true_r. }
  assert (Hlen : length (out2 ++ resolved c2 b) = (7 + k)%nat).
  { apply Nat2Z.inj. rewrite length_app, Nat2Z.inj_add, resolved_length by done.
    destruct (first_ c2); [rewrite (A1 eq_refl) |]; cbn [length] in *; lia. }
  assert (Hval : 512 * bits_val (out2 ++ resolved c2 b) + low - 512 * b2z b = (lo + (range_ c - 2)) * 128).
  { rewrite resolved_val; [| | done].
    - rewrite A4, !Z.pow_add_r by lia. destruct b; unfold b2z; lia.
    - intros Hf. split; [| by apply A1]. specialize (Hfl Hf). fold low in Hfl. destruct b; [unfold b2z in Hb; exfalso; Z.to_euclidean_division_equations; lia | done]. }
  set (V := bits_val (out2 ++ resolved c2 b)) in *.
  assert (Hq4 : 4 * V + q = lo + (range_ c - 2)) by (rewrite Hq; Z.to_euclidean_division_equations; lia).
  assert (Hfin : bits_val (out2 ++ resolved c2 b ++ msb_bits (Z.lor q 1) 2) = 4 * V + Z.lor q 1).
  { rewrite app_assoc, bits_val_app, msb_bits_length. fold V. unfold msb_bits. rewrite bits_val_testbit; [cbn; lia |].
    change (2 ^ Z.of_nat 2) with 4. apply lor1_range. rewrite Hq. apply Z.mod_pos_bound. lia. }
  assert (Hor : q <= Z.lor q 1 <= q + 1) by (apply lor1_range; rewrite Hq; apply Z.mod_pos_bound; lia).
  split; [| split; [| split; [| split]]].
  - cbn [w_]. unfold wr_u. change (Z.to_nat 2) with 2%nat.
    replace (pre ++ out2 ++ resolved c2 b ++ msb_bits (Z.lor q 1) 2) with ((pre ++ out2 ++ resolved c2 b) ++ msb_bits (Z.lor q 1) 2) by (by rewrite <- !app_assoc).
    apply put_bits_ok. by apply put_bit_wr.
  - rewrite app_assoc, length_app, Hlen, msb_bits_length. lia.
  - rewrite Hlast, app_assoc. change [Z.testbit q 1; true] with ([Z.testbit q 1] ++ [true]). by rewrite app_assoc, last_snoc.
  - rewrite Hfin. lia.
  - rewrite Hfin. lia.
Qed.

(** ** A whole slice *)

Definition step_ok (s : FillStep) : Prop := 0 <= ctx_inc s < 3 /\ (value s = 0 \/ value s = 1).

(** The data of a slice: only its last step ends it. *)
Fixpoint slice_steps (l : list FillStep) : Prop :=
  match l with
  | [] => False
  | s :: l =>
      step_ok s /\ match l with
                   | [] => kind s = kEndOfSlice /\ value s = 1
                   | _ => (kind s = kEndOfSlice -> value s = 0) /\ slice_steps l
                   end
  end.

Lemma ctx_nth_ok l i : Forall ctx_ok l -> length l = 3%nat -> 0 <= i < 3 -> ctx_ok (ctx_nth l i).
Proof. intros Hf Hl Hi. rewrite List.Forall_forall in Hf. apply Hf, nth_In. lia. Qed.

Lemma init_cabac_ok v qp : ctx_ok (init_cabac_ctx v qp).
Proof.
  unfold init_cabac_ctx, ctx_ok. cbn zeta. cbn [state mps]. set (z := Z.shiftr _ 4 + _).
  assert (Hc : 1 <= clamp z 1 126 <= 126) by (unfold clamp; repeat case_Zb; lia).
  destruct (Z.leb_spec (clamp z 1 126) 63); cbn [Z.eqb]; (split; [rewrite wrap_small by mlia; lia | auto]).
Qed.

Lemma init_contexts_ok t : contexts_ok (init_contexts t).
Proof.
  split; [done |]. split; [done |].
  split; [| split]; [apply Forall_map, Forall_forall; intros; apply init_cabac_ok.. | apply init_cabac_ok].
Qed.

(** One step: the encoder narrows, the decoder reads the step's value. *)
Lemma step_reads s c x pre out k lo :
  enc_at c pre out k lo -> 256 <= range_ c < 512 -> contexts_ok x -> step_ok s -> (kind s = kEndOfSlice -> value s = 0) ->
  Z.of_nat (k + 7) < 2 ^ 31 ->
  exists out' j lo' x', let c' := (code_step s (c, x)).1 in
    (code_step s (c, x)).2 = x' /\
    enc_at c' pre out' (k + j) lo' /\ 256 <= range_ c' < 512 /\ (j <= 7)%nat /\ contexts_ok x' /\
    forall l, (9 + (k + j) <= length l)%nat -> lo' <= bits_val (take (9 + (k + j)) l) < lo' + range_ c' ->
      lo <= bits_val (take (9 + k) l) < lo + range_ c /\
      dec_step s (mkDec (range_ c) (bits_val (take (9 + k) l) - lo) (drop (9 + k) l)) x =
        Some (value s, mkDec (range_ c') (bits_val (take (9 + (k + j)) l) - lo') (drop (9 + (k + j)) l), x').
Proof.
  intros H Hr (X1 & X2 & X3 & X4 & X5) [Hi Hv] Hend Hk. unfold code_step, dec_step. destruct (kind s) eqn:Ek.
  - destruct (encode_reads c (ctx_nth (cx_split x) (ctx_inc s)) (value s) pre out k lo H Hr) as (out' & j & lo' & H1 & H2 & H3 & H4 & H5);
      [by apply ctx_nth_ok | done | done |].
    destruct (encode c _ _) as [c' y]. cbn [fst snd] in *. exists out', j, lo', (mkContexts (<[Z.to_nat (ctx_inc s):=y]> (cx_split x)) (cx_skip x) (cx_merge x)).
    split; [done |]. split; [done |]. split; [done |]. split; [done |]. split.
    { unfold contexts_ok. cbn [cx_split cx_skip cx_merge]. split; [by rewrite length_insert |]. split; [done |]. split; [by apply Forall_insert |]. done. }
    intros l Hl HS. destruct (H5 l Hl HS) as [G1 ->]. by split.
  - destruct (encode_reads c (ctx_nth (cx_skip x) (ctx_inc s)) (value s) pre out k lo H Hr) as (out' & j & lo' & H1 & H2 & H3 & H4 & H5);
      [by apply ctx_nth_ok | done | done |].
    destruct (encode c _ _) as [c' y]. cbn [fst snd] in *. exists out', j, lo', (mkContexts (cx_split x) (<[Z.to_nat (ctx_inc s):=y]> (cx_skip x)) (cx_merge x)).
    split; [done |]. split; [done |]. split; [done |]. split; [done |]. split.
    { unfold contexts_ok. cbn [cx_split cx_skip cx_merge]. split; [done |]. split; [by rewrite length_insert |]. split; [done |]. split; [by apply Forall_insert | done]. }
    intros l Hl HS. destruct (H5 l Hl HS) as [G1 ->]. by split.
  - destruct (encode_reads c (cx_merge x) (value s) pre out k lo H Hr X5 Hv Hk) as (out' & j & lo' & H1 & H2 & H3 & H4 & H5).
    destruct (encode c _ _) as [c' y]. cbn [fst snd] in *. exists out', j, lo', (mkContexts (cx_split x) (cx_skip x) y).
    split; [done |]. split; [done |]. split; [done |]. split; [done |]. split; [done |].
    intros l Hl HS. destruct (H5 l Hl HS) as [G1 ->]. by split.
  - rewrite (Hend eq_refl). destruct (terminate0_reads c pre out k lo H Hr Hk) as (out' & j & lo' & H1 & H2 & H3 & H5).
    cbn [fst snd]. exists out', j, lo', x. split; [done |]. split; [done |]. split; [done |]. split; [done |]. split; [done |].
    intros l Hl HS. destruct (H5 l Hl HS) as [G1 ->]. by split.
Qed.

Lemma code_steps_read l c x pre out k lo :
  enc_at c pre out k lo -> 256 <= range_ c < 512 -> contexts_ok x -> slice_steps l ->
  Z.of_nat (k + 7 * length l) < 2 ^ 31 ->
  exists s, wr_ok (w_ (foldl (fun cx s => code_step s cx) (c, x) l).1) (pre ++ s) /\ last s = Some true /\
    (9 + k <= length s)%nat /\ lo <= bits_val (take (9 + k) s) < lo + range_ c /\
    dec_steps l (mkDec (range_ c) (bits_val (take (9 + k) s) - lo) (drop (9 + k) s)) x = Some (map value l, []).
Proof.
  revert c x out k lo. induction l as [|s l IH]; intros c x out k lo H Hr Hx Hs Hk; [done |].
  cbn [foldl length] in *. destruct l as [|s2 l].
  - destruct Hs as [_ [Ek Ev]]. unfold code_step. rewrite Ek, Ev. cbn [foldl fst].
    destruct (terminate1_reads c pre out k lo H Hr) as (b & B1 & B2 & B3 & B4 & B5); [cbn in Hk; lia |].
    exists b. rewrite <- B2 at 1. rewrite take_ge, drop_ge by lia.
    split; [done |]. split; [done |]. split; [lia |]. split; [done |].
    cbn [dec_steps]. unfold dec_step. rewrite Ek. unfold dec_terminate. cbn [d_range d_off d_in].
    rewrite (proj2 (Z.leb_le _ _)) by lia. cbn [mbind option_bind dec_steps d_in map]. by rewrite Ev.
  - destruct Hs as [Hok [Hend Hs]].
    destruct (step_reads s c x pre out k lo H Hr Hx Hok Hend) as (out' & j & lo' & x' & E & H1 & H2 & H3 & H4 & H5); [lia |].
    destruct (code_step s (c, x)) as [c' y]. cbn [fst snd] in *. subst y.
    destruct (IH c' x' out' (k + j)%nat lo' H1 H2 H4 Hs) as (b & B1 & B2 & B3 & B4 & B5); [lia |].
    exists b. split; [done |]. split; [done |]. split; [lia |]. destruct (H5 b B3 B4) as [G1 G2]. split; [done |].
    change (dec_steps (s :: s2 :: l)) with (fun d x => '(v, d, x) ← dec_step s d x; '(vs, rest) ← dec_steps (s2 :: l) d x; Some (v :: vs, rest)).
    cbv beta. rewrite G2. cbn [mbind option_bind]. rewrite B5. done.
Qed.

Lemma new_cabac_at w pre : wr_ok w pre -> enc_at (new_cabac w) pre [] 0 0.
Proof. intros Hw. split; cbn; try done; try lia. by rewrite app_nil_r. Qed.
