(* ===== verification/HevcProps.v ===== *)
(** * HevcProps: what the HEVC rewriting promises

    Escaping is exact, an unedited header comes back byte for byte, and a fill slice is a
    NAL unit whose data a decoder reads to the end, bin for bin. *)
From S2P Require Import Prelude Bytes HevcBits HevcPs HevcSlice HevcCabac HevcSkipSlice HevcCabacSound.
Local Open Scope Z_scope.
Local Open Scope mabur_scope.

(** ** The steps of a fill *)

Definition body_step (s : FillStep) : Prop := step_ok s /\ kind s <> kEndOfSlice.

Lemma ctx_of_range g p x y : 0 <= ctx_of g p x y < 3.
Proof. unfold ctx_of. destruct (available g (x - 1) y && _), (available g x (y - 1) && _); cbn; lia. Qed.

Lemma walk_leaf_steps g m x y size depth : Forall body_step (walk_leaf g m x y size depth).2.
Proof.
  cbn. constructor.
  - split; [split; [apply ctx_of_range | by right] | done].
  - destruct (1 <? m); repeat constructor; cbn; lia || auto || done.
Qed.

Lemma walk_steps fuel g m x y log2 depth : Forall body_step (walk fuel g m x y log2 depth).2.
Proof.
  revert g x y log2 depth. induction fuel as [|fuel IH]; intros g x y log2 depth; [constructor |]. cbn [walk].
  destruct (_ && _ && _).
  - pose proof (walk_leaf_steps g m x y (Z.shiftl 1 log2) depth) as H. destruct (walk_leaf _ _ _ _ _ _) as [g1 out].
    constructor; [| done]. split; [split; [apply ctx_of_range | by left] | done].
  - destruct (log2_min_ g <? log2); [| apply walk_leaf_steps].
    assert (IHc : forall (b : bool) g x y l d, Forall body_step (if b then walk fuel g m x y l d else (g, [])).2)
      by (intros []; [intros; apply IH | constructor]).
    set (half := Z.shiftr _ 1).
    pose proof (IH g x y (log2 - 1) (depth + 1)) as H1. destruct (walk fuel g _ _ _ _ _) as [g1 o1].
    pose proof (IHc (x + half <? g_w g1) g1 (x + half) y (log2 - 1) (depth + 1)) as H2. destruct (if x + half <? g_w g1 then _ else _) as [g2 o2].
    pose proof (IHc (y + half <? g_h g2) g2 x (y + half) (log2 - 1) (depth + 1)) as H3. destruct (if y + half <? g_h g2 then _ else _) as [g3 o3].
    pose proof (IHc ((x + half <? g_w g3) && (y + half <? g_h g3)) g3 (x + half) (y + half) (log2 - 1) (depth + 1)) as H4.
    destruct (if (x + half <? g_w g3) && _ then _ else _) as [g4 o4].
    cbn [snd] in *. by repeat apply Forall_app_2.
Qed.

Lemma slice_steps_snoc l : Forall body_step l -> slice_steps (l ++ [mkFillStep kEndOfSlice 0 1]).
Proof.
  induction 1 as [|s l [Hs Hk] Hl IH]; [cbn; split; [split; [cbn; lia | by right] | done] |].
  cbn [app slice_steps]. split; [done |]. destruct (l ++ _) eqn:E; [by destruct l |]. done.
Qed.
Lemma slice_steps_more l r : Forall body_step l -> slice_steps r -> slice_steps (l ++ mkFillStep kEndOfSlice 0 0 :: r).
Proof.
  intros Hl Hr. induction Hl as [|s l [Hs Hk] Hl IH].
  - cbn. split; [split; [cbn; lia | by left] |]. destruct r; done.
  - cbn [app slice_steps]. split; [done |]. destruct (l ++ _) eqn:E; [by destruct l |]. done.
Qed.

Definition ends_slice (s : FillStep) : bool := match kind s with kEndOfSlice => true | _ => false end.

Lemma body_no_end l : Forall body_step l -> List.filter ends_slice l = [].
Proof. induction 1 as [|s l [_ Hk] _ IH]; [done |]. cbn. unfold ends_slice at 1. by destruct (kind s). Qed.

Lemma fill_fold sps m end_ctb n : forall first go, first + Z.of_nat n = end_ctb -> (0 < n)%nat ->
  exists r, (foldl (fun go ctb => fill_ctb sps m end_ctb ctb go) go (seqZ first (Z.of_nat n))).2 = go.2 ++ r /\
    slice_steps r /\ length (List.filter ends_slice r) = n.
Proof.
  induction n as [|n IH]; intros first go He Hn; [lia |].
  rewrite seqZ_cons by lia. cbn [foldl]. unfold fill_ctb at 2.
  pose proof (walk_steps (S (Z.to_nat (log2_ctb sps))) go.1 m (Z.shiftl (first mod pic_w_ctbs sps) (log2_ctb sps))
    (Z.shiftl (first / pic_w_ctbs sps) (log2_ctb sps)) (log2_ctb sps) 0) as Hw.
  destruct (walk _ _ _ _ _ _ _) as [g out]. cbn [snd] in Hw. replace (Z.pred (Z.of_nat (S n))) with (Z.of_nat n) by lia.
  assert (Hout : forall v, length (List.filter ends_slice (out ++ [mkFillStep kEndOfSlice 0 v])) = 1%nat)
    by (intros v; rewrite List.filter_app, body_no_end by done; done).
  destruct n as [|n].
  - rewrite (proj2 (Z.eqb_eq _ _)) by lia. cbn. exists (out ++ [mkFillStep kEndOfSlice 0 1]).
    split; [done |]. split; [by apply slice_steps_snoc | apply Hout].
  - rewrite (proj2 (Z.eqb_neq _ _)) by lia.
    destruct (IH (Z.succ first) (g, go.2 ++ out ++ [mkFillStep kEndOfSlice 0 0])) as (r & -> & Hr & Hc); [lia | lia |].
    exists (out ++ mkFillStep kEndOfSlice 0 0 :: r). cbn [snd]. split; [by rewrite <- !app_assoc |].
    split; [by apply slice_steps_more |]. rewrite cons_middle, app_assoc, List.filter_app, length_app, Hout, Hc. done.
Qed.

Lemma skip_fill_ok sps m first end_ctb : first < end_ctb ->
  slice_steps (skip_fill_steps sps m first end_ctb) /\
  length (List.filter ends_slice (skip_fill_steps sps m first end_ctb)) = Z.to_nat (end_ctb - first).
Proof.
  intros H. unfold skip_fill_steps.
  destruct (fill_fold sps m end_ctb (Z.to_nat (end_ctb - first)) first (new_grid sps first, [])) as (r & E & R1 & R2); [lia | lia |].
  rewrite Z2Nat.id in E by lia. rewrite E. by split.
Qed.

(** ** Properties *)

(** Emulation prevention is exact: unescaping an escaped payload gives the payload back,
    and the escaped bytes hold neither 00 00 00, 00 00 01 nor 00 00 02, so no start code. *)
Theorem nal_escape_exact (p : list Z) (H : bytes_ok p) :
  unescape (escape p) = p /\
  forall i x, escape p !! i = Some 0 -> escape p !! S i = Some 0 -> escape p !! S (S i) = Some x -> 3 <= x.
Proof.
  split; [apply unescape_escape |]. intros i x. by apply (escape_no_code 0 p i x).
Qed.
Lemma nal_escape_exact_witness :
  bytes_ok [0; 0; 1; 0; 0; 0; 0; 3] /\ escape [0; 0; 1; 0; 0; 0; 0; 3] = [0; 0; 3; 1; 0; 0; 3; 0; 0; 3; 3] /\
  unescape (escape [0; 0; 1; 0; 0; 0; 0; 3]) = [0; 0; 1; 0; 0; 0; 0; 3].
Proof.
  assert (H : bytes_ok [0; 0; 1; 0; 0; 0; 0; 3]) by decided.
  split; [exact H |]. split; [reflexivity | exact (proj1 (nal_escape_exact _ H))].
Defined.

Lemma parsed_at nal sps pps h : parse_slice_header nal sps pps = inr h ->
  hdr_at sps pps (unescape (drop 2 nal)) h.
Proof.
  unfold parse_slice_header. destruct (length nal <? 4)%nat; [done |]. destruct (21 <? _); [done |].
  unfold run_parser. destruct (slice_body _ _ _ _ _ _) as [e | [h' r']] eqn:E; [done |]. intros [= <-].
  by apply slice_body_at in E.
Qed.

Lemma unescape_ok z p : bytes_ok p -> bytes_ok (unescape_loop z p).
Proof.
  intros H. revert z. induction H as [|b p Hb Hp IH]; intros z; [constructor |]. cbn [unescape_loop].
  destruct (_ && _); [apply IH | by constructor].
Qed.

Lemma bitn_take l n i : (i < 8 * n)%nat -> bitn (take n l) i = bitn l i.
Proof.
  intros H. unfold bitn. f_equal. assert (i / 8 < n)%nat by (apply Nat.Div0.div_lt_upper_bound; lia).
  destruct (decide (i / 8 < length l)%nat) as [Hl | Hl].
  - rewrite <- (firstn_skipn n l) at 2. rewrite app_nth1; [done |]. rewrite length_take. lia.
  - rewrite !nth_overflow; rewrite ?length_take; lia || done.
Qed.

(** A parsed slice header written back without an edit is, byte for byte, the header that
    was parsed, its stop bit and padding included; and whatever the edit, the writer's copies
    stay inside the payload and it produces exactly the edited header, ending on a byte. *)
Theorem header_rewrite_exact (nal : list Z) (sps : Sps) (pps : Pps) (h : SliceHeader)
    (Hn : bytes_ok nal) (Hp : parse_slice_header nal sps pps = inr h) :
  (exists w, write_slice_header new_writer h (mkHeaderEdit (first h) (address h) false) sps pps = Some w /\
     buf_ w = take (data_byte h) (unescape (drop 2 nal))) /\
  forall e, exists w k, write_slice_header new_writer h e sps pps = Some w /\ (k < 8)%nat /\
    bits_at (buf_ w) 0 (8 * length (buf_ w)) = header_bits sps pps h e ++ true :: replicate k false.
Proof.
  pose proof (parsed_at _ _ _ _ Hp) as Hh. set (data := unescape (drop 2 nal)) in *. split.
  - destruct (write_header_ok _ _ _ _ (mkHeaderEdit (first h) (address h) false) _ _ Hh new_writer_ok) as (w & k & E & Hk & W & M).
    exists w. split; [done |]. rewrite (header_bits_same _ _ _ _ Hh) in *. cbn [app length] in *. rewrite bits_at_length in M.
    destruct Hh as [_ _ _ _ _ _ _ _ _ [Hb Hd] Hstop].
    assert (Hkk : k = (8 * data_byte h - S (pos_end h))%nat).
    { rewrite Nat.add_0_l in M. pose proof (Nat.div_mod_eq (pos_end h + 1 + k) 8). lia. }
    assert (Hlen : length (buf_ w) = data_byte h).
    { rewrite (wo_len _ _ W), length_app, bits_at_length. cbn [length]. rewrite length_replicate, Hkk.
      symmetry. apply (Nat.div_unique _ 8 _ 7); lia. }
    apply bytes_by_bits; [apply (wo_bytes _ _ W) | apply Forall_take, unescape_ok, Forall_drop, Hn | |].
    + rewrite length_take. lia.
    + intros n Hlt. rewrite bitn_take by lia. rewrite (wo_bit _ _ W), Hkk, <- Hstop, bits_to by lia.
      unfold bits_at. rewrite (nth_indep _ _ (bitn data 0)) by (rewrite length_map, length_seq; lia).
      rewrite (map_nth (bitn data)), seq_nth by lia. done.
  - intros e. destruct (write_header_ok _ _ _ _ e _ _ Hh new_writer_ok) as (w & k & E & Hk & W & M).
    exists w, k. split; [done |]. split; [done |]. apply bits_at_nth; [intros i Hi; apply (wo_bit _ _ W) |].
    cbn [app length] in *. rewrite Nat.add_0_l in M. rewrite length_app. cbn [length]. rewrite length_replicate, (wo_len _ _ W), length_app. cbn [length].
    rewrite length_replicate. pose proof (Nat.div_mod_eq (length (header_bits sps pps h e) + 1 + k) 8).
    replace (length (header_bits sps pps h e) + S k)%nat with (length (header_bits sps pps h e) + 1 + k)%nat by lia.

    rewrite <- (Nat.div_unique (length (header_bits sps pps h e) + 1 + k + 7) 8 ((length (header_bits sps pps h e) + 1 + k) / 8) 7) by lia. lia.
Qed.

(** A template for the witnesses: 32x32 in four CTBs, a P slice with SAO and a loop filter flag. *)
Definition ex_sps : Sps := mkSps 0 1 32 32 4 3 4 true false 1 [1] [1] false 0 [].
Definition ex_pps : Pps := mkPps 0 0 false false 0 false 1 1 26 false false false true false.
Definition ex_nal : list Z := [2; 1; 208; 231; 128; 170].
Definition ex_header : SliceHeader :=
  mkSliceHeader 2 1 1 [208; 231; 128; 170] true 0 1 26 false 5 true false false true true 2 2 10 15 16 3.

Lemma header_rewrite_exact_witness :
  bytes_ok ex_nal /\ parse_slice_header ex_nal ex_sps ex_pps = inr ex_header /\
  exists w, write_slice_header new_writer ex_header (mkHeaderEdit (first ex_header) (address ex_header) false) ex_sps ex_pps = Some w /\
     buf_ w = take 3 (unescape (drop 2 ex_nal)).
Proof.
  assert (H : bytes_ok ex_nal) by decided.
  assert (E : parse_slice_header ex_nal ex_sps ex_pps = inr ex_header) by (vm_compute; reflexivity).
  split; [exact H |]. split; [exact E |]. exact (proj1 (header_rewrite_exact _ _ _ _ H E)).
Defined.

(** The slice data of [payload] behind [pre] bits is what a decoder makes the values [vs] of,
    bin by bin with the contexts of [t], using up every bit; its last bit is the stop bit. *)
Definition data_reads (payload : list Z) (pre : list bool) (t : SliceHeader) (l : list FillStep) : Prop :=
  exists data pad d, (pad < 8)%nat /\
    bits_at payload 0 (8 * length payload) = pre ++ data ++ replicate pad false /\
    last data = Some true /\ dec_start data = Some d /\ dec_steps l d (init_contexts t) = Some (map value l, []).

Lemma code_steps_data w t l pre : wr_ok w pre -> slice_steps l -> 7 * Z.of_nat (length l) < 2 ^ 31 ->
  data_reads (buf_ (align_zero (code_steps w t l))) pre t l.
Proof.
  intros W Hs Hl.
  destruct (code_steps_read l (new_cabac w) (init_contexts t) pre [] 0 0 (new_cabac_at _ _ W)) as (s & S1 & S2 & S3 & S4 & S5);
    [cbn; lia | apply init_contexts_ok | done | lia |].
  unfold code_steps. destruct (align_zero_ok _ _ S1) as (k & K1 & K2 & K3). rewrite <- app_assoc in K3.
  eexists s, k, _. split; [done |]. split; [| split; [done |]].
  - apply bits_at_nth; [intros i Hi; apply (wo_bit _ _ K3) |]. rewrite (wo_len _ _ K3).
    rewrite !length_app, length_replicate in *. set (n := (length pre + (length s + k))%nat).
    replace (length pre + length s + k)%nat with n in K2 by (unfold n; lia).
    pose proof (Nat.div_mod_eq n 8). rewrite <- (Nat.div_unique (n + 7) 8 (n / 8) 7) by lia. lia.
  - unfold dec_start. rewrite (proj2 (Nat.ltb_ge _ _)) by lia. split; [done |].
    cbn [range_ new_cabac] in S5. rewrite Z.sub_0_r in S5. exact S5.
Qed.

(** C36. A fill slice is a NAL unit a decoder reads to the end: for a template that parsed as a
    P or B slice and a range of CTUs inside the picture, the unit is made; behind the start
    code and the template's NAL header its payload unescapes to the edited header (its address
    the range's first CTU, the SAO flags cleared), byte aligned, and slice data from which the
    arithmetic decoder of the standard reads exactly the bins of the fill, one end_of_slice per
    CTU and only the last one set, and then nothing is left before the byte padding. *)
Theorem fill_reads_back (nal : list Z) (sps : Sps) (pps : Pps) (t : SliceHeader) (first_ctb end_ctb : Z)
    (Hp : parse_slice_header nal sps pps = inr t) (Ht : slice_type t <> 2)
    (Hr : first_ctb < end_ctb <= u32 (pic_w_ctbs sps * pic_h_ctbs sps))
    (Hl : 7 * Z.of_nat (length (skip_fill_steps sps (max_num_merge_cand t) first_ctb end_ctb)) < 2 ^ 31) :
  let l := skip_fill_steps sps (max_num_merge_cand t) first_ctb end_ctb in
  exists payload k,
    make_skip_slice sps pps t first_ctb end_ctb =
      Some (Some ([0; 0; 0; 1; nal_hdr0 t; nal_hdr1 t] ++ escape payload)) /\
    unescape (escape payload) = payload /\ (k < 8)%nat /\
    let pre := header_bits sps pps t (mkHeaderEdit (first_ctb =? 0) first_ctb true) ++ true :: replicate k false in
    (length pre mod 8 = 0)%nat /\ data_reads payload pre t l /\
    slice_steps l /\ length (List.filter ends_slice l) = Z.to_nat (end_ctb - first_ctb).
Proof.
  cbn zeta. pose proof (parsed_at _ _ _ _ Hp) as Hh.
  destruct (write_header_ok _ _ _ _ (mkHeaderEdit (first_ctb =? 0) first_ctb true) _ _ Hh new_writer_ok) as (w & k & E & Hk & W & M).
  destruct (skip_fill_ok sps (max_num_merge_cand t) first_ctb end_ctb) as [Hs Hc]; [lia |].
  unfold make_skip_slice. rewrite (proj2 (Z.eqb_neq _ _)) by done.
  rewrite (proj2 (Z.leb_gt _ _)), (proj2 (Z.ltb_ge _ _)) by lia. cbn [orb]. rewrite E. cbn [mbind option_bind].
  eexists _, k. split; [done |]. split; [apply unescape_escape |]. split; [done |]. split; [| split; [| done]].
  - cbn [app length] in M. rewrite Nat.add_0_l in M. rewrite length_app. cbn [length]. rewrite length_replicate.
    etransitivity; [| exact M]. f_equal; lia.
  - by apply code_steps_data.
Qed.
Lemma fill_reads_back_witness :
  parse_slice_header ex_nal ex_sps ex_pps = inr ex_header /\ 1 < 4 <= u32 (pic_w_ctbs ex_sps * pic_h_ctbs ex_sps) /\
  exists payload, make_skip_slice ex_sps ex_pps ex_header 1 4 = Some (Some ([0; 0; 0; 1; 2; 1] ++ escape payload)) /\
    unescape (escape payload) = payload.
Proof.
  assert (E : parse_slice_header ex_nal ex_sps ex_pps = inr ex_header) by (vm_compute; reflexivity).
  assert (R : 1 < 4 <= u32 (pic_w_ctbs ex_sps * pic_h_ctbs ex_sps)) by (vm_compute; split; [reflexivity | discriminate]).
  assert (L : 7 * Z.of_nat (length (skip_fill_steps ex_sps (max_num_merge_cand ex_header) 1 4)) < 2 ^ 31) by (vm_compute; reflexivity).
  destruct (fill_reads_back _ _ _ _ 1 4 E ltac:(discriminate) R L) as (payload & k & P1 & P2 & _).
  split; [exact E |]. split; [exact R |]. exists payload. split; [exact P1 | exact P2].
Defined.
