(* ===== verification/Nal.v ===== *)
(** * Nal: classification of encoded frames (common/src/nal.cpp)

    One NAL header, and three start-code walks over an encoded frame: the stream a frame
    goes to, whether its first slice is the enhance marker, and its NAL counts. *)
From S2P Require Import Prelude Bytes HevcPs.
Local Open Scope Z_scope.

Record NalInfo := mkNalInfo { ni_tid : Z; ni_critical : bool; ni_type : Z }.

Definition parse_hevc_nal (nal : list Z) : NalInfo :=
  if (length nal <? 2)%nat then mkNalInfo 0 false 0
  else
    let type := nal_type_of (at_ nal 0) in
    let tid := Z.land (at_ nal 1) 7 - 1 in
    mkNalInfo (if tid <? 0 then 0 else u8 tid)
      ((16 <=? type) && (type <=? 23) || (32 <=? type) && (type <=? 34)) type.

(** The three bytes at [i] are a start code. *)
Definition start_code_at (au : list Z) (i : nat) : bool :=
  (at_ au i =? 0) && (at_ au (i + 1) =? 0) && (at_ au (i + 2) =? 1).

Fixpoint classify_loop (fuel : nat) (au : list Z) (i : nat) (sid : Z) : Z :=
  match fuel with
  | O => if sid <? 0 then 0 else sid
  | S fuel =>
      if (i + 4 <? length au)%nat then
        if negb (start_code_at au i) then classify_loop fuel au (i + 1) sid
        else
          let n := parse_hevc_nal (drop (i + 3) au) in
          if ni_critical n then 0
          else classify_loop fuel au (i + 3)
                 (if (sid <? 0) && (ni_type n <? 16) then if ni_type n =? 0 then 1 else 0 else sid)
      else if sid <? 0 then 0 else sid
  end.
Definition classify_frame (au : list Z) : Z :=
  if (length au <? 5)%nat then 0 else classify_loop (length au) au 0 (-1).

Fixpoint trail_n_loop (fuel : nat) (au : list Z) (i : nat) : bool :=
  match fuel with
  | O => false
  | S fuel =>
      if (i + 4 <? length au)%nat then
        if negb (start_code_at au i) then trail_n_loop fuel au (i + 1)
        else
          let n := parse_hevc_nal (drop (i + 3) au) in
          if ni_critical n then false
          else if ni_type n <? 16 then ni_type n =? 0
          else trail_n_loop fuel au (i + 3)
      else false
  end.
Definition frame_is_trail_n (au : list Z) : bool :=
  if (length au <? 5)%nat then false else trail_n_loop (length au) au 0.

Record AuNalCount := mkAuNalCount { vcl : Z; param_set : bool }.

Fixpoint count_loop (fuel : nat) (au : list Z) (i : nat) (c : AuNalCount) : AuNalCount :=
  match fuel with
  | O => c
  | S fuel =>
      if (i + 4 <? length au)%nat then
        if negb (start_code_at au i) then count_loop fuel au (i + 1) c
        else
          let type := nal_type_of (at_ au (i + 3)) in
          count_loop fuel au (i + 3)
            (if type <? 32 then mkAuNalCount (vcl c + 1) (param_set c)
             else if type <=? 34 then mkAuNalCount (vcl c) true else c)
      else c
  end.
Definition count_au_nals (au : list Z) : AuNalCount :=
  if (length au <? 5)%nat then mkAuNalCount 0 false else count_loop (length au) au 0 (mkAuNalCount 0 false).

Example classify_trail_n : classify_frame [0; 0; 1; 0; 1; 9] = 1.
Proof. reflexivity. Qed.
Example classify_critical_after : classify_frame [0; 0; 1; 0; 1; 9; 0; 0; 0; 1; 38; 1; 7] = 0.
Proof. reflexivity. Qed.

(** A frame goes to the enhance stream only when its first slice carries the marker. *)
Lemma classify_needs_marker fuel au i : classify_loop fuel au i (-1) = 1 -> trail_n_loop fuel au i = true.
Proof.
  revert i. induction fuel as [|fuel IH]; intros i; cbn [classify_loop trail_n_loop]; [done |].
  destruct (i + 4 <? length au)%nat; [| done]. destruct (negb (start_code_at au i)); [apply IH |].
  destruct (ni_critical _); [done |]. destruct (ni_type _ <? 16); [| apply IH].
  destruct (ni_type _ =? 0); [done |]. cbn [Z.ltb Z.compare andb]. generalize (i + 3)%nat. clear IH.
  induction fuel as [|fuel IH]; intros j; cbn [classify_loop Z.ltb Z.compare andb]; [done |].
  destruct (j + 4 <? length au)%nat; [| done]. destruct (negb _); [apply IH |]. destruct (ni_critical _); [done | apply IH].
Qed.
Lemma enhance_is_trail_n au : classify_frame au = 1 -> frame_is_trail_n au = true.
Proof.
  unfold classify_frame, frame_is_trail_n. destruct (length au <? 5)%nat; [done |]. apply classify_needs_marker.
Qed.
