(* ===== verification/HevcParams.v ===== *)
(** * HevcParams: parameter sets for the recorder (HevcParams of common/src/hevc_params.cpp)

    The harvest of VPS, SPS and PPS from access units in either layout, the decoder
    configuration record, and the display size.  An [assert] that fails is [None]. *)
From S2P Require Import Prelude Bytes HevcBits HevcPs.
Local Open Scope Z_scope.
Local Open Scope mabur_scope.

Record HevcParams := mkHevcParams { vps_ : list Z; sps_ : list Z; pps_ : list Z }.
Definition new_hevc_params : HevcParams := mkHevcParams [] [] [].

Definition complete (t : HevcParams) : bool :=
  negb (length (vps_ t) =? 0)%nat && negb (length (sps_ t) =? 0)%nat && negb (length (pps_ t) =? 0)%nat.

(** [switch (type)] of both feeds. *)
Definition keep (t : HevcParams) (type : Z) (nal : list Z) : HevcParams :=
  if type =? 32 then mkHevcParams nal (sps_ t) (pps_ t)
  else if type =? 33 then mkHevcParams (vps_ t) nal (pps_ t)
  else if type =? 34 then mkHevcParams (vps_ t) (sps_ t) nal
  else t.

Definition feed (t : HevcParams) (au : list Z) : HevcParams * bool :=
  let t := foldl (fun t v => keep t (nv_type v) (nv_bytes v)) t (split_nals au) in
  (t, complete t).

Definition get32_be (au : list Z) : Z :=
  Z.lor (Z.lor (Z.lor (Z.shiftl (at_ au 0) 24) (Z.shiftl (at_ au 1) 16)) (Z.shiftl (at_ au 2) 8)) (at_ au 3).

(** [au] is what is left at [i]; every turn takes at least five bytes. *)
Fixpoint feed_prefixed_loop (fuel : nat) (t : HevcParams) (au : list Z) : HevcParams :=
  match fuel with
  | O => t
  | S fuel =>
      if (4 <=? length au)%nat then
        let len := get32_be au in
        let p := drop 4 au in
        if (len =? 0) || (Z.of_nat (length p) <? len) then t
        else
          feed_prefixed_loop fuel (keep t (nal_type_of (at_ p 0)) (take (Z.to_nat len) p)) (drop (Z.to_nat len) p)
      else t
  end.
Definition feed_prefixed (t : HevcParams) (au : list Z) : HevcParams * bool :=
  let t := feed_prefixed_loop (S (length au)) t au in (t, complete t).

Definition push_array (nal_type : Z) (nal : list Z) : list Z :=
  let len := u16 (Z.of_nat (length nal)) in
  [Z.lor 128 nal_type; 0; 1; Z.land (Z.shiftr len 8) 255; Z.land len 255] ++ nal.

(** The header byte and the profile-tier-level are the first 13 bytes of the RBSP. *)
Definition hvcc (t : HevcParams) : option (list Z) :=
  if negb (complete t) || (length (sps_ t) <? 15)%nat then None
  else
    let rbsp := take 13 (unescape (drop 2 (sps_ t))) in
    if negb (length rbsp =? 13)%nat then None
    else Some ([1] ++ drop 1 rbsp ++ [240; 0; 252; 253; 248; 248; 0; 0; 19; 3] ++
               push_array 32 (vps_ t) ++ push_array 33 (sps_ t) ++ push_array 34 (pps_ t)).

(** profile_tier_level as the size parser reads it: the same 96 bits in other steps. *)
Definition dim_ptl (max_sub : Z) : Parse unit unit :=
  u 8 ;; u 32 ;; u 24 ;; u 24 ;; u 8 ;;
  pl ← repeat_acc (Z.to_nat max_sub) (fun pl => p ← flag; l ← flag; mret (pl ++ [(p, l)])) [];
  (if 0 <? max_sub then repeat_acc (Z.to_nat (8 - max_sub)) (fun _ => skip_u 2) tt else mret tt) ;;
  foldr (fun (x : bool * bool) (k : Parse unit unit) =>
    when x.1 (skip_u 32 ;; skip_u 32 ;; skip_u 24) ;; when x.2 (skip_u 8) ;; k) (mret tt) pl.

Definition dim_body : Parse unit (Z * Z) :=
  u 4 ;; max_sub ← u 3; u 1 ;;
  dim_ptl max_sub ;;
  ue ;;
  chroma ← ue;
  when (chroma =? 3) (skip_u 1) ;;
  pw ← ue; ph ← ue;
  window ← flag;
  wh ← (if window : bool then
          l ← ue; rt ← ue; t ← ue; bt ← ue;
          let sw := if (chroma =? 1) || (chroma =? 2) then 2 else 1 in
          let sh := if chroma =? 1 then 2 else 1 in
          mret (pw - sw * (l + rt), ph - sh * (t + bt))
        else mret (pw, ph));
  b ← bad;
  refuse_if (b || (wh.1 <=? 0) || (wh.2 <=? 0) || (16384 <? wh.1) || (16384 <? wh.2)) tt ;;
  mret wh.

Definition sps_dimensions (t : HevcParams) : option (Z * Z) :=
  if (length (sps_ t) <? 3)%nat then None
  else match run_parser dim_body (unescape (drop 2 (sps_ t))) with inl _ => None | inr wh => Some wh end.

(** ** Both layouts feed the same sets *)

Lemma be32_id v : in_width 32 v ->
  Z.lor (Z.lor (Z.lor (Z.shiftl (Z.land (Z.shiftr v 24) 255) 24) (Z.shiftl (Z.land (Z.shiftr v 16) 255) 16))
    (Z.shiftl (Z.land (Z.shiftr v 8) 255) 8)) (Z.land v 255) = v.
Proof.
  intros Hv. rewrite <- (le32_id v Hv) at 5.
  rewrite (Z.lor_comm _ (Z.land v 255)), (Z.lor_comm _ (Z.shiftl (Z.land (Z.shiftr v 8) 255) 8)),
    (Z.lor_comm _ (Z.shiftl (Z.land (Z.shiftr v 16) 255) 16)). by rewrite !Z.lor_assoc.
Qed.

Lemma get32_be_put n l : in_width 32 n -> get32_be ((put32_be n ++ l)) = n.
Proof. intros H. unfold get32_be, at_, put32_be. cbn [app nth]. by apply be32_id. Qed.

(** A view is not empty, its type is that of its first byte, and it is part of the unit. *)
Definition view_ok (au : list Z) (v : NalView) : Prop :=
  nv_bytes v <> [] /\ nv_type v = nal_type_of (at_ (nv_bytes v) 0) /\ (length (nv_bytes v) <= length au)%nat.

Lemma nal_view_ok au b e : (e <= length au)%nat -> Forall (view_ok au) (nal_view au b e).
Proof.
  intros He. unfold nal_view. destruct (Nat.ltb_spec b e) as [H | H]; [| constructor]. constructor; [| constructor].
  unfold view_ok, at_. cbn [nv_bytes nv_type]. destruct (drop b au) as [|x l] eqn:E.
  { apply (f_equal length) in E. rewrite length_drop in E. cbn in E. lia. }
  destruct (e - b)%nat as [|k] eqn:Ek; [lia |]. split; [done |]. split.
  - cbn. f_equal. rewrite <- (firstn_skipn b au) at 1. rewrite E, app_nth2 by (rewrite length_take; lia).
    rewrite length_take. by replace (b - b `min` length au)%nat with 0%nat by lia.
  - assert (length (x :: l) <= length au)%nat by (rewrite <- E, length_drop; lia). rewrite length_take. lia.
Qed.

Lemma find_code_bound fuel au j p l : find_start_code_loop fuel au j = Some (p, l) -> (p + l <= length au)%nat.
Proof.
  revert j. induction fuel as [|fuel IH]; intros j; cbn [find_start_code_loop]; [done |].
  destruct (Nat.ltb_spec (length au) (j + 3)); [done |]. destruct (_ || _); [apply IH |].
  destruct (at_ au (j + 2) =? 1); [intros [= <- <-]; lia |].
  destruct ((at_ au (j + 2) =? 0) && (j + 4 <=? length au)%nat && (at_ au (j + 3) =? 1)) eqn:E; [| apply IH].
  apply andb_prop in E as [E _]. apply andb_prop in E as [_ E]. apply Nat.leb_le in E. intros [= <- <-]. lia.
Qed.

Lemma split_ok au : Forall (view_ok au) (split_nals au).
Proof.
  unfold split_nals. destruct (find_start_code au 0) as [[p l]|]; [| constructor].
  generalize (p + l)%nat as b. generalize (S (length au)) as fuel.
  induction fuel as [|fuel IH]; intros b; cbn [split_loop]; [constructor |].
  destruct (find_start_code au b) as [[p' l']|] eqn:E; [| by apply nal_view_ok].
  apply Forall_app_2; [| apply IH]. apply nal_view_ok. apply find_code_bound in E. lia.
Qed.

Lemma prefixed_loop_views au vs t fuel : Forall (view_ok au) vs -> Z.of_nat (length au) < 2 ^ 32 -> (length vs < fuel)%nat ->
  feed_prefixed_loop fuel t (concat (map (fun v => put32_be (u32 (Z.of_nat (length (nv_bytes v)))) ++ nv_bytes v) vs)) =
  foldl (fun t v => keep t (nv_type v) (nv_bytes v)) t vs.
Proof.
  intros H Hau. revert t fuel. induction H as [|v vs (Hn & Ht & Hl) H IH]; intros t [|fuel] Hf; cbn [length] in Hf; try lia; [done |].
  cbn [map concat foldl feed_prefixed_loop]. set (rest := concat _).
  rewrite (wrap_small _ _) by (unfold in_width; lia). set (n := Z.of_nat (length (nv_bytes v))).
  assert (Hg : get32_be ((put32_be n ++ nv_bytes v) ++ rest) = n) by (rewrite <- app_assoc; apply get32_be_put; unfold in_width, n; lia).
  change (drop 4 ((put32_be n ++ nv_bytes v) ++ rest)) with (nv_bytes v ++ rest).
  change ((4 <=? length ((put32_be n ++ nv_bytes v) ++ rest))%nat) with true. rewrite Hg.
  assert (Hpos : 0 < n) by (unfold n; destruct (nv_bytes v); [done | cbn; lia]).
  assert (Hok : (n =? 0) || (Z.of_nat (length (nv_bytes v ++ rest)) <? n) = false).
  { apply orb_false_iff. split; [by apply Z.eqb_neq; lia |]. apply Z.ltb_ge. rewrite length_app. unfold n. lia. }
  rewrite Hok. unfold n. rewrite Nat2Z.id, (drop_app_length (nv_bytes v)), (take_app_length (nv_bytes v)).
  rewrite IH by (done || lia). f_equal. f_equal. rewrite Ht. f_equal. unfold at_. rewrite app_nth1; [done |]. lia.
Qed.

(** The two feeds agree: harvesting an access unit converted to length prefixes keeps
    exactly the parameter sets harvesting the Annex-B unit keeps, with the same answer. *)
Theorem prefixed_feed_same (t : HevcParams) (au : list Z) (Hau : Z.of_nat (length au) < 2 ^ 32) :
  feed_prefixed t (annexb_to_length_prefixed au) = feed t au.
Proof.
  unfold feed_prefixed, feed, annexb_to_length_prefixed.
  rewrite (prefixed_loop_views au); [done | apply split_ok | done |].
  induction (split_nals au) as [|v vs IH]; cbn [map concat length]; [lia |].
  rewrite !length_app. change (length (put32_be _)) with 4%nat. lia.
Qed.
Lemma prefixed_feed_same_witness :
  let au := [0; 0; 0; 1; 64; 1; 12; 0; 0; 1; 66; 1; 5; 6; 0; 0; 1; 68; 1; 7; 0; 0; 1; 2; 1; 99] in
  Z.of_nat (length au) < 2 ^ 32 /\
  feed_prefixed new_hevc_params (annexb_to_length_prefixed au) = feed new_hevc_params au /\
  feed new_hevc_params au = (mkHevcParams [64; 1; 12] [66; 1; 5; 6] [68; 1; 7], true).
Proof.
  split; [vm_compute; reflexivity |]. split; [| vm_compute; reflexivity].
  apply prefixed_feed_same. vm_compute. reflexivity.
Defined.
