(* ===== verification/SliceAssembler.v ===== *)
(** * SliceAssembler: slice salvage (gs/src/slice_assembler.cpp)

    One access unit of a row-sliced picture, rebuilt from fragment chunks.  [drain] streams
    whole NAL units of the contiguous prefix; [finish] emits the rest: all of it, or every
    remaining slice as its own bytes or a fill, or the rest of the prefix.  A sink call is a
    byte list of the result.  An outer [None] is an access outside a vector. *)
From S2P Require Import Prelude Bytes HevcBits HevcPs HevcSkipSlice HevcSlice HevcProps.
Local Open Scope Z_scope.
Local Open Scope mabur_scope.

(** Fragments by index. *)
Abbreviation ChunkMap := (gmap Z (list Z)).

Inductive SliceFallback := fbNone | fbNoParams | fbUnsupported | fbISlice | fbNoTemplate | fbGeometry.
#[export] Instance SliceFallback_eq_dec : EqDecision SliceFallback.
Proof. solve_decision. Defined.

Record SliceSalvage := mkSliceSalvage {
  salvaged : bool; ss_slices : Z; kept : Z; filled : Z; kept_after_hole : Z; fallback : SliceFallback;
}.
Definition default_salvage : SliceSalvage := mkSliceSalvage false 0 0 0 0 fbNone.

Definition kCtbLog2 : Z := 6.
Definition kMaxSlices : Z := 64.

(** Position and length of a start code. *)
Abbreviation Code := (nat * nat)%type.

(** [for (j = from; j + 3 <= n; ++j)] with the jumps behind a code. *)
Fixpoint find_codes_loop (fuel : nat) (b : list Z) (j : nat) : list Code :=
  match fuel with
  | O => []
  | S fuel =>
      if (length b <? j + 3)%nat then []
      else if negb (at_ b j =? 0) || negb (at_ b (j + 1) =? 0) then find_codes_loop fuel b (j + 1)
      else if at_ b (j + 2) =? 1 then (j, 3%nat) :: find_codes_loop fuel b (j + 3)
      else if (at_ b (j + 2) =? 0) && (j + 4 <=? length b)%nat && (at_ b (j + 3) =? 1)
      then (j, 4%nat) :: find_codes_loop fuel b (j + 4)
      else find_codes_loop fuel b (j + 1)
  end.
Definition find_codes (b : list Z) (from : nat) : list Code := find_codes_loop (length b - from) b from.

Record SliceAssembler := mkSliceAssembler {
  sa_sps : Sps; sa_pps : Pps; slice_rows_ : Z; count_ : Z; hdr_len_ : nat;
  n_ : Z; frag_ : nat; prefix_chunks_ : Z; buf_ : list Z; sc_ : list Code;
  scanned_ : nat; emitted_ : nat; result_ : SliceSalvage;
}.

Definition slice_count (sps : Sps) (slice_rows : Z) : Z :=
  if negb (log2_ctb sps =? kCtbLog2) || (slice_rows =? 0) then 0
  else
    let n := u32 (pic_h_ctbs sps + slice_rows - 1) / slice_rows in
    if n <=? kMaxSlices then u8 n else 0.

Definition new_slice_assembler (sps : Sps) (pps : Pps) (slice_rows count : Z) (hdr_len : nat) : SliceAssembler :=
  mkSliceAssembler sps pps slice_rows count hdr_len (slice_count sps slice_rows) 0 0 [] [] 0 0 default_salvage.

Definition set_prefix (a : SliceAssembler) (frag : nat) (chunks : Z) (buf : list Z) : SliceAssembler :=
  mkSliceAssembler (sa_sps a) (sa_pps a) (slice_rows_ a) (count_ a) (hdr_len_ a) (n_ a)
    frag chunks buf (sc_ a) (scanned_ a) (emitted_ a) (result_ a).
Definition set_scan (a : SliceAssembler) (sc : list Code) (scanned : nat) : SliceAssembler :=
  mkSliceAssembler (sa_sps a) (sa_pps a) (slice_rows_ a) (count_ a) (hdr_len_ a) (n_ a)
    (frag_ a) (prefix_chunks_ a) (buf_ a) sc scanned (emitted_ a) (result_ a).
Definition set_emitted (a : SliceAssembler) (emitted : nat) (result : SliceSalvage) : SliceAssembler :=
  mkSliceAssembler (sa_sps a) (sa_pps a) (slice_rows_ a) (count_ a) (hdr_len_ a) (n_ a)
    (frag_ a) (prefix_chunks_ a) (buf_ a) (sc_ a) (scanned_ a) emitted result.

(** One chunk more; chunk 0 sets the fragment size and carries the header. *)
Definition take_chunk (a : SliceAssembler) (c : list Z) : SliceAssembler :=
  if prefix_chunks_ a =? 0
  then set_prefix a (length c) (u16 (prefix_chunks_ a + 1)) (buf_ a ++ drop (hdr_len_ a) c)
  else set_prefix a (frag_ a) (u16 (prefix_chunks_ a + 1)) (buf_ a ++ c).

Fixpoint extend_loop (fuel : nat) (a : SliceAssembler) (chunks : ChunkMap) : SliceAssembler :=
  match fuel with
  | O => a
  | S fuel =>
      match chunks !! prefix_chunks_ a with
      | None => a
      | Some c => extend_loop fuel (take_chunk a c) chunks
      end
  end.
(** An index is below its count, so never 65535: the walk stops there at the latest. *)
Definition extend_prefix (a : SliceAssembler) (chunks : ChunkMap) : SliceAssembler :=
  extend_loop (Z.to_nat (65536 - prefix_chunks_ a)) a chunks.

(** Codes never overlap: one found inside the last is its tail. *)
Definition push_code (sc : list Code) (c : Code) : list Code :=
  match last sc with
  | Some b => if (b.1 + b.2 <=? c.1)%nat then sc ++ [c] else sc
  | None => sc ++ [c]
  end.
Definition scan_prefix (a : SliceAssembler) : SliceAssembler :=
  set_scan a (foldl push_code (sc_ a) (find_codes (buf_ a) (scanned_ a))) (length (buf_ a) - 3).

Definition drain (a : SliceAssembler) (chunks : ChunkMap) : SliceAssembler * list (list Z) :=
  let a := scan_prefix (extend_prefix a chunks) in
  match last (sc_ a) with
  | Some c =>
      if (emitted_ a <? c.1)%nat
      then (set_emitted a c.1 (result_ a), [take (c.1 - emitted_ a) (drop (emitted_ a) (buf_ a))])
      else (a, [])
  | None => (a, [])
  end.

(** ** The plan of a damaged unit *)

(** A run of consecutive fragments and its offset in the unit. *)
Record Run := mkRun { off : Z; rb : list Z }.

Definition frag_off (a : SliceAssembler) (i : Z) : Z := i * Z.of_nat (frag_ a) - Z.of_nat (hdr_len_ a).

(** The run from [i] on, and the index behind it. *)
Fixpoint run_loop (fuel : nat) (a : SliceAssembler) (chunks : ChunkMap) (i : Z) (b : list Z) : SliceFallback + (Z * list Z) :=
  match fuel with
  | O => inr (i, b)
  | S fuel =>
      if i <? count_ a then
        match chunks !! i with
        | None => inr (i, b)
        | Some c =>
            if (i + 1 <? count_ a) && negb (length c =? frag_ a)%nat then inl fbGeometry
            else run_loop fuel a chunks (u16 (i + 1)) (b ++ c)
        end
      else inr (i, b)
  end.

Fixpoint runs_loop (fuel : nat) (a : SliceAssembler) (chunks : ChunkMap) (i : Z) : SliceFallback + list Run :=
  match fuel with
  | O => inr []
  | S fuel =>
      if i <? count_ a then
        match chunks !! i with
        | None => runs_loop fuel a chunks (u16 (i + 1))
        | Some _ =>
            match run_loop (S (Z.to_nat (count_ a - i))) a chunks i [] with
            | inl fb => inl fb
            | inr (i', b) =>
                match runs_loop fuel a chunks i' with
                | inl fb => inl fb
                | inr rs => inr (mkRun (frag_off a i) b :: rs)
                end
            end
        end
      else inr []
  end.
Definition runs (a : SliceAssembler) (chunks : ChunkMap) : SliceFallback + list Run :=
  match runs_loop (S (Z.to_nat (count_ a))) a chunks (u16 (prefix_chunks_ a + 1)) with
  | inl fb => inl fb
  | inr rs => inr (mkRun 0 (buf_ a) :: rs)
  end.

(** The end of the unit, known from its last fragment. *)
Definition au_end (a : SliceAssembler) (chunks : ChunkMap) : option Z :=
  c ← chunks !! u16 (count_ a - 1); Some (frag_off a (count_ a - 1) + Z.of_nat (length c)).

Record Slice := mkSlice { sl_bytes : list Z; sl_h : SliceHeader; sl_off : Z }.
Record Found := mkFound { fslices : list (option Slice); nonvcl : list (nat * list Z); seen_vcl : bool }.

Definition span_of (a : SliceAssembler) : Z := u32 (slice_rows_ a * pic_w_ctbs (sa_sps a)).

(** A NAL unit of the run, from the start code at [s] to [e]. *)
Definition scan_nal (a : SliceAssembler) (r0 : bool) (r : Run) (s len e : nat) (f : Found) : SliceFallback + Found :=
  let body := (s + len)%nat in
  if negb r0 && (s =? 0)%nat && (len =? 3)%nat then inr f
  else if (e <? body + 2)%nat then inr f
  else
    let type := nal_type_of (at_ (rb r) body) in
    let bytes := take (e - s) (drop s (rb r)) in
    if 32 <=? type then
      inr (if r0 && negb (seen_vcl f) then mkFound (fslices f) (nonvcl f ++ [(s, bytes)]) (seen_vcl f) else f)
    else
      match parse_slice_header (take (e - body) (drop body (rb r))) (sa_sps a) (sa_pps a) with
      | inl spUnsupported | inl spDependent => inl fbUnsupported
      | inl spMalformed => inl fbGeometry
      | inr h =>
          let addr := if first h then 0 else address h in
          let k := Z.to_nat (addr / span_of a) in
          if negb (eqb (first h) (addr =? 0)) || negb (addr mod span_of a =? 0) || (n_ a <=? addr / span_of a)
             || match fslices f !! k with Some (Some _) => true | _ => false end
          then inl fbGeometry
          else inr (mkFound (<[k := Some (mkSlice bytes h (off r + Z.of_nat s))]> (fslices f)) (nonvcl f) true)
      end.

Fixpoint scan_codes (a : SliceAssembler) (r0 : bool) (r : Run) (reaches_end : bool) (codes : list Code) (f : Found)
    : SliceFallback + Found :=
  match codes with
  | [] => inr f
  | (s, len) :: codes =>
      match codes with
      | [] => if reaches_end then scan_nal a r0 r s len (length (rb r)) f else inr f
      | (e, _) :: _ =>
          match scan_nal a r0 r s len e f with
          | inl fb => inl fb
          | inr f => scan_codes a r0 r reaches_end codes f
          end
      end
  end.

Fixpoint scan_runs (a : SliceAssembler) (r0 : bool) (au_end : option Z) (rs : list Run) (f : Found) : SliceFallback + Found :=
  match rs with
  | [] => inr f
  | r :: rs =>
      let reaches_end := match au_end with Some e => off r + Z.of_nat (length (rb r)) =? e | None => false end in
      match scan_codes a r0 r reaches_end (find_codes (rb r) 0) f with
      | inl fb => inl fb
      | inr f => scan_runs a false au_end rs f
      end
  end.

Definition template (l : list (option Slice)) : option SliceHeader := sl_h <$> head (omap id l).

(** Slices [drain] has streamed: the slice NALs whose code lies before [emitted_]. *)
Definition is_slice_code (b : list Z) (c : Code) : bool :=
  (c.1 + c.2 <? length b)%nat && (nal_type_of (at_ b (c.1 + c.2)) <? 32).
Fixpoint done_loop (b : list Z) (emitted : nat) (sc : list Code) : nat :=
  match sc with
  | [] => 0
  | c :: sc =>
      if (emitted <=? c.1)%nat then 0
      else ((if is_slice_code b c then 1 else 0) + done_loop b emitted sc)%nat
  end.
Definition done_slices (a : SliceAssembler) : nat := done_loop (buf_ a) (emitted_ a) (sc_ a).

(** [for (k < done) if (!slices[k] || slices[k]->off >= emitted_) return] *)
Fixpoint check_done (emitted : nat) (l : list (option Slice)) (done : nat) {struct done} : option bool :=
  match done with
  | O => Some true
  | S done =>
      match l with
      | [] => None
      | None :: _ => Some false
      | Some s :: l => if Z.of_nat emitted <=? sl_off s then Some false else check_done emitted l done
      end
  end.

(** The pieces of slices [k], [k + 1], ...; the inner [None] is a fill that is refused. *)
Fixpoint slice_pieces (a : SliceAssembler) (t : SliceHeader) (k : Z) (l : list (option Slice))
    : option (option (list (list Z))) :=
  match l with
  | [] => Some (Some [])
  | s :: l =>
      p ← (match s with
           | Some s => Some (Some (sl_bytes s))
           | None =>
               make_skip_slice (sa_sps a) (sa_pps a) t (u32 (k * span_of a))
                 (Z.min (u32 ((k + 1) * span_of a)) (u32 (pic_w_ctbs (sa_sps a) * pic_h_ctbs (sa_sps a))))
           end);
      match p with
      | None => Some None
      | Some p => ps ← slice_pieces a t (k + 1) l; Some (option_map (cons p) ps)
      end
  end.

Fixpoint first_missing (k : nat) (l : list (option Slice)) : nat :=
  match l with [] => k | None :: _ => k | Some _ :: l => first_missing (S k) l end.

Definition salvage_of (a : SliceAssembler) (l : list (option Slice)) : SliceSalvage :=
  let present := Z.of_nat (length (omap id l)) in
  let behind := Z.of_nat (length (omap id (drop (S (first_missing 0 l)) l))) in
  mkSliceSalvage true (n_ a) (u8 present) (u8 (n_ a - present)) (u8 behind) fbNone.

Definition plan (a : SliceAssembler) (chunks : ChunkMap) : option (SliceFallback + (list (list Z) * SliceSalvage)) :=
  if negb (log2_ctb (sa_sps a) =? kCtbLog2) then Some (inl fbUnsupported)
  else if (n_ a =? 0) || (frag_ a <=? hdr_len_ a)%nat then Some (inl fbGeometry)
  else if negb (Z.of_nat (length (buf_ a)) =? frag_off a (prefix_chunks_ a)) then Some (inl fbGeometry)
  else
    match runs a chunks with
    | inl fb => Some (inl fb)
    | inr rs =>
        match scan_runs a true (au_end a chunks) rs (mkFound (replicate (Z.to_nat (n_ a)) None) [] false) with
        | inl fb => Some (inl fb)
        | inr f =>
            match template (fslices f) with
            | None => Some (inl fbNoTemplate)
            | Some t =>
                if slice_type t =? 2 then Some (inl fbISlice)
                else
                  let done := done_slices a in
                  ok ← check_done (emitted_ a) (fslices f) done;
                  if negb ok then Some (inl fbGeometry)
                  else
                    let lead := if (done =? 0)%nat
                                then map snd (List.filter (fun x => emitted_ a <=? x.1)%nat (nonvcl f)) else [] in
                    ps ← slice_pieces a t (Z.of_nat done) (drop done (fslices f));
                    match ps with
                    | None => Some (inl fbGeometry)
                    | Some ps => Some (inr (lead ++ ps, salvage_of a (fslices f)))
                    end
            end
        end
    end.

Record Finished := mkFinished { fin : SliceAssembler; outs : list (list Z); raw : option (list Z) }.

Definition set_result (a : SliceAssembler) (r : SliceSalvage) : SliceAssembler := set_emitted a (emitted_ a) r.

Definition finish (a : SliceAssembler) (chunks : ChunkMap) : option Finished :=
  let a := extend_prefix a chunks in
  let rest := drop (emitted_ a) (buf_ a) in
  let r := result_ a in
  if prefix_chunks_ a =? count_ a then
    Some (mkFinished (set_emitted a (length (buf_ a))
            (mkSliceSalvage (salvaged r) (n_ a) (n_ a) (filled r) (kept_after_hole r) (fallback r))) [rest] None)
  else
    p ← plan a chunks;
    match p with
    | inl fb =>
        Some (mkFinished (set_emitted a (length (buf_ a))
                (mkSliceSalvage (salvaged r) (ss_slices r) (kept r) (filled r) (kept_after_hole r) fb)) [] (Some rest))
    | inr (pieces, res) => Some (mkFinished (set_result a res) pieces None)
    end.

(** ** Proofs: what salvage emits

    The unit is cut into fragments of one size, the frame header before its bytes.  Whatever
    fragments are there, what [drain] streams is a prefix of the unit; [finish] completes it,
    or emits whole NAL units of the unit and fills. *)
Local Open Scope Z_scope.
Local Open Scope mabur_scope.

(** ** Start codes *)

Definition code_at (b : list Z) (c : Code) : Prop :=
  (c.1 + c.2 <= length b)%nat /\ at_ b c.1 = 0 /\ at_ b (c.1 + 1) = 0 /\
  (c.2 = 3%nat /\ at_ b (c.1 + 2) = 1 \/ c.2 = 4%nat /\ at_ b (c.1 + 2) = 0 /\ at_ b (c.1 + 3) = 1).

(** Codes of a scan: each is one, in order, none overlapping. *)
Fixpoint codes_ok (b : list Z) (from : nat) (l : list Code) : Prop :=
  match l with
  | [] => True
  | c :: l => (from <= c.1)%nat /\ code_at b c /\ codes_ok b (c.1 + c.2) l
  end.

Lemma codes_ok_from b from from' l : (from' <= from)%nat -> codes_ok b from l -> codes_ok b from' l.
Proof. destruct l as [|c l]; cbn; [done |]. intros H (H1 & H2 & H3). split; [lia | done]. Qed.

Lemma find_codes_ok fuel b j : codes_ok b j (find_codes_loop fuel b j).
Proof.
  revert j. induction fuel as [|fuel IH]; intros j; cbn [find_codes_loop]; [done |].
  destruct (Nat.ltb_spec (length b) (j + 3)); [done |].
  destruct (negb (at_ b j =? 0) || _) eqn:E; [apply (codes_ok_from _ (j + 1)); [lia | apply IH] |].
  apply orb_false_iff in E as [E1 E2]. apply negb_false_iff, Z.eqb_eq in E1, E2.
  destruct (Z.eqb_spec (at_ b (j + 2)) 1).
  { cbn [codes_ok fst snd]. split; [done |]. split; [| apply IH]. unfold code_at. cbn [fst snd]. split_and!; [done.. | by left]. }
  destruct (_ && _ && _) eqn:E; [| apply (codes_ok_from _ (j + 1)); [lia | apply IH]].
  apply andb_prop in E as [E E5]. apply andb_prop in E as [E3 E4]. apply Z.eqb_eq in E3, E5. apply Nat.leb_le in E4.
  cbn [codes_ok fst snd]. split; [done |]. split; [| apply IH]. unfold code_at. cbn [fst snd]. split_and!; [done.. | by right].
Qed.

Lemma codes_ok_all b from l : codes_ok b from l -> Forall (code_at b) l.
Proof. revert from. induction l as [|c l IH]; cbn; intros from; [constructor |]. intros (_ & H & Hl). constructor; eauto. Qed.

Lemma code_at_app b b' c : code_at b c -> code_at (b ++ b') c.
Proof.
  unfold code_at, at_. intros (H & H0 & H1 & H2). rewrite length_app.
  assert (c.2 = 3 \/ c.2 = 4)%nat as Hc by (destruct H2 as [[-> _] | [-> _]]; auto).
  rewrite !app_nth1 by lia. split; [lia |]. split; [done |]. split; [done |].
  destruct H2 as [[E H2] | [E [H2 H3]]]; [left | right]; rewrite ?app_nth1 by lia; done.
Qed.

(** ** Where the NAL units of a stream are, said without the scanner

    A unit begins at "00 00 01"; a zero byte just before belongs to it. *)

Definition is_mark (b : list Z) (p : nat) : bool :=
  (p + 3 <=? length b)%nat && (at_ b p =? 0) && (at_ b (p + 1) =? 0) && (at_ b (p + 2) =? 1).

Definition marks_from (b : list Z) (j : nat) : list nat := List.filter (is_mark b) (seq j (length b - j)).
Definition marks (b : list Z) : list nat := marks_from b 0.

Definition zero_before (b : list Z) (j p : nat) : bool := (j <? p)%nat && (at_ b (p - 1) =? 0).
Definition nal_start (b : list Z) (p : nat) : nat := if zero_before b 0 p then (p - 1)%nat else p.

Definition code_from (b : list Z) (j p : nat) : Code := if zero_before b j p then ((p - 1)%nat, 4%nat) else (p, 3%nat).

Lemma is_mark_spec b p : is_mark b p = true <-> (p + 3 <= length b)%nat /\ at_ b p = 0 /\ at_ b (p + 1) = 0 /\ at_ b (p + 2) = 1.
Proof. unfold is_mark. rewrite !andb_true_iff, Nat.leb_le, !Z.eqb_eq. tauto. Qed.

Lemma not_mark b p : ~ ((p + 3 <= length b)%nat /\ at_ b p = 0 /\ at_ b (p + 1) = 0 /\ at_ b (p + 2) = 1) -> is_mark b p = false.
Proof. intros H. apply not_true_is_false. by rewrite is_mark_spec. Qed.

Lemma marks_from_skip b j : is_mark b j = false -> marks_from b j = marks_from b (j + 1).
Proof.
  intros H. unfold marks_from. destruct (length b - j)%nat as [|n] eqn:E.
  - replace (length b - (j + 1))%nat with 0%nat by lia. done.
  - cbn [seq List.filter]. rewrite H. replace (j + 1)%nat with (S j) by lia. f_equal. f_equal. lia.
Qed.

Lemma marks_from_take b j : is_mark b j = true -> marks_from b j = j :: marks_from b (j + 1).
Proof.
  intros H. pose proof (proj1 (is_mark_spec b j) H) as [Hl _]. unfold marks_from. destruct (length b - j)%nat as [|n] eqn:E; [lia |].
  cbn [seq List.filter]. rewrite H. replace (j + 1)%nat with (S j) by lia. do 3 f_equal. lia.
Qed.

Lemma marks_from_end b j : (length b < j + 3)%nat -> marks_from b j = [].
Proof.
  intros H. unfold marks_from. remember (length b - j)%nat as n eqn:E. assert (Hn : (n < 3)%nat) by lia. clear E. revert j H.
  induction n as [|n IH]; intros j H; [done |]. cbn [seq List.filter]. rewrite not_mark by lia. apply IH; lia.
Qed.

Lemma marks_from_in b j p : In p (marks_from b j) <-> (j <= p)%nat /\ is_mark b p = true.
Proof.
  unfold marks_from. rewrite filter_In, in_seq. split; [intros [? ?]; split; [lia | done] | intros [? H]; split; [| done]].
  apply is_mark_spec in H as [? _]. lia.
Qed.

Lemma map_code_from b j j' l : (forall p, In p l -> zero_before b j p = zero_before b j' p) -> map (code_from b j) l = map (code_from b j') l.
Proof. intros H. apply map_ext_in. intros p Hp. unfold code_from. by rewrite (H p Hp). Qed.

(** A later start changes a code only at its own place. *)
Lemma zero_before_later b j k p : (j <= k <= p)%nat -> (p = k -> zero_before b j p = false) -> zero_before b j p = zero_before b k p.
Proof.
  intros Hk He. destruct (Nat.eq_dec p k) as [-> | Hne].
  - rewrite He by done. unfold zero_before. by rewrite Nat.ltb_irrefl.
  - unfold zero_before. rewrite !(proj2 (Nat.ltb_lt _ _)) by lia. done.
Qed.

Lemma zero_before_false b j p : at_ b (p - 1) <> 0 -> zero_before b j p = false.
Proof. intros H. unfold zero_before. apply Z.eqb_neq in H. by rewrite H, andb_false_r. Qed.

Lemma map_code_skip b j k : (j <= k)%nat -> (is_mark b k = true -> zero_before b j k = false) ->
  map (code_from b j) (marks_from b k) = map (code_from b k) (marks_from b k).
Proof.
  intros Hk H. apply map_code_from. intros p [Hp Hm]%marks_from_in. apply zero_before_later; [lia |]. intros ->. by apply H.
Qed.

(** The scanner finds the marks. *)
Lemma find_codes_marks b : forall fuel j, (length b - j <= fuel)%nat -> find_codes_loop fuel b j = map (code_from b j) (marks_from b j).
Proof.
  assert (Hstep : forall j k, is_mark b j = false -> k = (j + 1)%nat -> (is_mark b k = true -> zero_before b j k = false) ->
    map (code_from b k) (marks_from b k) = map (code_from b j) (marks_from b j)).
  { intros j k Hj -> Hk. rewrite (marks_from_skip b j Hj). symmetry. apply map_code_skip; [lia | exact Hk]. }
  induction fuel as [|fuel IH]; intros j Hf; cbn [find_codes_loop]; [by rewrite marks_from_end by lia |].
  destruct (Nat.ltb_spec (length b) (j + 3)); [by rewrite marks_from_end by lia |].
  destruct (Z.eqb_spec (at_ b j) 0) as [E0 | E0]; cbn [negb orb].
  2: { rewrite IH by lia. apply Hstep; [apply not_mark; tauto | done |]. intros _. apply zero_before_false. by replace (j + 1 - 1)%nat with j by lia. }
  destruct (Z.eqb_spec (at_ b (j + 1)) 0) as [E1 | E1]; cbn [negb].
  2: { rewrite IH by lia. apply Hstep; [apply not_mark; tauto | done |]. intros Hm. apply is_mark_spec in Hm as (_ & Hm & _). done. }
  destruct (Z.eqb_spec (at_ b (j + 2)) 1) as [E2 | E2].
  { rewrite IH by lia. rewrite (marks_from_take b j) by (by apply is_mark_spec).
    rewrite (marks_from_skip b (j + 1)), (marks_from_skip b (j + 1 + 1)).
    2: { apply not_mark. replace (j + 1 + 1)%nat with (j + 2)%nat by lia. rewrite E2. lia. }
    2: { apply not_mark. replace (j + 1 + 1)%nat with (j + 2)%nat by lia. rewrite E2. lia. }
    replace (j + 1 + 1 + 1)%nat with (j + 3)%nat by lia. cbn [map]. f_equal.
    - unfold code_from, zero_before. by rewrite Nat.ltb_irrefl.
    - symmetry. apply map_code_skip; [lia |]. intros _. apply zero_before_false. replace (j + 3 - 1)%nat with (j + 2)%nat by lia. lia. }
  assert (Hj : is_mark b j = false) by (apply not_mark; tauto).
  destruct ((at_ b (j + 2) =? 0) && (j + 4 <=? length b)%nat && (at_ b (j + 3) =? 1)) eqn:Ec.
  { apply andb_prop in Ec as [Ec E3%Z.eqb_eq]. apply andb_prop in Ec as [E2'%Z.eqb_eq E4%Nat.leb_le].
    rewrite IH by lia. rewrite (marks_from_skip b j Hj), (marks_from_take b (j + 1)).
    2: { apply is_mark_spec. replace (j + 1 + 1)%nat with (j + 2)%nat by lia. replace (j + 1 + 2)%nat with (j + 3)%nat by lia. split; [lia | done]. }
    rewrite (marks_from_skip b (j + 1 + 1)), (marks_from_skip b (j + 1 + 1 + 1)).
    2, 3: apply not_mark; replace (j + 1 + 1 + 1)%nat with (j + 3)%nat by lia; rewrite E3; lia.
    replace (j + 1 + 1 + 1 + 1)%nat with (j + 4)%nat by lia. cbn [map]. f_equal.
    - unfold code_from, zero_before. rewrite (proj2 (Nat.ltb_lt _ _)) by lia. replace (j + 1 - 1)%nat with j by lia. by rewrite E0.
    - symmetry. apply map_code_skip; [lia |]. intros _. apply zero_before_false. replace (j + 4 - 1)%nat with (j + 3)%nat by lia. lia. }
  rewrite IH by lia. apply Hstep; [exact Hj | done |]. intros Hm. exfalso. apply is_mark_spec in Hm as (Hm1 & _ & Hm2 & Hm3).
  replace (j + 1 + 1)%nat with (j + 2)%nat in Hm2 by lia. replace (j + 1 + 2)%nat with (j + 3)%nat in Hm3 by lia.
  rewrite Hm2, Hm3, (proj2 (Nat.leb_le _ _)) in Ec by lia. done.
Qed.

Definition codes_of (b : list Z) : list Code := map (code_from b 0) (marks b).

Lemma find_codes_all b : find_codes b 0 = codes_of b.
Proof. unfold find_codes, codes_of, marks. apply find_codes_marks. lia. Qed.

(** Marks do not overlap. *)
Lemma mark_gap b p q : is_mark b p = true -> is_mark b q = true -> (p < q)%nat -> (p + 3 <= q)%nat.
Proof.
  intros (_ & _ & P1 & P2)%is_mark_spec (_ & Q0 & Q1 & _)%is_mark_spec Hl.
  destruct (Nat.eq_dec q (p + 1)) as [-> |]; [rewrite <- Nat.add_assoc in Q1; cbn in Q1; lia |].
  destruct (Nat.eq_dec q (p + 2)) as [-> |]; [lia |]. lia.
Qed.

Lemma marks_from_cons b : forall n j p ms, (length b - j <= n)%nat -> marks_from b j = p :: ms ->
  (j <= p)%nat /\ is_mark b p = true /\ ms = marks_from b (p + 3).
Proof.
  induction n as [|n IH]; intros j p ms Hn H; [by rewrite marks_from_end in H by lia |].
  destruct (is_mark b j) eqn:Hj.
  - rewrite marks_from_take in H by done. injection H as <- <-. split; [lia |]. split; [done |].
    pose proof (fun q Hq Hl => mark_gap b j q Hj Hq Hl) as G.
    rewrite (marks_from_skip b (j + 1)) by (apply not_true_is_false; intros Hq; specialize (G _ Hq); lia).
    rewrite (marks_from_skip b (j + 1 + 1)) by (apply not_true_is_false; intros Hq; specialize (G _ Hq); lia).
    f_equal. lia.
  - rewrite marks_from_skip in H by done. destruct (Nat.eq_dec (length b - j) 0); [by rewrite marks_from_end in H by lia |].
    destruct (IH (j + 1)%nat p ms ltac:(lia) H) as (H1 & H2 & H3). split; [lia | done].
Qed.

Lemma code_from_end b j p : ((code_from b j p).1 + (code_from b j p).2 = p + 3)%nat.
Proof. unfold code_from, zero_before. destruct (Nat.ltb_spec j p); cbn [andb]; [destruct (_ =? 0) |]; cbn; lia. Qed.

Lemma push_marks b : forall n j sc, length (marks_from b j) = n ->
  (forall c, last sc = Some c -> at_ b (c.1 + c.2 - 1) = 1 /\ (0 < c.1 + c.2)%nat /\ forall q, In q (marks_from b j) -> (c.1 + c.2 <= q)%nat) ->
  foldl push_code sc (map (code_from b 0) (marks_from b j)) = sc ++ map (code_from b 0) (marks_from b j).
Proof.
  induction n as [|n IH]; intros j sc Hn Hsc; destruct (marks_from b j) as [|p ms] eqn:E; cbn [length] in Hn; try lia; [by rewrite app_nil_r |].
  destruct (marks_from_cons b _ j p ms (le_n _) E) as (Hj & Hp & ->). cbn [map foldl].
  assert (Hpush : push_code sc (code_from b 0 p) = sc ++ [code_from b 0 p]).
  { unfold push_code. destruct (last sc) as [c|] eqn:El; [| done]. destruct (Hsc c eq_refl) as (H1 & H0 & H2).
    specialize (H2 p (or_introl eq_refl)). rewrite (proj2 (Nat.leb_le _ _)); [done |].
    unfold code_from, zero_before. destruct (0 <? p)%nat; cbn [andb]; [| done].
    destruct (Z.eqb_spec (at_ b (p - 1)) 0) as [Ez |]; cbn [fst]; [| done].
    destruct (Nat.eq_dec p (c.1 + c.2)) as [Eq |]; [rewrite Eq, H1 in Ez; lia | lia]. }
  rewrite Hpush, IH; [by rewrite <- app_assoc | lia |].
  intros c. rewrite last_snoc. intros [= <-]. rewrite code_from_end. pose proof (proj1 (is_mark_spec b p) Hp) as (_ & _ & _ & H2).
  split; [by replace (p + 3 - 1)%nat with (p + 2)%nat by lia |]. split; [lia |]. intros q [Hq _]%marks_from_in. exact Hq.
Qed.

Lemma filter_nil_false {A} (f : A -> bool) l : (forall x, In x l -> f x = false) -> List.filter f l = [].
Proof. induction l as [|x l IH]; intros H; [done |]. cbn. rewrite (H x (or_introl eq_refl)). apply IH. intros y Hy. apply H. by right. Qed.

(** They are in order. *)
Lemma marks_ordered b : forall n j p ms q, (length b - j <= n)%nat -> marks_from b j = ms ++ [p] -> In q ms -> (q < p)%nat.
Proof.
  induction n as [|n IH]; intros j p ms q Hn E Hq; [rewrite marks_from_end in E by lia; by destruct ms |].
  destruct (Nat.eq_dec (length b - j) 0); [rewrite marks_from_end in E by lia; by destruct ms |].
  destruct (is_mark b j) eqn:Hj; [| rewrite marks_from_skip in E by done; apply (IH (j + 1)%nat p ms q); [lia | done | done]].
  rewrite marks_from_take in E by done. destruct ms as [|m ms]; [destruct Hq |]. injection E as <- E. destruct Hq as [<- | Hq].
  - assert (Hp : In p (marks_from b (j + 1))) by (rewrite E; apply in_or_app; right; by left). apply marks_from_in in Hp as [? _]. lia.
  - apply (IH (j + 1)%nat p ms q); [lia | done | done].
Qed.

(** The marks of a stream cut short. *)
Lemma is_mark_take b n p : (p + 3 <= n)%nat -> is_mark (take n b) p = is_mark b p.
Proof.
  intros H. unfold is_mark, at_. rewrite length_take, !nth_lookup, !lookup_take_lt by lia.
  destruct (Nat.leb_spec (p + 3) (Nat.min n (length b))), (Nat.leb_spec (p + 3) (length b)); try lia; done.
Qed.

Lemma marks_take b n : (n <= length b)%nat -> marks b = marks (take n b) ++ marks_from b (n - 2).
Proof.
  intros Hn. unfold marks, marks_from. rewrite length_take, Nat.min_l, !Nat.sub_0_r by lia.
  replace (length b) with ((n - 2) + (length b - (n - 2)))%nat at 1 by lia. rewrite seq_app, List.filter_app. f_equal.
  replace n with ((n - 2) + (n - (n - 2)))%nat at 3 by lia. rewrite seq_app, List.filter_app.
  assert (H2 : List.filter (is_mark (take n b)) (seq (0 + (n - 2)) (n - (n - 2))) = []).
  { apply filter_nil_false. intros p Hp. apply in_seq in Hp. apply not_mark. rewrite length_take. lia. }
  rewrite H2, app_nil_r. apply filter_ext_in. intros p Hp. apply in_seq in Hp. symmetry. apply is_mark_take. lia.
Qed.

Lemma code_from_take b n p : (p < n)%nat -> code_from (take n b) 0 p = code_from b 0 p.
Proof. intros H. unfold code_from, zero_before, at_. by rewrite !nth_lookup, lookup_take_lt by lia. Qed.

Lemma codes_of_take b n : (n <= length b)%nat -> codes_of b = codes_of (take n b) ++ map (code_from b 0) (marks_from b (n - 2)).
Proof.
  intros Hn. unfold codes_of. rewrite (marks_take b n Hn), map_app. f_equal. apply map_ext_in. intros p [_ Hp]%marks_from_in.
  apply is_mark_spec in Hp as [Hp _]. rewrite length_take in Hp. symmetry. apply code_from_take. lia.
Qed.

(** Scanning on from the last three bytes finds what a scan of the whole finds. *)
Lemma rescan b n : (n <= length b)%nat -> foldl push_code (codes_of (take n b)) (find_codes b (n - 3)) = codes_of b.
Proof.
  intros Hn. unfold find_codes. rewrite find_codes_marks by lia. rewrite (codes_of_take b n Hn).
  assert (Hlast : forall c, last (codes_of (take n b)) = Some c -> exists p, is_mark b p = true /\ (p + 3 <= n)%nat /\ (c.1 + c.2 = p + 3)%nat).
  { intros c Hc. unfold codes_of in Hc. rewrite fmap_last in Hc. apply fmap_Some in Hc as (p & Hp & ->).
    apply last_Some_elem_of, list_elem_of_In, marks_from_in in Hp as [_ Hp]. pose proof (proj1 (is_mark_spec _ _) Hp) as [Hl _]. rewrite length_take in Hl.
    rewrite is_mark_take in Hp by lia. exists p. split; [done |]. split; [lia | apply code_from_end]. }
  assert (Hrest : forall j, (n - 2 <= j)%nat ->
    foldl push_code (codes_of (take n b)) (map (code_from b 0) (marks_from b j)) = codes_of (take n b) ++ map (code_from b 0) (marks_from b j)).
  { intros j Hj. eapply push_marks; [reflexivity |]. intros c Hc. destruct (Hlast c Hc) as (p & Hp & Hl & ->).
    pose proof (proj1 (is_mark_spec b p) Hp) as (_ & _ & _ & H2). split; [by replace (p + 3 - 1)%nat with (p + 2)%nat by lia |].
    split; [lia |]. intros q [Hq Hm]%marks_from_in. apply (mark_gap b p q Hp Hm). lia. }
  destruct (Nat.le_gt_cases n 2) as [Hs | Hs].
  { replace (n - 3)%nat with 0%nat by lia. replace (n - 2)%nat with 0%nat by lia. apply Hrest. lia. }
  replace (n - 2)%nat with (n - 3 + 1)%nat in * by lia. set (k := (n - 3)%nat) in *.
  assert (Hmap : map (code_from b k) (marks_from b (k + 1)) = map (code_from b 0) (marks_from b (k + 1))).
  { apply map_code_from. intros p [Hp _]%marks_from_in. symmetry. apply zero_before_later; lia. }
  destruct (is_mark b k) eqn:Hk; [| rewrite marks_from_skip, Hmap by done; by apply Hrest].
  rewrite marks_from_take by done. cbn [map foldl]. rewrite Hmap.
  assert (Hrej : push_code (codes_of (take n b)) (code_from b k k) = codes_of (take n b)).
  { unfold push_code. destruct (last (codes_of (take n b))) as [c|] eqn:El.
    - assert (Hc : (c.1 + c.2 = n)%nat).
      { unfold codes_of in El. rewrite fmap_last in El. apply fmap_Some in El as (p & Hp & ->). rewrite code_from_end.
        assert (Hin : In k (marks (take n b))) by (apply marks_from_in; split; [lia | by rewrite is_mark_take by lia]).
        enough (p = k) by lia. apply last_Some in Hp as [ms Hms].
        rewrite Hms in Hin. apply in_app_or in Hin as [Hin | [-> | []]]; [| done]. pose proof (marks_ordered _ _ 0 _ _ _ (le_n _) Hms Hin) as Hlt.
        assert (Hpm : is_mark (take n b) p = true) by (apply (proj1 (marks_from_in (take n b) 0 p)); change (In p (marks (take n b))); rewrite Hms; apply in_or_app; right; by left).
        apply is_mark_spec in Hpm as [Hpl _]. rewrite length_take in Hpl. lia. }
      rewrite Hc. unfold code_from, zero_before. rewrite Nat.ltb_irrefl. cbn [andb fst]. by rewrite (proj2 (Nat.leb_gt _ _)) by lia.
    - exfalso. apply last_None in El. unfold codes_of in El. apply map_eq_nil in El.
      assert (Hin : In k (marks (take n b))) by (apply marks_from_in; split; [lia | by rewrite is_mark_take by lia]). by rewrite El in Hin. }
  rewrite Hrej. apply Hrest. lia.
Qed.

(** ** Pieces of the unit *)

Lemma at_sub (au b : list Z) o j : b = take (length b) (drop o au) -> (j < length b)%nat -> at_ b j = at_ au (o + j).
Proof.
  intros E H. unfold at_. rewrite E, !nth_lookup, lookup_take_lt, lookup_drop by done. done.
Qed.

Lemma code_at_sub au b o c : b = take (length b) (drop o au) -> code_at b c ->
  code_at au ((o + c.1)%nat, c.2).
Proof.
  intros E (H & H0 & H1 & H2).
  assert (Hc : c.2 = 3%nat \/ c.2 = 4%nat) by (destruct H2 as [[-> _] | [-> _]]; auto).
  assert (Hlen : length b = Nat.min (length b) (length au - o)) by (rewrite E at 1; by rewrite length_take, length_drop).
  unfold code_at. cbn [fst snd]. rewrite <- !Nat.add_assoc.
  rewrite <- (at_sub _ _ _ c.1 E), <- (at_sub _ _ _ (c.1 + 1) E), <- (at_sub _ _ _ (c.1 + 2) E) by lia.
  split; [lia |]. split; [done |]. split; [done |].
  destruct H2 as [[-> H2] | [E4 [H2 H3]]]; [by left | right]. by rewrite <- (at_sub _ _ _ (c.1 + 3) E) by lia.
Qed.

(** A whole NAL unit of [au], with its start code, at [o]: the next code follows it, or the end. *)
Definition nal_of (au : list Z) (o len : nat) (b : list Z) : Prop :=
  b = take (length b) (drop o au) /\ (o + length b <= length au)%nat /\ code_at au (o, len) /\ (len + 2 <= length b)%nat /\
  ((o + length b)%nat = length au \/ exists l, code_at au ((o + length b)%nat, l)).

(** Several drains, and what they emit. *)
Fixpoint drains (a : SliceAssembler) (l : list ChunkMap) : SliceAssembler * list (list Z) :=
  match l with
  | [] => (a, [])
  | m :: l => let '(a, o) := drain a m in let '(a, os) := drains a l in (a, o ++ os)
  end.

(** ** The units of a stream *)

(** The NAL units that another follows: start, first byte, end. *)
Fixpoint units_of (b : list Z) (ps : list nat) : list (nat * nat * nat) :=
  match ps with
  | p :: ((q :: _) as ps') => (nal_start b p, (p + 3)%nat, nal_start b q) :: units_of b ps'
  | _ => []
  end.

(** The NAL unit with its first byte here is a slice. *)
Definition is_slice_nal (b : list Z) (body : nat) : bool := Z.land (Z.shiftr (at_ b body) 1) 63 <? 32.

(** The units before the first slice, each with its offset; one without a whole header is none. *)
Fixpoint leading_of (b : list Z) (us : list (nat * nat * nat)) : list (nat * list Z) :=
  match us with
  | [] => []
  | (s, body, e) :: us =>
      if (e <? body + 2)%nat then leading_of b us
      else if is_slice_nal b body then []
      else (s, take (e - s) (drop s b)) :: leading_of b us
  end.
Definition leading (b : list Z) : list (nat * list Z) := leading_of b (units_of b (marks b)).

(** The slices among the first [n] bytes. *)
Definition slices_within (b : list Z) (n : nat) : nat :=
  length (List.filter (fun p => is_slice_nal b (p + 3)) (marks (take n b))).

Lemma code_from_start b p : (code_from b 0 p).1 = nal_start b p.
Proof. unfold code_from, nal_start. by destruct (zero_before b 0 p). Qed.

Lemma code_from_eta b p : code_from b 0 p = (nal_start b p, (p + 3 - nal_start b p)%nat).
Proof. pose proof (code_from_end b 0 p) as H. rewrite <- code_from_start. destruct (code_from b 0 p) as [s len]. cbn [fst snd] in *. f_equal. lia. Qed.

Lemma nal_start_le b p : (nal_start b p <= p /\ p <= nal_start b p + 1)%nat.
Proof. unfold nal_start. destruct (zero_before b 0 p); lia. Qed.

(** A unit's start is behind the mark before it. *)
Lemma nal_start_gap b p q : is_mark b p = true -> is_mark b q = true -> (p < q)%nat -> (p + 3 <= nal_start b q)%nat.
Proof.
  intros Hp Hq Hl. pose proof (mark_gap b p q Hp Hq Hl) as Hg. apply is_mark_spec in Hp as (_ & _ & _ & H2).
  unfold nal_start, zero_before. destruct (Nat.ltb_spec 0 q); cbn [andb]; [| done].
  destruct (Z.eqb_spec (at_ b (q - 1)) 0) as [E |]; [| done].
  destruct (Nat.eq_dec q (p + 3)) as [-> |]; [| lia]. replace (p + 3 - 1)%nat with (p + 2)%nat in E by lia. lia.
Qed.

Lemma scan_leading a r ps f f' : scan_codes a true r false (map (code_from (rb r) 0) ps) f = inr f' ->
  nonvcl f' = nonvcl f ++ if seen_vcl f then [] else leading_of (rb r) (units_of (rb r) ps).
Proof.
  revert f. induction ps as [|p ps IH]; intros f; cbn [map scan_codes units_of leading_of].
  { intros [= <-]. destruct (seen_vcl f); by rewrite app_nil_r. }
  rewrite (code_from_eta (rb r) p). destruct ps as [|q ps]; cbn [map].
  { intros [= <-]. cbn [leading_of]. destruct (seen_vcl f); by rewrite app_nil_r. }
  rewrite (code_from_eta (rb r) q). destruct (scan_nal _ _ _ _ _ _ _) as [fb | f1] eqn:E; [done |].
  rewrite <- (code_from_eta (rb r) q). change (code_from (rb r) 0 q :: map (code_from (rb r) 0) ps) with (map (code_from (rb r) 0) (q :: ps)).
  intros H. specialize (IH f1 H). rewrite IH. clear IH H. cbn [leading_of]. revert E. unfold scan_nal. cbn [negb andb].
  pose proof (nal_start_le (rb r) p) as Hs. replace (nal_start (rb r) p + (p + 3 - nal_start (rb r) p))%nat with (p + 3)%nat by lia.
  destruct (_ <? p + 3 + 2)%nat; [by intros [= <-] |]. unfold is_slice_nal. fold (nal_type_of (at_ (rb r) (p + 3))).
  rewrite Z.ltb_antisym. destruct (32 <=? _); cbn [negb].
  - intros [= <-]. destruct (seen_vcl f) eqn:Ev; cbn [negb]; [by rewrite Ev |]. cbn [nonvcl seen_vcl]. by rewrite <- app_assoc.
  - destruct (parse_slice_header _ _ _) as [[] | h]; try done. cbn zeta. destruct (_ || _ || _ || _); [done |]. intros [= <-].
    cbn [nonvcl seen_vcl]. destruct (seen_vcl f); by rewrite app_nil_r.
Qed.

Lemma scan_later a r re codes f f' : scan_codes a false r re codes f = inr f' -> nonvcl f' = nonvcl f.
Proof.
  assert (Hn : forall s len e f f', scan_nal a false r s len e f = inr f' -> nonvcl f' = nonvcl f).
  { intros s len e g g'. unfold scan_nal. destruct (_ && _ && _); [by intros [= <-] |]. destruct (_ <? _)%nat; [by intros [= <-] |].
    destruct (32 <=? _); [by intros [= <-] |]. destruct (parse_slice_header _ _ _) as [[] | h]; try done. cbn zeta.
    destruct (_ || _ || _ || _); [done |]. by intros [= <-]. }
  revert f. induction codes as [|[s len] codes IH]; intros f; cbn [scan_codes]; [by intros [= <-] |].
  destruct codes as [|[e l] codes]; [destruct re; [apply Hn | by intros [= <-]] |].
  destruct (scan_nal _ _ _ _ _ _ _) as [fb | f1] eqn:E; [done |]. intros H. rewrite (IH f1 H). by eapply Hn.
Qed.

Lemma scan_runs_later a ae rs f f' : scan_runs a false ae rs f = inr f' -> nonvcl f' = nonvcl f.
Proof.
  revert f. induction rs as [|r rs IH]; intros f; cbn [scan_runs]; [by intros [= <-] |].
  destruct (scan_codes _ _ _ _ _ _) as [fb | f1] eqn:E; [done |]. intros H. rewrite (IH f1 H). by eapply scan_later.
Qed.

(** ** What was scanned and streamed *)

Record scan_ok (a : SliceAssembler) : Prop := {
  sk_scanned : exists n, (n <= length (buf_ a))%nat /\ scanned_ a = (n - 3)%nat /\ sc_ a = codes_of (take n (buf_ a));
  sk_emitted : emitted_ a = 0%nat \/ exists p, In p (marks (buf_ a)) /\ emitted_ a = nal_start (buf_ a) p /\ In (code_from (buf_ a) 0 p) (sc_ a);
}.

Lemma marks_app b x p : In p (marks b) -> In p (marks (b ++ x)) /\ code_from (b ++ x) 0 p = code_from b 0 p.
Proof.
  intros [_ Hp]%marks_from_in. pose proof (proj1 (is_mark_spec b p) Hp) as [Hl _].
  rewrite <- (take_app_length b x) in Hp. rewrite is_mark_take in Hp by lia. split; [apply marks_from_in; split; [lia | done] |].
  rewrite <- (code_from_take (b ++ x) (length b)) by lia. by rewrite take_app_length.
Qed.

Lemma new_scan_ok sps pps rows count h : scan_ok (new_slice_assembler sps pps rows count h).
Proof. split; [by exists 0%nat | by left]. Qed.

Lemma take_chunk_scan a c : scan_ok a -> scan_ok (take_chunk a c).
Proof.
  intros [(n & Hn & Hs & Hc) He].
  assert (E : exists x, buf_ (take_chunk a c) = buf_ a ++ x /\ scanned_ (take_chunk a c) = scanned_ a /\ sc_ (take_chunk a c) = sc_ a /\
    emitted_ (take_chunk a c) = emitted_ a) by (unfold take_chunk; destruct (_ =? 0); by eexists).
  destruct E as (x & E1 & E2 & E3 & E4). split; rewrite E1, ?E2, ?E3, ?E4.
  - exists n. rewrite length_app, take_app_le by done. split; [lia | done].
  - destruct He as [? | (p & Hp & Hq & Hi)]; [by left | right]. exists p. destruct (marks_app (buf_ a) x p Hp) as [M1 M2].
    split; [done |]. rewrite M2. split; [| done]. rewrite Hq, <- !code_from_start. by rewrite M2.
Qed.

Lemma extend_scan fuel a chunks : scan_ok a -> scan_ok (extend_loop fuel a chunks).
Proof. revert a. induction fuel as [|fuel IH]; intros a Ha; cbn [extend_loop]; [done |]. destruct (chunks !! _); [by apply IH, take_chunk_scan | done]. Qed.

Lemma scan_prefix_ok a : scan_ok a -> scan_ok (scan_prefix a) /\ sc_ (scan_prefix a) = codes_of (buf_ a).
Proof.
  intros [(n & Hn & Hs & Hc) He].
  assert (E : sc_ (scan_prefix a) = codes_of (buf_ a)) by (cbn [scan_prefix set_scan sc_]; rewrite Hs, Hc; by apply rescan).
  split; [| exact E]. split; cbn [scan_prefix set_scan buf_ scanned_ emitted_].
  - exists (length (buf_ a)). rewrite take_ge by lia. split; [lia |]. split; [done | exact E].
  - destruct He as [? | (p & Hp & Hq & _)]; [by left | right]. exists p. split; [done |]. split; [done |].
    change (In (code_from (buf_ a) 0 p) (sc_ (scan_prefix a))). rewrite E. unfold codes_of. by apply in_map.
Qed.

Lemma drain_scan a chunks : scan_ok a -> scan_ok (drain a chunks).1.
Proof.
  intros Ha. unfold drain. destruct (scan_prefix_ok (extend_prefix a chunks) (extend_scan _ a chunks Ha)) as [Hs E].
  set (a2 := scan_prefix (extend_prefix a chunks)) in *. change (buf_ (extend_prefix a chunks)) with (buf_ a2) in E.
  destruct (last (sc_ a2)) as [c|] eqn:El; [| done]. destruct (_ <? _)%nat; [| done]. cbn [fst].
  destruct Hs as [Hn _]. split; [exact Hn |]. right. cbn [set_emitted buf_ emitted_ sc_].
  pose proof El as El'. apply last_Some_elem_of, list_elem_of_In in El'. rewrite E in El. unfold codes_of in El. rewrite fmap_last in El.
  apply fmap_Some in El as (p & Hp & ->). exists p. split; [by apply last_Some_elem_of, list_elem_of_In in Hp |].
  split; [apply code_from_start | exact El'].
Qed.

Lemma drains_scan l : forall a, scan_ok a -> scan_ok (drains a l).1.
Proof.
  induction l as [|m l IH]; intros a Ha; cbn [drains]; [done |]. pose proof (drain_scan a m Ha) as H. destruct (drain a m) as [a1 o].
  specialize (IH a1 H). by destruct (drains a1 l).
Qed.

Lemma filter_all {A} (f : A -> bool) l : (forall x, In x l -> f x = true) -> List.filter f l = l.
Proof. induction l as [|x l IH]; intros H; [done |]. cbn. rewrite (H x (or_introl eq_refl)). f_equal. apply IH. intros y Hy. apply H. by right. Qed.

(** The count of [done_slices] stops at the first code not streamed; none behind it is. *)
Lemma done_loop_count b n em : forall k j, length (marks_from (take n b) j) = k ->
  done_loop b em (map (code_from b 0) (marks_from (take n b) j)) =
  length (List.filter (fun p => (nal_start b p <? em)%nat && is_slice_code b (code_from b 0 p)) (marks_from (take n b) j)).
Proof.
  induction k as [|k IH]; intros j Hk; destruct (marks_from (take n b) j) as [|p ms] eqn:E; cbn [length] in Hk; try lia; [done |].
  destruct (marks_from_cons _ _ j p ms (le_n _) E) as (_ & Hp & ->). cbn [map done_loop List.filter]. rewrite code_from_start.
  assert (Hb : forall q, is_mark (take n b) q = true -> is_mark b q = true).
  { intros q Hq. pose proof (proj1 (is_mark_spec _ _) Hq) as [Hl _]. rewrite length_take in Hl. by rewrite is_mark_take in Hq by lia. }
  rewrite Nat.ltb_antisym. destruct (Nat.leb_spec em (nal_start b p)) as [Hle | Hlt]; cbn [negb andb].
  - rewrite filter_nil_false; [done |]. intros q [Hq Hm]%marks_from_in. rewrite (proj2 (Nat.ltb_ge _ _)); [done |].
    pose proof (nal_start_gap b p q (Hb _ Hp) (Hb _ Hm) ltac:(lia)). pose proof (nal_start_le b p). lia.
  - rewrite IH by lia. destruct (is_slice_code b (code_from b 0 p)); done.
Qed.

Lemma done_slices_within a : scan_ok a -> done_slices a = slices_within (buf_ a) (emitted_ a).
Proof.
  intros [(n & Hn & _ & Hc) He]. unfold done_slices, slices_within. set (b := buf_ a) in *. set (em := emitted_ a) in *.
  assert (Hcs : sc_ a = map (code_from b 0) (marks_from (take n b) 0)).
  { rewrite Hc. unfold codes_of. apply map_ext_in. intros p [_ [Hp _]%is_mark_spec]%marks_from_in. rewrite length_take in Hp. apply code_from_take. lia. }
  rewrite Hcs, (done_loop_count b n em _ 0 eq_refl). change (marks_from (take n b) 0) with (marks (take n b)).
  destruct He as [-> | (p0 & Hp0 & Hem & Hin)].
  { rewrite filter_nil_false by done. done. }
  rewrite Hcs in Hin. apply in_map_iff in Hin as (p1 & E1 & Hin). assert (p1 = p0) as ->.
  { pose proof (code_from_end b 0 p1) as H. rewrite E1, code_from_end in H. lia. }
  apply marks_from_in in Hp0 as [_ Hp0], Hin as [_ Hin]. pose proof (proj1 (is_mark_spec _ _) Hin) as [Hl _]. rewrite length_take in Hl.
  pose proof (nal_start_le b p0) as Hs. assert (Hen : (em <= n)%nat) by lia.
  assert (Hb : forall q, is_mark (take n b) q = true -> is_mark b q = true).
  { intros q Hq. pose proof (proj1 (is_mark_spec _ _) Hq) as [Hq' _]. rewrite length_take in Hq'. by rewrite is_mark_take in Hq by lia. }
  rewrite (marks_take (take n b) em) by (rewrite length_take; lia). rewrite take_take, Nat.min_l by done.
  rewrite List.filter_app, (filter_nil_false _ (marks_from _ _)), app_nil_r.
  - f_equal. apply filter_ext_in. intros p [_ [Hp _]%is_mark_spec]%marks_from_in. rewrite length_take in Hp.
    rewrite (proj2 (Nat.ltb_lt _ _)) by (pose proof (nal_start_le b p); lia). unfold is_slice_code, is_slice_nal. rewrite code_from_end.
    rewrite (proj2 (Nat.ltb_lt _ _)) by lia. done.
  - intros q [Hq Hm]%marks_from_in. rewrite (proj2 (Nat.ltb_ge _ _)); [done |]. apply Hb in Hm.
    destruct (Nat.lt_trichotomy q p0) as [Hlt | [-> | Hgt]]; [| lia |].
    + pose proof (nal_start_gap b q p0 Hm Hp0 Hlt). lia.
    + pose proof (nal_start_gap b p0 q Hp0 Hm Hgt). lia.
Qed.

(** ** Genuine fragments *)

Section Unit.
Context (sps : Sps) (pps : Pps) (rows : Z) (hdr au : list Z) (F : nat) (count : Z).
Context (HF : (length hdr < F)%nat) (Hc : 1 <= count <= 65535).
(** Every fragment but the last is full, and the last is the rest. *)
Context (Hcov : ((Z.to_nat count - 1) * F <= length (hdr ++ au) <= Z.to_nat count * F)%nat).

Definition frag_at (i : Z) : list Z := take F (drop (Z.to_nat i * F) (hdr ++ au)).
Definition genuine (chunks : ChunkMap) : Prop := forall i c, chunks !! i = Some c -> 0 <= i < count /\ c = frag_at i.

Lemma frag_at_0 : drop (length hdr) (frag_at 0) = take (F - length hdr) au.
Proof.
  unfold frag_at. change (drop (Z.to_nat 0 * F) (hdr ++ au)) with (hdr ++ au). rewrite skipn_firstn_comm, drop_app_length. done.
Qed.

Lemma frag_at_pos i : 1 <= i -> frag_at i = take F (drop (Z.to_nat i * F - length hdr) au).
Proof.
  intros Hi. unfold frag_at. rewrite drop_app_ge by nia. done.
Qed.

Lemma frag_full i : 0 <= i -> i + 1 < count -> length (frag_at i) = F.
Proof. intros Hi Hl. unfold frag_at. rewrite length_take, length_drop. nia. Qed.

Record sa_ok (a : SliceAssembler) : Prop := {
  so_sps : sa_sps a = sps; so_pps : sa_pps a = pps; so_rows : slice_rows_ a = rows; so_count : count_ a = count;
  so_hdr : hdr_len_ a = length hdr; so_n : n_ a = slice_count sps rows;
  so_p : 0 <= prefix_chunks_ a <= count;
  so_frag : frag_ a = if prefix_chunks_ a =? 0 then 0%nat else length (frag_at 0);
  so_buf : buf_ a = take (Z.to_nat (prefix_chunks_ a) * F - length hdr) au;
  so_em : (emitted_ a <= length (buf_ a))%nat;
  so_sc : Forall (code_at (buf_ a)) (sc_ a);
  so_res : result_ a = default_salvage;
}.

Lemma new_sa_ok : sa_ok (new_slice_assembler sps pps rows count (length hdr)).
Proof. split; try done. cbn. lia. Qed.

Lemma take_chunk_buf a : sa_ok a -> prefix_chunks_ a < count ->
  let a' := take_chunk a (frag_at (prefix_chunks_ a)) in sa_ok a' /\ prefix_chunks_ a' = prefix_chunks_ a + 1.
Proof.
  intros [H1 H2 H3 H4 H5 H6 Hp Hfr Hb He Hs Hr] Hlt. cbn zeta. unfold take_chunk. rewrite Hfr.
  assert (Hu : u16 (prefix_chunks_ a + 1) = prefix_chunks_ a + 1) by (apply wrap_small; unfold in_width; lia).
  assert (Hcode : forall x, Forall (code_at (buf_ a ++ x)) (sc_ a))
    by (intros x; eapply Forall_impl; [exact Hs | intros c; apply code_at_app]).
  destruct (Z.eqb_spec (prefix_chunks_ a) 0) as [E | E]; (split; [split | ]); cbn; rewrite ?Hu; try done; try lia.
  - rewrite (proj2 (Z.eqb_neq _ _)) by lia. by rewrite E.
  - rewrite Hb, H5, E, frag_at_0. change (Z.to_nat (0 + 1)) with 1%nat. change (Z.to_nat 0) with 0%nat. by rewrite Nat.mul_0_l, Nat.mul_1_l.
  - rewrite length_app. lia.
  - by rewrite (proj2 (Z.eqb_neq _ _)) by lia.
  - rewrite Hb, frag_at_pos by lia. rewrite take_take_drop. f_equal. nia.
  - rewrite length_app. lia.
Qed.

Lemma extend_ok fuel a chunks : genuine chunks -> sa_ok a ->
  let a' := extend_loop fuel a chunks in
  sa_ok a' /\ prefix_chunks_ a <= prefix_chunks_ a' /\ emitted_ a' = emitted_ a /\ sc_ a' = sc_ a /\
  (count - prefix_chunks_ a < Z.of_nat fuel -> chunks !! prefix_chunks_ a' = None).
Proof.
  intros Hg. revert a. induction fuel as [|fuel IH]; intros a Ha; cbn [extend_loop].
  { split; [done |]. split; [lia |]. split; [done |]. split; [done |]. destruct Ha. lia. }
  destruct (chunks !! prefix_chunks_ a) as [c|] eqn:E; [| by split_and!; try lia].
  destruct (Hg _ _ E) as [Hi ->]. destruct (take_chunk_buf a Ha) as [Ha' Hp]; [lia |].
  destruct (IH _ Ha') as (I1 & I2 & I3 & I4 & I5). split; [done |]. split; [lia |].
  assert (Hem : emitted_ (take_chunk a (frag_at (prefix_chunks_ a))) = emitted_ a /\ sc_ (take_chunk a (frag_at (prefix_chunks_ a))) = sc_ a)
    by (unfold take_chunk; by destruct (_ =? 0)).
  destruct Hem as [Em1 Em2]. split; [congruence |]. split; [congruence |]. intros Hf. apply I5. lia.
Qed.

Lemma extend_prefix_ok a chunks : genuine chunks -> sa_ok a ->
  let a' := extend_prefix a chunks in
  sa_ok a' /\ emitted_ a' = emitted_ a /\ chunks !! prefix_chunks_ a' = None.
Proof.
  intros Hg Ha. destruct (extend_ok (Z.to_nat (65536 - prefix_chunks_ a)) a chunks Hg Ha) as (E1 & _ & E2 & _ & E3).
  split; [done |]. split; [done |]. apply E3. destruct Ha. lia.
Qed.

Lemma push_codes_ok b l sc : Forall (code_at b) sc -> Forall (code_at b) l -> Forall (code_at b) (foldl push_code sc l).
Proof.
  intros Hsc Hl. revert sc Hsc. induction Hl as [|c l Hcl Hl IH]; intros sc Hsc; [done |]. cbn. apply IH. unfold push_code.
  destruct (last sc); [destruct (_ <=? _)%nat |]; auto using Forall_app_2.
Qed.

(** What is out is the first [emitted_] bytes of the unit. *)
Lemma drain_ok a chunks out : genuine chunks -> sa_ok a -> out = take (emitted_ a) au ->
  let '(a', o) := drain a chunks in sa_ok a' /\ out ++ concat o = take (emitted_ a') au.
Proof.
  intros Hg Ha ->. unfold drain. destruct (extend_prefix_ok a chunks Hg Ha) as (Ha1 & He & _). rewrite <- He.
  set (a1 := extend_prefix a chunks) in *.
  assert (Ha2 : sa_ok (scan_prefix a1)).
  { destruct Ha1. split; try done. cbn. apply push_codes_ok; [done |].
    eapply codes_ok_all, find_codes_ok. }
  set (a2 := scan_prefix a1) in *. change (emitted_ a1) with (emitted_ a2).
  destruct (last (sc_ a2)) as [c|] eqn:El; [| by rewrite app_nil_r].
  destruct (Nat.ltb_spec (emitted_ a2) c.1); [| by rewrite app_nil_r].
  destruct Ha2 as [H1 H2 H3 H4 H5 H6 Hp Hfr Hb Hem Hs Hr]. cbn [concat]. rewrite app_nil_r. split.
  - split; try done. cbn. apply last_Some_elem_of in El. rewrite Forall_forall in Hs. destruct (Hs _ El) as [Hx _]. change (buf_ a1) with (buf_ a2). lia.
  - cbn [set_emitted emitted_]. apply last_Some_elem_of in El. rewrite Forall_forall in Hs. destruct (Hs _ El) as [Hx _].
    replace (take (emitted_ a2) au) with (take (emitted_ a2) (buf_ a2)).
    + rewrite take_take_drop. replace (emitted_ a2 + (c.1 - emitted_ a2))%nat with c.1 by lia.
      rewrite Hb, take_take. f_equal. rewrite Hb, length_take in Hx. lia.
    + rewrite Hb, take_take. f_equal. rewrite Hb, length_take in Hem. lia.
Qed.

Lemma drains_ok l : Forall genuine l -> forall a out, sa_ok a -> out = take (emitted_ a) au ->
  let '(a', o) := drains a l in sa_ok a' /\ out ++ concat o = take (emitted_ a') au.
Proof.
  induction 1 as [|m l Hm Hl IH]; intros a out Ha Ho; cbn [drains]; [by rewrite app_nil_r |].
  pose proof (drain_ok a m out Hm Ha Ho) as H. destruct (drain a m) as [a1 o]. destruct H as [Ha1 Ho1].
  pose proof (IH a1 _ Ha1 Ho1) as H2. destruct (drains a1 l) as [a2 os]. rewrite concat_app, app_assoc. done.
Qed.
Lemma finish_complete a chunks out : genuine chunks -> sa_ok a -> out = take (emitted_ a) au ->
  (forall i, 0 <= i < count -> is_Some (chunks !! i)) ->
  exists r, finish a chunks = Some r /\ raw r = None /\ out ++ concat (outs r) = au /\
    result_ (fin r) = mkSliceSalvage false (n_ a) (n_ a) 0 0 fbNone.
Proof.
  intros Hg Ha -> Hall. unfold finish. destruct (extend_prefix_ok a chunks Hg Ha) as (Ha1 & He & Hn).
  set (a1 := extend_prefix a chunks) in *.
  assert (Hp : prefix_chunks_ a1 = count).
  { destruct Ha1 as [_ _ _ _ _ _ Hp _ _ _ _ _]. destruct (Z.eq_dec (prefix_chunks_ a1) count); [done |].
    destruct (Hall (prefix_chunks_ a1)) as [c Hcc]; [lia |]. congruence. }
  rewrite (so_count _ Ha1), Hp, Z.eqb_refl. eexists. split; [done |]. cbn [raw outs fin concat]. split; [done |].
  assert (Hb : buf_ a1 = au).
  { rewrite (so_buf _ Ha1), Hp. apply take_ge. rewrite length_app in Hcov. lia. }
  rewrite Hb, <- He, app_nil_r, take_drop. split; [done |].
  cbn [set_emitted result_]. rewrite (so_res _ Ha1), (so_n _ Ha1), (so_n _ Ha). done.
Qed.

(** ** The plan *)

(** A run is the part of the unit at its offset. *)
Definition run_ok (r : Run) : Prop := 0 <= off r /\ rb r = take (length (rb r)) (drop (Z.to_nat (off r)) au).

Lemma take_length_sub n o : take n (drop o au) = take (length (take n (drop o au))) (drop o au).
Proof. rewrite length_take. destruct (Nat.le_ge_cases n (length (drop o au))); [by rewrite Nat.min_l | rewrite Nat.min_r by done; by rewrite !take_ge]. Qed.

Lemma run_loop_ok a chunks fuel i0 i b r : genuine chunks -> sa_ok a -> 1 <= i0 <= i ->
  b = take (Z.to_nat (i - i0) * F) (drop (Z.to_nat i0 * F - length hdr) au) ->
  run_loop fuel a chunks i b = inr r -> exists n, r.2 = take n (drop (Z.to_nat i0 * F - length hdr) au).
Proof.
  intros Hg Ha. revert i b. induction fuel as [|fuel IH]; intros i b Hi -> H; cbn [run_loop] in H; [injection H as <-; by eexists |].
  destruct (Z.ltb_spec i (count_ a)) as [Hlt | _]; [| injection H as <-; by eexists].
  rewrite (so_count _ Ha) in *. destruct (chunks !! i) as [c|] eqn:E; [| injection H as <-; by eexists].
  destruct (_ && _); [done |]. destruct (Hg _ _ E) as [_ ->].
  assert (Hu : u16 (i + 1) = i + 1) by (apply wrap_small; unfold in_width; lia). rewrite Hu in H.
  apply IH in H; [done | lia |]. rewrite frag_at_pos by lia.
  replace (drop (Z.to_nat i * F - length hdr) au) with (drop (Z.to_nat (i - i0) * F) (drop (Z.to_nat i0 * F - length hdr) au))
    by (rewrite drop_drop; f_equal; nia).
  rewrite take_take_drop. f_equal. nia.
Qed.

Lemma runs_loop_ok a chunks fuel i rs : genuine chunks -> sa_ok a -> 1 <= prefix_chunks_ a < count -> 1 <= i ->
  runs_loop fuel a chunks i = inr rs -> Forall run_ok rs.
Proof.
  intros Hg Ha Hp. revert i rs. induction fuel as [|fuel IH]; intros i rs Hi H; cbn [runs_loop] in H; [injection H as <-; constructor |].
  destruct (Z.ltb_spec i (count_ a)) as [Hlt | _]; [| injection H as <-; constructor].
  rewrite (so_count _ Ha) in *. destruct (chunks !! i) as [c|] eqn:E.
  - destruct (run_loop _ a chunks i []) as [fb | [i' b]] eqn:El; [done |].
    destruct (runs_loop fuel a chunks i') as [fb | rs'] eqn:Er; [done |]. injection H as <-.
    pose proof El as El'. apply run_loop_ok with (i0 := i) in El' as [n Hn]; [| done | done | lia | by rewrite Z.sub_diag].
    assert (Hi' : 1 <= i').
    { clear -El Hi Hc Ha. revert El. generalize (S (Z.to_nat (count - i))) as k. generalize (@nil Z) as x. revert i Hi.
      intros i Hi x k. revert i x Hi. induction k as [|k IHk]; intros i x Hi El; cbn [run_loop] in El; [by injection El as <- |].
      destruct (Z.ltb_spec i (count_ a)); [| by injection El as <-]. rewrite (so_count _ Ha) in *.
      destruct (chunks !! i); [| by injection El as <-]. destruct (_ && _); [done |]. apply IHk in El; [done |].
      rewrite wrap_small by (unfold in_width; lia). lia. }
    constructor; [| by apply IH in Er]. unfold run_ok. cbn [off rb].
    assert (Hoff : frag_off a i = Z.of_nat (Z.to_nat i * F - length hdr)).
    { unfold frag_off. rewrite (so_frag _ Ha), (so_hdr _ Ha), (proj2 (Z.eqb_neq _ _)), frag_full by lia. nia. }
    rewrite Hoff, Nat2Z.id. split; [lia |]. cbn in Hn. rewrite Hn. apply take_length_sub.
  - rewrite wrap_small in H by (unfold in_width; lia). apply IH in H; [done | lia].
Qed.

Lemma runs_ok a chunks rs : genuine chunks -> sa_ok a -> 1 <= prefix_chunks_ a < count -> runs a chunks = inr rs -> Forall run_ok rs.
Proof.
  intros Hg Ha Hp. unfold runs. destruct (runs_loop _ _ _ _) as [fb | rs'] eqn:E; [done |]. intros [= <-].
  constructor; [| apply runs_loop_ok in E; [done.. |]; rewrite wrap_small by (unfold in_width; lia); lia].
  unfold run_ok. cbn [off rb]. split; [lia |]. change (Z.to_nat 0) with 0%nat. rewrite (so_buf _ Ha). apply (take_length_sub _ 0).
Qed.

Lemma au_end_ok a chunks e : genuine chunks -> sa_ok a -> 1 <= prefix_chunks_ a < count -> au_end a chunks = Some e -> e = Z.of_nat (length au).
Proof.
  intros Hg Ha Hp. unfold au_end. rewrite (so_count _ Ha), wrap_small by (unfold in_width; lia).
  destruct (chunks !! (count - 1)) as [c|] eqn:E; [| done]. cbn [mbind option_bind]. intros [= <-].
  destruct (Hg _ _ E) as [_ ->]. unfold frag_off, frag_at at 1.
  rewrite (so_frag _ Ha), (so_hdr _ Ha), (proj2 (Z.eqb_neq _ _)), frag_full, length_take, length_drop by lia.
  rewrite length_app in Hcov. rewrite length_app. replace (Z.to_nat (count - 1)) with (Z.to_nat count - 1)%nat by lia. nia.
Qed.

(** ** Found slices *)

Definition slice_addr (h : SliceHeader) : Z := if first h then 0 else address h.

(** Slice [k] as the unit has it: a whole NAL of the unit whose header parses to [k]'s address. *)
Definition own_slice (span : Z) (k : nat) (s : Slice) : Prop :=
  exists o len, sl_off s = Z.of_nat o /\ nal_of au o len (sl_bytes s) /\
    parse_slice_header (drop len (sl_bytes s)) sps pps = inr (sl_h s) /\ slice_addr (sl_h s) = Z.of_nat k * span.

Record found_ok (a : SliceAssembler) (f : Found) : Prop := {
  fo_len : length (fslices f) = Z.to_nat (n_ a);
  fo_slice : forall k s, fslices f !! k = Some (Some s) -> own_slice (span_of a) k s;
  fo_nonvcl : Forall (fun x => exists len, nal_of au x.1 len x.2) (nonvcl f);
}.

Lemma sub_nal r s len e : run_ok r -> code_at (rb r) (s, len) -> (s + len + 2 <= e <= length (rb r))%nat ->
  ((Z.to_nat (off r) + e)%nat = length au \/ exists l, code_at (rb r) (e, l)) ->
  nal_of au (Z.to_nat (off r) + s) len (take (e - s) (drop s (rb r))).
Proof.
  intros [H0 Hr] Hcode He Hend. set (o := Z.to_nat (off r)) in *.
  assert (Hlen : length (take (e - s) (drop s (rb r))) = (e - s)%nat) by (rewrite length_take, length_drop; lia).
  unfold nal_of. rewrite Hlen.
  assert (Hbound : (o + length (rb r) <= length au \/ length (rb r) = 0)%nat).
  { apply (f_equal length) in Hr. rewrite length_take, length_drop in Hr. lia. }
  split.
  - rewrite Hr, skipn_firstn_comm, take_take, drop_drop. f_equal. lia.
  - split; [lia |]. split; [by apply (code_at_sub au (rb r) o (s, len)) |]. split; [lia |].
    replace (o + s + (e - s))%nat with (o + e)%nat by lia. destruct Hend as [? | [l Hl]]; [by left | right].
    exists l. by apply (code_at_sub au (rb r) o (e, l)).
Qed.

Lemma scan_nal_ok a r0 r s len e f f' : sa_ok a -> found_ok a f -> run_ok r -> (r0 = true -> off r = 0) ->
  code_at (rb r) (s, len) -> (e <= length (rb r))%nat ->
  ((Z.to_nat (off r) + e)%nat = length au \/ exists l, code_at (rb r) (e, l)) ->
  scan_nal a r0 r s len e f = inr f' -> found_ok a f'.
Proof.
  intros Ha Hf Hr Hoff Hcode He Hend. unfold scan_nal. destruct (_ && _ && _); [by intros [= <-] |].
  destruct (Nat.ltb_spec e (s + len + 2)) as [|Hb]; [by intros [= <-] |].
  pose proof (sub_nal r s len e Hr Hcode (conj Hb He) Hend) as Hnal.
  destruct (32 <=? _).
  { intros [= <-]. destruct r0; cbn [andb]; [| done]. destruct (negb _); [| done].
    destruct Hf as [F1 F2 F3]. split; [done | done |]. cbn. apply Forall_app_2; [done |]. constructor; [| constructor].
    exists len. cbn. by rewrite (Hoff eq_refl) in Hnal. }
  destruct (parse_slice_header _ _ _) as [[] | h] eqn:Ep; try done. cbn zeta. fold (slice_addr h).
  destruct (negb (eqb _ _) || _ || _ || _) eqn:Eg; [done |]. intros [= <-].
  apply orb_false_iff in Eg as [Eg E4]. apply orb_false_iff in Eg as [Eg E3]. apply orb_false_iff in Eg as [_ E2].
  apply negb_false_iff, Z.eqb_eq in E2. apply Z.leb_gt in E3.
  destruct Hf as [F1 F2 F3]. split; [cbn [fslices]; by rewrite length_insert | | done].
  cbn [fslices]. intros k sl Hk. destruct (decide (k = Z.to_nat (slice_addr h / span_of a))) as [-> | Hne];
    [| rewrite list_lookup_insert_ne in Hk by done; by apply F2].
  assert (Hlt : (Z.to_nat (slice_addr h / span_of a) < length (fslices f))%nat).
  { apply lookup_lt_Some in Hk. by rewrite length_insert in Hk. }
  rewrite list_lookup_insert_eq in Hk by done. injection Hk as <-. destruct Hr as [Hr0 Hr].
  exists (Z.to_nat (off r) + s)%nat, len. cbn [sl_off sl_bytes sl_h]. split; [lia |]. split; [done |]. split.
  - rewrite skipn_firstn_comm, drop_drop, <- (so_sps _ Ha), <- (so_pps _ Ha), <- Ep. do 2 f_equal. lia.
  - assert (Hn : 0 <= slice_addr h) by (unfold slice_addr; destruct (first h); [done | by eapply address_nonneg]).
    assert (Hs : 0 <= span_of a) by (apply wrap_range; lia).
    destruct (Z.eq_dec (span_of a) 0) as [E0 | E0].
    { rewrite E0, Z.mod_0_r in E2. rewrite E2, E0. lia. }
    rewrite Z2Nat.id by (apply Z.div_pos; lia). pose proof (Z.div_mod (slice_addr h) (span_of a) E0). lia.
Qed.

Lemma scan_codes_ok a r0 r re codes from f f' : sa_ok a -> found_ok a f -> run_ok r -> (r0 = true -> off r = 0) ->
  codes_ok (rb r) from codes -> (re = true -> (Z.to_nat (off r) + length (rb r))%nat = length au) ->
  scan_codes a r0 r re codes f = inr f' -> found_ok a f'.
Proof.
  intros Ha Hf Hr Hoff Hcs Hre. revert from f Hf Hcs. induction codes as [|[s len] codes IH]; intros from f Hf Hcs H; cbn [scan_codes] in H; [by injection H as <- |].
  destruct Hcs as (_ & Hcode & Hcs). destruct codes as [|[e l] codes].
  - destruct re; [| by injection H as <-]. eapply scan_nal_ok; eauto.
  - destruct (scan_nal _ _ _ _ _ _ _) as [fb | f1] eqn:E; [done |].
    assert (Hcode2 : code_at (rb r) (e, l)) by apply Hcs.
    eapply (IH _ f1); [| exact Hcs | exact H]. eapply scan_nal_ok; [done | exact Hf | done | done | exact Hcode | | | exact E].
    + destruct Hcode2 as [Hx _]. cbn in Hx. lia.
    + right. by exists l.
Qed.

Lemma scan_runs_ok a chunks rs : genuine chunks -> sa_ok a -> 1 <= prefix_chunks_ a < count -> Forall run_ok rs ->
  forall r0 f f', (r0 = true -> match rs with r :: _ => off r = 0 | [] => True end) -> found_ok a f ->
  scan_runs a r0 (au_end a chunks) rs f = inr f' -> found_ok a f'.
Proof.
  intros Hg Ha Hp. induction 1 as [|r rs Hr Hrs IH]; intros r0 f f' H0 Hf H; cbn [scan_runs] in H; [by injection H as <- |].
  destruct (scan_codes _ _ _ _ _ _) as [fb | f1] eqn:E; [done |].
  apply (IH false f1 f'); [done | | exact H].
  eapply scan_codes_ok; [done | exact Hf | done | done | apply find_codes_ok | | exact E].
  intros Hre. destruct (au_end a chunks) as [e|] eqn:Ee; [| done].
  apply (au_end_ok a chunks) in Ee; [| done..]. apply Z.eqb_eq in Hre. destruct Hr. lia.
Qed.

Lemma template_some l t : template l = Some t -> exists k s, l !! k = Some (Some s) /\ sl_h s = t.
Proof.
  unfold template. induction l as [|[s|] l IH]; cbn; [done | |].
  - intros [= <-]. by exists 0%nat, s.
  - intros H. destruct (IH H) as (k & s & Hk & E). by exists (S k), s.
Qed.

Lemma make_skip_returns nal t f e : parse_slice_header nal sps pps = inr t -> exists r, make_skip_slice sps pps t f e = Some r.
Proof.
  intros Hp. unfold make_skip_slice. destruct (slice_type t =? 2); [by eexists |]. destruct (_ || _); [by eexists |].
  destruct (write_header_ok _ _ _ _ (mkHeaderEdit (f =? 0) f true) _ _ (parsed_at _ _ _ _ Hp) new_writer_ok) as (w & k & -> & _).
  by eexists.
Qed.

(** What stands for slice [k]: its own bytes, or a fill of exactly its rows. *)
Definition piece_ok (span : Z) (t : SliceHeader) (k : nat) (s : option Slice) (p : list Z) : Prop :=
  match s with
  | Some s => p = sl_bytes s /\ own_slice span k s
  | None => make_skip_slice sps pps t (u32 (Z.of_nat k * span))
              (Z.min (u32 ((Z.of_nat k + 1) * span)) (u32 (pic_w_ctbs sps * pic_h_ctbs sps))) = Some (Some p)
  end.

Lemma slice_pieces_ok a t nal l : sa_ok a -> parse_slice_header nal sps pps = inr t ->
  forall k, (forall i s, l !! i = Some (Some s) -> own_slice (span_of a) (k + i) s) ->
  exists r, slice_pieces a t (Z.of_nat k) l = Some r /\
    forall ps, r = Some ps -> length ps = length l /\
      forall i s p, l !! i = Some s -> ps !! i = Some p -> piece_ok (span_of a) t (k + i) s p.
Proof.
  intros Ha Hp. induction l as [|s l IH]; intros k Hown; cbn [slice_pieces].
  { eexists. split; [done |]. by intros ps [= <-]. }
  assert (Hs : exists p, match s with
    | Some s => Some (Some (sl_bytes s))
    | None => make_skip_slice (sa_sps a) (sa_pps a) t (u32 (Z.of_nat k * span_of a))
        (Z.min (u32 ((Z.of_nat k + 1) * span_of a)) (u32 (pic_w_ctbs (sa_sps a) * pic_h_ctbs (sa_sps a)))) end = Some p /\
    forall q, p = Some q -> piece_ok (span_of a) t k s q).
  { destruct s as [s|].
    - eexists. split; [done |]. intros q [= <-]. cbn. split; [done |]. specialize (Hown 0%nat s eq_refl). by rewrite Nat.add_0_r in Hown.
    - rewrite (so_sps _ Ha), (so_pps _ Ha).
      destruct (make_skip_returns nal t (u32 (Z.of_nat k * span_of a))
        (Z.min (u32 ((Z.of_nat k + 1) * span_of a)) (u32 (pic_w_ctbs sps * pic_h_ctbs sps))) Hp) as [r Hr].
      exists r. split; [done |]. intros q ->. exact Hr. }
  destruct Hs as (p & -> & Hq). cbn [mbind option_bind]. destruct p as [p|]; [| eexists; by split].
  destruct (IH (S k)) as (r & Hr & Hps).
  { intros i x Hx. replace (S k + i)%nat with (k + S i)%nat by lia. by apply Hown. }
  replace (Z.of_nat k + 1) with (Z.of_nat (S k)) by lia. rewrite Hr. cbn [mbind option_bind]. eexists. split; [done |].
  destruct r as [ps|]; [| done]. intros ? [= <-]. destruct (Hps ps eq_refl) as [L1 L2]. split; [cbn; lia |].
  intros [|i] x q; cbn.
  - intros [= <-] [= <-]. rewrite Nat.add_0_r. by apply Hq.
  - intros H1 H2. replace (k + S i)%nat with (S k + i)%nat by lia. by apply (L2 i x q).
Qed.

Lemma check_done_ok em done : forall l, (done <= length l)%nat ->
  exists b, check_done em l done = Some b /\
    (b = true -> forall k, (k < done)%nat -> exists s, l !! k = Some (Some s) /\ sl_off s < Z.of_nat em).
Proof.
  induction done as [|done IH]; intros l Hl; cbn [check_done]; [eexists; split; [done |]; intros _ k Hk; lia |].
  destruct l as [|[s|] l]; cbn [length] in Hl; [lia | |].
  - destruct (Z.leb_spec (Z.of_nat em) (sl_off s)); [by eexists |].
    destruct (IH l) as (b & Hb & Hk); [lia |]. exists b. split; [done |].
    intros Hbt [|k] Hlt; [by exists s |]. apply Hk; [done | lia].
  - by eexists.
Qed.

(** The slices present. *)
Definition present (l : list (option Slice)) : Z := Z.of_nat (length (omap id l)).

(** What is reported of the slices [l]: how many there are, how many of the unit's own are kept, how
    many are filled, and how many of those kept lie behind the first one missing. *)
Definition counted (l : list (option Slice)) (r : SliceSalvage) : Prop :=
  salvaged r = true /\ fallback r = fbNone /\ ss_slices r = Z.of_nat (length l) /\ kept r = present l /\
  filled r = Z.of_nat (length l) - present l /\
  (Forall is_Some l -> kept_after_hole r = 0) /\
  (forall l1 l2, l = l1 ++ None :: l2 -> Forall is_Some l1 -> kept_after_hole r = present l2).

Lemma first_missing_split l1 l2 k : Forall is_Some l1 -> first_missing k (l1 ++ None :: l2) = (k + length l1)%nat.
Proof. intros H. revert k. induction H as [|[s|] l1 [? [=]] H IH]; intros k; cbn; [lia | rewrite IH; lia]. Qed.

Lemma first_missing_none l k : Forall is_Some l -> first_missing k l = (k + length l)%nat.
Proof. intros H. revert k. induction H as [|[s|] l [? [=]] H IH]; intros k; cbn; [lia | rewrite IH; lia]. Qed.

Lemma omap_id_length {A} (l : list (option A)) : (length (omap id l) <= length l)%nat.
Proof. induction l as [|[x|] l IH]; cbn; lia. Qed.

Lemma salvage_counted a l : length l = Z.to_nat (n_ a) -> 0 <= n_ a < 256 -> counted l (salvage_of a l).
Proof.
  intros Hl Hn. unfold counted, salvage_of, present. cbn [salvaged ss_slices kept filled kept_after_hole fallback].
  pose proof (omap_id_length l) as Ho. rewrite !(wrap_small 8) by (unfold in_width; lia).
  split; [done |]. split; [done |]. split; [lia |]. split; [done |]. split; [lia |]. split.
  - intros H. by rewrite first_missing_none, drop_ge by (done || lia).
  - intros l1 l2 -> H. rewrite first_missing_split by done. change (S (0 + length l1)) with (S (length l1)).
    replace (drop (S (length l1)) (l1 ++ None :: l2)) with l2 by (by rewrite (cons_middle None l1 l2), app_assoc, drop_app_length' by (rewrite length_app; cbn; lia)).
    apply wrap_small. pose proof (omap_id_length l2). rewrite length_app in Hl. cbn [length] in Hl. unfold in_width. lia.
Qed.

(** The outcome of a unit that misses a fragment, after [out]: the rest of the part before the first
    fragment missing, or whole units.  The latter are the leading parameter sets not yet out, if no
    slice is, and a piece for each slice behind those that are. *)
Definition salvage_ok (chunks : ChunkMap) (span : Z) (out : list Z) (r : Finished) : Prop :=
  exists m, 0 <= m < count /\ chunks !! m = None /\
  let before := take (Z.to_nat m * F - length hdr) au in
  match raw r with
  | Some rest => outs r = [] /\ out ++ rest = before
  | None =>
      let streamed := slices_within au (length out) in
      exists t l lead ps,
        outs r = lead ++ ps /\
        lead = (if (streamed =? 0)%nat then map snd (List.filter (fun x => length out <=? x.1)%nat (leading before)) else []) /\
        Forall (fun b => exists o len, nal_of au o len b) lead /\
        length l = Z.to_nat (slice_count sps rows) /\ (streamed <= length l)%nat /\ length ps = (length l - streamed)%nat /\
        (forall k, (k < streamed)%nat -> exists s, l !! k = Some (Some s) /\ own_slice span k s /\ sl_off s < Z.of_nat (length out)) /\
        (exists k s, l !! k = Some (Some s) /\ sl_h s = t) /\
        (forall i s p, l !! (streamed + i)%nat = Some s -> ps !! i = Some p -> piece_ok span t (streamed + i) s p) /\
        counted l (result_ (fin r))
  end.

(** The first run ends before the unit does. *)
Lemma first_run_open a chunks : genuine chunks -> sa_ok a -> 1 <= prefix_chunks_ a < count -> chunks !! prefix_chunks_ a = None ->
  match au_end a chunks with Some e => 0 + Z.of_nat (length (buf_ a)) =? e | None => false end = false.
Proof.
  intros Hg Ha Hp Hn. destruct (au_end a chunks) as [e|] eqn:Ee; [| done]. pose proof Ee as Ee'.
  apply (au_end_ok a chunks) in Ee' as ->; [| done..]. apply Z.eqb_neq.
  assert (prefix_chunks_ a <> count - 1).
  { intros E. rewrite E in Hn. unfold au_end in Ee. rewrite (so_count _ Ha), wrap_small in Ee by (unfold in_width; lia). by rewrite Hn in Ee. }
  rewrite (so_buf _ Ha), length_take. rewrite length_app in Hcov. nia.
Qed.

Lemma scan_all_leading a chunks rs f : genuine chunks -> sa_ok a -> 1 <= prefix_chunks_ a < count -> chunks !! prefix_chunks_ a = None ->
  runs a chunks = inr rs -> scan_runs a true (au_end a chunks) rs (mkFound (replicate (Z.to_nat (n_ a)) None) [] false) = inr f ->
  nonvcl f = leading (buf_ a).
Proof.
  intros Hg Ha Hp Hn. unfold runs. destruct (runs_loop _ _ _ _) as [fb | rs']; [done |]. intros [= <-]. cbn [scan_runs off rb].
  rewrite first_run_open by done. rewrite find_codes_all. unfold codes_of.
  destruct (scan_codes _ _ _ _ _ _) as [fb | f1] eqn:E; [done |]. intros H. rewrite (scan_runs_later _ _ _ _ _ H).
  apply (scan_leading a (mkRun 0 (buf_ a)) (marks (buf_ a))) in E. exact E.
Qed.

Lemma slice_count_byte : 0 <= slice_count sps rows < 256.
Proof. unfold slice_count. cbv zeta. destruct (_ || _); [lia |]. destruct (_ <=? _); [apply wrap_range; lia | lia]. Qed.

Lemma slices_in_unit a : sa_ok a -> scan_ok a -> slices_within (buf_ a) (emitted_ a) = slices_within au (emitted_ a).
Proof.
  intros Ha Hs. unfold slices_within. pose proof (so_em _ Ha) as He.
  assert (Ht : take (emitted_ a) (buf_ a) = take (emitted_ a) au).
  { rewrite (so_buf _ Ha), take_take. f_equal. rewrite (so_buf _ Ha), length_take in He. lia. }
  rewrite Ht. f_equal. apply filter_ext_in. intros p Hp. unfold is_slice_nal. do 3 f_equal.
  apply marks_from_in in Hp as [_ Hp]. pose proof (proj1 (is_mark_spec _ _) Hp) as [Hl _]. rewrite length_take in Hl.
  destruct (sk_emitted _ Hs) as [E | (p0 & Hp0 & E & _)]; [lia |].
  apply marks_from_in in Hp0 as [_ [Hp0 _]%is_mark_spec]. pose proof (nal_start_le (buf_ a) p0).
  unfold at_. rewrite (so_buf _ Ha) in Hp0 |- *. rewrite length_take in Hp0. rewrite !nth_lookup, lookup_take_lt by lia. done.
Qed.

Lemma plan_ok a chunks : genuine chunks -> sa_ok a -> scan_ok a -> prefix_chunks_ a < count -> chunks !! prefix_chunks_ a = None ->
  (slices_within au (emitted_ a) <= Z.to_nat (n_ a))%nat ->
  exists p, plan a chunks = Some p /\
    match p with
    | inl _ => True
    | inr (pieces, res) =>
        salvage_ok chunks (span_of a) (take (emitted_ a) au) (mkFinished (set_result a res) pieces None)
    end.
Proof.
  intros Hg Ha Hk Hp Hn Hd. unfold plan. destruct (negb _); [by eexists |].
  destruct ((n_ a =? 0) || (frag_ a <=? hdr_len_ a)%nat) eqn:Ef; [by eexists |].
  apply orb_false_iff in Ef as [_ Ef]. apply Nat.leb_gt in Ef.
  assert (Hp1 : 1 <= prefix_chunks_ a < count).
  { rewrite (so_frag _ Ha) in Ef. destruct (Z.eqb_spec (prefix_chunks_ a) 0); [lia |]. pose proof (so_p _ Ha). lia. }
  destruct (negb _); [by eexists |].
  destruct (runs a chunks) as [fb | rs] eqn:Er; [by eexists |].
  pose proof (runs_ok a chunks rs Hg Ha Hp1 Er) as Hrs.
  destruct (scan_runs _ _ _ _ _) as [fb | f] eqn:Es; [by eexists |].
  pose proof (scan_all_leading a chunks rs f Hg Ha Hp1 Hn Er Es) as Hlead.
  assert (Hf : found_ok a f).
  { eapply scan_runs_ok; [done | done | done | exact Hrs | | | exact Es].
    - intros _. unfold runs in Er. destruct (runs_loop _ _ _ _); [done |]. by injection Er as <-.
    - split; cbn; [by rewrite length_replicate | | constructor]. intros k s Hx. apply lookup_replicate in Hx as [? _]. done. }
  destruct (template (fslices f)) as [t|] eqn:Et; [| by eexists]. destruct (slice_type t =? 2); [by eexists |].
  destruct (template_some _ _ Et) as (k0 & s0 & Hk0 & Ht). destruct Hf as [F1 F2 F3].
  destruct (F2 _ _ Hk0) as (o0 & len0 & _ & _ & Hparse & _). rewrite Ht in Hparse.
  rewrite (done_slices_within a Hk), (slices_in_unit a Ha Hk). set (done := slices_within au (emitted_ a)) in *.
  destruct (check_done_ok (emitted_ a) done (fslices f)) as (b & Hb & Hdone); [lia |].
  rewrite Hb. cbn [mbind option_bind]. destruct b; cbn [negb]; [| by eexists].
  destruct (slice_pieces_ok a t _ (drop done (fslices f)) Ha Hparse done) as (r & Hr & Hps).
  { intros i s. rewrite lookup_drop. apply F2. }
  rewrite Hr. cbn [mbind option_bind]. destruct r as [ps|]; [| by eexists]. eexists. split; [done |].
  destruct (Hps ps eq_refl) as [L1 L2].
  assert (Hlen : length (take (emitted_ a) au) = emitted_ a).
  { rewrite length_take. pose proof (so_em _ Ha) as He. rewrite (so_buf _ Ha), length_take in He. lia. }
  exists (prefix_chunks_ a). split; [lia |]. split; [exact Hn |]. cbn zeta. cbn [raw outs fin set_result set_emitted result_]. rewrite Hlen. fold done.
  exists t, (fslices f). eexists _, ps. split; [done |]. rewrite Hlead, (so_buf _ Ha). split; [done |]. split.
  { destruct (done =? 0)%nat; [| constructor]. rewrite List.Forall_forall. intros x Hx. apply in_map_iff in Hx as (y & <- & Hy).
    apply filter_In in Hy as [Hy _]. rewrite <- (so_buf _ Ha), <- Hlead in Hy. rewrite List.Forall_forall in F3.
    destruct (F3 _ Hy) as [len Hl]. by exists y.1, len. }
  rewrite <- (so_n _ Ha). split; [done |]. split; [lia |]. split; [by rewrite L1, length_drop |]. split.
  { intros k Hlt. destruct (Hdone eq_refl k Hlt) as (s & Hs & Ho). exists s. split; [done |]. split; [by apply F2 | done]. }
  split; [by exists k0, s0 |]. split; [intros i s p Hs Hpp; apply L2; [by rewrite lookup_drop | done] |].
  apply salvage_counted; [done |]. rewrite (so_n _ Ha). apply slice_count_byte.
Qed.

(** A fragment no map has is where the prefix stops. *)
Lemma extend_stops fuel a chunks i : chunks !! i = None -> 0 <= i <= 65535 -> 0 <= prefix_chunks_ a <= i ->
  0 <= prefix_chunks_ (extend_loop fuel a chunks) <= i.
Proof.
  intros Hn Hi. revert a. induction fuel as [|fuel IH]; intros a Ha; cbn [extend_loop]; [done |].
  destruct (chunks !! prefix_chunks_ a) as [c|] eqn:E; [| done]. apply IH.
  assert (prefix_chunks_ a <> i) by congruence.
  assert (Hp : prefix_chunks_ (take_chunk a c) = u16 (prefix_chunks_ a + 1)) by (unfold take_chunk; by destruct (_ =? 0)).
  rewrite Hp, wrap_small by (unfold in_width; lia). lia.
Qed.

Lemma drains_stop l i : Forall (fun m : ChunkMap => m !! i = None) l -> 0 <= i <= 65535 ->
  forall a, 0 <= prefix_chunks_ a <= i -> 0 <= prefix_chunks_ (drains a l).1 <= i.
Proof.
  intros Hl Hi. induction Hl as [|m l Hm Hl IH]; intros a Ha; cbn [drains]; [done |].
  pose proof (extend_stops (Z.to_nat (65536 - prefix_chunks_ a)) a m i Hm Hi Ha) as He.
  assert (Hd : prefix_chunks_ (drain a m).1 = prefix_chunks_ (extend_loop (Z.to_nat (65536 - prefix_chunks_ a)) a m)).
  { unfold drain, extend_prefix. destruct (last _); [| done]. by destruct (_ <? _)%nat. }
  destruct (drain a m) as [a1 o]. cbn [fst] in Hd. rewrite <- Hd in He. specialize (IH a1 He).
  by destruct (drains a1 l) as [a2 os].
Qed.

Lemma finish_damaged a chunks i : genuine chunks -> sa_ok a -> scan_ok a ->
  chunks !! i = None -> 0 <= i < count -> prefix_chunks_ a <= i ->
  (slices_within au (emitted_ a) <= Z.to_nat (n_ a))%nat ->
  exists r, finish a chunks = Some r /\ salvage_ok chunks (span_of a) (take (emitted_ a) au) r.
Proof.
  intros Hg Ha Hk Hi Hic Hpi Hd. unfold finish. destruct (extend_prefix_ok a chunks Hg Ha) as (Ha1 & He & Hn).
  pose proof (extend_stops (Z.to_nat (65536 - prefix_chunks_ a)) a chunks i Hi ltac:(lia)) as Hstop.
  pose proof (extend_scan (Z.to_nat (65536 - prefix_chunks_ a)) a chunks Hk) as Hk1.
  fold (extend_prefix a chunks) in Hstop, Hk1. set (a1 := extend_prefix a chunks) in *.
  assert (Hp : prefix_chunks_ a1 < count) by (pose proof (so_p _ Ha); lia).
  rewrite (so_count _ Ha1), (proj2 (Z.eqb_neq _ _)) by lia.
  assert (Hsp : span_of a1 = span_of a) by (unfold span_of; by rewrite (so_rows _ Ha1), (so_rows _ Ha), (so_sps _ Ha1), (so_sps _ Ha)).
  rewrite (so_n _ Ha), <- (so_n _ Ha1), <- He in Hd.
  destruct (plan_ok a1 chunks Hg Ha1 Hk1 Hp Hn Hd) as (p & Hpl & Hok). rewrite Hpl. cbn [mbind option_bind]. rewrite Hsp, He in Hok.
  destruct p as [fb | [pieces res]]; (eexists; split; [done |]); [| exact Hok].
  exists (prefix_chunks_ a1). split; [pose proof (so_p _ Ha1); lia |]. split; [exact Hn |]. cbn zeta.
  cbn [raw outs fin set_emitted buf_]. split; [done |]. rewrite <- He, <- (so_buf _ Ha1).
  replace (take (emitted_ a1) au) with (take (emitted_ a1) (buf_ a1)); [apply take_drop |].
  rewrite (so_buf _ Ha1), take_take. f_equal. pose proof (so_em _ Ha1) as Hem. rewrite (so_buf _ Ha1), length_take in Hem. lia.
Qed.
End Unit.

(** ** Properties *)

(** C37. A unit whose fragments all arrive comes out byte for byte: whatever fragments earlier
    drains saw, in whatever order they came, what the drains and [finish] emit is the unit, in
    order and once, and every slice counts as kept. *)
Theorem slice_assembler_identity (sps : Sps) (pps : Pps) (rows : Z) (hdr au : list Z) (F : nat) (count : Z)
    (l : list ChunkMap) (chunks : ChunkMap)
    (HF : (length hdr < F)%nat) (Hc : 1 <= count <= 65535)
    (Hcov : ((Z.to_nat count - 1) * F <= length (hdr ++ au) <= Z.to_nat count * F)%nat)
    (Hl : Forall (genuine hdr au F count) l) (Hg : genuine hdr au F count chunks)
    (Hall : forall i, 0 <= i < count -> is_Some (chunks !! i)) :
  let '(a, o) := drains (new_slice_assembler sps pps rows count (length hdr)) l in
  exists r, finish a chunks = Some r /\ raw r = None /\ concat o ++ concat (outs r) = au /\
    result_ (fin r) = mkSliceSalvage false (n_ a) (n_ a) 0 0 fbNone.
Proof.
  pose proof (drains_ok sps pps rows hdr au F count HF Hc Hcov l Hl _ [] (new_sa_ok sps pps rows hdr au F count HF Hc Hcov) eq_refl) as H.
  destruct (drains _ l) as [a o]. destruct H as [Ha Ho].
  by apply (finish_complete sps pps rows hdr au F count HF Hc Hcov a chunks).
Qed.

(** C38. Salvage never invents bytes: when a fragment is missing, what the drains streamed is a
    prefix of the unit, and [finish] either emits the rest of what lies before the missing
    fragment, or whole NAL units only.  These are, if no slice was streamed, the unit's leading NAL
    units, the parameter sets that lie whole before the missing fragment and before the first slice,
    in order and only those not streamed yet; then, for every slice behind those streamed, its own
    bytes -- a whole NAL of the unit, between two start codes or up to the unit's end, whose header
    carries the slice's address -- or a fill of exactly that slice's rows.  The slices streamed, as
    many as there are slice NALs in the bytes streamed, were the first ones.  The report counts the
    slices, those kept, those filled, and those kept behind the first one missing.  (The hypothesis
    on the slice NALs streamed rules out a stray one-byte slice NAL behind the last slice.) *)
Theorem slice_salvage_exact (sps : Sps) (pps : Pps) (rows : Z) (hdr au : list Z) (F : nat) (count : Z)
    (l : list ChunkMap) (chunks : ChunkMap) (i : Z)
    (HF : (length hdr < F)%nat) (Hc : 1 <= count <= 65535)
    (Hcov : ((Z.to_nat count - 1) * F <= length (hdr ++ au) <= Z.to_nat count * F)%nat)
    (Hl : Forall (genuine hdr au F count) l) (Hg : genuine hdr au F count chunks)
    (Hi : 0 <= i < count) (Hm : Forall (fun m : ChunkMap => m !! i = None) (chunks :: l))
    (Hd : let o := (drains (new_slice_assembler sps pps rows count (length hdr)) l).2 in
          (slices_within au (length (concat o)) <= Z.to_nat (slice_count sps rows))%nat) :
  let '(a, o) := drains (new_slice_assembler sps pps rows count (length hdr)) l in
  concat o = take (length (concat o)) au /\
  exists r, finish a chunks = Some r /\
    salvage_ok sps pps rows hdr au F count chunks (u32 (rows * pic_w_ctbs sps)) (concat o) r.
Proof.
  apply Forall_cons in Hm as [Hm Hml].
  pose proof (drains_ok sps pps rows hdr au F count HF Hc Hcov l Hl _ [] (new_sa_ok sps pps rows hdr au F count HF Hc Hcov) eq_refl) as H.
  pose proof (drains_scan l (new_slice_assembler sps pps rows count (length hdr)) (new_scan_ok _ _ _ _ _)) as Hk.
  pose proof (drains_stop hdr au F count HF Hc Hcov l i Hml ltac:(lia) (new_slice_assembler sps pps rows count (length hdr)) ltac:(cbn; lia)) as Hs.
  destruct (drains _ l) as [a o]. destruct H as [Ha Ho]. cbn [fst snd] in *. cbn zeta in Hd. cbn [app] in Ho.
  assert (Hlen : length (concat o) = emitted_ a).
  { rewrite Ho, length_take. pose proof (so_em _ _ _ _ _ _ _ _ Ha) as He. rewrite (so_buf _ _ _ _ _ _ _ _ Ha), length_take in He. lia. }
  rewrite Hlen in *. split; [exact Ho |]. rewrite Ho.
  destruct (finish_damaged sps pps rows hdr au F count HF Hc Hcov a chunks i Hg Ha Hk Hm Hi (proj2 Hs)) as (r & Hr & Hok);
    [by rewrite (so_n _ _ _ _ _ _ _ _ Ha) |].
  exists r. split; [exact Hr |]. unfold span_of in Hok. by rewrite (so_rows _ _ _ _ _ _ _ _ Ha), (so_sps _ _ _ _ _ _ _ _ Ha) in Hok.
Qed.

(** ** Witnesses: a unit of two slices in two fragments, the second one late or lost *)

Definition ex_sps2 : Sps := mkSps 0 1 64 128 4 3 6 true false 1 [1] [1] false 0 [].
Definition ex_pps2 : Pps := mkPps 0 0 false false 0 false 1 1 26 false false false true false.
Definition ex_hdr : list Z := [7; 0; 0; 1; 0; 0; 0; 0].
Definition ex_au : list Z := [0; 0; 0; 1; 2; 1; 208; 231; 128; 170; 187; 0; 0; 0; 1; 2; 1; 104; 115; 192; 204; 221].
Definition ex_first : ChunkMap := {[0 := frag_at ex_hdr ex_au 24 0]}.
Definition ex_both : ChunkMap := <[1 := frag_at ex_hdr ex_au 24 1]> ex_first.

Lemma ex_first_genuine : genuine ex_hdr ex_au 24 2 ex_first.
Proof. intros i c H. unfold ex_first in H. apply lookup_singleton_Some in H as [<- <-]. split; [lia | done]. Qed.
Lemma ex_both_genuine : genuine ex_hdr ex_au 24 2 ex_both.
Proof.
  intros i c H. unfold ex_both in H. apply lookup_insert_Some in H as [[<- <-] | [_ H]]; [split; [lia | done] | by apply ex_first_genuine].
Qed.

Lemma slice_assembler_identity_witness :
  let '(a, o) := drains (new_slice_assembler ex_sps2 ex_pps2 1 2 8) [ex_first] in
  o = [take 11 ex_au] /\ exists r, finish a ex_both = Some r /\ concat o ++ concat (outs r) = ex_au.
Proof.
  assert (Hl : Forall (genuine ex_hdr ex_au 24 2) [ex_first]) by (constructor; [exact ex_first_genuine | constructor]).
  assert (Hall : forall i, 0 <= i < 2 -> is_Some (ex_both !! i)).
  { intros i Hi. assert (i = 0 \/ i = 1) as [-> | ->] by lia; eexists; vm_compute; reflexivity. }
  pose proof (slice_assembler_identity ex_sps2 ex_pps2 1 ex_hdr ex_au 24 2 [ex_first] ex_both
    ltac:(cbn; lia) ltac:(lia) ltac:(cbn; lia) Hl ex_both_genuine Hall) as H.
  change (length ex_hdr) with 8%nat in H. revert H.
  assert (E : (drains (new_slice_assembler ex_sps2 ex_pps2 1 2 8) [ex_first]).2 = [take 11 ex_au]) by (vm_compute; reflexivity).
  destruct (drains _ _) as [a o]. cbn [snd] in E. intros (r & H1 & _ & H2 & _). split; [exact E |]. exists r. by split.
Defined.

Lemma slice_salvage_exact_witness :
  let '(a, o) := drains (new_slice_assembler ex_sps2 ex_pps2 1 2 8) [ex_first] in
  o = [take 11 ex_au] /\
  exists r, finish a ex_first = Some r /\ raw r = None /\ kept (result_ (fin r)) = 1 /\ filled (result_ (fin r)) = 1 /\
    salvage_ok ex_sps2 ex_pps2 1 ex_hdr ex_au 24 2 ex_first (u32 (1 * pic_w_ctbs ex_sps2)) (concat o) r.
Proof.
  assert (Hl : Forall (genuine ex_hdr ex_au 24 2) [ex_first]) by (constructor; [exact ex_first_genuine | constructor]).
  assert (Hm : Forall (fun m : ChunkMap => m !! 1 = None) [ex_first; ex_first]) by (repeat constructor; vm_compute; reflexivity).
  pose proof (slice_salvage_exact ex_sps2 ex_pps2 1 ex_hdr ex_au 24 2 [ex_first] ex_first 1
    ltac:(cbn; lia) ltac:(lia) ltac:(cbn; lia) Hl ex_first_genuine ltac:(lia) Hm ltac:(vm_compute; lia)) as H.
  change (length ex_hdr) with 8%nat in H. revert H.
  assert (E : match drains (new_slice_assembler ex_sps2 ex_pps2 1 2 8) [ex_first] with (a, o) =>
    o = [take 11 ex_au] /\ match finish a ex_first with Some r =>
      raw r = None /\ kept (result_ (fin r)) = 1 /\ filled (result_ (fin r)) = 1 | None => False end end)
    by (vm_compute; auto).
  destruct (drains _ _) as [a o]. destruct E as [E1 E2]. intros (_ & r & H1 & H2). split; [exact E1 |]. exists r.
  rewrite H1 in E2. destruct E2 as (E2 & E3 & E4). by repeat split.
Defined.

(** Without that hypothesis the C++ reads past [slices]: one slice, streamed, a one-byte slice NAL
    behind it, streamed too, and a lost tail. *)
Definition short_sps : Sps := mkSps 0 1 64 64 4 3 6 true false 1 [1] [1] false 0 [].
Definition short_chunks : ChunkMap :=
  {[0 := ex_hdr ++ [0; 0; 0; 1; 2; 1; 208; 231; 128; 170; 187; 0; 0; 1; 2; 0; 0; 0; 1; 78; 1]]}.
Lemma short_nal_overruns :
  finish (drain (new_slice_assembler short_sps ex_pps2 1 2 8) short_chunks).1 short_chunks = None.
Proof. vm_compute. reflexivity. Qed.
