(* ===== verification/FrameStream.v ===== *)
(** * FrameStream: whole frames out of fragments (gs/src/frame_stream.cpp)

    Fragments are collected in slots keyed by stream and fragment sequence; frames leave in
    ascending order of their unwrapped id, each as a begin, its bytes and an end.  The
    callbacks are the events of the result, labelled with the slot they belong to; [EvReset]
    marks a reset, which has no callback.  An outer [None] is the undefined read of
    [SliceAssembler.finish].  The stall log line on stderr is left out. *)
From S2P Require Import Prelude Bytes Framing HevcPs SliceAssembler.
Local Open Scope Z_scope.
Local Open Scope mabur_scope.

Abbreviation u64 := (wrap 64).

Record FragArrival := mkFragArrival {
  body_mono_us : Z; q_ms : Z; enc_us : Z; air_ms : Z; sw_seq : Z; have_sw_seq : bool; retx : bool;
  drain_mono_us : Z; push_mono_us : Z;
}.
Definition no_arrival : FragArrival := mkFragArrival 0 0 0 0 0 false false 0 0.

Record TailView := mkTailView { tv_count : Z; tv_max_idx : Z; tv_seq_at_max : Z; tv_last_progress_ms : Z; tv_first_ms : Z }.

Record FrameStreamCfg := mkFrameStreamCfg { gap_timeout_ms : Z; lookahead : Z; stall_reset_ms : Z }.
Definition default_cfg : FrameStreamCfg := mkFrameStreamCfg 50 8 500.

Record AuLatMeta := mkAuLatMeta {
  t_first_us : Z; t_complete_us : Z; t_last_arr_us : Z; t_drain_us : Z; t_push_us : Z;
  drone_q_ms : Z; lat_enc_us : Z; drone_air_ms : Z; hdr_retx : bool;
  lat_slice : SliceSalvage; vcl_nal : Z; skipped_before : Z;
}.
Definition no_lat : AuLatMeta := mkAuLatMeta 0 0 0 0 0 0 0 0 false default_salvage 0 0.

Record Slot := mkSlot {
  sid : Z; fseq : Z; chunks : ChunkMap; count : Z; have_hdr : bool; hdr : FrameHdr; id64 : Z;
  first_ms : Z; last_progress_ms : Z; last_arrival_ms : Z; emitted_upto : Z;
  max_idx : Z; seq_at_max : Z; have_seq_at_max : bool;
  began : bool; discont : bool; lat : AuLatMeta; sa : option SliceAssembler;
}.
Definition new_slot : Slot :=
  mkSlot 0 0 ∅ 0 false (mkFrameHdr 0 0 0 0) 0 0 0 0 0 0 0 false false false no_lat None.

(** [std::map]: ascending keys, each once. *)
Abbreviation Slots := (list (Z * Slot)).
Fixpoint find_slot (l : Slots) (key : Z) : option Slot :=
  match l with [] => None | (k, s) :: l => if k =? key then Some s else find_slot l key end.
Fixpoint set_slot (l : Slots) (key : Z) (s : Slot) : Slots :=
  match l with
  | [] => [(key, s)]
  | (k, s') :: l => if k =? key then (k, s) :: l else if key <? k then (key, s) :: (k, s') :: l else (k, s') :: set_slot l key s
  end.
Definition erase_slot (l : Slots) (key : Z) : Slots := List.filter (fun x => negb (x.1 =? key)) l.

(** The id space: the unwrap reference and the emit cursor. *)
Record Ids := mkIds { have_id_base_ : bool; last_id64_ : Z; next_emit_id64_ : Z; have_next_emit_ : bool; in_discont_run_ : bool }.
Record Watch := mkWatch { stall_armed_ : bool; stall_arm_ms_ : Z; discont_seen_ : bool; last_stall_log_ms_ : Z }.
Record Stats := mkStats {
  clean_ : Z; truncated_ : Z; dropped_ : Z; bad_frags_ : Z; stall_resets_ : Z;
  slice_salvaged_ : Z; slices_kept_ : Z; slices_filled_ : Z; slices_after_hole_ : Z; slice_fallback_ : SliceFallback -> Z;
}.

Record FrameStream := mkFrameStream {
  cfg_ : FrameStreamCfg; gap0 : Z; gap1 : Z; slots_ : Slots; ids : Ids; watch : Watch; stats : Stats; params_ : ParamTracker;
}.

Definition new_frame_stream (cfg : FrameStreamCfg) : FrameStream :=
  mkFrameStream cfg (gap_timeout_ms cfg) (gap_timeout_ms cfg) [] (mkIds false 0 0 false false)
    (mkWatch false 0 false 0) (mkStats 0 0 0 0 0 0 0 0 0 (fun _ => 0)) new_params.

Inductive FsEvent :=
  | EvBegin (key id : Z) (h : FrameHdr) (sid nslices : Z)
  | EvData (key : Z) (bytes : list Z)
  | EvTail (key : Z) (bytes : list Z)
  | EvEnd (key : Z) (complete : bool) (l : AuLatMeta)
  | EvReset.

(** ** Field updates *)

Definition set_slots (f : FrameStream) (l : Slots) : FrameStream :=
  mkFrameStream (cfg_ f) (gap0 f) (gap1 f) l (ids f) (watch f) (stats f) (params_ f).
Definition set_ids (f : FrameStream) (i : Ids) : FrameStream :=
  mkFrameStream (cfg_ f) (gap0 f) (gap1 f) (slots_ f) i (watch f) (stats f) (params_ f).
Definition set_watch (f : FrameStream) (w : Watch) : FrameStream :=
  mkFrameStream (cfg_ f) (gap0 f) (gap1 f) (slots_ f) (ids f) w (stats f) (params_ f).
Definition set_stats (f : FrameStream) (c : Stats) : FrameStream :=
  mkFrameStream (cfg_ f) (gap0 f) (gap1 f) (slots_ f) (ids f) (watch f) c (params_ f).
Definition set_params (f : FrameStream) (p : ParamTracker) : FrameStream :=
  mkFrameStream (cfg_ f) (gap0 f) (gap1 f) (slots_ f) (ids f) (watch f) (stats f) p.

Definition add_dropped (c : Stats) (n : Z) : Stats :=
  mkStats (clean_ c) (truncated_ c) (u64 (dropped_ c + n)) (bad_frags_ c) (stall_resets_ c)
    (slice_salvaged_ c) (slices_kept_ c) (slices_filled_ c) (slices_after_hole_ c) (slice_fallback_ c).
Definition add_bad (c : Stats) : Stats :=
  mkStats (clean_ c) (truncated_ c) (dropped_ c) (u64 (bad_frags_ c + 1)) (stall_resets_ c)
    (slice_salvaged_ c) (slices_kept_ c) (slices_filled_ c) (slices_after_hole_ c) (slice_fallback_ c).
Definition add_stall (c : Stats) : Stats :=
  mkStats (clean_ c) (truncated_ c) (dropped_ c) (bad_frags_ c) (u64 (stall_resets_ c + 1))
    (slice_salvaged_ c) (slices_kept_ c) (slices_filled_ c) (slices_after_hole_ c) (slice_fallback_ c).
Definition add_ended (c : Stats) (complete : bool) : Stats :=
  mkStats (if complete then u64 (clean_ c + 1) else clean_ c) (if complete then truncated_ c else u64 (truncated_ c + 1))
    (dropped_ c) (bad_frags_ c) (stall_resets_ c)
    (slice_salvaged_ c) (slices_kept_ c) (slices_filled_ c) (slices_after_hole_ c) (slice_fallback_ c).

(** The slice counters of a frame that ends. *)
Definition book_slices (c : Stats) (complete : bool) (r : SliceSalvage) : Stats :=
  if salvaged r then
    mkStats (clean_ c) (truncated_ c) (dropped_ c) (bad_frags_ c) (stall_resets_ c)
      (u64 (slice_salvaged_ c + 1)) (u64 (slices_kept_ c + kept r)) (u64 (slices_filled_ c + filled r))
      (u64 (slices_after_hole_ c + kept_after_hole r)) (slice_fallback_ c)
  else if negb complete && negb (bool_decide (fallback r = fbNone)) then
    mkStats (clean_ c) (truncated_ c) (dropped_ c) (bad_frags_ c) (stall_resets_ c)
      (slice_salvaged_ c) (slices_kept_ c) (slices_filled_ c) (slices_after_hole_ c)
      (fun fb => if bool_decide (fb = fallback r) then u64 (slice_fallback_ c fb + 1) else slice_fallback_ c fb)
  else c.

(** A slot's progress, and its latency record with the salvage verdict, the NAL type, the skips. *)
Definition set_lat (s : Slot) (l : AuLatMeta) : Slot :=
  mkSlot (sid s) (fseq s) (chunks s) (count s) (have_hdr s) (hdr s) (id64 s) (first_ms s) (last_progress_ms s)
    (last_arrival_ms s) (emitted_upto s) (max_idx s) (seq_at_max s) (have_seq_at_max s) (began s) (discont s) l (sa s).
Definition set_sa (s : Slot) (a : option SliceAssembler) : Slot :=
  mkSlot (sid s) (fseq s) (chunks s) (count s) (have_hdr s) (hdr s) (id64 s) (first_ms s) (last_progress_ms s)
    (last_arrival_ms s) (emitted_upto s) (max_idx s) (seq_at_max s) (have_seq_at_max s) (began s) (discont s) (lat s) a.
Definition set_began (s : Slot) (a : option SliceAssembler) : Slot :=
  mkSlot (sid s) (fseq s) (chunks s) (count s) (have_hdr s) (hdr s) (id64 s) (first_ms s) (last_progress_ms s)
    (last_arrival_ms s) (emitted_upto s) (max_idx s) (seq_at_max s) (have_seq_at_max s) true (discont s) (lat s) a.
Definition set_upto (s : Slot) (upto progress : Z) : Slot :=
  mkSlot (sid s) (fseq s) (chunks s) (count s) (have_hdr s) (hdr s) (id64 s) (first_ms s) progress
    (last_arrival_ms s) upto (max_idx s) (seq_at_max s) (have_seq_at_max s) (began s) (discont s) (lat s) (sa s).
Definition with_slice (l : AuLatMeta) (r : SliceSalvage) : AuLatMeta :=
  mkAuLatMeta (t_first_us l) (t_complete_us l) (t_last_arr_us l) (t_drain_us l) (t_push_us l)
    (drone_q_ms l) (lat_enc_us l) (drone_air_ms l) (hdr_retx l) r (vcl_nal l) (skipped_before l).
Definition with_vcl (l : AuLatMeta) (t : Z) : AuLatMeta :=
  mkAuLatMeta (t_first_us l) (t_complete_us l) (t_last_arr_us l) (t_drain_us l) (t_push_us l)
    (drone_q_ms l) (lat_enc_us l) (drone_air_ms l) (hdr_retx l) (lat_slice l) t (skipped_before l).
Definition add_skipped (l : AuLatMeta) (n : Z) : AuLatMeta :=
  mkAuLatMeta (t_first_us l) (t_complete_us l) (t_last_arr_us l) (t_drain_us l) (t_push_us l)
    (drone_q_ms l) (lat_enc_us l) (drone_air_ms l) (hdr_retx l) (lat_slice l) (vcl_nal l) (u32 (skipped_before l + u32 n)).

(** ** Gap timeouts *)

Definition set_gap_timeout (f : FrameStream) (sid ms : Z) : FrameStream :=
  mkFrameStream (cfg_ f) (if sid =? 0 then ms else gap0 f) (if sid =? 1 then ms else gap1 f)
    (slots_ f) (ids f) (watch f) (stats f) (params_ f).
Definition gap_ms (f : FrameStream) (sid : Z) : Z := if sid =? 1 then gap1 f else gap0 f.
Definition gap_ms_max (f : FrameStream) : Z := Z.max (gap0 f) (gap1 f).

(** ** Ids *)

(** The flags' discontinuity bit; [base & ~0xFFFF]. *)
Definition is_discont (flags : Z) : bool := negb (Z.land flags kFlagDiscont =? 0).
Definition unwrap_id (i : Ids) (id flags : Z) : Ids * Z * bool :=
  let discont := is_discont flags in
  if negb (have_id_base_ i) || (discont && negb (in_discont_run_ i)) then
    let base := if have_next_emit_ i then u64 (next_emit_id64_ i + 131072) else 65536 in
    let base := base - base mod 65536 in
    let last := u64 (base + id) in
    (mkIds true last (next_emit_id64_ i) (have_next_emit_ i) discont, last, true)
  else
    let d := i16 (id - u16 (last_id64_ i)) in
    let last := u64 (last_id64_ i + d) in
    (mkIds true last (next_emit_id64_ i) (have_next_emit_ i) discont, last, false).
Definition set_next (i : Ids) (next : Z) : Ids :=
  mkIds (have_id_base_ i) (last_id64_ i) next true (in_discont_run_ i).

(** ** The end of a frame *)

(** A VCL NAL has started in the bytes. *)
Definition vcl_started (head : list Z) : bool := existsb (fun v => nv_type v <? 32) (split_nals head).

(** The leading bytes up to a VCL NAL; [None] when a chunk is missing. *)
Fixpoint param_head (fuel : nat) (s : Slot) (i : Z) (head : list Z) : option (list Z) :=
  match fuel with
  | O => Some head
  | S fuel =>
      if (i <? count s) && negb (vcl_started head) then
        match chunks s !! i with
        | None => None
        | Some c => param_head fuel s (u16 (i + 1)) (head ++ c)
        end
      else Some head
  end.

(** Where the first NAL of the unit starts, behind the frame header. *)
Definition first_nal (b : list Z) : option nat :=
  let h := kFrameHdrLen in
  let at_ i := nth i b 0 in
  if (h + 5 <=? length b)%nat && (at_ h =? 0) && (at_ (h + 1)%nat =? 0) && (at_ (h + 2)%nat =? 0) && (at_ (h + 3)%nat =? 1)
  then Some (h + 4)%nat
  else if (h + 4 <=? length b)%nat && (at_ h =? 0) && (at_ (h + 1)%nat =? 0) && (at_ (h + 2)%nat =? 1)
  then Some (h + 3)%nat
  else None.

(** The leading parameter sets of a complete unit: the tracker and the unit's first VCL type. *)
Definition feed_params (p : ParamTracker) (s : Slot) : ParamTracker * Slot :=
  match chunks s !! 0 with
  | None => (p, s)
  | Some b =>
      match first_nal b with
      | None => (p, s)
      | Some i =>
          let type := nal_type_of (nth i b 0) in
          if (type <? 32) || (34 <? type) then (p, s)
          else
            match param_head (Z.to_nat (count s)) s 1 (drop kFrameHdrLen b) with
            | None => (p, s)
            | Some head =>
                let s := match List.filter (fun v => nv_type v <? 32) (split_nals head) with
                         | v :: _ => set_lat s (with_vcl (lat s) (nv_type v))
                         | [] => s
                         end in
                (feed_params_au p head, s)
            end
      end
  end.

(** The slice assembler's part of [finish]: its bytes, and the slot with the verdict. *)
Definition finish_slices (p : ParamTracker) (key : Z) (s : Slot) (complete : bool) : option (Slot * list FsEvent) :=
  match sa s with
  | Some a =>
      r ← SliceAssembler.finish a (chunks s);
      Some (set_lat (set_sa s (Some (fin r))) (with_slice (lat s) (result_ (fin r))),
            map (EvData key) (outs r) ++ match raw r with Some b => [EvTail key b] | None => [] end)
  | None =>
      Some (if negb complete && (0 <? slice_rows (hdr s))
            then set_lat s (with_slice (lat s) (let r := lat_slice (lat s) in
                   mkSliceSalvage (salvaged r) (ss_slices r) (kept r) (filled r) (kept_after_hole r)
                     (if unsupported p then fbUnsupported else fbNoParams)))
            else s, [])
  end.

Definition finish (f : FrameStream) (key : Z) (s : Slot) (complete : bool) : option (FrameStream * list FsEvent) :=
  '(s, ev) ← finish_slices (params_ f) key s complete;
  let '(p, s) := if complete then feed_params (params_ f) s else (params_ f, s) in
  let c := add_ended (book_slices (stats f) complete (lat_slice (lat s))) complete in
  let w := watch f in
  Some (mkFrameStream (cfg_ f) (gap0 f) (gap1 f) (erase_slot (slots_ f) key)
          (set_next (ids f) (u64 (id64 s + 1)))
          (mkWatch false (stall_arm_ms_ w) false (last_stall_log_ms_ w)) c p,
        ev ++ [EvEnd key complete (lat s)]).

(** ** Emission *)

(** Known slots behind the cursor that never began are dropped. *)
Definition is_late (i : Ids) (x : Z * Slot) : bool :=
  have_hdr x.2 && have_next_emit_ i && (id64 x.2 <? next_emit_id64_ i) && negb (began x.2).
Definition evict (f : FrameStream) : FrameStream :=
  let late := List.filter (is_late (ids f)) (slots_ f) in
  set_stats (set_slots f (List.filter (fun x => negb (is_late (ids f) x)) (slots_ f)))
    (add_dropped (stats f) (Z.of_nat (length late))).

(** The known slot with the lowest id, the first in key order of equals. *)
Fixpoint head_of (l : Slots) (best : option (Z * Slot)) : option (Z * Slot) :=
  match l with
  | [] => best
  | x :: l =>
      head_of l (if have_hdr x.2 then
                   match best with
                   | Some b => if id64 x.2 <? id64 b.2 then Some x else best
                   | None => Some x
                   end
                 else best)
  end.
Definition max_known (l : Slots) : Z := foldl (fun m x => if have_hdr x.2 then Z.max m (id64 x.2) else m) 0 l.

(** The cursor moves up to the head, over whole missing frames when it may; [None]: wait. *)
Definition skip_gap (now : Z) (f : FrameStream) (known : Z) (s : Slot) : option (FrameStream * Slot) :=
  let i := ids f in
  if have_next_emit_ i && (next_emit_id64_ i <? id64 s) then
    if discont s then Some (set_ids f (set_next i (id64 s)), s)
    else
      let stale := u64 (first_ms s + gap_ms_max f) <=? now in
      let ahead := u64 (next_emit_id64_ i + u64 (lookahead (cfg_ f))) <=? known in
      if negb stale && negb ahead then None
      else
        let n := id64 s - next_emit_id64_ i in
        Some (set_stats (set_ids f (set_next i (id64 s))) (add_dropped (stats f) n), set_lat s (add_skipped (lat s) n))
  else if negb (have_next_emit_ i) then Some (set_ids f (set_next i (id64 s)), s)
  else Some (f, s).

(** begin_frame, once. *)
Definition begin_slot (f : FrameStream) (key : Z) (s : Slot) : Slot * list FsEvent :=
  if began s then (s, [])
  else
    let a := if (0 <? slice_rows (hdr s)) && usable (params_ f)
             then Some (new_slice_assembler (pt_sps (params_ f)) (pt_pps (params_ f)) (slice_rows (hdr s)) (count s) kFrameHdrLen)
             else None in
    (set_began s a, [EvBegin key (id64 s) (hdr s) (sid s) (match a with Some a => n_ a | None => 1 end)]).

(** The contiguous chunks from [emitted_upto] on, raw when there is no assembler. *)
Fixpoint stream_loop (fuel : nat) (now key : Z) (s : Slot) : Slot * list FsEvent :=
  match fuel with
  | O => (s, [])
  | S fuel =>
      match chunks s !! emitted_upto s with
      | None => (s, [])
      | Some c =>
          let skip := if emitted_upto s =? 0 then kFrameHdrLen else 0%nat in
          let ev := match sa s with
                    | None => if (skip <? length c)%nat then [EvData key (drop skip c)] else []
                    | Some _ => []
                    end in
          let '(s', ev') := stream_loop fuel now key (set_upto s (u16 (emitted_upto s + 1)) now) in
          (s', ev ++ ev')
      end
  end.
(** An index is below its count, so never 65535: the walk stops there at the latest. *)
Definition stream_chunks (now key : Z) (s : Slot) : Slot * list FsEvent :=
  let '(s, ev) := stream_loop (Z.to_nat (65536 - emitted_upto s)) now key s in
  match sa s with
  | None => (s, ev)
  | Some a => let '(a, o) := drain a (chunks s) in (set_sa s (Some a), ev ++ map (EvData key) o)
  end.

(** One turn of try_emit's loop; [true]: the head ended and there is another turn. *)
Definition try_emit_turn (now : Z) (f : FrameStream) : option (bool * FrameStream * list FsEvent) :=
  let f := evict f in
  match head_of (slots_ f) None with
  | None => Some (false, f, [])
  | Some (key, s) =>
      let known := max_known (slots_ f) in
      match skip_gap now f known s with
      | None => Some (false, f, [])
      | Some (f, s) =>
          let '(s, ev1) := begin_slot f key s in
          let '(s, ev2) := stream_chunks now key s in
          let f := set_slots f (set_slot (slots_ f) key s) in
          if emitted_upto s =? count s then
            '(f, ev3) ← finish f key s true; Some (true, f, ev1 ++ ev2 ++ ev3)
          else
            let stale := u64 (last_progress_ms s + gap_ms f (sid s)) <=? now in
            let ahead := u64 (id64 s + u64 (lookahead (cfg_ f))) <=? known in
            if stale || ahead then
              '(f, ev3) ← finish f key s false; Some (true, f, ev1 ++ ev2 ++ ev3)
            else Some (false, f, ev1 ++ ev2)
      end
  end.

Fixpoint try_emit_loop (fuel : nat) (now : Z) (f : FrameStream) : option (FrameStream * list FsEvent) :=
  match fuel with
  | O => Some (f, [])
  | S fuel =>
      '(again, f, ev) ← try_emit_turn now f;
      if again : bool then '(f, ev') ← try_emit_loop fuel now f; Some (f, ev ++ ev') else Some (f, ev)
  end.
(** Every further turn has erased a slot. *)
Definition try_emit (f : FrameStream) (now : Z) : option (FrameStream * list FsEvent) :=
  try_emit_loop (S (length (slots_ f))) now f.

(** ** The calls *)

Definition reset (f : FrameStream) : FrameStream * list FsEvent :=
  (mkFrameStream (cfg_ f) (gap0 f) (gap1 f) [] (mkIds false 0 0 false false)
     (mkWatch false (stall_arm_ms_ (watch f)) false (last_stall_log_ms_ (watch f))) (stats f) (reset_params (params_ f)),
   map (fun x => EvEnd x.1 false (lat x.2)) (List.filter (fun x => began x.2) (slots_ f)) ++ [EvReset]).

(** The stall watchdog. *)
Definition watchdog (f : FrameStream) (now : Z) : FrameStream * list FsEvent :=
  let w := watch f in
  if stall_armed_ w && negb (stall_reset_ms (cfg_ f) =? 0) && (stall_reset_ms (cfg_ f) <=? u64 (now - stall_arm_ms_ w)) then
    let log := if (last_stall_log_ms_ w =? 0) || (5000 <=? u64 (now - last_stall_log_ms_ w)) then now else last_stall_log_ms_ w in
    reset (set_stats (set_watch f (mkWatch true (stall_arm_ms_ w) (discont_seen_ w) log)) (add_stall (stats f)))
  else (f, []).

(** A fragment joins its slot. *)
Definition join_slot (s : Slot) (sid' fseq' idx count' now : Z) (payload : list Z) (arr : FragArrival) : Slot :=
  let fresh := bool_decide (chunks s = ∅) in
  let at_max := have_sw_seq arr && (negb (have_seq_at_max s) || (max_idx s <? idx)) in
  let l := lat s in
  let push := negb (push_mono_us arr =? 0) && (t_push_us l <=? push_mono_us arr) in
  mkSlot (if fresh then sid' else sid s) (if fresh then fseq' else fseq s) (<[idx := payload]> (chunks s))
    (if fresh then count' else count s) (have_hdr s) (hdr s) (id64 s)
    (if fresh then now else first_ms s) (if fresh then now else last_progress_ms s) now (emitted_upto s)
    (if at_max then idx else max_idx s) (if at_max then sw_seq arr else seq_at_max s) (have_seq_at_max s || at_max)
    (began s) (discont s)
    (mkAuLatMeta
       (if negb (body_mono_us arr =? 0) && ((t_first_us l =? 0) || (body_mono_us arr <? t_first_us l))
        then body_mono_us arr else t_first_us l)
       (t_complete_us l) (Z.max (t_last_arr_us l) (body_mono_us arr))
       (if push then drain_mono_us arr else t_drain_us l) (if push then push_mono_us arr else t_push_us l)
       (drone_q_ms l) (lat_enc_us l) (drone_air_ms l) (hdr_retx l) (lat_slice l) (vcl_nal l) (skipped_before l))
    (sa s).

(** The header fragment numbers the slot. *)
Definition latch_hdr (s : Slot) (h : FrameHdr) (id : Z) (rebased : bool) (arr : FragArrival) : Slot :=
  let l := lat s in
  mkSlot (sid s) (fseq s) (chunks s) (count s) true h id (first_ms s) (last_progress_ms s) (last_arrival_ms s)
    (emitted_upto s) (max_idx s) (seq_at_max s) (have_seq_at_max s) (began s) rebased
    (mkAuLatMeta (t_first_us l) (t_complete_us l) (t_last_arr_us l) (t_drain_us l) (t_push_us l)
       (q_ms arr) (enc_us arr) (air_ms arr) (retx arr) (lat_slice l) (vcl_nal l) (skipped_before l)) (sa s).

(** Behind the slot's update: the header step, unless the fragment is not the first header. *)
Definition push_hdr (f : FrameStream) (key : Z) (s : Slot) (h : FrameHdr) (now : Z) (arr : FragArrival) : FrameStream :=
  let '(i, id, rebased) := unwrap_id (ids f) (frame_id h) (flags h) in
  let w := watch f in
  let arm := have_next_emit_ i && negb (stall_armed_ w) in
  mkFrameStream (cfg_ f) (gap0 f) (gap1 f) (set_slot (slots_ f) key (latch_hdr s h id rebased arr)) i
    (mkWatch (stall_armed_ w || arm) (if arm then now else stall_arm_ms_ w)
       (discont_seen_ w || is_discont (flags h)) (last_stall_log_ms_ w))
    (stats f) (if rebased then reset_params (params_ f) else params_ f).

Definition push_fragment (f : FrameStream) (sid : Z) (pkt : list Z) (now : Z) (arr : FragArrival)
    : option (FrameStream * list FsEvent) :=
  if (length pkt <? 6)%nat then Some (set_stats f (add_bad (stats f)), [])
  else
    let '(f, ev) := watchdog f now in
    r ← parse_frag_hdr pkt;
    match r with
    | None => Some (set_stats f (add_bad (stats f)), ev)
    | Some (fseq, idx, count) =>
        let key := Z.lor (Z.shiftl sid 16) fseq in
        let payload := drop 6 pkt in
        let s := join_slot (default new_slot (find_slot (slots_ f) key)) sid fseq idx count now payload arr in
        if (idx =? 0) && negb (have_hdr s) then
          h ← parse_frame_hdr payload;
          match h with
          | None => Some (set_slots (set_stats f (add_bad (stats f))) (erase_slot (slots_ f) key), ev)
          | Some h => '(f, ev') ← try_emit (push_hdr f key s h now arr) now; Some (f, ev ++ ev')
          end
        else '(f, ev') ← try_emit (set_slots f (set_slot (slots_ f) key s)) now; Some (f, ev ++ ev')
    end.

Definition poll (f : FrameStream) (now : Z) : option (FrameStream * list FsEvent) :=
  let aged x := negb (have_hdr x.2) && (u64 (first_ms x.2 + gap_ms f (sid x.2)) <=? now) in
  let n := length (List.filter aged (slots_ f)) in
  try_emit (set_stats (set_slots f (List.filter (fun x => negb (aged x)) (slots_ f)))
              (add_dropped (stats f) (Z.of_nat n))) now.

Definition tail_view (f : FrameStream) (sid' : Z) : option TailView :=
  let better (b : option Slot) (x : Z * Slot) :=
    let s := x.2 in
    if (sid s =? sid') && have_hdr s && have_seq_at_max s && (emitted_upto s <? count s) &&
       match b with Some b => id64 b <? id64 s | None => true end then Some s else b in
  b ← foldl better None (slots_ f);
  Some (mkTailView (count b) (max_idx b) (seq_at_max b) (last_arrival_ms b) (first_ms b)).

(** What the receiver does with a frame stream. *)
Inductive FsCall :=
  | CPush (sid : Z) (pkt : list Z) (now : Z) (arr : FragArrival)
  | CPoll (now : Z)
  | CReset
  | CGap (sid ms : Z).

Definition fs_call (f : FrameStream) (c : FsCall) : option (FrameStream * list FsEvent) :=
  match c with
  | CPush sid pkt now arr => push_fragment f sid pkt now arr
  | CPoll now => poll f now
  | CReset => Some (reset f)
  | CGap sid ms => Some (set_gap_timeout f sid ms, [])
  end.

Fixpoint fs_calls (f : FrameStream) (l : list FsCall) : option (FrameStream * list FsEvent) :=
  match l with
  | [] => Some (f, [])
  | c :: l =>
      '(f, ev) ← fs_call f c;
      '(f, ev') ← fs_calls f l;
      Some (f, ev ++ ev')
  end.
