(* ===== verification/FrameStreamProps.v ===== *)
(** * FrameStreamProps: frames leave whole, in order and once

    The callbacks of any sequence of calls are accepted by a monitor of the consumer's
    contract; the frames of unsliced units come out byte for byte. *)
From Stdlib Require Import Sorting.Sorted.
From S2P Require Import Prelude Bytes Framing HevcPs SliceAssembler FrameStream.
Local Open Scope Z_scope.
Local Open Scope mabur_scope.

(** ** The slot map *)

Definition ordered (l : Slots) : Prop := StronglySorted Z.lt (map fst l).

Lemma set_slot_in l key v x : ordered l -> In x (set_slot l key v) <-> x = (key, v) \/ In x l /\ x.1 <> key.
Proof.
  unfold ordered. induction l as [|[k s] l IH]; cbn [set_slot map]; intros Ho.
  { cbn. split; [intros [<- | []]; by left | intros [-> | [[] _]]; by left]. }
  apply StronglySorted_inv in Ho as [Ho Hk]. rewrite List.Forall_forall in Hk.
  destruct (Z.eqb_spec k key) as [-> | Hne].
  - cbn. split.
    + intros [<- | H]; [by left | right]. split; [by right |]. intros Hx. assert (key < x.1) by (apply Hk, in_map, H). lia.
    + intros [-> | [[<- | H] Hx]]; [by left | done | by right].
  - destruct (Z.ltb_spec key k) as [Hlt | Hge]; cbn.
    + split; [| intros [-> | [H _]]; [by left | by right]].
      intros [<- | [<- | H]]; [by left | right; split; [by left | done] |]. right. split; [by right |].
      assert (k < x.1) by (apply Hk, in_map, H). lia.
    + rewrite IH by done. split.
      * intros [<- | [-> | [H Hx]]]; [right; split; [by left | done] | by left | right; split; [by right | done]].
      * intros [-> | [[<- | H] Hx]]; [right; by left | by left | right; by right].
Qed.

Lemma set_slot_ordered l key v : ordered l -> ordered (set_slot l key v).
Proof.
  unfold ordered. induction l as [|[k s] l IH]; cbn [set_slot map]; intros Ho; [repeat constructor |].
  pose proof Ho as Ho'. apply StronglySorted_inv in Ho as [Ho Hk].
  destruct (Z.eqb_spec k key) as [-> | Hne]; [done |].
  destruct (Z.ltb_spec key k) as [Hlt | Hge]; cbn.
  - constructor; [done |]. constructor; [done |]. eapply List.Forall_impl; [| exact Hk]. cbn. intros; lia.
  - constructor; [by apply IH |]. rewrite List.Forall_forall in *. intros y Hy. apply in_map_iff in Hy as (x & <- & Hx).
    apply set_slot_in in Hx as [-> | [Hx _]]; [cbn; lia | | done]. apply Hk, in_map, Hx.
Qed.

Lemma filter_ordered l p : ordered l -> ordered (List.filter p l).
Proof.
  unfold ordered. induction l as [|x l IH]; cbn; intros Ho; [done |]. apply StronglySorted_inv in Ho as [Ho Hk].
  destruct (p x); [| by apply IH]. cbn. constructor; [by apply IH |].
  rewrite List.Forall_forall in *. intros y Hy. apply in_map_iff in Hy as (z & <- & Hz). apply filter_In in Hz as [Hz _].
  apply Hk, in_map, Hz.
Qed.

Lemma ordered_unique l k s s' : ordered l -> In (k, s) l -> In (k, s') l -> s = s'.
Proof.
  unfold ordered. induction l as [|x l IH]; cbn; intros Ho H1 H2; [done |]. apply StronglySorted_inv in Ho as [Ho Hk].
  rewrite List.Forall_forall in Hk. destruct H1 as [-> | H1], H2 as [H2 | H2].
  - by injection H2.
  - assert (k < k) by (apply Hk, (in_map fst _ _ H2)). lia.
  - subst x. assert (k < k) by (apply Hk, (in_map fst _ _ H1)). lia.
  - by apply IH.
Qed.

Lemma find_slot_in l k s : ordered l -> find_slot l k = Some s <-> In (k, s) l.
Proof.
  intros Ho. induction l as [|[k' s'] l IH]; cbn; [done |]. pose proof Ho as Ho'. unfold ordered in Ho'. cbn in Ho'.
  apply StronglySorted_inv in Ho' as [Ho' Hk]. rewrite List.Forall_forall in Hk.
  destruct (Z.eqb_spec k' k) as [-> | Hne].
  - split; [intros [= ->]; by left |]. intros [H | H]; [by injection H as -> |].
    assert (k < k) by (apply Hk, (in_map fst _ _ H)). lia.
  - rewrite IH by done. split; [by right |]. intros [H | H]; [by injection H as -> -> | done].
Qed.

Lemma erase_set l key v : erase_slot (set_slot l key v) key = erase_slot l key.
Proof.
  unfold erase_slot. induction l as [|[k s] l IH]; cbn [set_slot List.filter]; [by rewrite Z.eqb_refl |].
  cbn [fst]. destruct (Z.eqb_spec k key) as [-> | Hne].
  - cbn. by rewrite Z.eqb_refl.
  - cbn [negb]. destruct (key <? k); cbn; rewrite ?Z.eqb_refl; cbn; rewrite (proj2 (Z.eqb_neq _ _)) by done; cbn; [done |]. by rewrite IH.
Qed.

Lemma erase_in l key x : In x (erase_slot l key) <-> In x l /\ x.1 <> key.
Proof.
  unfold erase_slot. rewrite filter_In. destruct (Z.eqb_spec x.1 key); cbn; split; intros [? ?]; done.
Qed.

Lemma filter_shrinks {A} (p : A -> bool) l x : In x l -> p x = false -> (length (List.filter p l) < length l)%nat.
Proof.
  induction l as [|y l IH]; cbn; [done |]. pose proof (List.filter_length_le p l) as Hle.
  intros [-> | H] Hp; [rewrite Hp; lia |]. specialize (IH H Hp). destruct (p y); cbn; lia.
Qed.

(** The head is a known slot of the lowest id. *)
Lemma head_of_spec l best : (forall b, best = Some b -> have_hdr b.2 = true) ->
  match head_of l best with
  | Some b => have_hdr b.2 = true /\ (In b l \/ best = Some b) /\
      (forall x, In x l -> have_hdr x.2 = true -> id64 b.2 <= id64 x.2) /\
      (forall x, best = Some x -> id64 b.2 <= id64 x.2)
  | None => best = None /\ forall x, In x l -> have_hdr x.2 = false
  end.
Proof.
  revert best. induction l as [|y l IH]; intros best Hb; cbn [head_of].
  { destruct best as [b|]; [| by split]. split; [by apply Hb |]. split; [by right |]. split; [done |]. by intros x [= ->]. }
  set (best' := if have_hdr y.2 then _ else best).
  assert (Hb' : forall b, best' = Some b -> have_hdr b.2 = true).
  { intros b. unfold best'. destruct (have_hdr y.2) eqn:E; [| apply Hb].
    destruct best as [b0|]; [destruct (_ <? _) |]; intros [= <-]; done || by apply Hb. }
  specialize (IH best' Hb'). destruct (head_of l best') as [b|].
  - destruct IH as (H1 & H2 & H3 & H4). split; [done |]. split; [| split].
    + destruct H2 as [H2 | H2]; [left; by right |]. revert H2. unfold best'. destruct (have_hdr y.2); [| by right].
      destruct best as [b0|]; [destruct (_ <? _) |]; intros [= ->]; [left; by left | by right | left; by left].
    + intros x [<- | Hx] Hk; [| by apply H3]. revert H4. unfold best'. rewrite Hk.
      destruct best as [b0|]; [| intros H4; by apply H4]. destruct (Z.ltb_spec (id64 y.2) (id64 b0.2)); intros H4; specialize (H4 _ eq_refl); lia.
    + intros x ->. revert H4. unfold best'. destruct (have_hdr y.2); [| intros H4; by apply H4].
      destruct (Z.ltb_spec (id64 y.2) (id64 x.2)); intros H4; specialize (H4 _ eq_refl); lia.
  - destruct IH as [H1 H2]. revert H1. unfold best'. destruct (have_hdr y.2) eqn:E; [by destruct best as [b0|]; [destruct (_ <? _) |] |].
    intros ->. split; [done |]. by intros x [<- | Hx]; [| apply H2].
Qed.

(** ** The monitor: the contract of the callbacks *)

(** The open frames with their ids, and the least id a frame may still begin with. *)
Record Mon := mkMon { open : gmap Z Z; floor : option Z }.
Definition mon0 : Mon := mkMon ∅ None.

Definition may_begin (m : Mon) (key id : Z) : Prop :=
  open m !! key = None /\ map_Forall (fun _ i => i = id) (open m) /\
  match floor m with Some fl => fl <= id | None => True end.
#[export] Instance may_begin_dec m key id : Decision (may_begin m key id).
Proof. unfold may_begin. destruct (floor m); apply _. Defined.

(** A frame begins closed, not below the floor, and beside an open one only under its id; bytes
    and the end belong to an open frame; behind an end the floor is above its id; a reset
    leaves no frame open and starts over. *)
Definition mon_step (m : Mon) (e : FsEvent) : option Mon :=
  match e with
  | EvBegin key id _ _ _ => if decide (may_begin m key id) then Some (mkMon (<[key := id]> (open m)) (Some id)) else None
  | EvData key _ | EvTail key _ => match open m !! key with Some _ => Some m | None => None end
  | EvEnd key _ _ => id ← open m !! key; Some (mkMon (delete key (open m)) (Some (id + 1)))
  | EvReset => if decide (open m = ∅) then Some mon0 else None
  end.
Fixpoint mon_run (m : Mon) (l : list FsEvent) : option Mon :=
  match l with [] => Some m | e :: l => m ← mon_step m e; mon_run m l end.

Lemma mon_run_app l1 l2 m m1 : mon_run m l1 = Some m1 -> mon_run m (l1 ++ l2) = mon_run m1 l2.
Proof.
  revert m. induction l1 as [|e l1 IH]; intros m; cbn; [by intros [= ->] |].
  destruct (mon_step m e) as [m'|]; cbn; [apply IH | done].
Qed.

Definition is_bytes (key : Z) (e : FsEvent) : Prop :=
  match e with EvData k _ | EvTail k _ => k = key | _ => False end.
Lemma mon_bytes m key id l : open m !! key = Some id -> Forall (is_bytes key) l -> mon_run m l = Some m.
Proof.
  intros Ho. induction 1 as [|e l He Hl IH]; [done |]. cbn. destruct e; try done; cbn in He; subst; cbn; by rewrite Ho.
Qed.

(** ** A turn of the loop *)

Definition same_id (s s' : Slot) : Prop := id64 s' = id64 s /\ have_hdr s' = have_hdr s /\ began s' = began s.

Lemma skip_gap_spec now f known s f' s' : skip_gap now f known s = Some (f', s') ->
  slots_ f' = slots_ f /\ same_id s s' /\ have_next_emit_ (ids f') = true /\
  next_emit_id64_ (ids f') = (if have_next_emit_ (ids f) then Z.max (next_emit_id64_ (ids f)) (id64 s) else id64 s).
Proof.
  unfold skip_gap. destruct (have_next_emit_ (ids f)) eqn:Eh; cbn [andb negb].
  - destruct (Z.ltb_spec (next_emit_id64_ (ids f)) (id64 s)).
    + destruct (discont s); [| destruct (_ && _); [done |]]; intros [= <- <-]; (split; [done |]; split; [done |]; split; [done |]; cbn; lia).
    + intros [= <- <-]. split; [done |]. split; [done |]. split; [done |]. lia.
  - by intros [= <- <-].
Qed.

Lemma stream_loop_spec fuel now key s : let '(s', ev) := stream_loop fuel now key s in
  same_id s s' /\ Forall (is_bytes key) ev.
Proof.
  revert s. induction fuel as [|fuel IH]; intros s; cbn [stream_loop]; [by repeat split |].
  destruct (chunks s !! emitted_upto s) as [c|]; [| by repeat split].
  specialize (IH (set_upto s (u16 (emitted_upto s + 1)) now)). destruct (stream_loop _ _ _ _) as [s' ev'].
  destruct IH as [H1 H2]. split; [done |]. apply Forall_app_2; [| done].
  destruct (sa s); [constructor |]. destruct (_ <? _)%nat; by repeat constructor.
Qed.

Lemma map_data_bytes key (o : list (list Z)) : Forall (is_bytes key) (map (EvData key) o).
Proof. induction o; by constructor. Qed.

Lemma stream_chunks_spec now key s : let '(s', ev) := stream_chunks now key s in
  same_id s s' /\ Forall (is_bytes key) ev.
Proof.
  unfold stream_chunks. pose proof (stream_loop_spec (Z.to_nat (65536 - emitted_upto s)) now key s) as H.
  destruct (stream_loop _ _ _ _) as [s1 ev]. destruct H as [H1 H2]. destruct (sa s1) as [a|]; [| by split].
  destruct (drain a (chunks s1)) as [a' o]. split; [done |]. apply Forall_app_2; [done | apply map_data_bytes].
Qed.

Lemma finish_spec f key s complete f' ev : FrameStream.finish f key s complete = Some (f', ev) ->
  slots_ f' = erase_slot (slots_ f) key /\ have_next_emit_ (ids f') = true /\
  next_emit_id64_ (ids f') = u64 (id64 s + 1) /\
  exists b l, ev = b ++ [EvEnd key complete l] /\ Forall (is_bytes key) b.
Proof.
  unfold FrameStream.finish. destruct (finish_slices _ _ _ _) as [[s1 b]|] eqn:Ef; [| done]. cbn [mbind option_bind].
  assert (H1 : id64 s1 = id64 s /\ Forall (is_bytes key) b).
  { unfold finish_slices in Ef. destruct (sa s) as [a|].
    - destruct (SliceAssembler.finish _ _) as [r|]; [| done]. cbn [mbind option_bind] in Ef. injection Ef as <- <-. split; [done |].
      apply Forall_app_2; [apply map_data_bytes |]. destruct (raw r); by repeat constructor.
    - injection Ef as <- <-. split; [by destruct (_ && _) | constructor]. }
  destruct H1 as [H1 Hb].
  assert (H2 : exists p s2, (if complete then feed_params (params_ f) s1 else (params_ f, s1)) = (p, s2) /\ id64 s2 = id64 s1).
  { destruct complete; [| by eexists _, _]. unfold feed_params. destruct (chunks s1 !! 0); [| by eexists _, _].
    destruct (first_nal _); [| by eexists _, _]. destruct (_ || _); [by eexists _, _ |]. destruct (param_head _ _ _ _); [| by eexists _, _].
    eexists _, _. split; [done |]. by destruct (List.filter _ _). }
  destruct H2 as (p & s2 & -> & H2). intros [= <- <-]. cbn. split; [done |]. split; [done |]. split; [by rewrite H2, H1 |].
  by exists b, (lat s2).
Qed.

(** One turn, in the shape its proofs use. *)
Lemma turn_inv now f b f' ev : try_emit_turn now f = Some (b, f', ev) ->
  let f0 := evict f in
  (b = false /\ f' = f0 /\ ev = []) \/
  exists key s f1 s1 s2 ev1 s3 ev2 ev3,
    In (key, s) (slots_ f0) /\ have_hdr s = true /\
    (forall x, In x (slots_ f0) -> have_hdr x.2 = true -> id64 s <= id64 x.2) /\
    skip_gap now f0 (max_known (slots_ f0)) s = Some (f1, s1) /\
    begin_slot f1 key s1 = (s2, ev1) /\ stream_chunks now key s2 = (s3, ev2) /\
    ev = ev1 ++ ev2 ++ ev3 /\
    let f2 := set_slots f1 (set_slot (slots_ f0) key s3) in
    (b = false /\ f' = f2 /\ ev3 = [] /\ emitted_upto s3 <> count s3) \/ (b = true /\ exists c, (c = true <-> emitted_upto s3 = count s3) /\ FrameStream.finish f2 key s3 c = Some (f', ev3)).
Proof.
  unfold try_emit_turn. cbn zeta. pose proof (head_of_spec (slots_ (evict f)) None ltac:(done)) as Hh.
  destruct (head_of _ _) as [[key s]|]; [| intros [= <- <- <-]; by left].
  destruct Hh as (H1 & H2 & H3 & _). destruct H2 as [H2 | H2]; [| done]. cbn [snd] in *.
  destruct (skip_gap _ _ _ _) as [[f1 s1]|] eqn:Es; [| intros [= <- <- <-]; by left].
  pose proof (skip_gap_spec _ _ _ _ _ _ Es) as (Hsl & _).
  destruct (begin_slot f1 key s1) as [s2 ev1] eqn:Eb. destruct (stream_chunks now key s2) as [s3 ev2] eqn:Ec.
  rewrite Hsl. intros H. right. exists key, s, f1, s1, s2, ev1, s3, ev2.
  destruct (Z.eqb_spec (emitted_upto s3) (count s3)) as [Hc | Hc].
  - destruct (FrameStream.finish _ _ _ _) as [[f3 ev3]|] eqn:Ef; [| done]. injection H as <- <- <-.
    exists ev3. split_and!; try done. right. split; [done |]. by exists true.
  - destruct (_ || _) in H.
    + destruct (FrameStream.finish _ _ _ _) as [[f3 ev3]|] eqn:Ef; [| done]. injection H as <- <- <-.
      exists ev3. split_and!; try done. right. split; [done |]. by exists false.
    + injection H as <- <- <-. exists []. rewrite app_nil_r. split_and!; try done. by left.
Qed.

(** Every turn that asks for another has erased a slot, so the fuel is enough. *)
Lemma turn_shrinks now f f' ev : try_emit_turn now f = Some (true, f', ev) -> (length (slots_ f') < length (slots_ f))%nat.
Proof.
  intros H. apply turn_inv in H as [[? _] | (key & s & f1 & s1 & s2 & ev1 & s3 & ev2 & ev3 & Hin & _ & _ & _ & _ & _ & _ & H)]; [done |].
  destruct H as [[? _] | (_ & c & _ & Hf)]; [done |]. apply finish_spec in Hf as (-> & _). cbn [set_slots slots_]. rewrite erase_set.
  pose proof (filter_shrinks (fun x => negb (x.1 =? key)) (slots_ (evict f)) (key, s) Hin) as Hs.
  cbn [fst] in Hs. rewrite Z.eqb_refl in Hs. specialize (Hs eq_refl). unfold erase_slot.
  pose proof (List.filter_length_le (fun x => negb (is_late (ids f) x)) (slots_ f)) as Hl. cbn [evict set_stats set_slots slots_] in *. lia.
Qed.

Lemma try_emit_fuel n m now f : (length (slots_ f) < n)%nat -> (length (slots_ f) < m)%nat ->
  try_emit_loop n now f = try_emit_loop m now f.
Proof.
  revert m f. induction n as [|n IH]; intros [|m] f Hn Hm; try lia. cbn [try_emit_loop].
  destruct (try_emit_turn now f) as [[[again f'] ev]|] eqn:E; [| done]. cbn [mbind option_bind].
  destruct again; [| done]. apply turn_shrinks in E. by rewrite (IH m f') by lia.
Qed.

(** ** The invariant behind the monitor *)

Definition max_id : Z := 2 ^ 64 - 1.
(** No frame is numbered [2^64 - 1], where the cursor would wrap. *)
Definition below_max (e : FsEvent) : Prop := match e with EvBegin _ id _ _ _ => id <> max_id | _ => True end.

Record fs_ok (f : FrameStream) (m : Mon) : Prop := {
  fk_ord : ordered (slots_ f);
  fk_open : forall k id, open m !! k = Some id <-> exists s, In (k, s) (slots_ f) /\ began s = true /\ id64 s = id;
  fk_floor : match floor m with
             | Some fl => have_next_emit_ (ids f) = true /\ fl <= next_emit_id64_ (ids f)
             | None => True
             end;
  fk_began : forall k s, In (k, s) (slots_ f) -> began s = true ->
    have_hdr s = true /\ have_next_emit_ (ids f) = true /\ id64 s <= next_emit_id64_ (ids f) <= id64 s + 1;
  fk_same : forall k s k' s', In (k, s) (slots_ f) -> In (k', s') (slots_ f) -> began s = true -> began s' = true -> id64 s = id64 s';
  fk_id : forall k s, In (k, s) (slots_ f) -> 0 <= id64 s < 2 ^ 64;
  fk_nomax : forall k s, In (k, s) (slots_ f) -> began s = true -> id64 s <> max_id;
}.

Lemma open_none f m k s : fs_ok f m -> In (k, s) (slots_ f) -> began s = false -> open m !! k = None.
Proof.
  intros H Hin Hb. destruct (open m !! k) as [id|] eqn:E; [| done].
  apply (fk_open _ _ H) in E as (s' & Hin' & Hb' & _). rewrite (ordered_unique _ _ _ _ (fk_ord _ _ H) Hin Hin') in Hb. congruence.
Qed.

(** Dropping slots that never began keeps it. *)
Lemma filter_ok f m p c : fs_ok f m -> (forall x, In x (slots_ f) -> began x.2 = true -> p x = true) ->
  fs_ok (set_stats (set_slots f (List.filter p (slots_ f))) c) m.
Proof.
  intros [H1 H2 H3 H4 H5 H6 H7] Hp. split; cbn [slots_ ids set_stats set_slots]; try done.
  - by apply filter_ordered.
  - intros k id. rewrite H2. split; intros (s & Hin & Hb & Hid); exists s.
    + split; [| done]. apply filter_In. split; [done | by apply Hp].
    + apply filter_In in Hin as [Hin _]. done.
  - intros k s Hin. apply filter_In in Hin as [Hin _]. by apply (H4 k s).
  - intros k s k' s' Hin Hin'. apply filter_In in Hin as [Hin _], Hin' as [Hin' _]. by apply (H5 k s k' s').
  - intros k s Hin. apply filter_In in Hin as [Hin _]. by apply (H6 k s).
  - intros k s Hin. apply filter_In in Hin as [Hin _]. by apply (H7 k s).
Qed.

Lemma evict_ok f m : fs_ok f m -> fs_ok (evict f) m.
Proof.
  intros H. unfold evict. apply filter_ok; [done |]. intros x _ Hb. unfold is_late. rewrite Hb. by rewrite andb_false_r.
Qed.

Lemma evict_not_late f x : In x (slots_ (evict f)) -> have_hdr x.2 = true -> have_next_emit_ (ids f) = true -> began x.2 = false ->
  next_emit_id64_ (ids f) <= id64 x.2.
Proof.
  cbn. intros H Hh Hn Hb. apply filter_In in H as [_ H]. unfold is_late in H. rewrite Hh, Hn, Hb in H. cbn in H.
  rewrite andb_true_r in H. by apply negb_true_iff, Z.ltb_ge in H.
Qed.

(** A slot replaced by one that began with the same id, the cursor at it: the frame is open. *)
Lemma began_ok f m key s s' i : fs_ok f m -> In (key, s) (slots_ f) -> id64 s' = id64 s -> began s' = true -> have_hdr s' = true ->
  have_next_emit_ i = true -> id64 s <= next_emit_id64_ i <= id64 s + 1 -> id64 s <> max_id ->
  (forall k x, In (k, x) (slots_ f) -> began x = true -> id64 x = id64 s) ->
  match floor m with Some fl => fl <= next_emit_id64_ i | None => True end ->
  fs_ok (set_slots (set_ids f i) (set_slot (slots_ f) key s')) (mkMon (<[key := id64 s]> (open m)) (floor m)).
Proof.
  intros [H1 H2 H3 H4 H5 H6 H7] Hin Hid Hb Hh Hn Hr Hnm Hsame Hfl.
  pose proof (set_slot_in (slots_ f) key s') as Hs.
  split; cbn [slots_ ids set_slots set_ids open floor].
  - by apply set_slot_ordered.
  - intros k id. destruct (decide (k = key)) as [-> | Hne].
    + rewrite lookup_insert_eq. split.
      * intros [= <-]. exists s'. split; [apply Hs; [done |]; by left | done].
      * intros (x & Hx & Hbx & <-). apply Hs in Hx as [[= ->] | [_ Hx]]; [by rewrite Hid | done | done].
    + rewrite lookup_insert_ne by done. rewrite H2. split; intros (x & Hx & Hbx); exists x; (split; [| done]).
      * apply Hs; [done |]. right. by split.
      * apply Hs in Hx as [[= -> _] | [Hx _]]; done.
  - destruct (floor m); [by split | done].
  - intros k x Hx Hbx. apply Hs in Hx as [[= -> ->] | [Hx _]]; [rewrite Hid; done | | done].
    pose proof (Hsame _ _ Hx Hbx) as E. destruct (H4 k x Hx Hbx) as (? & _). split; [done |]. split; [done |]. lia.
  - assert (Hall : forall k x, In (k, x) (set_slot (slots_ f) key s') -> began x = true -> id64 x = id64 s).
    { intros k x Hx Hbx. apply Hs in Hx as [[= -> ->] | [Hx _]]; [done | by apply (Hsame k) | done]. }
    intros k x k' x' Hx Hx' Hbx Hbx'. rewrite (Hall k x), (Hall k' x'); done.
  - intros k x Hx. apply Hs in Hx as [[= -> ->] | [Hx _]]; [rewrite Hid; by apply (H6 key) | by apply (H6 k) | done].
  - intros k x Hx. apply Hs in Hx as [[= -> ->] | [Hx _]]; [by rewrite Hid | by apply (H7 k) | done].
Qed.

(** Ending an open frame. *)
Lemma ended_ok f m key s f' ev c id : fs_ok f m -> In (key, s) (slots_ f) -> began s = true -> id64 s = id -> id <> max_id ->
  FrameStream.finish f key s c = Some (f', ev) ->
  exists m', mon_run m ev = Some m' /\ fs_ok f' m' /\ slots_ f' = erase_slot (slots_ f) key.
Proof.
  intros H Hin Hb Hid Hmax Hf. apply finish_spec in Hf as (Hs & Hn & Hnext & b & l & -> & Hbytes).
  assert (Ho : open m !! key = Some id) by (apply (fk_open _ _ H); by exists s).
  assert (Hw : u64 (id64 s + 1) = id + 1).
  { pose proof (fk_id _ _ H key s Hin). rewrite <- Hid. apply wrap_small. unfold in_width, max_id in *. lia. }
  exists (mkMon (delete key (open m)) (Some (id + 1))). split.
  { rewrite (mon_run_app _ _ m m) by (by eapply mon_bytes). cbn. by rewrite Ho. }
  split; [| done]. pose proof (fk_same _ _ H) as Hsame. destruct H as [H1 H2 H3 H4 H5 H6 H7].
  split; rewrite ?Hs, ?Hnext, ?Hw; cbn [open floor].
  - by apply filter_ordered.
  - intros k i. destruct (decide (k = key)) as [-> | Hne].
    + rewrite lookup_delete_eq. split; [done |]. intros (x & Hx & _). apply erase_in in Hx as [_ Hx]. done.
    + rewrite lookup_delete_ne by done. rewrite H2. split; intros (x & Hx & Hbx); exists x; (split; [| done]).
      * apply erase_in. by split.
      * by apply erase_in in Hx as [Hx _].
  - split; [done | lia].
  - intros k x Hx Hbx. apply erase_in in Hx as [Hx _]. destruct (H4 k x Hx Hbx) as (? & _). split; [done |]. split; [done |].
    rewrite (Hsame k x key s Hx Hin Hbx Hb). lia.
  - intros k x k' x' Hx Hx'. apply erase_in in Hx as [Hx _], Hx' as [Hx' _]. by apply (H5 k x k' x').
  - intros k x Hx. apply erase_in in Hx as [Hx _]. by apply (H6 k x).
  - intros k x Hx. apply erase_in in Hx as [Hx _]. by apply (H7 k x).
Qed.

(** ** The monitor follows every call *)

Lemma floor_le f m : fs_ok f m -> forall n, next_emit_id64_ (ids f) <= n -> match floor m with Some fl => fl <= n | None => True end.
Proof. intros H n Hn. pose proof (fk_floor _ _ H). destruct (floor m); [lia | done]. Qed.

(** The head, begun: it is open, and the state follows the monitor. *)
Lemma head_open now f m key s f1 s1 s2 ev1 s3 ev2 : fs_ok f m -> 
  (forall x, In x (slots_ f) -> have_hdr x.2 = true -> have_next_emit_ (ids f) = true -> began x.2 = false -> next_emit_id64_ (ids f) <= id64 x.2) ->
  In (key, s) (slots_ f) -> have_hdr s = true ->
  (forall x, In x (slots_ f) -> have_hdr x.2 = true -> id64 s <= id64 x.2) ->
  skip_gap now f (max_known (slots_ f)) s = Some (f1, s1) -> begin_slot f1 key s1 = (s2, ev1) -> stream_chunks now key s2 = (s3, ev2) ->
  Forall below_max ev1 ->
  exists m', mon_run m (ev1 ++ ev2) = Some m' /\ fs_ok (set_slots f1 (set_slot (slots_ f) key s3)) m' /\
    began s3 = true /\ id64 s3 = id64 s /\ id64 s <> max_id.
Proof.
  intros H Hlate Hin Hh Hmin Hs Hb Hc Hmx.
  apply skip_gap_spec in Hs as (Hsl & (Hi1 & Hh1 & Hb1) & Hn1 & Hnx).
  pose proof (stream_chunks_spec now key s2) as Hst. rewrite Hc in Hst. destruct Hst as ((Hi3 & Hh3 & Hb3) & Hbytes).
  assert (Hb2 : id64 s2 = id64 s1 /\ have_hdr s2 = have_hdr s1 /\ began s2 = true).
  { unfold begin_slot in Hb. destruct (began s1) eqn:Eb; injection Hb as <- _; done. }
  destruct Hb2 as (Hi2 & Hh2 & Hb2).
  assert (Hid3 : id64 s3 = id64 s) by congruence. assert (Hb3' : began s3 = true) by congruence. assert (Hh3' : have_hdr s3 = true) by congruence.
  (* the other open frames carry this id, and the cursor is at it *)
  assert (Hothers : forall k x, In (k, x) (slots_ f) -> began x = true -> id64 x = id64 s).
  { intros k x Hx Hbx. destruct (fk_began _ _ H k x Hx Hbx) as (Hhx & Hne & Hr). pose proof (Hmin (k, x) Hx Hhx). cbn in *.
    destruct (began s) eqn:Ebs; [by apply (fk_same _ _ H k x key s) |]. pose proof (Hlate (key, s) Hin Hh Hne Ebs). cbn in *.
    destruct (Z.eq_dec (id64 x) (id64 s)); [done |]. assert (id64 x = id64 s - 1 \/ id64 x = id64 s) by lia. lia. }
  assert (Hcur : id64 s <= next_emit_id64_ (ids f1) <= id64 s + 1).
  { rewrite Hnx. destruct (have_next_emit_ (ids f)) eqn:En; [| lia]. destruct (began s) eqn:Ebs.
    - destruct (fk_began _ _ H key s Hin Ebs) as (_ & _ & ?). lia.
    - pose proof (Hlate (key, s) Hin Hh eq_refl Ebs). cbn in *. lia. }
  assert (Hfl : match floor m with Some fl => fl <= next_emit_id64_ (ids f1) | None => True end).
  { pose proof (fk_floor _ _ H) as F. destruct (floor m) as [fl|]; [| done]. destruct F as [Fn Fl]. rewrite Hnx, Fn. lia. }
  assert (Hnm : id64 s <> max_id).
  { destruct (began s) eqn:Ebs; [by apply (fk_nomax _ _ H key s) |]. unfold begin_slot in Hb. rewrite Hb1 in Hb. injection Hb as _ <-.
    apply Forall_cons in Hmx as [Hmx _]. cbn in Hmx. by rewrite Hi1 in Hmx. }
  assert (Hok : fs_ok (set_slots f1 (set_slot (slots_ f) key s3)) (mkMon (<[key := id64 s]> (open m)) (floor m))).
  { pose proof (began_ok f m key s s3 (ids f1) H Hin Hid3 Hb3' Hh3' Hn1 Hcur Hnm Hothers Hfl) as [K1 K2 K3 K4 K5 K6 K7].
    by split. }
  destruct (began s) eqn:Ebs.
  - assert (Eo : open m !! key = Some (id64 s)) by (apply (fk_open _ _ H); by exists s).
    rewrite (insert_id (open m)) in Hok by done. exists m.
    unfold begin_slot in Hb. rewrite Hb1 in Hb. injection Hb as <- <-. cbn [app].
    split; [by eapply mon_bytes |]. split; [by destruct m |]. done.
  - assert (Hev1 : exists h sd ns, ev1 = [EvBegin key (id64 s) h sd ns]).
    { unfold begin_slot in Hb. rewrite Hb1 in Hb. injection Hb as <- <-. rewrite Hi1. by eexists _, _, _. }
    destruct Hev1 as (h & sd & ns & ->).
    assert (Hmay : may_begin m key (id64 s)).
    { split; [by eapply open_none |]. split.
      - intros k i Hk. apply (fk_open _ _ H) in Hk as (x & Hx & Hbx & <-). by apply (Hothers k).
      - pose proof (fk_floor _ _ H) as F. destruct (floor m) as [fl|]; [| done]. destruct F as [Fn Fl].
        pose proof (Hlate (key, s) Hin Hh Fn Ebs). cbn in *. lia. }
    exists (mkMon (<[key := id64 s]> (open m)) (Some (id64 s))). split.
    { cbn. rewrite decide_True by done. cbn. eapply mon_bytes; [| exact Hbytes]. cbn. by rewrite lookup_insert_eq. }
    split; [| done].
    destruct Hok as [K1 K2 K3 K4 K5 K6 K7]. split; try done. cbn [floor]. split; [done | cbn; lia].
Qed.

Lemma turn_ok now f m b f' ev : fs_ok f m -> try_emit_turn now f = Some (b, f', ev) -> Forall below_max ev ->
  exists m', mon_run m ev = Some m' /\ fs_ok f' m'.
Proof.
  intros H Ht Hmax. pose proof (evict_ok _ _ H) as H0.
  apply turn_inv in Ht as [(_ & -> & ->) | (key & s & f1 & s1 & s2 & ev1 & s3 & ev2 & ev3 & Hin & Hh & Hmin & Hs & Hb & Hc & -> & Ht)];
    [by exists m |].
  apply Forall_app in Hmax as [Hmax1 _].
  destruct (head_open now _ m key s f1 s1 s2 ev1 s3 ev2 H0) as (m1 & Hr & Hok & Hb3 & Hi3 & Hid); try done.
  { intros x Hx Hhx Hnx Hbx. exact (evict_not_late f x Hx Hhx Hnx Hbx). }
  rewrite app_assoc. destruct Ht as [(_ & -> & -> & _) | (_ & c & _ & Hf)].
  - rewrite app_nil_r. by exists m1.
  - destruct (ended_ok _ m1 key s3 f' ev3 c (id64 s) Hok) as (m2 & Hr2 & Hok2 & _); try done.
    { cbn. apply set_slot_in; [apply (fk_ord _ _ H0) | by left]. }
    exists m2. split; [| done]. by rewrite (mon_run_app _ _ _ _ Hr).
Qed.

Lemma loop_ok fuel now f m f' ev : fs_ok f m -> try_emit_loop fuel now f = Some (f', ev) -> Forall below_max ev ->
  exists m', mon_run m ev = Some m' /\ fs_ok f' m'.
Proof.
  revert f m f' ev. induction fuel as [|fuel IH]; intros f m f' ev H; cbn [try_emit_loop]; [intros [= <- <-] _; by exists m |].
  destruct (try_emit_turn now f) as [[[again f1] ev1]|] eqn:E; [| done]. cbn [mbind option_bind].
  destruct again.
  - destruct (try_emit_loop fuel now f1) as [[f2 ev2]|] eqn:E2; [| done]. cbn [mbind option_bind]. intros [= <- <-] Hmax.
    apply Forall_app in Hmax as [M1 M2]. destruct (turn_ok _ _ _ _ _ _ H E M1) as (m1 & R1 & O1).
    destruct (IH _ _ _ _ O1 E2 M2) as (m2 & R2 & O2). exists m2. by rewrite (mon_run_app _ _ _ _ R1).
  - intros [= <- <-] Hmax. by apply (turn_ok _ _ _ _ _ _ H E).
Qed.

(** The reset's ends close every open frame. *)
Lemma reset_ends m l : ordered l ->
  (forall k id, open m !! k = Some id <-> exists s, In (k, s) l /\ began s = true /\ id64 s = id) ->
  exists m', mon_run m (map (fun x => EvEnd x.1 false (lat x.2)) (List.filter (fun x => began x.2) l)) = Some m' /\ open m' = ∅.
Proof.
  revert m. induction l as [|[k s] l IH]; intros m Ho Hopen; cbn.
  { exists m. split; [done |]. apply map_eq. intros k. rewrite lookup_empty. destruct (open m !! k) as [id|] eqn:E; [| done].
    by apply Hopen in E as (x & [] & _). }
  pose proof Ho as Ho'. unfold ordered in Ho'. cbn in Ho'. apply StronglySorted_inv in Ho' as [Ho' Hk]. rewrite List.Forall_forall in Hk.
  assert (Hfresh : forall x, ~ In (k, x) l) by (intros x Hx; pose proof (Hk k (in_map fst _ _ Hx)); lia).
  destruct (began s) eqn:Eb.
  - cbn [map mon_run mon_step]. assert (Eo : open m !! k = Some (id64 s)) by (apply Hopen; exists s; split; [by left | done]).
    cbn [fst]. rewrite Eo. cbn [mbind option_bind]. apply (IH (mkMon (delete k (open m)) (Some (id64 s + 1)))); [done |].
    cbn [open]. intros k' id. destruct (decide (k' = k)) as [-> | Hne].
    + rewrite lookup_delete_eq. split; [done |]. intros (x & Hx & _). by apply Hfresh in Hx.
    + rewrite lookup_delete_ne by done. rewrite Hopen. split; intros (x & Hx & Hbx); exists x; (split; [| done]).
      * destruct Hx as [[= -> _] | Hx]; done.
      * by right.
  - apply IH; [done |]. intros k' id. rewrite Hopen. split; intros (x & Hx & Hbx & Hid); exists x; (split; [| done]).
    + destruct Hx as [[= -> ->] | Hx]; [congruence | done].
    + by right.
Qed.

Lemma reset_ok f m : fs_ok f m -> exists m', mon_run m (reset f).2 = Some m' /\ fs_ok (reset f).1 m'.
Proof.
  intros H. destruct (reset_ends m (slots_ f) (fk_ord _ _ H) (fk_open _ _ H)) as (m1 & R & E). exists mon0. cbn [reset fst snd].
  rewrite (mon_run_app _ _ _ _ R). cbn. rewrite E, decide_True by done. split; [done |].
  split; cbn; try done; [constructor |]. intros k id. rewrite lookup_empty. split; [done |]. by intros (x & [] & _).
Qed.

(** A slot that has not begun may be changed, added or taken away. *)
Lemma unbegun_ok f m key s' i w c p : fs_ok f m -> (forall s, In (key, s) (slots_ f) -> began s = began s' /\ (began s = true -> id64 s' = id64 s /\ have_hdr s' = true)) ->
  (began s' = true -> exists s, In (key, s) (slots_ f)) -> 0 <= id64 s' < 2 ^ 64 ->
  have_next_emit_ i = have_next_emit_ (ids f) -> next_emit_id64_ i = next_emit_id64_ (ids f) ->
  fs_ok (mkFrameStream (cfg_ f) (gap0 f) (gap1 f) (set_slot (slots_ f) key s') i w c p) m.
Proof.
  intros [H1 H2 H3 H4 H5 H6 H7] Hs Hex Hid Hn Hx. pose proof (set_slot_in (slots_ f) key s') as Hi.
  assert (Hback : forall k x, In (k, x) (set_slot (slots_ f) key s') -> began x = true ->
    exists y, In (k, y) (slots_ f) /\ began y = true /\ id64 y = id64 x /\ have_hdr x = true).
  { intros k x Hin Hb. apply Hi in Hin as [[= -> ->] | [Hin Hk]]; [| exists x; split_and!; try done; by destruct (H4 k x Hin Hb) | done].
    destruct (Hex Hb) as [y Hy]. destruct (Hs y Hy) as [E1 E2]. rewrite Hb in E1. destruct (E2 E1) as [E3 E4]. by exists y. }
  split; cbn [slots_ ids]; rewrite ?Hn, ?Hx; try done.
  - by apply set_slot_ordered.
  - intros k id. rewrite H2. split.
    + intros (x & Hin & Hb & <-). destruct (decide (k = key)) as [-> | Hne].
      * destruct (Hs x Hin) as [E1 E2]. destruct (E2 Hb) as [E3 _]. exists s'. split; [apply Hi; [done | by left] |]. by rewrite <- E1.
      * exists x. split; [| done]. apply Hi; [done |]. right. by split.
    + intros (x & Hin & Hb & <-). destruct (Hback k x Hin Hb) as (y & Hy & Hby & E & _). by exists y.
  - intros k x Hin Hb. destruct (Hback k x Hin Hb) as (y & Hy & Hby & E & Hh). destruct (H4 k y Hy Hby) as (_ & G1 & G2). rewrite <- E. by split.
  - intros k x k' x' Hin Hin' Hb Hb'. destruct (Hback k x Hin Hb) as (y & Hy & Hby & E & _).
    destruct (Hback k' x' Hin' Hb') as (y' & Hy' & Hby' & E' & _). rewrite <- E, <- E'. by apply (H5 k y k' y').
  - intros k x Hin. apply Hi in Hin as [[= -> ->] | [Hin _]]; [done | by apply (H6 k) | done].
  - intros k x Hin Hb. destruct (Hback k x Hin Hb) as (y & Hy & Hby & E & _). rewrite <- E. by apply (H7 k).
Qed.

Lemma fs_ok_ext f f' m : slots_ f' = slots_ f -> ids f' = ids f -> fs_ok f m -> fs_ok f' m.
Proof. intros E1 E2 [H1 H2 H3 H4 H5 H6 H7]. split; rewrite ?E1, ?E2; done. Qed.

Lemma watchdog_ok now f m : fs_ok f m -> exists m', mon_run m (watchdog f now).2 = Some m' /\ fs_ok (watchdog f now).1 m'.
Proof.
  intros H. unfold watchdog. destruct (_ && _ && _); [| by exists m].
  match goal with |- context [reset ?g] => assert (Hg : fs_ok g m) by (by eapply fs_ok_ext; [| | exact H]) end. by apply reset_ok.
Qed.

Lemma unwrap_spec i id fl : let '(i', id', _) := unwrap_id i id fl in
  have_next_emit_ i' = have_next_emit_ i /\ next_emit_id64_ i' = next_emit_id64_ i /\ 0 <= id' < 2 ^ 64.
Proof. unfold unwrap_id. destruct (_ || _); (split; [done |]; split; [done |]; apply wrap_range; lia). Qed.

(** The slot a fragment joins: its own, or a new one. *)
Lemma joined_slot f m key sd fs idx cnt now p arr : fs_ok f m ->
  let s := join_slot (default new_slot (find_slot (slots_ f) key)) sd fs idx cnt now p arr in
  (forall x, In (key, x) (slots_ f) -> began x = began s /\ (began x = true -> id64 s = id64 x /\ have_hdr s = true)) /\
  (began s = true -> exists x, In (key, x) (slots_ f)) /\ 0 <= id64 s < 2 ^ 64.
Proof.
  intros H s. pose proof (fk_ord _ _ H) as Ho. subst s.
  destruct (find_slot (slots_ f) key) as [y|] eqn:E; cbn [default].
  - apply find_slot_in in E; [| done]. split; [| split].
    + intros x Hx. rewrite (ordered_unique _ _ _ _ Ho Hx E). cbn. split; [done |]. intros Hb.
      by destruct (fk_began _ _ H key y E Hb).
    + intros _. by exists y.
    + exact (fk_id _ _ H key y E).
  - split; [| split; [done | cbn; lia]]. intros x Hx. apply find_slot_in in Hx; [congruence | done].
Qed.

Lemma erase_ok f m key c : fs_ok f m -> (forall x, In (key, x) (slots_ f) -> began x = false) ->
  fs_ok (set_slots (set_stats f c) (erase_slot (slots_ f) key)) m.
Proof.
  intros H Hb. unfold erase_slot. pose proof (filter_ok f m (fun x => negb (x.1 =? key)) c H) as G.
  eapply fs_ok_ext; [| | apply G]; try done. intros [k x] Hin Hbx. cbn in *. destruct (Z.eqb_spec k key) as [-> |]; [| done].
  by rewrite Hb in Hbx.
Qed.

Lemma push_ok f m sd pkt now arr f' ev : fs_ok f m -> push_fragment f sd pkt now arr = Some (f', ev) -> Forall below_max ev ->
  exists m', mon_run m ev = Some m' /\ fs_ok f' m'.
Proof.
  intros H. unfold push_fragment.
  destruct (_ <? _)%nat; [intros [= <- <-] _; exists m; by split; [| eapply fs_ok_ext; [| | exact H]] |].
  destruct (watchdog_ok now f m H) as (m1 & R1 & H1). destruct (watchdog f now) as [f1 ev1]. cbn [fst snd] in *.
  destruct (parse_frag_hdr pkt) as [[[[fs idx] cnt]|]|]; cbn [mbind option_bind]; [| | done].
  2: { intros [= <- <-] _. exists m1. split; [done |]. by eapply fs_ok_ext; [| | exact H1]. }
  set (key := Z.lor (Z.shiftl sd 16) fs). set (s := join_slot _ _ _ _ _ _ _ _).
  destruct (joined_slot f1 m1 key sd fs idx cnt now (drop 6 pkt) arr H1) as (J1 & J2 & J3). fold s in J1, J2, J3.
  assert (Hgo : forall g, fs_ok g m1 -> ('(f, ev') ← try_emit g now; Some (f, ev1 ++ ev')) = Some (f', ev) -> Forall below_max ev ->
    exists m', mon_run m ev = Some m' /\ fs_ok f' m').
  { intros g Hg. unfold try_emit. destruct (try_emit_loop _ now g) as [[g' ev']|] eqn:E; [| done]. cbn [mbind option_bind].
    intros [= <- <-] Hmax. apply Forall_app in Hmax as [_ Hmax]. destruct (loop_ok _ _ _ _ _ _ Hg E Hmax) as (m2 & R2 & H2).
    exists m2. by rewrite (mon_run_app _ _ _ _ R1). }
  destruct ((idx =? 0) && negb (have_hdr s)) eqn:Eh.
  - apply andb_prop in Eh as [_ Eh]. apply negb_true_iff in Eh.
    assert (Hnb : forall x, In (key, x) (slots_ f1) -> began x = false).
    { intros x Hx. destruct (J1 x Hx) as [_ E2]. destruct (began x); [| done]. destruct (E2 eq_refl). congruence. }
    assert (Hnbs : began s = false).
    { destruct (began s) eqn:E; [| done]. destruct (J2 eq_refl) as [x Hx]. destruct (J1 x Hx) as [E1 _]. rewrite Hnb in E1 by done. congruence. }
    destruct (parse_frame_hdr (drop 6 pkt)) as [[h|]|]; cbn [mbind option_bind]; [| | done].
    + apply Hgo. unfold push_hdr. pose proof (unwrap_spec (ids f1) (frame_id h) (flags h)) as U.
      destruct (unwrap_id _ _ _) as [[i id] rb]. destruct U as (U1 & U2 & U3).
      apply unbegun_ok; [done | | | done | done | done].
      * intros x Hx. rewrite Hnb by done. split; [by rewrite <- Hnbs | done].
      * intros Hx. change (began s = true) in Hx. congruence.
    + intros [= <- <-] _. exists m1. split; [done |]. by apply erase_ok.
  - apply Hgo. pose proof (unbegun_ok f1 m1 key s (ids f1) (watch f1) (stats f1) (params_ f1) H1 J1 J2 J3 eq_refl eq_refl) as G. exact G.
Qed.

Lemma call_ok f m c f' ev : fs_ok f m -> fs_call f c = Some (f', ev) -> Forall below_max ev ->
  exists m', mon_run m ev = Some m' /\ fs_ok f' m'.
Proof.
  destruct c as [sd pkt now arr | now | | sd ms]; cbn [fs_call]; intros H.
  - by apply push_ok.
  - intros Hc Hm. unfold poll in Hc. match type of Hc with try_emit ?g _ = _ => assert (Hg : fs_ok g m) end.
    { apply filter_ok; [done |]. intros [k x] Hx Hb. cbn in *. destruct (fk_began _ _ H k x Hx Hb) as [-> _]. done. }
    unfold try_emit in Hc. by apply (loop_ok _ _ _ _ _ _ Hg Hc).
  - intros [= <- <-] _. by apply reset_ok.
  - intros [= <- <-] _. exists m. split; [done |]. by eapply fs_ok_ext; [| | exact H].
Qed.

Lemma calls_ok l : forall f m f' ev, fs_ok f m -> fs_calls f l = Some (f', ev) -> Forall below_max ev ->
  exists m', mon_run m ev = Some m' /\ fs_ok f' m'.
Proof.
  induction l as [|c l IH]; intros f m f' ev H; cbn [fs_calls]; [intros [= <- <-] _; by exists m |].
  destruct (fs_call f c) as [[f1 ev1]|] eqn:E1; [| done]. cbn [mbind option_bind].
  destruct (fs_calls f1 l) as [[f2 ev2]|] eqn:E2; [| done]. cbn [mbind option_bind]. intros [= <- <-] Hmax.
  apply Forall_app in Hmax as [M1 M2]. destruct (call_ok _ _ _ _ _ H E1 M1) as (m1 & R1 & H1).
  destruct (IH _ _ _ _ H1 E2 M2) as (m2 & R2 & H2). exists m2. by rewrite (mon_run_app _ _ _ _ R1).
Qed.

Lemma new_stream_ok cfg : fs_ok (new_frame_stream cfg) mon0.
Proof.
  split; cbn; try done; [constructor |]. intros k id. rewrite lookup_empty. split; [done |]. by intros (x & [] & _).
Qed.

(** ** Property *)

(** C39. The callbacks keep the consumer's contract, over any calls, well or ill formed: every
    frame's bytes and end come between its begin and its end; a frame begins while another is
    open only under the same id; ids never go back: no frame begins below the id of one that
    began, or at the id of one that ended; and a reset leaves no frame open.  (No frame
    may be numbered 2^64 - 1, where the cursor wraps.) *)
Theorem frame_order (cfg : FrameStreamCfg) (l : list FsCall) (f : FrameStream) (ev : list FsEvent)
    (Hrun : fs_calls (new_frame_stream cfg) l = Some (f, ev)) (Hmax : Forall below_max ev) :
  exists m, mon_run mon0 ev = Some m /\
    forall k id, open m !! k = Some id <-> exists s, In (k, s) (slots_ f) /\ began s = true /\ id64 s = id.
Proof.
  destruct (calls_ok l _ _ _ _ (new_stream_ok cfg) Hrun Hmax) as (m & R & H). exists m. split; [done |]. apply H.
Qed.

(** Two frames, the first one missing its second fragment until the gap times out. *)
Definition ex_packet (seq idx count id : Z) : list Z :=
  put16 seq ++ put16 idx ++ put16 count ++ pack_frame_hdr (mkFrameHdr id 0 0 0) ++ [id; id].
Definition ex_gap : list FsCall :=
  [CPush 0 (ex_packet 1 0 2 7) 100 no_arrival; CPush 1 (ex_packet 1 0 1 8) 101 no_arrival; CPoll 200].

Lemma frame_order_witness :
  exists f ev m, fs_calls (new_frame_stream default_cfg) ex_gap = Some (f, ev) /\ Forall below_max ev /\
    length ev = 6%nat /\ mon_run mon0 ev = Some m /\ open m = ∅.
Proof.
  destruct (fs_calls (new_frame_stream default_cfg) ex_gap) as [[f ev]|] eqn:E;
    [| exfalso; revert E; vm_compute; discriminate].
  assert (X : ev = default [] (snd <$> fs_calls (new_frame_stream default_cfg) ex_gap)) by (rewrite E; reflexivity).
  assert (Hm : Forall below_max ev).
  { rewrite X. clear. vm_compute. repeat constructor; discriminate. }
  destruct (frame_order default_cfg ex_gap f ev E Hm) as (m & R & _).
  exists f, ev, m. split; [reflexivity |]. split; [exact Hm |]. split; [rewrite X; clear; vm_compute; reflexivity |].
  split; [exact R |]. rewrite X in R. vm_compute in R. injection R as <-. reflexivity.
Defined.
