(* ===== verification/FrameStreamData.v ===== *)
(** * FrameStreamData: unsliced frames come out byte for byte

    The fragments pushed are those of known frames, in any order, interleaved, repeated or
    lost.  What leaves for a frame is a prefix of its bytes, and all of them when its end
    says so. *)
From Stdlib Require Import Sorting.Sorted.
From S2P Require Import Prelude Bytes Framing HevcPs SliceAssembler FrameStream FrameStreamProps.
Local Open Scope Z_scope.
Local Open Scope mabur_scope.

Section Genuine.
(** The frames by slot key: their fragments' payloads. *)
Context (G : Z -> option (list (list Z))).

(** At most 65535 fragments; the first starts with a header that announces no slices. *)
Definition frames_ok : Prop := forall k ps, G k = Some ps ->
  Z.of_nat (length ps) <= 65535 /\ exists p0 rest h, ps = p0 :: rest /\ parse_frame_hdr p0 = Some (Some h) /\ slice_rows h = 0.

Definition genuine_call (c : FsCall) : Prop :=
  match c with
  | CPush sd pkt now arr =>
      exists fs idx ps p, in_width 16 fs /\ G (Z.lor (Z.shiftl sd 16) fs) = Some ps /\ ps !! idx = Some p /\
        pkt = frag_hdr fs (Z.of_nat idx) (Z.of_nat (length ps)) ++ p
  | _ => True
  end.

(** The bytes of the first [n] fragments, without the header. *)
Definition body (ps : list (list Z)) (n : nat) : list Z := drop kFrameHdrLen (concat (take n ps)).
Definition frame (k : Z) : list Z := match G k with Some ps => body ps (length ps) | None => [] end.

(** The bytes of each open frame; an end checks them. *)
Definition data_step (d : gmap Z (list Z)) (e : FsEvent) : option (gmap Z (list Z)) :=
  match e with
  | EvBegin k _ _ _ _ => Some (<[k := []]> d)
  | EvData k b => x ← d !! k; Some (<[k := x ++ b]> d)
  | EvTail _ _ => None
  | EvEnd k c _ =>
      x ← d !! k;
      if (if c : bool then bool_decide (x = frame k) else bool_decide (x `prefix_of` frame k)) then Some (delete k d) else None
  | EvReset => Some d
  end.
Fixpoint data_run (d : gmap Z (list Z)) (l : list FsEvent) : option (gmap Z (list Z)) :=
  match l with [] => Some d | e :: l => d ← data_step d e; data_run d l end.

Lemma data_run_app l1 l2 d d1 : data_run d l1 = Some d1 -> data_run d (l1 ++ l2) = data_run d1 l2.
Proof.
  revert d. induction l1 as [|e l1 IH]; intros d; cbn; [by intros [= ->] |]. destruct (data_step d e); cbn; [apply IH | done].
Qed.

Context (HG : frames_ok).

Lemma body_S k ps n p : G k = Some ps -> ps !! n = Some p ->
  body ps (S n) = body ps n ++ drop (if (n =? 0)%nat then kFrameHdrLen else 0) p.
Proof.
  intros Hk Hp. destruct (HG k ps Hk) as (_ & p0 & rest & h & -> & Hh & _).
  assert (Hl : (kFrameHdrLen <= length p0)%nat).
  { unfold parse_frame_hdr in Hh. by destruct (Nat.ltb_spec (length p0) kFrameHdrLen). }
  unfold body. rewrite (take_S_r _ _ p) by done. rewrite concat_app. cbn [concat]. rewrite app_nil_r. destruct n as [|n]; cbn [Nat.eqb].
  - done.
  - rewrite drop_app_le; [done |]. cbn [take firstn concat]. rewrite length_app. lia.
Qed.

Lemma body_prefix k ps n : G k = Some ps -> body ps n `prefix_of` frame k.
Proof.
  intros Hk. unfold frame. rewrite Hk. unfold body.
  rewrite <- (firstn_skipn n ps) at 3. rewrite (take_ge (take n ps ++ drop n ps)) by (rewrite firstn_skipn; done).
  rewrite concat_app. destruct (Nat.le_ge_cases kFrameHdrLen (length (concat (take n ps)))).
  - rewrite drop_app_le by done. by eexists.
  - rewrite (drop_ge (concat (take n ps))) by done. apply prefix_nil.
Qed.

Record slot_ok (k : Z) (s : Slot) (ps : list (list Z)) : Prop := {
  sk_frame : G k = Some ps;
  sk_chunk : forall i c, chunks s !! i = Some c -> 0 <= i /\ ps !! Z.to_nat i = Some c;
  sk_some : chunks s <> ∅;
  sk_count : count s = Z.of_nat (length ps);
  sk_sa : sa s = None;
  sk_rows : have_hdr s = true -> slice_rows (hdr s) = 0;
  sk_upto : 0 <= emitted_upto s <= Z.of_nat (length ps);
  sk_unbegun : began s = false -> emitted_upto s = 0;
}.

Definition slot_at (d : gmap Z (list Z)) (k : Z) (s : Slot) : Prop :=
  exists ps, slot_ok k s ps /\ (began s = true -> have_hdr s = true /\ d !! k = Some (body ps (Z.to_nat (emitted_upto s)))).
Record data_ok (f : FrameStream) (d : gmap Z (list Z)) : Prop := {
  dk_ord : ordered (slots_ f);
  dk_slot : forall k s, In (k, s) (slots_ f) -> slot_at d k s;
}.

Lemma data_ok_ext f f' d : slots_ f' = slots_ f -> data_ok f d -> data_ok f' d.
Proof. intros E [H1 H2]. split; by rewrite E. Qed.

Lemma filter_data f d p c : data_ok f d -> data_ok (set_stats (set_slots f (List.filter p (slots_ f))) c) d.
Proof.
  intros [H1 H2]. split; cbn [slots_ set_stats set_slots]; [by apply filter_ordered |].
  intros k s Hin. apply filter_In in Hin as [Hin _]. by apply H2.
Qed.

(** A slot put at its key, the bytes of the other frames untouched. *)
Lemma set_data f f' d d' key s' : data_ok f d -> slots_ f' = set_slot (slots_ f) key s' ->
  (forall k, k <> key -> d' !! k = d !! k) -> slot_at d' key s' -> data_ok f' d'.
Proof.
  intros [H1 H2] Es Hd Hs. split; rewrite Es; [by apply set_slot_ordered |].
  intros k s Hin. apply set_slot_in in Hin as [[= -> ->] | [Hin Hk]]; [done | | done]. cbn in Hk.
  destruct (H2 k s Hin) as (ps & Hp & Hb). exists ps. split; [done |]. rewrite Hd by done. done.
Qed.

(** ** Emission *)

Lemma stream_data fuel now key s ps d : slot_ok key s ps -> began s = true -> d !! key = Some (body ps (Z.to_nat (emitted_upto s))) ->
  let '(s', ev) := stream_loop fuel now key s in
  slot_ok key s' ps /\ began s' = true /\ have_hdr s' = have_hdr s /\
  data_run d ev = Some (<[key := body ps (Z.to_nat (emitted_upto s'))]> d).
Proof.
  revert s d. induction fuel as [|fuel IH]; intros s d Hs Hb Hd; cbn [stream_loop].
  { split_and!; try done. cbn. by rewrite insert_id. }
  destruct (chunks s !! emitted_upto s) as [c|] eqn:Ec; [| split_and!; try done; cbn; by rewrite insert_id].
  destruct (sk_chunk _ _ _ Hs _ _ Ec) as [H0 Hc]. pose proof (lookup_lt_Some _ _ _ Hc) as Hlt.
  destruct (HG key ps (sk_frame _ _ _ Hs)) as (Hlen & _).
  assert (Hu : u16 (emitted_upto s + 1) = emitted_upto s + 1) by (apply wrap_small; unfold in_width; lia).
  assert (Hn : Z.to_nat (emitted_upto s + 1) = S (Z.to_nat (emitted_upto s))) by lia.
  assert (Hbody : body ps (S (Z.to_nat (emitted_upto s))) =
    body ps (Z.to_nat (emitted_upto s)) ++ drop (if emitted_upto s =? 0 then kFrameHdrLen else 0%nat) c).
  { rewrite (body_S key ps _ c) by (done || apply Hs). f_equal.
    destruct (Z.eqb_spec (emitted_upto s) 0) as [E | E]; [by rewrite E |]. by rewrite (proj2 (Nat.eqb_neq _ _)) by lia. }
  rewrite Hu, (sk_sa _ _ _ Hs). set (skip := if emitted_upto s =? 0 then kFrameHdrLen else 0%nat) in *.
  set (ev := if (skip <? length c)%nat then _ else _).
  assert (Hev : data_run d ev = Some (<[key := body ps (S (Z.to_nat (emitted_upto s)))]> d)).
  { unfold ev. destruct (Nat.ltb_spec skip (length c)).
    - cbn [data_run data_step]. rewrite Hd, Hbody. done.
    - cbn [data_run]. rewrite Hbody, (drop_ge c) by done. rewrite app_nil_r, insert_id by done. done. }
  assert (Hs1 : slot_ok key (set_upto s (emitted_upto s + 1) now) ps).
  { destruct Hs as [K1 K2 K3 K4 K5 K6 K7 K8]. split; try done; cbn; [lia | congruence]. }
  specialize (IH (set_upto s (emitted_upto s + 1) now) (<[key := body ps (S (Z.to_nat (emitted_upto s)))]> d) Hs1 Hb).
  rewrite lookup_insert_eq in IH. cbn [emitted_upto set_upto] in IH. rewrite Hn in IH. specialize (IH eq_refl).
  destruct (stream_loop fuel now key _) as [s' ev']. destruct IH as (I1 & I2 & I3 & I4). split_and!; try done.
  rewrite (data_run_app _ _ _ _ Hev), I4. by rewrite insert_insert_eq.
Qed.

(** Neither the verdict nor the parameter harvest of a frame's end touches its bytes. *)
Lemma finish_data f key s c ps d : slot_ok key s ps -> d !! key = Some (body ps (Z.to_nat (emitted_upto s))) ->
  (c = true -> emitted_upto s = count s) ->
  exists f' ev, FrameStream.finish f key s c = Some (f', ev) /\ data_run d ev = Some (delete key d) /\
    slots_ f' = erase_slot (slots_ f) key.
Proof.
  intros Hs Hd Hc. unfold FrameStream.finish, finish_slices. rewrite (sk_sa _ _ _ Hs). cbn [mbind option_bind].
  set (s1 := if _ && _ then _ else _). destruct (if c then _ else _) as [p s2]. eexists _, _. split; [done |]. split; [| done].
  cbn [app data_run data_step]. rewrite Hd. cbn [mbind option_bind].
  assert (Hok : (if c then bool_decide (body ps (Z.to_nat (emitted_upto s)) = frame key)
    else bool_decide (body ps (Z.to_nat (emitted_upto s)) `prefix_of` frame key)) = true).
  { destruct c; apply bool_decide_eq_true.
    - rewrite Hc, (sk_count _ _ _ Hs), Nat2Z.id by done. unfold frame. by rewrite (sk_frame _ _ _ Hs).
    - apply body_prefix, Hs. }
  by rewrite Hok.
Qed.

Lemma erase_data f d key : data_ok f d -> forall f', slots_ f' = erase_slot (slots_ f) key -> data_ok f' (delete key d).
Proof.
  intros [H1 H2] f' E. split; rewrite E; [by apply filter_ordered |]. intros k s Hin. apply erase_in in Hin as [Hin Hk]. cbn in Hk.
  destruct (H2 k s Hin) as (ps & Hp & Hb). exists ps. split; [done |]. by rewrite lookup_delete_ne.
Qed.

Lemma turn_data now f d : data_ok f d -> exists b f' ev, try_emit_turn now f = Some (b, f', ev) /\
  exists d', data_run d ev = Some d' /\ data_ok f' d'.
Proof.
  intros H. unfold try_emit_turn. cbn zeta. assert (H0 : data_ok (evict f) d) by (by apply filter_data).
  pose proof (head_of_spec (slots_ (evict f)) None ltac:(done)) as Hh.
  destruct (head_of _ _) as [[key s]|]; [| eexists _, _, _; split; [done |]; by exists d].
  destruct Hh as (Hk & [Hin | Hin] & _); [| done]. cbn [snd] in Hk.
  destruct (skip_gap _ _ _ _) as [[f1 s1]|] eqn:Es; [| eexists _, _, _; split; [done |]; by exists d].
  pose proof (skip_gap_spec _ _ _ _ _ _ Es) as (Hsl & _).
  assert (Hs1 : s1 = s \/ exists n, s1 = set_lat s (add_skipped (lat s) n)).
  { unfold skip_gap in Es. destruct (_ && _).
    - destruct (discont s); [injection Es as _ <-; by left |]. destruct (_ && _); [done |]. injection Es as _ <-. right. by eexists.
    - destruct (negb _); injection Es as _ <-; by left. }
  destruct (dk_slot _ _ H0 key s Hin) as (ps & Hps & Hbeg).
  assert (Hps1 : slot_ok key s1 ps /\ have_hdr s1 = true /\ began s1 = began s /\ emitted_upto s1 = emitted_upto s).
  { destruct Hs1 as [-> | [n ->]]; [done |]. split; [| done]. by destruct Hps. }
  destruct Hps1 as (Hps1 & Hk1 & Hb1 & Hu1).
  destruct (begin_slot f1 key s1) as [s2 ev1] eqn:Eb.
  assert (Hb2 : slot_ok key s2 ps /\ began s2 = true /\ have_hdr s2 = true /\
    exists d1, data_run d ev1 = Some d1 /\ (forall k, k <> key -> d1 !! k = d !! k) /\ d1 !! key = Some (body ps (Z.to_nat (emitted_upto s2)))).
  { unfold begin_slot in Eb. destruct (began s1) eqn:E; injection Eb as <- <-.
    - split_and!; try done. exists d. split_and!; try done. rewrite Hu1. apply Hbeg. congruence.
    - rewrite (sk_rows _ _ _ Hps1 Hk1). cbn [Z.ltb Z.compare andb]. split; [by destruct Hps1; split |]. split; [done |]. split; [done |].
      exists (<[key := []]> d). split; [done |]. split; [intros k Hne; by rewrite lookup_insert_ne |].
      rewrite lookup_insert_eq. cbn [emitted_upto set_began]. by rewrite (sk_unbegun _ _ _ Hps1 E). }
  destruct Hb2 as (Hps2 & Hb2 & Hk2 & d1 & Hr1 & Hd1 & Hd1k).
  unfold stream_chunks. pose proof (stream_data (Z.to_nat (65536 - emitted_upto s2)) now key s2 ps d1 Hps2 Hb2 Hd1k) as Hst.
  destruct (stream_loop _ now key s2) as [s3 ev2]. destruct Hst as (Hps3 & Hb3 & Hk3 & Hr2).
  rewrite (sk_sa _ _ _ Hps3). set (d2 := <[key := _]> d1) in *.
  assert (Hd2 : forall k, k <> key -> d2 !! k = d !! k) by (intros k Hne; unfold d2; rewrite lookup_insert_ne by done; by apply Hd1).
  assert (Hd2k : d2 !! key = Some (body ps (Z.to_nat (emitted_upto s3)))) by (unfold d2; by rewrite lookup_insert_eq).
  set (f2 := set_slots f1 (set_slot (slots_ f1) key s3)).
  assert (H2 : data_ok f2 d2).
  { apply (set_data (evict f) f2 d d2 key s3 H0); [by rewrite <- Hsl | done |]. exists ps. split; [done |]. intros _. split; [congruence | done]. }
  assert (Hr : data_run d (ev1 ++ ev2) = Some d2) by (rewrite (data_run_app _ _ _ _ Hr1); done).
  assert (Hend : forall c, (c = true -> emitted_upto s3 = count s3) -> exists b f' ev,
    ('(f, ev3) ← FrameStream.finish f2 key s3 c; Some (true, f, ev1 ++ ev2 ++ ev3)) = Some (b, f', ev) /\
    exists d', data_run d ev = Some d' /\ data_ok f' d').
  { intros c Hc. destruct (finish_data f2 key s3 c ps d2 Hps3 Hd2k Hc) as (f3 & ev3 & -> & Hr3 & Hs3). cbn [mbind option_bind].
    eexists _, _, _. split; [done |]. exists (delete key d2). split; [| by apply (erase_data f2 d2)].
    rewrite app_assoc, (data_run_app _ _ _ _ Hr). done. }
  destruct (Z.eqb_spec (emitted_upto s3) (count s3)) as [Hc | Hc]; [by apply Hend |].
  destruct (_ || _); [by apply Hend |]. eexists _, _, _. split; [done |]. by exists d2.
Qed.

Lemma loop_data fuel now f d : data_ok f d -> exists f' ev, try_emit_loop fuel now f = Some (f', ev) /\
  exists d', data_run d ev = Some d' /\ data_ok f' d'.
Proof.
  revert f d. induction fuel as [|fuel IH]; intros f d H; cbn [try_emit_loop]; [eexists _, _; split; [done |]; by exists d |].
  destruct (turn_data now f d H) as (b & f1 & ev1 & -> & d1 & R1 & H1). cbn [mbind option_bind].
  destruct b; [| eexists _, _; split; [done |]; by exists d1].
  destruct (IH f1 d1 H1) as (f2 & ev2 & -> & d2 & R2 & H2). cbn [mbind option_bind]. eexists _, _. split; [done |].
  exists d2. by rewrite (data_run_app _ _ _ _ R1).
Qed.

(** ** Nothing complete waits without cause *)

Definition missing (s : Slot) : Prop := exists i, 0 <= i < count s /\ chunks s !! i = None.
(** A known frame that has all its fragments is still held only behind an earlier one: the
    cursor is below its id, or a frame with no greater id misses a fragment. *)
Definition settled (f : FrameStream) : Prop := forall k s, In (k, s) (slots_ f) -> have_hdr s = true ->
  (forall i, 0 <= i < count s -> is_Some (chunks s !! i)) ->
  have_next_emit_ (ids f) = true /\ next_emit_id64_ (ids f) < id64 s \/
  exists k' s', In (k', s') (slots_ f) /\ have_hdr s' = true /\ id64 s' <= id64 s /\ missing s'.

Lemma stream_sa fuel now key s : sa (stream_loop fuel now key s).1 = sa s.
Proof.
  revert s. induction fuel as [|fuel IH]; intros s; cbn [stream_loop]; [done |].
  destruct (chunks s !! _); [| done]. specialize (IH (set_upto s (u16 (emitted_upto s + 1)) now)). by destruct (stream_loop _ _ _ _).
Qed.

Lemma stream_stops fuel now key s ps : slot_ok key s ps -> began s = true -> Z.of_nat (length ps) - emitted_upto s < Z.of_nat fuel ->
  let '(s', _) := stream_loop fuel now key s in
  chunks s' !! emitted_upto s' = None /\ 0 <= emitted_upto s' <= count s' /\ id64 s' = id64 s /\ have_hdr s' = have_hdr s.
Proof.
  revert s. induction fuel as [|fuel IH]; intros s Hs Hb Hf; [destruct Hs; lia |]. cbn [stream_loop].
  destruct (chunks s !! emitted_upto s) as [c|] eqn:Ec; [| destruct Hs; split_and!; done || lia].
  destruct (sk_chunk _ _ _ Hs _ _ Ec) as [H0 Hc]. pose proof (lookup_lt_Some _ _ _ Hc) as Hlt.
  destruct (HG key ps (sk_frame _ _ _ Hs)) as (Hlen & _).
  rewrite wrap_small by (unfold in_width; lia). destruct Hs as [K1 K2 K3 K4 K5 K6 K7 K8].
  assert (Hgo : let '(s', _) := stream_loop fuel now key (set_upto s (emitted_upto s + 1) now) in
    chunks s' !! emitted_upto s' = None /\ 0 <= emitted_upto s' <= count s' /\ id64 s' = id64 s /\ have_hdr s' = have_hdr s).
  { apply (IH (set_upto s (emitted_upto s + 1) now)); [split; try done; cbn; [lia | congruence] | done | cbn; lia]. }
  by destruct (stream_loop fuel now key _).
Qed.

(** A turn that asks for no other leaves the slots settled. *)
Lemma turn_settles now f d f' ev : data_ok f d -> try_emit_turn now f = Some (false, f', ev) -> settled f'.
Proof.
  intros H. unfold try_emit_turn. cbn zeta. assert (H0 : data_ok (evict f) d) by (by apply filter_data).
  pose proof (head_of_spec (slots_ (evict f)) None ltac:(done)) as Hh.
  destruct (head_of _ _) as [[key s]|]; [| destruct Hh as [_ Hh]; intros [= <- _] k x Hx Hk; pose proof (Hh _ Hx); cbn in *; congruence].
  destruct Hh as (Hk & [Hin | Hin] & Hmin & _); [| done]. cbn [snd] in Hk, Hmin.
  destruct (skip_gap _ _ _ _) as [[f1 s1]|] eqn:Es.
  2: { intros [= <- _] k x Hx Hkx _. left. unfold skip_gap in Es. destruct (have_next_emit_ _) eqn:En; [| done]. cbn [andb negb] in Es.
       destruct (Z.ltb_spec (next_emit_id64_ (ids (evict f))) (id64 s)); [| done]. split; [done |].
       pose proof (Hmin _ Hx Hkx). cbn in *. lia. }
  pose proof (skip_gap_spec _ _ _ _ _ _ Es) as (Hsl & (Hi1 & Hh1 & Hb1) & _).
  destruct (dk_slot _ _ H0 key s Hin) as (ps & Hps & Hbeg).
  assert (Hps1 : slot_ok key s1 ps).
  { unfold skip_gap in Es. destruct (_ && _).
    - destruct (discont s); [by injection Es as _ <- |]. destruct (_ && _); [done |]. injection Es as _ <-. by destruct Hps.
    - destruct (negb _); by injection Es as _ <-. }
  destruct (begin_slot f1 key s1) as [s2 ev1] eqn:Eb.
  assert (Hb2 : slot_ok key s2 ps /\ began s2 = true /\ have_hdr s2 = true /\ id64 s2 = id64 s).
  { unfold begin_slot in Eb. destruct (began s1) eqn:E; injection Eb as <- <-; [split_and!; congruence |].
    rewrite (sk_rows _ _ _ Hps1) by congruence. cbn [Z.ltb Z.compare andb]. split; [by destruct Hps1; split |]. split_and!; done || (cbn; congruence). }
  destruct Hb2 as (Hps2 & Hb2 & Hk2 & Hi2). unfold stream_chunks.
  pose proof (stream_stops (Z.to_nat (65536 - emitted_upto s2)) now key s2 ps Hps2 Hb2) as Hst.
  pose proof (stream_sa (Z.to_nat (65536 - emitted_upto s2)) now key s2) as Hsa.
  destruct (HG key ps (sk_frame _ _ _ Hps2)) as (Hlen & _). pose proof (sk_upto _ _ _ Hps2).
  destruct (stream_loop _ now key s2) as [s3 ev2]. destruct Hst as (S1 & S2 & S3 & S4); [lia |]. cbn [fst] in Hsa.
  rewrite Hsa, (sk_sa _ _ _ Hps2). destruct (Z.eqb_spec (emitted_upto s3) (count s3)) as [Hc | Hc].
  { destruct (FrameStream.finish _ _ _ _) as [[? ?]|]; done. }
  destruct (_ || _). { destruct (FrameStream.finish _ _ _ _) as [[? ?]|]; done. }
  intros [= <- _]. assert (Hmiss : missing s3) by (exists (emitted_upto s3); split; [lia | done]).
  intros k x Hx Hkx Hall. cbn [slots_ set_slots] in Hx. rewrite Hsl in Hx.
  pose proof (set_slot_in (slots_ (evict f)) key s3) as Hsi. apply Hsi in Hx; [| apply H0]. destruct Hx as [[= -> ->] | [Hx Hne]].
  - destruct Hmiss as (i & Hi & Hn). destruct (Hall i Hi). congruence.
  - right. exists key, s3. split; [cbn; rewrite Hsl; apply Hsi; [apply H0 | by left] |]. split; [congruence |].
    split; [| done]. pose proof (Hmin _ Hx Hkx). cbn in *. lia.
Qed.

Lemma loop_settles fuel now f d f' ev : data_ok f d -> (length (slots_ f) < fuel)%nat -> try_emit_loop fuel now f = Some (f', ev) -> settled f'.
Proof.
  revert f d f' ev. induction fuel as [|fuel IH]; intros f d f' ev H Hf; [lia |]. cbn [try_emit_loop].
  destruct (turn_data now f d H) as (b & f1 & ev1 & E & d1 & _ & H1). rewrite E. cbn [mbind option_bind].
  destruct b; [| intros [= <- <-]; exact (turn_settles now f d f1 ev1 H E)].
  destruct (try_emit_loop fuel now f1) as [[f2 ev2]|] eqn:E2; [| done]. cbn [mbind option_bind]. intros [= <- <-].
  apply turn_shrinks in E. by apply (IH f1 d1 _ _ H1 ltac:(lia) E2).
Qed.

(** ** The calls *)

Lemma reset_data f d : data_ok f d -> exists d', data_run d (reset f).2 = Some d' /\ data_ok (reset f).1 d'.
Proof.
  intros [H1 H2]. assert (Hl : exists d', data_run d (map (fun x => EvEnd x.1 false (lat x.2)) (List.filter (fun x => began x.2) (slots_ f))) = Some d').
  { revert d H1 H2. induction (slots_ f) as [|[k s] l IH]; intros d H1 H2; [by exists d |]. cbn [List.filter snd].
    unfold ordered in H1. cbn in H1. apply StronglySorted_inv in H1 as [H1 Hk]. rewrite List.Forall_forall in Hk.
    destruct (began s) eqn:Eb; [| apply IH; [done |]; intros k' s' Hin; by apply H2; right].
    destruct (H2 k s (or_introl eq_refl)) as (ps & Hps & Hb). destruct (Hb Eb) as [_ Hd]. cbn [map data_run data_step fst].
    rewrite Hd. cbn [mbind option_bind]. rewrite bool_decide_eq_true_2 by (by apply body_prefix, Hps).
    apply IH; [done |]. intros k' s' Hin. destruct (H2 k' s' (or_intror Hin)) as (ps' & Hps' & Hb').
    exists ps'. split; [done |]. rewrite lookup_delete_ne; [done |]. intros ->. pose proof (Hk k' (in_map fst _ _ Hin)). cbn in *. lia. }
  destruct Hl as [d' Hd']. exists d'. cbn [reset fst snd]. split; [by rewrite (data_run_app _ _ _ _ Hd') |].
  split; cbn; [constructor | done].
Qed.

Lemma watchdog_data now f d : data_ok f d -> exists d', data_run d (watchdog f now).2 = Some d' /\ data_ok (watchdog f now).1 d'.
Proof.
  intros H. unfold watchdog. destruct (_ && _ && _); [| by exists d]. apply reset_data. by eapply data_ok_ext; [| exact H].
Qed.

Lemma join_data f d sd fs idx ps p now arr key : data_ok f d -> G key = Some ps -> ps !! idx = Some p ->
  let s := join_slot (default new_slot (find_slot (slots_ f) key)) sd fs (Z.of_nat idx) (Z.of_nat (length ps)) now p arr in
  slot_at d key s /\ (have_hdr s = false -> began s = false).
Proof.
  intros [H1 H2] Hk Hp s. pose proof (lookup_lt_Some _ _ _ Hp) as Hlt.
  assert (Hins : forall c i x, (forall i c', c !! i = Some c' -> 0 <= i /\ ps !! Z.to_nat i = Some c') ->
    <[Z.of_nat idx := p]> (c : ChunkMap) !! i = Some x -> 0 <= i /\ ps !! Z.to_nat i = Some x).
  { intros c i x Hc Hi. apply lookup_insert_Some in Hi as [[<- <-] | [_ Hi]]; [split; [lia | by rewrite Nat2Z.id] | by apply Hc]. }
  subst s. destruct (find_slot (slots_ f) key) as [y|] eqn:E; cbn [default].
  - apply find_slot_in in E; [| done]. destruct (H2 key y E) as (ps' & Hy & Hb).
    assert (ps' = ps) as -> by (destruct Hy; congruence). destruct Hy as [K1 K2 K3 K4 K5 K6 K7 K8]. split.
    + exists ps. unfold join_slot. rewrite (bool_decide_eq_false_2 _ K3). split; [| done].
      split; cbn; try done; [| by apply insert_non_empty]. intros i c. by apply Hins.
    + cbn. intros Hh. destruct (began y); [| done]. destruct (Hb eq_refl). congruence.
  - split; [| done]. exists ps. split; [| done]. split; cbn; try done; [| lia].
    intros i c. by apply Hins.
Qed.

Lemma push_data f d sd pkt now arr : data_ok f d -> genuine_call (CPush sd pkt now arr) ->
  exists f' ev, push_fragment f sd pkt now arr = Some (f', ev) /\ settled f' /\ exists d', data_run d ev = Some d' /\ data_ok f' d'.
Proof.
  intros H (fs & idx & ps & p & Hfs & Hk & Hp & ->). pose proof (lookup_lt_Some _ _ _ Hp) as Hlt.
  destruct (HG _ _ Hk) as (Hlen & p0 & rest & h & Hps & Hh & Hrows).
  unfold push_fragment. rewrite (proj2 (Nat.ltb_ge _ _)) by (rewrite length_app; cbn; lia).
  destruct (watchdog_data now f d H) as (d1 & R1 & H1). destruct (watchdog f now) as [f1 ev1]. cbn [fst snd] in *.
  rewrite parse_frag_hdr_spec by (done || unfold in_width; lia). cbn [mbind option_bind].
  change (drop 6 (frag_hdr fs (Z.of_nat idx) (Z.of_nat (length ps)) ++ p)) with p.
  set (key := Z.lor (Z.shiftl sd 16) fs) in *.
  destruct (join_data f1 d1 sd fs idx ps p now arr key H1 Hk Hp) as [Hs Hnb]. set (s := join_slot _ _ _ _ _ _ _ _) in *.
  assert (Hgo : forall g, data_ok g d1 -> exists f' ev, ('(f, ev') ← try_emit g now; Some (f, ev1 ++ ev')) = Some (f', ev) /\
    settled f' /\ exists d', data_run d ev = Some d' /\ data_ok f' d').
  { intros g Hg. unfold try_emit. destruct (loop_data (S (length (slots_ g))) now g d1 Hg) as (g' & ev' & E & d2 & R2 & H2).
    pose proof (loop_settles (S (length (slots_ g))) now g d1 g' ev' Hg ltac:(lia) E) as Hset. rewrite E. cbn [mbind option_bind].
    eexists _, _. split; [done |]. split; [done |]. exists d2. by rewrite (data_run_app _ _ _ _ R1). }
  destruct ((Z.of_nat idx =? 0) && negb (have_hdr s)) eqn:Eh.
  - apply andb_prop in Eh as [E0 Eh]. apply negb_true_iff in Eh. apply Z.eqb_eq in E0.
    assert (p = p0) as ->.
    { assert (idx = 0%nat) as -> by lia. rewrite Hps in Hp. by injection Hp. }
    rewrite Hh. cbn [mbind option_bind]. apply Hgo. unfold push_hdr. destruct (unwrap_id _ _ _) as [[i id] rb].
    eapply (set_data f1 _ d1 d1 key _ H1); [done | done |]. destruct Hs as (ps' & [K1 K2 K3 K4 K5 K6 K7 K8] & _). exists ps'.
    pose proof (Hnb Eh) as Hnb'. split; [split; try done |]. intros Hx. change (began s = true) in Hx. congruence.
  - apply Hgo. by eapply (set_data f1 _ d1 d1 key s H1).
Qed.

Lemma call_data c f d : genuine_call c -> data_ok f d -> settled f ->
  exists f' ev, fs_call f c = Some (f', ev) /\ settled f' /\ exists d', data_run d ev = Some d' /\ data_ok f' d'.
Proof.
  intros Hc H Hs. destruct c as [sd pkt now arr | now | | sd ms]; cbn [fs_call].
  - by apply push_data.
  - unfold poll. match goal with |- context [try_emit ?g now] => assert (Hg : data_ok g d) by (by apply filter_data) end.
    unfold try_emit. match goal with |- context [try_emit_loop ?n now ?g] =>
      destruct (loop_data n now g d Hg) as (g' & ev' & E & d2 & R2 & H2);
      pose proof (loop_settles n now g d g' ev' Hg ltac:(lia) E) as Hset; rewrite E end.
    eexists _, _. split; [done |]. split; [done |]. by exists d2.
  - destruct (reset_data f d H) as (d1 & R1 & H1). exists (reset f).1, (reset f).2. split; [by destruct (reset f) |].
    split; [by intros k s [] |]. by exists d1.
  - eexists _, _. split; [done |]. split; [exact Hs |]. exists d. split; [done |]. by eapply data_ok_ext; [| exact H].
Qed.

Lemma calls_data l : Forall genuine_call l -> forall f d, data_ok f d -> settled f ->
  exists f' ev, fs_calls f l = Some (f', ev) /\ settled f' /\ exists d', data_run d ev = Some d' /\ data_ok f' d'.
Proof.
  induction 1 as [|c l Hc Hl IH]; intros f d H Hs; cbn [fs_calls]; [eexists _, _; split; [done |]; split; [done |]; by exists d |].
  destruct (call_data c f d Hc H Hs) as (f1 & ev1 & -> & Hs1 & d1 & R1 & H1). cbn [mbind option_bind].
  destruct (IH f1 d1 H1 Hs1) as (f2 & ev2 & -> & Hs2 & d2 & R2 & H2). cbn [mbind option_bind]. eexists _, _. split; [done |].
  split; [done |]. exists d2. by rewrite (data_run_app _ _ _ _ R1).
Qed.
End Genuine.

(** ** Properties *)

(** C40. For frames of unsliced units, whose fragments are pushed in any order and
    interleaving, repeated or lost, among polls, resets and timeout changes: every call
    returns; a frame's callbacks carry its own bytes in order, a prefix of them when its end
    says truncated and exactly its bytes when it says complete; and behind every call a frame
    that has all its fragments is held only behind an earlier one that is still awaited. *)
Theorem frames_byte_exact (G : Z -> option (list (list Z))) (cfg : FrameStreamCfg) (l : list FsCall)
    (HG : frames_ok G) (Hl : Forall (genuine_call G) l) :
  exists f ev, fs_calls (new_frame_stream cfg) l = Some (f, ev) /\ settled f /\
    exists d, data_run G ∅ ev = Some d.
Proof.
  destruct (calls_data G HG l Hl (new_frame_stream cfg) ∅) as (f & ev & E & Hs & d & R & _).
  - split; cbn; [constructor | done].
  - by intros k s [].
  - exists f, ev. split; [done |]. split; [done |]. by exists d.
Qed.

(** A frame of two fragments, the second one first. *)
Definition ex_unit : list Z := pack_frame_hdr (mkFrameHdr 5 0 0 9) ++ [10; 11; 12; 13; 14; 15; 16; 17; 18; 19; 20; 21].
Definition ex_frag : list Z := take 10 ex_unit.
Definition ex_rest : list Z := drop 10 ex_unit.
Definition ex_frames (k : Z) : option (list (list Z)) := if k =? 3 then Some [ex_frag; ex_rest] else None.
Definition ex_calls : list FsCall :=
  [CPush 0 (frag_hdr 3 1 2 ++ ex_rest) 100 no_arrival; CPush 0 (frag_hdr 3 0 2 ++ ex_frag) 101 no_arrival; CPoll 120].

Lemma frames_byte_exact_witness :
  frames_ok ex_frames /\ Forall (genuine_call ex_frames) ex_calls /\
  exists f h l, fs_calls (new_frame_stream default_cfg) ex_calls =
      Some (f, [EvBegin 3 65541 h 0 1; EvData 3 [10; 11]; EvData 3 [12; 13; 14; 15; 16; 17; 18; 19; 20; 21]; EvEnd 3 true l]) /\ settled f.
Proof.
  assert (HG : frames_ok ex_frames).
  { intros k ps. unfold ex_frames. destruct (k =? 3); [| discriminate]. intros [= <-].
    split; [vm_compute; discriminate |]. exists ex_frag, [ex_rest], (mkFrameHdr 5 0 0 9). repeat split; vm_compute; reflexivity. }
  assert (Hl : Forall (genuine_call ex_frames) ex_calls).
  { repeat constructor.
    - exists 3, 1%nat, [ex_frag; ex_rest], ex_rest. repeat split; vm_compute; reflexivity || discriminate.
    - exists 3, 0%nat, [ex_frag; ex_rest], ex_frag. repeat split; vm_compute; reflexivity || discriminate. }
  destruct (frames_byte_exact ex_frames default_cfg ex_calls HG Hl) as (f & ev & E & Hs & _).
  split; [exact HG |]. split; [exact Hl |].
  assert (X : exists h l, snd <$> fs_calls (new_frame_stream default_cfg) ex_calls =
    Some [EvBegin 3 65541 h 0 1; EvData 3 [10; 11]; EvData 3 [12; 13; 14; 15; 16; 17; 18; 19; 20; 21]; EvEnd 3 true l])
    by (eexists _, _; vm_compute; reflexivity).
  destruct X as (h & l & X). rewrite E in X. injection X as X. exists f, h, l. rewrite E, X. by split.
Defined.

(** The fragmenter's packets are such fragments, and the frame is the unit behind its header. *)
Lemma fragment_genuine G fr unit usable sd now arr h c : let '(_, fs) := fragment fr unit usable in
  (0 < usable)%nat -> in_width 16 (seq_ fr) -> Z.of_nat (length fs) <= 65535 -> G (Z.lor (Z.shiftl sd 16) (seq_ fr)) = Some (map snd fs) ->
  In (h, c) fs -> genuine_call G (CPush sd (h ++ c) now arr) /\ frame G (Z.lor (Z.shiftl sd 16) (seq_ fr)) = drop kFrameHdrLen unit.
Proof.
  destruct (fragment fr unit usable) as [fr' fs] eqn:E. intros Hu Hw Hn HGk Hin. unfold fragment in E. injection E as _ <-.
  rewrite length_map, length_seq in Hn. split.
  - apply in_map_iff in Hin as (i & [= <- <-] & Hi). apply in_seq in Hi. set (n := n_chunks (length unit) usable) in *.
    exists (seq_ fr), i. eexists _, _. split; [done |]. split; [exact HGk |]. split.
    + rewrite map_map. rewrite list_lookup_fmap. rewrite (lookup_seq_lt 0 n i) by lia. done.
    + rewrite !length_map, length_seq. rewrite !wrap_small by (unfold in_width; lia). done.
  - unfold frame. rewrite HGk. unfold body. rewrite take_ge by done. rewrite map_map. cbn [snd].
    rewrite chunks_concat. rewrite take_ge; [done |]. destruct (n_chunks_cover (length unit) usable Hu). lia.
Qed.
