(* ===== verification/Profile.v ===== *)
(** * Profile: operating-point profiles and PHY rates (common/src/profile.cpp)

    The profile byte of the wire, the two-slot ladder built from it, the PHY rate tables, the
    delivered rate (drone/src/air_rate.h), and membership of the channel set
    (common/include/mabur/channel_set.h). *)
From S2P Require Import Prelude SwConfig.

(** ** Profiles *)

Inductive PhyMode := HT | VHT.

#[export] Instance phy_mode_eq_dec : EqDecision PhyMode.
Proof. solve_decision. Defined.

Record LayerTxSpec := mkLayerTxSpec {
  mode : PhyMode;
  mcs : Z;
  bw : Z;
  sgi : bool;
  ldpc : bool;
  stbc : bool;
  power_offset_db : Z;
}.

Definition LayerTxSpec0 : LayerTxSpec := mkLayerTxSpec HT 0 20 false false false 0.

Definition bw_to_code (bw : Z) : Z :=
  if bw =? 20 then 0 else if bw =? 40 then 1 else if bw =? 80 then 2 else 0.

Definition code_to_bw (code : Z) : Z :=
  if code =? 0 then 20 else if code =? 1 then 40 else if code =? 2 then 80 else 20.

Definition encode_profile (m : PhyMode) (mcs bw : Z) : Z :=
  let p := u8 (Z.lor (Z.land mcs 15) (Z.shiftl (bw_to_code bw) 4)) in
  if decide (m = VHT) then Z.lor p 64 else p.

Definition top_mcs (m : PhyMode) : Z := if decide (m = VHT) then 8 else 7.

Definition decode_profile (p : Z) : PhyMode * Z * Z :=
  let m := if Z.land p 64 =? 0 then HT else VHT in
  (m, Z.min (u8 (Z.land p 15)) (top_mcs m), code_to_bw (u8 (Z.land (Z.shiftr p 4) 3))).

(** [std::clamp] on [int]. *)
Definition z_clamp (x lo hi : Z) : Z := if x <? lo then lo else if hi <? x then hi else x.

Definition ladder_from (m : PhyMode) (mcs bw : Z) (ldpc : bool) : LayerTxSpec * LayerTxSpec :=
  let s := mkLayerTxSpec m (u8 (z_clamp mcs 0 (top_mcs m))) bw false ldpc true 0 in
  (s, s).

(** ** Rates *)

Definition kHt20Lgi : list double :=
  map (fun n => d_lit n 10) [65; 130; 195; 260; 390; 520; 585; 650].
Definition kHt40Lgi : list double :=
  map (fun n => d_lit n 10) [135; 270; 405; 540; 810; 1080; 1215; 1350].
Definition kVht20Lgi : list double :=
  map (fun n => d_lit n 10) [65; 130; 195; 260; 390; 520; 585; 650; 780].
Definition kVht40Lgi : list double :=
  map (fun n => d_lit n 10) [135; 270; 405; 540; 810; 1080; 1215; 1350; 1620].
Definition kVht80Lgi : list double :=
  map (fun n => d_lit n 10) [293; 585; 878; 1170; 1755; 2340; 2633; 2925; 3510].
Definition kSgiFactor : double := d_div (d_of_Z 10) (d_of_Z 9).

(** The table index is clamped into the table: the read cannot fail. *)
Definition phy_rate_mbps (s : LayerTxSpec) : double :=
  let base := match mode s with
              | HT => if bw s =? 40 then kHt40Lgi else kHt20Lgi
              | VHT => if bw s =? 40 then kVht40Lgi else if bw s =? 80 then kVht80Lgi else kVht20Lgi
              end in
  let r := default (d_of_Z 0) (base !! Z.to_nat (z_clamp (mcs s) 0 (top_mcs (mode s)))) in
  d_mul r (if sgi s then kSgiFactor else d_of_Z 1).

(** [delivered_mbps]: the efficiency table has eight entries, the index is clamped. *)
Definition delivered_mbps (s : LayerTxSpec) (efficiency_20 efficiency_40 : list double) : double :=
  let eff := if bw s =? 40 then efficiency_40 else efficiency_20 in
  let i := if mcs s <? Z.of_nat (length eff) then Z.to_nat (mcs s) else (length eff - 1)%nat in
  d_mul (phy_rate_mbps s) (default (d_of_Z 0) (eff !! i)).

(** ** The channel set *)

Definition channel_set_member (set : list Z) (ch : Z) : bool :=
  negb (ch =? 0) && existsb (Z.eqb ch) set.

Lemma channel_set_member_spec set ch : channel_set_member set ch = true <-> ch <> 0 /\ ch ∈ set.
Proof.
  unfold channel_set_member. rewrite andb_true_iff, negb_true_iff, Z.eqb_neq, existsb_exists.
  split; intros [H0 H]; split; try done.
  - destruct H as (x & Hx%list_elem_of_In & ->%Z.eqb_eq). done.
  - exists ch. split; [by apply list_elem_of_In | apply Z.eqb_refl].
Qed.

(** ** Round trip *)

Definition mcs_ok (m : PhyMode) (mcs : Z) : Prop := 0 <= mcs <= top_mcs m.
Definition bw_ok (bw : Z) : Prop := bw = 20 \/ bw = 40 \/ bw = 80.

(** Every rate the table knows is what the other end decodes. *)
Lemma decode_encode_profile m mcs bw :
  mcs_ok m mcs -> bw_ok bw -> decode_profile (encode_profile m mcs bw) = (m, mcs, bw).
Proof.
  intros Hm Hb.
  assert (Hall : forallb (fun mcs => bool_decide (mcs <= top_mcs m -> decode_profile (encode_profile m mcs bw) = (m, mcs, bw)))
                   (seqZ 0 9) = true) by (destruct m, Hb as [-> | [-> | ->]]; by vm_compute).
  apply (proj1 (forallb_forall _ _)) with (x := mcs) in Hall.
  - apply bool_decide_eq_true in Hall. apply Hall. by destruct Hm.
  - apply list_elem_of_In, elem_of_seqZ. destruct Hm as [? Hm]. unfold top_mcs in Hm. case_decide; lia.
Qed.

Lemma encode_profile_byte m mcs bw : 0 <= mcs -> is_byte (encode_profile m mcs bw).
Proof.
  intros H. unfold encode_profile, is_byte.
  assert (Hu : in_width 8 (u8 (Z.lor (Z.land mcs 15) (Z.shiftl (bw_to_code bw) 4)))) by (apply wrap_in_width; lia).
  case_decide; [| done]. apply lor_in_width; [lia | done | unfold in_width; lia].
Qed.
