(* ===== verification/RcPolicy.v ===== *)
(** * RcPolicy: the drone agent's state, its actuator, and what it commands (drone/src/rc_agent.cpp)

    The agent's members are grouped into records by concern.  A call to the [Actuator] is an
    [Effect] of the call; the answer of a verb that can fail is chosen by the environment.
    A [have_x_] flag beside a value is an option.  This file holds the operating point, the
    bitrate policy and the congestion guard; RcAgent.v the state machine that drives them. *)
From S2P Require Import Prelude SwConfig Profile RcProto.
From coqutil Require Export Datatypes.RecordSetters.
Export DoubleBraceUpdate.

(** ** Configuration *)

Record Config := mkConfig {
  channels : list Z;
  width : Z;
  cfg_ldpc : bool;
  bitrate_min_kbps : Z;
  bitrate_max_kbps : Z;
  airtime_budget : double;
  roi_threshold_kbps : Z;
  roi_qp_low : Z;
  roi_qp_normal : Z;
  venc_fps : Z;
  efficiency_20 : list double;
  efficiency_40 : list double;
  failsafe_ms : Z;
  rendezvous_ms : Z;
  move_confirm_ms : Z;
  key : list Z;
  lp_enable : bool;
  lp_bitrate_kbps : Z;
  lp_fps : Z;
  stale_ms : Z;
}.

(** ** State *)

Record AppliedOp := mkAppliedOp {
  ladder : LayerTxSpec * LayerTxSpec;
  fec_ov_base : double;
  fec_ov_enh : double;
  shed : bool * bool;
  generation : Z;
  op_probe_profile : Z;
  probe : LayerTxSpec;
}.

Definition AppliedOp0 : AppliedOp :=
  mkAppliedOp (LayerTxSpec0, LayerTxSpec0) (d_of_Z 2) (d_of_Z 2) (false, false) 0 kNoProbeProfile LayerTxSpec0.

Record Session := mkSession {
  s_vrx : Z;
  s_vtx : Z;
  s_valid : bool;
  last_seq32 : Z;
  have_seq : bool;
  agreed_ch : Z;
}.

Definition Session0 : Session := mkSession 0 0 false 0 false 0.

Record Chan := mkChan {
  channel : Z;
  move_pending : bool;
  move_at_ms : Z;
  move_from_ch : Z;
  deferred_move_ch : Z;
  seen_hop_epoch : Z;
  seen_hop_ch : Z;
  have_hop : bool;
}.

Record Idr := mkIdr {
  chain_break_pending : bool;
  chain_idr_pending : bool;
  idr_chain_total : Z;
  last_idr_ms : option Z;
  last_chain_idr_ms : option Z;
  idr_epoch_seen : Z;
  idr_gs_pending : bool;
  idr_gs_total : Z;
}.

Record Policy := mkPolicy {
  last_bitrate_kbps : option Z;
  last_bitrate_eval_ms : option Z;
  roi_low : bool;
  verb_apply_failed : bool;
  last_policy_ms : option Z;
  commanded_fps : Z;
}.

Record Guard := mkGuard {
  shed_level : Z;
  last_drop_rise_ms : option Z;
  last_tx_drops : option Z;
  failsafe_shed : bool;
}.

Record Arm := mkArm {
  arm_report : Z;
  armed_latched : bool;
  arm_reported : bool;
  last_armed : bool;
  last_arm_ms : Z;
  low_power_active : bool;
}.

Record Knobs := mkKnobs {
  knob_bitrate_max_kbps : Z;
  knob_airtime_budget_milli : Z;
  knob_low_power_enable : bool;
  knob_venc_fps : Z;
  rebuilt_pending : bool;
  ldpc_pending : Z;
  ldpc_live : bool;
}.

Inductive State := BOOT | RENDEZVOUS | LINKED | FAILSAFE.

#[export] Instance state_eq_dec : EqDecision State.
Proof. solve_decision. Defined.

Record Agent := mkAgent {
  ag_state : State;
  link_established : bool;
  last_fb : option Z;
  current : Session;
  pending : Session;
  published_session : Z;
  session_promoted : bool;
  auth_reject : bool;
  rcf_accepted : Z;
  chan : Chan;
  idr : Idr;
  op : AppliedOp;
  pol : Policy;
  grd : Guard;
  arm : Arm;
  knobs : Knobs;
  rec_applied : Z;
  snr_off_sent : Z;
}.

(** ** The actuator *)

Inductive Reason := ReasonDisc | ReasonHop | ReasonMoveUnconfirmed.

Inductive Effect :=
| EApply (o : AppliedOp)
| ESend (body : list Z)
| EFps (fps : Z) (took : bool)
| EBitrate (kbps : Z) (took : bool)
| ERoi (qp : Z) (took : bool)
| EIdr
| ERetune (ch : Z) (why : Reason)
| ERecord (on took : bool)
| ESensor (mfps : Z)
| ERemember (ch : Z).

(** What one call finds in its environment: the actuator's answers, by their position among
    the call's effects; the nonce [fresh_vtx_nonce_] draws; the debug override pair, if armed. *)
Record Env := mkEnv {
  ok : nat -> bool;
  rnd : Z;
  ovr : option (Z * Z);
}.

(** A call in progress: the agent, and the effects so far. *)
Record World := mkWorld { ag : Agent; out : list Effect }.

Definition emit (e : Effect) (w : World) : World := w {{ out ::= (fun l => l ++ [e]) }}.

(** A verb that reports whether the actuator took the value. *)
Definition verb (E : Env) (mk : bool -> Effect) (w : World) : bool * World :=
  let took := ok E (length (out w)) in (took, emit (mk took) w).

(** [a - b] of two [uint64_t]. *)
Definition sub64 (a b : Z) : Z := u64 (a - b).

(** ** The bitrate policy *)

Section Policy.
Context (cfg : Config) (E : Env).

Definition kShareBase : double := d_lit 60 100.

(** [round_to_100] *)
Definition round_to_100 (v : double) : Z := i32 (d_round (d_div v d_hundred) * 100).

(** The bitrate a pair of overheads, a ladder and the knobs call for. *)
Definition target_kbps (a : Agent) : Z :=
  let rate_b := delivered_mbps (fst (ladder (op a))) (efficiency_20 cfg) (efficiency_40 cfg) in
  let rate_e := delivered_mbps (snd (ladder (op a))) (efficiency_20 cfg) (efficiency_40 cfg) in
  let '(ob, oe) := default (-1, -1) (ovr E) in
  let '(ovb, ove) := if (0 <=? ob) && (0 <=? oe)
                     then (d_div (d_of_Z ob) d_hundred, d_div (d_of_Z oe) d_hundred)
                     else (fec_ov_base (op a), fec_ov_enh (op a)) in
  let denom := d_add (d_div (d_mul kShareBase (d_add d_one ovb)) rate_b)
                     (d_div (d_mul (d_sub d_one kShareBase) (d_add d_one ove)) rate_e) in
  let airtime_budget := d_div (d_of_Z (knob_airtime_budget_milli (knobs a))) (d_of_Z 1000) in
  let kbps := d_div (d_mul (d_of_Z 1000) airtime_budget) denom in
  let kbps := d_clamp kbps (d_of_Z (bitrate_min_kbps cfg)) (d_of_Z (knob_bitrate_max_kbps (knobs a))) in
  let kbps := if low_power_active (arm a) then d_min kbps (d_of_Z (lp_bitrate_kbps cfg)) else kbps in
  round_to_100 kbps.

(** The frame-rate verb: [true] when it was refused. *)
Definition push_fps (force : bool) (w : World) : bool * World :=
  let a := ag w in
  if knob_low_power_enable (knobs a) || negb (commanded_fps (pol a) =? 0) then
    let target := if low_power_active (arm a) then lp_fps cfg else knob_venc_fps (knobs a) in
    if force || negb (commanded_fps (pol a) =? target) then
      let '(took, w) := verb E (EFps target) w in
      if took then (false, w {{ ag->pol->commanded_fps := target }}) else (true, w)
    else (false, w)
  else (false, w).

Definition push_bitrate (now_ms : Z) (force : bool) (kbps_i : Z) (w : World) : bool * World :=
  let p := pol (ag w) in
  let decrease := match last_bitrate_kbps p with Some l => kbps_i <? l | None => false end in
  let changed := match last_bitrate_kbps p with Some l => negb (kbps_i =? l) | None => true end in
  let throttled := match last_bitrate_eval_ms p with Some t => sub64 now_ms t <? 1000 | None => false end in
  if force || decrease || (changed && negb throttled) then
    let '(took, w) := verb E (EBitrate kbps_i) w in
    if took then
      (false, w {{ ag->pol->last_bitrate_kbps := Some kbps_i ; ag->pol->last_bitrate_eval_ms := Some now_ms }})
    else (true, w)
  else (false, w).

Definition push_roi (kbps_i : Z) (w : World) : bool * World :=
  let now_low := kbps_i <? roi_threshold_kbps cfg in
  if negb (eqb now_low (roi_low (pol (ag w)))) then
    let '(took, w) := verb E (ERoi (if now_low then roi_qp_low cfg else roi_qp_normal cfg)) w in
    if took then (false, w {{ ag->pol->roi_low := now_low }}) else (true, w)
  else (false, w).

Definition run_bitrate_policy (now_ms : Z) (force : bool) (w : World) : World :=
  let w := w {{ ag->pol->last_policy_ms := Some now_ms }} in
  let kbps_i := target_kbps (ag w) in
  let '(f1, w) := push_fps force w in
  let '(f2, w) := push_bitrate now_ms force kbps_i w in
  let '(f3, w) := push_roi kbps_i w in
  w {{ ag->pol->verb_apply_failed := f1 || f2 || f3 }}.

(** ** Operating points *)

Definition ladder_live (a : Agent) (m : PhyMode) (mcs bw : Z) : LayerTxSpec * LayerTxSpec :=
  ladder_from m mcs bw (ldpc_live (knobs a)).

Definition apply_max_range (now_ms : Z) (w : World) : World :=
  let ladder' := ladder_live (ag w) HT 0 20 in
  let w := w {{ ag->grd->failsafe_shed := true ;
                ag->op->ladder := ladder' ;
                ag->op->op_probe_profile := kNoProbeProfile ;
                ag->op->fec_ov_base := d_of_Z 2 ;
                ag->op->fec_ov_enh := d_of_Z 2 ;
                ag->op->shed := (false, true) ;
                ag->op->generation ::= (fun g => u64 (g + 1)) }} in
  run_bitrate_policy now_ms true (emit (EApply (op (ag w))) w).

(** The probe's spec: the op's mode, the probe rung's own mcs and width. *)
Definition probe_spec (a : Agent) (m : PhyMode) (probe_profile : Z) (old : LayerTxSpec) : LayerTxSpec :=
  if probe_profile =? kNoProbeProfile then old
  else let '(_, pmcs, pbw) := decode_profile probe_profile in snd (ladder_live a m pmcs pbw).

Definition apply_ladder_op (lad : LayerTxSpec * LayerTxSpec) (ov_base ov_enh : double) (probe_profile : Z)
    (w : World) : World :=
  let a := ag w in
  let w := w {{ ag->grd->failsafe_shed := false ;
                ag->op->ladder := lad ;
                ag->op->fec_ov_base := ov_base ;
                ag->op->fec_ov_enh := ov_enh ;
                ag->op->op_probe_profile := probe_profile ;
                ag->op->probe ::= probe_spec a (mode (snd lad)) probe_profile ;
                ag->op->shed := (false, 1 <=? shed_level (grd a)) ;
                ag->op->generation ::= (fun g => u64 (g + 1)) }} in
  emit (EApply (op (ag w))) w.

Definition reapply_with_shed (w : World) : World :=
  let g := grd (ag w) in
  let w := w {{ ag->op->shed ::= (fun s => (fst s, failsafe_shed g || (1 <=? shed_level g))) }} in
  emit (EApply (op (ag w))) w.

Definition rebuild_current_op_ldpc (w : World) : World :=
  let a := ag w in
  let rung := snd (ladder (op a)) in
  let lad := ladder_live a (mode rung) (mcs rung) (bw rung) in
  let w := w {{ ag->op->ladder := lad ;
                ag->op->probe ::= probe_spec a (mode (snd lad)) (op_probe_profile (op a)) }} in
  emit (EApply (op (ag w))) w.

(** ** The congestion guard *)

Record RadioHealth := mkRadioHealth {
  thermal_delta : Z;
  tx_drops : Z;
  txq_depth : Z;
  txq_cap : Z;
}.

Definition run_congestion_guard (now_ms : Z) (h : RadioHealth) (w : World) : World :=
  let g := grd (ag w) in
  let drops_rose := match last_tx_drops g with Some l => l <? tx_drops h | None => 0 <? tx_drops h end in
  let w := w {{ ag->grd->last_tx_drops := Some (tx_drops h) }} in
  let txq_pressure := (0 <? txq_cap h) && (txq_cap h <=? u64 (txq_depth h * 2)) in
  if drops_rose || txq_pressure then
    let w := w {{ ag->grd->last_drop_rise_ms := Some now_ms }} in
    if shed_level g <? 3 then reapply_with_shed (w {{ ag->grd->shed_level ::= Z.succ }}) else w
  else
    match last_drop_rise_ms g with
    | Some t =>
        if (2000 <=? sub64 now_ms t) && (0 <? shed_level g) then
          reapply_with_shed (w {{ ag->grd->shed_level ::= Z.pred ;
                                  ag->grd->last_drop_rise_ms := Some now_ms }})
        else w
    | None => w
    end.

End Policy.
