(* ===== verification/RcAgent.v ===== *)
(** * RcAgent: the drone's control-plane state machine (drone/src/rc_agent.cpp)

    BOOT, RENDEZVOUS, LINKED and FAILSAFE; link pairing by nonces and tags; channel moves
    ordered by the ground station and undone when nobody follows; paced key frames.  A step is
    one call of the agent; the bare atomic stores of other threads are steps of their own.
    The outer [None] of a frame's handling is a read past the frame. *)
From S2P Require Import Prelude Bytes SipHash SwConfig Profile RcProto RcPolicy.

Section Agent.
Context (cfg : Config).

Definition member (ch : Z) : bool := channel_set_member (channels cfg) ch.

(** [static_cast<int>(std::lround(budget * 1000.0))] *)
Definition milli (budget : double) : Z := i32 (d_round (d_mul budget (d_of_Z 1000))).

(** The constructor; the front of an empty channel list is [None]. *)
Definition init (start_ch : Z) : option Agent :=
  ch ← (if channel_set_member (channels cfg) start_ch then Some start_ch else channels cfg !! 0%nat);
  Some (mkAgent BOOT false None Session0 Session0 0 false false 0
    (mkChan ch false 0 0 0 0 0 false)
    (mkIdr false false 0 None None 0 false 0)
    AppliedOp0
    (mkPolicy None None false false None 0)
    (mkGuard 0 None None false)
    (mkArm 0 false false false 0 false)
    (mkKnobs (bitrate_max_kbps cfg) (milli (airtime_budget cfg)) (lp_enable cfg) (venc_fps cfg) false (-1)
       (cfg_ldpc cfg))
    (-1) 0).

(** ** Sessions *)

Definition publish_session (a : Agent) : Agent :=
  a {{ published_session :=
         if s_valid (current a) then Z.lor (Z.shiftl (s_vrx (current a)) 32) (s_vtx (current a)) else 0 }}.

Definition clear_sessions (a : Agent) : Agent :=
  publish_session (a {{ current := Session0 ; pending := Session0 }}).

(** What every session boundary forgets. *)
Definition reset_epochs (a : Agent) : Agent :=
  a {{ chan->have_hop := false ; chan->seen_hop_epoch := 0 ; chan->seen_hop_ch := 0 ;
       idr->idr_epoch_seen := 0 ; idr->idr_gs_pending := false ; idr->chain_idr_pending := false }}.

(** The seq32 a frame claims under a pair, if fresh. *)
Definition rcf_candidate (r : Rcf) (s : Session) : option Z :=
  if negb (have_seq s) then Some (rcf_seq r)
  else
    let delta := u16 (rcf_seq r - u16 (last_seq32 s)) in
    if (delta <? 1) || (32767 <? delta) then None else Some (u32 (last_seq32 s + delta)).

Definition verify_rcf (body : list Z) (r : Rcf) (s : Session) : option (option Z) :=
  if negb (s_valid s) then Some None
  else
    match rcf_candidate r s with
    | None => Some None
    | Some cand =>
        v ← verify_control body (key cfg) (mkTagCtx (s_vrx s) (s_vtx s) cand);
        Some (if (v : bool) then Some cand else None)
    end.

Definition make_disc_ack (vrx vtx flags seq agreed : Z) : DiscAck :=
  mkDiscAck vrx vtx (Z.lor (Z.lor (Z.lor CAP_FRAME_WIRE CAP_TELEMETRY) CAP_CALIBRATE) CAP_MAVLINK)
    agreed (width cfg) flags seq.

(** ** Key-frame pacing *)

Definition idr_due (now_ms : Z) (chain : bool) (w : World) : bool * World :=
  let i := idr (ag w) in
  let within t d := match t with Some t => sub64 now_ms t <? d | None => false end in
  if within (last_idr_ms i) 100 then (false, w)
  else if chain && within (last_chain_idr_ms i) 1000 then (false, w)
  else
    let w := w {{ ag->idr->last_idr_ms := Some now_ms }} in
    (true, if chain then w {{ ag->idr->last_chain_idr_ms := Some now_ms }} else w).

(** ** Frames *)

Definition on_disc (E : Env) (body : list Z) (d : Disc) (w : World) : option World :=
  let a := ag w in
  let agreed := if member (op_channel d) then op_channel d else channel (chan a) in
  let ack vtx flags := ESend (pack_disc_ack (make_disc_ack (d_vrx_nonce d) vtx flags (disc_seq d) agreed)) in
  v ← verify_control body (key cfg) no_ctx;
  Some (
    if negb v then emit (ack 0 kAckKeyMismatch) (w {{ ag->auth_reject := true }})
    else if bool_decide (ag_state a = LINKED) && s_valid (current a) && (d_vrx_nonce d =? s_vrx (current a)) then
      emit (ack (s_vtx (current a)) 0) w
    else if s_valid (pending a) && (d_vrx_nonce d =? s_vrx (pending a)) then
      emit (ack (s_vtx (pending a)) 0) (w {{ ag->pending->agreed_ch := agreed }})
    else
      emit (ack (rnd E) 0) (w {{ ag->pending := mkSession (d_vrx_nonce d) (rnd E) true 0 false agreed }})).

(** A pending pair becomes the current one. *)
Definition promote (a : Agent) : Agent :=
  let a := publish_session (a {{ current := pending a ; pending := Session0 }}) in
  let a := reset_epochs (a {{ session_promoted := true }}) in
  if negb (agreed_ch (current a) =? 0) && negb (agreed_ch (current a) =? channel (chan a)) then
    a {{ chan->deferred_move_ch := agreed_ch (current a) }}
  else a.

(** A hop order: a new (epoch, channel) pair moves the drone. *)
Definition hop_order (r : Rcf) (now_ms : Z) (w : World) : World :=
  let c := chan (ag w) in
  if negb (hop_ch r =? 0) &&
     (negb (have_hop c) || negb (hop_epoch r =? seen_hop_epoch c) || negb (hop_ch r =? seen_hop_ch c)) then
    let w := w {{ ag->chan->have_hop := true ; ag->chan->seen_hop_epoch := hop_epoch r ;
                  ag->chan->seen_hop_ch := hop_ch r }} in
    if member (hop_ch r) && negb (hop_ch r =? channel c) then
      (emit (ERetune (hop_ch r) ReasonHop) w)
        {{ ag->chan->move_from_ch := channel c ; ag->chan->channel := hop_ch r ;
           ag->chan->move_pending := true ; ag->chan->move_at_ms := now_ms }}
    else w
  else w.

Definition record_wish (E : Env) (r : Rcf) (w : World) : World :=
  if negb (Z.land (rec r) kRecKnown =? 0) then
    let on := negb (Z.land (rec r) kRecOn =? 0) in
    let want := if on then 1 else 0 in
    if negb (want =? rec_applied (ag w)) then
      let '(took, w) := verb E (ERecord on) w in
      if took then w {{ ag->rec_applied := want }} else w
    else w
  else w.

Definition sensor_offset (r : Rcf) (w : World) : World :=
  if negb (snr_off r =? snr_off_sent (ag w)) then
    (emit (ESensor (snr_off r)) w) {{ ag->snr_off_sent := snr_off r }}
  else w.

(** The current pair accepted a frame: confirm a move in flight. *)
Definition accept_rcf (seq32 : Z) (w : World) : World :=
  let w := w {{ ag->current->last_seq32 := seq32 ; ag->current->have_seq := true ;
                ag->rcf_accepted ::= (fun c => u64 (c + 1)) }} in
  let w := if move_pending (chan (ag w)) then emit (ERemember (channel (chan (ag w)))) w else w in
  w {{ ag->chan->move_pending := false }}.

Definition note_idr_epoch (r : Rcf) (w : World) : World :=
  if negb (idr_epoch r =? idr_epoch_seen (idr (ag w))) then
    w {{ ag->idr->idr_epoch_seen := idr_epoch r ; ag->idr->idr_gs_pending := true }}
  else w.

Definition enter_linked (prev_state : State) (now_ms : Z) (w : World) : World :=
  let w := if bool_decide (prev_state = BOOT \/ prev_state = RENDEZVOUS)
           then w {{ ag->link_established := true }} else w in
  w {{ ag->ag_state := LINKED ; ag->last_fb := Some now_ms }}.

Definition link_up_idr (now_ms : Z) (w : World) : World :=
  let '(due, w) := idr_due now_ms false w in
  if due then (emit EIdr w) {{ ag->idr->idr_gs_pending := false ; ag->idr->chain_idr_pending := false }}
  else w.

Definition apply_rcf (E : Env) (r : Rcf) (now_ms : Z) (w : World) : World :=
  let '(m, mcs, bw) := decode_profile (profile r) in
  let prev_state := ag_state (ag w) in
  let w := apply_ladder_op (ladder_live (ag w) m mcs bw) (fec_overhead_base r) (fec_overhead_enh r)
             (probe_profile r) w in
  let w := hop_order r now_ms w in
  let w := record_wish E r w in
  let w := sensor_offset r w in
  let w := note_idr_epoch r w in
  let w := enter_linked prev_state now_ms w in
  let entering_linked := bool_decide (prev_state = FAILSAFE \/ prev_state = RENDEZVOUS) in
  let w := if entering_linked then link_up_idr now_ms w else w in
  run_bitrate_policy cfg E now_ms entering_linked w.

Definition on_rcf (E : Env) (body : list Z) (r : Rcf) (now_ms : Z) (w : World) : option World :=
  v ← verify_rcf body r (current (ag w));
  match v with
  | Some seq32 => Some (apply_rcf E r now_ms (accept_rcf seq32 w))
  | None =>
      v ← verify_rcf body r (pending (ag w));
      Some match v with
           | Some seq32 => apply_rcf E r now_ms (accept_rcf seq32 (w {{ ag := promote (ag w) }}))
           | None => w {{ ag->auth_reject := true }}
           end
  end.

Definition on_rc_frame (E : Env) (body : list Z) (now_ms : Z) (w : World) : option World :=
  type ← frame_type body;
  if type =? T_DISC then
    d ← parse_disc body;
    match d with Some d => on_disc E body d w | None => Some w end
  else if type =? T_RCF then
    r ← parse_rcf body;
    match r with Some r => on_rcf E body r now_ms w | None => Some w end
  else Some w.

(** ** The tick *)

Definition deferred_move (now_ms : Z) (w : World) : World :=
  let c := chan (ag w) in
  if negb (deferred_move_ch c =? 0) then
    (emit (ERetune (deferred_move_ch c) ReasonDisc) w)
      {{ ag->chan->deferred_move_ch := 0 ; ag->chan->move_from_ch := channel c ;
         ag->chan->channel := deferred_move_ch c ; ag->chan->move_pending := true ;
         ag->chan->move_at_ms := now_ms }}
  else w.

Definition unconfirmed_move (E : Env) (now_ms : Z) (w : World) : World :=
  let c := chan (ag w) in
  if move_pending c && (u64 (move_confirm_ms cfg) <=? sub64 now_ms (move_at_ms c)) then
    let w := if negb (move_from_ch c =? 0) && negb (move_from_ch c =? channel c) then
               (emit (ERetune (move_from_ch c) ReasonMoveUnconfirmed) w) {{ ag->chan->channel := move_from_ch c }}
             else w in
    let w := w {{ ag->chan->move_from_ch := 0 ; ag->chan->move_pending := false }} in
    let w := if bool_decide (ag_state (ag w) = LINKED) then apply_max_range cfg E now_ms w else w in
    w {{ ag->ag_state := RENDEZVOUS ; ag ::= clear_sessions ; ag ::= reset_epochs }}
  else w.

Definition serve_chain_break (now_ms : Z) (w : World) : World :=
  let i := idr (ag w) in
  let w := w {{ ag->idr->chain_idr_pending := chain_break_pending i || chain_idr_pending i ;
                ag->idr->chain_break_pending := false }} in
  if chain_idr_pending (idr (ag w)) && bool_decide (ag_state (ag w) = LINKED) then
    let '(due, w) := idr_due now_ms true w in
    if due then (emit EIdr w) {{ ag->idr->chain_idr_pending := false ;
                                 ag->idr->idr_chain_total ::= (fun c => u64 (c + 1)) ;
                                 ag->idr->idr_gs_pending := false }}
    else w
  else w.

Definition serve_gs_idr (now_ms : Z) (w : World) : World :=
  if idr_gs_pending (idr (ag w)) && bool_decide (ag_state (ag w) = LINKED) then
    let '(due, w) := idr_due now_ms false w in
    if due then (emit EIdr w) {{ ag->idr->idr_gs_pending := false ;
                                 ag->idr->chain_idr_pending := false ;
                                 ag->idr->idr_gs_total ::= (fun c => u64 (c + 1)) }}
    else w
  else w.

Definition link_timers (E : Env) (now_ms : Z) (w : World) : World :=
  let silent ms := match last_fb (ag w) with Some t => u64 ms <=? sub64 now_ms t | None => false end in
  match ag_state (ag w) with
  | LINKED =>
      if silent (failsafe_ms cfg) then
        let w := apply_max_range cfg E now_ms w in
        w {{ ag->ag_state := FAILSAFE ; ag ::= clear_sessions ; ag ::= reset_epochs ;
             ag->last_fb := Some now_ms }}
      else w
  | FAILSAFE => if silent (rendezvous_ms cfg) then w {{ ag->ag_state := RENDEZVOUS }} else w
  | _ => w
  end.

Definition intake_arm_state (E : Env) (now_ms : Z) (w : World) : World :=
  let r := arm_report (arm (ag w)) in
  let w := if negb (r =? 0) then
             let armed := Z.testbit r 0 in
             w {{ ag->arm->arm_reported := true ; ag->arm->last_armed := armed ;
                  ag->arm->last_arm_ms := sub64 (Z.shiftr r 1) 1 ;
                  ag->arm->armed_latched ::= (fun l => l || armed) }}
           else w in
  let m := arm (ag w) in
  let fresh := arm_reported m &&
               ((now_ms <? last_arm_ms m) || (sub64 now_ms (last_arm_ms m) <=? u64 (stale_ms cfg))) in
  let want := knob_low_power_enable (knobs (ag w)) && fresh && negb (last_armed m) in
  if eqb want (low_power_active m) then w
  else run_bitrate_policy cfg E now_ms true (w {{ ag->arm->low_power_active := want }}).

(** "The policy already ran at this [now_ms]." *)
Definition policy_ran (now_ms : Z) (a : Agent) : bool :=
  match last_policy_ms (pol a) with Some t => t =? now_ms | None => false end.

Definition kReassertMs : Z := 5000.

Definition reassert (E : Env) (now_ms : Z) (w : World) : World :=
  let a := ag w in
  if negb (policy_ran now_ms a) then
    let defended := bool_decide (ag_state a = LINKED \/ ag_state a = FAILSAFE) in
    let reassert_due := verb_apply_failed (pol a) ||
                        (defended && match last_bitrate_eval_ms (pol a) with
                                     | None => true
                                     | Some t => kReassertMs <=? sub64 now_ms t
                                     end) in
    if reassert_due then run_bitrate_policy cfg E now_ms true w else w
  else w.

Definition take_rebuilt (w : World) : bool * World :=
  let force := rebuilt_pending (knobs (ag w)) in
  let w := w {{ ag->knobs->rebuilt_pending := false }} in
  (force, if force then w {{ ag->rec_applied := -1 }} else w).

Definition take_ldpc (w : World) : World :=
  let req := ldpc_pending (knobs (ag w)) in
  let w := w {{ ag->knobs->ldpc_pending := -1 }} in
  if 0 <=? req then rebuild_current_op_ldpc (w {{ ag->knobs->ldpc_live := negb (req =? 0) }}) else w.

Definition tick (E : Env) (now_ms : Z) (h : RadioHealth) (w : World) : World :=
  let w := deferred_move now_ms w in
  match ag_state (ag w) with
  | BOOT => (apply_max_range cfg E now_ms w) {{ ag->ag_state := RENDEZVOUS }}
  | _ =>
      let w := unconfirmed_move E now_ms w in
      let w := serve_chain_break now_ms w in
      let w := serve_gs_idr now_ms w in
      let w := link_timers E now_ms w in
      let '(force_policy, w) := take_rebuilt w in
      let w := take_ldpc w in
      let w := intake_arm_state E now_ms w in
      let w := if force_policy && negb (policy_ran now_ms (ag w))
               then run_bitrate_policy cfg E now_ms true w else w in
      let w := reassert E now_ms w in
      run_congestion_guard now_ms h w
  end.

(** ** Steps *)

Inductive Input :=
| InFrame (body : list Z) (now_ms : Z)
| InTick (now_ms : Z) (h : RadioHealth)
| InChainBreak
| InArm (armed : bool) (now_ms : Z)
| InKnobs (bitrate_max : Z) (budget : double) (low_power : bool) (fps : Z)
| InRebuilt
| InLdpc (b : bool)
| InReplaySession (vrx vtx : Z)
| InTakeLink
| InTakePromoted
| InTakeReject
| InNoteReject.

(** [note_arm_state]: [((now_ms + 1) << 1) | armed] *)
Definition arm_word (armed : bool) (now_ms : Z) : Z :=
  Z.lor (u64 (Z.shiftl (u64 (now_ms + 1)) 1)) (b2z armed).

Definition call (E : Env) (i : Input) (w : World) : option World :=
  match i with
  | InFrame body now_ms => on_rc_frame E body now_ms w
  | InTick now_ms h => Some (tick E now_ms h w)
  | InChainBreak => Some (w {{ ag->idr->chain_break_pending := true }})
  | InArm armed now_ms => Some (w {{ ag->arm->arm_report := arm_word armed now_ms }})
  | InKnobs m b l f =>
      Some (w {{ ag->knobs->knob_bitrate_max_kbps := m ; ag->knobs->knob_airtime_budget_milli := milli b ;
                 ag->knobs->knob_low_power_enable := l ; ag->knobs->knob_venc_fps := f }})
  | InRebuilt => Some (w {{ ag->knobs->rebuilt_pending := true }})
  | InLdpc b => Some (w {{ ag->knobs->ldpc_pending := b2z b }})
  | InReplaySession vrx vtx =>
      Some (w {{ ag->pending := mkSession vrx vtx true 0 false (channel (chan (ag w))) }})
  | InTakeLink => Some (w {{ ag->link_established := false }})
  | InTakePromoted => Some (w {{ ag->session_promoted := false }})
  | InTakeReject => Some (w {{ ag->auth_reject := false }})
  | InNoteReject => Some (w {{ ag->auth_reject := true }})
  end.

Definition step (E : Env) (i : Input) (a : Agent) : option (Agent * list Effect) :=
  w ← call E i (mkWorld a []); Some (ag w, out w).

(** A history: each call with its environment, its effects and the agent it leaves, oldest
    first. *)
Record Event := mkEvent { ev_env : Env; ev_in : Input; ev_out : list Effect; ev_post : Agent }.

Inductive history : Agent -> list Event -> Agent -> Prop :=
| history_nil a : history a [] a
| history_snoc a tr a' E i a'' es :
    history a tr a' -> step E i a' = Some (a'', es) -> history a (tr ++ [mkEvent E i es a'']) a''.

(** [last_feedback_seq] *)
Definition last_feedback_seq (a : Agent) : option Z :=
  if negb (bool_decide (ag_state a = LINKED)) || negb (s_valid (current a)) || negb (have_seq (current a))
  then None else Some (u16 (last_seq32 (current a))).

End Agent.
