(* ===== verification/RcAgentSound.v ===== *)
(** * RcAgentSound: what each part of the agent leaves alone, and its invariant

    The bitrate policy touches its own record only.  The invariant ties the state to the
    sessions, the channel to the configured set, and the operating point last handed to the
    actuator to the state. *)
From S2P Require Import Prelude Bytes SipHash SwConfig Profile RcProto RcProtoProps RcPolicy RcAgent.

(** ** Frames *)

(** Effects that concern the encoder's parameters alone. *)
Definition encoder_verb (e : Effect) : Prop :=
  match e with EFps _ _ | EBitrate _ _ | ERoi _ _ => True | _ => False end.

Definition with_pol (p : Policy) (a : Agent) : Agent := a {{ pol := p }}.

(** [w'] differs from [w] by a policy record and encoder verbs. *)
Definition policy_frame (w w' : World) : Prop :=
  exists p es, w' = mkWorld (with_pol p (ag w)) (out w ++ es) /\ Forall encoder_verb es.

Ltac world w := destruct w as [[] ?]; cbn; rewrite ?app_nil_r; try reflexivity.

Lemma policy_frame_refl w : policy_frame w w.
Proof. exists (pol (ag w)), []. rewrite app_nil_r. split; [by world w | done]. Qed.

Lemma policy_frame_trans w1 w2 w3 : policy_frame w1 w2 -> policy_frame w2 w3 -> policy_frame w1 w3.
Proof.
  intros (p1 & es1 & -> & H1) (p2 & es2 & -> & H2). exists p2, (es1 ++ es2).
  split; [| by apply Forall_app]. cbn. rewrite app_assoc. by world w1.
Qed.

Lemma policy_frame_set w p : policy_frame w (w {{ ag->pol := p }}).
Proof. exists p, []. split; [| done]. destruct w. cbn. by rewrite app_nil_r. Qed.

Lemma push_fps_frame cfg E force w : policy_frame w (snd (push_fps cfg E force w)).
Proof.
  unfold push_fps, verb, emit. cbn zeta. destruct (_ || _); cbn; [| apply policy_frame_refl].
  destruct (force || _); cbn; [| apply policy_frame_refl].
  destruct w as [[] ?], (ok E _); cbn; (eexists _, [EFps _ _]; split; [reflexivity | by repeat constructor]).
Qed.

Lemma push_bitrate_frame E now force k w : policy_frame w (snd (push_bitrate E now force k w)).
Proof.
  unfold push_bitrate, verb, emit. cbn zeta. destruct (force || _ || _); cbn; [| apply policy_frame_refl].
  destruct w as [[] ?], (ok E _); cbn; (eexists _, [EBitrate _ _]; split; [reflexivity | by repeat constructor]).
Qed.

Lemma push_roi_frame cfg E k w : policy_frame w (snd (push_roi cfg E k w)).
Proof.
  unfold push_roi, verb, emit. cbn zeta. destruct (negb _); cbn; [| apply policy_frame_refl].
  destruct w as [[] ?], (ok E _); cbn; (eexists _, [ERoi _ _]; split; [reflexivity | by repeat constructor]).
Qed.

Lemma run_bitrate_policy_frame cfg E now force w : policy_frame w (run_bitrate_policy cfg E now force w).
Proof.
  unfold run_bitrate_policy. cbn zeta.
  set (w1 := w {{ ag->pol->last_policy_ms := Some now }}).
  assert (H1 : policy_frame w w1).
  { exists (pol (ag w1)), []. split; [by world w | done]. }
  pose proof (push_fps_frame cfg E force w1) as H2. destruct (push_fps cfg E force w1) as [f1 w2].
  pose proof (push_bitrate_frame E now force (target_kbps cfg E (ag w1)) w2) as H3.
  destruct (push_bitrate E now force _ w2) as [f2 w3].
  pose proof (push_roi_frame cfg E (target_kbps cfg E (ag w1)) w3) as H4. destruct (push_roi cfg E _ w3) as [f3 w4].
  cbn [snd] in *. eapply policy_frame_trans; [exact H1 |]. eapply policy_frame_trans; [exact H2 |].
  eapply policy_frame_trans; [exact H3 |]. eapply policy_frame_trans; [exact H4 |].
  exists ((pol (ag w4)) {{ verb_apply_failed := f1 || f2 || f3 }}), []. split; [by world w4 | done].
Qed.

(** Replaces a run of the policy in the goal by its frame. *)
Ltac run_policy :=
  match goal with
  | |- context [run_bitrate_policy ?cfg ?E ?now ?force ?w] =>
      let p := fresh "p" in let es := fresh "es" in let He := fresh "He" in let Hes := fresh "Hes" in
      destruct (run_bitrate_policy_frame cfg E now force w) as (p & es & He & Hes);
      rewrite He; clear He
  end.

(** ** What a call does to the sessions *)

(** The sessions are as they were, or both are gone; nothing was accepted. *)
Definition ses_kept (w w' : World) : Prop :=
  rcf_accepted (ag w') = rcf_accepted (ag w) /\
  ((current (ag w') = current (ag w) /\ pending (ag w') = pending (ag w)) \/
   (current (ag w') = Session0 /\ pending (ag w') = Session0)).

Lemma ses_kept_refl w : ses_kept w w.
Proof. split; [done | by left]. Qed.

Lemma ses_kept_trans w1 w2 w3 : ses_kept w1 w2 -> ses_kept w2 w3 -> ses_kept w1 w3.
Proof.
  intros [H1 [[]|[]]] [H2 [[]|[]]]; (split; [congruence |]); [left | right..]; split; congruence.
Qed.

Lemma policy_keeps cfg E now force w : ses_kept w (run_bitrate_policy cfg E now force w).
Proof. run_policy. world w. by split; [| left]. Qed.

Create HintDb agent.
#[export] Hint Resolve ses_kept_refl policy_keeps : agent.

(** Splits on the conditions of a stage and runs the policy through its frame. *)
Ltac stage_cases :=
  cbn zeta; repeat (match goal with
                    | |- context [if ?b then _ else _] => destruct b
                    | |- context [match ?o with Some _ => _ | None => _ end] => destruct o
                    | |- context [match ?s with BOOT => _ | RENDEZVOUS => _ | LINKED => _ | FAILSAFE => _ end] => destruct s
                    end; cbn zeta iota); repeat run_policy.

(** One stage, opened. *)
Create HintDb stages.
#[export] Hint Unfold verb idr_due apply_max_range apply_ladder_op reapply_with_shed rebuild_current_op_ldpc
  run_congestion_guard deferred_move unconfirmed_move serve_chain_break serve_gs_idr link_timers take_rebuilt
  take_ldpc intake_arm_state hop_order record_wish sensor_offset note_idr_epoch enter_linked link_up_idr
  accept_rcf promote : stages.

Ltac open_stage := autounfold with stages; stage_cases.

Ltac kept := split; [reflexivity | first [left; split; reflexivity | right; split; reflexivity]].

(** ** Reasoning by stages *)

Section Stages.
Context (cfg : Config) (E : Env).

(** What every stage of a tick preserves, a tick preserves. *)
Lemma tick_stages (P : World -> Prop) now h :
  (forall w, P w -> P (deferred_move now w)) ->
  (forall w, P w -> ag_state (ag w) = BOOT -> P ((apply_max_range cfg E now w) {{ ag->ag_state := RENDEZVOUS }})) ->
  (forall w, P w -> ag_state (ag w) <> BOOT -> P (unconfirmed_move cfg E now w)) ->
  (forall w, P w -> P (serve_chain_break now w)) ->
  (forall w, P w -> P (serve_gs_idr now w)) ->
  (forall w, P w -> P (link_timers cfg E now w)) ->
  (forall w, P w -> P (snd (take_rebuilt w))) ->
  (forall w, P w -> P (take_ldpc w)) ->
  (forall w, P w -> P (intake_arm_state cfg E now w)) ->
  (forall w, P w -> P (run_bitrate_policy cfg E now true w)) ->
  (forall w, P w -> P (run_congestion_guard now h w)) ->
  forall w, P w -> P (tick cfg E now h w).
Proof.
  intros Hdef Hboot Hunc Hch Hgs Hlt Htr Htl Harm Hpol Hg w Hw. unfold tick. cbn zeta.
  assert (Hn : ag_state (ag (deferred_move now w)) <> BOOT ->
               P (let w := unconfirmed_move cfg E now (deferred_move now w) in
                  let w := serve_chain_break now w in let w := serve_gs_idr now w in
                  let w := link_timers cfg E now w in let '(force_policy, w) := take_rebuilt w in
                  let w := take_ldpc w in let w := intake_arm_state cfg E now w in
                  let w := if force_policy && negb (policy_ran now (ag w)) then run_bitrate_policy cfg E now true w else w in
                  let w := reassert cfg E now w in run_congestion_guard now h w)).
  { cbn zeta. intros Hnb. specialize (Htr _ (Hlt _ (Hgs _ (Hch _ (Hunc _ (Hdef _ Hw) Hnb))))).
    destruct (take_rebuilt _) as [force w1]. apply Hg. unfold reassert. cbn zeta.
    assert (H2 : P (intake_arm_state cfg E now (take_ldpc w1))) by auto.
    repeat case_match; auto. }
  destruct (ag_state (ag (deferred_move now w))) eqn:Hs; [by apply Hboot; auto | by apply Hn..].
Qed.

(** What every stage of a frame's application preserves, the application preserves. *)
Lemma apply_rcf_stages (P : World -> Prop) r now w :
  (forall lad, P (apply_ladder_op lad (fec_overhead_base r) (fec_overhead_enh r) (probe_profile r) w)) ->
  (forall w, P w -> P (hop_order cfg r now w)) ->
  (forall w, P w -> P (record_wish E r w)) ->
  (forall w, P w -> P (sensor_offset r w)) ->
  (forall w, P w -> P (note_idr_epoch r w)) ->
  (forall w, P w -> forall prev, P (enter_linked prev now w)) ->
  (forall w, P w -> P (link_up_idr now w)) ->
  (forall w, P w -> forall force, P (run_bitrate_policy cfg E now force w)) ->
  P (apply_rcf cfg E r now w).
Proof.
  intros Hl Hh Hr Hs He Hen Hi Hp. unfold apply_rcf. destruct (decode_profile _) as [[m mcs] bw]. cbn zeta.
  apply Hp. case_bool_decide; [apply Hi |]; auto 10.
Qed.

Ltac keeps := intros; (eapply ses_kept_trans; [eassumption |]); open_stage; kept.

Lemma tick_keeps now h w : ses_kept w (tick cfg E now h w).
Proof. apply (tick_stages (ses_kept w)); try keeps. apply ses_kept_refl. Qed.

Lemma apply_rcf_keeps r now w : ses_kept w (apply_rcf cfg E r now w).
Proof. apply (apply_rcf_stages (ses_kept w)); [| keeps..]. intros lad. open_stage. kept. Qed.
End Stages.

(** ** The channel *)

Definition or_none (P : Z -> Prop) (ch : Z) : Prop := ch = 0 \/ P ch.

Section Channel.
Context (cfg : Config) (E : Env).

Definition on_set (ch : Z) : Prop := ch ∈ channels cfg.

(** Whatever the radio is retuned to, or the state file told to remember, is a member. *)
Definition channel_effect (e : Effect) : Prop :=
  match e with ERetune ch _ | ERemember ch => on_set ch | _ => True end.

Definition agreed_ok (s : Session) : Prop := s_valid s = true -> on_set (agreed_ch s).

Record chan_ok (w : World) : Prop := mkChanOk {
  co_channel : on_set (channel (chan (ag w)));
  co_from : or_none on_set (move_from_ch (chan (ag w)));
  co_deferred : or_none on_set (deferred_move_ch (chan (ag w)));
  co_current : agreed_ok (current (ag w));
  co_pending : agreed_ok (pending (ag w));
  co_out : Forall channel_effect (out w);
}.

Lemma encoder_verb_channel es : Forall encoder_verb es -> Forall channel_effect es.
Proof. intros H. eapply Forall_impl; [exact H |]. by intros []. Qed.

Lemma on_set_or ch : on_set ch -> or_none on_set ch.
Proof. by right. Qed.

Lemma or_none_on_set ch : negb (ch =? 0) = true -> or_none on_set ch -> on_set ch.
Proof. intros Hn%negb_true_iff%Z.eqb_neq [|]; done. Qed.

Lemma member_on_set ch : member cfg ch = true -> on_set ch.
Proof. by intros [_ H]%channel_set_member_spec. Qed.

Lemma zero_or : or_none on_set 0.
Proof. by left. Qed.

Lemma no_session_ok : agreed_ok Session0.
Proof. done. Qed.
End Channel.

#[export] Hint Resolve on_set_or or_none_on_set member_on_set zero_or no_session_ok encoder_verb_channel : agent.
#[export] Hint Resolve Forall_app_2 : agent.

(** Splits on the conditions of a stage, keeping them. *)
Ltac stage_cases_eq :=
  cbn zeta; repeat (match goal with
                    | |- context [if ?b then _ else _] => destruct b eqn:?
                    | |- context [match ?o with Some _ => _ | None => _ end] => destruct o eqn:?
                    | |- context [match ?s with BOOT => _ | RENDEZVOUS => _ | LINKED => _ | FAILSAFE => _ end] =>
                        destruct s eqn:?
                    end; cbn zeta iota); repeat run_policy.

Ltac open_stage_eq := autounfold with stages; stage_cases_eq;
  repeat match goal with H : (_ && _)%bool = true |- _ => apply andb_prop in H; destruct H end.

(** The effects of a stage: those before, one more, or the policy's. *)
Ltac effects Ho :=
  first [ exact Ho
        | refine (Forall_app_2 _ _ _ _ (encoder_verb_channel _ _ _)); [effects Ho | eassumption]
        | refine (Forall_app_2 _ _ [_] _ _); [effects Ho | constructor; [| constructor]] ].

Section ChannelStages.
Context (cfg : Config) (E : Env).

Ltac on_set_tac H1 H2 H3 :=
  first [ exact H1 | eapply or_none_on_set; [| exact H3]; eassumption | eapply or_none_on_set; [| exact H2]; eassumption
        | apply member_on_set; eassumption ].

Ltac chan_stage :=
  intros ? [H1 H2 H3 H4 H5 Ho]; intros; open_stage_eq;
  (split; [on_set_tac H1 H2 H3 | first [exact H2 | apply on_set_or; exact H1 | apply zero_or]
          | first [exact H3 | apply zero_or] | first [exact H4 | apply no_session_ok]
          | first [exact H5 | apply no_session_ok]
          | effects Ho; cbn; first [exact I | on_set_tac H1 H2 H3]]).

Lemma tick_chan now h w : chan_ok cfg w -> chan_ok cfg (tick cfg E now h w).
Proof. intros Hw. revert w Hw. apply (tick_stages cfg E (chan_ok cfg)); chan_stage. Qed.

Lemma apply_rcf_chan r now w : chan_ok cfg w -> chan_ok cfg (apply_rcf cfg E r now w).
Proof. intros Hw. apply (apply_rcf_stages cfg E (chan_ok cfg)); [intros lad; revert w Hw |..]; chan_stage. Qed.

Lemma accept_chan q w : chan_ok cfg w -> chan_ok cfg (accept_rcf q w).
Proof. revert w. chan_stage. Qed.

Lemma promote_chan w : s_valid (pending (ag w)) = true -> chan_ok cfg w -> chan_ok cfg (w {{ ag := promote (ag w) }}).
Proof.
  intros Hv [H1 H2 H3 H4 H5 Ho]. unfold promote.
  stage_cases_eq; (split; [exact H1 | exact H2 | first [exact H3 | right; exact (H5 Hv)] | intros _; exact (H5 Hv)
                          | apply no_session_ok | exact Ho]).
Qed.

Lemma on_disc_chan body d w w' : chan_ok cfg w -> on_disc cfg E body d w = Some w' -> chan_ok cfg w'.
Proof.
  intros [H1 H2 H3 H4 H5 Ho]. unfold on_disc. cbn zeta.
  assert (Ha : on_set cfg (if member cfg (op_channel d) then op_channel d else channel (chan (ag w)))).
  { destruct (member cfg (op_channel d)) eqn:Hm; [by apply member_on_set | done]. }
  destruct (verify_control _ _ _) as [v|]; cbn [mbind option_bind]; [| done]. intros [= <-].
  stage_cases; (split; [exact H1 | exact H2 | exact H3 | exact H4 | first [exact H5 | intros _; exact Ha]
                       | effects Ho; exact I]).
Qed.

Lemma on_rcf_chan body r now w w' : chan_ok cfg w -> on_rcf cfg E body r now w = Some w' -> chan_ok cfg w'.
Proof.
  intros Hw. unfold on_rcf. destruct (verify_rcf cfg body r (current (ag w))) as [[q|]|]; cbn [mbind option_bind]; [| | done].
  { intros [= <-]. by apply apply_rcf_chan, accept_chan. }
  destruct (verify_rcf cfg body r (pending (ag w))) as [[q|]|] eqn:Hv; cbn [mbind option_bind]; [| | done]; intros [= <-].
  - apply apply_rcf_chan, accept_chan, promote_chan; [| done].
    unfold verify_rcf in Hv. by destruct (s_valid _).
  - destruct Hw. by split.
Qed.

Lemma call_chan i w w' : chan_ok cfg w -> call cfg E i w = Some w' -> chan_ok cfg w'.
Proof.
  intros Hw. destruct i; cbn [call].
  1: { unfold on_rc_frame. destruct (frame_type body) as [t|]; cbn [mbind option_bind]; [| done].
    destruct (t =? T_DISC); [destruct (parse_disc body) as [[d|]|] | destruct (t =? T_RCF); [destruct (parse_rcf body) as [[r|]|] |]];
      cbn [mbind option_bind]; try done; try (by intros [= <-]); [by apply on_disc_chan | by apply on_rcf_chan]. }
  1: { intros [= <-]. by apply tick_chan. }
  all: intros [= <-]; destruct Hw as [H1 H2 H3 H4 H5 Ho];
    (split; [exact H1 | exact H2 | exact H3 | exact H4 | first [exact H5 | intros _; exact H1] | exact Ho]).
Qed.
End ChannelStages.

(** ** The operating point *)

(** The operating point last handed to the actuator. *)
Fixpoint last_op (es : list Effect) : option AppliedOp :=
  match es with
  | [] => None
  | EApply o :: es => Some (default o (last_op es))
  | _ :: es => last_op es
  end.

Lemma last_op_app es es' : last_op (es ++ es') = match last_op es' with Some o => Some o | None => last_op es end.
Proof. induction es as [|[] es IH]; cbn; rewrite ?IH; destruct (last_op es'); done. Qed.

Lemma last_op_snoc es o : last_op (es ++ [EApply o]) = Some o.
Proof. by rewrite last_op_app. Qed.

Lemma last_op_verbs es : Forall encoder_verb es -> last_op es = None.
Proof. induction 1 as [|[] es H _ IH]; done. Qed.

(** The robust point: lowest rate, most parity, no enhance layer. *)
Definition max_range_op (a : Agent) : Prop :=
  ladder (op a) = ladder_live a HT 0 20 /\ fec_ov_base (op a) = d_of_Z 2 /\ fec_ov_enh (op a) = d_of_Z 2 /\
  op_probe_profile (op a) = kNoProbeProfile.

(** What the actuator holds is the agent's operating point, with every reason to shed in it. *)
Definition op_live (prev : list Effect) (w : World) : Prop :=
  shed (op (ag w)) = (false, failsafe_shed (grd (ag w)) || (1 <=? shed_level (grd (ag w)))) /\
  last_op (prev ++ out w) = Some (op (ag w)).

Record op_ok (prev : list Effect) (w : World) : Prop := mkOpOk {
  oo_level : 0 <= shed_level (grd (ag w)) <= 3;
  oo_live : ag_state (ag w) <> BOOT -> op_live prev w;
  oo_max : failsafe_shed (grd (ag w)) = true -> max_range_op (ag w);
}.

Lemma op_live_grow prev w w' es :
  op (ag w') = op (ag w) -> grd (ag w') = grd (ag w) -> out w' = out w ++ es -> last_op es = None ->
  op_live prev w -> op_live prev w'.
Proof.
  intros Ho Hg He Hn [H1 H2]. unfold op_live. rewrite Ho, Hg, He, app_assoc, last_op_app, Hn. done.
Qed.

(** A freshly published operating point is in force. *)
Lemma op_live_applied prev w' es o :
  op (ag w') = o -> out w' = es ++ [EApply o] ->
  shed o = (false, failsafe_shed (grd (ag w')) || (1 <=? shed_level (grd (ag w')))) -> op_live prev w'.
Proof. intros Ho He Hs. split; [by rewrite Ho | rewrite He, app_assoc, last_op_snoc; congruence]. Qed.

(** The same, with the policy run after it. *)
Lemma op_live_applied_verbs prev w' es vs o :
  op (ag w') = o -> out w' = (es ++ [EApply o]) ++ vs -> Forall encoder_verb vs ->
  shed o = (false, failsafe_shed (grd (ag w')) || (1 <=? shed_level (grd (ag w')))) -> op_live prev w'.
Proof.
  intros Ho He Hv Hs. split; [by rewrite Ho |].
  by rewrite He, app_assoc, last_op_app, last_op_verbs, app_assoc, last_op_snoc, <- Ho by done.
Qed.

(** A stage that leaves the operating point and the guard alone. *)
Definition op_kept (w w' : World) : Prop :=
  (exists es, out w' = out w ++ es /\ last_op es = None) /\ op (ag w') = op (ag w) /\ grd (ag w') = grd (ag w) /\
  ldpc_live (knobs (ag w')) = ldpc_live (knobs (ag w)) /\ (ag_state (ag w') <> BOOT -> ag_state (ag w) <> BOOT).

Lemma op_kept_ok prev w w' : op_kept w w' -> op_ok prev w -> op_ok prev w'.
Proof.
  intros ((es & He & Hn) & Ho & Hg & Hl & Hs) [H1 H2 H3]. split.
  - by rewrite Hg.
  - intros Hb. by apply (op_live_grow prev w w' es); auto.
  - rewrite Hg. unfold max_range_op, ladder_live. rewrite Ho, Hl. exact H3.
Qed.

(** A stage that falls back to the robust point. *)
Lemma max_range_max cfg E prev now w w' :
  grd (ag w') = grd (ag (apply_max_range cfg E now w)) -> op (ag w') = op (ag (apply_max_range cfg E now w)) ->
  knobs (ag w') = knobs (ag (apply_max_range cfg E now w)) -> out w' = out (apply_max_range cfg E now w) ->
  0 <= shed_level (grd (ag w)) <= 3 -> op_ok prev w'.
Proof.
  unfold apply_max_range. cbn zeta. run_policy. intros Hg Ho Hk He Hl. split.
  - rewrite Hg. exact Hl.
  - intros _. refine (op_live_applied_verbs prev w' (out w) es _ Ho He Hes _). rewrite Hg. reflexivity.
  - intros _. unfold max_range_op, ladder_live. rewrite Ho, Hk. done.
Qed.

Section OpStages.
Context (cfg : Config) (E : Env) (prev : list Effect).

Ltac op_same :=
  apply op_kept_ok; split; [| split; [reflexivity | split; [reflexivity | split; [reflexivity |]]]];
  [ first [ (exists []; split; [rewrite app_nil_r; reflexivity | reflexivity])
          | (eexists [_]; split; reflexivity)
          | (eexists; split; [reflexivity | by apply last_op_verbs]) ]
  | first [ exact (fun H => H) | intros _; assumption | intros _; congruence ] ].

Ltac op_stage := intros ? Hw; intros; revert Hw; open_stage_eq; op_same.

Lemma boot_op now w :
  op_ok prev w -> ag_state (ag w) = BOOT ->
  op_ok prev ((apply_max_range cfg E now w) {{ ag->ag_state := RENDEZVOUS }}).
Proof. intros [Hl _ _] _. by apply (max_range_max cfg E prev now w). Qed.

Lemma unconfirmed_op now w : op_ok prev w -> ag_state (ag w) <> BOOT -> op_ok prev (unconfirmed_move cfg E now w).
Proof.
  intros Hw Hb. unfold unconfirmed_move. cbn zeta. destruct (move_pending _ && _); [| done].
  destruct (negb _ && _); cbn zeta.
  all: match goal with |- context [bool_decide ?P] => destruct (bool_decide P) end.
  1,3: match goal with |- context [apply_max_range cfg E ?t ?w'] =>
         apply (max_range_max cfg E prev t w'); [reflexivity.. | exact (oo_level _ _ Hw)] end.
  all: revert Hw; op_same.
Qed.

Lemma link_timers_op now w : op_ok prev w -> op_ok prev (link_timers cfg E now w).
Proof.
  intros Hw. unfold link_timers. cbn zeta. destruct (ag_state (ag w)) eqn:Hs; try done.
  - destruct (last_fb (ag w)) as [t|]; [| done]. destruct (_ <=? _); [| done].
    apply (max_range_max cfg E prev now w); [reflexivity.. | exact (oo_level _ _ Hw)].
  - destruct (last_fb (ag w)) as [t|]; [| done]. destruct (_ <=? _); [| done]. revert Hw; op_same.
Qed.

Lemma take_ldpc_op w : op_ok prev w -> op_ok prev (take_ldpc w).
Proof.
  intros Hw. unfold take_ldpc. cbn zeta. destruct (0 <=? _); [| revert Hw; op_same].
  destruct Hw as [H1 H2 H3]. split; [exact H1 | |].
  - intros Hb. eapply op_live_applied; [reflexivity.. |]. exact (proj1 (H2 Hb)).
  - intros Hf. destruct (H3 Hf) as (Hm & Hr). unfold rebuild_current_op_ldpc, max_range_op, ladder_live. cbn zeta.
    split; [| exact Hr]. set (l := ladder (op (ag w))) in Hm.
    change (ladder_from (mode (snd l)) (mcs (snd l)) (bw (snd l)) (negb (ldpc_pending (knobs (ag w)) =? 0)) =
            ladder_from HT 0 20 (negb (ldpc_pending (knobs (ag w)) =? 0))). by rewrite Hm.
Qed.

Lemma guard_op now h w : op_ok prev w -> op_ok prev (run_congestion_guard now h w).
Proof.
  intros [H1 H2 H3]. unfold run_congestion_guard, reapply_with_shed. cbn zeta.
  destruct (match last_tx_drops _ with Some _ => _ | None => _ end || _).
  - destruct (shed_level (grd (ag w)) <? 3) eqn:Hl.
    + split; [change (0 <= Z.succ (shed_level (grd (ag w))) <= 3); lia | | exact H3]. intros Hb. eapply op_live_applied; [reflexivity.. |].
      exact (f_equal2 pair (f_equal fst (proj1 (H2 Hb))) eq_refl).
    + split; [exact H1 | exact H2 | exact H3].
  - destruct (last_drop_rise_ms (grd (ag w))) as [t|]; [| by split].
    destruct (_ && _) eqn:Hl; [| by split].
    split; [change (0 <= Z.pred (shed_level (grd (ag w))) <= 3); lia | | exact H3]. intros Hb. eapply op_live_applied; [reflexivity.. |].
    exact (f_equal2 pair (f_equal fst (proj1 (H2 Hb))) eq_refl).
Qed.

Lemma tick_op now h w : op_ok prev w -> op_ok prev (tick cfg E now h w).
Proof.
  intros Hw. revert w Hw. apply (tick_stages cfg E (op_ok prev)).
  - op_stage.
  - apply boot_op.
  - apply unconfirmed_op.
  - op_stage.
  - op_stage.
  - apply link_timers_op.
  - op_stage.
  - apply take_ldpc_op.
  - op_stage.
  - op_stage.
  - apply guard_op.
Qed.
End OpStages.
