(* ===== verification/RcAgentInv.v ===== *)
(** * RcAgentInv: the agent's invariant over histories

    The state, the sessions and the sticky shed agree; the pairing steps; the pacing of key
    frames; and all of it over any sequence of calls. *)
From S2P Require Import Prelude Bytes SipHash SwConfig Profile RcProto RcProtoProps RcPolicy RcAgent RcAgentSound.

(** ** State and sessions *)

Definition session_word (s : Session) : Z :=
  if s_valid s then Z.lor (Z.shiftl (s_vrx s) 32) (s_vtx s) else 0.

Record link_ok (w : World) : Prop := mkLinkOk {
  lo_state :
    match ag_state (ag w) with
    | BOOT => failsafe_shed (grd (ag w)) = false /\ s_valid (current (ag w)) = false
    | LINKED => failsafe_shed (grd (ag w)) = false /\ s_valid (current (ag w)) = true /\
                have_seq (current (ag w)) = true /\ is_Some (last_fb (ag w))
    | _ => failsafe_shed (grd (ag w)) = true /\ s_valid (current (ag w)) = false
    end;
  lo_published : published_session (ag w) = session_word (current (ag w));
}.

(** A stage that leaves all of that alone. *)
Definition link_kept (w w' : World) : Prop :=
  ag_state (ag w') = ag_state (ag w) /\ failsafe_shed (grd (ag w')) = failsafe_shed (grd (ag w)) /\
  current (ag w') = current (ag w) /\ last_fb (ag w') = last_fb (ag w) /\
  published_session (ag w') = published_session (ag w).

Lemma link_kept_ok w w' : link_kept w w' -> link_ok w -> link_ok w'.
Proof. intros (H1 & H2 & H3 & H4 & H5) [Hs Hp]. split; [by rewrite H1, H2, H3, H4 | by rewrite H5, H3]. Qed.

Section Link.
Context (cfg : Config) (E : Env).

Ltac link_same := apply link_kept_ok; (split; [reflexivity |]; split; [reflexivity |]; split; [reflexivity |];
                                       split; reflexivity).
Ltac link_stage := intros ? Hw; intros; revert Hw; open_stage; link_same.

Lemma boot_link now w :
  link_ok w -> ag_state (ag w) = BOOT -> link_ok ((apply_max_range cfg E now w) {{ ag->ag_state := RENDEZVOUS }}).
Proof.
  intros [Hs Hp] Hb. rewrite Hb in Hs. unfold apply_max_range. cbn zeta. run_policy.
  split; [split; [reflexivity | exact (proj2 Hs)] | exact Hp].
Qed.

Lemma unconfirmed_link now w : link_ok w -> ag_state (ag w) <> BOOT -> link_ok (unconfirmed_move cfg E now w).
Proof.
  intros [Hs Hp] Hb. unfold unconfirmed_move, apply_max_range. cbn zeta. destruct (move_pending _ && _); [| by split].
  destruct (negb _ && _); cbn zeta.
  all: match goal with |- context [bool_decide ?P] => destruct (bool_decide P) eqn:Hl end.
  1,3: run_policy; by split.
  all: split; [| done]; (split; [| done]); apply bool_decide_eq_false in Hl.
  all: change (failsafe_shed (grd (ag w)) = true); change (ag_state (ag w) <> LINKED) in Hl;
    destruct (ag_state (ag w)); by destruct Hs.
Qed.

Lemma link_timers_link now w : link_ok w -> link_ok (link_timers cfg E now w).
Proof.
  intros [Hs Hp]. unfold link_timers, apply_max_range. cbn zeta. destruct (ag_state (ag w)) eqn:Hst.
  1,2: by split; [rewrite Hst |].
  all: destruct (last_fb (ag w)) as [t|] eqn:Hf; [| by split; [rewrite Hst, ?Hf |]].
  all: destruct (_ <=? _); [| by split; [rewrite Hst, ?Hf |]].
  - run_policy. by split.
  - split; [exact Hs | exact Hp].
Qed.

Lemma tick_link now h w : link_ok w -> link_ok (tick cfg E now h w).
Proof.
  intros Hw. revert w Hw. apply (tick_stages cfg E link_ok).
  2: apply boot_link. 2: apply unconfirmed_link. 4: apply link_timers_link. all: link_stage.
Qed.

(** A frame's application: linked, nothing forced shed, the pair untouched. *)
Definition linked_with (s : Session) (p : Z) (w : World) : Prop :=
  failsafe_shed (grd (ag w)) = false /\ current (ag w) = s /\ published_session (ag w) = p.

Lemma apply_rcf_linked_with r now w :
  linked_with (current (ag w)) (published_session (ag w)) (apply_rcf cfg E r now w).
Proof.
  apply (apply_rcf_stages cfg E).
  - intros lad. split; [| split]; reflexivity.
  - intros ? Hw; revert Hw; open_stage; exact (fun H => H).
  - intros ? Hw; revert Hw; open_stage; exact (fun H => H).
  - intros ? Hw; revert Hw; open_stage; exact (fun H => H).
  - intros ? Hw; revert Hw; open_stage; exact (fun H => H).
  - intros ? Hw; intros; revert Hw; open_stage; exact (fun H => H).
  - intros ? Hw; revert Hw; open_stage; exact (fun H => H).
  - intros ? Hw force; revert Hw; run_policy; exact (fun H => H).
Qed.

Lemma apply_rcf_state r now w :
  ag_state (ag (apply_rcf cfg E r now w)) = LINKED /\ last_fb (ag (apply_rcf cfg E r now w)) = Some now.
Proof.
  unfold apply_rcf. destruct (decode_profile _) as [[m mcs] bw]. cbn zeta. run_policy.
  case_bool_decide; unfold link_up_idr, enter_linked, idr_due; cbn zeta; [| by case_bool_decide].
  stage_cases; split; reflexivity.
Qed.

Lemma apply_rcf_link r now w :
  s_valid (current (ag w)) = true -> have_seq (current (ag w)) = true ->
  published_session (ag w) = session_word (current (ag w)) -> link_ok (apply_rcf cfg E r now w).
Proof.
  intros Hv Hq Hp. destruct (apply_rcf_linked_with r now w) as (Hf & Hc & Hpub), (apply_rcf_state r now w) as [Hs Hfb].
  split; [| by rewrite Hpub, Hc]. by rewrite Hs, Hf, Hc, Hfb.
Qed.

Lemma accept_sessions q w :
  current (ag (accept_rcf q w)) = (current (ag w)) {{ last_seq32 := q ; have_seq := true }} /\
  pending (ag (accept_rcf q w)) = pending (ag w) /\
  published_session (ag (accept_rcf q w)) = published_session (ag w) /\
  rcf_accepted (ag (accept_rcf q w)) = u64 (rcf_accepted (ag w) + 1).
Proof. open_stage; (split; [reflexivity |]; split; [reflexivity |]; split; reflexivity). Qed.

Lemma promote_sessions a :
  current (promote a) = pending a /\ pending (promote a) = Session0 /\
  published_session (promote a) = session_word (pending a) /\ rcf_accepted (promote a) = rcf_accepted a.
Proof. unfold promote. stage_cases; (split; [reflexivity |]; split; [reflexivity |]; split; reflexivity). Qed.

Lemma verify_rcf_valid body r s q : verify_rcf cfg body r s = Some (Some q) ->
  s_valid s = true /\ rcf_candidate r s = Some q /\
  verify_control body (key cfg) (mkTagCtx (s_vrx s) (s_vtx s) q) = Some true.
Proof.
  unfold verify_rcf. destruct (s_valid s); cbn [negb]; [| done]. destruct (rcf_candidate r s) as [c|]; [| done].
  destruct (verify_control _ _ _) as [[]|] eqn:Hv; cbn [mbind option_bind]; intros [=]; subst. done.
Qed.

Lemma on_rcf_link body r now w w' : link_ok w -> on_rcf cfg E body r now w = Some w' -> link_ok w'.
Proof.
  intros Hw. unfold on_rcf. destruct (verify_rcf cfg body r (current (ag w))) as [[q|]|] eqn:Hc; cbn [mbind option_bind]; [| | done].
  - intros [= <-]. apply verify_rcf_valid in Hc as (Hv & _ & _).
    destruct (accept_sessions q w) as (E1 & _ & E3 & _). apply apply_rcf_link; rewrite ?E1, ?E3; [exact Hv | reflexivity |].
    exact (lo_published _ Hw).
  - destruct (verify_rcf cfg body r (pending (ag w))) as [[q|]|] eqn:Hp; cbn [mbind option_bind]; [| | done]; intros [= <-].
    + apply verify_rcf_valid in Hp as (Hv & _ & _). set (w0 := w {{ ag := promote (ag w) }}).
      destruct (accept_sessions q w0) as (E1 & _ & E3 & _), (promote_sessions (ag w)) as (F1 & _ & F3 & _).
      change (current (ag w0) = pending (ag w)) in F1. change (published_session (ag w0) = session_word (pending (ag w))) in F3.
      refine (apply_rcf_link r now (accept_rcf q w0) _ _ _); rewrite ?E1, ?E3, ?F1, ?F3; [exact Hv | reflexivity | reflexivity].
    + revert Hw. link_same.
Qed.

Lemma on_disc_link body d w w' : link_ok w -> on_disc cfg E body d w = Some w' -> link_ok w'.
Proof.
  unfold on_disc. cbn zeta. intros Hw. destruct (verify_control _ _ _) as [v|]; cbn [mbind option_bind]; [| done].
  intros [= <-]. revert Hw. stage_cases; link_same.
Qed.
End Link.

(** ** The operating point under a frame *)

Section Frame.
Context (cfg : Config) (E : Env) (prev : list Effect).

Definition op_in_force (w : World) : Prop :=
  0 <= shed_level (grd (ag w)) <= 3 /\ failsafe_shed (grd (ag w)) = false /\ op_live prev w.

Lemma op_in_force_grow w w' es :
  op (ag w') = op (ag w) -> grd (ag w') = grd (ag w) -> out w' = out w ++ es -> last_op es = None ->
  op_in_force w -> op_in_force w'.
Proof. intros Ho Hg He Hn (H1 & H2 & H3). unfold op_in_force. rewrite Hg. split_all; auto. by apply (op_live_grow prev w w' es). Qed.

Lemma op_in_force_ok w : op_in_force w -> op_ok prev w.
Proof. intros (H1 & H2 & H3). split; [done | done | by rewrite H2]. Qed.

Ltac in_force_stage :=
  intros ? Hw; intros; revert Hw; open_stage;
  first [ exact (fun H => H)
        | (refine (op_in_force_grow _ _ [_] _ _ _ _); reflexivity)
        | (eapply op_in_force_grow; [reflexivity | reflexivity | reflexivity | by apply last_op_verbs]) ].

Lemma apply_rcf_op r now w : 0 <= shed_level (grd (ag w)) <= 3 -> op_ok prev (apply_rcf cfg E r now w).
Proof.
  intros Hl. apply op_in_force_ok, (apply_rcf_stages cfg E op_in_force).
  - intros lad. split; [exact Hl |]. split; [reflexivity |].
    refine (op_live_applied prev _ _ _ _ _ _); reflexivity.
  - in_force_stage.
  - in_force_stage.
  - in_force_stage.
  - in_force_stage.
  - in_force_stage.
  - in_force_stage.
  - in_force_stage.
Qed.

Lemma accept_level q w : grd (ag (accept_rcf q w)) = grd (ag w).
Proof. open_stage; reflexivity. Qed.

Lemma promote_grd a : grd (promote a) = grd a.
Proof. unfold promote. stage_cases; reflexivity. Qed.

Lemma on_rcf_op body r now w w' : op_ok prev w -> on_rcf cfg E body r now w = Some w' -> op_ok prev w'.
Proof.
  intros [H1 H2 H3]. unfold on_rcf. destruct (verify_rcf cfg body r (current (ag w))) as [[q|]|]; cbn [mbind option_bind]; [| | done].
  - intros [= <-]. apply apply_rcf_op. by rewrite accept_level.
  - destruct (verify_rcf cfg body r (pending (ag w))) as [[q|]|]; cbn [mbind option_bind]; [| | done]; intros [= <-].
    + apply apply_rcf_op. rewrite accept_level. cbn [ag]. unfold constant. by rewrite promote_grd.
    + by split.
Qed.

Lemma on_disc_op body d w w' : op_ok prev w -> on_disc cfg E body d w = Some w' -> op_ok prev w'.
Proof.
  intros Hw. unfold on_disc. cbn zeta. destruct (verify_control _ _ _) as [v|]; cbn [mbind option_bind]; [| done].
  intros [= <-]. destruct Hw as [H1 H2 H3]. stage_cases; (split; [exact H1 | | exact H3]);
    intros Hb; refine (op_live_grow prev w _ [_] _ _ _ _ (H2 Hb)); reflexivity.
Qed.
End Frame.

(** ** One call, and a history *)

Record agent_ok (cfg : Config) (prev : list Effect) (w : World) : Prop := mkAgentOk {
  ao_chan : chan_ok cfg w;
  ao_op : op_ok prev w;
  ao_link : link_ok w;
}.

Lemma agent_call_ok cfg E prev i w w' : agent_ok cfg prev w -> call cfg E i w = Some w' -> agent_ok cfg prev w'.
Proof.
  intros [Hc Ho Hl] H. split; [by eapply call_chan |..]; revert H.
  all: destruct i; cbn [call].
  1,13: unfold on_rc_frame; destruct (frame_type body) as [t|]; cbn [mbind option_bind]; [| done];
    (destruct (t =? T_DISC); [destruct (parse_disc body) as [[d|]|] | destruct (t =? T_RCF); [destruct (parse_rcf body) as [[r|]|] |]]);
    cbn [mbind option_bind]; try done; try (by intros [= <-]);
    first [by apply on_disc_op | by apply on_rcf_op | by apply on_disc_link | by apply on_rcf_link].
  1,12: intros [= <-]; first [by apply tick_op | by apply tick_link].
  1-10: intros [= <-]; destruct Ho as [H1 H2 H3]; split; [exact H1 | exact H2 | exact H3].
  all: intros [= <-]; destruct Hl as [H1 H2]; split; [exact H1 | exact H2].
Qed.

Definition effects (tr : list Event) : list Effect := concat (map ev_out tr).

Lemma effects_snoc tr ev : effects (tr ++ [ev]) = effects tr ++ ev_out ev.
Proof. unfold effects. rewrite map_app, concat_app. cbn. by rewrite app_nil_r. Qed.

Lemma init_ok cfg ch a : init cfg ch = Some a -> agent_ok cfg [] (mkWorld a []).
Proof.
  unfold init. intros (c & Hc & [= <-])%bind_Some. split.
  - assert (on_set cfg c).
    { destruct (channel_set_member (channels cfg) ch) eqn:Hm; [injection Hc as <-; apply channel_set_member_spec in Hm; exact (proj2 Hm) |].
      by eapply list_elem_of_lookup_2. }
    split; cbn; auto with agent.
  - by split.
  - by split.
Qed.

(** The same between calls: the effects of the last call join those before. *)
Lemma agent_ok_next cfg prev w : agent_ok cfg prev w -> agent_ok cfg (prev ++ out w) (mkWorld (ag w) []).
Proof.
  intros [[C1 C2 C3 C4 C5 _] [O1 O2 O3] [L1 L2]]. split; [by split | | by split].
  split; [exact O1 | | exact O3]. intros Hb. destruct (O2 Hb) as [S1 S2]. split; [exact S1 |].
  cbn. by rewrite app_nil_r.
Qed.

Lemma history_ok cfg ch a0 tr a :
  init cfg ch = Some a0 -> history cfg a0 tr a ->
  agent_ok cfg (effects tr) (mkWorld a []) /\ Forall (channel_effect cfg) (effects tr).
Proof.
  intros Hi. induction 1 as [a | a tr a' E i a'' es Hh IH Hs].
  { split; [by apply (init_ok cfg ch) | constructor]. }
  destruct (IH Hi) as [Hok Hf]. unfold step in Hs.
  destruct (call cfg E i (mkWorld a' [])) as [w|] eqn:Hc; cbn in Hs; [| done]. injection Hs as <- <-.
  apply agent_call_ok with (prev := effects tr) in Hc; [| done]. rewrite effects_snoc. cbn [ev_out].
  split; [by apply agent_ok_next |]. apply Forall_app_2; [done | exact (co_out _ _ (ao_chan _ _ _ Hc))].
Qed.
