(* ===== verification/RcAgentProps.v ===== *)
(** * RcAgentProps: what the drone's control agent guarantees

    Where it may be and what it may fly; that no tagged frame counts twice; that a silent
    ground station is noticed; that key frames are paced and pending ones served. *)
From S2P Require Import Prelude Bytes SipHash SwConfig Profile RcProto RcProtoProps RcPolicy RcAgent RcAgentSound RcAgentInv.

(** ** The invariant *)

(** C12. The agent's invariant. After any sequence of calls, whatever the frames, clocks, health
    samples and actuator answers: the drone is on a configured channel and was never retuned to,
    nor told to remember, another; it is linked exactly when a session pair is current, and the
    published word is that pair's; once past BOOT the operating point last handed to the actuator
    is the agent's own, the base layer is never shed, and the enhance layer is shed exactly when
    the link is down or the congestion level is positive; and while it is not linked that point is
    MAX_RANGE: lowest rate, double parity, no probe. *)
Theorem agent_invariant (cfg : Config) (start_ch : Z) (a0 a : Agent) (tr : list Event) :
  init cfg start_ch = Some a0 -> history cfg a0 tr a ->
  (channel (chan a) ∈ channels cfg /\
   forall ch why, (ERetune ch why ∈ effects tr \/ ERemember ch ∈ effects tr) -> ch ∈ channels cfg) /\
  (ag_state a = LINKED <-> s_valid (current a) = true) /\
  published_session a = session_word (current a) /\
  (ag_state a <> BOOT ->
     last_op (effects tr) = Some (op a) /\
     shed (op a) = (false, bool_decide (ag_state a <> LINKED) || (1 <=? shed_level (grd a))) /\
     (ag_state a <> LINKED -> max_range_op a)).
Proof.
  intros Hi Hh. destruct (history_ok _ _ _ _ _ Hi Hh) as [[Hc Ho Hl] Hf].
  destruct Hc as [C1 _ _ _ _ _], Ho as [_ O2 O3], Hl as [L1 L2]. cbn in *. split; [| split; [| split; [exact L2 |]]].
  - split; [exact C1 |]. intros ch why [He | He]; exact (proj1 (Forall_forall _ _) Hf _ He).
  - destruct (ag_state a), L1 as [_ L1]; split; intros H; first [done | congruence | exact (proj1 L1)].
  - intros Hb. destruct (O2 Hb) as [S1 S2]. cbn in S1, S2. rewrite app_nil_r in S2. split; [exact S2 |].
    rewrite S1. destruct (ag_state a); try done.
    all: destruct L1 as [Hfs L1]; rewrite Hfs; split; [by case_bool_decide | intros Hn; try done; exact (O3 Hfs)].
Qed.

(** ** Pairing, abstractly *)

Definition with_seq (q : Z) (s : Session) : Session := s {{ last_seq32 := q ; have_seq := true }}.

Inductive PairEvent :=
| PairNone
| PairOffer (vtx : Z)
| PairAccept (body : list Z) (ctx : TagCtx).

Definition ctx_of (s : Session) (q : Z) : TagCtx := mkTagCtx (s_vrx s) (s_vtx s) q.

Section Pairing.
Context (cfg : Config).

(** A frame that may be accepted under a pair: fresh, and tagged under it. *)
Definition admissible (body : list Z) (s : Session) (q : Z) : Prop :=
  s_valid s = true /\ (exists r, rcf_candidate r s = Some q) /\
  verify_control body (key cfg) (ctx_of s q) = Some true.

Lemma verified_admissible body r s q : verify_rcf cfg body r s = Some (Some q) -> admissible body s q.
Proof. intros (Hv & Hf & Ht)%verify_rcf_valid. split; [done |]. split; [by eexists | done]. Qed.

(** The pairing protocol: what may happen to the current and the pending pair. *)
Inductive pair_step : Session * Session -> PairEvent -> Session * Session -> Prop :=
| pair_keep c p : pair_step (c, p) PairNone (c, p)
| pair_clear c p : pair_step (c, p) PairNone (Session0, Session0)
| pair_offer c p vrx vtx ch : pair_step (c, p) (PairOffer vtx) (c, mkSession vrx vtx true 0 false ch)
| pair_retry c p ch : pair_step (c, p) PairNone (c, p {{ agreed_ch := ch }})
| pair_accept c p body q :
    admissible body c q -> pair_step (c, p) (PairAccept body (ctx_of c q)) (with_seq q c, p)
| pair_promote c p body q :
    admissible body p q -> pair_step (c, p) (PairAccept body (ctx_of p q)) (with_seq q p, Session0).

(** The nonce a call may introduce: the one drawn, or a replay tool's. *)
Definition nonce_of (E : Env) (i : Input) : option Z :=
  match i with InFrame _ _ => Some (rnd E) | InReplaySession _ vtx => Some vtx | _ => None end.

(** How a call's effect on the pairs shows in its input and in the count of accepted frames. *)
Definition event_of (E : Env) (i : Input) (l : PairEvent) (n n' : Z) : Prop :=
  match l with
  | PairNone => n' = n
  | PairOffer vtx => n' = n /\ nonce_of E i = Some vtx
  | PairAccept body _ => n' = u64 (n + 1) /\ exists now, i = InFrame body now
  end.

Lemma kept_pair w w' : ses_kept w w' ->
  pair_step (current (ag w), pending (ag w)) PairNone (current (ag w'), pending (ag w')).
Proof. intros [_ [[-> ->] | [-> ->]]]; constructor. Qed.

Lemma kept_same w w' : ses_kept w w' -> s_valid (current (ag w')) = true ->
  current (ag w') = current (ag w) /\ pending (ag w') = pending (ag w).
Proof. by intros [_ [H | [H _]]]; [| rewrite H]. Qed.

Lemma accept_then_apply E r now q w :
  s_valid (current (ag w)) = true ->
  let w' := apply_rcf cfg E r now (accept_rcf q w) in
  current (ag w') = with_seq q (current (ag w)) /\ pending (ag w') = pending (ag w) /\
  rcf_accepted (ag w') = u64 (rcf_accepted (ag w) + 1).
Proof.
  intros Hv w'. destruct (accept_sessions q w) as (E1 & E2 & _ & E4).
  pose proof (apply_rcf_keeps cfg E r now (accept_rcf q w)) as Hk.
  destruct (apply_rcf_linked_with cfg E r now (accept_rcf q w)) as (_ & Hc & _). fold w' in Hk, Hc.
  destruct (kept_same _ _ Hk) as [_ Hp]; [by rewrite Hc, E1 |].
  split; [by rewrite Hc, E1 |]. split; [by rewrite Hp, E2 |]. rewrite (proj1 Hk). exact E4.
Qed.

Lemma call_pairs E i w w' : call cfg E i w = Some w' ->
  exists l, pair_step (current (ag w), pending (ag w)) l (current (ag w'), pending (ag w')) /\
            event_of E i l (rcf_accepted (ag w)) (rcf_accepted (ag w')).
Proof.
  destruct i; cbn [call].
  1: { unfold on_rc_frame. destruct (frame_type body) as [t|]; cbn [mbind option_bind]; [| done].
    destruct (t =? T_DISC); [destruct (parse_disc body) as [[d|]|] |
      destruct (t =? T_RCF); [destruct (parse_rcf body) as [[r|]|] |]]; cbn [mbind option_bind]; try done;
      try (intros [= <-]; exists PairNone; split; [constructor | done]).
    - unfold on_disc. cbn zeta. destruct (verify_control _ _ _) as [v|]; cbn [mbind option_bind]; [| done].
      intros [= <-]. stage_cases;
        first [ (exists PairNone; split; [apply pair_keep | reflexivity])
              | (exists PairNone; split; [apply pair_retry | reflexivity])
              | (exists (PairOffer (rnd E)); split; [apply pair_offer | split; reflexivity]) ].
    - unfold on_rcf. destruct (verify_rcf cfg body r (current (ag w))) as [[q|]|] eqn:Hc; cbn [mbind option_bind]; [| | done].
      + intros [= <-]. apply verified_admissible in Hc as Ha. pose proof (proj1 Ha) as Hv.
        destruct (accept_then_apply E r now_ms q w Hv) as (-> & -> & ->).
        eexists. split; [by apply pair_accept | split; [done | by eexists]].
      + destruct (verify_rcf cfg body r (pending (ag w))) as [[q|]|] eqn:Hp; cbn [mbind option_bind]; [| | done]; intros [= <-].
        * apply verified_admissible in Hp as Hq. pose proof (proj1 Hq) as Hv. set (w0 := w {{ ag := promote (ag w) }}).
          destruct (promote_sessions (ag w)) as (F1 & F2 & _ & F4).
          change (current (ag w0) = pending (ag w)) in F1. change (pending (ag w0) = Session0) in F2.
          change (rcf_accepted (ag w0) = rcf_accepted (ag w)) in F4.
          pose proof (accept_then_apply E r now_ms q w0) as Ha. cbn zeta in Ha. rewrite F1 in Ha.
          destruct (Ha Hv) as (A1 & A2 & A3). rewrite F2 in A2. rewrite F4 in A3.
          exists (PairAccept body (ctx_of (pending (ag w)) q)).
          change (pair_step (current (ag w), pending (ag w)) (PairAccept body (ctx_of (pending (ag w)) q))
                    (current (ag (apply_rcf cfg E r now_ms (accept_rcf q w0))),
                     pending (ag (apply_rcf cfg E r now_ms (accept_rcf q w0)))) /\
                  event_of E (InFrame body now_ms) (PairAccept body (ctx_of (pending (ag w)) q)) (rcf_accepted (ag w))
                    (rcf_accepted (ag (apply_rcf cfg E r now_ms (accept_rcf q w0))))).
          rewrite A1, A2, A3. split; [by apply pair_promote | split; [done | by eexists]].
        * exists PairNone. split; [apply pair_keep | reflexivity]. }
  1: { intros [= <-]. pose proof (tick_keeps cfg E now_ms h w) as Hk. exists PairNone. split; [by apply kept_pair | apply Hk]. }
  6: { intros [= <-]. exists (PairOffer vtx). split; [apply pair_offer | split; reflexivity]. }
  all: intros [= <-]; exists PairNone; split; [apply pair_keep | reflexivity].
Qed.
End Pairing.

(** ** No frame counts twice *)

Definition accepted_now (a : Agent) (ev : Event) : list (list Z * TagCtx) :=
  match ev_in ev with
  | InFrame body _ =>
      if rcf_accepted (ev_post ev) =? rcf_accepted a then []
      else [(body, ctx_of (current (ev_post ev)) (last_seq32 (current (ev_post ev))))]
  | _ => []
  end.

(** The frames accepted in a history, with the tag context each was accepted under. *)
Fixpoint accepted (a : Agent) (tr : list Event) : list (list Z * TagCtx) :=
  match tr with
  | [] => []
  | ev :: tr => accepted_now a ev ++ accepted (ev_post ev) tr
  end.

(** The nonces the history's calls may have introduced. *)
Definition nonces (tr : list Event) : list Z := omap (fun ev => nonce_of (ev_env ev) (ev_in ev)) tr.

Definition last_agent (a : Agent) (tr : list Event) : Agent := default a (ev_post <$> last tr).

Lemma accepted_snoc a tr ev : accepted a (tr ++ [ev]) = accepted a tr ++ accepted_now (last_agent a tr) ev.
Proof.
  revert a. induction tr as [|e tr IH]; intros a; cbn [app accepted]; [by rewrite app_nil_r |].
  rewrite IH, <- app_assoc. f_equal. f_equal. unfold last_agent. rewrite last_cons. by destruct (last tr).
Qed.

Lemma history_last cfg a tr a' : history cfg a tr a' -> last_agent a tr = a'.
Proof. destruct 1; [done |]. unfold last_agent. by rewrite last_snoc. Qed.

Lemma nonces_snoc tr ev :
  nonces (tr ++ [ev]) = nonces tr ++ option_list (nonce_of (ev_env ev) (ev_in ev)).
Proof. unfold nonces. rewrite omap_app. cbn. by destruct (nonce_of _ _). Qed.

(** Of the same pair and later: a greater counter. *)
Definition later (x y : list Z * TagCtx) : Prop :=
  vtx_nonce (snd x) = vtx_nonce (snd y) -> seq32 (snd x) < seq32 (snd y).

Section Replay.
Context (cfg : Config) (a0 : Agent).

(** The counter of an accepted frame has not come within a window of the end of its range. *)
Definition unwrapped (x : list Z * TagCtx) : Prop := 0 <= seq32 (snd x) < 2 ^ 32 - 32767.

Definition under (v : Z) (x : list Z * TagCtx) : Prop := vtx_nonce (snd x) = v.

(** What the pairs remember of the frames accepted. *)
Record pairs_inv (L : list (list Z * TagCtx)) (N : list Z) (c p : Session) : Prop := mkPairsInv {
  pi_order : ForallOrdPairs later L;
  pi_tags : Forall (fun x => verify_control (fst x) (key cfg) (snd x) = Some true) L;
  pi_known : Forall (fun x => vtx_nonce (snd x) ∈ N) L;
  pi_current : s_valid c = true -> s_vtx c ∈ N /\
    (have_seq c = true -> Forall (fun x => under (s_vtx c) x -> seq32 (snd x) <= last_seq32 c) L /\
                          unwrapped ([], ctx_of c (last_seq32 c))) /\
    (have_seq c = false -> Forall (fun x => ~ under (s_vtx c) x) L);
  pi_pending : s_valid p = true -> s_vtx p ∈ N /\ have_seq p = false /\ Forall (fun x => ~ under (s_vtx p) x) L /\
    (s_valid c = true -> s_vtx c <> s_vtx p);
}.

Lemma pairs_more L N N' c p : pairs_inv L N c p -> (forall n, n ∈ N -> n ∈ N') -> pairs_inv L N' c p.
Proof.
  intros [H1 H2 H3 H4 H5] Hs. split; [done | done | by eapply Forall_impl; [exact H3 |]; auto | |].
  - intros Hv. destruct (H4 Hv) as (? & ?). auto.
  - intros Hv. destruct (H5 Hv) as (? & ?). auto.
Qed.

(** Accepting an admissible frame under a pair whose earlier frames are known. *)
Lemma candidate_later body s q L :
  admissible cfg body s q -> unwrapped (body, ctx_of s q) ->
  (have_seq s = true -> Forall (fun x => under (s_vtx s) x -> seq32 (snd x) <= last_seq32 s) L /\
                        unwrapped ([], ctx_of s (last_seq32 s))) ->
  (have_seq s = false -> Forall (fun x => ~ under (s_vtx s) x) L) ->
  Forall (fun x => later x (body, ctx_of s q)) L.
Proof.
  intros (_ & (r & Hr) & _) Hu Ht Hf. unfold rcf_candidate in Hr. destruct (have_seq s); cbn [negb] in Hr.
  - destruct (Ht eq_refl) as [Hl Hq]. unfold unwrapped in Hq. cbn in Hq.
    destruct (_ || _) eqn:Hd in Hr; [done |]. injection Hr as Hr.
    apply orb_false_iff in Hd as [Hd1%Z.ltb_ge Hd2%Z.ltb_ge]. rewrite wrap_small in Hr by (unfold in_width; lia).
    eapply Forall_impl; [exact Hl |]. intros x Hx He. specialize (Hx He). cbn. lia.
  - eapply Forall_impl; [exact (Hf eq_refl) |]. intros x Hx He. by destruct (Hx He).
Qed.

Lemma pairs_accept L N body s q p :
  admissible cfg body s q -> unwrapped (body, ctx_of s q) -> s_vtx s ∈ N ->
  (have_seq s = true -> Forall (fun x => under (s_vtx s) x -> seq32 (snd x) <= last_seq32 s) L /\
                        unwrapped ([], ctx_of s (last_seq32 s))) ->
  (have_seq s = false -> Forall (fun x => ~ under (s_vtx s) x) L) ->
  (s_valid p = true -> s_vtx p ∈ N /\ have_seq p = false /\ Forall (fun x => ~ under (s_vtx p) x) L /\ s_vtx s <> s_vtx p) ->
  ForallOrdPairs later L -> Forall (fun x => verify_control (fst x) (key cfg) (snd x) = Some true) L ->
  Forall (fun x => vtx_nonce (snd x) ∈ N) L ->
  pairs_inv (L ++ [(body, ctx_of s q)]) N (with_seq q s) p.
Proof.
  intros Ha Hu Hn Ht Hf Hp Ho Hv Hk. pose proof (candidate_later body s q L Ha Hu Ht Hf) as Hl. split.
  - by apply ord_pairs_snoc.
  - apply Forall_app_2; [done |]. constructor; [apply Ha | constructor].
  - apply Forall_app_2; [done |]. by constructor.
  - intros _. split; [exact Hn |]. split; [| done]. intros _. split; [| exact Hu].
    apply Forall_app_2; [| constructor; [intros _; cbn; reflexivity | constructor]].
    eapply Forall_impl; [exact Hl |]. intros x Hx He. exact (Z.lt_le_incl _ _ (Hx He)).
  - intros Hpv. destruct (Hp Hpv) as (P1 & P2 & P3 & P4). split; [done |]. split; [done |]. split; [| by intros _].
    apply Forall_app_2; [done |]. by constructor.
Qed.

Lemma pairs_step L N c p l c' p' :
  pair_step cfg (c, p) l (c', p') -> pairs_inv L N c p ->
  match l with
  | PairNone => pairs_inv L N c' p'
  | PairOffer v => v ∉ N -> pairs_inv L (N ++ [v]) c' p'
  | PairAccept body ctx => unwrapped (body, ctx) -> pairs_inv (L ++ [(body, ctx)]) N c' p'
  end.
Proof.
  intros Hs Hi. destruct Hi as [I1 I2 I3 I4 I5] eqn:Heq. clear Heq.
  inversion Hs; subst; clear Hs.
  - by split.
  - by split.
  - intros Hv. assert (Hin : forall n, n ∈ N -> n ∈ N ++ [vtx]) by (intros n Hn; apply elem_of_app; by left).
    split; [done | done | | |].
    + eapply Forall_impl; [exact I3 |]. intros x Hx. by apply Hin.
    + intros Hc. destruct (I4 Hc) as (J1 & J2 & J3). split; [by apply Hin | done].
    + intros _. split; [apply elem_of_app; right; by left |]. split; [done |]. split.
      * eapply Forall_impl; [exact I3 |]. intros x Hx He. change (vtx_nonce (snd x) = vtx) in He.
        apply Hv. rewrite <- He. exact Hx.
      * intros Hc. destruct (I4 Hc) as (J1 & _). cbn. by intros <-.
  - split; [done | done | done | done | exact I5].
  - intros Hu. match goal with H : admissible _ _ _ _ |- _ => rename H into Ha end.
    destruct (I4 (proj1 Ha)) as (J1 & J2 & J3). apply pairs_accept; try done.
    intros Hp. destruct (I5 Hp) as (P1 & P2 & P3 & P4). split_all; try done. apply P4, Ha.
  - intros Hu. match goal with H : admissible _ _ _ _ |- _ => rename H into Ha end.
    destruct (I5 (proj1 Ha)) as (P1 & P2 & P3 & P4). apply pairs_accept; try done. by rewrite P2.
Qed.

Lemma accepted_now_event a ev l :
  event_of (ev_env ev) (ev_in ev) l (rcf_accepted a) (rcf_accepted (ev_post ev)) ->
  pair_step cfg (current a, pending a) l (current (ev_post ev), pending (ev_post ev)) ->
  accepted_now a ev = match l with PairAccept body ctx => [(body, ctx)] | _ => [] end.
Proof.
  intros He Hs. unfold accepted_now. destruct l as [|v|body ctx]; cbn [event_of] in He.
  - destruct (ev_in ev); try done. by rewrite He, Z.eqb_refl.
  - destruct He as [He _]. destruct (ev_in ev); try done. by rewrite He, Z.eqb_refl.
  - destruct He as [He [now ->]]. rewrite He. destruct (Z.eqb_spec (u64 (rcf_accepted a + 1)) (rcf_accepted a)) as [Hx|_]; [mlia |].
    by inversion Hs; subst.
Qed.

Lemma history_pairs tr a :
  current a0 = Session0 -> pending a0 = Session0 -> history cfg a0 tr a -> NoDup (nonces tr) ->
  Forall unwrapped (accepted a0 tr) ->
  pairs_inv (accepted a0 tr) (nonces tr) (current a) (pending a).
Proof.
  intros Hc Hp. induction 1 as [a | a tr a' E i a'' es Hh IH Hs].
  { intros _ _. rewrite Hc, Hp. split; cbn; try done; constructor. }
  rewrite accepted_snoc, nonces_snoc, (history_last _ _ _ _ Hh). cbn [ev_env ev_in].
  intros Hn Hu. apply Forall_app in Hu as [Hu Hu1]. pose proof Hn as (Hn0 & Hn1 & _)%NoDup_app.
  specialize (IH Hc Hp Hn0 Hu). unfold step in Hs.
  destruct (call cfg E i (mkWorld a' [])) as [w|] eqn:Hw; cbn in Hs; [| done]. injection Hs as <- <-.
  destruct (call_pairs cfg E i _ _ Hw) as (l & Hl & He).
  pose proof (accepted_now_event a' (mkEvent E i (out w) (ag w)) l He Hl) as Ha. rewrite Ha in Hu1 |- *.
  pose proof (pairs_step _ _ _ _ _ _ _ Hl IH) as Hi.
  destruct l as [|v|body ctx]; cbn [event_of] in He.
  - rewrite app_nil_r. eapply pairs_more; [exact Hi |]. intros n' Hin. apply elem_of_app. by left.
  - rewrite app_nil_r. destruct He as [_ He]. cbn [ev_env ev_in] in Hn1. rewrite He in Hn1 |- *.
    apply Hi. intros Hin. apply (Hn1 _ Hin). by left.
  - specialize (Hi (Forall_inv Hu1)). eapply pairs_more; [exact Hi |]. intros n' Hin. apply elem_of_app. by left.
Qed.
End Replay.

Lemma init_sessions cfg ch a : init cfg ch = Some a -> current a = Session0 /\ pending a = Session0.
Proof. unfold init. by intros (c & _ & [= <-])%bind_Some. Qed.

(** C9. No control frame counts twice. Over any sequence of calls in which the drawn nonces are
    distinct and no counter comes within a replay window of the end of its 32-bit range: every
    frame accepted carried a valid tag for the pair and the extended counter it was accepted
    under, that pair's drone nonce was drawn in this history, and of two frames accepted under the
    same drone nonce the later one carried the greater counter -- whatever was lost, repeated or
    replayed in between, across keep-alives, new pairings and failsafes. *)
Theorem rcf_never_replayed (cfg : Config) (start_ch : Z) (a0 a : Agent) (tr : list Event) :
  init cfg start_ch = Some a0 -> history cfg a0 tr a -> NoDup (nonces tr) -> Forall unwrapped (accepted a0 tr) ->
  ForallOrdPairs later (accepted a0 tr) /\
  Forall (fun x => verify_control (fst x) (key cfg) (snd x) = Some true /\ vtx_nonce (snd x) ∈ nonces tr) (accepted a0 tr).
Proof.
  intros Hi Hh Hn Hu. destruct (init_sessions _ _ _ Hi) as [Hc Hp].
  destruct (history_pairs _ _ _ _ Hc Hp Hh Hn Hu) as [H1 H2 H3 _ _].
  split; [exact H1 |]. apply Forall_and. by split.
Qed.
