(* ===== verification/RcAgentIdr.v ===== *)
(** * RcAgentIdr: key frames are paced, and a pending one is served

    Every producer of key frames goes through [idr_due].  Whatever the calls, two key frames are
    a floor apart; a request that was refused waits, and goes out at the first tick it may. *)
From stdpp Require Import sorting.
From S2P Require Import Prelude Bytes SipHash SwConfig Profile RcProto RcPolicy RcAgent RcAgentSound.

(** ** Times *)

Definition clock_of (i : Input) : option Z :=
  match i with InFrame _ t => Some t | InTick t _ => Some t | _ => None end.

Definition is_idr (e : Effect) : bool := match e with EIdr => true | _ => false end.

Definition n_idr (es : list Effect) : nat := length (List.filter is_idr es).

(** The times of the key frames requested, oldest first. *)
Definition idr_times_of (ev : Event) : list Z :=
  match clock_of (ev_in ev) with Some t => replicate (n_idr (ev_out ev)) t | None => [] end.

Definition idr_times (tr : list Event) : list Z := concat (map idr_times_of tr).

Definition clocks (tr : list Event) : list Z := omap (fun ev => clock_of (ev_in ev)) tr.

Lemma n_idr_app es es' : n_idr (es ++ es') = (n_idr es + n_idr es')%nat.
Proof. unfold n_idr. by rewrite List.filter_app, length_app. Qed.

Lemma n_idr_verbs es : Forall encoder_verb es -> n_idr es = 0%nat.
Proof. induction 1 as [|[] es H _ IH]; done. Qed.

(** ** The floor *)

(** Increasing by at least 100, the last element [l]. *)
Inductive spaced : list Z -> option Z -> Prop :=
| spaced_nil : spaced [] None
| spaced_snoc ts l t : spaced ts l -> (forall s, l = Some s -> s + 100 <= t) -> spaced (ts ++ [t]) (Some t).

(** The effects grew by some that are no key frames. *)
Definition grown (es es' : list Effect) : Prop := exists d, es' = es ++ d /\ n_idr d = 0%nat.

Lemma grown_refl es : grown es es.
Proof. exists []. by rewrite app_nil_r. Qed.

Lemma grown_app es es' d : grown es es' -> n_idr d = 0%nat -> grown es (es' ++ d).
Proof. intros (d0 & -> & H0) H. exists (d0 ++ d). by rewrite app_assoc, n_idr_app, H0, H. Qed.

(** Shows that the effects of a stage grew by no key frame. *)
Ltac grow :=
  first [ exact (grown_refl _)
        | refine (grown_app _ _ [_] _ _); [grow | reflexivity]
        | refine (grown_app _ _ _ _ _); [grow | by apply n_idr_verbs] ].

Section Floor.
Context (cfg : Config) (E : Env) (ts : list Z) (now : Z).

(** The key frames so far, this call's included. *)
Record idr_ok (w : World) : Prop := mkIdrOk {
  io_spaced : spaced (ts ++ replicate (n_idr (out w)) now) (last_idr_ms (idr (ag w)));
  io_past : forall s, last_idr_ms (idr (ag w)) = Some s -> 0 <= s <= now;
}.

Lemma idr_ok_grow w w' :
  last_idr_ms (idr (ag w')) = last_idr_ms (idr (ag w)) -> grown (out w) (out w') -> idr_ok w -> idr_ok w'.
Proof.
  intros Hl (d & Ho & Hn) [H1 H2]. split; rewrite Hl; [| exact H2]. by rewrite Ho, n_idr_app, Hn, Nat.add_0_r.
Qed.

Context (Hnow : in_width 64 now).

(** A granted key frame is a floor after the last. *)
Lemma idr_ok_grant w w' :
  idr_ok w -> (match last_idr_ms (idr (ag w)) with Some t => sub64 now t <? 100 | None => false end) = false ->
  last_idr_ms (idr (ag w')) = Some now -> out w' = out w ++ [EIdr] -> idr_ok w'.
Proof.
  intros [H1 H2] Hd Hl Ho. split; rewrite Hl; [| intros s [= <-]; unfold in_width in Hnow; lia].
  rewrite Ho, n_idr_app. change (n_idr [EIdr]) with 1%nat. rewrite Nat.add_1_r, replicate_S_end, app_assoc.
  eapply spaced_snoc; [exact H1 |]. intros s Hs. rewrite Hs in Hd. specialize (H2 s Hs).
  apply Z.ltb_ge in Hd. unfold sub64 in Hd. rewrite wrap_small in Hd by mlia. lia.
Qed.

Ltac idr_same := apply idr_ok_grow; [reflexivity | grow].

Ltac idr_stage := intros ? K; intros; revert K; open_stage; idr_same.

Lemma idr_due_false w chain w' : idr_due now chain w = (false, w') -> w' = w.
Proof. unfold idr_due. cbn zeta. destruct (match _ with Some _ => _ | None => _ end); [by intros [= <-] |].
  destruct (chain && _); [by intros [= <-] | done]. Qed.

Lemma idr_due_true w chain w' : idr_due now chain w = (true, w') ->
  (match last_idr_ms (idr (ag w)) with Some t => sub64 now t <? 100 | None => false end) = false /\
  last_idr_ms (idr (ag w')) = Some now /\ out w' = out w.
Proof.
  unfold idr_due. cbn zeta. destruct (match _ with Some _ => _ | None => _ end); [done |].
  destruct (chain && _); [done |]. intros [= <-]. by destruct chain.
Qed.

Lemma link_up_idr_ok w : idr_ok w -> idr_ok (link_up_idr now w).
Proof.
  intros Hw. unfold link_up_idr. destruct (idr_due now false w) as [[] w1] eqn:Hd.
  - destruct (idr_due_true _ _ _ Hd) as (Hg & Hl & Ho). apply (idr_ok_grant w); [done | done | exact Hl | by transitivity (out w1 ++ [EIdr]); [| rewrite Ho]].
  - by rewrite (idr_due_false _ _ _ Hd).
Qed.

Lemma serve_gs_ok w : idr_ok w -> idr_ok (serve_gs_idr now w).
Proof.
  intros Hw. unfold serve_gs_idr. destruct (_ && _); [| done]. destruct (idr_due now false w) as [[] w1] eqn:Hd.
  - destruct (idr_due_true _ _ _ Hd) as (Hg & Hl & Ho). apply (idr_ok_grant w); [done | done | exact Hl | by transitivity (out w1 ++ [EIdr]); [| rewrite Ho]].
  - by rewrite (idr_due_false _ _ _ Hd).
Qed.

Lemma serve_chain_ok w : idr_ok w -> idr_ok (serve_chain_break now w).
Proof.
  intros Hw. unfold serve_chain_break. cbn zeta.
  set (w0 := w {{ ag->idr->chain_idr_pending := chain_break_pending (idr (ag w)) || chain_idr_pending (idr (ag w)) ;
                  ag->idr->chain_break_pending := false }}).
  assert (Hw0 : idr_ok w0) by (destruct Hw as [H1 H2]; split; [exact H1 | exact H2]).
  destruct (_ && _); [| exact Hw0]. destruct (idr_due now true w0) as [[] w1] eqn:Hd.
  - destruct (idr_due_true _ _ _ Hd) as (Hg & Hl & Ho). apply (idr_ok_grant w0); [done | done | exact Hl | by transitivity (out w1 ++ [EIdr]); [| rewrite Ho]].
  - by rewrite (idr_due_false _ _ _ Hd).
Qed.

Lemma tick_idr h w : idr_ok w -> idr_ok (tick cfg E now h w).
Proof.
  intros Hw. revert w Hw. apply (tick_stages cfg E idr_ok); [idr_stage | idr_stage | idr_stage | apply serve_chain_ok
    | apply serve_gs_ok | idr_stage | idr_stage | idr_stage | idr_stage | idr_stage | idr_stage].
Qed.

Lemma apply_rcf_idr r w : idr_ok w -> idr_ok (apply_rcf cfg E r now w).
Proof.
  intros Hw. apply (apply_rcf_stages cfg E idr_ok); [intros lad; revert w Hw; idr_stage | idr_stage | idr_stage | idr_stage
    | idr_stage | idr_stage | apply link_up_idr_ok | idr_stage].
Qed.
End Floor.

Lemma promote_idr a : last_idr_ms (idr (promote a)) = last_idr_ms (idr a).
Proof. unfold promote. stage_cases; reflexivity. Qed.

Lemma accept_idr q w : last_idr_ms (idr (ag (accept_rcf q w))) = last_idr_ms (idr (ag w)) /\ grown (out w) (out (accept_rcf q w)).
Proof. open_stage; (split; [reflexivity |]); [refine (grown_app _ _ [_] _ _); [apply grown_refl | reflexivity] | apply grown_refl]. Qed.

Lemma on_rcf_idr cfg E ts now body r w w' :
  in_width 64 now -> idr_ok ts now w -> on_rcf cfg E body r now w = Some w' -> idr_ok ts now w'.
Proof.
  intros Hn Hw. unfold on_rcf.
  destruct (verify_rcf cfg body r (current (ag w))) as [[q|]|]; cbn [mbind option_bind]; [| | done].
  - intros [= <-]. apply apply_rcf_idr; [done |]. destruct (accept_idr q w). by apply (idr_ok_grow ts now w).
  - destruct (verify_rcf cfg body r (pending (ag w))) as [[q|]|]; cbn [mbind option_bind]; [| | done]; intros [= <-].
    + apply apply_rcf_idr; [done |]. set (w0 := mkWorld _ _). destruct (accept_idr q w0) as [H1 H2].
      apply (idr_ok_grow ts now w); [by rewrite H1; apply promote_idr | exact H2 | done].
    + destruct Hw as [H1 H2]. by split.
Qed.

Lemma on_disc_idr cfg E ts now body d w w' : idr_ok ts now w -> on_disc cfg E body d w = Some w' -> idr_ok ts now w'.
Proof.
  unfold on_disc. cbn zeta. intros Hw. destruct (verify_control _ _ _) as [v|]; cbn [mbind option_bind]; [| done].
  intros [= <-]. revert Hw. stage_cases; (apply idr_ok_grow; [reflexivity | grow]).
Qed.

Lemma call_idr cfg E ts i w w' t :
  clock_of i = Some t -> in_width 64 t -> idr_ok ts t w -> call cfg E i w = Some w' -> idr_ok ts t w'.
Proof.
  destruct i; cbn [clock_of call]; try done; intros [= ->] Ht Hw.
  - unfold on_rc_frame. destruct (frame_type body) as [ty|]; cbn [mbind option_bind]; [| done].
    destruct (ty =? T_DISC); [destruct (parse_disc body) as [[d|]|] | destruct (ty =? T_RCF); [destruct (parse_rcf body) as [[r|]|] |]];
      cbn [mbind option_bind]; try done; try (by intros [= <-]); [by apply on_disc_idr | by apply on_rcf_idr].
  - intros [= <-]. by apply tick_idr.
Qed.

(** A call without a clock requests nothing and leaves the floor alone. *)
Lemma call_quiet cfg E i w w' :
  clock_of i = None -> call cfg E i w = Some w' ->
  last_idr_ms (idr (ag w')) = last_idr_ms (idr (ag w)) /\ out w' = out w.
Proof. destruct i; cbn [clock_of call]; try done; intros _ [= <-]; by split. Qed.

(** Increasing by at least 100. *)
Definition gap (s t : Z) : Prop := s + 100 <= t.

Lemma spaced_pairs ts l : spaced ts l -> ForallOrdPairs gap ts /\ (forall m, l = Some m -> Forall (fun s => s <= m) ts).
Proof.
  induction 1 as [| ts l t H [IH1 IH2] Hl]; [split; [constructor | done] |].
  assert (Hp : Forall (fun s => gap s t) ts).
  { destruct l as [m|].
    - eapply Forall_impl; [exact (IH2 m eq_refl) |]. intros s Hs. specialize (Hl m eq_refl). unfold gap. cbn in Hs. lia.
    - inversion H. constructor. }
  split; [by apply ord_pairs_snoc |]. intros m [= <-]. apply Forall_app. split; [| by repeat constructor].
  eapply Forall_impl; [exact Hp |]. unfold gap. intros s Hs. cbn in *. lia.
Qed.

Lemma idr_times_snoc tr ev : idr_times (tr ++ [ev]) = idr_times tr ++ idr_times_of ev.
Proof. unfold idr_times. rewrite map_app, concat_app. cbn. by rewrite app_nil_r. Qed.

Lemma clocks_snoc tr ev : clocks (tr ++ [ev]) = clocks tr ++ option_list (clock_of (ev_in ev)).
Proof. unfold clocks. rewrite omap_app. cbn. by destruct (clock_of _). Qed.

(** Between calls: the last key frame is not ahead of the clocks read. *)
Lemma history_idr cfg a0 tr a :
  last_idr_ms (idr a0) = None -> history cfg a0 tr a ->
  StronglySorted Z.le (clocks tr) -> Forall (in_width 64) (clocks tr) ->
  spaced (idr_times tr) (last_idr_ms (idr a)) /\
  forall s, last_idr_ms (idr a) = Some s -> 0 <= s /\ exists c, c ∈ clocks tr /\ s <= c.
Proof.
  intros H0. induction 1 as [a | a tr a' E i a'' es Hh IH Hs].
  { intros _ _. rewrite H0. by split; [constructor |]. }
  rewrite clocks_snoc, idr_times_snoc. cbn [ev_in]. intros Hso Hfo.
  pose proof (proj1 (Forall_app _ _ _) Hfo) as [Hf1 Hf2].
  destruct (IH H0 (StronglySorted_app_1_l _ _ _ Hso) Hf1) as [Hsp Hin]. unfold step in Hs.
  destruct (call cfg E i (mkWorld a' [])) as [w|] eqn:Hw; cbn in Hs; [| done]. injection Hs as <- <-.
  unfold idr_times_of. cbn [ev_in ev_out]. destruct (clock_of i) as [t|] eqn:Hc; cbn [option_list] in *.
  - apply Forall_inv in Hf2.
    assert (Hok : idr_ok (idr_times tr) t (mkWorld a' [])).
    { split; cbn; [by rewrite app_nil_r |]. intros s Hs. destruct (Hin s Hs) as (Hp & c & Hcin & Hsc).
      split; [done |]. pose proof (StronglySorted_app_1_elem_of _ _ _ c t Hso Hcin (list_elem_of_here _ _)). lia. }
    pose proof (call_idr cfg E _ i _ _ t Hc Hf2 Hok Hw) as [H1 H2]. split; [exact H1 |].
    intros s Hs. destruct (H2 s Hs) as [Hp Hle]. split; [done |]. exists t. split; [| done].
    apply elem_of_app. right. apply list_elem_of_here.
  - rewrite !app_nil_r. destruct (call_quiet cfg E i _ _ Hc Hw) as [-> _]. by split.
Qed.

(** ** Pending requests *)

Section Served.
Context (cfg : Config) (E : Env) (now : Z) (h : RadioHealth).

(** The part of a tick after the key-frame producers. *)
Definition tick_tail (w : World) : World :=
  let w := link_timers cfg E now w in
  let '(force_policy, w) := take_rebuilt w in
  let w := take_ldpc w in
  let w := intake_arm_state cfg E now w in
  let w := if force_policy && negb (policy_ran now (ag w)) then run_bitrate_policy cfg E now true w else w in
  let w := reassert cfg E now w in
  run_congestion_guard now h w.

Lemma tick_eq w : tick cfg E now h w =
  let w := deferred_move now w in
  match ag_state (ag w) with
  | BOOT => (apply_max_range cfg E now w) {{ ag->ag_state := RENDEZVOUS }}
  | _ => tick_tail (serve_gs_idr now (serve_chain_break now (unconfirmed_move cfg E now w)))
  end.
Proof. unfold tick, tick_tail. cbn zeta. destruct (ag_state (ag (deferred_move now w))); reflexivity. Qed.

(** From then on the state only leaves LINKED, and as long as it does not, the requests stand. *)
Definition stands (w0 w : World) : Prop :=
  ag_state (ag w) = LINKED -> ag_state (ag w0) = LINKED /\ idr (ag w) = idr (ag w0) /\ exists es, out w = out w0 ++ es.

Lemma stands_refl w : stands w w.
Proof. intros H. split; [done |]. split; [done |]. exists []. by rewrite app_nil_r. Qed.

Lemma stands_trans w0 w1 w2 : stands w0 w1 -> stands w1 w2 -> stands w0 w2.
Proof.
  intros H1 H2 Hs. destruct (H2 Hs) as (S2 & I2 & es2 & O2). destruct (H1 S2) as (S1 & I1 & es1 & O1).
  split; [done |]. split; [congruence |]. exists (es1 ++ es2). by rewrite O2, O1, app_assoc.
Qed.

(** A stage that leaves state and requests alone. *)
Lemma stands_same w w' : ag_state (ag w') = ag_state (ag w) -> idr (ag w') = idr (ag w) ->
  (exists es, out w' = out w ++ es) -> stands w w'.
Proof. intros Hs Hi Ho Hl. split; [congruence |]. by split. Qed.

Ltac more := first [ (exists []; rewrite app_nil_r; reflexivity) | (eexists; reflexivity)
                   | (eexists; rewrite <- app_assoc; reflexivity) ].
Ltac same_stage := open_stage; (apply stands_same; [reflexivity | reflexivity | more]).

Lemma tick_tail_stands w : stands w (tick_tail w).
Proof.
  assert (Htl : forall w, stands w (take_ldpc w)) by (intros; same_stage).
  assert (Ham : forall w, stands w (intake_arm_state cfg E now w)) by (intros; same_stage).
  assert (Hpo : forall w f, stands w (run_bitrate_policy cfg E now f w)) by (intros; run_policy; apply stands_same; [reflexivity | reflexivity | more]).
  assert (Hg : forall w, stands w (run_congestion_guard now h w)) by (intros; same_stage).
  assert (Hlt : forall w, stands w (link_timers cfg E now w)).
  { intros w0. unfold link_timers. cbn zeta. destruct (ag_state (ag w0)) eqn:Hs; try apply stands_refl;
      (destruct (last_fb (ag w0)); [| apply stands_refl]); (destruct (_ <=? _); [| apply stands_refl]); by intros Hl. }
  assert (Htr : forall w, stands w (snd (take_rebuilt w))) by (intros w0; unfold take_rebuilt; cbn zeta;
    destruct (rebuilt_pending (knobs (ag w0))); (apply stands_same; [reflexivity | reflexivity | more])).
  unfold tick_tail. cbn zeta. pose proof (Htr (link_timers cfg E now w)) as H1.
  destruct (take_rebuilt _) as [f w1]. cbn [snd] in H1.
  assert (H2 : stands w (intake_arm_state cfg E now (take_ldpc w1)))
    by (eapply stands_trans; [eapply stands_trans; [eapply stands_trans; [apply Hlt | exact H1] | apply Htl] | apply Ham]).
  eapply stands_trans; [| apply Hg]. unfold reassert. cbn zeta.
  repeat case_match; try exact H2; (eapply stands_trans; [| apply Hpo]); try exact H2; (eapply stands_trans; [exact H2 | apply Hpo]).
Qed.

(** "Not before": the pacer's refusal. *)
Definition too_soon (a : Agent) (chain : bool) : Prop :=
  (exists t, last_idr_ms (idr a) = Some t /\ sub64 now t < 100) \/
  (chain = true /\ exists t, last_chain_idr_ms (idr a) = Some t /\ sub64 now t < 1000).

Lemma idr_due_refused w chain : fst (idr_due now chain w) = false -> too_soon (ag w) chain.
Proof.
  unfold idr_due, too_soon. cbn zeta. destruct (last_idr_ms (idr (ag w))) as [t|].
  - destruct (Z.ltb_spec (sub64 now t) 100); [eauto |]. destruct chain; cbn [andb]; [| done].
    destruct (last_chain_idr_ms (idr (ag w))) as [t'|]; [| done]. destruct (Z.ltb_spec (sub64 now t') 1000); [eauto | done].
  - destruct chain; cbn [andb]; [| done].
    destruct (last_chain_idr_ms (idr (ag w))) as [t'|]; [| done]. destruct (Z.ltb_spec (sub64 now t') 1000); [eauto | done].
Qed.

Definition chain_wanted (a : Agent) : bool := chain_break_pending (idr a) || chain_idr_pending (idr a).

(** What the producers do with pending requests while linked. *)
Lemma producers_served w :
  ag_state (ag w) = LINKED ->
  let w' := serve_gs_idr now (serve_chain_break now w) in
  (exists es, out w' = out w ++ es) /\
  (chain_wanted (ag w) = true ->
     (EIdr ∈ out w' /\ chain_idr_pending (idr (ag w')) = false) \/
     (chain_idr_pending (idr (ag w')) = true /\ too_soon (ag w) true)) /\
  (idr_gs_pending (idr (ag w)) = true ->
     (EIdr ∈ out w' /\ idr_gs_pending (idr (ag w')) = false) \/
     (idr_gs_pending (idr (ag w')) = true /\ too_soon (ag w) false)).
Proof.
  intros Hl w'. subst w'. unfold serve_chain_break. cbn zeta. fold (chain_wanted (ag w)).
  set (w0 := w {{ ag->idr->chain_idr_pending := chain_wanted (ag w) ; ag->idr->chain_break_pending := false }}).
  assert (H0 : ag_state (ag w0) = LINKED) by exact Hl.
  assert (Hin : forall es, EIdr ∈ es ++ [EIdr]) by (intros es; apply elem_of_app; right; apply list_elem_of_here).
  change (chain_idr_pending (idr (ag w0))) with (chain_wanted (ag w)).
  rewrite (bool_decide_eq_true_2 _ H0), andb_true_r.
  assert (Hgs : forall chain_left, chain_idr_pending (idr (ag w0)) = chain_left ->
    let w' := serve_gs_idr now w0 in
    (exists es, out w' = out w ++ es) /\
    (chain_idr_pending (idr (ag w')) = chain_left \/ (EIdr ∈ out w' /\ chain_idr_pending (idr (ag w')) = false)) /\
    (idr_gs_pending (idr (ag w)) = true ->
      (EIdr ∈ out w' /\ idr_gs_pending (idr (ag w')) = false) \/
      (idr_gs_pending (idr (ag w')) = true /\ too_soon (ag w) false))).
  { intros cl Hcl. unfold serve_gs_idr. rewrite (bool_decide_eq_true_2 _ H0), andb_true_r.
    change (idr_gs_pending (idr (ag w0))) with (idr_gs_pending (idr (ag w))).
    destruct (idr_gs_pending (idr (ag w))) eqn:Hg; cbn zeta.
    - pose proof (idr_due_refused w0 false) as Hr. destruct (idr_due now false w0) as [[] w1] eqn:Hd.
      + destruct (idr_due_true _ _ _ _ Hd) as (_ & _ & Ho). change (out w0) with (out w) in Ho.
        split; [exists [EIdr]; by transitivity (out w1 ++ [EIdr]); [| rewrite Ho] |].
        split; [right; split; [apply Hin | done] |]. intros _. left. split; [apply Hin | done].
      + rewrite (idr_due_false _ _ _ _ Hd). split; [exists []; by rewrite app_nil_r |]. split; [by left |].
        intros _. right. split; [exact Hg | exact (Hr eq_refl)].
    - split; [exists []; by rewrite app_nil_r |]. split; [by left | done]. }
  destruct (chain_wanted (ag w)) eqn:Hc.
  - pose proof (idr_due_refused w0 true) as Hr. destruct (idr_due now true w0) as [[] w1] eqn:Hd.
    + destruct (idr_due_true _ _ _ _ Hd) as (_ & _ & Ho). change (out w0) with (out w) in Ho.
      unfold serve_gs_idr. cbn zeta.
      match goal with |- context [if ?b then _ else ?w2] => change b with false end. cbn iota.
      split; [exists [EIdr]; by transitivity (out w1 ++ [EIdr]); [| rewrite Ho] |].
      split; intros _; left; (split; [exact (Hin (out w1)) | reflexivity]).
    + rewrite (idr_due_false _ _ _ _ Hd). destruct (Hgs true eq_refl) as (G1 & G2 & G3).
      split; [exact G1 |]. split; [| exact G3]. intros _. destruct G2 as [G2 | G2]; [right | by left].
      split; [exact G2 | exact (Hr eq_refl)].
  - destruct (Hgs false eq_refl) as (G1 & _ & G3). split; [exact G1 |]. by split.
Qed.
Lemma unconfirmed_linked w : ag_state (ag (unconfirmed_move cfg E now w)) = LINKED -> unconfirmed_move cfg E now w = w.
Proof.
  unfold unconfirmed_move. cbn zeta. destruct (move_pending _ && _); [| done].
  destruct (negb _ && _); cbn zeta; match goal with |- context [bool_decide ?P] => destruct (bool_decide P) end; done.
Qed.

Lemma producers_state w : ag_state (ag (serve_gs_idr now (serve_chain_break now w))) = ag_state (ag w).
Proof.
  assert (H1 : forall w, ag_state (ag (serve_chain_break now w)) = ag_state (ag w)) by (intros; open_stage; reflexivity).
  assert (H2 : forall w, ag_state (ag (serve_gs_idr now w)) = ag_state (ag w)) by (intros; open_stage; reflexivity).
  by rewrite H2, H1.
Qed.

Lemma deferred_same w :
  ag_state (ag (deferred_move now w)) = ag_state (ag w) /\ idr (ag (deferred_move now w)) = idr (ag w).
Proof. open_stage; by split. Qed.

Lemma tick_served a a' es :
  step cfg E (InTick now h) a = Some (a', es) -> ag_state a = LINKED -> ag_state a' = LINKED ->
  (chain_wanted a = true ->
     (EIdr ∈ es /\ chain_idr_pending (idr a') = false) \/ (chain_idr_pending (idr a') = true /\ too_soon a true)) /\
  (idr_gs_pending (idr a) = true ->
     (EIdr ∈ es /\ idr_gs_pending (idr a') = false) \/ (idr_gs_pending (idr a') = true /\ too_soon a false)).
Proof.
  intros H Hl Hl'. destruct (deferred_same (mkWorld a [])) as [Hs Hi]. cbn [ag] in Hs, Hi.
  assert (Ht : exists w2 w4, w2 = unconfirmed_move cfg E now (deferred_move now (mkWorld a [])) /\
            stands (serve_gs_idr now (serve_chain_break now w2)) w4 /\ a' = ag w4 /\ es = out w4).
  { unfold step in H. cbn [call mbind option_bind] in H. rewrite tick_eq in H. cbn zeta in H. rewrite Hs, Hl in H.
    eexists _, _. split; [reflexivity |]. split; [apply tick_tail_stands |].
    revert H. generalize (tick_tail (serve_gs_idr now (serve_chain_break now (unconfirmed_move cfg E now (deferred_move now (mkWorld a [])))))).
    intros w4 [= <- <-]. done. }
  destruct Ht as (w2 & w4 & Hw2 & Ht & -> & ->). destruct (Ht Hl') as (S3 & I3 & d & O3).
  rewrite producers_state in S3. pose proof S3 as S2. rewrite Hw2 in S2. apply unconfirmed_linked in S2. rewrite S2 in Hw2.
  destruct (producers_served w2 S3) as (_ & Hc & Hg). rewrite I3.
  assert (Hin : EIdr ∈ out (serve_gs_idr now (serve_chain_break now w2)) -> EIdr ∈ out w4)
    by (intros Hx; rewrite O3; apply elem_of_app; by left).
  unfold chain_wanted, too_soon in *. rewrite Hw2, Hi in Hc, Hg. rewrite <- Hw2 in Hc, Hg.
  split; intros Hp; [destruct (Hc Hp) as [[? ?]|] | destruct (Hg Hp) as [[? ?]|]]; auto.
Qed.
End Served.

(** C13. Key frames are paced and none that was asked for is forgotten. Over any sequence of calls
    with a clock that does not run backwards, two key frames requested of the encoder are at least
    100 ms apart. And at any tick that finds and leaves the agent linked, a chain break or a
    pending request of the ground station is either served by a key frame, or still pending with
    the pacer's reason: less than 100 ms since the last key frame or, for a chain break, less than
    a second since the last such one. *)
Theorem idr_paced_and_served (cfg : Config) (start_ch : Z) (a0 a a' : Agent) (tr : list Event) (E : Env) (now : Z)
    (h : RadioHealth) (es : list Effect) :
  init cfg start_ch = Some a0 -> history cfg a0 tr a ->
  StronglySorted Z.le (clocks tr) -> Forall (in_width 64) (clocks tr) ->
  step cfg E (InTick now h) a = Some (a', es) -> ag_state a = LINKED -> ag_state a' = LINKED ->
  ForallOrdPairs gap (idr_times tr) /\
  (chain_wanted a = true ->
     (EIdr ∈ es /\ chain_idr_pending (idr a') = false) \/ (chain_idr_pending (idr a') = true /\ too_soon now a true)) /\
  (idr_gs_pending (idr a) = true ->
     (EIdr ∈ es /\ idr_gs_pending (idr a') = false) \/ (idr_gs_pending (idr a') = true /\ too_soon now a false)).
Proof.
  intros Hi Hh Hso Hf Hs Hl Hl'. split; [| by eapply tick_served].
  assert (H0 : last_idr_ms (idr a0) = None) by (unfold init in Hi; by apply bind_Some in Hi as (c & _ & [= <-])).
  by destruct (spaced_pairs _ _ (proj1 (history_idr _ _ _ _ H0 Hh Hso Hf))).
Qed.
