(* ===== verification/RcAgentLink.v ===== *)
(** * RcAgentLink: a silent ground station is noticed

    Linked means heard: a tick that leaves the agent linked has an accepted frame no older than
    the failsafe time behind it.  Once that time has passed the tick leaves the link, forgets the
    pairs, and no feedback frame is accepted until a new pair is offered. *)
From S2P Require Import Prelude Bytes SipHash SwConfig Profile RcProto RcPolicy RcAgent RcAgentSound RcAgentInv RcAgentProps RcAgentIdr.

Section Link.
Context (cfg : Config) (E : Env) (now : Z) (h : RadioHealth).

(** The state and the time of the last feedback. *)
Definition link_of (a : Agent) : State * option Z := (ag_state a, last_fb a).

(** The part of a tick after the link timers. *)
Definition tick_rest (w : World) : World :=
  let '(force_policy, w) := take_rebuilt w in
  let w := take_ldpc w in
  let w := intake_arm_state cfg E now w in
  let w := if force_policy && negb (policy_ran now (ag w)) then run_bitrate_policy cfg E now true w else w in
  let w := reassert cfg E now w in
  run_congestion_guard now h w.

Lemma tick_tail_eq w : tick_tail cfg E now h w = tick_rest (link_timers cfg E now w).
Proof. reflexivity. Qed.

Lemma policy_link f w : link_of (ag (run_bitrate_policy cfg E now f w)) = link_of (ag w).
Proof. run_policy. reflexivity. Qed.

Lemma tick_rest_link w : link_of (ag (tick_rest w)) = link_of (ag w).
Proof.
  assert (Htl : forall w, link_of (ag (take_ldpc w)) = link_of (ag w)) by (intros; open_stage; reflexivity).
  assert (Ham : forall w, link_of (ag (intake_arm_state cfg E now w)) = link_of (ag w)) by (intros; open_stage; reflexivity).
  assert (Hg : forall w, link_of (ag (run_congestion_guard now h w)) = link_of (ag w)) by (intros; open_stage; reflexivity).
  assert (Htr : link_of (ag (snd (take_rebuilt w))) = link_of (ag w))
    by (unfold take_rebuilt; cbn zeta; destruct (rebuilt_pending (knobs (ag w))); reflexivity).
  unfold tick_rest. destruct (take_rebuilt w) as [f w1]. cbn [snd] in Htr. rewrite Hg. unfold reassert. cbn zeta.
  assert (H : link_of (ag (intake_arm_state cfg E now (take_ldpc w1))) = link_of (ag w)) by (rewrite Ham, Htl; exact Htr).
  repeat case_match; rewrite ?policy_link; exact H.
Qed.

(** The silence the link timer measures. *)
Definition silent (a : Agent) : bool :=
  match last_fb a with Some t => u64 (failsafe_ms cfg) <=? sub64 now t | None => false end.

Lemma producers_link w : link_of (ag (serve_gs_idr now (serve_chain_break now w))) = link_of (ag w).
Proof.
  assert (H1 : forall w, link_of (ag (serve_chain_break now w)) = link_of (ag w)) by (intros; open_stage; reflexivity).
  assert (H2 : forall w, link_of (ag (serve_gs_idr now w)) = link_of (ag w)) by (intros; open_stage; reflexivity).
  by rewrite H2, H1.
Qed.

Lemma producers_sessions w :
  ses_kept w (serve_gs_idr now (serve_chain_break now w)).
Proof.
  assert (H1 : forall w, ses_kept w (serve_chain_break now w)) by (intros; open_stage; kept).
  assert (H2 : forall w, ses_kept w (serve_gs_idr now w)) by (intros; open_stage; kept).
  eapply ses_kept_trans; [apply H1 | apply H2].
Qed.

(** What a tick does to a linked agent: it stays, heard recently; or the link is gone. *)
Lemma tick_linked a a' es :
  step cfg E (InTick now h) a = Some (a', es) -> ag_state a' = LINKED ->
  ag_state a = LINKED /\ last_fb a' = last_fb a /\ silent a = false.
Proof.
  unfold step. cbn [call mbind option_bind]. rewrite tick_eq. cbn zeta.
  set (w1 := deferred_move now (mkWorld a [])).
  assert (H1 : link_of (ag w1) = link_of a) by (unfold w1; open_stage; reflexivity).
  injection H1 as Hs Hf. rewrite Hs. intros H Hl.
  assert (Hw : exists w2 w4, w2 = unconfirmed_move cfg E now w1 /\ ag_state a <> BOOT /\
    w4 = tick_rest (link_timers cfg E now (serve_gs_idr now (serve_chain_break now w2))) /\ a' = ag w4).
  { eexists _, _. split; [reflexivity |]. rewrite <- tick_tail_eq.
    destruct (ag_state a) eqn:Ha.
    1: { exfalso. revert H. generalize (apply_max_range cfg E now w1). intros w4 [= <- _]. discriminate Hl. }
    all: split; [done |]; split; [reflexivity |]; revert H;
      generalize (tick_tail cfg E now h (serve_gs_idr now (serve_chain_break now (unconfirmed_move cfg E now w1))));
      by intros w4 [= <- _]. }
  destruct Hw as (w2 & w4 & Hw2 & Hb & Hw4 & ->). clear H.
  pose proof (tick_rest_link (link_timers cfg E now (serve_gs_idr now (serve_chain_break now w2)))) as Hr.
  rewrite <- Hw4 in Hr. injection Hr as Hr1 Hr2. rewrite Hl in Hr1.
  pose proof (producers_link w2) as Hp. injection Hp as Hp1 Hp2.
  set (w3 := serve_gs_idr now (serve_chain_break now w2)) in *.
  unfold link_timers in Hr1, Hr2. cbn zeta in Hr1, Hr2.
  destruct (ag_state (ag w3)) eqn:H3; try congruence.
  - assert (H21 : w2 = w1) by (rewrite Hw2; apply unconfirmed_linked; congruence). rewrite H21 in Hp1, Hp2.
    split; [congruence |]. unfold silent. rewrite <- Hf, <- Hp2.
    destruct (last_fb (ag w3)) as [t|] eqn:Hf3; [| split; [congruence | done]].
    destruct (u64 (failsafe_ms cfg) <=? sub64 now t); [discriminate Hr1 |]. split; [congruence | done].
  - destruct (last_fb (ag w3)) as [t|]; [| congruence]. destruct (_ <=? _); [discriminate Hr1 | congruence].
Qed.
End Link.

(** ** Heard *)

(** The clocks of the accepted frames, oldest first. *)
Fixpoint heard_at (a : Agent) (tr : list Event) : list Z :=
  match tr with
  | [] => []
  | ev :: tr =>
      (if rcf_accepted (ev_post ev) =? rcf_accepted a then [] else option_list (clock_of (ev_in ev))) ++
      heard_at (ev_post ev) tr
  end.

Lemma heard_snoc a tr ev :
  heard_at a (tr ++ [ev]) = heard_at a tr ++
    (if rcf_accepted (ev_post ev) =? rcf_accepted (last_agent a tr) then [] else option_list (clock_of (ev_in ev))).
Proof.
  revert a. induction tr as [|e tr IH]; intros a; cbn [app heard_at]; [by rewrite app_nil_r |].
  rewrite IH, <- app_assoc. do 2 f_equal. unfold last_agent. rewrite last_cons. by destruct (last tr).
Qed.

(** An accepted frame links at its clock; any other call only keeps or loses the link. *)
Lemma step_heard cfg E i a a' es : step cfg E i a = Some (a', es) ->
  (rcf_accepted a' = rcf_accepted a /\ (ag_state a' = LINKED -> ag_state a = LINKED /\ last_fb a' = last_fb a)) \/
  (rcf_accepted a' = u64 (rcf_accepted a + 1) /\ exists body now, i = InFrame body now /\ last_fb a' = Some now).
Proof.
  destruct i.
  2: { intros H. left. split; [| intros Hl; destruct (tick_linked cfg E now_ms h a a' es H Hl) as (? & ? & _); done].
    unfold step in H. cbn [call mbind option_bind] in H. revert H.
    pose proof (proj1 (tick_keeps cfg E now_ms h (mkWorld a []))) as Hk. revert Hk.
    generalize (tick cfg E now_ms h (mkWorld a [])). by intros w Hk [= <- _]. }
  1: { unfold step. cbn [call]. unfold on_rc_frame.
    destruct (frame_type body) as [t|]; cbn [mbind option_bind]; [| done].
    destruct (t =? T_DISC); [destruct (parse_disc body) as [[d|]|] | destruct (t =? T_RCF); [destruct (parse_rcf body) as [[r|]|] |]];
      cbn [mbind option_bind]; try done; try (intros [= <- _]; by left).
    - unfold on_disc. cbn zeta. destruct (verify_control _ _ _) as [v|]; cbn [mbind option_bind]; [| done].
      intros [= <- _]. left. stage_cases; by split.
    - unfold on_rcf. cbn [ag]. destruct (verify_rcf cfg body r (current a)) as [[q|]|] eqn:Hc; cbn [mbind option_bind]; [| | done].
      + apply verified_admissible in Hc as [Hv _].
        pose proof (accept_then_apply cfg E r now_ms q (mkWorld a []) Hv) as (_ & _ & Ha).
        pose proof (proj2 (apply_rcf_state cfg E r now_ms (accept_rcf q (mkWorld a [])))) as Hf. revert Ha Hf.
        generalize (apply_rcf cfg E r now_ms (accept_rcf q (mkWorld a []))). intros w Ha Hf [= <- _]. right. split; [done |].
        by exists body, now_ms.
      + destruct (verify_rcf cfg body r (pending a)) as [[q|]|] eqn:Hp; cbn [mbind option_bind]; [| | done].
        * apply verified_admissible in Hp as [Hv _].
          destruct (promote_sessions a) as (F1 & _ & _ & F4). rewrite <- F1 in Hv.
          pose proof (accept_then_apply cfg E r now_ms q (mkWorld (promote a) []) Hv) as (_ & _ & Ha).
          pose proof (proj2 (apply_rcf_state cfg E r now_ms (accept_rcf q (mkWorld (promote a) [])))) as Hf.
          cbn [ag] in Ha. rewrite F4 in Ha.
          match goal with |- context [accept_rcf q ?w] => change w with (mkWorld (promote a) []) end. revert Ha Hf.
          generalize (apply_rcf cfg E r now_ms (accept_rcf q (mkWorld (promote a) []))). intros w Ha Hf [= <- _].
          right. split; [exact Ha |]. by exists body, now_ms.
        * intros [= <- _]. by left. }
  all: unfold step; cbn [call mbind option_bind]; intros [= <- _]; by left.
Qed.

Lemma history_heard cfg a0 tr a :
  ag_state a0 <> LINKED -> history cfg a0 tr a -> ag_state a = LINKED -> last_fb a = last (heard_at a0 tr).
Proof.
  intros H0. induction 1 as [a | a tr a' E i a'' es Hh IH Hs]; [done |].
  intros Hl. rewrite heard_snoc, (history_last _ _ _ _ Hh). cbn [ev_post ev_in].
  destruct (step_heard _ _ _ _ _ _ Hs) as [[Hr Hk] | (Hr & body & t & -> & Hf)].
  - rewrite Hr, Z.eqb_refl, app_nil_r. destruct (Hk Hl) as [Hl' ->]. by apply IH.
  - rewrite Hr. destruct (Z.eqb_spec (u64 (rcf_accepted a' + 1)) (rcf_accepted a')) as [Hx|_]; [mlia |].
    rewrite Hf. symmetry. apply last_snoc.
Qed.

(** With no pair at all, no frame links. *)
Lemma no_pair_no_link cfg E i a a' es :
  current a = Session0 -> pending a = Session0 -> ag_state a <> LINKED -> step cfg E i a = Some (a', es) ->
  ag_state a' <> LINKED /\ rcf_accepted a' = rcf_accepted a.
Proof.
  intros Hc Hp Hn Hs. destruct (step_heard _ _ _ _ _ _ Hs) as [[Hr Hk] | (Hr & body & t & -> & _)].
  - split; [| done]. intros Hl. by destruct (Hk Hl).
  - exfalso. unfold step in Hs. destruct (call cfg E (InFrame body t) (mkWorld a [])) as [w|] eqn:Hw; cbn in Hs; [| done].
    injection Hs as <- <-. destruct (call_pairs _ _ _ _ _ Hw) as (l & Hl & He). cbn [ag] in Hl, He. rewrite Hc, Hp in Hl.
    destruct l as [|v|b ctx]; cbn [event_of] in He; [rewrite He in Hr; mlia | destruct He as [He _]; rewrite He in Hr; mlia |].
    inversion Hl as [| | | | ? ? ? ? Ha | ? ? ? ? Ha]; by destruct Ha.
Qed.

(** C11. Linked means heard. After any sequence of calls, a tick at [now] that leaves the agent
    linked has the last accepted feedback frame less than [failsafe_ms] behind it.  A linked agent
    whose last accepted frame is [failsafe_ms] old or older is not linked after the next tick; then
    it holds no pair, so that whatever frame comes next -- each one of the lost link's, replayed --
    neither links it nor counts. *)
Theorem linked_is_heard (cfg : Config) (start_ch : Z) (a0 a a' : Agent) (tr : list Event) (E : Env) (now : Z)
    (h : RadioHealth) (es : list Effect) :
  init cfg start_ch = Some a0 -> history cfg a0 tr a -> step cfg E (InTick now h) a = Some (a', es) ->
  (ag_state a' = LINKED ->
     exists t, last (heard_at a0 tr) = Some t /\ sub64 now t < u64 (failsafe_ms cfg)) /\
  (ag_state a = LINKED -> (forall t, last (heard_at a0 tr) = Some t -> u64 (failsafe_ms cfg) <= sub64 now t) ->
     ag_state a' <> LINKED /\ current a' = Session0 /\ pending a' = Session0 /\
     forall E' body now' a'' es', step cfg E' (InFrame body now') a' = Some (a'', es') ->
       ag_state a'' <> LINKED /\ rcf_accepted a'' = rcf_accepted a').
Proof.
  intros Hi Hh Hs.
  assert (H0 : ag_state a0 <> LINKED) by (unfold init in Hi; by apply bind_Some in Hi as (c & _ & [= <-])).
  assert (Hok : agent_ok cfg (effects (tr ++ [mkEvent E (InTick now h) es a'])) (mkWorld a' []))
    by (eapply history_ok; [exact Hi | by eapply history_snoc]).
  assert (Hok0 : agent_ok cfg (effects tr) (mkWorld a [])) by (by eapply history_ok).
  pose proof (lo_state _ (ao_link _ _ _ Hok)) as Hst. pose proof (lo_state _ (ao_link _ _ _ Hok0)) as Hst0. cbn in Hst, Hst0.
  assert (Hfb : ag_state a = LINKED -> exists t, last_fb a = Some t /\ last (heard_at a0 tr) = Some t).
  { intros Hl. rewrite <- (history_heard _ _ _ _ H0 Hh Hl). rewrite Hl in Hst0. destruct Hst0 as (_ & _ & _ & t & Ht).
    by exists t. }
  split.
  - intros Hl'. destruct (tick_linked _ _ _ _ _ _ _ Hs Hl') as (Hl & _ & Hsi). destruct (Hfb Hl) as (t & Ht & Hl0).
    exists t. split; [done |]. unfold silent in Hsi. rewrite Ht in Hsi. by apply Z.leb_gt.
  - intros Hl Ho. destruct (Hfb Hl) as (t & Ht & Hl0). assert (Hn : ag_state a' <> LINKED).
    { intros Hl'. destruct (tick_linked _ _ _ _ _ _ _ Hs Hl') as (_ & _ & Hsi).
      unfold silent in Hsi. rewrite Ht in Hsi. apply Z.leb_gt in Hsi. specialize (Ho t Hl0). lia. }
    assert (Hc : current a' = Session0 /\ pending a' = Session0).
    { pose proof (tick_keeps cfg E now h (mkWorld a [])) as [_ Hk]. unfold step in Hs. cbn [call mbind option_bind] in Hs.
      revert Hk Hs. generalize (tick cfg E now h (mkWorld a [])). intros w Hk [= Hw _]. rewrite Hw in Hk.
      destruct Hk as [[Hk _] | Hk]; [| exact Hk]. cbn in Hk. exfalso. rewrite Hl in Hst0. rewrite <- Hk in Hst0.
      destruct (ag_state a'); try done; destruct Hst as [_ Hst], Hst0 as (_ & Hst0 & _); congruence. }
    destruct Hc as [Hc Hp]. split; [exact Hn |]. split; [exact Hc |]. split; [exact Hp |].
    intros E' body now' a'' es' Hs'. by apply (no_pair_no_link cfg E' (InFrame body now') a' a'' es').
Qed.
