(* ===== verification/RcAgentEncoder.v ===== *)
(** * RcAgentEncoder: the agent's memory of the encoder

    A verb the encoder refused must not be remembered as applied, or the encoder would stay at
    the old value for good.  The latches are exactly what the encoder took, and a refusal is
    retried at the next tick. *)
From S2P Require Import Prelude Bytes SipHash SwConfig Profile RcProto RcPolicy RcAgent RcAgentSound RcAgentInv.

(** The bitrate and frame rate the encoder last took (0: no frame rate yet). *)
Definition enc_step (s : option Z * Z) (e : Effect) : option Z * Z :=
  match e with
  | EBitrate k true => (Some k, snd s)
  | EFps f true => (fst s, f)
  | _ => s
  end.

Definition enc_state (es : list Effect) : option Z * Z := fold_left enc_step es (None, 0).

Lemma enc_state_snoc es e : enc_state (es ++ [e]) = enc_step (enc_state es) e.
Proof. unfold enc_state. by rewrite fold_left_app. Qed.

(** Opens a stage without its policy runs. *)
Ltac open_calls :=
  autounfold with stages; cbn zeta;
  repeat (match goal with
          | |- context [if ?b then _ else _] => destruct b
          | |- context [match ?o with Some _ => _ | None => _ end] => destruct o
          | |- context [match ?s with BOOT => _ | RENDEZVOUS => _ | LINKED => _ | FAILSAFE => _ end] => destruct s
          end; cbn zeta iota).

Section Mirror.
Context (cfg : Config) (E : Env) (prev : list Effect).

Definition mirror (w : World) : Prop :=
  (last_bitrate_kbps (pol (ag w)), commanded_fps (pol (ag w))) = enc_state (prev ++ out w).

(** One effect more, and the latches as it leaves the encoder. *)
Lemma mirror_snoc w w' e :
  out w' = out w ++ [e] ->
  (last_bitrate_kbps (pol (ag w')), commanded_fps (pol (ag w'))) =
    enc_step (last_bitrate_kbps (pol (ag w)), commanded_fps (pol (ag w))) e ->
  mirror w -> mirror w'.
Proof. unfold mirror. intros Ho Hp Hm. by rewrite Ho, app_assoc, enc_state_snoc, <- Hm. Qed.

(** Effects that leave the encoder's rate as it was. *)
Definition rate_kept (es es' : list Effect) : Prop := enc_state (prev ++ es') = enc_state (prev ++ es).

Lemma rate_kept_refl es : rate_kept es es.
Proof. done. Qed.

Lemma rate_kept_snoc es es' e : rate_kept es es' -> (forall s, enc_step s e = s) -> rate_kept es (es' ++ [e]).
Proof. unfold rate_kept. intros H Hq. by rewrite app_assoc, enc_state_snoc, Hq. Qed.

Lemma mirror_same w w' :
  last_bitrate_kbps (pol (ag w')) = last_bitrate_kbps (pol (ag w)) ->
  commanded_fps (pol (ag w')) = commanded_fps (pol (ag w)) -> rate_kept (out w) (out w') -> mirror w -> mirror w'.
Proof. unfold mirror, rate_kept. by intros -> -> ->. Qed.

Lemma push_fps_mirror force w : mirror w -> mirror (snd (push_fps cfg E force w)).
Proof.
  intros Hm. unfold push_fps, verb. cbn zeta. destruct (_ || _); [| done]. destruct (force || _); [| done].
  cbn zeta iota. destruct (ok E _); (eapply (mirror_snoc w); [reflexivity | reflexivity | exact Hm]).
Qed.

Lemma push_bitrate_mirror now force k w : mirror w -> mirror (snd (push_bitrate E now force k w)).
Proof.
  intros Hm. unfold push_bitrate, verb. cbn zeta. destruct (force || _ || _); [| done].
  cbn zeta iota. destruct (ok E _); (eapply (mirror_snoc w); [reflexivity | reflexivity | exact Hm]).
Qed.

Lemma push_roi_mirror k w : mirror w -> mirror (snd (push_roi cfg E k w)).
Proof.
  intros Hm. unfold push_roi, verb. cbn zeta. destruct (negb _); [| done].
  cbn zeta iota. destruct (ok E _); (eapply (mirror_snoc w); [reflexivity | reflexivity | exact Hm]).
Qed.

Lemma policy_mirror now force w : mirror w -> mirror (run_bitrate_policy cfg E now force w).
Proof.
  intros Hm. unfold run_bitrate_policy. cbn zeta.
  set (w1 := w {{ ag->pol->last_policy_ms := Some now }}).
  assert (H1 : mirror w1) by exact Hm.
  pose proof (push_fps_mirror force w1 H1) as H2. destruct (push_fps cfg E force w1) as [f1 w2].
  pose proof (push_bitrate_mirror now force (target_kbps cfg E (ag w1)) w2 H2) as H3.
  destruct (push_bitrate E now force _ w2) as [f2 w3].
  pose proof (push_roi_mirror (target_kbps cfg E (ag w1)) w3 H3) as H4. destruct (push_roi cfg E _ w3) as [f3 w4].
  exact H4.
Qed.

Ltac quiet :=
  first [ exact (rate_kept_refl _) | refine (rate_kept_snoc _ _ _ _ _); [quiet | by intros []] ].

Ltac mirror_solve Hm :=
  first [ exact Hm
        | (refine (mirror_same _ _ _ _ _ Hm); [reflexivity | reflexivity | quiet])
        | match goal with
          | |- context [run_bitrate_policy ?c ?e ?t ?f ?w] =>
              refine (mirror_same (run_bitrate_policy c e t f w) _ _ _ _ _); [reflexivity | reflexivity | quiet |];
              apply policy_mirror; mirror_solve Hm
          end ].

Ltac mirror_stage := intros ? K; intros; revert K; open_calls; intros K; mirror_solve K.

Lemma tick_mirror now h w : mirror w -> mirror (tick cfg E now h w).
Proof.
  intros Hw. revert w Hw. apply (tick_stages cfg E mirror).
  - mirror_stage.
  - mirror_stage.
  - mirror_stage.
  - mirror_stage.
  - mirror_stage.
  - mirror_stage.
  - mirror_stage.
  - mirror_stage.
  - mirror_stage.
  - mirror_stage.
  - mirror_stage.
Qed.

Lemma apply_rcf_mirror r now w : mirror w -> mirror (apply_rcf cfg E r now w).
Proof.
  intros Hw. apply (apply_rcf_stages cfg E mirror); [intros lad; revert w Hw | | | | | | |]; mirror_stage.
Qed.

Lemma accept_mirror q w : mirror w -> mirror (accept_rcf q w).
Proof. revert w. mirror_stage. Qed.

Lemma promote_mirror w : mirror w -> mirror (w {{ ag := promote (ag w) }}).
Proof. intros K. unfold promote. open_calls; mirror_solve K. Qed.

Lemma call_mirror i w w' : mirror w -> call cfg E i w = Some w' -> mirror w'.
Proof.
  intros Hw. destruct i; cbn [call].
  1: { unfold on_rc_frame. destruct (frame_type body) as [t|]; cbn [mbind option_bind]; [| done].
    destruct (t =? T_DISC); [destruct (parse_disc body) as [[d|]|] | destruct (t =? T_RCF); [destruct (parse_rcf body) as [[r|]|] |]];
      cbn [mbind option_bind]; try done; try (by intros [= <-]).
    - unfold on_disc. cbn zeta. destruct (verify_control _ _ _) as [v|]; cbn [mbind option_bind]; [| done].
      intros [= <-]. open_calls; mirror_solve Hw.
    - unfold on_rcf. destruct (verify_rcf cfg body r (current (ag w))) as [[q|]|]; cbn [mbind option_bind]; [| | done].
      + intros [= <-]. by apply apply_rcf_mirror, accept_mirror.
      + destruct (verify_rcf cfg body r (pending (ag w))) as [[q|]|]; cbn [mbind option_bind]; [| | done]; intros [= <-].
        * by apply apply_rcf_mirror, accept_mirror, promote_mirror.
        * mirror_solve Hw. }
  1: { intros [= <-]. by apply tick_mirror. }
  all: intros [= <-]; mirror_solve Hw.
Qed.
End Mirror.

Lemma history_mirror cfg a0 tr a :
  last_bitrate_kbps (pol a0) = None -> commanded_fps (pol a0) = 0 -> history cfg a0 tr a ->
  (last_bitrate_kbps (pol a), commanded_fps (pol a)) = enc_state (effects tr).
Proof.
  intros H1 H2. induction 1 as [a | a tr a' E i a'' es Hh IH Hs]; [by rewrite H1, H2 |].
  rewrite effects_snoc. cbn [ev_out]. unfold step in Hs.
  destruct (call cfg E i (mkWorld a' [])) as [w|] eqn:Hw; cbn in Hs; [| done]. injection Hs as <- <-.
  refine (call_mirror cfg E (effects tr) i _ w _ Hw). unfold mirror. cbn. rewrite app_nil_r. by apply IH.
Qed.

(** ** Retry *)

Section Retry.
Context (cfg : Config) (E : Env) (now : Z) (h : RadioHealth).

Definition pushed (w : World) : Prop := exists k took, EBitrate k took ∈ out w.

Lemma pushed_grow w w' : pushed w -> (exists es, out w' = out w ++ es) -> pushed w'.
Proof. intros (k & took & H) [es Ho]. exists k, took. rewrite Ho. apply elem_of_app. by left. Qed.

(** A forced run asks the encoder for the bitrate, whatever it asked before. *)
Lemma forced_pushes w : pushed (run_bitrate_policy cfg E now true w).
Proof.
  unfold run_bitrate_policy. cbn zeta. set (w1 := w {{ ag->pol->last_policy_ms := Some now }}).
  destruct (push_fps cfg E true w1) as [f1 w2].
  assert (H : pushed (snd (push_bitrate E now true (target_kbps cfg E (ag w1)) w2))).
  { unfold push_bitrate, verb. cbn zeta. cbn [orb]. cbn iota.
    exists (target_kbps cfg E (ag w1)), (ok E (length (out w2))).
    destruct (ok E (length (out w2))); apply elem_of_app; right; apply list_elem_of_here. }
  destruct (push_bitrate E now true _ w2) as [f2 w3]. cbn [snd] in H.
  destruct (push_roi_frame cfg E (target_kbps cfg E (ag w1)) w3) as (p & es & He & _).
  destruct (push_roi cfg E _ w3) as [f3 w4]. cbn [snd] in He.
  apply (pushed_grow w3); [exact H |]. exists es. by rewrite He.
Qed.

(** Until the policy has run this tick, the refusal is remembered. *)
Definition due (w : World) : Prop :=
  pushed w \/ (verb_apply_failed (pol (ag w)) = true /\ policy_ran now (ag w) = false).

Lemma due_same w w' : pol (ag w') = pol (ag w) -> (exists es, out w' = out w ++ es) -> due w -> due w'.
Proof.
  intros Hp Ho [H | [H1 H2]]; [left; by eapply pushed_grow | right]. unfold policy_ran in *. by rewrite Hp.
Qed.

Ltac more := first [ (exists []; rewrite app_nil_r; reflexivity) | (eexists; reflexivity)
                   | (eexists; rewrite <- app_assoc; reflexivity) ].

Ltac due_stage :=
  intros ? K; intros; revert K;
  open_calls; intros K;
  first [ exact K
        | (refine (due_same _ _ _ _ K); [reflexivity | more])
        | match goal with
          | |- context [run_bitrate_policy ?c ?e ?t ?f ?w] =>
              left; refine (pushed_grow (run_bitrate_policy c e t f w) _ _ _); [apply forced_pushes | more]
          end ].

Lemma reassert_pushes w : due w -> pushed (reassert cfg E now w).
Proof.
  unfold reassert. cbn zeta. intros [H | [H1 H2]].
  - destruct (negb _); [| done]. destruct (_ || _); [apply forced_pushes | done].
  - rewrite H2, H1. cbn. apply forced_pushes.
Qed.

Lemma guard_pushed w : pushed w -> pushed (run_congestion_guard now h w).
Proof.
  intros H. assert (Hg : exists es, out (run_congestion_guard now h w) = out w ++ es) by (open_stage; more).
  by apply (pushed_grow w).
Qed.

Lemma tick_retries w : ag_state (ag w) <> BOOT -> due w -> pushed (tick cfg E now h w).
Proof.
  intros Hb Hw. assert (H1 : due (deferred_move now w)) by (clear Hb; revert w Hw; due_stage).
  assert (Hs : ag_state (ag (deferred_move now w)) = ag_state (ag w)) by (open_stage; reflexivity).
  assert (Hunc : forall w, due w -> due (unconfirmed_move cfg E now w)) by due_stage.
  assert (Hch : forall w, due w -> due (serve_chain_break now w)) by due_stage.
  assert (Hgs : forall w, due w -> due (serve_gs_idr now w)) by due_stage.
  assert (Hlt : forall w, due w -> due (link_timers cfg E now w)) by due_stage.
  assert (Htr : forall w, due w -> due (snd (take_rebuilt w))) by due_stage.
  assert (Htl : forall w, due w -> due (take_ldpc w)) by due_stage.
  assert (Ham : forall w, due w -> due (intake_arm_state cfg E now w)) by due_stage.
  assert (Hrest : pushed (let w := unconfirmed_move cfg E now (deferred_move now w) in
                  let w := serve_chain_break now w in let w := serve_gs_idr now w in
                  let w := link_timers cfg E now w in let '(force_policy, w) := take_rebuilt w in
                  let w := take_ldpc w in let w := intake_arm_state cfg E now w in
                  let w := if force_policy && negb (policy_ran now (ag w)) then run_bitrate_policy cfg E now true w else w in
                  let w := reassert cfg E now w in run_congestion_guard now h w)).
  { cbn zeta. specialize (Htr _ (Hlt _ (Hgs _ (Hch _ (Hunc _ H1))))). destruct (take_rebuilt _) as [force w1].
    apply guard_pushed, reassert_pushes. specialize (Ham _ (Htl _ Htr)).
    destruct (force && _); [left; apply forced_pushes | exact Ham]. }
  unfold tick. cbn zeta. rewrite <- Hs in Hb. destruct (ag_state (ag (deferred_move now w))); [done | exact Hrest..].
Qed.
End Retry.

(** C14. The agent's memory of the encoder is exact. After any sequence of calls, and whatever the
    encoder accepted or refused, the bitrate and the frame rate the agent remembers are those the
    encoder last took, never one it refused; and when a run of the policy had a refused verb, the
    next tick at another clock asks the encoder again, in every state past BOOT. *)
Theorem encoder_memory_exact (cfg : Config) (start_ch : Z) (a0 a a' : Agent) (tr : list Event) (E : Env) (now : Z)
    (h : RadioHealth) (es : list Effect) :
  init cfg start_ch = Some a0 -> history cfg a0 tr a ->
  (last_bitrate_kbps (pol a), commanded_fps (pol a)) = enc_state (effects tr) /\
  (ag_state a <> BOOT -> verb_apply_failed (pol a) = true -> policy_ran now a = false ->
   step cfg E (InTick now h) a = Some (a', es) -> exists k took, EBitrate k took ∈ es).
Proof.
  intros Hi Hh.
  assert (H0 : last_bitrate_kbps (pol a0) = None /\ commanded_fps (pol a0) = 0)
    by (unfold init in Hi; by apply bind_Some in Hi as (c & _ & [= <-])).
  split; [by apply (history_mirror cfg a0 tr a); [apply H0 | apply H0 |] |].
  intros Hb Hf Hp Hs. pose proof (tick_retries cfg E now h (mkWorld a []) Hb (or_intror (conj Hf Hp))) as H.
  unfold step in Hs. cbn [call mbind option_bind] in Hs. revert H Hs.
  generalize (tick cfg E now h (mkWorld a [])). by intros w H [= _ <-].
Qed.
