(* ===== verification/RcAgentGuard.v ===== *)
(** * RcAgentGuard: which NACK and MAVLink frames the drone accepts (drone/src/rc_agent.cpp)

    The RX and the MAV thread check a frame's tag against the pair the agent last published, and
    its counter against one word per domain, keyed by the pair.  Each load of the published word
    is an argument of its own: the agent may publish between two of them. *)
From S2P Require Import Prelude Bytes SwConfig SipHash RcProto RcProtoProps Profile RcPolicy RcAgent RcAgentSound RcAgentInv RcAgentProps.

(** What the two threads own, and what they count. *)
Record Counters := mkCounters {
  nack_last : Z;
  mav_last : Z;
  cal_last : Z;
  cal_run_session : Z;
  cal_late : Z;
  noted_reject : bool;
}.

Definition Counters0 : Counters := mkCounters 0 0 0 0 0 false.

(** The drone nonce of a published pair: the low half of the word. *)
Definition vtx_of (session : Z) : Z := Z.land session 4294967295.

(** The compare-and-swap loop.  [fails] lists what the failed exchanges found in the word. *)
Fixpoint advance_loop (key counter cur : Z) (fails : list Z) : option Z :=
  let last := if Z.shiftr cur 32 =? key then u32 cur else 0 in
  if counter <=? last then None
  else match fails with
       | [] => Some (Z.lor (Z.shiftl key 32) counter)
       | w :: fails => advance_loop key counter w fails
       end.

(** The word after the call, if the counter was accepted.  One thread writes a word, so its
    exchanges fail only spuriously: [spurious] times. *)
Definition advance_counter (word counter session : Z) (spurious : nat) : option Z :=
  if session =? 0 then None else advance_loop (vtx_of session) counter word (repeat word spurious).

Definition accept_session_counter (word counter session published : Z) (spurious : nat) : option Z :=
  if (session =? 0) || negb (session =? published) then None
  else advance_counter word counter session spurious.

Inductive NackCheck := NackOk (n : Nack) | NackMalformed | NackRejected.
Inductive MavCheck := MavOk (m : Mav) | MavOkLatched (m : Mav) | MavLateCal | MavMalformed | MavRejected.

Definition note_auth_reject (g : Counters) : Counters := g {{ noted_reject := true }}.

Section Guard.
Context (cfg : Config) (all_packets_are_cal : list Z -> bool).

Definition verifies_under (body : list Z) (session seq32 : Z) : option bool :=
  if session =? 0 then Some false
  else verify_control body (key cfg) (mkTagCtx (Z.shiftr session 32) (vtx_of session) seq32).

(** [check_nack]: [p1] and [p2] are what the loads of [verify_session_tagged] and of
    [accept_session_counter_] find published. *)
Definition check_nack (body : list Z) (p1 p2 : Z) (spurious : nat) (g : Counters) : option (NackCheck * Counters) :=
  r ← parse_nack body;
  match r with
  | None => Some (NackMalformed, g)
  | Some nk =>
      if negb (sid nk =? 0) then Some (NackMalformed, g)
      else
        v ← verifies_under body p1 (n_counter nk);
        match (if (v : bool) then accept_session_counter (nack_last g) (n_counter nk) p1 p2 spurious else None) with
        | Some w => Some (NackOk nk, g {{ nack_last := w }})
        | None => Some (NackRejected, note_auth_reject g)
        end
  end.

(** [check_mav]: [p1] is what [verify_session_tagged] finds published; [p2] what the next load
    finds, in [accept_session_counter_] or on the latched path. *)
Definition check_mav (body : list Z) (cal_run_open : bool) (p1 p2 : Z) (spurious : nat) (g : Counters)
    : option (MavCheck * Counters) :=
  r ← parse_mav body true;
  match r with
  | None => Some (MavMalformed, g)
  | Some m =>
      let cal_only := all_packets_are_cal (payload m) in
      let rejected := Some (MavRejected, note_auth_reject g) in
      v ← verifies_under body p1 (m_counter m);
      if (v : bool) then
        if cal_only then
          match advance_counter (cal_last g) (m_counter m) p1 spurious with
          | Some w => Some (MavOk m, g {{ cal_last := w ; cal_run_session := p1 }})
          | None => rejected
          end
        else
          match accept_session_counter (mav_last g) (m_counter m) p1 p2 spurious with
          | Some w => Some (MavOk m, g {{ mav_last := w }})
          | None => rejected
          end
      else
        let run := cal_run_session g in
        if cal_only && negb (run =? 0) && negb (run =? p2) then
          v ← verifies_under body run (m_counter m);
          if (v : bool) then
            if cal_run_open then
              match advance_counter (cal_last g) (m_counter m) run spurious with
              | Some w => Some (MavOkLatched m, g {{ cal_last := w ; cal_run_session := run }})
              | None => rejected
              end
            else Some (MavLateCal, g {{ cal_late ::= (fun c => u64 (c + 1)) }})
          else rejected
        else rejected
  end.
End Guard.

(** ** Proofs: one word per domain remembers enough

    A pair, once left, is never published again: its nonce was drawn for it alone.  So the word
    that keeps the last accepted counter of the last pair is as good as a memory of every frame
    ever accepted. *)
From Stdlib Require Import Sorting.Sorted.

(** ** Pairs do not return *)

(** A value other than 0, once left, does not come back. *)
Definition no_return (ks : list Z) : Prop :=
  forall i j k, (i <= j <= k)%nat -> nth i ks 0 = nth k ks 0 -> nth k ks 0 <> 0 -> nth j ks 0 = nth k ks 0.

Lemma nth_snoc_guard ks x n :
  nth n (ks ++ [x]) 0 = if (n <? length ks)%nat then nth n ks 0 else if (n =? length ks)%nat then x else 0.
Proof.
  destruct (Nat.ltb_spec n (length ks)); [by rewrite app_nth1 |]. rewrite app_nth2 by done.
  destruct (Nat.eqb_spec n (length ks)) as [-> | Hn]; [by rewrite Nat.sub_diag |].
  apply nth_overflow. cbn. lia.
Qed.

Lemma nth_elem ks n : nth n ks 0 <> 0 -> nth n ks 0 ∈ ks.
Proof.
  intros Hn. apply list_elem_of_In, nth_In. destruct (Nat.lt_ge_cases n (length ks)) as [H | H]; [done |].
  by rewrite nth_overflow in Hn.
Qed.

Lemma no_return_snoc ks x :
  no_return ks -> (last ks = Some x \/ x = 0 \/ x ∉ ks) -> no_return (ks ++ [x]).
Proof.
  intros H Hx i j k Hij. rewrite !nth_snoc_guard.
  destruct (Nat.ltb_spec k (length ks)).
  { rewrite (proj2 (Nat.ltb_lt i _)), (proj2 (Nat.ltb_lt j _)) by lia. by apply H. }
  destruct (Nat.eqb_spec k (length ks)) as [-> |]; [| done].
  destruct (Nat.ltb_spec i (length ks)); intros He Hz.
  - destruct Hx as [Hx | [-> | Hx]]; [| done |].
    + rewrite last_lookup in Hx. pose proof (nth_lookup_Some _ _ 0 _ Hx) as Hl.
      destruct (Nat.ltb_spec j (length ks)).
      * rewrite <- Hl in He |- *. apply (H i j (pred (length ks))); [lia | exact He | congruence].
      * by rewrite (proj2 (Nat.eqb_eq j _)) by lia.
    + exfalso. apply Hx. rewrite <- He. apply nth_elem. by rewrite He.
  - rewrite (proj2 (Nat.ltb_ge j _)), (proj2 (Nat.eqb_eq j _)) by lia. done.
Qed.

(** ** What the agent publishes *)

Definition publications (a0 : Agent) (tr : list Event) : list Z :=
  published_session a0 :: map (fun ev => published_session (ev_post ev)) tr.

Lemma publications_snoc a0 tr ev : publications a0 (tr ++ [ev]) = publications a0 tr ++ [published_session (ev_post ev)].
Proof. unfold publications. by rewrite map_app. Qed.

Definition pair_key (s : Session) : Z := if s_valid s then s_vtx s else 0.

Definition good_nonce (v : Z) : Prop := 0 < v < 2 ^ 32.

Lemma word_key s : good_nonce (s_vtx s) \/ s_valid s = false -> vtx_of (session_word s) = pair_key s.
Proof.
  unfold session_word, pair_key, vtx_of. destruct (s_valid s); [| done]. intros [H | [=]].
  rewrite Z.land_lor_distr_l. replace (Z.land (Z.shiftl (s_vrx s) 32) 4294967295) with 0.
  - change 4294967295 with (Z.ones 32). rewrite land_ones_wrap by done. apply wrap_small. unfold good_nonce in H. unfold in_width. lia.
  - symmetry. apply Z.bits_inj'. intros n Hn. rewrite Z.land_spec, Z.bits_0, Z.shiftl_spec by done.
    change 4294967295 with (Z.ones 32). destruct (Z.lt_ge_cases n 32) as [H32 | H32].
    + by rewrite Z.testbit_neg_r by lia.
    + rewrite Z.ones_spec_high, andb_false_r by lia. done.
Qed.

(** What the pairing keeps of the keys published so far. *)
Record keys_inv (ks N : list Z) (c p : Session) : Prop := mkKeysInv {
  ki_no_return : no_return ks;
  ki_known : forall k, k ∈ ks -> k = 0 \/ k ∈ N;
  ki_last : last ks = Some (pair_key c);
  ki_current : s_valid c = true -> s_vtx c ∈ N;
  ki_pending : s_valid p = true -> s_vtx p ∈ N /\ s_vtx p ∉ ks;
}.

Lemma keys_same ks N N' c p c' p' :
  keys_inv ks N c p -> pair_key c' = pair_key c -> (s_valid c' = true -> s_vtx c' ∈ N') -> N ⊆ N' ->
  (s_valid p' = true -> s_vtx p' ∈ N' /\ s_vtx p' ∉ ks) ->
  keys_inv (ks ++ [pair_key c']) N' c' p'.
Proof.
  intros [H1 H2 H3 H4 H5] Hc Hc' Hs Hp. rewrite Hc. split.
  - apply no_return_snoc; [done | by left].
  - intros k [Hk | ->%list_elem_of_singleton]%elem_of_app; [destruct (H2 k Hk); auto |].
    apply last_Some_elem_of in H3. destruct (H2 _ H3); auto.
  - by rewrite last_snoc, Hc.
  - exact Hc'.
  - intros Hv. destruct (Hp Hv) as [P1 P2]. split; [done |]. intros [Hin | Hin%list_elem_of_singleton]%elem_of_app; [done |].
    apply P2. rewrite Hin. by apply last_Some_elem_of.
Qed.

Lemma keys_more ks N N' c p : N ⊆ N' -> keys_inv ks N c p -> keys_inv ks N' c p.
Proof.
  intros Hs [H1 H2 H3 H4 H5]. split; [done | | done | auto |].
  - intros k Hk. destruct (H2 k Hk); auto.
  - intros Hv. destruct (H5 Hv). auto.
Qed.

Lemma keys_step cfg ks N c p l c' p' :
  pair_step cfg (c, p) l (c', p') -> keys_inv ks N c p ->
  match l with
  | PairOffer v => v ∉ N -> good_nonce v -> keys_inv (ks ++ [pair_key c']) (N ++ [v]) c' p'
  | _ => keys_inv (ks ++ [pair_key c']) N c' p'
  end.
Proof.
  intros Hs Hi. pose proof Hi as [H1 H2 H3 H4 H5]. inversion Hs; subst; clear Hs.
  - by apply (keys_same _ N _ c' p').
  - split; [by apply no_return_snoc; [| right; left] | | by rewrite last_snoc | done | done].
    intros k [Hk | ->%list_elem_of_singleton]%elem_of_app; [auto | by left].
  - intros Hv Hg. assert (Hsub : N ⊆ N ++ [vtx]) by (intros x Hx; apply elem_of_app; by left).
    apply (keys_same _ N _ c' p); [done | done | auto | done |]. intros _. cbn. split; [apply elem_of_app; right; by left |].
    intros Hin. unfold good_nonce in Hg. destruct (H2 _ Hin); [lia | done].
  - by apply (keys_same _ N _ c' p).
  - apply (keys_same _ N _ c p'); try done; reflexivity.
  - match goal with H : admissible _ _ _ _ |- _ => destruct H as (Ha & _) end.
    destruct (H5 Ha) as [P1 P2].
    assert (Hk : pair_key (with_seq q p) = s_vtx p) by (change (pair_key p = s_vtx p); unfold pair_key; by rewrite Ha).
    split; rewrite ?Hk.
    + apply no_return_snoc; [done | by right; right].
    + intros k [Hk' | ->%list_elem_of_singleton]%elem_of_app; auto.
    + by rewrite last_snoc.
    + intros _. exact P1.
    + done.
Qed.

Lemma history_keys cfg a0 tr a :
  current a0 = Session0 -> pending a0 = Session0 -> history cfg a0 tr a ->
  NoDup (nonces tr) -> Forall good_nonce (nonces tr) ->
  keys_inv (pair_key (current a0) :: map (fun ev => pair_key (current (ev_post ev))) tr) (nonces tr) (current a) (pending a).
Proof.
  intros Hc Hp. induction 1 as [a | a tr a' E i a'' es Hh IH Hs].
  { intros _ _. rewrite Hc, Hp. split; cbn; try done.
    - intros i j k _ _. change (nth k [0] 0 <> 0 -> nth j [0] 0 = nth k [0] 0). destruct k as [|[|k]]; cbn; done.
    - intros k ->%list_elem_of_singleton. by left. }
  rewrite map_app, nonces_snoc, app_comm_cons. cbn [map ev_post ev_env ev_in]. intros Hn Hg.
  apply NoDup_app in Hn as (Hn & Hd & _). apply Forall_app in Hg as [Hg Hgv]. specialize (IH Hc Hp Hn Hg).
  unfold step in Hs. destruct (call cfg E i (mkWorld a' [])) as [w|] eqn:Hw; cbn in Hs; [| done]. injection Hs as <- <-.
  destruct (call_pairs cfg E i _ _ Hw) as (l & Hl & He). pose proof (keys_step _ _ _ _ _ _ _ _ Hl IH) as Hi.
  assert (Hsub : forall L, nonces tr ⊆ nonces tr ++ L) by (intros L x Hx; apply elem_of_app; by left).
  destruct l as [|v|body ctx]; cbn [event_of] in He.
  - by eapply keys_more; [apply Hsub |].
  - destruct He as [_ He]. rewrite He in Hd, Hgv |- *. cbn [option_list] in *. apply Hi; [| by apply Forall_inv in Hgv].
    intros Hin. apply (Hd v Hin). by left.
  - by eapply keys_more; [apply Hsub |].
Qed.

Lemma Forall_published cfg ch a0 tr a :
  init cfg ch = Some a0 -> history cfg a0 tr a ->
  publications a0 tr = session_word (current a0) :: map (fun ev => session_word (current (ev_post ev))) tr.
Proof.
  intros Hi Hh. induction Hh as [a | a tr a' E i a'' es Hh IH Hs].
  - unfold publications. cbn. f_equal. exact (lo_published _ (ao_link _ _ _ (init_ok cfg ch a Hi))).
  - rewrite publications_snoc, (IH Hi), map_app. cbn. do 2 f_equal.
    pose proof (history_snoc cfg _ _ _ _ _ _ _ Hh Hs) as Hh'. destruct (history_ok _ _ _ _ _ Hi Hh') as [Hok _].
    f_equal. exact (lo_published _ (ao_link _ _ _ Hok)).
Qed.

Lemma history_current cfg a0 tr a :
  current a0 = Session0 -> pending a0 = Session0 -> history cfg a0 tr a -> NoDup (nonces tr) -> Forall good_nonce (nonces tr) ->
  Forall (fun ev => good_nonce (s_vtx (current (ev_post ev))) \/ s_valid (current (ev_post ev)) = false) tr.
Proof.
  intros Hc Hp Hh Hn Hg. induction Hh as [|a tr a' E i a'' es Hh IH Hs]; [constructor |].
  pose proof (history_snoc cfg _ _ _ _ _ _ _ Hh Hs) as Hh'. pose proof (history_keys _ _ _ _ Hc Hp Hh' Hn Hg) as Hk.
  rewrite nonces_snoc in Hn, Hg. apply NoDup_app in Hn as (Hn' & _). apply Forall_app in Hg as [Hg' Hg''].
  apply Forall_app_2; [auto |]. constructor; [| constructor]. cbn.
  destruct (s_valid (current a'')) eqn:Hv; [left | by right].
  pose proof (ki_current _ _ _ _ Hk Hv) as Hin. rewrite nonces_snoc in Hin.
  exact (proj1 (Forall_forall _ _) (Forall_app_2 _ _ _ Hg' Hg'') _ Hin).
Qed.

(** The drone nonces of what is published, in order: none returns. *)
Lemma published_no_return cfg ch a0 tr a :
  init cfg ch = Some a0 -> history cfg a0 tr a -> NoDup (nonces tr) -> Forall good_nonce (nonces tr) ->
  no_return (map vtx_of (publications a0 tr)).
Proof.
  intros Hi Hh Hn Hg. destruct (init_sessions _ _ _ Hi) as [Hc Hp].
  rewrite (Forall_published _ _ _ _ _ Hi Hh). cbn [map].
  pose proof (history_current _ _ _ _ Hc Hp Hh Hn Hg) as Hcur.
  rewrite map_map, word_key by (right; by rewrite Hc).
  replace (map _ tr) with (map (fun ev => pair_key (current (ev_post ev))) tr).
  - exact (ki_no_return _ _ _ _ (history_keys _ _ _ _ Hc Hp Hh Hn Hg)).
  - apply map_ext_in. intros ev Hin. symmetry. apply word_key.
    apply list_elem_of_In in Hin. exact (proj1 (Forall_forall _ _) Hcur _ Hin).
Qed.

Lemma published_good cfg ch a0 tr a :
  init cfg ch = Some a0 -> history cfg a0 tr a -> NoDup (nonces tr) -> Forall good_nonce (nonces tr) ->
  Forall (fun w => w = 0 \/ good_nonce (vtx_of w)) (publications a0 tr).
Proof.
  intros Hi Hh Hn Hg. destruct (init_sessions _ _ _ Hi) as [Hc Hp].
  rewrite (Forall_published _ _ _ _ _ Hi Hh). constructor; [left; by rewrite Hc |].
  apply Forall_map. eapply Forall_impl; [exact (history_current _ _ _ _ Hc Hp Hh Hn Hg) |]. intros ev [H | H].
  - cbn. unfold session_word at 1. destruct (s_valid _) eqn:Hv; [right | by left].
    rewrite word_key by (by left). unfold pair_key. by rewrite Hv.
  - left. unfold session_word. by rewrite H.
Qed.

(** ** A memory of every accepted frame *)

(** The (nonce, counter) of each frame accepted, oldest first. *)
Abbreviation Memory := (list (Z * Z)).

Definition fresh (acc : Memory) (v c : Z) : bool :=
  (0 <? c) && forallb (fun x => negb (fst x =? v) || (snd x <? c)) acc.

Definition grows (x y : Z * Z) : Prop := fst x = fst y -> snd x < snd y.

Definition last_counter (word k : Z) : Z := if Z.shiftr word 32 =? k then u32 word else 0.

Lemma advance_loop_spurious k c word n :
  advance_loop k c word (repeat word n) =
  if c <=? last_counter word k then None else Some (Z.lor (Z.shiftl k 32) c).
Proof.
  unfold last_counter. induction n as [|n IH]; cbn [repeat advance_loop]; [done |].
  destruct (c <=? _); [done | exact IH].
Qed.

Lemma key_word k c : 0 <= k -> in_width 32 c ->
  Z.shiftr (Z.lor (Z.shiftl k 32) c) 32 = k /\ u32 (Z.lor (Z.shiftl k 32) c) = c.
Proof.
  intros Hk Hc. split; apply Z.bits_inj'; intros n Hn.
  - rewrite Z.shiftr_spec, Z.lor_spec, Z.shiftl_spec by lia. rewrite (in_width_testbit 32 c) by (done || lia).
    rewrite orb_false_r. f_equal. lia.
  - rewrite <- land_ones_wrap, Z.land_spec, Z.lor_spec, Z.shiftl_spec by lia. destruct (Z.lt_ge_cases n 32).
    + rewrite (Z.testbit_neg_r k) by lia. rewrite Z.ones_spec_low by lia. by rewrite andb_true_r.
    + rewrite Z.ones_spec_high by lia. rewrite andb_false_r. symmetry. by apply (in_width_testbit 32).
Qed.

(** What a word stands for. *)
Record word_ok (acc : Memory) (word : Z) : Prop := mkWordOk {
  wo_word : word = match last acc with Some (k, c) => Z.lor (Z.shiftl k 32) c | None => 0 end;
  wo_range : Forall (fun x => good_nonce (fst x) /\ 0 < snd x < 2 ^ 32) acc;
  wo_order : ForallOrdPairs grows acc;
}.

(** The frames of a pair are the last ones, if there are any. *)
Definition uppermost (acc : Memory) (k : Z) : Prop := forall x, x ∈ acc -> fst x = k -> fst <$> last acc = Some k.

Lemma word_fresh acc word k c :
  word_ok acc word -> uppermost acc k -> k <> 0 -> fresh acc k c = negb (c <=? last_counter word k).
Proof.
  intros [Hw Hr Ho] Hu Hk. unfold fresh, last_counter. destruct acc as [|[k0 c0] acc _] using rev_ind.
  { rewrite Hw. cbn. rewrite andb_true_r. destruct (_ =? _); [change (u32 0) with 0 |]; by rewrite Z.leb_antisym, negb_involutive. }
  rewrite last_snoc in Hw. apply Forall_app in Hr as [_ Hr%Forall_inv]. cbn in Hr. destruct Hr as [Hg Hc].
  destruct (key_word k0 c0) as [E1 E2]; [unfold good_nonce in Hg; lia | unfold in_width; lia |].
  rewrite <- Hw in E1, E2. rewrite E1, E2. rewrite Z.leb_antisym, negb_involutive.
  destruct (Z.eqb_spec k0 k) as [-> | Hne].
  - rewrite forallb_app. cbn. rewrite Z.eqb_refl. cbn. rewrite andb_true_r.
    destruct (Z.ltb_spec c0 c) as [Hlt | Hge]; [| by destruct (0 <? c), (forallb _ _)].
    rewrite (proj2 (Z.ltb_lt 0 c)) by lia. rewrite andb_true_r. cbn. apply forallb_forall. intros [k1 c1] Hin.
    cbn. destruct (Z.eqb_spec k1 k) as [-> |]; [| done]. cbn. apply Z.ltb_lt.
    enough (Hlt' : grows (k, c1) (k, c0)) by (specialize (Hlt' eq_refl); cbn in Hlt'; lia).
    apply list_elem_of_In in Hin. clear -Ho Hin. induction acc as [|x acc IH]; [by apply elem_of_nil in Hin |].
    cbn in Ho. inversion Ho as [| ? ? Hx Ho']; subst. apply elem_of_cons in Hin as [<- | Hin]; [| auto].
    apply Forall_app in Hx as [_ Hx%Forall_inv]. exact Hx.
  - assert (Hn : forallb (fun x => negb (fst x =? k) || (snd x <? c)) (acc ++ [(k0, c0)]) = true).
    { apply forallb_forall. intros x Hx%list_elem_of_In. destruct (Z.eqb_spec (fst x) k) as [He |]; [| done].
      specialize (Hu x Hx He). rewrite last_snoc in Hu. cbn in Hu. congruence. }
    by rewrite Hn, andb_true_r.
Qed.

Lemma forallb_fresh acc k c : fresh acc k c = true -> 0 < c /\ Forall (fun x => grows x (k, c)) acc.
Proof.
  unfold fresh. intros [H1%Z.ltb_lt H2]%andb_true_iff. split; [done |]. apply Forall_forall. intros x Hx He.
  apply list_elem_of_In in Hx. pose proof (proj1 (forallb_forall _ _) H2 x Hx) as H. cbn in He, H.
  rewrite He, Z.eqb_refl in H. cbn in H |- *. by apply Z.ltb_lt.
Qed.

(** The word decides as the memory does, and follows it. *)
Lemma advance_exact acc word session c n :
  word_ok acc word -> session <> 0 -> good_nonce (vtx_of session) -> in_width 32 c -> uppermost acc (vtx_of session) ->
  match advance_counter word c session n with
  | Some w => fresh acc (vtx_of session) c = true /\ word_ok (acc ++ [(vtx_of session, c)]) w
  | None => fresh acc (vtx_of session) c = false
  end.
Proof.
  intros Hw Hs Hg Hc Hu. unfold advance_counter. rewrite (proj2 (Z.eqb_neq _ _)) by done.
  rewrite advance_loop_spurious. pose proof (word_fresh _ _ _ c Hw Hu) as Hf.
  assert (vtx_of session <> 0) as Hz by (unfold good_nonce in Hg; lia). specialize (Hf Hz).
  destruct (c <=? _); [exact Hf |]. cbn in Hf. split; [done |]. apply forallb_fresh in Hf as [Hc0 Ho].
  destruct Hw as [_ Hr Ho']. split.
  - by rewrite last_snoc.
  - apply Forall_app_2; [done |]. constructor; [| constructor]. cbn. split; [done | unfold in_width in Hc; lia].
  - by apply ord_pairs_snoc.
Qed.

(** ** The counters on the wire *)

Lemma get32_some_width buf off v : bytes_ok buf -> get32 buf off = Some v -> in_width 32 v.
Proof.
  intros Hb. unfold get32.
  destruct (buf !! off) as [x0|] eqn:E0, (buf !! S off) as [x1|] eqn:E1, (buf !! S (S off)) as [x2|] eqn:E2,
    (buf !! S (S (S off))) as [x3|] eqn:E3; cbn [mbind option_bind]; try done.
  intros [= <-]. apply get32_width; (eapply Forall_lookup_1; [exact Hb | eassumption]).
Qed.

(** Walk the guards and reads of a parser that accepted. *)
Ltac parsed :=
  repeat match goal with
  | |- (if ?b then _ else _) = _ -> _ => destruct b
  | |- (?m ≫= _) = _ -> _ => let E := fresh "E" in destruct m eqn:E; cbn [mbind option_bind]
  end; try discriminate; intros [= <-].

Lemma nack_counter_width buf nk : bytes_ok buf -> parse_nack buf = Some (Some nk) -> in_width 32 (n_counter nk).
Proof. intros Hb. unfold parse_nack. cbn zeta. parsed. by eapply get32_some_width. Qed.

Lemma mav_counter_width buf tagged m : bytes_ok buf -> parse_mav buf tagged = Some (Some m) -> in_width 32 (m_counter m).
Proof. intros Hb. unfold parse_mav. cbn zeta. parsed. by eapply get32_some_width. Qed.

(** ** The specification: the two threads with that memory *)

(** One call of a thread: the frame, whether a calibration run is open, where in the sequence of
    publications its two loads fall, and how often its exchange fails spuriously. *)
Record Read := mkRead { rd_body : list Z; rd_open : bool; rd_at1 : nat; rd_at2 : nat; rd_spurious : nat }.

Record MavMemory := mkMavMemory { mav_acc : Memory; cal_acc : Memory; run_pair : Z }.

Section Spec.
Context (cfg : Config) (all_packets_are_cal : list Z -> bool) (pubs : list Z).

Definition pub (p : nat) : Z := nth p pubs 0.

Definition spec_nack (r : Read) (acc : Memory) : option (NackCheck * Memory) :=
  x ← parse_nack (rd_body r);
  match x with
  | None => Some (NackMalformed, acc)
  | Some nk =>
      if negb (sid nk =? 0) then Some (NackMalformed, acc)
      else
        let session := pub (rd_at1 r) in
        v ← verifies_under cfg (rd_body r) session (n_counter nk);
        if v && (session =? pub (rd_at2 r)) && fresh acc (vtx_of session) (n_counter nk)
        then Some (NackOk nk, acc ++ [(vtx_of session, n_counter nk)])
        else Some (NackRejected, acc)
  end.

Definition spec_mav (r : Read) (g : MavMemory) : option (MavCheck * MavMemory) :=
  x ← parse_mav (rd_body r) true;
  match x with
  | None => Some (MavMalformed, g)
  | Some m =>
      let session := pub (rd_at1 r) in
      let cal_only := all_packets_are_cal (payload m) in
      v ← verifies_under cfg (rd_body r) session (m_counter m);
      if (v : bool) then
        if cal_only then
          Some (if fresh (cal_acc g) (vtx_of session) (m_counter m)
                then (MavOk m, mkMavMemory (mav_acc g) (cal_acc g ++ [(vtx_of session, m_counter m)]) session)
                else (MavRejected, g))
        else
          Some (if (session =? pub (rd_at2 r)) && fresh (mav_acc g) (vtx_of session) (m_counter m)
                then (MavOk m, mkMavMemory (mav_acc g ++ [(vtx_of session, m_counter m)]) (cal_acc g) (run_pair g))
                else (MavRejected, g))
      else
        let run := run_pair g in
        if cal_only && negb (run =? 0) && negb (run =? pub (rd_at2 r)) then
          v ← verifies_under cfg (rd_body r) run (m_counter m);
          Some (if negb v then (MavRejected, g)
                else if negb (rd_open r) then (MavLateCal, g)
                else if fresh (cal_acc g) (vtx_of run) (m_counter m)
                then (MavOkLatched m, mkMavMemory (mav_acc g) (cal_acc g ++ [(vtx_of run, m_counter m)]) run)
                else (MavRejected, g))
        else Some (MavRejected, g)
  end.

Definition do_nack (r : Read) (g : Counters) : option (NackCheck * Counters) :=
  check_nack cfg (rd_body r) (pub (rd_at1 r)) (pub (rd_at2 r)) (rd_spurious r) g.

Definition do_mav (r : Read) (g : Counters) : option (MavCheck * Counters) :=
  check_mav cfg all_packets_are_cal (rd_body r) (rd_open r) (pub (rd_at1 r)) (pub (rd_at2 r)) (rd_spurious r) g.

(** A thread's calls, one after the other: the verdicts and the state left. *)
Fixpoint run_reads {S V} (f : Read -> S -> option (V * S)) (g : S) (rs : list Read) : option (list V * S) :=
  match rs with
  | [] => Some ([], g)
  | r :: rs => x ← f r g; y ← run_reads f (snd x) rs; Some (fst x :: fst y, snd y)
  end.

Definition positions (rs : list Read) : list nat := concat (map (fun r => [rd_at1 r; rd_at2 r]) rs).

(** The loads of a thread find what is published in the order it is published, from [n] on. *)
Definition in_order (n : nat) (rs : list Read) : Prop := StronglySorted le (n :: positions rs).

(** ** The words refine the memory *)

Context (Hret : no_return (map vtx_of pubs)).
Context (Hgood : Forall (fun w => w = 0 \/ good_nonce (vtx_of w)) pubs).

(** Each frame of a memory was accepted under a pair published by then. *)
Definition placed (n : nat) (acc : Memory) : Prop :=
  exists ps, Forall2 (fun p x => vtx_of (pub p) = fst x) ps acc /\ StronglySorted le ps /\ Forall (fun p => (p <= n)%nat) ps.

Lemma pub_key p : nth p (map vtx_of pubs) 0 = vtx_of (pub p).
Proof. exact (map_nth vtx_of pubs 0 p). Qed.

Lemma pub_good p : pub p <> 0 -> good_nonce (vtx_of (pub p)).
Proof.
  intros H. pose proof (nth_elem pubs p H) as Hin. destruct (proj1 (Forall_forall _ _) Hgood _ Hin); done.
Qed.

Lemma sorted_snoc_grows ps n :
  StronglySorted le (ps ++ [n]) <-> StronglySorted le ps /\ Forall (fun p => (p <= n)%nat) ps.
Proof.
  induction ps as [|p ps IH]; cbn; [split; intros _; repeat constructor |]. split.
  - intros [H1 H2]%StronglySorted_inv. apply IH in H1 as [H1 H3]. apply Forall_app in H2 as [H2 H4%Forall_inv]. by repeat constructor.
  - intros [[H1 H2]%StronglySorted_inv [H3 H4]%Forall_cons]. constructor; [by apply IH |]. apply Forall_app_2; [done |]. by constructor.
Qed.

Lemma placed_later n m acc : placed n acc -> (n <= m)%nat -> placed m acc.
Proof.
  intros (ps & H1 & H2 & H3) Hm. exists ps. split_all; try done. eapply Forall_impl; [exact H3 |]. cbn. lia.
Qed.

Lemma placed_snoc n m acc c : placed n acc -> (n <= m)%nat -> placed m (acc ++ [(vtx_of (pub m), c)]).
Proof.
  intros H Hm. destruct (placed_later _ _ _ H Hm) as (ps & H1 & H2 & H3). exists (ps ++ [m]).
  split; [by apply Forall2_app; [| repeat constructor] |]. split; [by apply sorted_snoc_grows |].
  apply Forall_app_2; [done |]. by constructor.
Qed.

(** The position of the last frame. *)
Lemma placed_last n acc x : placed n (acc ++ [x]) ->
  exists p, vtx_of (pub p) = fst x /\ (p <= n)%nat /\ placed p acc.
Proof.
  intros (ps & (ps' & q & H1 & Hq & ->)%Forall2_app_inv_r & H2 & H3).
  inversion Hq as [|p ? q' ? Hp Hq']; subst. inversion Hq'; subst. exists p.
  apply sorted_snoc_grows in H2 as [H2 H4]. apply Forall_app in H3 as [_ H3%Forall_inv]. split_all; try done. by exists ps'.
Qed.

(** Another frame under the pair of the last one. *)
Lemma placed_again n acc k c : placed n acc -> fst <$> last acc = Some k -> placed n (acc ++ [(k, c)]).
Proof.
  intros H Hl. destruct acc as [|x acc _] using rev_ind; [done |]. rewrite last_snoc in Hl. injection Hl as <-.
  destruct (placed_last _ _ _ H) as (p & Hp & Hn & Ha). apply (placed_later p); [| done].
  rewrite <- Hp. apply (placed_snoc p); [| done]. rewrite (surjective_pairing x), <- Hp. by apply (placed_snoc p).
Qed.

Lemma placed_elem n acc x : placed n acc -> x ∈ acc -> exists p, vtx_of (pub p) = fst x /\ (p <= n)%nat.
Proof.
  intros (ps & H1 & _ & H3) (i & Hi)%list_elem_of_lookup. destruct (Forall2_lookup_r _ _ _ _ _ H1 Hi) as (p & Hp & He).
  exists p. split; [done |]. exact (proj1 (Forall_lookup _ _) H3 _ _ Hp).
Qed.

Lemma placed_uppermost n m acc : placed n acc -> (n <= m)%nat -> vtx_of (pub m) <> 0 -> uppermost acc (vtx_of (pub m)).
Proof.
  intros H Hm Hz x Hx He. destruct acc as [|y acc _] using rev_ind; [by apply elem_of_nil in Hx |].
  rewrite last_snoc. cbn. f_equal. apply elem_of_app in Hx as [Hx | ->%list_elem_of_singleton]; [| done].
  destruct (placed_last _ _ _ H) as (p & Hp & Hn & Ha), (placed_elem _ _ _ Ha Hx) as (q & Hq & Hqp).
  pose proof (Hret q p m ltac:(lia)) as Hr. rewrite !pub_key in Hr. rewrite <- Hp. apply Hr; [congruence | done].
Qed.

Definition nack_rel (n : nat) (g : Counters) (acc : Memory) : Prop := word_ok acc (nack_last g) /\ placed n acc.

Record mav_rel (n : nat) (g : Counters) (m : MavMemory) : Prop := mkMavRel {
  mr_mav : word_ok (mav_acc m) (mav_last g);
  mr_mav_at : placed n (mav_acc m);
  mr_cal : word_ok (cal_acc m) (cal_last g);
  mr_cal_at : placed n (cal_acc m);
  mr_run : cal_run_session g = run_pair m;
  mr_run_last : run_pair m <> 0 -> fst <$> last (cal_acc m) = Some (vtx_of (run_pair m));
}.

Lemma verifies_total body session c : exists v, verifies_under cfg body session c = Some v.
Proof. unfold verifies_under. destruct (session =? 0); [by eexists |]. apply verify_control_total. Qed.

Lemma verifies_nonzero body session c : verifies_under cfg body session c = Some true -> session <> 0.
Proof. unfold verifies_under. by destruct (Z.eqb_spec session 0). Qed.

(** The checked counter under a pair the first load found. *)
Lemma current_exact n r acc word c :
  word_ok acc word -> placed n acc -> (n <= rd_at1 r)%nat -> pub (rd_at1 r) <> 0 -> in_width 32 c ->
  match advance_counter word c (pub (rd_at1 r)) (rd_spurious r) with
  | Some w => fresh acc (vtx_of (pub (rd_at1 r))) c = true /\ word_ok (acc ++ [(vtx_of (pub (rd_at1 r)), c)]) w /\
              placed (rd_at1 r) (acc ++ [(vtx_of (pub (rd_at1 r)), c)])
  | None => fresh acc (vtx_of (pub (rd_at1 r))) c = false
  end.
Proof.
  intros Hw Hp Hn Hs Hc. pose proof (pub_good _ Hs) as Hg.
  assert (Hz : vtx_of (pub (rd_at1 r)) <> 0) by (unfold good_nonce in Hg; lia).
  pose proof (advance_exact acc word _ c (rd_spurious r) Hw Hs Hg Hc (placed_uppermost _ _ _ Hp Hn Hz)) as H.
  destruct (advance_counter _ _ _ _); [| done]. destruct H as [H1 H2]. split_all; try done. by apply (placed_snoc n).
Qed.

Lemma accept_current word c s1 s2 sp : s1 <> 0 ->
  accept_session_counter word c s1 s2 sp = if s1 =? s2 then advance_counter word c s1 sp else None.
Proof. intros H. unfold accept_session_counter. rewrite (proj2 (Z.eqb_neq _ _) H). by destruct (s1 =? s2). Qed.

(** The verdict stands and the state is as it was. *)
Ltac kept_rel := do 3 eexists; split; [reflexivity |]; split; [reflexivity |]; first [assumption | by split].

Lemma nack_step n r g acc :
  bytes_ok (rd_body r) -> (n <= rd_at1 r <= rd_at2 r)%nat -> nack_rel n g acc ->
  exists v g' acc', do_nack r g = Some (v, g') /\ spec_nack r acc = Some (v, acc') /\ nack_rel (rd_at2 r) g' acc'.
Proof.
  intros Hb Hn [Hw Hp]. assert (Hp' : placed (rd_at2 r) acc) by (apply (placed_later n); [done | lia]).
  unfold do_nack, check_nack, spec_nack. destruct (parse_nack_total (rd_body r)) as [x Hx]. rewrite Hx. cbn [mbind option_bind].
  destruct x as [nk|]; [| kept_rel]. destruct (negb _); [kept_rel |].
  destruct (verifies_total (rd_body r) (pub (rd_at1 r)) (n_counter nk)) as [v Hv]. rewrite Hv. cbn [mbind option_bind].
  destruct v; [| kept_rel]. apply verifies_nonzero in Hv as Hs. rewrite accept_current by done. cbn [andb].
  destruct (pub (rd_at1 r) =? pub (rd_at2 r)); cbn [andb]; [| kept_rel].
  pose proof (current_exact n r acc (nack_last g) (n_counter nk) Hw Hp ltac:(lia) Hs (nack_counter_width _ _ Hb Hx)) as H.
  destruct (advance_counter _ _ _ _) as [w|].
  - destruct H as (-> & H1 & H2). do 3 eexists. split; [done |]. split; [done |]. split; [exact H1 |].
    apply (placed_later (rd_at1 r)); [done | lia].
  - rewrite H. kept_rel.
Qed.

Lemma mav_step n r g m :
  bytes_ok (rd_body r) -> (n <= rd_at1 r <= rd_at2 r)%nat -> mav_rel n g m ->
  exists v g' m', do_mav r g = Some (v, g') /\ spec_mav r m = Some (v, m') /\ mav_rel (rd_at2 r) g' m'.
Proof.
  intros Hb Hn Hr. assert (Hr' : mav_rel (rd_at2 r) g m) by (destruct Hr; split; try done; (eapply placed_later; [eassumption | lia])).
  assert (Hrej : mav_rel (rd_at2 r) (note_auth_reject g) m) by (destruct Hr'; by split).
  unfold do_mav, check_mav, spec_mav. destruct (parse_mav_total (rd_body r) true) as [x Hx]. rewrite Hx. cbn [mbind option_bind].
  destruct x as [mv|]; [| kept_rel]. pose proof (mav_counter_width _ _ _ Hb Hx) as Hc.
  destruct (verifies_total (rd_body r) (pub (rd_at1 r)) (m_counter mv)) as [v Hv]. rewrite Hv. cbn [mbind option_bind].
  destruct Hr as [M1 M2 C1 C2 R1 R2], v.
  - apply verifies_nonzero in Hv as Hs. destruct (all_packets_are_cal _).
    + pose proof (current_exact n r _ _ (m_counter mv) C1 C2 ltac:(lia) Hs Hc) as H.
      destruct (advance_counter _ _ _ _) as [w|]; [destruct H as (-> & H1 & H2) | rewrite H; kept_rel].
      do 3 eexists. split; [done |]. split; [done |]. split; cbn.
      * exact M1.
      * apply (placed_later n); [done | lia].
      * exact H1.
      * apply (placed_later (rd_at1 r)); [done | lia].
      * done.
      * intros _. by rewrite last_snoc.
    + rewrite accept_current by done. destruct (pub (rd_at1 r) =? pub (rd_at2 r)); cbn [andb]; [| kept_rel].
      pose proof (current_exact n r _ _ (m_counter mv) M1 M2 ltac:(lia) Hs Hc) as H.
      destruct (advance_counter _ _ _ _) as [w|]; [destruct H as (-> & H1 & H2) | rewrite H; kept_rel].
      do 3 eexists. split; [done |]. split; [done |]. split; cbn; try done.
      * apply (placed_later (rd_at1 r)); [done | lia].
      * apply (placed_later n); [done | lia].
  - rewrite R1. destruct (all_packets_are_cal _); cbn [andb]; [| kept_rel].
    destruct (Z.eqb_spec (run_pair m) 0) as [| Hz]; cbn [negb andb]; [kept_rel |].
    destruct (run_pair m =? pub (rd_at2 r)); cbn [negb]; [kept_rel |].
    destruct (verifies_total (rd_body r) (run_pair m) (m_counter mv)) as [v Hv']. rewrite Hv'. cbn [mbind option_bind].
    destruct v; cbn [negb]; [| kept_rel]. destruct (rd_open r); cbn [negb].
    2: { do 3 eexists. split; [done |]. split; [done |]. destruct Hr'. by split. }
    specialize (R2 Hz). destruct (last (cal_acc m)) as [y|] eqn:Hl; [| done]. injection R2 as Hy.
    assert (Hg : good_nonce (vtx_of (run_pair m))).
    { rewrite <- Hy. pose proof (wo_range _ _ C1) as Hrg. apply last_Some_elem_of in Hl. exact (proj1 (proj1 (Forall_forall _ _) Hrg _ Hl)). }
    assert (Hu : uppermost (cal_acc m) (vtx_of (run_pair m))) by (intros z Hz1 Hz2; rewrite Hl; cbn; by rewrite Hy).
    pose proof (advance_exact _ _ _ (m_counter mv) (rd_spurious r) C1 Hz Hg Hc Hu) as H.
    destruct (advance_counter _ _ _ _) as [w|]; [destruct H as [-> H1] | rewrite H; kept_rel].
    do 3 eexists. split; [done |]. split; [done |]. split; cbn; try done.
    + apply (placed_later n); [done | lia].
    + apply (placed_later n); [| lia]. apply placed_again; [done |]. rewrite Hl. cbn. by rewrite Hy.
    + intros _. by rewrite last_snoc.
Qed.

(** A step at every call is a step for all of them. *)
Lemma reads_simulated {S S' V} (f : Read -> S -> option (V * S)) (f' : Read -> S' -> option (V * S'))
    (R : nat -> S -> S' -> Prop) :
  (forall n r g g', bytes_ok (rd_body r) -> (n <= rd_at1 r <= rd_at2 r)%nat -> R n g g' ->
   exists v g1 g1', f r g = Some (v, g1) /\ f' r g' = Some (v, g1') /\ R (rd_at2 r) g1 g1') ->
  forall rs n g g', Forall (fun r => bytes_ok (rd_body r)) rs -> in_order n rs -> R n g g' ->
  exists vs g1 g1' n', run_reads f g rs = Some (vs, g1) /\ run_reads f' g' rs = Some (vs, g1') /\ R n' g1 g1'.
Proof.
  intros Hstep. induction rs as [|r rs IH]; intros n g g' Hb Ho HR; [by repeat eexists |].
  apply Forall_cons in Hb as [Hb Hbs]. unfold in_order, positions in Ho. cbn in Ho.
  apply StronglySorted_inv in Ho as [Ho H1%Forall_inv]. apply StronglySorted_inv in Ho as [Ho H2%Forall_inv].
  destruct (Hstep n r g g' Hb (conj H1 H2) HR) as (v & g1 & g1' & E1 & E2 & HR1).
  destruct (IH _ _ _ Hbs Ho HR1) as (vs & g2 & g2' & n' & E3 & E4 & HR2).
  cbn [run_reads]. rewrite E1, E2. cbn [mbind option_bind fst snd]. rewrite E3, E4. cbn [mbind option_bind fst snd].
  by repeat eexists.
Qed.
End Spec.

(** C10. One word per domain is memory enough.  The drone's RX and MAV threads check NACK and
    MAVLink frames against what the agent has published, which may change between any two of
    their loads.  With distinct drawn nonces, whatever the agent's history, the frames and the
    spurious failures of the exchanges: every call returns, and its verdict is that of a checker
    that remembers every frame ever accepted and takes a counter only if it is above all those
    accepted under the same pair -- so no request and no tunnelled packet is accepted twice, and
    none is refused that is new. *)
Theorem counters_remember_all (cfg : Config) (cal : list Z -> bool) (start_ch : Z) (a0 a : Agent) (tr : list Event)
    (rs : list Read) :
  init cfg start_ch = Some a0 -> history cfg a0 tr a -> NoDup (nonces tr) -> Forall good_nonce (nonces tr) ->
  Forall (fun r => bytes_ok (rd_body r)) rs -> in_order 0 rs ->
  let pubs := publications a0 tr in
  (exists vs g acc, run_reads (do_nack cfg pubs) Counters0 rs = Some (vs, g) /\
     run_reads (spec_nack cfg pubs) [] rs = Some (vs, acc) /\ ForallOrdPairs grows acc) /\
  (exists vs g m, run_reads (do_mav cfg cal pubs) Counters0 rs = Some (vs, g) /\
     run_reads (spec_mav cfg cal pubs) (mkMavMemory [] [] 0) rs = Some (vs, m) /\
     ForallOrdPairs grows (mav_acc m) /\ ForallOrdPairs grows (cal_acc m)).
Proof.
  intros Hi Hh Hn Hg Hb Ho pubs. pose proof (published_no_return _ _ _ _ _ Hi Hh Hn Hg) as Hret. fold pubs in Hret.
  pose proof (published_good _ _ _ _ _ Hi Hh Hn Hg) as Hgood. fold pubs in Hgood.
  assert (H0 : word_ok [] 0) by (split; [done | constructor | constructor]).
  assert (P0 : placed pubs 0 []) by (exists []; split; [constructor | split; constructor]).
  split.
  - destruct (reads_simulated (do_nack cfg pubs) (spec_nack cfg pubs) (nack_rel pubs)
      (nack_step cfg pubs Hret Hgood) rs 0 Counters0 []) as (vs & g & acc & n' & E1 & E2 & [W _]); [done | done | by split |].
    exists vs, g, acc. split_all; try done. exact (wo_order _ _ W).
  - destruct (reads_simulated (do_mav cfg cal pubs) (spec_mav cfg cal pubs) (mav_rel pubs)
      (mav_step cfg cal pubs Hret Hgood) rs 0 Counters0 (mkMavMemory [] [] 0))
      as (vs & g & m & n' & E1 & E2 & [W1 _ W2 _ _ _]); [done | done | by split |].
    exists vs, g, m. split_all; try done; [exact (wo_order _ _ W1) | exact (wo_order _ _ W2)].
Qed.

(** Exchanges of two callers under two pairs, one of them late, would each make the word forget
    the other pair: the exactness above needs one caller per word, which is how the threads are
    wired. *)
Lemma two_callers_replay :
  let p1 := 4294967297 in let p2 := 8589934594 in
  exists w1 w2 w3 w4,
    accept_session_counter 0 5 p1 p1 0 = Some w1 /\
    accept_session_counter w1 3 p2 p2 0 = Some w2 /\
    advance_counter w2 5 p1 0 = Some w3 /\
    accept_session_counter w3 3 p2 p2 0 = Some w4.
Proof. by repeat eexists. Qed.
