(* ===== verification/RcAgentWitness.v ===== *)
(** * RcAgentWitness: the agent's theorems on a concrete flight

    Boot, discovery, link-up, a replay, a chain break, a requested key frame, a refused verb and
    a failsafe, evaluated. *)
From stdpp Require Import sorting.
From S2P Require Import Prelude Bytes SipHash SwConfig Profile RcProto RcProtoProps RcPolicy RcAgent RcAgentSound RcAgentInv RcAgentProps RcAgentIdr RcAgentLink RcAgentEncoder RcAgentGuard.

Section Run.
Context (cfg : Config).

(** The history of a list of calls. *)
Fixpoint run_from (tr : list Event) (a : Agent) (ins : list (Env * Input)) : option (list Event * Agent) :=
  match ins with
  | [] => Some (tr, a)
  | (E, i) :: ins =>
      match step cfg E i a with
      | Some (a', es) => run_from (tr ++ [mkEvent E i es a']) a' ins
      | None => None
      end
  end.

Lemma run_from_history a0 tr a ins tr' a' :
  history cfg a0 tr a -> run_from tr a ins = Some (tr', a') -> history cfg a0 tr' a'.
Proof.
  revert tr a. induction ins as [|[E i] ins IH]; intros tr a Hh; cbn [run_from]; [by intros [= <- <-] |].
  destruct (step cfg E i a) as [[a1 es]|] eqn:Hs; [| done]. apply IH. by eapply history_snoc.
Qed.

Lemma run_history a0 ins tr a : run_from [] a0 ins = Some (tr, a) -> history cfg a0 tr a.
Proof. apply run_from_history. constructor. Qed.
End Run.

(** ** The flight *)

Definition demo_cfg : Config :=
  mkConfig [40; 64] 20 true 2000 10000 (d_lit 60 100) 3000 (-24) 0 60
    (replicate 8 (d_of_Z 1)) (replicate 8 (d_of_Z 1)) 1000 30000 2000 kDefaultLinkKey false 1000 15 2000.

Definition demo_env (took : bool) (n : Z) : Env := mkEnv (fun _ => took) n None.

Definition demo_disc_frame : list Z := pack_disc (mkDisc 3405643777 40 20 1 0 15 9) kDefaultLinkKey.

Definition demo_feedback (seq prof epoch nonce : Z) : list Z :=
  pack_rcf (mkRcf seq prof d_half d_half 255 0 0 0 epoch 0) kDefaultLinkKey (mkTagCtx 3405643777 nonce seq).

Definition demo_health : RadioHealth := mkRadioHealth 0 0 0 0.

Definition demo_calls : list (Env * Input) :=
  [ (demo_env true 0, InTick 0 demo_health);
    (demo_env true 71, InFrame demo_disc_frame 10);
    (demo_env true 72, InFrame (demo_feedback 1 4 0 71) 20);
    (demo_env true 73, InFrame (demo_feedback 1 4 0 71) 25);
    (demo_env true 0, InChainBreak);
    (demo_env true 0, InTick 200 demo_health);
    (demo_env false 74, InFrame (demo_feedback 2 1 1 71) 250) ].

Definition demo_a0 : Agent := default (mkAgent BOOT false None Session0 Session0 0 false false 0
    (mkChan 0 false 0 0 0 0 0 false) (mkIdr false false 0 None None 0 false 0) AppliedOp0
    (mkPolicy None None false false None 0) (mkGuard 0 None None false) (mkArm 0 false false false 0 false)
    (mkKnobs 0 0 false 0 false (-1) true) (-1) 0) (init demo_cfg 40).

Definition demo_run : list Event * Agent := default ([], demo_a0) (run_from demo_cfg [] demo_a0 demo_calls).

Lemma demo_init : init demo_cfg 40 = Some demo_a0.
Proof. by vm_compute. Qed.

Lemma demo_history : history demo_cfg demo_a0 (fst demo_run) (snd demo_run).
Proof. apply (run_history demo_cfg demo_a0 demo_calls). by vm_compute. Qed.

(** The next tick, still linked, and one a second later. *)
Definition demo_tick (now : Z) : Agent * list Effect :=
  default (demo_a0, []) (step demo_cfg (demo_env true 0) (InTick now demo_health) (snd demo_run)).

Lemma demo_tick_step now : In now [260; 320; 1260] ->
  step demo_cfg (demo_env true 0) (InTick now demo_health) (snd demo_run) = Some (fst (demo_tick now), snd (demo_tick now)).
Proof. intros [<- | [<- | [<- | []]]]; by vm_compute. Qed.

Lemma demo_clocks : StronglySorted Z.le (clocks (fst demo_run)) /\ Forall (in_width 64) (clocks (fst demo_run)).
Proof.
  replace (clocks (fst demo_run)) with [0; 10; 20; 25; 200; 250] by (by vm_compute).
  split; repeat (constructor; try lia); unfold in_width; lia.
Qed.

Lemma demo_accepted :
  map snd (accepted demo_a0 (fst demo_run)) = [mkTagCtx 3405643777 71 1; mkTagCtx 3405643777 71 2].
Proof. by vm_compute. Qed.

Lemma small_unwrapped L :
  Forall (fun c => 0 <= seq32 c < 2 ^ 32 - 32767) (map snd L) -> Forall unwrapped L.
Proof. intros H. exact (proj1 (Forall_map snd _ _) H). Qed.

Lemma demo_unwrapped : Forall unwrapped (accepted demo_a0 (fst demo_run)).
Proof. apply small_unwrapped. rewrite demo_accepted. repeat constructor; cbn; lia. Qed.

Lemma demo_nonces : NoDup (nonces (fst demo_run)).
Proof. replace (nonces (fst demo_run)) with [71; 72; 73; 74] by (by vm_compute). decided. Qed.

Lemma pair_fst {A B} (a c : A) (b d : B) : (a, b) = (c, d) -> a = c.
Proof. congruence. Qed.

Lemma demo_enc : enc_state (effects (fst demo_run)) = (Some 10000, 0).
Proof. by vm_compute. Qed.

(** The end of the flight: linked, a request pending, a verb refused, the policy run at 250. *)
Lemma demo_end :
  ag_state (snd demo_run) = LINKED /\ idr_gs_pending (idr (snd demo_run)) = true /\
  verb_apply_failed (pol (snd demo_run)) = true /\ policy_ran 260 (snd demo_run) = false /\
  last (heard_at demo_a0 (fst demo_run)) = Some 250.
Proof. by vm_compute. Qed.

Lemma demo_ticks :
  ag_state (fst (demo_tick 260)) = LINKED /\ ag_state (fst (demo_tick 320)) = LINKED /\
  idr_gs_pending (idr (fst (demo_tick 260))) = true /\ idr_gs_pending (idr (fst (demo_tick 320))) = false.
Proof. by vm_compute. Qed.

(** ** The theorems there *)

Lemma agent_invariant_witness :
  last_op (effects (fst demo_run)) = Some (op (snd demo_run)) /\ s_valid (current (snd demo_run)) = true /\
  channel (chan (snd demo_run)) ∈ [40; 64].
Proof.
  destruct (agent_invariant demo_cfg 40 demo_a0 (snd demo_run) (fst demo_run) demo_init demo_history)
    as ((Hc & _) & Hl & _ & Ho).
  split; [apply Ho; by vm_compute |]. split; [apply Hl; by vm_compute | exact Hc].
Defined.

Lemma rcf_never_replayed_witness :
  map snd (accepted demo_a0 (fst demo_run)) = [mkTagCtx 3405643777 71 1; mkTagCtx 3405643777 71 2] /\
  ForallOrdPairs later (accepted demo_a0 (fst demo_run)).
Proof.
  split; [exact demo_accepted |].
  exact (proj1 (rcf_never_replayed demo_cfg 40 demo_a0 (snd demo_run) (fst demo_run) demo_init demo_history demo_nonces demo_unwrapped)).
Defined.

(** At 260 the ground station's request waits for the floor; at 320 it is served. *)
Lemma idr_paced_and_served_witness :
  too_soon 260 (snd demo_run) false /\ EIdr ∈ snd (demo_tick 320) /\ ForallOrdPairs gap (idr_times (fst demo_run)).
Proof.
  destruct demo_end as (Hl & Hp & _), demo_ticks as (L1 & L2 & P1 & P2), demo_clocks as [C1 C2].
  destruct (idr_paced_and_served demo_cfg 40 demo_a0 (snd demo_run) (fst (demo_tick 260)) (fst demo_run) (demo_env true 0) 260
    demo_health (snd (demo_tick 260)) demo_init demo_history C1 C2 (demo_tick_step 260 (or_introl eq_refl)) Hl L1) as (Hg & _ & H1).
  destruct (idr_paced_and_served demo_cfg 40 demo_a0 (snd demo_run) (fst (demo_tick 320)) (fst demo_run) (demo_env true 0) 320
    demo_health (snd (demo_tick 320)) demo_init demo_history C1 C2 (demo_tick_step 320 (or_intror (or_introl eq_refl))) Hl L2) as (_ & _ & H2).
  destruct (H1 Hp) as [[_ Hx] | [_ Hs]]; [congruence |]. destruct (H2 Hp) as [[Hi _] | [Hx _]]; [| congruence].
  split; [exact Hs |]. split; [exact Hi | exact Hg].
Defined.

(** A second after the last accepted frame the link is gone, and the flight's frames, replayed,
    do not bring it back. *)
Lemma linked_is_heard_witness :
  ag_state (fst (demo_tick 320)) = LINKED /\ ag_state (fst (demo_tick 1260)) <> LINKED /\
  forall a' es, step demo_cfg (demo_env true 75) (InFrame (demo_feedback 2 1 1 71) 1270) (fst (demo_tick 1260)) = Some (a', es) ->
    ag_state a' <> LINKED.
Proof.
  destruct demo_end as (Hl & _ & _ & _ & Hh), demo_ticks as (_ & L2 & _). split; [exact L2 |].
  destruct (linked_is_heard demo_cfg 40 demo_a0 (snd demo_run) (fst (demo_tick 1260)) (fst demo_run) (demo_env true 0) 1260
    demo_health (snd (demo_tick 1260)) demo_init demo_history (demo_tick_step 1260 (or_intror (or_intror (or_introl eq_refl))))) as [_ H].
  destruct (H Hl) as (Hn & _ & _ & Hf).
  - intros t Ht. rewrite Hh in Ht. assert (t = 250) as -> by congruence. by vm_compute.
  - split; [exact Hn |]. intros a' es Hs. exact (proj1 (Hf _ _ _ _ _ Hs)).
Defined.

(** The frame at 250 lowers the rate, the encoder refuses; the tick at 260 asks again. *)
Lemma encoder_memory_exact_witness :
  last_bitrate_kbps (pol (snd demo_run)) = Some 10000 /\ exists k took, EBitrate k took ∈ snd (demo_tick 260).
Proof.
  destruct demo_end as (Hl & _ & Hf & Hr & _).
  destruct (encoder_memory_exact demo_cfg 40 demo_a0 (snd demo_run) (fst (demo_tick 260)) (fst demo_run) (demo_env true 0) 260
    demo_health (snd (demo_tick 260)) demo_init demo_history) as [Hm Hp].
  split; [exact (pair_fst _ _ _ _ (eq_trans Hm demo_enc)) |].
  assert (Hb : ag_state (snd demo_run) <> BOOT) by (rewrite Hl; discriminate).
  pose proof (demo_tick_step 260 (or_introl eq_refl)) as Hs. exact (Hp Hb Hf Hr Hs).
Defined.

(** ** Requests and packets behind the flight *)

Definition demo_nack (c nonce : Z) : list Z :=
  pack_nack (mkNack c 0 0 1 (mkNackEntry 7 1 :: replicate 3 default_entry)) kDefaultLinkKey (mkTagCtx 3405643777 nonce c).

Definition demo_mav (c nonce : Z) (p : list Z) : list Z :=
  pack_mav (mkMav c p) true kDefaultLinkKey (mkTagCtx 3405643777 nonce c).

(** A calibration packet, for this flight. *)
Definition demo_cal (p : list Z) : bool := match p with x :: _ => x =? 253 | [] => false end.

(** Before the link, then fresh, replayed, fresh again, and behind. *)
Definition demo_reads : list Read :=
  [ mkRead (demo_nack 1 71) false 1 2 0; mkRead (demo_nack 1 71) false 2 3 0; mkRead (demo_nack 1 71) false 3 3 1;
    mkRead (demo_nack 1 71) false 3 4 0; mkRead (demo_mav 4 71 [253; 1]) false 4 4 0; mkRead (demo_mav 2 71 [9]) false 4 5 2;
    mkRead (demo_mav 4 71 [253; 1]) true 5 5 0; mkRead (demo_nack 3 71) false 5 6 0; mkRead (demo_nack 2 71) false 7 7 0 ].

Definition demo_pubs : list Z := publications demo_a0 (fst demo_run).

Definition demo_verdicts : option (list NackCheck * list MavCheck) :=
  x ← run_reads (do_nack demo_cfg demo_pubs) Counters0 demo_reads;
  y ← run_reads (do_mav demo_cfg demo_cal demo_pubs) Counters0 demo_reads;
  Some (fst x, fst y).

Definition nack_taken (v : NackCheck) : option Z := match v with NackOk n => Some (n_counter n) | _ => None end.
Definition mav_taken (v : MavCheck) : option Z := match v with MavOk m => Some (m_counter m) | _ => None end.

Lemma demo_taken :
  match demo_verdicts with
  | Some (ns, ms) => omap nack_taken ns = [1; 3] /\ omap mav_taken ms = [4; 2]
  | None => False
  end.
Proof. by vm_compute. Qed.

Lemma demo_reads_ok :
  Forall (fun r => bytes_ok (rd_body r)) demo_reads /\ in_order 0 demo_reads /\ Forall good_nonce (nonces (fst demo_run)).
Proof.
  split; [decided |]. split.
  - unfold in_order. replace (positions demo_reads) with [1; 2; 2; 3; 3; 3; 3; 4; 4; 4; 4; 5; 5; 5; 5; 6; 7; 7]%nat by (by vm_compute).
    repeat (constructor; try lia).
  - replace (nonces (fst demo_run)) with [71; 72; 73; 74] by (by vm_compute). repeat constructor; unfold good_nonce; lia.
Qed.

Lemma counters_remember_all_witness :
  (exists ns, option_map fst demo_verdicts = Some ns /\ omap nack_taken ns = [1; 3]) /\
  exists vs acc, run_reads (spec_nack demo_cfg demo_pubs) [] demo_reads = Some (vs, acc) /\ ForallOrdPairs grows acc.
Proof.
  destruct demo_reads_ok as (H1 & H2 & H3). pose proof demo_taken as Ht. split.
  - destruct demo_verdicts as [[ns ms]|]; [| done]. exists ns. split; [done | apply Ht].
  - destruct (counters_remember_all demo_cfg demo_cal 40 demo_a0 (snd demo_run) (fst demo_run) demo_reads demo_init demo_history
      demo_nonces H3 H1 H2) as [(vs & g & acc & _ & E & Ho) _]. exists vs, acc. exact (conj E Ho).
Defined.
