(* ===== verification/RungStore.v ===== *)
(** * RungStore: per-rung statistics of the link (gs/src/rung_store.cpp)

    Exponential averages of what was measured while the link sat on each rung.  An index outside
    the store is [None].  The power function of the C library is a parameter. *)
From S2P Require Import Prelude SwConfig.
From coqutil Require Export Datatypes.RecordSetters.
Export DoubleBraceUpdate.

Definition d_zero : double := d_of_Z 0.
Definition d_gtb (a b : double) : bool := d_ltb b a.
Definition d_geb (a b : double) : bool := d_leb b a.

(** "Never": the stamps of the source start at -1e18, its open windows at -1. *)
Definition kNever : double := d_of_Z (- 10 ^ 18).
Definition kClosed : double := d_of_Z (-1).

(** Vector access by an [int]: [None] outside. *)
Definition at_index {A} (l : list A) (i : Z) : option A := if i <? 0 then None else l !! Z.to_nat i.

Definition update_at {A} (l : list A) (i : Z) (f : A -> A) : option (list A) :=
  x ← at_index l i; Some (<[Z.to_nat i := f x]> l).

(** Why the controller moved. *)
Inductive CtlReason :=
| CtlNone | Residual | Util | Probation | Starved | Timeout | Promote
| S3Residual | S3Util | Fade | PromoteProbed | HopRestore | LadderSwap | Unpin.

#[export] Instance ctl_reason_eq_dec : EqDecision CtlReason.
Proof. solve_decision. Defined.

Record Ewma := mkEwma { ew_v : double; ew_n : Z }.
Definition Ewma0 : Ewma := mkEwma d_zero 0.

Definition ewma_add (x alpha : double) (w : Ewma) : Ewma :=
  mkEwma (if ew_n w =? 0 then x else d_add (ew_v w) (d_mul alpha (d_sub x (ew_v w)))) (u64 (ew_n w + 1)).

Record RungStat := mkRungStat {
  rs_u : Ewma;
  rs_resid : Ewma;
  rs_u3 : Ewma;
  rs_s3_resid : Ewma;
  rs_probe_u : Ewma;
  rs_evm_db : double;
  rs_evm_var_db2 : double;
  rs_evm_n : Z;
  last_sample_ms : double;
  last_probe_ms : double;
  rs_dwell_ms : double;
  visits : Z;
  exits_bad : Z;
}.

Definition RungStat0 : RungStat :=
  mkRungStat Ewma0 Ewma0 Ewma0 Ewma0 Ewma0 S754_nan d_zero 0 kClosed kClosed d_zero 0 0.

Record RungStore := mkRungStore {
  stats_ : list RungStat;
  alpha_ : double;
  current_ : Z;
  parked_since_ms_ : double;
}.

Definition clamp_util (u : double) : double := d_min u (d_of_Z 1000).

(** [std::pow] is [pow]; a failed assert is [None]. *)
Definition new_store (pow : double -> double -> double) (n_rungs half_life_samples : Z) : option RungStore :=
  if (n_rungs <? 1) || (half_life_samples <? 1) then None
  else Some (mkRungStore (replicate (Z.to_nat n_rungs) RungStat0)
    (d_sub d_one (pow (d_lit 5 10) (d_div d_one (d_of_Z half_life_samples)))) 0 kClosed).

Definition indicator (b : bool) : double := if b then d_one else d_zero.

Definition observe_s1 (rung : Z) (u : double) (residual : bool) (now_ms : double) (s : RungStore) : option RungStore :=
  l ← update_at (stats_ s) rung (fun r =>
        r {{ rs_u ::= ewma_add (clamp_util u) (alpha_ s) ;
             rs_resid ::= ewma_add (indicator residual) (alpha_ s) ;
             last_sample_ms := now_ms }});
  Some (s {{ stats_ := l ; parked_since_ms_ ::= (fun t => if d_ltb t d_zero then now_ms else t) }}).

Definition observe_evm (rung : Z) (evm_db : double) (s : RungStore) : option RungStore :=
  l ← update_at (stats_ s) rung (fun r =>
        let r' := if rs_evm_n r =? 0 then r {{ rs_evm_db := evm_db ; rs_evm_var_db2 := d_zero }}
                  else
                    let d := d_sub evm_db (rs_evm_db r) in
                    let incr := d_mul (alpha_ s) d in
                    r {{ rs_evm_db ::= (fun v => d_add v incr) ;
                         rs_evm_var_db2 ::= (fun v => d_mul (d_sub d_one (alpha_ s)) (d_add v (d_mul d incr))) }} in
        r' {{ rs_evm_n ::= (fun n => u64 (n + 1)) }});
  Some (s {{ stats_ := l }}).

Definition observe_s3 (rung : Z) (u3 : double) (s3_residual : bool) (now_ms : double) (s : RungStore) : option RungStore :=
  l ← update_at (stats_ s) rung (fun r =>
        r {{ rs_u3 ::= ewma_add (clamp_util u3) (alpha_ s) ;
             rs_s3_resid ::= ewma_add (indicator s3_residual) (alpha_ s) ;
             last_sample_ms := now_ms }});
  Some (s {{ stats_ := l }}).

Definition observe_probe (rung : Z) (u_pred now_ms : double) (s : RungStore) : option RungStore :=
  l ← update_at (stats_ s) rung (fun r =>
        r {{ rs_probe_u ::= ewma_add (clamp_util u_pred) (alpha_ s) ; last_probe_ms := now_ms }});
  Some (s {{ stats_ := l }}).

(** A departure for one of these is held against the rung. *)
Definition bad_exit (reason : CtlReason) : bool :=
  match reason with Residual | S3Residual | Probation | Starved => true | _ => false end.

Definition on_transition (from to : Z) (reason : CtlReason) (now_ms : double) (s : RungStore) : option RungStore :=
  if from =? to then Some s
  else
    let parked := parked_since_ms_ s in
    l ← update_at (stats_ s) from (fun f =>
          f {{ rs_dwell_ms ::= (fun d => if d_geb parked d_zero then d_add d (d_sub now_ms parked) else d) }});
    l ← update_at l to (fun t => t {{ visits ::= (fun v => u32 (v + 1)) }});
    l ← (if bad_exit reason then update_at l from (fun f => f {{ exits_bad ::= (fun v => u32 (v + 1)) }}) else Some l);
    Some (s {{ stats_ := l ; parked_since_ms_ := now_ms ; current_ := to }}).

Definition dwell_ms (rung : Z) (now_ms : double) (s : RungStore) : option double :=
  r ← at_index (stats_ s) rung;
  Some (if (rung =? current_ s) && d_geb (parked_since_ms_ s) d_zero
        then d_add (rs_dwell_ms r) (d_sub now_ms (parked_since_ms_ s)) else rs_dwell_ms r).

(** ** Accesses stay inside *)

Definition rung_in (s : RungStore) (i : Z) : Prop := 0 <= i < Z.of_nat (length (stats_ s)).

Lemma at_index_in {A} (l : list A) i : 0 <= i < Z.of_nat (length l) -> exists x, at_index l i = Some x.
Proof.
  intros H. unfold at_index. rewrite (proj2 (Z.ltb_ge _ _)) by lia. apply lookup_lt_is_Some. lia.
Qed.

Lemma update_at_in {A} (l : list A) i f : 0 <= i < Z.of_nat (length l) ->
  exists l', update_at l i f = Some l' /\ length l' = length l.
Proof.
  intros H. unfold update_at. destruct (at_index_in l i H) as [x ->]. cbn. eexists. split; [done |]. apply length_insert.
Qed.

Lemma update_at_some {A} (l : list A) i x f : at_index l i = Some x -> update_at l i f = Some (<[Z.to_nat i := f x]> l).
Proof. intros H. unfold update_at. by rewrite H. Qed.

Lemma at_index_insert {A} (l : list A) i v : 0 <= i < Z.of_nat (length l) -> at_index (<[Z.to_nat i := v]> l) i = Some v.
Proof.
  intros H. unfold at_index. rewrite (proj2 (Z.ltb_ge i 0)) by lia. apply list_lookup_insert_eq. lia.
Qed.

Lemma at_index_insert_ne {A} (l : list A) i j v : 0 <= i -> i <> j -> at_index (<[Z.to_nat i := v]> l) j = at_index l j.
Proof.
  intros Hi H. unfold at_index. destruct (Z.ltb_spec j 0); [done |]. apply list_lookup_insert_ne. lia.
Qed.

Definition same_rungs (s s' : RungStore) : Prop := length (stats_ s') = length (stats_ s).

(** Run the next access of a goal, given that its index is inside. *)
Ltac access :=
  match goal with
  | |- context [update_at ?l ?i ?f] =>
      let l' := fresh "l" in let E := fresh "E" in let L := fresh "L" in
      destruct (update_at_in l i f) as (l' & E & L); [first [assumption | congruence | lia] |]; rewrite E; cbn [mbind option_bind]
  end.

Lemma observe_s1_in rung u r now s : rung_in s rung -> exists s', observe_s1 rung u r now s = Some s' /\ same_rungs s s'.
Proof. intros H. unfold observe_s1, rung_in in *. access. by eexists. Qed.

Lemma observe_evm_in rung v s : rung_in s rung -> exists s', observe_evm rung v s = Some s' /\ same_rungs s s'.
Proof. intros H. unfold observe_evm, rung_in in *. access. by eexists. Qed.

Lemma observe_s3_in rung u r now s : rung_in s rung -> exists s', observe_s3 rung u r now s = Some s' /\ same_rungs s s'.
Proof. intros H. unfold observe_s3, rung_in in *. access. by eexists. Qed.

Lemma observe_probe_in rung u now s : rung_in s rung -> exists s', observe_probe rung u now s = Some s' /\ same_rungs s s'.
Proof. intros H. unfold observe_probe, rung_in in *. access. by eexists. Qed.

Lemma on_transition_in from to reason now s : rung_in s from -> rung_in s to ->
  exists s', on_transition from to reason now s = Some s' /\ same_rungs s s'.
Proof.
  intros Hf Ht. unfold on_transition, rung_in in *. destruct (from =? to); [by eexists |]. cbn zeta. access. access.
  destruct (bad_exit reason); [access |]; cbn [mbind option_bind]; eexists; split; try done; unfold same_rungs, constant; cbn; congruence.
Qed.
