(* ===== verification/LadderController.v ===== *)
(** * LadderController: which rung of the rate ladder the link uses (gs/src/ladder_controller.cpp)

    Measured loss moves the link down at once or after a confirm window, a long clean stretch
    moves it up one rung on probation, and silence drops it to the failsafe rung.  Times and
    ratios are doubles; the exponential and the power of the C library are parameters.  An index
    outside the ladder or its per-rung vectors is [None]. *)
From S2P Require Import Prelude SwConfig RungStore.

(** ** Configuration *)

Record Rung := mkRung { r_mcs : Z; overhead_base : double; overhead_enh : double; r_bw : Z }.

Record FadeCfg := mkFadeCfg {
  cascade : bool; predict : bool; hold_ms : Z; f_confirm_ms : Z;
  rssi_db : double; snr_db : double; trigger_ms : Z; min_rung : Z;
}.

Record ProbeCfg := mkProbeCfg {
  p_enable : bool; rung_offset : Z; clean_bodies : Z; max_util : double; min_syms : Z; silence_ms : Z;
}.

Record LadderCfg := mkLadderCfg {
  rungs : list Rung;
  down_util : double; up_util : double;
  confirm_ms : Z; clean_ms : Z; probation_ms : Z;
  penalty_base_ms : Z; penalty_max_ms : Z;
  hold_after_down_ms : Z; min_between_changes_ms : Z;
  feedback_timeout_ms : Z; starved_confirm_ms : Z;
  probe_cfg : ProbeCfg;
  s3_demote : bool; s3_down_util : double; s3_min_syms : Z; s3_settle_ms : Z;
  half_life_samples : Z;
  fade_cfg : FadeCfg;
}.

(** One window's measurements. *)
Record LinkHealth := mkLinkHealth {
  sample_valid : bool; h_pre_fec_loss : double; residual_loss : double; video_starved : bool;
  s3_valid : bool; s3_pre_fec_loss : double; s3_residual_loss : double; s3_expected_syms : Z;
  rf_snr_db : double; rf_evm_db : double; rf_rssi_dbm : double;
  probe_valid : bool; probe_loss : double; probe_expected_syms : Z; h_probe_bodies_total : Z; h_probe_rung : Z;
}.

(** ** State *)

Inductive ProbeGateState := ProbeOff | ProbeNoInfo | ProbeClean | ProbeLossy.

#[export] Instance probe_gate_eq_dec : EqDecision ProbeGateState.
Proof. solve_decision. Defined.

Record ProbeGate := mkProbeGate { g_state : ProbeGateState; g_rung : Z; g_u : double; streak_bodies : Z }.

Record ProbeEdge := mkProbeEdge {
  pe_t_ms : double; pe_rung : Z; pe_state : ProbeGateState; pe_u : double; pe_snr_db : double;
  pe_evm_db : double; prev_dur_ms : double;
}.

Record PenaltyEvent := mkPenaltyEvent { pn_t_ms : double; pn_rung : Z; pn_k : Z; pn_until_ms : double }.

Record CtlEvent := mkCtlEvent {
  ce_t_ms : double; ce_from : Z; ce_to : Z; ce_reason : CtlReason; ce_u : double; ce_snr_db : double; ce_evm_db : double;
}.

Record CtlCounters := mkCtlCounters {
  demotes_residual : Z; demotes_util : Z; promotes : Z; probation_fails : Z; starved_drops : Z; timeout_drops : Z;
  promotes_probed : Z; probe_holds : Z; demotes_s3_residual : Z; demotes_s3_util : Z; demotes_fade : Z;
}.

Record FadeEwma := mkFadeEwma { fast : double; slow : double; fe_last_ms : double; has : bool }.
Definition FadeEwma0 : FadeEwma := mkFadeEwma d_zero d_zero d_zero false.

Record ProbeState := mkProbeState {
  probe_state_ : ProbeGateState;
  probe_state_since_ms_ : double;
  probe_streak_open_ : bool;
  probe_streak_start_bodies_ : Z;
  probe_bodies_total_ : Z;
  probe_last_sample_ms_ : double;
  probe_u_ : double;
  probe_hold_active_ : bool;
  last_probe_edge_ : ProbeEdge;
}.

Record Ladder := mkLadder {
  store_ : RungStore;
  idx_ : Z;
  u_ : double;
  pre_fec_loss_ : double;
  last_feedback_ms_ : double;
  measured_rung_ : Z;
  starved_since_ms_ : double;
  last_change_ms_ : double;
  last_down_ms_ : double;
  confirm_start_ms_ : double;
  clean_start_ms_ : double;
  fade_until_ms_ : double;
  fade_rssi_ : FadeEwma;
  fade_snr_ : FadeEwma;
  fade_trig_start_ms_ : double;
  fade_latched_ : bool;
  probation_active_ : bool;
  probation_until_ms_ : double;
  probation_rung_ : Z;
  fail_count_ : list Z;
  penalty_until_ : list double;
  probe_ : ProbeState;
  u3_ : double;
  s3_util_start_ms_ : double;
  s3_last_live_ms_ : double;
  s3_blank_until_ms_ : double;
  blank_store_until_ms_ : double;
  snr_now_ : double;
  evm_now_ : double;
  counters_ : CtlCounters;
  last_event_ : CtlEvent;
  last_penalty_ : PenaltyEvent;
}.

(** [now - start >= ms] of the source, the window an [int]. *)
Definition elapsed (now start : double) (ms : Z) : bool := d_geb (d_sub now start) (d_of_Z ms).

Section Ladder.
Context (exp : double -> double) (pow : double -> double -> double) (cfg : LadderCfg).

(** The constructor; an empty ladder fails its assert. *)
Definition new_ladder : option Ladder :=
  match rungs cfg with
  | [] => None
  | rs =>
      store ← new_store pow (Z.of_nat (length rs)) (half_life_samples cfg);
      Some (mkLadder store 0 d_zero d_zero kNever 0 kClosed
      kNever kNever kClosed kClosed kNever FadeEwma0 FadeEwma0 kClosed false false kNever (-1)
      (replicate (length rs) 0) (replicate (length rs) kNever)
      (mkProbeState ProbeOff d_zero false 0 0 kNever d_zero false (mkProbeEdge d_zero (-1) ProbeOff d_zero S754_nan S754_nan d_zero))
      d_zero kClosed kNever kNever kNever S754_nan S754_nan (mkCtlCounters 0 0 0 0 0 0 0 0 0 0 0)
      (mkCtlEvent d_zero 0 0 CtlNone d_zero S754_nan S754_nan) (mkPenaltyEvent d_zero 0 0 d_zero))
  end.

(** ** Budgets and thresholds *)

Definition budget (ov : double) : double := d_div ov (d_add d_one ov).

Definition budget_base (l : Ladder) : option double := r ← at_index (rungs cfg) (idx_ l); Some (budget (overhead_base r)).

Definition budget_enh_for (rung : Z) : option double := r ← at_index (rungs cfg) rung; Some (budget (overhead_enh r)).

Definition probe_util_threshold : double :=
  if d_ltb (max_util (probe_cfg cfg)) d_zero then down_util cfg else max_util (probe_cfg cfg).

Definition s3_util_threshold : double :=
  if d_ltb (s3_down_util cfg) d_zero then down_util cfg else s3_down_util cfg.

Definition s3_usable (h : LinkHealth) : bool := s3_valid h && (u64 (s3_min_syms cfg) <=? s3_expected_syms h).

(** ** The probe *)

Definition probe_rung (l : Ladder) : Z :=
  let top := Z.of_nat (length (rungs cfg)) - 1 in
  if negb (p_enable (probe_cfg cfg)) then -1
  else if top <=? idx_ l then -1
  else Z.min (idx_ l + rung_offset (probe_cfg cfg)) top.

Definition probe_gate (l : Ladder) : ProbeGate :=
  let p := probe_ l in
  mkProbeGate (probe_state_ p) (probe_rung l) (probe_u_ p)
    (if bool_decide (probe_state_ p = ProbeClean) && probe_streak_open_ p
     then u64 (probe_bodies_total_ p - probe_streak_start_bodies_ p) else 0).

Definition set_probe_state (s : ProbeGateState) (rung : Z) (u now_ms : double) (l : Ladder) : Ladder :=
  let p := probe_ l in
  if bool_decide (s = probe_state_ p) then l
  else l {{ probe_->last_probe_edge_ :=
              mkProbeEdge now_ms rung s u (snr_now_ l) (evm_now_ l) (d_sub now_ms (probe_state_since_ms_ p)) ;
            probe_->probe_state_ := s ;
            probe_->probe_state_since_ms_ := now_ms }}.

Definition mark_transition (now_ms : double) (l : Ladder) : Ladder :=
  let l := l {{ s3_blank_until_ms_ := d_add now_ms (d_of_Z (s3_settle_ms cfg)) ;
                s3_util_start_ms_ := kClosed ;
                probe_->probe_streak_open_ := false ;
                probe_->probe_last_sample_ms_ := kNever ;
                probe_->probe_hold_active_ := false }} in
  if bool_decide (probe_state_ (probe_ l) = ProbeOff) then l
  else set_probe_state ProbeNoInfo (probe_rung l) (probe_u_ (probe_ l)) now_ms l.

Definition kHuge : double := d_of_Z (10 ^ 9).

(** Loss as a share of a budget; any loss of no budget is infinite. *)
Definition utilization (loss b : double) : double :=
  if d_gtb b d_zero then d_div loss b else if d_gtb loss d_zero then kHuge else d_zero.

(** A usable sample of the probe. *)
Definition score_probe (h : LinkHealth) (pr : Z) (now_ms : double) (l : Ladder) : option Ladder :=
  b ← budget_enh_for (idx_ l + 1);
  let u := utilization (probe_loss h) b in
  let l := l {{ probe_->probe_u_ := u ; probe_->probe_last_sample_ms_ := now_ms }} in
  l ← (if d_geb now_ms (blank_store_until_ms_ l)
       then s ← observe_probe pr u now_ms (store_ l); Some (l {{ store_ := s }}) else Some l);
  let l := if h_probe_bodies_total h <? probe_bodies_total_ (probe_ l)
           then l {{ probe_->probe_streak_open_ := false }} else l in
  let l := l {{ probe_->probe_bodies_total_ := h_probe_bodies_total h }} in
  if d_leb u probe_util_threshold then
    let l := if probe_streak_open_ (probe_ l) then l
             else l {{ probe_->probe_streak_open_ := true ;
                       probe_->probe_streak_start_bodies_ := probe_bodies_total_ (probe_ l) }} in
    Some (set_probe_state ProbeClean pr u now_ms l)
  else Some (set_probe_state ProbeLossy pr u now_ms (l {{ probe_->probe_streak_open_ := false }})).

Definition update_probe_gate (h : LinkHealth) (now_ms : double) (l : Ladder) : option Ladder :=
  let pr := probe_rung l in
  if pr <? 0 then Some (set_probe_state ProbeOff (-1) d_zero now_ms (l {{ probe_->probe_streak_open_ := false }}))
  else if probe_valid h && (h_probe_rung h =? pr) && (u64 (min_syms (probe_cfg cfg)) <=? probe_expected_syms h) then
    score_probe h pr now_ms l
  else if d_gtb (d_sub now_ms (probe_last_sample_ms_ (probe_ l))) (d_of_Z (silence_ms (probe_cfg cfg))) then
    Some (set_probe_state ProbeNoInfo pr (probe_u_ (probe_ l)) now_ms (l {{ probe_->probe_streak_open_ := false }}))
  else Some l.

(** ** Windows, events, penalties *)

Definition reset_windows (l : Ladder) : Ladder :=
  l {{ confirm_start_ms_ := kClosed ; clean_start_ms_ := kClosed ; probe_->probe_hold_active_ := false }}.

Definition set_event (now_ms : double) (from to : Z) (reason : CtlReason) (u : double) (l : Ladder) : option Ladder :=
  s ← on_transition from to reason now_ms (store_ l);
  Some (l {{ store_ := s ; last_event_ := mkCtlEvent now_ms from to reason u (snr_now_ l) (evm_now_ l) }}).

Definition on_probation (l : Ladder) : bool := probation_active_ l && (idx_ l =? probation_rung_ l).

Definition check_probation_survival (now_ms : double) (l : Ladder) : option Ladder :=
  if on_probation l && d_geb now_ms (probation_until_ms_ l) then
    f ← update_at (fail_count_ l) (idx_ l) (fun _ => 0);
    Some (l {{ fail_count_ := f ; probation_active_ := false }})
  else Some l.

Definition kMaxShiftExp : Z := 32.

Definition penalize_rung (rung : Z) (now_ms : double) (l : Ladder) : option Ladder :=
  f ← update_at (fail_count_ l) rung (fun k => if k <? kMaxShiftExp then k + 1 else k);
  k ← at_index f rung;
  let shifted := Z.shiftl (penalty_base_ms cfg) (k - 1) in
  let until := d_add now_ms (d_min (d_of_Z (penalty_max_ms cfg)) (d_of_Z shifted)) in
  p ← update_at (penalty_until_ l) rung (fun _ => until);
  Some (l {{ fail_count_ := f ; penalty_until_ := p ; last_penalty_ := mkPenaltyEvent now_ms rung k until }}).

Definition is_penalized (rung : Z) (now_ms : double) (l : Ladder) : option bool :=
  t ← at_index (penalty_until_ l) rung; Some (d_ltb now_ms t).

(** The rungs still penalised, with the milliseconds left of each. *)
Definition penalized (now_ms : double) (l : Ladder) : list (Z * Z) :=
  omap (fun p => if d_ltb now_ms p.2 then Some (Z.of_nat p.1, d_trunc (d_sub p.2 now_ms)) else None)
    (zip (seq 0 (length (penalty_until_ l))) (penalty_until_ l)).

Definition probation_ms_left (now_ms : double) (l : Ladder) : Z :=
  if on_probation l && d_ltb now_ms (probation_until_ms_ l) then d_trunc (d_sub (probation_until_ms_ l) now_ms) else 0.

(** ** The fade trigger's averages *)

Definition fade_feed (v now_ms : double) (f : FadeEwma) : FadeEwma :=
  if negb (has f) then mkFadeEwma v v now_ms true
  else
    let dt := d_max d_one (d_sub now_ms (fe_last_ms f)) in
    let gain tau := d_sub d_one (exp (d_div (SFopp dt) tau)) in
    let fast' := d_add (fast f) (d_mul (gain (d_of_Z 300)) (d_sub v (fast f))) in
    let tau := if d_geb v (slow f) then d_of_Z 2000 else d_of_Z 20000 in
    mkFadeEwma fast' (d_add (slow f) (d_mul (gain tau) (d_sub v (slow f)))) now_ms true.

Definition fade_delta (f : FadeEwma) : double := if has f then d_sub (slow f) (fast f) else S754_nan.

Definition in_fade_regime (now_ms : double) (l : Ladder) : bool :=
  cascade (fade_cfg cfg) && d_ltb now_ms (fade_until_ms_ l).

Definition eff_confirm_ms (now_ms : double) (l : Ladder) : Z :=
  if in_fade_regime now_ms l then f_confirm_ms (fade_cfg cfg) else confirm_ms cfg.

(** ** Moving down *)

(** What every move to a lower rung does. *)
Definition step_down (to : Z) (now_ms : double) (l : Ladder) : Ladder :=
  mark_transition now_ms
    (reset_windows (l {{ idx_ := to ; last_down_ms_ := now_ms ; last_change_ms_ := now_ms }})).

(** A failed probation: booked, and the rung penalised. *)
Definition fail_probation (now_ms : double) (l : Ladder) : option Ladder :=
  l ← penalize_rung (idx_ l) now_ms (l {{ counters_->probation_fails ::= (fun c => u64 (c + 1)) }});
  Some (l {{ probation_active_ := false }}).

Definition enter_fade (now_ms : double) (l : Ladder) : Ladder :=
  l {{ fade_until_ms_ := d_add now_ms (d_of_Z (hold_ms (fade_cfg cfg))) }}.

(** A drop to the failsafe rung. *)
Definition drop_to_floor (now_ms : double) (reason : CtlReason) (count : CtlCounters -> CtlCounters) (l : Ladder)
    : option (bool * Ladder) :=
  let from := idx_ l in
  l ← set_event now_ms from 0 reason d_zero ((step_down 0 now_ms (l {{ probation_active_ := false }})) {{ counters_ ::= count }});
  Some (true, l).

(** A demote by one rung that counts against a probation. *)
Definition demote_booked (now_ms : double) (reason : CtlReason) (count : CtlCounters -> CtlCounters) (u : double) (l : Ladder)
    : option (bool * Ladder) :=
  let from := idx_ l in
  l ← (if on_probation l then fail_probation now_ms l else Some l);
  l ← set_event now_ms from (from - 1) reason u (enter_fade now_ms ((step_down (from - 1) now_ms l) {{ counters_ ::= count }}));
  Some (true, l).

Definition count_residual (c : CtlCounters) : CtlCounters := c {{ demotes_residual ::= (fun n => u64 (n + 1)) }}.
Definition count_util (c : CtlCounters) : CtlCounters := c {{ demotes_util ::= (fun n => u64 (n + 1)) }}.
Definition count_starved (c : CtlCounters) : CtlCounters := c {{ starved_drops ::= (fun n => u64 (n + 1)) }}.
Definition count_timeout (c : CtlCounters) : CtlCounters := c {{ timeout_drops ::= (fun n => u64 (n + 1)) }}.
Definition count_fade (c : CtlCounters) : CtlCounters := c {{ demotes_fade ::= (fun n => u64 (n + 1)) }}.
Definition count_s3_residual (c : CtlCounters) : CtlCounters := c {{ demotes_s3_residual ::= (fun n => u64 (n + 1)) }}.
Definition count_s3_util (c : CtlCounters) : CtlCounters := c {{ demotes_s3_util ::= (fun n => u64 (n + 1)) }}.
Definition count_promote (probed : bool) (c : CtlCounters) : CtlCounters :=
  let c := c {{ promotes ::= (fun n => u64 (n + 1)) }} in
  if probed then c {{ promotes_probed ::= (fun n => u64 (n + 1)) }} else c.

(** ** One sample *)

(** Block 1: no video. *)
Definition starved (now_ms : double) (l : Ladder) : option (bool * Ladder) :=
  let l := if d_ltb (starved_since_ms_ l) d_zero then l {{ starved_since_ms_ := now_ms }} else l in
  if d_ltb (d_sub now_ms (starved_since_ms_ l)) (d_of_Z (starved_confirm_ms cfg)) then Some (false, l)
  else if idx_ l =? 0 then Some (false, l)
  else drop_to_floor now_ms Starved count_starved l.

(** Blocks 2 and 3: a genuine sample is booked to the rung it was measured on. *)
Definition measure (h : LinkHealth) (now_ms : double) (l : Ladder) : option Ladder :=
  let l := l {{ last_feedback_ms_ := now_ms ; measured_rung_ := idx_ l }} in
  let l := if d_is_nan (rf_rssi_dbm h) then l else l {{ fade_rssi_ ::= fade_feed (rf_rssi_dbm h) now_ms }} in
  let l := if d_is_nan (rf_snr_db h) then l else l {{ fade_snr_ ::= fade_feed (rf_snr_db h) now_ms }} in
  b ← budget_base l;
  let l := l {{ pre_fec_loss_ := h_pre_fec_loss h ; u_ := d_div (h_pre_fec_loss h) b }} in
  l ← update_probe_gate h now_ms l;
  if d_geb now_ms (s3_blank_until_ms_ l) && d_geb now_ms (blank_store_until_ms_ l) then
    s ← observe_s1 (idx_ l) (u_ l) (d_gtb (residual_loss h) d_zero) now_ms (store_ l);
    s ← (if d_is_nan (rf_evm_db h) then Some s else observe_evm (idx_ l) (rf_evm_db h) s);
    Some (l {{ store_ := s }})
  else Some l.

(** Block 4b: whether the fade trigger fires, and its run and latch. *)
Definition fade_trigger (h : LinkHealth) (now_ms : double) (l : Ladder) : bool * Ladder :=
  let fc := fade_cfg cfg in
  if predict fc then
    let measurable := negb (d_is_nan (rf_rssi_dbm h)) && negb (d_is_nan (rf_snr_db h)) &&
                      has (fade_rssi_ l) && has (fade_snr_ l) in
    let dr := fade_delta (fade_rssi_ l) in let ds := fade_delta (fade_snr_ l) in
    let over := measurable && d_geb dr (rssi_db fc) && d_geb ds (snr_db fc) in
    let l := if measurable && d_ltb dr (rssi_db fc) && d_ltb ds (snr_db fc)
             then l {{ fade_latched_ := false }} else l in
    if negb over then (false, l {{ fade_trig_start_ms_ := kClosed }})
    else
      let l := if d_ltb (fade_trig_start_ms_ l) d_zero then l {{ fade_trig_start_ms_ := now_ms }} else l in
      (negb (fade_latched_ l) && (0 <? idx_ l) && (min_rung fc <=? idx_ l) &&
       elapsed now_ms (fade_trig_start_ms_ l) (trigger_ms fc) &&
       elapsed now_ms (last_change_ms_ l) (min_between_changes_ms cfg), l)
  else (false, l).

Definition fade_demote (now_ms : double) (l : Ladder) : option (bool * Ladder) :=
  let from := idx_ l in
  let l := step_down (from - 1) now_ms (l {{ probation_active_ := false }}) in
  l ← set_event now_ms from (from - 1) Fade (u_ l) ((enter_fade now_ms l) {{ counters_ ::= count_fade }});
  Some (true, l {{ fade_trig_start_ms_ := kClosed ; fade_latched_ := true }}).

(** Block 5a: the enhance layer's utilization, zero when it is not measurable. *)
Definition measure_s3 (h : LinkHealth) (now_ms : double) (l : Ladder) : option (bool * Ladder) :=
  let s3_live := s3_usable h && d_geb now_ms (s3_blank_until_ms_ l) in
  let l := if d_gtb (d_sub now_ms (s3_last_live_ms_ l)) (d_of_Z (s3_settle_ms cfg))
           then l {{ s3_util_start_ms_ := kClosed }} else l in
  if negb s3_live then Some (false, l {{ s3_util_start_ms_ := kClosed }})
  else
    b3 ← budget_enh_for (idx_ l);
    let l := l {{ s3_last_live_ms_ := now_ms ; u3_ := utilization (s3_pre_fec_loss h) b3 }} in
    if d_geb now_ms (blank_store_until_ms_ l) then
      s ← observe_s3 (idx_ l) (u3_ l) (d_gtb (s3_residual_loss h) d_zero) now_ms (store_ l);
      Some (true, l {{ store_ := s }})
    else Some (true, l).

Definition demote_probation (now_ms : double) (l : Ladder) : option (bool * Ladder) :=
  let from := idx_ l in
  l ← fail_probation now_ms l;
  l ← set_event now_ms from (from - 1) Probation (u_ l) (step_down (from - 1) now_ms l);
  Some (true, l).

Definition demote_util (now_ms : double) (l : Ladder) : option (bool * Ladder) :=
  let from := idx_ l in
  let l := (step_down (from - 1) now_ms l) {{ counters_ ::= count_util }} in
  l ← set_event now_ms from (from - 1) Util (u_ l) (enter_fade now_ms l);
  Some (true, l).

(** Block 6's move: up one rung, on probation. *)
Definition promote_to (next : Z) (probed : bool) (now_ms : double) (l : Ladder) : option (bool * Ladder) :=
  let from := idx_ l in
  let l := reset_windows (l {{ idx_ := next ; last_change_ms_ := now_ms }}) in
  let l := l {{ probation_active_ := true ; probation_rung_ := next ;
                probation_until_ms_ := d_add now_ms (d_of_Z (probation_ms cfg)) }} in
  let l := (mark_transition now_ms l) {{ counters_ ::= count_promote probed }} in
  l ← set_event now_ms from next (if probed then PromoteProbed else Promote) (u_ l) l;
  Some (true, l).

(** Block 6. *)
Definition clean_margin (now_ms : double) (l : Ladder) : option (bool * Ladder) :=
  if d_ltb (u_ l) (up_util cfg) then
    let l := if d_ltb (clean_start_ms_ l) d_zero then l {{ clean_start_ms_ := now_ms }} else l in
    let next := idx_ l + 1 in
    if (next <? Z.of_nat (length (rungs cfg))) && elapsed now_ms (clean_start_ms_ l) (clean_ms cfg) &&
       elapsed now_ms (last_down_ms_ l) (hold_after_down_ms cfg) &&
       elapsed now_ms (last_change_ms_ l) (min_between_changes_ms cfg) then
      penalized ← is_penalized next now_ms l;
      if (penalized : bool) then Some (false, l)
      else
        let g := probe_gate l in
        match g_state g with
        | ProbeOff => promote_to next false now_ms l
        | ProbeClean => if u64 (clean_bodies (probe_cfg cfg)) <=? streak_bodies g then promote_to next true now_ms l
                        else Some (false, l)
        | _ => Some (false, if probe_hold_active_ (probe_ l) then l
                            else l {{ probe_->probe_hold_active_ := true ;
                                      counters_->probe_holds ::= (fun n => u64 (n + 1)) }})
        end
    else Some (false, l)
  else Some (false, l {{ clean_start_ms_ := kClosed ; probe_->probe_hold_active_ := false }}).

(** Block 5b, then 6. *)
Definition s3_pressure (s3_live : bool) (now_ms : double) (l : Ladder) : option (bool * Ladder) :=
  if s3_demote cfg && s3_live then
    if d_gtb (u3_ l) s3_util_threshold then
      let l := if d_ltb (s3_util_start_ms_ l) d_zero then l {{ s3_util_start_ms_ := now_ms }} else l in
      if (0 <? idx_ l) && elapsed now_ms (s3_util_start_ms_ l) (eff_confirm_ms now_ms l) &&
         elapsed now_ms (last_change_ms_ l) (min_between_changes_ms cfg)
      then demote_booked now_ms S3Util count_s3_util (u3_ l) l
      else clean_margin now_ms l
    else clean_margin now_ms (l {{ s3_util_start_ms_ := kClosed }})
  else clean_margin now_ms l.

(** Block 5, then the rest. *)
Definition util_pressure (s3_live : bool) (now_ms : double) (l : Ladder) : option (bool * Ladder) :=
  if d_gtb (u_ l) (down_util cfg) then
    let l := if d_ltb (confirm_start_ms_ l) d_zero then l {{ confirm_start_ms_ := now_ms }} else l in
    if on_probation l then demote_probation now_ms l
    else if (0 <? idx_ l) && elapsed now_ms (confirm_start_ms_ l) (eff_confirm_ms now_ms l) &&
            elapsed now_ms (last_change_ms_ l) (min_between_changes_ms cfg)
    then demote_util now_ms l
    else s3_pressure s3_live now_ms l
  else s3_pressure s3_live now_ms (l {{ confirm_start_ms_ := kClosed }}).

Definition update (h : LinkHealth) (now_ms : double) (l : Ladder) : option (bool * Ladder) :=
  l ← check_probation_survival now_ms l;
  let l := l {{ snr_now_ := rf_snr_db h ; evm_now_ := rf_evm_db h ; u3_ := d_zero }} in
  if video_starved h then starved now_ms l
  else
    let l := l {{ starved_since_ms_ := kClosed }} in
    if negb (sample_valid h) then Some (false, l)
    else
      l ← measure h now_ms l;
      if d_gtb (residual_loss h) d_zero && (0 <? idx_ l) then demote_booked now_ms Residual count_residual (u_ l) l
      else
        let '(fire, l) := fade_trigger h now_ms l in
        if fire then fade_demote now_ms l
        else
          x ← measure_s3 h now_ms l;
          let '(s3_live, l) := x in
          if s3_demote cfg && s3_live && d_gtb (s3_residual_loss h) d_zero && (0 <? idx_ l)
          then demote_booked now_ms S3Residual count_s3_residual (u3_ l) l
          else util_pressure s3_live now_ms l.

(** ** The clock, and re-entries *)

Definition on_tick (now_ms : double) (l : Ladder) : option (bool * Ladder) :=
  l ← check_probation_survival now_ms l;
  if d_gtb (d_sub now_ms (last_feedback_ms_ l)) (d_of_Z (feedback_timeout_ms cfg)) && (0 <? idx_ l)
  then drop_to_floor now_ms Timeout count_timeout l
  else Some (false, l).

Definition clamp_rung (rung : Z) : Z :=
  let top := Z.of_nat (length (rungs cfg)) - 1 in
  if rung <? 0 then 0 else if top <? rung then top else rung.

Definition reenter (rung : Z) (now_ms : double) (why : CtlReason) (l : Ladder) : option Ladder :=
  let rung := clamp_rung rung in
  let from := idx_ l in
  let l := l {{ idx_ := rung ; last_change_ms_ := now_ms ; probation_active_ := false ;
                probation_until_ms_ := kNever ; probation_rung_ := -1 }} in
  let l := mark_transition now_ms (reset_windows l) in
  set_event now_ms from rung why (u_ l) l.

Definition restore (rung : Z) (now_ms : double) (l : Ladder) : option Ladder := reenter rung now_ms HopRestore l.

Definition swap_restore (rung : Z) (now_ms last_feedback_ms : double) (l : Ladder) : option Ladder :=
  reenter rung now_ms LadderSwap (l {{ last_feedback_ms_ := last_feedback_ms }}).

Definition unpin_restore (rung : Z) (now_ms : double) (l : Ladder) : option Ladder :=
  reenter rung now_ms Unpin (l {{ last_feedback_ms_ := now_ms }}).

Definition blank_store (until_ms : double) (l : Ladder) : Ladder :=
  l {{ blank_store_until_ms_ := d_max (blank_store_until_ms_ l) until_ms }}.

(** The operating point of the current rung. *)
Definition ladder_op (l : Ladder) : option Rung := at_index (rungs cfg) (idx_ l).

(** ** Steps *)

Inductive Call :=
| CUpdate (h : LinkHealth) (now_ms : double)
| CTick (now_ms : double)
| CRestore (rung : Z) (now_ms : double)
| CUnpin (rung : Z) (now_ms : double)
| CBlank (until_ms : double).

Definition ladder_call (c : Call) (l : Ladder) : option Ladder :=
  match c with
  | CUpdate h now => x ← update h now l; Some (snd x)
  | CTick now => x ← on_tick now l; Some (snd x)
  | CRestore r now => restore r now l
  | CUnpin r now => unpin_restore r now l
  | CBlank t => Some (blank_store t l)
  end.

Fixpoint ladder_calls (cs : list Call) (l : Ladder) : option Ladder :=
  match cs with [] => Some l | c :: cs => l ← ladder_call c l; ladder_calls cs l end.
End Ladder.
