(* ===== verification/LadderSound.v ===== *)
(** * LadderSound: every access of the rate controller stays inside, and its state stays sound

    Most of a sample's handling only measures: it leaves the rung and its bookkeeping alone.  The
    moves change them together. *)
From S2P Require Import Prelude SwConfig RungStore LadderController.

(** ** What measuring leaves alone *)

Record core_kept (l l' : Ladder) : Prop := mkCoreKept {
  ck_idx : idx_ l' = idx_ l;
  ck_change : last_change_ms_ l' = last_change_ms_ l;
  ck_down : last_down_ms_ l' = last_down_ms_ l;
  ck_active : probation_active_ l' = probation_active_ l;
  ck_rung : probation_rung_ l' = probation_rung_ l;
  ck_until : probation_until_ms_ l' = probation_until_ms_ l;
  ck_fail : fail_count_ l' = fail_count_ l;
  ck_penalty : penalty_until_ l' = penalty_until_ l;
  ck_store : same_rungs (store_ l) (store_ l');
}.

Lemma core_kept_refl l : core_kept l l.
Proof. by split. Qed.

Lemma core_kept_trans l1 l2 l3 : core_kept l1 l2 -> core_kept l2 l3 -> core_kept l1 l3.
Proof. unfold same_rungs. intros [] []. split; unfold same_rungs in *; congruence. Qed.

(** A record update of fields outside the core. *)
Ltac core := first [ by split | (split; reflexivity) ].

Section Ladder.
Context (exp : double -> double) (pow : double -> double -> double) (cfg : LadderCfg).

Abbreviation n_rungs := (Z.of_nat (length (rungs cfg))).

(** The controller's invariant. *)
Record ladder_ok (l : Ladder) : Prop := mkLadderOk {
  lo_idx : 0 <= idx_ l < n_rungs;
  lo_store : Z.of_nat (length (stats_ (store_ l))) = n_rungs;
  lo_fail : Z.of_nat (length (fail_count_ l)) = n_rungs;
  lo_penalty : Z.of_nat (length (penalty_until_ l)) = n_rungs;
  lo_counts : Forall (fun k => 0 <= k <= kMaxShiftExp) (fail_count_ l);
  lo_probation : probation_active_ l = true -> probation_rung_ l = idx_ l /\ 1 <= idx_ l;
}.

Lemma ladder_ok_kept l l' : core_kept l l' -> ladder_ok l -> ladder_ok l'.
Proof.
  unfold same_rungs. intros [E1 _ _ E4 E5 _ E6 E7 E8] [H1 H2 H3 H4 H5 H6]. unfold same_rungs in E8.
  split; rewrite ?E1, ?E4, ?E5, ?E6, ?E7, ?E8; try done.
Qed.

Lemma set_probe_core s r u now l : core_kept l (set_probe_state s r u now l).
Proof. unfold set_probe_state. case_bool_decide; core. Qed.

Lemma mark_transition_core now l : core_kept l (mark_transition cfg now l).
Proof.
  unfold mark_transition. case_bool_decide; [core |].
  eapply core_kept_trans; [| apply set_probe_core]. core.
Qed.

Lemma reset_windows_core l : core_kept l (reset_windows l).
Proof. core. Qed.

(** ** The accesses *)

Lemma budget_base_in l : ladder_ok l -> exists b, budget_base cfg l = Some b.
Proof. intros H. unfold budget_base. destruct (at_index_in (rungs cfg) (idx_ l) (lo_idx _ H)) as [r ->]. by eexists. Qed.

Lemma budget_enh_in i : 0 <= i < n_rungs -> exists b, budget_enh_for cfg i = Some b.
Proof. intros H. unfold budget_enh_for. destruct (at_index_in _ _ H) as [r ->]. by eexists. Qed.

Lemma probe_rung_in l : 0 <= idx_ l -> 0 <= probe_rung cfg l ->
  probe_rung cfg l < n_rungs /\ idx_ l + 1 < n_rungs.
Proof.
  intros Hi. unfold probe_rung. cbn zeta. destruct (negb _); [lia |].
  destruct (Z.leb_spec (n_rungs - 1) (idx_ l)); lia.
Qed.

Lemma store_rung l i : ladder_ok l -> 0 <= i < n_rungs -> rung_in (store_ l) i.
Proof. intros H Hi. unfold rung_in. by rewrite (lo_store _ H). Qed.

Lemma score_probe_in h pr now l : ladder_ok l -> 0 <= pr < n_rungs -> idx_ l + 1 < n_rungs ->
  exists l', score_probe cfg h pr now l = Some l' /\ core_kept l l'.
Proof.
  intros Hl Hp Hi. unfold score_probe.
  destruct (budget_enh_in (idx_ l + 1)) as [b ->]; [pose proof (lo_idx _ Hl); lia |]. cbn [mbind option_bind]. cbn zeta.
  match goal with |- context [observe_probe pr ?u now ?s] =>
    destruct (observe_probe_in pr u now s) as (s' & Es & Hs); [exact (store_rung l pr Hl Hp) |] end.
  rewrite Es. cbn [mbind option_bind].
  destruct (d_geb now _); cbn [mbind option_bind]; destruct (_ <? _), (d_leb _ _);
    try destruct (probe_streak_open_ _); eexists; (split; [reflexivity |]);
    (eapply core_kept_trans; [| apply set_probe_core]); first [core | (split; try reflexivity; exact Hs)].
Qed.

Lemma update_probe_gate_in h now l : ladder_ok l -> exists l', update_probe_gate cfg h now l = Some l' /\ core_kept l l'.
Proof.
  intros Hl. unfold update_probe_gate. cbn zeta. destruct (Z.ltb_spec (probe_rung cfg l) 0) as [Hn | Hp].
  { eexists. split; [reflexivity |]. eapply core_kept_trans; [| apply set_probe_core]. core. }
  destruct (probe_rung_in l) as [H1 H2]; [apply Hl | done |].
  destruct (_ && _ && _); [by apply score_probe_in |].
  destruct (d_gtb _ _); eexists; (split; [reflexivity |]); [| core].
  eapply core_kept_trans; [| apply set_probe_core]. core.
Qed.

Lemma set_event_in now from to why u l :
  ladder_ok l -> 0 <= from < n_rungs -> 0 <= to < n_rungs ->
  exists l', set_event now from to why u l = Some l' /\ core_kept l l' /\
    last_event_ l' = mkCtlEvent now from to why u (snr_now_ l) (evm_now_ l).
Proof.
  intros Hl Hf Ht. unfold set_event.
  destruct (on_transition_in from to why now (store_ l)) as (s' & -> & Hs); [by apply store_rung | by apply store_rung |].
  cbn [mbind option_bind]. eexists. split; [reflexivity |]. split; [| reflexivity]. split; try reflexivity. exact Hs.
Qed.

(** When the penalty of a rung that now failed for the [k]-th time in a row ends. *)
Definition penalty_end (now : double) (k : Z) : double :=
  d_add now (d_min (d_of_Z (penalty_max_ms cfg)) (d_of_Z (Z.shiftl (penalty_base_ms cfg) (k - 1)))).

(** The failures of a rung, this one included. *)
Definition failures (l : Ladder) (r : Z) : Z :=
  let k := default 0 (at_index (fail_count_ l) r) in if k <? kMaxShiftExp then k + 1 else k.

(** The failure counts after a failed probation. *)
Definition fails_booked (l : Ladder) : list Z :=
  if on_probation l then <[Z.to_nat (idx_ l) := failures l (idx_ l)]> (fail_count_ l) else fail_count_ l.

(** The penalties after a failed probation. *)
Definition penalty_booked (now : double) (l : Ladder) : list double :=
  if on_probation l then <[Z.to_nat (idx_ l) := penalty_end now (failures l (idx_ l))]> (penalty_until_ l)
  else penalty_until_ l.

Lemma penalize_in r now l : ladder_ok l -> 0 <= r < n_rungs ->
  exists f p l', penalize_rung cfg r now l = Some l' /\
    l' = l {{ fail_count_ := f ; penalty_until_ := p ; last_penalty_ := last_penalty_ l' }} /\
    Z.of_nat (length f) = n_rungs /\ Z.of_nat (length p) = n_rungs /\ Forall (fun k => 0 <= k <= kMaxShiftExp) f /\
    p = <[Z.to_nat r := penalty_end now (failures l r)]> (penalty_until_ l) /\
    f = <[Z.to_nat r := failures l r]> (fail_count_ l).
Proof.
  intros Hl Hr. unfold penalize_rung.
  destruct (at_index_in (fail_count_ l) r) as [k Hk]; [by rewrite (lo_fail _ Hl) |].
  rewrite (update_at_some _ _ _ _ Hk). cbn [mbind option_bind].
  rewrite at_index_insert by (by rewrite (lo_fail _ Hl)). cbn [mbind option_bind].
  destruct (at_index_in (penalty_until_ l) r) as [t Ht]; [by rewrite (lo_penalty _ Hl) |].
  rewrite (update_at_some _ _ _ _ Ht). cbn [mbind option_bind].
  do 3 eexists. split; [reflexivity |]. split; [reflexivity |]. rewrite !length_insert.
  split; [apply Hl |]. split; [apply Hl |]. split; [| split; unfold failures, at_index in *; by rewrite Hk]. apply Forall_insert; [apply Hl |].
  unfold at_index in Hk. destruct (r <? 0); [done |].
  pose proof (proj1 (Forall_lookup _ _) (lo_counts _ Hl) _ _ Hk) as Hc. cbn in Hc. unfold kMaxShiftExp in *.
  destruct (Z.ltb_spec k 32); lia.
Qed.

(** ** The probe's state *)

(** With no probe commanded, or none ever scored, no sample counts as recent. *)
Definition probe_ok (l : Ladder) : Prop :=
  (probe_rung cfg l < 0 \/ probe_state_ (probe_ l) = ProbeOff) -> probe_last_sample_ms_ (probe_ l) = kNever.

Lemma set_probe_state_eq s r u now l :
  probe_state_ (probe_ (set_probe_state s r u now l)) = s /\
  probe_last_sample_ms_ (probe_ (set_probe_state s r u now l)) = probe_last_sample_ms_ (probe_ l).
Proof. unfold set_probe_state. case_bool_decide as H; [by rewrite H | done]. Qed.

Lemma probe_rung_idx l l' : idx_ l' = idx_ l -> probe_rung cfg l' = probe_rung cfg l.
Proof. unfold probe_rung. by intros ->. Qed.

Lemma mark_transition_probe now l : probe_last_sample_ms_ (probe_ (mark_transition cfg now l)) = kNever.
Proof. unfold mark_transition. case_bool_decide; [done |]. by rewrite (proj2 (set_probe_state_eq _ _ _ _ _)). Qed.

(** After the gate's update a commanded probe is never off, whatever was measured. *)
Lemma update_probe_gate_probe h now l l' :
  probe_ok l -> update_probe_gate cfg h now l = Some l' -> idx_ l' = idx_ l ->
  probe_ok l' /\
  (0 <= probe_rung cfg l -> d_gtb (d_sub now kNever) (d_of_Z (silence_ms (probe_cfg cfg))) = true ->
   probe_state_ (probe_ l') <> ProbeOff) /\
  (probe_rung cfg l < 0 -> probe_state_ (probe_ l') = ProbeOff).
Proof.
  intros Hp Hu Hi. pose proof (probe_rung_idx _ _ Hi) as Hr. unfold probe_ok. rewrite Hr. revert Hu.
  unfold update_probe_gate. cbn zeta. destruct (Z.ltb_spec (probe_rung cfg l) 0) as [Hn | Hn].
  { intros [= <-]. rewrite !(proj1 (set_probe_state_eq _ _ _ _ _)), !(proj2 (set_probe_state_eq _ _ _ _ _)).
    split; [intros _; apply Hp; by left | split; [lia | done]]. }
  destruct (_ && _ && _).
  { unfold score_probe. destruct (budget_enh_for cfg _); cbn [mbind option_bind]; [| done]. cbn zeta.
    intros (l1 & _ & H)%bind_Some. revert H. destruct (_ <? _), (d_leb _ _).
    all: intros [= <-]; rewrite !(proj1 (set_probe_state_eq _ _ _ _ _)); (split; [intros [?|?]; [lia | done] | split; [done | lia]]). }
  destruct (d_gtb _ _) eqn:Hs; intros [= <-].
  - rewrite !(proj1 (set_probe_state_eq _ _ _ _ _)). split; [intros [?|?]; [lia | done] | split; [done | lia]].
  - split; [exact Hp |]. split; [| lia]. intros _ Hsane Hoff. rewrite (Hp (or_intror Hoff)) in Hs. congruence.
Qed.

(** ** A move *)

Definition downward (why : CtlReason) : bool :=
  match why with
  | Residual | Util | Probation | Starved | Timeout | S3Residual | S3Util | Fade => true
  | _ => false
  end.

(** The moves that book a running probation as failed. *)
Definition books (why : CtlReason) : bool :=
  match why with Residual | S3Residual | S3Util | Probation => true | _ => false end.

(** The moves that start a probation. *)
Definition starts_trial (why : CtlReason) : bool :=
  match why with Promote | PromoteProbed => true | _ => false end.

(** A move ends the probe's clean streak. *)
Definition streak_closed (l : Ladder) : Prop :=
  probe_streak_open_ (probe_ l) = false /\ probe_state_ (probe_ l) <> ProbeClean.

Lemma mark_transition_closed now l : streak_closed (mark_transition cfg now l).
Proof.
  unfold mark_transition, streak_closed. case_bool_decide as H; [by rewrite H |].
  rewrite (proj1 (set_probe_state_eq _ _ _ _ _)). split; [| done]. unfold set_probe_state. by case_bool_decide.
Qed.

(** What the bookkeeping looks like after a move. *)
Record moved (now : double) (to : Z) (why : CtlReason) (l l' : Ladder) : Prop := mkMoved {
  mv_ok : ladder_ok l';
  mv_probe : probe_ok l';
  mv_idx : idx_ l' = to;
  mv_change : last_change_ms_ l' = now;
  mv_down : last_down_ms_ l' = if downward why then now else last_down_ms_ l;
  mv_from : ce_from (last_event_ l') = idx_ l;
  mv_to : ce_to (last_event_ l') = to;
  mv_time : ce_t_ms (last_event_ l') = now;
  mv_why : ce_reason (last_event_ l') = why;
  mv_penalty : penalty_until_ l' = if books why then penalty_booked now l else penalty_until_ l;
  mv_fail : fail_count_ l' = if books why then fails_booked l else fail_count_ l;
  mv_active : probation_active_ l' = starts_trial why;
  mv_until : starts_trial why = true -> probation_until_ms_ l' = d_add now (d_of_Z (probation_ms cfg));
  mv_closed : streak_closed l';
}.

(** Where the link is, and since when. *)
Definition spot (l : Ladder) : Z * double * double := (idx_ l, last_change_ms_ l, last_down_ms_ l).

(** The state just before the event of a move is recorded. *)
Lemma moved_event now to why u l l1 :
  ladder_ok l1 -> probe_last_sample_ms_ (probe_ l1) = kNever -> spot l1 = (to, now, if downward why then now else last_down_ms_ l) ->
  penalty_until_ l1 = (if books why then penalty_booked now l else penalty_until_ l) ->
  fail_count_ l1 = (if books why then fails_booked l else fail_count_ l) -> probation_active_ l1 = starts_trial why ->
  (starts_trial why = true -> probation_until_ms_ l1 = d_add now (d_of_Z (probation_ms cfg))) -> streak_closed l1 ->
  0 <= idx_ l < n_rungs ->
  exists l', set_event now (idx_ l) to why u l1 = Some l' /\ moved now to why l l' /\ core_kept l1 l' /\
             u_ l' = u_ l1 /\ u3_ l' = u3_ l1.
Proof.
  intros Hok Hp Hs Hpen Hfl Hac Hun Hcl Hi. injection Hs as H1 H2 H3.
  destruct (set_event_in now (idx_ l) to why u l1 Hok Hi) as (l' & E & Hk & He); [rewrite <- H1; apply Hok |].
  exists l'. split; [exact E |]. pose proof Hk as [K1 K2 K3 K4 _ K5 K6 K7 _].
  assert (Hpr : probe_ l' = probe_ l1 /\ u_ l' = u_ l1 /\ u3_ l' = u3_ l1).
  { revert E. unfold set_event. intros (s & _ & [= <-])%bind_Some. split; [reflexivity | split; reflexivity]. }
  destruct Hpr as (Hpr & Hu & Hu3). split; [| by split_all]. split.
  - by eapply ladder_ok_kept.
  - intros _. by rewrite Hpr.
  - by rewrite K1.
  - by rewrite K2.
  - by rewrite K3.
  - by rewrite He.
  - by rewrite He.
  - by rewrite He.
  - by rewrite He.
  - by rewrite K7.
  - by rewrite K6.
  - by rewrite K4.
  - intros Hst. rewrite K5. by apply Hun.
  - unfold streak_closed. by rewrite Hpr.
Qed.

(** The rung may change where no probation is running. *)
Lemma ladder_ok_at l l' to :
  ladder_ok l -> 0 <= to < n_rungs -> idx_ l' = to -> store_ l' = store_ l -> fail_count_ l' = fail_count_ l ->
  penalty_until_ l' = penalty_until_ l -> (probation_active_ l' = true -> probation_rung_ l' = to /\ 1 <= to) -> ladder_ok l'.
Proof. intros [H1 H2 H3 H4 H5 H6] Ht E1 E2 E3 E4 Hp. split; rewrite ?E1, ?E2, ?E3, ?E4; done. Qed.

Lemma step_down_ok now to l :
  ladder_ok l -> 0 <= to < n_rungs -> probation_active_ l = false -> ladder_ok (step_down cfg to now l).
Proof.
  intros Hl Ht Hp. unfold step_down. eapply ladder_ok_kept; [apply mark_transition_core |].
  eapply ladder_ok_kept; [apply reset_windows_core |].
  eapply (ladder_ok_at l _ to); try done. intros Ha. change (probation_active_ l = true) in Ha. congruence.
Qed.

Lemma step_down_spot now to l : spot (step_down cfg to now l) = (to, now, now).
Proof.
  unfold step_down. match goal with |- spot (mark_transition _ _ ?x) = _ => pose proof (mark_transition_core now x) as [K1 K2 K3 _ _ _ _ _ _] end.
  unfold spot. by rewrite K1, K2, K3.
Qed.

Lemma step_down_u now to l : u_ (step_down cfg to now l) = u_ l /\ u3_ (step_down cfg to now l) = u3_ l.
Proof. unfold step_down, mark_transition, set_probe_state. repeat case_bool_decide; done. Qed.

(** ** The moves *)

Lemma step_down_probe now to l : probe_last_sample_ms_ (probe_ (step_down cfg to now l)) = kNever.
Proof. apply mark_transition_probe. Qed.

Lemma not_on_probation l : ladder_ok l -> on_probation l = false -> probation_active_ l = false.
Proof.
  intros Hl. unfold on_probation. destruct (probation_active_ l) eqn:Ha; [| done].
  destruct (lo_probation _ Hl Ha) as [-> _]. by rewrite Z.eqb_refl.
Qed.

Lemma fail_probation_in now l : ladder_ok l ->
  exists l', fail_probation cfg now l = Some l' /\ ladder_ok l' /\ spot l' = spot l /\ probation_active_ l' = false /\
             u_ l' = u_ l /\ u3_ l' = u3_ l /\
             penalty_until_ l' = <[Z.to_nat (idx_ l) := penalty_end now (failures l (idx_ l))]> (penalty_until_ l) /\
             fail_count_ l' = <[Z.to_nat (idx_ l) := failures l (idx_ l)]> (fail_count_ l).
Proof.
  intros Hl. unfold fail_probation. set (l0 := l {{ counters_->probation_fails ::= (fun c => u64 (c + 1)) }}).
  assert (H0 : ladder_ok l0) by (apply (ladder_ok_kept l); [core | done]).
  destruct (penalize_in (idx_ l) now l0 H0 (lo_idx _ Hl)) as (f & p & l1 & -> & E & Hf & Hp & Hc & Hpen & Hfl). cbn [mbind option_bind].
  eexists. split; [reflexivity |]. rewrite E.
  split; [| split; [reflexivity | split; [reflexivity | split; [reflexivity | split; [reflexivity | split; [exact Hpen | exact Hfl]]]]]].
  destruct Hl as [H1 H2 H3 H4 H5 H6]. by split.
Qed.

(** Recording the move to [to]. *)
Lemma move_down now to why u l l0 (upd : Ladder -> Ladder) :
  0 <= idx_ l < n_rungs -> ladder_ok l0 -> probation_active_ l0 = false -> 0 <= to < n_rungs -> downward why = true ->
  u_ l0 = u_ l -> u3_ l0 = u3_ l -> penalty_until_ l0 = (if books why then penalty_booked now l else penalty_until_ l) ->
  fail_count_ l0 = (if books why then fails_booked l else fail_count_ l) ->
  (forall x, core_kept x (upd x) /\ probe_ (upd x) = probe_ x /\ u_ (upd x) = u_ x /\ u3_ (upd x) = u3_ x) ->
  exists l', set_event now (idx_ l) to why u (upd (step_down cfg to now l0)) = Some l' /\
             moved now to why l l' /\ u_ l' = u_ l /\ u3_ l' = u3_ l.
Proof.
  intros Hi Hl Hp Ht Hd Hu Hu3 Hpen Hfl Hk. destruct (Hk (step_down cfg to now l0)) as (K & Kp & Ku & Ku3).
  assert (Hst : starts_trial why = false) by (by destruct why).
  destruct (moved_event now to why u l (upd (step_down cfg to now l0))) as (l' & E & Hm & Hc & E1 & E2).
  - eapply ladder_ok_kept; [exact K | by apply step_down_ok].
  - rewrite Kp. apply step_down_probe.
  - pose proof (step_down_spot now to l0) as Hs. destruct K as [K1 K2 K3 _ _ _ _ _ _]. unfold spot in *. by rewrite K1, K2, K3, Hs, Hd.
  - rewrite (ck_penalty _ _ K). unfold step_down. rewrite (ck_penalty _ _ (mark_transition_core now _)). exact Hpen.
  - rewrite (ck_fail _ _ K). unfold step_down. rewrite (ck_fail _ _ (mark_transition_core now _)). exact Hfl.
  - rewrite (ck_active _ _ K), Hst. unfold step_down. rewrite (ck_active _ _ (mark_transition_core now _)). exact Hp.
  - congruence.
  - unfold streak_closed. rewrite Kp. apply mark_transition_closed.
  - exact Hi.
  - exists l'. destruct (step_down_u now to l0) as [S1 S2]. split; [exact E |]. split; [exact Hm |]. split; congruence.
Qed.

(** The side conditions of [move_down]. *)
Ltac move_side :=
  try assumption; try reflexivity;
  try match goal with
  | H : books ?w = true |- _ = (if books ?w then _ else _) => rewrite H; assumption
  | H : books ?w = true |- _ = (if books ?w then fails_booked _ else _) => rewrite H; assumption
  | H : on_probation ?l = true |- _ = (if books _ then penalty_booked _ ?l else _) => unfold penalty_booked; rewrite H; assumption
  | H : on_probation ?l = true |- _ = (if books _ then fails_booked ?l else _) => unfold fails_booked; rewrite H; assumption
  end;
  try lazymatch goal with
  | |- _ <= _ => lia
  | |- _ <= _ < _ => lia
  | |- forall _, _ => intros x; split; [core | split; [reflexivity | split; reflexivity]]
  end.

Lemma demote_booked_in now why count u l :
  ladder_ok l -> 0 < idx_ l -> downward why = true -> books why = true ->
  exists l', demote_booked cfg now why count u l = Some (true, l') /\ moved now (idx_ l - 1) why l l' /\ u_ l' = u_ l /\ u3_ l' = u3_ l.
Proof.
  intros Hl Hi Hd Hb. pose proof (lo_idx _ Hl) as Hr. unfold demote_booked.
  assert (H0 : exists l0, (if on_probation l then fail_probation cfg now l else Some l) = Some l0 /\ ladder_ok l0 /\
                 probation_active_ l0 = false /\ u_ l0 = u_ l /\ u3_ l0 = u3_ l /\ penalty_until_ l0 = penalty_booked now l /\
                 fail_count_ l0 = fails_booked l).
  { unfold penalty_booked, fails_booked. destruct (on_probation l) eqn:Hp.
    - destruct (fail_probation_in now l Hl) as (l0 & E & H1 & _ & H2 & H3 & H4 & H5 & H6). by exists l0.
    - exists l. split_all; try done. by apply not_on_probation. }
  destruct H0 as (l0 & -> & H1 & H2 & H3 & H4 & H5 & H6). cbn [mbind option_bind].
  destruct (move_down now (idx_ l - 1) why u l l0 (fun x => enter_fade cfg now (x {{ counters_ ::= count }})))
    as (l' & E & Hm); move_side.
  cbv beta in E. rewrite E. cbn [mbind option_bind]. exists l'. split; [reflexivity | exact Hm].
Qed.

Lemma demote_probation_in now l : ladder_ok l -> on_probation l = true -> 0 < idx_ l ->
  exists l', demote_probation cfg now l = Some (true, l') /\ moved now (idx_ l - 1) Probation l l' /\ u_ l' = u_ l /\ u3_ l' = u3_ l.
Proof.
  intros Hl Hop Hi. pose proof (lo_idx _ Hl) as Hr. unfold demote_probation.
  destruct (fail_probation_in now l Hl) as (l0 & E0 & H1 & _ & H2 & H3 & H4 & H5 & H6). rewrite E0. cbn [mbind option_bind].
  destruct (move_down now (idx_ l - 1) Probation (u_ l0) l l0 (fun x => x)) as (l' & E & Hm); move_side.
  rewrite E. cbn [mbind option_bind]. exists l'. split; [reflexivity | exact Hm].
Qed.

Lemma demote_util_in now l : ladder_ok l -> on_probation l = false -> 0 < idx_ l ->
  exists l', demote_util cfg now l = Some (true, l') /\ moved now (idx_ l - 1) Util l l' /\ u_ l' = u_ l /\ u3_ l' = u3_ l.
Proof.
  intros Hl Hp Hi. pose proof (lo_idx _ Hl) as Hr. unfold demote_util. cbn zeta.
  match goal with |- context [set_event _ _ _ _ ?u _] =>
    destruct (move_down now (idx_ l - 1) Util u l l (fun x => enter_fade cfg now (x {{ counters_ ::= count_util }})))
      as (l' & E & Hm) end; move_side; [by apply not_on_probation |].
  cbv beta in E. rewrite E. cbn [mbind option_bind]. exists l'. split; [reflexivity | exact Hm].
Qed.

Lemma fade_demote_in now l : ladder_ok l -> 0 < idx_ l ->
  exists l', fade_demote cfg now l = Some (true, l') /\ moved now (idx_ l - 1) Fade l l' /\ u_ l' = u_ l /\ u3_ l' = u3_ l.
Proof.
  intros Hl Hi. pose proof (lo_idx _ Hl) as Hr. unfold fade_demote. cbn zeta. set (l0 := l {{ probation_active_ := false }}).
  assert (H0 : ladder_ok l0) by (apply (ladder_ok_at l _ (idx_ l)); try done; apply Hl).
  match goal with |- context [set_event _ _ _ _ ?u _] =>
    destruct (move_down now (idx_ l - 1) Fade u l l0 (fun x => (enter_fade cfg now x) {{ counters_ ::= count_fade }}))
      as (l' & E & [K1 K2 K3 K4 K5 K6 K7 K8 K9 K10 K11 K12 K13 K14] & Hu) end; move_side.
  cbv beta in E. rewrite E. cbn [mbind option_bind]. eexists. split; [reflexivity |]. split; [| exact Hu].
    split; [apply (ladder_ok_kept l'); [core | exact K1] | exact K2 | exact K3 | exact K4 | exact K5 | exact K6 | exact K7 | exact K8 | exact K9 | exact K10
          | exact K11 | exact K12 | exact K13 | exact K14].
Qed.

Lemma drop_to_floor_in now why count l : ladder_ok l -> downward why = true -> books why = false ->
  exists l', drop_to_floor cfg now why count l = Some (true, l') /\ moved now 0 why l l' /\ u_ l' = u_ l /\ u3_ l' = u3_ l.
Proof.
  intros Hl Hd Hb. pose proof (lo_idx _ Hl) as Hr. unfold drop_to_floor. set (l0 := l {{ probation_active_ := false }}).
  assert (H0 : ladder_ok l0) by (apply (ladder_ok_at l _ (idx_ l)); try done; apply Hl).
  destruct (move_down now 0 why d_zero l l0 (fun x => x {{ counters_ ::= count }})) as (l' & E & Hm); move_side.
  1, 2: by rewrite Hb.
  cbv beta in E. rewrite E. cbn [mbind option_bind]. exists l'. split; [reflexivity | exact Hm].
Qed.

Lemma promote_to_in probed now l : ladder_ok l -> idx_ l + 1 < n_rungs ->
  exists l', promote_to cfg (idx_ l + 1) probed now l = Some (true, l') /\
             moved now (idx_ l + 1) (if probed then PromoteProbed else Promote) l l' /\ u_ l' = u_ l /\ u3_ l' = u3_ l.
Proof.
  intros Hl Hi. pose proof (lo_idx _ Hl) as Hr. unfold promote_to. cbn zeta.
  match goal with |- context [mark_transition cfg now ?x] => set (l0 := x) end.
  assert (H0 : ladder_ok l0).
  { eapply (ladder_ok_at l l0 (idx_ l + 1)); try done; [lia |]. intros _. split; [reflexivity | lia]. }
  pose proof (mark_transition_core now l0) as K.
  match goal with |- context [set_event _ _ _ _ _ ?x] => set (l1 := x) end.
  assert (Hu : u_ l1 = u_ l /\ u3_ l1 = u3_ l) by (unfold l1, mark_transition, set_probe_state; repeat case_bool_decide; done).
  destruct (moved_event now (idx_ l + 1) (if probed then PromoteProbed else Promote) (u_ l1) l l1) as (l' & E & Hm & _ & E1 & E2).
  - apply (ladder_ok_kept (mark_transition cfg now l0)); [core | by eapply ladder_ok_kept].
  - exact (mark_transition_probe now l0).
  - destruct K as [K1 K2 K3 _ _ _ _ _ _]. change (spot (mark_transition cfg now l0) = (idx_ l + 1, now, if downward (if probed then PromoteProbed else Promote) then now else last_down_ms_ l)).
    unfold spot. rewrite K1, K2, K3. by destruct probed.
  - change (penalty_until_ l1) with (penalty_until_ (mark_transition cfg now l0)). rewrite (ck_penalty _ _ K). by destruct probed.
  - change (fail_count_ l1) with (fail_count_ (mark_transition cfg now l0)). rewrite (ck_fail _ _ K). by destruct probed.
  - change (probation_active_ l1) with (probation_active_ (mark_transition cfg now l0)). rewrite (ck_active _ _ K). by destruct probed.
  - intros _. change (probation_until_ms_ l1) with (probation_until_ms_ (mark_transition cfg now l0)). by rewrite (ck_until _ _ K).
  - exact (mark_transition_closed now l0).
  - exact Hr.
  - rewrite E. cbn [mbind option_bind]. exists l'. split; [reflexivity |]. split; [exact Hm |]. destruct Hu. split; congruence.
Qed.

Lemma reenter_in rung now why l : ladder_ok l -> downward why = false -> books why = false ->
  starts_trial why = false ->
  exists l', reenter cfg rung now why l = Some l' /\ moved now (clamp_rung cfg rung) why l l'.
Proof.
  intros Hl Hd Hb Hst. pose proof (lo_idx _ Hl) as Hr. unfold reenter. cbn zeta.
  assert (Hc : 0 <= clamp_rung cfg rung < n_rungs) by (unfold clamp_rung; repeat case_Zb; lia).
  match goal with |- context [mark_transition cfg now ?x] => set (l0 := x) end.
  assert (H0 : ladder_ok l0) by (eapply (ladder_ok_at l l0 (clamp_rung cfg rung)); done).
  pose proof (mark_transition_core now l0) as K.
  destruct (moved_event now (clamp_rung cfg rung) why (u_ (mark_transition cfg now l0)) l (mark_transition cfg now l0))
    as (l' & E & Hm & _).
  - by eapply ladder_ok_kept.
  - apply mark_transition_probe.
  - destruct K as [K1 K2 K3 _ _ _ _ _ _]. unfold spot. by rewrite K1, K2, K3, Hd.
  - rewrite Hb. exact (ck_penalty _ _ K).
  - rewrite Hb. exact (ck_fail _ _ K).
  - rewrite Hst. exact (ck_active _ _ K).
  - congruence.
  - apply mark_transition_closed.
  - exact Hr.
  - exists l'. by split.
Qed.
End Ladder.
