(* ===== verification/LadderProps.v ===== *)
(** * LadderProps: the rate controller's moves

    Every call returns, and what it does is a move of a small abstract machine: down one rung for
    a measured reason, to the floor for silence, up one rung at a time and never too soon. *)
From S2P Require Import Prelude SwConfig RungStore LadderController LadderSound.

Section Ladder.
Context (exp : double -> double) (pow : double -> double -> double) (cfg : LadderCfg).

Abbreviation n_rungs := (Z.of_nat (length (rungs cfg))).

(** ** The abstract machine *)

(** Its state: the rung, when it last changed, and when it was last lowered. *)
Abbreviation Spot := (Z * double * double)%type.

(** The clock is past the silence time since "never", and the probe is not below its rung. *)
Definition sane (now : double) : Prop :=
  d_gtb (d_sub now kNever) (d_of_Z (silence_ms (probe_cfg cfg))) = true /\ 0 <= rung_offset (probe_cfg cfg).

(** The spacing of the moves that wait. *)
Definition paced (s : Spot) (t : double) : Prop :=
  d_geb (d_sub t (snd (fst s))) (d_of_Z (min_between_changes_ms cfg)) = true.

Definition legal (s : Spot) (e : CtlEvent) : Prop :=
  let cur := fst (fst s) in
  ce_from e = cur /\
  match ce_reason e with
  | Residual | S3Residual | Probation => 0 < cur /\ ce_to e = cur - 1
  | Util | S3Util | Fade => 0 < cur /\ ce_to e = cur - 1 /\ paced s (ce_t_ms e)
  | Starved | Timeout => 0 < cur /\ ce_to e = 0
  | Promote | PromoteProbed =>
      ce_to e = cur + 1 /\ ce_to e < n_rungs /\ paced s (ce_t_ms e) /\
      d_geb (d_sub (ce_t_ms e) (snd s)) (d_of_Z (hold_after_down_ms cfg)) = true /\
      (sane (ce_t_ms e) -> p_enable (probe_cfg cfg) = bool_decide (ce_reason e = PromoteProbed))
  | HopRestore | LadderSwap | Unpin => 0 <= ce_to e < n_rungs
  | CtlNone => False
  end.

Definition after (s : Spot) (e : CtlEvent) : Spot :=
  (ce_to e, ce_t_ms e, if downward (ce_reason e) then ce_t_ms e else snd s).

(** ** What a sample shows *)

Definition measured (h : LinkHealth) : Prop := video_starved h = false /\ sample_valid h = true.

(** A loss as a share of what a code of overhead [ov] repairs; any loss of no code at all is infinite. *)
Definition repairable (ov : double) : double := d_div ov (d_add d_one ov).
Definition share (loss ov : double) : double :=
  if d_ltb d_zero (repairable ov) then d_div loss (repairable ov)
  else if d_ltb d_zero loss then d_of_Z (10 ^ 9) else d_zero.

Definition rung_at (r : Z) : Rung := nth (Z.to_nat r) (rungs cfg) (mkRung 0 d_zero d_zero 0).

(** The loss of a sample on rung [r], before any repair, as a share of what the base layer's code
    repairs there; and the enhancement layer's. *)
Definition base_share (r : Z) (h : LinkHealth) : double := d_div (h_pre_fec_loss h) (repairable (overhead_base (rung_at r))).
Definition enh_share (r : Z) (h : LinkHealth) : double := share (s3_pre_fec_loss h) (overhead_enh (rung_at r)).

(** The enhancement layer is measured, on enough symbols. *)
Definition enh_measured (h : LinkHealth) : Prop := s3_valid h = true /\ u64 (s3_min_syms cfg) <= s3_expected_syms h.

Definition enh_limit : double := if d_ltb (s3_down_util cfg) d_zero then down_util cfg else s3_down_util cfg.

(** What a sample that moves the link off rung [r] must have shown. *)
Definition cause (h : LinkHealth) (r : Z) (why : CtlReason) : Prop :=
  match why with
  | Starved => video_starved h = true
  | Residual => measured h /\ d_ltb d_zero (residual_loss h) = true
  | Fade => measured h /\ predict (fade_cfg cfg) = true /\ min_rung (fade_cfg cfg) <= r /\
            d_is_nan (rf_rssi_dbm h) = false /\ d_is_nan (rf_snr_db h) = false
  | S3Residual => measured h /\ s3_demote cfg = true /\ enh_measured h /\ d_ltb d_zero (s3_residual_loss h) = true
  | S3Util => measured h /\ s3_demote cfg = true /\ enh_measured h /\ d_ltb enh_limit (enh_share r h) = true
  | Util | Probation => measured h /\ d_ltb (down_util cfg) (base_share r h) = true
  | Promote | PromoteProbed => measured h /\ d_ltb (base_share r h) (up_util cfg) = true
  | _ => False
  end.

Lemma budget_base_share l b : budget_base cfg l = Some b -> b = repairable (overhead_base (rung_at (idx_ l))).
Proof.
  unfold budget_base, at_index, rung_at. destruct (idx_ l <? 0); cbn [mbind option_bind]; [done |].
  destruct (rungs cfg !! _) as [r|] eqn:E; cbn [mbind option_bind]; [| done]. intros [= <-]. by rewrite (nth_lookup_Some _ _ _ _ E).
Qed.

Lemma budget_enh_share i b loss : budget_enh_for cfg i = Some b -> utilization loss b = share loss (overhead_enh (rung_at i)).
Proof.
  unfold budget_enh_for, at_index, rung_at. destruct (i <? 0); cbn [mbind option_bind]; [done |].
  destruct (rungs cfg !! _) as [r|] eqn:E; cbn [mbind option_bind]; [| done]. intros [= <-]. by rewrite (nth_lookup_Some _ _ _ _ E).
Qed.

Lemma s3_usable_measured h : s3_usable cfg h = true -> enh_measured h.
Proof. unfold s3_usable. intros [H1 H2%Z.leb_le]%andb_true_iff. by split. Qed.

(** ** Measuring *)

Lemma spot_kept l l' : core_kept l l' -> spot l' = spot l.
Proof. intros [H1 H2 H3 _ _ _ _ _ _]. unfold spot. by rewrite H1, H2, H3. Qed.

Lemma booked_kept now l l' : core_kept l l' -> penalty_booked cfg now l' = penalty_booked cfg now l.
Proof.
  intros [H1 _ _ H4 H5 _ H6 H7 _]. unfold penalty_booked, on_probation, failures. by rewrite H1, H4, H5, H6, H7.
Qed.

Lemma fails_kept l l' : core_kept l l' -> fails_booked l' = fails_booked l.
Proof. intros [H1 _ _ H4 H5 _ H6 _ _]. unfold fails_booked, on_probation, failures. by rewrite H1, H4, H5, H6. Qed.

(** A stage that only touches windows. *)
Record windows_kept (l l' : Ladder) : Prop := mkWindowsKept {
  wk_core : core_kept l l';
  wk_probe : probe_ l' = probe_ l;
  wk_u : u_ l' = u_ l;
}.

Lemma windows_trans l1 l2 l3 : windows_kept l1 l2 -> windows_kept l2 l3 -> windows_kept l1 l3.
Proof. intros [C1 P1 U1] [C2 P2 U2]. split; [by eapply core_kept_trans | congruence | congruence]. Qed.

Lemma probe_ok_kept l l' : core_kept l l' -> probe_ l' = probe_ l -> probe_ok cfg l -> probe_ok cfg l'.
Proof. intros Hk Hp. unfold probe_ok. rewrite Hp, (probe_rung_idx cfg l l' (ck_idx _ _ Hk)). exact id. Qed.

Ltac windows := split; [core | reflexivity | reflexivity].

Lemma survival_in now l : ladder_ok cfg l ->
  exists l', check_probation_survival now l = Some l' /\ ladder_ok cfg l' /\ spot l' = spot l /\
    penalty_until_ l' = penalty_until_ l /\ probe_ l' = probe_ l.
Proof.
  intros Hl. unfold check_probation_survival. destruct (_ && _); [| by exists l].
  destruct (update_at_in (fail_count_ l) (idx_ l) (fun _ => 0)) as (f & E & Hf); [rewrite (lo_fail _ _ Hl); apply Hl |].
  assert (Hc : Forall (fun k => 0 <= k <= kMaxShiftExp) f).
  { revert E. unfold update_at. intros (k & _ & [= <-])%bind_Some. apply Forall_insert; [apply Hl | unfold kMaxShiftExp; lia]. }
  rewrite E. cbn [mbind option_bind]. eexists. split; [reflexivity |].
  split; [| split; [reflexivity | split; reflexivity]]. destruct Hl as [H1 H2 H3 H4 H5 H6].
  split; [exact H1 | exact H2 | change (Z.of_nat (length f) = n_rungs); lia | exact H4 | exact Hc | intros Hx; discriminate Hx].
Qed.

(** The gate leaves the score alone. *)
Lemma set_probe_u st r u now l : u_ (set_probe_state st r u now l) = u_ l.
Proof. unfold set_probe_state. by case_bool_decide. Qed.

Lemma update_probe_gate_u h now l l' : update_probe_gate cfg h now l = Some l' -> u_ l' = u_ l.
Proof.
  unfold update_probe_gate. cbn zeta. destruct (probe_rung cfg l <? 0); [intros [= <-]; exact (set_probe_u _ _ _ _ _) |].
  destruct (_ && _ && _); [| destruct (d_gtb _ _); intros [= <-]; [exact (set_probe_u _ _ _ _ _) | reflexivity]].
  unfold score_probe. destruct (budget_enh_for cfg _); cbn [mbind option_bind]; [| done]. cbn zeta. intros (l1 & E & H)%bind_Some.
  assert (U1 : u_ l1 = u_ l) by (revert E; destruct (d_geb _ _); [intros (s & _ & [= <-])%bind_Some | intros [= <-]]; reflexivity).
  rewrite <- U1. revert H. destruct (_ <? _), (d_leb _ _); try destruct (probe_streak_open_ _); intros [= <-]; exact (set_probe_u _ _ _ _ _).
Qed.

Lemma measure_in h now l : ladder_ok cfg l -> probe_ok cfg l ->
  exists l', measure exp cfg h now l = Some l' /\ core_kept l l' /\ probe_ok cfg l' /\
    (0 <= probe_rung cfg l -> sane now -> probe_state_ (probe_ l') <> ProbeOff) /\
    (probe_rung cfg l < 0 -> probe_state_ (probe_ l') = ProbeOff) /\ u_ l' = base_share (idx_ l') h.
Proof.
  intros Hl Hp. unfold measure. cbn zeta.
  match goal with |- context [budget_base cfg ?x] => set (l1 := x) end.
  assert (H1 : windows_kept l l1) by (unfold l1; destruct (d_is_nan (rf_rssi_dbm h)), (d_is_nan (rf_snr_db h)); windows).
  assert (O1 : ladder_ok cfg l1) by (eapply ladder_ok_kept; [apply H1 | done]).
  destruct (budget_base_in cfg l1 O1) as [b Eb]. rewrite Eb. cbn [mbind option_bind].
  pose proof (f_equal (d_div (h_pre_fec_loss h)) (budget_base_share _ _ Eb)) as Ub.
  match goal with |- context [update_probe_gate cfg h now ?x] => set (l2 := x) end.
  assert (K2 : core_kept l l2) by (eapply core_kept_trans; [apply H1 | core]).
  assert (O2 : ladder_ok cfg l2) by (eapply ladder_ok_kept; [exact K2 | done]).
  assert (P2 : probe_ok cfg l2) by (apply (probe_ok_kept l); [exact K2 | exact (wk_probe _ _ H1) | exact Hp]).
  destruct (update_probe_gate_in cfg h now l2 O2) as (l3 & E3 & K3). rewrite E3. cbn [mbind option_bind].
  destruct (update_probe_gate_probe cfg h now l2 l3 P2 E3 (ck_idx _ _ K3)) as (P3 & N3 & F3).
  rewrite (probe_rung_idx cfg l l2 (ck_idx _ _ K2)) in N3, F3.
  assert (N3' : 0 <= probe_rung cfg l -> sane now -> probe_state_ (probe_ l3) <> ProbeOff) by (intros Hr [Hs _]; by apply N3).
  clear N3. rename N3' into N3.
  assert (U3 : u_ l3 = base_share (idx_ l3) h) by (rewrite (update_probe_gate_u _ _ _ _ E3), (ck_idx _ _ K3); exact Ub).
  assert (K13 : core_kept l l3) by (by eapply core_kept_trans).
  assert (O3 : ladder_ok cfg l3) by (by eapply ladder_ok_kept).
  assert (Hfin : forall s, same_rungs (store_ l3) s ->
    exists l', Some (l3 {{ store_ := s }}) = Some l' /\ core_kept l l' /\ probe_ok cfg l' /\
      (0 <= probe_rung cfg l -> sane now -> probe_state_ (probe_ l') <> ProbeOff) /\
      (probe_rung cfg l < 0 -> probe_state_ (probe_ l') = ProbeOff) /\ u_ l' = base_share (idx_ l') h).
  { intros s Hs. eexists. split; [reflexivity |]. split; [| split; [exact P3 | split; [exact N3 | split; [exact F3 | exact U3]]]].
    eapply core_kept_trans; [exact K13 |]. split; try reflexivity. exact Hs. }
  destruct (d_geb now _ && _); [| exists l3; split; [reflexivity |]; split; [exact K13 |]; split; [exact P3 |]; split; [exact N3 | split; [exact F3 | exact U3]]].
  destruct (observe_s1_in (idx_ l3) (u_ l3) (d_gtb (residual_loss h) d_zero) now (store_ l3)) as (s & -> & Hs);
    [apply (store_rung cfg); [done | apply O3] |]. cbn [mbind option_bind].
  destruct (d_is_nan (rf_evm_db h)); cbn [mbind option_bind]; [by apply Hfin |].
  destruct (observe_evm_in (idx_ l3) (rf_evm_db h) s) as (s' & -> & Hs').
  { unfold rung_in. rewrite Hs. pose proof (lo_idx _ _ O3). by rewrite (lo_store _ _ O3). }
  cbn [mbind option_bind]. apply Hfin. unfold same_rungs in *. congruence.
Qed.

Lemma fade_trigger_windows h now l : windows_kept l (snd (fade_trigger cfg h now l)).
Proof.
  unfold fade_trigger. destruct (predict _); [| windows]. cbn zeta.
  destruct (_ && d_ltb _ _ && d_ltb _ _); destruct (negb _); cbn [snd]; try windows; destruct (d_ltb _ d_zero); windows.
Qed.

Lemma measure_s3_in h now l : ladder_ok cfg l -> exists live l', measure_s3 cfg h now l = Some (live, l') /\ windows_kept l l' /\
  (live = true -> enh_measured h /\ u3_ l' = enh_share (idx_ l') h).
Proof.
  intros Hl. unfold measure_s3. cbn zeta.
  match goal with |- context [d_gtb ?a ?b] => set (l1 := if d_gtb a b then l {{ s3_util_start_ms_ := kClosed }} else l) end.
  assert (H1 : windows_kept l l1) by (unfold l1; destruct (d_gtb _ _); windows). clearbody l1.
  destruct (s3_usable cfg h) eqn:Hu; cbn [andb negb]; [| by (do 2 eexists; split; [reflexivity |]; split; [eapply windows_trans; [exact H1 | windows] |])].
  destruct (d_geb now (s3_blank_until_ms_ l)); cbn [negb]; [| by (do 2 eexists; split; [reflexivity |]; split; [eapply windows_trans; [exact H1 | windows] |])].
  pose proof (ladder_ok_kept cfg _ _ (wk_core _ _ H1) Hl) as O1.
  destruct (budget_enh_in cfg (idx_ l1) (lo_idx _ _ O1)) as [b Eb]. rewrite Eb. cbn [mbind option_bind].
  pose proof (budget_enh_share _ _ (s3_pre_fec_loss h) Eb) as Ev.
  destruct (d_geb now _).
  - match goal with |- context [observe_s3 ?i ?u ?r now ?s] => destruct (observe_s3_in i u r now s) as (s' & Es & Hs) end.
    { exact (store_rung cfg l1 _ O1 (lo_idx _ _ O1)). }
    rewrite Es. cbn [mbind option_bind]. do 2 eexists. split; [reflexivity |]. split; [| intros _; split; [by apply s3_usable_measured | exact Ev]].
    eapply windows_trans; [exact H1 |]. split; [| reflexivity | reflexivity]. split; try reflexivity. exact Hs.
  - do 2 eexists. split; [reflexivity |]. split; [| intros _; split; [by apply s3_usable_measured | exact Ev]]. eapply windows_trans; [exact H1 | windows].
Qed.

(** ** One sample *)

(** The probe's verdict is one of this sample. *)
Definition gated (now : double) (l : Ladder) : Prop :=
  (0 <= probe_rung cfg l -> sane now -> probe_state_ (probe_ l) <> ProbeOff) /\
  (probe_rung cfg l < 0 -> probe_state_ (probe_ l) = ProbeOff).

(** The probe's clean streak: its verdict, whether it is open, and the body counts it spans. *)
Abbreviation Streak := (ProbeGateState * bool * Z * Z * double)%type.
Definition streak (l : Ladder) : Streak :=
  let p := probe_ l in
  (probe_state_ p, probe_streak_open_ p, probe_streak_start_bodies_ p, probe_bodies_total_ p, probe_last_sample_ms_ p).

(** A streak that lets the link climb. *)
Definition verdict (s : Streak) : Prop :=
  let '(st, open, start, total, _) := s in
  st = ProbeClean /\ u64 (clean_bodies (probe_cfg cfg)) <= if (open : bool) then u64 (total - start) else 0.

Lemma streak_same l l' : probe_ l' = probe_ l -> streak l' = streak l.
Proof. unfold streak. by intros ->. Qed.

(** What a block of [update] may answer, entered with the streak [s]. *)
Definition answer (s : Streak) (P : CtlReason -> Prop) (now : double) (l : Ladder) (r : option (bool * Ladder)) : Prop :=
  exists b l', r = Some (b, l') /\
    if b then exists to why, moved cfg now to why l l' /\ legal (spot l) (last_event_ l') /\ P why /\
              (downward why = false -> is_penalized to now l = Some false) /\ (why = PromoteProbed -> verdict s)
    else core_kept l l' /\ probe_ok cfg l' /\ streak l' = s.

Lemma moved_core now to why l l1 l' : core_kept l l1 -> moved cfg now to why l1 l' -> moved cfg now to why l l'.
Proof.
  intros K [H1 H2 H3 H4 H5 H6 H7 H8 H9 H10 H11 H12 H13 H14]. rewrite (booked_kept now _ _ K) in H10. rewrite (fails_kept _ _ K) in H11.
  rewrite (ck_down _ _ K) in H5. rewrite (ck_idx _ _ K) in H6. rewrite (ck_penalty _ _ K) in H10. rewrite (ck_fail _ _ K) in H11.
  split; [exact H1 | exact H2 | exact H3 | exact H4 | exact H5 | exact H6 | exact H7 | exact H8 | exact H9 | exact H10
         | exact H11 | exact H12 | exact H13 | exact H14].
Qed.

Lemma answer_core s P now l l1 r : core_kept l l1 -> answer s P now l1 r -> answer s P now l r.
Proof.
  intros K (b & l' & E & H). exists b, l'. split; [exact E |]. destruct b.
  - destruct H as (to & why & Hm & Hl & HP & Hp). exists to, why. rewrite (spot_kept _ _ K) in Hl.
    split; [by eapply moved_core |]. split; [exact Hl |]. split; [exact HP |]. split; [| apply Hp].
    intros Hd. rewrite <- (proj1 Hp Hd). unfold is_penalized. by rewrite (ck_penalty _ _ K).
  - destruct H as [H1 H2]. split; [by eapply core_kept_trans | exact H2].
Qed.

Lemma answer_stay s P now l l' : core_kept l l' -> probe_ok cfg l' -> streak l' = s -> answer s P now l (Some (false, l')).
Proof. intros H1 H2 H3. exists false, l'. split; [reflexivity |]. split; [exact H1 | split; [exact H2 | exact H3]]. Qed.

Lemma answer_move (s : Streak) (P : CtlReason -> Prop) now to why l l' :
  moved cfg now to why l l' ->
  (ce_from (last_event_ l') = idx_ l -> ce_to (last_event_ l') = to -> ce_t_ms (last_event_ l') = now ->
   ce_reason (last_event_ l') = why -> legal (spot l) (last_event_ l')) ->
  P why -> (downward why = false -> is_penalized to now l = Some false) -> (why = PromoteProbed -> verdict s) ->
  answer s P now l (Some (true, l')).
Proof.
  intros Hm Hl HP Hp Hv. exists true, l'. split; [reflexivity |]. exists to, why. split; [exact Hm |].
  split; [| split; [exact HP | split; [exact Hp | exact Hv]]]. destruct Hm as [_ _ _ _ _ H6 H7 H8 H9 _ _ _ _ _]. exact (Hl H6 H7 H8 H9).
Qed.

(** Close the legality of a move from the facts its guard gave. *)
Ltac legally :=
  let F := fresh in let T := fresh in let C := fresh in let W := fresh in
  intros F T C W; unfold legal, paced; rewrite W, F, ?T, ?C; cbn [fst snd spot]; split_all; try assumption; try reflexivity.

Lemma clean_margin_out h r now l : ladder_ok cfg l -> probe_ok cfg l -> gated now l -> measured h -> u_ l = base_share r h ->
  answer (streak l) (cause h r) now l (clean_margin cfg now l).
Proof.
  intros Hl Hp [Hg1 Hg2] Hm Hsc. unfold clean_margin. destruct (d_ltb (u_ l) (up_util cfg)) eqn:Hu.
  2: { apply answer_stay; [core | exact Hp | reflexivity]. }
  cbn zeta. match goal with |- context [if d_ltb ?a ?b then ?x else l] => set (l1 := if d_ltb a b then x else l) end.
  assert (H1 : windows_kept l l1) by (unfold l1; destruct (d_ltb (clean_start_ms_ l) _); windows). clearbody l1.
  pose proof (wk_core _ _ H1) as K. apply (answer_core _ _ _ _ _ _ K). rewrite <- (streak_same _ _ (wk_probe _ _ H1)).
  pose proof (ladder_ok_kept cfg _ _ K Hl) as O1. pose proof (probe_ok_kept _ _ K (wk_probe _ _ H1) Hp) as P1.
  destruct (_ && _ && _ && _) eqn:Hc; [| apply answer_stay; [apply core_kept_refl | exact P1 | reflexivity]].
  apply andb_true_iff in Hc as [[[Hn%Z.ltb_lt _]%andb_true_iff Hd]%andb_true_iff Hch].
  destruct (is_penalized (idx_ l1 + 1) now l1) as [pen|] eqn:Hpen.
  2: { exfalso. revert Hpen. unfold is_penalized. destruct (at_index_in (penalty_until_ l1) (idx_ l1 + 1)) as [t ->]; [| done].
       pose proof (lo_idx _ _ O1). pose proof (lo_penalty _ _ O1). lia. }
  cbn [mbind option_bind]. destruct pen; [apply answer_stay; [apply core_kept_refl | exact P1 | reflexivity] |].
  assert (Hpr : probe_rung cfg l1 = probe_rung cfg l) by exact (probe_rung_idx _ _ _ (ck_idx _ _ K)).
  assert (Hen : 0 <= rung_offset (probe_cfg cfg) -> probe_rung cfg l1 < 0 -> p_enable (probe_cfg cfg) = false).
  { unfold probe_rung. cbn zeta. destruct (p_enable (probe_cfg cfg)); cbn [negb]; [| done].
    rewrite (proj2 (Z.leb_gt _ _)) by lia. pose proof (lo_idx _ _ O1). lia. }
  assert (Hen' : 0 <= probe_rung cfg l1 -> p_enable (probe_cfg cfg) = true).
  { unfold probe_rung. cbn zeta. destruct (p_enable (probe_cfg cfg)); cbn [negb]; [done | lia]. }
  assert (Hmove : forall probed, (sane now -> p_enable (probe_cfg cfg) = probed) -> (probed = true -> verdict (streak l1)) ->
            answer (streak l1) (cause h r) now l1 (promote_to cfg (idx_ l1 + 1) probed now l1)).
  { intros probed Hpe Hv. destruct (promote_to_in cfg probed now l1 O1 Hn) as (l' & -> & Hmv & Eu & _).
    apply (answer_move _ _ _ _ _ _ _ Hmv).
    - intros F T C W. unfold legal, paced. rewrite W, F, T, C. destruct probed; cbn [fst snd spot]; split_all; try done.
      all: rewrite bool_decide_eq_false_2 by done; exact Hpe.
    - destruct probed; (split; [exact Hm |]); rewrite <- Hsc; exact Hu.
    - intros _. exact Hpen.
    - destruct probed; [intros _; by apply Hv | discriminate]. }
  unfold probe_gate. cbn [g_state streak_bodies]. rewrite (wk_probe _ _ H1).
  destruct (probe_state_ (probe_ l)) eqn:Hst.
  - apply Hmove; [| discriminate]. intros Hs. apply Hen; [apply Hs |]. rewrite Hpr.
    destruct (Z.lt_ge_cases (probe_rung cfg l) 0); [done |]. by destruct (Hg1 ltac:(lia) Hs).
  - destruct (probe_hold_active_ _); (apply answer_stay; [first [apply core_kept_refl | core] | exact P1 | reflexivity]).
  - destruct (_ <=? _) eqn:Hle; [| apply answer_stay; [apply core_kept_refl | exact P1 | reflexivity]].
    apply Hmove.
    + intros _. apply Hen'. rewrite Hpr. destruct (Z.lt_ge_cases (probe_rung cfg l) 0) as [Hlt |]; [| done].
      specialize (Hg2 Hlt). congruence.
    + intros _. unfold verdict, streak. rewrite (wk_probe _ _ H1). split; [exact Hst |]. apply Z.leb_le in Hle.
      by destruct (probe_streak_open_ (probe_ l)).
  - destruct (probe_hold_active_ _); (apply answer_stay; [first [apply core_kept_refl | core] | exact P1 | reflexivity]).
Qed.

Lemma gated_kept now l l' : core_kept l l' -> probe_ l' = probe_ l -> gated now l -> gated now l'.
Proof. intros K Hp. unfold gated. rewrite Hp, (probe_rung_idx cfg l l' (ck_idx _ _ K)). exact id. Qed.

Lemma s3_pressure_out h r live now l : ladder_ok cfg l -> probe_ok cfg l -> gated now l -> measured h -> u_ l = base_share r h ->
  (live = true -> enh_measured h /\ u3_ l = enh_share r h) -> answer (streak l) (cause h r) now l (s3_pressure cfg live now l).
Proof.
  intros Hl Hp Hg Hm Hsc Hlive. unfold s3_pressure. destruct (s3_demote cfg) eqn:Hs3; cbn [andb]; [| by apply clean_margin_out].
  destruct live; [| by apply clean_margin_out]. destruct (d_gtb (u3_ l) _) eqn:Hu3.
  - cbn zeta. match goal with |- context [if d_ltb ?a ?b then ?x else l] => set (l1 := if d_ltb a b then x else l) end.
    assert (H1 : windows_kept l l1 /\ u3_ l1 = u3_ l) by (unfold l1; destruct (d_ltb (s3_util_start_ms_ l) _); (split; [windows | reflexivity])).
    destruct H1 as [H1 H3]. clearbody l1. pose proof (wk_core _ _ H1) as K. apply (answer_core _ _ _ _ _ _ K). rewrite <- (streak_same _ _ (wk_probe _ _ H1)).
    pose proof (ladder_ok_kept cfg _ _ K Hl) as O1. pose proof (probe_ok_kept _ _ K (wk_probe _ _ H1) Hp) as P1.
    destruct (_ && _ && _) eqn:Hc.
    + apply andb_true_iff in Hc as [[Hi%Z.ltb_lt _]%andb_true_iff Hch].
      destruct (demote_booked_in cfg now S3Util count_s3_util (u3_ l1) l1 O1 Hi eq_refl eq_refl) as (l' & -> & Hmv & _ & Eu3).
      apply (answer_move _ _ _ _ _ _ _ Hmv); [legally | | done | discriminate].
      destruct (Hlive eq_refl) as [He E3]. split; [exact Hm |]. split; [exact Hs3 |]. split; [exact He |]. rewrite <- E3. exact Hu3.
    + apply clean_margin_out; [exact O1 | exact P1 | exact (gated_kept _ _ _ K (wk_probe _ _ H1) Hg) | exact Hm | by rewrite (wk_u _ _ H1)].
  - match goal with |- answer _ _ _ _ (clean_margin _ _ ?x) => change (streak l) with (streak x); apply (answer_core _ _ _ _ x); [core |] end.
    apply clean_margin_out; [apply (ladder_ok_kept cfg l); [core | exact Hl] | exact Hp | exact Hg | exact Hm | exact Hsc].
Qed.

Lemma util_pressure_out h r live now l : ladder_ok cfg l -> probe_ok cfg l -> gated now l -> measured h -> u_ l = base_share r h ->
  (live = true -> enh_measured h /\ u3_ l = enh_share r h) -> answer (streak l) (cause h r) now l (util_pressure cfg live now l).
Proof.
  intros Hl Hp Hg Hm Hsc Hlive. unfold util_pressure. destruct (d_gtb (u_ l) _) eqn:Hu.
  - cbn zeta. match goal with |- context [if d_ltb ?a ?b then ?x else l] => set (l1 := if d_ltb a b then x else l) end.
    assert (H1 : windows_kept l l1 /\ u3_ l1 = u3_ l) by (unfold l1; destruct (d_ltb (confirm_start_ms_ l) _); (split; [windows | reflexivity])).
    destruct H1 as [H1 H3]. clearbody l1. pose proof (wk_core _ _ H1) as K. apply (answer_core _ _ _ _ _ _ K). rewrite <- (streak_same _ _ (wk_probe _ _ H1)).
    pose proof (ladder_ok_kept cfg _ _ K Hl) as O1. pose proof (probe_ok_kept _ _ K (wk_probe _ _ H1) Hp) as P1.
    destruct (on_probation l1) eqn:Hop.
    + assert (Hi : 0 < idx_ l1).
      { unfold on_probation in Hop. apply andb_true_iff in Hop as [Ha _]. destruct (lo_probation _ _ O1 Ha). lia. }
      destruct (demote_probation_in cfg now l1 O1 Hop Hi) as (l' & -> & Hmv & Eu & _).
      apply (answer_move _ _ _ _ _ _ _ Hmv); [legally | | done | discriminate]. split; [exact Hm |]. rewrite <- Hsc. exact Hu.
    + destruct (_ && _ && _) eqn:Hc.
      * apply andb_true_iff in Hc as [[Hi%Z.ltb_lt _]%andb_true_iff Hch].
        destruct (demote_util_in cfg now l1 O1 Hop Hi) as (l' & -> & Hmv & Eu & _).
        apply (answer_move _ _ _ _ _ _ _ Hmv); [legally | | done | discriminate]. split; [exact Hm |]. rewrite <- Hsc. exact Hu.
      * apply s3_pressure_out; [exact O1 | exact P1 | exact (gated_kept _ _ _ K (wk_probe _ _ H1) Hg) | exact Hm | by rewrite (wk_u _ _ H1) | by rewrite H3].
  - match goal with |- answer _ _ _ _ (s3_pressure _ _ _ ?x) => change (streak l) with (streak x); apply (answer_core _ _ _ _ x); [core |] end.
    apply s3_pressure_out; [apply (ladder_ok_kept cfg l); [core | exact Hl] | exact Hp | exact Hg | exact Hm | exact Hsc | exact Hlive].
Qed.

Lemma starved_out h r now l : ladder_ok cfg l -> probe_ok cfg l -> video_starved h = true ->
  answer (streak l) (cause h r) now l (starved cfg now l).
Proof.
  intros Hl Hp Hv. unfold starved. cbn zeta.
  match goal with |- context [if d_ltb ?a ?b then ?x else l] => set (l1 := if d_ltb a b then x else l) end.
  assert (H1 : windows_kept l l1) by (unfold l1; destruct (d_ltb (starved_since_ms_ l) _); windows).
  clearbody l1. pose proof (wk_core _ _ H1) as K. apply (answer_core _ _ _ _ _ _ K). rewrite <- (streak_same _ _ (wk_probe _ _ H1)).
  pose proof (ladder_ok_kept cfg _ _ K Hl) as O1. pose proof (probe_ok_kept _ _ K (wk_probe _ _ H1) Hp) as P1.
  destruct (d_ltb (d_sub _ _) _); [apply answer_stay; [apply core_kept_refl | exact P1 | reflexivity] |].
  destruct (Z.eqb_spec (idx_ l1) 0) as [| Hi]; [apply answer_stay; [apply core_kept_refl | exact P1 | reflexivity] |].
  destruct (drop_to_floor_in cfg now Starved count_starved l1 O1 eq_refl eq_refl) as (l' & -> & Hmv & _).
  assert (Hi' : 0 < idx_ l1) by (pose proof (lo_idx _ _ O1); lia).
  apply (answer_move _ _ _ _ _ _ _ Hmv); [legally | exact Hv | done | discriminate].
Qed.

(** Everything behind the residual check. *)
Lemma rest_out h now l : ladder_ok cfg l -> probe_ok cfg l -> gated now l -> measured h -> u_ l = base_share (idx_ l) h ->
  answer (streak l) (cause h (idx_ l)) now l
    (let '(fire, l) := fade_trigger cfg h now l in
     if fire then fade_demote cfg now l
     else
       x ← measure_s3 cfg h now l;
       let '(s3_live, l) := x in
       if s3_demote cfg && s3_live && d_gtb (s3_residual_loss h) d_zero && (0 <? idx_ l)
       then demote_booked cfg now S3Residual count_s3_residual (u3_ l) l
       else util_pressure cfg s3_live now l).
Proof.
  intros Hl Hp Hg Hm Hsc. pose proof (fade_trigger_windows h now l) as H1.
  assert (Hf : fst (fade_trigger cfg h now l) = true ->
    predict (fade_cfg cfg) = true /\ d_is_nan (rf_rssi_dbm h) = false /\ d_is_nan (rf_snr_db h) = false /\
    0 < idx_ (snd (fade_trigger cfg h now l)) /\ paced (spot (snd (fade_trigger cfg h now l))) now /\
    min_rung (fade_cfg cfg) <= idx_ (snd (fade_trigger cfg h now l))).
  { unfold fade_trigger. destruct (predict _); [| done]. cbn zeta. destruct (negb (_ && d_geb _ _ && d_geb _ _)) eqn:Ho; [done |].
    apply negb_false_iff in Ho. apply andb_true_iff in Ho as [[[[[Hn1%negb_true_iff Hn2%negb_true_iff]%andb_true_iff _]%andb_true_iff _]%andb_true_iff _]%andb_true_iff _].
    cbn [fst snd]. intros [[[[_ Hi%Z.ltb_lt]%andb_true_iff Hr%Z.leb_le]%andb_true_iff _]%andb_true_iff Hc]%andb_true_iff. by split_all. }
  destruct (fade_trigger cfg h now l) as [fire l1]. cbn [fst snd] in *.
  pose proof (wk_core _ _ H1) as K1. apply (answer_core _ _ _ _ _ _ K1).
  rewrite <- (streak_same _ _ (wk_probe _ _ H1)).
  pose proof (ladder_ok_kept cfg _ _ K1 Hl) as O1. pose proof (probe_ok_kept _ _ K1 (wk_probe _ _ H1) Hp) as P1.
  pose proof (gated_kept _ _ _ K1 (wk_probe _ _ H1) Hg) as G1.
  destruct fire.
  { destruct (Hf eq_refl) as (F1 & F2 & F3 & Hi & Hc & Hmin). rewrite (ck_idx _ _ K1) in Hmin. destruct (fade_demote_in cfg now l1 O1 Hi) as (l' & -> & Hmv & _).
    apply (answer_move _ _ _ _ _ _ _ Hmv); [legally; exact Hc | exact (conj Hm (conj F1 (conj Hmin (conj F2 F3)))) | discriminate | discriminate]. }
  destruct (measure_s3_in h now l1 O1) as (live & l2 & -> & H2 & Hlive). cbn [mbind option_bind].
  pose proof (wk_core _ _ H2) as K2. apply (answer_core _ _ _ _ _ _ K2). rewrite <- (streak_same _ _ (wk_probe _ _ H2)).
  pose proof (ladder_ok_kept cfg _ _ K2 O1) as O2. pose proof (probe_ok_kept _ _ K2 (wk_probe _ _ H2) P1) as P2.
  pose proof (gated_kept _ _ _ K2 (wk_probe _ _ H2) G1) as G2.
  destruct (_ && _ && _ && _) eqn:Hc; [| apply (util_pressure_out h _ live now l2 O2 P2 G2 Hm); [by rewrite (wk_u _ _ H2), (wk_u _ _ H1) | by rewrite <- (ck_idx _ _ K1), <- (ck_idx _ _ K2)]].
  apply andb_true_iff in Hc as [[[Hd Hlv]%andb_true_iff Hr]%andb_true_iff Hi%Z.ltb_lt].
  destruct (demote_booked_in cfg now S3Residual count_s3_residual (u3_ l2) l2 O2 Hi eq_refl eq_refl) as (l' & -> & Hmv & _).
  apply (answer_move _ _ _ _ _ _ _ Hmv); [legally | | discriminate | discriminate].
  split; [exact Hm |]. split; [exact Hd |]. split; [exact (proj1 (Hlive Hlv)) | exact Hr].
Qed.

(** The streak a sample leaves for the gate to judge. *)
Definition streak_after (h : LinkHealth) (now : double) (l : Ladder) (s : Streak) : Prop :=
  if video_starved h || negb (sample_valid h) then s = streak l
  else exists l2 l3, probe_ l2 = probe_ l /\ idx_ l2 = idx_ l /\ measure exp cfg h now l2 = Some l3 /\ s = streak l3.

Lemma update_out h now l : ladder_ok cfg l -> probe_ok cfg l ->
  exists l0 s, check_probation_survival now l = Some l0 /\ ladder_ok cfg l0 /\ spot l0 = spot l /\
    penalty_until_ l0 = penalty_until_ l /\ answer s (cause h (idx_ l)) now l0 (update exp cfg h now l) /\
    streak_after h now l s /\
    (measured h -> d_gtb (residual_loss h) d_zero = true -> 0 < idx_ l ->
     exists l', update exp cfg h now l = Some (true, l') /\ moved cfg now (idx_ l0 - 1) Residual l0 l').
Proof.
  intros Hl Hp. destruct (survival_in now l Hl) as (l0 & E0 & O0 & S0 & Q0 & R0).
  enough (exists s, answer s (cause h (idx_ l)) now l0 (update exp cfg h now l) /\ streak_after h now l s /\
    (measured h -> d_gtb (residual_loss h) d_zero = true -> 0 < idx_ l ->
     exists l', update exp cfg h now l = Some (true, l') /\ moved cfg now (idx_ l0 - 1) Residual l0 l')) as (s & A1 & A2 & A3)
    by (exists l0, s; split_all; assumption).
  assert (Hi0 : idx_ l0 = idx_ l) by exact (f_equal (fun s => fst (fst s)) S0).
  assert (P0 : probe_ok cfg l0) by (unfold probe_ok; rewrite R0, (probe_rung_idx cfg l l0 Hi0); exact Hp).
  unfold update, streak_after. rewrite E0. cbn [mbind option_bind]. cbn zeta.
  match goal with |- context [starved cfg now ?x] => set (l1 := x) end.
  assert (K1 : core_kept l0 l1) by core. assert (B1 : probe_ l1 = probe_ l0) by reflexivity. clearbody l1.
  pose proof (ladder_ok_kept cfg _ _ K1 O0) as O1. pose proof (probe_ok_kept _ _ K1 B1 P0) as P1.
  destruct (video_starved h) eqn:Hv.
  { exists (streak l1). split; [| split; [by apply streak_same; congruence | intros [Hm _]; congruence]].
    apply (answer_core _ _ _ _ _ _ K1). exact (starved_out h _ now l1 O1 P1 Hv). }
  destruct (sample_valid h) eqn:Hs; cbn [negb orb].
  2: { exists (streak l1). split; [| split; [by apply streak_same; congruence | intros [_ Hm]; congruence]].
       apply answer_stay; [eapply core_kept_trans; [exact K1 | core] | exact P1 | reflexivity]. }
  assert (Hm : measured h) by by split.
  match goal with |- context [measure exp cfg h now ?x] => set (l2 := x) end.
  assert (K2 : core_kept l0 l2) by (eapply core_kept_trans; [exact K1 | core]). assert (B2 : probe_ l2 = probe_ l1) by reflexivity.
  clearbody l2. pose proof (ladder_ok_kept cfg _ _ K2 O0) as O2.
  assert (P2 : probe_ok cfg l2) by (apply (probe_ok_kept l0); [exact K2 | congruence | exact P0]).
  destruct (measure_in h now l2 O2 P2) as (l3 & E3 & K3 & P3 & G3a & G3b & U3). pose proof (conj G3a G3b) as G3. clear G3a G3b. rewrite E3. cbn [mbind option_bind].
  assert (HS : exists l2 l3', probe_ l2 = probe_ l /\ idx_ l2 = idx_ l /\ measure exp cfg h now l2 = Some l3' /\ streak l3 = streak l3').
  { exists l2, l3. split; [congruence |]. split; [rewrite (ck_idx _ _ K2); exact Hi0 | by split]. }
  exists (streak l3).
  pose proof (core_kept_trans _ _ _ K2 K3) as K03. pose proof (ladder_ok_kept cfg _ _ K03 O0) as O3.
  assert (Hi3 : idx_ l3 = idx_ l) by (rewrite (ck_idx _ _ K03); exact Hi0).
  assert (G3' : gated now l3) by (unfold gated; rewrite (probe_rung_idx cfg l2 l3 (ck_idx _ _ K3)); exact G3).
  destruct (d_gtb (residual_loss h) d_zero) eqn:Hr; cbn [andb].
  - destruct (Z.ltb_spec 0 (idx_ l3)) as [Hi | Hi].
    + destruct (demote_booked_in cfg now Residual count_residual (u_ l3) l3 O3 Hi eq_refl eq_refl) as (l' & -> & Hmv & _).
      split; [| split; [exact HS |]].
      * apply (answer_core _ _ _ _ _ _ K03), (answer_move _ _ _ _ _ _ _ Hmv); [legally | exact (conj Hm Hr) | discriminate | discriminate].
      * intros _ _ _. exists l'. split; [reflexivity |]. rewrite <- (ck_idx _ _ K03). exact (moved_core _ _ _ _ _ _ K03 Hmv).
    + split; [apply (answer_core _ _ _ _ _ _ K03) | split; [exact HS |]; intros _ _ Hx; rewrite (ck_idx _ _ K03) in Hi; lia].
      rewrite <- Hi3. exact (rest_out h now l3 O3 P3 G3' Hm U3).
  - split; [apply (answer_core _ _ _ _ _ _ K03) | split; [exact HS |]; intros _ Hx; discriminate Hx]. rewrite <- Hi3. exact (rest_out h now l3 O3 P3 G3' Hm U3).
Qed.

Lemma on_tick_out now l : ladder_ok cfg l -> probe_ok cfg l ->
  exists l0, check_probation_survival now l = Some l0 /\ ladder_ok cfg l0 /\ spot l0 = spot l /\
    answer (streak l) (fun why => why = Timeout) now l0 (on_tick cfg now l) /\
    (d_gtb (d_sub now (last_feedback_ms_ l)) (d_of_Z (feedback_timeout_ms cfg)) = true -> 0 < idx_ l ->
     exists l', on_tick cfg now l = Some (true, l') /\ idx_ l' = 0).
Proof.
  intros Hl Hp. destruct (survival_in now l Hl) as (l0 & E0 & O0 & S0 & Q0 & R0). exists l0.
  split; [exact E0 |]. split; [exact O0 |]. split; [exact S0 |].
  assert (Hi0 : idx_ l0 = idx_ l) by exact (f_equal (fun s => fst (fst s)) S0).
  assert (F0 : last_feedback_ms_ l0 = last_feedback_ms_ l).
  { revert E0. unfold check_probation_survival. destruct (_ && _); [| by intros [= <-]]. intros (f & _ & [= <-])%bind_Some. reflexivity. }
  assert (P0 : probe_ok cfg l0) by (unfold probe_ok; rewrite R0, (probe_rung_idx cfg l l0 Hi0); exact Hp).
  unfold on_tick. rewrite E0. cbn [mbind option_bind]. rewrite F0, Hi0.
  destruct (d_gtb _ _); cbn [andb]; [| split; [apply answer_stay; [apply core_kept_refl | exact P0 | by apply streak_same] | done]].
  destruct (Z.ltb_spec 0 (idx_ l)) as [Hi |]; [| split; [apply answer_stay; [apply core_kept_refl | exact P0 | by apply streak_same] | lia]].
  destruct (drop_to_floor_in cfg now Timeout count_timeout l0 O0 eq_refl eq_refl) as (l' & -> & Hmv & _).
  split; [apply (answer_move _ _ _ _ _ _ _ Hmv); [legally; lia | reflexivity | discriminate | discriminate] |].
  intros _ _. exists l'. split; [reflexivity | exact (mv_idx _ _ _ _ _ _ Hmv)].
Qed.

(** ** Histories *)

(** The moves of a call: the event it leaves, if it moved. *)
Definition logged (moved : bool) (l : Ladder) : list CtlEvent * Ladder := (if moved then [last_event_ l] else [], l).

Definition call_log (c : Call) (l : Ladder) : option (list CtlEvent * Ladder) :=
  match c with
  | CUpdate h now => x ← update exp cfg h now l; Some (logged (fst x) (snd x))
  | CTick now => x ← on_tick cfg now l; Some (logged (fst x) (snd x))
  | CRestore r now => l ← restore cfg r now l; Some (logged true l)
  | CUnpin r now => l ← unpin_restore cfg r now l; Some (logged true l)
  | CBlank t => Some (logged false (blank_store t l))
  end.

Fixpoint calls_log (cs : list Call) (l : Ladder) : option (list CtlEvent * Ladder) :=
  match cs with
  | [] => Some ([], l)
  | c :: cs => x ← call_log c l; y ← calls_log cs (snd x); Some (fst x ++ fst y, snd y)
  end.

(** The log is of the model's calls. *)
Lemma calls_log_calls cs l : option_map snd (calls_log cs l) = ladder_calls exp cfg cs l.
Proof.
  revert l. induction cs as [|c cs IH]; intros l; cbn [calls_log ladder_calls]; [reflexivity |].
  assert (H : ladder_call exp cfg c l = option_map snd (call_log c l)).
  { destruct c; cbn [ladder_call call_log].
    - destruct (update exp cfg h now_ms l) as [[b l']|]; reflexivity.
    - destruct (on_tick cfg now_ms l) as [[b l']|]; reflexivity.
    - destruct (restore cfg rung now_ms l); reflexivity.
    - destruct (unpin_restore cfg rung now_ms l); reflexivity.
    - reflexivity. }
  rewrite H. destruct (call_log c l) as [[es l']|]; cbn [option_map mbind option_bind fst snd]; [| reflexivity].
  rewrite <- IH. destruct (calls_log cs l') as [[es' l'']|]; reflexivity.
Qed.

(** A run of the abstract machine. *)
Fixpoint legal_run (s : Spot) (es : list CtlEvent) : Prop :=
  match es with [] => True | e :: es => legal s e /\ legal_run (after s e) es end.

Lemma moved_after now to why l l' : moved cfg now to why l l' -> spot l' = after (spot l) (last_event_ l').
Proof. intros [_ _ H3 H4 H5 _ H7 H8 H9 _ _ _ _ _]. unfold spot, after. by rewrite H3, H4, H5, H7, H8, H9. Qed.

(** A call is at most one move of the machine. *)
Lemma answer_logged s P now l l0 r : ladder_ok cfg l0 -> spot l0 = spot l -> answer s P now l0 r ->
  exists es l', (x ← r; Some (logged (fst x) (snd x))) = Some (es, l') /\ ladder_ok cfg l' /\ probe_ok cfg l' /\
    legal_run (spot l) es /\ spot l' = fold_left after es (spot l).
Proof.
  intros O0 S0 (b & l' & -> & H). cbn [mbind option_bind fst snd]. unfold logged. destruct b; do 2 eexists; (split; [reflexivity |]).
  - destruct H as (to & why & Hm & Hl & _). rewrite <- S0. split; [exact (mv_ok _ _ _ _ _ _ Hm) |].
    split; [exact (mv_probe _ _ _ _ _ _ Hm) |]. split; [split; [exact Hl | exact I] | exact (moved_after _ _ _ _ _ Hm)].
  - destruct H as (K & Hp & _). split; [exact (ladder_ok_kept cfg _ _ K O0) |]. split; [exact Hp |]. split; [exact I |].
    cbn. by rewrite (spot_kept _ _ K).
Qed.

Lemma reenter_logged r now why l : ladder_ok cfg l -> In why [HopRestore; LadderSwap; Unpin] ->
  exists es l', (l ← reenter cfg r now why l; Some (logged true l)) = Some (es, l') /\ ladder_ok cfg l' /\ probe_ok cfg l' /\
    legal_run (spot l) es /\ spot l' = fold_left after es (spot l).
Proof.
  intros Hl Hw. assert (downward why = false /\ books why = false /\ starts_trial why = false) as (H1 & H2 & H3) by (by destruct Hw as [<- | [<- | [<- | []]]]).
  destruct (reenter_in cfg r now why l Hl H1 H2 H3) as (l' & -> & Hm). cbn [mbind option_bind]. unfold logged. do 2 eexists.
  split; [reflexivity |]. split; [exact (mv_ok _ _ _ _ _ _ Hm) |]. split; [exact (mv_probe _ _ _ _ _ _ Hm) |].
  split; [| exact (moved_after _ _ _ _ _ Hm)]. split; [| exact I]. destruct Hm as [M1 _ M3 _ _ M6 M7 _ M9 _ _ _ _ _].
  pose proof (lo_idx _ _ M1) as Hr. unfold legal. rewrite M9, M6, M7, <- M3. split; [reflexivity |].
  destruct Hw as [<- | [<- | [<- | []]]]; exact Hr.
Qed.

Lemma call_log_out c l : ladder_ok cfg l -> probe_ok cfg l ->
  exists es l', call_log c l = Some (es, l') /\ ladder_ok cfg l' /\ probe_ok cfg l' /\
    legal_run (spot l) es /\ spot l' = fold_left after es (spot l).
Proof.
  intros Hl Hp. destruct c; cbn [call_log].
  - destruct (update_out h now_ms l Hl Hp) as (l0 & s & _ & O0 & S0 & _ & A & _). exact (answer_logged _ _ _ _ _ _ O0 S0 A).
  - destruct (on_tick_out now_ms l Hl Hp) as (l0 & _ & O0 & S0 & A & _). exact (answer_logged _ _ _ _ _ _ O0 S0 A).
  - assert (H := reenter_logged rung now_ms HopRestore l Hl (or_introl eq_refl)). unfold restore. exact H.
  - assert (Hl' : ladder_ok cfg (l {{ last_feedback_ms_ := now_ms }})) by (apply (ladder_ok_kept cfg l); [core | exact Hl]).
    assert (H := reenter_logged rung now_ms Unpin _ Hl' (or_intror (or_intror (or_introl eq_refl)))).
    unfold unpin_restore. exact H.
  - do 2 eexists. split; [reflexivity |]. split; [apply (ladder_ok_kept cfg l); [core | exact Hl] |].
    split; [exact Hp |]. split; [exact I | reflexivity].
Qed.


Lemma new_ladder_ok l : new_ladder pow cfg = Some l -> ladder_ok cfg l /\ probe_ok cfg l /\ spot l = (0, kNever, kNever).
Proof.
  unfold new_ladder. destruct (rungs cfg) as [|r rs] eqn:Hr; [done |].
  intros (s & Hs & [= <-])%bind_Some. unfold new_store in Hs.
  destruct (_ || _) in Hs; [discriminate Hs |]. injection Hs as <-. split; [| split; [intros _; reflexivity | reflexivity]].
  assert (Hn : Z.of_nat (length (rungs cfg)) = Z.of_nat (length (r :: rs))) by (by rewrite Hr).
  split; rewrite ?Hn; cbn [idx_ store_ stats_ fail_count_ penalty_until_ probation_active_].
  - cbn [length]. lia.
  - rewrite length_replicate. cbn [length]. lia.
  - cbn [length]. by rewrite length_replicate.
  - cbn [length]. by rewrite length_replicate.
  - constructor; [unfold kMaxShiftExp; lia |]. apply Forall_replicate. unfold kMaxShiftExp. lia.
  - done.
Qed.

(** ** The watcher: probations, failures in a row and the probe's clean streak, from the history alone

    It sees the calls and the moves, and reads no counter of the controller. *)

Record Watch := mkWatch {
  w_rung : Z;
  w_trial : option double;          (* on probation, until when *)
  w_failed : Z -> Z;                (* failures in a row, per rung *)
  w_barred : Z -> double;           (* when the penalty ends, per rung *)
  w_streak : list (Z * double);     (* clean probe samples in a row: bodies so far, and when *)
  w_heard : double;                 (* the last sample that measured anything, or the end of a pin *)
}.

Definition new_watch : Watch := mkWatch 0 None (fun _ => 0) (fun _ => kNever) [] kNever.

Definition at_rung {A} (f : Z -> A) (r : Z) (v : A) : Z -> A := fun x => if x =? r then v else f x.

(** A probation outlived clears its rung's failures. *)
Definition outlive (now : double) (w : Watch) : Watch :=
  match w_trial w with
  | Some t => if d_geb now t then mkWatch (w_rung w) None (at_rung (w_failed w) (w_rung w) 0) (w_barred w) (w_streak w) (w_heard w) else w
  | None => w
  end.

(** The rung a probe flies at: [rung_offset] up, the top at most. *)
Definition probe_target (w : Watch) : option Z :=
  if p_enable (probe_cfg cfg) && (w_rung w + 1 <? n_rungs) then
    let t := Z.min (w_rung w + rung_offset (probe_cfg cfg)) (n_rungs - 1) in if 0 <=? t then Some t else None
  else None.

(** The loss of a probe as a share of what the next rung's enhancement code repairs. *)
Definition probe_share (w : Watch) (h : LinkHealth) : double :=
  share (probe_loss h) (overhead_enh (rung_at (w_rung w + 1))).

Definition probe_limit : double :=
  if d_ltb (max_util (probe_cfg cfg)) d_zero then down_util cfg else max_util (probe_cfg cfg).

Definition set_streak (w : Watch) (s : list (Z * double)) : Watch :=
  mkWatch (w_rung w) (w_trial w) (w_failed w) (w_barred w) s (w_heard w).

(** One sample: a clean probe prolongs the streak, a lossy one or too long a silence ends it, and
    so does a body count that went back. *)
Definition hear (h : LinkHealth) (now : double) (w : Watch) : Watch :=
  if video_starved h || negb (sample_valid h) then w
  else
    match probe_target w with
    | None => set_streak w []
    | Some t =>
        let n := h_probe_bodies_total h in
        if probe_valid h && (h_probe_rung h =? t) && (u64 (min_syms (probe_cfg cfg)) <=? probe_expected_syms h) then
          if d_leb (probe_share w h) probe_limit
          then set_streak w (match last (w_streak w) with
                             | Some (n0, _) => if n <? n0 then [] else w_streak w
                             | None => []
                             end ++ [(n, now)])
          else set_streak w []
        else
          match last (w_streak w) with
          | Some (_, t0) => if d_ltb (d_of_Z (silence_ms (probe_cfg cfg))) (d_sub now t0) then set_streak w [] else w
          | None => w
          end
    end.

(** The [k]-th failure in a row bars the rung for [base * 2^(k-1)], the maximum at most; [k] stops
    growing at 32. *)
Definition fail_trial (t : double) (w : Watch) : Watch :=
  match w_trial w with
  | None => w
  | Some _ =>
      let k := Z.min 32 (w_failed w (w_rung w) + 1) in
      mkWatch (w_rung w) None (at_rung (w_failed w) (w_rung w) k)
        (at_rung (w_barred w) (w_rung w)
           (d_add t (d_min (d_of_Z (penalty_max_ms cfg)) (d_of_Z (penalty_base_ms cfg * 2 ^ (k - 1))))))
        (w_streak w) (w_heard w)
  end.

(** A move: loss on probation fails it, a climb starts one, any other move cancels it. *)
Definition move (w : Watch) (e : CtlEvent) : Watch :=
  let w := match ce_reason e with
           | Residual | S3Residual | S3Util | Probation => fail_trial (ce_t_ms e) w
           | _ => w
           end in
  mkWatch (ce_to e)
    match ce_reason e with
    | Promote | PromoteProbed => Some (d_add (ce_t_ms e) (d_of_Z (probation_ms cfg)))
    | _ => None
    end (w_failed w) (w_barred w) [] (w_heard w).

Definition heard_at (t : double) (w : Watch) : Watch := mkWatch (w_rung w) (w_trial w) (w_failed w) (w_barred w) (w_streak w) t.

Definition before_move (c : Call) (w : Watch) : Watch :=
  match c with
  | CUpdate h now =>
      let w := hear h now (outlive now w) in if video_starved h || negb (sample_valid h) then w else heard_at now w
  | CTick now => outlive now w
  | CUnpin _ now => heard_at now w
  | _ => w
  end.

(** Many calls: the controller and the watcher side by side. *)
Fixpoint watched (cs : list Call) (l : Ladder) (w : Watch) : option (Ladder * Watch) :=
  match cs with
  | [] => Some (l, w)
  | c :: cs => x ← call_log c l; watched cs (snd x) (foldl move (before_move c w) (fst x))
  end.

(** A climb on the probe's word has a streak of [clean_bodies] behind it. *)
Definition earned (w : Watch) (e : CtlEvent) : Prop :=
  ce_reason e = PromoteProbed ->
  exists n0 t0 n1 t1, head (w_streak w) = Some (n0, t0) /\ last (w_streak w) = Some (n1, t1) /\
    u64 (clean_bodies (probe_cfg cfg)) <= u64 (n1 - n0).


(** ** The watcher knows the controller's state *)

Definition streak_seen (s : Streak) (ss : list (Z * double)) : Prop :=
  let '(st, open, start, total, at_) := s in
  (st = ProbeClean -> open = true) /\
  match ss with
  | [] => open = false
  | (n0, _) :: _ => open = true /\ st = ProbeClean /\ start = n0 /\ last ss = Some (total, at_)
  end.

Record seen (l : Ladder) (w : Watch) : Prop := mkSeen {
  se_rung : idx_ l = w_rung w;
  se_active : probation_active_ l = bool_decide (is_Some (w_trial w));
  se_until : forall t, w_trial w = Some t -> probation_until_ms_ l = t;
  se_failed : forall r, 0 <= r < n_rungs -> at_index (fail_count_ l) r = Some (w_failed w r);
  se_barred : forall r, 0 <= r < n_rungs -> at_index (penalty_until_ l) r = Some (w_barred w r);
}.

Lemma seen_on_probation l w : ladder_ok cfg l -> seen l w -> on_probation l = bool_decide (is_Some (w_trial w)).
Proof.
  intros Hl [_ Ha _ _ _]. rewrite <- Ha. unfold on_probation. destruct (probation_active_ l) eqn:E; [| done].
  destruct (lo_probation _ _ Hl E) as [-> _]. by rewrite Z.eqb_refl.
Qed.

Lemma outlive_seen now l l0 w : ladder_ok cfg l -> seen l w -> check_probation_survival now l = Some l0 -> seen l0 (outlive now w).
Proof.
  intros Hl Hs. pose proof (seen_on_probation l w Hl Hs) as Hp. unfold check_probation_survival, outlive. rewrite Hp.
  destruct Hs as [H1 H2 H3 H4 H5]. destruct (w_trial w) as [t|] eqn:Et; cbn [andb].
  - rewrite (bool_decide_true (is_Some (Some t))) by done. rewrite (H3 t eq_refl). cbn [andb].
    destruct (d_geb now t) eqn:Eg; [| intros [= <-]; by split; rewrite ?Et].
    destruct (update_at_in (fail_count_ l) (idx_ l) (fun _ => 0)) as (f & E & _); [rewrite (lo_fail _ _ Hl); apply Hl |].
    rewrite E. cbn [mbind option_bind]. intros [= <-]. unfold update_at in E. apply bind_Some in E as (k & Hk & [= <-]).
    split; cbn [w_rung w_trial w_failed w_barred w_streak]; try done. intros r Hr. unfold at_rung. destruct (Z.eqb_spec r (w_rung w)) as [-> | Hne].
    + rewrite <- H1. apply at_index_insert. rewrite (lo_fail _ _ Hl). apply Hl.
    + etrans; [apply at_index_insert_ne; [apply Hl | congruence] | by apply H4].
  - rewrite bool_decide_false by (by intros [? ?]). intros [= <-]. by split; rewrite ?Et.
Qed.

Lemma seen_kept l l' w : core_kept l l' -> seen l w -> seen l' w.
Proof.
  intros K [H1 H2 H3 H4 H5]. destruct K as [K1 _ _ K4 _ K5 K6 K7 _].
  split; rewrite ?K1, ?K4, ?K5, ?K6, ?K7; done.
Qed.

Lemma outlive_streak now w : w_streak (outlive now w) = w_streak w /\ w_rung (outlive now w) = w_rung w.
Proof. unfold outlive. repeat case_match; done. Qed.

Lemma hear_seen h now l w : seen l w -> seen l (hear h now w).
Proof. unfold hear. intros [H1 H2 H3 H4 H5]. repeat case_match; by split. Qed.

Lemma heard_at_seen t l w : seen l w -> seen l (heard_at t w).
Proof. intros [H1 H2 H3 H4 H5]. by split. Qed.

(** The gate scores a sample as the watcher hears it. *)
Lemma probe_target_rung l w : idx_ l = w_rung w ->
  match probe_target w with Some t => probe_rung cfg l = t /\ 0 <= t /\ w_rung w + 1 < n_rungs | None => probe_rung cfg l < 0 end.
Proof.
  intros Hi. unfold probe_target, probe_rung. cbn zeta. rewrite Hi. destruct (p_enable (probe_cfg cfg)); cbn [negb andb]; [| lia].
  destruct (Z.ltb_spec (w_rung w + 1) n_rungs), (Z.leb_spec (n_rungs - 1) (w_rung w)); try lia.
  destruct (Z.leb_spec 0 (Z.min (w_rung w + rung_offset (probe_cfg cfg)) (n_rungs - 1))); [by split_all | lia].
Qed.

Lemma set_probe_streak st r u now l :
  streak (set_probe_state st r u now l) =
  (st, probe_streak_open_ (probe_ l), probe_streak_start_bodies_ (probe_ l), probe_bodies_total_ (probe_ l), probe_last_sample_ms_ (probe_ l)).
Proof. unfold set_probe_state, streak. case_bool_decide as H; [by rewrite <- H | done]. Qed.

Lemma budget_share l w b : idx_ l = w_rung w -> budget_enh_for cfg (idx_ l + 1) = Some b ->
  forall h, utilization (probe_loss h) b = probe_share w h.
Proof. intros Hi E h. unfold probe_share. rewrite <- Hi. exact (budget_enh_share _ _ _ E). Qed.

Ltac open_is b H :=
  match goal with |- context [if probe_streak_open_ (probe_ ?x) then _ else _] =>
    replace (probe_streak_open_ (probe_ x)) with b by first [reflexivity | exact (eq_sym H)]
  end.

Ltac judged H :=
  cbn [w_streak set_streak app streak_seen last];
  repeat match goal with |- _ /\ _ => split end;
  first [done | reflexivity | intros _; reflexivity | exact (f_equal (fun x => Some (_, x)) (eq_sym H))].

Lemma measure_streak h now l l' w : 0 <= idx_ l -> measured h -> idx_ l = w_rung w -> streak_seen (streak l) (w_streak w) ->
  measure exp cfg h now l = Some l' -> streak_seen (streak l') (w_streak (hear h now w)).
Proof.
  intros Hl [Hv Hsv] Hi Hs. unfold measure. cbn zeta. intros (b & _ & H)%bind_Some.
  apply bind_Some in H as (l3 & Hu & H).
  assert (E : streak l' = streak l3).
  { revert H. destruct (_ && _); [| by intros [= <-]]. intros (s & _ & H)%bind_Some.
    apply bind_Some in H as (s' & _ & [= <-]). reflexivity. }
  rewrite E. clear E H. revert Hu.
  match goal with |- update_probe_gate cfg h now ?x = _ -> _ => set (l2 := x) end.
  assert (E2 : streak l2 = streak l /\ idx_ l2 = idx_ l) by (unfold l2; destruct (d_is_nan _), (d_is_nan _); by split).
  clearbody l2. destruct E2 as [E2 I2]. rewrite <- E2 in Hs. rewrite <- I2 in Hi.
  assert (Hl2 : 0 <= w_rung w) by (rewrite <- Hi, I2; exact Hl). clear E2 I2 Hl l.
  unfold update_probe_gate, hear. cbn zeta. rewrite Hv, Hsv. cbn [orb negb].
  pose proof (probe_target_rung l2 w Hi) as Ht. destruct (probe_target w) as [t|].
  2: { rewrite (proj2 (Z.ltb_lt _ _)) by done. intros [= <-]. rewrite set_probe_streak. by cbn. }
  destruct Ht as (-> & Ht & Hn). rewrite (proj2 (Z.ltb_ge _ _)) by done.
  destruct (probe_valid h && _ && _) eqn:Hus.
  - unfold score_probe. destruct (budget_enh_for cfg (idx_ l2 + 1)) as [b3|] eqn:Eb; cbn [mbind option_bind]; [| done].
    cbn zeta. rewrite (budget_share l2 w b3 Hi Eb h). change (probe_util_threshold cfg) with probe_limit.
    intros (l4 & Es & H)%bind_Some.
    assert (E4 : streak l4 = (probe_state_ (probe_ l2), probe_streak_open_ (probe_ l2), probe_streak_start_bodies_ (probe_ l2),
                              probe_bodies_total_ (probe_ l2), now)).
    { revert Es. destruct (d_geb now _); [intros (s & _ & [= <-])%bind_Some; reflexivity | intros [= <-]; reflexivity]. }
    clear Es Eb. unfold streak in E4, Hs. injection E4 as A1 A2 A3 A4 A5.
    revert H. rewrite A4.
    destruct (d_leb (probe_share w h) probe_limit) eqn:Ec.
    + destruct (w_streak w) as [|[n0 t0] ss] eqn:Ew; cbn [streak_seen] in Hs.
      * destruct Hs as [_ Ho]. destruct (h_probe_bodies_total h <? _); open_is false (eq_trans A2 Ho); intros [= <-]; rewrite set_probe_streak; judged A5.
      * destruct Hs as (_ & Ho & Hst & Hn0 & Hlast). rewrite Hlast.
        destruct (h_probe_bodies_total h <? _).
        -- open_is false (eq_trans A2 Ho). intros [= <-]. rewrite set_probe_streak. judged A5.
        -- open_is true (eq_trans A2 Ho). intros [= <-]. rewrite set_probe_streak. cbn [w_streak set_streak app streak_seen].
           split; [intros _; exact (eq_trans A2 Ho) |]. split; [exact (eq_trans A2 Ho) |]. split; [done |]. split; [exact (eq_trans A3 Hn0) |].
           etrans; [exact (last_snoc _ ((n0, t0) :: ss)) |]. exact (f_equal (fun x => Some (_, x)) (eq_sym A5)).
    + destruct (h_probe_bodies_total h <? _); intros [= <-]; rewrite set_probe_streak; judged A5.
  - destruct (w_streak w) as [|[n0 t0] ss] eqn:Ew.
    + cbn [last]. destruct (d_gtb _ _); intros [= <-]; rewrite ?set_probe_streak, ?Ew; [by cbn | exact Hs].
    + unfold streak in Hs. cbn [streak_seen] in Hs. destruct Hs as (H0 & Ho & Hst & Hn0 & Hlast). rewrite Hlast. unfold d_gtb.
      destruct (d_ltb _ _); intros [= <-]; [rewrite set_probe_streak; by cbn |]. rewrite Ew. unfold streak. cbn [streak_seen].
      by split_all.
Qed.

Lemma verdict_earned s w e : streak_seen s (w_streak w) -> (ce_reason e = PromoteProbed -> verdict s) -> earned w e.
Proof.
  intros Hs Hv Hr. specialize (Hv Hr). destruct s as [[[[st open] start] total] at_]. unfold verdict in Hv.
  unfold streak_seen in Hs. destruct Hs as [Ho Hs], Hv as [Hc Hb]. specialize (Ho Hc). rewrite Ho in Hb.
  destruct (w_streak w) as [|[n0 t0] ss]; [congruence |]. destruct Hs as (_ & _ & -> & Hl).
  exists n0, t0, total, at_. by split_all.
Qed.

Lemma failures_seen l w : ladder_ok cfg l -> seen l w -> failures l (idx_ l) = Z.min 32 (w_failed w (w_rung w) + 1) /\ 0 <= w_failed w (w_rung w).
Proof.
  intros Hl Hs. pose proof (se_failed _ _ Hs (idx_ l) (lo_idx _ _ Hl)) as Hf. unfold failures. rewrite Hf. cbn [default from_option id].
  rewrite (se_rung _ _ Hs) in *. unfold at_index in Hf. destruct (w_rung w <? 0); [done |].
  pose proof (proj1 (Forall_lookup _ _) (lo_counts _ _ Hl) _ _ Hf) as Hc. cbn in Hc. unfold kMaxShiftExp in *.
  destruct (Z.ltb_spec (w_failed w (w_rung w)) 32); lia.
Qed.

(** A move changes the books as the watcher says. *)
Lemma moved_seen now to why l l' w : ladder_ok cfg l -> seen l w -> moved cfg now to why l l' -> seen l' (move w (last_event_ l')).
Proof.
  intros Hl Hs Hm. pose proof (seen_on_probation l w Hl Hs) as Hp. destruct (failures_seen l w Hl Hs) as [Hf H0].
  destruct Hm as [_ _ M3 _ _ _ M7 M8 M9 M10 M11 M12 M13 _]. unfold move. rewrite M7, M8, M9.
  assert (Hb : forall r, 0 <= r < n_rungs ->
    let w1 := match why with Residual | S3Residual | S3Util | Probation => fail_trial now w | _ => w end in
    at_index (fail_count_ l') r = Some (w_failed w1 r) /\ at_index (penalty_until_ l') r = Some (w_barred w1 r)).
  { intros r Hr. rewrite M10, M11. unfold fails_booked, penalty_booked, fail_trial. rewrite Hp.
    assert (Hk : forall v, at_index (<[Z.to_nat (idx_ l) := v]> (fail_count_ l)) r = Some (at_rung (w_failed w) (w_rung w) v r)).
    { intros v. unfold at_rung. destruct (Z.eqb_spec r (w_rung w)) as [-> | Hne].
      - rewrite <- (se_rung _ _ Hs). apply at_index_insert. rewrite (lo_fail _ _ Hl). apply Hl.
      - rewrite at_index_insert_ne; [by apply (se_failed _ _ Hs) | apply Hl | rewrite (se_rung _ _ Hs); congruence]. }
    assert (Hq : forall v, at_index (<[Z.to_nat (idx_ l) := v]> (penalty_until_ l)) r = Some (at_rung (w_barred w) (w_rung w) v r)).
    { intros v. unfold at_rung. destruct (Z.eqb_spec r (w_rung w)) as [-> | Hne].
      - rewrite <- (se_rung _ _ Hs). apply at_index_insert. rewrite (lo_penalty _ _ Hl). apply Hl.
      - rewrite at_index_insert_ne; [by apply (se_barred _ _ Hs) | apply Hl | rewrite (se_rung _ _ Hs); congruence]. }
    destruct (w_trial w) as [t|].
    - rewrite (bool_decide_true (is_Some (Some t))) by done. pose proof (Hk (failures l (idx_ l))) as Hk1.
      pose proof (Hq (penalty_end cfg now (failures l (idx_ l)))) as Hq1. rewrite Hf in Hk1, Hq1. unfold penalty_end in Hq1.
      rewrite Z.shiftl_mul_pow2 in Hq1 by lia. rewrite Hf. unfold penalty_end. rewrite Z.shiftl_mul_pow2 by lia.
      destruct why; cbn [books w_failed w_barred];
        (split; [first [exact Hk1 | by apply (se_failed _ _ Hs)] | first [exact Hq1 | by apply (se_barred _ _ Hs)]]).
    - rewrite bool_decide_false by (by intros [? ?]). destruct why; cbn [books]; (split; [by apply (se_failed _ _ Hs) | by apply (se_barred _ _ Hs)]). }
  split; cbn [w_rung w_trial w_failed w_barred].
  - exact M3.
  - rewrite M12. by destruct why.
  - intros t. destruct why; try discriminate; intros [= <-]; by apply M13.
  - intros r Hr. exact (proj1 (Hb r Hr)).
  - intros r Hr. exact (proj2 (Hb r Hr)).
Qed.

Lemma closed_seen now to why l l' w e : moved cfg now to why l l' -> streak_seen (streak l') (w_streak (move w e)).
Proof.
  intros Hm. destruct (mv_closed _ _ _ _ _ _ Hm) as [H1 H2]. cbn [move w_streak]. unfold streak, streak_seen. by rewrite H1.
Qed.

(** One call. *)
Lemma answer_seen s P now l0 w r : ladder_ok cfg l0 -> seen l0 w -> streak_seen s (w_streak w) -> answer s P now l0 r ->
  exists es l', (x ← r; Some (logged (fst x) (snd x))) = Some (es, l') /\
    Forall (earned w) es /\ seen l' (foldl move w es) /\ streak_seen (streak l') (w_streak (foldl move w es)).
Proof.
  intros Hl Hs Hk (b & l' & -> & H). cbn [mbind option_bind fst snd]. unfold logged. destruct b; do 2 eexists; (split; [reflexivity |]).
  - destruct H as (to & why & Hm & _ & _ & _ & Hv). cbn [foldl]. split; [| split].
    + constructor; [| constructor]. apply (verdict_earned s w _ Hk). intros Hr. apply Hv. by rewrite <- (mv_why _ _ _ _ _ _ Hm).
    + by eapply moved_seen.
    + by eapply closed_seen.
  - destruct H as (K & _ & E). cbn [foldl]. split; [constructor |]. split; [by eapply seen_kept | by rewrite E].
Qed.

Lemma reenter_seen r now why l w : ladder_ok cfg l -> seen l w -> In why [HopRestore; LadderSwap; Unpin] ->
  exists es l', (l ← reenter cfg r now why l; Some (logged true l)) = Some (es, l') /\
    Forall (earned w) es /\ seen l' (foldl move w es) /\ streak_seen (streak l') (w_streak (foldl move w es)).
Proof.
  intros Hl Hs Hw. assert (downward why = false /\ books why = false /\ starts_trial why = false /\ why <> PromoteProbed) as (H1 & H2 & H3 & H4)
    by (by destruct Hw as [<- | [<- | [<- | []]]]).
  destruct (reenter_in cfg r now why l Hl H1 H2 H3) as (l' & -> & Hm). cbn [mbind option_bind]. unfold logged. do 2 eexists.
  split; [reflexivity |]. cbn [foldl]. split; [| split; [by eapply moved_seen | by eapply closed_seen]].
  constructor; [| constructor]. intros Hr. rewrite (mv_why _ _ _ _ _ _ Hm) in Hr. done.
Qed.

Lemma call_seen c l w : ladder_ok cfg l -> probe_ok cfg l -> seen l w -> streak_seen (streak l) (w_streak w) ->
  exists es l', call_log c l = Some (es, l') /\ Forall (earned (before_move c w)) es /\
    seen l' (foldl move (before_move c w) es) /\ streak_seen (streak l') (w_streak (foldl move (before_move c w) es)).
Proof.
  intros Hl Hp Hs Hk. destruct c; cbn [call_log before_move].
  - destruct (update_out h now_ms l Hl Hp) as (l0 & s & E0 & O0 & S0 & _ & A & B & _).
    pose proof (outlive_seen now_ms l l0 w Hl Hs E0) as Hs0. destruct (outlive_streak now_ms w) as [Ow1 Ow2].
    cbn zeta. refine (answer_seen s (cause h (idx_ l)) now_ms l0 _ _ O0 _ _ A).
    { destruct (_ || _); [| apply heard_at_seen]; exact (hear_seen h now_ms _ _ Hs0). }
    enough (streak_seen s (w_streak (hear h now_ms (outlive now_ms w)))) by (by destruct (_ || _)).
    unfold streak_after in B. destruct (video_starved h || negb (sample_valid h)) eqn:Ev.
    + unfold hear. by rewrite Ev, B, Ow1.
    + destruct B as (l2 & l3 & P2 & I2 & Em & ->). apply orb_false_iff in Ev as [Ev1 Ev2%negb_false_iff].
      apply (measure_streak h now_ms l2 l3); [rewrite I2; apply Hl | by split | rewrite I2, Ow2; apply Hs | | exact Em].
      by rewrite (streak_same _ _ P2), Ow1.
  - destruct (on_tick_out now_ms l Hl Hp) as (l0 & E0 & O0 & S0 & A & _).
    pose proof (outlive_seen now_ms l l0 w Hl Hs E0) as Hs0. destruct (outlive_streak now_ms w) as [Ow1 Ow2].
    refine (answer_seen (streak l) _ now_ms l0 _ _ O0 Hs0 _ A). by rewrite Ow1.
  - exact (reenter_seen rung now_ms HopRestore l w Hl Hs (or_introl eq_refl)).
  - assert (Hl' : ladder_ok cfg (l {{ last_feedback_ms_ := now_ms }})) by (apply (ladder_ok_kept cfg l); [core | exact Hl]).
    apply (reenter_seen rung now_ms Unpin _ (heard_at now_ms w) Hl'); [| by right; right; left].
    apply (seen_kept l); [core | exact (heard_at_seen _ _ _ Hs)].
  - do 2 eexists. split; [reflexivity |]. cbn [foldl]. split; [constructor |]. split; [apply (seen_kept l); [core | exact Hs] | exact Hk].
Qed.


Lemma calls_watched cs l w : ladder_ok cfg l -> probe_ok cfg l -> seen l w -> streak_seen (streak l) (w_streak w) ->
  exists l' w', watched cs l w = Some (l', w') /\ ladder_calls exp cfg cs l = Some l' /\
    ladder_ok cfg l' /\ probe_ok cfg l' /\ seen l' w' /\ streak_seen (streak l') (w_streak w').
Proof.
  revert l w. induction cs as [|c cs IH]; intros l w Hl Hp Hs Hk.
  { exists l, w. split; [reflexivity |]. split; [reflexivity |]. split; [exact Hl |]. split; [exact Hp |]. split; [exact Hs | exact Hk]. }
  destruct (call_seen c l w Hl Hp Hs Hk) as (es & l1 & E & _ & Hs1 & Hk1).
  destruct (call_log_out c l Hl Hp) as (es' & l1' & E' & O1 & P1 & _). rewrite E in E'. injection E' as <- <-.
  destruct (IH l1 _ O1 P1 Hs1 Hk1) as (l' & w' & Ew & Ec & H).
  exists l', w'. cbn [watched]. rewrite E. cbn [mbind option_bind fst snd]. split; [exact Ew |]. split; [| exact H].
  rewrite <- (calls_log_calls (c :: cs) l). cbn [calls_log]. rewrite E. cbn [mbind option_bind fst snd].
  rewrite <- (calls_log_calls cs l1) in Ec. destruct (calls_log cs l1) as [[es1 l1'']|]; [exact Ec | discriminate Ec].
Qed.

(** What one sample does to the state the watcher knows. *)
Lemma sample_caused h now l w : ladder_ok cfg l -> probe_ok cfg l -> seen l w -> streak_seen (streak l) (w_streak w) ->
  exists b l', update exp cfg h now l = Some (b, l') /\
    (if b then
       cause h (idx_ l) (ce_reason (last_event_ l')) /\ ce_from (last_event_ l') = idx_ l /\ ce_to (last_event_ l') = idx_ l' /\
       ce_t_ms (last_event_ l') = now /\ (idx_ l < idx_ l' -> d_ltb now (w_barred w (idx_ l')) = false) /\
       seen l' (move (before_move (CUpdate h now) w) (last_event_ l'))
     else idx_ l' = idx_ l /\ seen l' (before_move (CUpdate h now) w)) /\
    (measured h -> d_ltb d_zero (residual_loss h) = true -> 0 < idx_ l -> b = true /\ idx_ l' = idx_ l - 1).
Proof.
  intros Hl Hp Hs Hk. destruct (call_seen (CUpdate h now) l w Hl Hp Hs Hk) as (es & l2 & E & _ & Hs' & _). cbn [call_log] in E.
  destruct (update_out h now l Hl Hp) as (lp & s & _ & Op & Sp & Qp & (b & l' & Eu & A) & _ & Hres).
  assert (Hi : idx_ lp = idx_ l) by exact (f_equal (fun s => fst (fst s)) Sp).
  rewrite Eu in E. cbn [mbind option_bind fst snd] in E. unfold logged in E. injection E as <- <-.
  exists b, l'. split; [exact Eu |]. split.
  - destruct b; cbn [foldl] in Hs'; [| split; [| exact Hs']; destruct A as [K _]; rewrite (ck_idx _ _ K); exact Hi].
    destruct A as (to & why & Hm & Hlg & HP & Hpen & _). pose proof Hm as [M1 _ M3 _ _ M6 M7 M8 M9 _ _ _ _ _]. rewrite M9.
    split; [exact HP |]. split; [congruence |]. split; [congruence |]. split; [exact M8 |]. split; [| exact Hs'].
    intros Hup. assert (Hd : downward why = false).
    { destruct (downward why) eqn:Hd; [exfalso | reflexivity]. unfold legal in Hlg. rewrite M9, M7, <- M3 in Hlg.
      cbn [fst spot] in Hlg. destruct why; try discriminate Hd; destruct Hlg as [_ Hlg]; lia. }
    specialize (Hpen Hd). rewrite <- M3 in Hpen. unfold is_penalized in Hpen. rewrite Qp, (se_barred _ _ Hs (idx_ l') (lo_idx _ _ M1)) in Hpen.
    by injection Hpen.
  - intros Hms Hr Hpos. destruct (Hres Hms Hr Hpos) as (l'' & Eu' & Hm'). rewrite Eu in Eu'. injection Eu' as -> ->.
    split; [reflexivity |]. rewrite (mv_idx _ _ _ _ _ _ Hm'). by rewrite Hi.
Qed.

(** ** The clock of silence *)

Abbreviation fb := last_feedback_ms_.

(** Only a measured sample, or the hand-back of the link, sets it. *)
Ltac fb_step :=
  match goal with
  | H : _ ≫= _ = Some _ |- _ => let a := fresh "a" in let E := fresh "E" in apply bind_Some in H as (a & E & H)
  | H : Some _ = Some _ |- _ => injection H as H; try subst
  | H : (_, _) = (_, _) |- _ => injection H as H; try subst
  | H : None = Some _ |- _ => discriminate H
  | H : (if ?b then _ else _) = Some _ |- _ => destruct b
  end.
Ltac fb_solve := intros; cbn zeta in *; repeat fb_step; try reflexivity.

Lemma set_event_fb now from to why u l l' : set_event now from to why u l = Some l' -> fb l' = fb l.
Proof. unfold set_event. fb_solve. Qed.

Lemma mark_transition_fb now l : fb (mark_transition cfg now l) = fb l.
Proof. unfold mark_transition, set_probe_state. repeat case_bool_decide; reflexivity. Qed.

Lemma step_down_fb to now l : fb (step_down cfg to now l) = fb l.
Proof. unfold step_down. by rewrite mark_transition_fb. Qed.

Lemma fail_probation_fb now l l' : fail_probation cfg now l = Some l' -> fb l' = fb l.
Proof. unfold fail_probation, penalize_rung. fb_solve. Qed.

Lemma survival_fb now l l' : check_probation_survival now l = Some l' -> fb l' = fb l.
Proof. unfold check_probation_survival. fb_solve. Qed.

Lemma drop_to_floor_fb now why count l b l' : drop_to_floor cfg now why count l = Some (b, l') -> fb l' = fb l.
Proof.
  unfold drop_to_floor. intros (l1 & E & [= _ <-])%bind_Some. rewrite (set_event_fb _ _ _ _ _ _ _ E).
  exact (step_down_fb 0 now (l {{ probation_active_ := false }})).
Qed.

Lemma demote_booked_fb now why count u l b l' : demote_booked cfg now why count u l = Some (b, l') -> fb l' = fb l.
Proof.
  unfold demote_booked. intros (l1 & E1 & (l2 & E2 & [= _ <-])%bind_Some)%bind_Some. rewrite (set_event_fb _ _ _ _ _ _ _ E2).
  etrans; [exact (step_down_fb (idx_ l - 1) now l1) |]. destruct (on_probation l); [exact (fail_probation_fb _ _ _ E1) | by injection E1 as <-].
Qed.

Lemma demote_probation_fb now l b l' : demote_probation cfg now l = Some (b, l') -> fb l' = fb l.
Proof.
  unfold demote_probation. intros (l1 & E1 & (l2 & E2 & [= _ <-])%bind_Some)%bind_Some. rewrite (set_event_fb _ _ _ _ _ _ _ E2).
  rewrite step_down_fb. exact (fail_probation_fb _ _ _ E1).
Qed.

Lemma demote_util_fb now l b l' : demote_util cfg now l = Some (b, l') -> fb l' = fb l.
Proof. unfold demote_util. intros (l2 & E2 & [= _ <-])%bind_Some. rewrite (set_event_fb _ _ _ _ _ _ _ E2). exact (step_down_fb _ _ l). Qed.

Lemma fade_demote_fb now l b l' : fade_demote cfg now l = Some (b, l') -> fb l' = fb l.
Proof.
  unfold fade_demote. intros (l2 & E2 & [= _ <-])%bind_Some. etrans; [exact (set_event_fb _ _ _ _ _ _ _ E2) |].
  exact (step_down_fb (idx_ l - 1) now (l {{ probation_active_ := false }})).
Qed.

Lemma promote_to_fb next probed now l b l' : promote_to cfg next probed now l = Some (b, l') -> fb l' = fb l.
Proof.
  unfold promote_to. intros (l2 & E2 & [= _ <-])%bind_Some. rewrite (set_event_fb _ _ _ _ _ _ _ E2).
  etrans; [exact (mark_transition_fb _ _) | reflexivity].
Qed.

Lemma clean_margin_fb now l b l' : clean_margin cfg now l = Some (b, l') -> fb l' = fb l.
Proof.
  unfold clean_margin. destruct (d_ltb (u_ l) _); [| by intros [= _ <-]]. cbn zeta.
  match goal with |- context [if d_ltb ?a ?b then ?x else l] => set (l1 := if d_ltb a b then x else l) end.
  assert (H : fb l1 = fb l) by (unfold l1; by destruct (d_ltb _ _)). rewrite <- H. clearbody l1. clear H l.
  destruct (_ && _ && _ && _); [| by intros [= _ <-]]. intros (pen & _ & E)%bind_Some. revert E. destruct pen; [by intros [= _ <-] |].
  destruct (g_state _); [apply promote_to_fb | | | ].
  2: destruct (_ <=? _); [apply promote_to_fb |].
  all: try destruct (probe_hold_active_ _); by intros [= _ <-].
Qed.

Lemma s3_pressure_fb live now l b l' : s3_pressure cfg live now l = Some (b, l') -> fb l' = fb l.
Proof.
  unfold s3_pressure. destruct (_ && live); [| apply clean_margin_fb].
  destruct (d_gtb _ _); [cbn zeta | intros H; exact (clean_margin_fb _ _ _ _ H)].
  match goal with |- context [if d_ltb ?a ?b then ?x else l] => set (l1 := if d_ltb a b then x else l) end.
  assert (H : fb l1 = fb l) by (unfold l1; by destruct (d_ltb _ _)). rewrite <- H. clearbody l1. clear H l.
  destruct (_ && _ && _); [apply demote_booked_fb | apply clean_margin_fb].
Qed.

Lemma util_pressure_fb live now l b l' : util_pressure cfg live now l = Some (b, l') -> fb l' = fb l.
Proof.
  unfold util_pressure. destruct (d_gtb _ _); [cbn zeta | intros H; exact (s3_pressure_fb _ _ _ _ _ H)].
  match goal with |- context [if d_ltb ?a ?b then ?x else l] => set (l1 := if d_ltb a b then x else l) end.
  assert (H : fb l1 = fb l) by (unfold l1; by destruct (d_ltb _ _)). rewrite <- H. clearbody l1. clear H l.
  destruct (on_probation l1); [apply demote_probation_fb |]. destruct (_ && _ && _); [apply demote_util_fb | apply s3_pressure_fb].
Qed.

Lemma starved_fb now l b l' : starved cfg now l = Some (b, l') -> fb l' = fb l.
Proof.
  unfold starved. cbn zeta. match goal with |- context [if d_ltb ?a ?b then ?x else l] => set (l1 := if d_ltb a b then x else l) end.
  assert (H : fb l1 = fb l) by (unfold l1; by destruct (d_ltb _ _)). rewrite <- H. clearbody l1. clear H l.
  destruct (d_ltb _ _); [by intros [= _ <-] |]. destruct (_ =? _); [by intros [= _ <-] | apply drop_to_floor_fb].
Qed.

Lemma fade_trigger_fb h now l : fb (snd (fade_trigger cfg h now l)) = fb l.
Proof.
  unfold fade_trigger. destruct (predict _); [cbn zeta | done].
  destruct (_ && d_ltb _ _ && d_ltb _ _); destruct (negb _); cbn [snd]; try done; by destruct (d_ltb _ d_zero).
Qed.

Lemma measure_s3_fb h now l b l' : measure_s3 cfg h now l = Some (b, l') -> fb l' = fb l.
Proof.
  unfold measure_s3. cbn zeta. match goal with |- context [if ?a then l {{ s3_util_start_ms_ := kClosed }} else l] =>
    set (l1 := if a then l {{ s3_util_start_ms_ := kClosed }} else l) end.
  assert (H : fb l1 = fb l) by (unfold l1; by destruct (d_gtb _ _)). rewrite <- H. clearbody l1. clear H.
  destruct (negb _); [by intros [= _ <-] |]. intros (b3 & _ & E)%bind_Some. revert E.
  destruct (d_geb _ _); [intros (s & _ & [= _ <-])%bind_Some | intros [= _ <-]]; reflexivity.
Qed.

Lemma update_probe_gate_fb h now l l' : update_probe_gate cfg h now l = Some l' -> fb l' = fb l.
Proof.
  assert (Hs : forall st r u l0, fb (set_probe_state st r u now l0) = fb l0) by (intros; unfold set_probe_state; by case_bool_decide).
  unfold update_probe_gate. cbn zeta. destruct (probe_rung cfg l <? 0); [intros [= <-]; exact (Hs _ _ _ _) |].
  destruct (_ && _ && _); [| destruct (d_gtb _ _); intros [= <-]; [exact (Hs _ _ _ _) | reflexivity]].
  unfold score_probe. destruct (budget_enh_for cfg _); cbn [mbind option_bind]; [| done]. cbn zeta. intros (l1 & E & H)%bind_Some.
  assert (U1 : fb l1 = fb l) by (revert E; destruct (d_geb _ _); [intros (s & _ & [= <-])%bind_Some | intros [= <-]]; reflexivity).
  rewrite <- U1. revert H. destruct (_ <? _), (d_leb _ _); try destruct (probe_streak_open_ _); intros [= <-]; exact (Hs _ _ _ _).
Qed.

Lemma measure_fb h now l l' : measure exp cfg h now l = Some l' -> fb l' = now.
Proof.
  unfold measure. cbn zeta. intros (b & _ & (l3 & E & H)%bind_Some)%bind_Some. pose proof (update_probe_gate_fb _ _ _ _ E) as F.
  assert (F' : fb l3 = now) by (rewrite F; by destruct (d_is_nan _), (d_is_nan _)). clear E F. revert H.
  destruct (_ && _); [intros (s & _ & (s' & _ & [= <-])%bind_Some)%bind_Some | intros [= <-]]; exact F'.
Qed.

Lemma update_fb h now l b l' : update exp cfg h now l = Some (b, l') ->
  fb l' = if video_starved h || negb (sample_valid h) then fb l else now.
Proof.
  unfold update. intros (l0 & E0%survival_fb & H)%bind_Some. cbn zeta in H. rewrite <- E0. revert H.
  destruct (video_starved h); [intros H; exact (starved_fb _ _ _ _ H) |].
  destruct (sample_valid h); cbn [negb orb]; [| by intros [= _ <-]].
  intros (l1 & E1%measure_fb & H)%bind_Some. rewrite <- E1. revert H.
  destruct (_ && _); [apply demote_booked_fb |]. pose proof (fade_trigger_fb h now l1) as F.
  destruct (fade_trigger cfg h now l1) as [fire l2]. cbn [snd] in F. rewrite <- F. destruct fire; [apply fade_demote_fb |].
  intros ([live l3] & E3%measure_s3_fb & H)%bind_Some. rewrite <- E3. revert H.
  destruct (_ && _ && _ && _); [apply demote_booked_fb | apply util_pressure_fb].
Qed.

Lemma on_tick_fb now l b l' : on_tick cfg now l = Some (b, l') -> fb l' = fb l.
Proof.
  unfold on_tick. intros (l0 & E0%survival_fb & H)%bind_Some. rewrite <- E0. revert H.
  destruct (_ && _); [apply drop_to_floor_fb | by intros [= _ <-]].
Qed.

Lemma reenter_fb r now why l l' : reenter cfg r now why l = Some l' -> fb l' = fb l.
Proof. unfold reenter. cbn zeta. intros H. rewrite (set_event_fb _ _ _ _ _ _ _ H). etrans; [exact (mark_transition_fb _ _) | reflexivity]. Qed.

Lemma moves_heard w es : w_heard (foldl move w es) = w_heard w.
Proof.
  revert w. induction es as [|e es IH]; intros w; [done |]. cbn [foldl]. rewrite IH. unfold move, fail_trial.
  destruct (ce_reason e), (w_trial w); reflexivity.
Qed.

Lemma outlive_heard now w : w_heard (outlive now w) = w_heard w.
Proof. unfold outlive. repeat case_match; done. Qed.

Lemma hear_heard h now w : w_heard (hear h now w) = w_heard w.
Proof. unfold hear. repeat case_match; done. Qed.

Lemma call_fb c l es l' w : call_log c l = Some (es, l') -> fb l = w_heard w -> fb l' = w_heard (foldl move (before_move c w) es).
Proof.
  rewrite moves_heard. destruct c; cbn [call_log before_move]; unfold logged; intros H Hw.
  - apply bind_Some in H as ([b l1] & E%update_fb & [= _ <-]). cbn [snd]. rewrite E.
    destruct (_ || _); [by rewrite hear_heard, outlive_heard | reflexivity].
  - apply bind_Some in H as ([b l1] & E%on_tick_fb & [= _ <-]). cbn [snd]. by rewrite E, outlive_heard.
  - apply bind_Some in H as (l1 & E%reenter_fb & [= _ <-]). by rewrite E.
  - apply bind_Some in H as (l1 & E%reenter_fb & [= _ <-]). by rewrite E.
  - injection H as _ <-. exact Hw.
Qed.

Lemma watched_fb cs l w l' w' : watched cs l w = Some (l', w') -> fb l = w_heard w -> fb l' = w_heard w'.
Proof.
  revert l w. induction cs as [|c cs IH]; intros l w; cbn [watched]; [by intros [= <- <-] |].
  intros ([es l1] & E & H)%bind_Some Hw. exact (IH _ _ H (call_fb _ _ _ _ _ E Hw)).
Qed.

(** The start. *)
Lemma new_seen l : new_ladder pow cfg = Some l -> seen l new_watch /\ streak_seen (streak l) [] /\ fb l = kNever.
Proof.
  unfold new_ladder. destruct (rungs cfg) as [|r0 rs] eqn:Hr; [done |].
  intros (s & Hs & [= <-])%bind_Some. split; [| split; [by split | reflexivity]].
  assert (Hn : Z.of_nat (length (rungs cfg)) = Z.of_nat (length (r0 :: rs))) by (by rewrite Hr).
  split; cbn [idx_ fail_count_ penalty_until_ probation_active_ new_watch w_rung w_trial w_failed w_barred]; try done.
  all: intros r; rewrite Hn; intros H; unfold at_index; rewrite (proj2 (Z.ltb_ge _ _)) by lia; apply (lookup_replicate_2 (length (r0 :: rs))); lia.
Qed.

End Ladder.


(** C18. Every move has its cause, and residual loss and silence always have their effect. A watcher
    that sees only the calls and the moves knows, after any calls, the rung, the running probation
    and, of every rung, its failures in a row and the end of its penalty: a probation ends as failed
    by a move for loss, at its rung's [k]-th failure in a row (a probation outlived starts the count again,
    and [k] stops growing at 32), and only that bars a rung, for
    [min(penalty_max, penalty_base * 2^(k-1))] from then on. A sample that moves the link says why,
    truly (its loss, as a share of what the rung's code repairs, is beyond the threshold; the residual
    loss is there; for a predicted fade only that prediction is on, the rung not below its lowest and
    both signals read), and never moves it up into a rung still barred. A measured sample with
    residual loss always lowers a link above the floor one rung, and a clock past the feedback timeout since the last measured
    sample (or since a pinned link was handed back) always drops it to the floor. How long a
    condition must have held is outside this property. *)
Theorem ladder_moves_caused (exp : double -> double) (pow : double -> double -> double) (cfg : LadderCfg) (l0 : Ladder)
    (cs : list Call) (h : LinkHealth) (now : double) :
  new_ladder pow cfg = Some l0 ->
  exists l w, watched exp cfg cs l0 new_watch = Some (l, w) /\ ladder_calls exp cfg cs l0 = Some l /\ seen cfg l w /\
    (exists b l', update exp cfg h now l = Some (b, l') /\
      (let w' := before_move cfg (CUpdate h now) w in
       let e := last_event_ l' in
       if b then
         cause cfg h (w_rung w) (ce_reason e) /\ ce_from e = w_rung w /\ ce_to e = idx_ l' /\ ce_t_ms e = now /\
         (w_rung w < idx_ l' -> d_ltb now (w_barred w (idx_ l')) = false) /\ seen cfg l' (move cfg w' e)
       else idx_ l' = w_rung w /\ seen cfg l' w') /\
      (measured h -> d_ltb d_zero (residual_loss h) = true -> 0 < w_rung w -> b = true /\ idx_ l' = w_rung w - 1)) /\
    (d_ltb (d_of_Z (feedback_timeout_ms cfg)) (d_sub now (w_heard w)) = true -> 0 < w_rung w ->
     exists l', on_tick cfg now l = Some (true, l') /\ idx_ l' = 0).
Proof.
  intros H0. destruct (new_ladder_ok pow cfg l0 H0) as (Hl0 & Hp0 & _). destruct (new_seen pow cfg l0 H0) as (Hw0 & Hk0 & Hf0).
  destruct (calls_watched exp cfg cs l0 new_watch Hl0 Hp0 Hw0 Hk0) as (l & w & Ew & Ec & Hl & Hp & Hs & Hk).
  pose proof (watched_fb exp cfg _ _ _ _ _ Ew Hf0) as Hf.
  exists l, w. split; [exact Ew |]. split; [exact Ec |]. split; [exact Hs |]. rewrite <- (se_rung _ _ _ Hs).
  split; [| rewrite <- Hf; destruct (on_tick_out cfg now l Hl Hp) as (? & _ & _ & _ & _ & H); exact H].
  exact (sample_caused exp cfg h now l w Hl Hp Hs Hk).
Qed.

(** ** Proofs: a session of the rate controller, evaluated

    Three rungs, a clean stretch that climbs two rungs, a loss on probation that falls back and
    penalises, then silence. *)

Definition demo_exp (x : double) : double := x.
Definition demo_pow (_ y : double) : double := y.

Definition demo_rungs : list Rung :=
  [ mkRung 0 (d_lit 50 100) (d_lit 25 100) 20; mkRung 2 (d_lit 40 100) (d_lit 20 100) 20;
    mkRung 4 (d_lit 30 100) (d_lit 15 100) 40 ].

Definition demo_ladder_cfg : LadderCfg :=
  mkLadderCfg demo_rungs (d_lit 8 10) (d_lit 3 10) 200 500 1000 3000 20000 400 100 1000 300
    (mkProbeCfg false 1 60 (d_of_Z (-1)) 8 400) true (d_of_Z (-1)) 4 200 50
    (mkFadeCfg true false 3000 100 (d_of_Z 8) (d_of_Z 6) 100 1).

(** A sample with loss [l] before recovery and [r] after it. *)
Definition demo_sample (l r : double) : LinkHealth :=
  mkLinkHealth true l r false false d_zero d_zero 0 (d_of_Z 25) S754_nan (d_of_Z (-60)) false d_zero 0 0 (-1).

Definition demo_clean (t : Z) : Call := CUpdate (demo_sample d_zero d_zero) (d_of_Z t).

Definition demo_climb : list Call := map (fun k => demo_clean (100 * Z.of_nat k)) (seq 1 13).


Definition demo_l0 : Ladder :=
  match new_ladder demo_pow demo_ladder_cfg as r return match r with Some _ => Ladder | None => unit end with
  | Some l => l
  | None => tt
  end.

Lemma demo_new : new_ladder demo_pow demo_ladder_cfg = Some demo_l0.
Proof. by vm_compute. Qed.


(** The same ladder with probes: samples a tenth of a second apart, twenty clean bodies each. *)
Definition demo_probe_cfg : LadderCfg := demo_ladder_cfg {{ probe_cfg := mkProbeCfg true 1 60 (d_of_Z (-1)) 8 400 }}.

Definition demo_probed (rung k : Z) : Call :=
  CUpdate (mkLinkHealth true d_zero d_zero false false d_zero d_zero 0 (d_of_Z 25) S754_nan (d_of_Z (-60)) true d_zero 100 (20 * k) rung)
    (d_of_Z (100 * k)).

Definition demo_probed_calls : list Call :=
  map (fun k => demo_probed 1 (Z.of_nat k)) (seq 1 6) ++ map (fun k => demo_probed 2 (Z.of_nat k)) (seq 7 10).

Definition demo_p0 : Ladder :=
  match new_ladder demo_pow demo_probe_cfg as r return match r with Some _ => Ladder | None => unit end with
  | Some l => l
  | None => tt
  end.


Lemma demo_probe_moves :
  option_map (fun x => map (fun e => (ce_from e, ce_to e, ce_reason e)) (fst x))
    (calls_log demo_exp demo_probe_cfg demo_probed_calls demo_p0) = Some [(0, 1, PromoteProbed); (1, 2, PromoteProbed)].
Proof. by vm_compute. Qed.


(** Where the climb ends: the top rung, on probation. *)
Lemma demo_top : match watched demo_exp demo_ladder_cfg demo_climb demo_l0 new_watch with
                 | Some (l, w) => w_rung w = 2 /\ w_failed w 2 = 0 /\ bool_decide (is_Some (w_trial w)) = true
                 | None => False
                 end.
Proof. vm_compute. by split_all. Qed.

Definition demo_loss : LinkHealth := demo_sample (d_lit 5 10) (d_lit 1 10).

Lemma demo_loss_measured : measured demo_loss /\ d_ltb d_zero (residual_loss demo_loss) = true.
Proof. split; [split |]; reflexivity. Qed.

(** The next lossy sample leaves it. *)
Lemma ladder_moves_caused_witness :
  exists l w l', watched demo_exp demo_ladder_cfg demo_climb demo_l0 new_watch = Some (l, w) /\ w_failed w 2 = 0 /\
    update demo_exp demo_ladder_cfg demo_loss (d_of_Z 1400) l = Some (true, l') /\ idx_ l' = 2 - 1 /\
    cause demo_ladder_cfg demo_loss 2 (ce_reason (last_event_ l')) /\
    at_index (penalty_until_ l') 2 =
      Some (w_barred (move demo_ladder_cfg (before_move demo_ladder_cfg (CUpdate demo_loss (d_of_Z 1400)) w) (last_event_ l')) 2).
Proof.
  destruct demo_loss_measured as [Hm Hr].
  destruct (ladder_moves_caused demo_exp demo_pow demo_ladder_cfg demo_l0 demo_climb demo_loss (d_of_Z 1400) demo_new)
    as (l & w & Ew & _ & _ & (b & l' & Eu & H & Hd) & _).
  pose proof demo_top as T. rewrite Ew in T. destruct T as (T1 & T2 & _). rewrite T1 in H, Hd.
  destruct (Hd Hm Hr ltac:(lia)) as [-> Hi]. destruct H as (Hc & _ & _ & _ & _ & Hs).
  exists l, w, l'. split; [exact Ew |]. split; [exact T2 |]. split; [exact Eu |]. split; [exact Hi |]. split; [exact Hc |].
  apply (se_barred _ _ _ Hs). vm_compute. split; [discriminate | reflexivity].
Defined.

(** What the watcher then says: rung 2 failed once, and is barred for three seconds. *)
Lemma demo_barred :
  option_map (fun x => (w_failed (snd x) 2, w_barred (snd x) 2, idx_ (fst x)))
    (watched demo_exp demo_ladder_cfg (demo_climb ++ [CUpdate demo_loss (d_of_Z 1400)]) demo_l0 new_watch) =
  Some (1, d_add (d_of_Z 1400) (d_of_Z (penalty_base_ms demo_ladder_cfg)), 1).
Proof. by vm_compute. Qed.
