(* ===== verification/Rendezvous.v ===== *)
(** * Rendezvous: the ground half of link pairing (gs/src/rendezvous.cpp)

    When to beacon, when to command, and whose session nonce is held.  Times are doubles; the
    random nonce of the constructor is an argument.  The log at the end says what the state
    means: the stranger rule counts a run of refused answers and the beacons it ignored. *)
From S2P Require Import Prelude Bytes SwConfig RcProto RungStore.

(** ** State *)

Inductive VrxState := SESSION | BEACONING | KEY_MISMATCH.
Inductive VrxAction := TxFeedback | Beacon | Idle.

#[export] Instance vrx_state_eq_dec : EqDecision VrxState.
Proof. solve_decision. Defined.

Record VrxRzConfig := mkVrxRzConfig { link_lost_ms : Z; beacon_period_ms : Z; rz_op_channel : Z; rz_cfg_nonce : Z }.

Record Rz := mkRz {
  rz_cfg : VrxRzConfig;
  rz_state : VrxState;
  last_video_ms : double;
  last_beacon_ms : double;
  rz_seq : Z;
  rz_nonce : Z;
  proposal : Z;
  rz_vtx_nonce : option Z;
  first_flagged_ms : option double;
  beacons_since_flagged : Z;
}.

Definition kKeyMismatchMs : double := d_of_Z 1000.
Definition kKeyMismatchBeacons : Z := 3.

(** A configured nonce of zero asks for a random one. *)
Definition new_rz (cfg : VrxRzConfig) (random : Z) : Rz :=
  mkRz cfg BEACONING d_zero kNever 0 (if rz_cfg_nonce cfg =? 0 then random else rz_cfg_nonce cfg) (rz_op_channel cfg)
    None None 0.

(** ** Operations *)

Definition feed_video (now_ms : double) (z : Rz) : Rz :=
  let z := z {{ last_video_ms := now_ms }} in
  if bool_decide (rz_state z = BEACONING) && bool_decide (is_Some (rz_vtx_nonce z)) then z {{ rz_state := SESSION }} else z.

(** The beacon timer, which every state but a live SESSION runs on. *)
Definition beacon_due (now_ms : double) (z : Rz) : VrxAction * Rz :=
  if d_geb (d_sub now_ms (last_beacon_ms z)) (d_of_Z (beacon_period_ms (rz_cfg z)))
  then (Beacon, z {{ last_beacon_ms := now_ms }}) else (Idle, z).

Definition rz_tick (now_ms : double) (z : Rz) : VrxAction * Rz :=
  if bool_decide (rz_state z = SESSION) then
    if d_gtb (d_sub now_ms (last_video_ms z)) (d_of_Z (link_lost_ms (rz_cfg z)))
    then beacon_due now_ms (z {{ rz_state := BEACONING }})
    else (TxFeedback, z)
  else beacon_due now_ms z.

(** The next DISC; an [int] counts the beacons of a flagged run. *)
Definition beacon (z : Rz) : Disc * Rz :=
  let z := z {{ rz_seq ::= (fun s => u16 (s + 1)) }} in
  let z := if bool_decide (is_Some (first_flagged_ms z)) then z {{ beacons_since_flagged ::= (fun b => i32 (b + 1)) }} else z in
  (mkDisc (rz_nonce z) (proposal z) 20 1 0 0 (rz_seq z), z).

Definition ack_mismatch (ack : DiscAck) : bool := negb (Z.land (a_flags ack) kAckKeyMismatch =? 0).

(** The answer: whether the ack was ours, whether its nonce is a new session, and the state. *)
Definition feed_disc_ack (ack : DiscAck) (now_ms : double) (z : Rz) : bool * bool * Rz :=
  if negb (a_vrx_nonce ack =? rz_nonce z) then (false, false, z)
  else if ack_mismatch ack then
    let z := match first_flagged_ms z with
             | Some _ => z
             | None => z {{ first_flagged_ms := Some now_ms ; beacons_since_flagged := 0 }}
             end in
    let first := default now_ms (first_flagged_ms z) in
    let z := if d_geb (d_sub now_ms first) kKeyMismatchMs && (kKeyMismatchBeacons <=? beacons_since_flagged z)
             then z {{ rz_state := KEY_MISMATCH }} else z in
    (true, false, z)
  else
    let z := z {{ first_flagged_ms := None ; beacons_since_flagged := 0 }} in
    let adopted := negb (bool_decide (rz_vtx_nonce z = Some (a_vtx_nonce ack))) in
    let z := if adopted then z {{ rz_vtx_nonce := Some (a_vtx_nonce ack) }} else z in
    (true, adopted, z {{ rz_state := SESSION ; last_video_ms := now_ms }}).

Definition set_proposal (ch : Z) (z : Rz) : Rz := z {{ proposal := ch }}.

(** ** Proofs: what the ground's pairing state means

    The state is read off the log of what the rendezvous was told: the nonce held is that of the
    last accepted answer, and the key is called mismatched exactly when, since that answer, the
    drone has refused for a second and for three beacons. *)

(** ** Calls *)

Inductive RzCall :=
| RzVideo (now_ms : double)
| RzTick (now_ms : double)
| RzBeacon
| RzAck (ack : DiscAck) (now_ms : double)
| RzPropose (ch : Z).

Definition rz_call (c : RzCall) (z : Rz) : Rz :=
  match c with
  | RzVideo t => feed_video t z
  | RzTick t => snd (rz_tick t z)
  | RzBeacon => snd (beacon z)
  | RzAck a t => snd (feed_disc_ack a t z)
  | RzPropose ch => set_proposal ch z
  end.

Definition rz_calls (cs : list RzCall) (z : Rz) : Rz := fold_left (fun z c => rz_call c z) cs z.

(** ** Reading the log *)

Section Log.
Context (nonce : Z).

(** An answer to our discovery frames that the drone took, or one it refused. *)
Definition accepting (c : RzCall) : bool :=
  match c with RzAck a _ => (a_vrx_nonce a =? nonce) && negb (ack_mismatch a) | _ => false end.
Definition refusing (c : RzCall) : bool :=
  match c with RzAck a _ => (a_vrx_nonce a =? nonce) && ack_mismatch a | _ => false end.

Definition session_of (c : RzCall) : option Z :=
  match c with RzAck a _ => if accepting c then Some (a_vtx_nonce a) else None | _ => None end.

(** The nonce of the last accepting answer. *)
Definition last_session (cs : list RzCall) : option Z := last (omap session_of cs).

(** The calls since the last accepting answer, oldest first. *)
Definition since_accepted (cs : list RzCall) : list RzCall :=
  fold_left (fun run c => if accepting c then [] else run ++ [c]) cs [].

Definition is_beacon (c : RzCall) : bool := match c with RzBeacon => true | _ => false end.
Definition beacons (cs : list RzCall) : Z := Z.of_nat (length (filter (fun c => is_beacon c = true) cs)).

(** A run that says the keys differ: a refusal a second and three beacons after the first. *)
Definition mismatch_run (run : list RzCall) : Prop :=
  exists idle a0 t0 mid a1 t1 rest,
    run = idle ++ RzAck a0 t0 :: mid ++ RzAck a1 t1 :: rest /\
    Forall (fun c => refusing c = false) idle /\ refusing (RzAck a0 t0) = true /\ refusing (RzAck a1 t1) = true /\
    d_geb (d_sub t1 t0) kKeyMismatchMs = true /\ kKeyMismatchBeacons <= beacons mid.

Lemma since_snoc cs c : since_accepted (cs ++ [c]) = if accepting c then [] else since_accepted cs ++ [c].
Proof. unfold since_accepted. by rewrite fold_left_app. Qed.

Lemma last_session_snoc cs c : last_session (cs ++ [c]) = match session_of c with Some n => Some n | None => last_session cs end.
Proof.
  unfold last_session. rewrite omap_app. cbn [omap list_omap]. destruct (session_of c); [by rewrite last_snoc | by rewrite app_nil_r].
Qed.

Lemma beacons_snoc cs c : beacons (cs ++ [c]) = beacons cs + b2z (is_beacon c).
Proof.
  unfold beacons. rewrite filter_app, length_app, Nat2Z.inj_add. f_equal.
  rewrite filter_cons, filter_nil. case_decide as H; [by rewrite H |]. by destruct (is_beacon c).
Qed.

Lemma beacons_length cs : 0 <= beacons cs <= Z.of_nat (length cs).
Proof. unfold beacons. assert (H := length_filter (fun c => is_beacon c = true) cs). lia. Qed.

Lemma since_length cs : (length (since_accepted cs) <= length cs)%nat.
Proof.
  induction cs as [|c cs IH] using rev_ind; [done |]. rewrite since_snoc. destruct (accepting c); cbn; [lia |].
  rewrite !length_app. cbn. lia.
Qed.

(** ** The first refusal of a run *)

Fixpoint first_refusal (run : list RzCall) : option (double * list RzCall) :=
  match run with
  | [] => None
  | c :: run => if refusing c then match c with RzAck _ t => Some (t, run) | _ => None end else first_refusal run
  end.

Lemma first_refusal_snoc run c :
  first_refusal (run ++ [c]) =
    match first_refusal run with
    | Some (t, mid) => Some (t, mid ++ [c])
    | None => if refusing c then match c with RzAck _ t => Some (t, []) | _ => None end else None
    end.
Proof.
  induction run as [|x run IH]; cbn; [by destruct (refusing c), c |].
  destruct (refusing x) eqn:Hx; [| exact IH]. destruct x; try discriminate Hx. reflexivity.
Qed.

Lemma first_refusal_split run t mid : first_refusal run = Some (t, mid) <->
  exists idle a, run = idle ++ RzAck a t :: mid /\ Forall (fun c => refusing c = false) idle /\ refusing (RzAck a t) = true.
Proof.
  split.
  - induction run as [|x run IH]; cbn; [done |]. destruct (refusing x) eqn:Hx.
    + destruct x as [| | |a t'|]; try discriminate Hx. intros [= -> ->]. by exists [], a.
    + intros H. destruct (IH H) as (idle & a & -> & Hi & Ha). exists (x :: idle), a. split; [done |]. split; [by constructor | done].
  - intros (idle & a & -> & Hi & Ha). induction Hi as [|x idle Hx _ IH]; cbn [app first_refusal]; [by rewrite Ha | by rewrite Hx].
Qed.

(** A run grows into a mismatch at a refusal, and stays one. *)
Lemma mismatch_snoc run c : mismatch_run (run ++ [c]) <->
  mismatch_run run \/
  exists t0 mid t1 a, first_refusal run = Some (t0, mid) /\ c = RzAck a t1 /\ refusing c = true /\
    d_geb (d_sub t1 t0) kKeyMismatchMs = true /\ kKeyMismatchBeacons <= beacons mid.
Proof.
  unfold mismatch_run. split.
  - intros (idle & a0 & t0 & mid & a1 & t1 & rest & E & Hi & H0 & H1 & Ht & Hb).
    destruct rest as [|x rest _] using rev_ind.
    + right. replace (idle ++ RzAck a0 t0 :: mid ++ [RzAck a1 t1]) with ((idle ++ RzAck a0 t0 :: mid) ++ [RzAck a1 t1]) in E
        by (rewrite <- app_assoc; done).
      apply app_inj_tail in E as [-> ->]. exists t0, mid, t1, a1. split; [| done]. apply first_refusal_split. by exists idle, a0.
    + left. replace (idle ++ RzAck a0 t0 :: mid ++ RzAck a1 t1 :: rest ++ [x])
        with ((idle ++ RzAck a0 t0 :: mid ++ RzAck a1 t1 :: rest) ++ [x]) in E
        by (rewrite <- !app_assoc; cbn; rewrite <- app_assoc; done).
      apply app_inj_tail in E as [-> _]. by exists idle, a0, t0, mid, a1, t1, rest.
  - intros [(idle & a0 & t0 & mid & a1 & t1 & rest & -> & H) | (t0 & mid & t1 & a & Hf & -> & H1 & Ht & Hb)].
    + exists idle, a0, t0, mid, a1, t1, (rest ++ [c]). split; [| done]. rewrite <- !app_assoc. cbn. by rewrite <- app_assoc.
    + apply first_refusal_split in Hf as (idle & a0 & -> & Hi & H0). exists idle, a0, t0, mid, a, t1, [].
      split; [| done]. by rewrite <- app_assoc.
Qed.

Lemma no_mismatch_yet run : first_refusal run = None -> ~ mismatch_run run.
Proof.
  intros Hn (idle & a0 & t0 & mid & a1 & t1 & rest & -> & Hi & H0 & _).
  assert (H : first_refusal (idle ++ RzAck a0 t0 :: mid ++ RzAck a1 t1 :: rest) = Some (t0, mid ++ RzAck a1 t1 :: rest))
    by (apply first_refusal_split; by exists idle, a0).
  congruence.
Qed.
End Log.

(** ** The state is the log *)

Record rz_ok (nonce : Z) (cs : list RzCall) (z : Rz) : Prop := mkRzOk {
  rk_nonce : rz_nonce z = nonce;
  rk_vtx : rz_vtx_nonce z = last_session nonce cs;
  rk_run : match first_refusal nonce (since_accepted nonce cs) with
           | Some (t, mid) => first_flagged_ms z = Some t /\ beacons_since_flagged z = beacons mid
           | None => first_flagged_ms z = None /\ beacons_since_flagged z = 0
           end;
  rk_mismatch : rz_state z = KEY_MISMATCH <-> mismatch_run nonce (since_accepted nonce cs);
  rk_session : rz_state z = SESSION -> is_Some (last_session nonce cs);
}.

(** A call that is no answer to us: only a beacon is counted. *)
Lemma rz_ok_other nonce cs c z z' :
  rz_ok nonce cs z -> accepting nonce c = false -> refusing nonce c = false ->
  rz_nonce z' = rz_nonce z -> rz_vtx_nonce z' = rz_vtx_nonce z -> first_flagged_ms z' = first_flagged_ms z ->
  (beacons_since_flagged z' = match first_flagged_ms z with
                              | Some _ => beacons_since_flagged z + b2z (is_beacon c)
                              | None => beacons_since_flagged z
                              end) ->
  (rz_state z' = KEY_MISMATCH <-> rz_state z = KEY_MISMATCH) ->
  (rz_state z' = SESSION -> rz_state z = SESSION \/ is_Some (rz_vtx_nonce z)) ->
  rz_ok nonce (cs ++ [c]) z'.
Proof.
  intros [H1 H2 H3 H4 H5] Ha Hr E1 E2 E3 E4 E5 E6.
  assert (Hs : session_of nonce c = None) by (destruct c; cbn in Ha |- *; by rewrite ?Ha).
  assert (Hl : last_session nonce (cs ++ [c]) = last_session nonce cs) by (by rewrite last_session_snoc, Hs).
  assert (Hf : first_refusal nonce (since_accepted nonce (cs ++ [c])) =
    match first_refusal nonce (since_accepted nonce cs) with Some (t, mid) => Some (t, mid ++ [c]) | None => None end).
  { rewrite since_snoc, Ha, first_refusal_snoc. destruct (first_refusal _ _) as [[t mid]|]; [done |]. by rewrite Hr. }
  split; rewrite ?Hl.
  - by rewrite E1.
  - by rewrite E2.
  - rewrite Hf. destruct (first_refusal nonce (since_accepted nonce cs)) as [[t mid]|]; destruct H3 as [F1 F2]; rewrite F1 in E4.
    + rewrite E3, E4, beacons_snoc, F2. done.
    + by rewrite E3, E4.
  - rewrite E5, H4, since_snoc, Ha. split; [intros H; apply mismatch_snoc; by left |].
    intros [H | (t0 & mid & t1 & a & _ & -> & H & _)]%mismatch_snoc; [done |]. by rewrite Hr in H.
  - intros H. destruct (E6 H) as [H' | H']; [by apply H5 | by rewrite <- H2].
Qed.

(** An accepting answer starts the log afresh. *)
Lemma rz_ok_accept nonce cs a t z : accepting nonce (RzAck a t) = true -> rz_ok nonce cs z ->
  rz_ok nonce (cs ++ [RzAck a t]) (snd (feed_disc_ack a t z)).
Proof.
  intros Ha [H1 H2 _ _ _]. assert (Hs : session_of nonce (RzAck a t) = Some (a_vtx_nonce a)) by (unfold session_of; by rewrite Ha).
  assert (Hl : last_session nonce (cs ++ [RzAck a t]) = Some (a_vtx_nonce a)) by (by rewrite last_session_snoc, Hs).
  cbn in Ha. apply andb_true_iff in Ha as [Hn%Z.eqb_eq Hm%negb_true_iff]. unfold feed_disc_ack.
  rewrite H1, Hn, Z.eqb_refl, Hm. cbn [negb].
  assert (Hsince : since_accepted nonce (cs ++ [RzAck a t]) = []).
  { rewrite since_snoc. cbn. by rewrite Hn, Z.eqb_refl, Hm. }
  cbn [snd]. split; rewrite ?Hl, ?Hsince.
  - case_bool_decide; cbn [negb]; exact H1.
  - case_bool_decide as Hd; cbn [negb]; [exact Hd | reflexivity].
  - case_bool_decide; cbn [negb]; split; reflexivity.
  - split; [case_bool_decide; discriminate |]. intros (idle & ? & ? & ? & ? & ? & ? & E & _). by destruct idle.
  - intros _. by eexists.
Qed.

(** A refusal opens a run, or judges it. *)
Lemma rz_ok_refuse nonce cs a t z : refusing nonce (RzAck a t) = true -> rz_ok nonce cs z ->
  rz_ok nonce (cs ++ [RzAck a t]) (snd (feed_disc_ack a t z)).
Proof.
  intros Hr [H1 H2 H3 H4 H5]. pose proof Hr as Hr0. cbn in Hr. apply andb_true_iff in Hr as [Hn%Z.eqb_eq Hm].
  assert (Ha : accepting nonce (RzAck a t) = false) by (cbn; by rewrite Hm, andb_false_r).
  assert (Hs : session_of nonce (RzAck a t) = None) by (unfold session_of; by rewrite Ha).
  assert (Hl : last_session nonce (cs ++ [RzAck a t]) = last_session nonce cs) by (by rewrite last_session_snoc, Hs).
  unfold feed_disc_ack. rewrite H1, Hn, Z.eqb_refl, Hm. cbn [negb snd].
  destruct (first_refusal nonce (since_accepted nonce cs)) as [[t0 mid]|] eqn:Hf; destruct H3 as [F1 F2]; rewrite F1.
  - cbn [default]. rewrite F1. cbn [default]. rewrite F2. set (ripe := _ && _).
    assert (Hripe : ripe = true <-> d_geb (d_sub t t0) kKeyMismatchMs = true /\ kKeyMismatchBeacons <= beacons mid).
    { unfold ripe. by rewrite andb_true_iff, Z.leb_le. }
    split; rewrite ?Hl, ?since_snoc, ?Ha.
    + destruct ripe; exact H1.
    + destruct ripe; exact H2.
    + rewrite first_refusal_snoc, Hf. rewrite beacons_snoc. cbn [is_beacon b2z]. rewrite Z.add_0_r. destruct ripe; split; assumption.
    + rewrite mismatch_snoc, <- H4, Hf. destruct ripe.
      * split; [intros _; right | by intros _]. destruct (proj1 Hripe eq_refl) as [G1 G2]. by exists t0, mid, t, a.
      * split; [by left |]. intros [H | (t0' & mid' & t1' & a' & [= <- <-] & [= <- <-] & _ & G1 & G2)]; [done |].
        discriminate (proj2 Hripe (conj G1 G2)).
    + destruct ripe; [discriminate | exact H5].
  - cbn [default first_flagged_ms beacons_since_flagged]. change (kKeyMismatchBeacons <=? 0) with false. rewrite andb_false_r.
    split; rewrite ?Hl, ?since_snoc, ?Ha.
    + exact H1.
    + exact H2.
    + rewrite first_refusal_snoc, Hf, Hr0. split; reflexivity.
    + rewrite mismatch_snoc, Hf, <- H4. cbn [rz_state]. split; [by left |].
      intros [H | (? & ? & ? & ? & [=] & _)]. exact H.
    + exact H5.
Qed.

Lemma rz_tick_state t z :
  let z' := snd (rz_tick t z) in
  rz_nonce z' = rz_nonce z /\ rz_vtx_nonce z' = rz_vtx_nonce z /\ first_flagged_ms z' = first_flagged_ms z /\
  beacons_since_flagged z' = beacons_since_flagged z /\
  (rz_state z' = KEY_MISMATCH <-> rz_state z = KEY_MISMATCH) /\ (rz_state z' = SESSION -> rz_state z = SESSION).
Proof.
  cbn zeta. unfold rz_tick, beacon_due. case_bool_decide as Hs; [destruct (d_gtb _ _) |]; try destruct (d_geb _ _); cbn [snd];
    repeat (split; [first [reflexivity | rewrite Hs; split; discriminate] |]);
    first [exact id | intros _; exact Hs].
Qed.

Lemma rz_call_ok nonce cs c z : Z.of_nat (length cs) < 2 ^ 31 - 1 -> rz_ok nonce cs z -> rz_ok nonce (cs ++ [c]) (rz_call c z).
Proof.
  intros Hlen H.
  assert (Hq : is_beacon c = false -> beacons_since_flagged z = match first_flagged_ms z with
             | Some _ => beacons_since_flagged z + b2z (is_beacon c) | None => beacons_since_flagged z end)
    by (intros ->; cbn [b2z]; destruct (first_flagged_ms z); lia).
  destruct c as [t | t | | a t | ch]; cbn [rz_call].
  - set (z' := feed_video t z).
    assert (E : z' = z {{ last_video_ms := t }} \/ z' = z {{ last_video_ms := t ; rz_state := SESSION }} /\
                rz_state z = BEACONING /\ is_Some (rz_vtx_nonce z)).
    { unfold z', feed_video. cbn zeta. destruct (bool_decide_reflect (rz_state (z {{ last_video_ms := t }}) = BEACONING)) as [Hb|];
        [| by left]. destruct (bool_decide_reflect (is_Some (rz_vtx_nonce (z {{ last_video_ms := t }})))) as [Hv|]; [by right | by left]. }
    destruct E as [-> | (-> & Hb & Hv)].
    + apply (rz_ok_other nonce cs (RzVideo t) z); [exact H | reflexivity.. | exact (Hq eq_refl) | reflexivity | by left].
    + apply (rz_ok_other nonce cs (RzVideo t) z); [exact H | reflexivity.. | exact (Hq eq_refl) | | intros _; by right].
      rewrite Hb. split; discriminate.
  - destruct (rz_tick_state t z) as (E1 & E2 & E3 & E4 & E5 & E6).
    apply (rz_ok_other nonce cs (RzTick t) z); [exact H | reflexivity | reflexivity | exact E1 | exact E2 | exact E3 | | exact E5 | intros Hx; left; exact (E6 Hx)].
    rewrite E4. exact (Hq eq_refl).
  - apply (rz_ok_other nonce cs RzBeacon z); [exact H | reflexivity | reflexivity |..]; unfold beacon; cbn zeta; cbn [snd];
      case_bool_decide as Hf; try reflexivity; try (intros Hx; by left).
    + pose proof (rk_run _ _ _ H) as Hr. destruct (first_refusal nonce (since_accepted nonce cs)) as [[t0 mid]|] eqn:Hs;
        destruct Hr as [F1 F2].
      * rewrite F1. cbn [is_beacon b2z]. change (i32 (beacons_since_flagged z + 1) = beacons_since_flagged z + 1). rewrite F2. pose proof (beacons_length mid). apply first_refusal_split in Hs as (idle & a & Hs & _).
        pose proof (since_length nonce cs) as Hl. rewrite Hs, length_app in Hl. cbn in Hl. unfold sext, wrap. cbn zeta. case_Zb; mlia.
      * destruct Hf as [x Hx]. change (first_flagged_ms z = Some x) in Hx. congruence.
    + destruct (first_flagged_ms z) eqn:Hff; [| reflexivity]. exfalso. apply Hf. change (is_Some (first_flagged_ms z)). rewrite Hff. by eexists.
  - destruct (accepting nonce (RzAck a t)) eqn:Ha; [by apply rz_ok_accept |].
    destruct (refusing nonce (RzAck a t)) eqn:Hr; [by apply rz_ok_refuse |].
    assert (Hn : (a_vrx_nonce a =? nonce) = false).
    { cbn in Ha, Hr. destruct (a_vrx_nonce a =? nonce); [| done]. destruct (ack_mismatch a); discriminate. }
    unfold feed_disc_ack. rewrite (rk_nonce _ _ _ H), Hn. cbn [negb snd].
    apply (rz_ok_other nonce cs _ z); [exact H | exact Ha | exact Hr | reflexivity.. | exact (Hq eq_refl) | reflexivity | by left].
  - apply (rz_ok_other nonce cs (RzPropose ch) z); [exact H | reflexivity.. | exact (Hq eq_refl) | reflexivity | by left].
Qed.

Lemma new_rz_ok cfg random : rz_ok (rz_nonce (new_rz cfg random)) [] (new_rz cfg random).
Proof.
  split; [done | done | done | | done]. split; [done |]. intros (idle & ? & ? & ? & ? & ? & ? & E & _). by destruct idle.
Qed.

Lemma rz_calls_ok nonce cs z : Z.of_nat (length cs) < 2 ^ 31 -> rz_ok nonce [] z -> rz_ok nonce cs (rz_calls cs z).
Proof.
  intros Hlen H0. revert Hlen. induction cs as [|c cs IH] using rev_ind; intros Hlen; [exact H0 |].
  rewrite length_app in Hlen. cbn in Hlen. unfold rz_calls. rewrite fold_left_app. cbn.
  apply rz_call_ok; [lia |]. apply IH. lia.
Qed.

(** The ground's pairing state says what its log says.  After any calls, in any order and at
    any clocks: the session nonce held is that of the last answer of the drone that took our
    beacon; SESSION is only entered with one; and KEY_MISMATCH stands exactly when, since that
    answer, the drone refused twice, a second or more apart with three or more of our beacons
    between the first refusal and the last (one refusal, or refusals that an accepting answer
    separates, never trip it, and only an accepting answer clears it). *)
Theorem stranger_rule_exact (cfg : VrxRzConfig) (random : Z) (cs : list RzCall) :
  Z.of_nat (length cs) < 2 ^ 31 ->
  let n := rz_nonce (new_rz cfg random) in
  let z := rz_calls cs (new_rz cfg random) in
  rz_nonce z = n /\ rz_vtx_nonce z = last_session n cs /\ (rz_state z = SESSION -> is_Some (last_session n cs)) /\
  (rz_state z = KEY_MISMATCH <-> mismatch_run n (since_accepted n cs)).
Proof.
  intros Hlen n z. destruct (rz_calls_ok n cs _ Hlen (new_rz_ok cfg random)) as [H1 H2 _ H4 H5].
  split; [exact H1 |]. split; [exact H2 |]. split; [exact H5 | exact H4].
Qed.
