(* ===== verification/VrxController.v ===== *)
(** * VrxController: the ground's control loop (gs/src/vrx_controller.cpp)

    Each step either beacons, keeps the session alive with a discovery frame, or sends one feedback
    frame that commands the ladder's (or the pinned) operating point under the session's tag.
    The outer [None] is an index outside the ladder, a failed assert or a read past a frame.
    The random nonce, the exponential and the power are parameters. *)
From S2P Require Import Prelude Bytes SwConfig Profile RcProto RungStore LadderController Rendezvous.

(** ** State *)

Record OpPoint := mkOpPoint {
  op_vht : bool; op_mcs : Z; op_bw : Z; op_sgi : bool; op_overhead_base : double; op_overhead_enh : double; snr_req : double;
}.

Record VrxCfg := mkVrxCfg {
  v_key : list Z;
  v_op_channel : Z;
  feedback_ms : Z;
  beacon_keepalive_ms : Z;
  v_ladder : LadderCfg;
  pin_mcs : Z;
  pin_bw : Z;
  pin_overhead_base : double;
  pin_overhead_enh : double;
  probe_pin_mcs : Z;
  v_rz_nonce : Z;
}.

Record Vrx := mkVrx {
  vcfg : VrxCfg;
  ctrl_ : Ladder;
  rz_ : Rz;
  last_fb_ms_ : double;
  last_keepalive_ms_ : double;
  seq32_ : Z;
  cur_op_ : OpPoint;
  peer_caps_ : Z;
  peer_acked_ : bool;
  keepalive_hold_ : bool;
  last_cmd_probe_profile_ : Z;
  agreed_channel_ : Z;
  move_armed_ : bool;
  move_edge_ : bool;
  rcfs_since_adopt_ : Z;
  hop_ch_ : Z;
  hop_epoch_ : Z;
  rec_wish_ : Z;
  idr_epoch_ : Z;
  snr_off_ : Z;
}.

Definition kMoveAfterRcfs : Z := 5.

(** What a step sends. *)
Record Out := mkOut { o_frame : list Z; is_disc : bool }.

Section Vrx.
Context (exp : double -> double) (pow : double -> double -> double).

Definition op_from_rung (r : Rung) : OpPoint :=
  mkOpPoint false (r_mcs r) (r_bw r) false (overhead_base r) (overhead_enh r) d_zero.

(** The proposal of a discovery frame is the channel it leaves on. *)
Definition disc_for_channel (disc : list Z) (ch : Z) (key : list Z) : option (list Z) :=
  if ch =? 0 then Some disc
  else
    type ← frame_type disc;
    if negb (type =? T_DISC) then Some disc
    else
      d ← parse_disc disc;
      match d with
      | Some d => if op_channel d =? ch then Some disc
                  else Some (pack_disc (mkDisc (d_vrx_nonce d) ch (op_width d) (table_ver d) (init_profile d) (cap_bits d) (disc_seq d)) key)
      | None => Some disc
      end.

Definition rung_index (l : LadderCfg) (mcs bw : Z) : Z :=
  match list_find (fun r => r_mcs r = mcs /\ r_bw r = bw) (rungs l) with Some (i, _) => Z.of_nat i | None => 0 end.

Definition new_vrx (cfg : VrxCfg) (random : Z) : option Vrx :=
  c ← new_ladder pow (v_ladder cfg);
  r ← ladder_op (v_ladder cfg) c;
  Some (mkVrx cfg c (new_rz (mkVrxRzConfig 1000 20 (v_op_channel cfg) (v_rz_nonce cfg)) random) kNever kNever 0
    (op_from_rung r) 0 false false kNoProbeProfile 0 false false 0 0 0 0 0 0).

Definition sync_op_ (v : Vrx) : option Vrx :=
  r ← ladder_op (v_ladder (vcfg v)) (ctrl_ v); Some (v {{ cur_op_ := op_from_rung r }}).

Definition on_video (now_ms : double) (v : Vrx) : Vrx := v {{ rz_ ::= feed_video now_ms }}.

(** ** The answer to a beacon *)

Definition accept_ack (ack : DiscAck) (adopted_new : bool) (v : Vrx) : Vrx :=
  let v := v {{ agreed_channel_ := agreed_channel ack ; peer_caps_ := chip_caps ack ; peer_acked_ := true }} in
  if adopted_new then v {{ seq32_ := 0 ; rcfs_since_adopt_ := 0 ; move_armed_ := true ; move_edge_ := false }} else v.

Definition ground_rc_frame (buf : list Z) (now_ms : double) (v : Vrx) : option Vrx :=
  type ← frame_type buf;
  if negb (type =? T_DISC_ACK) then Some v
  else
    a ← parse_disc_ack buf;
    match a with
    | None => Some v
    | Some ack =>
        let '(ours, adopted, z) := feed_disc_ack ack now_ms (rz_ v) in
        let v := v {{ rz_ := z }} in
        Some (if negb ours || ack_mismatch ack then v else accept_ack ack adopted v)
    end.

Definition note_drone_state (telem_state : Z) (v : Vrx) : Vrx :=
  if (telem_state =? 2) && move_armed_ v then v {{ move_edge_ := true ; move_armed_ := false }} else v.

Definition take_move_edge (v : Vrx) : bool * Vrx := (move_edge_ v, v {{ move_edge_ := false }}).

(** ** A feedback frame *)

Definition phy_of (vht : bool) : PhyMode := if vht then VHT else HT.

Definition probe_byte (v : Vrx) : option Z :=
  let mode := phy_of (op_vht (cur_op_ v)) in
  if 0 <=? pin_mcs (vcfg v) then
    Some (if 0 <=? probe_pin_mcs (vcfg v) then encode_profile mode (u8 (probe_pin_mcs (vcfg v))) (u8 (op_bw (cur_op_ v)))
          else kNoProbeProfile)
  else
    let pr := probe_rung (v_ladder (vcfg v)) (ctrl_ v) in
    if 0 <=? pr then
      r ← at_index (rungs (v_ladder (vcfg v))) pr; Some (encode_profile mode (u8 (r_mcs r)) (u8 (r_bw r)))
    else Some kNoProbeProfile.

Definition build_rcf (v : Vrx) : option (Rcf * Vrx) :=
  let v := v {{ seq32_ ::= (fun s => u32 (s + 1)) }} in
  let op := cur_op_ v in
  probe ← probe_byte v;
  Some (mkRcf (u16 (seq32_ v)) (encode_profile (phy_of (op_vht op)) (u8 (op_mcs op)) (u8 (op_bw op)))
          (op_overhead_base op) (op_overhead_enh op) probe (hop_ch_ v) (hop_epoch_ v) (rec_wish_ v) (idr_epoch_ v) (snr_off_ v), v).

Definition note_cmd (r : Rcf) (v : Vrx) : Vrx := v {{ last_cmd_probe_profile_ := probe_profile r }}.

(** The move edge, if no telemetry brought it, after so many frames. *)
Definition count_for_move (v : Vrx) : Vrx :=
  if move_armed_ v then
    let v := v {{ rcfs_since_adopt_ ::= (fun c => i32 (c + 1)) }} in
    if kMoveAfterRcfs <=? rcfs_since_adopt_ v then v {{ move_edge_ := true ; move_armed_ := false }} else v
  else v.

(** ** The step *)

Definition pinned (v : Vrx) : bool := 0 <=? pin_mcs (vcfg v).

Definition pinned_op (c : VrxCfg) : OpPoint :=
  mkOpPoint false (pin_mcs c) (pin_bw c) false (pin_overhead_base c) (pin_overhead_enh c) d_zero.

(** The operating point when no feedback comes. *)
Definition blind_side (now_ms : double) (v : Vrx) : option Vrx :=
  if pinned v then Some (v {{ cur_op_ := pinned_op (vcfg v) }})
  else
    x ← on_tick (v_ladder (vcfg v)) now_ms (ctrl_ v);
    let '(moved, c) := x in
    if (moved : bool) then sync_op_ (v {{ ctrl_ := c }}) else Some (v {{ ctrl_ := c }}).

Definition score_health (h : LinkHealth) (now_ms : double) (v : Vrx) : option Vrx :=
  if pinned v then Some v
  else
    x ← update exp (v_ladder (vcfg v)) h now_ms (ctrl_ v);
    let '(moved, c) := x in
    if (moved : bool) then sync_op_ (v {{ ctrl_ := c }}) else Some (v {{ ctrl_ := c }}).

Definition send_disc (v : Vrx) : option Out * Vrx :=
  let '(d, z) := beacon (rz_ v) in
  (Some (mkOut (pack_disc d (v_key (vcfg v))) true), v {{ rz_ := z }}).

(** The tag of the next feedback frame; no session nonce fails the assert. *)
Definition feedback_ctx (v : Vrx) : option TagCtx :=
  vtx ← rz_vtx_nonce (rz_ v); Some (mkTagCtx (rz_nonce (rz_ v)) vtx (seq32_ v)).

Definition send_rcf (v : Vrx) : option (option Out * Vrx) :=
  x ← build_rcf v;
  let '(r, v) := x in
  let v := count_for_move (note_cmd r v) in
  ctx ← feedback_ctx v;
  Some (Some (mkOut (pack_rcf r (v_key (vcfg v)) ctx) false), v).

Definition vrx_step (now_ms : double) (h : LinkHealth) (v : Vrx) : option (option Out * Vrx) :=
  v ← blind_side now_ms v;
  let '(act, z) := rz_tick now_ms (rz_ v) in
  let v := v {{ rz_ := z }} in
  match act with
  | Beacon => Some (send_disc v)
  | Idle => Some (None, v)
  | TxFeedback =>
      if negb (keepalive_hold_ v) && d_geb (d_sub now_ms (last_keepalive_ms_ v)) (d_of_Z (beacon_keepalive_ms (vcfg v)))
      then Some (send_disc (v {{ last_keepalive_ms_ := now_ms }}))
      else if d_ltb (d_sub now_ms (last_fb_ms_ v)) (d_of_Z (feedback_ms (vcfg v))) then Some (None, v)
      else
        v ← score_health h now_ms (v {{ last_fb_ms_ := now_ms }});
        send_rcf v
  end.

(** ** Orders from the ground station's main loop *)

Definition set_hop (hop_ch hop_epoch : Z) (v : Vrx) : Vrx := v {{ hop_ch_ := hop_ch ; hop_epoch_ := hop_epoch }}.

Definition restore_rung (rung : Z) (now_ms : double) (v : Vrx) : option Vrx :=
  c ← restore (v_ladder (vcfg v)) rung now_ms (ctrl_ v); sync_op_ (v {{ ctrl_ := c }}).

Definition vrx_blank_store (until_ms : double) (v : Vrx) : Vrx := v {{ ctrl_ ::= blank_store until_ms }}.

Definition set_pin (mcs bw : Z) (ov_base ov_enh now_ms : double) (v : Vrx) : option Vrx :=
  let c := vcfg v in
  v ← (if (mcs <? 0) && pinned v
       then l ← unpin_restore (v_ladder c) (rung_index (v_ladder c) (pin_mcs c) (pin_bw c)) now_ms (ctrl_ v);
            Some (v {{ ctrl_ := l }})
       else Some v);
  let v := v {{ vcfg->pin_mcs := mcs ; vcfg->pin_bw := bw ; vcfg->pin_overhead_base := ov_base ;
                vcfg->pin_overhead_enh := ov_enh }} in
  if mcs <? 0 then sync_op_ v else Some v.

Definition replace_ladder (l : LadderCfg) (now_ms : double) (v : Vrx) : option Vrx :=
  old ← ladder_op (v_ladder (vcfg v)) (ctrl_ v);
  c ← new_ladder pow l;
  c' ← swap_restore l (rung_index l (r_mcs old) (r_bw old)) now_ms (last_feedback_ms_ (ctrl_ v)) c;
  sync_op_ (v {{ vcfg->v_ladder := l ; ctrl_ := c' }}).

(** ** Steps *)

Inductive VrxCall :=
| VVideo (now_ms : double)
| VFrame (buf : list Z) (now_ms : double)
| VStep (now_ms : double) (h : LinkHealth)
| VDroneState (telem_state : Z)
| VTakeEdge
| VHop (ch epoch : Z)
| VRestore (rung : Z) (now_ms : double)
| VBlank (until_ms : double)
| VPin (mcs bw : Z) (ov_base ov_enh now_ms : double)
| VLadder (l : LadderCfg) (now_ms : double)
| VPropose (ch : Z)
| VHold (hold : bool)
| VRec (wish : Z)
| VIdr (epoch : Z)
| VSensor (off : Z).

(** What a call sends, and the controller it leaves. *)
Definition vrx_call (c : VrxCall) (v : Vrx) : option (option Out * Vrx) :=
  let quiet v := Some (None, v) in
  match c with
  | VVideo t => quiet (on_video t v)
  | VFrame buf t => v ← ground_rc_frame buf t v; quiet v
  | VStep t h => vrx_step t h v
  | VDroneState s => quiet (note_drone_state s v)
  | VTakeEdge => quiet (snd (take_move_edge v))
  | VHop ch ep => quiet (set_hop ch ep v)
  | VRestore r t => v ← restore_rung r t v; quiet v
  | VBlank t => quiet (vrx_blank_store t v)
  | VPin m b ob oe t => v ← set_pin m b ob oe t v; quiet v
  | VLadder l t => v ← replace_ladder l t v; quiet v
  | VPropose ch => quiet (v {{ rz_ ::= set_proposal ch }})
  | VHold b => quiet (v {{ keepalive_hold_ := b }})
  | VRec w => quiet (v {{ rec_wish_ := w }})
  | VIdr e => quiet (v {{ idr_epoch_ := e }})
  | VSensor s => quiet (v {{ snr_off_ := s }})
  end.

Fixpoint vrx_calls (cs : list VrxCall) (v : Vrx) : option (list Out * Vrx) :=
  match cs with
  | [] => Some ([], v)
  | c :: cs =>
      x ← vrx_call c v;
      let '(o, v) := x in
      y ← vrx_calls cs v;
      Some (match o with Some o => o :: fst y | None => fst y end, snd y)
  end.
End Vrx.
