(* ===== verification/VrxProps.v ===== *)
(** * VrxProps: the ground's control loop never stalls and never repeats a tag

    The loop is proved against what it needs of the rate controller ([RateControl]); the ladder
    gives it.  Its feedback frames carry, session by session, the sequence numbers 1, 2, 3, ... *)
From S2P Require Import Prelude Bytes SwConfig Profile RcProto RcProtoProps RungStore LadderController LadderSound LadderProps Rendezvous VrxController.

(** ** What the loop needs of the rate controller *)

Class RateControl (exp : double -> double) (pow : double -> double -> double) (ok : LadderCfg -> Ladder -> Prop) := {
  rate_new cfg l : new_ladder pow cfg = Some l -> ok cfg l;
  rate_op cfg l : ok cfg l -> exists r, ladder_op cfg l = Some r;
  rate_probe cfg l : ok cfg l -> 0 <= probe_rung cfg l -> exists r, at_index (rungs cfg) (probe_rung cfg l) = Some r;
  rate_tick cfg now l : ok cfg l -> exists b l', on_tick cfg now l = Some (b, l') /\ ok cfg l';
  rate_update cfg h now l : ok cfg l -> exists b l', update exp cfg h now l = Some (b, l') /\ ok cfg l';
  rate_reenter cfg r now why l : ok cfg l -> downward why = false -> books why = false -> starts_trial why = false ->
    exists l', reenter cfg r now why l = Some l' /\ ok cfg l';
  rate_blank cfg t l : ok cfg l -> ok cfg (blank_store t l);
  rate_stamp cfg t l : ok cfg l -> ok cfg (l {{ last_feedback_ms_ := t }});
}.

Definition ladder_good (cfg : LadderCfg) (l : Ladder) : Prop := ladder_ok cfg l /\ probe_ok cfg l.

Lemma answer_good cfg s P now l l0 r : ladder_ok cfg l0 -> spot l0 = spot l -> answer cfg s P now l0 r ->
  exists b l', r = Some (b, l') /\ ladder_good cfg l'.
Proof.
  intros O0 S0 A. destruct A as (b & l' & -> & H). exists b, l'. split; [reflexivity |]. destruct b.
  - destruct H as (to & why & Hm & _). split; [exact (mv_ok _ _ _ _ _ _ Hm) | exact (mv_probe _ _ _ _ _ _ Hm)].
  - destruct H as (K & Hp & _). split; [exact (ladder_ok_kept cfg _ _ K O0) | exact Hp].
Qed.

(** The ladder is such a controller. *)
#[export] Instance ladder_rate_control exp pow : RateControl exp pow ladder_good.
Proof.
  split.
  - intros cfg l H. destruct (new_ladder_ok pow cfg l H) as (H1 & H2 & _). exact (conj H1 H2).
  - intros cfg l [H _]. apply at_index_in. exact (lo_idx _ _ H).
  - intros cfg l [H _] Hp. apply at_index_in. destruct (probe_rung_in cfg l (proj1 (lo_idx _ _ H)) Hp) as [Hr _]. exact (conj Hp Hr).
  - intros cfg now l [H Hp]. destruct (on_tick_out cfg now l H Hp) as (l0 & _ & O0 & S0 & A & _). exact (answer_good _ _ _ _ _ _ _ O0 S0 A).
  - intros cfg h now l [H Hp]. destruct (update_out exp cfg h now l H Hp) as (l0 & s & _ & O0 & S0 & _ & A & _). exact (answer_good _ _ _ _ _ _ _ O0 S0 A).
  - intros cfg r now why l [H Hp] Hd Hb Ht. destruct (reenter_in cfg r now why l H Hd Hb Ht) as (l' & E & Hm). exists l'. split; [exact E |].
    split; [exact (mv_ok _ _ _ _ _ _ Hm) | exact (mv_probe _ _ _ _ _ _ Hm)].
  - intros cfg t l [H Hp]. split; [apply (ladder_ok_kept cfg l); [core | exact H] | exact Hp].
  - intros cfg t l [H Hp]. split; [apply (ladder_ok_kept cfg l); [core | exact H] | exact Hp].
Qed.

Section Vrx.
Context (exp : double -> double) (pow : double -> double -> double) {ok : LadderCfg -> Ladder -> Prop} `{RateControl exp pow ok}.

(** ** The invariant *)

Record vrx_ok (v : Vrx) : Prop := mkVrxOk {
  vo_ladder : ok (v_ladder (vcfg v)) (ctrl_ v);
  vo_session : rz_state (rz_ v) = SESSION -> is_Some (rz_vtx_nonce (rz_ v));
}.

(** What a call that is no answer to a beacon keeps. *)
Definition ids (v : Vrx) : list Z * Z * option Z * Z := (v_key (vcfg v), rz_nonce (rz_ v), rz_vtx_nonce (rz_ v), seq32_ v).

Lemma sync_op_in v : vrx_ok v -> exists v', sync_op_ v = Some v' /\ vrx_ok v' /\ ids v' = ids v /\ rz_ v' = rz_ v.
Proof.
  intros Hv. unfold sync_op_. destruct (rate_op (exp := exp) (pow := pow) _ _ (vo_ladder _ Hv)) as [r ->]. cbn [mbind option_bind].
  eexists. split; [reflexivity |]. split; [split; apply Hv | split; reflexivity].
Qed.

Lemma with_ladder v l : vrx_ok v -> ok (v_ladder (vcfg v)) l -> vrx_ok (v {{ ctrl_ := l }}).
Proof. intros Hv Hl. split; [exact Hl | exact (vo_session _ Hv)]. Qed.

Lemma blind_side_in now v : vrx_ok v -> exists v', blind_side now v = Some v' /\ vrx_ok v' /\ ids v' = ids v /\ rz_ v' = rz_ v.
Proof.
  intros Hv. unfold blind_side. destruct (pinned v).
  { eexists. split; [reflexivity |]. split; [split; apply Hv | split; reflexivity]. }
  destruct (rate_tick (exp := exp) (pow := pow) _ now _ (vo_ladder _ Hv)) as (b & l & -> & Hl). cbn [mbind option_bind].
  destruct b; [exact (sync_op_in _ (with_ladder v l Hv Hl)) |].
  eexists. split; [reflexivity |]. split; [exact (with_ladder v l Hv Hl) | split; reflexivity].
Qed.

Lemma score_health_in h now v : vrx_ok v ->
  exists v', score_health exp h now v = Some v' /\ vrx_ok v' /\ ids v' = ids v /\ rz_ v' = rz_ v.
Proof.
  intros Hv. unfold score_health. destruct (pinned v).
  { eexists. split; [reflexivity |]. split; [exact Hv | split; reflexivity]. }
  destruct (rate_update (exp := exp) (pow := pow) _ h now _ (vo_ladder _ Hv)) as (b & l & -> & Hl). cbn [mbind option_bind].
  destruct b; [exact (sync_op_in _ (with_ladder v l Hv Hl)) |].
  eexists. split; [reflexivity |]. split; [exact (with_ladder v l Hv Hl) | split; reflexivity].
Qed.

Lemma probe_byte_in v : vrx_ok v -> exists p, probe_byte v = Some p.
Proof.
  intros Hv. unfold probe_byte. cbn zeta. destruct (0 <=? pin_mcs (vcfg v)); [by eexists |].
  destruct (Z.leb_spec 0 (probe_rung (v_ladder (vcfg v)) (ctrl_ v))) as [Hp |]; [| by eexists].
  destruct (rate_probe (exp := exp) (pow := pow) _ _ (vo_ladder _ Hv) Hp) as [r ->]. by eexists.
Qed.

(** ** A feedback frame *)

(** The frame [f] is a feedback frame under the tag context [ctx]. *)
Definition feedback_frame (key : list Z) (f : list Z) (ctx : TagCtx) : Prop :=
  exists r, f = pack_rcf r key ctx /\ rcf_seq r = u16 (seq32 ctx).

Lemma count_for_move_ids v : ids (count_for_move v) = ids v /\ rz_ (count_for_move v) = rz_ v /\
  vcfg (count_for_move v) = vcfg v /\ ctrl_ (count_for_move v) = ctrl_ v.
Proof. unfold count_for_move. destruct (move_armed_ v); [cbn zeta; destruct (_ <=? _) |]; split_all; reflexivity. Qed.

Lemma send_rcf_in v n : vrx_ok v -> rz_vtx_nonce (rz_ v) = Some n ->
  exists r v', build_rcf v = Some (r, v {{ seq32_ := u32 (seq32_ v + 1) }}) /\
    send_rcf v = Some (Some (mkOut (pack_rcf r (v_key (vcfg v)) (mkTagCtx (rz_nonce (rz_ v)) n (seq32_ v'))) false), v') /\
    rcf_seq r = u16 (seq32_ v') /\ vrx_ok v' /\
    ids v' = (v_key (vcfg v), rz_nonce (rz_ v), Some n, u32 (seq32_ v + 1)).
Proof.
  intros Hv Hn. unfold send_rcf, build_rcf. cbn zeta.
  assert (Hv' : vrx_ok (v {{ seq32_ := u32 (seq32_ v + 1) }})) by (split; apply Hv).
  destruct (probe_byte_in _ Hv') as [p Hp].
  change (v {{ seq32_ ::= (fun s => u32 (s + 1)) }}) with (v {{ seq32_ := u32 (seq32_ v + 1) }}).
  rewrite Hp. cbn [mbind option_bind]. set (r := mkRcf _ _ _ _ _ _ _ _ _ _). exists r.
  set (v1 := v {{ seq32_ := u32 (seq32_ v + 1) }}) in *. set (v2 := count_for_move (note_cmd r v1)).
  destruct (count_for_move_ids (note_cmd r v1)) as (I & Z & C & L). fold v2 in I, Z, C, L.
  assert (I' : ids v2 = (v_key (vcfg v), rz_nonce (rz_ v), Some n, u32 (seq32_ v + 1)))
    by (rewrite I, <- Hn; reflexivity).
  pose proof I' as I2. unfold ids in I2. injection I2 as J1 J2 J3 J4.
  exists v2. split; [reflexivity |].
  unfold feedback_ctx. rewrite J3. cbn [mbind option_bind]. rewrite J1, J2, J4.
  split; [reflexivity |]. split; [reflexivity |]. split; [| exact I'].
  split; [rewrite C, L; exact (vo_ladder _ Hv) | rewrite Z; exact (vo_session _ Hv)].
Qed.

(** What a call that is no answer to a beacon may send. *)
Inductive sends (v : Vrx) : option Out -> Vrx -> Prop :=
| sends_nothing v' : ids v' = ids v -> sends v None v'
| sends_disc o v' : is_disc o = true -> ids v' = ids v -> sends v (Some o) v'
| sends_rcf o v' n : is_disc o = false -> rz_vtx_nonce (rz_ v) = Some n ->
    feedback_frame (v_key (vcfg v)) (o_frame o) (mkTagCtx (rz_nonce (rz_ v)) n (u32 (seq32_ v + 1))) ->
    ids v' = (v_key (vcfg v), rz_nonce (rz_ v), Some n, u32 (seq32_ v + 1)) -> sends v (Some o) v'.

Lemma sends_ids v0 v o v' : ids v = ids v0 -> sends v o v' -> sends v0 o v'.
Proof.
  intros E S. pose proof E as E'. unfold ids in E'. injection E' as E1 E2 E3 E4.
  destruct S as [v' Hi | o v' Hd Hi | o v' n Hd Hn Hf Hi].
  - apply sends_nothing. congruence.
  - apply sends_disc; congruence.
  - rewrite E1, E2, E4 in *. apply (sends_rcf _ _ _ n); [exact Hd | congruence | exact Hf | exact Hi].
Qed.

Lemma rz_tick_kept now v : vrx_ok v -> let z := snd (rz_tick now (rz_ v)) in
  vrx_ok (v {{ rz_ := z }}) /\ ids (v {{ rz_ := z }}) = ids v /\
  (fst (rz_tick now (rz_ v)) = TxFeedback -> is_Some (rz_vtx_nonce z)).
Proof.
  intros Hv. destruct (rz_tick_state now (rz_ v)) as (E1 & E2 & _ & _ & _ & E6). cbn zeta.
  assert (Hs : rz_state (snd (rz_tick now (rz_ v))) = SESSION -> is_Some (rz_vtx_nonce (snd (rz_tick now (rz_ v)))))
    by (intros Hs; rewrite E2; exact (vo_session _ Hv (E6 Hs))).
  split; [split; [exact (vo_ladder _ Hv) | exact Hs] |]. split.
  - unfold ids. change (rz_ (v {{ rz_ := snd (rz_tick now (rz_ v)) }})) with (snd (rz_tick now (rz_ v))). rewrite E1, E2. reflexivity.
  - intros Ha. rewrite E2. apply (vo_session _ Hv). revert Ha. unfold rz_tick, beacon_due.
    case_bool_decide as Hb; [intros _; exact Hb |]. destruct (d_geb _ _); discriminate.
Qed.

Lemma send_disc_in v : vrx_ok v -> exists o v', send_disc v = (Some o, v') /\ is_disc o = true /\ vrx_ok v' /\ ids v' = ids v.
Proof.
  intros Hv. unfold send_disc, beacon. cbn zeta. case_bool_decide; do 2 eexists; (split; [reflexivity |]);
    (split; [reflexivity |]); (split; [split; [exact (vo_ladder _ Hv) | exact (vo_session _ Hv)] | reflexivity]).
Qed.

Lemma vrx_step_in now h v : vrx_ok v -> exists o v', vrx_step exp now h v = Some (o, v') /\ vrx_ok v' /\ sends v o v'.
Proof.
  intros H0. unfold vrx_step. destruct (blind_side_in now v H0) as (v1 & -> & H1 & I1 & Z1). cbn [mbind option_bind].
  destruct (rz_tick_kept now v1 H1) as (H2 & I2 & Ha). destruct (rz_tick now (rz_ v1)) as [act z]. cbn [fst snd] in *.
  set (v2 := v1 {{ rz_ := z }}) in *. cbn zeta. assert (Ef : forall o v', sends v2 o v' -> sends v o v').
  { intros o v' S. apply (sends_ids v v2); [congruence | exact S]. }
  destruct act.
  - destruct (Ha eq_refl) as [n Hn]. destruct (_ && _).
    + assert (H3 : vrx_ok (v2 {{ last_keepalive_ms_ := now }})) by (split; apply H2).
      destruct (send_disc_in _ H3) as (o & v' & -> & Hd & H4 & I4). do 2 eexists. split; [reflexivity |]. split; [exact H4 |].
      apply Ef. apply sends_disc; [exact Hd | exact I4].
    + destruct (d_ltb _ _). { do 2 eexists. split; [reflexivity |]. split; [exact H2 |]. apply Ef. apply sends_nothing. reflexivity. }
      assert (H3 : vrx_ok (v2 {{ last_fb_ms_ := now }})) by (split; apply H2).
      destruct (score_health_in h now _ H3) as (v4 & -> & H4 & I4 & Z4). cbn [mbind option_bind].
      assert (Hn4 : rz_vtx_nonce (rz_ v4) = Some n) by (rewrite Z4; exact Hn).
      destruct (send_rcf_in v4 n H4 Hn4) as (r & v5 & _ & -> & Hr & H5 & I5). do 2 eexists. split; [reflexivity |].
      split; [exact H5 |]. apply Ef. apply (sends_ids v2 v4); [exact I4 |].
      apply (sends_rcf _ _ _ n); [reflexivity | exact Hn4 | | exact I5].
      pose proof I5 as I6. unfold ids in I6. injection I6 as _ _ _ I6. rewrite <- I6. exists r. split; [reflexivity | exact Hr].
  - destruct (send_disc_in _ H2) as (o & v' & -> & Hd & H4 & I4). do 2 eexists. split; [reflexivity |]. split; [exact H4 |].
    apply Ef. apply sends_disc; [exact Hd | exact I4].
  - do 2 eexists. split; [reflexivity |]. split; [exact H2 |]. apply Ef. apply sends_nothing. reflexivity.
Qed.

(** ** Answers *)

(** The answer a received frame is. *)
Definition answer_in (buf : list Z) : option DiscAck :=
  match frame_type buf with
  | Some t => if t =? T_DISC_ACK then match parse_disc_ack buf with Some (Some a) => Some a | _ => None end else None
  | None => None
  end.

(** The session an accepted answer names. *)
Definition heard_session (nonce : Z) (c : VrxCall) : option Z :=
  match c with VFrame buf t => a ← answer_in buf; session_of nonce (RzAck a t) | _ => None end.

(** The controller after an accepted answer. *)
Definition adopted (v v' : Vrx) (n : Z) : Prop :=
  ids v' = (v_key (vcfg v), rz_nonce (rz_ v), Some n,
            if bool_decide (rz_vtx_nonce (rz_ v) = Some n) then seq32_ v else 0).

Lemma feed_disc_ack_in a t z :
  let n := rz_nonce z in
  let z' := snd (feed_disc_ack a t z) in
  rz_nonce z' = n /\
  match session_of n (RzAck a t) with
  | Some x => fst (feed_disc_ack a t z) = (true, negb (bool_decide (rz_vtx_nonce z = Some x))) /\
              ack_mismatch a = false /\ rz_vtx_nonce z' = Some x /\ rz_state z' = SESSION
  | None => (fst (fst (feed_disc_ack a t z)) = false \/ ack_mismatch a = true) /\ rz_vtx_nonce z' = rz_vtx_nonce z /\
            (rz_state z' = SESSION -> rz_state z = SESSION)
  end.
Proof.
  cbn zeta. unfold session_of, accepting, feed_disc_ack. destruct (a_vrx_nonce a =? rz_nonce z); cbn [negb andb].
  2: { split; [reflexivity |]. split; [by left |]. split; [reflexivity | exact id]. }
  destruct (ack_mismatch a) eqn:Hm; cbn [negb fst snd].
  - destruct (first_flagged_ms z); (destruct (_ && _); (split; [reflexivity |]); (split; [by right |]); (split; [reflexivity |]);
      [discriminate | exact id]).
  - destruct (bool_decide_reflect (rz_vtx_nonce z = Some (a_vtx_nonce a))) as [Hb | Hb].
    + change (rz_vtx_nonce (z {{ first_flagged_ms := None ; beacons_since_flagged := 0 }})) with (rz_vtx_nonce z).
      rewrite (bool_decide_eq_true_2 _ Hb). cbn [negb]. split; [reflexivity |]. split; [reflexivity |]. split; [reflexivity |].
      split; [exact Hb | reflexivity].
    + change (rz_vtx_nonce (z {{ first_flagged_ms := None ; beacons_since_flagged := 0 }})) with (rz_vtx_nonce z).
      rewrite (bool_decide_eq_false_2 _ Hb). cbn [negb]. split; [reflexivity |]. split; [reflexivity |]. split; [reflexivity |].
      split; reflexivity.
Qed.

Lemma ground_frame_in buf t v : vrx_ok v -> exists v', ground_rc_frame buf t v = Some v' /\ vrx_ok v' /\
  match heard_session (rz_nonce (rz_ v)) (VFrame buf t) with Some n => adopted v v' n | None => ids v' = ids v end.
Proof.
  intros Hv. unfold ground_rc_frame, heard_session, answer_in.
  destruct (frame_type_total buf) as [ty ->]. cbn [mbind option_bind].
  destruct (ty =? T_DISC_ACK); cbn [negb]; [| exists v; split; [reflexivity | split; [exact Hv | reflexivity]]].
  destruct (parse_disc_ack_total buf) as [[a|] ->]; cbn [mbind option_bind];
    [| exists v; split; [reflexivity | split; [exact Hv | reflexivity]]].
  pose proof (feed_disc_ack_in a t (rz_ v)) as F. cbn zeta in F.
  destruct (feed_disc_ack a t (rz_ v)) as [[ours ad] z]. cbn [fst snd] in F. destruct F as [Fn F].
  eexists. split; [reflexivity |]. destruct (session_of (rz_nonce (rz_ v)) (RzAck a t)) as [n|].
  - destruct F as ([= -> ->] & Fm & Fv & Fs). rewrite Fm. cbn [negb orb]. unfold accept_ack. cbn zeta. unfold adopted.
    destruct (bool_decide (rz_vtx_nonce (rz_ v) = Some n)); cbn [negb].
    all: split; [split; [exact (vo_ladder _ Hv) | intros _; exists n; exact Fv] |]; rewrite <- Fn, <- Fv; reflexivity.
  - destruct F as (Fo & Fv & Fs).
    assert (E : negb ours || ack_mismatch a = true) by (destruct Fo as [-> | ->]; [done | apply orb_true_r]). rewrite E.
    split; [split; [exact (vo_ladder _ Hv) |] |].
    + intros Hs. change (is_Some (rz_vtx_nonce z)). rewrite Fv. apply (vo_session _ Hv). exact (Fs Hs).
    + transitivity (v_key (vcfg v), rz_nonce z, rz_vtx_nonce z, seq32_ v); [reflexivity |]. rewrite Fn, Fv. reflexivity.
Qed.

(** ** Any call *)

(** A new ladder must pass its constructor's asserts. *)
Definition loadable (c : VrxCall) : Prop := match c with VLadder l _ => is_Some (new_ladder pow l) | _ => True end.

Lemma feed_video_in t z : rz_nonce (feed_video t z) = rz_nonce z /\ rz_vtx_nonce (feed_video t z) = rz_vtx_nonce z /\
  (rz_state (feed_video t z) = SESSION -> rz_state z = SESSION \/ is_Some (rz_vtx_nonce z)).
Proof.
  unfold feed_video. cbn zeta. set (z1 := z {{ last_video_ms := t }}).
  destruct (bool_decide_reflect (is_Some (rz_vtx_nonce z1))) as [Hs | _];
    destruct (bool_decide (rz_state z1 = BEACONING)); cbn [andb]; (split; [reflexivity |]); (split; [reflexivity |]);
    first [intros _; right; exact Hs | intros Hx; left; exact Hx].
Qed.

Lemma orders_in c v : vrx_ok v -> loadable c ->
  match c with VFrame _ _ | VStep _ _ => False | _ => True end ->
  exists v', vrx_call exp pow c v = Some (None, v') /\ vrx_ok v' /\ ids v' = ids v.
Proof.
  intros Hv Hl Hc. destruct c; try destruct Hc; cbn [vrx_call].
  - destruct (feed_video_in now_ms (rz_ v)) as (E1 & E2 & E3). eexists. split; [reflexivity |]. split.
    + split; [exact (vo_ladder _ Hv) |]. intros Hs. change (is_Some (rz_vtx_nonce (feed_video now_ms (rz_ v)))). rewrite E2.
      destruct (E3 Hs) as [H1 | H1]; [exact (vo_session _ Hv H1) | exact H1].
    + transitivity (v_key (vcfg v), rz_nonce (feed_video now_ms (rz_ v)), rz_vtx_nonce (feed_video now_ms (rz_ v)), seq32_ v);
        [reflexivity |]. rewrite E1, E2. reflexivity.
  - eexists. split; [reflexivity |]. unfold note_drone_state. destruct (_ && _); (split; [split; apply Hv | reflexivity]).
  - eexists. split; [reflexivity |]. split; [split; apply Hv | reflexivity].
  - eexists. split; [reflexivity |]. split; [split; apply Hv | reflexivity].
  - unfold restore_rung, restore. destruct (rate_reenter (exp := exp) (pow := pow) _ rung now_ms HopRestore _ (vo_ladder _ Hv) eq_refl eq_refl eq_refl) as (l & -> & Ol).
    cbn [mbind option_bind]. destruct (sync_op_in _ (with_ladder v l Hv Ol)) as (v' & -> & H1 & I1 & _). exists v'.
    split; [reflexivity |]. split; [exact H1 | exact I1].
  - eexists. split; [reflexivity |]. split; [| reflexivity]. unfold vrx_blank_store. split; [| exact (vo_session _ Hv)].
    exact (rate_blank (exp := exp) (pow := pow) _ until_ms _ (vo_ladder _ Hv)).
  - unfold set_pin. cbn zeta. set (pin v := v {{ vcfg->pin_mcs := mcs ; vcfg->pin_bw := bw ; vcfg->pin_overhead_base := ov_base ;
      vcfg->pin_overhead_enh := ov_enh }}).
    assert (H1 : exists v1, (if (mcs <? 0) && pinned v
       then l ← unpin_restore (v_ladder (vcfg v)) (rung_index (v_ladder (vcfg v)) (pin_mcs (vcfg v)) (pin_bw (vcfg v))) now_ms (ctrl_ v);
            Some (v {{ ctrl_ := l }})
       else Some v) = Some v1 /\ vrx_ok v1 /\ ids v1 = ids v).
    { destruct (_ && _); [| exists v; split; [reflexivity | split; [exact Hv | reflexivity]]]. unfold unpin_restore.
      pose proof (rate_stamp (exp := exp) (pow := pow) _ now_ms _ (vo_ladder _ Hv)) as Hs.
      match goal with |- context [reenter ?c ?r _ _ _] => destruct (rate_reenter (exp := exp) (pow := pow) c r now_ms Unpin _ Hs eq_refl eq_refl eq_refl) as (l & El & Ol) end.
      rewrite El. cbn [mbind option_bind]. eexists. split; [reflexivity |]. split; [exact (with_ladder v l Hv Ol) | reflexivity]. }
    destruct H1 as (v1 & -> & H1 & I1). cbn [mbind option_bind].
    assert (H2 : vrx_ok (pin v1)) by (split; [exact (vo_ladder _ H1) | exact (vo_session _ H1)]).
    assert (I2 : ids (pin v1) = ids v) by (rewrite <- I1; reflexivity). fold (pin v1). destruct (mcs <? 0).
    + destruct (sync_op_in _ H2) as (v' & -> & H3 & I3 & _). exists v'. split; [reflexivity |]. split; [exact H3 | congruence].
    + exists (pin v1). split; [reflexivity |]. split; [exact H2 | exact I2].
  - unfold replace_ladder. destruct (rate_op (exp := exp) (pow := pow) _ _ (vo_ladder _ Hv)) as [old ->]. cbn [mbind option_bind].
    destruct Hl as [c Hc']. rewrite Hc'. cbn [mbind option_bind]. unfold swap_restore.
    pose proof (rate_stamp (exp := exp) (pow := pow) _ (last_feedback_ms_ (ctrl_ v)) _ (rate_new (exp := exp) l c Hc')) as Hs.
    match goal with |- context [reenter l ?r _ _ _] => destruct (rate_reenter (exp := exp) (pow := pow) l r now_ms LadderSwap _ Hs eq_refl eq_refl eq_refl) as (c' & El & Ol) end.
    rewrite El. cbn [mbind option_bind].
    assert (H2 : vrx_ok (v {{ vcfg->v_ladder := l ; ctrl_ := c' }})) by (split; [exact Ol | exact (vo_session _ Hv)]).
    destruct (sync_op_in _ H2) as (v' & -> & H3 & I3 & _). exists v'. split; [reflexivity |]. split; [exact H3 | exact I3].
  - eexists. split; [reflexivity |]. split; [split; apply Hv | reflexivity].
  - eexists. split; [reflexivity |]. split; [split; apply Hv | reflexivity].
  - eexists. split; [reflexivity |]. split; [split; apply Hv | reflexivity].
  - eexists. split; [reflexivity |]. split; [split; apply Hv | reflexivity].
  - eexists. split; [reflexivity |]. split; [split; apply Hv | reflexivity].
Qed.

Lemma vrx_call_in c v : vrx_ok v -> loadable c -> exists o v', vrx_call exp pow c v = Some (o, v') /\ vrx_ok v' /\
  match heard_session (rz_nonce (rz_ v)) c with Some n => o = None /\ adopted v v' n | None => sends v o v' end.
Proof.
  intros Hv Hl. destruct c.
  3: { destruct (vrx_step_in now_ms h v Hv) as (o & v' & E & H1 & S). exists o, v'. split; [exact E |]. split; [exact H1 | exact S]. }
  2: { destruct (ground_frame_in buf now_ms v Hv) as (v' & E & H1 & S). exists None, v'. cbn [vrx_call]. rewrite E.
       split; [reflexivity |]. split; [exact H1 |]. destruct (heard_session _ _) as [n|]; [by split | by apply sends_nothing]. }
  all: match goal with |- context [vrx_call exp pow ?c ?v0] => destruct (orders_in c v0 Hv Hl I) as (v' & E & H1 & Hi) end;
    exists None, v'; (split; [exact E |]); (split; [exact H1 |]); cbn [heard_session]; by apply sends_nothing.
Qed.

(** ** Runs *)

(** The sessions a run takes up, each time the answered nonce is not the one held. *)
Fixpoint adoptions (nonce : Z) (held : option Z) (cs : list VrxCall) : list Z :=
  match cs with
  | [] => []
  | c :: cs =>
      match heard_session nonce c with
      | Some n => if bool_decide (held = Some n) then adoptions nonce held cs else n :: adoptions nonce (Some n) cs
      | None => adoptions nonce held cs
      end
  end.

(** The tag contexts of [k] frames after sequence number [s] of the session [n]. *)
Definition session_tags (nonce s : Z) (n : Z) (k : nat) : list TagCtx :=
  map (fun i => mkTagCtx nonce n (s + Z.of_nat i)) (seq 1 k).

Lemma session_tags_S nonce s n k : session_tags nonce s n (S k) = mkTagCtx nonce n (s + 1) :: session_tags nonce (s + 1) n k.
Proof.
  unfold session_tags. cbn [seq map]. f_equal. rewrite <- seq_shift, map_map. apply map_ext. intros i. f_equal. lia.
Qed.

Definition feedbacks (os : list Out) : list (list Z) := map o_frame (filter (fun o => is_disc o = false) os).

Lemma vrx_calls_in cs v : vrx_ok v -> Forall loadable cs -> 0 <= seq32_ v -> seq32_ v + Z.of_nat (length cs) < 2 ^ 32 ->
  let n := rz_nonce (rz_ v) in let held := rz_vtx_nonce (rz_ v) in
  exists os v' k ks, vrx_calls exp pow cs v = Some (os, v') /\ vrx_ok v' /\ length ks = length (adoptions n held cs) /\
    Forall2 (feedback_frame (v_key (vcfg v))) (feedbacks os)
      (match held with Some h => session_tags n (seq32_ v) h k | None => [] end ++
       concat (zip_with (session_tags n 0) (adoptions n held cs) ks)).
Proof.
  revert v. induction cs as [|c cs IH]; intros v Hv Hl Hs0 Hs n held.
  { exists [], v, 0%nat, []. split; [reflexivity |]. split; [exact Hv |]. split; [reflexivity |]. cbn. destruct held; constructor. }
  cbn [length] in Hs. apply Forall_cons in Hl as [Hc Hl].
  destruct (vrx_call_in c v Hv Hc) as (o & v1 & E & H1 & S). cbn [vrx_calls adoptions]. rewrite E. cbn [mbind option_bind]. fold n in S |- *.
  destruct (heard_session n c) as [x|].
  - destruct S as [-> S]. unfold adopted in S. unfold ids in S. injection S as J1 J2 J3 J4. fold held in J4 |- *.
    assert (Hseq : 0 <= seq32_ v1 <= seq32_ v) by (rewrite J4; case_bool_decide; lia).
    destruct (IH v1 H1 Hl ltac:(lia) ltac:(lia)) as (os & v' & k & ks & Ec & H' & Hk & HF). rewrite J1, J2, J3, J4 in HF. rewrite J2, J3 in Hk.
    rewrite Ec. cbn [mbind option_bind fst snd]. fold n in Hk, HF. case_bool_decide as Hx.
    + exists os, v', k, ks. rewrite Hx. split; [reflexivity |]. split; [exact H' |]. split; [exact Hk | exact HF].
    + exists os, v', 0%nat, (k :: ks). split; [reflexivity |]. split; [exact H' |]. split; [cbn; by rewrite Hk |].
      cbn [zip_with concat]. destruct held; exact HF.
  - destruct S as [v1 Hi | o v1 Hd Hi | o v1 x Hd Hn Hf Hi].
    + unfold ids in Hi. injection Hi as J1 J2 J3 J4.
      destruct (IH v1 H1 Hl ltac:(lia) ltac:(lia)) as (os & v' & k & ks & Ec & H' & Hk & HF). rewrite J1, J2, J3, J4 in HF. rewrite J2, J3 in Hk.
      rewrite Ec. cbn [mbind option_bind fst snd]. exists os, v', k, ks. by split.
    + unfold ids in Hi. injection Hi as J1 J2 J3 J4.
      destruct (IH v1 H1 Hl ltac:(lia) ltac:(lia)) as (os & v' & k & ks & Ec & H' & Hk & HF). rewrite J1, J2, J3, J4 in HF. rewrite J2, J3 in Hk.
      rewrite Ec. cbn [mbind option_bind fst snd]. exists (o :: os), v', k, ks. split; [reflexivity |]. split; [exact H' |]. split; [exact Hk |].
      unfold feedbacks. rewrite filter_cons_False by congruence. exact HF.
    + assert (Hw : u32 (seq32_ v + 1) = seq32_ v + 1) by (unfold wrap; apply Z.mod_small; lia). rewrite Hw in Hf, Hi.
      unfold ids in Hi. injection Hi as J1 J2 J3 J4.
      destruct (IH v1 H1 Hl ltac:(lia) ltac:(lia)) as (os & v' & k & ks & Ec & H' & Hk & HF). rewrite J1, J2, J3, J4 in HF. rewrite J2, J3 in Hk.
      rewrite Ec. cbn [mbind option_bind fst snd]. unfold held. rewrite Hn. exists (o :: os), v', (S k), ks.
      split; [reflexivity |]. split; [exact H' |]. split; [exact Hk |].
      unfold feedbacks. rewrite filter_cons_True by exact Hd. rewrite session_tags_S. constructor; [exact Hf | exact HF].
Qed.
End Vrx.

Lemma session_tags_in nonce s n k t : In t (session_tags nonce s n k) -> vtx_nonce t = n.
Proof. intros (i & <- & _)%in_map_iff. reflexivity. Qed.

Lemma session_tags_nodup nonce s n k : NoDup (session_tags nonce s n k).
Proof.
  unfold session_tags. apply (NoDup_fmap_2_strong _); [| apply NoDup_ListNoDup, seq_NoDup].
  intros i j _ _ Hij. injection Hij. lia.
Qed.

Lemma tags_nodup nonce ns ks : NoDup ns -> NoDup (concat (zip_with (session_tags nonce 0) ns ks)).
Proof.
  revert ks. induction ns as [|n ns IH]; intros ks Hn; [constructor |]. destruct ks as [|k ks]; [constructor |].
  apply NoDup_cons in Hn as [Hx Hn]. cbn [zip_with concat]. apply NoDup_app. split; [apply session_tags_nodup |]. split; [| by apply IH].
  intros t Ht Ht'. apply Hx. apply list_elem_of_In in Ht, Ht'. rewrite <- (session_tags_in _ _ _ _ _ Ht).
  apply in_concat in Ht' as (l & Hl & Htl). clear -Hl Htl. revert ks Hl. induction ns as [|m ns IH]; intros ks Hl; [destruct Hl |].
  destruct ks as [|k' ks]; [destruct Hl |]. destruct Hl as [<- | Hl].
  - rewrite (session_tags_in _ _ _ _ _ Htl). by left.
  - right. exact (IH ks Hl).
Qed.

Lemma new_vrx_ok (exp : double -> double) pow cfg random v : new_vrx pow cfg random = Some v ->
  vrx_ok (ok := ladder_good) v /\ seq32_ v = 0 /\ rz_vtx_nonce (rz_ v) = None /\ vcfg v = cfg /\
  rz_ v = new_rz (mkVrxRzConfig 1000 20 (v_op_channel cfg) (v_rz_nonce cfg)) random.
Proof.
  unfold new_vrx. intros (c & Hc & (r & _ & [= <-])%bind_Some)%bind_Some. split; [| split_all; reflexivity].
  split; [exact (rate_new (exp := exp) _ _ Hc) | discriminate].
Qed.

(** C16.  The ground never stalls and never repeats a tag.  Any sequence of calls of the control loop
    returns (no index leaves the ladder, no feedback frame is built without a session's nonce),
    and the feedback frames it sends carry, session by session in the order the drone's answers
    named them, exactly the sequence numbers 1, 2, 3, ... under the tag of that session's nonces.
    So if the drone never names a nonce twice, no two feedback frames share a tag context. *)
Theorem ground_tags_exact (exp : double -> double) (pow : double -> double -> double) (cfg : VrxCfg) (random : Z)
    (v0 : Vrx) (cs : list VrxCall) :
  new_vrx pow cfg random = Some v0 -> Forall (loadable pow) cs -> Z.of_nat (length cs) < 2 ^ 32 ->
  let n := rz_nonce (rz_ v0) in
  exists os v ks, vrx_calls exp pow cs v0 = Some (os, v) /\ length ks = length (adoptions n None cs) /\
    let tags := concat (zip_with (session_tags n 0) (adoptions n None cs) ks) in
    Forall2 (feedback_frame (v_key cfg)) (feedbacks os) tags /\ (NoDup (adoptions n None cs) -> NoDup tags).
Proof.
  intros H0 Hl Hlen n. destruct (new_vrx_ok exp pow cfg random v0 H0) as (Hv & Hs & Hh & Hc & _).
  destruct (vrx_calls_in exp pow (ok := ladder_good) cs v0 Hv Hl ltac:(lia) ltac:(lia)) as (os & v & k & ks & E & _ & Hk & HF).
  rewrite Hh, Hc in *. exists os, v, ks. split; [exact E |]. split; [exact Hk |]. split; [exact HF | exact (tags_nodup _ _ _)].
Qed.
