(* ===== verification/LinkUp.v ===== *)
(** * LinkUp: the two halves of the control channel meet

    The ground's control loop and the drone's agent, connected by the bytes they send: a beacon,
    the answer, and the first feedback frame make a link, whatever the state the drone was left
    in and whatever its nonce. *)
From S2P Require Import Prelude Bytes SwConfig SipHash RcProto RcProtoProps Profile RcPolicy RcAgent RcAgentSound RcAgentInv RcAgentProps RcAgentWitness RungStore LadderController LadderSound LadderProps Rendezvous VrxController VrxProps.

(** ** What the ground sends *)

(** The members a step of the loop leaves alone, but for the sequence numbers. *)
Record Wires := mkWires {
  w_key : list Z; w_nonce : Z; w_vtx : option Z; w_proposal : Z;
  w_hop_ch : Z; w_hop_epoch : Z; w_rec : Z; w_idr : Z; w_snr : Z;
}.

Definition wires (v : Vrx) : Wires :=
  mkWires (v_key (vcfg v)) (rz_nonce (rz_ v)) (rz_vtx_nonce (rz_ v)) (proposal (rz_ v)) (hop_ch_ v) (hop_epoch_ v) (rec_wish_ v)
    (idr_epoch_ v) (snr_off_ v).

(** Every member at its C++ width. *)
Definition wires_typed (w : Wires) : Prop :=
  bytes_ok (w_key w) /\ in_width 32 (w_nonce w) /\ is_byte (w_proposal w) /\
  is_byte (w_hop_ch w) /\ is_byte (w_hop_epoch w) /\ is_byte (w_rec w) /\ is_byte (w_idr w) /\ - 2 ^ 15 <= w_snr w < 2 ^ 15.

Lemma sync_op_eq v v' : sync_op_ v = Some v' -> exists op, v' = v {{ cur_op_ := op }}.
Proof. unfold sync_op_. intros (r & _ & [= <-])%bind_Some. by eexists. Qed.

Lemma blind_side_eq now v v' : blind_side now v = Some v' -> exists c op, v' = v {{ ctrl_ := c ; cur_op_ := op }}.
Proof.
  unfold blind_side. destruct (pinned v). { intros [= <-]. exists (ctrl_ v), (pinned_op (vcfg v)). by destruct v. }
  destruct (on_tick _ now (ctrl_ v)) as [[[|] c]|]; cbn [mbind option_bind]; [| | done].
  - intros (op & ->)%sync_op_eq. exists c, op. by destruct v.
  - intros [= <-]. exists c, (cur_op_ v). by destruct v.
Qed.

Section Ground.
Context (exp : double -> double).

Lemma score_health_eq h now v v' : score_health exp h now v = Some v' -> exists c op, v' = v {{ ctrl_ := c ; cur_op_ := op }}.
Proof.
  unfold score_health. destruct (pinned v). { intros [= <-]. exists (ctrl_ v), (cur_op_ v). by destruct v. }
  destruct (LadderController.update exp _ h now (ctrl_ v)) as [[[|] c]|]; cbn [mbind option_bind]; [| | done].
  - intros (op & ->)%sync_op_eq. exists c, op. by destruct v.
  - intros [= <-]. exists c, (cur_op_ v). by destruct v.
Qed.

Lemma rz_tick_eq now z : exists s t, snd (rz_tick now z) = z {{ rz_state := s ; last_beacon_ms := t }}.
Proof.
  exists (rz_state (snd (rz_tick now z))), (last_beacon_ms (snd (rz_tick now z))).
  unfold rz_tick, beacon_due. destruct z as [zc zs v b sq nn pr vt ff bs].
  destruct (bool_decide _); [destruct (d_gtb _ _) |]; try destruct (d_geb _ _); reflexivity.
Qed.

(** A discovery frame. *)
Definition our_disc (v : Vrx) (d : Disc) : Prop :=
  exists sq, in_width 16 sq /\ d = mkDisc (rz_nonce (rz_ v)) (proposal (rz_ v)) 20 1 0 0 sq.

Lemma send_disc_eq v o v' : send_disc v = (o, v') ->
  wires v' = wires v /\ agreed_channel_ v' = agreed_channel_ v /\ seq32_ v' = seq32_ v /\
  exists d, our_disc v d /\ o = Some (mkOut (pack_disc d (v_key (vcfg v))) true).
Proof.
  unfold send_disc, beacon. cbn zeta. destruct (bool_decide _); intros [= <- <-];
    (split; [reflexivity |]; split; [reflexivity |]; split; [reflexivity |]; eexists; split; [eexists; split; [| reflexivity] | reflexivity]);
    apply wrap_in_width; lia.
Qed.

(** A feedback frame commands the operating point and the standing orders. *)
Record our_rcf (v' : Vrx) (r : Rcf) : Prop := mkOurRcf {
  or_seq : rcf_seq r = u16 (seq32_ v');
  or_profile : profile r = encode_profile (phy_of (op_vht (cur_op_ v'))) (u8 (op_mcs (cur_op_ v'))) (u8 (op_bw (cur_op_ v')));
  or_base : fec_overhead_base r = op_overhead_base (cur_op_ v');
  or_enh : fec_overhead_enh r = op_overhead_enh (cur_op_ v');
  or_probe : is_byte (probe_profile r);
  or_orders : (hop_ch r, hop_epoch r, rec r, idr_epoch r, snr_off r) =
              (hop_ch_ v', hop_epoch_ v', rec_wish_ v', idr_epoch_ v', snr_off_ v');
}.

Lemma probe_byte_byte v p : probe_byte v = Some p -> is_byte p.
Proof.
  unfold probe_byte. cbn zeta. assert (Hu : forall z, 0 <= u8 z) by (intros z; apply Z.mod_pos_bound; lia).
  destruct (0 <=? pin_mcs _); [destruct (0 <=? probe_pin_mcs _); intros [= <-]; [by apply encode_profile_byte | decided] |].
  destruct (0 <=? _); [| intros [= <-]; decided]. intros (r & _ & [= <-])%bind_Some. by apply encode_profile_byte.
Qed.

Lemma count_for_move_eq v : exists n a e, count_for_move v = v {{ rcfs_since_adopt_ := n ; move_armed_ := a ; move_edge_ := e }}.
Proof.
  unfold count_for_move. cbn zeta. destruct (move_armed_ v) eqn:Ha.
  - destruct (_ <=? _); [exists (i32 (rcfs_since_adopt_ v + 1)), false, true | exists (i32 (rcfs_since_adopt_ v + 1)), true, (move_edge_ v)];
      destruct v; cbn in Ha; subst; reflexivity.
  - exists (rcfs_since_adopt_ v), false, (move_edge_ v). destruct v; cbn in Ha; subst; reflexivity.
Qed.

Lemma send_rcf_eq v o v' : send_rcf v = Some (Some o, v') ->
  exists r n, rz_vtx_nonce (rz_ v) = Some n /\ our_rcf v' r /\ wires v' = wires v /\ agreed_channel_ v' = agreed_channel_ v /\
    seq32_ v' = u32 (seq32_ v + 1) /\
    o = mkOut (pack_rcf r (v_key (vcfg v)) (mkTagCtx (rz_nonce (rz_ v)) n (seq32_ v'))) false.
Proof.
  unfold send_rcf, build_rcf. cbn zeta. change (v {{ seq32_ ::= (fun s => u32 (s + 1)) }}) with (v {{ seq32_ := u32 (seq32_ v + 1) }}).
  destruct (probe_byte _) as [p|] eqn:Hp; cbn [mbind option_bind]; [| done]. apply probe_byte_byte in Hp.
  set (r := mkRcf _ _ _ _ _ _ _ _ _ _). set (v1 := v {{ seq32_ := u32 (seq32_ v + 1) }}) in *.
  destruct (count_for_move_eq (note_cmd r v1)) as (k & a & e & ->). unfold feedback_ctx.
  match goal with |- context [rz_vtx_nonce ?z] => change (rz_vtx_nonce z) with (rz_vtx_nonce (rz_ v)) end.
  destruct (rz_vtx_nonce (rz_ v)) as [n|]; cbn [mbind option_bind]; [| done]. intros [= <- <-].
  exists r, n. split; [reflexivity |]. split; [split; first [reflexivity | exact Hp] |].
  split; [reflexivity |]. split; [reflexivity |]. split; reflexivity.
Qed.

Lemma send_rcf_some v v' : send_rcf v <> Some (None, v').
Proof.
  unfold send_rcf. destruct (build_rcf v) as [[r v1]|]; cbn [mbind option_bind]; [| done].
  destruct (feedback_ctx _); cbn [mbind option_bind]; congruence.
Qed.

(** What a step sends, and what it leaves. *)
Lemma vrx_step_eq now h v o v' : vrx_step exp now h v = Some (o, v') ->
  wires v' = wires v /\ agreed_channel_ v' = agreed_channel_ v /\
  match o with
  | None => seq32_ v' = seq32_ v
  | Some o =>
      if is_disc o then seq32_ v' = seq32_ v /\ exists d, our_disc v d /\ o_frame o = pack_disc d (v_key (vcfg v))
      else exists r n, rz_vtx_nonce (rz_ v) = Some n /\ our_rcf v' r /\ seq32_ v' = u32 (seq32_ v + 1) /\
             o_frame o = pack_rcf r (v_key (vcfg v)) (mkTagCtx (rz_nonce (rz_ v)) n (seq32_ v'))
  end.
Proof.
  unfold vrx_step. destruct (blind_side now v) as [v1|] eqn:Hb; cbn [mbind option_bind]; [| done].
  apply blind_side_eq in Hb as (c & op & ->). set (v1 := v {{ ctrl_ := c ; cur_op_ := op }}).
  destruct (rz_tick_eq now (rz_ v1)) as (s & t & Hz). destruct (rz_tick now (rz_ v1)) as [act z]. cbn [snd] in Hz. subst z.
  set (v2 := v1 {{ rz_ := _ }}). cbn zeta.
  assert (Hdisc : forall v3, wires v3 = wires v -> seq32_ v3 = seq32_ v -> vcfg v3 = vcfg v -> agreed_channel_ v3 = agreed_channel_ v ->
    Some (send_disc v3) = Some (o, v') ->
    wires v' = wires v /\ agreed_channel_ v' = agreed_channel_ v /\ seq32_ v' = seq32_ v /\
    exists d, our_disc v d /\ o = Some (mkOut (pack_disc d (v_key (vcfg v))) true)).
  { intros v3 E1 E2 E3 E4 E. apply (inj Some) in E. destruct (send_disc_eq _ _ _ E) as (W & A & S & d & (sq & Hsq & ->) & ->).
    split; [congruence |]. split; [congruence |]. split; [congruence |]. rewrite E3. eexists. split; [| reflexivity].
    exists sq. split; [exact Hsq |]. assert (E5 := f_equal w_nonce E1). assert (E6 := f_equal w_proposal E1). cbn [w_nonce w_proposal wires] in E5, E6.
    by rewrite E5, E6. }
  assert (Hd : forall v3, wires v3 = wires v -> seq32_ v3 = seq32_ v -> vcfg v3 = vcfg v -> agreed_channel_ v3 = agreed_channel_ v ->
    Some (send_disc v3) = Some (o, v') -> wires v' = wires v /\ agreed_channel_ v' = agreed_channel_ v /\
    match o with None => seq32_ v' = seq32_ v | Some o => if is_disc o then
      seq32_ v' = seq32_ v /\ exists d, our_disc v d /\ o_frame o = pack_disc d (v_key (vcfg v)) else True end /\
    exists f, o = Some (mkOut f true)).
  { intros v3 E1 E2 E3 E4 E. destruct (Hdisc v3 E1 E2 E3 E4 E) as (W & A & S & d & D & ->). split; [exact W |]. split; [exact A |].
    cbn [is_disc o_frame]. split; [| eexists; reflexivity]. split; [exact S |]. exists d. split; [exact D | reflexivity]. }
  destruct act.
  - destruct (_ && _).
    { match goal with |- context [send_disc ?x] => set (v3 := x) end.
      intros E. destruct (Hd v3 eq_refl eq_refl eq_refl eq_refl E) as (W & A & S & f & ->). exact (conj W (conj A S)). }
    destruct (d_ltb _ _). { intros [= <- <-]. split; [reflexivity |]. split; reflexivity. }
    destruct (score_health exp h now _) as [v4|] eqn:Hs; cbn [mbind option_bind]; [| done].
    apply score_health_eq in Hs as (c' & op' & ->). intros E. destruct o as [o|]; [| by destruct (send_rcf_some _ _ E)].
    destruct (send_rcf_eq _ _ _ E) as (r & n & Hn & Hr & W & A & S & ->). split; [exact W |]. split; [exact A |]. cbn [is_disc].
    exists r, n. split; [exact Hn |]. split; [exact Hr |]. split; [exact S | reflexivity].
  - intros E. destruct (Hd v2 eq_refl eq_refl eq_refl eq_refl E) as (W & A & S & f & ->). exact (conj W (conj A S)).
  - intros [= <- <-]. split; [reflexivity |]. split; reflexivity.
Qed.

(** Steps that send no feedback: whatever they beacon is lost. *)
Fixpoint waiting (ws : list (double * LinkHealth)) (v : Vrx) : option Vrx :=
  match ws with
  | [] => Some v
  | (t, h) :: ws =>
      x ← vrx_step exp t h v;
      match fst x with
      | Some o => if is_disc o then waiting ws (snd x) else None
      | None => waiting ws (snd x)
      end
  end.

Lemma waiting_eq ws v v' : waiting ws v = Some v' ->
  wires v' = wires v /\ agreed_channel_ v' = agreed_channel_ v /\ seq32_ v' = seq32_ v.
Proof.
  revert v. induction ws as [|[t h] ws IH]; intros v; cbn [waiting]; [by intros [= <-] |].
  destruct (vrx_step exp t h v) as [[o v1]|] eqn:Hs; cbn [mbind option_bind fst snd]; [| done].
  destruct (vrx_step_eq t h v o v1 Hs) as (W & A & S).
  assert (Hgo : seq32_ v1 = seq32_ v -> waiting ws v1 = Some v' ->
    wires v' = wires v /\ agreed_channel_ v' = agreed_channel_ v /\ seq32_ v' = seq32_ v).
  { intros S1 E. destruct (IH v1 E) as (W' & A' & S'). split; [congruence |]. split; congruence. }
  destruct o as [o|]; [destruct (is_disc o); [exact (Hgo (proj1 S)) | done] | exact (Hgo S)].
Qed.
End Ground.

(** ** What the drone answers *)

Section Drone.
Context (dc : Config).

(** The nonce a beacon is answered with: that of an offer still open, or a fresh one. *)
Definition offered (E : Env) (a : Agent) (vrx : Z) : Z :=
  if s_valid (pending a) && (vrx =? s_vrx (pending a)) then s_vtx (pending a) else rnd E.

Definition agreed_on (a : Agent) (d : Disc) : Z := if member dc (op_channel d) then op_channel d else channel (chan a).

(** An open offer has accepted nothing. *)
Definition offer_fresh (a : Agent) : Prop := s_valid (pending a) = true -> have_seq (pending a) = false.

Lemma history_offer_fresh ch a0 tr a : init dc ch = Some a0 -> history dc a0 tr a -> offer_fresh a.
Proof.
  intros Hi. induction 1 as [a | a tr a' E i a'' es Hh IH Hs].
  { revert Hi. unfold init. intros (c & _ & [= <-])%bind_Some. discriminate. }
  unfold RcAgent.step in Hs. destruct (call dc E i (mkWorld a' [])) as [w|] eqn:Hc; cbn in Hs; [| done]. injection Hs as <- _.
  destruct (call_pairs dc E i _ _ Hc) as (l & Hp & _). cbn [ag] in Hp. specialize (IH Hi). unfold offer_fresh in *.
  revert Hp. generalize (current a') (current (ag w)) (pending (ag w)). intros c c' p' Hp.
  inversion Hp; subst; first [exact IH | discriminate | reflexivity].
Qed.

Lemma pack_disc_type d k : frame_type (pack_disc d k) = Some T_DISC.
Proof.
  unfold pack_disc. destruct (tagged_frame (disc_body d) k no_ctx []) as [rest E]. rewrite app_nil_r in E. rewrite E. reflexivity.
Qed.

Lemma pack_rcf_type r k ctx : frame_type (pack_rcf r k ctx) = Some T_RCF.
Proof.
  unfold pack_rcf. destruct (tagged_frame (rcf_body r) k ctx []) as [rest E]. rewrite app_nil_r in E. rewrite E. reflexivity.
Qed.

Lemma pack_disc_ack_type a : frame_type (pack_disc_ack a) = Some T_DISC_ACK.
Proof.
  unfold pack_disc_ack. destruct (plain_frame (disc_ack_body a) []) as [rest E]. rewrite app_nil_r in E. rewrite E. reflexivity.
Qed.

Lemma disc_verifies d k : disc_typed d -> bytes_ok k -> verify_control (pack_disc d k) k no_ctx = Some true.
Proof.
  intros Hd Hk. rewrite <- (app_nil_r (pack_disc d k)). apply verify_packed; [by apply disc_body_bytes | done |].
  destruct (tagged_frame (disc_body d) k no_ctx []) as [rest ->]. done.
Qed.

Lemma rcf_verifies r k ctx : rcf_typed r -> bytes_ok k -> verify_control (pack_rcf r k ctx) k ctx = Some true.
Proof.
  intros Hr Hk. rewrite <- (app_nil_r (pack_rcf r k ctx)). apply verify_packed; [by apply rcf_body_bytes | done |].
  destruct (tagged_frame (rcf_body r) k ctx []) as [rest ->]. done.
Qed.

Lemma drone_answers E body d t a :
  frame_type body = Some T_DISC -> parse_disc body = Some (Some d) -> verify_control body (key dc) no_ctx = Some true ->
  ag_state a <> LINKED -> offer_fresh a ->
  let n := offered E a (d_vrx_nonce d) in
  exists a1, RcAgent.step dc E (InFrame body t) a =
      Some (a1, [ESend (pack_disc_ack (make_disc_ack dc (d_vrx_nonce d) n 0 (disc_seq d) (agreed_on a d)))]) /\
    s_valid (pending a1) = true /\ have_seq (pending a1) = false /\ s_vrx (pending a1) = d_vrx_nonce d /\ s_vtx (pending a1) = n /\
    agreed_ch (pending a1) = agreed_on a d /\ current a1 = current a /\ knobs a1 = knobs a.
Proof.
  intros Ht Hp Hc Hl Hf n. unfold RcAgent.step, call, on_rc_frame. rewrite Ht. cbn [mbind option_bind].
  rewrite (Z.eqb_refl T_DISC), Hp. cbn [mbind option_bind]. unfold on_disc. rewrite Hc. cbn [mbind option_bind negb ag].
  rewrite (bool_decide_eq_false_2 _ Hl). cbn [andb]. fold (agreed_on a d). unfold n, offered. clear n.
  destruct (s_valid (pending a)) eqn:Hv; cbn [andb]; [destruct (Z.eqb_spec (d_vrx_nonce d) (s_vrx (pending a))) as [He |] |].
  - eexists. split; [reflexivity |]. split; [exact Hv |]. split; [exact (Hf Hv) |]. split; [by symmetry |].
    split; [reflexivity |]. split; [reflexivity |]. split; reflexivity.
  - eexists. split; [reflexivity |]. split_all; reflexivity.
  - eexists. split; [reflexivity |]. split_all; reflexivity.
Qed.

(** The operating point an order commands. *)
Definition commanded (o : AppliedOp) : LayerTxSpec * LayerTxSpec * double * double := (ladder o, fec_ov_base o, fec_ov_enh o).

Lemma apply_rcf_commanded E r now w :
  commanded (op (ag (apply_rcf dc E r now w))) =
    (let '(m, mcs, bw) := decode_profile (profile r) in ladder_from m mcs bw (ldpc_live (knobs (ag w))), fec_overhead_base r, fec_overhead_enh r).
Proof.
  unfold apply_rcf. destruct (decode_profile (profile r)) as [[m mcs] bw]. cbn zeta.
  set (X := (ladder_from m mcs bw (ldpc_live (knobs (ag w))), fec_overhead_base r, fec_overhead_enh r)).
  set (P := fun w => commanded (op (ag w)) = X).
  assert (H1 : forall w, P w -> P (hop_order dc r now w)) by (intros; open_stage; assumption).
  assert (H2 : forall w, P w -> P (record_wish E r w)) by (intros; open_stage; assumption).
  assert (H3 : forall w, P w -> P (sensor_offset r w)) by (intros; open_stage; assumption).
  assert (H4 : forall w, P w -> P (note_idr_epoch r w)) by (intros; open_stage; assumption).
  assert (H5 : forall prev w, P w -> P (enter_linked prev now w)) by (intros; open_stage; assumption).
  assert (H6 : forall w, P w -> P (link_up_idr now w)) by (intros; open_stage; assumption).
  assert (H7 : forall f w, P w -> P (run_bitrate_policy dc E now f w)) by (intros; open_stage; assumption).
  apply H7. assert (H0 : P (apply_ladder_op (ladder_live (ag w) m mcs bw) (fec_overhead_base r) (fec_overhead_enh r) (probe_profile r) w))
    by reflexivity.
  case_bool_decide; [apply H6 |]; apply H5, H4, H3, H2, H1, H0.
Qed.

(** The first frame under the offered pair links. *)
Lemma drone_links E body r t a q :
  frame_type body = Some T_RCF -> parse_rcf body = Some (Some r) ->
  verify_control body (key dc) (mkTagCtx (s_vrx (pending a)) (s_vtx (pending a)) q) = Some true ->
  s_valid (current a) = false -> s_valid (pending a) = true -> have_seq (pending a) = false -> rcf_seq r = q ->
  exists a2 es, RcAgent.step dc E (InFrame body t) a = Some (a2, es) /\
    ag_state a2 = LINKED /\ last_fb a2 = Some t /\ current a2 = with_seq q (pending a) /\
    commanded (op a2) =
      (let '(m, mcs, bw) := decode_profile (profile r) in ladder_from m mcs bw (ldpc_live (knobs a)), fec_overhead_base r, fec_overhead_enh r).
Proof.
  intros Ht Hpa Hve Hc Hp Hs Hq. unfold RcAgent.step, call, on_rc_frame. rewrite Ht. cbn [mbind option_bind].
  change (T_RCF =? T_DISC) with false. rewrite (Z.eqb_refl T_RCF), Hpa. cbn iota. cbn [mbind option_bind].
  unfold on_rcf, verify_rcf. cbn [ag]. rewrite Hc, Hp. cbn [negb mbind option_bind]. unfold rcf_candidate. rewrite Hs. cbn [negb].
  rewrite Hq, Hve. cbn [mbind option_bind]. set (wp := mkWorld (promote a) []).
  destruct (promote_sessions a) as (F1 & _).
  assert (Hv : s_valid (current (ag wp)) = true) by (change (s_valid (current (promote a)) = true); by rewrite F1).
  destruct (accept_then_apply dc E r t q wp Hv) as (A1 & _ & _). destruct (apply_rcf_state dc E r t (accept_rcf q wp)) as [S1 S2].
  pose proof (apply_rcf_commanded E r t (accept_rcf q wp)) as O.
  assert (Hkn : ldpc_live (knobs (ag (accept_rcf q wp))) = ldpc_live (knobs a)).
  { transitivity (ldpc_live (knobs (promote a))); [unfold accept_rcf; cbn zeta; destruct (move_pending _); reflexivity |].
    unfold promote. cbn zeta. destruct (_ && _); reflexivity. }
  rewrite Hkn in O. change (current (ag wp)) with (current (promote a)) in A1. rewrite F1 in A1.
  match goal with |- context [accept_rcf q ?w] => change w with wp end. revert A1 S1 S2 O.
  generalize (apply_rcf dc E r t (accept_rcf q wp)). intros w A1 S1 S2 O. exists (ag w), (out w).
  split; [reflexivity |]. split; [exact S1 |]. split; [exact S2 |]. split; [exact A1 | exact O].
Qed.
End Drone.

(** ** The ground takes the answer *)

Lemma ground_adopts buf ack t v :
  frame_type buf = Some T_DISC_ACK -> parse_disc_ack buf = Some (Some ack) -> a_vrx_nonce ack = rz_nonce (rz_ v) -> ack_mismatch ack = false ->
  exists v', ground_rc_frame buf t v = Some v' /\ rz_state (rz_ v') = SESSION /\ agreed_channel_ v' = agreed_channel ack /\
    seq32_ v' = (if bool_decide (rz_vtx_nonce (rz_ v) = Some (a_vtx_nonce ack)) then seq32_ v else 0) /\
    wires v' = (let w := wires v in mkWires (w_key w) (w_nonce w) (Some (a_vtx_nonce ack)) (w_proposal w) (w_hop_ch w) (w_hop_epoch w)
                                      (w_rec w) (w_idr w) (w_snr w)).
Proof.
  intros Ht Hp Hn Hm. unfold ground_rc_frame. rewrite Ht. cbn [mbind option_bind]. rewrite (Z.eqb_refl T_DISC_ACK). cbn [negb].
  rewrite Hp. cbn [mbind option_bind]. unfold feed_disc_ack. rewrite Hn, Z.eqb_refl, Hm. cbn [negb orb].
  change (rz_vtx_nonce ((rz_ v) {{ first_flagged_ms := None ; beacons_since_flagged := 0 }})) with (rz_vtx_nonce (rz_ v)).
  destruct (bool_decide_reflect (rz_vtx_nonce (rz_ v) = Some (a_vtx_nonce ack))) as [Hb | Hb]; cbn [negb];
    (eexists; split; [reflexivity |]); (split; [reflexivity |]); (split; [reflexivity |]); (split; [reflexivity |]).
  - unfold wires at 2. cbn zeta. cbn [w_key w_nonce w_proposal w_hop_ch w_hop_epoch w_rec w_idr w_snr]. rewrite <- Hb. reflexivity.
  - reflexivity.
Qed.

Lemma agreed_byte dc a d : Forall is_byte (channels dc) -> channel (chan a) ∈ channels dc -> is_byte (agreed_on dc a d).
Proof.
  intros Hc Ha. unfold agreed_on. rewrite Forall_forall in Hc. destruct (member dc (op_channel d)) eqn:Hm; [| by apply Hc].
  apply channel_set_member_spec in Hm. apply Hc, (proj2 Hm).
Qed.

Lemma u16_small z : 0 <= z < 2 ^ 16 -> u16 z = z.
Proof. intros H. unfold wrap. by apply Z.mod_small. Qed.

Lemma u8_op (m : PhyMode) (mcs bw : Z) : mcs_ok m mcs -> bw_ok bw -> u8 mcs = mcs /\ u8 bw = bw.
Proof.
  intros [H1 H2] Hb. unfold top_mcs in H2. unfold wrap. split; apply Z.mod_small; [case_decide; lia |].
  unfold bw_ok in Hb. lia.
Qed.

(** ** The two legs *)

Definition with_vtx (n : Z) (w : Wires) : Wires :=
  mkWires (w_key w) (w_nonce w) (Some n) (w_proposal w) (w_hop_ch w) (w_hop_epoch w) (w_rec w) (w_idr w) (w_snr w).

(** The pair both ends hold after the answer. *)
Record paired (v v2 : Vrx) (a a1 : Agent) (n : Z) : Prop := mkPaired {
  pr_state : rz_state (rz_ v2) = SESSION;
  pr_wires : wires v2 = with_vtx n (wires v);
  pr_seq : 0 <= seq32_ v2 < 2 ^ 16 - 1;
  pr_current : s_valid (current a1) = false;
  pr_pending : s_valid (pending a1) = true;
  pr_fresh : have_seq (pending a1) = false;
  pr_vrx : s_vrx (pending a1) = rz_nonce (rz_ v);
  pr_vtx : s_vtx (pending a1) = n;
  pr_channel : agreed_ch (pending a1) = agreed_channel_ v2;
  pr_knobs : knobs a1 = knobs a;
}.

Lemma not_linked_no_pair w : link_ok w -> ag_state (ag w) <> LINKED -> s_valid (current (ag w)) = false.
Proof. intros [H _] Hl. destruct (ag_state (ag w)); first [apply H | done]. Qed.

Lemma our_disc_typed v d : our_disc v d -> wires_typed (wires v) -> disc_typed d /\ d_vrx_nonce d = rz_nonce (rz_ v).
Proof.
  intros (sq & Hsq & ->) (_ & T1 & T2 & _). cbn in T1, T2. split; [| reflexivity]. unfold disc_typed. cbn.
  split_all; first [assumption | decided].
Qed.

(** Beacon and answer. *)
Lemma beacon_and_answer exp dc ch a0 a tr v v1 d E now0 t0 t1 h0 :
  init dc ch = Some a0 -> history dc a0 tr a -> ag_state a <> LINKED ->
  Forall is_byte (channels dc) -> is_byte (width dc) -> v_key (vcfg v) = key dc -> wires_typed (wires v) ->
  vrx_step exp t0 h0 v = Some (Some d, v1) -> is_disc d = true ->
  let n := offered E a (rz_nonce (rz_ v)) in
  in_width 32 n -> (rz_vtx_nonce (rz_ v) = Some n -> 0 <= seq32_ v < 2 ^ 16 - 1) ->
  exists a1 answer v2, RcAgent.step dc E (InFrame (o_frame d) now0) a = Some (a1, [ESend answer]) /\
    ground_rc_frame answer t1 v1 = Some v2 /\ paired v v2 a a1 n.
Proof.
  intros Hi Hh Hl Hch Hw Hkey HT Hs Hd n Hn32 Hfresh.
  destruct (vrx_step_eq exp t0 h0 v (Some d) v1 Hs) as (W1 & _ & Hs1). rewrite Hd in Hs1. destruct Hs1 as (Q1 & disc & Hdisc & ->).
  destruct (our_disc_typed v disc Hdisc HT) as [Hty Evrx]. rewrite Hkey.
  assert (K : bytes_ok (key dc)) by (rewrite <- Hkey; apply HT).
  destruct (history_ok dc ch a0 tr a Hi Hh) as [[Hchan _ Hlink] _].
  pose proof (parse_pack_disc disc (key dc) [] Hty) as HP. rewrite app_nil_r in HP.
  destruct (drone_answers dc E (pack_disc disc (key dc)) disc now0 a (pack_disc_type disc (key dc)) HP (disc_verifies disc (key dc) Hty K) Hl
    (history_offer_fresh dc ch a0 tr a Hi Hh)) as (a1 & S1 & P1 & P2 & P3 & P4 & P5 & P6 & P7).
  rewrite Evrx in S1, P3, P4. fold n in S1, P4. set (ack := make_disc_ack _ _ _ _ _ _) in S1.
  assert (Hat : disc_ack_typed ack).
  { destruct Hty as (V & _ & _ & _ & _ & _ & Q). rewrite Evrx in V.
    pose proof (agreed_byte dc a disc Hch (co_channel _ _ Hchan)) as HA. unfold disc_ack_typed, ack, make_disc_ack. cbn.
    split_all; first [assumption | decided]. }
  pose proof (parse_pack_disc_ack ack [] Hat) as HPA. rewrite app_nil_r in HPA.
  pose proof (f_equal w_nonce W1) as N1. pose proof (f_equal w_vtx W1) as V1. cbn [w_nonce w_vtx wires] in N1, V1.
  assert (Hav : a_vrx_nonce ack = rz_nonce (rz_ v1)) by (by rewrite N1).
  destruct (ground_adopts (pack_disc_ack ack) ack t1 v1 (pack_disc_ack_type ack) HPA Hav eq_refl) as (v2 & G & St & Ag & Sq & W2).
  change (a_vtx_nonce ack) with n in Sq, W2. rewrite W1 in W2. rewrite V1, Q1 in Sq.
  exists a1, (pack_disc_ack ack), v2. split; [exact S1 |]. split; [exact G |]. split; try assumption.
  - rewrite Sq. case_bool_decide as Hb; [exact (Hfresh Hb) | lia].
  - rewrite P6. exact (not_linked_no_pair _ Hlink Hl).
  - rewrite P5, Ag. reflexivity.
Qed.

Lemma our_rcf_typed v' r : our_rcf v' r -> wires_typed (wires v') -> rcf_typed r.
Proof.
  intros [R1 R2 _ _ R5 R6] (_ & _ & _ & T3 & T4 & T5 & T6 & T7). cbn in T3, T4, T5, T6, T7.
  injection R6 as O1 O2 O3 O4 O5. unfold rcf_typed. rewrite R1, R2, O1, O2, O3, O4, O5. assert (Hu : in_width 16 (u16 (seq32_ v'))) by (apply wrap_in_width; lia).
  assert (Hpb : is_byte (encode_profile (phy_of (op_vht (cur_op_ v'))) (u8 (op_mcs (cur_op_ v'))) (u8 (op_bw (cur_op_ v')))))
    by (apply encode_profile_byte; apply Z.mod_pos_bound; lia).
  split_all; first [assumption | lia].
Qed.

(** The commanded point, when the table knows it. *)
Lemma profile_decoded v' r : our_rcf v' r -> let o := cur_op_ v' in let m := phy_of (op_vht o) in
  mcs_ok m (op_mcs o) -> bw_ok (op_bw o) -> decode_profile (profile r) = (m, op_mcs o, op_bw o).
Proof.
  intros [_ R2 _ _ _ _] o m Hm Hb. rewrite R2. fold o. fold m. destruct (u8_op m _ _ Hm Hb) as [-> ->]. exact (decode_encode_profile m _ _ Hm Hb).
Qed.

(** The first feedback frame. *)
Lemma first_feedback exp dc v v2 vw v3 a a1 n ws t2 h2 r E' now1 :
  v_key (vcfg v) = key dc -> wires_typed (wires v) -> paired v v2 a a1 n -> waiting exp ws v2 = Some vw ->
  vrx_step exp t2 h2 vw = Some (Some r, v3) -> is_disc r = false ->
  exists a2 es, RcAgent.step dc E' (InFrame (o_frame r) now1) a1 = Some (a2, es) /\ ag_state a2 = LINKED /\
    current a2 = with_seq (seq32_ v3) (pending a1) /\
    (let o := cur_op_ v3 in let m := phy_of (op_vht o) in
     mcs_ok m (op_mcs o) -> bw_ok (op_bw o) ->
     commanded (op a2) = (ladder_from m (op_mcs o) (op_bw o) (ldpc_live (knobs a)),
       overhead_of_x100 (overhead_to_x100 (op_overhead_base o)), overhead_of_x100 (overhead_to_x100 (op_overhead_enh o)))).
Proof.
  intros Hkey HT [_ W2' Hq2' C P F Vx Vt _ Kn] Hws Hs3 Hr. destruct (waiting_eq exp ws v2 vw Hws) as (Ww & _ & Qw).
  assert (W2 : wires vw = with_vtx n (wires v)) by congruence. assert (Hq2 : 0 <= seq32_ vw < 2 ^ 16 - 1) by (rewrite Qw; exact Hq2').
  destruct (vrx_step_eq exp t2 h2 vw (Some r) v3 Hs3) as (W3 & _ & H3). rewrite Hr in H3. destruct H3 as (rcf & n' & Hn' & HR & Q3 & F3).
  pose proof (f_equal w_vtx W2) as V2. pose proof (f_equal w_key W2) as K2. pose proof (f_equal w_nonce W2) as N2.
  cbn [w_key w_nonce w_vtx wires with_vtx] in V2, K2, N2. rewrite Hn' in V2. injection V2 as ->. rewrite K2, Hkey, N2 in F3.
  assert (Hq : u16 (seq32_ v3) = seq32_ v3) by (apply u16_small; rewrite Q3; unfold wrap; rewrite Z.mod_small; lia).
  assert (Hrt : rcf_typed rcf) by (apply (our_rcf_typed v3 rcf HR); rewrite W3, W2; exact HT).
  assert (K : bytes_ok (key dc)) by (rewrite <- Hkey; apply HT).
  set (ctx := mkTagCtx (rz_nonce (rz_ v)) n (seq32_ v3)) in F3.
  pose proof (parse_pack_rcf rcf (key dc) ctx [] Hrt) as HPR. rewrite app_nil_r in HPR.
  assert (HV : verify_control (pack_rcf rcf (key dc) ctx) (key dc) (mkTagCtx (s_vrx (pending a1)) (s_vtx (pending a1)) (seq32_ v3)) = Some true)
    by (rewrite Vx, Vt; exact (rcf_verifies rcf (key dc) ctx Hrt K)).
  destruct (drone_links dc E' (pack_rcf rcf (key dc) ctx) (rcf_on_wire rcf) now1 a1 (seq32_ v3) (pack_rcf_type rcf (key dc) ctx) HPR HV C P F)
    as (a2 & es & S & L & _ & Cu & O); [exact (eq_trans (or_seq _ _ HR) Hq) |].
  exists a2, es. rewrite F3. split; [exact S |]. split; [exact L |]. split; [exact Cu |].
  intros o m Hm Hb. rewrite O, Kn. change (profile (rcf_on_wire rcf)) with (profile rcf).
  rewrite (profile_decoded v3 rcf HR Hm Hb). cbn [rcf_on_wire fec_overhead_base fec_overhead_enh].
  by rewrite (or_base _ _ HR), (or_enh _ _ HR).
Qed.

(** C15.  Pairing links.  Take a drone after any history that is not linked, and a ground station with
    the same key, whatever else either remembers.  When the ground's step beacons and the drone
    hears it, the drone answers with one frame; the ground that hears the answer holds the session;
    and the first feedback frame it then sends, after any steps that send none, leaves the drone
    that hears it linked: under the same
    two nonces and sequence number, agreed on the same channel, and at the operating point the
    ground commands.  (A ground that already held the answered nonce must have sent fewer than
    2^16 frames under it, since the drone has only the wire's 16 bits to start from.) *)
Theorem pairing_links (exp : double -> double) (dc : Config) (start_ch : Z) (a0 a : Agent) (tr : list Event) (v v1 : Vrx) (d : Out)
    (E : Env) (now0 : Z) (t0 t1 : double) (h0 : LinkHealth) :
  init dc start_ch = Some a0 -> history dc a0 tr a -> ag_state a <> LINKED ->
  Forall is_byte (channels dc) -> is_byte (width dc) ->
  v_key (vcfg v) = key dc -> wires_typed (wires v) ->
  vrx_step exp t0 h0 v = Some (Some d, v1) -> is_disc d = true ->
  let n := offered E a (rz_nonce (rz_ v)) in
  in_width 32 n -> (rz_vtx_nonce (rz_ v) = Some n -> 0 <= seq32_ v < 2 ^ 16 - 1) ->
  exists a1 answer v2,
    RcAgent.step dc E (InFrame (o_frame d) now0) a = Some (a1, [ESend answer]) /\
    ground_rc_frame answer t1 v1 = Some v2 /\ rz_state (rz_ v2) = SESSION /\ rz_vtx_nonce (rz_ v2) = Some n /\
    forall (ws : list (double * LinkHealth)) (vw : Vrx) (t2 : double) (h2 : LinkHealth) (r : Out) (v3 : Vrx) (E' : Env) (now1 : Z),
      waiting exp ws v2 = Some vw -> vrx_step exp t2 h2 vw = Some (Some r, v3) -> is_disc r = false ->
      exists a2 es,
        RcAgent.step dc E' (InFrame (o_frame r) now1) a1 = Some (a2, es) /\ ag_state a2 = LINKED /\
        s_vrx (current a2) = rz_nonce (rz_ v) /\ s_vtx (current a2) = n /\ last_seq32 (current a2) = seq32_ v3 /\
        agreed_ch (current a2) = agreed_channel_ v3 /\
        (let o := cur_op_ v3 in let m := phy_of (op_vht o) in
         mcs_ok m (op_mcs o) -> bw_ok (op_bw o) ->
         commanded (op a2) = (ladder_from m (op_mcs o) (op_bw o) (ldpc_live (knobs a)),
           overhead_of_x100 (overhead_to_x100 (op_overhead_base o)), overhead_of_x100 (overhead_to_x100 (op_overhead_enh o)))).
Proof.
  intros Hi Hh Hl Hch Hw Hkey HT Hs Hd n Hn32 Hfresh.
  destruct (beacon_and_answer exp dc start_ch a0 a tr v v1 d E now0 t0 t1 h0 Hi Hh Hl Hch Hw Hkey HT Hs Hd Hn32 Hfresh)
    as (a1 & answer & v2 & S1 & G & HP).
  exists a1, answer, v2. split; [exact S1 |]. split; [exact G |]. split; [exact (pr_state _ _ _ _ _ HP) |].
  split; [exact (f_equal w_vtx (pr_wires _ _ _ _ _ HP)) |]. intros ws vw t2 h2 r v3 E' now1 Hws Hs3 Hr.
  destruct (first_feedback exp dc v v2 vw v3 a a1 _ ws t2 h2 r E' now1 Hkey HT HP Hws Hs3 Hr) as (a2 & es & S2 & L & Cu & O).
  exists a2, es. split; [exact S2 |]. split; [exact L |]. rewrite Cu.
  split; [exact (pr_vrx _ _ _ _ _ HP) |]. split; [exact (pr_vtx _ _ _ _ _ HP) |]. split; [reflexivity |].
  split; [| exact O]. destruct (waiting_eq exp ws v2 vw Hws) as (_ & A1 & _). destruct (vrx_step_eq exp t2 h2 vw (Some r) v3 Hs3) as (_ & A2 & _).
  rewrite A2, A1. exact (pr_channel _ _ _ _ _ HP).
Qed.

(** ** Proofs: the ground's theorems on a concrete exchange

    A ground station beacons, a drone answers, and the first feedback frame links them; a drone
    with another key refuses four beacons. *)

(** ** The stranger rule *)

Definition demo_rz_cfg : VrxRzConfig := mkVrxRzConfig 1000 20 40 9.

Definition demo_refusal : DiscAck := mkDiscAck 9 0 15 40 20 1 3.
Definition demo_accept : DiscAck := mkDiscAck 9 71 15 40 20 0 3.

Definition demo_rz_calls : list RzCall :=
  [ RzTick (d_of_Z 0); RzBeacon; RzAck demo_accept (d_of_Z 10); RzVideo (d_of_Z 20); RzAck demo_refusal (d_of_Z 100);
    RzBeacon; RzBeacon; RzAck demo_refusal (d_of_Z 900); RzBeacon; RzAck demo_refusal (d_of_Z 1100) ].

Lemma stranger_rule_exact_witness :
  rz_state (rz_calls demo_rz_calls (new_rz demo_rz_cfg 5)) = KEY_MISMATCH /\
  mismatch_run 9 (since_accepted 9 demo_rz_calls) /\ last_session 9 demo_rz_calls = Some 71.
Proof.
  assert (Hlen : Z.of_nat (length demo_rz_calls) < 2 ^ 31) by (cbn; lia).
  assert (Hs : rz_state (rz_calls demo_rz_calls (new_rz demo_rz_cfg 5)) = KEY_MISMATCH) by (vm_compute; reflexivity).
  destruct (stranger_rule_exact demo_rz_cfg 5 demo_rz_calls Hlen) as (_ & _ & _ & Hm).
  split; [exact Hs |]. split; [exact (proj1 Hm Hs) | reflexivity].
Defined.

(** ** The ground's loop *)

Definition demo_vrx_cfg : VrxCfg :=
  mkVrxCfg kDefaultLinkKey 40 50 1000 demo_ladder_cfg (-1) 20 d_half d_half (-1) 3405643777.

Definition demo_v : Vrx :=
  match new_vrx demo_pow demo_vrx_cfg 1 as r return match r with Some _ => Vrx | None => unit end with
  | Some v => v
  | None => tt
  end.

Lemma demo_new_vrx : new_vrx demo_pow demo_vrx_cfg 1 = Some demo_v.
Proof. vm_compute. reflexivity. Qed.

Definition demo_h : LinkHealth := demo_sample d_zero d_zero.

(** The drone after its first tick. *)
Definition demo_idle : list Event * Agent :=
  default ([], demo_a0) (run_from demo_cfg [] demo_a0 [(demo_env true 0, InTick 0 demo_health)]).

Lemma demo_idle_history : history demo_cfg demo_a0 (fst demo_idle) (snd demo_idle).
Proof. apply (run_history demo_cfg demo_a0 [(demo_env true 0, InTick 0 demo_health)]). vm_compute. reflexivity. Qed.

Lemma demo_idle_state : ag_state (snd demo_idle) <> LINKED /\ offered (demo_env true 71) (snd demo_idle) (rz_nonce (rz_ demo_v)) = 71.
Proof. split; [vm_compute; discriminate | vm_compute; reflexivity]. Qed.

(** The exchange: a beacon, its answer, a keep-alive that is lost, and feedback. *)
Lemma demo_exchange : exists d v1 a1 answer v2 vw r v3,
  vrx_step demo_exp (d_of_Z 50) demo_h demo_v = Some (Some d, v1) /\ is_disc d = true /\
  RcAgent.step demo_cfg (demo_env true 71) (InFrame (o_frame d) 60) (snd demo_idle) = Some (a1, [ESend answer]) /\
  ground_rc_frame answer (d_of_Z 70) v1 = Some v2 /\ waiting demo_exp [(d_of_Z 100, demo_h)] v2 = Some vw /\
  vrx_step demo_exp (d_of_Z 150) demo_h vw = Some (Some r, v3) /\ is_disc r = false.
Proof.
  assert (H : match vrx_step demo_exp (d_of_Z 50) demo_h demo_v with
    | Some (Some d, v1) =>
        match RcAgent.step demo_cfg (demo_env true 71) (InFrame (o_frame d) 60) (snd demo_idle) with
        | Some (a1, [ESend answer]) =>
            match ground_rc_frame answer (d_of_Z 70) v1 with
            | Some v2 =>
                match waiting demo_exp [(d_of_Z 100, demo_h)] v2 with
                | Some vw =>
                    match vrx_step demo_exp (d_of_Z 150) demo_h vw with
                    | Some (Some r, v3) => is_disc d = true /\ is_disc r = false
                    | _ => False
                    end
                | None => False
                end
            | None => False
            end
        | _ => False
        end
    | _ => False
    end) by (vm_compute; split; reflexivity).
  destruct (vrx_step demo_exp (d_of_Z 50) demo_h demo_v) as [[[d|] v1]|]; try (destruct H; fail).
  destruct (RcAgent.step demo_cfg (demo_env true 71) (InFrame (o_frame d) 60) (snd demo_idle)) as [[a1 [|[] [|]]]|] eqn:Es; try (destruct H; fail).
  destruct (ground_rc_frame body (d_of_Z 70) v1) as [v2|] eqn:Eg; try (destruct H; fail).
  destruct (waiting demo_exp [(d_of_Z 100, demo_h)] v2) as [vw|] eqn:Ew; try (destruct H; fail).
  destruct (vrx_step demo_exp (d_of_Z 150) demo_h vw) as [[[r|] v3]|] eqn:Er; try (destruct H; fail).
  destruct H as [H1 H2]. exists d, v1, a1, body, v2, vw, r, v3. split; [reflexivity |]. split; [exact H1 |]. split; [exact Es |].
  split; [exact Eg |]. split; [exact Ew |]. split; [exact Er | exact H2].
Qed.

Lemma demo_wires : wires_typed (wires demo_v) /\ Forall is_byte (channels demo_cfg) /\ is_byte (RcPolicy.width demo_cfg) /\
  v_key (vcfg demo_v) = key demo_cfg /\ rz_vtx_nonce (rz_ demo_v) = None.
Proof.
  split; [| split; [decided | split; [decided | split; [vm_compute; reflexivity | vm_compute; reflexivity]]]].
  replace (wires demo_v) with (mkWires kDefaultLinkKey 3405643777 None 40 0 0 0 0 0) by (vm_compute; reflexivity).
  unfold wires_typed. cbn [w_key w_nonce w_proposal w_hop_ch w_hop_epoch w_rec w_idr w_snr]. split_all; first [lia | decided].
Qed.

Lemma pairing_links_witness : exists d v1 a1 answer r a2 es,
  vrx_step demo_exp (d_of_Z 50) demo_h demo_v = Some (Some d, v1) /\
  RcAgent.step demo_cfg (demo_env true 71) (InFrame (o_frame d) 60) (snd demo_idle) = Some (a1, [ESend answer]) /\
  RcAgent.step demo_cfg (demo_env true 0) (InFrame (o_frame r) 160) a1 = Some (a2, es) /\
  ag_state a2 = LINKED /\ s_vtx (current a2) = 71.
Proof.
  destruct demo_exchange as (d & v1 & a1 & answer & v2 & vw & r & v3 & E1 & D1 & E2 & E3 & E4 & E5 & D2).
  destruct demo_idle_state as [Hl Ho]. destruct demo_wires as (W1 & W2 & W3 & W4 & W5).
  assert (Hn : in_width 32 (offered (demo_env true 71) (snd demo_idle) (rz_nonce (rz_ demo_v)))) by (rewrite Ho; decided).
  destruct (pairing_links demo_exp demo_cfg 40 demo_a0 (snd demo_idle) (fst demo_idle) demo_v v1 d (demo_env true 71) 60 (d_of_Z 50)
    (d_of_Z 70) demo_h demo_init demo_idle_history Hl W2 W3 W4 W1 E1 D1 Hn) as (a1' & answer' & v2' & F1 & F2 & _ & _ & F3).
  { rewrite W5. discriminate. }
  rewrite E2 in F1. injection F1 as <- <-. rewrite E3 in F2. injection F2 as <-.
  destruct (F3 _ _ _ _ _ _ (demo_env true 0) 160 E4 E5 D2) as (a2 & es & G1 & G2 & _ & G3 & _).
  exists d, v1, a1, answer, r, a2, es. split; [exact E1 |]. split; [exact E2 |]. split; [exact G1 |]. split; [exact G2 |].
  rewrite G3. exact Ho.
Defined.

(** Beacon, answer, keep-alive, and three feedback frames. *)
Definition demo_answer : list Z := pack_disc_ack (mkDiscAck 3405643777 71 15 40 20 0 3).

Definition demo_vrx_calls : list VrxCall :=
  [ VStep (d_of_Z 50) demo_h; VFrame demo_answer (d_of_Z 70); VStep (d_of_Z 100) demo_h; VStep (d_of_Z 150) demo_h;
    VVideo (d_of_Z 160); VStep (d_of_Z 200) demo_h; VRestore 1 (d_of_Z 210); VStep (d_of_Z 250) demo_h ].

Lemma demo_sent : option_map (fun x => length (feedbacks (fst x))) (vrx_calls demo_exp demo_pow demo_vrx_calls demo_v) = Some 3%nat.
Proof. vm_compute. reflexivity. Qed.

Lemma demo_adoptions : adoptions (rz_nonce (rz_ demo_v)) None demo_vrx_calls = [71].
Proof. vm_compute. reflexivity. Qed.

Lemma ground_tags_exact_witness : exists os k,
  Forall2 (feedback_frame kDefaultLinkKey) (feedbacks os) (session_tags (rz_nonce (rz_ demo_v)) 0 71 k ++ []) /\ length (feedbacks os) = 3%nat.
Proof.
  assert (Hl : Forall (loadable demo_pow) demo_vrx_calls) by (repeat constructor).
  assert (Hlen : Z.of_nat (length demo_vrx_calls) < 2 ^ 32) by (cbn; lia).
  destruct (ground_tags_exact demo_exp demo_pow demo_vrx_cfg 1 demo_v demo_vrx_calls demo_new_vrx Hl Hlen) as (os & v & ks & E & Hk & HF & _).
  pose proof demo_sent as Hs. rewrite E in Hs. injection Hs as Hs. rewrite demo_adoptions in Hk, HF.
  destruct ks as [|k [|]]; try discriminate Hk. exists os, k. split; [exact HF | exact Hs].
Defined.
