(* ===== verification/HopVerdict.v ===== *)
(** * HopVerdict: is the channel jammed, or is the link fading? (gs/src/hop_verdict.cpp)

    One classification per window from the cards' energy readings and the link's own loss.
    Ratios and clocks are doubles.  The outer [None] is what the C++ leaves undefined: a window
    length of zero, or the median of no readings. *)
From S2P Require Import Prelude SwConfig RungStore.

(** ** Inputs and outputs *)

Inductive Verdict := Healthy | VFade | Interfered | VUnknown.

#[export] Instance verdict_eq_dec : EqDecision Verdict.
Proof. solve_decision. Defined.

Definition kEvImpaired : Z := 1.
Definition kEvWeak : Z := 2.
Definition kEvDetected : Z := 4.
Definition kEvBlocked : Z := 32.
Definition kEvOccupied : Z := 128.

Definition trigger_evidence (ev : Z) : bool := negb (Z.land ev (Z.lor kEvBlocked kEvDetected) =? 0).

Record HopVerdictCfg := mkHopVerdictCfg {
  loss_pct : double; recovered_x : double; recovered_min : Z;
  weak_rssi_dbm : Z; weak_snr_db : Z;
  occupied_windows : Z;
  detect_pct : double; detect_windows : Z; detect_impaired : Z;
}.

Record HopCfg := mkHopCfg {
  window_ms : Z; persist : Z; rank_visits : Z; rank_max_age_ms : Z;
  confirm_ms : Z; confirm_extend_ms : Z; verify_ms : Z; cooldown_ms : Z;
  max_hops_per_min : Z; backoff_ms : Z; one_card_repeats : Z;
  verdict_cfg : HopVerdictCfg;
}.

(** [BusyCfg]: the share of foreign airtime that makes a channel blocked. *)
Definition BusyCfg : Type := double.

Record VerdictCardIn := mkVerdictCardIn {
  c_valid : bool; rssi_dbm : double; snr_db : double; snr_valid : bool;
  busy_valid : bool; nhm_busy_pct : double; own_air_pct : double;
}.

Record VerdictLinkIn := mkVerdictLinkIn { pre_fec_loss : double; recovered : Z }.

Record VerdictOut := mkVerdictOut {
  vd : Verdict; evidence : Z; ref_rung : Z; trigger : bool; t_start_ms : double; t_ms : double;
  ref_frozen : bool; first_blocked : bool;
}.

(** ** State *)

Record DetectSlot := mkDetectSlot { reading : bool; foreign : double; lossy : bool }.

Record HopVerdict := mkHopVerdict {
  rec_hist_ : list double;
  frozen_ : bool;
  prev_ms_ : option double;
  seen_blocked_ : bool;
  ref_rec_ : double;
  ref_rung_ : Z;
  healthy_streak_ : Z;
  blocked_streak_ : Z;
  detect_ring_ : list DetectSlot;
  landed_ms_ : option double;
  recent_interfered_ : list bool;
}.

Definition new_verdict : HopVerdict := mkHopVerdict [] false None false d_zero (-1) 0 0 [] None [].

Definition verdict_reset (s : HopVerdict) : HopVerdict :=
  s {{ frozen_ := false ; ref_rec_ := d_zero ; ref_rung_ := -1 ; healthy_streak_ := 0 ; seen_blocked_ := false ;
       recent_interfered_ := [] ; blocked_streak_ := 0 ; detect_ring_ := [] ; landed_ms_ := None }}.

Definition verdict_new_session (s : HopVerdict) : HopVerdict :=
  s {{ blocked_streak_ := 0 ; detect_ring_ := [] ; landed_ms_ := None }}.

Definition verdict_landed (now_ms : double) (s : HopVerdict) : HopVerdict :=
  s {{ detect_ring_ := [] ; landed_ms_ := Some now_ms }}.

Definition remap_ref_rung (rung : Z) (s : HopVerdict) : HopVerdict :=
  if 0 <=? ref_rung_ s then s {{ ref_rung_ := rung }} else s.

Definition kHopSettleBlankMs : double := d_of_Z 150.

(** Units of the radio's raw readings. *)
Definition rssi_raw_to_dbm (raw : double) : double := if d_gtb raw d_zero then d_sub raw (d_of_Z 110) else d_zero.

(** A queue bounded by dropping its oldest. *)
Definition push_bounded {A} (n : nat) (x : A) (l : list A) : list A := drop (length (l ++ [x]) - n) (l ++ [x]).

Section Verdict.
Context (cfg : HopCfg) (busy : BusyCfg).

Local Abbreviation hv := (verdict_cfg cfg).

(** ** The detect ring *)

Fixpoint insert_sorted (x : double) (l : list double) : list double :=
  match l with [] => [x] | y :: l' => if d_ltb x y then x :: l else y :: insert_sorted x l' end.

Definition ascending (l : list double) : list double := fold_right insert_sorted [] l.

(** The median; with an even count, the mean of the two middle ones. *)
Definition median (l : list double) : option double :=
  let s := ascending l in
  let mid := (length l / 2)%nat in
  hi ← s !! mid;
  if (length l mod 2 =? 0)%nat then lo ← s !! (mid - 1)%nat; Some (d_div (d_add hi lo) (d_of_Z 2)) else Some hi.

Definition readings (ring : list DetectSlot) : list double :=
  omap (fun s => if reading s then Some (foreign s) else None) ring.

Definition n_lossy (ring : list DetectSlot) : Z := Z.of_nat (length (List.filter lossy ring)).

Definition ring_reads_detect (lossy_needed : Z) (ring : list DetectSlot) : option bool :=
  let fg := readings ring in
  if (n_lossy ring <? lossy_needed) || (Z.of_nat (length fg) <? Z.quot (detect_windows hv + 1) 2) then Some false
  else m ← median fg; Some (d_geb m (detect_pct hv)).

(** ** One window *)

(** The first of the strongest valid cards. *)
Fixpoint best_card (cards : list VerdictCardIn) (best : option VerdictCardIn) : option VerdictCardIn :=
  match cards with
  | [] => best
  | c :: cards =>
      let better := match best with None => true | Some b => d_gtb (rssi_dbm c) (rssi_dbm b) end in
      best_card cards (if c_valid c && better then Some c else best)
  end.

Definition foreign_pct (c : VerdictCardIn) : double := d_max (d_sub (nhm_busy_pct c) (own_air_pct c)) d_zero.

(** The least foreign reading over the cards that have one. *)
Definition min_foreign (cards : list VerdictCardIn) : option double :=
  fold_left (fun acc c =>
    if c_valid c && busy_valid c
    then Some (match acc with Some m => d_min m (foreign_pct c) | None => foreign_pct c end) else acc) cards None.

Definition rec_reference (s : HopVerdict) : double :=
  if frozen_ s then ref_rec_ s
  else match rec_hist_ s with
       | [] => d_zero
       | h => d_div (fold_left d_add h d_zero) (d_of_Z (Z.of_nat (length h)))
       end.

Definition loss_impaired (link : VerdictLinkIn) (rec_ref : double) : bool :=
  d_gtb (d_mul (pre_fec_loss link) d_hundred) (loss_pct hv) ||
  (d_gtb rec_ref d_zero && d_gtb (d_of_Z (recovered link)) (d_mul (recovered_x hv) rec_ref) &&
   (Z.max (recovered_min hv) 0 <=? recovered link)).

Definition weak_card (c : VerdictCardIn) : bool :=
  d_ltb (rssi_dbm c) (d_of_Z (weak_rssi_dbm hv)) && (negb (snr_valid c) || d_ltb (snr_db c) (d_of_Z (weak_snr_db hv))).

Definition flag (b : bool) (bit : Z) : Z := if b then bit else 0.

(** The terms of a window that the classification reads. *)
Record Terms := mkTerms {
  tm_blocked : bool; tm_reading : option double; tm_occupied : bool; tm_detected : bool; tm_loss : bool; tm_weak : bool;
}.

Definition impaired (t : Terms) : bool := tm_loss t || tm_occupied t || tm_detected t.

Definition classify (t : Terms) : Verdict :=
  if negb (impaired t) then Healthy
  else if tm_weak t then VFade
  else if tm_occupied t && tm_blocked t then Interfered
  else if tm_detected t && bool_decide (is_Some (tm_reading t)) then Interfered
  else VUnknown.

Definition evidence_of (t : Terms) : Z :=
  Z.lor (flag (impaired t) kEvImpaired) (Z.lor (flag (tm_weak t) kEvWeak) (Z.lor (flag (tm_detected t) kEvDetected)
    (Z.lor (flag (tm_blocked t) kEvBlocked) (flag (tm_occupied t) kEvOccupied)))).

(** The streak and the ring take the window; its terms. *)
Definition take_window (start_ms : double) (cards : list VerdictCardIn) (best : VerdictCardIn) (link : VerdictLinkIn)
    (s : HopVerdict) : option (Terms * HopVerdict) :=
  let m := min_foreign cards in
  let blocked := match m with Some p => d_geb p busy | None => false end in
  let s := match m with
           | Some _ => s {{ blocked_streak_ := if blocked then i32 (blocked_streak_ s + 1) else 0 }}
           | None => s
           end in
  let loss := loss_impaired link (rec_reference s) in
  let debris := match landed_ms_ s with Some t => d_ltb start_ms (d_add t kHopSettleBlankMs) | None => false end in
  let slot := mkDetectSlot (bool_decide (is_Some m)) (default d_zero m) (loss && negb debris) in
  let s := s {{ detect_ring_ := push_bounded (Z.to_nat (Z.max (detect_windows hv) 1)) slot (detect_ring_ s) }} in
  reads ← ring_reads_detect (detect_impaired hv) (detect_ring_ s);
  let detected := (Z.of_nat (length (detect_ring_ s)) =? u64 (detect_windows hv)) && reads in
  Some (mkTerms blocked m (occupied_windows hv <=? blocked_streak_ s) detected loss (weak_card best), s).

(** Freezing the references, and the rung-store's arming edge. *)
Definition freeze (t : Terms) (rec_ref : double) (rung : Z) (s : HopVerdict) : bool * HopVerdict :=
  let s := if impaired t && negb (frozen_ s) then s {{ frozen_ := true ; ref_rung_ := rung ; ref_rec_ := rec_ref }} else s in
  let lead_in := tm_blocked t || tm_detected t ||
                 (tm_loss t && match tm_reading t with Some p => d_geb p (detect_pct hv) | None => false end) in
  if impaired t && lead_in && negb (tm_weak t) && negb (seen_blocked_ s) then (true, s {{ seen_blocked_ := true }}) else (false, s).

(** Thawing after three healthy windows, unless a detection is in the making. *)
Definition thaw (v : Verdict) (s : HopVerdict) : option HopVerdict :=
  let s := s {{ healthy_streak_ := if bool_decide (v = Healthy) then i32 (healthy_streak_ s + 1) else 0 }} in
  if frozen_ s && (3 <=? healthy_streak_ s) then
    holds ← ring_reads_detect 1 (detect_ring_ s);
    Some (if (holds : bool) then s else s {{ frozen_ := false ; ref_rung_ := -1 ; seen_blocked_ := false }})
  else Some s.

Definition count_true (l : list bool) : Z := Z.of_nat (length (List.filter id l)).

Definition window (now_ms : double) (cards : list VerdictCardIn) (link : VerdictLinkIn) (rung : Z) (s : HopVerdict)
    : option (VerdictOut * HopVerdict) :=
  if window_ms cfg =? 0 then None
  else
    let hist_n := Z.to_nat (Z.max 1 (Z.quot 5000 (window_ms cfg))) in
    let start_ms := default now_ms (prev_ms_ s) in
    let s := s {{ prev_ms_ := Some now_ms }} in
    match best_card cards None with
    | None => Some (mkVerdictOut VUnknown 0 (-1) false start_ms now_ms (frozen_ s) false, s)
    | Some best =>
        let rec_ref := rec_reference s in
        x ← take_window start_ms cards best link s;
        let '(t, s) := x in
        let v := classify t in
        let '(first, s) := freeze t rec_ref rung s in
        s ← thaw v s;
        let s := if frozen_ s then s else s {{ rec_hist_ := push_bounded hist_n (d_of_Z (recovered link)) (rec_hist_ s) }} in
        let s := s {{ recent_interfered_ := push_bounded 3 (bool_decide (v = Interfered)) (recent_interfered_ s) }} in
        Some (mkVerdictOut v (evidence_of t) (ref_rung_ s) (persist cfg <=? count_true (recent_interfered_ s))
                start_ms now_ms (frozen_ s) first, s)
    end.

(** ** Steps *)

Inductive VerdictCall :=
| VWindow (now_ms : double) (cards : list VerdictCardIn) (link : VerdictLinkIn) (rung : Z)
| VReset | VNewSession | VLanded (now_ms : double).

(** A call: the output a window gives, and the next state. *)
Definition verdict_call (c : VerdictCall) (s : HopVerdict) : option (option VerdictOut * HopVerdict) :=
  match c with
  | VWindow now cards link rung => x ← window now cards link rung s; Some (Some x.1, x.2)
  | VReset => Some (None, verdict_reset s)
  | VNewSession => Some (None, verdict_new_session s)
  | VLanded now => Some (None, verdict_landed now s)
  end.

Fixpoint verdict_calls (cs : list VerdictCall) (s : HopVerdict) : option HopVerdict :=
  match cs with [] => Some s | c :: cs => x ← verdict_call c s; verdict_calls cs x.2 end.
End Verdict.

(** ** Proofs: interference is what the cards heard

    The streak and the ring of the classifier are functions of the windows since the run began;
    a window is [Interfered] exactly on one of two readings of them. *)

(** ** What the windows of a run heard *)

Definition last_n {A} (n : nat) (l : list A) : list A := drop (length l - n) l.

Definition heard (cards : list VerdictCardIn) : list (option double) :=
  if bool_decide (is_Some (best_card cards None)) then [min_foreign cards] else [].

(** The least foreign readings of the usable windows since the run began... *)
Definition run_of (acc : list (option double)) (c : VerdictCall) : list (option double) :=
  match c with VWindow _ cards _ _ => acc ++ heard cards | VLanded _ => acc | _ => [] end.

(** ... and since the last landing. *)
Definition settled_of (acc : list (option double)) (c : VerdictCall) : list (option double) :=
  match c with VWindow _ cards _ _ => acc ++ heard cards | _ => [] end.

Definition run_windows (cs : list VerdictCall) : list (option double) := fold_left run_of cs [].
Definition settled_windows (cs : list VerdictCall) : list (option double) := fold_left settled_of cs [].

(** ** Queues *)

Lemma push_bounded_last {A} n (x : A) l : push_bounded n x (last_n n l) = last_n n (l ++ [x]).
Proof.
  unfold push_bounded, last_n. rewrite <- (drop_app_le l [x]) by lia.
  rewrite length_drop, drop_drop, length_app. cbn. f_equal. lia.
Qed.

Lemma last_n_snoc {A} n (x : A) l : last_n (S n) (l ++ [x]) = last_n n l ++ [x].
Proof.
  unfold last_n. rewrite length_app. cbn. replace (length l + 1 - S n)%nat with (length l - n)%nat by lia.
  apply drop_app_le. lia.
Qed.

Lemma last_n_map {A B} (f : A -> B) n l : map f (last_n n l) = last_n n (map f l).
Proof. unfold last_n. rewrite length_map. symmetry. apply skipn_map. Qed.

Lemma last_n_length {A} n (l : list A) : length (last_n n l) = Nat.min n (length l).
Proof. unfold last_n. rewrite length_drop. lia. Qed.

(** ** The median *)

Lemma insert_sorted_perm x l : insert_sorted x l ≡ₚ x :: l.
Proof. induction l as [|y l IH]; cbn; [done |]. destruct (d_ltb x y); [done |]. rewrite IH. apply Permutation_swap. Qed.

Lemma sorted_perm l : ascending l ≡ₚ l.
Proof. induction l as [|x l IH]; [done |]. change (ascending (x :: l)) with (insert_sorted x (ascending l)). by rewrite insert_sorted_perm, IH. Qed.

Lemma median_some l : (0 < length l)%nat -> exists m, median l = Some m.
Proof.
  intros Hn. unfold median. pose proof (Permutation_length (sorted_perm l)) as Hlen.
  assert (Hget : forall k, (k < length l)%nat -> exists x, ascending l !! k = Some x).
  { intros k Hk. apply lookup_lt_is_Some_2. lia. }
  pose proof (Nat.div_lt (length l) 2 Hn ltac:(lia)) as Hd.
  destruct (Hget (length l / 2)%nat Hd) as (hi & ->). cbn [mbind option_bind].
  destruct (_ =? 0)%nat; [| eauto]. destruct (Hget (length l / 2 - 1)%nat) as (lo & ->); [lia |]. cbn. eauto.
Qed.

Section Verdict.
Context (cfg : HopCfg) (busy : BusyCfg).

Local Abbreviation hv := (verdict_cfg cfg).
Local Abbreviation window := (window cfg busy).
Local Abbreviation take_window := (take_window cfg busy).

Definition is_blocked (p : double) : bool := d_geb p busy.

(** ** The blocked streak *)

Definition streak (l : list double) : nat := fold_left (fun k p => if is_blocked p then S k else O) l O.

Lemma streak_snoc l p : streak (l ++ [p]) = if is_blocked p then S (streak l) else O.
Proof. unfold streak. by rewrite fold_left_app. Qed.


Lemma streak_spec n l : (n <= streak l)%nat <-> (n <= length l)%nat /\ Forall (fun p => is_blocked p = true) (last_n n l).
Proof.
  revert n. induction l as [|p l IH] using rev_ind; intros n.
  - cbn. split; [intros; split; [lia | constructor] | tauto].
  - rewrite streak_snoc, length_app. cbn. destruct n as [|n].
    { split; [| lia]. intros _. split; [lia |]. unfold last_n. rewrite drop_ge by lia. constructor. }
    rewrite last_n_snoc, Forall_app, Forall_singleton. destruct (is_blocked p).
    + rewrite <- Nat.succ_le_mono, IH. split; intros; split_all; try split; (lia || tauto).
    + split; [lia |]. intros (_ & _ & ?). discriminate.
Qed.

(** ** The state follows the windows *)

Definition ring_cap : nat := Z.to_nat (Z.max (detect_windows hv) 1).

Definition slot_reading (d : DetectSlot) : option double := if reading d then Some (foreign d) else None.

Record tracks (run settled : list (option double)) (s : HopVerdict) : Prop := {
  tr_streak : blocked_streak_ s = Z.of_nat (streak (omap id run));
  tr_ring : map slot_reading (detect_ring_ s) = last_n ring_cap settled;
}.

Lemma readings_slots ring : readings ring = omap id (map slot_reading ring).
Proof. unfold readings, slot_reading. induction ring as [|d ring IH]; [done |]. cbn. by rewrite IH. Qed.

Lemma streak_length l : (streak l <= length l)%nat.
Proof. apply (proj1 (streak_spec (streak l) l)). lia. Qed.

Lemma omap_length {A B} (f : A -> option B) l : (length (omap f l) <= length l)%nat.
Proof. induction l as [|x l IH]; cbn; [lia |]. destruct (f x); cbn; lia. Qed.

Lemma i32_small z : 0 <= z < 2 ^ 31 -> i32 z = z.
Proof.
  intros H. unfold sext. rewrite wrap_small by (unfold in_width; lia). change (32 - 1) with 31.
  by rewrite (proj2 (Z.ltb_lt _ _)) by lia.
Qed.

Lemma ring_full_nat ring settled : 1 <= detect_windows hv < 2 ^ 31 -> map slot_reading ring = last_n ring_cap settled ->
  (Z.of_nat (length ring) =? u64 (detect_windows hv)) = (detect_windows hv <=? Z.of_nat (length settled)).
Proof.
  intros Hd H. assert (Hl : length ring = Nat.min ring_cap (length settled)) by (by rewrite <- last_n_length, <- H, length_map).
  rewrite wrap_small by (unfold in_width; lia). unfold ring_cap in Hl.
  destruct (Z.leb_spec (detect_windows hv) (Z.of_nat (length settled))); [apply Z.eqb_eq | apply Z.eqb_neq]; lia.
Qed.

(** What a window's terms say of the windows. *)
Definition sustained (run : list (option double)) : Prop :=
  occupied_windows hv <= Z.of_nat (length (omap id run)) /\
  Forall (fun p => is_blocked p = true) (last_n (Z.to_nat (occupied_windows hv)) (omap id run)).

Definition confirmed (settled : list (option double)) (lossy_windows : Z) : Prop :=
  let fg := omap id (last_n (Z.to_nat (detect_windows hv)) settled) in
  detect_windows hv <= Z.of_nat (length settled) /\ detect_impaired hv <= lossy_windows /\
  Z.quot (detect_windows hv + 1) 2 <= Z.of_nat (length fg) /\
  exists m, median fg = Some m /\ d_geb m (detect_pct hv) = true.

Lemma ring_reads_exact needed ring b : ring_reads_detect cfg needed ring = Some b ->
  b = true <-> needed <= n_lossy ring /\ Z.quot (detect_windows hv + 1) 2 <= Z.of_nat (length (readings ring)) /\
    exists m, median (readings ring) = Some m /\ d_geb m (detect_pct hv) = true.
Proof.
  unfold ring_reads_detect. destruct (Z.ltb_spec (n_lossy ring) needed), (Z.ltb_spec (Z.of_nat (length (readings ring))) (Z.quot (detect_windows hv + 1) 2));
    cbn; try (intros [= <-]; split; [done | lia]).
  destruct (median (readings ring)) as [m|] eqn:E; cbn; [| discriminate]. intros [= <-]. split.
  - intros Hm. split_all; try done. by exists m.
  - intros (_ & _ & m' & [= ->] & ?). done.
Qed.

Lemma take_window_tracks run settled start cards best link s t s' :
  1 <= occupied_windows hv < 2 ^ 31 -> 1 <= detect_windows hv < 2 ^ 31 -> Z.of_nat (length run) < 2 ^ 31 - 1 ->
  tracks run settled s -> take_window start cards best link s = Some (t, s') ->
  let m := min_foreign cards in
  tracks (run ++ [m]) (settled ++ [m]) s' /\ tm_reading t = m /\ tm_weak t = weak_card cfg best /\
  tm_blocked t = match m with Some p => is_blocked p | None => false end /\
  (tm_occupied t = true <-> sustained (run ++ [m])) /\
  (tm_detected t = true <-> confirmed (settled ++ [m]) (n_lossy (detect_ring_ s'))).
Proof.
  intros Ho Hd Hlen [Hs Hr] E m. unfold HopVerdict.take_window in E. cbv zeta in E. fold m in E.
  apply bind_Some in E as (reads & Er & E). apply (inj Some) in E. injection E as <- <-. cbn.
  set (s1 := match m with Some _ => _ | None => s end) in *.
  assert (Hs1 : blocked_streak_ s1 = Z.of_nat (streak (omap id (run ++ [m]))) /\ detect_ring_ s1 = detect_ring_ s).
  { subst s1. pose proof (streak_length (omap id run)). pose proof (omap_length id run). rewrite omap_app.
    set (h := omap id run) in *. clearbody h. destruct m as [p|]; cbn; [| by rewrite app_nil_r].
    split; [| done]. rewrite streak_snoc. unfold is_blocked. destruct (d_geb p busy); [| done]. unfold constant. rewrite Hs, i32_small; eval_pow2; lia. }
  destruct Hs1 as [Hs1 Hd1]. rewrite Hd1 in *.
  match goal with |- context [push_bounded _ ?d _] => set (slot := d) in * end.
  set (ring := push_bounded _ slot (detect_ring_ s)) in *.
  assert (Hring : map slot_reading ring = last_n ring_cap (settled ++ [m])).
  { subst ring. fold ring_cap. unfold push_bounded. rewrite <- skipn_map, map_app, <- (length_map slot_reading), map_app, Hr.
    change (map slot_reading [slot]) with [slot_reading slot].
    replace (slot_reading slot) with m by (subst slot; unfold slot_reading; cbn; by destruct m).
    apply push_bounded_last. }
  split; [by split; [exact Hs1 | exact Hring] |]. split; [done |]. split; [done |]. split; [by destruct m |]. split.
  - enough (Ho1 : (occupied_windows hv <=? blocked_streak_ s1) = true <-> sustained (run ++ [m])) by exact Ho1.
    rewrite Z.leb_le, Hs1. unfold sustained.
    rewrite <- (Z2Nat.id (occupied_windows hv)) at 1 2 by lia. rewrite <- !Nat2Z.inj_le. apply streak_spec.
  - enough (Hd2 : (Z.of_nat (length ring) =? u64 (detect_windows hv)) && reads = true <->
                  confirmed (settled ++ [m]) (n_lossy ring)) by exact Hd2.
    change (ring_reads_detect cfg (detect_impaired hv) ring = Some reads) in Er.
    rewrite andb_true_iff, (ring_full_nat ring _ Hd Hring), Z.leb_le, (ring_reads_exact _ _ _ Er), readings_slots, Hring.
    unfold confirmed. replace ring_cap with (Z.to_nat (detect_windows hv)) by (unfold ring_cap; lia). cbv zeta. tauto.
Qed.

(** The references and the persistence leave the streak and the ring alone. *)
Definition same_hearing (s s' : HopVerdict) : Prop :=
  blocked_streak_ s' = blocked_streak_ s /\ detect_ring_ s' = detect_ring_ s /\ recent_interfered_ s' = recent_interfered_ s.

Lemma tracks_same run settled s s' :
  blocked_streak_ s' = blocked_streak_ s -> detect_ring_ s' = detect_ring_ s -> tracks run settled s -> tracks run settled s'.
Proof. intros E1 E2 [H1 H2]. split; [by rewrite E1 | by rewrite E2]. Qed.

Lemma freeze_hearing t r rung s : same_hearing s (freeze cfg t r rung s).2.
Proof. unfold freeze. cbv zeta. by repeat case_match. Qed.

Lemma thaw_hearing v s s' : thaw cfg v s = Some s' -> same_hearing s s'.
Proof.
  unfold thaw. cbv zeta. case_match; [| by intros [= <-]].
  intros E. apply bind_Some in E as (b & _ & E). apply (inj Some) in E. subst s'. by destruct b.
Qed.

Lemma same_hearing_trans s1 s2 s3 : same_hearing s1 s2 -> same_hearing s2 s3 -> same_hearing s1 s3.
Proof. unfold same_hearing. intros (-> & -> & ->) (-> & -> & ->). done. Qed.

Lemma take_window_recent start cards best link s t s' :
  take_window start cards best link s = Some (t, s') -> recent_interfered_ s' = recent_interfered_ s.
Proof.
  unfold HopVerdict.take_window. cbv zeta. intros E. apply bind_Some in E as (b & _ & E). apply (inj Some) in E.
  injection E as _ <-. cbn. by destruct (min_foreign cards).
Qed.

(** The window's terms, read off the windows of the run. *)
Record terms_exact (run settled : list (option double)) (cards : list VerdictCardIn) (best : VerdictCardIn)
    (lossy_windows : Z) (t : Terms) : Prop := {
  te_reading : tm_reading t = min_foreign cards;
  te_weak : tm_weak t = weak_card cfg best;
  te_blocked : tm_blocked t = match min_foreign cards with Some p => is_blocked p | None => false end;
  te_occupied : tm_occupied t = true <-> sustained (run ++ [min_foreign cards]);
  te_detected : tm_detected t = true <-> confirmed (settled ++ [min_foreign cards]) lossy_windows;
}.

Lemma window_tracks run settled now cards link rung s o s' :
  1 <= occupied_windows hv < 2 ^ 31 -> 1 <= detect_windows hv < 2 ^ 31 -> Z.of_nat (length run) < 2 ^ 31 - 1 ->
  tracks run settled s -> window now cards link rung s = Some (o, s') ->
  tracks (run ++ heard cards) (settled ++ heard cards) s' /\
  match best_card cards None with
  | None => vd o = VUnknown /\ trigger o = false /\ evidence o = 0 /\ recent_interfered_ s' = recent_interfered_ s
  | Some best => exists t, terms_exact run settled cards best (n_lossy (detect_ring_ s')) t /\
      vd o = classify t /\ evidence o = evidence_of t /\
      recent_interfered_ s' = push_bounded 3 (bool_decide (classify t = Interfered)) (recent_interfered_ s) /\
      trigger o = (persist cfg <=? count_true (recent_interfered_ s'))
  end.
Proof.
  intros Ho Hd Hlen Ht E. unfold HopVerdict.window in E. cbv zeta in E.
  destruct (window_ms cfg =? 0); [discriminate |]. unfold heard.
  destruct (best_card cards None) as [best|]; cycle 1.
  { apply (inj Some) in E. injection E as <- <-. cbn. rewrite !app_nil_r. split; [| done].
    revert Ht. by apply tracks_same. }
  rewrite bool_decide_eq_true_2 by done.
  apply bind_Some in E as ([t s1] & Etake & E).
  set (s0 := s {{ prev_ms_ := Some now }}) in *.
  assert (H0 : tracks run settled s0) by (revert Ht; by apply tracks_same).
  pose proof (take_window_recent _ _ _ _ _ _ _ Etake) as Hrec.
  destruct (take_window_tracks run settled _ _ _ _ s0 _ _ Ho Hd Hlen H0 Etake) as (Ht1 & F1 & F2 & F3 & F4 & F5).
  cbn beta iota in E. pose proof (freeze_hearing t (rec_reference s0) rung s1) as Hf. revert E Hf.
  destruct (freeze cfg t (rec_reference s0) rung s1) as [first s2]. cbn [snd]. intros E Hf.
  apply bind_Some in E as (s3 & Eth & E). pose proof (thaw_hearing _ _ _ Eth) as Hth.
  apply (inj Some) in E. injection E as <- <-.
  set (s4 := if frozen_ s3 then s3 else _).
  assert (H4 : same_hearing s1 s4).
  { apply (same_hearing_trans _ s2); [done |]. apply (same_hearing_trans _ s3); [done |].
    subst s4. by destruct (frozen_ s3). }
  assert (E4 : recent_interfered_ s4 = recent_interfered_ s) by (destruct H4 as (_ & _ & ->); exact Hrec).
  split.
  - destruct H4 as (E1 & E2 & _). apply (tracks_same _ _ s1); [exact E1 | exact E2 | exact Ht1].
  - exists t. split.
    + split; try done. destruct H4 as (_ & E & _).
      enough (Hx : tm_detected t = true <-> confirmed (settled ++ [min_foreign cards]) (n_lossy (detect_ring_ s4))) by exact Hx.
      rewrite E. exact F5.
    + split; [reflexivity |]. split; [reflexivity |]. split; [| reflexivity].
      exact (f_equal (push_bounded 3 (bool_decide (classify t = Interfered))) E4).
Qed.

(** ** Every window returns *)

Lemma ring_reads_some needed ring : 1 <= detect_windows hv -> exists b, ring_reads_detect cfg needed ring = Some b.
Proof.
  intros Hd. unfold ring_reads_detect. destruct (n_lossy ring <? needed); [eauto |]. cbn [orb].
  destruct (Z.ltb_spec (Z.of_nat (length (readings ring))) (Z.quot (detect_windows hv + 1) 2)) as [|Hn]; [eauto |].
  assert (1 <= Z.quot (detect_windows hv + 1) 2) by (apply Z.quot_le_lower_bound; lia).
  destruct (median_some (readings ring)) as [m ->]; [lia |]. cbn. eauto.
Qed.

Lemma window_returns now cards link rung s : window_ms cfg <> 0 -> 1 <= detect_windows hv -> exists x, window now cards link rung s = Some x.
Proof.
  intros Hw Hd. unfold HopVerdict.window. rewrite (proj2 (Z.eqb_neq _ _)) by done. cbv zeta. set (s0 := s {{ prev_ms_ := Some now }}).
  destruct (best_card cards None) as [best|]; [| eauto].
  assert (Ht : exists t s1, take_window (default now (prev_ms_ s)) cards best link s0 = Some (t, s1)).
  { unfold HopVerdict.take_window. cbv zeta. match goal with |- context [ring_reads_detect cfg ?n ?r] => destruct (ring_reads_some n r Hd) as [b ->] end.
    cbn [mbind option_bind]. eauto. }
  destruct Ht as (t & s1 & ->). cbn [mbind option_bind]. destruct (freeze cfg t (rec_reference s0) rung s1) as [first s2].
  assert (Hs : exists s3, thaw cfg (classify t) s2 = Some s3).
  { unfold thaw. cbv zeta. destruct (_ && _); [| eauto].
    match goal with |- context [ring_reads_detect cfg ?n ?r] => destruct (ring_reads_some n r Hd) as [b ->] end. cbn [mbind option_bind]. eauto. }
  destruct Hs as (s3 & ->). cbn [mbind option_bind]. eauto.
Qed.

(** ** Histories *)

Local Abbreviation verdict_call := (verdict_call cfg busy).
Local Abbreviation verdict_calls := (verdict_calls cfg busy).

Lemma verdict_calls_snoc cs c s : verdict_calls (cs ++ [c]) s = s1 ← verdict_calls cs s; x ← verdict_call c s1; Some x.2.
Proof.
  revert s. induction cs as [|d cs IH]; intros s; cbn; [by destruct (verdict_call c s) |].
  destruct (verdict_call d s) as [[o s1]|]; cbn; [apply IH | done].
Qed.

Lemma run_windows_length cs : (length (run_windows cs) <= length cs)%nat.
Proof.
  unfold run_windows. induction cs as [|c cs IH] using rev_ind; [done |].
  rewrite fold_left_app, length_app. cbn. destruct c; cbn; try lia.
  rewrite length_app. unfold heard. case_bool_decide; cbn; lia.
Qed.

Lemma verdict_tracks cs s :
  1 <= occupied_windows hv < 2 ^ 31 -> 1 <= detect_windows hv < 2 ^ 31 -> Z.of_nat (length cs) < 2 ^ 31 - 1 ->
  verdict_calls cs new_verdict = Some s -> tracks (run_windows cs) (settled_windows cs) s.
Proof.
  intros Ho Hd. revert s. induction cs as [|c cs IH] using rev_ind; intros s Hlen E.
  { cbn in E. apply (inj Some) in E. subst s. by split. }
  rewrite verdict_calls_snoc in E. apply bind_Some in E as (s1 & E1 & E). apply bind_Some in E as ([o s2] & E2 & E).
  rewrite length_app in Hlen. cbn in Hlen. apply (inj Some) in E. cbn in E. subst s2.
  specialize (IH s1 ltac:(lia) E1). unfold run_windows, settled_windows. rewrite !fold_left_app. cbn [fold_left].
  fold (run_windows cs) (settled_windows cs).
  destruct c as [now cards link rung| | |now]; cbn [HopVerdict.verdict_call] in E2.
  - apply bind_Some in E2 as ([o1 s2] & Ew & E2). apply (inj Some) in E2. injection E2 as _ <-.
    pose proof (run_windows_length cs) as Hl.
    assert (B : Z.of_nat (length (run_windows cs)) < 2 ^ 31 - 1) by lia.
    exact (proj1 (window_tracks _ _ _ _ _ _ _ _ _ Ho Hd B IH Ew)).
  - apply (inj Some) in E2. injection E2 as _ <-. by split.
  - apply (inj Some) in E2. injection E2 as _ <-. by split.
  - apply (inj Some) in E2. injection E2 as _ <-. destruct IH as [H1 _]. by split.
Qed.

(** A window is [Interfered] exactly when its best card is not weak, some card reads foreign
    airtime in it, and either the last [occupied_windows] readings of the run all stood at the blocked
    share, or the last [detect_windows] windows since the landing are there, enough of them lossy,
    at least half with a reading, and their median reading at the detect share. *)
Theorem interfered_exact cs s now cards link rung o s' :
  1 <= occupied_windows hv < 2 ^ 31 -> 1 <= detect_windows hv < 2 ^ 31 -> Z.of_nat (length cs) < 2 ^ 31 - 1 ->
  verdict_calls cs new_verdict = Some s -> window now cards link rung s = Some (o, s') ->
  vd o = Interfered <->
  exists best p, best_card cards None = Some best /\ weak_card cfg best = false /\ min_foreign cards = Some p /\
    (sustained (run_windows cs ++ [Some p]) \/
     confirmed (settled_windows cs ++ [Some p]) (n_lossy (detect_ring_ s'))).
Proof.
  intros Ho Hd Hlen E Ew. pose proof (verdict_tracks cs s Ho Hd Hlen E) as Ht.
  pose proof (run_windows_length cs) as Hl.
  assert (B : Z.of_nat (length (run_windows cs)) < 2 ^ 31 - 1) by lia.
  destruct (window_tracks _ _ _ _ _ _ _ _ _ Ho Hd B Ht Ew) as [_ Hx].
  destruct (best_card cards None) as [best|]; cycle 1.
  { destruct Hx as (-> & _). split; [discriminate | intros (b & p & ? & _); discriminate]. }
  destruct Hx as (t & [T1 T2 T3 T4 T5] & -> & _).
  assert (Hlast : forall p, min_foreign cards = Some p -> sustained (run_windows cs ++ [Some p]) -> is_blocked p = true).
  { intros p _ [_ Hf]. rewrite omap_app in Hf. cbn in Hf.
    replace (Z.to_nat (occupied_windows hv)) with (S (Z.to_nat (occupied_windows hv - 1))) in Hf by lia.
    rewrite last_n_snoc in Hf. apply Forall_app in Hf as [_ Hf]. exact (Forall_inv Hf). }
  unfold classify, impaired. rewrite T1, T2, T3 in *.
  destruct (min_foreign cards) as [p|]; cycle 1.
  { split; [| intros (b & p & _ & _ & ? & _); discriminate].
    rewrite bool_decide_eq_false_2 by (by intros [? ?]).
    destruct (weak_card cfg best), (tm_loss t), (tm_occupied t), (tm_detected t); discriminate. }
  specialize (Hlast p eq_refl). rewrite bool_decide_eq_true_2 by done. split.
  - intros Hv. exists best, p. repeat split_and; try done.
    + by destruct (weak_card cfg best), (tm_loss t), (tm_occupied t), (tm_detected t).
    + rewrite <- T4, <- T5. destruct (tm_loss t), (tm_occupied t), (tm_detected t), (weak_card cfg best), (is_blocked p); cbn in Hv; auto; discriminate.
  - intros (b & q & [= <-] & Hw & [= <-] & Hr). rewrite Hw. destruct (tm_occupied t) eqn:Eo.
    + rewrite Hlast by (by apply T4). by rewrite orb_true_r.
    + destruct Hr as [Hr | Hr]; [by apply T4 in Hr |]. apply T5 in Hr. rewrite Hr. by rewrite !orb_true_r.
Qed.
End Verdict.
