(* ===== verification/HopController.v ===== *)
(** * HopController: ordering a hop, and whether it stands (gs/src/hop_controller.cpp)

    A verdict's trigger becomes an order carried in every feedback frame; video on the target
    confirms it, a verify window judges it, and channels left or failed are backed off.  Clocks
    are doubles; the power of the C library is a parameter. *)
From S2P Require Import Prelude SwConfig RungStore HopVerdict.

(** ** Data *)

Inductive HopState := HsIdle | HsOrdered | HsVerifying | HsHold.

#[export] Instance hop_state_eq_dec : EqDecision HopState.
Proof. solve_decision. Defined.

Record HopTick := mkHopTick {
  now_ms : double;
  verdict : VerdictOut;
  best : option Z;
  best_score : Z;
  video_on_target : bool;
  rcf_sent_since_order : Z;
  cur_op : Z;
  n_cards : Z;
  tick_lead_card : Z;
  relocate : bool;
  tick_no_verify : bool;
  escape : option Z;
  escape_score : Z;
}.

Inductive ActionKind := ActNone | ActOrder | ActOneCardRetune | ActConfirm | ActWithdraw | ActHold | ActVerifyPass.

#[export] Instance action_kind_eq_dec : EqDecision ActionKind.
Proof. solve_decision. Defined.

Record HopAction := mkHopAction { kind : ActionKind; target : Z; act_epoch : Z; restore_rung_to : Z; act_lead_card : Z }.

Definition HopAction0 : HopAction := mkHopAction ActNone 0 0 (-1) (-1).

Inductive EventKind :=
| KSessionLost | KOrder | KRelocate | KEscape | KLeadConfirm | KOneCardRetune | KConfirmExtend | KVerifyPass | KVerifyFail
| KWithdraw | KWithdrawUndelivered | KHoldCap | KHoldExhausted | KHoldEnd.

Record HopEvent := mkHopEvent {
  he_t_ms : double; he_kind : EventKind; he_epoch : Z; he_target : Z; he_score : Z; he_elapsed_ms : double;
}.

Inductive BackoffWhy := Fled | Failed | Undelivered.

#[export] Instance backoff_why_eq_dec : EqDecision BackoffWhy.
Proof. solve_decision. Defined.

Record Backoff := mkBackoff { until_ms : double; bk : Z; bwhy : BackoffWhy }.

Record Hop := mkHop {
  state_ : HopState;
  hop_ch_ : Z;
  epoch_ : Z;
  order_ms_ : double;
  verify_start_ : double;
  last_confirm_ms_ : double;
  hops_ : Z;
  holds_ : Z;
  one_card_retuned_ : bool;
  confirm_extended_ : bool;
  no_verify_ : bool;
  hold_start_ms_ : double;
  backoff_ : gmap Z Backoff;
  hop_times_ : list double;
  events_ : list HopEvent;
}.

Definition new_hop : Hop := mkHop HsIdle 0 0 d_zero d_zero kNever 0 0 false false false d_zero ∅ [] [].

Definition kMinuteMs : double := d_of_Z 60000.
Definition kMaxBackoffMs : double := d_of_Z 300000.

Section Hop.
Context (pow : double -> double -> double) (cfg : HopCfg).

(** ** Parts *)

Definition log_event (t : double) (k : EventKind) (ch score : Z) (elapsed : double) (s : Hop) : Hop :=
  s {{ events_ ::= (fun l => l ++ [mkHopEvent t k (epoch_ s) ch score elapsed]) }}.

Definition back_off (ch : Z) (now : double) (why : BackoffWhy) (s : Hop) : Hop :=
  let k := match backoff_ s !! ch with Some b => bk b + 1 | None => 1 end in
  let dur := d_mul (d_of_Z (backoff_ms cfg)) (pow (d_of_Z 2) (d_of_Z (k - 1))) in
  let dur := if d_gtb dur kMaxBackoffMs then kMaxBackoffMs else dur in
  s {{ backoff_ ::= <[ch := mkBackoff (d_add now dur) k why]> }}.

Definition flee (ch : Z) (now : double) (s : Hop) : Hop := back_off ch now Fled s.

Definition is_backed_off (ch : Z) (now : double) (s : Hop) : bool :=
  match backoff_ s !! ch with Some b => d_gtb (until_ms b) now | None => false end.

(** The reading is a hop route's, and the channel did not fail. *)
Definition escape_allowed (i : HopTick) (s : Hop) : bool :=
  match escape i with
  | Some e =>
      trigger_evidence (evidence (verdict i)) &&
      negb match backoff_ s !! e with
           | Some b => d_gtb (until_ms b) (now_ms i) && bool_decide (bwhy b = Failed)
           | None => false
           end
  | None => false
  end.

(** Orders over a minute old leave the front of the queue. *)
Fixpoint prune (now : double) (ts : list double) : list double :=
  match ts with t :: ts' => if d_gtb (d_sub now t) kMinuteMs then prune now ts' else ts | [] => [] end.

Definition prune_hop_times (now : double) (s : Hop) : Hop := s {{ hop_times_ ::= prune now }}.

Definition capped (s : Hop) : bool := max_hops_per_min cfg <=? Z.of_nat (length (hop_times_ s)).

Definition hop_cap_reached (now : double) (s : Hop) : bool :=
  max_hops_per_min cfg <=? Z.of_nat (length (List.filter (fun t => d_leb (d_sub now t) kMinuteMs) (hop_times_ s))).

Definition order (ch restore lead score : Z) (now : double) (k : EventKind) (s : Hop) : HopAction * Hop :=
  let s := s {{ epoch_ ::= (fun e => u8 (e + 1)) ; hop_ch_ := ch ; state_ := HsOrdered ; order_ms_ := now ;
                one_card_retuned_ := false ; confirm_extended_ := false ; no_verify_ := false ;
                hop_times_ ::= (fun l => l ++ [now]) }} in
  (mkHopAction ActOrder ch (epoch_ s) restore lead, log_event now k ch score d_zero s).

Definition withdraw (restore_to : Z) (now : double) (extended : bool) (s : Hop) : HopAction * Hop :=
  let failed := hop_ch_ s in
  let s := back_off failed now (if extended then Undelivered else Failed) s in
  let s := s {{ epoch_ ::= (fun e => u8 (e + 1)) ; hop_ch_ := restore_to ; state_ := HsIdle }} in
  (mkHopAction ActWithdraw restore_to (epoch_ s) (-1) (-1),
   log_event now (if extended then KWithdrawUndelivered else KWithdraw) failed 0 (d_sub now (order_ms_ s)) s).

Definition enter_hold (now : double) (why : EventKind) (ch : Z) (elapsed : double) (s : Hop) : HopAction * Hop :=
  (HopAction0 {{ kind := ActHold }},
   if bool_decide (state_ s = HsHold) then s
   else log_event now why ch 0 elapsed
          (s {{ state_ := HsHold ; hold_start_ms_ := now ; holds_ ::= (fun h => u32 (h + 1)) }})).

Definition leave_hold (now : double) (op : Z) (s : Hop) : Hop :=
  if bool_decide (state_ s = HsHold)
  then log_event now KHoldEnd op 0 (d_sub now (hold_start_ms_ s)) (s {{ state_ := HsIdle }}) else s.

(** The verify window closed: the hop stands. *)
Definition verify_pass (now : double) (s : Hop) : HopAction * Hop :=
  let landed := hop_ch_ s in
  let s := s {{ backoff_ ::= delete landed ; state_ := HsIdle ; last_confirm_ms_ := now ; hops_ ::= (fun h => u32 (h + 1)) }} in
  (mkHopAction ActVerifyPass landed (epoch_ s) (-1) (-1), log_event now KVerifyPass landed 0 (d_sub now (verify_start_ s)) s).

(** ** The tick *)

Definition idle_tick (i : HopTick) (s : Hop) : HopAction * Hop :=
  let now := now_ms i in
  if negb (trigger (verdict i)) then (HopAction0, leave_hold now (cur_op i) s)
  else if negb (relocate i) && d_ltb (d_sub now (last_confirm_ms_ s)) (d_of_Z (cooldown_ms cfg)) then (HopAction0, s)
  else
    let s := prune_hop_times now s in
    if capped s then enter_hold now KHoldCap (cur_op i) d_zero s
    else
      match best i with
      | Some b =>
          let s := leave_hold now (cur_op i) s in
          let s := if relocate i then s else flee (cur_op i) now s in
          let '(a, s) := order b (ref_rung (verdict i)) (tick_lead_card i) (best_score i) now
                           (if relocate i then KRelocate else KOrder) s in
          (a, s {{ no_verify_ := relocate i && tick_no_verify i }})
      | None =>
          if escape_allowed i s then
            let s := flee (cur_op i) now (leave_hold now (cur_op i) s) in
            order (default 0 (escape i)) (ref_rung (verdict i)) (tick_lead_card i) (escape_score i) now KEscape s
          else enter_hold now KHoldExhausted (cur_op i) d_zero s
      end.

Definition ordered_tick (i : HopTick) (s : Hop) : HopAction * Hop :=
  let now := now_ms i in
  let age := d_sub now (order_ms_ s) in
  if video_on_target i then
    let s := s {{ state_ := HsVerifying ; verify_start_ := now }} in
    (mkHopAction ActConfirm (hop_ch_ s) (epoch_ s) (-1) (-1), log_event now KLeadConfirm (hop_ch_ s) 0 age s)
  else if (n_cards i =? 1) && negb (one_card_retuned_ s) && (one_card_repeats cfg <=? rcf_sent_since_order i) then
    let s := s {{ one_card_retuned_ := true }} in
    (mkHopAction ActOneCardRetune (hop_ch_ s) (epoch_ s) (-1) (-1), log_event now KOneCardRetune (hop_ch_ s) 0 age s)
  else if d_geb age (d_of_Z (confirm_ms cfg)) then
    let engage := confirm_extended_ s || trigger_evidence (evidence (verdict i)) in
    if (confirm_ms cfg <? confirm_extend_ms cfg) && engage && d_ltb age (d_of_Z (confirm_extend_ms cfg)) then
      (HopAction0,
       if confirm_extended_ s then s else log_event now KConfirmExtend (hop_ch_ s) 0 age (s {{ confirm_extended_ := true }}))
    else withdraw (cur_op i) now (confirm_extended_ s) s
  else (HopAction0, s).

(** The verdict was measured after the landing had settled. *)
Definition measured_after_landing (i : HopTick) (s : Hop) : bool :=
  d_geb (t_start_ms (verdict i)) (d_add (verify_start_ s) kHopSettleBlankMs).

Definition verify_fail (i : HopTick) (s : Hop) : HopAction * Hop :=
  let now := now_ms i in
  let failed := hop_ch_ s in
  let s := back_off failed now Failed s in
  let next := match best i with Some b => if is_backed_off b now s then None else Some b | None => None end in
  let hold k s := enter_hold now k failed (d_sub now (verify_start_ s)) s in
  match next with
  | Some b =>
      let s := prune_hop_times now s in
      if capped s then hold KHoldCap s
      else order b (ref_rung (verdict i)) (tick_lead_card i) (best_score i) now KVerifyFail s
  | None =>
      if escape_allowed i s && negb (bool_decide (escape i = Some failed)) then
        let s := prune_hop_times now s in
        if capped s then hold KHoldCap s
        else order (default 0 (escape i)) (ref_rung (verdict i)) (tick_lead_card i) (escape_score i) now KEscape s
      else hold KVerifyFail s
  end.

Definition verifying_tick (i : HopTick) (s : Hop) : HopAction * Hop :=
  if no_verify_ s then verify_pass (now_ms i) s
  else if bool_decide (vd (verdict i) = Interfered) && measured_after_landing i s then verify_fail i s
  else if d_geb (d_sub (now_ms i) (verify_start_ s)) (d_of_Z (verify_ms cfg)) then verify_pass (now_ms i) s
  else (HopAction0, s).

Definition tick (i : HopTick) (s : Hop) : HopAction * Hop :=
  match state_ s with
  | HsIdle | HsHold => idle_tick i s
  | HsOrdered => ordered_tick i s
  | HsVerifying => verifying_tick i s
  end.

(** ** The rest *)

Definition on_session_lost (now : double) (op : Z) (s : Hop) : HopAction * Hop :=
  match state_ s with
  | HsOrdered =>
      let failed := hop_ch_ s in
      let s := back_off failed now Failed s in
      let s := s {{ epoch_ ::= (fun e => u8 (e + 1)) ; hop_ch_ := op ; state_ := HsIdle }} in
      (mkHopAction ActWithdraw op (epoch_ s) (-1) (-1), log_event now KSessionLost failed 0 (d_sub now (order_ms_ s)) s)
  | HsVerifying =>
      (HopAction0, log_event now KSessionLost (hop_ch_ s) 0 (d_sub now (verify_start_ s)) (s {{ state_ := HsIdle }}))
  | _ => (HopAction0, s)
  end.

Definition backed_off (now : double) (s : Hop) : list Z :=
  omap (fun p => if d_gtb (until_ms p.2) now then Some p.1 else None) (map_to_list (backoff_ s)).

Definition backed_off_failed (now : double) (s : Hop) : list Z :=
  omap (fun p => if d_gtb (until_ms p.2) now && bool_decide (bwhy p.2 = Failed) then Some p.1 else None) (map_to_list (backoff_ s)).

Definition take_events (s : Hop) : list HopEvent * Hop := (events_ s, s {{ events_ := [] }}).

(** ** Steps *)

Inductive HopCall := HTick (i : HopTick) | HSessionLost (now : double) (op : Z) | HTakeEvents.

Definition hop_call (c : HopCall) (s : Hop) : HopAction * Hop :=
  match c with
  | HTick i => tick i s
  | HSessionLost now op => on_session_lost now op s
  | HTakeEvents => (HopAction0, snd (take_events s))
  end.

Fixpoint hop_calls (cs : list HopCall) (s : Hop) : list HopAction * Hop :=
  match cs with
  | [] => ([], s)
  | c :: cs => let '(a, s) := hop_call c s in let '(acts, s) := hop_calls cs s in (a :: acts, s)
  end.
End Hop.

(** ** Proofs: the hop controller keeps its protocol

    What the controller tells the rest of the ground station, as a protocol of actions; the cap on
    orders; and the channels it never orders. *)

Lemma of_pair {A B} (P : A -> B -> Prop) x a b : x = (a, b) -> P x.1 x.2 -> P a b.
Proof. by intros ->. Qed.

Section Hop.
Context (pow : double -> double -> double) (cfg : HopCfg).

Local Abbreviation tick := (tick pow cfg).
Local Abbreviation hop_call := (hop_call pow cfg).
Local Abbreviation hop_calls := (hop_calls pow cfg).

(** ** The protocol *)

(** No order out; an order out, with its one-card retune done or not; landed, not yet judged. *)
Inductive Phase := Free | Open (retuned : bool) | Landed.

(** The phase with the standing target and its epoch. *)
Definition Standing : Type := Phase * Z * Z.

Definition standing (s : Hop) : Standing :=
  (match state_ s with HsOrdered => Open (one_card_retuned_ s) | HsVerifying => Landed | _ => Free end, hop_ch_ s, epoch_ s).

Definition no_order_out (p : Phase) : Prop := match p with Open _ => False | _ => True end.

Inductive protocol : Standing -> HopCall -> HopAction -> Standing -> Prop :=
| ProtoQuiet x c : protocol x c HopAction0 x
| ProtoOrder p ch ep i a t :
    no_order_out p -> kind a = ActOrder -> target a = t -> act_epoch a = u8 (ep + 1) ->
    best i = Some t \/ escape i = Some t -> act_lead_card a = tick_lead_card i -> restore_rung_to a = ref_rung (verdict i) ->
    protocol (p, ch, ep) (HTick i) a (Open false, t, u8 (ep + 1))
| ProtoRetune ch ep i :
    n_cards i = 1 -> one_card_repeats cfg <= rcf_sent_since_order i ->
    protocol (Open false, ch, ep) (HTick i) (mkHopAction ActOneCardRetune ch ep (-1) (-1)) (Open true, ch, ep)
| ProtoConfirm b ch ep i :
    video_on_target i = true ->
    protocol (Open b, ch, ep) (HTick i) (mkHopAction ActConfirm ch ep (-1) (-1)) (Landed, ch, ep)
| ProtoWithdraw b ch ep i :
    video_on_target i = false ->
    protocol (Open b, ch, ep) (HTick i) (mkHopAction ActWithdraw (cur_op i) (u8 (ep + 1)) (-1) (-1)) (Free, cur_op i, u8 (ep + 1))
| ProtoLost b ch ep now op :
    protocol (Open b, ch, ep) (HSessionLost now op) (mkHopAction ActWithdraw op (u8 (ep + 1)) (-1) (-1)) (Free, op, u8 (ep + 1))
| ProtoDropped ch ep now op : protocol (Landed, ch, ep) (HSessionLost now op) HopAction0 (Free, ch, ep)
| ProtoPass ch ep i : protocol (Landed, ch, ep) (HTick i) (mkHopAction ActVerifyPass ch ep (-1) (-1)) (Free, ch, ep)
| ProtoHold p ch ep i :
    no_order_out p -> protocol (p, ch, ep) (HTick i) (HopAction0 {{ kind := ActHold }}) (Free, ch, ep).

Inductive protocol_run : Standing -> list HopCall -> list HopAction -> Standing -> Prop :=
| ProtoNil x : protocol_run x [] [] x
| ProtoCons x c a y cs acts z : protocol x c a y -> protocol_run y cs acts z -> protocol_run x (c :: cs) (a :: acts) z.

Lemma order_protocol i p ch t score now k s :
  no_order_out p -> best i = Some t \/ escape i = Some t ->
  protocol (p, ch, epoch_ s) (HTick i) (order t (ref_rung (verdict i)) (tick_lead_card i) score now k s).1
    (standing (order t (ref_rung (verdict i)) (tick_lead_card i) score now k s).2).
Proof. intros Hp Ht. by apply ProtoOrder. Qed.

Lemma leave_hold_epoch now op s : epoch_ (leave_hold now op s) = epoch_ s.
Proof. unfold leave_hold. by case_bool_decide. Qed.

Lemma free_standing s : state_ s = HsIdle \/ state_ s = HsHold -> standing s = (Free, hop_ch_ s, epoch_ s).
Proof. unfold standing. by intros [-> | ->]. Qed.

Lemma enter_hold_protocol i p now k ch e s :
  no_order_out p -> standing s = (p, hop_ch_ s, epoch_ s) -> 
  protocol (standing s) (HTick i) (enter_hold now k ch e s).1 (standing (enter_hold now k ch e s).2).
Proof.
  intros Hp Hst. unfold enter_hold. cbn [fst snd]. case_bool_decide as Hs; [| rewrite Hst; by apply ProtoHold].
  rewrite (free_standing s (or_intror Hs)). by apply ProtoHold.
Qed.

Lemma escape_some i s : escape_allowed i s = true -> escape i = Some (default 0 (escape i)).
Proof. unfold escape_allowed. by destruct (escape i). Qed.

Lemma idle_protocol i s a s' : state_ s = HsIdle \/ state_ s = HsHold ->
  idle_tick pow cfg i s = (a, s') -> protocol (standing s) (HTick i) a (standing s').
Proof.
  intros Hs. pose proof (free_standing s Hs) as Hf. unfold idle_tick. cbv zeta. destruct (trigger (verdict i)); cbn [negb].
  2: { intros [= <- <-]. replace (standing (leave_hold _ _ _)) with (standing s); [apply ProtoQuiet |].
       unfold leave_hold. case_bool_decide; [| done]. rewrite Hf. reflexivity. }
  destruct (negb (relocate i) && _). { intros [= <- <-]. apply ProtoQuiet. }
  change (standing s) with (standing (prune_hop_times (now_ms i) s)) in Hf |- *.
  set (s1 := prune_hop_times (now_ms i) s) in *. change (hop_ch_ s) with (hop_ch_ s1) in Hf. change (epoch_ s) with (epoch_ s1) in Hf.
  clearbody s1.
  destruct (capped cfg s1). { intros E. apply (of_pair (fun a s' => protocol _ _ a (standing s')) _ _ _ E). by apply (enter_hold_protocol i Free). }
  destruct (best i) as [b|] eqn:Eb.
  - match goal with |- context [order b _ _ _ _ ?k ?s2] => pose proof (order_protocol i Free (hop_ch_ s1) b (best_score i) (now_ms i) k s2 I (or_introl Eb)) as Ho;
      assert (He : epoch_ s2 = epoch_ s1) by (destruct (relocate i); apply leave_hold_epoch); rewrite He, <- Hf in Ho; revert Ho; destruct (order b _ _ _ _ k s2) as [a1 s3] end.
    intros Ho [= <- <-]. exact Ho.
  - destruct (escape_allowed i s1) eqn:Ee.
    + intros E. apply (of_pair (fun a s' => protocol _ _ a (standing s')) _ _ _ E).
      match goal with |- context [order ?t _ _ ?sc _ ?k ?s2] => pose proof (order_protocol i Free (hop_ch_ s1) t sc (now_ms i) k s2 I (or_intror (escape_some _ _ Ee))) as Ho;
        assert (He : epoch_ s2 = epoch_ s1) by apply leave_hold_epoch; rewrite He, <- Hf in Ho end. exact Ho.
    + intros E. apply (of_pair (fun a s' => protocol _ _ a (standing s')) _ _ _ E). by apply (enter_hold_protocol i Free).
Qed.

Lemma ordered_protocol i s a s' : state_ s = HsOrdered ->
  ordered_tick pow cfg i s = (a, s') -> protocol (standing s) (HTick i) a (standing s').
Proof.
  intros Hs. assert (Hf : standing s = (Open (one_card_retuned_ s), hop_ch_ s, epoch_ s)) by (unfold standing; by rewrite Hs).
  unfold ordered_tick. cbv zeta. destruct (video_on_target i) eqn:Ev. { intros [= <- <-]. rewrite Hf. by apply ProtoConfirm. }
  destruct (_ && _ && _) eqn:Er.
  { apply andb_true_iff in Er as [[Hn Hr]%andb_true_iff Hs2]. apply Z.eqb_eq in Hn. apply Z.leb_le in Hs2. apply negb_true_iff in Hr.
    intros [= <- <-]. rewrite Hf, Hr.
    match goal with |- protocol _ _ _ ?y =>
      assert (Hy : y = (Open true, hop_ch_ s, epoch_ s)) by (destruct s; cbn in Hs; subst; reflexivity) end.
    rewrite Hy. by apply ProtoRetune. }
  clear Er. destruct (d_geb _ _); [| intros [= <- <-]; apply ProtoQuiet].
  destruct ((confirm_ms cfg <? confirm_extend_ms cfg) && _ && _).
  - destruct (confirm_extended_ s); intros [= <- <-]; [apply ProtoQuiet |].
    match goal with |- protocol ?x _ _ ?y => change y with x end. apply ProtoQuiet.
  - intros [= <- <-]. rewrite Hf. by apply ProtoWithdraw.
Qed.

Lemma verifying_protocol i s a s' : state_ s = HsVerifying ->
  verifying_tick pow cfg i s = (a, s') -> protocol (standing s) (HTick i) a (standing s').
Proof.
  intros Hs. assert (Hf : standing s = (Landed, hop_ch_ s, epoch_ s)) by (unfold standing; by rewrite Hs).
  unfold verifying_tick. destruct (no_verify_ s). { intros [= <- <-]. rewrite Hf. apply ProtoPass. }
  destruct (_ && _).
  2: { destruct (d_geb _ _); intros [= <- <-]; [rewrite Hf; apply ProtoPass | apply ProtoQuiet]. }
  unfold verify_fail. cbv zeta. set (s1 := back_off _ _ _ _ _ s).
  change (standing s) with (standing s1) in Hf |- *. change (hop_ch_ s) with (hop_ch_ s1) in Hf. change (epoch_ s) with (epoch_ s1) in Hf.
  set (s2 := prune_hop_times (now_ms i) s1).
  assert (Hf2 : standing s2 = (Landed, hop_ch_ s2, epoch_ s2)) by exact Hf.
  destruct (match best i with Some b => _ | None => None end) as [b|] eqn:Eb.
  - assert (Ht : best i = Some b \/ escape i = Some b).
    { destruct (best i) as [b'|]; [| done]. destruct (is_backed_off b' _ s1); [done |]. injection Eb as ->. by left. }
    destruct (capped cfg s2); intros E; apply (of_pair (fun a s' => protocol _ _ a (standing s')) _ _ _ E).
    + exact (enter_hold_protocol i Landed (now_ms i) KHoldCap _ _ s2 I Hf2).
    + rewrite Hf. exact (order_protocol i Landed (hop_ch_ s1) b _ _ _ s2 I Ht).
  - destruct (escape_allowed i s1 && _) eqn:Ee; [apply andb_true_iff in Ee as [Ee _]; destruct (capped cfg s2) |];
      intros E; apply (of_pair (fun a s' => protocol _ _ a (standing s')) _ _ _ E).
    + exact (enter_hold_protocol i Landed (now_ms i) KHoldCap _ _ s2 I Hf2).
    + rewrite Hf. exact (order_protocol i Landed (hop_ch_ s1) _ _ _ _ s2 I (or_intror (escape_some _ _ Ee))).
    + exact (enter_hold_protocol i Landed (now_ms i) KVerifyFail _ _ s1 I Hf).
Qed.

Lemma call_protocol c s a s' : hop_call c s = (a, s') -> protocol (standing s) c a (standing s').
Proof.
  destruct c as [i | now op |]; cbn [HopController.hop_call].
  - unfold HopController.tick. destruct (state_ s) eqn:Es.
    + apply idle_protocol. by left.
    + by apply ordered_protocol.
    + by apply verifying_protocol.
    + apply idle_protocol. by right.
  - unfold on_session_lost. destruct (state_ s) eqn:Es; intros [= <- <-]; try apply ProtoQuiet.
    + unfold standing at 1. rewrite Es. apply ProtoLost.
    + unfold standing at 1. rewrite Es. apply ProtoDropped.
  - intros [= <- <-]. apply ProtoQuiet.
Qed.

(** C22.  The hop controller keeps its protocol.  Over any history of ticks, lost sessions and
    reads of its log, every action is one the state of the exchange allows: an order only when none
    is out, under the next epoch, onto a channel the tick offered; the one-card retune at most
    once per order; a confirmation only of the order out, on video heard there; a withdrawal only
    of the order out, under the next epoch, back to the operating channel; a pass only of a
    landing.  The standing target and its epoch are those of the last order or withdrawal. *)
Theorem hop_protocol cs acts s : hop_calls cs new_hop = (acts, s) -> protocol_run (Free, 0, 0) cs acts (standing s).
Proof.
  change (Free, 0, 0) with (standing new_hop). generalize new_hop. intros s0. revert s0 acts.
  induction cs as [|c cs IH]; intros s0 acts; cbn [HopController.hop_calls].
  - intros [= <- <-]. apply ProtoNil.
  - destruct (hop_call c s0) as [a s1] eqn:Ec. destruct (hop_calls cs s1) as [acts1 s2] eqn:Er. intros [= <- <-].
    eapply ProtoCons; [by apply call_protocol | by apply IH].
Qed.

(** ** The cap on orders *)

Definition tick_time (c : HopCall) : option double := match c with HTick i => Some (now_ms i) | _ => None end.

Definition tick_times (cs : list HopCall) : list double := omap tick_time cs.

(** When the orders were given. *)
Definition order_times (cs : list HopCall) (acts : list HopAction) : list double :=
  omap (fun p => if bool_decide (kind p.2 = ActOrder) then tick_time p.1 else None) (zip cs acts).

Definition over_a_minute_old (ticks : list double) (t : double) : Prop := exists n, n ∈ ticks /\ d_gtb (d_sub n t) kMinuteMs = true.

Lemma over_a_minute_mono (a b l : list double) : a ⊆ b -> Forall (over_a_minute_old a) l -> Forall (over_a_minute_old b) l.
Proof. intros Hab H. apply (Forall_impl _ _ _ H). intros t (n & Hn & Ht). exists n. split; [by apply Hab | done]. Qed.

Lemma prune_aged now ts : exists old, ts = old ++ prune now ts /\ Forall (over_a_minute_old [now]) old.
Proof.
  induction ts as [|t ts (old & E & Hold)]; cbn [prune]; [by exists [] |].
  destruct (d_gtb (d_sub now t) kMinuteMs) eqn:Ht; [| exists []; split; [done | constructor]].
  exists (t :: old). cbn. split; [by f_equal |]. constructor; [| done]. exists now. split; [by left | done].
Qed.

Definition ordered_at (i : HopTick) (s : Hop) (a : HopAction) (s' : Hop) : Prop :=
  if bool_decide (kind a = ActOrder)
  then hop_times_ s' = prune (now_ms i) (hop_times_ s) ++ [now_ms i] /\
       Z.of_nat (length (prune (now_ms i) (hop_times_ s))) < max_hops_per_min cfg
  else hop_times_ s' = hop_times_ s \/ hop_times_ s' = prune (now_ms i) (hop_times_ s).

Lemma enter_hold_times now k ch e s : kind (enter_hold now k ch e s).1 = ActHold /\ hop_times_ (enter_hold now k ch e s).2 = hop_times_ s.
Proof. unfold enter_hold. cbn [fst snd]. by case_bool_decide. Qed.

Lemma leave_hold_times now op s : hop_times_ (leave_hold now op s) = hop_times_ s.
Proof. unfold leave_hold. by case_bool_decide. Qed.

Lemma hold_ordered i s now k ch e s1 a s' : hop_times_ s1 = hop_times_ s \/ hop_times_ s1 = prune (now_ms i) (hop_times_ s) ->
  enter_hold now k ch e s1 = (a, s') -> ordered_at i s a s'.
Proof.
  intros Hs E. destruct (enter_hold_times now k ch e s1) as [H1 H2]. rewrite E in H1, H2. cbn [fst snd] in H1, H2.
  unfold ordered_at. by rewrite H1, H2, bool_decide_eq_false_2 by discriminate.
Qed.

Lemma order_ordered i s t re le sc k s1 a s' : hop_times_ s1 = prune (now_ms i) (hop_times_ s) -> capped cfg s1 = false ->
  order t re le sc (now_ms i) k s1 = (a, s') -> ordered_at i s a s'.
Proof.
  intros Hs Hc [= <- <-]. unfold ordered_at. rewrite bool_decide_eq_true_2 by done. split.
  - change (hop_times_ s1 ++ [now_ms i] = prune (now_ms i) (hop_times_ s) ++ [now_ms i]). by rewrite Hs.
  - unfold capped in Hc. apply Z.leb_gt in Hc. by rewrite Hs in Hc.
Qed.

Lemma quiet_ordered i s a s' : kind a <> ActOrder -> hop_times_ s' = hop_times_ s -> ordered_at i s a s'.
Proof. intros Ha Hs. unfold ordered_at. rewrite bool_decide_eq_false_2 by done. by left. Qed.

Lemma idle_ordered i s a s' : idle_tick pow cfg i s = (a, s') -> ordered_at i s a s'.
Proof.
  unfold idle_tick. cbv zeta. destruct (negb _). { intros [= <- <-]. apply quiet_ordered; [done | apply leave_hold_times]. }
  destruct (negb (relocate i) && _). { intros [= <- <-]. by apply quiet_ordered. }
  set (s1 := prune_hop_times (now_ms i) s). assert (Hp : hop_times_ s1 = prune (now_ms i) (hop_times_ s)) by reflexivity. clearbody s1.
  destruct (capped cfg s1) eqn:Hc. { apply hold_ordered. by right. }
  assert (Hcap : forall s2, hop_times_ s2 = hop_times_ s1 -> capped cfg s2 = false) by (intros s2 E; unfold capped; by rewrite E).
  destruct (best i) as [b|].
  - match goal with |- context [order b _ _ _ _ ?k ?s2] => assert (E2 : hop_times_ s2 = hop_times_ s1) by (destruct (relocate i); apply leave_hold_times);
      destruct (order b (ref_rung (verdict i)) (tick_lead_card i) (best_score i) (now_ms i) k s2) as [a1 s3] eqn:Eo end.
    rewrite <- E2 in Hp. pose proof (order_ordered i s _ _ _ _ _ _ _ _ Hp (Hcap _ E2) Eo) as Ho. intros [= <- <-]. exact Ho.
  - destruct (escape_allowed i s1); [| apply hold_ordered; by right].
    apply order_ordered; [| apply Hcap]; (etransitivity; [apply leave_hold_times |]); done.
Qed.

Lemma verifying_ordered i s a s' : verifying_tick pow cfg i s = (a, s') -> ordered_at i s a s'.
Proof.
  unfold verifying_tick. destruct (no_verify_ s). { intros [= <- <-]. by apply quiet_ordered. }
  destruct (_ && _). 2: { destruct (d_geb _ _); intros [= <- <-]; by apply quiet_ordered. }
  unfold verify_fail. cbv zeta. set (s1 := back_off _ _ _ _ _ s). assert (H1 : hop_times_ s1 = hop_times_ s) by reflexivity. clearbody s1.
  set (s2 := prune_hop_times (now_ms i) s1).
  assert (Hp : hop_times_ s2 = prune (now_ms i) (hop_times_ s)) by (change (prune (now_ms i) (hop_times_ s1) = prune (now_ms i) (hop_times_ s)); by rewrite H1).
  clearbody s2.
  destruct (match best i with Some b => _ | None => None end) as [b|]; [| destruct (_ && _)]; [destruct (capped cfg s2) eqn:Hc .. |].
  - apply hold_ordered. by right.
  - by apply order_ordered.
  - apply hold_ordered. by right.
  - by apply order_ordered.
  - apply hold_ordered. by left.
Qed.

Lemma tick_ordered i s a s' : tick i s = (a, s') -> ordered_at i s a s'.
Proof.
  unfold HopController.tick. destruct (state_ s); [apply idle_ordered | | apply verifying_ordered | apply idle_ordered].
  unfold ordered_tick. cbv zeta. destruct (video_on_target i). { intros [= <- <-]. by apply quiet_ordered. }
  destruct (_ && _ && _). { intros [= <- <-]. by apply quiet_ordered. }
  destruct (d_geb _ _); [| intros [= <- <-]; by apply quiet_ordered].
  destruct (_ && _ && _); intros [= <- <-]; [| by apply quiet_ordered].
  destruct (confirm_extended_ s); by apply quiet_ordered.
Qed.

Lemma hop_calls_snoc cs c s :
  hop_calls (cs ++ [c]) s = let '(acts, s1) := hop_calls cs s in let '(a, s2) := hop_call c s1 in (acts ++ [a], s2).
Proof.
  revert s. induction cs as [|d cs IH]; intros s; cbn [HopController.hop_calls app].
  - by destruct (hop_call c s).
  - destruct (hop_call d s) as [a s1]. rewrite IH. destruct (hop_calls cs s1) as [acts s2]. by destruct (hop_call c s2).
Qed.

Lemma hop_calls_length cs s : length (hop_calls cs s).1 = length cs.
Proof.
  revert s. induction cs as [|c cs IH]; intros s; cbn; [done |]. destruct (hop_call c s) as [a s1].
  specialize (IH s1). destruct (hop_calls cs s1). cbn in *. by f_equal.
Qed.

(** The queue holds the later orders; those it forgot were over a minute old at some tick. *)
Lemma queue_is_recent cs acts s : hop_calls cs new_hop = (acts, s) ->
  exists old, order_times cs acts = old ++ hop_times_ s /\ Forall (over_a_minute_old (tick_times cs)) old.
Proof.
  revert acts s. induction cs as [|c cs IH] using rev_ind; intros acts s. { intros [= <- <-]. by exists []. }
  rewrite hop_calls_snoc. destruct (hop_calls cs new_hop) as [acts1 s1] eqn:E1. destruct (hop_call c s1) as [a s2] eqn:Ec.
  intros [= <- <-]. destruct (IH acts1 s1 eq_refl) as (old & Eo & Hold).
  pose proof (hop_calls_length cs new_hop) as Hl. rewrite E1 in Hl. cbn in Hl.
  unfold order_times, tick_times. rewrite zip_with_app, !omap_app by done. fold (order_times cs acts1) (tick_times cs). rewrite Eo.
  assert (Hmono : forall l, Forall (over_a_minute_old (tick_times cs)) l -> Forall (over_a_minute_old (tick_times cs ++ omap tick_time [c])) l).
  { intros l. apply over_a_minute_mono. set_solver. }
  assert (Hstay : hop_times_ s2 = hop_times_ s1 -> kind a <> ActOrder -> exists old', 
    (old ++ hop_times_ s1) ++ omap (fun p => if bool_decide (kind p.2 = ActOrder) then tick_time p.1 else None) (zip [c] [a]) = old' ++ hop_times_ s2 /\
    Forall (over_a_minute_old (tick_times cs ++ omap tick_time [c])) old').
  { intros -> Ha. exists old. cbn. rewrite bool_decide_eq_false_2, app_nil_r by done. auto. }
  destruct c as [i | now op |]; cbn [HopController.hop_call] in Ec.
  - apply tick_ordered in Ec. destruct (prune_aged (now_ms i) (hop_times_ s1)) as (gone & Eg & Hg).
    assert (Hg' : Forall (over_a_minute_old (tick_times cs ++ [now_ms i])) gone).
    { revert Hg. apply over_a_minute_mono. set_solver. }
    unfold ordered_at in Ec. destruct (bool_decide_reflect (kind a = ActOrder)) as [Ha | Ha].
    + destruct Ec as [E2 _]. exists (old ++ gone). cbn. rewrite bool_decide_eq_true_2 by done. rewrite E2, Eg at 1.
      split; [by rewrite <- !app_assoc |]. apply Forall_app. auto.
    + destruct Ec as [E2 | E2]; [by apply Hstay |]. exists (old ++ gone). cbn. rewrite bool_decide_eq_false_2, app_nil_r, E2, Eg at 1 by done.
      split; [by rewrite <- !app_assoc |]. apply Forall_app. auto.
  - unfold on_session_lost in Ec. apply Hstay; destruct (state_ s1); by injection Ec as <- <-.
  - injection Ec as <- <-. by apply Hstay.
Qed.

(** At any order, of the orders given before, all but fewer than the hops allowed a minute were
    over a minute old at a tick up to this one. *)
Theorem hop_cap cs acts s i a s' :
  hop_calls cs new_hop = (acts, s) -> tick i s = (a, s') -> kind a = ActOrder ->
  exists old recent, order_times cs acts = old ++ recent /\ Z.of_nat (length recent) < max_hops_per_min cfg /\
    Forall (over_a_minute_old (tick_times cs ++ [now_ms i])) old.
Proof.
  intros Hr Hi Ha. destruct (queue_is_recent cs acts s Hr) as (old & Eo & Hold).
  apply tick_ordered in Hi. unfold ordered_at in Hi. rewrite bool_decide_eq_true_2 in Hi by done. destruct Hi as [_ Hn].
  destruct (prune_aged (now_ms i) (hop_times_ s)) as (gone & Eg & Hg). exists (old ++ gone), (prune (now_ms i) (hop_times_ s)).
  split; [rewrite Eo, Eg at 1; by rewrite app_assoc |]. split; [exact Hn |]. apply Forall_app.
  split; [revert Hold | revert Hg]; apply over_a_minute_mono; set_solver.
Qed.
End Hop.
