(* ===== verification/HopRanker.v ===== *)
(** * HopRanker: which channel to hop to (gs/src/hop_ranker.cpp)

    Brief visits to each candidate, kept in a bounded queue; the candidates are ranked by how busy
    the fresh visits found them.  [None] is what the C++ leaves undefined. *)
From S2P Require Import Prelude SwConfig RungStore HopVerdict.

Inductive VisitSrc := Usb | Relay.

#[export] Instance visit_src_eq_dec : EqDecision VisitSrc.
Proof. solve_decision. Defined.

Record HopVisit := mkHopVisit {
  hv_ch : Z; hv_t_ms : double; hv_fa : Z; hv_cca : Z; hv_own : Z; hv_foreign : Z;
  hv_busy_valid : bool; hv_busy_pct : double; hv_src : VisitSrc;
}.

Record HopRankEntry := mkEntry {
  e_ch : Z; e_score : Z; e_visits : Z; e_ranked : bool; e_blocked : bool; e_busy_pct : double; e_busy_valid : bool;
}.

(** One queue of visits for each candidate, in configuration order. *)
Record HopRanker := mkRanker { boot_pick_ : Z; width_mhz_ : Z; visits_ : list (Z * list HopVisit) }.

Definition new_ranker (channels : list Z) (boot_pick width_mhz : Z) : HopRanker :=
  mkRanker boot_pick width_mhz (map (fun c => (c, [])) channels).

Definition set_boot_pick (ch : Z) (r : HopRanker) : HopRanker := r {{ boot_pick_ := ch }}.

Definition set_width_mhz (w : Z) (r : HopRanker) : HopRanker := r {{ width_mhz_ := w }}.

Definition candidates (r : HopRanker) : list Z := map fst (visits_ r).

Section Ranker.
Context (cfg : HopCfg) (busy : BusyCfg).

(** The first queue of the channel takes the visit. *)
Fixpoint add_visit (v : HopVisit) (qs : list (Z * list HopVisit)) : list (Z * list HopVisit) :=
  match qs with
  | [] => []
  | (c, q) :: qs =>
      if c =? hv_ch v then (c, push_bounded (Z.to_nat (u64 (rank_visits cfg))) v q) :: qs else (c, q) :: add_visit v qs
  end.

Definition add (v : HopVisit) (r : HopRanker) : HopRanker := r {{ visits_ ::= add_visit v }}.

Definition score (v : HopVisit) : Z := u32 (hv_fa v + u32 (Z.max (hv_cca v - hv_own v) 0) + 4 * hv_foreign v).

Definition fresh (now : double) (v : HopVisit) : bool := d_leb (d_sub now (hv_t_ms v)) (d_of_Z (rank_max_age_ms cfg)).

(** The kind of card that made the newest fresh visit. *)
Definition newest_src (now : double) (r : HopRanker) : VisitSrc :=
  (fold_left (fun acc v => if fresh now v && d_geb (hv_t_ms v) acc.1 then (hv_t_ms v, hv_src v) else acc)
     (concat (map snd (visits_ r))) (d_of_Z (-1), Usb)).2.

Definition entry_of (now : double) (src : VisitSrc) (q : Z * list HopVisit) : HopRankEntry :=
  let vs := List.filter (fun v => negb (d_gtb (d_sub now (hv_t_ms v)) (d_of_Z (rank_max_age_ms cfg))) && bool_decide (hv_src v = src)) q.2 in
  let busy_vs := List.filter hv_busy_valid vs in
  let n := Z.of_nat (length busy_vs) in
  let pct := if n =? 0 then d_zero else d_div (fold_left (fun s v => d_add s (hv_busy_pct v)) busy_vs d_zero) (d_of_Z n) in
  mkEntry q.1 (fold_left (fun s v => u32 (s + score v)) vs 0) (Z.of_nat (length vs)) (2 <=? Z.of_nat (length vs))
    ((0 <? n) && d_geb pct busy) pct (0 <? n).

Definition d_neq (a b : double) : bool := negb (SFeqb a b).

(** The order of the candidates: ranked first, then unblocked, then the quieter. *)
Definition precedes (boot width : Z) (a b : HopRankEntry) : bool :=
  if negb (Bool.eqb (e_ranked a) (e_ranked b)) then e_ranked a
  else if negb (e_ranked a) then false
  else if negb (Bool.eqb (e_blocked a) (e_blocked b)) then negb (e_blocked a)
  else if e_blocked a && d_neq (e_busy_pct a) (e_busy_pct b) then d_ltb (e_busy_pct a) (e_busy_pct b)
  else if (width =? 40) && negb (Bool.eqb (e_busy_valid a) (e_busy_valid b)) then e_busy_valid a
  else if (width =? 40) && e_busy_valid a && d_neq (e_busy_pct a) (e_busy_pct b) then d_ltb (e_busy_pct a) (e_busy_pct b)
  else if negb (e_score a =? e_score b) then e_score a <? e_score b
  else if negb (Bool.eqb (e_ch a =? boot) (e_ch b =? boot)) then e_ch a =? boot
  else false.

(** [std::stable_sort]. *)
Fixpoint stable_insert {A} (lt : A -> A -> bool) (x : A) (l : list A) : list A :=
  match l with [] => [x] | y :: l' => if lt y x then y :: stable_insert lt x l' else x :: l end.

Definition stable_sort {A} (lt : A -> A -> bool) (l : list A) : list A := fold_right (stable_insert lt) [] l.

Definition ranking (now : double) (r : HopRanker) : list HopRankEntry :=
  stable_sort (precedes (boot_pick_ r) (width_mhz_ r)) (map (entry_of now (newest_src now r)) (visits_ r)).

Definition eligible (exclude : Z) (skip : list Z) (require_unblocked : bool) (e : HopRankEntry) : bool :=
  e_ranked e && negb (e_ch e =? exclude) && negb (require_unblocked && e_blocked e) && negb (bool_decide (e_ch e ∈ skip)).

Definition best_channel (now : double) (exclude : Z) (skip : list Z) (require_unblocked : bool) (r : HopRanker) : option Z :=
  e_ch <$> List.find (eligible exclude skip require_unblocked) (ranking now r).
End Ranker.

(** ** Proofs: the ranking is a sort by one key

    Each comparison of the candidates is the lexicographic order of a list of integers, so the
    stable sort puts the least key first, and the channel chosen is the best of those allowed. *)

(** ** Lexicographic order *)

Fixpoint lex_ltb (k l : list Z) : bool :=
  match k, l with a :: k, b :: l => (a <? b) || ((a =? b) && lex_ltb k l) | _, _ => false end.

Lemma lex_irrefl k : lex_ltb k k = false.
Proof. induction k as [|a k IH]; cbn; [done |]. by rewrite Z.ltb_irrefl, Z.eqb_refl, IH. Qed.

Lemma lex_asym k l : length k = length l -> lex_ltb k l = true -> lex_ltb l k = false.
Proof.
  revert l. induction k as [|a k IH]; intros [|b l]; cbn; try done. intros [= H]. rewrite orb_true_iff, andb_true_iff, Z.ltb_lt, Z.eqb_eq.
  rewrite orb_false_iff, andb_false_iff, Z.ltb_ge, Z.eqb_neq. intros [Hab | [-> Hkl]]; [split; [lia | left; lia] |].
  split; [lia | right; by apply IH].
Qed.

Lemma lex_trans k l m : length k = length l -> length l = length m -> lex_ltb l k = false -> lex_ltb m l = false -> lex_ltb m k = false.
Proof.
  revert l m. induction k as [|a k IH]; intros [|b l] [|c m]; cbn; try done. intros [= H1] [= H2].
  rewrite !orb_false_iff, !andb_false_iff, !Z.ltb_ge, !Z.eqb_neq. intros [A1 A2] [B1 B2]. split; [lia |].
  destruct (Z.eq_dec c a) as [-> |]; [right | by left]. destruct A2, B2; try lia. by apply (IH l).
Qed.

Lemma lex_app k l k' l' : length k = length l ->
  lex_ltb (k ++ k') (l ++ l') = if bool_decide (k = l) then lex_ltb k' l' else lex_ltb k l.
Proof.
  revert l. induction k as [|a k IH]; intros [|b l]; cbn; try done. intros [= H]. rewrite IH by done.
  destruct (Z.ltb_spec a b), (Z.eqb_spec a b); cbn; try lia; subst.
  - by rewrite bool_decide_eq_false_2 by congruence.
  - destruct (bool_decide_reflect (k = l)) as [-> | Hn]; [by rewrite bool_decide_eq_true_2 | by rewrite bool_decide_eq_false_2 by congruence].
  - by rewrite bool_decide_eq_false_2 by congruence.
Qed.

(** ** Doubles *)

(** The order of the values that are not NaN. *)
Definition double_key (x : double) : list Z :=
  match x with
  | S754_infinity true => [-2; 0; 0]
  | S754_finite true m e => [-1; - e; Zneg m]
  | S754_finite false m e => [1; e; Zpos m]
  | S754_infinity false => [2; 0; 0]
  | _ => [0; 0; 0]
  end.

Lemma double_key_length x : length (double_key x) = 3%nat.
Proof. by destruct x as [| [] | | []]. Qed.

Lemma lex3 a b c a' b' c' : lex_ltb [a; b; c] [a'; b'; c'] = (a <? a') || ((a =? a') && ((b <? b') || ((b =? b') && (c <? c')))).
Proof. cbn. by rewrite andb_false_r, orb_false_r. Qed.

Lemma d_ltb_key x y : d_is_nan x = false -> d_is_nan y = false -> d_ltb x y = lex_ltb (double_key x) (double_key y).
Proof.
  destruct x as [s|[]| |[] m e], y as [s'|[]| |[] m' e']; try discriminate; intros _ _; try reflexivity; cbn [double_key]; rewrite lex3;
    unfold d_ltb, SFltb; cbn [SFcompare].
  - change (-1 <? -1) with false. change (-1 =? -1) with true. cbn [orb andb].
    destruct (Z.compare_spec e e'), (Z.ltb_spec (- e) (- e')), (Z.eqb_spec (- e) (- e')); cbn [orb andb]; try lia; try done.
  - change (1 <? 1) with false. change (1 =? 1) with true. cbn [orb andb].
    destruct (Z.compare_spec e e'), (Z.ltb_spec e e'), (Z.eqb_spec e e'); cbn [orb andb]; try lia; try done.
Qed.

Lemma d_neq_key x y : d_is_nan x = false -> d_is_nan y = false -> d_neq x y = negb (bool_decide (double_key x = double_key y)).
Proof.
  intros Hx Hy. unfold d_neq. f_equal. destruct x as [s|[]| |[] m e], y as [s'|[]| |[] m' e']; try discriminate; cbn [double_key];
    try (rewrite ?bool_decide_eq_true_2, ?bool_decide_eq_false_2 by (done || discriminate); reflexivity);
    unfold SFeqb; cbn [SFcompare]; change (Pos.compare_cont Eq m m') with (Pos.compare m m').
  - destruct (Z.compare_spec e e'), (Pos.compare_spec m m'); subst; cbn;
      try (rewrite bool_decide_eq_true_2 by done; done); rewrite bool_decide_eq_false_2 by (intros [=]; lia); done.
  - destruct (Z.compare_spec e e'), (Pos.compare_spec m m'); subst; cbn;
      try (rewrite bool_decide_eq_true_2 by done; done); rewrite bool_decide_eq_false_2 by (intros [=]; lia); done.
Qed.

(** ** The key of an entry *)

Definition flag_key (first : bool) : list Z := [if first then 0 else 1].

(** Ranked, then unblocked, then (when it decides) the busy share, the reading, the score, the boot pick. *)
Definition entry_key (boot width : Z) (e : HopRankEntry) : list Z :=
  if e_ranked e then
    [0] ++ flag_key (negb (e_blocked e)) ++
    (if e_blocked e then double_key (e_busy_pct e) else [0; 0; 0]) ++
    flag_key (negb (width =? 40) || e_busy_valid e) ++
    (if (width =? 40) && e_busy_valid e then double_key (e_busy_pct e) else [0; 0; 0]) ++
    [e_score e] ++ flag_key (e_ch e =? boot)
  else [1; 0; 0; 0; 0; 0; 0; 0; 0; 0; 0].

Definition measured (e : HopRankEntry) : Prop := d_is_nan (e_busy_pct e) = false.

Lemma precedes_key boot width a b : measured a -> measured b -> precedes boot width a b = lex_ltb (entry_key boot width a) (entry_key boot width b).
Proof.
  intros Ha Hb. unfold precedes, entry_key. pose proof (d_ltb_key _ _ Ha Hb) as HL. pose proof (d_neq_key _ _ Ha Hb) as HN.
  pose proof (double_key_length (e_busy_pct a)) as La. pose proof (double_key_length (e_busy_pct b)) as Lb.
  rewrite HN, HL. revert La Lb. generalize (double_key (e_busy_pct a)), (double_key (e_busy_pct b)). intros ka kb La Lb.
  destruct (e_ranked a), (e_ranked b); cbn [Bool.eqb negb]; try reflexivity.
  rewrite !lex_app by (repeat case_match; cbn; congruence).
  rewrite (bool_decide_eq_true_2 ([0] = [0])) by done.
  destruct (e_blocked a), (e_blocked b); cbn [Bool.eqb negb andb flag_key]; try reflexivity.
  all: destruct (width =? 40); cbn [orb andb negb]; destruct (e_busy_valid a), (e_busy_valid b); cbn [Bool.eqb negb andb orb flag_key];
    repeat match goal with |- context [bool_decide ([?x] = [?x])] => rewrite (bool_decide_eq_true_2 ([x] = [x])) by done
           | |- context [bool_decide ([?x; ?y; ?z] = [?x; ?y; ?z])] => rewrite (bool_decide_eq_true_2 ([x; y; z] = [x; y; z])) by done
           | |- context [bool_decide ([0] = [1])] => rewrite (bool_decide_eq_false_2 ([0] = [1])) by done
           | |- context [bool_decide ([1] = [0])] => rewrite (bool_decide_eq_false_2 ([1] = [0])) by done end.
  all: destruct (bool_decide (ka = kb)); cbn [negb]; try reflexivity.
  all: destruct (Z.eqb_spec (e_score a) (e_score b)) as [-> | Hs]; cbn [negb];
    [rewrite (bool_decide_eq_true_2 ([e_score b] = [e_score b])) by done; by destruct (e_ch a =? boot), (e_ch b =? boot) |].
  all: rewrite (bool_decide_eq_false_2 ([e_score a] = [e_score b])) by congruence; cbn [lex_ltb]; by rewrite andb_false_r, orb_false_r.
Qed.

Lemma entry_key_length boot width e : length (entry_key boot width e) = 11%nat.
Proof. unfold entry_key. destruct (e_ranked e); [| done]. pose proof (double_key_length (e_busy_pct e)). rewrite !length_app. repeat case_match; cbn; lia. Qed.

(** ** The stable sort *)

Section Sort.
Context {A : Type} (lt : A -> A -> bool).

Lemma stable_insert_perm x l : stable_insert lt x l ≡ₚ x :: l.
Proof. induction l as [|y l IH]; cbn; [done |]. destruct (lt y x); [| done]. rewrite IH. apply Permutation_swap. Qed.

Lemma stable_sort_perm l : stable_sort lt l ≡ₚ l.
Proof. induction l as [|x l IH]; [done |]. change (stable_sort lt (x :: l)) with (stable_insert lt x (stable_sort lt l)). by rewrite stable_insert_perm, IH. Qed.

(** Each element is not after any later one. *)
Definition in_order (x y : A) : Prop := lt y x = false.

Context (P : A -> Prop).
Context (lt_trans : forall x y z, P x -> P y -> P z -> in_order x y -> in_order y z -> in_order x z).
Context (lt_asym : forall x y, P x -> P y -> lt x y = true -> in_order x y).

Lemma stable_insert_sorted x l : P x -> Forall P l -> ForallOrdPairs in_order l -> ForallOrdPairs in_order (stable_insert lt x l).
Proof.
  intros Hx Hl. induction 1 as [|y l Hy Hs IH]; cbn; [by repeat constructor |].
  apply Forall_cons in Hl as [Py Hl]. destruct (lt y x) eqn:E.
  - constructor; [| by apply IH]. rewrite stable_insert_perm. constructor; [by apply lt_asym | done].
  - constructor; [| by constructor]. constructor; [done |]. rewrite Forall_forall in Hy, Hl |- *. intros z Hz.
    apply (lt_trans _ y); auto.
Qed.

Lemma stable_sort_sorted l : Forall P l -> ForallOrdPairs in_order (stable_sort lt l).
Proof.
  induction 1 as [|x l Hx Hl IH]; [constructor |]. apply stable_insert_sorted; [done | | done]. by rewrite stable_sort_perm.
Qed.

(** The first that qualifies is one that none of those qualifying precedes. *)
Lemma find_first (f : A -> bool) l x : ForallOrdPairs in_order l -> (forall y, y ∈ l -> in_order y y) -> List.find f l = Some x ->
  x ∈ l /\ f x = true /\ Forall (fun y => f y = true -> in_order x y) l.
Proof.
  induction 1 as [|y l Hy Hs IH]; cbn; [done |]. intros Hr. destruct (f y) eqn:E.
  - intros [= <-]. split; [by left |]. split; [done |]. constructor; [intros _; apply Hr; by left |].
    apply (Forall_impl _ _ _ Hy). auto.
  - intros Hf. destruct (IH (fun z Hz => Hr z (list_elem_of_further _ _ _ Hz)) Hf) as (H1 & H2 & H3).
    split; [by right |]. split; [done |]. constructor; [congruence | done].
Qed.
End Sort.

Section Ranker.
Context (cfg : HopCfg) (busy : BusyCfg).

Definition entries (now : double) (r : HopRanker) : list HopRankEntry := map (entry_of cfg busy now (newest_src cfg now r)) (visits_ r).

Lemma ranking_perm now r : ranking cfg busy now r ≡ₚ entries now r.
Proof. apply stable_sort_perm. Qed.

Lemma ranking_sorted now r : Forall measured (entries now r) ->
  ForallOrdPairs (in_order (precedes (boot_pick_ r) (width_mhz_ r))) (ranking cfg busy now r).
Proof.
  intros Hm. apply stable_sort_sorted with (P := measured); [| | done]; unfold in_order.
  - intros x y z Hx Hy Hz. rewrite !precedes_key by done. apply lex_trans; by rewrite !entry_key_length.
  - intros x y Hx Hy. rewrite !precedes_key by done. apply lex_asym. by rewrite !entry_key_length.
Qed.

(** The channel the ranker names is the best it may name.  [best] answers nothing exactly when no
    candidate qualifies (ranked, not excluded, not skipped, and not blocked if that is asked);
    otherwise it answers a candidate that qualifies, and no other that does comes before it in
    the order: unblocked first, then the quieter, then the lower score, then the boot pick. *)
Theorem best_channel_exact now exclude skip unblocked r :
  Forall measured (entries now r) ->
  let ok := eligible exclude skip unblocked in
  match best_channel cfg busy now exclude skip unblocked r with
  | None => Forall (fun e => ok e = false) (entries now r)
  | Some ch => exists e, e ∈ entries now r /\ e_ch e = ch /\ ok e = true /\
      Forall (fun e' => ok e' = true -> precedes (boot_pick_ r) (width_mhz_ r) e' e = false) (entries now r)
  end.
Proof.
  intros Hm ok. unfold best_channel. fold ok. pose proof (ranking_perm now r) as Hp.
  destruct (List.find ok (ranking cfg busy now r)) as [e|] eqn:Hf; cbn.
  - apply (find_first (precedes (boot_pick_ r) (width_mhz_ r))) in Hf as (H1 & H2 & H3); [| by apply ranking_sorted |].
    + exists e. rewrite Hp in H1, H3. auto.
    + intros y Hy. rewrite Hp in Hy. unfold in_order. rewrite Forall_forall in Hm. rewrite precedes_key by auto. apply lex_irrefl.
  - rewrite <- Hp. apply Forall_forall. intros e He. apply list_elem_of_In in He. exact (List.find_none _ _ Hf e He).
Qed.
End Ranker.
