(* ===== verification/ChannelPlan.v ===== *)
(** * ChannelPlan: which channel each card should be on (gs/src/channel_plan.cpp)

    Where the link lives, where it should live, and the hop in flight between them.  Clocks are
    doubles; channels are numbers of the configured set. *)
From S2P Require Import Prelude SwConfig Profile RungStore.

Inductive MoveReason := Commit | AckOverride | HopLead | HopFollow | HopWithdraw | HopOneCard | LinkFound.

#[export] Instance move_reason_eq_dec : EqDecision MoveReason.
Proof. solve_decision. Defined.

(** [card] is -1 for all of them. *)
Record MoveEvent := mkMoveEvent { mv_t_ms : double; mv_card : Z; mv_from : Z; mv_to : Z; mv_reason : MoveReason }.

Record ChannelPlanCfg := mkChannelPlanCfg { start : Z; plan_channels : list Z; search_after_ms : Z }.

Record Plan := mkPlan {
  op_ : Z;
  want_ : Z;
  in_session_ : bool;
  ever_linked_ : bool;
  have_lost_since_ : bool;
  lost_since_ms_ : double;
  now_ms_ : double;
  moves_ : list MoveEvent;
  hopping_ : bool;
  hop_target_ : Z;
  hop_lead_ : Z;
  hop_from_ : Z;
  hop_start_ms_ : double;
}.

Section Plan.
Context (cfg : ChannelPlanCfg).

Definition new_plan : Plan :=
  mkPlan (start cfg) (start cfg) false false false d_zero d_zero [] false 0 (-1) 0 d_zero.

Definition plan_member (ch : Z) : bool := channel_set_member (plan_channels cfg) ch.

Definition log_move (t : double) (card from to : Z) (why : MoveReason) (p : Plan) : Plan :=
  p {{ moves_ ::= (fun l => l ++ [mkMoveEvent t card from to why]) }}.

Definition plan_tick (now : double) (in_session : bool) (p : Plan) : Plan :=
  let p := p {{ now_ms_ := now ; in_session_ := in_session }} in
  if in_session then p {{ ever_linked_ := true ; have_lost_since_ := false }}
  else if hopping_ p || have_lost_since_ p then p
  else p {{ have_lost_since_ := true ; lost_since_ms_ := now }}.

Definition release_scout (p : Plan) : bool :=
  if in_session_ p || hopping_ p then false
  else if negb (ever_linked_ p) then true
  else have_lost_since_ p && d_geb (d_sub (now_ms_ p) (lost_since_ms_ p)) (d_of_Z (search_after_ms cfg)).

Definition on_ack (now : double) (agreed proposed : Z) (p : Plan) : Plan :=
  let p := p {{ now_ms_ := now }} in
  if (agreed =? op_ p) || negb (plan_member agreed) then p
  else log_move now (-1) (op_ p) agreed (if agreed =? proposed then Commit else AckOverride) (p {{ op_ := agreed }}).

Definition commit (now : double) (to : Z) (p : Plan) : Plan :=
  let p := p {{ now_ms_ := now }} in
  if negb (plan_member to) then p
  else
    let p := p {{ want_ := to }} in
    if in_session_ p || (to =? op_ p) then p else log_move now (-1) (op_ p) to Commit p {{ op_ := to }}.

Definition set_want (now : double) (ch : Z) (p : Plan) : Plan :=
  let p := p {{ now_ms_ := now }} in
  if plan_member ch then p {{ want_ := ch }} else p.

Definition link_found (now : double) (x : Z) (p : Plan) : Plan :=
  let p := p {{ now_ms_ := now }} in
  if hopping_ p || (x =? op_ p) || negb (plan_member x) then p
  else log_move now (-1) (op_ p) x LinkFound p {{ op_ := x }}.

Definition relocate_due (p : Plan) : bool := in_session_ p && negb (hopping_ p) && negb (op_ p =? want_ p).

(** A second order abandons the hop in flight, inside the same search-timer window. *)
Definition plan_hop_order (now : double) (target lead_card : Z) (p : Plan) : Plan :=
  let p := p {{ now_ms_ := now }} in
  let p := if hopping_ p then log_move now (hop_lead_ p) (hop_target_ p) (op_ p) HopWithdraw p
           else p {{ hop_start_ms_ := now }} in
  let p := p {{ hopping_ := true ; hop_target_ := target ; hop_lead_ := lead_card ; hop_from_ := op_ p }} in
  log_move now lead_card (op_ p) target (if lead_card <? 0 then HopOneCard else HopLead) p.

(** The hop's span does not count as lost time. *)
Definition skip_hop_span (now : double) (p : Plan) : Plan :=
  if have_lost_since_ p then p {{ lost_since_ms_ ::= (fun t => d_add t (d_sub now (hop_start_ms_ p))) }} else p.

Definition plan_hop_confirmed (now : double) (p : Plan) : Plan :=
  let p := p {{ now_ms_ := now }} in
  if negb (hopping_ p) then p
  else
    let p := skip_hop_span now (p {{ op_ := hop_target_ p ; want_ := hop_target_ p ; hopping_ := false }}) in
    log_move now (-1) (hop_from_ p) (op_ p) HopFollow p.

Definition plan_hop_withdraw (now : double) (p : Plan) : Plan :=
  let p := p {{ now_ms_ := now }} in
  if negb (hopping_ p) then p
  else
    let p := skip_hop_span now (p {{ hopping_ := false }}) in
    log_move now (hop_lead_ p) (hop_target_ p) (op_ p) HopWithdraw p.

Definition is_link_video (rx_ch : Z) (p : Plan) : bool :=
  (rx_ch =? 0) || (rx_ch =? op_ p) || (hopping_ p && (rx_ch =? hop_target_ p)).

Definition desired (card : Z) (p : Plan) : Z :=
  if hopping_ p && ((hop_lead_ p <? 0) || (card =? hop_lead_ p)) then hop_target_ p else op_ p.

Definition plan_take_events (p : Plan) : list MoveEvent * Plan := (moves_ p, p {{ moves_ := [] }}).
End Plan.
