(* ===== verification/HopLoop.v ===== *)
(** * HopLoop: the hop inside the ground station's channel core (gs/src/channel_core.cpp)

    The verdict, the ranking, the hop controller, the channel plan and the control loop, as the
    core calls them: a window's verdict is kept until the next; every tick gives the controller
    that verdict and the ranking's targets; what the controller answers is applied to the plan,
    the verdict's engine and the feedback.  Bursts, sweeps, the boot pick and the scout are
    inputs of a tick.  [None] is what the C++ leaves undefined, or a failed assert. *)
From S2P Require Import Prelude SwConfig Profile RcProto RungStore LadderController Rendezvous VrxController HopVerdict HopController HopRanker ChannelPlan.

Definition VerdictOut0 : VerdictOut := mkVerdictOut Healthy 0 (-1) false d_zero d_zero false false.

Record Core := mkCore {
  plan_ : Plan;
  verdict_ : HopVerdict;
  last_verdict_out_ : VerdictOut;
  hopc_ : Hop;
  ranker_ : HopRanker;
  vrx_ : Vrx;
  hop_lead_latched_ : Z;
  hop_was_active_ : bool;
}.

(** The first ready card that does not transmit. *)
Fixpoint pick_hop_lead_from (i : Z) (ready : list bool) (tx : Z) : Z :=
  match ready with
  | [] => -1
  | r :: ready => if negb (i =? tx) && r then i else pick_hop_lead_from (i + 1) ready tx
  end.

Definition pick_hop_lead (ready : list bool) (tx : Z) : Z := pick_hop_lead_from 0 ready tx.

(** The rung store is blanked from a run's lead-in. *)
Definition hop_store_blank_until (vo : VerdictOut) (reactive : bool) (confirm : Z) : option double :=
  if negb reactive || negb (first_blocked vo) then None
  else Some (d_add (d_add (t_ms vo) (d_of_Z confirm)) kHopSettleBlankMs).

(** What a tick finds: the clock, the cards, the channel of the last video frame, and who else
    moves the link. *)
Record TickIn := mkTickIn {
  ti_now : double;
  ti_ready : list bool;
  ti_tx : Z;
  ti_video_ch : Z;
  ti_rcf_sent : Z;
  ti_burst_out : bool;
  ti_scout_owns : bool;
  ti_pending : option Z;
  ti_pending_cal : bool;
  ti_relocation_owns : bool;
}.

Section Core.
Context (exp : double -> double) (pow : double -> double -> double).
Context (cfg : HopCfg) (busy : BusyCfg) (plan_cfg : ChannelPlanCfg) (reactive : bool).

(** ** What an action does *)

Definition apply_hop_action (act : HopAction) (now : double) (c : Core) : option Core :=
  match kind act with
  | ActOrder =>
      let c := c {{ vrx_ ::= set_hop (target act) (act_epoch act) }} in
      v ← restore_rung (restore_rung_to act) now (vrx_ c);
      let c := c {{ vrx_ := vrx_blank_store (d_add (d_add now (d_of_Z (confirm_ms cfg))) (d_of_Z 150)) v }} in
      Some (if 0 <=? act_lead_card act then c {{ plan_ ::= plan_hop_order now (target act) (act_lead_card act) }} else c)
  | ActOneCardRetune => Some (c {{ plan_ ::= plan_hop_order now (target act) (-1) }})
  | ActConfirm => Some (c {{ plan_ ::= plan_hop_confirmed now ; verdict_ ::= verdict_landed now }})
  | ActWithdraw => Some (c {{ vrx_ ::= set_hop (target act) (act_epoch act) ; plan_ ::= plan_hop_withdraw now }})
  | ActVerifyPass => Some (c {{ verdict_ ::= verdict_reset }})
  | ActHold | ActNone => Some c
  end.

(** The controller's action, applied; its log is read. *)
Definition dispatch (x : HopAction * Hop) (now : double) (c : Core) : option (HopAction * Core) :=
  c ← apply_hop_action x.1 now (c {{ hopc_ := x.2 }});
  Some (x.1, c {{ hopc_ ::= (fun h => (take_events h).2) }}).

(** ** The session's edges *)

Definition hop_edge (now : double) (active : bool) (c : Core) : option (HopAction * Core) :=
  if Bool.eqb active (hop_was_active_ c) then Some (HopAction0, c)
  else
    let c := c {{ hop_was_active_ := active }} in
    x ← (if active then Some (HopAction0, c)
         else dispatch (on_session_lost pow cfg now (op_ (plan_ c)) (hopc_ c)) now c);
    Some (x.1, x.2 {{ verdict_ ::= (fun v => verdict_new_session (verdict_reset v)) ; last_verdict_out_ := VerdictOut0 }}).

(** ** A window *)

Definition hop_window (now : double) (cards : list VerdictCardIn) (link : VerdictLinkIn) (c : Core) : option Core :=
  x ← window cfg busy now cards link (idx_ (ctrl_ (vrx_ c))) (verdict_ c);
  let '(vo, v) := x in
  let c := c {{ verdict_ := v ; last_verdict_out_ := vo }} in
  Some match hop_store_blank_until vo reactive (confirm_ms cfg) with
       | Some t => c {{ vrx_ ::= vrx_blank_store t }}
       | None => c
       end.

(** ** A tick *)

Definition best_target (now : double) (skip : list Z) (c : Core) : option Z :=
  best_channel cfg busy now (op_ (plan_ c)) skip true (ranker_ c).

Definition score_of (now : double) (ch : option Z) (c : Core) : Z :=
  fold_left (fun acc e => if bool_decide (ch = Some (e_ch e)) then e_score e else acc) (ranking cfg busy now (ranker_ c)) 0.

(** The lead card is picked anew unless an order is out. *)
Definition latch_lead (i : TickIn) (c : Core) : Core :=
  if bool_decide (state_ (hopc_ c) = HsOrdered) then c
  else c {{ hop_lead_latched_ := pick_hop_lead (ti_ready i) (ti_tx i) }}.

Definition hop_tick_in (i : TickIn) (c : Core) : HopTick :=
  let now := ti_now i in
  let best := best_target now (backed_off now (hopc_ c)) c in
  let escape := best_target now (backed_off_failed now (hopc_ c)) c in
  let lead := hop_lead_latched_ c in
  let ht := mkHopTick now (last_verdict_out_ c) best (score_of now best c)
              (hopping_ (plan_ c) && (ti_video_ch i =? hop_target_ (plan_ c)))
              (ti_rcf_sent i) (op_ (plan_ c)) (if 0 <=? lead then Z.of_nat (length (ti_ready i)) else 1) lead
              false false escape (score_of now escape c) in
  let ht := if ti_burst_out i then ht {{ verdict->trigger := false ; HopController.best := None ; HopController.escape := None }} else ht in
  let ht := if reactive then ht else ht {{ verdict->trigger := false }} in
  let unranked ht := ht {{ HopController.best := None ; HopController.escape := None }} in
  if ti_scout_owns i then unranked ht
  else
    match ti_pending i with
    | Some ch => ht {{ verdict->trigger := true ; relocate := true ; tick_no_verify := negb reactive || ti_pending_cal i ;
                       HopController.best := Some ch ; best_score := 0 ; HopController.escape := None ; escape_score := 0 }}
    | None => if ti_relocation_owns i || negb reactive then unranked ht else ht
    end.

Definition hop_tick (i : TickIn) (c : Core) : option (HopAction * Core) :=
  let c := latch_lead i c in
  dispatch (tick pow cfg (hop_tick_in i c) (hopc_ c)) (ti_now i) c.

(** ** Steps: those of the hop, and the calls that others make of the parts *)

Inductive PlanCall :=
| PcTick (now : double) (in_session : bool)
| PcAck (now : double) (agreed proposed : Z)
| PcCommit (now : double) (to : Z)
| PcWant (now : double) (ch : Z)
| PcFound (now : double) (x : Z)
| PcEvents.

Definition plan_call (c : PlanCall) (p : Plan) : Plan :=
  match c with
  | PcTick now s => plan_tick now s p
  | PcAck now a pr => on_ack plan_cfg now a pr p
  | PcCommit now to => commit plan_cfg now to p
  | PcWant now ch => set_want plan_cfg now ch p
  | PcFound now x => link_found plan_cfg now x p
  | PcEvents => (plan_take_events p).2
  end.

Inductive CoreCall :=
| CcEdge (now : double) (active : bool)
| CcWindow (now : double) (cards : list VerdictCardIn) (link : VerdictLinkIn)
| CcTick (i : TickIn)
| CcPlan (c : PlanCall)
| CcVisit (v : HopVisit)
| CcVrx (c : VrxCall).

(** The loop's own calls of the control loop: the hop orders come from the actions alone. *)
Definition vrx_free (c : CoreCall) : Prop := match c with CcVrx (VHop _ _) => False | _ => True end.

(** A call: the hop's action, the frame sent, and the next state. *)
Definition core_call (c : CoreCall) (s : Core) : option (HopAction * option Out * Core) :=
  match c with
  | CcEdge now active => x ← hop_edge now active s; Some (x.1, None, x.2)
  | CcWindow now cards link => s ← hop_window now cards link s; Some (HopAction0, None, s)
  | CcTick i => x ← hop_tick i s; Some (x.1, None, x.2)
  | CcPlan c => Some (HopAction0, None, s {{ plan_ ::= plan_call c }})
  | CcVisit v => Some (HopAction0, None, s {{ ranker_ ::= add cfg v }})
  | CcVrx c => x ← vrx_call exp pow c (vrx_ s); Some (HopAction0, x.1, s {{ vrx_ := x.2 }})
  end.

Fixpoint core_calls (cs : list CoreCall) (s : Core) : option (list HopAction * Core) :=
  match cs with
  | [] => Some ([], s)
  | c :: cs => x ← core_call c s; y ← core_calls cs x.2; Some (x.1.1 :: y.1, y.2)
  end.

Definition new_core (ranker : HopRanker) (v : Vrx) : Core :=
  mkCore (new_plan plan_cfg) new_verdict VerdictOut0 new_hop ranker v (-1) false.
End Core.
