(* ===== verification/HopLoopProps.v ===== *)
(** * HopLoopProps: the hop's parts agree

    The feedback always carries the controller's standing order; the link and the cards stay on
    members of the set; a hop is ordered only onto a channel that may take it, and never without
    foreign airtime. *)
From S2P Require Import Prelude Bytes SwConfig Profile RcProto RcProtoProps RungStore LadderController Rendezvous VrxController VrxProps RcPolicy RcAgent RcAgentSound LinkUp HopVerdict HopController HopRanker ChannelPlan HopLoop.

(** ** The order that the feedback carries *)

Definition carried (v : Vrx) : Z * Z := (VrxController.hop_ch_ v, hop_epoch_ v).

Definition ordered (h : Hop) : Z * Z := (hop_ch_ h, epoch_ h).

Section Core.
Context (exp : double -> double) (pow : double -> double -> double).
Context (cfg : HopCfg) (busy : BusyCfg) (plan_cfg : ChannelPlanCfg) (reactive : bool).

Local Abbreviation core_call := (core_call exp pow cfg busy plan_cfg reactive).
Local Abbreviation core_calls := (core_calls exp pow cfg busy plan_cfg reactive).
Local Abbreviation apply_hop_action := (apply_hop_action cfg).
Local Abbreviation dispatch := (dispatch cfg).

Lemma sync_op_carried v v' : sync_op_ v = Some v' -> carried v' = carried v.
Proof. by intros (op & ->)%sync_op_eq. Qed.

Lemma restore_carried rung now v v' : restore_rung rung now v = Some v' -> carried v' = carried v.
Proof. unfold restore_rung. intros (c & _ & E)%bind_Some. by apply sync_op_carried in E. Qed.

Lemma frame_carried buf now v v' : ground_rc_frame buf now v = Some v' -> carried v' = carried v.
Proof.
  unfold ground_rc_frame. intros (ty & _ & E)%bind_Some. destruct (negb _); [by injection E as <- |].
  apply bind_Some in E as ([a|] & _ & E); [| by injection E as <-].
  destruct (feed_disc_ack a now (rz_ v)) as [[ours ad] z]. apply (inj Some) in E. subst v'. unfold accept_ack. cbv zeta.
  by destruct (negb ours || ack_mismatch a), ad.
Qed.

Lemma pin_carried m b ob oe now v v' : set_pin m b ob oe now v = Some v' -> carried v' = carried v.
Proof.
  unfold set_pin. cbv zeta. intros (v1 & E1 & E)%bind_Some. assert (H1 : carried v1 = carried v).
  { destruct (_ && _); [apply bind_Some in E1 as (l & _ & E1) |]; apply (inj Some) in E1; by subst. }
  rewrite <- H1. destruct (m <? 0); [apply sync_op_carried in E | apply (inj Some) in E; subst v']; done.
Qed.

Lemma vrx_call_carried c v o v' : vrx_free (CcVrx c) -> vrx_call exp pow c v = Some (o, v') -> carried v' = carried v.
Proof.
  intros Hc. destruct c; cbn [vrx_call]; try (by intros [= _ <-]).
  - intros (v1 & E & [= _ <-])%bind_Some. by apply frame_carried in E.
  - intros E. apply vrx_step_eq in E as (W & _). exact (f_equal (fun w => (w_hop_ch w, w_hop_epoch w)) W).
  - intros [= _ <-]. unfold note_drone_state. by destruct (_ && _).
  - intros (v1 & E & [= _ <-])%bind_Some. by apply restore_carried in E.
  - intros (v1 & E & [= _ <-])%bind_Some. by apply pin_carried in E.
  - intros (v1 & E & [= _ <-])%bind_Some. revert E. unfold replace_ladder.
    intros (old & _ & (c & _ & (c' & _ & E)%bind_Some)%bind_Some)%bind_Some. by apply sync_op_carried in E.
Qed.

Definition agree (c : Core) : Prop := carried (vrx_ c) = ordered (hopc_ c).

(** What an action and the controller's new state say of the order carried. *)
Definition order_told (h : Hop) (a : HopAction) (h' : Hop) : Prop :=
  match kind a with
  | ActOrder | ActWithdraw => ordered h' = (target a, act_epoch a)
  | _ => ordered h' = ordered h
  end.

Lemma protocol_told x c a y : protocol cfg x c a y ->
  match kind a with
  | ActOrder | ActWithdraw => y.1.2 = target a /\ y.2 = act_epoch a
  | _ => y.1.2 = x.1.2 /\ y.2 = x.2
  end.
Proof. destruct 1 as [x c | p ch ep i a t Hp Hk Ht He | | | | | | |]; cbn; try done. rewrite Hk. done. Qed.

Lemma call_told c h a h' : hop_call pow cfg c h = (a, h') -> order_told h a h'.
Proof.
  intros E. apply call_protocol, protocol_told in E. unfold order_told, ordered. unfold standing in E. cbn [fst snd] in E.
  destruct (kind a); destruct E as [-> ->]; done.
Qed.

Lemma apply_agree a now c c' : apply_hop_action a now c = Some c' ->
  hopc_ c' = hopc_ c /\
  carried (vrx_ c') = match kind a with ActOrder | ActWithdraw => (target a, act_epoch a) | _ => carried (vrx_ c) end.
Proof.
  unfold HopLoop.apply_hop_action. destruct (kind a); try (by intros [= <-]).
  cbv zeta. intros (v & Ev & E)%bind_Some. apply (inj Some) in E. apply restore_carried in Ev.
  destruct (0 <=? act_lead_card a); subst c'; (split; [reflexivity |]); exact Ev.
Qed.

Lemma dispatch_agree x now c a c' : agree c -> order_told (hopc_ c) x.1 x.2 -> dispatch x now c = Some (a, c') -> agree c' /\ a = x.1.
Proof.
  intros Ha Ht. unfold HopLoop.dispatch. intros (c1 & E1 & E)%bind_Some. apply (inj Some) in E. injection E as <- <-.
  apply apply_agree in E1 as [H1 H2]. split; [| done]. unfold agree in *.
  change (carried (vrx_ c1) = ordered (hopc_ c1)). rewrite H1, H2. change (hopc_ (c {{ hopc_ := x.2 }})) with (x.2).
  unfold order_told in Ht. change (vrx_ (c {{ hopc_ := x.2 }})) with (vrx_ c). destruct (kind x.1); congruence.
Qed.

Lemma call_agree c s a o s' : vrx_free c -> agree s -> core_call c s = Some (a, o, s') -> agree s'.
Proof.
  intros Hc Ha. destruct c as [now active | now cards link | i | pc | v | vc]; cbn [HopLoop.core_call].
  - intros ([a1 s1] & E & [= _ _ <-])%bind_Some. revert E. unfold hop_edge. destruct (Bool.eqb _ _); [by intros [= _ <-] |].
    cbv zeta. intros ([a2 s2] & E & [= _ <-])%bind_Some. destruct active; [by injection E as _ <- |].
    apply dispatch_agree in E as [E _]; [exact E | exact Ha |]. apply (call_told (HSessionLost now (op_ (plan_ s)))). cbn.
    by destruct (on_session_lost _ _ _ _ _).
  - intros (s1 & E & [= _ _ <-])%bind_Some. revert E. unfold hop_window. intros ([vo v] & _ & E)%bind_Some. apply (inj Some) in E. subst s1.
    cbv zeta. by destruct (hop_store_blank_until _ _ _).
  - intros ([a1 s1] & E & [= _ _ <-])%bind_Some. unfold hop_tick in E. cbv zeta in E.
    assert (Hl : agree (latch_lead i s)) by (unfold latch_lead; by case_bool_decide).
    apply dispatch_agree in E as [E _]; [exact E | exact Hl |].
    apply (call_told (HTick (hop_tick_in cfg busy reactive i (latch_lead i s)))). cbn. by destruct (tick _ _ _ _).
  - intros [= _ _ <-]. exact Ha.
  - intros [= _ _ <-]. exact Ha.
  - intros ([o1 v1] & E & [= _ _ <-])%bind_Some. apply vrx_call_carried in E; [| exact Hc]. exact (eq_trans E Ha).
Qed.

Lemma calls_agree cs s acts s' : Forall vrx_free cs -> agree s -> core_calls cs s = Some (acts, s') -> agree s'.
Proof.
  intros Hc. revert s acts. induction Hc as [|c cs Hc Hcs IH]; intros s acts Ha; cbn [HopLoop.core_calls]; [by intros [= _ <-] |].
  intros ([[a o] s1] & E1 & ([acts1 s2] & E2 & [= _ <-])%bind_Some)%bind_Some. exact (IH s1 acts1 (call_agree _ _ _ _ _ Hc Ha E1) E2).
Qed.

(** ** What goes on the air *)

(** The order told last: that of the last order or withdrawal. *)
Definition told (last : Z * Z) (a : HopAction) : Z * Z :=
  match kind a with ActOrder | ActWithdraw => (target a, act_epoch a) | _ => last end.

(** The frames that calls send, each with the order told last before it. *)
Fixpoint on_air (cs : list CoreCall) (s : Core) (last : Z * Z) : list (Z * Z * list Z) :=
  match cs with
  | [] => []
  | c :: cs =>
      match core_call c s with
      | Some (a, o, s') =>
          match o with Some o => [(told last a, o_frame o)] | None => [] end ++ on_air cs s' (told last a)
      | None => []
      end
  end.

(** The frame is a feedback frame with this order: the bytes at its place, and what a receiver reads. *)
Definition shows (x : Z * Z) (f : list Z) : Prop :=
  frame_type f = Some T_RCF /\ get8 f 11 = Some x.1 /\ get8 f 12 = Some x.2 /\
  forall r, parse_rcf f = Some (Some r) -> (hop_ch r, hop_epoch r) = x.

(** Nothing else is sent but beacons. *)
Definition feedback_shows (x : Z * Z * list Z) : Prop := frame_type x.2 = Some T_DISC \/ shows x.1 x.2.

Lemma pack_shows r k ctx : shows (hop_ch r, hop_epoch r) (pack_rcf r k ctx).
Proof.
  assert (H : get8 (pack_rcf r k ctx) 11 = Some (hop_ch r) /\ get8 (pack_rcf r k ctx) 12 = Some (hop_epoch r)).
  { unfold pack_rcf. destruct (tagged_frame (rcf_body r) k ctx []) as [rest E]. rewrite app_nil_r in E. rewrite E. by split. }
  destruct H as [H1 H2]. split; [exact (pack_rcf_type r k ctx) |]. split; [exact H1 |]. split; [exact H2 |].
  intros r'. unfold parse_rcf. rewrite H1, H2. destruct (_ <? _)%nat; [discriminate |].
  intros (h & _ & H)%bind_Some. destruct (negb h); [discriminate H |]. apply bind_Some in H as (c & _ & H). destruct (negb c); [discriminate H |].
  do 5 (apply bind_Some in H as (? & _ & H)). cbn [mbind option_bind] in H. do 3 (apply bind_Some in H as (? & _ & H)).
  by injection H as <-.
Qed.

Lemma call_carried c s a o s' : vrx_free c -> core_call c s = Some (a, o, s') ->
  carried (vrx_ s') = told (carried (vrx_ s)) a /\ match o with Some o => feedback_shows (carried (vrx_ s'), o_frame o) | None => True end.
Proof.
  intros Hc. assert (Hd : forall x now c a c', dispatch x now c = Some (a, c') -> carried (vrx_ c') = told (carried (vrx_ c)) a).
  { intros x now c0 a0 c'. unfold HopLoop.dispatch. intros (c1 & E1 & E)%bind_Some. apply (inj Some) in E. injection E as <- <-.
    apply apply_agree in E1 as [_ H2]. exact H2. }
  destruct c as [now active | now cards link | i | pc | v | vc]; cbn [HopLoop.core_call].
  - intros ([a1 s1] & E & [= <- <- <-])%bind_Some. split; [| exact I]. revert E. unfold hop_edge. destruct (Bool.eqb _ _); [by intros [= <- <-] |].
    cbv zeta. intros ([a2 s2] & E & [= <- <-])%bind_Some. destruct active; [by injection E as <- <- | exact (Hd _ _ _ _ _ E)].
  - intros (s1 & E & [= <- <- <-])%bind_Some. split; [| exact I]. revert E. unfold hop_window. intros ([vo v] & _ & E)%bind_Some. apply (inj Some) in E. subst s1.
    cbv zeta. by destruct (hop_store_blank_until _ _ _).
  - intros ([a1 s1] & E & [= <- <- <-])%bind_Some. split; [| exact I]. unfold hop_tick in E. cbv zeta in E. cbn [fst].
    rewrite (Hd _ _ _ _ _ E). f_equal. unfold latch_lead. by case_bool_decide.
  - intros [= <- <- <-]. by split.
  - intros [= <- <- <-]. by split.
  - intros ([o1 v1] & E & [= <- <- <-])%bind_Some. cbn [snd]. split; [exact (vrx_call_carried _ _ _ _ Hc E) |]. cbn [fst].
    change (carried (vrx_ (s {{ vrx_ := v1 }}))) with (carried v1).
    destruct o1 as [o|]; [| exact I]. destruct vc; cbn [vrx_call] in E; try discriminate E;
      try (apply bind_Some in E as (? & _ & E); discriminate E).
    apply vrx_step_eq in E as (_ & _ & E). unfold feedback_shows. cbn [fst snd]. destruct (is_disc o).
    + destruct E as (_ & d & _ & ->). left. exact (pack_disc_type _ _).
    + destruct E as (r & n & _ & Hr & _ & ->). right. pose proof (or_orders _ _ Hr) as H. injection H as H1 H2 _ _ _.
      assert (Hx : (hop_ch r, hop_epoch r) = carried v1) by (unfold carried; congruence).
      match goal with |- shows ?x _ => change x with (carried v1) end. rewrite <- Hx. apply pack_shows.
Qed.

Lemma air_shows cs s last : Forall vrx_free cs -> carried (vrx_ s) = last -> Forall feedback_shows (on_air cs s last).
Proof.
  intros Hc. revert s last. induction Hc as [|c cs Hc _ IH]; intros s last <-; cbn [on_air]; [constructor |].
  destruct (core_call c s) as [[[a o] s']|] eqn:E; [| constructor]. destruct (call_carried _ _ _ _ _ Hc E) as [H1 H2].
  apply Forall_app. split; [| exact (IH s' _ H1)]. destruct o as [o|]; [| constructor]. rewrite <- H1. constructor; [exact H2 | constructor].
Qed.

Lemma calls_carried cs s acts s' : Forall vrx_free cs -> core_calls cs s = Some (acts, s') -> carried (vrx_ s') = foldl told (carried (vrx_ s)) acts.
Proof.
  intros Hc. revert s acts. induction Hc as [|c cs Hc _ IH]; intros s acts; cbn [HopLoop.core_calls]; [by intros [= <- <-] |].
  intros ([[a o] s1] & E1 & ([acts1 s2] & E2 & [= <- <-])%bind_Some)%bind_Some. cbn [foldl fst snd] in *.
  rewrite <- (proj1 (call_carried _ _ _ _ _ Hc E1)). exact (IH _ _ E2).
Qed.

(** ** The set *)

Definition on_plan (ch : Z) : Prop := ch ∈ plan_channels plan_cfg.

(** Another part that names a channel to the core names a member. *)
Definition names_members (c : CoreCall) : Prop :=
  match c with CcTick i => match ti_pending i with Some ch => on_plan ch | None => True end | _ => True end.

Record plan_on (p : Plan) : Prop := {
  po_op : on_plan (op_ p);
  po_want : on_plan (want_ p);
  po_target : hopping_ p = true -> on_plan (hop_target_ p);
}.

Definition standing_on (x : Standing) : Prop :=
  (x.1.2 = 0 \/ on_plan x.1.2) /\ match x.1.1 with Open _ => on_plan x.1.2 | _ => True end.

Record core_on (c : Core) : Prop := {
  co_plan : plan_on (plan_ c);
  co_hop : standing_on (standing (hopc_ c));
  co_ranker : Forall on_plan (candidates (ranker_ c));
}.

Lemma plan_member_on ch : plan_member plan_cfg ch = true -> on_plan ch.
Proof. unfold plan_member. by intros [_ H]%channel_set_member_spec. Qed.

Lemma plan_call_on c p : plan_on p -> plan_on (plan_call plan_cfg c p).
Proof.
  intros [H1 H2 H3]. destruct c; cbn [plan_call].
  - unfold plan_tick. cbv zeta. destruct in_session; [by split |]. by destruct (_ || _).
  - unfold on_ack. cbv zeta. destruct (_ || negb _) eqn:Hg; [by split |].
    apply orb_false_iff in Hg as [_ Hg]. apply negb_false_iff, plan_member_on in Hg. by split.
  - unfold commit. cbv zeta. destruct (plan_member plan_cfg to) eqn:Hg; cbn [negb]; [| by split].
    apply plan_member_on in Hg. destruct (_ || _); by split.
  - unfold set_want. cbv zeta. destruct (plan_member plan_cfg ch) eqn:Hg; [| by split]. apply plan_member_on in Hg. by split.
  - unfold link_found. cbv zeta. destruct (_ || _ || negb _) eqn:Hg; [by split |].
    apply orb_false_iff in Hg as [_ Hg]. apply negb_false_iff, plan_member_on in Hg. by split.
  - by split.
Qed.

Lemma skip_span_on now p : plan_on p -> plan_on (skip_hop_span now p).
Proof. intros [H1 H2 H3]. unfold skip_hop_span. destruct (have_lost_since_ p); by split. Qed.

Lemma hop_order_on now t lead p : on_plan t -> plan_on p -> plan_on (plan_hop_order now t lead p).
Proof. intros Ht [H1 H2 H3]. unfold plan_hop_order. cbv zeta. destruct (hopping_ _); by split. Qed.

Lemma hop_confirmed_on now p : plan_on p -> plan_on (plan_hop_confirmed now p).
Proof.
  intros [H1 H2 H3]. unfold plan_hop_confirmed. cbv zeta. change (hopping_ (p {{ now_ms_ := now }})) with (hopping_ p).
  destruct (hopping_ p) eqn:Eh; cbn [negb]; [| split; [exact H1 | exact H2 | intros E; exact (H3 (eq_trans (eq_sym Eh) E))]].
  specialize (H3 eq_refl).
  match goal with |- context [skip_hop_span now ?q] => assert (Hq : plan_on q) by (by split); apply (skip_span_on now) in Hq; revert Hq; generalize (skip_hop_span now q) end.
  intros q [? ? ?]. by split.
Qed.

Lemma hop_withdraw_on now p : plan_on p -> plan_on (plan_hop_withdraw now p).
Proof.
  intros [H1 H2 H3]. unfold plan_hop_withdraw. cbv zeta. destruct (negb _); [by split |].
  match goal with |- context [skip_hop_span now ?q] => assert (Hq : plan_on q) by (by split); apply (skip_span_on now) in Hq; revert Hq; generalize (skip_hop_span now q) end.
  intros q [? ? ?]. by split.
Qed.

(** The channels a call of the controller names. *)
Definition call_on (c : HopCall) : Prop :=
  match c with
  | HTick i => on_plan (cur_op i) /\ forall t, best i = Some t \/ escape i = Some t -> on_plan t
  | HSessionLost _ op => on_plan op
  | HTakeEvents => True
  end.

Lemma protocol_on x c a y : standing_on x -> call_on c -> protocol cfg x c a y ->
  standing_on y /\ match kind a with ActOrder | ActOneCardRetune => on_plan (target a) | _ => True end.
Proof.
  intros [Hx Ho] Hc. destruct 1 as [x c | p ch ep i a t Hp Hk Ht He Hb | | | | | | | ]; cbn in *.
  - by split.
  - rewrite Hk. destruct Hc as [_ Hc]. rewrite Ht. specialize (Hc t Hb). split; [split; [by right | done] | done].
  - by split.
  - by split.
  - destruct Hc as [Hc _]. split; [split; [by right | done] | done].
  - split; [split; [by right | done] | done].
  - by split.
  - by split.
  - by split.
Qed.

Lemma best_channel_candidate now ex skip un r ch : best_channel cfg busy now ex skip un r = Some ch -> ch ∈ candidates r.
Proof.
  unfold best_channel. destruct (List.find _ _) as [e|] eqn:Hf; [| done]. intros [= <-].
  apply List.find_some in Hf as [Hin _]. apply list_elem_of_In in Hin. rewrite (ranking_perm cfg busy now r) in Hin.
  unfold entries in Hin. apply list_elem_of_In, in_map_iff in Hin as (q & <- & Hq). unfold candidates. cbn.
  apply list_elem_of_In, in_map_iff. by exists q.
Qed.

Lemma add_candidates v r : candidates (add cfg v r) = candidates r.
Proof.
  change (map fst (add_visit cfg v (visits_ r)) = map fst (visits_ r)). induction (visits_ r) as [|[c q] qs IH]; [done |].
  cbn. destruct (c =? hv_ch v); cbn; [done |]. by f_equal.
Qed.

(** What a tick offers the controller: the ranking's channels, unless another moves the link. *)
Lemma offered_targets i c t : best (hop_tick_in cfg busy reactive i c) = Some t \/ escape (hop_tick_in cfg busy reactive i c) = Some t ->
  ti_pending i = Some t \/
  ti_pending i = None /\ (best_target cfg busy (ti_now i) (backed_off (ti_now i) (hopc_ c)) c = Some t \/
                         best_target cfg busy (ti_now i) (backed_off_failed (ti_now i) (hopc_ c)) c = Some t).
Proof.
  unfold hop_tick_in. cbv zeta. destruct (ti_scout_owns i); [by intros [[=] | [=]] |].
  destruct (ti_pending i) as [ch|]; [intros [H | H]; [left; exact H | discriminate] |].
  destruct (ti_relocation_owns i || negb reactive); [by intros [[=] | [=]] |].
  intros H. right. split; [done |]. destruct reactive, (ti_burst_out i), H as [H | H]; try discriminate H; [left | right | left | right]; exact H.
Qed.

Lemma hop_tick_in_op i c : cur_op (hop_tick_in cfg busy reactive i c) = op_ (plan_ c).
Proof.
  unfold hop_tick_in. cbv zeta. destruct (ti_scout_owns i), (ti_burst_out i), reactive, (ti_pending i), (ti_relocation_owns i); reflexivity.
Qed.

Lemma dispatch_on x now c a c' hc : plan_on (plan_ c) -> Forall on_plan (candidates (ranker_ c)) -> standing_on (standing (hopc_ c)) ->
  call_on hc -> hop_call pow cfg hc (hopc_ c) = x -> dispatch x now c = Some (a, c') -> core_on c'.
Proof.
  intros Hp Hr Hs Hc Ex. assert (P := call_protocol pow cfg hc (hopc_ c) x.1 x.2). rewrite Ex in P. specialize (P (surjective_pairing x)).
  apply (protocol_on _ _ _ _ Hs Hc) in P as [Hs' Ht]. unfold HopLoop.dispatch. intros (c1 & E1 & E)%bind_Some. apply (inj Some) in E.
  injection E as <- <-. unfold HopLoop.apply_hop_action in E1. destruct (kind x.1); try (injection E1 as <-; by split); cbv zeta in E1.
  - apply bind_Some in E1 as (v & Ev & E1). apply (inj Some) in E1. destruct (0 <=? act_lead_card x.1); subst c1.
    + split; [exact (hop_order_on _ _ _ _ Ht Hp) | exact Hs' | exact Hr].
    + split; [exact Hp | exact Hs' | exact Hr].
  - injection E1 as <-. split; [exact (hop_order_on _ _ _ _ Ht Hp) | exact Hs' | exact Hr].
  - injection E1 as <-. split; [exact (hop_confirmed_on _ _ Hp) | exact Hs' | exact Hr].
  - injection E1 as <-. split; [exact (hop_withdraw_on _ _ Hp) | exact Hs' | exact Hr].
Qed.

Lemma tick_call_on i c : core_on c -> match ti_pending i with Some ch => on_plan ch | None => True end ->
  call_on (HTick (hop_tick_in cfg busy reactive i c)).
Proof.
  intros [Hp _ Hr] Hi. rewrite Forall_forall in Hr. split; [rewrite hop_tick_in_op; exact (po_op _ Hp) |].
  intros t [Ht | [_ [Ht | Ht]]]%offered_targets; [by rewrite Ht in Hi | |]; by apply best_channel_candidate, Hr in Ht.
Qed.

Lemma call_keeps_on c s a o s' : names_members c -> core_on s -> core_call c s = Some (a, o, s') -> core_on s'.
Proof.
  intros Hn [Hp Hh Hr]. destruct c as [now active | now cards link | i | pc | v | vc]; cbn [HopLoop.core_call].
  - intros ([a1 s1] & E & [= _ _ <-])%bind_Some. revert E. unfold hop_edge. destruct (Bool.eqb _ _); [by intros [= _ <-] |].
    cbv zeta. intros ([a2 s2] & E & [= _ <-])%bind_Some. destruct active; [injection E as _ <-; by split |].
    assert (H2 : core_on s2).
    { refine (dispatch_on _ _ _ _ _ (HSessionLost now (op_ (plan_ s))) _ _ _ _ _ E); [exact Hp | exact Hr | exact Hh | exact (po_op _ Hp) | reflexivity]. }
    destruct H2 as [? ? ?]. by split.
  - intros (s1 & E & [= _ _ <-])%bind_Some. revert E. unfold hop_window. intros ([vo v] & _ & E)%bind_Some. apply (inj Some) in E. subst s1.
    cbv zeta. destruct (hop_store_blank_until _ _ _); by split.
  - intros ([a1 s1] & E & [= _ _ <-])%bind_Some. unfold hop_tick in E. cbv zeta in E.
    assert (Hl : core_on (latch_lead i s)) by (unfold latch_lead; case_bool_decide; by split).
    refine (dispatch_on _ _ _ _ _ (HTick (hop_tick_in cfg busy reactive i (latch_lead i s))) _ _ _ (tick_call_on _ _ Hl Hn) _ E); try apply Hl. reflexivity.
  - intros [= _ _ <-]. split; [by apply plan_call_on | exact Hh | exact Hr].
  - intros [= _ _ <-]. split; [exact Hp | exact Hh |]. by rewrite <- (add_candidates v) in Hr.
  - intros ([o1 v1] & E & [= _ _ <-])%bind_Some. by split.
Qed.

Lemma calls_keep_on cs s acts s' : Forall names_members cs -> core_on s -> core_calls cs s = Some (acts, s') -> core_on s'.
Proof.
  intros Hc. revert s acts. induction Hc as [|c cs Hc Hcs IH]; intros s acts Ha; cbn [HopLoop.core_calls]; [by intros [= _ <-] |].
  intros ([[a o] s1] & E1 & ([acts1 s2] & E2 & [= _ <-])%bind_Some)%bind_Some. exact (IH s1 acts1 (call_keeps_on _ _ _ _ _ Hc Ha E1) E2).
Qed.

Lemma new_core_on channels boot width v : on_plan (start plan_cfg) -> Forall on_plan channels ->
  core_on (new_core plan_cfg (new_ranker channels boot width) v).
Proof.
  intros Hs Hc. split; [by split | split; [by left | done] |]. unfold candidates. cbn. by rewrite map_map, map_id.
Qed.

(** ** Every call returns *)

Local Abbreviation vrx_good := (vrx_ok (ok := ladder_good)).

Definition core_loadable (c : CoreCall) : Prop := match c with CcVrx c => loadable pow c | _ => True end.

(** The window's length is a divisor, and its ring holds a reading. *)
Definition windows_sane : Prop := window_ms cfg <> 0 /\ 1 <= detect_windows (verdict_cfg cfg).

Lemma restore_returns rung now v : vrx_good v -> exists v', restore_rung rung now v = Some v' /\ vrx_good v'.
Proof.
  intros Hv. destruct (orders_in exp pow (VRestore rung now) v Hv I I) as (v' & E & H & _). cbn [vrx_call] in E.
  apply bind_Some in E as (v1 & E & E'). injection E' as ->. eauto.
Qed.

Lemma blank_good t v : vrx_good v -> vrx_good (vrx_blank_store t v).
Proof. intros Hv. destruct (orders_in exp pow (VBlank t) v Hv I I) as (v' & E & H & _). by injection E as <-. Qed.

Lemma dispatch_returns x now c : vrx_good (vrx_ c) -> exists c', dispatch x now c = Some (x.1, c') /\ vrx_good (vrx_ c').
Proof.
  intros Hv. unfold HopLoop.dispatch, HopLoop.apply_hop_action.
  destruct (kind x.1); cbn [mbind option_bind]; try (eexists; split; [reflexivity |]; first [exact Hv | split; apply Hv]).
  cbv zeta. match goal with |- context [restore_rung ?r ?t ?v] => destruct (restore_returns r t v) as (v' & -> & Hv') end.
  { split; apply Hv. }
  cbn [mbind option_bind]. eexists. split; [reflexivity |].
  match goal with |- context [vrx_blank_store ?t v'] => pose proof (blank_good t v' Hv') as Hb end. by destruct (0 <=? act_lead_card x.1).
Qed.

Lemma call_returns c s : windows_sane -> core_loadable c -> vrx_good (vrx_ s) ->
  exists a o s', core_call c s = Some (a, o, s') /\ vrx_good (vrx_ s').
Proof.
  intros [Hw Hd] Hl Hv. destruct c as [now active | now cards link | i | pc | v | vc]; cbn [HopLoop.core_call].
  - unfold hop_edge. destruct (Bool.eqb _ _); [do 3 eexists; split; [reflexivity | exact Hv] |]. cbv zeta. destruct active; [do 3 eexists; split; [reflexivity | exact Hv] |].
    match goal with |- context [dispatch ?x now ?c] => destruct (dispatch_returns x now c Hv) as (c' & -> & Hv') end.
    do 3 eexists. split; [reflexivity | exact Hv'].
  - unfold hop_window. destruct (window_returns cfg busy now cards link (idx_ (ctrl_ (vrx_ s))) (verdict_ s) Hw Hd) as ([vo v] & ->).
    cbn [mbind option_bind]. cbv zeta. do 3 eexists. split; [reflexivity |]. destruct (hop_store_blank_until _ _ _); [by apply blank_good | exact Hv].
  - unfold hop_tick. cbv zeta. assert (Hl' : vrx_good (vrx_ (latch_lead i s))) by (unfold latch_lead; by case_bool_decide).
    match goal with |- context [dispatch ?x ?t ?c] => destruct (dispatch_returns x t c Hl') as (c' & -> & Hv') end.
    do 3 eexists. split; [reflexivity | exact Hv'].
  - do 3 eexists. split; [reflexivity | exact Hv].
  - do 3 eexists. split; [reflexivity | exact Hv].
  - destruct (vrx_call_in exp pow vc (vrx_ s) Hv Hl) as (o & v' & -> & H & _). do 3 eexists. split; [reflexivity | exact H].
Qed.

Lemma calls_return cs s : windows_sane -> Forall core_loadable cs -> vrx_good (vrx_ s) ->
  exists acts s', core_calls cs s = Some (acts, s') /\ vrx_good (vrx_ s').
Proof.
  intros Hw Hl. revert s. induction Hl as [|c cs Hc Hcs IH]; intros s Hv; [by exists [], s |].
  cbn [HopLoop.core_calls]. destruct (call_returns c s Hw Hc Hv) as (a & o & s1 & -> & H1). cbn [mbind option_bind snd].
  destruct (IH s1 H1) as (acts & s2 & -> & H2). do 2 eexists. split; [reflexivity | exact H2].
Qed.

Lemma new_vrx_carried vcfg random v : new_vrx pow vcfg random = Some v -> carried v = (0, 0).
Proof. unfold new_vrx. by intros (c & _ & (r & _ & [= <-])%bind_Some)%bind_Some. Qed.

(** C20.  The link stays on the set, and the feedback orders what the controller decided.  Whatever the
    windows, ticks, session edges, acks and commits, as long as the start channel, the candidates
    and the relocations asked for are members: every call returns; the operating channel, the
    wanted one and every card's channel are members of the set; and every feedback frame sent, as
    the bytes of the frame and as a receiver parses it, carries the target and epoch of the
    controller's last order or withdrawal before it (zeros before the first), a member too once
    there is one.  Besides feedback only beacons are sent.  (Only the core's own actions set the order,
    the window length and count are not zero, and a ladder swapped in can be loaded.) *)
Theorem link_stays_on_set cs channels boot width vcfg random v :
  on_plan (start plan_cfg) -> Forall on_plan channels -> new_vrx pow vcfg random = Some v ->
  windows_sane -> Forall vrx_free cs -> Forall names_members cs -> Forall core_loadable cs ->
  let c0 := new_core plan_cfg (new_ranker channels boot width) v in
  exists acts s, core_calls cs c0 = Some (acts, s) /\
  on_plan (op_ (plan_ s)) /\ on_plan (want_ (plan_ s)) /\ (forall card, on_plan (desired card (plan_ s))) /\
  Forall feedback_shows (on_air cs c0 (0, 0)) /\
  carried (vrx_ s) = foldl told (0, 0) acts /\ ordered (hopc_ s) = foldl told (0, 0) acts /\
  (hop_ch_ (hopc_ s) = 0 \/ on_plan (hop_ch_ (hopc_ s))).
Proof.
  intros Hs Hc Hv Hw Hf Hn Hl c0. destruct (new_vrx_ok exp pow vcfg random v Hv) as (Hg & _).
  destruct (calls_return cs c0 Hw Hl Hg) as (acts & s & E & _). exists acts, s. split; [exact E |].
  assert (H0 : carried (vrx_ c0) = (0, 0)) by exact (new_vrx_carried _ _ _ Hv).
  assert (Ha : agree c0) by exact H0. pose proof (calls_carried _ _ _ _ Hf E) as Ht. rewrite H0 in Ht.
  apply (calls_agree _ _ _ _ Hf Ha) in E as Ha'. apply (calls_keep_on _ _ _ _ Hn (new_core_on channels boot width v Hs Hc)) in E as [[P1 P2 P3] [H1 _] _].
  split; [exact P1 |]. split; [exact P2 |]. split; [| split; [exact (air_shows cs c0 _ Hf H0) | split; [exact Ht | split; [by rewrite <- Ha' | exact H1]]]].
  intros card. unfold desired. destruct (hopping_ (plan_ s)) eqn:Eh; cbn [andb]; [| exact P1]. destruct (_ || _); [exact (P3 eq_refl) | exact P1].
Qed.
End Core.
