(* ===== verification/HopCalm.v ===== *)
(** * HopCalm: no foreign airtime, no hop

    While no card ever reads more airtime than the drone's own frames explain, whatever the losses,
    the signal and the order of calls, the ground station never orders a hop. *)
From S2P Require Import Prelude Bytes SwConfig Profile RcProto RungStore LadderController LadderSound Rendezvous VrxController VrxProps LinkUp HopVerdict HopController HopRanker ChannelPlan HopLoop HopLoopProps.

(** ** Zeros *)

Definition is_zero (x : double) : bool := match x with S754_zero _ => true | _ => false end.

Lemma zero_min x y : is_zero x = true -> is_zero y = true -> is_zero (d_min x y) = true.
Proof. destruct x, y; try done. Qed.

Lemma zero_below x t : is_zero x = true -> d_ltb d_zero t = true -> d_geb x t = false.
Proof. destruct x; try done. by destruct t as [|[]| |[]]. Qed.

Lemma zero_mean x y : is_zero x = true -> is_zero y = true -> is_zero (d_div (d_add x y) (d_of_Z 2)) = true.
Proof. destruct x as [s| | |], y as [s'| | |]; try done. by destruct s, s'. Qed.

(** No more airtime than our own. *)
Definition own_air (c : VerdictCardIn) : Prop := c_valid c = true -> busy_valid c = true -> d_leb (foreign_pct c) d_zero = true.

Lemma own_air_zero c : own_air c -> c_valid c && busy_valid c = true -> is_zero (foreign_pct c) = true.
Proof.
  intros Hc [H1 H2]%andb_true_iff. specialize (Hc H1 H2). revert Hc. unfold foreign_pct, d_max.
  destruct (d_ltb (d_sub (nhm_busy_pct c) (own_air_pct c)) d_zero) eqn:E; [done |]. revert E.
  by destruct (d_sub (nhm_busy_pct c) (own_air_pct c)) as [|[]| |[]].
Qed.

Lemma min_foreign_zero cards p : Forall own_air cards -> min_foreign cards = Some p -> is_zero p = true.
Proof.
  unfold min_foreign. assert (H : forall acc, (forall q, acc = Some q -> is_zero q = true) -> Forall own_air cards ->
    forall p, fold_left (fun acc c => if c_valid c && busy_valid c
      then Some (match acc with Some m => d_min m (foreign_pct c) | None => foreign_pct c end) else acc) cards acc = Some p -> is_zero p = true).
  2: { intros Hc. by apply (H None). }
  clear p. induction cards as [|c cards IH]; intros acc Ha Hc p; cbn [fold_left]; [by apply Ha |].
  apply Forall_cons in Hc as [Hc Hcs]. apply IH; [| done]. destruct (c_valid c && busy_valid c) eqn:Hv; [| done].
  pose proof (own_air_zero c Hc Hv) as Hz. destruct acc as [m|]; intros q [= <-]; [apply zero_min; auto | done].
Qed.

(** ** The median of zeros *)

Lemma median_zero l : Forall (fun x => is_zero x = true) l -> (0 < length l)%nat -> exists m, median l = Some m /\ is_zero m = true.
Proof.
  intros Hl Hn. unfold median. rewrite <- (sorted_perm l) in Hl. pose proof (Permutation_length (sorted_perm l)) as Hlen.
  rewrite Forall_lookup in Hl. assert (Hget : forall k, (k < length l)%nat -> exists x, ascending l !! k = Some x /\ is_zero x = true).
  { intros k Hk. destruct (lookup_lt_is_Some_2 (ascending l) k) as [x Hx]; [lia |]. eauto. }
  destruct (Hget (length l / 2)%nat) as (hi & -> & Hhi). { apply Nat.div_lt; lia. }
  cbn [mbind option_bind]. destruct (Nat.eqb_spec (length l mod 2) 0) as [He |]; [| eauto].
  destruct (Hget (length l / 2 - 1)%nat) as (lo & -> & Hlo).
  { pose proof (Nat.div_lt (length l) 2). lia. }
  cbn [mbind option_bind]. eexists. split; [reflexivity |]. by apply zero_mean.
Qed.

Section Verdict.
Context (cfg : HopCfg) (busy : BusyCfg).

Local Abbreviation hv := (verdict_cfg cfg).

(** Thresholds that mean something. *)
Record sane : Prop := {
  sn_window : window_ms cfg <> 0;
  sn_persist : 1 <= persist cfg;
  sn_blocked : d_ltb d_zero busy = true;
  sn_detect : d_ltb d_zero (detect_pct hv) = true;
  sn_occupied : 1 <= occupied_windows hv;
  sn_windows : 1 <= detect_windows hv;
}.

Record still (s : HopVerdict) : Prop := {
  st_ring : Forall (fun d => is_zero (foreign d) = true) (detect_ring_ s);
  st_streak : blocked_streak_ s = 0;
  st_recent : Forall (fun b => b = false) (recent_interfered_ s);
}.

Lemma ring_quiet needed ring : sane -> Forall (fun d => is_zero (foreign d) = true) ring -> ring_reads_detect cfg needed ring = Some false.
Proof.
  intros [? ? ? Hd ? Hw] Hr. unfold ring_reads_detect. destruct (n_lossy ring <? needed); [done |]. cbn [orb].
  destruct (Z.ltb_spec (Z.of_nat (length (readings ring))) (Z.quot (detect_windows hv + 1) 2)) as [|Hn]; [done |].
  destruct (median_zero (readings ring)) as (m & -> & Hm).
  - unfold readings. apply Forall_forall. intros x (d & Hd' & Hx)%list_elem_of_omap. rewrite Forall_forall in Hr. specialize (Hr d Hd').
    destruct (reading d); [by injection Hx as <- | done].
  - assert (1 <= Z.quot (detect_windows hv + 1) 2) by (apply Z.quot_le_lower_bound; lia). lia.
  - cbn. by rewrite (zero_below m).
Qed.

Lemma push_bounded_forall {A} (P : A -> Prop) n x l : P x -> Forall P l -> Forall P (push_bounded n x l).
Proof. intros Hx Hl. unfold push_bounded. apply Forall_drop, Forall_app. by split; [| constructor]. Qed.

Lemma count_none l : Forall (fun b => b = false) l -> count_true l = 0.
Proof. unfold count_true. induction 1 as [|b l -> Hl IH]; cbn; [done | exact IH]. Qed.

Lemma freeze_still t r rung s : still s -> still (freeze cfg t r rung s).2.
Proof. intros [H1 H2 H3]. unfold freeze. cbv zeta. repeat case_match; by split. Qed.

Lemma thaw_still v s : sane -> still s -> exists s', thaw cfg v s = Some s' /\ still s'.
Proof.
  intros Hs [H1 H2 H3]. unfold thaw. cbv zeta. set (s1 := s {{ healthy_streak_ := _ }}). assert (still s1) as Hs1 by (by split).
  destruct (frozen_ s1 && _); [| by exists s1]. rewrite (ring_quiet 1 (detect_ring_ s1) Hs (st_ring _ Hs1)). cbn [mbind option_bind].
  eexists. split; [reflexivity |]. destruct Hs1. by split.
Qed.

(** A window without foreign airtime: never interfered, no trigger. *)
Lemma window_still now cards link rung s : sane -> Forall own_air cards -> still s ->
  exists vo s', window cfg busy now cards link rung s = Some (vo, s') /\ still s' /\ trigger vo = false.
Proof.
  intros Hs Hc Hst. unfold window. rewrite (proj2 (Z.eqb_neq _ _)) by exact (sn_window Hs). cbv zeta.
  set (s0 := s {{ prev_ms_ := Some now }}). assert (H0 : still s0) by (destruct Hst; by split).
  destruct (best_card cards None) as [best|]; [| eexists _, s0; split; [reflexivity |]; by split].
  assert (Htake : exists t s1, take_window cfg busy (default now (prev_ms_ s)) cards best link s0 = Some (t, s1) /\ still s1 /\
    tm_blocked t = false /\ tm_detected t = false).
  { unfold take_window. cbv zeta. set (m := min_foreign cards).
    assert (Hm : forall p, m = Some p -> is_zero p = true) by (intros p; by apply min_foreign_zero).
    assert (Hb : match m with Some p => d_geb p busy | None => false end = false).
    { destruct m as [p|]; [| done]. apply zero_below; [by apply Hm | exact (sn_blocked Hs)]. }
    rewrite Hb. set (s1 := match m with Some _ => _ | None => s0 end).
    assert (H1 : still s1) by (destruct H0; subst s1; destruct m; by split).
    match goal with |- context [push_bounded ?n ?d (detect_ring_ s1)] => set (ring := push_bounded n d (detect_ring_ s1)) end.
    assert (Hring : Forall (fun d => is_zero (foreign d) = true) ring).
    { apply push_bounded_forall; [| exact (st_ring _ H1)]. cbn. destruct m as [p|]; [by apply Hm | reflexivity]. }
    change (detect_ring_ (s1 {{ detect_ring_ := ring }})) with ring. rewrite (ring_quiet _ ring Hs Hring). cbn [mbind option_bind].
    eexists _, _. split; [reflexivity |]. split; [destruct H1; by split |]. split; [reflexivity |]. apply andb_false_r. }
  destruct Htake as (t & s1 & -> & H1 & Hb & Hd). cbn [mbind option_bind].
  pose proof (freeze_still t (rec_reference s0) rung s1 H1) as H2. destruct (freeze cfg t (rec_reference s0) rung s1) as [first s2].
  destruct (thaw_still (classify t) s2 Hs H2) as (s3 & -> & H3). cbn [mbind option_bind].
  assert (Hv : bool_decide (classify t = Interfered) = false).
  { apply bool_decide_eq_false_2. unfold classify. rewrite Hb, Hd, andb_false_r. cbn [andb].
    destruct (negb _); [done |]. by destruct (tm_weak t). }
  rewrite Hv. set (s4 := if frozen_ s3 then s3 else _). assert (H4 : still s4) by (subst s4; destruct (frozen_ s3); destruct H3; by split).
  clearbody s4. destruct H4 as [R1 R2 R3].
  pose proof (push_bounded_forall (fun b => b = false) 3 false _ eq_refl R3) as R4.
  eexists _, _. split; [reflexivity |]. split; [by split |]. cbn [trigger].
  match goal with |- context [count_true ?l] => change l with (push_bounded 3 false (recent_interfered_ s4)) end.
  rewrite (count_none _ R4). apply Z.leb_gt. pose proof (sn_persist Hs). lia.
Qed.
End Verdict.

(** ** The whole core *)

Section Core.
Context (exp : double -> double) (pow : double -> double -> double).
Context (cfg : HopCfg) (busy : BusyCfg) (plan_cfg : ChannelPlanCfg) (reactive : bool).

Local Abbreviation core_call := (core_call exp pow cfg busy plan_cfg reactive).
Local Abbreviation core_calls := (core_calls exp pow cfg busy plan_cfg reactive).

(** No window reads foreign airtime, and no other part asks for a relocation. *)
Definition quiet_air (c : CoreCall) : Prop :=
  match c with
  | CcWindow _ cards _ => Forall own_air cards
  | CcTick i => ti_pending i = None
  | _ => True
  end.

Record calm (c : Core) : Prop := {
  cm_verdict : still (verdict_ c);
  cm_last : trigger (last_verdict_out_ c) = false;
  cm_idle : state_ (hopc_ c) = HsIdle;
  cm_order : ordered (hopc_ c) = (0, 0);
  cm_plan : hopping_ (plan_ c) = false;
}.

Lemma calm_tick_in i c : ti_pending i = None -> trigger (last_verdict_out_ c) = false ->
  trigger (verdict (hop_tick_in cfg busy reactive i c)) = false.
Proof.
  intros Hp Ht. unfold hop_tick_in. cbv zeta. rewrite Hp.
  destruct (ti_scout_owns i), (ti_burst_out i), reactive, (ti_relocation_owns i); first [reflexivity | exact Ht].
Qed.

Lemma idle_quiet i h : state_ h = HsIdle -> trigger (verdict i) = false -> tick pow cfg i h = (HopAction0, h).
Proof. intros Hs Ht. unfold tick, idle_tick, leave_hold. cbv zeta. rewrite Hs, Ht. cbn [negb]. rewrite bool_decide_eq_false_2 by discriminate. reflexivity. Qed.

Lemma plan_call_hopping c p : hopping_ (plan_call plan_cfg c p) = hopping_ p.
Proof.
  destruct c; cbn [plan_call]; unfold plan_tick, on_ack, commit, set_want, link_found; cbv zeta; repeat case_match; reflexivity.
Qed.

Lemma call_calm c s : sane cfg busy -> quiet_air c -> core_loadable pow c -> calm s -> vrx_ok (ok := ladder_good) (vrx_ s) ->
  exists o s', core_call c s = Some (HopAction0, o, s') /\ calm s'.
Proof.
  intros Hs Hq Hl [H1 H2 H3 H5 H4] Hv. destruct c as [now active | now cards link | i | pc | v | vc]; cbn [HopLoop.core_call].
  - unfold hop_edge. destruct (Bool.eqb _ _); [do 2 eexists; split; [reflexivity | by split] |]. cbv zeta. destruct active; cbn [mbind option_bind].
    + do 2 eexists. split; [reflexivity |]. split; [by split | done | exact H3 | exact H5 | exact H4].
    + match goal with |- context [on_session_lost pow cfg ?n ?o ?h] =>
        assert (Ho : on_session_lost pow cfg n o h = (HopAction0, h)) by (unfold on_session_lost; change (state_ h) with (state_ (hopc_ s)); by rewrite H3) end.
      rewrite Ho. do 2 eexists. split; [reflexivity |]. split; [by split | done | exact H3 | exact H5 | exact H4].
  - unfold hop_window. destruct (window_still cfg busy now cards link (idx_ (ctrl_ (vrx_ s))) (verdict_ s) Hs Hq H1) as (vo & v & -> & Hst & Htr).
    cbn [mbind option_bind]. cbv zeta. do 2 eexists. split; [reflexivity |]. destruct (hop_store_blank_until _ _ _); by split.
  - unfold hop_tick. cbv zeta. set (s1 := latch_lead i s).
    assert (E1 : hopc_ s1 = hopc_ s /\ last_verdict_out_ s1 = last_verdict_out_ s /\ verdict_ s1 = verdict_ s /\ plan_ s1 = plan_ s)
      by (subst s1; unfold latch_lead; case_bool_decide; by split_all). destruct E1 as (E1 & E2 & E3 & E4).
    rewrite (idle_quiet _ (hopc_ s1)); [| by rewrite E1 | apply calm_tick_in; [exact Hq | by rewrite E2]].
    unfold dispatch. cbn [fst snd mbind option_bind apply_hop_action kind HopAction0]. do 2 eexists. split; [reflexivity |].
    split; [by rewrite <- E3 in H1 | by rewrite <- E2 in H2 | by rewrite <- E1 in H3 | by rewrite <- E1 in H5 | by rewrite <- E4 in H4].
  - do 2 eexists. split; [reflexivity |]. split; [exact H1 | exact H2 | exact H3 | exact H5 |].
    change (hopping_ (plan_call plan_cfg pc (plan_ s)) = false). by rewrite plan_call_hopping.
  - do 2 eexists. split; [reflexivity |]. by split.
  - destruct (vrx_call_in exp pow vc (vrx_ s) Hv Hl) as (o & v' & -> & _). do 2 eexists. split; [reflexivity |]. by split.
Qed.

Lemma calls_calm cs s : sane cfg busy -> Forall quiet_air cs -> Forall (core_loadable pow) cs -> calm s ->
  vrx_ok (ok := ladder_good) (vrx_ s) ->
  exists acts s', core_calls cs s = Some (acts, s') /\ Forall (fun a => a = HopAction0) acts /\ calm s'.
Proof.
  intros Hs Hq Hl. revert s Hq. induction Hl as [|c cs Hc Hcs IH]; intros s Hq Hm Hv. { exists [], s. split; [done | split; [constructor | exact Hm]]. }
  apply Forall_cons in Hq as [Hq Hqs]. destruct (call_calm c s Hs Hq Hc Hm Hv) as (o & s1 & E1 & Hm1).
  destruct (call_returns exp pow cfg busy plan_cfg reactive c s) as (a' & o' & s1' & E1' & Hv1);
    [split; [exact (sn_window _ _ Hs) | exact (sn_windows _ _ Hs)] | exact Hc | exact Hv |].
  rewrite E1 in E1'. injection E1' as <- <- <-. destruct (IH s1 Hqs Hm1 Hv1) as (acts & s2 & E2 & Ha & Hm2).
  cbn [HopLoop.core_calls]. rewrite E1. cbn [mbind option_bind fst snd]. rewrite E2. cbn [mbind option_bind fst snd].
  do 2 eexists. split; [reflexivity |]. split; [by constructor | exact Hm2].
Qed.

(** With no action, the order told stays the same. *)
Lemma air_untold cs s last acts s' : core_calls cs s = Some (acts, s') -> Forall (fun a => a = HopAction0) acts ->
  Forall (fun x => x.1 = last) (on_air exp pow cfg busy plan_cfg reactive cs s last).
Proof.
  revert s acts. induction cs as [|c cs IH]; intros s acts; cbn [HopLoop.core_calls on_air]; [constructor |].
  intros ([[a o] s1] & E1 & ([acts1 s2] & E2 & [= <- <-])%bind_Some)%bind_Some. cbn [fst snd] in *. rewrite E1.
  intros [-> Ha]%Forall_cons. apply Forall_app. split; [| exact (IH _ _ E2 Ha)]. destruct o; [constructor; [done | constructor] | constructor].
Qed.

(** C21.  A fade never hops.  Whatever the losses, the signal, the acks, commits and session edges, as long
    as no card reads more airtime than the drone's own frames explain and nobody asks for a
    relocation: every call returns, the controller never acts and stays idle, no hop is ever in
    flight, and every feedback frame sent, as the bytes of the frame and as a receiver parses it,
    carries the empty order: channel 0, epoch 0.  (The thresholds are positive, only the core's own
    actions set the order, and a ladder swapped in can be loaded.) *)
Theorem fade_never_hops cs ranker vcfg random v :
  new_vrx pow vcfg random = Some v -> sane cfg busy -> Forall quiet_air cs -> Forall vrx_free cs -> Forall (core_loadable pow) cs ->
  let c0 := new_core plan_cfg ranker v in
  exists acts s, core_calls cs c0 = Some (acts, s) /\
    Forall (fun a => a = HopAction0) acts /\ state_ (hopc_ s) = HsIdle /\ hopping_ (plan_ s) = false /\
    Forall (fun x => frame_type x.2 = Some T_DISC \/ shows (0, 0) x.2) (on_air exp pow cfg busy plan_cfg reactive cs c0 (0, 0)).
Proof.
  intros Hv Hs Hq Hf Hl c0. destruct (new_vrx_ok exp pow vcfg random v Hv) as (Hg & _).
  destruct (calls_calm cs c0 Hs Hq Hl) as (acts & s & E & Ha & Hm); [split; [by split | done | done | done | done] | exact Hg |].
  exists acts, s. split; [exact E |]. split; [exact Ha |]. split; [exact (cm_idle _ Hm) |]. split; [exact (cm_plan _ Hm) |].
  pose proof (air_shows exp pow cfg busy plan_cfg reactive cs c0 _ Hf (new_vrx_carried pow vcfg random v Hv)) as H1.
  pose proof (air_untold cs c0 (0, 0) acts s E Ha) as H2. rewrite Forall_forall in H1, H2 |- *. intros x Hx.
  specialize (H1 x Hx). specialize (H2 x Hx). unfold feedback_shows in H1. by rewrite H2 in H1.
Qed.
End Core.
