(* ===== verification/HopLink.v ===== *)
(** * HopLink: an order on one end moves both

    What the controller may order; and the whole exchange: the order rides the next feedback frame,
    the drone that hears it retunes, and its video on the target takes the ground there. *)
From S2P Require Import Prelude Bytes SipHash SwConfig Profile RcProto RcProtoProps RungStore LadderController LadderSound LadderProps Rendezvous VrxController VrxProps RcPolicy RcAgent RcAgentSound RcAgentInv RcAgentProps LinkUp HopVerdict HopController HopRanker ChannelPlan HopLoop HopLoopProps.

(** ** The drone obeys *)

Section Drone.
Context (dc : Config).

Definition moved_to (t : Z) (w : World) : Prop :=
  channel (chan (ag w)) = t /\ move_pending (chan (ag w)) = true /\ ERetune t ReasonHop ∈ out w.

(** An order the drone has not taken yet, to a member it is not on. *)
Definition new_order (ch ep : Z) (c : Chan) : Prop :=
  ch <> 0 /\ (have_hop c = false \/ ep <> seen_hop_epoch c \/ ch <> seen_hop_ch c) /\ RcAgent.member dc ch = true /\ ch <> channel c.

Lemma hop_order_moves r now w : new_order (hop_ch r) (hop_epoch r) (chan (ag w)) -> moved_to (hop_ch r) (RcAgent.hop_order dc r now w).
Proof.
  intros (H1 & H2 & H3 & H4). unfold RcAgent.hop_order. cbv zeta. rewrite H3.
  rewrite (proj2 (Z.eqb_neq (hop_ch r) 0) H1), (proj2 (Z.eqb_neq (hop_ch r) (channel (chan (ag w)))) H4). cbn [negb andb].
  assert (Hn : negb (have_hop (chan (ag w))) || negb (hop_epoch r =? seen_hop_epoch (chan (ag w))) || negb (hop_ch r =? seen_hop_ch (chan (ag w))) = true).
  { destruct H2 as [-> | [H | H]]; [done | |]; apply Z.eqb_neq in H; rewrite H; cbn [negb]; by rewrite ?orb_true_r. }
  rewrite Hn. split; [reflexivity |]. split; [reflexivity |]. unfold emit. apply list_elem_of_In, in_or_app. right. by left.
Qed.

Ltac kept_move :=
  let M1 := fresh "M" in let M2 := fresh "M" in let M3 := fresh "M" in
  intros ? (M1 & M2 & M3); open_stage; (split; [exact M1 |]); (split; [exact M2 |]);
  repeat first [exact M3 | apply elem_of_app; left].

Lemma apply_rcf_moves E r now w : new_order (hop_ch r) (hop_epoch r) (chan (ag w)) -> moved_to (hop_ch r) (apply_rcf dc E r now w).
Proof.
  intros Hn. unfold apply_rcf. destruct (decode_profile (profile r)) as [[m mcs] bw]. cbv zeta. set (t := hop_ch r) in *.
  assert (H2 : forall w, moved_to t w -> moved_to t (record_wish E r w)) by kept_move.
  assert (H3 : forall w, moved_to t w -> moved_to t (sensor_offset r w)) by kept_move.
  assert (H4 : forall w, moved_to t w -> moved_to t (note_idr_epoch r w)) by kept_move.
  assert (H5 : forall prev w, moved_to t w -> moved_to t (enter_linked prev now w)) by (intros prev; kept_move).
  assert (H6 : forall w, moved_to t w -> moved_to t (link_up_idr now w)) by kept_move.
  assert (H7 : forall f w, moved_to t w -> moved_to t (run_bitrate_policy dc E now f w)) by (intros f; kept_move).
  apply H7. assert (H0 : forall lad, moved_to t (RcAgent.hop_order dc r now (apply_ladder_op lad (fec_overhead_base r) (fec_overhead_enh r) (probe_profile r) w)))
    by (intros lad; apply hop_order_moves; exact Hn).
  case_bool_decide; [apply H6 |]; apply H5, H4, H3, H2, H0.
Qed.

(** A frame of the current pair, fresh. *)
Lemma drone_obeys E body r t a q :
  frame_type body = Some T_RCF -> parse_rcf body = Some (Some r) ->
  verify_control body (key dc) (mkTagCtx (s_vrx (current a)) (s_vtx (current a)) q) = Some true ->
  s_valid (current a) = true -> rcf_candidate r (current a) = Some q -> new_order (hop_ch r) (hop_epoch r) (chan a) ->
  exists a2 es, RcAgent.step dc E (InFrame body t) a = Some (a2, es) /\
    channel (chan a2) = hop_ch r /\ move_pending (chan a2) = true /\ ERetune (hop_ch r) ReasonHop ∈ es.
Proof.
  intros Ht Hpa Hve Hc Hs Hn. unfold RcAgent.step, call, on_rc_frame. rewrite Ht. cbn [mbind option_bind].
  change (T_RCF =? T_DISC) with false. rewrite (Z.eqb_refl T_RCF), Hpa. cbn iota. cbn [mbind option_bind].
  unfold on_rcf, verify_rcf. cbn [ag]. rewrite Hc. cbn [negb]. rewrite Hs, Hve. cbn [mbind option_bind].
  set (w0 := mkWorld a []). assert (Hn1 : new_order (hop_ch r) (hop_epoch r) (chan (ag (accept_rcf q w0)))).
  { unfold accept_rcf. cbv zeta. destruct (move_pending _); exact Hn. }
  destruct (apply_rcf_moves E r t (accept_rcf q w0) Hn1) as (M1 & M2 & M3).
  eexists _, _. split; [reflexivity |]. split; [exact M1 |]. split; [exact M2 | exact M3].
Qed.
End Drone.

(** The number a fresh frame claims is the one the ground counted. *)
Lemma candidate_counted r s q : rcf_seq r = u16 q -> 0 <= q < 2 ^ 32 ->
  (if have_seq s then 1 <= q - last_seq32 s <= 32767 else q < 2 ^ 16) -> rcf_candidate r s = Some q.
Proof.
  intros Hr Hq Hs. unfold rcf_candidate. rewrite Hr. destruct (have_seq s); cbn [negb]; [| by rewrite u16_small by (eval_pow2; lia)].
  assert (Hd : u16 (u16 q - u16 (last_seq32 s)) = q - last_seq32 s).
  { unfold wrap. rewrite <- Zminus_mod. apply Z.mod_small. eval_pow2. lia. }
  rewrite Hd. rewrite (proj2 (Z.ltb_ge _ _)), (proj2 (Z.ltb_ge _ _)) by lia. cbn [orb].
  f_equal. replace (last_seq32 s + (q - last_seq32 s)) with q by lia. unfold wrap. by apply Z.mod_small.
Qed.

(** ** The ground orders, and follows *)

Section Ground.
Context (exp : double -> double) (pow : double -> double -> double).
Context (cfg : HopCfg) (busy : BusyCfg) (reactive : bool).

Local Abbreviation hop_tick := (hop_tick pow cfg busy reactive).

Lemma dispatch_kept x now c a c' : dispatch cfg x now c = Some (a, c') -> a = x.1 /\ standing (hopc_ c') = standing x.2 /\
  carried (vrx_ c') = match kind a with ActOrder | ActWithdraw => (target a, act_epoch a) | _ => carried (vrx_ c) end.
Proof.
  unfold dispatch. intros (c1 & E1 & E)%bind_Some. apply (inj Some) in E. injection E as <- <-.
  apply apply_agree in E1 as [H1 H2]. split; [done |]. split; [change (standing (hopc_ c1) = standing x.2); by rewrite H1 | exact H2].
Qed.

Lemma protocol_order x c a y : protocol cfg x c a y -> kind a = ActOrder -> exists t e, y = (Open false, t, e).
Proof. destruct 1; intros Hk; try discriminate Hk; by do 2 eexists. Qed.

Lemma order_given i c a c1 : hop_tick i c = Some (a, c1) -> kind a = ActOrder -> 0 <= act_lead_card a ->
  carried (vrx_ c1) = (target a, act_epoch a) /\ state_ (hopc_ c1) = HsOrdered /\
  hopping_ (plan_ c1) = true /\ hop_target_ (plan_ c1) = target a.
Proof.
  unfold HopLoop.hop_tick. cbv zeta. set (c0 := latch_lead i c). set (ht := hop_tick_in cfg busy reactive i c0).
  intros E Hk Hlead. apply dispatch_kept in E as E'. destruct E' as (-> & Hst & Hca). rewrite Hk in Hca. split; [exact Hca |]. split.
  - pose proof (call_protocol pow cfg (HTick ht) (hopc_ c0) _ _ (surjective_pairing (tick pow cfg ht (hopc_ c0)))) as P.
    rewrite <- Hst in P. revert P Hk. generalize (tick pow cfg ht (hopc_ c0)).1. intros a P Hk.
    destruct (protocol_order _ _ _ _ P Hk) as (t & e & Ho).
    unfold standing in Ho. by destruct (state_ (hopc_ c1)).
  - unfold dispatch, HopLoop.apply_hop_action in E. rewrite Hk in E. apply bind_Some in E as (c2 & E & E2). cbv zeta in E.
    apply bind_Some in E as (v & _ & E). apply (inj Some) in E, E2. injection E2 as <-. rewrite (proj2 (Z.leb_le _ _) Hlead) in E. subst c2.
    unfold plan_hop_order. cbv zeta. cbn. split; by case_match.
Qed.

Lemma tick_in_video i c : video_on_target (hop_tick_in cfg busy reactive i c) = hopping_ (plan_ c) && (ti_video_ch i =? hop_target_ (plan_ c)).
Proof.
  unfold hop_tick_in. cbv zeta. destruct (ti_scout_owns i), (ti_burst_out i), reactive, (ti_pending i), (ti_relocation_owns i); reflexivity.
Qed.

Lemma video_confirms i c : state_ (hopc_ c) = HsOrdered -> hopping_ (plan_ c) = true -> ti_video_ch i = hop_target_ (plan_ c) ->
  exists a c', hop_tick i c = Some (a, c') /\ kind a = ActConfirm /\ state_ (hopc_ c') = HsVerifying /\
    op_ (plan_ c') = hop_target_ (plan_ c) /\ (forall card, desired card (plan_ c') = hop_target_ (plan_ c)).
Proof.
  intros Hs Hh Hv. unfold HopLoop.hop_tick. cbv zeta. unfold latch_lead. rewrite Hs. cbn [bool_decide decide_rel].
  rewrite bool_decide_eq_true_2 by reflexivity. set (ht := hop_tick_in cfg busy reactive i c).
  assert (Hv' : video_on_target ht = true) by (unfold ht; by rewrite tick_in_video, Hh, Hv, Z.eqb_refl).
  unfold tick, ordered_tick. rewrite Hs, Hv'. cbv zeta. unfold dispatch, HopLoop.apply_hop_action. cbn [fst snd kind mbind option_bind].
  eexists _, _. split; [reflexivity |]. split; [reflexivity |]. split; [reflexivity |].
  match goal with |- op_ (plan_ ?c') = _ /\ _ => set (p := plan_ c') end.
  assert (Hp : p = plan_hop_confirmed (ti_now i) (plan_ c)) by reflexivity. clearbody p. subst p.
  unfold plan_hop_confirmed, skip_hop_span. cbv zeta. change (hopping_ ((plan_ c) {{ now_ms_ := ti_now i }})) with (hopping_ (plan_ c)). rewrite Hh. cbn [negb].
  destruct (have_lost_since_ _); (split; [reflexivity | intros card; reflexivity]).
Qed.

(** ** Waiting for video *)

(** Calls that neither end the session nor read video on the target, within the confirm time. *)
Definition still_waiting (t : Z) (t0 : double) (c : CoreCall) : Prop :=
  match c with
  | CcEdge _ active => active = true
  | CcTick i => ti_video_ch i <> t /\ d_geb (d_sub (ti_now i) t0) (d_of_Z (confirm_ms cfg)) = false
  | CcVrx (VHop _ _) => False
  | _ => True
  end.

(** The order is out. *)
Record out_to (t ep : Z) (t0 : double) (c : Core) : Prop := mkOutTo {
  ot_state : state_ (hopc_ c) = HsOrdered;
  ot_ch : hop_ch_ (hopc_ c) = t;
  ot_when : order_ms_ (hopc_ c) = t0;
  ot_plan : hopping_ (plan_ c) = true /\ hop_target_ (plan_ c) = t;
  ot_told : carried (vrx_ c) = (t, ep);
}.

Lemma plan_call_hop plan_cfg c p : hopping_ (plan_call plan_cfg c p) = hopping_ p /\ hop_target_ (plan_call plan_cfg c p) = hop_target_ p.
Proof.
  destruct c; cbn [plan_call]; unfold plan_tick, on_ack, commit, set_want, link_found; cbv zeta; repeat case_match; by split.
Qed.

Lemma tick_in_now i c : now_ms (hop_tick_in cfg busy reactive i c) = ti_now i.
Proof.
  unfold hop_tick_in. cbv zeta. destruct (ti_scout_owns i), (ti_burst_out i), reactive, (ti_pending i), (ti_relocation_owns i); reflexivity.
Qed.

(** The deadline runs from the tick that ordered, and the target is the controller's. *)
Lemma order_time i h a h' : tick pow cfg i h = (a, h') -> kind a = ActOrder -> order_ms_ h' = now_ms i /\ hop_ch_ h' = target a.
Proof.
  assert (Ho : forall ch re le sc now k s a h', order ch re le sc now k s = (a, h') -> order_ms_ h' = now /\ hop_ch_ h' = target a)
    by (intros * [= <- <-]; by split).
  assert (Hh : forall now k ch e s a h', enter_hold now k ch e s = (a, h') -> kind a <> ActOrder) by (intros * [= <- _]; discriminate).
  unfold tick, idle_tick, ordered_tick, verifying_tick, verify_fail, verify_pass, withdraw. cbv zeta. intros E Hk. revert E.
  repeat match goal with
  | |- (if ?b then _ else _) = _ -> _ => destruct b
  | |- match ?x with _ => _ end = _ -> _ => destruct x eqn:?
  end; try (intros [= <- _]; discriminate Hk); try (by intros E; apply Ho in E); try (by intros E; apply Hh in E).
  all: intros [= <- <-]; match goal with H : order _ _ _ _ _ _ _ = _ |- _ => exact (Ho _ _ _ _ _ _ _ _ _ H) end.
Qed.

Lemma order_out i c a c1 : hop_tick i c = Some (a, c1) -> kind a = ActOrder -> 0 <= act_lead_card a ->
  out_to (target a) (act_epoch a) (ti_now i) c1.
Proof.
  intros E Hk Hl. destruct (order_given i c a c1 E Hk Hl) as (H1 & H2 & H3 & H4).
  unfold HopLoop.hop_tick in E. cbv zeta in E. set (c0 := latch_lead i c) in *. set (ht := hop_tick_in cfg busy reactive i c0) in *.
  destruct (tick pow cfg ht (hopc_ c0)) as [a' h'] eqn:Et.
  unfold dispatch in E. apply bind_Some in E as (c2 & E & E2). apply (inj Some) in E2. injection E2 as <- <-. cbn [fst snd] in *.
  apply apply_agree in E as [H5 _]. destruct (order_time _ _ _ _ Et Hk) as [H6 H7]. unfold ht in H6. rewrite tick_in_now in H6.
  split; [exact H2 | | | by split | exact H1].
  - change (hop_ch_ (hopc_ c2) = target a'). by rewrite H5.
  - change (order_ms_ (hopc_ c2) = ti_now i). by rewrite H5.
Qed.

(** A tick that waits does nothing, or retunes the only card there is. *)
Definition quiet_action (a : HopAction) : Prop := kind a = ActNone \/ kind a = ActOneCardRetune.

Lemma waiting_tick t ep t0 i c : out_to t ep t0 c -> still_waiting t t0 (CcTick i) ->
  exists a c', hop_tick i c = Some (a, c') /\ quiet_action a /\ out_to t ep t0 c'.
Proof.
  intros [H1 H2 H3 [H4 H5] H6] [Hv Ht]. unfold HopLoop.hop_tick. cbv zeta. unfold latch_lead. rewrite bool_decide_eq_true_2 by exact H1.
  pose proof (tick_in_now i c) as Hn. pose proof (tick_in_video i c) as Hvt. rewrite H4, H5 in Hvt. apply Z.eqb_neq in Hv. rewrite Hv in Hvt.
  cbn [andb] in Hvt. set (ht := hop_tick_in cfg busy reactive i c) in *.
  assert (Hd : d_geb (d_sub (now_ms ht) (order_ms_ (hopc_ c))) (d_of_Z (confirm_ms cfg)) = false) by (by rewrite Hn, H3).
  unfold tick, ordered_tick. rewrite H1, Hvt. cbv zeta. rewrite Hd. unfold dispatch.
  destruct (_ && _ && _); cbn [fst snd mbind option_bind HopLoop.apply_hop_action kind HopAction0 target].
  - do 2 eexists. split; [reflexivity |]. split; [by right |]. split; [exact H1 | exact H2 | exact H3 | | exact H6].
    split; [| rewrite <- H2]; unfold plan_hop_order; cbn; by case_match.
  - do 2 eexists. split; [reflexivity |]. split; [by left |]. split; [exact H1 | exact H2 | exact H3 | by split | exact H6].
Qed.

Section Waits.
Context (plan_cfg : ChannelPlanCfg).

Local Abbreviation core_call := (core_call exp pow cfg busy plan_cfg reactive).
Local Abbreviation core_calls := (core_calls exp pow cfg busy plan_cfg reactive).

Lemma waiting_call t ep t0 c s : out_to t ep t0 s -> still_waiting t t0 c -> windows_sane cfg -> core_loadable pow c ->
  vrx_ok (ok := ladder_good) (vrx_ s) ->
  exists a o s', core_call c s = Some (a, o, s') /\ quiet_action a /\ out_to t ep t0 s' /\ vrx_ok (ok := ladder_good) (vrx_ s').
Proof.
  intros Ho Hw Hs Hl Hv. destruct (call_returns exp pow cfg busy plan_cfg reactive c s Hs Hl Hv) as (a & o & s' & E & Hv').
  exists a, o, s'. split; [exact E |]. enough (quiet_action a /\ out_to t ep t0 s') as [? ?] by done. revert E.
  destruct Ho as [H1 H2 H3 H4 H5]. destruct c as [now active | now cards link | i | pc | v | vc]; cbn [HopLoop.core_call].
  - intros ([a1 s1] & E & [= <- _ <-])%bind_Some. revert E. unfold hop_edge. cbn in Hw. subst active.
    destruct (Bool.eqb _ _); [intros [= <- <-] | cbn [mbind option_bind]; intros [= <- <-]]; (split; [by left | by split]).
  - intros (s1 & E & [= <- _ <-])%bind_Some. revert E. unfold hop_window. intros ([vo v] & _ & E)%bind_Some. apply (inj Some) in E. subst s1.
    split; [by left |]. cbv zeta. destruct (hop_store_blank_until _ _ _); by split.
  - intros ([a1 s1] & E & [= <- _ <-])%bind_Some.
    destruct (waiting_tick t ep t0 i s (mkOutTo _ _ _ _ H1 H2 H3 H4 H5) Hw) as (a2 & s2 & E2 & H). rewrite E in E2. by injection E2 as <- <-.
  - intros [= <- _ <-]. split; [by left |]. split; [exact H1 | exact H2 | exact H3 | | exact H5].
    destruct (plan_call_hop plan_cfg pc (plan_ s)) as [E1 E2]. destruct H4 as [H4 H6]. split; [exact (eq_trans E1 H4) | exact (eq_trans E2 H6)].
  - intros [= <- _ <-]. split; [by left | by split].
  - intros ([o1 v1] & E & [= <- _ <-])%bind_Some. split; [by left |]. split; [exact H1 | exact H2 | exact H3 | exact H4 |].
    apply vrx_call_carried in E; [exact (eq_trans E H5) |]. by destruct vc.
Qed.

Lemma waiting_calls t ep t0 cs s : out_to t ep t0 s -> Forall (still_waiting t t0) cs -> windows_sane cfg -> Forall (core_loadable pow) cs ->
  vrx_ok (ok := ladder_good) (vrx_ s) ->
  exists acts s', core_calls cs s = Some (acts, s') /\ Forall quiet_action acts /\ out_to t ep t0 s'.
Proof.
  intros Ho Hw Hs Hl. revert s Ho. induction Hw as [|c cs Hc Hcs IH]; intros s Ho Hv; [by exists [], s |].
  apply Forall_cons in Hl as [Hl1 Hl]. destruct (waiting_call t ep t0 c s Ho Hc Hs Hl1 Hv) as (a & o & s1 & E & Ha & Ho1 & Hv1).
  destruct (IH Hl s1 Ho1 Hv1) as (acts & s2 & E2 & Has & Ho2). cbn [HopLoop.core_calls]. rewrite E. cbn [mbind option_bind fst snd].
  rewrite E2. cbn [mbind option_bind fst snd]. do 2 eexists. split; [reflexivity |]. split; [by constructor | exact Ho2].
Qed.
End Waits.
End Ground.

Lemma protocol_target cfg x i a y : protocol cfg x (HTick i) a y -> kind a = ActOrder -> best i = Some (target a) \/ escape i = Some (target a).
Proof.
  intros P Hk. remember (HTick i) as c eqn:Ec. destruct P as [| p ch ep i' a t Hp Hk' Ht He Hb Hl Hr | | | | | | |]; try discriminate Hk.
  injection Ec as ->. by rewrite Ht.
Qed.

Lemma in_backed_off_failed now h ch b : backoff_ h !! ch = Some b -> d_gtb (until_ms b) now = true -> bwhy b = Failed ->
  ch ∈ backed_off_failed now h.
Proof.
  intros Hb Hu Hw. unfold backed_off_failed. apply list_elem_of_omap. exists (ch, b). split; [by apply elem_of_map_to_list |].
  cbn [fst snd]. by rewrite Hu, Hw.
Qed.

Lemma failed_backed_off now h : backed_off_failed now h ⊆ backed_off now h.
Proof.
  intros ch. unfold backed_off_failed, backed_off. rewrite !list_elem_of_omap. intros ([k b] & Hin & E). exists (k, b). split; [done |].
  cbn [fst snd] in *. destruct (d_gtb (until_ms b) now); cbn [andb] in E; [| done]. by case_bool_decide.
Qed.

(** The feedback frame that carries an order, at the drone in session. *)
Lemma feedback_moves exp dc v t h r v3 a n E now ch ep :
  v_key (vcfg v) = key dc -> wires_typed (wires v) -> rz_vtx_nonce (rz_ v) = Some n -> carried v = (ch, ep) ->
  vrx_step exp t h v = Some (Some r, v3) -> is_disc r = false ->
  s_valid (current a) = true -> s_vrx (current a) = rz_nonce (rz_ v) -> s_vtx (current a) = n ->
  0 <= seq32_ v < 2 ^ 32 - 1 ->
  (if have_seq (current a) then 1 <= seq32_ v3 - last_seq32 (current a) <= 32767 else seq32_ v3 < 2 ^ 16) ->
  new_order dc ch ep (chan a) ->
  exists a2 es, RcAgent.step dc E (InFrame (o_frame r) now) a = Some (a2, es) /\
    channel (chan a2) = ch /\ move_pending (chan a2) = true /\ ERetune ch ReasonHop ∈ es.
Proof.
  intros Hkey HT Hn Hca Hs3 Hr C Vx Vt Hq Hfr Hnew.
  destruct (vrx_step_eq exp t h v (Some r) v3 Hs3) as (W & _ & H3). rewrite Hr in H3. destruct H3 as (rcf & n' & Hn' & HR & Q3 & F3).
  rewrite Hn in Hn'. injection Hn' as <-. rewrite Hkey in F3.
  assert (Hq3 : seq32_ v3 = seq32_ v + 1) by (rewrite Q3; unfold wrap; apply Z.mod_small; lia).
  assert (Hrt : rcf_typed rcf) by (apply (our_rcf_typed v3 rcf HR); rewrite W; exact HT).
  assert (K : bytes_ok (key dc)) by (rewrite <- Hkey; apply HT).
  set (ctx := mkTagCtx (rz_nonce (rz_ v)) n (seq32_ v3)) in F3.
  pose proof (parse_pack_rcf rcf (key dc) ctx [] Hrt) as HPR. rewrite app_nil_r in HPR.
  assert (HV : verify_control (pack_rcf rcf (key dc) ctx) (key dc) (mkTagCtx (s_vrx (current a)) (s_vtx (current a)) (seq32_ v3)) = Some true)
    by (rewrite Vx, Vt; exact (rcf_verifies rcf (key dc) ctx Hrt K)).
  assert (Ho : hop_ch (rcf_on_wire rcf) = ch /\ hop_epoch (rcf_on_wire rcf) = ep).
  { pose proof (or_orders _ _ HR) as HO. injection HO as O1 O2 _ _ _. pose proof (f_equal w_hop_ch W) as O3. pose proof (f_equal w_hop_epoch W) as O4.
    cbn [w_hop_ch w_hop_epoch wires] in O3, O4. unfold carried in Hca. injection Hca as Hc1 Hc2. cbn [rcf_on_wire hop_ch hop_epoch]. split; congruence. }
  destruct Ho as [Ho1 Ho2]. rewrite <- Ho1, <- Ho2 in Hnew.
  assert (Hcand : rcf_candidate (rcf_on_wire rcf) (current a) = Some (seq32_ v3)).
  { apply candidate_counted; [exact (or_seq _ _ HR) | lia | exact Hfr]. }
  destruct (drone_obeys dc E (pack_rcf rcf (key dc) ctx) (rcf_on_wire rcf) now a (seq32_ v3) (pack_rcf_type rcf (key dc) ctx) HPR HV C Hcand Hnew)
    as (a2 & es & S & M1 & M2 & M3).
  exists a2, es. rewrite F3, <- Ho1. split; [exact S |]. split; [exact M1 |]. split; [exact M2 | exact M3].
Qed.

(** C19.  A hop moves both ends.  A tick of the ground station orders a hop with a lead card; then
    come any calls that neither lose the session nor find video on the target, their ticks within
    the confirm time (windows, acks, commits, visits, the control loop's steps).  Every one of them
    returns, and none withdraws the order or makes another.  Whenever among them the control loop sends
    a feedback frame, the drone in session that hears it retunes to the target, if the frame's number
    is new to it (within the 15-bit window of the last it accepted, or below 2^16 if it accepted none,
    the 32-bit counter not at its end) and the order too, and the target is a member of its set and not
    the channel it is on.  And the first tick that finds video on the target, whenever it comes
    after such calls, confirms the hop: the ground's operating channel and every card are on it too.
    (Both ends hold the same key and nonces, members are at their C++ widths, the control loop is in
    a valid state, the window length and count are not zero, and a ladder swapped in can be loaded.) *)
Theorem hop_moves_both (exp : double -> double) (pow : double -> double -> double) (cfg : HopCfg) (busy : BusyCfg)
    (plan_cfg : ChannelPlanCfg) (reactive : bool) (dc : Config) (i : TickIn) (c c1 : Core) (act : HopAction) (cs : list CoreCall) :
  hop_tick pow cfg busy reactive i c = Some (act, c1) -> kind act = ActOrder -> 0 <= act_lead_card act ->
  vrx_ok (ok := ladder_good) (vrx_ c1) -> windows_sane cfg -> Forall (core_loadable pow) cs ->
  Forall (still_waiting cfg (target act) (ti_now i)) cs ->
  exists acts s, core_calls exp pow cfg busy plan_cfg reactive cs c1 = Some (acts, s) /\ Forall quiet_action acts /\
    (forall (t2 : double) (h2 : LinkHealth) (r : Out) (v3 : Vrx) (a : Agent) (n : Z) (E : Env) (now : Z),
       let v := vrx_ s in
       vrx_step exp t2 h2 v = Some (Some r, v3) -> is_disc r = false ->
       v_key (vcfg v) = key dc -> wires_typed (wires v) -> rz_vtx_nonce (rz_ v) = Some n -> 0 <= seq32_ v < 2 ^ 32 - 1 ->
       s_valid (current a) = true -> s_vrx (current a) = rz_nonce (rz_ v) -> s_vtx (current a) = n ->
       (if have_seq (current a) then 1 <= seq32_ v3 - last_seq32 (current a) <= 32767 else seq32_ v3 < 2 ^ 16) ->
       new_order dc (target act) (act_epoch act) (chan a) ->
       exists a2 es, RcAgent.step dc E (InFrame (o_frame r) now) a = Some (a2, es) /\
         channel (chan a2) = target act /\ move_pending (chan a2) = true /\ ERetune (target act) ReasonHop ∈ es) /\
    (forall i2 : TickIn, ti_video_ch i2 = target act ->
       exists act2 c2, hop_tick pow cfg busy reactive i2 s = Some (act2, c2) /\ kind act2 = ActConfirm /\
         op_ (plan_ c2) = target act /\ forall card, desired card (plan_ c2) = target act).
Proof.
  intros Ht Hk Hl Hv Hs Hld Hw. pose proof (order_out pow cfg busy reactive i c act c1 Ht Hk Hl) as Ho.
  destruct (waiting_calls exp pow cfg busy reactive plan_cfg _ _ _ cs c1 Ho Hw Hs Hld Hv) as (acts & s & E & Ha & [S1 S2 S3 [S4 S5] S6]).
  exists acts, s. split; [exact E |]. split; [exact Ha |]. split.
  - intros t2 h2 r v3 a n En now v Hst Hr Hkey HT Hn Hq C Vx Vt Hfr Hnew.
    exact (feedback_moves exp dc v t2 h2 r v3 a n En now _ _ Hkey HT Hn S6 Hst Hr C Vx Vt Hq Hfr Hnew).
  - intros i2 Hv2. destruct (video_confirms pow cfg busy reactive i2 s) as (act2 & c2 & E2 & K2 & _ & O2 & D2);
      [exact S1 | exact S4 | by rewrite Hv2 |]. rewrite S5 in O2, D2.
    exists act2, c2. split; [exact E2 |]. split; [exact K2 |]. split; [exact O2 | exact D2].
Qed.

(** C23.  What the controller may order.  When a tick on which nobody asks for a relocation orders a hop, the
    target is a ranked candidate whose readings are not blocked, is not the operating channel, and
    is not one that failed and is still backed off. *)
Theorem hop_targets_sound (pow : double -> double -> double) (cfg : HopCfg) (busy : BusyCfg) (reactive : bool)
    (i : TickIn) (c c1 : Core) (act : HopAction) :
  hop_tick pow cfg busy reactive i c = Some (act, c1) -> kind act = ActOrder -> ti_pending i = None ->
  (exists e, e ∈ entries cfg busy (ti_now i) (ranker_ c) /\ e_ch e = target act /\ e_ranked e = true /\ e_blocked e = false) /\
  target act <> op_ (plan_ c) /\
  match backoff_ (hopc_ c) !! target act with
  | Some b => d_gtb (until_ms b) (ti_now i) = true -> bwhy b <> Failed
  | None => True
  end.
Proof.
  unfold hop_tick. cbv zeta. set (c0 := latch_lead i c). set (ht := hop_tick_in cfg busy reactive i c0). intros E Hk Hp.
  assert (E0 : ranker_ c0 = ranker_ c /\ plan_ c0 = plan_ c /\ hopc_ c0 = hopc_ c)
    by (subst c0; unfold latch_lead; case_bool_decide; by split_all). destruct E0 as (E1 & E2 & E3).
  apply dispatch_kept in E as (-> & _ & _).
  pose proof (call_protocol pow cfg (HTick ht) (hopc_ c0) _ _ (surjective_pairing (tick pow cfg ht (hopc_ c0)))) as P.
  assert (Hb : best ht = Some (target (tick pow cfg ht (hopc_ c0)).1) \/ escape ht = Some (target (tick pow cfg ht (hopc_ c0)).1)).
  { revert P Hk. generalize (tick pow cfg ht (hopc_ c0)).1, (standing (tick pow cfg ht (hopc_ c0)).2), (standing (hopc_ c0)).
    intros a y x P. exact (protocol_target cfg x ht a y P). }
  revert Hb. generalize (target (tick pow cfg ht (hopc_ c0)).1). intros t Hb.
  apply offered_targets in Hb as [Hb | [_ Hb]]; [congruence |].
  assert (Hskip : exists skip, best_target cfg busy (ti_now i) skip c0 = Some t /\ backed_off_failed (ti_now i) (hopc_ c0) ⊆ skip).
  { destruct Hb as [Hb | Hb]; eexists; (split; [exact Hb |]); [apply failed_backed_off | done]. }
  destruct Hskip as (skip & Hs & Hsub). unfold best_target, best_channel in Hs.
  destruct (List.find _ _) as [e|] eqn:Hf; [| done]. injection Hs as <-. apply List.find_some in Hf as [Hin Hel].
  apply list_elem_of_In in Hin. rewrite (ranking_perm cfg busy (ti_now i) (ranker_ c0)), E1 in Hin. rewrite E2 in Hel.
  unfold eligible in Hel. rewrite !andb_true_iff, !negb_true_iff, Z.eqb_neq, bool_decide_eq_false in Hel. cbn [andb] in Hel.
  destruct Hel as [[[H1 H2] H3] H4]. split; [exists e; split_all; done |]. split; [exact H2 |]. rewrite <- E3.
  destruct (backoff_ (hopc_ c0) !! e_ch e) as [b|] eqn:Hbk; [| done]. intros Hu Hw. apply H4, Hsub.
  by apply (in_backed_off_failed _ _ _ b).
Qed.
