(* ===== verification/HopWitness.v ===== *)
(** * HopWitness: a jammed channel and a hop, evaluated

    A jammer raises foreign airtime on 40; the ground orders 64, the drone follows, the hop is
    confirmed.  A fade on the same channel orders nothing. *)
From S2P Require Import Prelude Bytes SipHash SwConfig Profile RcProto RcProtoProps RungStore LadderController LadderProps Rendezvous VrxController VrxProps RcPolicy RcAgent RcAgentProps RcAgentWitness LinkUp HopVerdict HopController HopRanker ChannelPlan HopLoop HopLoopProps HopCalm HopLink.

Definition demo_verdict_cfg : HopVerdictCfg := mkHopVerdictCfg (d_of_Z 3) (d_of_Z 3) 8 (-78) 12 2 (d_of_Z 8) 3 1.

Definition demo_hop_cfg : HopCfg := mkHopCfg 150 1 5 10000 500 3000 1000 2000 2 30000 5 demo_verdict_cfg.

Definition demo_busy : BusyCfg := d_of_Z 30.

(** A card reading [b] percent busy, with ten percent our own. *)
Definition demo_card (b : Z) : VerdictCardIn := mkVerdictCardIn true (d_of_Z (-60)) (d_of_Z 25) true true (d_of_Z b) (d_of_Z 10).

Definition demo_link : VerdictLinkIn := mkVerdictLinkIn (d_lit 1 10) 0.

(** ** The verdict *)

Definition demo_windows : list VerdictCall :=
  [ VNewSession; VWindow (d_of_Z 150) [demo_card 10] demo_link 2; VLanded (d_of_Z 160); VWindow (d_of_Z 300) [demo_card 80; demo_card 75] demo_link 2 ].

Lemma demo_interfered : exists s o s', verdict_calls demo_hop_cfg demo_busy demo_windows new_verdict = Some s /\
  window demo_hop_cfg demo_busy (d_of_Z 450) [demo_card 80] demo_link 2 s = Some (o, s') /\ vd o = Interfered.
Proof.
  assert (H : match verdict_calls demo_hop_cfg demo_busy demo_windows new_verdict with
    | Some s => match window demo_hop_cfg demo_busy (d_of_Z 450) [demo_card 80] demo_link 2 s with Some (o, _) => vd o = Interfered | None => False end
    | None => False end) by (vm_compute; reflexivity).
  destruct (verdict_calls _ _ _ _) as [s|]; [| done]. destruct (window _ _ _ _ _ _ s) as [[o s']|] eqn:E; [| done].
  exists s, o, s'. split; [reflexivity |]. split; [exact E | exact H].
Qed.

Lemma interfered_exact_witness : exists s o s' best p,
  verdict_calls demo_hop_cfg demo_busy demo_windows new_verdict = Some s /\
  window demo_hop_cfg demo_busy (d_of_Z 450) [demo_card 80] demo_link 2 s = Some (o, s') /\ vd o = Interfered /\
  best_card [demo_card 80] None = Some best /\ min_foreign [demo_card 80] = Some p.
Proof.
  destruct demo_interfered as (s & o & s' & E & Ew & Hv).
  destruct (proj1 (interfered_exact demo_hop_cfg demo_busy demo_windows s (d_of_Z 450) [demo_card 80] demo_link 2 o s'
    ltac:(cbn; lia) ltac:(cbn; lia) ltac:(cbn; lia) E Ew) Hv) as (best & p & B & _ & M & _).
  exists s, o, s', best, p. split; [exact E |]. split; [exact Ew |]. split; [exact Hv |]. split; [exact B | exact M].
Defined.

(** ** The controller *)

Definition demo_out (trig : bool) : VerdictOut := mkVerdictOut (if trig then Interfered else Healthy) (if trig then 161 else 0) 2 trig (d_of_Z 0) (d_of_Z 150) trig false.

Definition demo_tick (t : Z) (trig video : bool) : HopCall :=
  HTick (mkHopTick (d_of_Z t) (demo_out trig) (Some 64) 12 video 0 40 2 1 false false None 0).

Definition demo_hop_calls : list HopCall :=
  [demo_tick 0 false false; demo_tick 5000 true false; demo_tick 5100 true true; HTakeEvents; demo_tick 6200 false true;
   demo_tick 9000 true false; HSessionLost (d_of_Z 9100) 40].

Lemma demo_hop_run : exists acts s, hop_calls demo_pow demo_hop_cfg demo_hop_calls new_hop = (acts, s) /\
  map kind acts = [ActNone; ActOrder; ActConfirm; ActNone; ActVerifyPass; ActOrder; ActWithdraw].
Proof.
  assert (H : map kind (hop_calls demo_pow demo_hop_cfg demo_hop_calls new_hop).1 =
    [ActNone; ActOrder; ActConfirm; ActNone; ActVerifyPass; ActOrder; ActWithdraw]) by (vm_compute; reflexivity).
  destruct (hop_calls _ _ _ _) as [acts s]. exists acts, s. split; [reflexivity | exact H].
Qed.

Lemma hop_protocol_witness : exists acts s, map kind acts = [ActNone; ActOrder; ActConfirm; ActNone; ActVerifyPass; ActOrder; ActWithdraw] /\
  protocol_run demo_hop_cfg (Free, 0, 0) demo_hop_calls acts (standing s).
Proof.
  destruct demo_hop_run as (acts & s & E & K). exists acts, s. split; [exact K |].
  exact (hop_protocol demo_pow demo_hop_cfg demo_hop_calls acts s E).
Defined.

(** Two orders in the minute: the third waits, until one is old. *)
Definition demo_orders : list HopCall := demo_hop_calls ++ [demo_tick 20000 true false].

Definition demo_third : HopTick := mkHopTick (d_of_Z 66000) (demo_out true) (Some 64) 12 false 0 40 2 1 false false None 0.

Lemma demo_cap : exists acts s a s', hop_calls demo_pow demo_hop_cfg demo_orders new_hop = (acts, s) /\
  tick demo_pow demo_hop_cfg demo_third s = (a, s') /\ kind a = ActOrder /\ length (order_times demo_orders acts) = 2%nat.
Proof.
  assert (H : kind (tick demo_pow demo_hop_cfg demo_third (hop_calls demo_pow demo_hop_cfg demo_orders new_hop).2).1 = ActOrder /\
    length (order_times demo_orders (hop_calls demo_pow demo_hop_cfg demo_orders new_hop).1) = 2%nat) by (vm_compute; split; reflexivity).
  destruct (hop_calls _ _ demo_orders _) as [acts s]. cbn [fst snd] in H. destruct (tick demo_pow demo_hop_cfg demo_third s) as [a s'] eqn:E.
  cbn [fst] in H. exists acts, s, a, s'. split; [reflexivity |]. split; [exact E | exact H].
Qed.

Lemma hop_cap_witness : exists acts old recent, order_times demo_orders acts = old ++ recent /\ length (old ++ recent) = 2%nat /\
  Z.of_nat (length recent) < 2 /\ Forall (over_a_minute_old (tick_times demo_orders ++ [now_ms demo_third])) old.
Proof.
  destruct demo_cap as (acts & s & a & s' & E & Et & Ha & Hl).
  destruct (hop_cap demo_pow demo_hop_cfg demo_orders acts s demo_third a s' E Et Ha) as (old & recent & Eo & Hn & Hold).
  exists acts, old, recent. rewrite Eo in Hl. split; [exact Eo |]. split; [exact Hl |]. split; [exact Hn | exact Hold].
Defined.

(** ** The ranking *)

Definition demo_visit (ch t fa busy : Z) : HopVisit := mkHopVisit ch (d_of_Z t) fa 20 5 0 true (d_of_Z busy) Usb.

Definition demo_ranker : HopRanker :=
  fold_left (fun r v => add demo_hop_cfg v r)
    [demo_visit 40 100 50 80; demo_visit 40 200 60 80; demo_visit 64 100 4 2; demo_visit 64 200 6 3; demo_visit 36 150 1 0]
    (new_ranker [40; 64; 36] 40 20).

Lemma demo_measured now : now = d_of_Z 300 -> Forall measured (entries demo_hop_cfg demo_busy now demo_ranker).
Proof. intros ->. vm_compute. repeat constructor. Qed.

Lemma demo_best : best_channel demo_hop_cfg demo_busy (d_of_Z 300) 40 [] true demo_ranker = Some 64.
Proof. vm_compute. reflexivity. Qed.

Lemma best_channel_exact_witness : exists e, e ∈ entries demo_hop_cfg demo_busy (d_of_Z 300) demo_ranker /\ e_ch e = 64 /\
  Forall (fun e' => eligible 40 [] true e' = true -> precedes 40 20 e' e = false) (entries demo_hop_cfg demo_busy (d_of_Z 300) demo_ranker).
Proof.
  pose proof (best_channel_exact demo_hop_cfg demo_busy (d_of_Z 300) 40 [] true demo_ranker (demo_measured _ eq_refl)) as H.
  cbv zeta in H. rewrite demo_best in H. destruct H as (e & H1 & H2 & _ & H3). exists e. split; [exact H1 |]. split; [exact H2 | exact H3].
Defined.

(** ** The core *)

Definition demo_plan_cfg : ChannelPlanCfg := mkChannelPlanCfg 40 [40; 64; 36] 5000.

Definition demo_tick_in (t video : Z) (pending : option Z) : TickIn := mkTickIn (d_of_Z t) [true; true] 0 video 0 false false pending false false.

(** A session with a jammer, then a relocation. *)
Definition demo_core_calls : list CoreCall :=
  [ CcPlan (PcTick (d_of_Z 0) true); CcEdge (d_of_Z 0) true;
    CcVisit (demo_visit 64 100 4 2); CcVisit (demo_visit 64 200 6 3);
    CcWindow (d_of_Z 150) [demo_card 80] demo_link; CcTick (demo_tick_in 160 40 None);
    CcWindow (d_of_Z 300) [demo_card 80] demo_link; CcTick (demo_tick_in 310 40 None);
    CcVrx (VStep (d_of_Z 320) demo_h); CcTick (demo_tick_in 330 64 None); CcTick (demo_tick_in 1400 64 (Some 36)) ].

Definition core_kinds (cs : list CoreCall) (s : Core) : option (list ActionKind) :=
  option_map (fun x => map kind x.1) (core_calls demo_exp demo_pow demo_hop_cfg demo_busy demo_plan_cfg true cs s).

Definition demo_core : Core := new_core demo_plan_cfg (new_ranker [40; 64; 36] 40 20) demo_v.

Lemma demo_core_kinds : core_kinds demo_core_calls demo_core =
  Some [ActNone; ActNone; ActNone; ActNone; ActNone; ActNone; ActNone; ActOrder; ActNone; ActConfirm; ActVerifyPass].
Proof. vm_compute. reflexivity. Qed.

(** The drone's answer to the ground's first beacon. *)
Definition demo_answer : list Z :=
  match (x ← vrx_step demo_exp (d_of_Z 50) demo_h demo_v;
         d ← x.1;
         RcAgent.step demo_cfg (demo_env true 71) (InFrame (o_frame d) 60) (snd demo_idle)) with
  | Some (_, [ESend answer]) => answer
  | _ => []
  end.

(** A session, a feedback frame before the order and one after it. *)
Definition demo_flight : list CoreCall :=
  [ CcVrx (VStep (d_of_Z 50) demo_h); CcVrx (VFrame demo_answer (d_of_Z 70)); CcVrx (VStep (d_of_Z 100) demo_h) ] ++
  [ CcVrx (VStep (d_of_Z 150) demo_h) ] ++ removelast (removelast (removelast demo_core_calls)) ++
  [ CcVrx (VStep (d_of_Z 400) demo_h); CcTick (demo_tick_in 430 64 None) ].

Definition demo_air (cs : list CoreCall) : list (Z * Z * list Z) :=
  on_air demo_exp demo_pow demo_hop_cfg demo_busy demo_plan_cfg true cs demo_core (0, 0).

(** A beacon, a feedback frame with no order, one with the order. *)
Lemma demo_air_orders : map fst (demo_air demo_flight) = [(0, 0); (0, 0); (0, 0); (64, 1)] /\
  map (fun x => frame_type x.2) (demo_air demo_flight) = [Some T_DISC; Some T_DISC; Some T_RCF; Some T_RCF].
Proof. split; vm_compute; reflexivity. Qed.

Lemma link_stays_on_set_witness : exists acts s f,
  core_calls demo_exp demo_pow demo_hop_cfg demo_busy demo_plan_cfg true demo_flight demo_core = Some (acts, s) /\
  ((64, 1), f) ∈ demo_air demo_flight /\ shows (64, 1) f /\
  op_ (plan_ s) ∈ [40; 64; 36] /\ carried (vrx_ s) = ordered (hopc_ s).
Proof.
  assert (Hw : windows_sane demo_hop_cfg) by (split; vm_compute; discriminate).
  assert (Hf : Forall vrx_free demo_flight) by (repeat constructor).
  assert (Hn : Forall (names_members demo_plan_cfg) demo_flight) by (repeat constructor; unfold on_plan; cbn; set_solver).
  assert (Hl : Forall (core_loadable demo_pow) demo_flight) by (repeat constructor).
  assert (Hc : Forall (on_plan demo_plan_cfg) [40; 64; 36]) by (unfold on_plan; cbn; repeat constructor; set_solver).
  destruct (link_stays_on_set demo_exp demo_pow demo_hop_cfg demo_busy demo_plan_cfg true demo_flight [40; 64; 36] 40 20
    demo_vrx_cfg 1 demo_v (Forall_inv Hc) Hc demo_new_vrx Hw Hf Hn Hl) as (acts & s & E & H1 & _ & _ & H2 & H3 & H4 & _).
  destruct demo_air_orders as [A1 A2]. change (on_air _ _ _ _ _ _ _ _ _) with (demo_air demo_flight) in H2.
  destruct (demo_air demo_flight) as [|x0 [|x1 [|x2 [|[x3 f] xs]]]]; try discriminate A1. injection A1 as _ _ _ -> _. injection A2 as _ _ _ T _.
  apply Forall_inv_tail, Forall_inv_tail, Forall_inv_tail, Forall_inv in H2.
  exists acts, s, f. split; [exact E |]. split; [by do 3 apply list_elem_of_further; apply list_elem_of_here |].
  split; [destruct H2 as [H2 | H2]; [cbn [snd] in H2, T; rewrite T in H2; discriminate H2 | exact H2] |]. split; [exact H1 | congruence].
Defined.

(** The same flight in a fade: heavy loss, but no more airtime than our own. *)
Definition demo_fade_calls : list CoreCall :=
  [ CcEdge (d_of_Z 0) true; CcVisit (demo_visit 64 100 4 2); CcVisit (demo_visit 64 200 6 3);
    CcWindow (d_of_Z 150) [demo_card 9] demo_link; CcTick (demo_tick_in 160 40 None);
    CcWindow (d_of_Z 300) [demo_card 10; demo_card 3] demo_link; CcTick (demo_tick_in 310 40 None);
    CcVrx (VStep (d_of_Z 320) demo_h); CcVrx (VFrame demo_answer (d_of_Z 330)); CcVrx (VStep (d_of_Z 400) demo_h); CcVrx (VStep (d_of_Z 500) demo_h);
    CcEdge (d_of_Z 600) false ].

Lemma demo_fade_air : map (fun x => frame_type x.2) (demo_air demo_fade_calls) = [Some T_DISC; Some T_DISC; Some T_RCF].
Proof. vm_compute. reflexivity. Qed.

Lemma fade_never_hops_witness : exists acts s x0 x1 f,
  core_calls demo_exp demo_pow demo_hop_cfg demo_busy demo_plan_cfg true demo_fade_calls demo_core = Some (acts, s) /\
  Forall (fun a => a = HopAction0) acts /\ map snd (demo_air demo_fade_calls) = [x0; x1; f] /\ shows (0, 0) f.
Proof.
  assert (Hs : sane demo_hop_cfg demo_busy) by (split; vm_compute; first [reflexivity | discriminate]).
  assert (Hq : Forall quiet_air demo_fade_calls).
  { assert (Hc : forall b, d_leb (foreign_pct (demo_card b)) d_zero = true -> own_air (demo_card b)) by (intros b Hb _ _; exact Hb).
    repeat constructor; apply Hc; vm_compute; reflexivity. }
  assert (Hf : Forall vrx_free demo_fade_calls) by (repeat constructor).
  assert (Hl : Forall (core_loadable demo_pow) demo_fade_calls) by (repeat constructor).
  destruct (fade_never_hops demo_exp demo_pow demo_hop_cfg demo_busy demo_plan_cfg true demo_fade_calls (new_ranker [40; 64; 36] 40 20)
    demo_vrx_cfg 1 demo_v demo_new_vrx Hs Hq Hf Hl) as (acts & s & E & H1 & _ & _ & H2).
  pose proof demo_fade_air as T. change (on_air _ _ _ _ _ _ _ _ _) with (demo_air demo_fade_calls) in H2.
  destruct (demo_air demo_fade_calls) as [|x0 [|x1 [|x2 [|? ?]]]]; try discriminate T. injection T as _ _ T.
  apply Forall_inv_tail, Forall_inv_tail, Forall_inv in H2.
  exists acts, s, x0.2, x1.2, x2.2. split; [exact E |]. split; [exact H1 |]. split; [reflexivity |]. destruct H2 as [H2 | H2]; [rewrite T in H2; discriminate H2 | exact H2].
Defined.

(** ** Both ends *)

(** The two ends after the link is up. *)
Definition demo_linked : option (Vrx * Agent) :=
  x ← vrx_step demo_exp (d_of_Z 50) demo_h demo_v;
  d ← x.1;
  y ← RcAgent.step demo_cfg (demo_env true 71) (InFrame (o_frame d) 60) (snd demo_idle);
  match y.2 with
  | [ESend answer] =>
      v2 ← ground_rc_frame answer (d_of_Z 70) x.2;
      k ← vrx_step demo_exp (d_of_Z 100) demo_h v2;
      z ← vrx_step demo_exp (d_of_Z 150) demo_h k.2;
      r ← z.1;
      w ← RcAgent.step demo_cfg (demo_env true 0) (InFrame (o_frame r) 160) y.1;
      Some (z.2, w.1)
  | _ => None
  end.

Definition demo_jam : list CoreCall :=
  [ CcPlan (PcTick (d_of_Z 0) true); CcEdge (d_of_Z 0) true; CcVisit (demo_visit 64 100 4 2); CcVisit (demo_visit 64 200 6 3);
    CcWindow (d_of_Z 150) [demo_card 80] demo_link; CcWindow (d_of_Z 300) [demo_card 80] demo_link ].

Definition demo_wires : Wires := mkWires kDefaultLinkKey 3405643777 (Some 71) 40 64 1 0 0 0.

(** A tick that still finds video on the old channel. *)
Definition demo_wait : list CoreCall := [CcTick (demo_tick_in 330 40 None)].

Definition demo_wait_run (c : Core) : option (list HopAction * Core) :=
  core_calls demo_exp demo_pow demo_hop_cfg demo_busy demo_plan_cfg true demo_wait c.

Lemma demo_hop : exists v a s act c1 s1 r v3,
  demo_linked = Some (v, a) /\
  core_calls demo_exp demo_pow demo_hop_cfg demo_busy demo_plan_cfg true demo_jam (demo_core {{ vrx_ := v }}) = Some s /\
  hop_tick demo_pow demo_hop_cfg demo_busy true (demo_tick_in 310 40 None) s.2 = Some (act, c1) /\
  demo_wait_run c1 = Some s1 /\
  vrx_step demo_exp (d_of_Z 400) demo_h (vrx_ s1.2) = Some (Some r, v3) /\
  (kind act = ActOrder /\ 0 <= act_lead_card act /\ target act = 64 /\ act_epoch act = 1 /\ is_disc r = false) /\
  (wires (vrx_ s1.2) = demo_wires /\ seq32_ (vrx_ s1.2) = 1 /\ seq32_ v3 = 2) /\
  (s_valid (current a) = true /\ s_vrx (current a) = 3405643777 /\ s_vtx (current a) = 71 /\ have_seq (current a) = true /\
   last_seq32 (current a) = 1 /\ have_hop (chan a) = false /\ channel (chan a) = 40).
Proof.
  assert (H : match demo_linked with
    | Some (v, a) =>
        match core_calls demo_exp demo_pow demo_hop_cfg demo_busy demo_plan_cfg true demo_jam (demo_core {{ vrx_ := v }}) with
        | Some s =>
            match hop_tick demo_pow demo_hop_cfg demo_busy true (demo_tick_in 310 40 None) s.2 with
            | Some (act, c1) =>
                match demo_wait_run c1 with
                | Some s1 =>
                    match vrx_step demo_exp (d_of_Z 400) demo_h (vrx_ s1.2) with
                    | Some (Some r, v3) =>
                        (kind act = ActOrder /\ (0 <=? act_lead_card act) = true /\ target act = 64 /\ act_epoch act = 1 /\ is_disc r = false) /\
                        (wires (vrx_ s1.2) = demo_wires /\ seq32_ (vrx_ s1.2) = 1 /\ seq32_ v3 = 2) /\
                        (s_valid (current a) = true /\ s_vrx (current a) = 3405643777 /\ s_vtx (current a) = 71 /\ have_seq (current a) = true /\
                         last_seq32 (current a) = 1 /\ have_hop (chan a) = false /\ channel (chan a) = 40)
                    | _ => False
                    end
                | None => False
                end
            | None => False
            end
        | None => False
        end
    | None => False
    end) by (vm_compute; repeat split; reflexivity).
  destruct demo_linked as [[v a]|]; [| destruct H].
  destruct (core_calls _ _ _ _ _ _ demo_jam _) as [s|] eqn:Es; [| destruct H].
  destruct (hop_tick _ _ _ _ _ _) as [[act c1]|] eqn:Et; [| destruct H].
  destruct (demo_wait_run c1) as [s1|] eqn:Ew; [| destruct H].
  destruct (vrx_step _ _ _ _) as [[[r|] v3]|] eqn:Ev; try (destruct H; fail).
  destruct H as ((K1 & K2 & K3) & H2 & H3). apply Z.leb_le in K2. exists v, a, s, act, c1, s1, r, v3.
  split; [reflexivity |]. split; [exact Es |]. split; [exact Et |]. split; [exact Ew |]. split; [exact Ev |].
  split; [exact (conj K1 (conj K2 K3)) |]. split; [exact H2 | exact H3].
Qed.

(** The linked ground is sound, and stays so. *)
Local Abbreviation vrx_good := (vrx_ok (ok := ladder_good)).

Lemma call_good c v o v' : loadable demo_pow c -> vrx_good v -> vrx_call demo_exp demo_pow c v = Some (o, v') -> vrx_good v'.
Proof.
  intros Hl Hv E. destruct (vrx_call_in demo_exp demo_pow c v Hv Hl) as (o1 & v1 & E1 & H & _). rewrite E in E1. by injection E1 as _ ->.
Qed.

Lemma demo_linked_good v a : demo_linked = Some (v, a) -> vrx_good v.
Proof.
  destruct (new_vrx_ok demo_exp demo_pow demo_vrx_cfg 1 demo_v demo_new_vrx) as (H0 & _). unfold demo_linked.
  intros ([o1 v1] & E1 & (d & _ & ([a1 es] & _ & E)%bind_Some)%bind_Some)%bind_Some. cbn [fst snd] in E.
  apply (call_good (VStep (d_of_Z 50) demo_h)) in E1; [| exact I | exact H0].
  destruct es as [|[ | body | | | | | | | | ] [|? ?]]; try discriminate E.
  apply bind_Some in E as (v2 & E2 & ([o3 v3] & E3 & ([o4 v4] & E4 & (r & _ & (w & _ & E)%bind_Some)%bind_Some)%bind_Some)%bind_Some).
  assert (H2 : vrx_good v2) by (apply (call_good (VFrame body (d_of_Z 70)) v1 None v2 I E1); cbn [vrx_call]; by rewrite E2).
  apply (call_good (VStep (d_of_Z 100) demo_h)) in E3; [| exact I | exact H2].
  apply (call_good (VStep (d_of_Z 150) demo_h)) in E4; [| exact I | exact E3]. by injection E as <- _.
Qed.

Lemma demo_wires_typed : wires_typed demo_wires.
Proof. unfold wires_typed, demo_wires. cbn [w_key w_nonce w_proposal w_hop_ch w_hop_epoch w_rec w_idr w_snr]. split_all; first [lia | decided]. Qed.

Lemma hop_moves_both_witness : exists a s1 r v3 a2 es act2 c2,
  vrx_step demo_exp (d_of_Z 400) demo_h (vrx_ s1) = Some (Some r, v3) /\
  RcAgent.step demo_cfg (demo_env true 0) (InFrame (o_frame r) 410) a = Some (a2, es) /\ channel (chan a) = 40 /\ channel (chan a2) = 64 /\
  hop_tick demo_pow demo_hop_cfg demo_busy true (demo_tick_in 430 64 None) s1 = Some (act2, c2) /\ op_ (plan_ c2) = 64.
Proof.
  destruct demo_hop as (v & a & s & act & c1 & s1 & r & v3 & El & Es & Et & Ew & Ev & (K1 & K2 & K3 & K4 & K5) & (W1 & W2 & W3) &
    (A1 & A2 & A3 & A4 & A5 & A6 & A7)).
  assert (Hw : windows_sane demo_hop_cfg) by (split; vm_compute; discriminate).
  assert (Hg : vrx_good (vrx_ c1)).
  { apply demo_linked_good in El. assert (Hj : Forall (core_loadable demo_pow) demo_jam) by (repeat constructor).
    assert (Hv0 : vrx_good (vrx_ (demo_core {{ vrx_ := v }}))) by exact El.
    destruct (calls_return demo_exp demo_pow demo_hop_cfg demo_busy demo_plan_cfg true demo_jam (demo_core {{ vrx_ := v }}) Hw Hj Hv0) as (acts & s' & E' & Hs').
    rewrite Es in E'. injection E' as ->. cbn [snd] in Et.
    destruct (call_returns demo_exp demo_pow demo_hop_cfg demo_busy demo_plan_cfg true (CcTick (demo_tick_in 310 40 None)) s' Hw I Hs')
      as (a' & o' & s'' & E'' & Hs''). cbn [core_call] in E''. rewrite Et in E''. by injection E'' as _ _ ->. }
  assert (HT : wires_typed (wires (vrx_ s1.2))) by (rewrite W1; exact demo_wires_typed).
  pose proof (f_equal w_key W1) as Wk. pose proof (f_equal w_nonce W1) as Wn. pose proof (f_equal w_vtx W1) as Wv.
  cbn [w_key w_nonce w_vtx wires demo_wires] in Wk, Wn, Wv.
  assert (Hnew : new_order demo_cfg (target act) (act_epoch act) (chan a)).
  { rewrite K3. split; [lia |]. split; [by left |]. split; [vm_compute; reflexivity | rewrite A7; lia]. }
  assert (Hfr : if have_seq (current a) then 1 <= seq32_ v3 - last_seq32 (current a) <= 32767 else seq32_ v3 < 2 ^ 16) by (rewrite A4, A5, W3; lia).
  assert (Hq : 0 <= seq32_ (vrx_ s1.2) < 2 ^ 32 - 1) by (rewrite W2; lia).
  assert (Hld : Forall (core_loadable demo_pow) demo_wait) by (repeat constructor).
  assert (Hwt : Forall (still_waiting demo_hop_cfg (target act) (ti_now (demo_tick_in 310 40 None))) demo_wait).
  { rewrite K3. apply Forall_singleton. split; [discriminate | vm_compute; reflexivity]. }
  destruct (hop_moves_both demo_exp demo_pow demo_hop_cfg demo_busy demo_plan_cfg true demo_cfg (demo_tick_in 310 40 None) s.2 c1 act demo_wait
    Et K1 K2 Hg Hw Hld Hwt) as (acts & s1' & E1 & _ & Hdr & Hgr).
  unfold demo_wait_run in Ew. rewrite Ew in E1. injection E1 as ->. cbn [snd] in *.
  destruct (Hdr (d_of_Z 400) demo_h r v3 a 71 (demo_env true 0) 410 Ev K5 Wk HT Wv Hq A1 (eq_trans A2 (eq_sym Wn)) A3 Hfr Hnew) as (a2 & es & S1 & S2 & _).
  destruct (Hgr (demo_tick_in 430 64 None) (eq_sym K3)) as (act2 & c2 & E2 & _ & O2 & _).
  exists a, s1', r, v3, a2, es, act2, c2. split; [exact Ev |]. split; [exact S1 |]. split; [exact A7 |]. split; [by rewrite S2 |].
  split; [exact E2 | by rewrite O2].
Defined.

Lemma hop_targets_sound_witness : exists s act c1 e,
  hop_tick demo_pow demo_hop_cfg demo_busy true (demo_tick_in 310 40 None) s = Some (act, c1) /\ target act = 64 /\
  e_ch e = 64 /\ e_blocked e = false /\ target act <> op_ (plan_ s).
Proof.
  destruct demo_hop as (v & a & s & act & c1 & s1 & r & v3 & _ & _ & Et & _ & _ & (K1 & _ & K3 & _) & _).
  destruct (hop_targets_sound demo_pow demo_hop_cfg demo_busy true (demo_tick_in 310 40 None) s.2 c1 act Et K1 eq_refl) as ((e & _ & H1 & _ & H2) & H3 & _).
  exists s.2, act, c1, e. split; [exact Et |]. split; [exact K3 |]. split; [by rewrite H1 |]. split; [exact H2 | exact H3].
Defined.
