(* ===== verification/DroneTx.v ===== *)
(** * DroneTx: the drone's transmit queue and its meters (drone/src/tx_queue.h, nack_bucket.h,
    air_clock.h, tick_gate.h)

    The bounded queue between the encoder's thread and the radio's; the token bucket that caps
    retransmissions; the clock of how far ahead the air is booked; the deadline gate of the
    agent's loop.  The queue's and the air clock's methods hold their mutex throughout, so each is
    one step. *)
From S2P Require Import Prelude SwConfig SwEncoder AsyncEncoder UepEncoder RungStore.
Local Open Scope Z_scope.

(** ** TxQueue *)

Record TxQueue := mkTxQueue { q_ : list UepBody; closed_ : bool; dropped_ : Z; batch_ : Z; pending_ : Z }.

Definition new_txq : TxQueue := mkTxQueue [] false 0 1 0.

Definition depth (t : TxQueue) : Z := Z.of_nat (length (q_ t)).

Definition set_batch (g : Z) (t : TxQueue) : TxQueue := t {{ batch_ := if g <? 1 then 1 else g }}.

(** [push]: whether the consumer is woken, and the queue. *)
Definition push (cap : Z) (b : UepBody) (t : TxQueue) : bool * TxQueue :=
  if closed_ t then (false, t)
  else
    let t := match q_ t with
             | _ :: q => if cap <=? depth t then t {{ q_ := q ; dropped_ ::= (fun n => u64 (n + 1)) }} else t
             | [] => t
             end in
    let t := t {{ q_ ::= (fun q => q ++ [b]) ; pending_ ::= (fun n => u64 (n + 1)) }} in
    if batch_ t <=? pending_ t then (true, t {{ pending_ := 0 }}) else (false, t).

Definition push_front (b : UepBody) (t : TxQueue) : bool * TxQueue :=
  if closed_ t then (false, t) else (true, t {{ q_ ::= cons b ; pending_ := 0 }}).

Definition flush (t : TxQueue) : bool * TxQueue :=
  if pending_ t =? 0 then (false, t) else (true, t {{ pending_ := 0 }}).

(** [pop_batch], from the end of its wait on. *)
Definition pop_batch (max_n : Z) (t : TxQueue) : list UepBody * TxQueue :=
  let n := Z.to_nat max_n in (take n (q_ t), t {{ q_ ::= drop n }}).

Definition drain (t : TxQueue) : TxQueue := t {{ q_ := [] ; pending_ := 0 }}.

Definition close (t : TxQueue) : TxQueue := t {{ closed_ := true }}.

(** ** TokenBucket *)

Record TokenBucket := mkBucket { bk_depth : double; bk_tokens : double; bk_t_us : option Z }.

Definition new_bucket (d : double) : TokenBucket := mkBucket d d None.

Definition refill (now_us : Z) (rate_per_s : double) (k : TokenBucket) : TokenBucket :=
  let k := match bk_t_us k with
           | Some t => if t <? now_us
                       then k {{ bk_tokens := d_min (bk_depth k)
                                   (d_add (bk_tokens k) (d_mul (d_mul (d_of_Z (now_us - t)) (d_lit 1 1000000)) rate_per_s)) }}
                       else k
           | None => k
           end in
  k {{ bk_t_us := Some now_us }}.

(** [take]: nothing is taken when [n] exceeds the tokens. *)
Definition bucket_take (n : double) (k : TokenBucket) : bool * TokenBucket :=
  if d_ltb (bk_tokens k) n then (false, k) else (true, k {{ bk_tokens := d_sub (bk_tokens k) n }}).

Definition depth_for (sym_per_s : double) (burst_ms : Z) : double :=
  d_max d_one (d_div (d_mul sym_per_s (d_of_Z burst_ms)) (d_of_Z 1000)).

Definition set_depth (d : double) (k : TokenBucket) : TokenBucket :=
  k {{ bk_depth := d ; bk_tokens := d_min (bk_tokens k) d }}.

(** ** AirClock *)

Definition kProbeSid : Z := 2.

Record AirClock := mkAirClock { us_per_byte_ : list double; body_us_ : Z; free_at_us_ : Z }.

Definition new_air_clock : AirClock := mkAirClock (replicate 3 (d_of_Z 0)) 0 0.

Definition per_byte (mbps : double) : double := if d_ltb (d_of_Z 0) mbps then d_div (d_of_Z 8) mbps else d_of_Z 0.

Definition set_rates (base_mbps enh_mbps probe_mbps : double) (body_us : Z) (a : AirClock) : AirClock :=
  a {{ us_per_byte_ := [per_byte base_mbps; per_byte enh_mbps; per_byte probe_mbps] ; body_us_ := body_us }}.

Definition book (now_us bytes sid : Z) (a : AirClock) : AirClock :=
  if (sid <? 0) || (kProbeSid <? sid) then a
  else
    let upb := default (d_of_Z 0) (us_per_byte_ a !! Z.to_nat sid) in
    if d_leb upb (d_of_Z 0) then a
    else
      let start := if now_us <? free_at_us_ a then free_at_us_ a else now_us in
      let cost := d_add (d_mul (d_of_Z bytes) upb) (d_of_Z (body_us_ a)) in
      a {{ free_at_us_ := u64 (start + d_trunc (d_add cost (d_lit 5 10))) }}.

Definition backlog_us (now_us : Z) (a : AirClock) : Z :=
  if free_at_us_ a <=? now_us then 0 else Z.min (free_at_us_ a - now_us) 4294967295.

(** ** TickGate *)

Record TickGate := mkGate { next_ms_ : Z; period_ms_ : Z }.

Definition new_gate (now_ms period_ms : Z) : TickGate := mkGate now_ms (if 0 <? period_ms then period_ms else 1).

Definition due (now_ms : Z) (g : TickGate) : bool * TickGate :=
  if now_ms <? next_ms_ g then (false, g) else (true, g {{ next_ms_ := u64 (now_ms + period_ms_ g) }}).
