(* ===== verification/RetxAnswer.v ===== *)
(** * RetxAnswer: the drone's answer to a retransmission request (drone/src/main.cpp)

    The RX thread checks the request, reads the ring for each symbol it names, packs what it
    finds and may afford into marked bodies, and puts them at the head of the transmit queue.
    The transmit thread takes bodies from the head and patches their wait in.  What a lookup
    answers while the hot thread writes the ring is an argument ([RetxRing] proves what it can
    be), and so are the clock's readings. *)
From S2P Require Import Prelude Bytes SipHash SwConfig SwWire Sbi SwEncoder AsyncEncoder UepEncoder SwDecoder RcProto NackTracker UepDecoder RetxRing Profile RungStore RcPolicy RcAgent RcAgentGuard DroneTx.
Local Open Scope Z_scope.

(** What the handler owns or shares, and what it counts. *)
Record Retx := mkRetx {
  bucket_ : TokenBucket;
  rpacker_ : SbiPacker;
  txq_ : TxQueue;
  air_ : AirClock;
  guard_ : Counters;
  c_rx : Z; c_bad : Z; c_syms : Z; c_refused : Z; c_miss : Z;
}.

Record RetxCfg := mkRetxCfg {
  r_env_len : Z; r_burst_ms : Z; r_air_pct : double; r_eff20 : list double; r_eff40 : list double;
}.

Definition new_retx (env_len : nat) (blocks_per_body : Z) : Retx :=
  mkRetx (new_bucket (d_of_Z 64)) (new_packer env_len blocks_per_body (Z.lor 0 kSbiRetxMark)) new_txq new_air_clock
    Counters0 0 0 0 0 0.

Definition some_body (b : list Z) : list (list Z) := match b with [] => [] | _ => [b] end.

(** One requested symbol: the bodies it completes, and the state. *)
Definition serve_one (lookup : Z -> option (list Z)) (cost : double) (s : Z) (x : list (list Z) * Retx)
    : list (list Z) * Retx :=
  let '(out, r) := x in
  match lookup s with
  | None => (out, r {{ c_miss ::= (fun n => u64 (n + 1)) }})
  | Some env =>
      let '(ok, k) := bucket_take cost (bucket_ r) in
      let r := r {{ bucket_ := k }} in
      if (ok : bool) then
        let '(p, b) := add_one (rpacker_ r) env in
        (out ++ some_body b, r {{ c_syms ::= (fun n => u64 (n + 1)) ; rpacker_ := p }})
      else (out, r {{ c_refused ::= (fun n => u64 (n + 1)) }})
  end.

(** One body to the head of the queue. *)
Definition send_one (now_ms : Z) (b : list Z) (p_us : Z) (r : Retx) : Retx :=
  r {{ txq_ ::= (fun t => (push_front (mkUepBody 0 b now_ms p_us false) t).2) ;
       air_ ::= book p_us (Z.of_nat (length b)) 0 }}.

(** The bodies, last first, each with its reading of the clock. *)
Fixpoint send_all (now_ms : Z) (bs : list (list Z)) (clock : nat -> Z) (k : nat) (r : Retx) : Retx :=
  match bs with
  | [] => r
  | b :: bs => send_all now_ms bs clock (S k) (send_one now_ms b (clock k) r)
  end.

(** The bucket, sized and filled for the operating point. *)
Definition meter (cfg : RetxCfg) (op : option LayerTxSpec) (now_us : Z) (k : TokenBucket) : TokenBucket :=
  let rate := match op with
              | Some s => d_div (d_div (d_mul (delivered_mbps s (r_eff20 cfg) (r_eff40 cfg)) (d_of_Z 1000000)) (d_of_Z 8))
                            (d_of_Z (r_env_len cfg))
              | None => d_of_Z 0
              end in
  let k := match op with Some _ => set_depth (depth_for rate (r_burst_ms cfg)) k | None => k end in
  refill now_us (d_div (d_mul rate (r_air_pct cfg)) (d_of_Z 100)) k.

Definition twice (nk : Nack) : bool := negb (Z.land (n_flags nk) kNackFlagRepeat =? 0).

(** The request, once accepted: the bodies of the answer, and the state before they are sent. *)
Definition serve (lookup : Z -> option (list Z)) (nk : Nack) (r : Retx) : list (list Z) * Retx :=
  let cost := if twice nk then d_of_Z 2 else d_one in
  let '(out, r) := fold_left (fun x s => serve_one lookup cost s x) (requested nk) ([], r) in
  let '(p, tail) := flush_one (rpacker_ r) in
  (out ++ some_body tail, r {{ rpacker_ := p }}).

Section Hook.
Context (acfg : Config) (cfg : RetxCfg).

(** [nack_hook]: [p1] and [p2] are what the check finds published. *)
Definition nack_hook (body : list Z) (p1 p2 : Z) (spurious : nat) (op : option LayerTxSpec) (now_us now_ms : Z)
    (lookup : Z -> option (list Z)) (clock : nat -> Z) (r : Retx) : option Retx :=
  c ← check_nack acfg body p1 p2 spurious (guard_ r);
  let '(verdict, g) := c in
  let r := r {{ guard_ := g }} in
  match verdict with
  | NackOk nk =>
      let r := r {{ c_rx ::= (fun n => u64 (n + 1)) ; bucket_ ::= meter cfg op now_us }} in
      let '(out, r) := serve lookup nk r in
      let r := send_all now_ms (rev out) clock 0 r in
      Some (if twice nk then send_all now_ms (rev out) clock (length out) r else r)
  | _ => Some (r {{ c_bad ::= (fun n => u64 (n + 1)) }})
  end.

(** ** The transmit thread's turn: what goes to the radio *)

Definition wait_ms (pop_ms : Z) (b : UepBody) : Z :=
  Z.min (if negb (enqueued_ms b =? 0) && (enqueued_ms b <? pop_ms) then pop_ms - enqueued_ms b else 0) 65535.

Definition tx_turn (pop_ms : Z) (t : TxQueue) : list UepBody * TxQueue :=
  let '(batch, t) := pop_batch 3 t in
  (map (fun b => mkUepBody (b_stream_id b) (sbi_set_q_ms (UepEncoder.body b) (wait_ms pop_ms b)) (enqueued_ms b)
                   (pushed_us b) (au_first b)) batch, t).
End Hook.

(** [n] turns without another thread in between. *)
Fixpoint tx_turns (pops : list Z) (t : TxQueue) : list UepBody * TxQueue :=
  match pops with
  | [] => ([], t)
  | p :: pops => let '(b, t) := tx_turn p t in let '(bs, t) := tx_turns pops t in (b ++ bs, t)
  end.

(** What the encoder's tap leaves in the ring: base-layer sources only. *)
Definition tap_ring (r : Ring) (taps : list (Z * Z * list Z)) : Ring :=
  fold_left (fun r '(sid, q, env) => if sid =? 0 then put r q env else r) taps r.

(** ** The ground's side (gs/src/main.cpp): what the tracker reads, and the pass of the loop *)

Definition nack_inputs (u : UepDecoder) (lookback : Z) (tail : option NackTailView) (util down_util : double)
    (gap_ms : Z) : NackInputs :=
  mkInputs (uep_missing_sources u 0 lookback) (uep_source_state u 0) tail util down_util gap_ms.

Record NackPass := mkNackPass { nack_ : NackTracker; nack_vtx_seen : Z }.

(** One pass with the switch on: the session's nonces, whether frames carry the wire's header,
    and whether a calibration keeps the radio silent. *)
Definition nack_pass (key : list Z) (vrx vtx : Z) (frame_wire radio_silent : bool) (now : Z) (i : NackInputs) (p : NackPass)
    : option (list Z) * NackPass :=
  let p := if negb (vtx =? 0) && negb (vtx =? nack_vtx_seen p)
           then p {{ nack_vtx_seen := vtx ; nack_ ::= restart_counter }} else p in
  if (vtx =? 0) || negb frame_wire then (None, p {{ nack_ ::= clear }})
  else
    let '(t, r) := poll (nack_ p) now i in
    ((if radio_silent then None else (fun k => pack_nack k key (mkTagCtx vrx vtx (n_counter k))) <$> r), p {{ nack_ := t }}).
