(* ===== verification/RetxLoop.v ===== *)
(** * RetxLoop: a lost symbol comes back

    The drone answers a request with exactly the symbols it holds and can afford, in the order
    asked; composed with the ground's tracker and decoder, a symbol asked for is known once the
    answer is heard. *)
From S2P Require Import Prelude Bytes SipHash SwWire SwConfig Framing Sbi Elim LossEpisodes SwDecoder SwDecoderSound SwDecoderProps SwEncoder AsyncEncoder UepEncoder UepDecoder RcProto RcProtoProps NackTracker NackTrackerProps RetxRing Profile RungStore RcPolicy RcAgent RcAgentGuard RcAgentWitness DroneTx RetxAnswer.
Local Open Scope Z_scope.

(** ** The answer *)

Section Answer.
Context (lookup : Z -> option (list Z)) (cost : double).

(** The envelopes of an answer: what the ring holds, while the tokens last. *)
Fixpoint granted (k : TokenBucket) (reqs : list Z) : list (list Z) :=
  match reqs with
  | [] => []
  | s :: reqs =>
      match lookup s with
      | None => granted k reqs
      | Some e => let '(ok, k) := bucket_take cost k in if (ok : bool) then e :: granted k reqs else granted k reqs
      end
  end.

(** [n] takes in a row succeed. *)
Fixpoint affords (n : nat) (k : TokenBucket) : bool :=
  match n with O => true | S n => let '(ok, k) := bucket_take cost k in (ok : bool) && affords n k end.

Lemma affords_less n k : affords (S n) k = true -> affords n k = true.
Proof.
  revert k. induction n as [|n IH]; intros k; [done |]. cbn. destruct (bucket_take cost k) as [[] k2]; [| done].
  cbn. intros H. apply IH. exact H.
Qed.

Lemma granted_all k reqs : affords (length reqs) k = true -> granted k reqs = omap lookup reqs.
Proof.
  revert k. induction reqs as [|s reqs IH]; intros k; [done |]. intros H. cbn [granted omap list_omap].
  destruct (lookup s) as [e|]; [| apply IH; by apply affords_less]. cbn in H.
  destruct (bucket_take cost k) as [[] k2]; [| done]. f_equal. apply IH. exact H.
Qed.

(** The members a step of the answer keeps. *)
Definition same_lines (r r' : Retx) : Prop := txq_ r' = txq_ r /\ air_ r' = air_ r /\ guard_ r' = guard_ r.

Lemma serve_fold reqs out r out' r' :
  fold_left (fun x s => serve_one lookup cost s x) reqs (out, r) = (out', r') ->
  same_lines r r' /\ exists bs, add_all (rpacker_ r) (granted (bucket_ r) reqs) = (rpacker_ r', bs) /\ out' = out ++ bs.
Proof.
  revert out r. induction reqs as [|s reqs IH]; intros out r; cbn [fold_left granted].
  { intros [= <- <-]. split; [done |]. exists []. by rewrite app_nil_r. }
  unfold serve_one at 2. destruct (lookup s) as [e|]; [| intros H; exact (IH _ _ H)].
  destruct (bucket_take cost (bucket_ r)) as [[] k2]; cbn [bucket_ rpacker_].
  - change (rpacker_ (r {{ bucket_ := k2 }})) with (rpacker_ r).
    destruct (add_one (rpacker_ r) e) as [p b] eqn:Ea. intros H.
    apply IH in H as (Hs & bs & Hb & ->). split; [exact Hs |]. exists (some_body b ++ bs). split; [| by rewrite app_assoc].
    cbn [add_all]. unfold add. rewrite Ea. change (add_all p (granted k2 reqs) = (rpacker_ r', bs)) in Hb. rewrite Hb. by destruct b.
  - intros H. exact (IH _ _ H).
Qed.

End Answer.

(** The packer between two answers. *)
Record packer_idle (p : SbiPacker) : Prop := {
  pi_pending : packer_pending p [];
  pi_room : 0 < blocks_per_body_ p;
  pi_len : (0 < block_payload_ p)%nat /\ in_width 16 (Z.of_nat (block_payload_ p));
}.

Lemma packer_pending_flush p pend : packer_pending p pend -> packer_pending (flush_one p).1 [].
Proof.
  intros [H1 H2]. unfold flush_one. destruct (Z.eqb_spec (n_pending_ p) 0) as [E|]; [| done].
  destruct pend; [done |]. rewrite H1 in E. cbn [length] in E. lia.
Qed.

Lemma add_all_config p es :
  let p' := (add_all p es).1 in
  block_payload_ p' = block_payload_ p /\ blocks_per_body_ p' = blocks_per_body_ p /\ stream_id_ p' = stream_id_ p.
Proof.
  revert p. induction es as [|e es IH]; intros p; [done |]. cbn [add_all]. unfold add.
  pose proof (add_one_config p e) as C. destruct (add_one p e) as [p1 b]. cbn in C. specialize (IH p1). cbn in IH.
  destruct (add_all p1 es) as [p2 bs]. cbn in *. intuition congruence.
Qed.

Lemma add_all_pending p pend es :
  packer_pending p pend -> Forall (fun e => length e = block_payload_ p) es ->
  exists pend', packer_pending (add_all p es).1 pend'.
Proof.
  revert p pend. induction es as [|e es IH]; intros p pend Hp; [by exists pend |]. intros [He Hes]%Forall_cons.
  cbn [add_all]. unfold add. pose proof (add_one_spec p pend e Hp He) as Ha. pose proof (add_one_config p e) as (C & _).
  destruct (add_one p e) as [p1 b]. cbn in C. rewrite <- C in Hes.
  assert (exists pend1, packer_pending p1 pend1) as [pend1 H1] by (destruct (_ <=? _); destruct Ha; eauto).
  destruct (IH p1 pend1 H1 Hes) as [pend2 H2]. destruct (add_all p1 es) as [p2 bs]. by exists pend2.
Qed.

(** The bodies of an answer carry, group by group, what was granted. *)
Lemma serve_spec lookup nk r out r' :
  serve lookup nk r = (out, r') -> packer_idle (rpacker_ r) ->
  Forall (fun e => length e = block_payload_ (rpacker_ r))
    (granted lookup (if twice nk then d_of_Z 2 else d_one) (bucket_ r) (requested nk)) ->
  same_lines r r' /\ packer_idle (rpacker_ r') /\
  exists groups, grouping (Z.to_nat (blocks_per_body_ (rpacker_ r))) groups
      (granted lookup (if twice nk then d_of_Z 2 else d_one) (bucket_ r) (requested nk)) /\
    Forall2 (packed (Z.of_nat (block_payload_ (rpacker_ r))) (stream_id_ (rpacker_ r))) out groups.
Proof.
  unfold serve. set (cost := if twice nk then _ else _). intros Hs [Hp Hroom [Hl Hw]] Hg.
  destruct (fold_left _ (requested nk) ([], r)) as [out1 r1] eqn:Ef.
  apply serve_fold in Ef as (Hsame & bs & Hb & ->). destruct (flush_one (rpacker_ r1)) as [p tail] eqn:Efl.
  injection Hs as <- <-. split; [exact Hsame |].
  pose proof (add_all_config (rpacker_ r) (granted lookup cost (bucket_ r) (requested nk))) as C.
  pose proof (add_all_pending (rpacker_ r) [] _ Hp Hg) as [pend Hpend]. rewrite Hb in C, Hpend. cbn in C, Hpend.
  destruct C as (C1 & C2 & C3). split.
  - pose proof (packer_pending_flush _ _ Hpend) as Hfl. rewrite Efl in Hfl.
    assert (block_payload_ p = block_payload_ (rpacker_ r1) /\ blocks_per_body_ p = blocks_per_body_ (rpacker_ r1)) as [D1 D2]
      by (unfold flush_one in Efl; destruct (_ =? 0); injection Efl as <- _; done).
    split; unfold constant; cbn [rpacker_]; [exact Hfl | rewrite D2, C2; exact Hroom | rewrite D1, C1; by split].
  - destruct (pack_stream_grouping (rpacker_ r) [] (granted lookup cost (bucket_ r) (requested nk))
      (Z.to_nat (blocks_per_body_ (rpacker_ r)))) as (groups & G1 & G2); [done | lia | cbn; lia | done.. |].
    exists groups. split; [done |]. unfold pack_stream in G2. rewrite Hb in G2. unfold Sbi.flush in G2. rewrite Efl in G2.
    exact G2.
Qed.

(** ** At the head of the queue *)

Definition answer_body (now_ms : Z) (b : UepBody) : Prop :=
  b_stream_id b = 0 /\ enqueued_ms b = now_ms /\ au_first b = false.

Lemma send_all_spec now_ms bs clock k r : closed_ (txq_ r) = false ->
  let r' := send_all now_ms bs clock k r in
  closed_ (txq_ r') = false /\ rpacker_ r' = rpacker_ r /\ guard_ r' = guard_ r /\
  exists new, q_ (txq_ r') = new ++ q_ (txq_ r) /\ map UepEncoder.body new = rev bs /\ Forall (answer_body now_ms) new.
Proof.
  revert k r. induction bs as [|b bs IH]; intros k r Hc; [cbn; by split_and!; [.. | exists []] |].
  cbn [send_all]. set (r1 := send_one now_ms b (clock k) r).
  assert (Hr1 : txq_ r1 = (push_front (mkUepBody 0 b now_ms (clock k) false) (txq_ r)).2 /\ rpacker_ r1 = rpacker_ r /\
    guard_ r1 = guard_ r) by done.
  clearbody r1. destruct Hr1 as (E1 & E2 & E3). unfold push_front in E1. rewrite Hc in E1.
  assert (Hc1 : closed_ (txq_ r1) = false /\ q_ (txq_ r1) = mkUepBody 0 b now_ms (clock k) false :: q_ (txq_ r))
    by (rewrite E1; split; [exact Hc | reflexivity]).
  destruct Hc1 as [Hc1 Hq1]. destruct (IH (S k) r1 Hc1) as (F1 & F2 & F3 & new & F4 & F5 & F6). cbn zeta in *.
  split; [done |]. split; [congruence |]. split; [congruence |].
  exists (new ++ [mkUepBody 0 b now_ms (clock k) false]). split; [by rewrite F4, Hq1, <- app_assoc |].
  split; [by rewrite map_app, F5 |]. apply Forall_app. split; [done |]. by constructor.
Qed.

(** The whole hook, on a request it accepts. *)
Lemma nack_hook_ok acfg cfg body p1 p2 sp op now_us now_ms lookup clock r nk g :
  check_nack acfg body p1 p2 sp (guard_ r) = Some (NackOk nk, g) ->
  closed_ (txq_ r) = false -> packer_idle (rpacker_ r) ->
  let cost := if twice nk then d_of_Z 2 else d_one in
  let es := granted lookup cost (meter cfg op now_us (bucket_ r)) (requested nk) in
  Forall (fun e => length e = block_payload_ (rpacker_ r)) es ->
  exists r' new out groups,
    nack_hook acfg cfg body p1 p2 sp op now_us now_ms lookup clock r = Some r' /\
    q_ (txq_ r') = new ++ q_ (txq_ r) /\ closed_ (txq_ r') = false /\ packer_idle (rpacker_ r') /\ guard_ r' = g /\
    map UepEncoder.body new = (if twice nk then out ++ out else out) /\ Forall (answer_body now_ms) new /\
    grouping (Z.to_nat (blocks_per_body_ (rpacker_ r))) groups es /\
    Forall2 (packed (Z.of_nat (block_payload_ (rpacker_ r))) (stream_id_ (rpacker_ r))) out groups.
Proof.
  intros Hck Hc Hp cost es Hes. unfold nack_hook. rewrite Hck. cbn [mbind option_bind].
  match goal with |- context [serve lookup nk ?x] => set (r1 := x) end.
  assert (H1 : bucket_ r1 = meter cfg op now_us (bucket_ r) /\ rpacker_ r1 = rpacker_ r /\ txq_ r1 = txq_ r /\ guard_ r1 = g)
    by done.
  clearbody r1. destruct H1 as (B1 & B2 & B3 & B4). destruct (serve lookup nk r1) as [out r2] eqn:Es.
  apply serve_spec in Es as ((S1 & _ & S3) & S4 & groups & S5 & S6);
    [| by rewrite B2 | by rewrite B1, B2]. rewrite B1, B2 in *. fold cost es in S5.
  rewrite B3 in S1. rewrite B4 in S3. assert (Hc2 : closed_ (txq_ r2) = false) by (by rewrite S1).
  destruct (send_all_spec now_ms (rev out) clock 0 r2 Hc2) as (T1 & T2 & T3 & new & T4 & T5 & T6).
  cbn zeta in *. set (r3 := send_all now_ms (rev out) clock 0 r2) in *. rewrite rev_involutive in T5. rewrite S1 in T4.
  destruct (twice nk).
  - destruct (send_all_spec now_ms (rev out) clock (length out) r3 T1) as (U1 & U2 & U3 & new2 & U4 & U5 & U6).
    cbn zeta in *. rewrite rev_involutive in U5.
    exists (send_all now_ms (rev out) clock (length out) r3), (new2 ++ new), out, groups. split; [done |].
    split; [by rewrite U4, T4, app_assoc |]. split; [done |]. split; [by rewrite U2, T2 |]. split; [by rewrite U3, T3, S3 |].
    split; [by rewrite map_app, U5, T5 |]. split; [by apply Forall_app |]. by split.
  - exists r3, new, out, groups. split; [done |]. split; [done |]. split; [done |]. split; [by rewrite T2 |].
    split; [by rewrite T3, S3 |]. by split_and!.
Qed.

(** ** The request, checked *)

Definition session_of (vrx vtx : Z) : Z := Z.lor (Z.shiftl vrx 32) vtx.

Lemma session_of_vtx vrx vtx : in_width 32 vtx -> vtx_of (session_of vrx vtx) = vtx.
Proof.
  intros Hv. apply Z.bits_inj'. intros j Hj. unfold vtx_of, session_of. change 4294967295 with (Z.ones 32).
  rewrite Z.land_spec, Z.lor_spec, Z.shiftl_spec by done. destruct (Z.lt_ge_cases j 32) as [H|H].
  - by rewrite Z.ones_spec_low, (Z.testbit_neg_r vrx), andb_true_r by lia.
  - rewrite Z.ones_spec_high, andb_false_r by lia. symmetry. apply (in_width_testbit 32); [lia | done].
Qed.

Lemma session_of_vrx vrx vtx : in_width 32 vtx -> Z.shiftr (session_of vrx vtx) 32 = vrx.
Proof.
  intros Hv. unfold session_of. rewrite Z.shiftr_lor, Z.shiftr_shiftl_l, Z.sub_diag, Z.shiftl_0_r by done.
  replace (Z.shiftr vtx 32) with 0; [apply Z.lor_0_r |]. symmetry. apply Z.shiftr_eq_0_iff. unfold in_width in Hv.
  destruct (Z.eq_dec vtx 0); [by left | right; split; [lia |]]. apply Z.log2_lt_pow2; lia.
Qed.

Lemma session_of_nonzero vrx vtx : in_width 32 vtx -> vtx <> 0 -> (session_of vrx vtx =? 0) = false.
Proof.
  intros Hv Hne. apply Z.eqb_neq. intros E. pose proof (session_of_vtx vrx vtx Hv) as H. rewrite E in H. done.
Qed.

(** The counter word does not hold this counter or a later one of the same pair. *)
Definition counter_fresh (word vtx c : Z) : Prop := (if Z.shiftr word 32 =? vtx then u32 word else 0) < c.

Lemma check_nack_ok acfg k vrx vtx sp g air :
  nack_typed k -> nack_on_wire k = k -> sid k = 0 -> bytes_ok (key acfg) -> in_width 32 vtx -> vtx <> 0 ->
  counter_fresh (nack_last g) vtx (n_counter k) ->
  exists g', check_nack acfg (pack_nack k (key acfg) (mkTagCtx vrx vtx (n_counter k)) ++ air)
    (session_of vrx vtx) (session_of vrx vtx) sp g = Some (NackOk k, g').
Proof.
  intros Hk Hw Hs Hkey Hv Hne Hf. unfold check_nack. rewrite parse_pack_nack, Hw by done. cbn [mbind option_bind].
  rewrite Hs. cbn [Z.eqb negb]. unfold verifies_under. rewrite session_of_nonzero, session_of_vrx, session_of_vtx by done.
  rewrite verify_pack_nack by done. cbn [mbind option_bind]. unfold accept_session_counter, advance_counter.
  rewrite session_of_nonzero, Z.eqb_refl, session_of_vtx by done. cbn [orb negb].
  assert (E : advance_loop vtx (n_counter k) (nack_last g) (repeat (nack_last g) sp) =
    Some (Z.lor (Z.shiftl vtx 32) (n_counter k))).
  { clear -Hf. induction sp as [|sp IH]; cbn [repeat advance_loop]; unfold counter_fresh in Hf;
      rewrite (proj2 (Z.leb_gt _ _)) by done; done. }
  rewrite E. eauto.
Qed.

(** ** The decoder, fed with source envelopes *)

Section Ground.
Context (ss : nat) (src : Z -> list Z).
Hypothesis Hsrc : sender ss src.
Hypothesis Hss : in_width 16 (Z.of_nat (kSwHeaderLen + ss)).

(** The envelope of the source symbol [q], as the encoder seals it. *)
Definition source_env (q : Z) : list Z := pack_header (mkSwHeader false (Z.of_nat ss) q 0 0) ++ src q.

Lemma source_env_length q : length (source_env q) = (kSwHeaderLen + ss)%nat.
Proof. unfold source_env. by rewrite length_app, pack_header_length, (proj1 (Hsrc q)). Qed.

Lemma unwrap_unique d q v :
  session_ok d -> in_width 32 q -> u32 v = q -> newest_v_ d - 2 ^ 31 <= v < newest_v_ d + 2 ^ 31 -> unwrap d q = v.
Proof.
  intros Hs Hq Hv Hn. pose proof (unwrap_near d q Hs Hq) as H1. pose proof (unwrap_u32 d q Hq) as H2.
  clear Hs. set (u := unwrap d q) in *. clearbody u. set (n := newest_v_ d) in *. clearbody n. rewrite <- Hv in H2.
  unfold wrap in *. assert (H3 : u mod 2 ^ 32 = v mod 2 ^ 32) by congruence. clear Hq Hv H2. mlia.
Qed.

(** What a call keeps of the symbols from [lo] on, and what it hands up. *)
Record moved (lo : Z) (d d' : SwDecoder) (vs : list Z) : Prop := {
  mv_inv : dec_inv ss src d';
  mv_have : have_seq_ d' = true;
  mv_horizon : horizon_ d' = horizon_ d;
  mv_newest : newest_v_ d <= newest_v_ d';
  mv_kept : forall w, lo <= w -> is_Some (known_ d !! w) -> is_Some (known_ d' !! w);
  mv_told : forall w, is_Some (known_ d' !! w) -> is_Some (known_ d !! w) \/ w ∈ vs;
}.

Lemma moved_refl lo d : dec_inv ss src d -> have_seq_ d = true -> moved lo d d [].
Proof. intros. split; try done; auto. Qed.

Lemma moved_trans lo d1 d2 d3 vs1 vs2 : moved lo d1 d2 vs1 -> moved lo d2 d3 vs2 -> moved lo d1 d3 (vs1 ++ vs2).
Proof.
  intros [] []. split; try done; [congruence | lia | auto |].
  intros w Hw. rewrite elem_of_app. destruct (mv_told1 w Hw) as [H|H]; [| tauto]. destruct (mv_told0 w H); tauto.
Qed.

Lemma source_prologue_near d h b clean retx :
  dec_inv ss src d -> session_ok d -> in_width 32 (seq h) ->
  newest_v_ d - kResetSpan <= unwrap d (seq h) <= newest_v_ d + kResetSpan ->
  exists d1, source_prologue d h b clean retx = (d1, unwrap d (seq h)) /\ dec_inv ss src d1 /\
    known_ d1 = known_ d /\ have_seq_ d1 = true /\ newest_v_ d1 = newest_v_ d /\ horizon_ d1 = horizon_ d.
Proof.
  intros Hi Hs Hw Hnear. pose proof Hs as (Hhave & Hn & _).
  pose proof (source_prologue_ok ss src d h b clean retx Hi Hw) as Hp.
  assert (Hfar : (u64 (newest_v_ d + kResetSpan) <? unwrap d (seq h)) ||
    (u64 (unwrap d (seq h) + kResetSpan) <? newest_v_ d) = false).
  { unfold kResetSpan in *. apply orb_false_iff. split; apply Z.ltb_ge; rewrite wrap_small by (unfold in_width; lia); lia. }
  assert (E : exists d1, source_prologue d h b clean retx = (d1, unwrap d (seq h)) /\
    known_ d1 = known_ d /\ have_seq_ d1 = true /\ newest_v_ d1 = newest_v_ d /\ horizon_ d1 = horizon_ d).
  { unfold source_prologue. rewrite Hhave. cbn zeta. rewrite Hfar. destruct retx; eexists; (split; [reflexivity |]); done. }
  destruct E as (d1 & E & E1). rewrite E in Hp. exists d1. split; [done |]. destruct Hp as (? & _ & _). by split.
Qed.

(** A source envelope, wherever it lies in the reset span: nothing from the new floor on is
    forgotten, and it is known unless it lay below the floor. *)
Lemma source_step d q now b clean retx :
  dec_inv ss src d -> session_ok d -> in_width 32 q ->
  let v := unwrap d q in
  newest_v_ d - kResetSpan <= v <= newest_v_ d + kResetSpan ->
  exists d' vs, add_symbol d (source_env q) now b clean retx = Some (d', concat (map (fun v => pkts_of ss (srcv src v)) vs)) /\
    moved (Z.max (newest_v_ d) v - horizon_ d) d d' vs /\ newest_v_ d' <= Z.max (newest_v_ d) v /\
    (newest_v_ d - horizon_ d <= v -> is_Some (known_ d' !! v)).
Proof.
  intros Hi Hs Hq v Hnear. unfold add_symbol, source_env.
  assert (Hss' : in_width 16 (Z.of_nat ss)) by (clear -Hss; unfold in_width, kSwHeaderLen in *; lia).
  rewrite parse_pack_header; [| split_all; cbn; try done; decided | done].
  cbn [mbind option_bind SwWire.symbol_size]. change (SwDecoder.cfg_ (set_out_seqs d [])) with (SwDecoder.cfg_ d).
  rewrite (di_cfg _ _ _ Hi), Z.eqb_refl, length_app, pack_header_length, (proj1 (Hsrc q)), Nat2Z.inj_add, Z.eqb_refl.
  cbn [negb orb repair]. rewrite drop_app_length'; [| by rewrite pack_header_length].
  set (d0 := bump (set_out_seqs d []) symbols_in 1). assert (Hi0 : dec_inv ss src d0) by (by eapply dec_inv_same, Hi).
  set (h := mkSwHeader false (Z.of_nat ss) q 0 0).
  destruct (source_prologue_near d0 h b clean retx Hi0 Hs Hq Hnear) as (d1 & E & Hi1 & Ek & Eh & En & Ez).
  unfold add_source. rewrite E. change (unwrap d0 (seq h)) with v. change (known_ d0) with (known_ d) in Ek.
  change (newest_v_ d0) with (newest_v_ d) in En. change (horizon_ d0) with (horizon_ d) in Ez.
  assert (Hs1 : session_ok d1) by (destruct Hs as (? & ? & ?); unfold session_ok; rewrite Eh, En, Ez; done).
  assert (Hfl1 : live_floor d1 = newest_v_ d - horizon_ d) by (rewrite live_floor_id, En, Ez by done; done).
  destruct ((v <? live_floor d1) || is_known d1 v) eqn:Eold.
  - assert (Hkeep : forall c rec ret, rec ⊆ recovered_await_src_ d1 -> ret ⊆ retx_await_src_ d1 ->
      let d' := bump (set_symbols d1 (known_ d1) (rows_ d1) rec ret) c 1 in
      moved (Z.max (newest_v_ d) v - horizon_ d) d d' [] /\ newest_v_ d' <= Z.max (newest_v_ d) v /\
      (newest_v_ d - horizon_ d <= v -> is_Some (known_ d' !! v))).
    { intros c rec ret S1 S2 d'. assert (Hk' : known_ d' = known_ d) by done. assert (Hn' : newest_v_ d' = newest_v_ d) by done.
      split; [| split].
      - split; try done; [| lia | by rewrite Hk' | rewrite Hk'; auto].
        destruct Hi1 as [C1 C2 C3 C4 C5 C6]. constructor; cbn; try done.
        + intros w Hw'. apply C5. clear -S1 S2 Hw'. set_solver.
        + clear -S1 S2 C6. set_solver.
      - lia.
      - intros Hv. apply orb_true_iff in Eold as [H%Z.ltb_lt | H]; [lia |].
        rewrite Hk', <- Ek. by apply bool_decide_eq_true in H. }
    destruct retx; [| destruct (bool_decide _); [| destruct (bool_decide _)]]; eexists _, []; (split; [reflexivity |]).
    + by apply (Hkeep _ (recovered_await_src_ d1) (retx_await_src_ d1)).
    + apply Hkeep; [clear; set_solver | done].
    + apply Hkeep; [done | clear; set_solver].
    + by apply (Hkeep _ (recovered_await_src_ d1) (retx_await_src_ d1)).
  - apply orb_false_iff in Eold as [Hlo%Z.ltb_ge Hunk].
    rewrite take_ge by (rewrite (proj1 (Hsrc _)), (di_ss _ _ d1 Hi1); done).
    assert (Hu : u32 v = q) by (by apply unwrap_u32). replace (src q) with (srcv src v) by (unfold srcv; by rewrite Hu).
    assert (Hafl : live_floor (advance d1 v) = Z.max (newest_v_ d) v - horizon_ d).
    { rewrite advance_floor, En, Ez; [done | done |]. unfold kResetSpan in Hnear. destruct Hs as (_ & ? & _). lia. }
    destruct (ingest_ok ss src (fun s => proj1 (Hsrc s)) (fun s => proj2 (Hsrc s)) (advance d1 v) v (if retx then kRetx else kSource) [])
      as (d' & vs & out & E2 & Hi' & Hd & Hhead); [by apply advance_inv |].
    exists d', vs. split; [rewrite E2; by rewrite (dl_out _ _ _ _ _ _ _ Hd) |].
    destruct (advance_spec d1 v) as (An & _ & Ah & _ & _ & _ & Ahv & _).
    destruct (dl_frame _ _ _ _ _ _ _ Hd) as (_ & F1 & F2 & F3 & _).
    assert (Hkeep : forall w, Z.max (newest_v_ d) v - horizon_ d <= w -> known_ (advance d1 v) !! w = known_ d !! w)
      by (intros w Hw; rewrite advance_known by (by rewrite Hafl); by rewrite Ek).
    split; [| split].
    + split; [done | by rewrite F2, Ahv | by rewrite F1, Ah | rewrite F3, An, En; lia | |].
      * intros w Hw Hkw. apply (dl_known _ _ _ _ _ _ _ Hd). left. by rewrite Hkeep.
      * intros w Hw. apply (dl_known _ _ _ _ _ _ _ Hd) in Hw as [Hw | Hw]; [left | by right].
        destruct (advance_symbols d1 v) as [(_ & Ek2 & _) | (nb & _ & _ & Ek2 & _)]; rewrite Ek2 in Hw.
        -- by rewrite <- Ek.
        -- destruct Hw as [y Hy]. apply map_lookup_filter_Some in Hy as [Hy _]. rewrite <- Ek. eauto.
    + by rewrite F3, An, En.
    + intros _. apply (dl_known _ _ _ _ _ _ _ Hd). right.
      assert (Hh : list.head vs = Some v).
      { apply Hhead; [| rewrite Hafl; destruct Hs as (_ & _ & ?); lia].
        rewrite Hkeep by (destruct Hs as (_ & _ & ?); lia). apply bool_decide_eq_false in Hunk. rewrite <- Ek.
        destruct (known_ d1 !! v); [exfalso; apply Hunk; eauto | done]. }
      destruct vs as [|w vs]; [discriminate Hh |]. injection Hh as ->. constructor.
Qed.

(** *** A run of them *)

Lemma moved_from lo lo' d d' vs : moved lo d d' vs -> lo <= lo' -> moved lo' d d' vs.
Proof. intros [] ?. split; try done. intros. apply mv_kept0; [lia | done]. Qed.

Section Feed.
Context (d0 : SwDecoder) (B : Z).
Hypothesis Hd0 : session_ok d0.
Hypothesis HB : newest_v_ d0 <= B <= newest_v_ d0 + 2 ^ 19.
Hypothesis HB62 : B < 2 ^ 62.

(** The symbols from the last floor on. *)
Abbreviation lo := (B - horizon_ d0).

(** Half the reset span around where the feed began, up to [B]. *)
Definition near (q : Z) : Prop := in_width 32 q /\ newest_v_ d0 - 2 ^ 19 <= unwrap d0 q <= B.

Record fed (d : SwDecoder) (vs : list Z) : Prop := { fd_moved : moved lo d0 d vs; fd_newest : newest_v_ d <= B }.

Lemma fed_session d vs : fed d vs -> session_ok d.
Proof.
  intros [[] Hn]. destruct Hd0 as (_ & H1 & H2). split; [done |]. rewrite mv_horizon0. split; [lia | done].
Qed.

Lemma fed_unwrap d vs q : fed d vs -> near q -> unwrap d q = unwrap d0 q.
Proof.
  intros Hf [Hq Hn]. apply unwrap_unique; [by eapply fed_session | done | by apply unwrap_u32 |].
  destruct Hf as [[] ?]. lia.
Qed.

Lemma fed_step d vs d' vs' : fed d vs -> moved lo d d' vs' -> newest_v_ d' <= B -> fed d' (vs ++ vs').
Proof. intros [Hm Hn] M N. split; [| done]. eapply moved_trans; [exact Hm | exact M]. Qed.

Lemma feed_one d vs q now b clean retx : fed d vs -> near q ->
  exists d' vs', add_symbol d (source_env q) now b clean retx = Some (d', concat (map (fun v => pkts_of ss (srcv src v)) vs')) /\
    moved lo d d' vs' /\ newest_v_ d' <= B /\ (lo <= unwrap d0 q -> is_Some (known_ d' !! unwrap d0 q)).
Proof.
  intros Hf Hq. pose proof (fed_session _ _ Hf) as Hs. pose proof (fed_unwrap _ _ _ Hf Hq) as Hu.
  destruct Hf as [Hm Hn]. destruct Hq as [Hq Hv]. pose proof (mv_newest _ _ _ _ Hm) as Hmn. pose proof (mv_horizon _ _ _ _ Hm) as Hh.
  destruct (source_step d q now b clean retx (mv_inv _ _ _ _ Hm) Hs Hq) as (d' & vs' & E & M & N & K).
  { rewrite Hu. unfold kResetSpan. lia. }
  rewrite Hu in *. exists d', vs'. split; [done |]. split; [eapply moved_from; [exact M |]; lia |]. split; [lia |].
  intros Hlo. apply K. lia.
Qed.

Lemma frags_packets sid mono clean r pkts seqs :
  map df_frag (frags_of sid mono clean r (with_seqs pkts seqs)) = filter (fun p => (kHdrLen <= length p)%nat) pkts.
Proof.
  unfold frags_of. rewrite map_map. cbn [df_frag]. revert seqs. induction pkts as [|p pkts IH]; intros seqs; [done |].
  destruct seqs as [|s seqs]; cbn [with_seqs]; rewrite !filter_cons; cbn [fst]; (case_decide; [cbn [map fst]; f_equal |]);
    apply IH.
Qed.

Abbreviation told vs := (filter (fun p => (kHdrLen <= length p)%nat) (concat (map (fun v => pkts_of ss (srcv src v)) vs))).

Lemma feed_many qs d vs now mono hint clean r : fed d vs -> Forall near qs ->
  exists d' vs' out, feed_survivors d 0 now mono hint clean r (map source_env qs) = Some (d', out) /\
    moved lo d d' vs' /\ newest_v_ d' <= B /\ map df_frag out = told vs' /\
    Forall (fun q => lo <= unwrap d0 q -> is_Some (known_ d' !! unwrap d0 q)) qs.
Proof.
  revert d vs. induction qs as [|q qs IH]; intros d vs Hf; [intros _ | intros [Hq Hqs]%Forall_cons].
  { exists d, [], []. split; [done |]. destruct Hf as [[] ?]. split; [by apply moved_refl |]. by split_and!. }
  destruct (feed_one d vs q now hint clean (retx r) Hf Hq) as (d1 & vs1 & E1 & M1 & N1 & K1).
  destruct (IH d1 (vs ++ vs1) (fed_step _ _ _ _ Hf M1 N1) Hqs) as (d2 & vs2 & out & E2 & M2 & N2 & T2 & K2).
  eexists d2, (vs1 ++ vs2), _. cbn [map feed_survivors]. rewrite E1. cbn [mbind option_bind]. rewrite E2.
  cbn [mbind option_bind]. split; [reflexivity |]. split; [by eapply moved_trans |]. split; [done |]. split.
  - by rewrite map_app, frags_packets, T2, map_app, concat_app, filter_app.
  - constructor; [| done]. intros Hlo. apply (mv_kept _ _ _ _ M2); auto.
Qed.

(** *** A body of the answer, at the ground's decoder *)

Abbreviation bp := (kSwHeaderLen + ss)%nat.

Lemma moved_same d d' : dec_inv ss src d -> have_seq_ d = true -> same_symbols d d' -> have_seq_ d' = have_seq_ d ->
  horizon_ d' = horizon_ d -> newest_v_ d' = newest_v_ d -> moved lo d d' [].
Proof.
  intros Hi Hh Hs H1 H2 H3. pose proof Hs as (_ & Hk & _).
  split; [by eapply dec_inv_same | congruence | done | lia | by rewrite Hk | rewrite Hk; auto].
Qed.

Lemma hint_moved l now mcs : dec_inv ss src (UepDecoder.sw l) -> have_seq_ (UepDecoder.sw l) = true ->
  let '(l', _) := boundary_hint l now mcs in
  moved lo (UepDecoder.sw l) (UepDecoder.sw l') [] /\ newest_v_ (UepDecoder.sw l') = newest_v_ (UepDecoder.sw l) /\
  env_size l' = env_size l.
Proof.
  intros Hi Hh. unfold boundary_hint. destruct (negb _); [| destruct (_ && _); [| destruct (_ && _)]];
    (split; [| done]); by apply moved_same.
Qed.

Lemma feed_body u vs g qs b w now mcs mono clean :
  fed (UepDecoder.sw (layer0 u)) vs -> env_size (layer0 u) = Z.of_nat bp -> in_width 16 w ->
  packed (Z.of_nat bp) (Z.lor 0 kSbiRetxMark) b g -> g = map source_env qs -> Forall near qs ->
  exists u' vs' out, add_body u (sbi_set_q_ms b w) now mcs mono clean = Some (u', out) /\
    moved lo (UepDecoder.sw (layer0 u)) (UepDecoder.sw (layer0 u')) vs' /\ newest_v_ (UepDecoder.sw (layer0 u')) <= B /\
    env_size (layer0 u') = env_size (layer0 u) /\ map df_frag out = told vs' /\
    Forall (fun q => lo <= unwrap d0 q -> is_Some (known_ (UepDecoder.sw (layer0 u')) !! unwrap d0 q)) qs.
Proof.
  intros Hf He Hw Hp -> Hqs. unfold add_body.
  assert (Hlen : Forall (fun e => length e = bp) (map source_env qs)).
  { apply Forall_map. eapply Forall_impl; [exact Hqs |]. intros. apply source_env_length. }
  assert (Hpk : sbi_peek_stream_id (sbi_set_q_ms b w) = Some 0).
  { destruct Hp as [n ->]. rewrite set_q_ms_header by done. reflexivity. }
  rewrite Hpk. cbn [mbind option_bind sid_ok]. change (sid_ok 0) with true. cbn [negb]. change (layer_at u 0) with (layer0 u).
  unfold layer_body. set (l1 := set_counts (layer0 u) _ _ _ _). assert (E1 : UepDecoder.sw l1 = UepDecoder.sw (layer0 u)) by done.
  assert (E1e : env_size l1 = env_size (layer0 u)) by done. clearbody l1.
  assert (Hi1 : dec_inv ss src (UepDecoder.sw l1) /\ have_seq_ (UepDecoder.sw l1) = true)
    by (rewrite E1; destruct Hf as [[] ?]; done).
  pose proof (hint_moved l1 now mcs (proj1 Hi1) (proj2 Hi1)) as Hh. destruct (boundary_hint l1 now mcs) as [l2 hint].
  destruct Hh as (M2 & N2 & E2). set (hint' := if retx_marked _ then kNone else hint). cbn zeta.
  set (l3 := close_on_post l2 hint' now). assert (E3 : UepDecoder.sw l3 = UepDecoder.sw l2 /\ env_size l3 = env_size l2).
  { subst l3. unfold close_on_post. destruct hint'; try done. by destruct (bnd_open l2). }
  clearbody l3. destruct E3 as [E3 E3e].
  rewrite E3e, E2, E1e, He, (packed_unpack _ _ _ _ w) with (5 := Hp); [| unfold kSwHeaderLen; lia | done | done | done].
  cbn [mbind option_bind survivors]. match goal with |- context [feed_survivors (UepDecoder.sw ?l) _ _ _ _ _ ?r _] =>
    set (l4 := l); set (res := r) end.
  assert (E4 : UepDecoder.sw l4 = UepDecoder.sw l2) by done. assert (E4e : env_size l4 = env_size l2) by done. clearbody l4.
  rewrite E1 in M2, N2. assert (F2 : fed (UepDecoder.sw l2) (vs ++ [])).
  { eapply fed_step; [exact Hf | exact M2 |]. rewrite N2. apply (fd_newest _ _ Hf). }
  destruct (feed_many qs _ _ now mono hint' clean res F2 Hqs) as (d' & vs' & out & E & M & N & T & K).
  rewrite E4, E. cbn [mbind option_bind]. eexists _, vs', _. split; [reflexivity |]. cbn [UepDecoder.sw layer0 set_layer].
  split; [exact (moved_trans _ _ _ _ _ _ M2 M) |]. split; [done |]. split; [transitivity (env_size l4); [done | congruence] |]. by split.
Qed.

(** *** All of them, however they are heard *)

(** When a body is heard: the clock, the rate it came at, its arrival stamp, whether its frame
    check passed. *)
Definition Heard : Type := Z * Z * Z * bool.

Fixpoint hear (u : UepDecoder) (bs : list (list Z)) (at_ : nat -> Heard) (k : nat) : option (UepDecoder * list DecodedFrag) :=
  match bs with
  | [] => Some (u, [])
  | b :: bs =>
      let '(now, mcs, mono, clean) := at_ k in
      '(u, o) ← add_body u b now mcs mono clean;
      '(u, o') ← hear u bs at_ (S k);
      Some (u, o ++ o')
  end.

Lemma hear_all qss bs ws u vs at_ k :
  fed (UepDecoder.sw (layer0 u)) vs -> env_size (layer0 u) = Z.of_nat bp -> Forall (in_width 16) ws ->
  Forall2 (packed (Z.of_nat bp) (Z.lor 0 kSbiRetxMark)) bs (map (map source_env) qss) -> length ws = length bs ->
  Forall (Forall near) qss ->
  exists u' vs' out, hear u (zip_with sbi_set_q_ms bs ws) at_ k = Some (u', out) /\
    moved lo (UepDecoder.sw (layer0 u)) (UepDecoder.sw (layer0 u')) vs' /\ map df_frag out = told vs' /\
    Forall (fun q => lo <= unwrap d0 q -> is_Some (known_ (UepDecoder.sw (layer0 u')) !! unwrap d0 q)) (concat qss).
Proof.
  revert bs ws u vs k. induction qss as [|qs qss IH]; intros bs ws u vs k Hf He Hw Hp Hl Hq.
  { inversion Hp; subst. exists u, [], []. split; [done |]. destruct Hf as [[] ?]. by split; [apply moved_refl |]. }
  inversion Hp as [| b g bs' gs Hb Hbs]; subst. destruct ws as [|w ws]; [done |].
  apply Forall_cons in Hw as [Hw Hws]. apply Forall_cons in Hq as [Hqs Hqss]. cbn [zip_with hear].
  destruct (at_ k) as [[[now mcs] mono] clean].
  destruct (feed_body u vs _ qs b w now mcs mono clean Hf He Hw Hb eq_refl Hqs) as (u1 & vs1 & o1 & E1 & M1 & N1 & S1 & T1 & K1).
  rewrite E1. cbn [mbind option_bind].
  destruct (IH bs' ws u1 (vs ++ vs1) (S k)) as (u2 & vs2 & o2 & E2 & M2 & T2 & K2);
    [by eapply fed_step | congruence | done | done | by injection Hl | done |].
  rewrite E2. cbn [mbind option_bind]. eexists u2, (vs1 ++ vs2), _. split; [reflexivity |].
  split; [by eapply moved_trans |]. split; [by rewrite map_app, T1, T2, map_app, concat_app, filter_app |].
  cbn [concat]. apply Forall_app. split; [| done]. eapply Forall_impl; [exact K1 |]. intros q Hk Hlo.
  apply (mv_kept _ _ _ _ M2); auto.
Qed.
End Feed.

(** ** What the ring holds *)

(** The tap shows the envelopes of the base layer's sources. *)
Definition genuine_tap (x : Z * Z * list Z) : Prop := let '(sid, q, e) := x in sid = 0 -> e = source_env q.

Lemma tap_ring_genuine taps r q e :
  ring_wf r -> env_len_ r = (kSwHeaderLen + ss)%nat -> (forall q e, get r q = Some e -> e = source_env q) ->
  Forall genuine_tap taps -> get (tap_ring r taps) q = Some e -> e = source_env q.
Proof.
  intros Hwf Hl Hg Ht. revert r Hwf Hl Hg. induction Ht as [|[[sid q1] e1] taps Hx Ht IH]; intros r Hwf Hl Hg; [apply Hg |].
  cbn [tap_ring fold_left]. destruct (Z.eqb_spec sid 0) as [Hs | Hs]; [| by apply IH]. specialize (Hx Hs). subst e1.
  assert (Hle : length (source_env q1) = env_len_ r) by (by rewrite source_env_length, Hl).
  destruct (put_spec r q1 _ Hwf Hle) as (W1 & _ & W3 & _). apply IH; [done | by rewrite W3 |].
  intros q' e'. rewrite get_put by done. destruct (decide _); [| apply Hg]. destruct (decide _) as [<-|]; [| done]. by intros [= <-].
Qed.

End Ground.

(** ** What the radio gets *)

Lemma wait_ms_width pop b : in_width 16 (wait_ms pop b).
Proof. unfold wait_ms, in_width. destruct (_ && _) eqn:E; [apply andb_prop in E as [_ E%Z.ltb_lt] |]; lia. Qed.

Lemma tx_turns_spec pops t :
  exists ws, Forall (in_width 16) ws /\ length ws = length (take (3 * length pops) (q_ t)) /\
    map UepEncoder.body (tx_turns pops t).1 = zip_with sbi_set_q_ms (map UepEncoder.body (take (3 * length pops) (q_ t))) ws.
Proof.
  revert t. induction pops as [|p pops IH]; intros t; [exists []; by split_and!; [constructor | ..] |].
  cbn [tx_turns]. unfold tx_turn, pop_batch. change (Z.to_nat 3) with 3%nat.
  destruct (IH (t {{ q_ ::= drop 3 }})) as (ws & H1 & H2 & H3). change (q_ (t {{ q_ ::= drop 3 }})) with (drop 3 (q_ t)) in H2, H3.
  destruct (tx_turns pops (t {{ q_ ::= drop 3 }})) as [bs t']. cbn [fst] in H3.
  assert (E : take (3 * S (length pops)) (q_ t) = take 3 (q_ t) ++ take (3 * length pops) (drop 3 (q_ t))).
  { replace (3 * S (length pops))%nat with (3 + 3 * length pops)%nat by lia. by rewrite take_take_drop. }
  exists (map (wait_ms p) (take 3 (q_ t)) ++ ws). cbn [length fst]. rewrite E. split; [| split].
  - apply Forall_app. split; [| done]. apply Forall_map, Forall_true. intros. apply wait_ms_width.
  - by rewrite !length_app, length_map, H2.
  - rewrite !map_app, zip_with_app by (by rewrite !length_map). rewrite H3, !map_map. f_equal.
    clear E. induction (take 3 (q_ t)) as [|b l IHl]; [done |]. cbn [map zip_with]. f_equal; exact IHl.
Qed.

Lemma take_zip_with {A B C} (f : A -> B -> C) n l k : take n (zip_with f l k) = zip_with f (take n l) (take n k).
Proof. revert l k. induction n as [|n IH]; intros [|x l] [|y k]; cbn; try done. by rewrite IH. Qed.

(** The first bodies of the queue go out in order, each with some wait patched in. *)
Lemma first_sent pops t new rest : q_ t = new ++ rest -> (length new <= 3 * length pops)%nat ->
  exists ws, Forall (in_width 16) ws /\ length ws = length new /\
    map UepEncoder.body (take (length new) (tx_turns pops t).1) = zip_with sbi_set_q_ms (map UepEncoder.body new) ws.
Proof.
  intros Hq Hn. destruct (tx_turns_spec pops t) as (ws & H1 & H2 & H3).
  assert (E : take (length new) (take (3 * length pops) (q_ t)) = new).
  { rewrite take_take, Nat.min_l by done. by rewrite Hq, take_app_length. }
  exists (take (length new) ws). split; [by apply Forall_take |]. split.
  - rewrite length_take, H2, length_take, Hq, length_app. lia.
  - by rewrite <- firstn_map, H3, take_zip_with, firstn_map, E.
Qed.

Lemma poll_sid t now i t' k : poll t now i = (t', Some k) -> sid k = 0.
Proof.
  unfold poll. destruct (negb _); [done |]. destruct (collect _ _ _) as [t1 [|s due]]; [done |].
  destruct (d_leb _ _); [done |]. unfold build_request. destruct (fill_runs _ _ _ _ _) as [[runs rep] t2]. by intros [= _ <-].
Qed.

Lemma concat_map_inv {A B} (f : A -> B) (gs : list (list B)) (l : list A) :
  concat gs = map f l -> exists ls, gs = map (map f) ls /\ concat ls = l.
Proof.
  revert l. induction gs as [|g gs IH]; intros l H; cbn in H; [destruct l; [by exists [] | done] |].
  symmetry in H. apply map_eq_app in H as (l1 & l2 & -> & <- & H2). destruct (IH l2 (eq_sym H2)) as (ls & -> & <-).
  by exists (l1 :: ls).
Qed.

Lemma omap_source {B} (f : Z -> option B) (g : Z -> B) l :
  (forall q e, f q = Some e -> e = g q) -> omap f l = map g (List.filter (fun q => bool_decide (is_Some (f q))) l).
Proof.
  intros H. induction l as [|q l IH]; [done |]. cbn. destruct (f q) as [e|] eqn:E; cbn.
  - rewrite (H q e E). by rewrite <- IH.
  - exact IH.
Qed.

Lemma new_ring_empty slots env_len r q : new_ring slots env_len = Some r -> get r q = None.
Proof.
  unfold new_ring. intros (n & _ & [= <-])%bind_Some. unfold get, state_at. cbn [state_].
  assert (E : nth (slot_of (mkRing n env_len (replicate (Z.to_nat n) 0) (replicate (Z.to_nat n) 0)
    (replicate (Z.to_nat n) (replicate env_len 0))) q) (replicate (Z.to_nat n) 0) 0 = 0); [| by rewrite E].
  generalize (Z.to_nat n), (slot_of (mkRing n env_len (replicate (Z.to_nat n) 0) (replicate (Z.to_nat n) 0)
    (replicate (Z.to_nat n) (replicate env_len 0))) q). intros m i. revert i. induction m as [|m IH]; intros [|i]; cbn; auto.
Qed.

Lemma restart_ok t : tracker_ok t -> tracker_ok (restart_counter t).
Proof. intros [H1 H2 H3 H4]. by split. Qed.

(** What a pass of the ground's loop sends, and what it is. *)
Lemma nack_pass_sent key vrx vtx silent now i p frame p' :
  tracker_ok (nack_ p) -> enable (NackTracker.cfg_ (nack_ p)) = true -> poll_ok now i ->
  nack_pass key vrx vtx true silent now i p = (Some frame, p') ->
  exists k, nack_typed k /\ nack_on_wire k = k /\ sid k = 0 /\ vtx <> 0 /\
    frame = pack_nack k key (mkTagCtx vrx vtx (n_counter k)) /\ parse_nack frame = Some (Some k).
Proof.
  intros Ht He Hp. unfold nack_pass. set (p0 := if _ && _ then _ else p).
  assert (H0 : tracker_ok (nack_ p0) /\ enable (NackTracker.cfg_ (nack_ p0)) = true)
    by (subst p0; destruct (_ && _); [split; [by apply restart_ok | done] | done]).
  clearbody p0. destruct H0 as [Ht0 He0]. cbn [negb]. rewrite orb_false_r.
  destruct (Z.eqb_spec vtx 0) as [|Hv]; [done |].
  pose proof (poll_spec (nack_ p0) now i Ht0 Hp He0) as Hs. pose proof (poll_sid (nack_ p0) now i) as Hsid.
  destruct (poll (nack_ p0) now i) as [t [k|]]; [| by destruct silent].
  destruct silent; [done |]. intros [= <- _]. destruct Hs as (_ & _ & rest & _ & _ & _ & H1 & H2 & _).
  exists k. split; [done |]. split; [done |]. split; [by eapply Hsid |]. split; [done |]. split; [done |].
  pose proof (parse_pack_nack k key (mkTagCtx vrx vtx (n_counter k)) [] H1) as E. rewrite app_nil_r, H2 in E. exact E.
Qed.

(** C8.  A lost symbol comes back.  When a pass of the ground's loop asks for symbols the drone is
    heard by in a session, the drone's ring still holds the one that is missing, and the tokens
    cover the request: the drone's answer goes to the head of the transmit queue, before all video
    waiting there; and once those bodies are heard, whatever was lost, late or waiting in between,
    the symbol is known to the ground's decoder, and its packets have been handed up if it was not
    known before.  Every call on the way returns. *)
Theorem retransmission_repairs (ss : nat) (src : Z -> list Z) (B : Z)
    (u : UepDecoder) (key : list Z) (vrx vtx : Z) (now : Z) (i : NackInputs) (p p' : NackPass) (frame air : list Z) (k : Nack)
    (acfg : Config) (cfg : RetxCfg) (sp : nat) (op : option LayerTxSpec) (now_us now_ms : Z) (clock : nat -> Z) (x : Retx)
    (slots : Z) (r0 : Ring) (taps : list (Z * Z * list Z)) (s : Z) :
  let d := UepDecoder.sw (layer0 u) in
  let r := tap_ring r0 taps in
  let session := session_of vrx vtx in
  (* the ground *)
  sender ss src -> in_width 16 (Z.of_nat (kSwHeaderLen + ss)) ->
  dec_inv ss src d -> session_ok d -> env_size (layer0 u) = Z.of_nat (kSwHeaderLen + ss) ->
  newest_v_ d <= B <= newest_v_ d + 2 ^ 19 -> B < 2 ^ 62 ->
  tracker_ok (nack_ p) -> enable (NackTracker.cfg_ (nack_ p)) = true -> poll_ok now i -> in_width 32 vtx ->
  nack_pass key vrx vtx true false now i p = (Some frame, p') -> parse_nack frame = Some (Some k) ->
  s ∈ requested k -> B - horizon_ d <= unwrap d s ->
  (* the drone *)
  RcPolicy.key acfg = key -> bytes_ok key -> counter_fresh (nack_last (guard_ x)) vtx (n_counter k) ->
  closed_ (txq_ x) = false -> packer_idle (rpacker_ x) -> block_payload_ (rpacker_ x) = (kSwHeaderLen + ss)%nat ->
  stream_id_ (rpacker_ x) = Z.lor 0 kSbiRetxMark ->
  new_ring slots (kSwHeaderLen + ss) = Some r0 -> Forall (genuine_tap ss src) taps ->
  is_Some (get r s) -> Forall (fun q => is_Some (get r q) -> near d B q) (requested k) ->
  affords (if twice k then d_of_Z 2 else d_one) (length (requested k)) (meter cfg op now_us (bucket_ x)) = true ->
  exists x' new, nack_hook acfg cfg (frame ++ air) session session sp op now_us now_ms (get r) clock x = Some x' /\
    q_ (txq_ x') = new ++ q_ (txq_ x) /\ Forall (answer_body now_ms) new /\
    forall pops at_, (length new <= 3 * length pops)%nat ->
      exists u' out, hear u (map UepEncoder.body (take (length new) (tx_turns pops (txq_ x')).1)) at_ 0 = Some (u', out) /\
        is_Some (known_ (UepDecoder.sw (layer0 u')) !! unwrap d s) /\
        (known_ d !! unwrap d s = None ->
         Forall (fun pkt => (kHdrLen <= length pkt)%nat -> pkt ∈ map df_frag out) (pkts_of ss (src s))).
Proof.
  intros d r session Hsrc Hss Hi Hs Henv HB HB62 Ht He Hp Hv Hpass Hparse Hin Hlo Hkey Hkb Hf Hc Hidle Hbp Hsid
    Hr Htaps Hheld Hnear Haff.
  destruct (nack_pass_sent _ _ _ _ _ _ _ _ _ Ht He Hp Hpass) as (k' & K1 & K2 & K3 & K4 & K5 & K6).
  assert (k' = k) as -> by (rewrite K6 in Hparse; by injection Hparse). rewrite K5. subst key.
  destruct (check_nack_ok acfg k vrx vtx sp (guard_ x) air K1 K2 K3 Hkb Hv K4 Hf) as [g Hck].
  destruct (new_ring_wf _ _ _ Hr) as [Hwf _].
  assert (Hel : env_len_ r0 = (kSwHeaderLen + ss)%nat) by (unfold new_ring in Hr; by apply bind_Some in Hr as (? & _ & [= <-])).
  assert (Hgen : forall q e, get r q = Some e -> e = source_env ss src q).
  { intros q e. apply tap_ring_genuine; try done. intros q' e'. by rewrite (new_ring_empty _ _ _ q' Hr). }
  set (qs := List.filter (fun q => bool_decide (is_Some (get r q))) (requested k)).
  assert (Hqs : forall q, q ∈ qs <-> q ∈ requested k /\ is_Some (get r q)).
  { intros q. unfold qs. rewrite !list_elem_of_In, filter_In. by rewrite bool_decide_eq_true. }
  assert (Hes : granted (get r) (if twice k then d_of_Z 2 else d_one) (meter cfg op now_us (bucket_ x)) (requested k) =
    map (source_env ss src) qs) by (rewrite granted_all by done; by apply omap_source).
  destruct (nack_hook_ok acfg cfg _ session session sp op now_us now_ms (get r) clock x k g Hck Hc Hidle)
    as (x' & new & out & groups & N1 & N2 & _ & _ & _ & N6 & N7 & N8 & N9).
  { rewrite Hes. apply Forall_map, Forall_true. intros. rewrite Hbp. by apply source_env_length. }
  rewrite Hes in N8. apply grouping_concat in N8 as Hcat. apply concat_map_inv in Hcat as (qss & -> & Hqss).
  exists x', new. split; [exact N1 |]. split; [done |]. split; [done |]. intros pops at_ Hn.
  destruct (first_sent pops (txq_ x') new _ N2 Hn) as (ws & W1 & W2 & ->). rewrite Hbp, Hsid in N9.
  set (n := if twice k then 2%nat else 1%nat).
  assert (Hnn : map UepEncoder.body new = concat (replicate n out)) by (rewrite N6; subst n; destruct (twice k); cbn; by rewrite app_nil_r).
  assert (Hrep : Forall2 (packed (Z.of_nat (kSwHeaderLen + ss)) (Z.lor 0 kSbiRetxMark)) (map UepEncoder.body new)
    (map (map (source_env ss src)) (concat (replicate n qss)))).
  { rewrite Hnn. clear -N9. induction n as [|n IH]; [constructor |]. cbn [replicate concat]. rewrite map_app. by apply Forall2_app. }
  destruct (hear_all ss src Hsrc Hss d B Hs HB HB62 (concat (replicate n qss)) (map UepEncoder.body new) ws u [] at_ 0)
    as (u' & vs & o & E & M & T & K); try done.
  - split; [apply moved_refl; [done | apply Hs] | apply HB].
  - by rewrite length_map.
  - assert (Hq : Forall (Forall (near d B)) qss); [| clear -Hq; induction n; [constructor | by apply Forall_app]].
    apply Forall_concat. rewrite Hqss. apply Forall_forall. intros q Hq. apply Hqs in Hq as [H1 H2].
    rewrite Forall_forall in Hnear. by apply Hnear.
  - exists u', o. split; [done |].
    assert (Hk : is_Some (known_ (UepDecoder.sw (layer0 u')) !! unwrap d s)).
    { rewrite Forall_forall in K. apply K; [| done]. subst n.
      assert (Hsq : s ∈ concat qss) by (rewrite Hqss; by apply Hqs).
      destruct (twice k); cbn [replicate concat]; rewrite !concat_app; apply elem_of_app; by left. }
    split; [done |]. intros Hun. destruct (mv_told _ _ _ _ _ _ M _ Hk) as [[y Hy] | Hvs]; [change (known_ d !! unwrap d s = Some y) in Hy; by rewrite Hun in Hy |].
    apply Forall_forall. intros pkt Hpkt Hlen. rewrite T. apply list_elem_of_filter. split; [done |].
    apply list_elem_of_In, in_concat. exists (pkts_of ss (srcv src (unwrap d s))). split.
    + apply in_map_iff. eexists. split; [done |]. by apply list_elem_of_In.
    + apply list_elem_of_In. unfold srcv. rewrite unwrap_u32; [done |].
      rewrite Forall_forall in Hnear. by apply (Hnear s).
Qed.

(** ** A run: source 6 is lost between 5 and 7 *)

Definition demo_u : UepDecoder :=
  let l := new_layer (mkUepLayerCfg SwDecoderProps.demo_cfg 4) 16 0 in
  mkUepDecoder (UepDecoder.set_sw l demo_d2) l 0.
Definition demo_retx_in : NackInputs := nack_inputs demo_u 256 None (d_of_Z 0) (d_of_Z 1) 50.
Definition demo_pass : NackPass := mkNackPass (poll (new_tracker NackTrackerProps.demo_cfg) 1000 demo_retx_in).1 22.
Definition demo_frame : list Z := default [] (nack_pass kDefaultLinkKey 11 22 true false 1012 demo_retx_in demo_pass).1.
Definition demo_request : Nack := default (mkNack 0 0 0 0 []) (mjoin (parse_nack demo_frame)).
Definition demo_taps : list (Z * Z * list Z) := map (fun q => (0, q, source_env 8 demo_src q)) [5; 6; 7].
Definition demo_r0 : Ring := default (mkRing 0 0 [] [] []) (new_ring 4 22).
Definition demo_x : Retx := new_retx 22 4.
Definition demo_retx_cfg : RetxCfg := mkRetxCfg 22 30 (d_of_Z 10) [] [].

Lemma demo_sw : UepDecoder.sw (layer0 demo_u) = demo_d2.
Proof. reflexivity. Qed.

Lemma demo_in_ok now : ms_ok now -> poll_ok now demo_retx_in.
Proof.
  assert (Em : missing demo_retx_in = [6]) by (vm_compute; reflexivity). intros H. split; [exact H |].
  split; [decided |]. rewrite Em. split; [apply Forall_cons; split; [decided | constructor] | intros tv E; discriminate E].
Qed.

Lemma demo_pass_ok : tracker_ok (nack_ demo_pass).
Proof.
  assert (E : nack_ demo_pass = (nstep (new_tracker NackTrackerProps.demo_cfg) (OpPoll 1000 demo_retx_in)).1).
  { unfold demo_pass, nstep. cbn [nack_]. destruct (poll _ 1000 demo_retx_in) as [t [k|]]; reflexivity. }
  rewrite E. apply nstep_inv; [exact (new_tracker_ok _ demo_cfg_ok) | apply demo_in_ok; decided].
Qed.

Lemma demo_sends : nack_pass kDefaultLinkKey 11 22 true false 1012 demo_retx_in demo_pass =
  (Some demo_frame, (nack_pass kDefaultLinkKey 11 22 true false 1012 demo_retx_in demo_pass).2).
Proof.
  assert (E : (nack_pass kDefaultLinkKey 11 22 true false 1012 demo_retx_in demo_pass).1 = Some demo_frame) by (vm_compute; reflexivity).
  rewrite <- E. apply surjective_pairing.
Qed.

Example retransmission_repairs_witness :
  exists x' new, nack_hook RcAgentWitness.demo_cfg demo_retx_cfg (demo_frame ++ [9]) (session_of 11 22) (session_of 11 22) 0 None
      5000 5 (get (tap_ring demo_r0 demo_taps)) (fun n => 5000 + Z.of_nat n) demo_x = Some x' /\
    q_ (txq_ x') = new ++ [] /\
    exists u' out, hear demo_u (map UepEncoder.body (take (length new) (tx_turns [7] (txq_ x')).1))
        (fun _ => (1020, 255, 0, true)) 0 = Some (u', out) /\
      is_Some (known_ (UepDecoder.sw (layer0 u')) !! 4294967302).
Proof.
  assert (Hreq : requested demo_request = [6]) by (vm_compute; reflexivity).
  assert (Eu : unwrap demo_d2 6 = 4294967302) by (vm_compute; reflexivity).
  assert (En : newest_v_ demo_d2 = 4294967303) by (vm_compute; reflexivity).
  assert (Eh : horizon_ demo_d2 = 16) by (vm_compute; reflexivity).
  destruct (retransmission_repairs 8 demo_src 4294967303 demo_u kDefaultLinkKey 11 22 1012 demo_retx_in demo_pass
    (nack_pass kDefaultLinkKey 11 22 true false 1012 demo_retx_in demo_pass).2 demo_frame [9] demo_request
    RcAgentWitness.demo_cfg demo_retx_cfg 0 None 5000 5 (fun n => 5000 + Z.of_nat n) demo_x 4 demo_r0 demo_taps 6)
    as (x' & new & H1 & H2 & _ & H3).
  - exact demo_sender.
  - decided.
  - exact demo_d2_inv.
  - split; [vm_compute; reflexivity |]. split; [decided | decided].
  - vm_compute. reflexivity.
  - rewrite demo_sw, En. lia.
  - lia.
  - exact demo_pass_ok.
  - vm_compute. reflexivity.
  - apply demo_in_ok. decided.
  - decided.
  - exact demo_sends.
  - vm_compute. reflexivity.
  - rewrite Hreq. constructor.
  - rewrite demo_sw, Eh, Eu. lia.
  - vm_compute. reflexivity.
  - decided.
  - vm_compute. reflexivity.
  - reflexivity.
  - split; [by split | cbn; lia | split; [cbn; lia | decided]].
  - reflexivity.
  - reflexivity.
  - vm_compute. reflexivity.
  - repeat (apply Forall_cons; split); [by intros _ .. | constructor].
  - vm_compute. eauto.
  - rewrite Hreq. constructor; [| constructor]. intros _. split; [decided |]. rewrite demo_sw, Eu, En. lia.
  - vm_compute. reflexivity.
  - exists x', new. split; [exact H1 |]. split; [exact H2 |].
    assert (Hl : (length new <= 3)%nat).
    { assert (E : (length ∘ q_ ∘ txq_) <$> nack_hook RcAgentWitness.demo_cfg demo_retx_cfg (demo_frame ++ [9]) (session_of 11 22) (session_of 11 22) 0 None
        5000 5 (get (tap_ring demo_r0 demo_taps)) (fun n => 5000 + Z.of_nat n) demo_x = Some 1%nat) by (vm_compute; reflexivity).
      rewrite H1 in E. injection E as E. rewrite H2, length_app in E. lia. }
    destruct (H3 [7] (fun _ => (1020, 255, 0, true)) Hl) as (u' & out & G1 & G2 & _).
    rewrite demo_sw, Eu in G2. exists u', out. split; [exact G1 | exact G2].
Defined.
