(* ===== verification/RcfSlotter.v ===== *)
(** * RcfSlotter: control frames wait for the air's idle (gs/src/rcf_slot.h, rcf_slot.cpp)

    A frame offered while video flows is held until a completed picture, or the probe behind it,
    leaves the air idle before the next burst is due; a hold ends at its deadline in any case.
    Milliseconds are u64, the burst period and the learned probe offset doubles. *)
From Stdlib Require Import Sorting.Sorted.
From S2P Require Import Prelude SwConfig RungStore.
Local Open Scope Z_scope.

Record RcfSlotCfg := mkSlotCfg {
  hold_max_ms : Z; video_recent_ms : Z; grace_ms : Z; lead_ms : Z; guard_ms : Z; probe_tail_ms : Z;
}.

Inductive SlotReason := Passthru | Grace | Au | Timeout | Probe.
#[export] Instance slot_reason_eq_dec : EqDecision SlotReason.
Proof. solve_decision. Defined.

Record SlotFrame := mkSlotFrame {
  sf_frame : list Z; sf_seq : Z; sf_card : Z; sf_stamp_rtt : bool; sf_reason : SlotReason; sf_offered_ms : Z;
}.

Record Slotter := mkSlotter {
  scfg_ : RcfSlotCfg;
  held_ : list SlotFrame;
  hold_start_ms_ : Z;
  last_au_ms_ : Z;
  last_first_ms_ : Z;
  have_au_ : bool;
  have_first_ : bool;
  period_ : double;
  release_pending_ : bool;
  release_reason_ : SlotReason;
  probe_wait_ : bool;
  probe_wait_from_ms_ : Z;
  probe_deadline_ms_ : Z;
  idle_from_ms_ : Z;
  tail_est_ms_ : double;
  released_au_ : Z;
  released_timeout_ : Z;
  passthru_ : Z;
  released_probe_ : Z;
}.

Definition kTailMaxMs : double := d_of_Z 15.

Definition new_slotter (cfg : RcfSlotCfg) : Slotter :=
  mkSlotter cfg [] 0 0 0 false false (d_lit 16667 1000) false Au false 0 0 0 (d_of_Z 0) 0 0 0 0.

Definition set_probe_tail_ms (ms : Z) (s : Slotter) : Slotter :=
  s {{ scfg_->probe_tail_ms := if ms <? 0 then 0 else ms }}.

Definition on_au_first (now : Z) (s : Slotter) : Slotter :=
  let s := if have_first_ s && (last_first_ms_ s <? now) then
             let iv := d_of_Z (now - last_first_ms_ s) in
             if d_leb (d_of_Z 5) iv && d_leb iv (d_of_Z 100)
             then s {{ period_ := d_add (period_ s) (d_div (d_sub iv (period_ s)) (d_of_Z 8)) }} else s
           else s in
  s {{ last_first_ms_ := now ; have_first_ := true }}.

(** A send now would be on the air before the next burst is due. *)
Definition idle_ahead (now : Z) (s : Slotter) : bool :=
  if negb (have_first_ s) then true
  else
    let next := d_add (d_of_Z (last_first_ms_ s)) (period_ s) in
    d_ltb (d_add (d_of_Z now) (d_of_Z (lead_ms (scfg_ s)))) (d_sub next (d_of_Z (guard_ms (scfg_ s)))).

(** [std::ceil] of a non-negative double. *)
Definition d_ceil (x : double) : Z := if d_ltb (d_of_Z (d_trunc x)) x then d_trunc x + 1 else d_trunc x.

Definition tail_ub_ms (s : Slotter) : Z :=
  let floor := d_of_Z (probe_tail_ms (scfg_ s)) in
  d_ceil (if d_ltb floor (tail_est_ms_ s) then tail_est_ms_ s else floor) + 1.

Definition arm (why : SlotReason) (s : Slotter) : Slotter := s {{ release_pending_ := true ; release_reason_ := why }}.

Definition holding (s : Slotter) : bool := match held_ s with [] => false | _ => true end.

Definition on_au_complete (now : Z) (probe_follows : bool) (s : Slotter) : Slotter :=
  let s := s {{ last_au_ms_ := now ; have_au_ := true }} in
  if probe_follows then
    let dl := u64 (now + tail_ub_ms s) in
    s {{ probe_wait_ := true ; probe_wait_from_ms_ := now ; probe_deadline_ms_ := dl ; idle_from_ms_ := dl }}
  else
    let s := s {{ probe_wait_ := false ; idle_from_ms_ := now }} in
    if holding s && idle_ahead now s then arm Au s else s.

Definition on_probe_tail (now : Z) (s : Slotter) : Slotter :=
  let s := if probe_wait_ s && (probe_wait_from_ms_ s <=? now) then
             let obs := d_of_Z (now - probe_wait_from_ms_ s) in
             let est := d_mul (tail_est_ms_ s) (d_lit 98 100) in
             let est := if d_ltb est obs then obs else est in
             s {{ tail_est_ms_ := if d_ltb kTailMaxMs est then kTailMaxMs else est }}
           else s in
  let s := s {{ probe_wait_ := false ; idle_from_ms_ := now }} in
  if holding s && negb (release_pending_ s) && idle_ahead now s then arm Probe s else s.

(** [offer]: the frame as the call leaves it, whether it was taken into the hold, the state. *)
Definition offer (f : SlotFrame) (now : Z) (bypass : bool) (s : Slotter) : SlotFrame * bool * Slotter :=
  let f := f {{ sf_offered_ms := now }} in
  let enabled := 0 <? hold_max_ms (scfg_ s) in
  let video := have_au_ s && (last_au_ms_ s <=? now) && (now - last_au_ms_ s <=? u64 (video_recent_ms (scfg_ s))) in
  if negb bypass && holding s then (f, true, s {{ held_ ::= (fun q => q ++ [f]) }})
  else if negb enabled || bypass || negb video then
    (f {{ sf_reason := Passthru }}, false, s {{ passthru_ ::= (fun n => u64 (n + 1)) }})
  else if (idle_from_ms_ s <=? now) && (now - idle_from_ms_ s <=? u64 (grace_ms (scfg_ s))) && idle_ahead now s then
    (f {{ sf_reason := Grace }}, false, s {{ released_au_ ::= (fun n => u64 (n + 1)) }})
  else
    let s := if holding s then s else s {{ hold_start_ms_ := now }} in
    (f, true, s {{ held_ ::= (fun q => q ++ [f]) }}).

(** The probe never came: its deadline stands in for it. *)
Definition probe_lost (now : Z) (s : Slotter) : Slotter :=
  if probe_wait_ s && (probe_deadline_ms_ s <=? now) then
    let s := s {{ probe_wait_ := false }} in
    if negb (release_pending_ s) && idle_ahead now s then arm Au s else s
  else s.

Definition count_released (why : SlotReason) (s : Slotter) : Slotter :=
  let n := Z.of_nat (length (held_ s)) in
  match why with
  | Probe => s {{ released_probe_ ::= (fun c => u64 (c + n)) }}
  | Au => s {{ released_au_ ::= (fun c => u64 (c + n)) }}
  | _ => s {{ released_timeout_ ::= (fun c => u64 (c + n)) }}
  end.

Definition take_due (now : Z) (s : Slotter) : list SlotFrame * Slotter :=
  if negb (holding s) then
    let s := s {{ release_pending_ := false }} in
    ([], if probe_wait_ s && (probe_deadline_ms_ s <=? now) then s {{ probe_wait_ := false }} else s)
  else
    let s := probe_lost now s in
    let due := release_pending_ s in
    let expired := (hold_start_ms_ s <=? now) && (u64 (hold_max_ms (scfg_ s)) <=? now - hold_start_ms_ s) in
    if negb due && negb expired then ([], s)
    else
      let why := if due then release_reason_ s else Timeout in
      let s := count_released why s in
      (map (fun f => f {{ sf_reason := why }}) (held_ s), s {{ held_ := [] ; release_pending_ := false }}).

(** ** Calls *)

Inductive SlotCall :=
| ScFirst (now : Z) | ScComplete (now : Z) (probe_follows : bool) | ScProbe (now : Z) | ScTail (ms : Z)
| ScOffer (f : SlotFrame) (now : Z) (bypass : bool) | ScTake (now : Z).

(** A call: the frames to send now, and the state. *)
Definition slot_call (c : SlotCall) (s : Slotter) : list SlotFrame * Slotter :=
  match c with
  | ScFirst now => ([], on_au_first now s)
  | ScComplete now p => ([], on_au_complete now p s)
  | ScProbe now => ([], on_probe_tail now s)
  | ScTail ms => ([], set_probe_tail_ms ms s)
  | ScOffer f now b => let '(f, held, s) := offer f now b s in (if held then [] else [f], s)
  | ScTake now => take_due now s
  end.

Fixpoint slot_calls (cs : list SlotCall) (s : Slotter) : list SlotFrame * Slotter :=
  match cs with
  | [] => ([], s)
  | c :: cs => let '(o, s) := slot_call c s in let '(os, s) := slot_calls cs s in (o ++ os, s)
  end.

(** ** Histories *)

Lemma slot_calls_snoc cs c s :
  slot_calls (cs ++ [c]) s =
  ((slot_calls cs s).1 ++ (slot_call c (slot_calls cs s).2).1, (slot_call c (slot_calls cs s).2).2).
Proof.
  revert s. induction cs as [|c' cs IH]; intros s; cbn [app slot_calls].
  - destruct (slot_call c s) as [o s'] eqn:E. cbn. rewrite E. cbn. by rewrite app_nil_r.
  - destruct (slot_call c' s) as [o s1]. rewrite IH. destruct (slot_calls cs s1) as [os s2]. cbn.
    by rewrite app_assoc.
Qed.

(** The clock a call reads. *)
Definition call_time (c : SlotCall) : option Z :=
  match c with
  | ScFirst t | ScComplete t _ | ScProbe t | ScOffer _ t _ | ScTake t => Some t
  | ScTail _ => None
  end.

Definition timely (cs : list SlotCall) : Prop := StronglySorted Z.le (omap call_time cs).

(** A frame but for what the slotter writes in it. *)
Definition what (f : SlotFrame) : list Z * Z * Z * bool := (sf_frame f, sf_seq f, sf_card f, sf_stamp_rtt f).

Definition offered (cs : list SlotCall) : list SlotFrame :=
  omap (fun c => match c with ScOffer f _ false => Some f | _ => None end) cs.

Definition in_turn (c : SlotCall) : Prop := match c with ScOffer _ _ b => b = false | _ => True end.

Definition is_take (c : SlotCall) : Prop := match c with ScTake _ => True | _ => False end.

(** ** One call *)

(** A hold the air ended, not its deadline. *)
Definition by_air (why : SlotReason) : Prop := why = Au \/ why = Probe.

(** What every call but an offer and a take leaves alone. *)
Definition same_hold (s s' : Slotter) : Prop :=
  held_ s' = held_ s /\ hold_start_ms_ s' = hold_start_ms_ s /\ hold_max_ms (scfg_ s') = hold_max_ms (scfg_ s) /\
  (by_air (release_reason_ s) -> by_air (release_reason_ s')).

(** A release is armed only where the idle is ahead. *)
Definition arms_at (now : Z) (s s' : Slotter) : Prop :=
  same_hold s s' /\ (release_pending_ s' = true -> release_pending_ s = true \/ idle_ahead now s' = true).

Lemma arm_at now why s s1 :
  by_air why -> same_hold s s1 -> release_pending_ s1 = release_pending_ s ->
  forall b : bool, arms_at now s (if b && idle_ahead now s1 then arm why s1 else s1).
Proof.
  intros Hw (H1 & H2 & H3 & H4) E b. destruct (b && idle_ahead now s1) eqn:Ei.
  - apply andb_prop in Ei as [_ Ei]. split; [split; [exact H1 | split; [exact H2 | split; [exact H3 | intros _; exact Hw]]] |].
    intros _. right. exact Ei.
  - split; [split; [exact H1 | split; [exact H2 | split; [exact H3 | exact H4]]] |]. intros H. left. rewrite <- E. exact H.
Qed.

Lemma on_first_hold now s : arms_at now s (on_au_first now s).
Proof.
  unfold on_au_first. cbn zeta. destruct (have_first_ s && _); [destruct (d_leb _ _ && _) |];
    (split; [split; [exact eq_refl | split; [exact eq_refl | split; [exact eq_refl | exact id]]] | intros H; left; exact H]).
Qed.

Lemma on_complete_hold now p s : arms_at now s (on_au_complete now p s).
Proof.
  unfold on_au_complete. cbn zeta. destruct p.
  - split; [split; [exact eq_refl | split; [exact eq_refl | split; [exact eq_refl | exact id]]] | intros H; left; exact H].
  - apply arm_at; [by left | | exact eq_refl].
    split; [exact eq_refl | split; [exact eq_refl | split; [exact eq_refl | exact id]]].
Qed.

Lemma on_probe_hold now s : arms_at now s (on_probe_tail now s).
Proof.
  unfold on_probe_tail. cbn zeta. apply arm_at; [by right | |]; destruct (_ && _); try exact eq_refl;
    (split; [exact eq_refl | split; [exact eq_refl | split; [exact eq_refl | exact id]]]).
Qed.

Lemma probe_lost_hold now s : arms_at now s (probe_lost now s).
Proof.
  unfold probe_lost. destruct (_ && _).
  - cbn zeta. apply arm_at; [by left | | exact eq_refl].
    split; [exact eq_refl | split; [exact eq_refl | split; [exact eq_refl | exact id]]].
  - split; [split; [exact eq_refl | split; [exact eq_refl | split; [exact eq_refl | exact id]]] | intros H; left; exact H].
Qed.

(** Reading the idle: only the cadence and the margins count. *)
Lemma probe_lost_idle now t s : idle_ahead t (probe_lost now s) = idle_ahead t s.
Proof.
  unfold probe_lost. destruct (_ && _); [cbn zeta; destruct (_ && idle_ahead _ _); exact eq_refl | exact eq_refl].
Qed.

Lemma holding_spec s : holding s = false <-> held_ s = [].
Proof. unfold holding. by destruct (held_ s). Qed.

(** An offer that may wait: sent at once only when nothing waits. *)
Lemma offer_turn f now s f' held s' :
  offer f now false s = (f', held, s') ->
  what f' = what f /\ sf_offered_ms f' = now /\ release_pending_ s' = release_pending_ s /\
  hold_max_ms (scfg_ s') = hold_max_ms (scfg_ s) /\ release_reason_ s' = release_reason_ s /\
  (if held then held_ s' = held_ s ++ [f'] /\ hold_start_ms_ s' = (if holding s then hold_start_ms_ s else now)
   else held_ s = [] /\ held_ s' = [] /\ (sf_reason f' = Passthru \/ sf_reason f' = Grace /\ idle_ahead now s' = true)).
Proof.
  unfold offer. cbn zeta. cbn [negb andb]. destruct (holding s) eqn:Eh.
  { intros [= <- <- <-]. repeat (split; [exact eq_refl |]). exact eq_refl. }
  apply holding_spec in Eh. destruct (_ || _).
  { intros [= <- <- <-]. repeat (split; [exact eq_refl |]). split; [exact Eh |]. split; [exact Eh |]. left. exact eq_refl. }
  destruct (_ && idle_ahead now s) eqn:Ei; intros [= <- <- <-]; repeat (split; [exact eq_refl |]); [| exact eq_refl].
  apply andb_prop in Ei as [_ Ei]. split; [exact Eh |]. split; [exact Eh |]. right. split; [exact eq_refl | exact Ei].
Qed.

Definition with_reason (why : SlotReason) (f : SlotFrame) : SlotFrame := f {{ sf_reason := why }}.

(** Why a take sends what is held. *)
Definition take_reason (now : Z) (s : Slotter) (why : SlotReason) : Prop :=
  match why with
  | Au | Probe => release_pending_ s = true \/ idle_ahead now s = true
  | Timeout => hold_start_ms_ s + u64 (hold_max_ms (scfg_ s)) <= now
  | Passthru | Grace => False
  end.

Definition keeps_all (now : Z) (s s' : Slotter) (out : list SlotFrame) : Prop :=
  out = [] /\ held_ s' = held_ s /\ hold_start_ms_ s' = hold_start_ms_ s /\
  (held_ s = [] \/ (hold_start_ms_ s <= now -> now - hold_start_ms_ s < u64 (hold_max_ms (scfg_ s)))).

Definition sends_all (now : Z) (s s' : Slotter) (out : list SlotFrame) : Prop :=
  held_ s' = [] /\ exists why, out = map (with_reason why) (held_ s) /\ take_reason now s why.

Lemma count_released_hold why s :
  held_ (count_released why s) = held_ s /\ scfg_ (count_released why s) = scfg_ s /\
  release_reason_ (count_released why s) = release_reason_ s.
Proof. destruct why; repeat split. Qed.

(** A take: everything held, or nothing. *)
Lemma take_due_cases now s out s' :
  by_air (release_reason_ s) ->
  take_due now s = (out, s') ->
  release_pending_ s' = false /\ hold_max_ms (scfg_ s') = hold_max_ms (scfg_ s) /\ by_air (release_reason_ s') /\
  (keeps_all now s s' out \/ sends_all now s s' out).
Proof.
  intros Ha. unfold take_due. destruct (holding s) eqn:Eh; cbn [negb].
  2: { apply holding_spec in Eh. intros [= <- <-].
       destruct (_ && _); (split; [exact eq_refl | split; [exact eq_refl | split; [exact Ha |]]]); left;
         (split; [exact eq_refl | split; [exact eq_refl | split; [exact eq_refl | left; exact Eh]]]). }
  destruct (probe_lost_hold now s) as [(P1 & P2 & P3 & P4) P5]. rewrite probe_lost_idle in P5.
  set (s1 := probe_lost now s) in *. clearbody s1. cbn zeta. rewrite P2, P3. specialize (P4 Ha).
  destruct (release_pending_ s1) eqn:Er; cbn [negb andb].
  - intros [= <- <-]. destruct (count_released_hold (release_reason_ s1) s1) as (C1 & C2 & C3).
    split; [exact eq_refl |]. split; [exact (eq_trans (f_equal hold_max_ms C2) P3) |]. split; [exact (eq_ind_r by_air P4 C3) |].
    right. split; [exact eq_refl |]. exists (release_reason_ s1). split; [exact (f_equal (map (with_reason (release_reason_ s1))) (eq_trans C1 P1)) |].
    destruct P4 as [-> | ->]; apply P5; exact eq_refl.
  - destruct (_ && _) eqn:El; cbn [negb].
    + intros [= <- <-]. split; [exact eq_refl |]. split; [exact P3 |]. split; [exact P4 |].
      right. split; [exact eq_refl |]. exists Timeout. split; [exact (f_equal (map (with_reason Timeout)) P1) |].
      apply andb_prop in El as [_ El%Z.leb_le]. unfold take_reason. lia.
    + intros [= <- <-]. split; [exact Er |]. split; [exact P3 |]. split; [exact P4 |]. left.
      split; [exact eq_refl |]. split; [exact P1 |]. split; [exact P2 |]. right. intros Hle.
      rewrite (proj2 (Z.leb_le _ _) Hle) in El. cbn in El. by apply Z.leb_gt in El.
Qed.

(** ** The history *)

(** Since the last take, some call saw the idle ahead. *)
Definition idle_seen (cfg : RcfSlotCfg) (cs : list SlotCall) : Prop :=
  exists cs1 c cs2 t, cs = cs1 ++ c :: cs2 /\ Forall (fun c => ~ is_take c) (c :: cs2) /\ call_time c = Some t /\
    idle_ahead t (slot_calls (cs1 ++ [c]) (new_slotter cfg)).2 = true.

Definition slotter_after (cfg : RcfSlotCfg) (cs : list SlotCall) : Slotter := (slot_calls cs (new_slotter cfg)).2.

Lemma slotter_after_snoc cfg cs c : slotter_after cfg (cs ++ [c]) = (slot_call c (slotter_after cfg cs)).2.
Proof. unfold slotter_after. by rewrite slot_calls_snoc. Qed.

Lemma idle_seen_here cfg cs c t :
  ~ is_take c -> call_time c = Some t -> idle_ahead t (slotter_after cfg (cs ++ [c])) = true -> idle_seen cfg (cs ++ [c]).
Proof. intros Hc Ht Hi. exists cs, c, [], t. split; [done |]. split; [by constructor |]. by split. Qed.

Lemma idle_seen_snoc cfg cs c : ~ is_take c -> idle_seen cfg cs -> idle_seen cfg (cs ++ [c]).
Proof.
  intros Hc (cs1 & c' & cs2 & t & -> & Hn & Ht & Hi). exists cs1, c', (cs2 ++ [c]), t.
  split; [by rewrite <- app_assoc |]. split; [| done]. rewrite app_comm_cons. apply Forall_app. split; [done |]. by constructor.
Qed.

(** The hold runs from its oldest frame. *)
Definition hold_ok (cs : list SlotCall) (s : Slotter) : Prop :=
  match held_ s with
  | [] => True
  | f :: _ => hold_start_ms_ s = sf_offered_ms f /\ In (hold_start_ms_ s) (omap call_time cs)
  end /\ Forall (fun f => hold_start_ms_ s <= sf_offered_ms f) (held_ s).

Record slot_inv (cfg : RcfSlotCfg) (cs : list SlotCall) (s : Slotter) : Prop := mkSlotInv {
  si_air : by_air (release_reason_ s);
  si_max : hold_max_ms (scfg_ s) = hold_max_ms cfg;
  si_seen : release_pending_ s = true -> idle_seen cfg cs;
  si_hold : hold_ok cs s;
}.

Lemma omap_time_snoc cs c : omap call_time (cs ++ [c]) = omap call_time cs ++ match call_time c with Some t => [t] | None => [] end.
Proof. rewrite omap_app. cbn. by destruct (call_time c). Qed.

Lemma hold_ok_same cs c s s' : same_hold s s' -> hold_ok cs s -> hold_ok (cs ++ [c]) s'.
Proof.
  intros (E1 & E2 & _ & _) [H1 H2]. unfold hold_ok. rewrite E1, E2. split; [| exact H2].
  destruct (held_ s); [done |]. destruct H1 as [? ?]. split; [done |]. rewrite omap_time_snoc. apply in_or_app. by left.
Qed.

Lemma inv_arms cfg cs c t s' :
  slot_inv cfg cs (slotter_after cfg cs) -> ~ is_take c -> call_time c = Some t -> slotter_after cfg (cs ++ [c]) = s' ->
  arms_at t (slotter_after cfg cs) s' -> slot_inv cfg (cs ++ [c]) s'.
Proof.
  intros [I1 I2 I3 I4] Hc Ht Es [Hs Ha]. pose proof Hs as (H1 & H2 & H3 & H4). split.
  - auto.
  - by rewrite H3.
  - intros Hp. destruct (Ha Hp) as [Hq | Hi]; [by apply idle_seen_snoc, I3 |]. eapply idle_seen_here; eauto. by rewrite Es.
  - by eapply hold_ok_same.
Qed.

Lemma timely_snoc cs c t : timely (cs ++ [c]) -> call_time c = Some t -> forall u, In u (omap call_time cs) -> u <= t.
Proof.
  unfold timely. rewrite omap_time_snoc. intros H E. rewrite E in H. intros u Hu.
  induction (omap call_time cs) as [|x l IH]; [done |]. cbn in H. apply StronglySorted_inv in H as [H1 H2].
  destruct Hu as [-> | Hu]; [| by apply IH]. rewrite Forall_forall in H2. apply H2. apply list_elem_of_In, in_or_app. right. by left.
Qed.

Lemma timely_init cs c : timely (cs ++ [c]) -> timely cs.
Proof.
  unfold timely. rewrite omap_time_snoc. induction (omap call_time cs) as [|x l IH]; [constructor |]. cbn. intros H.
  apply StronglySorted_inv in H as [H1 H2]. constructor; [by apply IH |]. by apply Forall_app in H2 as [? _].
Qed.

Lemma inv_offer cfg cs f t :
  timely (cs ++ [ScOffer f t false]) -> slot_inv cfg cs (slotter_after cfg cs) ->
  slot_inv cfg (cs ++ [ScOffer f t false]) (slotter_after cfg (cs ++ [ScOffer f t false])).
Proof.
  intros Ht I. rewrite slotter_after_snoc. pose proof (timely_snoc _ _ t Ht eq_refl) as Hle. destruct I as [I1 I2 I3 [I4 I5]].
  cbn [slot_call]. destruct (offer f t false (slotter_after cfg cs)) as [[f' held] s'] eqn:E.
  apply offer_turn in E as (_ & O2 & O3 & O4 & O5 & O6). cbn [snd]. split.
  - by rewrite O5.
  - by rewrite O4.
  - rewrite O3. intros Hp. apply idle_seen_snoc; [intros [] | by apply I3].
  - unfold hold_ok. destruct held.
    + destruct O6 as [-> ->]. rewrite omap_time_snoc. cbn. unfold holding. destruct (held_ (slotter_after cfg cs)) as [|f0 r].
      * cbn. split; [split; [done |]; apply in_or_app; right; by left |]. constructor; [by rewrite O2 | constructor].
      * destruct I4 as [J1 J2]. split; [split; [done |]; apply in_or_app; by left |]. apply Forall_app. split; [exact I5 |].
        constructor; [| constructor]. rewrite O2. by apply Hle.
    + destruct O6 as (_ & -> & _). done.
Qed.

Lemma inv_take cfg cs t :
  slot_inv cfg cs (slotter_after cfg cs) ->
  slot_inv cfg (cs ++ [ScTake t]) (slotter_after cfg (cs ++ [ScTake t])).
Proof.
  intros [I1 I2 I3 I4]. rewrite slotter_after_snoc. cbn [slot_call]. destruct (take_due t _) as [out s'] eqn:E.
  apply take_due_cases in E as (T1 & T2 & T3 & T4); [| exact I1]. cbn [snd]. split; [done | congruence | congruence |].
  destruct T4 as [(_ & K1 & K2 & _) | (K1 & _)].
  - apply (hold_ok_same cs _ (slotter_after cfg cs)); [| done]. split; [done |]. split; [done |]. split; [done |]. auto.
  - unfold hold_ok. by rewrite K1.
Qed.

Lemma slot_inv_holds cfg cs : timely cs -> Forall in_turn cs -> slot_inv cfg cs (slotter_after cfg cs).
Proof.
  induction cs as [|c cs IH] using rev_ind; intros Ht Hb.
  - split; [by left | done | done | done].
  - apply Forall_app in Hb as [Hb Hc]. apply Forall_inv in Hc. pose proof (timely_init _ _ Ht) as Ht'. specialize (IH Ht' Hb).
    destruct c as [t|t p|t|ms|f t b|t].
    + eapply inv_arms; [exact IH | intros [] | reflexivity | reflexivity |]. rewrite slotter_after_snoc. apply on_first_hold.
    + eapply inv_arms; [exact IH | intros [] | reflexivity | reflexivity |]. rewrite slotter_after_snoc. apply on_complete_hold.
    + eapply inv_arms; [exact IH | intros [] | reflexivity | reflexivity |]. rewrite slotter_after_snoc. apply on_probe_hold.
    + destruct IH as [I1 I2 I3 I4]. rewrite slotter_after_snoc. split; [done | done | |].
      * intros Hp. apply idle_seen_snoc; [intros [] | by apply I3].
      * apply (hold_ok_same cs _ (slotter_after cfg cs)); [| done]. repeat split; auto.
    + cbn in Hc. subst b. by apply inv_offer.
    + by apply inv_take.
Qed.

(** ** Order *)

Lemma what_with_reason why fs : map what (map (with_reason why) fs) = map what fs.
Proof. rewrite map_map. by apply map_ext. Qed.

(** One call keeps the order: what it sends was held first, or found nothing held. *)
Lemma slot_call_order c s out s' :
  in_turn c -> by_air (release_reason_ s) -> slot_call c s = (out, s') ->
  map what (out ++ held_ s') = map what (held_ s) ++ map what (offered [c]).
Proof.
  intros Hc Ha. assert (Q : forall s1, same_hold s s1 -> map what ([] ++ held_ s1) = map what (held_ s) ++ []).
  { intros s1 (-> & _). by rewrite app_nil_r. }
  destruct c as [t|t p|t|ms|f t b|t]; cbn [slot_call].
  - intros [= <- <-]. apply Q, on_first_hold.
  - intros [= <- <-]. apply Q, on_complete_hold.
  - intros [= <- <-]. apply Q, on_probe_hold.
  - intros [= <- <-]. apply Q. repeat split; auto.
  - cbn in Hc. subst b. destruct (offer f t false s) as [[f' held] s1] eqn:E. apply offer_turn in E as (O1 & _ & _ & _ & _ & O6).
    intros [= <- <-]. destruct held.
    + destruct O6 as [-> _]. cbn. rewrite map_app. cbn. by rewrite O1.
    + destruct O6 as (-> & -> & _). cbn. by rewrite O1.
  - intros E. apply take_due_cases in E as (_ & _ & _ & [(-> & -> & _) | (-> & why & -> & _)]); [| | exact Ha].
    + cbn. by rewrite app_nil_r.
    + rewrite !app_nil_r. apply what_with_reason.
Qed.

Lemma slots_in_order cfg cs :
  timely cs -> Forall in_turn cs ->
  map what ((slot_calls cs (new_slotter cfg)).1 ++ held_ (slotter_after cfg cs)) = map what (offered cs).
Proof.
  induction cs as [|c cs IH] using rev_ind; intros Ht Hb; [done |].
  apply Forall_app in Hb as [Hb Hc]. apply Forall_inv in Hc. pose proof (timely_init _ _ Ht) as Ht'. specialize (IH Ht' Hb).
  destruct (slot_inv_holds cfg cs Ht' Hb) as [I1 _ _ _]. rewrite slotter_after_snoc, slot_calls_snoc. cbn [fst].
  fold (slotter_after cfg cs). destruct (slot_call c (slotter_after cfg cs)) as [out s'] eqn:E.
  apply (slot_call_order _ _ _ _ Hc I1) in E. cbn [fst snd]. unfold offered in *. rewrite omap_app.
  rewrite <- app_assoc, map_app, E. rewrite (map_app what (omap _ cs)), <- IH, map_app. by rewrite app_assoc.
Qed.

(** Why a call may send a frame. *)
Definition slot_reason_ok (cfg : RcfSlotCfg) (cs : list SlotCall) (c : SlotCall) (out : list SlotFrame) (f : SlotFrame) : Prop :=
  match sf_reason f with
  | Passthru => ~ is_take c
  | Grace => ~ is_take c /\ idle_seen cfg (cs ++ [c])
  | Au | Probe => is_take c /\ (idle_seen cfg cs \/ exists t, c = ScTake t /\ idle_ahead t (slotter_after cfg cs) = true)
  | Timeout => exists t oldest, c = ScTake t /\ head out = Some oldest /\
      sf_offered_ms oldest + u64 (hold_max_ms cfg) <= t
  end.

Lemma slot_reasons cfg cs c :
  timely (cs ++ [c]) -> Forall in_turn (cs ++ [c]) ->
  Forall (slot_reason_ok cfg cs c (slot_call c (slotter_after cfg cs)).1) (slot_call c (slotter_after cfg cs)).1.
Proof.
  intros Ht Hb. apply Forall_app in Hb as [Hb Hc]. apply Forall_inv in Hc.
  destruct (slot_inv_holds cfg cs (timely_init _ _ Ht) Hb) as [I1 I2 I3 [I4 _]].
  destruct c as [t|t p|t|ms|f t b|t]; try (by constructor).
  - cbn in Hc. subst b. pose proof (slotter_after_snoc cfg cs (ScOffer f t false)) as Es. cbn [slot_call] in *.
    destruct (offer f t false (slotter_after cfg cs)) as [[f' held] s1] eqn:E. apply offer_turn in E as (_ & _ & _ & _ & _ & O6).
    cbn [fst snd] in *. destruct held; [constructor |]. constructor; [| constructor]. unfold slot_reason_ok.
    destruct O6 as (_ & _ & [-> | [-> Hi]]); [intros [] |]. split; [intros [] |].
    apply (idle_seen_here cfg cs _ t); [intros [] | done |]. by rewrite Es.
  - cbn [slot_call]. destruct (take_due t (slotter_after cfg cs)) as [out s'] eqn:E. cbn [fst].
    apply take_due_cases in E as (_ & _ & _ & [(-> & _) | (_ & why & Eo & Hw)]); [constructor | | exact I1].
    apply Forall_forall. intros f Hf. unfold slot_reason_ok.
    assert (Er : sf_reason f = why).
    { rewrite Eo in Hf. apply list_elem_of_In, in_map_iff in Hf as (g & <- & _). done. }
    rewrite Er. destruct why; try done; cbn in Hw.
    + split; [done |]. destruct Hw as [Hp | Hi]; [left; auto | right; eauto].
    + rewrite Eo. rewrite I2 in Hw. destruct (held_ (slotter_after cfg cs)) as [|f0 r].
      { rewrite Eo in Hf. by apply elem_of_nil in Hf. }
      destruct I4 as [J1 _]. exists t, (with_reason Timeout f0). split; [done |]. split; [done |]. rewrite J1 in Hw. exact Hw.
    + split; [done |]. destruct Hw as [Hp | Hi]; [left; auto | right; eauto].
Qed.

Lemma hold_bounded cfg cs t :
  timely (cs ++ [ScTake t]) -> Forall in_turn cs ->
  Forall (fun f => t - sf_offered_ms f < u64 (hold_max_ms cfg)) (held_ (slotter_after cfg (cs ++ [ScTake t]))).
Proof.
  intros Ht Hb. pose proof (timely_snoc _ _ t Ht eq_refl) as Hle.
  destruct (slot_inv_holds cfg cs (timely_init _ _ Ht) Hb) as [I1 I2 _ [I4 I5]]. rewrite slotter_after_snoc. cbn [slot_call].
  destruct (take_due t (slotter_after cfg cs)) as [out s'] eqn:E. cbn [snd].
  apply take_due_cases in E as (_ & _ & _ & [(_ & -> & _ & Hk) | (-> & _)]); [| constructor | exact I1].
  destruct Hk as [-> | Hk]; [constructor |]. rewrite I2 in Hk.
  destruct (held_ (slotter_after cfg cs)) as [|f0 r] eqn:Eh; [constructor |]. destruct I4 as [_ J2].
  specialize (Hk (Hle _ J2)). eapply Forall_impl; [exact I5 |]. cbn. lia.
Qed.

(** C27.  The slotter of control frames ([RcfSlotter]), over any history of calls in time order: what was sent
    and what is held is what was offered, in the order it was offered, no frame lost or sent twice; a frame
    leaves a hold for the air's sake only when a call since the last take saw the idle ahead, and for the
    deadline's sake only when the oldest frame has waited [hold_max_ms]; and after a take no frame has waited
    that long.  (A bypass offer skips the queue by design: the history has none.) *)
Theorem slotter_exact cfg cs c :
  timely (cs ++ [c]) -> Forall in_turn (cs ++ [c]) ->
  let '(sent, s) := slot_calls (cs ++ [c]) (new_slotter cfg) in
  let now_sent := (slot_call c (slotter_after cfg cs)).1 in
  map what (sent ++ held_ s) = map what (offered (cs ++ [c])) /\
  sent = (slot_calls cs (new_slotter cfg)).1 ++ now_sent /\
  Forall (slot_reason_ok cfg cs c now_sent) now_sent /\
  forall t, c = ScTake t -> Forall (fun f => t - sf_offered_ms f < u64 (hold_max_ms cfg)) (held_ s).
Proof.
  intros Ht Hb. pose proof (slots_in_order cfg _ Ht Hb) as H1. pose proof (slot_reasons cfg cs c Ht Hb) as H3.
  pose proof (slot_calls_snoc cs c (new_slotter cfg)) as Es. unfold slotter_after in H1.
  destruct (slot_calls (cs ++ [c]) (new_slotter cfg)) as [sent s] eqn:E. split; [exact H1 |].
  split; [by injection Es |]. split; [exact H3 |]. intros t ->. apply Forall_app in Hb as [Hb _].
  pose proof (hold_bounded cfg cs t Ht Hb) as H4. unfold slotter_after in H4. by rewrite E in H4.
Qed.

Definition w_slot_calls : list SlotCall :=
  let f n := mkSlotFrame [n] n 0 true Passthru 0 in
  [ScOffer (f 1) 10 false; ScFirst 100; ScComplete 105 true; ScOffer (f 2) 106 false; ScTake 106;
   ScOffer (f 3) 107 false; ScProbe 107; ScTake 107; ScFirst 117; ScComplete 131 false; ScOffer (f 4) 132 false].

(** The first frame passes (no video yet), two wait for the probe and leave together, the last waits past its
    idle and leaves at its deadline. *)
Lemma slotter_exact_witness :
  (let '(sent, s) := slot_calls (w_slot_calls ++ [ScTake 162]) (new_slotter (mkSlotCfg 30 100 2 3 1 2)) in
   map (fun f => (sf_seq f, sf_reason f)) sent = [(1, Passthru); (2, Probe); (3, Probe); (4, Timeout)] /\ held_ s = []) /\
  map what ((slot_calls (w_slot_calls ++ [ScTake 162]) (new_slotter (mkSlotCfg 30 100 2 3 1 2))).1) =
    map what (offered (w_slot_calls ++ [ScTake 162])).
Proof.
  split; [vm_compute; split; reflexivity |].
  pose proof (slotter_exact (mkSlotCfg 30 100 2 3 1 2) w_slot_calls (ScTake 162)) as H.
  assert (Ht : timely (w_slot_calls ++ [ScTake 162])) by (cbn; repeat constructor; lia).
  assert (Hb : Forall in_turn (w_slot_calls ++ [ScTake 162])) by (repeat constructor).
  specialize (H Ht Hb).
  destruct (slot_calls (w_slot_calls ++ [ScTake 162]) (new_slotter (mkSlotCfg 30 100 2 3 1 2))) as [sent s] eqn:E.
  destruct H as (H & _). assert (Es : held_ s = []) by (apply (f_equal (fun r => held_ (snd r))) in E; cbn [snd] in E; rewrite <- E; vm_compute; reflexivity).
  rewrite Es, app_nil_r in H. exact H.
Defined.
