(* ===== verification/AuRing.v ===== *)
(** * AuRing: frames handed over in shared memory (gs/src/au_ring.h, au_ring.cpp)

    The writer publishes access units into the slots of a mapped file and never waits; a reader in another
    process follows it by a sequence lock per slot.  The file is its bytes: a [memcpy] is a store or a load per
    byte, an atomic access is one store or load of the whole word.  The writer's calls give the stores they make
    in program order; a reader's call gets a memory for each of its loads, the memory as the writer's stores had
    left it at that moment.  Mapping the file is the operating system's: [open] is told the size it mapped. *)
From S2P Require Import Prelude Bytes Framing SliceAssembler FrameStream.
From coqutil Require Export Datatypes.RecordSetters.
Export DoubleBraceUpdate.
Local Open Scope Z_scope.
Local Open Scope mabur_scope.

(** ** The mapped file *)

Definition Mem : Type := Z -> Z.

Record Store := mkStore { st_off : Z; st_bytes : list Z }.

Definition apply_store (m : Mem) (s : Store) : Mem :=
  fun a =>
    if (st_off s <=? a) && (a <? st_off s + Z.of_nat (length (st_bytes s)))
    then nth (Z.to_nat (a - st_off s)) (st_bytes s) 0 else m a.

Definition apply_stores (m : Mem) (ss : list Store) : Mem := fold_left apply_store ss m.

(** [put16], [put32], [put64] and [memcpy] into the map; a [__atomic_store_n]. *)
Definition put (off : Z) (bs : list Z) : list Store := imap (fun k b => mkStore (off + Z.of_nat k) [b]) bs.
Definition atomic (off : Z) (bs : list Z) : list Store := [mkStore off bs].

Definition sub (m : Mem) (off : Z) (n : nat) : list Z := map (fun k => m (off + Z.of_nat k)) (seq 0 n).
Definition le_val (bs : list Z) : Z := foldr (fun b acc => b + 256 * acc) 0 bs.
Definition word (n : nat) (m : Mem) (off : Z) : Z := le_val (sub m off n).
#[global] Arguments word : simpl never.

(** ** Layout *)

Definition kAuRingMagic : Z := 1296192833.
Definition kAuRingVersion : Z := 4.
Definition kAuRingHdrBytes : Z := 4096.
Definition kAuSlotHdrBytes : Z := 64.
Definition kRecFlagComplete : Z := 128.
Definition kRecFlagSliceSalvaged : Z := 64.

Definition kOffMagic : Z := 0.
Definition kOffVersion : Z := 4.
Definition kOffSlotBytes : Z := 8.
Definition kOffSlotCount : Z := 12.
Definition kOffWriteSeq : Z := 16.
Definition kOffDropped : Z := 24.
Definition kOffEpoch : Z := 32.
Definition kOffOpenRec : Z := 40.

Definition kSOffLock : Z := 0.
Definition kSOffLen : Z := 4.
Definition kSOffRecNo : Z := 8.
Definition kSOffFrameId : Z := 16.
Definition kSOffPts : Z := 24.
Definition kSOffSid : Z := 28.
Definition kSOffFlags : Z := 29.
Definition kSOffTFirst : Z := 32.
Definition kSOffTComplete : Z := 40.
Definition kSOffDroneQ : Z := 48.
Definition kSOffEncUs : Z := 50.
Definition kSOffAirMs : Z := 52.
Definition kSOffState : Z := 54.
Definition kSOffNslices : Z := 55.
Definition kSOffValidLen : Z := 56.

(** [SlotState]. *)
Definition kSlotClosed : Z := 0.
Definition kSlotOpen : Z := 1.
Definition kSlotAborted : Z := 2.

Record AuRingGeom := mkGeom { slot_bytes : Z; slot_count : Z }.

Definition align_slot_bytes (n : Z) : Z := u32 (u32 (n + 63) / 64 * 64).
Definition slot_stride (g : AuRingGeom) : Z := kAuSlotHdrBytes + slot_bytes g.
Definition ring_bytes (g : AuRingGeom) : Z := kAuRingHdrBytes + slot_count g * slot_stride g.
Definition slot_base (g : AuRingGeom) (rec_no : Z) : Z := kAuRingHdrBytes + rec_no mod slot_count g * slot_stride g.

Record AuRecordMeta := mkMeta {
  rm_rec_no : Z; rm_frame_id64 : Z; rm_pts_us : Z; rm_len : Z; rm_sid : Z; rm_flags : Z; rm_nslices : Z;
  rm_t_first_us : Z; rm_t_complete_us : Z; rm_drone_q_ms : Z; rm_enc_us : Z; rm_drone_air_ms : Z;
  rm_t_last_arr_us : Z; rm_t_drain_us : Z; rm_t_push_us : Z; rm_slice : SliceSalvage; rm_vcl_nal : Z;
}.

Definition au_decodable (flags : Z) : bool := negb (Z.land flags (Z.lor kRecFlagComplete kRecFlagSliceSalvaged) =? 0).

(** ** The writer *)

Record AuRingWriter := mkWriter {
  w_map : bool; w_geom : AuRingGeom; w_hdr : FrameHdr; w_sid : Z; w_nslices : Z; in_au_ : bool; overflow_ : bool;
  slot_ : Z; lock_ : Z; copied_ : Z; valid_ : Z; cur_id64_ : Z; published_ : Z; dropped_oversize_ : Z;
  bytes_published_ : Z; w_last_id_ : Z; have_id_ : bool; last_ : AuRecordMeta;
}.

Definition no_hdr : FrameHdr := mkFrameHdr 0 0 0 0.
Definition no_meta : AuRecordMeta := mkMeta 0 0 0 0 0 0 0 0 0 0 0 0 0 0 0 default_salvage 0.
Definition new_writer : AuRingWriter :=
  mkWriter false (mkGeom 524288 16) no_hdr 0 0 false false 0 0 0 0 0 0 0 0 0 false no_meta.

(** [AuRingWriter.open]: whether the map was made, and the clock. *)
Definition writer_open (geom : AuRingGeom) (mapped : bool) (now_ns : Z) (w : AuRingWriter) : bool * list Store * AuRingWriter :=
  if (slot_bytes geom =? 0) || (slot_count geom =? 0) then (false, [], w)
  else
    let geom := mkGeom (align_slot_bytes (slot_bytes geom)) (slot_count geom) in
    if negb mapped then (false, [], w {{ w_map := false }})
    else
      (true,
       put 0 (replicate (Z.to_nat (ring_bytes geom)) 0) ++ put kOffVersion (put32 kAuRingVersion) ++
       put kOffSlotBytes (put32 (slot_bytes geom)) ++ put kOffSlotCount (put32 (slot_count geom)) ++
       put kOffEpoch (put64 (Z.lor now_ns 1)) ++ atomic kOffMagic (put32 kAuRingMagic),
       w {{ w_map := true ; w_geom := geom }}).

Definition close_slot_ (state : Z) (w : AuRingWriter) : list Store * AuRingWriter :=
  (atomic (slot_ w + kSOffState) [state] ++ atomic (slot_ w + kSOffLock) (put32 (u32 (lock_ w + 1))) ++
   atomic kOffOpenRec (put64 0),
   w {{ in_au_ := false }}).

Definition begin (h : FrameHdr) (sid nslices : Z) (m : Mem) (w : AuRingWriter) : list Store * AuRingWriter :=
  if negb (w_map w) then ([], w)
  else
    let '(s0, w) := if in_au_ w then close_slot_ kSlotAborted w else ([], w) in
    let d := u16 (frame_id h - u16 (w_last_id_ w)) in
    let id64 := if have_id_ w then u64 (w_last_id_ w + d) else frame_id h in
    let slot := slot_base (w_geom w) (published_ w) in
    let old := word 4 (apply_stores m s0) (slot + kSOffLock) in
    let lock := if Z.odd old then u32 (old + 2) else u32 (old + 1) in
    (s0 ++ atomic (slot + kSOffLock) (put32 lock) ++
     put (slot + kSOffLen) (put32 0) ++ put (slot + kSOffRecNo) (put64 (published_ w)) ++
     put (slot + kSOffFrameId) (put64 id64) ++ put (slot + kSOffPts) (put32 (pts_us h)) ++
     put (slot + kSOffSid) [sid] ++ put (slot + kSOffFlags) [flags h] ++ put (slot + kSOffNslices) [nslices] ++
     atomic (slot + kSOffValidLen) (put32 0) ++ atomic (slot + kSOffState) [kSlotOpen] ++
     atomic kOffOpenRec (put64 (u64 (published_ w + 1))),
     w {{ w_hdr := h ; w_sid := sid ; w_nslices := nslices ; cur_id64_ := id64 ; slot_ := slot ; lock_ := lock ;
          copied_ := 0 ; valid_ := 0 ; overflow_ := false ; in_au_ := true }}).

Definition copy_ (p : list Z) (w : AuRingWriter) : bool * list Store * AuRingWriter :=
  if negb (in_au_ w) || overflow_ w || (length p =? 0)%nat then (false, [], w)
  else if slot_bytes (w_geom w) <? copied_ w + Z.of_nat (length p)
  then (false, atomic (slot_ w + kSOffState) [kSlotAborted], w {{ overflow_ := true }})
  else (true, put (slot_ w + kAuSlotHdrBytes + copied_ w) p, w {{ copied_ ::= (fun c => u32 (c + Z.of_nat (length p))) }}).

Definition append (p : list Z) (w : AuRingWriter) : list Store * AuRingWriter :=
  let '(ok, s, w) := copy_ p w in
  if ok then (s ++ atomic (slot_ w + kSOffValidLen) (put32 (copied_ w)), w {{ valid_ := copied_ w }}) else (s, w).

Definition append_unaligned (p : list Z) (w : AuRingWriter) : list Store * AuRingWriter :=
  let '(_, s, w) := copy_ p w in (s, w).

(** [finish]: the record's number, or none; the clock in microseconds. *)
Definition finish (complete : bool) (lat : AuLatMeta) (now_us : Z) (w : AuRingWriter) :
  option Z * list Store * AuRingWriter :=
  if negb (w_map w) || negb (in_au_ w) then (None, [], w)
  else if overflow_ w then
    let dropped := u64 (dropped_oversize_ w + 1) in
    let '(s, w) := close_slot_ kSlotAborted (w {{ dropped_oversize_ := dropped }}) in
    (None, atomic kOffDropped (put64 dropped) ++ s, w)
  else
    let n := published_ w in
    let rec_flags := Z.lor (Z.lor (flags (w_hdr w)) (if complete then kRecFlagComplete else 0))
                           (if negb complete && salvaged (lat_slice lat) then kRecFlagSliceSalvaged else 0) in
    let t_complete := if t_complete_us lat =? 0 then now_us else t_complete_us lat in
    let slot := slot_ w in
    (Some n,
     put (slot + kSOffLen) (put32 (copied_ w)) ++ put (slot + kSOffFlags) [rec_flags] ++
     put (slot + kSOffTFirst) (put64 (t_first_us lat)) ++ put (slot + kSOffTComplete) (put64 t_complete) ++
     put (slot + kSOffDroneQ) (put16 (drone_q_ms lat)) ++ put (slot + kSOffEncUs) (put16 (lat_enc_us lat)) ++
     put (slot + kSOffAirMs) (put16 (drone_air_ms lat)) ++
     atomic (slot + kSOffState) [kSlotClosed] ++ atomic (slot + kSOffLock) (put32 (u32 (lock_ w + 1))) ++
     atomic kOffWriteSeq (put64 (u64 (n + 1))) ++ atomic kOffOpenRec (put64 0),
     w {{ in_au_ := false ; w_last_id_ := cur_id64_ w ; have_id_ := true ; published_ := u64 (n + 1) ;
          bytes_published_ ::= (fun b => u64 (b + copied_ w)) ;
          last_ := mkMeta n (cur_id64_ w) (pts_us (w_hdr w)) (copied_ w) (w_sid w) rec_flags (w_nslices w)
                     (t_first_us lat) t_complete (drone_q_ms lat) (lat_enc_us lat) (drone_air_ms lat)
                     (t_last_arr_us lat) (t_drain_us lat) (t_push_us lat) (lat_slice lat) (vcl_nal lat) }}).

(** *** A writer's calls *)

Inductive WCall :=
| WBegin (h : FrameHdr) (sid nslices : Z) | WAppend (p : list Z) | WUnaligned (p : list Z)
| WFinish (complete : bool) (lat : AuLatMeta) (now_us : Z).

Definition ring_call (c : WCall) (m : Mem) (w : AuRingWriter) : list Store * AuRingWriter :=
  match c with
  | WBegin h sid ns => begin h sid ns m w
  | WAppend p => append p w
  | WUnaligned p => append_unaligned p w
  | WFinish complete lat now => let '(_, ss, w) := finish complete lat now w in (ss, w)
  end.

Fixpoint ring_calls (cs : list WCall) (m : Mem) (w : AuRingWriter) : list Store * AuRingWriter :=
  match cs with
  | [] => ([], w)
  | c :: cs =>
      let '(ss, w) := ring_call c m w in
      let '(more, w) := ring_calls cs (apply_stores m ss) w in (ss ++ more, w)
  end.

(** ** The reader *)

(** A reader's code loads one after another, each from the memory of its moment. *)
Definition LM (A : Type) : Type := (nat -> Mem) -> nat -> A * nat.
#[export] Instance LM_ret : MRet LM := fun _ a _ k => (a, k).
#[export] Instance LM_bind : MBind LM := fun _ _ f x H k => let '(a, k) := x H k in f a H k.

(** An atomic load; a [memcpy] out of the map, a load per byte; [get16], [get32], [get64]. *)
Definition load (n : nat) (off : Z) : LM Z := fun H k => (word n (H k) off, S k).
Definition copy_out (off : Z) (n : nat) : LM (list Z) :=
  fun H k => (map (fun j => H (k + j)%nat (off + Z.of_nat j)) (seq 0 n), (k + n)%nat).
Definition get (n : nat) (off : Z) : LM Z := fun H k => let '(bs, k) := copy_out off n H k in (le_val bs, k).

Record AuRingReader := mkReader {
  r_map : bool; r_geom : AuRingGeom; cursor_ : Z; resyncs_ : Z; last_wseq_ : Z; epoch_ : Z; dead_ : bool;
  reopen_fail_ms_ : Z;
}.
Definition new_reader : AuRingReader := mkReader false (mkGeom 524288 16) 0 0 0 0 false 0.

Inductive Res := kNone | kOk | kResync.
Inductive OpenRes := kONone | kOpen | kGrow | kAborted.

Definition kReopenBudgetMs : Z := 5000.

(** [AuRingReader.open]: the size of the map, if the file could be mapped. *)
Definition reader_open (size : option Z) (r : AuRingReader) : LM (bool * AuRingReader) :=
  match size with
  | None => mret (false, r {{ r_map := false }})
  | Some size =>
      magic ← load 4 kOffMagic;
      version ← (if magic =? kAuRingMagic then get 4 kOffVersion else mret 0);
      if negb (version =? kAuRingVersion) then mret (false, r {{ r_map := false }})
      else
        sb ← get 4 kOffSlotBytes;
        sc ← get 4 kOffSlotCount;
        let g := mkGeom sb sc in
        let r := r {{ r_geom := g }} in
        if (sb =? 0) || negb (sb mod 64 =? 0) || (sc =? 0) then mret (false, r {{ r_map := false }})
        else if size <? u64 (ring_bytes g) then mret (false, r {{ r_map := false }})
        else
          epoch ← get 8 kOffEpoch;
          wseq ← load 8 kOffWriteSeq;
          let cursor := if sc <? wseq then wseq - sc else 0 in
          cursor ← (if sc <=? wseq then
                      open_rec ← load 8 kOffOpenRec;
                      if negb (open_rec =? 0) then mret (wseq - sc + 1)
                      else
                        state ← load 1 (slot_base g wseq + kSOffState);
                        mret (if negb (state =? kSlotClosed) then wseq - sc + 1 else cursor)
                    else mret cursor);
          mret (true, r {{ r_map := true ; epoch_ := epoch ; cursor_ := cursor ; last_wseq_ := wseq ; dead_ := false ;
                           reopen_fail_ms_ := 0 }})
  end.

Definition resynced (cursor : Z) (r : AuRingReader) : AuRingReader :=
  r {{ resyncs_ ::= (fun n => u64 (n + 1)) ; cursor_ := cursor }}.

Definition tail_cursor (wseq : Z) (r : AuRingReader) : Z :=
  if slot_count (r_geom r) <? wseq then wseq - slot_count (r_geom r) else 0.

(** What [next] copies out of a slot between its two looks at the lock: the header, and the state. *)
Definition read_meta (slot : Z) : LM (AuRecordMeta * Z) :=
  len ← get 4 (slot + kSOffLen);
  rec_no ← get 8 (slot + kSOffRecNo);
  id ← get 8 (slot + kSOffFrameId);
  pts ← get 4 (slot + kSOffPts);
  sid ← get 1 (slot + kSOffSid);
  fl ← get 1 (slot + kSOffFlags);
  ns ← get 1 (slot + kSOffNslices);
  t_first ← get 8 (slot + kSOffTFirst);
  t_complete ← get 8 (slot + kSOffTComplete);
  q ← get 2 (slot + kSOffDroneQ);
  enc ← get 2 (slot + kSOffEncUs);
  air ← get 2 (slot + kSOffAirMs);
  state ← get 1 (slot + kSOffState);
  mret (mkMeta rec_no id pts len sid fl ns t_first t_complete q enc air 0 0 0 default_salvage 0, state).

(** [next] from the record at the cursor on: the ring is mapped and has published it. *)
Definition next_record (wseq : Z) (r : AuRingReader) : LM (Res * option (AuRecordMeta * list Z) * AuRingReader) :=
  let slot := slot_base (r_geom r) (cursor_ r) in
  l1 ← load 4 (slot + kSOffLock);
  if Z.odd l1 then mret (kNone, None, r)
  else
    '(m, state) ← read_meta slot;
    if slot_bytes (r_geom r) <? rm_len m then mret (kResync, None, resynced (tail_cursor wseq r) r)
    else
      payload ← copy_out (slot + kAuSlotHdrBytes) (Z.to_nat (rm_len m));
      l2 ← load 4 (slot + kSOffLock);
      if negb (l1 =? l2) then mret (kResync, None, resynced (tail_cursor wseq r) r)
      else if negb (state =? kSlotClosed) then
        mret (kResync, None,
              resynced (if slot_count (r_geom r) <=? wseq then wseq - slot_count (r_geom r) + 1 else wseq) r)
      else if cursor_ r <? rm_rec_no m then
        mret (kOk, Some (m, payload), resynced (u64 (rm_rec_no m + 1)) r)
      else if rm_rec_no m <? cursor_ r then mret (kNone, None, r)
      else mret (kOk, Some (m, payload), r {{ cursor_ ::= (fun c => u64 (c + 1)) }}).

(** A failed attempt to map the ring again. *)
Definition note_fail (now_ms : Z) (r : AuRingReader) : AuRingReader :=
  if reopen_fail_ms_ r =? 0 then r {{ reopen_fail_ms_ := now_ms }} else r.

Definition next (size : option Z) (now_ms : Z) (r : AuRingReader) :
  LM (Res * option (AuRecordMeta * list Z) * AuRingReader) :=
  if dead_ r then mret (kNone, None, r)
  else if negb (r_map r) then
    '(ok, r) ← reader_open size r;
    if (ok : bool) then mret (kResync, None, r)
    else
      let r := note_fail now_ms r in
      mret (kNone, None, if kReopenBudgetMs <? u64 (now_ms - reopen_fail_ms_ r) then r {{ dead_ := true }} else r)
  else
    ep ← get 8 kOffEpoch;
    if negb (ep =? epoch_ r) then
      '(ok, r) ← reader_open size (r {{ resyncs_ ::= (fun n => u64 (n + 1)) ; r_map := false }});
      mret (kResync, None, if (ok : bool) then r else note_fail now_ms r)
    else
      wseq ← load 8 kOffWriteSeq;
      if wseq <? last_wseq_ r then mret (kResync, None, (resynced (tail_cursor wseq r) r) {{ last_wseq_ := wseq }})
      else
        let r := r {{ last_wseq_ := wseq }} in
        if wseq <=? cursor_ r then mret (kNone, None, r) else next_record wseq r.

(** *** The record being filled *)

Record OpenView := mkView { v_meta : AuRecordMeta; v_bytes : list Z; v_lock : Z }.
Definition no_view : OpenView := mkView no_meta [] 0.

(** [grow_]: 1 grew, 0 nothing new, -1 the slot moved on. *)
Definition grow_ (g : AuRingGeom) (slot lock : Z) (v : OpenView) : LM (Z * OpenView) :=
  let have := Z.of_nat (length (v_bytes v)) in
  vlen ← load 4 (slot + kSOffValidLen);
  if slot_bytes g <? vlen then mret (-1, v)
  else
    more ← copy_out (slot + kAuSlotHdrBytes + have) (Z.to_nat (vlen - have));
    l ← load 4 (slot + kSOffLock);
    if negb (l =? lock) then mret (-1, v)
    else if vlen <=? have then mret (0, v)
    else mret (1, mkView ((v_meta v) {{ rm_len := vlen }}) (v_bytes v ++ more) (v_lock v)).

Definition peek_open (r : AuRingReader) (v : OpenView) : LM (OpenRes * OpenView) :=
  if dead_ r || negb (r_map r) then mret (kONone, v)
  else
    ep ← get 8 kOffEpoch;
    if negb (ep =? epoch_ r) then mret (kONone, v)
    else
      wseq ← load 8 kOffWriteSeq;
      if negb (cursor_ r =? wseq) then mret (kONone, v)
      else
        let v := if negb (v_lock v =? 0) && negb (rm_rec_no (v_meta v) =? cursor_ r) then no_view else v in
        let slot := slot_base (r_geom r) (cursor_ r) in
        open_rec ← load 8 kOffOpenRec;
        l1 ← load 4 (slot + kSOffLock);
        state ← load 1 (slot + kSOffState);
        if negb (v_lock v =? 0) then
          let same := l1 =? v_lock v in
          if (same && (state =? kSlotAborted)) || (negb same && (Z.odd l1 || (state =? kSlotAborted))) then
            mret (kAborted, mkView (v_meta v) [] 0)
          else if negb same then mret (kONone, v)
          else
            '(res, v) ← grow_ (r_geom r) slot l1 v;
            mret (if 0 <? res then kGrow else kONone, v)
        else if negb (open_rec =? u64 (cursor_ r + 1)) || negb (Z.odd l1) || negb (state =? kSlotOpen) then mret (kONone, v)
        else
          rec_no ← get 8 (slot + kSOffRecNo);
          id ← get 8 (slot + kSOffFrameId);
          pts ← get 4 (slot + kSOffPts);
          sid ← get 1 (slot + kSOffSid);
          fl ← get 1 (slot + kSOffFlags);
          ns ← get 1 (slot + kSOffNslices);
          '(res, fresh) ← grow_ (r_geom r) slot l1
                            (mkView (mkMeta rec_no id pts 0 sid fl ns 0 0 0 0 0 0 0 0 default_salvage 0) [] l1);
          if res <? 0 then mret (kONone, v)
          else if negb (rm_rec_no (v_meta fresh) =? cursor_ r) then mret (kONone, v)
          else mret (kOpen, fresh).
