(* ===== verification/AuRingRead.v ===== *)
(** * AuRingRead: what a reader of the frame ring relies on, and what it delivers

    [RingHistory] is the promise of the ring's memory over time: locks that only step by one, slots that hold
    still while their lock is even, and a record in every closed slot.  [AuRingProps] shows that the writer's
    stores keep it.  Against it the reader's calls are proved, whatever moments their loads fall on. *)
From S2P Require Import Prelude Bytes Framing SliceAssembler FrameStream AuRing.
Local Open Scope Z_scope.

(** ** Memory *)

(** The memories agree on [n] bytes. *)
Definition agree (m m' : Mem) (off n : Z) : Prop := forall a, off <= a < off + n -> m' a = m a.

Lemma agree_sub m m' off n o k :
  agree m m' off n -> off <= o -> o + Z.of_nat k <= off + n -> sub m' o k = sub m o k.
Proof. intros H ? ?. apply map_ext_in. intros j Hj%in_seq. apply H. lia. Qed.

Lemma agree_word m m' off n o k :
  agree m m' off n -> off <= o -> o + Z.of_nat k <= off + n -> word k m' o = word k m o.
Proof. intros. unfold word. f_equal. by eapply agree_sub. Qed.

Lemma agree_refl m off n : agree m m off n.
Proof. by intros a _. Qed.

Lemma agree_trans m m' m'' off n : agree m m' off n -> agree m' m'' off n -> agree m m'' off n.
Proof. intros H1 H2 a Ha. by rewrite H2, H1. Qed.

Lemma agree_sym m m' off n : agree m m' off n -> agree m' m off n.
Proof. intros H a Ha. by rewrite H. Qed.

(** ** The interface *)

Definition slot_addr (g : AuRingGeom) (i : Z) : Z := kAuRingHdrBytes + i * slot_stride g.

Lemma slot_base_addr g c : slot_base g c = slot_addr g (c mod slot_count g).
Proof. done. Qed.

Definition lock_of (g : AuRingGeom) (i : Z) (m : Mem) : Z := word 4 m (slot_addr g i + kSOffLock).

(** The header fields a reader copies. *)
Definition meta_at (m : Mem) (slot : Z) : AuRecordMeta :=
  mkMeta (word 8 m (slot + kSOffRecNo)) (word 8 m (slot + kSOffFrameId)) (word 4 m (slot + kSOffPts))
    (word 4 m (slot + kSOffLen)) (word 1 m (slot + kSOffSid)) (word 1 m (slot + kSOffFlags))
    (word 1 m (slot + kSOffNslices)) (word 8 m (slot + kSOffTFirst)) (word 8 m (slot + kSOffTComplete))
    (word 2 m (slot + kSOffDroneQ)) (word 2 m (slot + kSOffEncUs)) (word 2 m (slot + kSOffAirMs))
    0 0 0 default_salvage 0.

Definition state_at (m : Mem) (slot : Z) : Z := word 1 m (slot + kSOffState).

Definition Rec : Type := AuRecordMeta * list Z.

(** Slot [i] holds record [n]: header and payload. *)
Definition holds (g : AuRingGeom) (m : Mem) (i n : Z) (rec : Rec) : Prop :=
  meta_at m (slot_addr g i) = rec.1 /\ rm_rec_no rec.1 = n /\ rm_len rec.1 = Z.of_nat (length rec.2) /\
  rm_len rec.1 <= slot_bytes g /\ sub m (slot_addr g i + kAuSlotHdrBytes) (length rec.2) = rec.2.

(** With [p] records published: the slot of the next one may be busy or abandoned, and every other slot holds
    the last record that fell on it. *)
Definition slot_ok (g : AuRingGeom) (recs : list Rec) (p : Z) (m : Mem) (i : Z) : Prop :=
  if Z.odd (lock_of g i m) then i = p mod slot_count g
  else
    (state_at m (slot_addr g i) = kSlotClosed /\ p <= i) \/
    (state_at m (slot_addr g i) = kSlotAborted /\ i = p mod slot_count g /\ rm_len (meta_at m (slot_addr g i)) = 0) \/
    (state_at m (slot_addr g i) = kSlotClosed /\
     exists n rec, recs !! Z.to_nat n = Some rec /\ 0 <= n /\ p - slot_count g <= n < p /\ n mod slot_count g = i /\
       holds g m i n rec).

Record RingHistory (g : AuRingGeom) (ep : Z) (recs : list Rec) (mem : nat -> Mem) (pub : nat -> Z) : Prop := mkHistory {
  rh_count : 0 < slot_count g;
  rh_bytes : 0 <= slot_bytes g;
  rh_magic : word 4 (mem 0%nat) kOffMagic = kAuRingMagic;
  rh_version : word 4 (mem 0%nat) kOffVersion = kAuRingVersion;
  rh_slot_bytes : word 4 (mem 0%nat) kOffSlotBytes = slot_bytes g;
  rh_slot_count : word 4 (mem 0%nat) kOffSlotCount = slot_count g;
  rh_epoch : word 8 (mem 0%nat) kOffEpoch = ep;
  rh_layout : forall n, agree (mem 0%nat) (mem n) 0 16;
  rh_stamp : forall n, agree (mem 0%nat) (mem n) kOffEpoch 8;
  rh_pub : forall n, 0 <= pub n <= Z.of_nat (length recs);
  rh_small : Z.of_nat (length recs) < 2 ^ 31;
  rh_pub_step : forall n, pub n <= pub (S n);
  rh_wseq : forall n, pub n - 1 <= word 8 (mem n) kOffWriteSeq <= pub n;
  rh_wseq_step : forall n, word 8 (mem n) kOffWriteSeq <= word 8 (mem (S n)) kOffWriteSeq;
  rh_lock : forall n i, 0 <= i < slot_count g ->
    lock_of g i (mem (S n)) = lock_of g i (mem n) \/ lock_of g i (mem (S n)) = lock_of g i (mem n) + 1;
  rh_still : forall n i, 0 <= i < slot_count g ->
    lock_of g i (mem (S n)) = lock_of g i (mem n) -> Z.odd (lock_of g i (mem n)) = false ->
    agree (mem n) (mem (S n)) (slot_addr g i) (slot_stride g);
  rh_slot : forall n i, 0 <= i < slot_count g -> slot_ok g recs (pub n) (mem n) i;
}.

Ltac ro_solve := first [assumption | done | lia | eapply Z.le_trans; eassumption].

(** Consecutive steps of a quantity that never falls. *)
Lemma steps_le (f : nat -> Z) : (forall n, f n <= f (S n)) -> forall n n', (n <= n')%nat -> f n <= f n'.
Proof. intros H n n'. induction 1; [lia |]. specialize (H m). lia. Qed.

Section Reader.
Context (g : AuRingGeom) (ep : Z) (recs : list Rec) (mem : nat -> Mem) (pub : nat -> Z).
Hypothesis Hist : RingHistory g ep recs mem pub.

Notation lock i n := (lock_of g i (mem n)).
Notation wseq n := (word 8 (mem n) kOffWriteSeq).

Lemma pub_le n n' : (n <= n')%nat -> pub n <= pub n'.
Proof using Hist. apply steps_le, Hist. Qed.

Lemma wseq_le n n' : (n <= n')%nat -> wseq n <= wseq n'.
Proof using Hist. apply (steps_le (fun n => wseq n)), Hist. Qed.

Lemma lock_le i n n' : 0 <= i < slot_count g -> (n <= n')%nat -> lock i n <= lock i n'.
Proof using Hist. intros Hi. apply (steps_le (fun n => lock i n)). intros k. destruct (rh_lock _ _ _ _ _ Hist k i Hi); lia. Qed.

(** An even lock that reads the same twice: the slot stood still in between. *)
Lemma still i n n' :
  0 <= i < slot_count g -> (n <= n')%nat -> lock i n' = lock i n -> Z.odd (lock i n) = false ->
  forall k, (n <= k <= n')%nat -> agree (mem n) (mem k) (slot_addr g i) (slot_stride g).
Proof using Hist.
  intros Hi Hn He Ho. induction Hn as [|n' Hn IH]; intros k Hk.
  - replace k with n by lia. apply agree_refl.
  - assert (E1 : lock i n' = lock i n).
    { pose proof (lock_le i n n' Hi Hn). pose proof (lock_le i n' (S n') Hi ltac:(lia)). lia. }
    destruct (decide (k = S n')) as [->|]; [| apply IH; [exact E1 | lia]].
    apply (agree_trans _ (mem n')); [apply IH; [exact E1 | lia] |].
    apply (rh_still _ _ _ _ _ Hist); [exact Hi | lia | by rewrite E1].
Qed.

(** A lock that moved on from even: the writer claimed the slot, for a record a whole lap further. *)
Lemma claimed i n n' c :
  0 <= i < slot_count g -> (n <= n')%nat -> lock i n' <> lock i n -> Z.odd (lock i n) = false ->
  c mod slot_count g = i -> c < pub n -> c + slot_count g <= pub n'.
Proof using Hist.
  intros Hi Hn He Ho Hc Hp. assert (exists k, (n <= k <= n')%nat /\ lock i k = lock i n + 1) as (k & Hk & Ek).
  { clear Ho. induction Hn as [|n' Hn IH]; [done |]. destruct (decide (lock i n' = lock i n)) as [E|E].
    - exists (S n'). split; [lia |]. destruct (rh_lock _ _ _ _ _ Hist n' i Hi); lia.
    - destruct (IH E) as (k & ? & ?). exists k. split; [lia | done]. }
  pose proof (rh_slot _ _ _ _ _ Hist k i Hi) as Hs. unfold slot_ok in Hs.
  rewrite Ek, Z.odd_add, Ho in Hs. cbn in Hs. pose proof (pub_le n k ltac:(lia)). pose proof (pub_le k n' ltac:(lia)).
  pose proof (rh_count _ _ _ _ _ Hist). pose proof (Z.div_mod c (slot_count g)). pose proof (Z.div_mod (pub k) (slot_count g)).
  assert (c / slot_count g < pub k / slot_count g) by nia. nia.
Qed.

Lemma slot_index c : 0 <= c mod slot_count g < slot_count g.
Proof using Hist. apply Z.mod_pos_bound, Hist. Qed.

(** ** One look at a slot *)

(** The loads of a call fall on moments in order. *)
Context (tau : nat -> nat).
Hypothesis Htau : forall k k', (k <= k')%nat -> (tau k <= tau k')%nat.

Notation H := (fun k => mem (tau k)).

Lemma get_at n off k m o z :
  (forall j, (k <= j < k + n)%nat -> agree m (mem (tau j)) o z) -> o <= off -> off + Z.of_nat n <= o + z ->
  get n off H k = (word n m off, (k + n)%nat).
Proof using.
  intros Ha ? ?. unfold get, copy_out, word. f_equal. f_equal. apply map_ext_in. intros j Hj%in_seq.
  apply (Ha (k + j)%nat); lia.
Qed.

Lemma copy_at n off k m o z :
  (forall j, (k <= j < k + n)%nat -> agree m (mem (tau j)) o z) -> o <= off -> off + Z.of_nat n <= o + z ->
  copy_out off n H k = (sub m off n, (k + n)%nat).
Proof using.
  intros Ha ? ?. unfold copy_out, sub. f_equal. apply map_ext_in. intros j Hj%in_seq. apply (Ha (k + j)%nat); lia.
Qed.

(** Reading a header: fifty loads. *)
Lemma read_meta_loads slot k : (read_meta slot H k).2 = (k + 50)%nat.
Proof using. unfold read_meta, mbind, LM_bind, get, copy_out. cbn. lia. Qed.

Lemma read_meta_at slot k m :
  (forall j, (k <= j < k + 50)%nat -> agree m (mem (tau j)) slot 64) ->
  read_meta slot H k = (meta_at m slot, state_at m slot, (k + 50)%nat).
Proof using.
  intros Ha. unfold read_meta, mbind, LM_bind, mret, LM_ret, kSOffLen, kSOffRecNo, kSOffFrameId, kSOffPts, kSOffSid,
    kSOffFlags, kSOffNslices, kSOffTFirst, kSOffTComplete, kSOffDroneQ, kSOffEncUs, kSOffAirMs, kSOffState.
  repeat (rewrite (get_at _ _ _ m slot 64); [| intros j Hj; apply Ha; lia | lia | lia]).
  f_equal. lia.
Qed.

(** ** A poll *)

(** A reader in step with the ring at moment [n], having delivered up to record [last]: what it can still find
    is newer, behind its cursor or not. *)
Record reader_ok (last : Z) (r : AuRingReader) (n : nat) : Prop := mkReaderOk {
  ro_map : r_map r = true;
  ro_geom : r_geom r = g;
  ro_epoch : epoch_ r = ep;
  ro_dead : dead_ r = false;
  ro_wseq : last_wseq_ r <= wseq n;
  ro_cursor : 0 <= cursor_ r <= pub n;
  ro_last : last < cursor_ r \/ last < pub n - slot_count g;
}.

Lemma reader_ok_later last r n n' : (n <= n')%nat -> reader_ok last r n -> reader_ok last r n'.
Proof using Hist.
  intros Hn [? ? ? ? ? ? ?]. pose proof (pub_le n n' Hn). pose proof (wseq_le n n' Hn). split; ro_solve.
Qed.

(** Losing its place costs the reader a lap, never its order. *)
Lemma reader_ok_resync last r n n' c :
  (n <= n')%nat -> reader_ok last r n -> cursor_ r + slot_count g <= pub n' -> 0 <= c <= pub n' ->
  reader_ok last (resynced c r) n'.
Proof using Hist.
  intros Hn [? ? ? ? ? ? ?] Hp Hc. pose proof (pub_le n n' Hn). pose proof (wseq_le n n' Hn).
  split; cbn; unfold constant; ro_solve.
Qed.

(** Stable and claimed by no one: the slot under the cursor has its record, or one of a later lap. *)
Lemma slot_under_cursor c n :
  0 <= c < pub n -> Z.odd (lock (c mod slot_count g) n) = false ->
  let slot := slot_base g c in
  (state_at (mem n) slot = kSlotAborted /\ rm_len (meta_at (mem n) slot) = 0 /\ c + slot_count g <= pub n) \/
  (state_at (mem n) slot = kSlotClosed /\ exists d rec, recs !! Z.to_nat d = Some rec /\ 0 <= d /\
     pub n - slot_count g <= d < pub n /\ d mod slot_count g = c mod slot_count g /\ holds g (mem n) (c mod slot_count g) d rec).
Proof using Hist.
  intros Hc Ho. cbn zeta. pose proof (rh_slot _ _ _ _ _ Hist n _ (slot_index c)) as Hs. unfold slot_ok in Hs. rewrite Ho in Hs.
  rewrite slot_base_addr. pose proof (rh_count _ _ _ _ _ Hist) as Hp. destruct Hs as [[_ Hs] | [(Hs & Hi & Hl) | Hs]].
  - pose proof (Z.mod_le c (slot_count g)). lia.
  - left. split; [exact Hs |]. split; [exact Hl |]. pose proof (Z.div_mod c (slot_count g)).
    pose proof (Z.div_mod (pub n) (slot_count g)). assert (c / slot_count g < pub n / slot_count g) by nia. nia.
  - right. exact Hs.
Qed.

(** What a poll leaves: the reader still in step, and perhaps one record, newer than all before. *)
Definition poll_ok (last : Z) (out : option Rec) (r : AuRingReader) (n : nat) : Prop :=
  match out with
  | None => reader_ok last r n
  | Some rec => exists d, recs !! Z.to_nat d = Some rec /\ 0 <= d /\ last < d /\ reader_ok d r n
  end.

Lemma poll_ok_later last out r n n' : (n <= n')%nat -> poll_ok last out r n -> poll_ok last out r n'.
Proof using Hist.
  intros Hn. destruct out; cbn; [| by apply reader_ok_later]. intros (d & ? & ? & ? & ?). exists d.
  split; [done |]. split; [done |]. split; [done |]. by eapply reader_ok_later.
Qed.

Lemma tail_cursor_range w r n : r_geom r = g -> 0 <= w <= pub n -> 0 <= tail_cursor w r <= pub n.
Proof using Hist.
  intros E Hw. unfold tail_cursor. rewrite E. pose proof (rh_count _ _ _ _ _ Hist).
  destruct (Z.ltb_spec (slot_count g) w); lia.
Qed.

Lemma rec_no_small d rec : recs !! Z.to_nat d = Some rec -> 0 <= d -> u64 (d + 1) = d + 1 /\ d + 1 <= Z.of_nat (length recs).
Proof using Hist.
  intros Hl Hd. apply lookup_lt_Some in Hl. pose proof (rh_small _ _ _ _ _ Hist). split; [| lia].
  apply wrap_small. unfold in_width. lia.
Qed.

Lemma lock_load slot c k : slot = slot_base g c -> load 4 (slot + kSOffLock) H k = (lock (c mod slot_count g) (tau k), S k).
Proof using. by intros ->. Qed.

(** The slot did not move between the two looks at its lock. *)
Lemma deliver last r k0 k wsq m st payload :
  reader_ok last r (tau k0) -> (k0 <= k)%nat -> cursor_ r < pub (tau k) -> 0 <= wsq <= pub (tau k) ->
  Z.odd (lock (cursor_ r mod slot_count g) (tau k)) = false ->
  m = meta_at (mem (tau k)) (slot_base g (cursor_ r)) -> st = state_at (mem (tau k)) (slot_base g (cursor_ r)) ->
  payload = sub (mem (tau k)) (slot_base g (cursor_ r) + kAuSlotHdrBytes) (Z.to_nat (rm_len m)) ->
  forall res out r',
  (if negb (st =? kSlotClosed) then
     (kResync, None, resynced (if slot_count (r_geom r) <=? wsq then wsq - slot_count (r_geom r) + 1 else wsq) r)
   else if cursor_ r <? rm_rec_no m then (kOk, Some (m, payload), resynced (u64 (rm_rec_no m + 1)) r)
   else if rm_rec_no m <? cursor_ r then (kNone, None, r)
   else (kOk, Some (m, payload), r {{ cursor_ ::= (fun c => u64 (c + 1)) }})) = (res, out, r') ->
  poll_ok last out r' (tau k).
Proof using Hist Htau.
  intros Hr Hk Hp Hw Ho -> -> -> res out r'. set (n := tau k) in *.
  assert (Hn : (tau k0 <= n)%nat) by (by apply Htau). pose proof (rh_count _ _ _ _ _ Hist) as Hc.
  assert (Hc0 : 0 <= cursor_ r) by apply Hr. rewrite (ro_geom _ _ _ Hr).
  destruct (slot_under_cursor (cursor_ r) n ltac:(lia) Ho) as [(Es & _ & Hlap) | (Es & d & rec & Hd & Hd0 & Hd1 & Hd2 & Hh)].
  { rewrite Es. cbn [negb]. intros [= <- <- <-]. eapply reader_ok_resync; eauto.
    destruct (Z.leb_spec (slot_count g) wsq); lia. }
  rewrite Es. cbn [negb]. destruct Hh as (Hm & Hno & Hlen & Hle & Hpay). rewrite <- slot_base_addr in Hm, Hpay.
  rewrite Hm, Hno. assert (Epay : sub (mem n) (slot_base g (cursor_ r) + kAuSlotHdrBytes) (Z.to_nat (rm_len rec.1)) = rec.2).
  { rewrite Hlen, Nat2Z.id. exact Hpay. }
  rewrite Epay, <- surjective_pairing. destruct (rec_no_small d rec Hd Hd0) as [Eu Hdl]. rewrite Eu.
  pose proof (reader_ok_later _ _ _ _ Hn Hr) as [R1 R2 R3 R4 R5 R6 R7].
  change (kSlotClosed =? kSlotClosed) with true. cbn [negb].
  destruct (Z.ltb_spec (cursor_ r) d) as [Hlt|Hge].
  - intros [= <- <- <-]. exists d. split; [exact Hd |]. split; [exact Hd0 |]. split; [lia |].
    split; cbn; unfold constant; ro_solve.
  - destruct (Z.ltb_spec d (cursor_ r)) as [Hlt|Hge'].
    + intros [= <- <- <-]. by split.
    + intros [= <- <- <-]. assert (d = cursor_ r) as -> by lia. exists (cursor_ r). split; [exact Hd |].
      split; [exact Hd0 |]. split; [lia |].
      assert (Ec : cursor_ (r {{ cursor_ ::= (fun c => u64 (c + 1)) }}) = cursor_ r + 1) by exact Eu.
      split; [exact R1 | exact R2 | exact R3 | exact R4 | exact R5 | refine (eq_ind_r (fun z => 0 <= z <= pub n) _ Ec); lia | left; refine (eq_ind_r (fun z => cursor_ r < z) _ Ec); lia].
Qed.

Lemma next_record_ok last r k0 k wsq :
  reader_ok last r (tau k0) -> (k0 <= k)%nat -> cursor_ r < wsq -> 0 <= wsq <= pub (tau k) ->
  let '(_, out, r', k') := next_record wsq r H k in (k <= k')%nat /\ poll_ok last out r' (tau k').
Proof using Hist Htau.
  intros Hr Hk Hcw Hw. pose proof (ro_geom _ _ _ Hr) as Hg. assert (Hc0 : 0 <= cursor_ r) by apply Hr.
  pose proof (rh_count _ _ _ _ _ Hist) as Hcnt. pose proof (rh_bytes _ _ _ _ _ Hist) as Hb. set (c := cursor_ r) in *.
  pose proof (slot_index c) as Hi.
  unfold next_record. fold c. rewrite Hg. set (slot := slot_base g c). unfold mbind at 1, LM_bind at 1.
  rewrite (lock_load slot c k eq_refl). destruct (Z.odd _) eqn:Eo.
  { cbn. split; [lia |]. apply (reader_ok_later _ _ (tau k0)); [apply Htau; lia | exact Hr]. }
  unfold mbind at 1, LM_bind at 1. destruct (read_meta slot H (S k)) as [[m st] k2] eqn:Em.
  assert (Ek2 : k2 = (S k + 50)%nat) by (rewrite <- (read_meta_loads slot (S k)), Em; done).
  assert (Hmove : forall k', (k <= k')%nat -> lock (c mod slot_count g) (tau k') <> lock (c mod slot_count g) (tau k) ->
            c + slot_count g <= pub (tau k')).
  { intros k' Hk' Hne. eapply (claimed _ (tau k)); eauto. lia. }
  assert (Hstill : forall k', (k <= k')%nat -> lock (c mod slot_count g) (tau k') = lock (c mod slot_count g) (tau k) ->
            forall j, (k <= j <= k')%nat -> agree (mem (tau k)) (mem (tau j)) slot (slot_stride g)).
  { intros k' Hk' He j Hj. apply (still _ (tau k) (tau k') Hi (Htau _ _ Hk') He Eo). split; apply Htau; lia. }
  assert (Hread : lock (c mod slot_count g) (tau k2) = lock (c mod slot_count g) (tau k) ->
            m = meta_at (mem (tau k)) slot /\ st = state_at (mem (tau k)) slot).
  { intros He. rewrite (read_meta_at slot (S k) (mem (tau k))) in Em; [by injection Em |]. intros j Hj a Ha.
    apply (Hstill k2 ltac:(lia) He j ltac:(lia)). unfold slot_stride, kAuSlotHdrBytes. lia. }
  assert (Htc : 0 <= tail_cursor wsq r <= pub (tau k)) by (by apply tail_cursor_range).
  assert (Hkk : forall k', (k <= k')%nat -> pub (tau k) <= pub (tau k')) by (intros; by apply pub_le, Htau).
  destruct (Z.ltb_spec (slot_bytes g) (rm_len m)) as [Hbig|Hfit].
  { cbn. split; [lia |]. specialize (Hkk k2 ltac:(lia)). eapply reader_ok_resync; [| exact Hr | | lia]; [apply Htau; lia |].
    apply Hmove; [lia |]. intros He. destruct (Hread He) as [Em' _]. rewrite Em' in Hbig.
    destruct (slot_under_cursor c (tau k) ltac:(lia) Eo) as [(_ & Hz & _) | (_ & d & rec & _ & _ & _ & _ & Hm & _ & _ & Hle & _)].
    - fold slot in Hz. lia.
    - rewrite <- slot_base_addr in Hm. fold slot in Hm. rewrite Hm in Hbig. lia. }
  unfold mbind at 1, LM_bind at 1. destruct (copy_out _ _ H k2) as [payload k3] eqn:Ep.
  assert (Ek3 : k3 = (k2 + Z.to_nat (rm_len m))%nat) by (by injection Ep).
  unfold mbind, LM_bind. rewrite (lock_load slot c k3 eq_refl). rewrite (Z.eqb_sym). destruct (Z.eqb_spec (lock (c mod slot_count g) (tau k3)) (lock (c mod slot_count g) (tau k))) as [He|Hne].
  2: { cbn. split; [lia |]. specialize (Hkk k3 ltac:(lia)). apply (reader_ok_later _ _ (tau k3)); [apply Htau; lia |].
       eapply reader_ok_resync; [| exact Hr | | lia]; [apply Htau; lia |]. apply Hmove; [lia | done]. }
  assert (He2 : lock (c mod slot_count g) (tau k2) = lock (c mod slot_count g) (tau k)).
  { pose proof (lock_le _ (tau k) (tau k2) Hi ltac:(apply Htau; lia)). pose proof (lock_le _ (tau k2) (tau k3) Hi ltac:(apply Htau; lia)). lia. }
  destruct (Hread He2) as [Em1 Em2].
  assert (Epay : payload = sub (mem (tau k)) (slot + kAuSlotHdrBytes) (Z.to_nat (rm_len m))).
  { rewrite (copy_at _ _ k2 (mem (tau k)) slot (slot_stride g)) in Ep.
    - by injection Ep.
    - intros j Hj. apply (Hstill k3 ltac:(lia) He j). lia.
    - unfold kAuSlotHdrBytes. lia.
    - unfold slot_stride, kAuSlotHdrBytes. lia. }
  cbn [negb]. pose proof (deliver last r k0 k wsq m st payload Hr Hk ltac:(lia) Hw Eo Em1 Em2 Epay) as D.
  rewrite Hg in D. fold c in D.
  destruct (negb (st =? kSlotClosed)); [| destruct (c <? rm_rec_no m); [| destruct (rm_rec_no m <? c)]]; cbn -[poll_ok];
    (split; [lia |]; refine (poll_ok_later last _ _ (tau k) _ _ (D _ _ _ eq_refl)); apply Htau; lia).
Qed.

Lemma next_ok last r k size now :
  reader_ok last r (tau k) ->
  let '(_, out, r', k') := next size now r H k in (k <= k')%nat /\ poll_ok last out r' (tau k').
Proof using Hist Htau.
  intros Hr. pose proof Hr as [R1 R2 R3 R4 R5 R6 R7]. unfold next. rewrite R4, R1. cbn [negb].
  unfold mbind at 1, LM_bind at 1.
  rewrite (get_at 8 kOffEpoch k (mem 0%nat) kOffEpoch 8); [| intros; apply Hist | lia | lia].
  rewrite (rh_epoch _ _ _ _ _ Hist), R3, Z.eqb_refl. cbn [negb]. set (k1 := (k + 8)%nat).
  unfold mbind, LM_bind, load. cbv beta. pose proof (rh_wseq _ _ _ _ _ Hist (tau k1)) as Hw. pose proof (wseq_le (tau k) (tau k1) ltac:(apply Htau; lia)) as Hwm.
  destruct (Z.ltb_spec (wseq (tau k1)) (last_wseq_ r)) as [Hlt|Hge]; [lia |].
  assert (Hlater : forall n, (tau k1 <= n)%nat -> reader_ok last (r {{ last_wseq_ := wseq (tau k1) }}) n).
  { intros n Hn. pose proof (pub_le (tau k1) n Hn). pose proof (pub_le (tau k) (tau k1) ltac:(apply Htau; lia)).
    split; [exact R1 | exact R2 | exact R3 | exact R4 | exact (wseq_le _ _ Hn) | | ].
    - refine (conj (proj1 R6) _). refine (Z.le_trans _ _ _ (proj2 R6) _). lia.
    - destruct R7 as [R7|R7]; [left; exact R7 | right; lia]. }
  change (cursor_ (r {{ last_wseq_ := wseq (tau k1) }})) with (cursor_ r).
  destruct (Z.leb_spec (wseq (tau k1)) (cursor_ r)) as [Hle|Hlt].
  - cbn. split; [lia |]. apply Hlater, Htau. lia.
  - pose proof (next_record_ok last (r {{ last_wseq_ := wseq (tau k1) }}) (S k1) (S k1) (wseq (tau k1))
      (Hlater (tau (S k1)) ltac:(apply Htau; lia)) ltac:(lia) Hlt) as N.
    pose proof (pub_le (tau k1) (tau (S k1)) ltac:(apply Htau; lia)). specialize (N ltac:(lia)).
    destruct (next_record _ _ _ (S k1)) as [[[res out] r'] k']. destruct N as [? ?]. split; [lia | done].
Qed.

(** Mapping a ring in use. *)
Lemma reader_open_ok r size k :
  u64 (ring_bytes g) <= size -> 0 < slot_bytes g -> slot_bytes g mod 64 = 0 ->
  let '(ok, r', k') := reader_open (Some size) r H k in ok = true /\ (k <= k')%nat /\ reader_ok (-1) r' (tau k').
Proof using Hist Htau.
  intros Hsz Hsb Hal. pose proof (rh_count _ _ _ _ _ Hist) as Hc. unfold reader_open.
  assert (Hw4 : forall o j, 0 <= o -> o + 4 <= 16 -> word 4 (mem (tau j)) o = word 4 (mem 0%nat) o).
  { intros o j ? ?. apply (agree_word _ _ 0 16); [apply Hist | lia | lia]. }
  assert (Hg4 : forall o j, 0 <= o -> o + 4 <= 16 -> get 4 o H j = (word 4 (mem 0%nat) o, (j + 4)%nat)).
  { intros o j ? ?. apply (get_at 4 o j (mem 0%nat) 0 16); [intros; apply Hist | lia | lia]. }
  unfold mbind at 1, LM_bind at 1, load at 1. cbv beta. rewrite (Hw4 kOffMagic) by (unfold kOffMagic; lia).
  rewrite (rh_magic _ _ _ _ _ Hist), Z.eqb_refl. unfold mbind at 1, LM_bind at 1.
  rewrite (Hg4 kOffVersion) by (unfold kOffVersion; lia). rewrite (rh_version _ _ _ _ _ Hist), Z.eqb_refl. cbn [negb].
  unfold mbind at 1, LM_bind at 1. rewrite (Hg4 kOffSlotBytes) by (unfold kOffSlotBytes; lia). rewrite (rh_slot_bytes _ _ _ _ _ Hist).
  unfold mbind at 1, LM_bind at 1. rewrite (Hg4 kOffSlotCount) by (unfold kOffSlotCount; lia). rewrite (rh_slot_count _ _ _ _ _ Hist).
  replace (mkGeom (slot_bytes g) (slot_count g)) with g by (by destruct g).
  rewrite (proj2 (Z.eqb_neq (slot_bytes g) 0)) by lia. rewrite (proj2 (Z.eqb_neq (slot_count g) 0)) by lia.
  rewrite Hal. cbn [orb negb Z.eqb]. rewrite (proj2 (Z.ltb_ge _ _)) by lia.
  unfold mbind at 1, LM_bind at 1.
  match goal with |- context [get 8 kOffEpoch H ?j] => set (k1 := j) end.
  rewrite (get_at 8 kOffEpoch k1 (mem 0%nat) kOffEpoch 8); [| intros; apply Hist | lia | lia].
  rewrite (rh_epoch _ _ _ _ _ Hist). unfold mbind at 1, LM_bind at 1, load at 1. cbv beta. set (k2 := (k1 + 8)%nat).
  pose proof (rh_wseq _ _ _ _ _ Hist (tau k2)) as Hw. pose proof (rh_pub _ _ _ _ _ Hist (tau k2)) as Hp.
  assert (Hk2 : (k <= k2)%nat) by (subst k1 k2; lia). clearbody k2. clear k1.
  unfold mbind at 1, LM_bind at 1.
  match goal with |- context [let '(a, j) := ?c in _] =>
    assert (Hcur : exists cur j, c = (cur, j) /\ (S k2 <= j)%nat /\ 0 <= cur <= pub (tau k2)) end.
  { unfold mbind, LM_bind, load, mret, LM_ret. destruct (Z.leb_spec (slot_count g) (wseq (tau k2))).
    - destruct (negb (word 8 _ _ =? 0)); [| destruct (negb (word 1 _ _ =? _))]; eexists _, _; (split; [reflexivity |]).
      + split; lia.
      + split; lia.
      + split; [lia |]. destruct (Z.ltb_spec (slot_count g) (wseq (tau k2))); lia.
    - eexists _, _. split; [reflexivity |]. split; [lia |]. rewrite (proj2 (Z.ltb_ge _ _)) by lia. lia. }
  destruct Hcur as (cur & j & -> & Hj & Hcur). cbn. split; [done |]. split; [lia |].
  assert (Hle : (tau k2 <= tau j)%nat) by (apply Htau; lia). pose proof (pub_le _ _ Hle). pose proof (wseq_le _ _ Hle).
  split; cbn; unfold constant; first [done | lia].
Qed.

(** ** A reader's life *)

(** Polls one after another; what they delivered. *)
Fixpoint polls (ps : list (option Z * Z)) (r : AuRingReader) : LM (list Rec) :=
  match ps with
  | [] => mret []
  | (size, now) :: ps =>
      '(_, out, r) ← next size now r;
      more ← polls ps r;
      mret (match out with Some rec => rec :: more | None => more end)
  end.

Lemma sublist_lookup_drop {A} (l : list A) d x ds :
  l !! d = Some x -> ds `sublist_of` drop (S d) l -> forall k, (k <= d)%nat -> x :: ds `sublist_of` drop k l.
Proof using.
  intros Hx Hds k Hk. transitivity (drop d l).
  - rewrite (drop_S _ x) by done. by apply sublist_skip.
  - replace d with (k + (d - k))%nat by lia. rewrite <- drop_drop. apply sublist_drop.
Qed.

Lemma polls_ok ps last r k :
  -1 <= last -> reader_ok last r (tau k) -> (polls ps r H k).1 `sublist_of` drop (Z.to_nat (last + 1)) recs.
Proof using Hist Htau.
  revert last r k. induction ps as [|[size now] ps IH]; intros last r k Hl Hr; cbn [polls].
  - cbn. apply sublist_nil_l.
  - unfold mbind at 1, LM_bind at 1. pose proof (next_ok last r k size now Hr) as N.
    destruct (next size now r H k) as [[[res out] r'] k']. destruct N as [Hk N]. unfold mbind, LM_bind, mret, LM_ret.
    destruct out as [rec|]; cbn in N.
    + destruct N as (d & Hd & Hd0 & Hld & Hr'). specialize (IH d r' k' ltac:(lia) Hr').
      destruct (polls ps r' H k') as [more k'']. cbn in *. replace (Z.to_nat (d + 1)) with (S (Z.to_nat d)) in IH by lia.
      apply (sublist_lookup_drop _ (Z.to_nat d)); [done | done | lia].
    + specialize (IH last r' k' Hl N). destruct (polls ps r' H k') as [more k'']. exact IH.
Qed.

End Reader.

(** ** A ring at rest *)

Lemma history_still g ep recs mem pub n :
  RingHistory g ep recs mem pub -> RingHistory g ep recs (fun _ => mem n) (fun _ => pub n).
Proof.
  intros []. assert (Hw : forall k o, 0 <= o -> o + Z.of_nat k <= 16 -> word k (mem n) o = word k (mem 0%nat) o).
  { intros k o ? ?. apply (agree_word _ _ 0 16); [done | lia | lia]. }
  split; try done; intros; try lia; try apply agree_refl.
  - rewrite Hw by (unfold kOffMagic; lia). done.
  - rewrite Hw by (unfold kOffVersion; lia). done.
  - rewrite Hw by (unfold kOffSlotBytes; lia). done.
  - rewrite Hw by (unfold kOffSlotCount; lia). done.
  - rewrite (agree_word (mem 0%nat) _ kOffEpoch 8) by (done || lia). done.
  - by apply rh_slot0.
Qed.

Section Rest.
Context (g : AuRingGeom) (ep : Z) (recs : list Rec) (m : Mem).
Let P : Z := Z.of_nat (length recs).
Hypothesis Hist : RingHistory g ep recs (fun _ => m) (fun _ => P).
Hypothesis Hw : word 8 m kOffWriteSeq = P.
Hypothesis Heven : forall i, 0 <= i < slot_count g -> Z.odd (lock_of g i m) = false.

(** In step and within the lap the ring still holds. *)
Definition in_lap (r : AuRingReader) : Prop :=
  reader_ok g ep (fun _ => m) (fun _ => P) (-1) r 0 /\ P - slot_count g <= cursor_ r /\
  (state_at m (slot_base g (cursor_ r)) = kSlotClosed \/ P - slot_count g < cursor_ r).

(** Loads of one unchanging memory. *)
Lemma load_rest n off k : load n off (fun _ => m) k = (word n m off, S k).
Proof using. done. Qed.

Lemma get_rest n off k : get n off (fun _ => m) k = (word n m off, (k + n)%nat).
Proof using. done. Qed.

Lemma copy_rest off n k : copy_out off n (fun _ => m) k = (sub m off n, (k + n)%nat).
Proof using. done. Qed.

Lemma read_meta_rest slot k : read_meta slot (fun _ => m) k = (meta_at m slot, state_at m slot, (k + 50)%nat).
Proof using. apply (read_meta_at (fun _ => m) (fun n => n)). intros. apply agree_refl. Qed.

Lemma next_at_rest r size now k :
  in_lap r -> cursor_ r < P ->
  exists rec r' k', recs !! Z.to_nat (cursor_ r) = Some rec /\ next size now r (fun _ => m) k = (kOk, Some rec, r', k') /\
    in_lap r' /\ cursor_ r' = cursor_ r + 1.
Proof using Hist Hw Heven.
  intros (Hr & Hlap & Hst) Hc. pose proof (rh_count _ _ _ _ _ Hist) as Hcnt. pose proof Hr as [R1 R2 R3 R4 R5 R6 R7].
  pose proof (slot_index g ep recs _ _ Hist (cursor_ r)) as Hi. pose proof (Heven _ Hi) as Ho.
  destruct (slot_under_cursor g ep recs _ _ Hist (cursor_ r) 0%nat ltac:(lia) Ho) as [(Es & _ & Hl) | (Es & d & rec & Hd & Hd0 & Hd1 & Hd2 & Hh)].
  { exfalso. destruct Hst as [Hst|Hst]; [rewrite Hst in Es; discriminate | lia]. }
  assert (d = cursor_ r) as ->.
  { pose proof (Z.div_mod d (slot_count g)). pose proof (Z.div_mod (cursor_ r) (slot_count g)).
    assert (d / slot_count g = cursor_ r / slot_count g) by nia. nia. }
  destruct Hh as (Hm & Hno & Hlen & Hle & Hpay). rewrite <- slot_base_addr in Hm, Hpay.
  destruct (rec_no_small g ep recs _ _ Hist _ _ Hd Hd0) as [Eu _].
  unfold next. rewrite R4, R1. cbn [negb]. unfold mbind, LM_bind. rewrite get_rest.
  rewrite (rh_epoch _ _ _ _ _ Hist), R3, Z.eqb_refl. cbn [negb]. rewrite load_rest, Hw.
  rewrite Hw in R5. rewrite (proj2 (Z.ltb_ge _ _) R5).
  set (r1 := r {{ last_wseq_ := P }}). change (cursor_ r1) with (cursor_ r). rewrite (proj2 (Z.leb_gt _ _) Hc).
  unfold next_record, mbind, LM_bind. change (cursor_ r1) with (cursor_ r). change (r_geom r1) with (r_geom r). rewrite R2.
  rewrite load_rest. change (word 4 m (slot_base g (cursor_ r) + kSOffLock)) with (lock_of g (cursor_ r mod slot_count g) m).
  rewrite Ho, read_meta_rest, Hm, Es. rewrite (proj2 (Z.ltb_ge _ _) Hle). rewrite Hlen, Nat2Z.id, copy_rest, Hpay, load_rest.
  change (word 4 m (slot_base g (cursor_ r) + kSOffLock)) with (lock_of g (cursor_ r mod slot_count g) m).
  rewrite Z.eqb_refl, Hno, Z.ltb_irrefl, <- surjective_pairing. change (kSlotClosed =? kSlotClosed) with true. cbn [negb].
  set (r2 := r1 {{ cursor_ ::= (fun c => u64 (c + 1)) }}). assert (Ec : cursor_ r2 = cursor_ r + 1) by exact Eu.
  exists rec, r2. eexists. split; [exact Hd |]. split; [reflexivity |]. split; [| exact Ec].
  split; [| split; [rewrite Ec; lia | right; rewrite Ec; lia]].
  split; [exact R1 | exact R2 | exact R3 | exact R4 | | rewrite Ec; lia | rewrite Ec; left; lia].
  rewrite Hw. exact (Z.le_refl P).
Qed.

Lemma reader_ok_rest last r n n' :
  reader_ok g ep (fun _ => m) (fun _ => P) last r n -> reader_ok g ep (fun _ => m) (fun _ => P) last r n'.
Proof using. by intros []. Qed.

Lemma polls_at_rest qs r k :
  in_lap r -> P - cursor_ r <= Z.of_nat (length qs) -> (polls qs r (fun _ => m) k).1 = drop (Z.to_nat (cursor_ r)) recs.
Proof using Hist Hw Heven.
  revert r k. induction qs as [|[size now] qs IH]; intros r k Hr Hq; cbn [polls].
  - cbn in *. symmetry. apply drop_ge. lia.
  - assert (H6 : 0 <= cursor_ r <= P) by apply Hr. unfold mbind at 1, LM_bind at 1. destruct (Z.ltb_spec (cursor_ r) P) as [Hlt|Hge].
    + destruct (next_at_rest r size now k Hr Hlt) as (rec & r' & k' & Hl & -> & Hr' & Ec). unfold mbind, LM_bind, mret, LM_ret.
      specialize (IH r' k' Hr'). cbn [length] in Hq. destruct (polls qs r' (fun _ => m) k') as [more k'']. cbn [fst] in *.
      rewrite IH by lia. rewrite (drop_S (A:=Rec) recs rec _ Hl). f_equal. f_equal. lia.
    + assert (En : exists r' k', next size now r (fun _ => m) k = (kNone, None, r', k') /\ in_lap r' /\ cursor_ r' = cursor_ r).
      { pose proof Hr as ([R1 R2 R3 R4 R5 R6 R7] & ? & ?). unfold next. rewrite R4, R1. cbn [negb]. unfold mbind, LM_bind. rewrite get_rest.
        rewrite (rh_epoch _ _ _ _ _ Hist), R3, Z.eqb_refl. cbn [negb]. rewrite load_rest, Hw.
        rewrite Hw in R5. rewrite (proj2 (Z.ltb_ge _ _) R5).
        change (cursor_ (r {{ last_wseq_ := P }})) with (cursor_ r). rewrite (proj2 (Z.leb_le _ _)) by lia.
        eexists _, _. split; [reflexivity |]. split; [| reflexivity]. split; [| done].
        split; [exact R1 | exact R2 | exact R3 | exact R4 | | exact R6 | exact R7]. rewrite Hw. exact (Z.le_refl P). }
      destruct En as (r' & k' & -> & Hr' & Ec). unfold mbind, LM_bind, mret, LM_ret.
      specialize (IH r' k' Hr'). destruct (polls qs r' (fun _ => m) k') as [more k'']. cbn [fst] in *. rewrite IH by lia. by rewrite Ec.
Qed.

(** A reader that maps a ring at rest starts at the oldest record the ring still holds. *)
Lemma open_at_rest r size k :
  u64 (ring_bytes g) <= size -> 0 < slot_bytes g -> slot_bytes g mod 64 = 0 ->
  let '(ok, r', _) := reader_open (Some size) r (fun _ => m) k in
  ok = true /\ in_lap r' /\ cursor_ r' <= Z.max 0 (P - slot_count g + 1).
Proof using Hist Hw Heven.
  intros Hsz Hsb Hal. pose proof (rh_count _ _ _ _ _ Hist) as Hc.
  pose proof (reader_open_ok g ep recs _ _ Hist (fun n => n) ltac:(done) r size k Hsz Hsb Hal) as O. cbn beta in O.
  unfold reader_open in *. unfold mbind, LM_bind, mret, LM_ret in *.
  rewrite ?load_rest, ?(rh_magic _ _ _ _ _ Hist), ?Z.eqb_refl, ?get_rest in *.
  rewrite ?(rh_version _ _ _ _ _ Hist), ?(rh_slot_bytes _ _ _ _ _ Hist), ?(rh_slot_count _ _ _ _ _ Hist), ?Z.eqb_refl in *.
  cbn [negb] in *. rewrite ?get_rest in *. rewrite ?(rh_slot_bytes _ _ _ _ _ Hist), ?(rh_slot_count _ _ _ _ _ Hist) in *.
  replace (mkGeom (slot_bytes g) (slot_count g)) with g in * by (by destruct g).
  rewrite (proj2 (Z.eqb_neq (slot_bytes g) 0)), (proj2 (Z.eqb_neq (slot_count g) 0)), Hal in * by lia.
  cbn [orb negb Z.eqb] in *. rewrite (proj2 (Z.ltb_ge _ _)) in * by lia. rewrite ?get_rest, ?load_rest, ?Hw in *.
  cbn [negb Z.eqb] in *.
  match goal with |- context [let '(a, j) := ?c in _] =>
    assert (Hcur : exists cur j, c = (cur, j) /\ P - slot_count g <= cur <= Z.max 0 (P - slot_count g + 1) /\
              (state_at m (slot_base g cur) = kSlotClosed \/ P - slot_count g < cur)) end.
  { destruct (Z.leb_spec (slot_count g) P) as [Hle|Hgt].
    - rewrite load_rest. destruct (negb (word 8 m kOffOpenRec =? 0)); [eexists _, _; split; [reflexivity |]; split; [lia | right; lia] |].
      rewrite load_rest. destruct (Z.eqb_spec (word 1 m (slot_base g P + kSOffState)) kSlotClosed) as [Es|Es];
        eexists _, _; (split; [reflexivity |]); cbn [negb]; [| split; [lia | right; lia]].
      assert (Ec : (if slot_count g <? P then P - slot_count g else 0) = P - slot_count g) by (destruct (Z.ltb_spec (slot_count g) P); lia).
      rewrite Ec. split; [lia |]. left. unfold state_at.
      replace (slot_base g (P - slot_count g)) with (slot_base g P); [exact Es |]. unfold slot_base. f_equal. f_equal.
      rewrite Zminus_mod, Z_mod_same_full, Z.sub_0_r, Zmod_mod. done.
    - eexists _, _. split; [reflexivity |]. rewrite (proj2 (Z.ltb_ge _ _)) by lia. split; [lia | right; lia]. }
  destruct Hcur as (cur & j & Ec & H1 & H2). rewrite Ec in *. destruct O as (_ & _ & O). apply (reader_ok_rest _ _ _ 0%nat) in O.
  split; [reflexivity |]. split; [exact (conj O (conj (proj1 H1) H2)) | exact (proj2 H1)].
Qed.

End Rest.
