(* ===== verification/AuRingProps.v ===== *)
(** * AuRingProps: the writer's stores keep the ring's promise, and what that gives a reader

    The calls' meaning is a list of finished records and one being filled ([spec_call]); the stores realise it
    one by one ([good]), so at every moment the memory is a [RingHistory]. *)
From S2P Require Import Prelude Bytes Framing SliceAssembler FrameStream AuRing AuRingRead.
Local Open Scope Z_scope.
Local Open Scope mabur_scope.

(** ** What the calls mean *)

Record Au := mkAu {
  au_hdr : FrameHdr; au_sid : Z; au_nslices : Z; au_id64 : Z; au_bytes : list Z; au_seen : nat; au_over : bool;
}.

Record RingSpec := mkSpec { sp_cur : option Au; sp_recs : list Rec; sp_id : option Z }.

Definition spec0 : RingSpec := mkSpec None [] None.

Definition au_add (sb : Z) (seen : bool) (p : list Z) (a : Au) : Au :=
  if au_over a || (length p =? 0)%nat then a
  else if sb <? Z.of_nat (length (au_bytes a) + length p) then a {{ au_over := true }}
  else
    let bytes := au_bytes a ++ p in
    a {{ au_bytes := bytes ; au_seen := if seen then length bytes else au_seen a }}.

Definition au_record (n : Z) (complete : bool) (lat : AuLatMeta) (now_us : Z) (a : Au) : Rec :=
  (mkMeta n (au_id64 a) (pts_us (au_hdr a)) (Z.of_nat (length (au_bytes a))) (au_sid a)
     (Z.lor (Z.lor (flags (au_hdr a)) (if complete then kRecFlagComplete else 0))
            (if negb complete && salvaged (lat_slice lat) then kRecFlagSliceSalvaged else 0))
     (au_nslices a) (t_first_us lat) (if t_complete_us lat =? 0 then now_us else t_complete_us lat)
     (drone_q_ms lat) (lat_enc_us lat) (drone_air_ms lat) 0 0 0 default_salvage 0, au_bytes a).

Definition spec_call (sb : Z) (c : WCall) (s : RingSpec) : RingSpec :=
  match c with
  | WBegin h sid ns =>
      let id := match sp_id s with Some l => u64 (l + u16 (frame_id h - u16 l)) | None => frame_id h end in
      mkSpec (Some (mkAu h sid ns id [] 0 false)) (sp_recs s) (sp_id s)
  | WAppend p => mkSpec (au_add sb true p <$> sp_cur s) (sp_recs s) (sp_id s)
  | WUnaligned p => mkSpec (au_add sb false p <$> sp_cur s) (sp_recs s) (sp_id s)
  | WFinish complete lat now =>
      match sp_cur s with
      | None => s
      | Some a =>
          if au_over a then mkSpec None (sp_recs s) (sp_id s)
          else mkSpec None (sp_recs s ++ [au_record (Z.of_nat (length (sp_recs s))) complete lat now a]) (Some (au_id64 a))
      end
  end.

Definition spec_calls (sb : Z) (cs : list WCall) (s : RingSpec) : RingSpec := fold_left (fun s c => spec_call sb c s) cs s.

(** The records a writer's calls publish. *)
Definition published_records (sb : Z) (cs : list WCall) : list Rec := sp_recs (spec_calls sb cs spec0).

Definition wcall_typed (c : WCall) : Prop :=
  match c with
  | WBegin h _ _ => in_width 16 (frame_id h) /\ in_width 32 (pts_us h)
  | WFinish _ lat now =>
      in_width 64 (t_first_us lat) /\ in_width 64 (t_complete_us lat) /\ in_width 64 now /\
      in_width 16 (drone_q_ms lat) /\ in_width 16 (lat_enc_us lat) /\ in_width 16 (drone_air_ms lat)
  | _ => True
  end.

(** ** Stores *)

(** Memories are functions: equal where they are read. *)
Definition mem_eq : relation Mem := pointwise_relation Z eq.
#[export] Instance mem_eq_equiv : Equivalence mem_eq.
Proof. unfold mem_eq. apply _. Qed.

#[export] Instance apply_store_proper : Proper (mem_eq ==> eq ==> mem_eq) apply_store.
Proof. intros m m' Hm s _ <- a. unfold apply_store. destruct (_ && _); [done | apply Hm]. Qed.

#[export] Instance apply_stores_proper : Proper (mem_eq ==> eq ==> mem_eq) apply_stores.
Proof.
  intros m m' Hm ss _ <-. revert m m' Hm. induction ss as [|s ss IH]; intros m m' Hm; [done |]. apply IH. by rewrite Hm.
Qed.

#[export] Instance word_proper n : Proper (mem_eq ==> eq ==> eq) (word n).
Proof. intros m m' Hm o _ <-. unfold word, sub. f_equal. apply map_ext. intros k. apply Hm. Qed.

#[export] Instance sub_proper : Proper (mem_eq ==> eq ==> eq ==> eq) sub.
Proof. intros m m' Hm o _ <- n _ <-. apply map_ext. intros k. apply Hm. Qed.

Definition upd (m : Mem) (off : Z) (bs : list Z) : Mem := apply_store m (mkStore off bs).

#[export] Instance upd_proper : Proper (mem_eq ==> eq ==> eq ==> mem_eq) upd.
Proof. intros m m' Hm o _ <- bs _ <-. unfold upd. by rewrite Hm. Qed.

Lemma apply_stores_app m s1 s2 : apply_stores m (s1 ++ s2) = apply_stores (apply_stores m s1) s2.
Proof. apply fold_left_app. Qed.

Lemma put_cons off b bs : put off (b :: bs) = mkStore off [b] :: put (off + 1) bs.
Proof.
  unfold put. cbn [imap]. f_equal; [by rewrite Z.add_0_r |]. apply imap_ext. intros i x _. cbn. f_equal. lia.
Qed.

(** Byte by byte or at once, the memory after is the same. *)
Lemma apply_put m off bs : mem_eq (apply_stores m (put off bs)) (upd m off bs).
Proof.
  revert m off. induction bs as [|b bs IH]; intros m off a.
  - unfold upd, apply_store. cbn [st_off st_bytes length]. rewrite Z.add_0_r. destruct (Z.leb_spec off a), (Z.ltb_spec a off); cbn; first [lia | done].
  - rewrite put_cons. cbn [apply_stores fold_left]. fold (apply_stores (apply_store m (mkStore off [b])) (put (off + 1) bs)).
    rewrite IH. unfold upd, apply_store. cbn [st_off st_bytes length].
    destruct (Z.leb_spec (off + 1) a), (Z.ltb_spec a (off + 1 + Z.of_nat (length bs))),
      (Z.leb_spec off a), (Z.ltb_spec a (off + Z.of_nat (S (length bs)))), (Z.ltb_spec a (off + Z.of_nat 1)); cbn [andb]; try lia; try done.
    + replace (Z.to_nat (a - off)) with (S (Z.to_nat (a - (off + 1)))) by lia. done.
    + replace (a - off) with 0 by lia. done.
Qed.

Lemma apply_atomic m off bs : apply_stores m (atomic off bs) = upd m off bs.
Proof. done. Qed.

Lemma upd_agree m off bs o n : off + Z.of_nat (length bs) <= o \/ o + n <= off -> agree m (upd m off bs) o n.
Proof.
  intros Hd a Ha. unfold upd, apply_store. cbn. destruct (Z.leb_spec off a), (Z.ltb_spec a (off + Z.of_nat (length bs))); try done. lia.
Qed.

Lemma word_out n m off bs o : off + Z.of_nat (length bs) <= o \/ o + Z.of_nat n <= off -> word n (upd m off bs) o = word n m o.
Proof. intros Hd. apply (agree_word _ _ o (Z.of_nat n)); [by apply upd_agree | lia | lia]. Qed.

Lemma sub_out n m off bs o : off + Z.of_nat (length bs) <= o \/ o + Z.of_nat n <= off -> sub (upd m off bs) o n = sub m o n.
Proof. intros Hd. apply (agree_sub _ _ o (Z.of_nat n)); [by apply upd_agree | lia | lia]. Qed.

Lemma sub_in m off bs : sub (upd m off bs) off (length bs) = bs.
Proof.
  apply list_eq. intros k. unfold sub. change (map ?f ?l) with (f <$> l). rewrite list_lookup_fmap.
  destruct (decide (k < length bs)%nat) as [Hk|Hk].
  - rewrite lookup_seq_lt by done. destruct (lookup_lt_is_Some_2 bs k Hk) as [x Hx]. rewrite Hx. cbn. f_equal.
    unfold upd, apply_store. cbn [st_off st_bytes].
    rewrite (proj2 (Z.leb_le _ _)), (proj2 (Z.ltb_lt _ _)) by lia. cbn.
    replace (Z.to_nat (off + Z.of_nat k - off)) with k by lia. by apply nth_lookup_Some.
  - rewrite lookup_seq_ge by lia. cbn. symmetry. apply lookup_ge_None. lia.
Qed.

Lemma word_in m off bs n : n = length bs -> word n (upd m off bs) off = le_val bs.
Proof. intros ->. unfold word. by rewrite sub_in. Qed.

Lemma sub_snoc m off n bs :
  sub (upd m (off + Z.of_nat n) bs) off (n + length bs) = sub m off n ++ bs.
Proof.
  transitivity (sub (upd m (off + Z.of_nat n) bs) off n ++ sub (upd m (off + Z.of_nat n) bs) (off + Z.of_nat n) (length bs)).
  - unfold sub. rewrite seq_app, map_app. f_equal. replace (seq (0 + n) (length bs)) with (Nat.add n <$> seq 0 (length bs)) by (rewrite fmap_add_seq; f_equal; lia).
    change (map ?f ?l) with (f <$> l). rewrite <- list_fmap_compose. apply list_fmap_ext. intros _ k _. cbn. f_equal. lia.
  - rewrite sub_in, sub_out by lia. done.
Qed.

Lemma le_val_put16 v : in_width 16 v -> le_val (put16 v) = v.
Proof. intros H. unfold put16, le_val. cbn [foldr]. to_arith. mlia. Qed.

Lemma le_val_put32 v : in_width 32 v -> le_val (put32 v) = v.
Proof. intros H. unfold put32, le_val. cbn [foldr]. to_arith. mlia. Qed.

Lemma le_val_app a b : le_val (a ++ b) = le_val a + 256 ^ Z.of_nat (length a) * le_val b.
Proof.
  induction a as [|x a IH]; [change (256 ^ Z.of_nat (length [])) with 1; cbn [app]; change (le_val []) with 0; lia |].
  change (x + 256 * le_val (a ++ b) = x + 256 * le_val a + 256 ^ Z.of_nat (S (length a)) * le_val b). rewrite IH.
  rewrite Nat2Z.inj_succ, Z.pow_succ_r by lia. ring.
Qed.

Lemma le_val_put64 v : in_width 64 v -> le_val (put64 v) = v.
Proof.
  intros H. unfold put64. rewrite le_val_app. change (256 ^ Z.of_nat (length (put32 (Z.land v (2 ^ 32 - 1))))) with (2 ^ 32).
  change (2 ^ 32 - 1) with (Z.ones 32). rewrite Z.land_ones, Z.shiftr_div_pow2 by lia. unfold in_width in H.
  rewrite !le_val_put32 by (unfold in_width; mlia). mlia.
Qed.

(** ** Steps of a history *)

Definition within (lo hi : Z) (s : Store) : Prop := lo <= st_off s /\ st_off s + Z.of_nat (length (st_bytes s)) <= hi.

Lemma within_agree lo hi s m o n : within lo hi s -> hi <= o \/ o + n <= lo -> agree m (apply_store m s) o n.
Proof. intros [? ?] Hd. destruct s as [off bs]. apply (upd_agree m off bs). cbn in *. lia. Qed.

Lemma put_within off bs : Forall (within off (off + Z.of_nat (length bs))) (put off bs).
Proof.
  revert off. induction bs as [|b bs IH]; intros off; [constructor |]. rewrite put_cons. constructor.
  - split; cbn; lia.
  - eapply Forall_impl; [apply IH |]. intros s [? ?]. split; cbn [length] in *; lia.
Qed.

Lemma within_weaken lo hi lo' hi' ss : lo' <= lo -> hi <= hi' -> Forall (within lo hi) ss -> Forall (within lo' hi') ss.
Proof. intros ? ? H. eapply Forall_impl; [exact H |]. intros s [? ?]. split; lia. Qed.

Section Writer.
Context (g : AuRingGeom).
Hypothesis Hsb : 0 <= slot_bytes g < 2 ^ 32.
Hypothesis Hsc : 0 < slot_count g.

Notation lock i m := (lock_of g i m).
Notation addr i := (slot_addr g i).
Notation wseq m := (word 8 m kOffWriteSeq).

Lemma addr_above i : 0 <= i -> kAuRingHdrBytes <= addr i.
Proof using Hsb. intros. unfold slot_addr, slot_stride, kAuSlotHdrBytes. nia. Qed.

Lemma addr_apart i j : i <> j -> addr i + slot_stride g <= addr j \/ addr j + slot_stride g <= addr i.
Proof using Hsb. intros. unfold slot_addr, slot_stride, kAuSlotHdrBytes. destruct (Z.lt_total i j) as [?|[?|?]]; nia. Qed.

Lemma stride_big : 64 <= slot_stride g.
Proof using Hsb. unfold slot_stride, kAuSlotHdrBytes. lia. Qed.

Lemma meta_agree m m' slot : agree m m' (slot + 4) 60 -> meta_at m' slot = meta_at m slot /\ state_at m' slot = state_at m slot.
Proof using.
  intros Ha. unfold meta_at, state_at, kSOffLen, kSOffRecNo, kSOffFrameId, kSOffPts, kSOffSid, kSOffFlags, kSOffNslices,
    kSOffTFirst, kSOffTComplete, kSOffDroneQ, kSOffEncUs, kSOffAirMs, kSOffState.
  rewrite !(agree_word m m' (slot + 4) 60) by (done || lia). done.
Qed.

Lemma lock_agree m m' i : agree m m' (addr i) (slot_stride g) -> lock i m' = lock i m.
Proof using Hsb. intros Ha. pose proof stride_big. apply (agree_word m m' (addr i) (slot_stride g)); [done | |]; unfold kSOffLock; lia. Qed.

Lemma holds_agree m m' i n rec : agree m m' (addr i) (slot_stride g) -> holds g m i n rec -> holds g m' i n rec.
Proof using Hsb.
  intros Ha (H1 & H2 & H3 & H4 & H5). pose proof stride_big. split; [| split; [done | split; [done | split; [done |]]]].
  - rewrite <- H1. apply meta_agree. intros a ?. apply Ha. lia.
  - rewrite <- H5 at 2. apply (agree_sub m m' (addr i) (slot_stride g)); [done | |]; unfold slot_stride, kAuSlotHdrBytes; lia.
Qed.

Lemma slot_ok_agree recs p m m' i :
  agree m m' (addr i) (slot_stride g) -> slot_ok g recs p m i -> slot_ok g recs p m' i.
Proof using Hsb.
  intros Ha. pose proof stride_big. unfold slot_ok. rewrite (lock_agree m m' i Ha).
  destruct (meta_agree m m' (addr i)) as [-> ->]; [intros a ?; apply Ha; lia |].
  destruct (Z.odd _); [done |]. intros [?|[?|(? & n & rec & ? & ? & ? & ? & Hh)]]; [by left | right; by left | right; right].
  split; [done |]. exists n, rec. split; [done |]. split; [done |]. split; [done |]. split; [done |]. by eapply holds_agree.
Qed.

Lemma slot_ok_more recs recs' p m i : recs `prefix_of` recs' -> slot_ok g recs p m i -> slot_ok g recs' p m i.
Proof using.
  intros Hp. unfold slot_ok. destruct (Z.odd _); [done |]. intros [?|[?|(? & n & rec & Hl & ?)]]; [by left | right; by left | right; right].
  split; [done |]. exists n, rec. split; [by eapply prefix_lookup_Some | done].
Qed.

(** One more record published: the other slots were not the next one. *)
Lemma slot_ok_next recs p m i :
  0 <= p -> 0 <= i < slot_count g -> i <> p mod slot_count g -> slot_ok g recs p m i -> slot_ok g recs (p + 1) m i.
Proof using Hsc.
  intros Hp Hi Hne. unfold slot_ok. destruct (Z.odd _); [lia |]. intros [(? & Hpi)|[(? & ? & ?)|(? & n & rec & Hl & Hn & Hr & Hm & Hh)]].
  - left. split; [done |]. assert (p mod slot_count g = p) by (apply Z.mod_small; lia). lia.
  - lia.
  - right; right. split; [done |]. exists n, rec. split; [done |]. split; [done |]. split; [| done].
    assert (n <> p - slot_count g); [| lia]. intros ->. rewrite Zminus_mod, Z_mod_same_full, Z.sub_0_r, Zmod_mod in Hm. lia.
Qed.

Definition snap (recs : list Rec) (p : Z) (m : Mem) : Prop :=
  0 <= p <= Z.of_nat (length recs) /\ p - 1 <= wseq m <= p /\ forall i, 0 <= i < slot_count g -> slot_ok g recs p m i.

Record hist_step (recs : list Rec) (p : Z) (m : Mem) (s : Store) (p' : Z) : Prop := mkStep {
  hs_pub : p <= p';
  hs_snap : snap recs p' (apply_store m s);
  hs_wseq : wseq m <= wseq (apply_store m s);
  hs_layout : agree m (apply_store m s) 0 16;
  hs_stamp : agree m (apply_store m s) kOffEpoch 8;
  hs_lock : forall i, 0 <= i < slot_count g -> lock i (apply_store m s) = lock i m \/ lock i (apply_store m s) = lock i m + 1;
  hs_still : forall i, 0 <= i < slot_count g -> lock i (apply_store m s) = lock i m -> Z.odd (lock i m) = false ->
    agree m (apply_store m s) (addr i) (slot_stride g);
}.

Inductive good (recs : list Rec) : Z -> Mem -> list Store -> Z -> Prop :=
| good_nil p m : good recs p m [] p
| good_cons p m s ss p1 p' : hist_step recs p m s p1 -> good recs p1 (apply_store m s) ss p' -> good recs p m (s :: ss) p'.

Lemma good_app recs p m s1 p1 s2 p2 :
  good recs p m s1 p1 -> good recs p1 (apply_stores m s1) s2 p2 -> good recs p m (s1 ++ s2) p2.
Proof using. induction 1; [done |]. intros ?. econstructor; eauto. Qed.

Lemma good_one recs p m s p' : hist_step recs p m s p' -> good recs p m [s] p'.
Proof using. intros. econstructor; [done | constructor]. Qed.

(** A store in the slot being filled. *)
Lemma step_slot recs p m s p' :
  snap recs p m -> p <= p' <= Z.of_nat (length recs) -> p' - 1 <= wseq m <= p' ->
  let i := p mod slot_count g in
  within (addr i) (addr i + slot_stride g) s ->
  (p' = p \/ p' = p + 1) -> slot_ok g recs p' (apply_store m s) i ->
  (lock i (apply_store m s) = lock i m /\ Z.odd (lock i m) = true) \/ lock i (apply_store m s) = lock i m + 1 ->
  hist_step recs p m s p'.
Proof using Hsb Hsc.
  intros (Hp & Hw & Hs) Hp' Hw' i Hin Hpp Hi Hl. assert (Hir : 0 <= i < slot_count g) by (by apply Z.mod_pos_bound).
  pose proof (addr_above i ltac:(lia)) as Hab. unfold kAuRingHdrBytes in Hab. pose proof stride_big.
  assert (Hother : forall j, j <> i -> agree m (apply_store m s) (addr j) (slot_stride g)).
  { intros j Hj. eapply within_agree; [exact Hin |]. destruct (addr_apart i j); [lia | lia | lia]. }
  assert (Ew : wseq (apply_store m s) = wseq m).
  { apply (agree_word _ _ 16 8); [| unfold kOffWriteSeq; lia ..]. eapply within_agree; [exact Hin | lia]. }
  split.
  - lia.
  - split; [lia |]. rewrite Ew. split; [done |]. intros j Hj. destruct (decide (j = i)) as [->|Hne]; [done |].
    apply (slot_ok_agree _ _ m); [by apply Hother |]. destruct Hpp as [->| ->]; [by apply Hs |]. apply slot_ok_next; [lia | lia | done | by apply Hs].
  - lia.
  - eapply within_agree; [exact Hin | lia].
  - eapply within_agree; [exact Hin | unfold kOffEpoch; lia].
  - intros j Hj. destruct (decide (j = i)) as [->|Hne]; [destruct Hl as [[? _]|?]; auto |]. left. apply lock_agree. by apply Hother.
  - intros j Hj He Ho. destruct (decide (j = i)) as [->|Hne]; [| by apply Hother]. destruct Hl as [[_ Hl]|Hl]; [congruence | lia].
Qed.

(** A store in the file's header, past the layout and off the epoch. *)
Lemma step_header recs p m s :
  snap recs p m -> within 16 32 s \/ within 40 48 s -> wseq m <= wseq (apply_store m s) -> p - 1 <= wseq (apply_store m s) <= p ->
  hist_step recs p m s p.
Proof using Hsb.
  intros (Hp & Hw & Hs) Hin Hle Hw'.
  assert (Hag : forall o n, o + n <= 16 \/ 48 <= o \/ (o = 32 /\ n = 8) -> agree m (apply_store m s) o n).
  { intros o n Hon. destruct Hin as [Hin|Hin]; (eapply within_agree; [exact Hin | lia]). }
  assert (Hsl : forall i, 0 <= i < slot_count g -> agree m (apply_store m s) (addr i) (slot_stride g)).
  { intros i Hi. apply Hag. pose proof (addr_above i ltac:(lia)). unfold kAuRingHdrBytes in *. lia. }
  split; [lia | | done | apply Hag; lia | apply Hag; unfold kOffEpoch; lia | |].
  - split; [done |]. split; [done |]. intros i Hi. by apply (slot_ok_agree _ _ m); [apply Hsl | apply Hs].
  - intros i Hi. left. by apply lock_agree, Hsl.
  - intros i Hi _ _. by apply Hsl.
Qed.

(** The stores into the body of a slot whose lock is odd. *)
Lemma good_body recs p ss m :
  snap recs p m -> let i := p mod slot_count g in Z.odd (lock i m) = true ->
  Forall (within (addr i + 4) (addr i + slot_stride g)) ss ->
  good recs p m ss p /\ snap recs p (apply_stores m ss) /\ lock i (apply_stores m ss) = lock i m /\
  wseq (apply_stores m ss) = wseq m.
Proof using Hsb Hsc.
  intros Hs i Ho Hf. revert m Hs Ho. induction Hf as [|s ss Hin Hf IH]; intros m Hs Ho; [by repeat split; constructor || apply Hs |].
  assert (Hir : 0 <= i < slot_count g) by (by apply Z.mod_pos_bound). pose proof (addr_above i ltac:(lia)) as Hab.
  unfold kAuRingHdrBytes in Hab.
  assert (El : lock i (apply_store m s) = lock i m).
  { apply (agree_word _ _ (addr i) 4); [eapply within_agree; [exact Hin | lia] | unfold kSOffLock; lia ..]. }
  assert (Ew : wseq (apply_store m s) = wseq m).
  { apply (agree_word _ _ 16 8); [| unfold kOffWriteSeq; lia ..]. eapply within_agree; [exact Hin | lia]. }
  pose proof Hs as (Hp & Hw & Hs'). assert (Hst : hist_step recs p m s p).
  { apply step_slot; [done | lia | done | destruct Hin; fold i; split; lia | by left | | left; exact (conj El Ho)].
    fold i. unfold slot_ok. rewrite El, Ho. done. }
  destruct (IH (apply_store m s) (hs_snap _ _ _ _ _ Hst)) as (G1 & G2 & G3 & G4); [by rewrite El |].
  split; [econstructor; [exact Hst | exact G1] |]. split; [exact G2 |]. split; [by rewrite <- El |]. by rewrite <- Ew.
Qed.

(** ** What the writer keeps between its calls *)

Record Base (b : Z) (m : Mem) (w : AuRingWriter) (s : RingSpec) : Prop := mkBase {
  bs_map : w_map w = true;
  bs_geom : w_geom w = g;
  bs_pub : published_ w = Z.of_nat (length (sp_recs s));
  bs_small : Z.of_nat (length (sp_recs s)) < 2 ^ 31;
  bs_id : if have_id_ w then sp_id s = Some (w_last_id_ w) else sp_id s = None;
  bs_wseq : wseq m = published_ w;
  bs_snap : snap (sp_recs s) (published_ w) m;
  bs_lock : forall i, 0 <= i < slot_count g -> 0 <= lock i m <= b;
}.

Definition cur_slot (w : AuRingWriter) : Z := published_ w mod slot_count g.

(** The frame being filled, in the writer's hands and in its slot. *)
Record filling (m : Mem) (w : AuRingWriter) (a : Au) : Prop := mkFilling {
  fl_in : in_au_ w = true;
  fl_slot : slot_ w = addr (cur_slot w);
  fl_lock : lock_ w = lock (cur_slot w) m;
  fl_odd : Z.odd (lock_ w) = true;
  fl_hdr : w_hdr w = au_hdr a;
  fl_sid : w_sid w = au_sid a;
  fl_ns : w_nslices w = au_nslices a;
  fl_over : overflow_ w = au_over a;
  fl_id : cur_id64_ w = au_id64 a;
  fl_id_typed : in_width 64 (au_id64 a);
  fl_copied : copied_ w = Z.of_nat (length (au_bytes a));
  fl_fits : copied_ w <= slot_bytes g;
  fl_m_len : word 4 m (slot_ w + kSOffLen) = 0;
  fl_m_rec : word 8 m (slot_ w + kSOffRecNo) = published_ w;
  fl_m_id : word 8 m (slot_ w + kSOffFrameId) = au_id64 a;
  fl_m_pts : word 4 m (slot_ w + kSOffPts) = pts_us (au_hdr a);
  fl_m_sid : word 1 m (slot_ w + kSOffSid) = au_sid a;
  fl_m_ns : word 1 m (slot_ w + kSOffNslices) = au_nslices a;
  fl_m_bytes : sub m (slot_ w + kAuSlotHdrBytes) (length (au_bytes a)) = au_bytes a;
}.

Definition cur_ok (m : Mem) (w : AuRingWriter) (s : RingSpec) : Prop :=
  match sp_cur s with
  | None => in_au_ w = false /\ Z.odd (lock (cur_slot w) m) = false
  | Some a => filling m w a
  end.

Definition Rel (k : nat) (m : Mem) (w : AuRingWriter) (s : RingSpec) : Prop :=
  Base (2 * Z.of_nat k) m w s /\ cur_ok m w s /\ (length (sp_recs s) <= k)%nat.

Lemma cur_slot_range w : 0 <= cur_slot w < slot_count g.
Proof using Hsc. by apply Z.mod_pos_bound. Qed.

Lemma cur_slot_addr w : 4096 <= addr (cur_slot w).
Proof using Hsb Hsc. pose proof (cur_slot_range w). pose proof (addr_above (cur_slot w)). unfold kAuRingHdrBytes in *. lia. Qed.

(** The stores of a call: the slot being filled, or the file's header past the layout. *)
Definition own (i : Z) (s : Store) : Prop := within (addr i) (addr i + slot_stride g) s \/ within 16 48 s.

Lemma own_agree i j ss m : 0 <= j -> j <> i -> Forall (own i) ss -> agree m (apply_stores m ss) (addr j) (slot_stride g).
Proof using Hsb.
  intros Hj Hne Hf. revert m. induction Hf as [|s ss Hs Hf IH]; intros m; [apply agree_refl |].
  apply (agree_trans _ (apply_store m s)); [| apply IH]. pose proof (addr_above j Hj). unfold kAuRingHdrBytes in *.
  destruct Hs as [Hs|Hs]; (eapply within_agree; [exact Hs |]); [destruct (addr_apart i j); lia | lia].
Qed.

Lemma body_own i ss : Forall (within (addr i + 4) (addr i + slot_stride g)) ss -> Forall (own i) ss.
Proof using. intros H. eapply Forall_impl; [exact H |]. intros s [? ?]. left. split; lia. Qed.

(** The lock word. *)
Definition lock_store (i v : Z) : Store := mkStore (addr i + kSOffLock) (put32 v).

Lemma lock_store_within i v : within (addr i) (addr i + slot_stride g) (lock_store i v).
Proof using Hsb. pose proof stride_big. split; cbn; unfold kSOffLock; lia. Qed.

Lemma lock_stored i v m : in_width 32 v -> lock i (apply_store m (lock_store i v)) = v.
Proof using.
  intros Hv. unfold lock_of, lock_store. change (apply_store m (mkStore ?o ?bs)) with (upd m o bs).
  rewrite word_in by done. by apply le_val_put32.
Qed.

Lemma lock_stored_agree i v m o n : addr i + 4 <= o -> agree m (apply_store m (lock_store i v)) o n.
Proof using. intros Ho. apply (upd_agree m (addr i + kSOffLock)). cbn. unfold kSOffLock. lia. Qed.

(** Claiming the next slot. *)
Lemma step_claim recs p m :
  snap recs p m -> p - 1 <= wseq m <= p -> Z.odd (lock (p mod slot_count g) m) = false ->
  in_width 32 (lock (p mod slot_count g) m + 1) ->
  hist_step recs p m (lock_store (p mod slot_count g) (lock (p mod slot_count g) m + 1)) p.
Proof using Hsb Hsc.
  intros Hs Hw Ho Hv. pose proof Hs as (Hp & _). apply step_slot; [done | lia | done | apply lock_store_within | by left | |].
  - unfold slot_ok. rewrite lock_stored by done. rewrite Z.odd_add, Ho. done.
  - right. by rewrite lock_stored.
Qed.

(** Giving the slot up. *)
Lemma step_abort recs p m :
  let i := p mod slot_count g in
  snap recs p m -> Z.odd (lock i m) = true -> in_width 32 (lock i m + 1) ->
  state_at m (addr i) = kSlotAborted -> word 4 m (addr i + kSOffLen) = 0 ->
  hist_step recs p m (lock_store i (lock i m + 1)) p.
Proof using Hsb Hsc.
  intros i Hs Ho Hv Hst Hlen. pose proof Hs as (Hp & Hw & _). pose proof stride_big.
  apply step_slot; [done | lia | done | apply lock_store_within | by left | |].
  - fold i. unfold slot_ok. rewrite lock_stored by done. rewrite Z.odd_add, Ho. cbn [xorb Z.odd]. right; left.
    destruct (meta_agree m (apply_store m (lock_store i (lock i m + 1))) (addr i)) as [-> ->]; [apply lock_stored_agree; lia |].
    done.
  - right. by rewrite lock_stored.
Qed.

(** Publishing the record. *)
Lemma step_publish recs p m rec :
  let i := p mod slot_count g in
  snap recs p m -> wseq m = p -> Z.odd (lock i m) = true -> in_width 32 (lock i m + 1) ->
  recs !! Z.to_nat p = Some rec -> state_at m (addr i) = kSlotClosed -> holds g m i p rec ->
  hist_step recs p m (lock_store i (lock i m + 1)) (p + 1).
Proof using Hsb Hsc.
  intros i Hs Hw Ho Hv Hl Hst Hh. pose proof Hs as (Hp & _ & _). pose proof stride_big. pose proof (lookup_lt_Some _ _ _ Hl).
  apply step_slot; [done | lia | lia | apply lock_store_within | by right | |].
  - fold i. unfold slot_ok. rewrite lock_stored by done. rewrite Z.odd_add, Ho. cbn [xorb Z.odd]. right; right.
    assert (Ha : agree m (apply_store m (lock_store i (lock i m + 1))) (addr i + 4) (slot_stride g - 4)) by (apply lock_stored_agree; lia).
    destruct Hh as (H1 & H2 & H3 & H4 & H5). split.
    + rewrite <- Hst. unfold state_at, kSOffState. apply (agree_word _ _ (addr i + 4) (slot_stride g - 4)); [done | lia | lia].
    + exists p, rec. split; [done |]. split; [lia |]. split; [lia |]. split; [done |].
      split; [| split; [done | split; [done | split; [done |]]]].
      * rewrite <- H1. apply meta_agree. intros a ?. apply Ha. lia.
      * rewrite <- H5 at 2. apply (agree_sub _ _ (addr i + 4) (slot_stride g - 4)); [done | |]; unfold slot_stride, kAuSlotHdrBytes; lia.
  - right. by rewrite lock_stored.
Qed.

(** ** Bytes of a frame *)

Lemma base_ext b m w s w' s' :
  Base b m w s -> w_map w' = w_map w -> w_geom w' = w_geom w -> published_ w' = published_ w -> have_id_ w' = have_id_ w ->
  w_last_id_ w' = w_last_id_ w -> sp_recs s' = sp_recs s -> sp_id s' = sp_id s -> Base b m w' s'.
Proof using. intros [] E1 E2 E3 E4 E5 E6 E7. split; rewrite ?E1, ?E2, ?E3, ?E4, ?E5, ?E6, ?E7; done. Qed.

Lemma base_body b m w s recs ss :
  Base b m w s -> sp_recs s `prefix_of` recs -> Z.odd (lock (cur_slot w) m) = true ->
  Forall (within (addr (cur_slot w) + 4) (addr (cur_slot w) + slot_stride g)) ss ->
  good recs (published_ w) m ss (published_ w) /\ Base b (apply_stores m ss) w s /\
  lock (cur_slot w) (apply_stores m ss) = lock (cur_slot w) m.
Proof using Hsb Hsc.
  intros Hb Hp Ho Hf. pose proof (good_body (sp_recs s) (published_ w) ss m (bs_snap _ _ _ _ Hb) Ho Hf) as (_ & G2 & G3 & G4).
  assert (Hsr : snap recs (published_ w) m).
  { destruct (bs_snap _ _ _ _ Hb) as (S1 & S2 & S3). pose proof (prefix_length _ _ Hp). split; [lia |]. split; [done |].
    intros i Hi. eapply slot_ok_more; eauto. }
  split; [by apply (good_body recs (published_ w) ss m Hsr Ho Hf) |]. split; [| done].
  destruct Hb. split; try done; [by rewrite G4 |]. intros i Hi. destruct (decide (i = cur_slot w)) as [->|Hne].
  - unfold cur_slot in *. rewrite G3. auto.
  - rewrite (lock_agree m _ i); [auto |]. apply (own_agree (cur_slot w)); [lia | done |]. by apply body_own.
Qed.

(** The word reads behind a store into the payload or the state. *)
Ltac mem_out := first [rewrite word_out by (cbn [length put16 put32 put64 app]; unfold kSOffLock, kSOffLen, kSOffRecNo,
  kSOffFrameId, kSOffPts, kSOffSid, kSOffFlags, kSOffTFirst, kSOffTComplete, kSOffDroneQ, kSOffEncUs, kSOffAirMs, kSOffState,
  kSOffNslices, kSOffValidLen, kAuSlotHdrBytes; lia)
  | rewrite sub_out by (cbn [length put16 put32 put64 app]; unfold kSOffState, kSOffValidLen, kAuSlotHdrBytes; lia)].

(** Stores past the fields a record is made of: the state, the visible length. *)
Lemma filling_upd m w a o bs :
  filling m w a -> slot_ w + 54 <= o -> o + Z.of_nat (length bs) <= slot_ w + 55 \/ slot_ w + 56 <= o ->
  o + Z.of_nat (length bs) <= slot_ w + 64 ->
  filling (upd m o bs) w a.
Proof using.
  intros [] Ho1 Ho2 Ho3. assert (Hm : forall n off, off + Z.of_nat n <= slot_ w + 54 \/ (off = slot_ w + 55 /\ n = 1%nat) ->
    word n (upd m o bs) off = word n m off) by (intros n off Hn; apply word_out; lia).
  split; try done; try (rewrite Hm; [done |]; unfold kSOffLen, kSOffRecNo, kSOffFrameId, kSOffPts, kSOffSid, kSOffNslices; lia).
  - rewrite fl_lock0. unfold lock_of. rewrite Hm; [done |]. rewrite <- fl_slot0. unfold kSOffLock. lia.
  - rewrite sub_out by (unfold kAuSlotHdrBytes; lia). done.
Qed.

Lemma filling_bytes m w a p :
  filling m w a -> copied_ w + Z.of_nat (length p) <= slot_bytes g ->
  filling (upd m (slot_ w + kAuSlotHdrBytes + copied_ w) p) (w {{ copied_ := copied_ w + Z.of_nat (length p) }})
    (a {{ au_bytes := au_bytes a ++ p }}).
Proof using.
  intros [] Hp.
  assert (Hm : forall n off, off + Z.of_nat n <= slot_ w + 64 ->
    word n (upd m (slot_ w + kAuSlotHdrBytes + copied_ w) p) off = word n m off)
    by (intros n off Hn; apply word_out; unfold kAuSlotHdrBytes; lia).
  assert (Hl : lock (cur_slot w) (upd m (slot_ w + kAuSlotHdrBytes + copied_ w) p) = lock (cur_slot w) m).
  { unfold lock_of. apply Hm. rewrite <- fl_slot0. unfold kSOffLock. lia. }
  assert (Hb : sub (upd m (slot_ w + kAuSlotHdrBytes + copied_ w) p) (slot_ w + kAuSlotHdrBytes) (length (au_bytes a ++ p)) = au_bytes a ++ p).
  { rewrite length_app, fl_copied0, sub_snoc, fl_m_bytes0. done. }
  unfold cur_slot in *. destruct w, a; cbn in *; unfold constant. split; cbn; try done;
    try (rewrite Hm; [done |]; unfold kSOffLen, kSOffRecNo, kSOffFrameId, kSOffPts, kSOffSid, kSOffNslices; lia).
  - unfold cur_slot. cbn. congruence.
  - rewrite length_app. lia.
Qed.

(** Leaving the slot's words alone, a writer and a frame that agree on what counts. *)
Lemma filling_ext m w a w' a' :
  filling m w a -> in_au_ w' = in_au_ w -> slot_ w' = slot_ w -> lock_ w' = lock_ w -> w_hdr w' = w_hdr w -> w_sid w' = w_sid w ->
  w_nslices w' = w_nslices w -> overflow_ w' = au_over a' -> cur_id64_ w' = cur_id64_ w -> copied_ w' = copied_ w ->
  published_ w' = published_ w -> au_hdr a' = au_hdr a -> au_sid a' = au_sid a -> au_nslices a' = au_nslices a ->
  au_id64 a' = au_id64 a -> au_bytes a' = au_bytes a -> filling m w' a'.
Proof using.
  intros [] E1 E2 E3 E4 E5 E6 E7 E8 E9 E10 A1 A2 A3 A4 A5.
  split; unfold cur_slot in *; rewrite ?E1, ?E2, ?E3, ?E4, ?E5, ?E6, ?E7, ?E8, ?E9, ?E10, ?A1, ?A2, ?A3, ?A4, ?A5; done.
Qed.

Lemma filling_agree m m' w a :
  agree m m' (slot_ w) (slot_stride g) -> filling m w a -> filling m' w a.
Proof using Hsb.
  intros E []. pose proof stride_big. unfold kSOffLen, kSOffRecNo, kSOffFrameId, kSOffPts, kSOffSid, kSOffNslices in *.
  assert (Hl : lock (cur_slot w) m' = lock (cur_slot w) m) by (apply lock_agree; by rewrite <- fl_slot0).
  assert (Hm : forall n o, slot_ w <= o -> o + Z.of_nat n <= slot_ w + 64 -> word n m' o = word n m o).
  { intros n o ? ?. apply (agree_word m m' (slot_ w) (slot_stride g)); [done | lia | lia]. }
  assert (Hb : sub m' (slot_ w + kAuSlotHdrBytes) (length (au_bytes a)) = sub m (slot_ w + kAuSlotHdrBytes) (length (au_bytes a))).
  { apply (agree_sub m m' (slot_ w) (slot_stride g)); [done | |]; unfold slot_stride, kAuSlotHdrBytes; lia. }
  split; rewrite ?Hl, ?Hb; unfold kSOffLen, kSOffRecNo, kSOffFrameId, kSOffPts, kSOffSid, kSOffNslices; first [done | rewrite Hm by lia; done].
Qed.

Lemma filling_eq m m' w a : mem_eq m' m -> filling m w a -> filling m' w a.
Proof using Hsb. intros E. apply filling_agree. intros x _. apply E. Qed.

(** ** Copying *)

Definition call_ok (k : nat) (m : Mem) (w : AuRingWriter) (s : RingSpec) (ss : list Store) (w' : AuRingWriter) (s' : RingSpec) : Prop :=
  (forall recs, sp_recs s' `prefix_of` recs ->
     good recs (Z.of_nat (length (sp_recs s))) m ss (Z.of_nat (length (sp_recs s')))) /\
  Rel (S k) (apply_stores m ss) w' s'.

Lemma base_weaken b b' m w s : b <= b' -> Base b m w s -> Base b' m w s.
Proof using. intros Hb []. split; try done. intros i Hi. specialize (bs_lock0 i Hi). lia. Qed.

Lemma fl_locked m w a : filling m w a -> Z.odd (lock (cur_slot w) m) = true.
Proof using. intros []. by rewrite <- fl_lock0. Qed.

(** A call that only stores into the body of the slot. *)
Lemma body_call k m w s a ss w' a' :
  Rel k m w s -> sp_cur s = Some a ->
  Forall (within (addr (cur_slot w) + 4) (addr (cur_slot w) + slot_stride g)) ss ->
  w_map w' = w_map w -> w_geom w' = w_geom w -> published_ w' = published_ w -> have_id_ w' = have_id_ w ->
  w_last_id_ w' = w_last_id_ w -> filling (apply_stores m ss) w' a' ->
  call_ok k m w s ss w' (mkSpec (Some a') (sp_recs s) (sp_id s)).
Proof using Hsb Hsc.
  intros (Hb & Hc & Hk) Ha Hf E1 E2 E3 E4 E5 Hf'. unfold cur_ok in Hc. rewrite Ha in Hc.
  split.
  - intros recs Hp. cbn [sp_recs] in *. rewrite <- (bs_pub _ _ _ _ Hb).
    by apply (base_body _ m w s recs ss Hb Hp (fl_locked _ _ _ Hc) Hf).
  - destruct (base_body _ m w s (sp_recs s) ss Hb ltac:(done) (fl_locked _ _ _ Hc) Hf) as (_ & B & _).
    split; [| split; [exact Hf' | cbn; lia]].
    apply (base_weaken (2 * Z.of_nat k)); [lia |]. by apply (base_ext _ _ w s).
Qed.

Lemma idle_call k m w s : Rel k m w s -> call_ok k m w s [] w s.
Proof using.
  intros (Hb & Hc & Hk). split; [intros; constructor |]. split; [| split; [done | lia]].
  by apply (base_weaken (2 * Z.of_nat k)); [lia |].
Qed.

Lemma body_within w m a off n :
  filling m w a -> slot_ w + 4 <= off -> off + n <= slot_ w + slot_stride g ->
  addr (cur_slot w) + 4 <= off /\ off + n <= addr (cur_slot w) + slot_stride g.
Proof using. intros [] ? ?. rewrite fl_slot0 in *. lia. Qed.

Lemma ring_append_ok seen p k m w s :
  Rel k m w s ->
  let '(ss, w') := (if seen : bool then append p w else append_unaligned p w) in
  call_ok k m w s ss w' (mkSpec (au_add (slot_bytes g) seen p <$> sp_cur s) (sp_recs s) (sp_id s)).
Proof using Hsb Hsc.
  intros Hr. pose proof Hr as (Hb & Hc & Hk). unfold cur_ok in Hc. pose proof stride_big as Hst. unfold append, append_unaligned, copy_.
  destruct (sp_cur s) as [a|] eqn:Ea; cbn [fmap option_fmap option_map].
  2: { destruct Hc as [-> _]. cbn [negb orb]. assert (Es : mkSpec None (sp_recs s) (sp_id s) = s) by (destruct s; cbn in *; congruence).
       rewrite Es. destruct seen; by apply idle_call. }
  assert (Es : mkSpec (Some a) (sp_recs s) (sp_id s) = s) by (destruct s; cbn in *; congruence).
  rewrite (fl_in _ _ _ Hc), (fl_over _ _ _ Hc), (bs_geom _ _ _ _ Hb), (fl_copied _ _ _ Hc). unfold au_add. cbn [negb orb].
  destruct (au_over a || (length p =? 0)%nat) eqn:Eo.
  { rewrite Es. destruct seen; by apply idle_call. }
  rewrite Nat2Z.inj_add. pose proof (cur_slot_addr w) as Haddr.
  destruct (Z.ltb_spec (slot_bytes g) (Z.of_nat (length (au_bytes a)) + Z.of_nat (length p))) as [Hbig|Hfit].
  - assert (C : call_ok k m w s (atomic (slot_ w + kSOffState) [kSlotAborted]) (w {{ overflow_ := true }})
                  (mkSpec (Some (a {{ au_over := true }})) (sp_recs s) (sp_id s))).
    { apply (body_call k m w s a); try done.
      - constructor; [| constructor]. apply (body_within w m a); [done | |]; cbn; unfold kSOffState; lia.
      - eapply filling_ext; [apply (filling_upd m w a (slot_ w + kSOffState)); [done | ..] | ..]; try done;
          cbn; unfold kSOffState; lia. }
    destruct seen; exact C.
  - assert (Eu : u32 (Z.of_nat (length (au_bytes a)) + Z.of_nat (length p)) = Z.of_nat (length (au_bytes a)) + Z.of_nat (length p))
      by (apply wrap_small; unfold in_width; lia).
    pose proof (filling_bytes m w a p Hc ltac:(rewrite (fl_copied _ _ _ Hc); lia)) as F. rewrite (fl_copied _ _ _ Hc) in F.
    assert (Hin : Forall (within (addr (cur_slot w) + 4) (addr (cur_slot w) + slot_stride g))
                    (put (slot_ w + kAuSlotHdrBytes + Z.of_nat (length (au_bytes a))) p)).
    { eapply within_weaken; [| | apply put_within]; rewrite (fl_slot _ _ _ Hc); unfold slot_stride, kAuSlotHdrBytes; lia. }
    assert (Ec : forall f, copied_ (w {{ copied_ ::= (fun c => u32 (c + Z.of_nat (length p))) ; valid_ ::= f }}) =
              copied_ (w {{ copied_ := Z.of_nat (length (au_bytes a)) + Z.of_nat (length p) }})).
    { intros f. transitivity (u32 (copied_ w + Z.of_nat (length p))); [reflexivity |]. rewrite (fl_copied _ _ _ Hc). exact Eu. }
    set (w1 := w {{ copied_ := Z.of_nat (length (au_bytes a)) + Z.of_nat (length p) }}) in *.
    destruct seen.
    + match goal with |- call_ok _ _ _ _ (?s1 ++ ?s2) ?w' (mkSpec (Some ?a') _ _) => set (w2 := w'); set (a2 := a') end.
      assert (Hv : Forall (within (addr (cur_slot w) + 4) (addr (cur_slot w) + slot_stride g))
                     (atomic (slot_ w + kSOffValidLen) (put32 (copied_ w2)))).
      { constructor; [| constructor]. apply (body_within w m a); [done | |]; cbn; unfold kSOffValidLen; lia. }
      apply (body_call k m w s a); try done; [by apply Forall_app |].
      rewrite apply_stores_app, apply_atomic.
      eapply filling_ext;
        [apply (filling_upd _ w1 _ (slot_ w + kSOffValidLen)); [eapply filling_eq; [apply apply_put | exact F] | ..];
           change (slot_ w1) with (slot_ w); change (length (put32 _)) with 4%nat; unfold kSOffValidLen; lia
        | first [reflexivity | exact (fl_over _ _ _ Hc) | exact (Ec (fun v => v))] ..].
    + apply (body_call k m w s a); try done.
      eapply filling_ext; [eapply filling_eq; [apply apply_put | exact F]
        | first [reflexivity | exact (fl_over _ _ _ Hc) | exact (Ec (fun v => v))] ..].
Qed.

(** ** Closing and claiming a slot *)

Definition goodP (s : RingSpec) (p : Z) (m : Mem) (ss : list Store) (p' : Z) : Prop :=
  forall recs, sp_recs s `prefix_of` recs -> good recs p m ss p'.

Lemma goodP_app s p m s1 p1 s2 p2 : goodP s p m s1 p1 -> goodP s p1 (apply_stores m s1) s2 p2 -> goodP s p m (s1 ++ s2) p2.
Proof using. intros H1 H2 recs Hp. eapply good_app; [by apply H1 | by apply H2]. Qed.

Lemma base_snap b m w s recs : Base b m w s -> sp_recs s `prefix_of` recs -> snap recs (published_ w) m.
Proof using.
  intros Hb Hp. destruct (bs_snap _ _ _ _ Hb) as (S1 & S2 & S3). pose proof (prefix_length _ _ Hp). split; [lia |]. split; [done |].
  intros i Hi. eapply slot_ok_more; eauto.
Qed.

(** A counter of the file's header. *)
Lemma base_counter b m w s off v :
  off = kOffDropped \/ off = kOffOpenRec -> Base b m w s ->
  goodP s (published_ w) m (atomic off (put64 v)) (published_ w) /\ Base b (apply_stores m (atomic off (put64 v))) w s /\
  (forall o n, 4096 <= o -> agree m (apply_stores m (atomic off (put64 v))) o n).
Proof using Hsb.
  intros Ho Hb. cbn [atomic apply_stores fold_left]. set (st := mkStore off (put64 v)).
  assert (Hin : within 16 32 st \/ within 40 48 st).
  { destruct Ho as [-> | ->]; [left | right]; split; cbn; unfold kOffDropped, kOffOpenRec; lia. }
  assert (Ew : wseq (apply_store m st) = wseq m).
  { apply (agree_word _ _ 16 8); [| unfold kOffWriteSeq; lia ..]. apply (upd_agree m off). cbn.
    destruct Ho as [-> | ->]; unfold kOffDropped, kOffOpenRec; lia. }
  assert (Hag : forall o n, 4096 <= o -> agree m (apply_store m st) o n).
  { intros o n ?. destruct Hin as [Hin|Hin]; (eapply within_agree; [exact Hin | lia]). }
  assert (Hst : forall recs, sp_recs s `prefix_of` recs -> hist_step recs (published_ w) m st (published_ w)).
  { intros recs Hp. pose proof (base_snap _ _ _ _ _ Hb Hp) as Hs. apply step_header; [done | done | lia | rewrite Ew; apply Hs]. }
  split; [intros recs Hp; by apply good_one, Hst |]. split; [| exact Hag].
  pose proof (hs_snap _ _ _ _ _ (Hst (sp_recs s) ltac:(done))) as Hsn. destruct Hb. split; try done; [by rewrite Ew |].
  intros i Hi. pose proof (addr_above i ltac:(lia)). unfold kAuRingHdrBytes in *. rewrite (lock_agree m _ i); [auto |]. by apply Hag.
Qed.

(** A store of the lock of the slot in turn. *)
Lemma base_lock b m w s v :
  Base b m w s -> in_width 32 v -> v <= b + 1 ->
  (forall recs, sp_recs s `prefix_of` recs -> hist_step recs (published_ w) m (lock_store (cur_slot w) v) (published_ w)) ->
  Base (b + 1) (apply_store m (lock_store (cur_slot w) v)) w s /\
  lock (cur_slot w) (apply_store m (lock_store (cur_slot w) v)) = v.
Proof using Hsb Hsc.
  intros Hb Hv Hvb Hst. split; [| by apply lock_stored].
  pose proof (hs_snap _ _ _ _ _ (Hst (sp_recs s) ltac:(done))) as Hsn. pose proof (cur_slot_addr w). destruct Hb. split; try done.
  - rewrite (agree_word m _ 16 8); [done | | unfold kOffWriteSeq; lia ..]. eapply within_agree; [apply lock_store_within | lia].
  - intros i Hi. destruct (decide (i = cur_slot w)) as [->|Hne]; [rewrite lock_stored by done; unfold in_width in Hv; lia |].
    rewrite (lock_agree m _ i); [specialize (bs_lock0 i Hi); lia |]. eapply within_agree; [apply lock_store_within |].
    destruct (addr_apart i (cur_slot w)); [done | lia | lia].
Qed.

Lemma close_ok b m w s a :
  Base b m w s -> filling m w a -> b + 1 < 2 ^ 32 ->
  let '(ss, w') := close_slot_ kSlotAborted w in
  goodP s (published_ w) m ss (published_ w) /\ Base (b + 1) (apply_stores m ss) w' s /\
  in_au_ w' = false /\ Z.odd (lock (cur_slot w') (apply_stores m ss)) = false.
Proof using Hsb Hsc.
  intros Hb Hf Hs32. unfold close_slot_. pose proof (cur_slot_addr w) as Haddr. pose proof stride_big. pose proof (fl_locked _ _ _ Hf) as Ho.
  pose proof (bs_lock _ _ _ _ Hb (cur_slot w) (cur_slot_range w)) as Hl.
  set (s1 := atomic (slot_ w + kSOffState) [kSlotAborted]).
  assert (Hf1 : filling (apply_stores m s1) w a) by (apply filling_upd; [done | ..]; cbn; unfold kSOffState; lia).
  assert (Hin : Forall (within (addr (cur_slot w) + 4) (addr (cur_slot w) + slot_stride g)) s1).
  { constructor; [| constructor]. apply (body_within w m a); [done | |]; cbn; unfold kSOffState; lia. }
  assert (G1 : goodP s (published_ w) m s1 (published_ w)) by (intros recs Hp; by apply (base_body b m w s recs s1)).
  destruct (base_body b m w s (sp_recs s) s1 Hb ltac:(done) Ho Hin) as (_ & B1 & L1).
  assert (Ev : u32 (lock_ w + 1) = lock (cur_slot w) (apply_stores m s1) + 1).
  { rewrite (fl_lock _ _ _ Hf), L1. apply wrap_small. unfold in_width. lia. }
  rewrite Ev, (fl_slot _ _ _ Hf). set (v := lock (cur_slot w) (apply_stores m s1) + 1) in *.
  assert (Hv : in_width 32 v) by (unfold in_width, v; lia).
  assert (Hst : forall recs, sp_recs s `prefix_of` recs ->
    hist_step recs (published_ w) (apply_stores m s1) (lock_store (cur_slot w) v) (published_ w)).
  { intros recs Hp. apply step_abort; [by eapply base_snap | by rewrite <- L1 in Ho | exact Hv | |].
    - fold (cur_slot w). unfold state_at. rewrite <- (fl_slot _ _ _ Hf). unfold s1. rewrite apply_atomic. by apply word_in.
    - fold (cur_slot w). rewrite <- (fl_slot _ _ _ Hf). apply Hf1. }
  destruct (base_lock b _ w s v B1 Hv ltac:(unfold v; lia) Hst) as [B2 L2].
  destruct (base_counter (b + 1) _ w s kOffOpenRec 0 ltac:(by right) B2) as (G3 & B3 & A3).
  rewrite !apply_stores_app. split; [| split; [| split]].
  - apply (goodP_app s _ _ s1 (published_ w)); [exact G1 |]. apply (goodP_app s _ _ (atomic _ _) (published_ w)); [| exact G3].
    intros recs Hp. by apply good_one, Hst.
  - by apply (base_ext _ _ w s).
  - reflexivity.
  - change (cur_slot (w {{ in_au_ := false }})) with (cur_slot w).
    change (apply_stores (apply_stores m s1) (atomic _ (put32 v))) with (apply_store (apply_stores m s1) (lock_store (cur_slot w) v)).
    rewrite (lock_agree _ _ _ (A3 _ _ Haddr)), L2. unfold v. rewrite Z.odd_add, L1, Ho. done.
Qed.

(** The slot in turn is free once an unfinished frame has been given up. *)
Lemma free_ok k m w s :
  Rel k m w s -> Z.of_nat (S k) < 2 ^ 31 ->
  let '(s0, w0) := if in_au_ w then close_slot_ kSlotAborted w else ([], w) in
  goodP s (published_ w) m s0 (published_ w) /\ Base (2 * Z.of_nat k + 1) (apply_stores m s0) w0 s /\
  Z.odd (lock (cur_slot w0) (apply_stores m s0)) = false /\
  published_ w0 = published_ w /\ w_last_id_ w0 = w_last_id_ w /\ have_id_ w0 = have_id_ w /\ w_geom w0 = w_geom w.
Proof using Hsb Hsc.
  intros (Hb & Hc & Hk) Hs. unfold cur_ok in Hc. destruct (sp_cur s) as [a|] eqn:Ea.
  - rewrite (fl_in _ _ _ Hc). pose proof (close_ok _ m w s a Hb Hc ltac:(lia)) as C.
    unfold close_slot_ in *. destruct C as (C1 & C2 & C3 & C4). split; [done |]. split; [done |]. split; [done |]. done.
  - destruct Hc as [-> Ho]. split; [intros recs _; constructor |]. split; [| done].
    apply (base_weaken (2 * Z.of_nat k)); [lia | done].
Qed.

Ltac mem_read :=
  unfold kSOffLock, kSOffLen, kSOffRecNo, kSOffFrameId, kSOffPts, kSOffSid, kSOffFlags, kSOffTFirst, kSOffTComplete,
    kSOffDroneQ, kSOffEncUs, kSOffAirMs, kSOffState, kSOffNslices, kSOffValidLen, kAuSlotHdrBytes;
  repeat first
    [ rewrite word_in by reflexivity
    | rewrite word_out by (cbn [length put16 put32 put64 app]; lia)
    | rewrite sub_out by (cbn [length put16 put32 put64 app]; lia) ].

(** The header of a frame just begun. *)
Definition begun_stores (h : FrameHdr) (sid ns id p slot : Z) : list Store :=
  put (slot + kSOffLen) (put32 0) ++ put (slot + kSOffRecNo) (put64 p) ++
  put (slot + kSOffFrameId) (put64 id) ++ put (slot + kSOffPts) (put32 (pts_us h)) ++
  put (slot + kSOffSid) [sid] ++ put (slot + kSOffFlags) [flags h] ++ put (slot + kSOffNslices) [ns] ++
  atomic (slot + kSOffValidLen) (put32 0) ++ atomic (slot + kSOffState) [kSlotOpen].

Lemma begun_within h sid ns id p slot : Forall (within (slot + 4) (slot + 64)) (begun_stores h sid ns id p slot).
Proof using.
  unfold begun_stores, kSOffLen, kSOffRecNo, kSOffFrameId, kSOffPts, kSOffSid, kSOffFlags, kSOffState, kSOffNslices, kSOffValidLen.
  repeat (apply Forall_app; split); first
    [ eapply within_weaken; [| | apply put_within]; cbn [length put32 put64 app]; lia
    | constructor; [split; cbn; lia | constructor] ].
Qed.

Lemma begun_words h sid ns id p slot m :
  in_width 64 id -> in_width 64 p -> in_width 32 (pts_us h) ->
  let m' := apply_stores m (begun_stores h sid ns id p slot) in
  word 4 m' (slot + kSOffLen) = 0 /\ word 8 m' (slot + kSOffRecNo) = p /\ word 8 m' (slot + kSOffFrameId) = id /\
  word 4 m' (slot + kSOffPts) = pts_us h /\ word 1 m' (slot + kSOffSid) = sid /\ word 1 m' (slot + kSOffNslices) = ns /\
  word 4 m' (slot + kSOffValidLen) = 0.
Proof using.
  intros Hi Hp Hpt. cbn zeta. unfold begun_stores. rewrite !apply_stores_app, !apply_put, !apply_atomic.
  split; [| split; [| split; [| split; [| split; [| split]]]]]; mem_read;
    rewrite ?le_val_put32, ?le_val_put64 by (done || (unfold in_width; lia)); cbn; try reflexivity; lia.
Qed.

Lemma begin_ok h sid ns k m w s :
  Rel k m w s -> Z.of_nat (S k) < 2 ^ 31 -> wcall_typed (WBegin h sid ns) ->
  let '(ss, w') := begin h sid ns m w in call_ok k m w s ss w' (spec_call (slot_bytes g) (WBegin h sid ns) s).
Proof using Hsb Hsc.
  intros Hr Hk [Tf Tp]. pose proof Hr as (Hb0 & _ & Hlen). unfold begin. rewrite (bs_map _ _ _ _ Hb0). cbn [negb].
  pose proof (free_ok k m w s Hr Hk) as F. destruct (if in_au_ w then _ else _) as [s0 w0].
  destruct F as (G0 & Hb & Ho & E1 & E2 & E3 & E4). set (m0 := apply_stores m s0) in *. cbn [spec_call].
  assert (Eid : (if have_id_ w0 then u64 (w_last_id_ w0 + u16 (frame_id h - u16 (w_last_id_ w0))) else frame_id h) =
                match sp_id s with Some l => u64 (l + u16 (frame_id h - u16 l)) | None => frame_id h end).
  { pose proof (bs_id _ _ _ _ Hb) as Hid. by destruct (have_id_ w0); rewrite Hid. }
  rewrite Eid. set (id := match sp_id s with Some _ => _ | None => _ end) in *.
  assert (Tid : in_width 64 id).
  { subst id. destruct (sp_id s); [apply wrap_in_width; lia | by apply (in_width_le 16)]. }
  rewrite (bs_geom _ _ _ _ Hb). rewrite slot_base_addr. fold (cur_slot w0). change (word 4 m0 (addr (cur_slot w0) + kSOffLock)) with (lock (cur_slot w0) m0).
  rewrite Ho. pose proof (bs_lock _ _ _ _ Hb (cur_slot w0) (cur_slot_range w0)) as Hl.
  assert (Ev : u32 (lock (cur_slot w0) m0 + 1) = lock (cur_slot w0) m0 + 1) by (apply wrap_small; unfold in_width; lia).
  rewrite Ev. set (v := lock (cur_slot w0) m0 + 1) in *. assert (Hv : in_width 32 v) by (unfold in_width, v; lia).
  pose proof (bs_small _ _ _ _ Hb) as Hsm. pose proof (bs_pub _ _ _ _ Hb) as Hpub.
  assert (Hst : forall recs, sp_recs s `prefix_of` recs -> hist_step recs (published_ w0) m0 (lock_store (cur_slot w0) v) (published_ w0)).
  { intros recs Hp. pose proof (base_snap _ _ _ _ _ Hb Hp) as Hsn. apply step_claim; [done | apply Hsn | done | done]. }
  destruct (base_lock _ m0 w0 s v Hb Hv ltac:(unfold v; lia) Hst) as [B1 L1]. set (m1 := apply_store m0 (lock_store (cur_slot w0) v)) in *.
  set (bl := begun_stores h sid ns id (published_ w0) (addr (cur_slot w0))).
  assert (Hin : Forall (within (addr (cur_slot w0) + 4) (addr (cur_slot w0) + slot_stride g)) bl).
  { eapply within_weaken; [| | apply begun_within]; [lia |]. pose proof stride_big. lia. }
  assert (Hodd : Z.odd (lock (cur_slot w0) m1) = true) by (rewrite L1; unfold v; by rewrite Z.odd_add, Ho).
  assert (G2 : goodP s (published_ w0) m1 bl (published_ w0)) by (intros recs Hp; by apply (base_body _ m1 w0 s recs bl B1)).
  destruct (base_body _ m1 w0 s (sp_recs s) bl B1 ltac:(done) Hodd Hin) as (_ & B2 & L2).
  destruct (base_counter _ _ w0 s kOffOpenRec (u64 (published_ w0 + 1)) ltac:(by right) B2) as (G3 & B3 & A3).
  assert (Es : s0 ++ atomic (addr (cur_slot w0) + kSOffLock) (put32 v) ++
      put (addr (cur_slot w0) + kSOffLen) (put32 0) ++ put (addr (cur_slot w0) + kSOffRecNo) (put64 (published_ w0)) ++
      put (addr (cur_slot w0) + kSOffFrameId) (put64 id) ++ put (addr (cur_slot w0) + kSOffPts) (put32 (pts_us h)) ++
      put (addr (cur_slot w0) + kSOffSid) [sid] ++ put (addr (cur_slot w0) + kSOffFlags) [flags h] ++
      put (addr (cur_slot w0) + kSOffNslices) [ns] ++ atomic (addr (cur_slot w0) + kSOffValidLen) (put32 0) ++
      atomic (addr (cur_slot w0) + kSOffState) [kSlotOpen] ++ atomic kOffOpenRec (put64 (u64 (published_ w0 + 1))) =
      s0 ++ [lock_store (cur_slot w0) v] ++ bl ++ atomic kOffOpenRec (put64 (u64 (published_ w0 + 1)))).
  { unfold bl, begun_stores. by rewrite <- !app_assoc. }
  rewrite Es. split.
  - intros recs Hp. cbn [sp_recs] in *. rewrite <- Hpub. rewrite <- E1 in G0.
    apply (goodP_app s _ _ s0 (published_ w0)); [exact G0 | | exact Hp].
    apply (goodP_app s _ _ [_] (published_ w0)); [intros recs' Hp'; by apply good_one, Hst |].
    apply (goodP_app s _ _ bl (published_ w0)); [exact G2 | exact G3].
  - rewrite !apply_stores_app. split; [| split; [| cbn; lia]].
    + apply (base_ext _ _ w0 s); try done. apply (base_weaken (2 * Z.of_nat k + 1 + 1)); [lia |]. exact B3.
    + cbn [cur_ok sp_cur].
      eapply (filling_agree (apply_stores m1 bl)); [apply A3; exact (cur_slot_addr w0) |].
      destruct (begun_words h sid ns id (published_ w0) (addr (cur_slot w0)) m1 Tid ltac:(unfold in_width; lia) Tp)
        as (W1 & W2 & W3 & W4 & W5 & W6 & _). fold bl in W1, W2, W3, W4, W5, W6.
      rewrite L1 in Hodd.
      split; first [exact eq_refl | exact (eq_sym (eq_trans L2 L1)) | exact Hodd | exact Tid | exact (proj1 Hsb)
        | exact W1 | exact W2 | exact W3 | exact W4 | exact W5 | exact W6].
Qed.

(** ** Publishing *)

Definition closing_stores (slot len rec_flags t_first t_complete q enc air : Z) : list Store :=
  put (slot + kSOffLen) (put32 len) ++ put (slot + kSOffFlags) [rec_flags] ++
  put (slot + kSOffTFirst) (put64 t_first) ++ put (slot + kSOffTComplete) (put64 t_complete) ++
  put (slot + kSOffDroneQ) (put16 q) ++ put (slot + kSOffEncUs) (put16 enc) ++
  put (slot + kSOffAirMs) (put16 air) ++ atomic (slot + kSOffState) [kSlotClosed].

Lemma closing_within slot len fl tf tc q enc air : Forall (within (slot + 4) (slot + 64)) (closing_stores slot len fl tf tc q enc air).
Proof using.
  unfold closing_stores, kSOffLen, kSOffFlags, kSOffTFirst, kSOffTComplete, kSOffDroneQ, kSOffEncUs, kSOffAirMs, kSOffState.
  repeat (apply Forall_app; split); first
    [ eapply within_weaken; [| | apply put_within]; cbn [length put16 put32 put64 app]; lia
    | constructor; [split; cbn; lia | constructor] ].
Qed.

Lemma closing_words slot len fl tf tc q enc air m :
  in_width 32 len -> in_width 64 tf -> in_width 64 tc -> in_width 16 q -> in_width 16 enc -> in_width 16 air ->
  let m' := apply_stores m (closing_stores slot len fl tf tc q enc air) in
  meta_at m' slot = mkMeta (word 8 m (slot + kSOffRecNo)) (word 8 m (slot + kSOffFrameId)) (word 4 m (slot + kSOffPts)) len
                      (word 1 m (slot + kSOffSid)) fl (word 1 m (slot + kSOffNslices)) tf tc q enc air 0 0 0 default_salvage 0 /\
  state_at m' slot = kSlotClosed /\
  (forall n, sub m' (slot + kAuSlotHdrBytes) n = sub m (slot + kAuSlotHdrBytes) n).
Proof using.
  intros Hl Htf Htc Hq He Ha. cbn zeta. unfold closing_stores. unfold meta_at, state_at.
  rewrite !apply_stores_app, !apply_put, !apply_atomic. split; [| split].
  - f_equal; mem_read; rewrite ?le_val_put16, ?le_val_put32, ?le_val_put64 by done; try reflexivity. cbn. lia.
  - mem_read. reflexivity.
  - intros n. rewrite ?apply_put, ?apply_atomic. mem_read. reflexivity.
Qed.

Lemma finish_ok complete lat now k m w s :
  Rel k m w s -> Z.of_nat (S k) < 2 ^ 31 -> wcall_typed (WFinish complete lat now) ->
  let '(_, ss, w') := finish complete lat now w in call_ok k m w s ss w' (spec_call (slot_bytes g) (WFinish complete lat now) s).
Proof using Hsb Hsc.
  intros Hr Hk (T1 & T2 & T3 & T4 & T5 & T6). pose proof Hr as (Hb & Hc & Hlen). unfold finish. rewrite (bs_map _ _ _ _ Hb).
  cbn [negb orb spec_call]. unfold cur_ok in Hc. destruct (sp_cur s) as [a|] eqn:Ea.
  2: { destruct Hc as [-> _]. cbn [negb orb]. by apply idle_call. }
  rewrite (fl_in _ _ _ Hc), (fl_over _ _ _ Hc). cbn [negb orb]. pose proof (bs_pub _ _ _ _ Hb) as Hpub. pose proof (cur_slot_addr w) as Haddr.
  destruct (au_over a) eqn:Eo.
  { set (w1 := w {{ dropped_oversize_ := u64 (dropped_oversize_ w + 1) }}).
    destruct (base_counter _ _ w s kOffDropped (u64 (dropped_oversize_ w + 1)) ltac:(by left) Hb) as (G1 & B1 & A1).
    assert (F1 : filling (apply_stores m (atomic kOffDropped (put64 (u64 (dropped_oversize_ w + 1))))) w1 a).
    { eapply filling_ext; [apply (filling_agree m); [apply A1; rewrite (fl_slot _ _ _ Hc); exact Haddr | exact Hc]
        | first [reflexivity | exact (fl_over _ _ _ Hc)] ..]. }
    assert (B1' : Base (2 * Z.of_nat k) (apply_stores m (atomic kOffDropped (put64 (u64 (dropped_oversize_ w + 1))))) w1 s) by (by apply (base_ext _ _ w s)).
    pose proof (close_ok _ _ w1 s a B1' F1 ltac:(lia)) as C. unfold close_slot_ in *. destruct C as (C1 & C2 & C3 & C4).
    split.
    - intros recs Hp. cbn [sp_recs] in *. rewrite <- Hpub. apply (goodP_app s _ _ (atomic kOffDropped _) (published_ w)); [exact G1 | exact C1 | exact Hp].
    - rewrite apply_stores_app. split; [| split; [exact (conj C3 C4) | cbn; lia]].
      apply (base_ext _ _ (w1 {{ in_au_ := false }}) s); try done. apply (base_weaken (2 * Z.of_nat k + 1)); [lia | exact C2]. }
  set (fl := Z.lor _ _). set (tc := if t_complete_us lat =? 0 then _ else _).
  assert (Ttc : in_width 64 tc) by (subst tc; destruct (_ =? 0); done).
  pose proof (bs_small _ _ _ _ Hb) as Hsm. set (p := published_ w) in *.
  rewrite (fl_slot _ _ _ Hc). set (bl := closing_stores (addr (cur_slot w)) (copied_ w) fl (t_first_us lat) tc (drone_q_ms lat) (lat_enc_us lat) (drone_air_ms lat)).
  pose proof (fl_locked _ _ _ Hc) as Hodd. pose proof stride_big.
  assert (Hin : Forall (within (addr (cur_slot w) + 4) (addr (cur_slot w) + slot_stride g)) bl).
  { eapply within_weaken; [| | apply closing_within]; lia. }
  destruct (base_body _ m w s (sp_recs s) bl Hb ltac:(done) Hodd Hin) as (_ & B1 & L1). fold p in B1.
  assert (G1 : goodP s p m bl p) by (intros recs Hp; by apply (base_body _ m w s recs bl Hb)).
  set (m1 := apply_stores m bl) in *.
  assert (Tlen : in_width 32 (copied_ w)).
  { pose proof (fl_copied _ _ _ Hc). pose proof (fl_fits _ _ _ Hc). unfold in_width. lia. }
  destruct (closing_words (addr (cur_slot w)) (copied_ w) fl (t_first_us lat) tc (drone_q_ms lat) (lat_enc_us lat) (drone_air_ms lat) m
    Tlen T1 Ttc T4 T5 T6) as (W1 & W2 & W3). fold bl in W1, W2, W3. fold m1 in W1, W2, W3.
  set (rec := au_record (Z.of_nat (length (sp_recs s))) complete lat now a).
  assert (Hh : holds g m1 (cur_slot w) p rec).
  { pose proof Hc as [_ F2 _ _ F5 F6 F7 _ F9 _ F11 F12 F13 F14 F15 F16 F17 F18 F19]. rewrite <- F2 in W1, W3. split; [| split; [| split; [| split]]].
    - rewrite <- F2, W1. rewrite F14, F15, F16, F17, F18. subst rec. unfold au_record. cbn [fst]. f_equal.
      + exact Hpub.
      + exact F11.
      + subst fl. by rewrite F5.
    - cbn. lia.
    - done.
    - cbn. lia.
    - rewrite <- F2, W3. exact F19. }
  pose proof (bs_lock _ _ _ _ Hb (cur_slot w) (cur_slot_range w)) as Hlk.
  assert (Ev : u32 (lock_ w + 1) = lock (cur_slot w) m1 + 1).
  { rewrite (fl_lock _ _ _ Hc), L1. apply wrap_small. unfold in_width. lia. }
  rewrite Ev. set (v := lock (cur_slot w) m1 + 1) in *. assert (Hv : in_width 32 v) by (unfold in_width, v; lia).
  assert (Ep1 : u64 (p + 1) = p + 1) by (apply wrap_small; unfold in_width; lia). rewrite Ep1.
  set (m2 := apply_store m1 (lock_store (cur_slot w) v)). set (st := mkStore kOffWriteSeq (put64 (p + 1))). set (m3 := apply_store m2 st).
  set (s' := mkSpec None (sp_recs s ++ [rec]) (Some (au_id64 a))).
  assert (Hlast : forall recs, sp_recs s' `prefix_of` recs -> recs !! Z.to_nat p = Some rec /\ sp_recs s `prefix_of` recs).
  { intros recs Hp. split; [| transitivity (sp_recs s'); [by apply prefix_app_r | done]]. eapply prefix_lookup_Some; [| exact Hp].
    cbn [s' sp_recs]. rewrite Hpub, Nat2Z.id. by rewrite lookup_app_r, Nat.sub_diag by lia. }
  assert (Hst : forall recs, sp_recs s' `prefix_of` recs -> hist_step recs p m1 (lock_store (cur_slot w) v) (p + 1)).
  { intros recs Hp. destruct (Hlast recs Hp) as [Hl1 Hl2]. apply (step_publish recs p m1 rec); try done.
    - by apply (base_snap _ _ _ _ _ B1).
    - apply (bs_wseq _ _ _ _ B1).
    - fold p in L1. change (p mod slot_count g) with (cur_slot w). by rewrite L1. }
  assert (Ew2 : wseq m2 = p).
  { transitivity (wseq m1); [| exact (bs_wseq _ _ _ _ B1)]. apply (agree_word _ _ 16 8); [| unfold kOffWriteSeq; lia ..].
    eapply within_agree; [apply lock_store_within | lia]. }
  assert (Ew3 : wseq m3 = p + 1).
  { change (word 8 (upd m2 kOffWriteSeq (put64 (p + 1))) kOffWriteSeq = p + 1). rewrite word_in by done. apply le_val_put64. unfold in_width. lia. }
  assert (Hst3 : forall recs, sp_recs s' `prefix_of` recs -> hist_step recs (p + 1) m2 st (p + 1)).
  { intros recs Hp. apply step_header; [apply (hs_snap _ _ _ _ _ (Hst recs Hp)) | | | ].
    - left. split; cbn; unfold kOffWriteSeq; lia.
    - fold m3. lia.
    - fold m3. lia. }
  set (w' := w {{ in_au_ := false ; w_last_id_ := cur_id64_ w ; have_id_ := true ; published_ := p + 1 }}).
  assert (B3 : Base (2 * Z.of_nat k + 1) m3 w' s').
  { assert (Hag : forall i, 0 <= i -> agree m2 m3 (addr i) (slot_stride g)).
    { intros i Hi. pose proof (addr_above i Hi). unfold kAuRingHdrBytes in *. apply (upd_agree m2 kOffWriteSeq). cbn. unfold kOffWriteSeq. lia. }
    split.
    - exact (bs_map _ _ _ _ Hb).
    - exact (bs_geom _ _ _ _ Hb).
    - cbn [s' sp_recs]. rewrite length_app. cbn. unfold constant. lia.
    - cbn [s' sp_recs]. rewrite length_app. cbn. lia.
    - cbn. unfold constant. f_equal. symmetry. exact (fl_id _ _ _ Hc).
    - exact Ew3.
    - exact (hs_snap _ _ _ _ _ (Hst3 (sp_recs s') ltac:(done))).
    - intros i Hi. rewrite (lock_agree _ _ _ (Hag i ltac:(lia))). destruct (decide (i = cur_slot w)) as [->|Hne].
      + unfold m2. rewrite lock_stored by done. unfold v. lia.
      + pose proof (bs_lock _ _ _ _ B1 i Hi). unfold m2. rewrite (lock_agree m1 _ i); [lia |].
        eapply within_agree; [apply lock_store_within |]. destruct (addr_apart i (cur_slot w)); [done | lia | lia]. }
  destruct (base_counter _ _ w' s' kOffOpenRec 0 ltac:(by right) B3) as (G4 & B4 & A4).
  assert (Hlen' : Z.of_nat (length (sp_recs s ++ [rec])) = p + 1) by (rewrite length_app; cbn; lia).
  fold rec. match goal with |- call_ok _ _ _ _ ?ss ?w'' _ => set (w2 := w''); assert (Es : ss = bl ++ [lock_store (cur_slot w) v] ++ [st] ++ atomic kOffOpenRec (put64 0)) end.
  { unfold bl, closing_stores. by rewrite <- !app_assoc. }
  rewrite Es. fold s'. split.
  - intros recs Hp. rewrite <- Hpub. change (sp_recs s') with (sp_recs s ++ [rec]). rewrite Hlen'.
    destruct (Hlast recs Hp) as [_ Hl2].
    apply (good_app recs p m bl p); [by apply G1 |]. fold m1.
    apply (good_app recs p m1 [_] (p + 1)); [by apply good_one, Hst |]. cbn [apply_stores fold_left]. fold m2.
    apply (good_app recs (p + 1) m2 [_] (p + 1)); [by apply good_one, Hst3 |]. by apply G4.
  - rewrite !apply_stores_app. fold m1. change (apply_stores (apply_stores m1 [lock_store (cur_slot w) v]) [st]) with m3.
    split; [| split].
    + refine (base_ext _ _ w' s' w2 s' _ eq_refl eq_refl eq_refl eq_refl eq_refl eq_refl eq_refl).
      apply (base_weaken (2 * Z.of_nat k + 1)); [lia | exact B4].
    + unfold cur_ok. cbn [s' sp_cur]. split; [exact eq_refl |]. change (cur_slot w2) with (cur_slot w').
      pose proof (cur_slot_range w') as Hr'. pose proof (cur_slot_addr w').
      rewrite (lock_agree _ _ _ (A4 (addr (cur_slot w')) (slot_stride g) ltac:(done))).
      destruct (decide (cur_slot w' = cur_slot w)) as [->|Hne].
      * rewrite (lock_agree m2 m3). { unfold m2. rewrite lock_stored by done. unfold v. rewrite Z.odd_add, L1, Hodd. done. }
        apply (upd_agree m2 kOffWriteSeq). cbn [length put64 put32 app]. unfold kOffWriteSeq. lia.
      * rewrite (lock_agree m2 m3), (lock_agree m1 m2).
        -- destruct (bs_snap _ _ _ _ B1) as (_ & _ & Hs3). specialize (Hs3 _ Hr'). unfold slot_ok in Hs3.
           destruct (Z.odd (lock (cur_slot w') m1)); [destruct (Hne Hs3) | exact eq_refl].
        -- eapply within_agree; [apply lock_store_within |]. destruct (addr_apart (cur_slot w') (cur_slot w)); [done | lia | lia].
        -- apply (upd_agree m2 kOffWriteSeq). cbn [length put64 put32 app]. unfold kOffWriteSeq. lia.
    + change (length (sp_recs s ++ [rec]) <= S k)%nat. rewrite length_app. cbn. lia.
Qed.

(** ** Any number of calls *)

Lemma call_ok_any c k m w s :
  Rel k m w s -> Z.of_nat (S k) < 2 ^ 31 -> wcall_typed c ->
  let '(ss, w') := ring_call c m w in call_ok k m w s ss w' (spec_call (slot_bytes g) c s).
Proof using Hsb Hsc.
  intros Hr Hk Ht. destruct c as [h sid ns|p|p|complete lat now]; cbn [ring_call].
  - by apply begin_ok.
  - by apply (ring_append_ok true).
  - by apply (ring_append_ok false).
  - pose proof (finish_ok complete lat now k m w s Hr Hk Ht) as F. by destruct (finish complete lat now w) as [[o ss] w'].
Qed.

Lemma spec_calls_grow sb cs s : sp_recs s `prefix_of` sp_recs (spec_calls sb cs s).
Proof using.
  revert s. induction cs as [|c cs IH]; intros s; [done |]. etransitivity; [| apply IH].
  destruct c as [h sid ns|p|p|complete lat now]; cbn; try done.
  destruct (sp_cur s) as [a|]; [| done]. destruct (au_over a); cbn; [done | by apply prefix_app_r].
Qed.

Lemma ring_calls_ok cs k m w s :
  Rel k m w s -> Z.of_nat (k + length cs) < 2 ^ 31 -> Forall wcall_typed cs ->
  let '(ss, w') := ring_calls cs m w in
  let s' := spec_calls (slot_bytes g) cs s in
  good (sp_recs s') (Z.of_nat (length (sp_recs s))) m ss (Z.of_nat (length (sp_recs s'))) /\
  Rel (k + length cs) (apply_stores m ss) w' s'.
Proof using Hsb Hsc.
  revert k m w s. induction cs as [|c cs IH]; intros k m w s Hr Hk Ht; cbn [ring_calls].
  - split; [constructor |]. by rewrite Nat.add_0_r.
  - cbn [length] in Hk. pose proof (call_ok_any c k m w s Hr ltac:(lia) (Forall_inv Ht)) as C. destruct (ring_call c m w) as [s1 w1].
    destruct C as [C1 C2]. specialize (IH (S k) (apply_stores m s1) w1 _ C2 ltac:(lia) (Forall_inv_tail Ht)).
    destruct (ring_calls cs (apply_stores m s1) w1) as [s2 w2]. destruct IH as [I1 I2]. cbn [spec_calls fold_left]. split.
    + eapply good_app; [apply C1 | exact I1]. apply spec_calls_grow.
    + rewrite apply_stores_app. cbn [length]. by rewrite <- Nat.add_succ_comm.
Qed.

(** ** From stores to a history *)

Record moment (recs : list Rec) (p : Z) (m : Mem) (p' : Z) (m' : Mem) : Prop := mkMoment {
  mo_snap : snap recs p m;
  mo_pub : p <= p';
  mo_wseq : wseq m <= wseq m';
  mo_layout : agree m m' 0 16;
  mo_stamp : agree m m' kOffEpoch 8;
  mo_lock : forall i, 0 <= i < slot_count g -> lock i m' = lock i m \/ lock i m' = lock i m + 1;
  mo_still : forall i, 0 <= i < slot_count g -> lock i m' = lock i m -> Z.odd (lock i m) = false ->
    agree m m' (addr i) (slot_stride g);
}.

Lemma good_moments recs p m ss p' :
  good recs p m ss p' -> snap recs p m ->
  exists pub : nat -> Z, pub 0%nat = p /\ pub (length ss) = p' /\
    forall n, moment recs (pub n) (apply_stores m (take n ss)) (pub (S n)) (apply_stores m (take (S n) ss)).
Proof using.
  induction 1 as [p m|p m s ss p1 p' Hst Hg IH]; intros Hs.
  - exists (fun _ => p). split; [done |]. split; [done |]. intros n. rewrite !take_nil. cbn.
    split; first [done | lia | apply agree_refl | intros; by left | intros; apply agree_refl].
  - destruct (IH (hs_snap _ _ _ _ _ Hst)) as (pub & E0 & E1 & Hm). exists (fun n => match n with O => p | S n => pub n end).
    split; [done |]. split; [done |]. intros [|n]; [| apply Hm]. cbn. rewrite E0. destruct Hst. by split.
Qed.

Lemma good_history recs p m ss p' :
  good recs p m ss p' -> snap recs p m -> Z.of_nat (length recs) < 2 ^ 31 ->
  word 4 m kOffMagic = kAuRingMagic -> word 4 m kOffVersion = kAuRingVersion ->
  word 4 m kOffSlotBytes = slot_bytes g -> word 4 m kOffSlotCount = slot_count g ->
  exists pub, pub (length ss) = p' /\
    RingHistory g (word 8 m kOffEpoch) recs (fun n => apply_stores m (take n ss)) pub.
Proof using Hsb Hsc.
  intros Hg Hs Hsm H1 H2 H3 H4. destruct (good_moments _ _ _ _ _ Hg Hs) as (pub & E0 & E1 & Hm). exists pub. split; [done |].
  split; try done; try (intros n; apply Hm); try lia.
  - induction n as [|n IH]; [apply agree_refl |]. eapply agree_trans; [exact IH | apply Hm].
  - induction n as [|n IH]; [apply agree_refl |]. eapply agree_trans; [exact IH | apply Hm].
Qed.

End Writer.

(** ** Opening *)

Lemma word_zero n m off : (forall a, off <= a < off + Z.of_nat n -> m a = 0) -> word n m off = 0.
Proof.
  intros Hz. unfold word, sub. assert (E : map (fun k => m (off + Z.of_nat k)) (seq 0 n) = map (fun _ => 0) (seq 0 n)).
  { apply map_ext_in. intros k Hk%in_seq. apply Hz. lia. }
  rewrite E. clear. induction (seq 0 n) as [|x l IH]; [done |]. cbn. fold (le_val (map (fun _ : nat => 0) l)). rewrite IH. done.
Qed.

Lemma align_ok n : 0 < n <= 2 ^ 31 -> 0 < align_slot_bytes n < 2 ^ 32 /\ align_slot_bytes n mod 64 = 0 /\ n <= align_slot_bytes n.
Proof.
  intros Hn. unfold align_slot_bytes. rewrite (wrap_small 32 (n + 63)) by (unfold in_width; lia).
  pose proof (Z.div_mod (n + 63) 64 ltac:(lia)). pose proof (Z.mod_pos_bound (n + 63) 64 ltac:(lia)).
  rewrite (wrap_small 32) by (unfold in_width; lia). rewrite Z.mod_mul by lia. lia.
Qed.

Lemma nth_repeat_zero k n : nth k (replicate n 0) 0 = 0.
Proof. revert k. induction n as [|n IH]; intros [|k]; cbn; done || apply IH. Qed.

(** A geometry a ring can be opened with. *)
Definition geom_ok (geom : AuRingGeom) : Prop := 0 < slot_bytes geom <= 2 ^ 31 /\ 0 < slot_count geom < 2 ^ 32.

Definition aligned (geom : AuRingGeom) : AuRingGeom := mkGeom (align_slot_bytes (slot_bytes geom)) (slot_count geom).

Definition open_stores (geom : AuRingGeom) (now_ns : Z) : list Store :=
  put 0 (replicate (Z.to_nat (ring_bytes (aligned geom))) 0) ++ put kOffVersion (put32 kAuRingVersion) ++
  put kOffSlotBytes (put32 (slot_bytes (aligned geom))) ++ put kOffSlotCount (put32 (slot_count (aligned geom))) ++
  put kOffEpoch (put64 (Z.lor now_ns 1)) ++ atomic kOffMagic (put32 kAuRingMagic).

Lemma writer_open_ok geom now :
  geom_ok geom ->
  writer_open geom true now new_writer = (true, open_stores geom now, new_writer {{ w_map := true ; w_geom := aligned geom }}).
Proof.
  intros [? ?]. unfold writer_open. rewrite (proj2 (Z.eqb_neq _ _)), (proj2 (Z.eqb_neq _ _)) by lia. done.
Qed.

Lemma open_memory geom now m :
  geom_ok geom -> in_width 64 now ->
  let m0 := apply_stores m (open_stores geom now) in
  word 4 m0 kOffMagic = kAuRingMagic /\ word 4 m0 kOffVersion = kAuRingVersion /\
  word 4 m0 kOffSlotBytes = slot_bytes (aligned geom) /\ word 4 m0 kOffSlotCount = slot_count (aligned geom) /\
  word 8 m0 kOffEpoch = Z.lor now 1 /\
  (forall n off, 16 <= off -> off + Z.of_nat n <= 32 \/ 40 <= off -> off + Z.of_nat n <= ring_bytes (aligned geom) -> word n m0 off = 0).
Proof.
  intros [Hsb Hsc] Hn. cbn zeta. destruct (align_ok _ Hsb) as (Ha & _ & _). unfold open_stores.
  rewrite !apply_stores_app, !apply_put, !apply_atomic. unfold kOffMagic, kOffVersion, kOffSlotBytes, kOffSlotCount, kOffEpoch.
  assert (Tl : in_width 64 (Z.lor now 1)) by (apply lor_in_width; [lia | done | unfold in_width; lia]).
  cbn [slot_bytes slot_count aligned] in *.
  repeat match goal with |- _ /\ _ => split end; [.. | intros n off H1 H2 H3];
    repeat first [ rewrite word_in by reflexivity | rewrite word_out by (cbn [length put32 put64 app]; lia) ].
  - reflexivity.
  - reflexivity.
  - apply le_val_put32. unfold in_width. cbn. lia.
  - apply le_val_put32. unfold in_width. cbn. lia.
  - by apply le_val_put64.
  - rewrite ?apply_put, ?apply_atomic.
    repeat rewrite word_out by (cbn [length put32 put64 app]; lia). apply word_zero. intros a Hr. unfold upd, apply_store. cbn [st_off st_bytes].
    rewrite length_replicate, (proj2 (Z.leb_le _ _)), (proj2 (Z.ltb_lt _ _)) by lia. cbn [andb]. apply nth_repeat_zero.
Qed.

(** A ring just opened. *)
Lemma ring_opened geom now m :
  geom_ok geom -> in_width 64 now ->
  let m0 := apply_stores m (open_stores geom now) in
  Rel (aligned geom) 0 m0 (new_writer {{ w_map := true ; w_geom := aligned geom }}) spec0 /\ snap (aligned geom) [] 0 m0.
Proof.
  intros Hg Hn m0. pose proof Hg as [Hsb Hsc]. destruct (align_ok _ Hsb) as (Ha & _ & _).
  destruct (open_memory geom now m Hg Hn) as (_ & _ & _ & _ & _ & Mz). fold m0 in Mz.
  set (g := aligned geom) in *. assert (Hsb' : 0 <= slot_bytes g < 2 ^ 32) by (cbn; lia). assert (Hsc' : 0 < slot_count g) by (cbn; lia).
  assert (Hslot : forall i, 0 <= i < slot_count g -> 4096 <= slot_addr g i /\ slot_addr g i + slot_stride g <= ring_bytes g).
  { intros i Hi. unfold slot_addr, ring_bytes, kAuRingHdrBytes, slot_stride, kAuSlotHdrBytes. nia. }
  assert (Hlock : forall i, 0 <= i < slot_count g -> lock_of g i m0 = 0).
  { intros i Hi. destruct (Hslot i Hi). apply Mz; unfold kSOffLock; [lia | lia |]. unfold slot_stride, kAuSlotHdrBytes in *. lia. }
  assert (Hw : word 8 m0 kOffWriteSeq = 0).
  { apply Mz; unfold kOffWriteSeq; [lia | lia |]. unfold ring_bytes, kAuRingHdrBytes, slot_stride, kAuSlotHdrBytes. nia. }
  assert (Hsnap : snap g [] 0 m0).
  { split; [done |]. split; [rewrite Hw; lia |]. intros i Hi. unfold slot_ok. rewrite Hlock by done. cbn [Z.odd]. left.
    split; [| lia]. destruct (Hslot i Hi). apply Mz; unfold kSOffState; [lia | lia |]. unfold slot_stride, kAuSlotHdrBytes in *. lia. }
  split; [| exact Hsnap]. split; [split; try done | split; [split; [done |] | done]].
  - intros i Hi. rewrite Hlock by done. lia.
  - rewrite Hlock by (apply Z.mod_pos_bound; done). done.
Qed.

(** After any calls of its writer. *)
Lemma ring_history geom now m cs :
  geom_ok geom -> in_width 64 now -> Forall wcall_typed cs -> Z.of_nat (length cs) < 2 ^ 31 ->
  let m0 := apply_stores m (open_stores geom now) in
  let '(ss, w) := ring_calls cs m0 (new_writer {{ w_map := true ; w_geom := aligned geom }}) in
  let recs := published_records (slot_bytes (aligned geom)) cs in
  exists pub, RingHistory (aligned geom) (Z.lor now 1) recs (fun n => apply_stores m0 (take n ss)) pub /\
    pub (length ss) = Z.of_nat (length recs) /\
    Rel (aligned geom) (length cs) (apply_stores m0 ss) w (spec_calls (slot_bytes (aligned geom)) cs spec0).
Proof.
  intros Hg Hn Ht Hlen m0. pose proof Hg as [Hsb Hsc]. destruct (align_ok _ Hsb) as (Ha & _ & _).
  destruct (open_memory geom now m Hg Hn) as (M1 & M2 & M3 & M4 & M5 & _). fold m0 in M1, M2, M3, M4, M5.
  destruct (ring_opened geom now m Hg Hn) as [Hr Hsnap]. fold m0 in Hr, Hsnap.
  set (g := aligned geom) in *. assert (Hsb' : 0 <= slot_bytes g < 2 ^ 32) by (cbn; lia). assert (Hsc' : 0 < slot_count g) by (cbn; lia).
  set (w0 := new_writer {{ w_map := true ; w_geom := g }}) in *.
  pose proof (ring_calls_ok g Hsb' Hsc' cs 0 m0 w0 spec0 Hr ltac:(lia) Ht) as C. destruct (ring_calls cs m0 w0) as [ss w]. destruct C as [C1 C2].
  change (Z.of_nat (length (sp_recs spec0))) with 0 in C1.
  assert (Hs' : snap g (published_records (slot_bytes g) cs) 0 m0).
  { destruct Hsnap as (_ & S2 & S3). split; [lia |]. split; [done |]. intros i Hi. eapply slot_ok_more; [| by apply S3]. apply prefix_nil. }
  destruct (good_history g Hsb' Hsc' _ _ _ _ _ C1 Hs') as (pub & E1 & Hh); try done.
  { destruct C2 as (B & _ & _). apply (bs_small _ _ _ _ _ B). }
  exists pub. rewrite M5 in Hh. split; [exact Hh |]. split; [exact E1 | exact C2].
Qed.

(** C24.  The frame ring between the ground station and the player ([AuRingWriter], [AuRingReader.next]): whatever
    frames the writer begins, fills, abandons or finishes after opening the ring, and on whatever moments of the
    writer's individual stores the reader's individual loads fall, what a polling reader delivers is a
    subsequence of the records the writer published, each with exactly the header and payload published: never
    torn, repeated or out of order. *)
Theorem frame_ring_exact geom now m cs size qs (tau : nat -> nat) :
  geom_ok geom -> in_width 64 now -> Forall wcall_typed cs -> Z.of_nat (length cs) < 2 ^ 31 ->
  (forall k k', (k <= k')%nat -> (tau k <= tau k')%nat) -> u64 (ring_bytes (aligned geom)) <= size ->
  let '(opened, s0, w) := writer_open geom true now new_writer in
  let ring := apply_stores m s0 in
  let ss := (ring_calls cs ring w).1 in
  let H := fun k => apply_stores ring (take (tau k) ss) in
  let '(ok, r, k) := reader_open (Some size) new_reader H 0%nat in
  opened = true /\ ok = true /\ (polls qs r H k).1 `sublist_of` published_records (slot_bytes (w_geom w)) cs.
Proof.
  intros Hg Hn Ht Hlen Htau Hsz. rewrite writer_open_ok by done. cbn zeta.
  pose proof (ring_history geom now m cs Hg Hn Ht Hlen) as R. cbn zeta in R.
  destruct (ring_calls cs _ _) as [ss w']. destruct R as (pub & Hh & _). cbn [fst].
  pose proof Hg as [Hsb _]. destruct (align_ok _ Hsb) as (Ha & Hal & _).
  pose proof (reader_open_ok _ _ _ _ _ Hh tau Htau new_reader size 0%nat Hsz ltac:(cbn; lia) Hal) as O.
  destruct (reader_open (Some size) new_reader _ 0%nat) as [[ok r] k]. destruct O as (-> & _ & Hr).
  split; [done |]. split; [done |]. exact (polls_ok _ _ _ _ _ Hh tau Htau qs (-1) r k ltac:(lia) Hr).
Qed.

(** C25.  A frame ring at rest is read completely: when no frame is being filled, a reader that maps the ring and
    polls as often as there are records delivers, in order, every record from the oldest the ring still holds -
    at most one short of the slot count behind the last - to the last. *)
Theorem frame_ring_live geom now m cs size qs :
  geom_ok geom -> in_width 64 now -> Forall wcall_typed cs -> Z.of_nat (length cs) < 2 ^ 31 ->
  u64 (ring_bytes (aligned geom)) <= size ->
  let o := writer_open geom true now new_writer in
  let c := ring_calls cs (apply_stores m o.1.2) o.2 in
  let ring := apply_stores (apply_stores m o.1.2) c.1 in
  let recs := published_records (slot_bytes (w_geom o.2)) cs in
  in_au_ c.2 = false -> (length recs <= length qs)%nat ->
  exists d, Z.of_nat d <= Z.max 0 (Z.of_nat (length recs) - slot_count geom + 1) /\
    let '(ok, r, k) := reader_open (Some size) new_reader (fun _ => ring) 0%nat in
    ok = true /\ (polls qs r (fun _ => ring) k).1 = drop d recs.
Proof.
  intros Hg Hn Ht Hlen Hsz. rewrite writer_open_ok by done. cbn zeta.
  pose proof (ring_history geom now m cs Hg Hn Ht Hlen) as R. cbn zeta in R.
  cbn [fst snd]. destruct (ring_calls cs _ _) as [ss w']. destruct R as (pub & Hh & Hpub & (Hb & Hc & _)). cbn [fst snd]. intros Hin Hq.
  set (recs := published_records _ cs) in *. set (m1 := apply_stores (apply_stores m (open_stores geom now)) ss) in *.
  apply (history_still _ _ _ _ _ (length ss)) in Hh. cbn beta in Hh. rewrite firstn_all, Hpub in Hh. fold m1 in Hh.
  pose proof (bs_wseq _ _ _ _ _ Hb) as Hw. rewrite (bs_pub _ _ _ _ _ Hb) in Hw.
  change (sp_recs (spec_calls (slot_bytes (aligned geom)) cs spec0)) with recs in Hw.
  pose proof Hg as [Hsb Hsc]. destruct (align_ok _ Hsb) as (Ha & Hal & _).
  assert (Heven : forall i, 0 <= i < slot_count (aligned geom) -> Z.odd (lock_of (aligned geom) i m1) = false).
  { intros i Hi. unfold cur_ok in Hc. destruct (sp_cur _) as [a|]; [pose proof (fl_in _ _ _ _ Hc); congruence |]. destruct Hc as [_ Ho].
    pose proof (rh_slot _ _ _ _ _ Hh 0%nat i Hi) as Hs. unfold slot_ok in Hs. destruct (Z.odd (lock_of (aligned geom) i m1)) eqn:Ei; [| done].
    rewrite <- Ei, <- Ho. f_equal. f_equal. rewrite Hs. unfold cur_slot. by rewrite (bs_pub _ _ _ _ _ Hb). }
  pose proof (open_at_rest _ _ _ _ Hh Hw Heven new_reader size 0%nat Hsz ltac:(cbn; lia) Hal) as O.
  destruct (reader_open (Some size) new_reader (fun _ => m1) 0%nat) as [[ok r] k]. destruct O as (-> & Hr & Hcur).
  exists (Z.to_nat (cursor_ r)). assert (0 <= cursor_ r) by (destruct Hr as [Hr _]; apply Hr). split; [cbn in Hcur; lia |]. split; [done |].
  apply (polls_at_rest _ _ _ _ Hh Hw Heven); [done | lia].
Qed.

Definition w_geom_small : AuRingGeom := mkGeom 50 2.
Definition w_ring_calls : list WCall :=
  [WBegin (mkFrameHdr 7 1 0 99) 0 1; WAppend [1; 2; 3]; WAppend [4; 5]; WFinish true no_lat 555;
   WBegin (mkFrameHdr 8 0 0 199) 1 2; WAppend [9]].

Lemma w_ring_typed : Forall wcall_typed w_ring_calls.
Proof. repeat (apply Forall_cons; split; [cbn; unfold in_width; lia |]). constructor. Qed.

(** The reader's loads fall one by one between the writer's stores. *)
Lemma frame_ring_exact_witness :
  let run (P : bool -> bool -> list Rec -> AuRingWriter -> Prop) :=
    let '(opened, s0, w) := writer_open w_geom_small true 1000 new_writer in
    let ring := apply_stores (fun _ => 0) s0 in
    let ss := (ring_calls w_ring_calls ring w).1 in
    let H := fun k => apply_stores ring (take k ss) in
    let '(ok, r, k) := reader_open (Some 5000) new_reader H 0%nat in
    P opened ok (polls (replicate 10 (None, 1)) r H k).1 w in
  run (fun _ _ delivered _ => map (fun rec => (rm_rec_no rec.1, rec.2)) delivered = [(0, [1; 2; 3; 4; 5])]) /\
  run (fun opened ok delivered w =>
         opened = true /\ ok = true /\ delivered `sublist_of` published_records (slot_bytes (w_geom w)) w_ring_calls).
Proof.
  split; [vm_compute; reflexivity |].
  refine (frame_ring_exact w_geom_small 1000 (fun _ => 0) w_ring_calls 5000 (replicate 10 (None, 1)) (fun k => k) _ _ _ _ _ _).
  - split; cbn; lia.
  - unfold in_width. lia.
  - exact w_ring_typed.
  - cbn. lia.
  - intros k k' Hk. exact Hk.
  - vm_compute. discriminate.
Defined.

(** One record fits the reader's lap; both are read. *)
Lemma frame_ring_live_witness :
  let o := writer_open w_geom_small true 1000 new_writer in
  let c := ring_calls (firstn 4 w_ring_calls) (apply_stores (fun _ => 0) o.1.2) o.2 in
  let ring := apply_stores (apply_stores (fun _ => 0) o.1.2) c.1 in
  let recs := published_records (slot_bytes (w_geom o.2)) (firstn 4 w_ring_calls) in
  length recs = 1%nat /\
  exists d, Z.of_nat d <= Z.max 0 (Z.of_nat (length recs) - slot_count w_geom_small + 1) /\
    let '(ok, r, k) := reader_open (Some 5000) new_reader (fun _ => ring) 0%nat in
    ok = true /\ (polls [(None, 1)] r (fun _ => ring) k).1 = drop d recs.
Proof.
  split; [vm_compute; reflexivity |].
  refine (frame_ring_live w_geom_small 1000 (fun _ => 0) (firstn 4 w_ring_calls) 5000 [(None, 1)] _ _ _ _ _ _ _).
  - split; cbn; lia.
  - unfold in_width. lia.
  - exact (Forall_take _ 4 _ w_ring_typed).
  - cbn. lia.
  - vm_compute. discriminate.
  - vm_compute. reflexivity.
  - vm_compute. lia.
Defined.
