(* ===== verification/AuRingPeek.v ===== *)
(** * AuRingPeek: following a frame while it is being filled

    [sees] is what the open slot shows of the writer's calls at a moment; from its claim to its close it only
    grows.  A reader's view of an open record is therefore always the beginning of that very frame. *)
From S2P Require Import Prelude Bytes Framing SliceAssembler FrameStream AuRing AuRingRead AuRingProps.
Local Open Scope Z_scope.
Local Open Scope mabur_scope.

(** A later state of the same frame. *)
Record extends (a b : Au) : Prop := mkExtends {
  ex_hdr : au_hdr b = au_hdr a;
  ex_sid : au_sid b = au_sid a;
  ex_ns : au_nslices b = au_nslices a;
  ex_id : au_id64 b = au_id64 a;
  ex_seen : (au_seen a <= au_seen b)%nat;
  ex_bytes : au_bytes a `prefix_of` au_bytes b;
}.

Lemma extends_refl a : extends a a.
Proof. by split. Qed.

Lemma extends_trans a b c : extends a b -> extends b c -> extends a c.
Proof. intros [] []. split; try congruence; [lia | by transitivity (au_bytes b)]. Qed.

Lemma add_extends sb seen p a : (au_seen a <= length (au_bytes a))%nat -> extends a (au_add sb seen p a).
Proof.
  intros Hs. unfold au_add. destruct (_ || _); [apply extends_refl |]. destruct (_ <? _); [by destruct a |].
  destruct a; cbn in *. unfold constant. split; cbn; try done; [| by apply prefix_app_r]. destruct seen; [| done]. rewrite length_app. lia.
Qed.

(** What the slot of record [n] shows of the frame. *)
Record shows (g : AuRingGeom) (m : Mem) (n : Z) (a : Au) : Prop := mkShows {
  sw_rec : word 8 m (slot_base g n + kSOffRecNo) = n;
  sw_id : word 8 m (slot_base g n + kSOffFrameId) = au_id64 a;
  sw_pts : word 4 m (slot_base g n + kSOffPts) = pts_us (au_hdr a);
  sw_sid : word 1 m (slot_base g n + kSOffSid) = au_sid a;
  sw_ns : word 1 m (slot_base g n + kSOffNslices) = au_nslices a;
  sw_seen : word 4 m (slot_base g n + kSOffValidLen) = Z.of_nat (au_seen a);
  sw_len : (au_seen a <= length (au_bytes a))%nat;
  sw_fits : Z.of_nat (length (au_bytes a)) <= slot_bytes g;
  sw_bytes : sub m (slot_base g n + kAuSlotHdrBytes) (au_seen a) = take (au_seen a) (au_bytes a);
}.

(** The spec state a moment shows, if its open slot shows one. *)
Definition sees (g : AuRingGeom) (reach : RingSpec -> Prop) (m : Mem) (v : option RingSpec) : Prop :=
  match v with
  | None => forall i, 0 <= i < slot_count g -> Z.odd (lock_of g i m) = true -> state_at m (slot_addr g i) <> kSlotOpen
  | Some s => reach s /\ exists a, sp_cur s = Some a /\ shows g m (Z.of_nat (length (sp_recs s))) a /\
      Z.odd (lock_of g (Z.of_nat (length (sp_recs s)) mod slot_count g) m) = true
  end.

(** From one moment to the next: the same frame, further on, until its lock steps. *)
Definition goes_on (g : AuRingGeom) (m : Mem) (v : option RingSpec) (m' : Mem) (v' : option RingSpec) : Prop :=
  match v with
  | None => True
  | Some s =>
      let i := Z.of_nat (length (sp_recs s)) mod slot_count g in
      lock_of g i m' = lock_of g i m ->
      (exists s' a a', v' = Some s' /\ sp_recs s' = sp_recs s /\ sp_cur s = Some a /\ sp_cur s' = Some a' /\ extends a a') /\
      agree m m' (slot_addr g i + 8) 21 /\ agree m m' (slot_addr g i + 55) 1
  end.

Inductive vgood (g : AuRingGeom) (reach : RingSpec -> Prop) : option RingSpec -> Mem -> list Store -> option RingSpec -> Prop :=
| vgood_nil v m : vgood g reach v m [] v
| vgood_cons v m s ss v1 v' :
    sees g reach (apply_store m s) v1 -> goes_on g m v (apply_store m s) v1 -> vgood g reach v1 (apply_store m s) ss v' ->
    vgood g reach v m (s :: ss) v'.

Lemma vgood_app g reach v m s1 v1 s2 v2 :
  vgood g reach v m s1 v1 -> vgood g reach v1 (apply_stores m s1) s2 v2 -> vgood g reach v m (s1 ++ s2) v2.
Proof. induction 1; [done |]. intros ?. econstructor; eauto. Qed.

Lemma vgood_sees g reach v m ss v' : vgood g reach v m ss v' -> sees g reach m v -> sees g reach (apply_stores m ss) v'.
Proof. induction 1; [done |]. intros _. auto. Qed.

Section Peek.
Context (g : AuRingGeom) (reach : RingSpec -> Prop).
Hypothesis Hsb : 0 <= slot_bytes g < 2 ^ 32.
Hypothesis Hsc : 0 < slot_count g.

Notation lock i m := (lock_of g i m).
Notation addr i := (slot_addr g i).

(** *** Stores that show nothing *)

(** With [k] bytes visible in the slot at [b]: the length, the flags, the times and the state; the payload past
    them; the file's header. *)
Definition unseen (b : Z) (k : nat) (s : Store) : Prop :=
  within (b + 4) (b + 8) s \/ within (b + 29) (b + 30) s \/ within (b + 32) (b + 55) s \/
  within (b + 64 + Z.of_nat k) (b + slot_stride g) s \/ within 16 48 s.

Lemma shows_unseen m s n a : unseen (slot_base g n) (au_seen a) s -> 0 <= n -> shows g m n a -> shows g (apply_store m s) n a.
Proof using Hsb Hsc.
  intros Hu Hn []. rewrite slot_base_addr in *. set (i := n mod slot_count g) in *. assert (Hi : 0 <= i < slot_count g) by (by apply Z.mod_pos_bound).
  pose proof (addr_above g Hsb i ltac:(lia)) as Hab. unfold kAuRingHdrBytes in Hab.
  assert (Ha : forall o z, addr i + 8 <= o -> o + z <= addr i + 29 \/ (addr i + 55 <= o /\ o + z <= addr i + 64 + Z.of_nat (au_seen a)) ->
            agree m (apply_store m s) o z).
  { intros o z H1 H2. destruct Hu as [Hu|[Hu|[Hu|[Hu|Hu]]]]; (eapply within_agree; [exact Hu | lia]). }
  unfold kSOffRecNo, kSOffFrameId, kSOffPts, kSOffSid, kSOffNslices, kSOffValidLen, kAuSlotHdrBytes in *.
  split; rewrite ?slot_base_addr; fold i; unfold kSOffRecNo, kSOffFrameId, kSOffPts, kSOffSid, kSOffNslices, kSOffValidLen, kAuSlotHdrBytes; try done.
  - rewrite (agree_word m _ (addr i + 8) 8); [done | apply Ha; lia | lia | lia].
  - rewrite (agree_word m _ (addr i + 16) 8); [done | apply Ha; lia | lia | lia].
  - rewrite (agree_word m _ (addr i + 24) 4); [done | apply Ha; lia | lia | lia].
  - rewrite (agree_word m _ (addr i + 28) 1); [done | apply Ha; lia | lia | lia].
  - rewrite (agree_word m _ (addr i + 55) 1); [done | apply Ha; lia | lia | lia].
  - rewrite (agree_word m _ (addr i + 56) 4); [done | apply Ha; lia | lia | lia].
  - rewrite (agree_sub m _ (addr i + 64) (Z.of_nat (au_seen a))); [done | apply Ha; lia | lia | lia].
Qed.

Lemma unseen_header_bytes m s n k : unseen (slot_base g n) k s -> 0 <= n ->
  agree m (apply_store m s) (addr (n mod slot_count g) + 8) 21 /\ agree m (apply_store m s) (addr (n mod slot_count g) + 55) 1.
Proof using Hsb Hsc.
  intros Hu Hn. rewrite slot_base_addr in Hu. set (i := n mod slot_count g) in *. assert (Hi : 0 <= i < slot_count g) by (by apply Z.mod_pos_bound).
  pose proof (addr_above g Hsb i ltac:(lia)) as Hab. unfold kAuRingHdrBytes in Hab.
  split; destruct Hu as [Hu|[Hu|[Hu|[Hu|Hu]]]]; (eapply within_agree; [exact Hu | lia]).
Qed.

Lemma unseen_lock m s n k : unseen (slot_base g n) k s -> 0 <= n -> lock (n mod slot_count g) (apply_store m s) = lock (n mod slot_count g) m.
Proof using Hsb Hsc.
  intros Hu Hn. rewrite slot_base_addr in Hu. set (i := n mod slot_count g) in *. assert (Hi : 0 <= i < slot_count g) by (by apply Z.mod_pos_bound).
  pose proof (addr_above g Hsb i ltac:(lia)) as Hab. unfold kAuRingHdrBytes in Hab.
  apply (agree_word _ _ (addr i) 4); [| unfold kSOffLock; lia ..].
  destruct Hu as [Hu|[Hu|[Hu|[Hu|Hu]]]]; (eapply within_agree; [exact Hu | lia]).
Qed.

(** The frame seen stays as seen. *)
Lemma vgood_unseen s0 a ss m :
  sees g reach m (Some s0) -> sp_cur s0 = Some a ->
  Forall (unseen (slot_base g (Z.of_nat (length (sp_recs s0)))) (au_seen a)) ss ->
  vgood g reach (Some s0) m ss (Some s0) /\ sees g reach (apply_stores m ss) (Some s0).
Proof using Hsb Hsc.
  intros Hs Ha Hf. revert m Hs. induction Hf as [|s ss Hu Hf IH]; intros m Hs; [split; [constructor | done] |].
  assert (Hs' : sees g reach (apply_store m s) (Some s0)).
  { destruct Hs as (Hr & a' & Ha' & Hsh & Ho). rewrite Ha in Ha'. injection Ha' as <-. split; [done |]. exists a. split; [done |].
    split; [by apply shows_unseen; [| lia |] |]. by rewrite (unseen_lock m s _ (au_seen a)) by (done || lia). }
  destruct (IH _ Hs') as [V1 V2]. split; [| exact V2]. econstructor; [exact Hs' | | exact V1].
  intros _. split; [| by apply (unseen_header_bytes m s _ (au_seen a)); [| lia]].
  exists s0, a, a. split; [done |]. split; [done |]. split; [done |]. split; [done |]. apply extends_refl.
Qed.

(** *** No frame to see *)

Definition blind (s : Store) : Prop :=
  within 16 48 s \/ exists i, 0 <= i < slot_count g /\
    (within (addr i + 4) (addr i + 54) s \/ within (addr i + 55) (addr i + slot_stride g) s).

Lemma within_other i j s m o n : 0 <= i -> 0 <= j -> i <> j -> within (addr i) (addr i + slot_stride g) s ->
  addr j <= o -> o + n <= addr j + slot_stride g -> agree m (apply_store m s) o n.
Proof using Hsb. intros ? ? ? Hin ? ?. eapply within_agree; [exact Hin |]. destruct (addr_apart g Hsb i j); [done | lia | lia]. Qed.

Lemma blind_same s m j : blind s -> 0 <= j < slot_count g ->
  lock j (apply_store m s) = lock j m /\ state_at (apply_store m s) (addr j) = state_at m (addr j).
Proof using Hsb.
  intros Hb Hj. pose proof (addr_above g Hsb j ltac:(lia)) as Hab. pose proof (stride_big g Hsb). unfold kAuRingHdrBytes in Hab.
  assert (Ha : agree m (apply_store m s) (addr j) 4 /\ agree m (apply_store m s) (addr j + 54) 1).
  { destruct Hb as [Hb|(i & Hi & Hb)]; [split; (eapply within_agree; [exact Hb | lia]) |].
    destruct (decide (i = j)) as [->|Hne]; [destruct Hb as [Hb|Hb]; split; (eapply within_agree; [exact Hb | lia]) |].
    assert (Hw : within (addr i) (addr i + slot_stride g) s) by (destruct Hb as [[? ?]|[? ?]]; split; lia).
    split; apply (within_other i j); first [done | lia]. }
  destruct Ha as [H1 H2]. split; [apply (agree_word _ _ (addr j) 4); [done | |]; unfold kSOffLock; lia |].
  apply (agree_word _ _ (addr j + 54) 1); [done | |]; unfold kSOffState; lia.
Qed.

Lemma vgood_blind ss m :
  sees g reach m None -> Forall blind ss -> vgood g reach None m ss None /\ sees g reach (apply_stores m ss) None.
Proof using Hsb.
  intros Hs Hf. revert m Hs. induction Hf as [|s ss Hb Hf IH]; intros m Hs; [split; [constructor | done] |].
  assert (Hs' : sees g reach (apply_store m s) None).
  { intros i Hi. destruct (blind_same s m i Hb Hi) as [-> ->]. by apply Hs. }
  destruct (IH _ Hs') as [V1 V2]. split; [| exact V2]. econstructor; [exact Hs' | exact I | exact V1].
Qed.

Lemma blind_header off v : off = kOffDropped \/ off = kOffWriteSeq \/ off = kOffOpenRec -> Forall blind (atomic off (put64 v)).
Proof using.
  intros Ho. constructor; [| constructor]. left. destruct Ho as [-> | [-> | ->]]; split; cbn; unfold kOffDropped, kOffWriteSeq, kOffOpenRec; lia.
Qed.

Lemma unseen_header b k off v : off = kOffDropped \/ off = kOffWriteSeq \/ off = kOffOpenRec -> Forall (unseen b k) (atomic off (put64 v)).
Proof using.
  intros Ho. constructor; [| constructor]. do 4 right. destruct Ho as [-> | [-> | ->]]; split; cbn; unfold kOffDropped, kOffWriteSeq, kOffOpenRec; lia.
Qed.

Lemma lock_step_other i v m j : 0 <= i < slot_count g -> 0 <= j < slot_count g -> j <> i ->
  lock j (apply_store m (lock_store g i v)) = lock j m /\
  state_at (apply_store m (lock_store g i v)) (addr j) = state_at m (addr j).
Proof using Hsb.
  intros Hi Hj Hne. pose proof (stride_big g Hsb).
  assert (Ha : agree m (apply_store m (lock_store g i v)) (addr j) (slot_stride g)).
  { apply (within_other i j); [lia | lia | done | by apply lock_store_within | lia | lia]. }
  split; [by apply lock_agree |]. unfold state_at. apply (agree_word _ _ (addr j) (slot_stride g)); [done | |]; unfold kSOffState; lia.
Qed.

(** Claiming a slot: nothing to see yet. *)
Lemma sees_claim recs p m v :
  snap g recs p m -> sees g reach m None -> Z.odd (lock (p mod slot_count g) m) = false ->
  sees g reach (apply_store m (lock_store g (p mod slot_count g) v)) None.
Proof using Hsb Hsc.
  intros (_ & _ & Hs) Hn Ho j Hj. set (i := p mod slot_count g) in *. assert (Hi : 0 <= i < slot_count g) by (by apply Z.mod_pos_bound).
  destruct (decide (j = i)) as [->|Hne].
  - intros _. assert (E : state_at (apply_store m (lock_store g i v)) (addr i) = state_at m (addr i)).
    { apply meta_agree. apply lock_stored_agree. lia. }
    rewrite E. specialize (Hs i Hi). unfold slot_ok in Hs. rewrite Ho in Hs. destruct Hs as [[-> _]|[[-> _]|[-> _]]]; discriminate.
  - destruct (lock_step_other i v m j Hi Hj Hne) as [-> ->]. by apply Hn.
Qed.

(** Releasing it: nothing more to see. *)
Lemma sees_release recs p m v :
  snap g recs p m -> in_width 32 v -> Z.odd v = false ->
  sees g reach (apply_store m (lock_store g (p mod slot_count g) v)) None.
Proof using Hsb Hsc.
  intros (_ & _ & Hs) Hv Ho j Hj. set (i := p mod slot_count g) in *. assert (Hi : 0 <= i < slot_count g) by (by apply Z.mod_pos_bound).
  destruct (decide (j = i)) as [->|Hne].
  - rewrite lock_stored by done. rewrite Ho. discriminate.
  - destruct (lock_step_other i v m j Hi Hj Hne) as [-> ->]. intros Hodd. specialize (Hs j Hj). unfold slot_ok in Hs. rewrite Hodd in Hs. done.
Qed.

(** *** Calls *)

(** What the open slot shows between two calls. *)
Definition vrel (m : Mem) (s : RingSpec) (v : option RingSpec) : Prop :=
  sees g reach m v /\
  match sp_cur s with
  | None => v = None
  | Some a => exists s0 a0, v = Some s0 /\ sp_recs s0 = sp_recs s /\ sp_cur s0 = Some a0 /\ extends a0 a /\ au_seen a0 = au_seen a
  end.

Lemma vgood_one v m s v' : sees g reach (apply_store m s) v' -> goes_on g m v (apply_store m s) v' -> vgood g reach v m [s] v'.
Proof using. intros. econstructor; [done | done | constructor]. Qed.

(** The lock's step that ends a frame. *)
Lemma vgood_release b m w s v x :
  Base g b m w s -> in_width 32 x -> Z.odd x = false -> x <> lock (cur_slot g w) m ->
  (forall s0, v = Some s0 -> sp_recs s0 = sp_recs s) ->
  vgood g reach v m [lock_store g (cur_slot g w) x] None /\
  sees g reach (apply_store m (lock_store g (cur_slot g w) x)) None.
Proof using Hsb Hsc.
  intros Hb Hx Ho Hne Hv. pose proof (sees_release _ _ _ x (bs_snap _ _ _ _ _ Hb) Hx Ho) as Hs. fold (cur_slot g w) in Hs.
  split; [| exact Hs]. apply vgood_one; [exact Hs |]. destruct v as [s0|]; [| exact I].
  cbn. rewrite (Hv s0 eq_refl). rewrite <- (bs_pub _ _ _ _ _ Hb). fold (cur_slot g w). rewrite lock_stored by done. intros E. by destruct Hne.
Qed.

Definition vcall (m : Mem) (v : option RingSpec) (ss : list Store) (s' : RingSpec) : Prop :=
  exists v', vgood g reach v m ss v' /\ vrel (apply_stores m ss) s' v'.

Lemma vrel_recs m s v : vrel m s v -> forall s0, v = Some s0 -> sp_recs s0 = sp_recs s.
Proof using. intros [_ Hv] s0 ->. destruct (sp_cur s); [| done]. by destruct Hv as (? & ? & [= ->] & ? & _). Qed.

Lemma shows_filling m w a n :
  filling g m w a -> published_ w = n -> word 4 m (slot_ w + kSOffValidLen) = Z.of_nat (au_seen a) ->
  au_seen a = length (au_bytes a) -> shows g m n a.
Proof using.
  intros F Hn Hv Hs. assert (E : slot_base g n = slot_ w) by (rewrite (fl_slot _ _ _ _ F), slot_base_addr; unfold cur_slot; by rewrite Hn).
  pose proof (fl_copied _ _ _ _ F). pose proof (fl_fits _ _ _ _ F).
  split; rewrite ?E; try (by apply F); [rewrite (fl_m_rec _ _ _ _ F); done | done | lia | lia |].
  rewrite Hs, (fl_m_bytes _ _ _ _ F). symmetry. apply firstn_all.
Qed.

Lemma append_sees (seen : bool) p k m w s v :
  Rel g k m w s -> vrel m s v -> Z.of_nat (S k) < 2 ^ 31 ->
  let s' := mkSpec (au_add (slot_bytes g) seen p <$> sp_cur s) (sp_recs s) (sp_id s) in
  reach s' ->
  let '(ss, w') := (if seen then append p w else append_unaligned p w) in vcall m v ss s'.
Proof using Hsb Hsc.
  intros Hr Hv Hk s' Hreach. pose proof (ring_append_ok g Hsb Hsc seen p k m w s Hr) as Hok. fold s' in Hok.
  pose proof Hr as (Hb & Hc & _). pose proof (vrel_recs _ _ _ Hv) as Hrecs. destruct Hv as [Hs Hv]. unfold cur_ok in Hc. unfold append, append_unaligned, copy_ in *.
  assert (Hnop : forall a, sp_cur s = Some a -> au_add (slot_bytes g) seen p a = a -> vcall m v [] s').
  { intros a Ha Hadd. exists v. split; [constructor |]. split; [exact Hs |]. unfold s'. cbn [sp_cur sp_recs]. rewrite Ha in *. cbn. by rewrite Hadd. }
  destruct (sp_cur s) as [a|] eqn:Ea; cbn [fmap option_fmap option_map] in *.
  2: { destruct Hc as [-> _]. cbn [negb orb]. assert (vcall m v [] s') by (exists v; split; [constructor | by split]). by destruct seen. }
  rewrite (fl_in _ _ _ _ Hc), (fl_over _ _ _ _ Hc), (bs_geom _ _ _ _ _ Hb), (fl_copied _ _ _ _ Hc) in *. cbn [negb orb] in *.
  specialize (Hnop a eq_refl). destruct (au_over a || (length p =? 0)%nat) eqn:Eo.
  { assert (vcall m v [] s') by (apply Hnop; unfold au_add; by rewrite Eo). by destruct seen. }
  clear Hnop. destruct Hv as (s0 & a0 & -> & Hr0 & Ha0 & Hext & Hseen). specialize (Hrecs s0 eq_refl).
  assert (Eslot : slot_base g (Z.of_nat (length (sp_recs s0))) = slot_ w).
  { rewrite Hr0, (fl_slot _ _ _ _ Hc), slot_base_addr. unfold cur_slot. by rewrite (bs_pub _ _ _ _ _ Hb). }
  assert (Hlen0 : (au_seen a0 <= length (au_bytes a))%nat).
  { destruct Hs as (_ & a1 & Ha1 & Hsh & _). rewrite Ha0 in Ha1. injection Ha1 as <-. pose proof (sw_len _ _ _ _ Hsh).
    pose proof (prefix_length _ _ (ex_bytes _ _ Hext)). lia. }
  assert (Hadd : extends a (au_add (slot_bytes g) seen p a)) by (apply add_extends; rewrite <- Hseen; done).
  destruct (Z.ltb_spec (slot_bytes g) (Z.of_nat (length (au_bytes a)) + Z.of_nat (length p))) as [Hbig|Hfit].
  - assert (Hst : Forall (unseen (slot_base g (Z.of_nat (length (sp_recs s0)))) (au_seen a0)) (atomic (slot_ w + kSOffState) [kSlotAborted])).
    { rewrite Eslot. constructor; [| constructor]. right; right; left. split; cbn; unfold kSOffState; lia. }
    destruct (vgood_unseen s0 a0 _ m Hs Ha0 Hst) as [V1 V2].
    assert (C : vcall m (Some s0) (atomic (slot_ w + kSOffState) [kSlotAborted]) s').
    { exists (Some s0). split; [exact V1 |]. split; [exact V2 |]. unfold s'. cbn [sp_cur sp_recs].
      exists s0, a0. split; [done |]. split; [done |]. split; [done |].
      split; [by apply (extends_trans _ a) |]. rewrite Hseen. unfold au_add. rewrite Eo.
      rewrite Nat2Z.inj_add, (proj2 (Z.ltb_lt _ _) Hbig). by destruct a. }
    by destruct seen.
  - set (pl := put (slot_ w + kAuSlotHdrBytes + Z.of_nat (length (au_bytes a))) p) in *.
    assert (Hst : Forall (unseen (slot_base g (Z.of_nat (length (sp_recs s0)))) (au_seen a0)) pl).
    { rewrite Eslot. eapply Forall_impl; [apply put_within |]. intros x [H1 H2]. right; right; right; left.
      unfold kAuSlotHdrBytes, slot_stride in *. split; unfold kAuSlotHdrBytes; lia. }
    destruct (vgood_unseen s0 a0 _ m Hs Ha0 Hst) as [V1 V2]. destruct seen.
    + destruct Hok as [_ (Hb' & Hc' & _)]. unfold cur_ok in Hc'. unfold s' in Hc' at 1. cbn [sp_cur] in Hc'. set (a' := au_add (slot_bytes g) true p a) in *.
      set (w1 := w {{ copied_ ::= (fun c => u32 (c + Z.of_nat (length p))) }}) in *. set (w2 := w1 {{ valid_ := copied_ w1 }}) in *.
      change (slot_ w1) with (slot_ w) in *.
      assert (Hfull : au_seen a' = length (au_bytes a')).
      { subst a'. unfold au_add. rewrite Eo. rewrite Nat2Z.inj_add, (proj2 (Z.ltb_ge _ _) Hfit). reflexivity. }
      pose proof (fl_copied _ _ _ _ Hc') as Ecop. pose proof (fl_fits _ _ _ _ Hc') as Efit.
      assert (Hs' : sees g reach (apply_stores m (pl ++ atomic (slot_ w + kSOffValidLen) (put32 (copied_ w1)))) (Some s')).
      { split; [done |]. exists a'. split; [reflexivity |]. pose proof (bs_pub _ _ _ _ _ Hb') as Epub. split.
        - apply (shows_filling _ w2); [exact Hc' | exact Epub | | exact Hfull].
          change (slot_ w2) with (slot_ w). change (copied_ w1) with (copied_ w2). rewrite apply_stores_app, apply_atomic, word_in by done.
          rewrite le_val_put32; [rewrite Ecop; lia | unfold in_width; lia].
        - rewrite <- Epub. apply (fl_locked g _ _ _ Hc'). }
      exists (Some s'). split.
      * apply (vgood_app _ _ _ _ _ (Some s0)); [exact V1 |]. rewrite apply_stores_app in Hs'. apply vgood_one; [exact Hs' |].
        intros _. rewrite <- slot_base_addr, Eslot. split.
        { exists s', a0, a'. split; [done |]. split; [by rewrite Hr0 |]. split; [done |]. split; [done |]. by apply (extends_trans _ a). }
        unfold kSOffValidLen. split; apply (upd_agree (apply_stores m pl)); cbn [length put32]; lia.
      * split; [exact Hs' |]. unfold s' at 1. cbn [sp_cur]. exists s', a'. split; [done |]. split; [done |]. split; [done |].
        split; [apply extends_refl | done].
    + exists (Some s0). split; [exact V1 |]. split; [exact V2 |]. unfold s'. cbn [sp_cur sp_recs].
      exists s0, a0. split; [done |]. split; [done |]. split; [done |]. split; [by apply (extends_trans _ a) |].
      rewrite Hseen. unfold au_add. rewrite Eo. destruct (_ <? _); by destruct a.
Qed.

Lemma close_sees b m w s a v :
  Base g b m w s -> filling g m w a -> b + 1 < 2 ^ 32 -> sp_cur s = Some a -> vrel m s v ->
  let '(ss, w') := close_slot_ kSlotAborted w in vgood g reach v m ss None /\ sees g reach (apply_stores m ss) None.
Proof using Hsb Hsc.
  intros Hb Hf Hs32 Ha Hv. pose proof (vrel_recs _ _ _ Hv) as Hrecs. destruct Hv as [Hs Hv]. rewrite Ha in Hv.
  destruct Hv as (s0 & a0 & -> & Hr0 & Ha0 & Hext & Hseen). unfold close_slot_. set (s1 := atomic (slot_ w + kSOffState) [kSlotAborted]).
  assert (Eslot : slot_base g (Z.of_nat (length (sp_recs s0))) = slot_ w).
  { rewrite Hr0, (fl_slot _ _ _ _ Hf), slot_base_addr. unfold cur_slot. by rewrite (bs_pub _ _ _ _ _ Hb). }
  assert (Hst : Forall (unseen (slot_base g (Z.of_nat (length (sp_recs s0)))) (au_seen a0)) s1).
  { rewrite Eslot. constructor; [| constructor]. right; right; left. split; cbn; unfold kSOffState; lia. }
  destruct (vgood_unseen s0 a0 s1 m Hs Ha0 Hst) as [V1 V2].
  pose proof (stride_big g Hsb). pose proof (bs_lock _ _ _ _ _ Hb (cur_slot g w) (cur_slot_range g Hsc w)) as Hl.
  assert (Hin : Forall (within (addr (cur_slot g w) + 4) (addr (cur_slot g w) + slot_stride g)) s1).
  { constructor; [| constructor]. apply (body_within g w m a); [done | |]; cbn; unfold kSOffState; lia. }
  destruct (base_body g Hsb Hsc b m w s (sp_recs s) s1 Hb ltac:(done) (fl_locked g _ _ _ Hf) Hin) as (_ & B1 & L1).
  assert (Ev : u32 (lock_ w + 1) = lock (cur_slot g w) m + 1).
  { rewrite (fl_lock _ _ _ _ Hf). apply wrap_small. unfold in_width. lia. }
  rewrite Ev, (fl_slot _ _ _ _ Hf).
  destruct (vgood_release b _ w s (Some s0) (lock (cur_slot g w) m + 1) B1) as [V3 V4].
  { unfold in_width. lia. }
  { rewrite Z.odd_add, (fl_locked g _ _ _ Hf). done. }
  { rewrite L1. lia. }
  { exact Hrecs. }
  destruct (vgood_blind _ _ V4 (blind_header kOffOpenRec 0 ltac:(auto))) as [V5 V6].
  rewrite !apply_stores_app. split; [| exact V6].
  apply (vgood_app _ _ _ _ _ (Some s0)); [exact V1 |]. apply (vgood_app _ _ _ _ _ None); [exact V3 | exact V5].
Qed.

Definition begun_blind (h : FrameHdr) (sid ns id p slot : Z) : list Store :=
  put (slot + kSOffLen) (put32 0) ++ put (slot + kSOffRecNo) (put64 p) ++
  put (slot + kSOffFrameId) (put64 id) ++ put (slot + kSOffPts) (put32 (pts_us h)) ++
  put (slot + kSOffSid) [sid] ++ put (slot + kSOffFlags) [flags h] ++ put (slot + kSOffNslices) [ns] ++
  atomic (slot + kSOffValidLen) (put32 0).

Lemma begun_split h sid ns id p slot :
  begun_stores h sid ns id p slot = begun_blind h sid ns id p slot ++ atomic (slot + kSOffState) [kSlotOpen].
Proof using. unfold begun_stores, begun_blind. by rewrite <- !app_assoc. Qed.

Lemma begun_blind_ok h sid ns id p i : 0 <= i < slot_count g -> Forall blind (begun_blind h sid ns id p (addr i)).
Proof using Hsb.
  intros Hi. pose proof (stride_big g Hsb).
  assert (Hput : forall off bs, addr i + 4 <= off -> off + Z.of_nat (length bs) <= addr i + 54 \/ addr i + 55 <= off ->
            off + Z.of_nat (length bs) <= addr i + 64 -> Forall blind (put off bs) /\ Forall blind (atomic off bs)).
  { intros off bs H1 H2 H3. split.
    - eapply Forall_impl; [apply put_within |]. intros x [? ?]. right. exists i. split; [done |]. destruct H2; [left | right]; split; lia.
    - constructor; [| constructor]. right. exists i. split; [done |]. destruct H2; [left | right]; split; cbn; lia. }
  unfold begun_blind, kSOffLen, kSOffRecNo, kSOffFrameId, kSOffPts, kSOffSid, kSOffFlags, kSOffNslices, kSOffValidLen.
  repeat (apply Forall_app; split); apply Hput; cbn [length put32 put64 app]; lia.
Qed.

Lemma begin_sees h sid ns k m w s v :
  Rel g k m w s -> vrel m s v -> Z.of_nat (S k) < 2 ^ 31 -> wcall_typed (WBegin h sid ns) ->
  reach (spec_call (slot_bytes g) (WBegin h sid ns) s) ->
  vcall m v (begin h sid ns m w).1 (spec_call (slot_bytes g) (WBegin h sid ns) s).
Proof using Hsb Hsc.
  intros Hr Hv Hk Ht Hreach. pose proof (begin_ok g Hsb Hsc h sid ns k m w s Hr Hk Ht) as Hok.
  pose proof Hr as (Hb0 & Hc0 & _). unfold begin in *. rewrite (bs_map _ _ _ _ _ Hb0) in *. cbn [negb] in *.
  pose proof (free_ok g Hsb Hsc k m w s Hr Hk) as F.
  assert (V0 : let '(s0, w0) := if in_au_ w then close_slot_ kSlotAborted w else ([], w) in
            vgood g reach v m s0 None /\ sees g reach (apply_stores m s0) None).
  { unfold cur_ok in Hc0. destruct (sp_cur s) as [a|] eqn:Ea.
    - rewrite (fl_in _ _ _ _ Hc0). apply (close_sees (2 * Z.of_nat k) m w s a v); [done | done | lia | done | done].
    - destruct Hc0 as [-> _]. destruct Hv as [Hs Hv]. rewrite Ea in Hv. subst v. split; [constructor | done]. }
  destruct (if in_au_ w then _ else _) as [s0 w0]. destruct F as (_ & Hb & Ho & _). destruct V0 as [V0 V0'].
  set (m0 := apply_stores m s0) in *. clear Hok. cbn [spec_call] in *.
  assert (Eid : (if have_id_ w0 then u64 (w_last_id_ w0 + u16 (frame_id h - u16 (w_last_id_ w0))) else frame_id h) =
                match sp_id s with Some l => u64 (l + u16 (frame_id h - u16 l)) | None => frame_id h end).
  { pose proof (bs_id _ _ _ _ _ Hb) as Hid. by destruct (have_id_ w0); rewrite Hid. }
  rewrite Eid. set (id := match sp_id s with Some _ => _ | None => _ end) in *. destruct Ht as [Tf Tp].
  assert (Tid : in_width 64 id).
  { subst id. destruct (sp_id s); [apply wrap_in_width; lia | by apply (in_width_le 16)]. }
  rewrite (bs_geom _ _ _ _ _ Hb). rewrite slot_base_addr. fold (cur_slot g w0).
  change (word 4 m0 (addr (cur_slot g w0) + kSOffLock)) with (lock (cur_slot g w0) m0). rewrite Ho.
  pose proof (cur_slot_range g Hsc w0) as Hcr. pose proof (bs_lock _ _ _ _ _ Hb _ Hcr) as Hl.
  assert (Ev : u32 (lock (cur_slot g w0) m0 + 1) = lock (cur_slot g w0) m0 + 1) by (apply wrap_small; unfold in_width; lia).
  rewrite Ev. set (x := lock (cur_slot g w0) m0 + 1). assert (Hx : in_width 32 x) by (unfold in_width, x; lia).
  pose proof (sees_claim _ _ _ x (bs_snap _ _ _ _ _ Hb) V0' Ho) as V1. fold (cur_slot g w0) in V1.
  set (m1 := apply_store m0 (lock_store g (cur_slot g w0) x)) in *.
  destruct (vgood_blind _ _ V1 (begun_blind_ok h sid ns id (published_ w0) _ Hcr)) as [V2 V2'].
  set (s' := mkSpec (Some (mkAu h sid ns id [] 0 false)) (sp_recs s) (sp_id s)) in *.
  set (bl := begun_stores h sid ns id (published_ w0) (addr (cur_slot g w0))).
  pose proof (bs_pub _ _ _ _ _ Hb) as Epub. pose proof (bs_small _ _ _ _ _ Hb) as Hsm.
  destruct (begun_words h sid ns id (published_ w0) (addr (cur_slot g w0)) m1 Tid ltac:(unfold in_width; lia) Tp)
    as (W1 & W2 & W3 & W4 & W5 & W6 & W7). fold bl in W1, W2, W3, W4, W5, W6, W7.
  assert (Lo : Z.odd (lock (cur_slot g w0) (apply_stores m1 bl)) = true).
  { assert (Hin : Forall (within (addr (cur_slot g w0) + 4) (addr (cur_slot g w0) + 64)) bl) by apply begun_within.
    assert (El : forall ss mm, Forall (within (addr (cur_slot g w0) + 4) (addr (cur_slot g w0) + 64)) ss ->
              lock (cur_slot g w0) (apply_stores mm ss) = lock (cur_slot g w0) mm).
    { intros ss. induction ss as [|y ss IH]; intros mm Hf; [done |]. inversion_clear Hf. change (apply_stores mm (y :: ss)) with (apply_stores (apply_store mm y) ss).
      rewrite IH by done. apply (agree_word _ _ (addr (cur_slot g w0)) 4); [eapply within_agree; [eassumption | lia] | unfold kSOffLock; lia ..]. }
    rewrite El by done. unfold m1. rewrite lock_stored by done. unfold x. by rewrite Z.odd_add, Ho. }
  assert (V3 : sees g reach (apply_stores m1 bl) (Some s')).
  { split; [done |]. eexists. split; [reflexivity |]. cbn [s' sp_recs]. rewrite <- Epub. split; [| exact Lo].
    split; rewrite ?slot_base_addr; fold (cur_slot g w0); first [exact W2 | exact W3 | exact W4 | exact W5 | exact W6 | exact W7 | exact (Nat.le_refl 0) | exact (proj1 Hsb) | reflexivity]. }
  destruct (vgood_unseen s' (mkAu h sid ns id [] 0 false) _ _ V3 eq_refl
    (unseen_header (slot_base g (Z.of_nat (length (sp_recs s')))) 0 kOffOpenRec (u64 (published_ w0 + 1)) ltac:(auto))) as [V4 V4'].
  cbn [fst]. match goal with |- vcall _ _ ?ss _ =>
    assert (Es : ss = s0 ++ [lock_store g (cur_slot g w0) x] ++ bl ++ atomic kOffOpenRec (put64 (u64 (published_ w0 + 1)))) end.
  { unfold bl, begun_stores. by rewrite <- !app_assoc. }
  rewrite Es. exists (Some s'). split.
  - apply (vgood_app _ _ _ _ _ None); [exact V0 |]. apply (vgood_app _ _ _ _ _ None); [apply vgood_one; [exact V1 | exact I] |].
    apply (vgood_app _ _ _ _ _ (Some s')); [| exact V4]. unfold bl. rewrite begun_split. apply (vgood_app _ _ _ _ _ None); [exact V2 |].
    apply vgood_one; [| exact I]. unfold bl in V3. rewrite begun_split, apply_stores_app in V3. exact V3.
  - rewrite !apply_stores_app. split; [exact V4' |]. cbn [s' sp_cur]. eexists s', _. split; [reflexivity |]. split; [reflexivity |].
    split; [reflexivity |]. split; [apply extends_refl | reflexivity].
Qed.

Lemma closing_unseen b k len fl tf tc q enc air : Forall (unseen b k) (closing_stores b len fl tf tc q enc air).
Proof using.
  assert (Hput : forall off bs, (b + 4 <= off /\ off + Z.of_nat (length bs) <= b + 8) \/ (b + 29 <= off /\ off + Z.of_nat (length bs) <= b + 30) \/
            (b + 32 <= off /\ off + Z.of_nat (length bs) <= b + 55) -> Forall (unseen b k) (put off bs) /\ Forall (unseen b k) (atomic off bs)).
  { intros off bs Hr. split.
    - eapply Forall_impl; [apply put_within |]. intros x [? ?]. destruct Hr as [Hr|[Hr|Hr]]; [left | right; left | right; right; left]; split; lia.
    - constructor; [| constructor]. destruct Hr as [Hr|[Hr|Hr]]; [left | right; left | right; right; left]; split; cbn; lia. }
  unfold closing_stores, kSOffLen, kSOffFlags, kSOffTFirst, kSOffTComplete, kSOffDroneQ, kSOffEncUs, kSOffAirMs, kSOffState.
  repeat (apply Forall_app; split); apply Hput; cbn [length put16 put32 put64 app]; lia.
Qed.

Lemma finish_sees complete lat now k m w s v :
  Rel g k m w s -> vrel m s v -> Z.of_nat (S k) < 2 ^ 31 -> wcall_typed (WFinish complete lat now) ->
  vcall m v (finish complete lat now w).1.2 (spec_call (slot_bytes g) (WFinish complete lat now) s).
Proof using Hsb Hsc.
  intros Hr Hv Hk (T1 & T2 & T3 & T4 & T5 & T6). pose proof Hr as (Hb & Hc & _). unfold finish. rewrite (bs_map _ _ _ _ _ Hb).
  cbn [negb orb spec_call]. unfold cur_ok in Hc. destruct (sp_cur s) as [a|] eqn:Ea.
  2: { destruct Hc as [-> _]. cbn [negb orb fst snd]. exists v. by split; [constructor |]. }
  rewrite (fl_in _ _ _ _ Hc), (fl_over _ _ _ _ Hc). cbn [negb orb].
  pose proof (vrel_recs _ _ _ Hv) as Hrecs. pose proof Hv as [Hs Hv']. rewrite Ea in Hv'.
  destruct Hv' as (s0 & a0 & -> & Hr0 & Ha0 & Hext & Hseen). specialize (Hrecs s0 eq_refl).
  assert (Eslot : slot_base g (Z.of_nat (length (sp_recs s0))) = slot_ w).
  { rewrite Hr0, (fl_slot _ _ _ _ Hc), slot_base_addr. unfold cur_slot. by rewrite (bs_pub _ _ _ _ _ Hb). }
  pose proof (cur_slot_addr g Hsb Hsc w) as Haddr.
  destruct (au_over a) eqn:Eo.
  { set (d := u64 (dropped_oversize_ w + 1)). set (w1 := w {{ dropped_oversize_ := d }}).
    destruct (base_counter g Hsb _ _ w s kOffDropped d ltac:(by left) Hb) as (_ & B1 & A1).
    destruct (vgood_unseen s0 a0 (atomic kOffDropped (put64 d)) m Hs Ha0 (unseen_header _ _ kOffDropped d (or_introl eq_refl))) as [V1 V1'].
    set (m1 := apply_stores m (atomic kOffDropped (put64 d))) in *.
    assert (F1 : filling g m1 w1 a).
    { eapply filling_ext; [apply (filling_agree g Hsb m); [apply A1; rewrite (fl_slot _ _ _ _ Hc); exact Haddr | exact Hc]
        | first [reflexivity | exact (fl_over _ _ _ _ Hc)] ..]. }
    assert (B1' : Base g (2 * Z.of_nat k) m1 w1 s) by exact (base_ext g _ _ w s w1 s B1 eq_refl eq_refl eq_refl eq_refl eq_refl eq_refl eq_refl).
    assert (Hv1 : vrel m1 s (Some s0)).
    { split; [exact V1' |]. rewrite Ea. exists s0, a0. done. }
    pose proof (close_sees _ _ w1 s a (Some s0) B1' F1 ltac:(lia) Ea Hv1) as C. unfold close_slot_ in *. destruct C as [C1 C2].
    cbn [fst snd]. exists None. split; [apply (vgood_app _ _ _ _ _ (Some s0)); [exact V1 | exact C1] |].
    rewrite apply_stores_app. by split. }
  set (fl := Z.lor _ _). set (tc := if t_complete_us lat =? 0 then _ else _). rewrite (fl_slot _ _ _ _ Hc).
  set (bl := closing_stores (addr (cur_slot g w)) (copied_ w) fl (t_first_us lat) tc (drone_q_ms lat) (lat_enc_us lat) (drone_air_ms lat)).
  pose proof (stride_big g Hsb). pose proof (bs_lock _ _ _ _ _ Hb (cur_slot g w) (cur_slot_range g Hsc w)) as Hl.
  assert (Hin : Forall (within (addr (cur_slot g w) + 4) (addr (cur_slot g w) + slot_stride g)) bl).
  { eapply within_weaken; [| | apply closing_within]; lia. }
  assert (Hun : Forall (unseen (slot_base g (Z.of_nat (length (sp_recs s0)))) (au_seen a0)) bl).
  { rewrite Eslot, (fl_slot _ _ _ _ Hc). apply closing_unseen. }
  destruct (vgood_unseen s0 a0 bl m Hs Ha0 Hun) as [V1 V1'].
  destruct (base_body g Hsb Hsc _ m w s (sp_recs s) bl Hb ltac:(done) (fl_locked g _ _ _ Hc) Hin) as (_ & B1 & L1).
  assert (Ev : u32 (lock_ w + 1) = lock (cur_slot g w) m + 1).
  { rewrite (fl_lock _ _ _ _ Hc). apply wrap_small. unfold in_width. lia. }
  rewrite Ev. destruct (vgood_release _ _ w s (Some s0) (lock (cur_slot g w) m + 1) B1) as [V3 V4].
  { unfold in_width. lia. }
  { rewrite Z.odd_add, (fl_locked g _ _ _ Hc). done. }
  { rewrite L1. lia. }
  { by intros ? [= <-]. }
  destruct (vgood_blind _ _ V4 (blind_header kOffWriteSeq (u64 (published_ w + 1)) (or_intror (or_introl eq_refl)))) as [V5 V6].
  destruct (vgood_blind _ _ V6 (blind_header kOffOpenRec 0 (or_intror (or_intror eq_refl)))) as [V7 V8].
  cbn [fst snd]. match goal with |- vcall _ _ ?ss _ =>
    assert (Es : ss = bl ++ [lock_store g (cur_slot g w) (lock (cur_slot g w) m + 1)] ++ atomic kOffWriteSeq (put64 (u64 (published_ w + 1))) ++ atomic kOffOpenRec (put64 0)) end.
  { unfold bl, closing_stores. by rewrite <- !app_assoc. }
  rewrite Es. exists None. split.
  - apply (vgood_app _ _ _ _ _ (Some s0)); [exact V1 |]. apply (vgood_app _ _ _ _ _ None); [exact V3 |].
    apply (vgood_app _ _ _ _ _ None); [exact V5 | exact V7].
  - rewrite !apply_stores_app. split; [exact V8 | reflexivity].
Qed.

(** *** Any number of calls *)

Lemma call_sees c k m w s v :
  Rel g k m w s -> vrel m s v -> Z.of_nat (S k) < 2 ^ 31 -> wcall_typed c -> reach (spec_call (slot_bytes g) c s) ->
  vcall m v (ring_call c m w).1 (spec_call (slot_bytes g) c s).
Proof using Hsb Hsc.
  intros Hr Hv Hk Ht Hreach. destruct c as [h sid ns|p|p|complete lat now]; cbn [ring_call].
  - by apply (begin_sees h sid ns k).
  - pose proof (append_sees true p k m w s v Hr Hv Hk Hreach) as A. cbn beta iota in A. by destruct (append p w).
  - pose proof (append_sees false p k m w s v Hr Hv Hk Hreach) as A. cbn beta iota in A. by destruct (append_unaligned p w).
  - pose proof (finish_sees complete lat now k m w s v Hr Hv Hk Ht) as F. by destruct (finish complete lat now w) as [[o ss] w'].
Qed.

Lemma calls_sees cs k m w s v :
  Rel g k m w s -> vrel m s v -> Z.of_nat (k + length cs) < 2 ^ 31 -> Forall wcall_typed cs ->
  (forall cs1 cs2, cs = cs1 ++ cs2 -> reach (spec_calls (slot_bytes g) cs1 s)) ->
  exists v', vgood g reach v m (ring_calls cs m w).1 v'.
Proof using Hsb Hsc.
  revert k m w s v. induction cs as [|c cs IH]; intros k m w s v Hr Hv Hk Ht Hreach; cbn [ring_calls].
  - exists v. constructor.
  - cbn [length] in Hk. pose proof (call_sees c k m w s v Hr Hv ltac:(lia) (Forall_inv Ht) (Hreach [c] cs eq_refl)) as (v1 & V1 & R1).
    pose proof (call_ok_any g Hsb Hsc c k m w s Hr ltac:(lia) (Forall_inv Ht)) as C. destruct (ring_call c m w) as [s1 w1]. destruct C as [_ C2].
    cbn [fst] in *. destruct (IH (S k) _ w1 _ v1 C2 R1 ltac:(lia) (Forall_inv_tail Ht)) as (v2 & V2).
    { intros cs1 cs2 ->. apply (Hreach (c :: cs1) cs2). done. }
    destruct (ring_calls cs (apply_stores m s1) w1) as [s2 w2]. exists v2. by eapply vgood_app.
Qed.

(** Moment by moment. *)
Lemma vgood_moments v m ss v' :
  vgood g reach v m ss v' -> sees g reach m v ->
  exists vis : nat -> option RingSpec, vis 0%nat = v /\
    forall n, sees g reach (apply_stores m (take n ss)) (vis n) /\
      goes_on g (apply_stores m (take n ss)) (vis n) (apply_stores m (take (S n) ss)) (vis (S n)).
Proof using.
  induction 1 as [v m|v m s ss v1 v' Hs1 Hg Hv IH]; intros Hs.
  - exists (fun _ => v). split; [done |]. intros n. rewrite !take_nil. split; [done |]. cbn. destruct v as [s|]; [| exact I]. cbn. intros _.
    split; [| split; apply agree_refl]. destruct Hs as (_ & a & Ha & _). exists s, a, a.
    split; [done |]. split; [done |]. split; [done |]. split; [done |]. apply extends_refl.
  - destruct (IH Hs1) as (vis & E0 & Hvis). exists (fun n => match n with O => v | S n => vis n end). split; [done |].
    intros [|n]; [| apply Hvis]. split; [done |]. cbn. rewrite E0. exact Hg.
Qed.

End Peek.

(** ** A reader following the open record *)

Section Follow.
Context (g : AuRingGeom) (ep : Z) (recs : list Rec) (mem : nat -> Mem) (pub : nat -> Z) (reach : RingSpec -> Prop)
  (vis : nat -> option RingSpec).
Hypothesis Hsb : 0 <= slot_bytes g < 2 ^ 32.
Hypothesis Hist : RingHistory g ep recs mem pub.
Hypothesis Hsees : forall n, sees g reach (mem n) (vis n).
Hypothesis Hgoes : forall n, goes_on g (mem n) (vis n) (mem (S n)) (vis (S n)).
Context (tau : nat -> nat).
Hypothesis Htau : forall k k', (k <= k')%nat -> (tau k <= tau k')%nat.

Notation lock i n := (lock_of g i (mem n)).
Notation H := (fun k => mem (tau k)).
Notation rec_of s := (Z.of_nat (length (sp_recs s))).

(** The frame seen at a moment is seen, further on, while its lock has not stepped. *)
Lemma follows t t' s a :
  (t <= t')%nat -> vis t = Some s -> sp_cur s = Some a ->
  let i := rec_of s mod slot_count g in
  lock i t' = lock i t ->
  (exists s' a', vis t' = Some s' /\ sp_recs s' = sp_recs s /\ sp_cur s' = Some a' /\ extends a a') /\
  agree (mem t) (mem t') (slot_addr g i + 8) 21 /\ agree (mem t) (mem t') (slot_addr g i + 55) 1.
Proof using Hist Hgoes.
  intros Ht Hv Ha i. pose proof (slot_index g ep recs mem pub Hist (rec_of s)) as Hi. fold i in Hi.
  induction Ht as [|t' Ht IH]; intros He.
  - split; [| split; apply agree_refl]. exists s, a. split; [done |]. split; [done |]. split; [done |]. apply extends_refl.
  - assert (E1 : lock i t' = lock i t).
    { pose proof (lock_le g ep recs mem pub Hist i t t' Hi Ht). pose proof (lock_le g ep recs mem pub Hist i t' (S t') Hi ltac:(lia)). lia. }
    destruct (IH E1) as ((s1 & a1 & Hv1 & Hr1 & Ha1 & He1) & Ag1 & Ag2). pose proof (Hgoes t') as G. rewrite Hv1 in G. cbn in G.
    rewrite Hr1 in G. fold i in G. destruct (G ltac:(lia)) as ((s2 & a1' & a2 & Hv2 & Hr2 & Ha1' & Ha2 & He2) & Ag3 & Ag4).
    rewrite Ha1 in Ha1'. injection Ha1' as <-. split; [| split; by eapply agree_trans].
    exists s2, a2. split; [done |]. split; [congruence |]. split; [done |]. by eapply extends_trans.
Qed.

(** The view shows the frame of the spec state [s], as far as it goes. *)
Definition view_good (v : OpenView) (s : RingSpec) (a : Au) : Prop :=
  rm_rec_no (v_meta v) = rec_of s /\ rm_frame_id64 (v_meta v) = au_id64 a /\ rm_pts_us (v_meta v) = pts_us (au_hdr a) /\
  rm_sid (v_meta v) = au_sid a /\ rm_nslices (v_meta v) = au_nslices a /\
  v_bytes v = take (length (v_bytes v)) (au_bytes a) /\ (length (v_bytes v) <= au_seen a)%nat.

Definition view_ok (v : OpenView) (n : nat) : Prop :=
  v_lock v <> 0 ->
  exists t s a, (t <= n)%nat /\ vis t = Some s /\ sp_cur s = Some a /\ lock (rec_of s mod slot_count g) t = v_lock v /\ view_good v s a.

Lemma view_ok_later v n n' : (n <= n')%nat -> view_ok v n -> view_ok v n'.
Proof using. intros Hn Hv Hl. destruct (Hv Hl) as (t & s & a & ? & ?). exists t, s, a. split; [lia | done]. Qed.

Lemma sub_lookup m off n k : (k < n)%nat -> sub m off n !! k = Some (m (off + Z.of_nat k)).
Proof using. intros Hk. unfold sub. change (map ?f ?l) with (f <$> l). by rewrite list_lookup_fmap, lookup_seq_lt. Qed.

(** A byte under the visible length, at any moment the lock has not stepped. *)
Lemma seen_byte t t' s a x :
  (t <= t')%nat -> vis t = Some s -> sp_cur s = Some a -> (x < au_seen a)%nat ->
  lock (rec_of s mod slot_count g) t' = lock (rec_of s mod slot_count g) t ->
  au_bytes a !! x = Some (mem t' (slot_base g (rec_of s) + kAuSlotHdrBytes + Z.of_nat x)).
Proof using Hist Hgoes Hsees.
  intros Ht Hv Ha Hx He. destruct (follows t t' s a Ht Hv Ha He) as ((s' & a' & Hv' & Hr' & Ha' & Hext) & _).
  pose proof (Hsees t') as Hs. rewrite Hv' in Hs. destruct Hs as (_ & a1 & Ha1 & Hsh & _). rewrite Ha' in Ha1. injection Ha1 as <-. rewrite Hr' in Hsh.
  pose proof (ex_seen _ _ Hext). pose proof (sw_len _ _ _ _ Hsh). pose proof (sw_bytes _ _ _ _ Hsh) as Hb.
  pose proof (Hsees t) as Hs. rewrite Hv in Hs. destruct Hs as (_ & a1 & Ha1 & Hsh1 & _). rewrite Ha in Ha1. injection Ha1 as <-. pose proof (sw_len _ _ _ _ Hsh1).
  assert (E : sub (mem t') (slot_base g (rec_of s) + kAuSlotHdrBytes) (au_seen a') !! x = take (au_seen a') (au_bytes a') !! x) by (by rewrite Hb).
  rewrite sub_lookup in E by lia. rewrite lookup_take in E. rewrite decide_True in E by lia. rewrite E.
  destruct (lookup_lt_is_Some_2 (au_bytes a) x ltac:(lia)) as [y Hy]. rewrite Hy. symmetry. by eapply prefix_lookup_Some; [| apply Hext].
Qed.

Lemma view_good_meta v s a s' a' : view_good v s a -> sp_recs s' = sp_recs s -> extends a a' -> view_good v s' a'.
Proof using.
  intros (V1 & V2 & V3 & V4 & V5 & V6 & V7) Hr [E1 E2 E3 E4 E5 [tl E6]]. split; [by rewrite Hr |]. split; [congruence |]. split; [congruence |].
  split; [congruence |]. split; [congruence |]. split; [| lia]. rewrite V6 at 1. rewrite E6.
  rewrite take_app_le; [done |]. rewrite V6 at 1. rewrite length_take. lia.
Qed.

Lemma grow_ok i v lk k :
  0 <= i < slot_count g ->
  ((exists kl, (k <= kl)%nat /\ lock i (tau kl) = lk) ->
   exists t s a, (t <= tau k)%nat /\ vis t = Some s /\ sp_cur s = Some a /\ rec_of s mod slot_count g = i /\ lock i t = lk /\ view_good v s a) ->
  let '(res, v', k') := grow_ g (slot_addr g i) lk v H k in
  (k <= k')%nat /\ v_lock v' = v_lock v /\
  ((res < 0 /\ v' = v) \/
   (0 <= res /\ exists t s a, (t <= tau k')%nat /\ vis t = Some s /\ sp_cur s = Some a /\ rec_of s mod slot_count g = i /\
      lock i t = lk /\ view_good v' s a)).
Proof using Hsb Hist Hsees Hgoes Htau.
  intros Hi Hsrc. unfold grow_, mbind, LM_bind, load. cbv beta. set (vlen := word 4 (mem (tau k)) (slot_addr g i + kSOffValidLen)).
  set (have := length (v_bytes v)) in *. destruct (slot_bytes g <? vlen).
  { cbn. split; [lia |]. split; [done |]. left. split; [lia | done]. }
  unfold copy_out. set (n := Z.to_nat (vlen - Z.of_nat have)). set (k2 := (S k + n)%nat).
  change (word 4 (mem (tau k2)) (slot_addr g i + kSOffLock)) with (lock i (tau k2)).
  destruct (Z.eqb_spec (lock i (tau k2)) lk) as [El|]; cbn [negb].
  2: { cbn. split; [lia |]. split; [done |]. left. split; [lia | done]. }
  destruct Hsrc as (t & s & a & Ht & Hv & Ha & Hri & Hlt & Hgood); [exists k2; split; [lia | done] |].
  assert (Hkk : forall j, (k <= j <= k2)%nat -> lock i (tau j) = lk).
  { intros j Hj. pose proof (lock_le g ep recs mem pub Hist i t (tau j) Hi ltac:(pose proof (Htau k j ltac:(lia)); lia)).
    pose proof (lock_le g ep recs mem pub Hist i (tau j) (tau k2) Hi ltac:(apply Htau; lia)). lia. }
  destruct (follows t (tau k) s a Ht Hv Ha) as ((s1 & a1 & Hv1 & Hr1 & Ha1 & Hext) & _); [rewrite Hri, Hkk by lia; done |].
  pose proof (Hsees (tau k)) as Hs. rewrite Hv1 in Hs. destruct Hs as (_ & a1' & Ha1' & Hsh & _). rewrite Ha1 in Ha1'. injection Ha1' as <-.
  assert (Hri1 : rec_of s1 mod slot_count g = i) by (by rewrite Hr1).
  assert (Evlen : vlen = Z.of_nat (au_seen a1)).
  { rewrite <- (sw_seen _ _ _ _ Hsh). rewrite slot_base_addr, Hri1. done. }
  pose proof (view_good_meta v s a s1 a1 Hgood Hr1 Hext) as Hgood1.
  destruct (Z.leb_spec vlen (Z.of_nat have)) as [Hle|Hgt].
  { cbn. split; [lia |]. split; [done |]. right. split; [lia |]. exists (tau k), s1, a1. split; [apply Htau; lia |].
    split; [done |]. split; [done |]. split; [done |]. split; [apply Hkk; lia | exact Hgood1]. }
  cbn. split; [lia |]. split; [done |]. right. split; [lia |]. exists (tau k), s1, a1. split; [apply Htau; lia |].
  split; [done |]. split; [done |]. split; [done |]. split; [apply Hkk; lia |].
  destruct Hgood1 as (V1 & V2 & V3 & V4 & V5 & V6 & V7). fold have in V6, V7.
  set (more := map _ (seq 0 n)).
  assert (Lm : length more = n) by (unfold more; by rewrite length_map, length_seq).
  assert (Eb : v_bytes v ++ more = take (au_seen a1) (au_bytes a1)).
  { pose proof (sw_len _ _ _ _ Hsh). apply list_eq. intros x. destruct (decide (x < au_seen a1)%nat) as [Hx|Hx].
    - rewrite lookup_take, decide_True by done. destruct (decide (x < have)%nat) as [Hxh|Hxh].
      + rewrite lookup_app_l by done. rewrite V6, lookup_take, decide_True by done. done.
      + rewrite lookup_app_r by (fold have; lia). fold have. unfold more. change (map ?f ?l) with (f <$> l).
        rewrite list_lookup_fmap, lookup_seq_lt by (unfold n; lia). cbn.
        rewrite (seen_byte (tau k) (tau (S k + (x - have))) s1 a1 x); try done.
        * f_equal. rewrite slot_base_addr, Hri1. f_equal. lia.
        * apply Htau. lia.
        * rewrite Hri1, !Hkk by (unfold k2, n; lia). done.
    - rewrite !lookup_ge_None_2; [done | rewrite length_take; lia |]. rewrite length_app, Lm. fold have. unfold n. lia. }
  split; [exact V1 |]. split; [exact V2 |]. split; [exact V3 |]. split; [exact V4 |]. split; [exact V5 |]. cbn [v_bytes].
  pose proof (sw_len _ _ _ _ Hsh). rewrite Eb, length_take. split; [f_equal; lia | lia].
Qed.

Lemma odd_nonzero z : Z.odd z = true -> z <> 0.
Proof using. intros Ho ->. discriminate. Qed.

(** The open slot, seen open with its lock odd: what it shows is the frame in turn. *)
Lemma open_seen i k k' :
  0 <= i < slot_count g -> (k <= k')%nat -> lock i (tau k') = lock i (tau k) -> Z.odd (lock i (tau k)) = true ->
  forall j, (k <= j <= k')%nat -> state_at (mem (tau j)) (slot_addr g i) = kSlotOpen ->
  exists s a, vis (tau j) = Some s /\ sp_cur s = Some a /\ shows g (mem (tau j)) (rec_of s) a /\ rec_of s mod slot_count g = i /\
    lock i (tau j) = lock i (tau k).
Proof using Hist Hsees Htau.
  intros Hi Hk He Ho j Hj Hst.
  assert (Ej : lock i (tau j) = lock i (tau k)).
  { pose proof (lock_le g ep recs mem pub Hist i (tau k) (tau j) Hi ltac:(apply Htau; lia)).
    pose proof (lock_le g ep recs mem pub Hist i (tau j) (tau k') Hi ltac:(apply Htau; lia)). lia. }
  pose proof (Hsees (tau j)) as Hs. destruct (vis (tau j)) as [s|] eqn:Ev.
  2: { exfalso. apply (Hs i Hi); [by rewrite Ej | exact Hst]. }
  destruct Hs as (_ & a & Ha & Hsh & Hos). exists s, a. split; [done |]. split; [done |]. split; [done |]. split; [| exact Ej].
  pose proof (rh_slot _ _ _ _ _ Hist (tau j) i Hi) as S1. unfold slot_ok in S1. rewrite Ej, Ho in S1.
  pose proof (rh_slot _ _ _ _ _ Hist (tau j) _ (slot_index g ep recs mem pub Hist (rec_of s))) as S2. unfold slot_ok in S2. rewrite Hos in S2. congruence.
Qed.

Lemma view_ok_none n m b : view_ok (mkView m b 0) n.
Proof using. intros Hl. by destruct Hl. Qed.

(** Following a view one call further. *)
Lemma peek_followed r v k :
  r_geom r = g -> v_lock v <> 0 -> view_ok v (tau k) -> rm_rec_no (v_meta v) = cursor_ r ->
  let '(res, v', k') := grow_ g (slot_base g (cursor_ r)) (v_lock v) v H k in
  (k <= k')%nat /\ view_ok v' (tau k') /\ v_lock v' <> 0.
Proof using Hsb Hist Hsees Hgoes Htau.
  intros Hg Hl Hv Hrec. rewrite slot_base_addr. set (i := cursor_ r mod slot_count g).
  assert (Hi : 0 <= i < slot_count g) by apply (slot_index g ep recs mem pub Hist).
  pose proof (grow_ok i v (v_lock v) k Hi) as G. destruct (grow_ g (slot_addr g i) (v_lock v) v H k) as [[res v'] k'].
  destruct G as (G1 & G2 & G3).
  { intros _. destruct (Hv Hl) as (t & s & a & Ht & Hvs & Ha & Hlt & Hgood). exists t, s, a.
    assert (Er : rec_of s = cursor_ r) by (rewrite <- Hrec; symmetry; apply Hgood).
    rewrite Er in Hlt. rewrite Er. split; [lia |]. split; [done |]. split; [done |]. split; [done |]. split; [done | exact Hgood]. }
  split; [done |]. rewrite G2. split; [| done]. destruct G3 as [[_ ->]|(_ & t & s & a & Ht & Hvs & Ha & Hri & Hlt & Hgood)].
  - apply (view_ok_later _ (tau k)); [by apply Htau | done].
  - intros _. exists t, s, a. split; [done |]. split; [done |]. split; [done |]. split; [rewrite Hri, G2; done | exact Hgood].
Qed.

(** The header copied for a first sight of the open record. *)
Lemma open_fresh r k k1 :
  (k <= k1)%nat ->
  let slot := slot_base g (cursor_ r) in
  let l1 := lock (cursor_ r mod slot_count g) (tau (S (S k1))) in
  let k3 := S (S (S (S k1))) in
  Z.odd l1 = true -> word 1 (mem (tau (S (S (S k1))))) (slot + kSOffState) = kSlotOpen ->
  let '(rec_no, k4) := get 8 (slot + kSOffRecNo) H k3 in
  let '(id, k5) := get 8 (slot + kSOffFrameId) H k4 in
  let '(pts, k6) := get 4 (slot + kSOffPts) H k5 in
  let '(sid, k7) := get 1 (slot + kSOffSid) H k6 in
  let '(fl, k8) := get 1 (slot + kSOffFlags) H k7 in
  let '(ns, k9) := get 1 (slot + kSOffNslices) H k8 in
  (k3 <= k9)%nat /\
  ((exists kl, (k9 <= kl)%nat /\ lock (cursor_ r mod slot_count g) (tau kl) = l1) ->
   exists t s a, (t <= tau k9)%nat /\ vis t = Some s /\ sp_cur s = Some a /\ rec_of s mod slot_count g = cursor_ r mod slot_count g /\
     lock (cursor_ r mod slot_count g) t = l1 /\
     view_good (mkView (mkMeta rec_no id pts 0 sid fl ns 0 0 0 0 0 0 0 0 default_salvage 0) [] l1) s a).
Proof using Hist Hsees Hgoes Htau.
  intros Hk slot l1 k3 Ho Hst. set (i := cursor_ r mod slot_count g) in *.
  assert (Hi : 0 <= i < slot_count g) by apply (slot_index g ep recs mem pub Hist). set (ks := S (S (S k1))) in *.
  unfold get, copy_out. split; [lia |]. intros (kl & Hkl & El).
  destruct (open_seen i (S (S k1)) kl Hi ltac:(lia) El Ho ks ltac:(lia) Hst) as (s & a & Hv & Ha & Hsh & Hri & Els).
  assert (Hag : forall j, (ks <= j <= kl)%nat ->
            agree (mem (tau ks)) (mem (tau j)) (slot_addr g i + 8) 21 /\ agree (mem (tau ks)) (mem (tau j)) (slot_addr g i + 55) 1).
  { intros j Hj. destruct (follows (tau ks) (tau j) s a ltac:(apply Htau; lia) Hv Ha) as (_ & A1 & A2).
    - rewrite Hri, Els. pose proof (lock_le g ep recs mem pub Hist i (tau ks) (tau j) Hi ltac:(apply Htau; lia)).
      pose proof (lock_le g ep recs mem pub Hist i (tau j) (tau kl) Hi ltac:(apply Htau; lia)). lia.
    - rewrite Hri in A1, A2. by split. }
  exists (tau ks), s, a. split; [apply Htau; lia |]. split; [done |]. split; [done |]. split; [done |]. split; [exact Els |].
  assert (Es : slot = slot_addr g i) by done. assert (Er : slot_base g (rec_of s) = slot_addr g i) by (by rewrite slot_base_addr, Hri).
  destruct Hsh as [S1 S2 S3 S4 S5 _ _ _ _]. rewrite Er in S1, S2, S3, S4, S5.
  assert (Hw : forall n off kx, (ks <= kx)%nat -> (kx + n <= kl)%nat ->
            (slot_addr g i + 8 <= off /\ off + Z.of_nat n <= slot_addr g i + 29) \/ (off = slot_addr g i + 55 /\ n = 1%nat) ->
            le_val (map (fun j => mem (tau (kx + j)) (off + Z.of_nat j)) (seq 0 n)) = word n (mem (tau ks)) off).
  { intros n off kx H1 H2 H3. unfold word, sub. f_equal. apply map_ext_in. intros j Hj%in_seq.
    destruct (Hag (kx + j)%nat ltac:(lia)) as [A1 A2]. destruct H3; [apply A1 | apply A2]; lia. }
  unfold kSOffRecNo, kSOffFrameId, kSOffPts, kSOffSid, kSOffFlags, kSOffNslices in *. rewrite Es.
  unfold view_good. cbn [v_meta v_bytes rm_rec_no rm_frame_id64 rm_pts_us rm_sid rm_nslices length].
  rewrite !Hw by lia. split; [done |]. split; [done |]. split; [done |]. split; [done |]. split; [done |]. split; [done | lia].
Qed.

Lemma peek_ok r v k :
  r_geom r = g -> view_ok v (tau k) ->
  let '(res, v', k') := peek_open r v H k in
  (k <= k')%nat /\ view_ok v' (tau k') /\ (res = kOpen \/ res = kGrow -> v_lock v' <> 0).
Proof using Hsb Hist Hsees Hgoes Htau.
  intros Hg Hv. unfold peek_open. assert (Hstay : forall res j, res = kONone -> (k <= j)%nat ->
    (k <= j)%nat /\ view_ok v (tau j) /\ (res = kOpen \/ res = kGrow -> v_lock v <> 0)).
  { intros res j -> Hj. split; [done |]. split; [apply (view_ok_later _ (tau k)); [by apply Htau | done] |]. by intros [?|?]. }
  destruct (dead_ r || negb (r_map r)); [by apply Hstay |]. unfold mbind at 1, LM_bind at 1.
  destruct (get 8 kOffEpoch H k) as [ep' k1] eqn:E1. assert (Hk1 : (k <= k1)%nat) by (unfold get, copy_out in E1; injection E1 as _ <-; lia).
  destruct (negb (ep' =? epoch_ r)); [by apply Hstay |]. unfold mbind at 1, LM_bind at 1, load at 1.
  destruct (negb (cursor_ r =? _)); [apply Hstay; [done | lia] |]. rewrite Hg.
  set (v1 := if negb (v_lock v =? 0) && negb (rm_rec_no (v_meta v) =? cursor_ r) then no_view else v).
  assert (Hv1 : forall j, (k <= j)%nat -> view_ok v1 (tau j)).
  { intros j Hj. unfold v1. destruct (_ && _); [apply view_ok_none |]. apply (view_ok_later _ (tau k)); [by apply Htau | done]. }
  assert (Hrec1 : v_lock v1 <> 0 -> rm_rec_no (v_meta v1) = cursor_ r).
  { unfold v1. destruct (Z.eqb_spec (v_lock v) 0), (Z.eqb_spec (rm_rec_no (v_meta v)) (cursor_ r)); cbn; done. }
  clearbody v1. clear Hstay Hv.
  assert (Hstay : forall res j, res = kONone -> (k <= j)%nat ->
    (k <= j)%nat /\ view_ok v1 (tau j) /\ (res = kOpen \/ res = kGrow -> v_lock v1 <> 0)).
  { intros res j -> Hj. split; [done |]. split; [by apply Hv1 |]. by intros [?|?]. }
  unfold mbind at 1, LM_bind at 1, load at 1. unfold mbind at 1, LM_bind at 1, load at 1. unfold mbind at 1, LM_bind at 1, load at 1.
  set (k3 := S (S (S (S k1)))). set (open_rec := word 8 _ kOffOpenRec). set (slot := slot_base g (cursor_ r)).
  set (l1 := word 4 _ (slot + kSOffLock)). set (st := word 1 _ (slot + kSOffState)).
  destruct (Z.eqb_spec (v_lock v1) 0) as [Ez|Ez]; cbn [negb].
  - destruct (_ || _) eqn:Eor; [apply Hstay; [done | lia] |]. apply orb_false_elim in Eor as [Eor Est].
    apply orb_false_elim in Eor as [_ Eodd]. apply negb_false_iff in Eodd. apply negb_false_iff, Z.eqb_eq in Est.
    pose proof (open_fresh r k k1 Hk1) as F. cbn zeta in F. fold slot k3 in F. change (lock _ (tau (S (S k1)))) with l1 in F.
    specialize (F Eodd Est). revert F. unfold mbind, LM_bind.
    destruct (get 8 (slot + kSOffRecNo) H k3) as [rec_no k4]. destruct (get 8 (slot + kSOffFrameId) H k4) as [id k5].
    destruct (get 4 (slot + kSOffPts) H k5) as [pts k6]. destruct (get 1 (slot + kSOffSid) H k6) as [sid k7].
    destruct (get 1 (slot + kSOffFlags) H k7) as [fl k8]. destruct (get 1 (slot + kSOffNslices) H k8) as [ns k9].
    intros [F1 F2]. set (fresh := mkView _ [] l1) in *.
    pose proof (grow_ok (cursor_ r mod slot_count g) fresh l1 k9 (slot_index g ep recs mem pub Hist (cursor_ r)) F2) as G.
    rewrite <- slot_base_addr in G. fold slot in G. destruct (grow_ g slot l1 fresh H k9) as [[res v'] k']. destruct G as (G1 & G2 & G3).
    destruct (Z.ltb_spec res 0) as [Hlt|Hge]; [apply Hstay; [done | lia] |].
    destruct (negb (rm_rec_no (v_meta v') =? cursor_ r)); [apply Hstay; [done | lia] |].
    cbn. split; [lia |]. destruct G3 as [[? _]|(_ & t & s & a & Ht & Hvs & Ha & Hri & Hlt & Hgood)]; [lia |].
    rewrite G2. change (v_lock fresh) with l1. split; [| intros _; by apply odd_nonzero].
    intros _. exists t, s, a. split; [done |]. split; [done |]. split; [done |]. split; [rewrite Hri, G2; exact Hlt | exact Hgood].
  - destruct (_ || _).
    { cbn. split; [lia |]. split; [apply view_ok_none |]. by intros [?|?]. }
    destruct (Z.eqb_spec l1 (v_lock v1)) as [El|]; cbn [negb]; [| apply Hstay; [done | lia]].
    unfold mbind, LM_bind. rewrite El. pose proof (peek_followed r v1 k3 Hg Ez (Hv1 k3 ltac:(lia)) (Hrec1 Ez)) as P. fold slot in P.
    destruct (grow_ g slot (v_lock v1) v1 H k3) as [[res v'] k']. destruct P as (P1 & P2 & P3). cbn. split; [lia |]. split; [exact P2 |]. by intros _.
Qed.

End Follow.

(** A consumer's loop: poll, and look at the open record when nothing closed. *)
Fixpoint rounds (qs : list (option Z * Z)) (r : AuRingReader) (v : OpenView) : LM (list OpenView) :=
  match qs with
  | [] => mret []
  | (size, now) :: qs =>
      '(res, _, r) ← next size now r;
      match res with
      | kNone =>
          '(o, v) ← peek_open r v;
          more ← rounds qs r v;
          mret (match o with kOpen | kGrow => v :: more | _ => more end)
      | _ => rounds qs r no_view
      end
  end.

(** What a view may show: the frame being filled after some of the writer's calls, from its first byte on. *)
Definition view_right (sb : Z) (cs : list WCall) (v : OpenView) : Prop :=
  exists cs1 cs2 a, cs = cs1 ++ cs2 /\ let s := spec_calls sb cs1 spec0 in
    sp_cur s = Some a /\ rm_rec_no (v_meta v) = Z.of_nat (length (sp_recs s)) /\ rm_frame_id64 (v_meta v) = au_id64 a /\
    rm_pts_us (v_meta v) = pts_us (au_hdr a) /\ rm_sid (v_meta v) = au_sid a /\ rm_nslices (v_meta v) = au_nslices a /\
    v_bytes v `prefix_of` au_bytes a.

Lemma rounds_ok g ep recs mem pub cs vis tau :
  0 <= slot_bytes g < 2 ^ 32 -> RingHistory g ep recs mem pub ->
  let reach := fun s => exists cs1 cs2, cs = cs1 ++ cs2 /\ s = spec_calls (slot_bytes g) cs1 spec0 in
  (forall n, sees g reach (mem n) (vis n)) -> (forall n, goes_on g (mem n) (vis n) (mem (S n)) (vis (S n))) ->
  (forall k k', (k <= k')%nat -> (tau k <= tau k')%nat) ->
  forall qs last r v k, reader_ok g ep mem pub last r (tau k) -> view_ok g mem vis v (tau k) ->
  Forall (view_right (slot_bytes g) cs) (rounds qs r v (fun k => mem (tau k)) k).1.
Proof.
  intros Hsb Hist reach Hs Hg Htau qs. induction qs as [|[size now] qs IH]; intros last r v k Hr Hv; cbn [rounds]; [constructor |].
  unfold mbind at 1, LM_bind at 1. pose proof (next_ok g ep recs mem pub Hist tau Htau last r k size now Hr) as N.
  destruct (next size now r _ k) as [[[res out] r'] k']. destruct N as [Hk N].
  assert (Hr' : exists last', reader_ok g ep mem pub last' r' (tau k')).
  { destruct out as [rec|]; cbn in N; [destruct N as (d & _ & _ & _ & N) |]; eauto. }
  destruct Hr' as [last' Hr']. assert (Hnil : view_ok g mem vis no_view (tau k')) by apply view_ok_none.
  destruct res; [| by apply (IH last') | by apply (IH last')].
  pose proof (peek_ok g ep recs mem pub reach vis Hsb Hist Hs Hg tau Htau r' v k' (ro_geom _ _ _ _ _ _ _ Hr')
    (view_ok_later _ _ _ v (tau k) (tau k') (Htau _ _ Hk) Hv)) as P.
  unfold mbind, LM_bind. destruct (peek_open r' v _ k') as [[o v'] k'']. destruct P as (Hk' & Hv' & Hl).
  pose proof (reader_ok_later g ep recs mem pub Hist last' r' (tau k') (tau k'') (Htau _ _ Hk') Hr') as Hr''.
  specialize (IH last' r' v' k'' Hr'' Hv'). destruct (rounds qs r' v' _ k'') as [more k3]. cbn [fst] in IH.
  assert (Hright : o = kOpen \/ o = kGrow -> view_right (slot_bytes g) cs v').
  { intros Ho. destruct (Hv' (Hl Ho)) as (t & s & a & _ & Hvt & Ha & _ & (G1 & G2 & G3 & G4 & G5 & G6 & _)).
    pose proof (Hs t) as Ht. rewrite Hvt in Ht. destruct Ht as ((cs1 & cs2 & Ecs & ->) & _). exists cs1, cs2, a.
    split; [done |]. split; [done |]. split; [done |]. split; [done |]. split; [done |]. split; [done |]. split; [done |].
    rewrite G6. apply prefix_take. }
  destruct o; cbn; try exact IH; (constructor; [auto | exact IH]).
Qed.

(** C26.  A frame ring record followed while it is being filled ([AuRingReader.peek_open]): whatever the writer
    does and wherever the reader's loads fall between its stores, every view handed to the consumer is of the
    frame in turn after some of the writer's calls - its number, id, time stamp, stream and slice count - and
    its bytes are the first bytes of that very frame, never of another that took its slot. *)
Theorem frame_ring_peek geom now m cs size qs (tau : nat -> nat) :
  geom_ok geom -> in_width 64 now -> Forall wcall_typed cs -> Z.of_nat (length cs) < 2 ^ 31 ->
  (forall k k', (k <= k')%nat -> (tau k <= tau k')%nat) -> u64 (ring_bytes (aligned geom)) <= size ->
  let '(opened, s0, w) := writer_open geom true now new_writer in
  let ring := apply_stores m s0 in
  let ss := (ring_calls cs ring w).1 in
  let H := fun k => apply_stores ring (take (tau k) ss) in
  let '(ok, r, k) := reader_open (Some size) new_reader H 0%nat in
  opened = true /\ ok = true /\ Forall (view_right (slot_bytes (w_geom w)) cs) (rounds qs r no_view H k).1.
Proof.
  intros Hg Hn Ht Hlen Htau Hsz. rewrite writer_open_ok by done. cbn zeta.
  pose proof Hg as [Hsb Hsc]. destruct (align_ok _ Hsb) as (Ha & Hal & _). set (g := aligned geom) in *.
  set (m0 := apply_stores m (open_stores geom now)). set (w0 := new_writer {{ w_map := true ; w_geom := g }}).
  pose proof (ring_history geom now m cs Hg Hn Ht Hlen) as R. cbn zeta in R. fold m0 g w0 in R.
  pose proof (ring_opened geom now m Hg Hn) as Hr0. fold m0 g w0 in Hr0. cbn zeta in Hr0. destruct Hr0 as [Hr0 Hsnap].
  set (reach := fun s => exists cs1 cs2, cs = cs1 ++ cs2 /\ s = spec_calls (slot_bytes g) cs1 spec0).
  assert (Hs0 : sees g reach m0 None).
  { intros i Hi Ho. destruct Hsnap as (_ & _ & Hsn). specialize (Hsn i Hi). unfold slot_ok in Hsn. rewrite Ho in Hsn.
    destruct Hr0 as (_ & Hc & _). cbn in Hc. destruct Hc as [_ Hc]. unfold cur_slot in Hc. subst i. cbn in Hc, Ho. congruence. }
  destruct (calls_sees g reach ltac:(cbn; lia) ltac:(cbn; lia) cs 0 m0 w0 spec0 None Hr0 (conj Hs0 eq_refl) ltac:(lia) Ht) as (v' & Hvg).
  { intros cs1 cs2 E. exists cs1, cs2. done. }
  destruct (vgood_moments g reach _ _ _ _ Hvg Hs0) as (vis & _ & Hvis).
  destruct (ring_calls cs m0 w0) as [ss w']. cbn [fst] in *. destruct R as (pub & Hh & _).
  pose proof (reader_open_ok _ _ _ _ _ Hh tau Htau new_reader size 0%nat Hsz ltac:(cbn; lia) Hal) as O.
  destruct (reader_open (Some size) new_reader _ 0%nat) as [[ok r] k]. destruct O as (-> & _ & Hr).
  split; [done |]. split; [done |].
  apply (rounds_ok g _ _ _ _ cs vis tau ltac:(cbn; lia) Hh (fun n => proj1 (Hvis n)) (fun n => proj2 (Hvis n)) Htau qs (-1) r no_view k Hr).
  apply view_ok_none.
Qed.

(** The second frame is seen open, byte by byte, after the first was. *)
Lemma frame_ring_peek_witness :
  let run (P : bool -> bool -> list OpenView -> AuRingWriter -> Prop) :=
    let '(opened, s0, w) := writer_open w_geom_small true 1000 new_writer in
    let ring := apply_stores (fun _ => 0) s0 in
    let ss := (ring_calls w_ring_calls ring w).1 in
    let H := fun k => apply_stores ring (take (k / 4) ss) in
    let '(ok, r, k) := reader_open (Some 5000) new_reader H 0%nat in
    P opened ok (rounds (replicate 20 (None, 1)) r no_view H k).1 w in
  run (fun _ _ views _ => map (fun v => (rm_rec_no (v_meta v), v_bytes v)) views = [(0, [1; 2; 3]); (0, [1; 2; 3; 4; 5]); (1, [9])]) /\
  run (fun opened ok views w => opened = true /\ ok = true /\ Forall (view_right (slot_bytes (w_geom w)) w_ring_calls) views).
Proof.
  split; [vm_compute; reflexivity |].
  refine (frame_ring_peek w_geom_small 1000 (fun _ => 0) w_ring_calls 5000 (replicate 20 (None, 1)) (fun k => (k / 4)%nat) _ _ _ _ _ _).
  - split; cbn; lia.
  - unfold in_width. lia.
  - exact w_ring_typed.
  - cbn. lia.
  - intros k k' Hk. by apply Nat.Div0.div_le_mono.
  - vm_compute. discriminate.
Defined.

(** The header's flags are the exception: a first sight of the open record that falls into [finish], between
    its store of the flags and the step of the lock, shows the flags of the record. *)
Lemma open_view_shows_record_flags :
  exists tau : nat -> nat, (forall k k', (k <= k')%nat -> (tau k <= tau k')%nat) /\
    let o := writer_open w_geom_small true 1000 new_writer in
    let ring := apply_stores (fun _ => 0) o.1.2 in
    let ss := (ring_calls (firstn 4 w_ring_calls) ring o.2).1 in
    let r := (reader_open (Some 5000) new_reader (fun _ => ring) 0%nat).1.2 in
    let '(res, v, _) := peek_open r no_view (fun k => apply_stores ring (take (tau k) ss)) 0%nat in
    res = kOpen /\ Z.land (rm_flags (v_meta v)) kRecFlagComplete = kRecFlagComplete.
Proof.
  exists (fun k => if (k <? 20)%nat then 50%nat else 55%nat). split; [| vm_compute; split; reflexivity].
  intros k k' Hk. destruct (Nat.ltb_spec k 20), (Nat.ltb_spec k' 20); lia.
Qed.
