(* ===== verification/Aggregator.v ===== *)
(** * Aggregator: what the cards hear, routed and counted (gs/src/aggregator.cpp)

    Every body a card receives comes here.  The ground's own frames, heard back, are set aside
    before any accounting; control frames, the display port and the probe stream go to their
    sinks, and everything else to the video decoder.  Each card keeps its delivery from the
    gaps of the 12-bit hardware sequence, and averages of the signal, over all its frames and by
    class.  The bench's injected loss (a build option) and the gap log are not modelled. *)
From S2P Require Import Prelude Bytes SipHash RcProto RcProtoProps Sbi SwConfig UepEncoder UepDecoder UepEndToEnd.
Local Open Scope Z_scope.
Local Open Scope mabur_scope.

(** A received body: the frame's payload and what the radio says of it.  The channel it came on,
    which only the hop reads, is left out; [fcs_ok] is the code's [crc_ok]. *)
Record RxBody := mkRxBody {
  card_id : Z; mono_us : Z; rssi : Z * Z; snr : Z * Z; evm : Z * Z; phy_valid : bool; fcs_ok : bool;
  mac_seq : Z; tsfl : Z; rx_body : list Z; rx_mcs : Z;
}.

Definition kMaxSeqGap : Z := 512.
Definition kEmaAlpha : double := d_lit 1 10.

(** ** Signal averages *)

(** [(1 - kEmaAlpha) * ema + kEmaAlpha * v] *)
Definition ema_step (ema v : double) : double :=
  d_add (d_mul (d_sub d_one kEmaAlpha) ema) (d_mul kEmaAlpha v).

(** The six averages [has_ema] validates together. *)
Record RfEma := mkRfEma {
  rssi_ema : double; rssi_a_ema : double; rssi_b_ema : double;
  snr_ema : double; snr_a_ema : double; snr_b_ema : double;
}.

(** The three of EVM, each with its own flag. *)
Record EvmEma := mkEvmEma { evm_ema : option double; evm_a_ema : option double; evm_b_ema : option double }.

(** The lambda [fold] of [fold_evm]. *)
Definition fold_ema (ema : option double) (v : Z) : option double :=
  Some match ema with None => d_of_Z v | Some e => ema_step e (d_of_Z v) end.

(** 0: no PHY status; -128: the chip's "not measured". *)
Definition sampled (v : Z) : bool := negb (v =? 0) && negb (v =? -128).

Definition fold_evm (t : EvmEma) (a b : Z) : EvmEma :=
  let ta := if sampled a then fold_ema (evm_a_ema t) a else evm_a_ema t in
  let tb := if sampled b then fold_ema (evm_b_ema t) b else evm_b_ema t in
  let best := if sampled a && sampled b then Z.min a b else if sampled a then a else b in
  mkEvmEma (if sampled best then fold_ema (evm_ema t) best else evm_ema t) ta tb.

Definition fold_rf (t : option RfEma) (r s : Z) (rssi_ab snr_ab : Z * Z) : option RfEma :=
  Some match t with
  | None => mkRfEma (d_of_Z r) (d_of_Z rssi_ab.1) (d_of_Z rssi_ab.2)
                    (d_of_Z s) (d_of_Z snr_ab.1) (d_of_Z snr_ab.2)
  | Some t =>
      mkRfEma (ema_step (rssi_ema t) (d_of_Z r)) (ema_step (rssi_a_ema t) (d_of_Z rssi_ab.1))
              (ema_step (rssi_b_ema t) (d_of_Z rssi_ab.2)) (ema_step (snr_ema t) (d_of_Z s))
              (ema_step (snr_a_ema t) (d_of_Z snr_ab.1)) (ema_step (snr_b_ema t) (d_of_Z snr_ab.2))
  end.

(** The fold of one clean frame, the same for a card, a class and the pool. *)
Record Signal := mkSignal { sg_rf : option RfEma; sg_evm : EvmEma }.
Definition new_signal : Signal := mkSignal None (mkEvmEma None None None).

Definition fold_signal (m : RxBody) (s : Signal) : Signal :=
  mkSignal (if phy_valid m then fold_rf (sg_rf s) (Z.max (rssi m).1 (rssi m).2) (Z.max (snr m).1 (snr m).2) (rssi m) (snr m)
            else sg_rf s)
    (fold_evm (sg_evm s) (evm m).1 (evm m).2).

(** ** Classes *)

Inductive RfClass := S0 | S1 | Probe | Msp | Ctrl.
#[export] Instance RfClass_eq_dec : EqDecision RfClass.
Proof. solve_decision. Defined.

Definition class_index (k : RfClass) : nat :=
  match k with S0 => 0 | S1 => 1 | Probe => 2 | Msp => 3 | Ctrl => 4 end.
Definition kNumRfClasses : nat := 5.

(** [class_idx]: control first, then the stream id; none for an unparseable body. *)
Definition class_of (rc_t stream_id : Z) : option RfClass :=
  if 0 <=? rc_t then Some Ctrl
  else if stream_id =? kMspStreamId then Some Msp
  else if stream_id =? kProbeStreamId then Some Probe
  else if stream_id =? 0 then Some S0
  else if stream_id =? 1 then Some S1
  else None.

Record ClassTrack := mkClassTrack { ct_frames : Z; ct_bytes : Z; ct_signal : Signal }.
Definition new_track : ClassTrack := mkClassTrack 0 0 new_signal.

Definition track_step (t : ClassTrack) (m : RxBody) : ClassTrack :=
  mkClassTrack (u64 (ct_frames t + 1)) (u64 (ct_bytes t + Z.of_nat (length (rx_body m))))
    (fold_signal m (ct_signal t)).

(** ** The delivery walk *)

(** The last in-order frame, kept for the gap log. *)
Record GapAnchor := mkGapAnchor {
  gap_prev_mono_us : Z; gap_prev_tsfl : Z; gap_prev_seq : Z; gap_prev_len : Z;
  gap_prev_agg_pos : Z; gap_prev_mcs : Z; gap_prev_sid : Z;
}.

(** [last_seq] is the high-water mark, none before the first frame ([has_seq]). *)
Record Walk := mkWalk {
  last_seq : option Z; seq_expected : Z; seq_received : Z; agg_pos : Z; gap_prev : GapAnchor;
}.
Definition new_walk : Walk := mkWalk None 0 0 0 (mkGapAnchor 0 0 0 0 0 255 (-1)).

Definition walk_step (w : Walk) (m : RxBody) (sid : Z) : Walk :=
  let pos := if phy_valid m then 0 else u32 (agg_pos w + 1) in
  let '(exp, last) :=
    match last_seq w with
    | Some last =>
        let adv := Z.land (mac_seq m - last) 4095 in
        if adv =? 0 then (u64 (seq_expected w + 1), last)
        else if adv <? 2048 then (u64 (seq_expected w + (if kMaxSeqGap <? adv then 1 else adv)), mac_seq m)
        else (seq_expected w, last)
    | None => (u64 (seq_expected w + 1), mac_seq m)
    end in
  mkWalk (Some last) exp (u64 (seq_received w + 1)) pos
    (if last =? mac_seq m
     then mkGapAnchor (mono_us m) (tsfl m) (mac_seq m) (Z.of_nat (length (rx_body m))) pos (rx_mcs m) sid
     else gap_prev w).

(** ** A card *)

Record Totals := mkTotals {
  frames : Z; crc_fail : Z; rc_frames : Z; video_bodies : Z; rx_bytes : Z; last_frame_us : Z; self_frames : Z;
}.
Record CardTrack := mkCardTrack {
  totals : Totals; walk : Walk; signal : Signal; cls : list ClassTrack; rf_pool : ClassTrack;
}.
Definition new_card : CardTrack :=
  mkCardTrack (mkTotals 0 0 0 0 0 0 0) new_walk new_signal (replicate kNumRfClasses new_track) new_track.

Definition on_totals (f : Totals -> Totals) (c : CardTrack) : CardTrack :=
  mkCardTrack (f (totals c)) (walk c) (signal c) (cls c) (rf_pool c).

(** [++c.self_frames; ++c.rc_frames] *)
Definition count_self (t : Totals) : Totals :=
  mkTotals (frames t) (crc_fail t) (u64 (rc_frames t + 1)) (video_bodies t) (rx_bytes t) (last_frame_us t)
    (u64 (self_frames t + 1)).
Definition count_frame (m : RxBody) (t : Totals) : Totals :=
  mkTotals (u64 (frames t + 1)) (if fcs_ok m then crc_fail t else u64 (crc_fail t + 1)) (rc_frames t) (video_bodies t)
    (u64 (rx_bytes t + Z.of_nat (length (rx_body m)))) (mono_us m) (self_frames t).
Definition count_rc (t : Totals) : Totals :=
  mkTotals (frames t) (crc_fail t) (u64 (rc_frames t + 1)) (video_bodies t) (rx_bytes t) (last_frame_us t) (self_frames t).
Definition count_video (t : Totals) : Totals :=
  mkTotals (frames t) (crc_fail t) (rc_frames t) (u64 (video_bodies t + 1)) (rx_bytes t) (last_frame_us t) (self_frames t).

Definition is_video_class (k : RfClass) : bool := match k with S0 | S1 => true | _ => false end.

(** The accounting of a CRC-clean frame: the walk, the card's averages, its class, the pool. *)
Definition card_clean (m : RxBody) (rc_t sid : Z) (c : CardTrack) : CardTrack :=
  let w := walk_step (walk c) m sid in
  let s := fold_signal m (signal c) in
  match class_of rc_t sid with
  | None => mkCardTrack (totals c) w s (cls c) (rf_pool c)
  | Some k =>
      mkCardTrack (totals c) w s (alter (fun t => track_step t m) (class_index k) (cls c))
        (if is_video_class k then track_step (rf_pool c) m else rf_pool c)
  end.

(** ** The aggregator *)

Record Aggregator := mkAggregator {
  dec_ : UepDecoder; cards_ : list CardTrack;
  last_video_seq_ : Z; last_video_us_ : Z; bad_card_msgs_ : Z;
}.

Definition new_aggregator (c0 c1 : UepLayerCfg) (seq_horizon n_cards arrival_guard : Z) : Aggregator :=
  mkAggregator (new_uep_decoder c0 c1 seq_horizon arrival_guard) (replicate (Z.to_nat n_cards) new_card) 0 0 0.

(** The calls of the four sinks. *)
Inductive AggEvent :=
| ToRc (card : Z) (frame : list Z) (mono : Z)
| ToMsp (body : list Z) (mono : Z)
| ToProbe (card : Z) (m : RxBody)
| ToFrag (f : DecodedFrag).

(** [is_self]: a CRC-clean frame of a type only the ground sends; of the two MAV directions,
    the ground's is the tagged one. *)
Definition is_self (m : RxBody) (rc_t : Z) : option bool :=
  if negb (fcs_ok m) then Some false
  else if (rc_t =? T_RCF) || (rc_t =? T_DISC) || (rc_t =? T_NACK) then Some true
  else if rc_t =? T_MAV then p ← parse_mav (rx_body m) true; Some (bool_decide (is_Some p))
  else Some false.

Definition set_card (a : Aggregator) (m : RxBody) (c : CardTrack) : Aggregator :=
  mkAggregator (dec_ a) (<[Z.to_nat (card_id m) := c]> (cards_ a)) (last_video_seq_ a) (last_video_us_ a) (bad_card_msgs_ a).

Definition on_rx_body (a : Aggregator) (m : RxBody) : option (Aggregator * list AggEvent) :=
  match cards_ a !! Z.to_nat (card_id m) with
  | None => Some (mkAggregator (dec_ a) (cards_ a) (last_video_seq_ a) (last_video_us_ a) (u64 (bad_card_msgs_ a + 1)), [])
  | Some c =>
      rc_t ← frame_type (rx_body m);
      self ← is_self m rc_t;
      if (self : bool) then
        Some (set_card a m (on_totals count_self c), [ToRc (card_id m) (rx_body m) (mono_us m)])
      else
        stream_id ← sbi_peek_stream_id (rx_body m);
        let c := on_totals (count_frame m) c in
        let c := if fcs_ok m then card_clean m rc_t stream_id c else c in
        let a := if fcs_ok m
                 then mkAggregator (dec_ a) (cards_ a) (mac_seq m) (last_video_us_ a) (bad_card_msgs_ a) else a in
        if 0 <=? rc_t then
          Some (set_card a m (on_totals count_rc c), [ToRc (card_id m) (rx_body m) (mono_us m)])
        else if stream_id =? kMspStreamId then Some (set_card a m c, [ToMsp (rx_body m) (mono_us m)])
        else if stream_id =? kProbeStreamId then Some (set_card a m c, [ToProbe (card_id m) m])
        else
          '(d, out) ← UepDecoder.add_body (dec_ a) (rx_body m) (mono_us m / 1000) (rx_mcs m) (mono_us m) (fcs_ok m);
          let a := set_card a m (on_totals count_video c) in
          Some (mkAggregator d (cards_ a) (last_video_seq_ a) (mono_us m) (bad_card_msgs_ a), map ToFrag out)
  end.

Fixpoint rx_bodies (a : Aggregator) (ms : list RxBody) : option (Aggregator * list AggEvent) :=
  match ms with
  | [] => Some (a, [])
  | m :: ms => '(a, o1) ← on_rx_body a m; '(a, o2) ← rx_bodies a ms; Some (a, o1 ++ o2)
  end.

(** ** Where a body goes *)

Definition rc_type (m : RxBody) : Z := default (-1) (frame_type (rx_body m)).
Definition sid_of (m : RxBody) : Z := default (-1) (sbi_peek_stream_id (rx_body m)).
Definition self_sent (m : RxBody) : bool := default false (is_self m (rc_type m)).

Inductive Route := RNoCard | RSelf | RCtrl | RMsp | RProbe | RVideo.
#[export] Instance Route_eq_dec : EqDecision Route.
Proof. solve_decision. Defined.

Definition route (n_cards : nat) (m : RxBody) : Route :=
  if (n_cards <=? Z.to_nat (card_id m))%nat then RNoCard
  else if self_sent m then RSelf
  else if 0 <=? rc_type m then RCtrl
  else if sid_of m =? kMspStreamId then RMsp
  else if sid_of m =? kProbeStreamId then RProbe
  else RVideo.

(** The decoder's call for a video body. *)
Definition decoder_call (m : RxBody) : dinput :=
  UepEndToEnd.RxBody (rx_body m) (mono_us m / 1000) (rx_mcs m) (mono_us m) (fcs_ok m).

(** What one body does to the card that heard it. *)
Definition card_step (m : RxBody) (c : CardTrack) : CardTrack :=
  if self_sent m then on_totals count_self c
  else
    let c := on_totals (count_frame m) c in
    let c := if fcs_ok m then card_clean m (rc_type m) (sid_of m) c else c in
    if 0 <=? rc_type m then on_totals count_rc c
    else if (sid_of m =? kMspStreamId) || (sid_of m =? kProbeStreamId) then c
    else on_totals count_video c.

Lemma peek_total body : exists sid, sbi_peek_stream_id body = Some sid.
Proof. destruct (sbi_unpack_total body 0) as (_ & sid & _ & H & _). by exists sid. Qed.

Lemma is_self_total m t : exists b, is_self m t = Some b.
Proof.
  unfold is_self. destruct (parse_mav_total (rx_body m) true) as [p ->]. cbn [mbind option_bind].
  repeat case_match; eauto.
Qed.

Ltac classify m :=
  unfold route, card_step, self_sent, rc_type, sid_of;
  let t := fresh "t" in let s := fresh "s" in let b := fresh "b" in
  destruct (frame_type_total (rx_body m)) as [t ->];
  destruct (peek_total (rx_body m)) as [s ->]; cbn [default mbind option_bind from_option id];
  destruct (is_self_total m t) as [b ->]; cbn [default mbind option_bind from_option id].

(** One body: the sink it goes to, and the card it counts on. *)
Lemma on_rx_body_route a m :
  match route (length (cards_ a)) m with
  | RNoCard => exists a', on_rx_body a m = Some (a', []) /\ dec_ a' = dec_ a
  | RSelf | RCtrl => exists a', on_rx_body a m = Some (a', [ToRc (card_id m) (rx_body m) (mono_us m)]) /\ dec_ a' = dec_ a
  | RMsp => exists a', on_rx_body a m = Some (a', [ToMsp (rx_body m) (mono_us m)]) /\ dec_ a' = dec_ a
  | RProbe => exists a', on_rx_body a m = Some (a', [ToProbe (card_id m) m]) /\ dec_ a' = dec_ a
  | RVideo =>
      match dstep (dec_ a) (decoder_call m) with
      | Some (d, out) => exists a', on_rx_body a m = Some (a', map ToFrag out) /\ dec_ a' = d
      | None => on_rx_body a m = None
      end
  end.
Proof.
  unfold on_rx_body. destruct (cards_ a !! Z.to_nat (card_id m)) as [c|] eqn:Ec.
  - apply lookup_lt_Some in Ec as Hl. classify m. rewrite (proj2 (Nat.leb_gt _ _) Hl).
    destruct b; [by eexists |]. destruct (0 <=? t); [destruct (fcs_ok m); by eexists |].
    destruct (s =? kMspStreamId); [destruct (fcs_ok m); by eexists |].
    destruct (s =? kProbeStreamId); [destruct (fcs_ok m); by eexists |].
    cbn [dstep decoder_call].
    assert (Ed : dec_ (if fcs_ok m then mkAggregator (dec_ a) (cards_ a) (mac_seq m) (last_video_us_ a) (bad_card_msgs_ a)
                       else a) = dec_ a) by by destruct (fcs_ok m).
    rewrite Ed. destruct (UepDecoder.add_body _ _ _ _ _ _) as [[d out]|]; cbn [mbind option_bind]; [by eexists | done].
  - apply lookup_ge_None in Ec as Hl. unfold route. rewrite (proj2 (Nat.leb_le _ _) Hl). by eexists.
Qed.

Lemma alter_insert_at {A} (f : A -> A) (l : list A) i x : l !! i = Some x -> alter f i l = <[i := f x]> l.
Proof. revert i. induction l as [|y l IH]; intros [|i] H; cbn; try done; [by injection H as -> | f_equal; by apply IH]. Qed.

Lemma alter_none {A} (f : A -> A) (l : list A) i : l !! i = None -> alter f i l = l.
Proof. revert i. induction l as [|y l IH]; intros [|i] H; cbn; try done. f_equal. by apply IH. Qed.

Lemma on_rx_body_cards a m a' o :
  on_rx_body a m = Some (a', o) -> cards_ a' = alter (card_step m) (Z.to_nat (card_id m)) (cards_ a).
Proof.
  unfold on_rx_body. destruct (cards_ a !! Z.to_nat (card_id m)) as [c|] eqn:Ec.
  2: { intros [= <- _]. by rewrite (alter_none _ _ _ Ec). }
  rewrite (alter_insert_at _ _ _ _ Ec). classify m. destruct b; [by intros [= <- _] |].
  destruct (0 <=? t); [by destruct (fcs_ok m); intros [= <- _] |].
  destruct (s =? kMspStreamId); [by destruct (fcs_ok m); intros [= <- _] |].
  destruct (s =? kProbeStreamId); [by destruct (fcs_ok m); intros [= <- _] |].
  destruct (UepDecoder.add_body _ _ _ _ _ _) as [[d out]|]; cbn [mbind option_bind]; [| done].
  by destruct (fcs_ok m); intros [= <- _].
Qed.

(** Every card's record is the steps of its own bodies, in order. *)
Definition heard_by (k : nat) (ms : list RxBody) : list RxBody := filter (fun m => Z.to_nat (card_id m) = k) ms.

Lemma rx_bodies_card a ms a' o k :
  rx_bodies a ms = Some (a', o) ->
  cards_ a' !! k = (fun c => foldl (fun c m => card_step m c) c (heard_by k ms)) <$> cards_ a !! k.
Proof.
  revert a a' o. induction ms as [|m ms IH]; intros a a' o; cbn [rx_bodies].
  { intros [= <- _]. by destruct (cards_ a !! k). }
  destruct (on_rx_body a m) as [[a1 o1]|] eqn:E1; cbn [mbind option_bind]; [| done].
  destruct (rx_bodies a1 ms) as [[a2 o2]|] eqn:E2; cbn [mbind option_bind]; [| done]. intros [= <- _].
  rewrite (IH _ _ _ E2), (on_rx_body_cards _ _ _ _ E1), list_lookup_alter. unfold heard_by. cbn [filter list_filter].
  destruct (decide (Z.to_nat (card_id m) = k)) as [Hk | Hk]; [| done].
  subst k. by destruct (cards_ a !! _).
Qed.

Lemma rx_bodies_n_cards a ms a' o : rx_bodies a ms = Some (a', o) -> length (cards_ a') = length (cards_ a).
Proof.
  revert a a' o. induction ms as [|m ms IH]; intros a a' o; cbn [rx_bodies]; [by intros [= <- _] |].
  destruct (on_rx_body a m) as [[a1 o1]|] eqn:E1; cbn [mbind option_bind]; [| done].
  destruct (rx_bodies a1 ms) as [[a2 o2]|] eqn:E2; cbn [mbind option_bind]; [| done]. intros [= <- _].
  by rewrite (IH _ _ _ E2), (on_rx_body_cards _ _ _ _ E1), length_alter.
Qed.

(** ** Delivery *)

(** The frames a card's walk counts: clean, and not the ground's own. *)
Definition on_walk (m : RxBody) : bool := fcs_ok m && negb (self_sent m).
Definition walked (k : nat) (ms : list RxBody) : list RxBody := filter on_walk (heard_by k ms).

Lemma walk_card_step m c :
  walk (card_step m c) = if on_walk m then walk_step (walk c) m (sid_of m) else walk c.
Proof.
  unfold card_step, on_walk. destruct (self_sent m); [by destruct (fcs_ok m) |]. destruct (fcs_ok m); cbn [andb negb].
  - unfold card_clean. destruct (class_of (rc_type m) (sid_of m));
      (destruct (0 <=? rc_type m); [done |]); by destruct (_ || _).
  - destruct (0 <=? rc_type m); [done |]. by destruct (_ || _).
Qed.

Lemma walk_card_steps ms c :
  walk (foldl (fun c m => card_step m c) c ms) =
  foldl (fun w m => walk_step w m (sid_of m)) (walk c) (filter on_walk ms).
Proof.
  revert c. induction ms as [|m ms IH]; intros c; [done |]. cbn [foldl filter list_filter]. rewrite IH, walk_card_step.
  destruct (on_walk m); case_decide as Hd; try done; exfalso; by apply Hd.
Qed.

(** The frames the drone has sent are numbered without wrapping; the hardware shows 12 bits.
    [orderly]: none comes more than 2048 behind the newest heard, or as far ahead of it. *)
Definition hwseq (i : Z) : Z := i mod 4096.
Fixpoint orderly (hi : Z) (idx : list Z) : Prop :=
  match idx with
  | [] => True
  | i :: idx => hi - 2048 <= i < hi + 2048 /\ orderly (Z.max hi i) idx
  end.
#[export] Instance orderly_dec hi idx : Decision (orderly hi idx).
Proof. revert hi. induction idx as [|i idx IH]; intros hi; cbn; apply _. Defined.

(** The newest frame heard, and how often the newest was heard once more. *)
Definition newest (hi : Z) (idx : list Z) : Z := foldl Z.max hi idx.
Fixpoint repeats (hi : Z) (idx : list Z) : Z :=
  match idx with [] => 0 | i :: idx => b2z (i =? hi) + repeats (Z.max hi i) idx end.

(** The frames of a gap of more than [kMaxSeqGap] that are not booked: an outage counts as one. *)
Fixpoint written_off (hi : Z) (idx : list Z) : Z :=
  match idx with
  | [] => 0
  | i :: idx => (if kMaxSeqGap <? i - hi then i - hi - 1 else 0) + written_off (Z.max hi i) idx
  end.

Lemma adv_land a b : Z.land (hwseq a - hwseq b) 4095 = (a - b) mod 4096.
Proof. unfold hwseq. change 4095 with (Z.ones 12). rewrite Z.land_ones by lia. change (2 ^ 12) with 4096. by rewrite <- Zminus_mod. Qed.

Lemma walk_step_orderly w m sid hi i :
  last_seq w = Some (hwseq hi) -> mac_seq m = hwseq i -> hi - 2048 <= i < hi + 2048 ->
  last_seq (walk_step w m sid) = Some (hwseq (Z.max hi i)) /\
  seq_expected (walk_step w m sid) =
    (if i =? hi then u64 (seq_expected w + 1)
     else if hi <? i then u64 (seq_expected w + (if kMaxSeqGap <? i - hi then 1 else i - hi))
     else seq_expected w) /\
  seq_received (walk_step w m sid) = u64 (seq_received w + 1).
Proof.
  intros Hl Hm Hi. unfold walk_step. rewrite Hl, Hm, adv_land.
  destruct (Z.eqb_spec i hi) as [-> | Hne].
  { rewrite Z.sub_diag, Z.max_id. by cbn. }
  destruct (Z.ltb_spec hi i) as [Hlt | Hge].
  - rewrite Z.mod_small by lia. rewrite Z.max_r by lia.
    destruct (Z.eqb_spec (i - hi) 0); [lia |]. by destruct (Z.ltb_spec (i - hi) 2048); [| lia].
  - rewrite Z.max_l by lia.
    replace ((i - hi) mod 4096) with (i - hi + 4096) by (rewrite <- (Z.mod_add _ 1) by lia; symmetry; apply Z.mod_small; lia).
    destruct (Z.eqb_spec (i - hi + 4096) 0); [lia |]. by destruct (Z.ltb_spec (i - hi + 4096) 2048); [lia |].
Qed.

Lemma u64_add a b : u64 (u64 a + b) = u64 (a + b).
Proof. unfold wrap. apply Zplus_mod_idemp_l. Qed.

Lemma walk_orderly ms w hi idx e r :
  last_seq w = Some (hwseq hi) -> seq_expected w = u64 e -> seq_received w = u64 r ->
  map mac_seq ms = map hwseq idx -> orderly hi idx ->
  let w' := foldl (fun w m => walk_step w m (sid_of m)) w ms in
  last_seq w' = Some (hwseq (newest hi idx)) /\
  seq_expected w' = u64 (e + (newest hi idx - hi) + repeats hi idx - written_off hi idx) /\
  seq_received w' = u64 (r + Z.of_nat (length idx)).
Proof.
  revert ms w hi e r. induction idx as [|i idx IH]; intros [|m ms] w hi e r Hl He Hr Hm Ho; try done.
  { cbn. rewrite Hl, He, Hr. split; [done |]. split; f_equal; lia. }
  cbn in Hm. injection Hm as Hm Hms. destruct Ho as [Hi Ho].
  destruct (walk_step_orderly w m (sid_of m) hi i Hl Hm Hi) as (S1 & S2 & S3). cbn [foldl].
  set (off := if kMaxSeqGap <? i - hi then i - hi - 1 else 0).
  destruct (IH ms (walk_step w m (sid_of m)) (Z.max hi i) (e + (Z.max hi i - hi) + b2z (i =? hi) - off) (r + 1)) as (R1 & R2 & R3); try done.
  - rewrite S2, He. subst off. unfold kMaxSeqGap. destruct (Z.eqb_spec i hi) as [-> | Hne].
    + rewrite u64_add, Z.sub_diag. f_equal. cbn. lia.
    + destruct (Z.ltb_spec hi i); [rewrite u64_add |]; f_equal; destruct (Z.ltb_spec 512 (i - hi)); cbn; lia.
  - by rewrite S3, Hr, u64_add.
  - split; [exact R1 |]. rewrite R2, R3. unfold newest. cbn [foldl repeats written_off length]. fold off.
    split; f_equal; lia.
Qed.

Lemma no_repeats seen hi idx : NoDup (seen ++ idx) -> hi ∈ seen -> repeats hi idx = 0.
Proof.
  revert seen hi. induction idx as [|i idx IH]; intros seen hi Hn Hs; [done |]. cbn [repeats].
  replace (seen ++ i :: idx) with ((seen ++ [i]) ++ idx) in Hn by by rewrite <- app_assoc.
  rewrite (IH (seen ++ [i])); [| done |].
  - apply NoDup_app in Hn as [Hn _]. apply NoDup_app in Hn as (_ & Hn & _).
    destruct (Z.eqb_spec i hi) as [-> |]; [| done]. exfalso. apply (Hn _ Hs). by apply list_elem_of_singleton.
  - apply elem_of_app. destruct (Z.max_spec hi i) as [[_ ->] | [_ ->]]; [right; by apply list_elem_of_singleton | by left].
Qed.

Lemma newest_ge hi idx : hi <= newest hi idx /\ Forall (fun i => i <= newest hi idx) idx.
Proof.
  revert hi. induction idx as [|i idx IH]; intros hi; [split; [unfold newest; cbn; lia | constructor] |].
  unfold newest. cbn [foldl]. destruct (IH (Z.max hi i)) as [H1 H2]. fold (newest (Z.max hi i) idx).
  split; [lia |]. constructor; [lia | done].
Qed.

(** The numbers of a range outside a duplicate-free list inside it. *)
Definition missed (l : list Z) (lo hi : Z) : list Z := filter (fun i => i ∉ l) (seqZ lo (hi - lo + 1)).

Lemma missed_count l lo hi :
  NoDup l -> Forall (fun i => lo <= i <= hi) l -> lo <= hi ->
  Z.of_nat (length (missed l lo hi)) = hi - lo + 1 - Z.of_nat (length l).
Proof.
  intros Hn Hl Hle. unfold missed. set (range := seqZ lo (hi - lo + 1)).
  assert (Hr : Z.of_nat (length range) = hi - lo + 1) by (unfold range; rewrite length_seqZ; lia).
  assert (Hp : filter (fun i => i ∈ l) range ≡ₚ l).
  { apply NoDup_Permutation; [apply NoDup_filter; unfold range; apply NoDup_seqZ | done |]. intros i.
    unfold range. rewrite list_elem_of_filter, elem_of_seqZ. rewrite Forall_forall in Hl. split; [by intros [? _] |].
    intros Hi. specialize (Hl i Hi). split; [done | lia]. }
  apply Permutation_length in Hp. rewrite <- Hp, <- Hr.
  pose proof (Permutation_length (filter_app_complement (fun i => i ∈ l) range)) as Hc. rewrite length_app in Hc. lia.
Qed.

(** A card's delivery is exact.  Number the frames the drone put on the air; let the clean
    frames a card heard, the ground's own left out, be those numbered [i0 :: idx], each within
    2048 of the newest so far, in any order, with repeats, among corrupt frames, frames of the
    other cards and any classes.  Then the card's high-water mark is the newest number's twelve bits,
    it has received what it heard, and expected the span from the first to the newest, plus the
    repeats of the newest, less the outages it writes off.  When nothing came twice or from before the
    first, expected minus received is the number of frames of the span it missed, less those
    written off. *)
Theorem delivery_exact (c0 c1 : UepLayerCfg) (seq_horizon n_cards arrival_guard : Z) (ms : list RxBody)
    (a : Aggregator) (o : list AggEvent) (k : nat) (i0 : Z) (idx : list Z) :
  rx_bodies (new_aggregator c0 c1 seq_horizon n_cards arrival_guard) ms = Some (a, o) ->
  (k < Z.to_nat n_cards)%nat ->
  map mac_seq (walked k ms) = map hwseq (i0 :: idx) -> orderly i0 idx ->
  exists c, cards_ a !! k = Some c /\
    last_seq (walk c) = Some (hwseq (newest i0 idx)) /\
    seq_received (walk c) = u64 (Z.of_nat (length (i0 :: idx))) /\
    seq_expected (walk c) = u64 (newest i0 idx - i0 + 1 + repeats i0 idx - written_off i0 idx) /\
    (NoDup (i0 :: idx) -> Forall (fun i => i0 <= i) idx ->
     u64 (seq_expected (walk c) - seq_received (walk c)) =
     u64 (Z.of_nat (length (missed (i0 :: idx) i0 (newest i0 idx))) - written_off i0 idx)).
Proof.
  intros Hr Hk Hm Ho. pose proof (rx_bodies_card _ _ _ _ k Hr) as Hc.
  cbn [cards_ new_aggregator] in Hc. rewrite (lookup_replicate_2 _ _ _ Hk) in Hc. cbn in Hc.
  eexists. split; [exact Hc |]. rewrite walk_card_steps. fold (walked k ms).
  destruct (walked k ms) as [|m ms'] eqn:Ew; [done |]. cbn in Hm. injection Hm as Hm Hms. cbn [foldl].
  assert (W : forall sid, last_seq (walk_step (walk new_card) m sid) = Some (hwseq i0) /\
    seq_expected (walk_step (walk new_card) m sid) = u64 1 /\ seq_received (walk_step (walk new_card) m sid) = u64 1)
    by (intros sid; cbn; by rewrite Hm).
  destruct (W (sid_of m)) as (W1 & W2 & W3).
  destruct (walk_orderly ms' _ i0 idx 1 1 W1 W2 W3 Hms Ho) as (R1 & R2 & R3).
  split; [exact R1 |]. rewrite R2, R3. cbn [length].
  assert (E1 : 1 + Z.of_nat (length idx) = Z.of_nat (S (length idx))) by lia.
  split; [by f_equal |]. split; [f_equal; lia |]. intros Hn Hge.
  rewrite (no_repeats [i0] i0 idx Hn) by by apply list_elem_of_singleton.
  destruct (newest_ge i0 idx) as [N1 N2]. rewrite missed_count; [| done | | done].
  - cbn [length]. unfold wrap. rewrite <- Zminus_mod. f_equal. lia.
  - constructor; [lia |]. rewrite Forall_forall in *. intros i Hi. specialize (Hge i Hi). specialize (N2 i Hi). cbn in *. lia.
Qed.

(** ** Routing *)

Definition frag_of (e : AggEvent) : option DecodedFrag := match e with ToFrag f => Some f | _ => None end.
Definition rc_of (e : AggEvent) : option (Z * list Z * Z) := match e with ToRc k f t => Some (k, f, t) | _ => None end.
Definition msp_of (e : AggEvent) : option (list Z * Z) := match e with ToMsp b t => Some (b, t) | _ => None end.
Definition probe_of (e : AggEvent) : option (Z * RxBody) := match e with ToProbe k m => Some (k, m) | _ => None end.

(** The bodies of [ms] that go one of the ways [rs]. *)
Definition bound_for (n_cards : nat) (rs : list Route) (ms : list RxBody) : list RxBody :=
  filter (fun m => route n_cards m ∈ rs) ms.

Lemma bound_cons n rs m ms :
  bound_for n rs (m :: ms) = if decide (route n m ∈ rs) then m :: bound_for n rs ms else bound_for n rs ms.
Proof. done. Qed.

Lemma frags_only out :
  omap frag_of (map ToFrag out) = out /\ omap rc_of (map ToFrag out) = [] /\
  omap msp_of (map ToFrag out) = [] /\ omap probe_of (map ToFrag out) = [].
Proof. induction out as [|f out (H1 & H2 & H3 & H4)]; [done |]. cbn. by rewrite H1, H2, H3, H4. Qed.

(** Decide each closed test of a route. *)
Ltac decide_routes :=
  repeat match goal with
  | |- context [decide (?r ∈ ?l)] =>
      first [rewrite (decide_True (P := r ∈ l)) by decided | rewrite (decide_False (P := r ∈ l)) by decided]
  end.

(** Every body goes one way, and the ways do not disturb each other.  Over any bodies from any
    cards: the call returns exactly when the decoder does; the decoder is given the video bodies, of
    all cards in the order they came, and nothing else, and its fragments go to the fragment sink; the
    control frames, the ground's own included, the display port's bodies and the probe's go to their
    sinks in order, corrupt ones too; a body of an unknown card goes nowhere. *)
Theorem aggregator_routes (a : Aggregator) (ms : list RxBody) :
  let n := length (cards_ a) in
  match drun (dec_ a) (map decoder_call (bound_for n [RVideo] ms)) with
  | None => rx_bodies a ms = None
  | Some (d, frags) => exists a' o, rx_bodies a ms = Some (a', o) /\ dec_ a' = d /\
      omap frag_of o = frags /\
      omap rc_of o = map (fun m => (card_id m, rx_body m, mono_us m)) (bound_for n [RSelf; RCtrl] ms) /\
      omap msp_of o = map (fun m => (rx_body m, mono_us m)) (bound_for n [RMsp] ms) /\
      omap probe_of o = map (fun m => (card_id m, m)) (bound_for n [RProbe] ms)
  end.
Proof.
  cbv zeta. revert a. induction ms as [|m ms IH]; intros a; [by exists a, [] |].
  pose proof (on_rx_body_route a m) as Hm. rewrite !bound_cons. cbn [rx_bodies].
  assert (Hn : forall a1 o1, on_rx_body a m = Some (a1, o1) -> length (cards_ a1) = length (cards_ a))
    by (intros a1 o1 E; by rewrite (on_rx_body_cards _ _ _ _ E), length_alter).
  destruct (route (length (cards_ a)) m) eqn:Er.
  6: {
    decide_routes. cbn [map drun].
    destruct (dstep (dec_ a) (decoder_call m)) as [[d out]|]; cbn [mbind option_bind]; [| by rewrite Hm].
    destruct Hm as (a1 & E1 & Ed). rewrite E1. cbn [mbind option_bind]. specialize (IH a1).
    rewrite (Hn _ _ E1), Ed in IH. destruct (drun d _) as [[d2 out2]|]; cbn [mbind option_bind]; [| by rewrite IH].
    destruct IH as (a2 & o2 & -> & <- & H1 & H2 & H3 & H4). cbn [mbind option_bind].
    eexists _, _. split; [done |]. split; [done |]. destruct (frags_only out) as (F1 & F2 & F3 & F4).
    rewrite !omap_app, F1, F2, F3, F4, H1, H2, H3, H4. done. }
  all: decide_routes.
  all: destruct Hm as (a1 & E1 & Ed); rewrite E1; cbn [mbind option_bind]; specialize (IH a1).
  all: rewrite (Hn _ _ E1), Ed in IH; destruct (drun (dec_ a) _) as [[d2 out2]|]; cbn [mbind option_bind]; [| by rewrite IH].
  all: destruct IH as (a2 & o2 & -> & <- & H1 & H2 & H3 & H4); cbn [mbind option_bind].
  all: eexists _, _; split; [done |]; split; [done |]; rewrite !omap_app, H1, H2, H3, H4.
  all: done.
Qed.

(** ** A card's books *)

Definition sum_of (g : RxBody -> Z) (ms : list RxBody) : Z := foldr Z.add 0 (map g ms).

(** A counter that each body adds to. *)
Lemma counter_exact (f : CardTrack -> Z) (g : RxBody -> Z) :
  (forall m c, f (card_step m c) = u64 (f c + g m) \/ (g m = 0 /\ f (card_step m c) = f c)) ->
  forall ms c x, f c = u64 x -> f (foldl (fun c m => card_step m c) c ms) = u64 (x + sum_of g ms).
Proof.
  intros Hf. induction ms as [|m ms IH]; intros c x Hx; cbn [foldl].
  { rewrite Hx. unfold sum_of. cbn. f_equal. lia. }
  rewrite (IH _ (x + g m)).
  - unfold sum_of. cbn. f_equal. lia.
  - destruct (Hf m c) as [-> | [-> ->]]; rewrite Hx; [by rewrite u64_add | f_equal; lia].
Qed.

Definition count (p : RxBody -> bool) (ms : list RxBody) : Z := Z.of_nat (length (filter p ms)).

Lemma sum_count (p : RxBody -> bool) ms : sum_of (fun m => b2z (p m)) ms = count p ms.
Proof.
  unfold sum_of, count. induction ms as [|m ms IH]; [done |]. cbn [map foldr]. rewrite IH, filter_cons.
  destruct (p m); case_decide as Hd; try (exfalso; by apply Hd); unfold b2z; [rewrite length_cons |]; lia.
Qed.

(** A part of the record that only some bodies fold into. *)
Lemma track_exact {T} (f : CardTrack -> T) (step : T -> RxBody -> T) (p : RxBody -> bool) :
  (forall m c, f (card_step m c) = if p m then step (f c) m else f c) ->
  forall ms c, f (foldl (fun c m => card_step m c) c ms) = foldl step (f c) (filter p ms).
Proof.
  intros Hf. induction ms as [|m ms IH]; intros c; [done |]. cbn [foldl filter list_filter]. rewrite IH, Hf.
  destruct (p m); case_decide as Hd; try done; exfalso; by apply Hd.
Qed.

(** The tests of the books: bodies not the ground's own, and the class of a clean one. *)
Definition from_drone (m : RxBody) : bool := negb (self_sent m).
Definition is_control (m : RxBody) : bool := self_sent m || (0 <=? rc_type m).
Definition is_video (m : RxBody) : bool :=
  from_drone m && negb (0 <=? rc_type m) && negb ((sid_of m =? kMspStreamId) || (sid_of m =? kProbeStreamId)).
Definition in_class (k : RfClass) (m : RxBody) : bool :=
  on_walk m && bool_decide (class_of (rc_type m) (sid_of m) = Some k).
Definition in_pool (m : RxBody) : bool := in_class S0 m || in_class S1 m.

Ltac card_cases m :=
  unfold card_step, is_control, is_video, from_drone, in_pool, in_class, on_walk, card_clean, class_of, count_frame;
  destruct (self_sent m); destruct (fcs_ok m); [done || cbn; auto .. | |];
  destruct (0 <=? rc_type m); destruct (sid_of m =? kMspStreamId); destruct (sid_of m =? kProbeStreamId);
  destruct (sid_of m =? 0); destruct (sid_of m =? 1); cbn; auto.

Lemma counters_new ms :
  let t := totals (foldl (fun c m => card_step m c) new_card ms) in
  frames t = u64 (count from_drone ms) /\
  crc_fail t = u64 (count (fun m => from_drone m && negb (fcs_ok m)) ms) /\
  rc_frames t = u64 (count is_control ms) /\
  video_bodies t = u64 (count is_video ms) /\
  rx_bytes t = u64 (sum_of (fun m => if from_drone m then Z.of_nat (length (rx_body m)) else 0) ms) /\
  self_frames t = u64 (count self_sent ms).
Proof.
  cbv zeta. rewrite <- !sum_count.
  repeat apply conj;
    [apply (counter_exact (fun c => frames (totals c))) with (x := 0)
    |apply (counter_exact (fun c => crc_fail (totals c))) with (x := 0)
    |apply (counter_exact (fun c => rc_frames (totals c))) with (x := 0)
    |apply (counter_exact (fun c => video_bodies (totals c))) with (x := 0)
    |apply (counter_exact (fun c => rx_bytes (totals c))) with (x := 0)
    |apply (counter_exact (fun c => self_frames (totals c))) with (x := 0)]; try done; intros m c; card_cases m.
Qed.

Lemma alter_class k k' m (cs : list ClassTrack) :
  alter (fun t => track_step t m) (class_index k') cs !! class_index k =
  if bool_decide (Some k' = Some k) then (fun t => track_step t m) <$> cs !! class_index k else cs !! class_index k.
Proof. rewrite list_lookup_alter. by destruct k, k'. Qed.

(** The tracks of a card are the folds of the bodies they are about. *)
Lemma tracks_new ms :
  let c := foldl (fun c m => card_step m c) new_card ms in
  signal c = foldl (fun s m => fold_signal m s) new_signal (filter on_walk ms) /\
  (forall k, cls c !! class_index k = Some (foldl track_step new_track (filter (in_class k) ms))) /\
  rf_pool c = foldl track_step new_track (filter in_pool ms).
Proof.
  cbv zeta. split; [| split].
  - apply (track_exact signal (fun s m => fold_signal m s) on_walk). intros m c. card_cases m.
  - intros k. set (step := fun t m => (fun t => track_step t m) <$> (t : option ClassTrack)).
    rewrite (track_exact (fun c => cls c !! class_index k) step (in_class k)).
    + assert (Hn : cls new_card !! class_index k = Some new_track) by by destruct k. rewrite Hn. clear Hn.
      generalize new_track. induction (filter (in_class k) ms) as [|m l IH]; intros t; [done |]. cbn. apply IH.
    + intros m c. unfold step. card_cases m.
      all: first [exact (alter_class k Ctrl m (cls c)) | exact (alter_class k Msp m (cls c))
                 | exact (alter_class k Probe m (cls c)) | exact (alter_class k S0 m (cls c))
                 | exact (alter_class k S1 m (cls c))].
  - apply (track_exact rf_pool track_step in_pool). intros m c. card_cases m.
Qed.

(** Each card's books are its own.  After any bodies from any cards, the counters of a card count
    exactly the bodies it heard (the ground's own as self and control frames only; corrupt ones are
    counted, and fold into nothing), its averages fold its clean frames in order, each class's track folds the
    clean frames of that class and no other, and the pool the rate ladder reads folds base and
    enhancement frames at frame time and no others. *)
Theorem card_books_exact (c0 c1 : UepLayerCfg) (seq_horizon n_cards arrival_guard : Z) (ms : list RxBody)
    (a : Aggregator) (o : list AggEvent) (k : nat) :
  rx_bodies (new_aggregator c0 c1 seq_horizon n_cards arrival_guard) ms = Some (a, o) ->
  (k < Z.to_nat n_cards)%nat ->
  exists c, cards_ a !! k = Some c /\
    let own := heard_by k ms in
    frames (totals c) = u64 (count from_drone own) /\
    crc_fail (totals c) = u64 (count (fun m => from_drone m && negb (fcs_ok m)) own) /\
    rc_frames (totals c) = u64 (count is_control own) /\
    video_bodies (totals c) = u64 (count is_video own) /\
    rx_bytes (totals c) = u64 (sum_of (fun m => if from_drone m then Z.of_nat (length (rx_body m)) else 0) own) /\
    self_frames (totals c) = u64 (count self_sent own) /\
    signal c = foldl (fun s m => fold_signal m s) new_signal (walked k ms) /\
    (forall cl, cls c !! class_index cl = Some (foldl track_step new_track (filter (in_class cl) own))) /\
    rf_pool c = foldl track_step new_track (filter in_pool own).
Proof.
  intros Hr Hk. pose proof (rx_bodies_card _ _ _ _ k Hr) as Hc.
  cbn [cards_ new_aggregator] in Hc. rewrite (lookup_replicate_2 _ _ _ Hk) in Hc. cbn in Hc.
  eexists. split; [exact Hc |]. cbv zeta.
  destruct (counters_new (heard_by k ms)) as (H1 & H2 & H3 & H4 & H5 & H6).
  destruct (tracks_new (heard_by k ms)) as (T1 & T2 & T3). by repeat apply conj.
Qed.

(** ** A run *)

(** Two cards; a video body of the base layer, a probe, a display-port body, an answer of the drone, the
    ground's own order heard back, a corrupt body, a late one and one of an unknown card. *)
Definition demo_sbi (sid : Z) : list Z := [176; 245; 2; sid; 7; 0; 0; 0; 0; 0; 0; 0; 0].
Definition demo_rc (t : Z) : list Z := put16 RC_MAGIC ++ [RC_VERSION; t; 0; 0].
Definition demo_rx (card seq : Z) (ok : bool) (b : list Z) : RxBody :=
  mkRxBody card (1000 * seq) (60, 58) (40, 44) (-50, -128) true ok seq 0 b 4.
Definition demo_rxs : list RxBody :=
  [demo_rx 0 4094 true (demo_sbi 0); demo_rx 1 4094 true (demo_sbi 0); demo_rx 0 4095 true (demo_sbi kProbeStreamId);
   demo_rx 0 7 true (demo_rc T_RCF); demo_rx 0 2 true (demo_sbi kMspStreamId); demo_rx 0 9 false (demo_sbi 1);
   demo_rx 0 1 true (demo_rc T_DISC_ACK); demo_rx 1 5 true (demo_sbi 1); demo_rx 2 6 true (demo_sbi 0)].
Definition demo_agg : Aggregator := new_aggregator demo_c0 demo_c1 0 2 0.

Example demo_rxs_walk : map mac_seq (walked 0 demo_rxs) = map hwseq [4094; 4095; 4098; 4097].
Proof. vm_compute. reflexivity. Qed.

Example delivery_exact_witness :
  exists a o c, rx_bodies demo_agg demo_rxs = Some (a, o) /\ cards_ a !! 0%nat = Some c /\
    seq_received (walk c) = u64 4 /\ u64 (seq_expected (walk c) - seq_received (walk c)) = u64 1.
Proof.
  destruct (rx_bodies demo_agg demo_rxs) as [[a o]|] eqn:E; [| vm_compute in E; discriminate E].
  destruct (delivery_exact demo_c0 demo_c1 0 2 0 demo_rxs a o 0 4094 [4095; 4098; 4097] E) as (c & Hc & _ & H1 & _ & H2).
  - vm_compute. lia.
  - vm_compute. reflexivity.
  - decided.
  - exists a, o, c. split; [done |]. split; [exact Hc |]. split; [exact H1 |].
    rewrite (H2 ltac:(decided) ltac:(decided)). vm_compute. reflexivity.
Defined.

Example card_books_exact_witness :
  exists a o c, rx_bodies demo_agg demo_rxs = Some (a, o) /\ cards_ a !! 0%nat = Some c /\
    frames (totals c) = 5 /\ self_frames (totals c) = 1 /\ crc_fail (totals c) = 1 /\ rc_frames (totals c) = 2.
Proof.
  destruct (rx_bodies demo_agg demo_rxs) as [[a o]|] eqn:E; [| vm_compute in E; discriminate E].
  destruct (card_books_exact demo_c0 demo_c1 0 2 0 demo_rxs a o 0 E) as (c & Hc & H1 & H2 & H3 & _ & _ & H6 & _).
  - vm_compute. lia.
  - exists a, o, c. split; [done |]. split; [exact Hc |]. rewrite H1, H2, H3, H6. vm_compute. repeat apply conj; reflexivity.
Defined.
