(* ===== verification/ProbeTrack.v ===== *)
(** * ProbeTrack: the probe stream and its score (common/src/probe_wire.cpp, gs/src/probe_track.cpp)

    Behind every video frame the drone sends one probe body at the rate the ladder would climb to
    next.  Its header repeats in every sub-block, each behind its own CRC, so a damaged body still
    says which it was and how much of it survived.  The ground books one expectation per frame,
    whether or not a probe is heard for it, and the blocks any card heard. *)
From S2P Require Import Prelude Bytes Crc16 Sbi SwConfig.
Local Open Scope Z_scope.
Local Open Scope mabur_scope.

(** ** The wire *)

Definition kProbeMagic : Z := 62885.  (* 0xF5A5 *)
Definition kProbeHdrLen : nat := 9.

Record ProbeHdr := mkProbeHdr { ph_seq : Z; ph_profile : Z; ph_enh_fid : Z }.
#[export] Instance ProbeHdr_eq_dec : EqDecision ProbeHdr.
Proof. solve_decision. Defined.

(** [x += 0x9E37...] and the mix: the next state and the output. *)
Definition splitmix64 (x : Z) : Z * Z :=
  let x := u64 (x + 11400714819323198485) in
  let z := u64 ((x ⊕ Z.shiftr x 30) * 13787848793156543929) in
  let z := u64 ((z ⊕ Z.shiftr z 27) * 10723151780598845931) in
  (x, z ⊕ Z.shiftr z 31).

Definition pack_hdr (h : ProbeHdr) : list Z :=
  put16 kProbeMagic ++ put32 (ph_seq h) ++ [ph_profile h] ++ put16 (ph_enh_fid h).

(** An inner [None] is the refusal. *)
Definition parse_hdr (p : list Z) : option (option ProbeHdr) :=
  if (length p <? kProbeHdrLen)%nat then Some None
  else
    m ← get16 p 0;
    if negb (m =? kProbeMagic) then Some None
    else s ← get32 p 2; pr ← get8 p 6; f ← get16 p 7; Some (Some (mkProbeHdr s pr f)).

Definition probe_body_len (bpb block_payload : Z) : Z := Z.of_nat SBI_HDR_LEN + bpb * (2 + block_payload).

(** The fill of one block: [n] bytes. *)
Fixpoint fill (n : nat) (rng : Z) : Z * list Z :=
  match n with
  | O => (rng, [])
  | S n => let '(rng, z) := splitmix64 rng in let '(rng, l) := fill n rng in (rng, u8 z :: l)
  end.

Fixpoint probe_payloads (bpb : nat) (h : ProbeHdr) (bp : nat) (rng : Z) : list (list Z) :=
  match bpb with
  | O => []
  | S bpb => let '(rng, l) := fill (bp - kProbeHdrLen) rng in (pack_hdr h ++ l) :: probe_payloads bpb h bp rng
  end.

Definition build_probe_body (h : ProbeHdr) (bpb block_payload : Z) : list Z :=
  if block_payload <? Z.of_nat kProbeHdrLen then []
  else
    [Z.land SBI_MAGIC 255; Z.shiftr SBI_MAGIC 8; SBI_VER; kProbeStreamId;
     Z.land block_payload 255; Z.land (Z.shiftr block_payload 8) 255; u8 bpb; 0; 0; 0; 0; 0; 0] ++
    concat (map (fun p => put16 (crc16 p) ++ p)
              (probe_payloads (Z.to_nat bpb) h (Z.to_nat block_payload) (ph_seq h))).

Record ProbeRx := mkProbeRx { pr_hdr : ProbeHdr; pr_n_blocks : Z; pr_survivors : Z; pr_n_ok : Z }.

(** The block loop: the header so far (none: [!have]), the bitmap and the count; an inner
    [None] is the refusal of blocks that disagree. *)
Fixpoint scan_blocks (cnt : nat) (i : Z) (body : list Z) (off bp : nat) (have : option ProbeHdr) (sv ok : Z)
    : option (option (option ProbeHdr * Z * Z)) :=
  match cnt with
  | O => Some (Some (have, sv, ok))
  | S cnt =>
      let next have sv ok := scan_blocks cnt (i + 1) body (off + (2 + bp)) bp have sv ok in
      crc ← get16 body off;
      p ← get_slice body (off + 2) bp;
      if negb (crc =? crc16 p) then next have sv ok
      else
        h ← parse_hdr p;
        match h with
        | None => next have sv ok
        | Some h =>
            if match have with Some h0 => negb (bool_decide (h = h0)) | None => false end then Some None
            else next (Some h) (Z.lor sv (u32 (Z.shiftl 1 i))) (ok + 1)
        end
  end.

Definition parse_probe_body (body : list Z) (block_payload : Z) : option (option ProbeRx) :=
  sid ← sbi_peek_stream_id body;
  if negb (sid =? kProbeStreamId) then Some None
  else
    wire_bp ← get16 body 4;
    if negb (wire_bp =? block_payload) then Some None
    else
      n ← get8 body 6;
      if (n <? 1) || (32 <? n) then Some None
      else
        let bp := Z.to_nat block_payload in
        if (length body <? SBI_HDR_LEN + Z.to_nat n * (2 + bp))%nat then Some None
        else
          r ← scan_blocks (Z.to_nat n) 0 body SBI_HDR_LEN bp None 0 0;
          Some match r with
               | Some (Some h, sv, ok) => Some (mkProbeRx h n sv ok)
               | _ => None
               end.

(** ** The score *)

Record ProbeTrackCfg := mkProbeTrackCfg { bpb : Z; finalize_ms : Z; max_cards : Z }.
Record ProbeCounts := mkProbeCounts { expected_blocks : Z; arrived_blocks : Z; bodies_rx : Z }.

(** One row per finalized body; the labels of a card that heard nothing are NaN. *)
Record ProbeFinalized := mkProbeFinalized {
  pf_t_ms : double; pf_first_ms : double; pf_seq : Z; pf_profile : Z; pf_enh_fid : Z;
  blocks_ok : Z; pf_card_mask : Z; snr_db : list double; evm_db : list double;
}.

Record Pending := mkPending {
  p_seq : Z; p_profile : Z; p_enh_fid : Z; first_ms : double; p_bitmap : Z; card_mask : Z;
  card_bits : list Z; p_snr : list double; p_evm : list double; au_matched : bool;
}.
Record PendingAu := mkPendingAu { au_fid : Z; au_t_ms : double; scored : bool }.

Record ProbeTrack := mkProbeTrack {
  cfg_ : ProbeTrackCfg; commanded_ : Z; ring_ : list Pending; au_pending_ : list PendingAu;
  union_ : ProbeCounts; cards_ : list ProbeCounts; off_profile_ : Z; finalized_ : list ProbeFinalized;
}.

Definition kRingMax : nat := 64.
Definition kNoProbe : Z := 255.
Definition kNumStreams : Z := 2.
Definition zero_counts : ProbeCounts := mkProbeCounts 0 0 0.
Definition new_probe_track (cfg : ProbeTrackCfg) : ProbeTrack :=
  mkProbeTrack cfg kNoProbe [] [] zero_counts (replicate 8 zero_counts) 0 [].

Definition set_commanded (t : ProbeTrack) (profile : Z) : ProbeTrack :=
  mkProbeTrack (cfg_ t) profile (ring_ t) (au_pending_ t) (union_ t) (cards_ t) (off_profile_ t) (finalized_ t).
Definition set_ring (t : ProbeTrack) (ring : list Pending) : ProbeTrack :=
  mkProbeTrack (cfg_ t) (commanded_ t) ring (au_pending_ t) (union_ t) (cards_ t) (off_profile_ t) (finalized_ t).
Definition set_aus (t : ProbeTrack) (aus : list PendingAu) : ProbeTrack :=
  mkProbeTrack (cfg_ t) (commanded_ t) (ring_ t) aus (union_ t) (cards_ t) (off_profile_ t) (finalized_ t).
Definition set_counts (t : ProbeTrack) (u : ProbeCounts) (cs : list ProbeCounts) : ProbeTrack :=
  mkProbeTrack (cfg_ t) (commanded_ t) (ring_ t) (au_pending_ t) u cs (off_profile_ t) (finalized_ t).

Definition on_au (t : ProbeTrack) (sid fid : Z) (now : double) : ProbeTrack :=
  if commanded_ t =? kNoProbe then t
  else if kNumStreams <=? sid then t
  else set_aus t (au_pending_ t ++ [mkPendingAu fid now true]).

(** [__builtin_popcount] of 32 bits. *)
Definition popcount (x : Z) : Z := foldr Z.add 0 (map (fun i => b2z (Z.testbit x i)) (seqZ 0 32)).

(** [expected_blocks += bpb], for the union and the configured cards. *)
Definition book (b : Z) (c : ProbeCounts) : ProbeCounts :=
  mkProbeCounts (u64 (expected_blocks c + b)) (arrived_blocks c) (bodies_rx c).
Definition on_cards (cfg : ProbeTrackCfg) (f : nat -> ProbeCounts -> ProbeCounts) (cs : list ProbeCounts) : list ProbeCounts :=
  imap (fun c x => if Z.of_nat c <? max_cards cfg then f c x else x) cs.
Definition book_expected (t : ProbeTrack) : ProbeTrack :=
  set_counts t (book (bpb (cfg_ t)) (union_ t)) (on_cards (cfg_ t) (fun _ => book (bpb (cfg_ t))) (cards_ t)).

Definition finalize_au (t : ProbeTrack) (au : PendingAu) : ProbeTrack :=
  if negb (scored au) then t else book_expected t.

(** [arrived_blocks += popcount(b)], and one more body when [got]. *)
Definition arrive (b : Z) (got : bool) (c : ProbeCounts) : ProbeCounts :=
  mkProbeCounts (expected_blocks c) (u64 (arrived_blocks c + popcount b))
    (if got then u64 (bodies_rx c + 1) else bodies_rx c).
Definition card_bit (p : Pending) (c : nat) : Z := default 0 (card_bits p !! c).

Definition row_of (p : Pending) (now : double) : ProbeFinalized :=
  mkProbeFinalized now (first_ms p) (p_seq p) (p_profile p) (p_enh_fid p) (popcount (p_bitmap p)) (card_mask p)
    (p_snr p) (p_evm p).

Definition finalize_body (t : ProbeTrack) (p : Pending) (now : double) : ProbeTrack :=
  let t :=
    if p_profile p =? commanded_ t then
      let t := if au_matched p then book_expected t else t in
      set_counts t (arrive (p_bitmap p) true (union_ t))
        (on_cards (cfg_ t) (fun c => arrive (card_bit p c) (negb (card_bit p c =? 0))) (cards_ t))
    else t in
  mkProbeTrack (cfg_ t) (commanded_ t) (ring_ t) (au_pending_ t) (union_ t) (cards_ t) (off_profile_ t)
    (finalized_ t ++ [row_of p now]).

(** The first pending frame of an id: taken out, or cancelled in place. *)
Fixpoint take_au (fid : Z) (aus : list PendingAu) : option (list PendingAu) :=
  match aus with
  | [] => None
  | a :: aus => if au_fid a =? fid then Some aus else (fun l => a :: l) <$> take_au fid aus
  end.
Fixpoint cancel_au (fid : Z) (aus : list PendingAu) : list PendingAu :=
  match aus with
  | [] => []
  | a :: aus => if au_fid a =? fid then mkPendingAu (au_fid a) (au_t_ms a) false :: aus else a :: cancel_au fid aus
  end.

(** A sight folds into its entry. *)
Definition absorb (card : nat) (sv : Z) (snr evm : double) (p : Pending) : Pending :=
  mkPending (p_seq p) (p_profile p) (p_enh_fid p) (first_ms p) (Z.lor (p_bitmap p) sv)
    (Z.lor (card_mask p) (Z.shiftl 1 (Z.of_nat card))) (alter (fun b => Z.lor b sv) card (card_bits p))
    (<[card := snr]> (p_snr p)) (<[card := evm]> (p_evm p)) (au_matched p).

(** The first entry of a sequence number, changed. *)
Fixpoint absorb_in (seq : Z) (f : Pending -> Pending) (ring : list Pending) : option (list Pending) :=
  match ring with
  | [] => None
  | p :: ring => if p_seq p =? seq then Some (f p :: ring) else (fun l => p :: l) <$> absorb_in seq f ring
  end.

Definition open_entry (h : ProbeHdr) (now : double) (matched : bool) : Pending :=
  mkPending (ph_seq h) (ph_profile h) (ph_enh_fid h) now 0 0 (replicate 8 0)
    (replicate 8 S754_nan) (replicate 8 S754_nan) matched.

Definition on_body (t : ProbeTrack) (card : Z) (rx : ProbeRx) (snr evm now : double) : ProbeTrack :=
  if (card <? 0) || (8 <=? card) then t
  else
    let f := absorb (Z.to_nat card) (pr_survivors rx) snr evm in
    let h := pr_hdr rx in
    match absorb_in (ph_seq h) f (ring_ t) with
    | Some ring => set_ring t ring
    | None =>
        let on := ph_profile h =? commanded_ t in
        let taken := if on then take_au (ph_enh_fid h) (au_pending_ t) else None in
        let t := match taken with Some aus => set_aus t aus | None => t end in
        let p := f (open_entry h now (bool_decide (is_Some taken))) in
        (* the oldest entry leaves a full ring before the new one's bits are folded in *)
        let t := if (kRingMax <? S (length (ring_ t)))%nat
                 then match ring_ t with
                      | [] => t
                      | old :: rest => set_ring (finalize_body t old now) rest
                      end
                 else t in
        let t := set_ring t (ring_ t ++ [p]) in
        if on then t
        else
          mkProbeTrack (cfg_ t) (commanded_ t) (ring_ t) (cancel_au (ph_enh_fid h) (au_pending_ t)) (union_ t) (cards_ t)
            (u64 (off_profile_ t + 1)) (finalized_ t)
    end.

(** [now_ms - since >= finalize_ms] *)
Definition settled (t : ProbeTrack) (now since : double) : bool :=
  d_leb (d_of_Z (finalize_ms (cfg_ t))) (d_sub now since).

(** The two loops: from the front while it has settled. *)
Fixpoint tick_aus (t : ProbeTrack) (aus : list PendingAu) (now : double) : ProbeTrack :=
  match aus with
  | [] => set_aus t []
  | a :: rest => if settled t now (au_t_ms a) then tick_aus (finalize_au t a) rest now else set_aus t aus
  end.
Fixpoint tick_bodies (t : ProbeTrack) (ring : list Pending) (now : double) : ProbeTrack :=
  match ring with
  | [] => set_ring t []
  | p :: rest => if settled t now (first_ms p) then tick_bodies (finalize_body t p now) rest now else set_ring t ring
  end.
Definition tick (t : ProbeTrack) (now : double) : ProbeTrack :=
  let t := tick_aus t (au_pending_ t) now in tick_bodies t (ring_ t) now.

Definition take_finalized (t : ProbeTrack) : ProbeTrack * list ProbeFinalized :=
  (mkProbeTrack (cfg_ t) (commanded_ t) (ring_ t) (au_pending_ t) (union_ t) (cards_ t) (off_profile_ t) [], finalized_ t).

(** ** Sights of one body fold into one entry *)

(** What one card heard of a body. *)
Record Sight := mkSight { si_card : Z; si_rx : ProbeRx; si_snr : double; si_evm : double; si_now : double }.
Definition on_sight (t : ProbeTrack) (s : Sight) : ProbeTrack :=
  on_body t (si_card s) (si_rx s) (si_snr s) (si_evm s) (si_now s).
Definition union_bits (l : list Sight) : Z := foldl Z.lor 0 (map (fun s => pr_survivors (si_rx s)) l).
Definition heard_on (c : nat) (l : list Sight) : list Sight := filter (fun s => Z.to_nat (si_card s) = c) l.

Lemma absorb_in_none seq f ring : Forall (fun p => p_seq p <> seq) ring -> absorb_in seq f ring = None.
Proof.
  induction 1 as [|p ring Hp _ IH]; [done |]. cbn [absorb_in]. by rewrite (proj2 (Z.eqb_neq _ _) Hp), IH.
Qed.

Lemma absorb_in_last seq f ring p : Forall (fun p => p_seq p <> seq) ring -> p_seq p = seq ->
  absorb_in seq f (ring ++ [p]) = Some (ring ++ [f p]).
Proof.
  intros H Hp. induction H as [|q ring Hq _ IH]; cbn [app absorb_in]; [by rewrite Hp, Z.eqb_refl |].
  by rewrite (proj2 (Z.eqb_neq _ _) Hq), IH.
Qed.

(** The entry a body has after the sights [l] of it. *)
Record folded (h : ProbeHdr) (l : list Sight) (p : Pending) : Prop := mkFolded {
  fo_seq : p_seq p = ph_seq h;
  fo_bits : p_bitmap p = union_bits l;
  fo_width : length (card_bits p) = 8%nat;
  fo_cards : forall c, (c < 8)%nat -> card_bit p c = union_bits (heard_on c l);
}.

Lemma folded_absorb h l p s : folded h l p -> 0 <= si_card s < 8 ->
  folded h (l ++ [s]) (absorb (Z.to_nat (si_card s)) (pr_survivors (si_rx s)) (si_snr s) (si_evm s) p).
Proof.
  intros [H1 H2 H3 H4] Hc. split; cbn [p_seq p_bitmap card_bits absorb].
  - exact H1.
  - unfold union_bits in *. by rewrite map_app, foldl_app, H2.
  - by rewrite length_alter.
  - intros c Hlt. specialize (H4 c Hlt). unfold card_bit, heard_on in *. rewrite filter_app. unfold absorb. cbn [card_bits filter list_filter].
    rewrite list_lookup_alter. destruct (decide (Z.to_nat (si_card s) = c)) as [E | E].
    + unfold union_bits in *. rewrite map_app, foldl_app, <- H4. destruct (lookup_lt_is_Some_2 (card_bits p) c ltac:(lia)) as [b Eb].
      by rewrite E, Eb.
    + by rewrite app_nil_r.
Qed.

(** Whatever cards hear a body, however often and in whatever order: before it settles it is one entry,
    whose bits are the union of what arrived, per card and over the cards; nothing is counted
    yet but a first sight off the commanded profile, once. *)
Theorem probe_sights_fold (h : ProbeHdr) (t : ProbeTrack) (s : Sight) (l : list Sight) :
  Forall (fun p => p_seq p <> ph_seq h) (ring_ t) -> (length (ring_ t) < kRingMax)%nat ->
  Forall (fun s => pr_hdr (si_rx s) = h /\ 0 <= si_card s < 8) (s :: l) ->
  exists p, folded h (s :: l) p /\
    let t' := foldl on_sight t (s :: l) in
    ring_ t' = ring_ t ++ [p] /\ union_ t' = union_ t /\ cards_ t' = cards_ t /\
    finalized_ t' = finalized_ t /\
    off_profile_ t' = if ph_profile h =? commanded_ t then off_profile_ t else u64 (off_profile_ t + 1).
Proof.
  intros Hn Hlen Hl. apply Forall_cons in Hl as [[Hh Hc] Hl].
  assert (H1 : exists p, folded h [s] p /\ let t' := on_sight t s in
    ring_ t' = ring_ t ++ [p] /\ union_ t' = union_ t /\ cards_ t' = cards_ t /\ finalized_ t' = finalized_ t /\
    off_profile_ t' = if ph_profile h =? commanded_ t then off_profile_ t else u64 (off_profile_ t + 1)).
  { unfold on_sight, on_body. rewrite Hh. rewrite (proj2 (Z.ltb_ge _ _)), (proj2 (Z.leb_gt _ _)) by lia. cbn [orb].
    rewrite absorb_in_none by done.
    match goal with |- context [open_entry h (si_now s) ?b] =>
      pose proof (folded_absorb h [] (open_entry h (si_now s) b) s) as Hf end. cbn [app] in Hf.
    eexists. split; [apply Hf; [| exact Hc] |].
    { split; cbn; [done | done | done |]. intros c Hc8. by do 8 (destruct c as [|c]; [done |]); lia. }
    destruct (ph_profile h =? commanded_ t); [destruct (take_au _ _) |]; cbn zeta; cbn [ring_ set_aus];
      rewrite (proj2 (Nat.ltb_ge _ _)) by lia; cbn; by split_all. }
  destruct H1 as (p & Hf & Hr & Hu & Hk & Hz & Ho). cbn [foldl]. cbn zeta in *.
  rewrite <- Hu, <- Hk, <- Hz, <- Ho. clear Hu Hk Hz Ho. revert p Hf Hr. change (s :: l) with ([s] ++ l).
  generalize (on_sight t s) as t1. generalize [s] as l0. clear Hh Hc s.
  induction Hl as [|s l [Hh Hc] _ IH]; intros l0 t1 p Hf Hr. { exists p. rewrite app_nil_r. by split_all. }
  assert (E : on_sight t1 s = set_ring t1 (ring_ t ++ [absorb (Z.to_nat (si_card s)) (pr_survivors (si_rx s)) (si_snr s) (si_evm s) p])).
  { unfold on_sight, on_body. rewrite (proj2 (Z.ltb_ge _ _)), (proj2 (Z.leb_gt _ _)) by lia. cbn [orb].
    rewrite Hh, Hr, absorb_in_last by (done || exact (fo_seq _ _ _ Hf)). done. }
  destruct (IH (l0 ++ [s]) (on_sight t1 s) _ (folded_absorb h l0 p s Hf Hc)) as (p' & Hf' & H'); [by rewrite E |].
  exists p'. rewrite <- app_assoc in Hf'. split; [exact Hf' |]. cbn [foldl]. rewrite E in *. exact H'.
Qed.

(** ** The wire: a damaged body says what survived of it *)

Definition hdr_ok (h : ProbeHdr) : Prop :=
  in_width 32 (ph_seq h) /\ is_byte (ph_profile h) /\ in_width 16 (ph_enh_fid h).
#[export] Instance hdr_ok_dec h : Decision (hdr_ok h).
Proof. unfold hdr_ok. apply _. Defined.

Lemma parse_pack h l : hdr_ok h -> parse_hdr (pack_hdr h ++ l) = Some (Some h).
Proof.
  intros (Hs & Hp & Hf). unfold parse_hdr. rewrite (proj2 (Nat.ltb_ge _ _)) by (rewrite length_app; cbn; unfold kProbeHdrLen; lia).
  unfold pack_hdr, get16, get32, get8, put16, put32. cbn [app lookup list_lookup mbind option_bind].
  rewrite (le16_id kProbeMagic) by decided. rewrite Z.eqb_refl. cbn [negb].
  rewrite (le32_id (ph_seq h)), (le16_id (ph_enh_fid h)) by done. by destruct h.
Qed.

Lemma parse_hdr_total p : exists h, parse_hdr p = Some h.
Proof.
  unfold parse_hdr. destruct (Nat.ltb_spec (length p) kProbeHdrLen) as [|H]; [by eexists |]. unfold kProbeHdrLen in H.
  destruct (get16_in p 0) as [m ->]; [lia |]. cbn [mbind option_bind]. destruct (negb _); [by eexists |].
  destruct (get32_in p 2) as [s ->]; [lia |]. destruct (get8_in p 6) as [r ->]; [lia |].
  destruct (get16_in p 7) as [f ->]; [lia |]. by eexists.
Qed.

(** The block loop over a list of blocks. *)
Definition block_hdr (c : Z) (p : list Z) : option ProbeHdr :=
  if c =? crc16 p then default None (parse_hdr p) else None.
Fixpoint read_blocks (i : Z) (bs : list (Z * list Z)) (have : option ProbeHdr) (sv ok : Z) : option (option ProbeHdr * Z * Z) :=
  match bs with
  | [] => Some (have, sv, ok)
  | (c, p) :: bs =>
      match block_hdr c p with
      | None => read_blocks (i + 1) bs have sv ok
      | Some h =>
          if match have with Some h0 => negb (bool_decide (h = h0)) | None => false end then None
          else read_blocks (i + 1) bs (Some h) (Z.lor sv (u32 (Z.shiftl 1 i))) (ok + 1)
      end
  end.

Lemma scan_blocks_spec bs i pre post bp have sv ok :
  Forall (fun cp => in_width 16 (fst cp) /\ length (snd cp) = bp) bs ->
  scan_blocks (length bs) i (pre ++ concat (map (fun '(c, p) => raw_block c p) bs) ++ post) (length pre) bp have sv ok =
  Some (read_blocks i bs have sv ok).
Proof.
  intros H. revert i pre have sv ok. induction H as [|[c p] bs [Hc Hp] H IH]; intros i pre have sv ok; [done |].
  cbn [length scan_blocks map concat read_blocks]. cbn in Hc, Hp.
  set (rest := concat (map (λ '(c, p), raw_block c p) bs)) in *.
  assert (E : pre ++ (raw_block c p ++ rest) ++ post = (pre ++ put16 c) ++ p ++ rest ++ post)
    by (unfold raw_block; by rewrite <- !app_assoc).
  assert (G : get16 (pre ++ (raw_block c p ++ rest) ++ post) (length pre) = Some c).
  { rewrite <- (Nat.add_0_r (length pre)), get16_app. unfold raw_block. rewrite <- !app_assoc. by apply get16_put16. }
  rewrite G. cbn [mbind option_bind]. rewrite E.
  rewrite get_slice_in by (rewrite !length_app; cbn; lia). cbn [mbind option_bind].
  replace (length pre + 2)%nat with (length (pre ++ put16 c)) by (rewrite length_app; done).
  replace (take bp _) with p by (rewrite <- Hp; symmetry; apply take_drop_block).
  replace (length pre + (2 + bp))%nat with (length ((pre ++ put16 c) ++ p)) by (rewrite !length_app; cbn; lia).
  rewrite (app_assoc (pre ++ put16 c) p). unfold block_hdr.
  destruct (c =? crc16 p); cbn [negb]; [| apply IH].
  destruct (parse_hdr_total p) as [[h|] ->]; cbn [mbind option_bind from_option id]; [| apply IH].
  destruct have as [h0|]; [| apply IH]. destruct (negb (bool_decide (h = h0))); [done | apply IH].
Qed.

Lemma read_blocks_sent h bs : forall i sent have sv ok,
  Forall (fun eb => exists l, fst eb = pack_hdr h ++ l) sent -> hdr_ok h ->
  Forall2 (fun eb cp => received (fst eb) cp (snd eb)) sent bs ->
  0 <= i -> i + Z.of_nat (length bs) <= 32 -> (have = None \/ have = Some h) ->
  exists sv', read_blocks i bs have sv ok =
    Some (if bool_decide (true ∈ map snd sent) then Some h else have, sv',
          ok + Z.of_nat (length (filter (fun b => b = true) (map snd sent)))) /\
    forall j, Z.testbit sv' j = Z.testbit sv j || (if (i <=? j) then default false (map snd sent !! Z.to_nat (j - i)) else false).
Proof.
  induction bs as [|[c p] bs IH]; intros i sent have sv ok Hs Hh H2 Hi Hn Hv.
  { inversion H2; subst. exists sv. cbn. split; [do 3 f_equal; lia |]. intros j. case_match; by rewrite orb_false_r. }
  inversion H2 as [|[env b] cp sent' bs' Hr H2' Es Eb]; subst. inversion Hs as [|? ? [l Hl] Hs']; subst.
  cbn [fst snd length] in Hl, Hr, Hn.
  destruct (received_kept _ _ _ _ Hr) as (Hk & Hp & _ & _). cbn [read_blocks]. unfold block_hdr.
  rewrite Z.eqb_sym, Hk. cbn [map snd]. destruct b.
  - rewrite (Hp eq_refl), Hl. rewrite parse_pack by done. cbn [from_option id].
    assert (Hd : match have with Some h0 => negb (bool_decide (h = h0)) | None => false end = false)
      by (destruct Hv as [-> | ->]; [done | by rewrite bool_decide_true]).
    rewrite Hd. destruct (IH (i + 1) sent' (Some h) (Z.lor sv (u32 (Z.shiftl 1 i))) (ok + 1) Hs' Hh H2' ltac:(lia) ltac:(lia) ltac:(by right))
      as (sv' & -> & Hb).
    exists sv'. split.
    + rewrite filter_cons_True by done. cbn [length]. rewrite (bool_decide_true (true ∈ true :: _)) by constructor.
      destruct (bool_decide _); do 2 f_equal; lia.
    + intros j. rewrite Hb, Z.lor_spec. rewrite wrap_small
        by (rewrite Z.shiftl_1_l; unfold in_width; split; [apply Z.pow_nonneg; lia | apply Z.pow_lt_mono_r; lia]).
      rewrite Z.shiftl_1_l. destruct (Z.eq_dec i j) as [<- | Hne].
      * rewrite Z.pow2_bits_true, Z.leb_refl, Z.sub_diag by lia. cbn. by rewrite !orb_true_r.
      * rewrite Z.pow2_bits_false by done. rewrite orb_false_r. f_equal.
        destruct (Z.leb_spec (i + 1) j), (Z.leb_spec i j); try lia; try done.
        replace (Z.to_nat (j - i)) with (S (Z.to_nat (j - (i + 1)))) by lia. done.
  - destruct (IH (i + 1) sent' have sv ok Hs' Hh H2' ltac:(lia) ltac:(lia) Hv) as (sv' & -> & Hb).
    exists sv'. split.
    + rewrite filter_cons_False by done. do 3 f_equal. by rewrite (bool_decide_ext (true ∈ false :: _) (true ∈ map snd sent')) by (split; [by inversion 1 | by constructor]).
    + intros j. rewrite Hb. f_equal. destruct (Z.leb_spec (i + 1) j), (Z.leb_spec i j); try lia; try done.
      * replace (Z.to_nat (j - i)) with (S (Z.to_nat (j - (i + 1)))) by lia. done.
      * by replace (Z.to_nat (j - i)) with 0%nat by lia.
Qed.

Lemma fill_length n rng : length (fill n rng).2 = n.
Proof.
  revert rng. induction n as [|n IH]; intros rng; [done |]. cbn [fill]. destruct (splitmix64 rng) as [rng1 z].
  specialize (IH rng1). destruct (fill n rng1) as [rng2 l]. cbn in *. by rewrite IH.
Qed.

Lemma payloads_ok n h bp rng : (kProbeHdrLen <= bp)%nat ->
  length (probe_payloads n h bp rng) = n /\
  Forall (fun p => length p = bp /\ exists l, p = pack_hdr h ++ l) (probe_payloads n h bp rng).
Proof.
  intros Hbp. revert rng. induction n as [|n IH]; intros rng; [by split |]. cbn [probe_payloads].
  pose proof (fill_length (bp - kProbeHdrLen) rng) as Hf. destruct (fill _ rng) as [rng1 l]. cbn in Hf.
  destruct (IH rng1) as [H1 H2]. cbn [length]. split; [by rewrite H1 |]. constructor; [| done].
  split; [| by exists l]. rewrite length_app, Hf. unfold kProbeHdrLen in *. cbn. lia.
Qed.

(** The parser on a header and its blocks. *)
Lemma parse_probe_framed bp bpb q e a bs post :
  1 <= bpb <= 32 -> in_width 16 bp -> length bs = Z.to_nat bpb ->
  Forall (fun cp => in_width 16 (fst cp) /\ length (snd cp) = Z.to_nat bp) bs ->
  parse_probe_body (body_header kProbeStreamId bp bpb q e a ++ concat (map (fun '(c, p) => raw_block c p) bs) ++ post) bp =
  Some match read_blocks 0 bs None 0 0 with
       | Some (Some h, sv, ok) => Some (mkProbeRx h bpb sv ok)
       | _ => None
       end.
Proof.
  intros Hn Hbp Hl Hok. unfold parse_probe_body. set (blocks := concat _).
  assert (Hlen : length blocks = (length bs * (2 + Z.to_nat bp))%nat) by by apply concat_blocks_length.
  set (hd := body_header kProbeStreamId bp bpb q e a).
  assert (E1 : sbi_peek_stream_id (hd ++ blocks ++ post) = Some kProbeStreamId).
  { unfold sbi_peek_stream_id. rewrite (proj2 (Nat.ltb_ge _ SBI_HDR_LEN)) by (rewrite length_app; cbn; unfold SBI_HDR_LEN; lia).
    unfold hd, body_header, get16, get8, put16. cbn [app lookup list_lookup mbind option_bind].
    rewrite (le16_id SBI_MAGIC) by decided. by rewrite !Z.eqb_refl. }
  assert (E2 : get16 (hd ++ blocks ++ post) 4 = Some bp).
  { unfold hd, body_header, get16, put16. cbn [app lookup list_lookup mbind option_bind]. by rewrite le16_id. }
  rewrite E1. cbn [mbind option_bind]. rewrite Z.eqb_refl, E2. cbn [negb mbind option_bind]. rewrite Z.eqb_refl. cbn [negb].
  change (get8 (hd ++ blocks ++ post) 6) with (Some bpb). cbn [mbind option_bind].
  rewrite (proj2 (Z.ltb_ge bpb 1)), (proj2 (Z.ltb_ge 32 bpb)) by lia. cbn [orb].
  rewrite (proj2 (Nat.ltb_ge _ _)) by (rewrite !length_app, Hlen, Hl; cbn; unfold SBI_HDR_LEN; lia).
  rewrite <- Hl. change SBI_HDR_LEN with (length hd). unfold blocks. rewrite scan_blocks_spec by done. done.
Qed.

(** A probe says how much of it survived.  A body the drone builds, its duration fields
    rewritten on the way, any of its blocks hit in two adjacent bytes or in the CRC field and
    stray bytes behind it, parses to the header it was built from and to the bitmap of exactly the
    blocks that arrived intact, and is refused when none did. *)
Theorem probe_body_salvage (h : ProbeHdr) (bpb bp : Z) (q e a : Z) (oks : list bool) (bs : list (Z * list Z)) (post : list Z) :
  hdr_ok h -> 1 <= bpb <= 32 -> Z.of_nat kProbeHdrLen <= bp < 65536 -> Z.of_nat (length oks) = bpb ->
  let payloads := probe_payloads (Z.to_nat bpb) h (Z.to_nat bp) (ph_seq h) in
  Forall2 (fun eb cp => received (fst eb) cp (snd eb)) (zip payloads oks) bs ->
  build_probe_body h bpb bp = body_header kProbeStreamId bp bpb 0 0 0 ++ concat (map block payloads) /\
  exists r,
    parse_probe_body (body_header kProbeStreamId bp bpb q e a ++
                      concat (map (fun '(c, p) => raw_block c p) bs) ++ post) bp = Some r /\
    match r with
    | None => true ∉ oks
    | Some rx => true ∈ oks /\ pr_hdr rx = h /\ pr_n_blocks rx = bpb /\
        pr_n_ok rx = Z.of_nat (length (filter (fun b => b = true) oks)) /\
        forall j, Z.testbit (pr_survivors rx) (Z.of_nat j) = default false (oks !! j)
    end.
Proof.
  intros Hh Hn Hbp Hl payloads H2. unfold kProbeHdrLen in Hbp.
  destruct (payloads_ok (Z.to_nat bpb) h (Z.to_nat bp) (ph_seq h)) as [P1 P2]; [unfold kProbeHdrLen; lia |].
  fold payloads in P1, P2. split.
  { unfold build_probe_body. destruct (Z.ltb_spec bp (Z.of_nat kProbeHdrLen)); [unfold kProbeHdrLen in *; lia |].
    fold payloads. unfold body_header. cbn [app put16]. rewrite (wrap_small 8 bpb) by (unfold in_width; lia). done. }
  assert (Hz : map snd (zip payloads oks) = oks) by (apply snd_zip; lia).
  assert (Hlen : length bs = Z.to_nat bpb).
  { rewrite <- (Forall2_length _ _ _ H2), length_zip_with, P1. lia. }
  assert (Hok : Forall (fun cp => in_width 16 (fst cp) /\ length (snd cp) = Z.to_nat bp) bs).
  { assert (Hp : Forall (fun eb => length (fst eb) = Z.to_nat bp) (zip payloads oks)).
    { apply (Forall_zip_with_fst _ (fun p => length p = Z.to_nat bp));
        [eapply Forall_impl; [exact P2 | by intros p [? _]] | by apply Forall_true]. }
    clear - H2 Hp. induction H2 as [|eb [c p] sent bs Hr _ IH]; [constructor |]. inversion Hp; subst.
    destruct (received_kept _ _ _ _ Hr) as (_ & _ & R3 & R4). constructor; [cbn; split; [done | congruence] | auto]. }
  assert (Hs : Forall (fun eb => exists l, fst eb = pack_hdr h ++ l) (zip payloads oks)).
  { apply (Forall_zip_with_fst _ (fun p => exists l, p = pack_hdr h ++ l));
      [eapply Forall_impl; [exact P2 | by intros p [_ ?]] | by apply Forall_true]. }
  rewrite (parse_probe_framed bp bpb q e a bs post Hn ltac:(unfold in_width; lia) Hlen Hok).
  destruct (read_blocks_sent h bs 0 (zip payloads oks) None 0 0 Hs Hh H2 ltac:(lia) ltac:(lia) ltac:(by left))
    as (sv & -> & Hb). rewrite Hz in *. cbn [mbind option_bind].
  eexists. split; [done |]. case_bool_decide as Ht; [| done]. split; [exact Ht |]. split; [done |]. split; [done |].
  split; [cbn; lia |]. intros j. cbn [pr_survivors]. rewrite Hb, Z.bits_0.
  rewrite (proj2 (Z.leb_le 0 (Z.of_nat j))) by lia. by rewrite Z.sub_0_r, Nat2Z.id.
Qed.
